(* ===== verification/_CoqProject ===== *)
-Q . S2P
Prelude.v
Dataflow.v
Double.v
VariantTypes.v
IROpcodes.v
Globals.v
IR.v
Samples.v
Cfg.v
Verifier.v
VerifierFacts.v
Interpreter.v
Effects.v
Machine.v
InterpreterFacts.v
VerifierSound.v
VerifierSafe.v
Positions.v
OptimizerBase.v
CopyPropagation.v
EnhancedCopyPropagation.v
ReduceRegisters.v
UnreachableCode.v
ConstantFolding.v
ConstantFoldingSound.v
Stuttering.v
DeadCode.v
Peephole.v
RedundantStores.v
ScopeMarks.v
Loops.v
ScalarReplacement.v
Pipeline.v
RegisterAllocator.v
Wire.v
LineTable.v
DebugLayout.v
FunctionSignature.v
DeclarationBlobs.v
ClassSignature.v
PropertySignature.v
GdsMeta.v
Token.v
Lexer.v
LexerFacts.v
LexerSafe.v
LexerStrings.v
GlobalConstants.v
ExportHints.v
SmallVector.v
Ast.v
Parser.v
ParserExpr.v
ParserStmt.v
ParserDecl.v
ParserProgram.v
ParserFacts.v
ParserSafe.v
ParserTotal.v
LexerTyped.v
ParserSamples.v
AstClone.v
Traits.v
Chain.v
Libriscv.v
RISCVCodeGen.v
Encoding.v
Relaxation.v
RelaxationSound.v
Assembly.v
Resolution.v
Branching.v
Linking.v
Pools.v
ElfBuilder.v
ElfLoader.v
ElfFacts.v
DataArea.v
DataAreaFacts.v
TraitConformance.v
