(* ===== verification/Prelude.v ===== *)
(** * A verification library for the GDScript-to-RISC-V compiler

    All source paths below are relative to [src/src/gdscript/compiler/].

    ** The program

    The compiler takes GDScript source text to RISC-V code that runs in a
    sandbox.  Its stages, in the order the driver calls them:

    - the lexer (lexer.cpp) cuts the text into tokens, INDENT and DEDENT
      included;
    - the parser (parser.cpp) builds the AST and the code generator (codegen.cpp)
      lowers it to a register IR (ir.h, ir_opcodes.def) on interned strings;
    - the verifier (ir_verifier.cpp) checks the IR, after code generation and
      between the passes of the optimizer (ir_optimizer.cpp);
    - the interpreter (ir_interpreter.cpp) executes the IR: it is the semantics
      the differential tests hold the generated code to, and shares the
      evaluation of global functions (globals.cpp) and the Variant model
      (variant_types.h, variant_layout.h) with the constant folder;
    - the register allocator (register_allocator.cpp) and the RISC-V back end
      (riscv_codegen.cpp) emit machine code, and elf_builder.cpp the binary;
    - what the host has to know of the script goes into metadata blobs
      (function_signature.cpp, property_signature.cpp, line_table.cpp,
      debug_layout.cpp), gathered in one section by gdsmeta.cpp.

    The library follows the chain but for code generation: the lexer and the
    parser; the IR with its verifier, optimizer and interpreter; the register
    allocator and the assembler layer of the back end, on the instructions of the
    sandbox (src/ext/libriscv/); the metadata.

    ** The files

    Foundations.
    - [Prelude] (this file): wrap-around of machine integers, the outcome type
      (a value, an exception of the source, undefined behaviour, exhausted
      budget), the state-and-exception monad [M], bounded iteration, facts on
      lists and the hint database [gdsc].
    - [Dataflow]: the work-list loop the verifier and the optimizer share, over
      the classes [Worklist] (what a queue promises) and [EntryLattice] (what a
      merge promises).
    - [Double]: binary64 of the language, and the class [Libm].

    Types and IR.
    - [VariantTypes] (variant_types.h, variant_layout.h), [IROpcodes]
      (ir_opcodes.def and the queries on it), [Globals] (globals.cpp), [IR] (ir.h,
      ir.cpp), [Samples] (the programs the witnesses run).

    Verifier and interpreter.
    - [Cfg]: the block construction both analyses use.  [Verifier]: the checks
      of ir_verifier.cpp, in the order of the source; a failure is a kind and a
      position instead of a message.  [Interpreter]: ir_interpreter.cpp, with
      the members that survive an exception as the state [Interp] and a call's
      registers, program counter and answer as [ExecutionContext].
    - [Effects] splits an instruction's meaning into what it reads and what it
      does, and is proved equal to the interpreter; [Machine], [Positions] and
      [Stuttering] hold the simulations between two bodies.
    - [VerifierFacts], [InterpreterFacts], [VerifierSound], [VerifierSafe]: what
      the two promise.

    Optimizer, one file per pass of ir_optimizer.cpp: [CopyPropagation],
    [EnhancedCopyPropagation], [ReduceRegisters], [UnreachableCode],
    [ConstantFolding] with [ConstantFoldingSound], [DeadCode], [Peephole],
    [RedundantStores], [ScopeMarks], [Loops], [ScalarReplacement]; what they
    share in [OptimizerBase]; the driver in [Pipeline].

    Back end and metadata: [RegisterAllocator]; [Wire] (the byte writer and the
    reader, with its program logic [Safe], [Parses] and [Finishes]),
    [LineTable], [DebugLayout], [FunctionSignature], [DeclarationBlobs] and
    [ClassSignature] (function_signature.cpp), [PropertySignature], [GdsMeta].

    Assembler: [Libriscv] (what the sandbox's decoder and handlers make of an
    instruction word, from src/ext/libriscv/lib/libriscv/), [RISCVCodeGen] (the
    encoders, mnemonics, constants, labels, dense jump tables, branch relaxation
    and label resolution of riscv_codegen.cpp), [Encoding] (what the emitted
    words decode to and do), [Relaxation] and [RelaxationSound] (emitted code as
    instructions instead of words, and [relax_branches] on that view),
    [Assembly] (every emitter keeps that view; where relaxation puts what),
    [Resolution] ([resolve_labels] on words), [Branching] (branches, jumps and
    far pairs executed), [Linking] (all of it together, on code in memory),
    [Pools] (the constants and strings behind the code).

    Binary: [DataArea] (the data behind the code: slots, instance blob, profiling,
    debugging and trait caches, and their labels), [ElfBuilder] (elf_builder.cpp, the
    image byte by byte), [ElfLoader] (how the sandbox loads an image and looks up
    sections and symbols, from src/ext/libriscv/lib/libriscv/), with [DataAreaFacts]
    and [ElfFacts].

    Lexer: [Token], [Lexer] (lexer.cpp as a state monad over the members of the
    class), [LexerFacts], [LexerSafe], [LexerStrings], [LexerTyped].

    Parser: [GlobalConstants] (global_constants.def and its lookup), [ExportHints]
    (export_hints.cpp), [Ast] (ast.h, one inductive type per hierarchy of nodes, a
    pointer being the value it points to), [Parser] (the state, the cursor, the
    errors of the two reporting modes, types and annotations), [ParserExpr],
    [ParserStmt], [ParserDecl] and [ParserProgram] (parser.cpp in its order, and the
    recursion).  [ParserFacts] is a program logic for its monad, with a tactic
    [exec] that runs the cursor's primitives; [ParserSafe] proves every function
    with it, [ParserTotal] ties the recursion, [ParserSamples] holds closed runs.

    Source transformations on the AST: [AstClone] (ast_clone.cpp), [Traits] (traits.cpp:
    the order of a [uses] list, the splicing into scripts and inner classes),
    [Chain] (chain.cpp: a chain of scripts merged into one program),
    [TraitConformance] (trait_conformance.h: whether a class offers what a trait declares).

    Containers: [SmallVector] (small_vector.h, on a heap of blocks that can be freed
    twice or read after it).  The other files use lists for
    the operand lists it holds.

    ** What the theorems show

    - Verified IR runs well: registers are written before they are read, jumps
      find their labels, scope releases follow their marks, and the interpreter
      never indexes an operand list out of range or reads the wrong member of
      an operand ([verified_reads_defined], [verified_jumps_resolve],
      [verified_scopes_marked], [verified_program_never_misreads]).
    - The optimizer refines: the passes of [Pipeline.proved] leave what a call
      of a verified function does as it is, for any arguments, interpreter state
      and callees, and [optimize_preserves_program] composes them to whole
      programs through the pass driver.  Dead code elimination keeps every call that
      returns (a deleted instruction may have been the one that threw).  Constant
      folding is correct instruction by instruction except for CALL and for float
      arithmetic on booleans; peephole
      replacements are correct in windows whose side conditions are stated.
      The remaining passes have the weaker results that are true of them.
    - Where a pass is not an equivalence, a closed theorem next to it executes
      the program before and after ([folding_forgets_no_call_result],
      [folding_loses_boolean], [folding_a_move_stops_a_counter],
      [shared_temporary_is_split], [inverted_comparison_takes_nan],
      [delayed_copy_sees_the_new_value], [zero_loses_its_sign],
      [own_field_is_left_dangling], [every_pass_stops_a_counter]).
    - The loops end: the fixpoints of the verifier, the deletion loop, the
      peephole driver, scalar replacement, the lexer.  The interpreter's
      recursion satisfies the equation of the source.
    - The register allocator's maps stay inverse, and an allocation gives up one
      mapping at most, that of the furthest next use ([allocate_evicts_the_furthest]).
    - The inline integer globals are their documented functions on all 64-bit
      arguments, up to signed overflow ([eval_global_int_correct]).  A call of the
      interpreter that throws leaves its depth incremented: after 256 of them
      nothing can be called ([failed_calls_exhaust_depth]).
    - The metadata comes back as it was written, and decoding an arbitrary byte
      string copies nothing from outside it; the line table's decoder accepts
      exactly the encodings of ascending tables.
    - What the assembler emits is what the sandbox runs: every encoder's fields
      come back from the decoder or the immediate is refused
      ([encoders_roundtrip]), constants of 32 bits load themselves
      ([emit_li_loads]), loads and stores reach base plus offset at any distance
      and a store keeps the value it stores ([wide_load_reads],
      [wide_store_keeps_its_value]).  Relaxation ends and leaves every branch in
      reach, dense tables keep their stride, and linked code, executed, takes
      every branch, jump and call to its label and every 64-bit constant to its
      register ([relax_branches_total], [dense_tables_keep_their_stride],
      [linked_branches_reach], [wide_constants_load]).
    - The binary is what the sandbox expects: its loader accepts every image and maps
      the code and the data area where the code generator said ([image_loads],
      [data_area_loads]), and finds the functions, the other symbols and the
      metadata that were put in ([image_lookups]).
    - The lexer nests its blocks, ends, gives back string literals and, in
      strict mode, never indexes past the source.  The tolerant mode does
      ([tolerant_lexer_reads_past_end]).  Its literal tokens hold values of their
      own kind ([lexer_typed]).
    - On every source the lexer and the parser end, with a program or a located
      error of their own; the only undefined behaviour left is in two unchecked
      conversions and an enum's counter ([source_outcome]).  [ParserSamples] shows what the parser
      accepts, refuses or throws against its own comments.
    - Traits are ordered after those they use, or the program is rejected for a
      stated reason ([traits_order]); a spliced script has every method and variable
      of its traits, and no variable, constant, signal or enum of a trait has the
      name of another ([splice_script_members]); in a merged chain
      the most derived function keeps its name and super finds the next one
      ([merge_chain_dispatch]).
    - A class that conforms to a trait can be used as the trait, whatever the
      engine's ancestry table says ([conformance_sound]), and the search of metadata
      for a trait answers what its lists reach, in as many steps as there are names
      to push ([metadata_uses_reaches]).
    - Small vectors are lists, free what they allocate and touch nothing else
      ([small_vector_refines]).

    ** Budgets

    A loop of the source that is not structural runs on a budget, and reports
    [OutOfFuel] when it is spent.
    - A function body: [MAX_STEPS] iterations, which is the source's own limit.
    - Calls: one unit per frame, 257 of them; the source refuses a depth above
      256 ([call_satisfies_recursion]).
    - Dataflow: the budget of [Dataflow.budget], the number of blocks times the
      height of the lattice ([ir_verify_terminates]).
    - Dead code: two visits per instruction.  Scalar replacement: one round per
      dictionary construction, and the alias search one per instruction.
      Peephole: one window per instruction.  Loop-invariant code motion: one
      round per instruction; each but the last finds a new one.
    - Branch relaxation: two rounds per label use and one to find nothing left;
      every round but the last lengthens a use, and a use grows at most twice.
    - Lexer: [Lexer.budget] characters per scanning loop and [token_budget]
      tokens ([tokenize_total]).
    - Parser: one round of a loop per token left and one more; recursion three
      calls deep per token ([ParserProgram.depth]), since a statement hands its
      first token on to an expression and an operand its [not] to [parse_not]
      before either is consumed ([ParserTotal.callees_run]).
    - Metadata: [TraitConformance.search_budget], the names on all the lists, since a
      trait pushes its list once ([metadata_uses_reaches]).
    - Traits: [Traits.visit] goes one level deeper than there are traits, since no
      trait is twice on its stack ([traits_order]).
    - Small vectors: 64 doublings, after which 64 bits have wrapped.

    ** Parameters

    - [Libm]: the functions of <cmath> that have no correctly rounded meaning.
    - [Libriscv.Memory]: the paged memory of the sandbox, which answers a value
      or a protection fault, and [Libriscv.Config]: its build option for
      compressed instructions.
    - [TraitConformance.TraitNativeSubtype]: the engine's table of ancestors, of
      which nothing is assumed.
    - [HashOrder]: the order in which an [unordered_map] is walked, of which only
      the contents are known.

    ** Not modelled, and why

    - The code generator (codegen.cpp): scopes, type inference and instruction
      selection over the whole AST.  The optimizer's theorems start from verified
      IR.  The source model (source_model.cpp): the tables of classes and files around
      the AST.
    - The lowering of IR in the RISC-V back end (the generators of
      riscv_codegen.cpp with their value caches, riscv_globals.cpp,
      riscv_profiling.cpp, riscv_debug.cpp) and the C back end: emission of code
      on top of the assembler layer.  What it hands to the ELF writer is the record
      [ElfBuilder.Generated].
    - Of the emulator, everything but the integer instructions and the loading of
      static binaries: floating point, atomics, vectors, compressed instructions,
      most of the bit manipulation, dynamic executables, memory shared between
      machines.
    - The printing of IR and tokens: formatting.
    - The enum tables of the engine's classes (class_enums.def and the like): data
      without logic.
    - The drivers and tools: file and console I/O around the stages.
    - The verifier's messages are reduced to the kind of failure and its
      position; the lexer's and the interpreter's are kept as written. *)

From stdpp Require Export base list list_numbers gmap strings.
From Stdlib Require Export ZArith Lia.

Open Scope Z_scope.

(** ** Notation scope and hint database of the development *)

Declare Scope gdsc_scope.
Delimit Scope gdsc_scope with gdsc.
Open Scope gdsc_scope.

Create HintDb gdsc.

(** ** Machine integers

    A [w]-bit integer is a [Z]; the wrap-around of an operation is written out
    with one of the following functions, where the C++ converts. *)

Definition wrapu (w z : Z) : Z := z mod 2 ^ w.

Definition wraps (w z : Z) : Z := (z + 2 ^ (w - 1)) mod 2 ^ w - 2 ^ (w - 1).

(** [static_cast<uint64_t>], [static_cast<int64_t>] and the narrower casts. *)
Abbreviation to_uint64 := (wrapu 64).
Abbreviation to_int64 := (wraps 64).
Abbreviation to_uint32 := (wrapu 32).
Abbreviation to_int32 := (wraps 32).
Abbreviation to_int16 := (wraps 16).

Definition INT64_MIN : Z := - 2 ^ 63.
Definition INT64_MAX : Z := 2 ^ 63 - 1.
Definition UINT64_MAX : Z := 2 ^ 64 - 1.
Definition UINT32_MAX : Z := 2 ^ 32 - 1.

Definition is_int64 (z : Z) : Prop := INT64_MIN <= z <= INT64_MAX.
Definition is_uint32 (z : Z) : Prop := 0 <= z < 2 ^ 32.

#[export] Instance is_int64_dec z : Decision (is_int64 z).
Proof. unfold is_int64. apply _. Defined.
#[export] Instance is_uint32_dec z : Decision (is_uint32 z).
Proof. unfold is_uint32. apply _. Defined.

Lemma wraps_range (w z : Z) : 0 < w -> - 2 ^ (w - 1) <= wraps w z < 2 ^ (w - 1).
Proof.
  intros Hw. unfold wraps.
  assert (2 ^ w = 2 * 2 ^ (w - 1)) as Hp.
  { rewrite <- Z.pow_succ_r by lia. f_equal. lia. }
  pose proof (Z.mod_pos_bound (z + 2 ^ (w - 1)) (2 ^ w)) as Hb.
  assert (0 < 2 ^ (w - 1)) by (apply Z.pow_pos_nonneg; lia). lia.
Qed.

Lemma wraps_id (w z : Z) : 0 < w -> - 2 ^ (w - 1) <= z < 2 ^ (w - 1) -> wraps w z = z.
Proof.
  intros Hw Hz. unfold wraps.
  assert (2 ^ w = 2 * 2 ^ (w - 1)) as Hp.
  { rewrite <- Z.pow_succ_r by lia. f_equal. lia. }
  rewrite Z.mod_small; lia.
Qed.

Lemma wraps_wrapu (w z : Z) : 0 < w -> wraps w (wrapu w z) = wraps w z.
Proof.
  intros Hw. unfold wraps, wrapu.
  assert (0 < 2 ^ w) by (apply Z.pow_pos_nonneg; lia).
  rewrite Z.add_mod_idemp_l by lia. done.
Qed.

Lemma to_int64_range z : is_int64 (to_int64 z).
Proof. pose proof (wraps_range 64 z). unfold is_int64, INT64_MIN, INT64_MAX. simpl in *. lia. Qed.

Lemma to_int64_id z : is_int64 z -> to_int64 z = z.
Proof. intros [? ?]. apply wraps_id; unfold INT64_MIN, INT64_MAX in *; simpl; lia. Qed.

#[export] Hint Resolve to_int64_range : gdsc.

(** ** Outcomes

    A C++ exception, undefined behaviour of the source, and the exhaustion of
    the model's recursion budget are values.  [Recovery] is the exception the
    tolerant parser throws to itself.  [UB] marks a place where the C++
    standard gives the source no meaning (an unchecked [operator[]] past the
    end, the inactive member of a union, a float-to-integer conversion out of
    range); [OutOfFuel] never occurs where a theorem says so. *)

(** The [ErrorType] enumerators the modelled code throws. *)
Inductive ErrorType :=
  | LEXER_ERROR
  | PARSER_ERROR
  | SEMANTIC_ERROR
  | CODEGEN_ERROR
  | OPTIMIZER_ERROR
  | IR_VERIFIER_ERROR
  | RISCV_codegen_ERROR.

Inductive exn :=
  | CompilerException (type : ErrorType) (message : string)
  | LocatedException (type : ErrorType) (message : string) (line column : Z)
  | bad_variant_access
  | out_of_range
  | length_error
  | logic_error
  | bad_alloc
  | Recovery
  | UB (what : string)
  | OutOfFuel.

Inductive outcome (A : Type) : Type :=
  | Ok (a : A)
  | Throw (e : exn).
Arguments Ok {A} a.
Arguments Throw {A} e.

Definition is_Ok {A} (o : outcome A) : Prop := exists a, o = Ok a.

Definition obind {A B} (o : outcome A) (k : A -> outcome B) : outcome B :=
  match o with Ok a => k a | Throw e => Throw e end.

Notation "'let?' x ':=' c 'in' k" := (obind c (fun x => k))
  (at level 10, x pattern, c at level 100, k at level 200) : gdsc_scope.

Section MapM.
Context {A B : Type} (f : A -> outcome B).

Fixpoint omapM (l : list A) : outcome (list B) :=
  match l with
  | [] => Ok []
  | x :: l => let? y := f x in let? ys := omapM l in Ok (y :: ys)
  end.

Definition optM (o : option A) : outcome (option B) :=
  match o with Some x => let? y := f x in Ok (Some y) | None => Ok None end.

End MapM.

Lemma omapM_same {A} (f : A -> outcome A) l : Forall (fun x => f x = Ok x) l -> omapM f l = Ok l.
Proof. induction 1 as [|x l Hx Hl IH]; [done|]. cbn. by rewrite Hx, IH. Qed.

Definition of_option {A} (e : exn) (o : option A) : outcome A :=
  match o with Some a => Ok a | None => Throw e end.

Lemma obind_Ok {A B} (o : outcome A) (k : A -> outcome B) b :
  obind o k = Ok b <-> exists a, o = Ok a /\ k a = Ok b.
Proof. destruct o; simpl; naive_solver. Qed.

(** A loop whose body may throw. *)
Fixpoint foldM {A B} (f : B -> A -> outcome B) (l : list A) (b : B) : outcome B :=
  match l with [] => Ok b | a :: l => let? b := f b a in foldM f l b end.

(** Of a loop: an invariant of what has been processed. *)
Lemma foldM_ind {A B} (I : list A -> B -> Prop) (f : B -> A -> outcome B) l b b' :
  I [] b -> (forall done a b b', a ∈ l -> I done b -> f b a = Ok b' -> I (done ++ [a]) b') -> foldM f l b = Ok b' -> I l b'.
Proof.
  intros H0 Hf. enough (Hgen : forall d l', l = d ++ l' -> forall b, I d b -> foldM f l' b = Ok b' -> I l b').
  { by apply (Hgen [] l). }
  intros d l'. revert d. induction l' as [|a l' IH]; intros d E b1 Hd.
  - intros [= <-]. rewrite app_nil_r in E. by subst.
  - cbn. intros H. apply obind_Ok in H as (b2 & H2 & H). apply (IH (d ++ [a]) ltac:(by rewrite <- app_assoc) b2); [|done].
    eapply Hf; [|done|done]. rewrite E. apply elem_of_app. right. by left.
Qed.

(** Where it throws. *)
Lemma foldM_throw {A B} (f : B -> A -> outcome B) l b e :
  foldM f l b = Throw e -> exists d a l' b', l = d ++ a :: l' /\ foldM f d b = Ok b' /\ f b' a = Throw e.
Proof.
  revert b. induction l as [|a l IH]; intros b; [done|]. cbn. destruct (f b a) as [b1|e1] eqn:E; cbn.
  - intros H. destruct (IH b1 H) as (d & a' & l' & b' & -> & Hd & Ha). exists (a :: d), a', l', b'. split_and!; [done| |done].
    cbn. by rewrite E.
  - intros [= ->]. by exists [], a, l, b.
Qed.

(** ** State and exceptions

    The interpreter's members survive a C++ exception, so a computation always
    returns a state. *)

Definition M (St A : Type) : Type := St -> St * outcome A.

Definition mret {St A} (a : A) : M St A := fun s => (s, Ok a).
Definition mthrow {St A} (e : exn) : M St A := fun s => (s, Throw e).
Definition mbind {St A B} (c : M St A) (k : A -> M St B) : M St B :=
  fun s => match c s with
           | (s', Ok a) => k a s'
           | (s', Throw e) => (s', Throw e)
           end.
Definition mlift {St A} (o : outcome A) : M St A := fun s => (s, o).
Definition mget {St} : M St St := fun s => (s, Ok s).
Definition mmodify {St} (f : St -> St) : M St unit := fun s => (f s, Ok tt).

Notation "'let*' x ':=' c 'in' k" := (mbind c (fun x => k))
  (at level 10, x pattern, c at level 100, k at level 200) : gdsc_scope.

(** ** Bounded iteration

    [iter_until n f s] applies [f] at most [n] times, stopping when it answers
    [inr].  [iter_until_pos] is the same loop on a binary counter: it can be
    evaluated with the source's own limits (20,000,000 steps), because it
    returns as soon as the loop stops. *)

Section Iteration.
Context {S R : Type} (f : S -> S + R).

Fixpoint iter_until (n : nat) (s : S) : S + R :=
  match n with
  | O => inl s
  | Datatypes.S n' => match f s with
                      | inl s' => iter_until n' s'
                      | inr r => inr r
                      end
  end.

Fixpoint iter_until_pos (p : positive) (s : S) : S + R :=
  match p with
  | xH => f s
  | xO q => match iter_until_pos q s with
            | inl s' => iter_until_pos q s'
            | inr r => inr r
            end
  | xI q => match f s with
            | inl s1 => match iter_until_pos q s1 with
                        | inl s2 => iter_until_pos q s2
                        | inr r => inr r
                        end
            | inr r => inr r
            end
  end.

Lemma iter_until_add (n m : nat) s :
  iter_until (n + m) s =
  match iter_until n s with inl s' => iter_until m s' | inr r => inr r end.
Proof.
  revert s; induction n as [|n IH]; intros s; simpl; [done|].
  destruct (f s); [apply IH | done].
Qed.

Lemma iter_until_pos_nat (p : positive) s :
  iter_until_pos p s = iter_until (Pos.to_nat p) s.
Proof.
  revert s; induction p as [q IH|q IH|]; intros s.
  - rewrite Pos2Nat.inj_xI. simpl.
    destruct (f s) as [s1|r]; [|done].
    rewrite Nat.add_0_r, iter_until_add, IH.
    destruct (iter_until (Pos.to_nat q) s1); [apply IH|done].
  - rewrite Pos2Nat.inj_xO. simpl.
    rewrite Nat.add_0_r, iter_until_add, IH.
    destruct (iter_until (Pos.to_nat q) s); [apply IH|done].
  - simpl. by destruct (f s).
Qed.

(** A larger budget never changes a result that was reached. *)
Lemma iter_until_mono (n m : nat) s r :
  (n <= m)%nat -> iter_until n s = inr r -> iter_until m s = inr r.
Proof.
  intros Hle Hn. replace m with (n + (m - n))%nat by lia.
  by rewrite iter_until_add, Hn.
Qed.

(** A loop whose steps decrease a measure stops. *)
Lemma iter_until_measure (measure : S -> nat) (n : nat) s :
  (forall s s', f s = inl s' -> (measure s' < measure s)%nat) ->
  (measure s < n)%nat -> exists r, iter_until n s = inr r.
Proof.
  intros Hdec. revert s. induction n as [|n IH]; intros s Hlt; [lia|]. simpl.
  destruct (f s) as [s'|r] eqn:E; [|by exists r]. apply IH. apply Hdec in E. lia.
Qed.

(** What a loop that stops preserves. *)
Lemma iter_until_invariant (P : S -> Prop) (Q : R -> Prop) (n : nat) s r :
  (forall s s', P s -> f s = inl s' -> P s') -> (forall s r, P s -> f s = inr r -> Q r) ->
  P s -> iter_until n s = inr r -> Q r.
Proof.
  intros Hp Hq. revert s. induction n as [|n IH]; intros s Hs Hn; [done|]. simpl in Hn.
  destruct (f s) as [s'|r'] eqn:E; [by eauto|]. injection Hn as <-. by eauto.
Qed.
End Iteration.

(** ** Lists *)

(** [l[i]] where the source indexes without a check. *)
Definition nth_ub {A} (l : list A) (i : nat) : outcome A :=
  of_option (UB "index past the end") (l !! i).

(** [v.at(i)]. *)
Definition nth_at {A} (l : list A) (i : nat) : outcome A :=
  of_option out_of_range (l !! i).

Lemma lookup_seq_nat (i n j : nat) x : seq i n !! j = Some x <-> (j < n)%nat /\ x = (i + j)%nat.
Proof. rewrite lookup_seq. naive_solver. Qed.

(** ** Proof automation *)

Ltac case_outcome :=
  match goal with
  | H : context [match ?o with Ok _ => _ | Throw _ => _ end] |- _ =>
      let E := fresh "E" in destruct o eqn:E
  | |- context [match ?o with Ok _ => _ | Throw _ => _ end] =>
      let E := fresh "E" in destruct o eqn:E
  end.

Ltac destruct_matches_in H :=
  repeat match type of H with
         | context [match ?x with _ => _ end] => destruct x eqn:?; simplify_eq/=
         end.
