(* ===== verification/Dataflow.v ===== *)
(** * Forward dataflow over basic blocks

    The verifier's definedness and scope-mark analyses, the constant folder and
    the reachability scan of the optimizer are the same loop with a different
    lattice and a different work list (a priority queue without duplicates, a
    queue, a stack).  This file holds the loop once, with its two theorems: the
    entries it stops with form a post-fixpoint, and it stops after at most
    [budget] visits.

    An entry is [None] while its block is not known to be reachable. *)

From S2P Require Import Prelude.

(** What a work list promises to the loop: nothing pushed is lost, a pop takes
    one element. *)
Class Worklist (push : nat -> list nat -> list nat) (pop : list nat -> option (nat * list nat)) : Prop := {
  push_elem : forall s wl, s ∈ push s wl;
  push_keeps : forall s wl x, x ∈ wl -> x ∈ push s wl;
  push_only : forall s wl x, x ∈ push s wl -> x = s \/ x ∈ wl;
  push_length : forall s wl, (length (push s wl) <= S (length wl))%nat;
  pop_None : forall wl, pop wl = None -> wl = [];
  pop_keeps : forall wl b wl' x, pop wl = Some (b, wl') -> x ∈ wl -> x = b \/ x ∈ wl';
  pop_sub : forall wl b wl' x, pop wl = Some (b, wl') -> x = b \/ x ∈ wl' -> x ∈ wl;
  pop_length : forall wl b wl', pop wl = Some (b, wl') -> length wl = S (length wl')
}.

(** What a lattice of entry states promises: [merge] answers a lower bound and
    whether it differs from its first argument, in which case the height drops. *)
Class EntryLattice {S : Type} (le : S -> S -> Prop) (merge : S -> S -> S * bool)
    (wf : S -> Prop) (height : S -> nat) (top : nat) : Prop := {
  le_refl : forall e, le e e;
  le_trans : forall a b c, le a b -> le b c -> le a c;
  merge_le_l : forall a b, wf a -> wf b -> le (merge a b).1 a;
  merge_le_r : forall a b, wf a -> wf b -> le (merge a b).1 b;
  merge_same : forall a b, wf a -> wf b -> (merge a b).2 = false -> (merge a b).1 = a;
  merge_drop : forall a b, wf a -> wf b -> (merge a b).2 = true -> (height (merge a b).1 < height a)%nat;
  merge_wf : forall a b, wf a -> wf b -> wf (merge a b).1;
  wf_height : forall e, wf e -> (height e <= top)%nat
}.

Section Loop.
Context {S : Type}.
Context (succs : nat -> list nat) (transfer : nat -> S -> S) (merge : S -> S -> S * bool).
Context (push : nat -> list nat -> list nat) (pop : list nat -> option (nat * list nat)).

Abbreviation entries := (list (option S)).

(** The state [out] flows into block [s]. *)
Definition flow_into (out : S) (st : entries * list nat) (s : nat) : entries * list nat :=
  let '(es, wl) := st in
  match es !! s with
  | Some None => (<[s := Some out]> es, push s wl)
  | Some (Some e) =>
      let '(e', changed) := merge e out in
      (<[s := Some e']> es, if changed then push s wl else wl)
  | None => (es, wl)
  end.

(** One visit: the popped block's entry is transferred and flows into its
    successors. *)
Definition visit (st : entries * list nat) : (entries * list nat) + entries :=
  let '(es, wl) := st in
  match pop wl with
  | None => inr es
  | Some (b, wl') =>
      match es !! b with
      | Some (Some e) => inl (fold_left (flow_into (transfer b e)) (succs b) (es, wl'))
      | _ => inl (es, wl')
      end
  end.

(** [n] blocks, block 0 starting with [e0]. *)
Definition start (n : nat) (e0 : S) : entries * list nat :=
  (<[0%nat := Some e0]> (replicate n None), push 0 []).

Definition solve (fuel n : nat) (e0 : S) : option entries :=
  match iter_until visit fuel (start n e0) with
  | inr es => Some es
  | inl _ => None
  end.

(** ** Correctness *)

Context {le : S -> S -> Prop} {wf : S -> Prop} {height : S -> nat} {top : nat}.
Context `{!Worklist push pop} `{!EntryLattice le merge wf height top}.
Hypothesis transfer_wf : forall b e, wf e -> wf (transfer b e).

Definition entries_wf (es : entries) : Prop := forall b e, es !! b = Some (Some e) -> wf e.

(** Everything a block's exit promises is promised by its successors' entries. *)
Definition settled (es : entries) (b : nat) : Prop :=
  forall e s, es !! b = Some (Some e) -> s ∈ succs b -> (s < length es)%nat ->
  exists es', es !! s = Some (Some es') /\ le es' (transfer b e).

Definition postfixpoint (es : entries) : Prop := forall b, settled es b.

(** [es2] is reached from [es1]: entries appear or go down. *)
Definition descends (es1 es2 : entries) : Prop :=
  length es1 = length es2 /\
  forall b e, es1 !! b = Some (Some e) -> exists e', es2 !! b = Some (Some e') /\ le e' e.

#[local] Instance descends_refl : Reflexive descends.
Proof. intros es. split; [done|]. intros b e ?. exists e. split; [done|apply le_refl]. Qed.

#[local] Instance descends_trans : Transitive descends.
Proof.
  intros a b c [Hl1 H1] [Hl2 H2]. split; [congruence|]. intros x e Hx.
  destruct (H1 x e Hx) as (e' & Hb & Hle). destruct (H2 x e' Hb) as (e'' & Hc & Hle').
  exists e''. split; [done|by eapply le_trans].
Qed.

(** What one [flow_into] does. *)
Lemma flow_into_spec out es wl s es' wl' :
  entries_wf es -> wf out -> flow_into out (es, wl) s = (es', wl') ->
  entries_wf es' /\ descends es es' /\ (forall x, x ∈ wl -> x ∈ wl')
  /\ ((s < length es)%nat -> exists e, es' !! s = Some (Some e) /\ le e out)
  /\ (forall b, b ∉ wl' -> es' !! b = es !! b).
Proof.
  intros Hwf Hout Hf. unfold flow_into in Hf.
  destruct (es !! s) as [[e|]|] eqn:Es.
  - destruct (merge e out) as [e' changed] eqn:Em. simplify_eq.
    pose proof (Hwf _ _ Es) as He.
    pose proof (merge_le_l e out He Hout) as Hl. pose proof (merge_le_r e out He Hout) as Hr.
    pose proof (merge_wf e out He Hout) as Hw. pose proof (merge_same e out He Hout) as Hsame.
    rewrite Em in Hl, Hr, Hw, Hsame. simpl in *.
    pose proof (lookup_lt_Some _ _ _ Es) as Hlt.
    split_and!.
    + intros b x Hx. destruct (decide (b = s)) as [->|Hne].
      * rewrite list_lookup_insert_eq in Hx by done. by simplify_eq.
      * rewrite list_lookup_insert_ne in Hx by done. eauto.
    + split; [by rewrite length_insert|]. intros b x Hx. destruct (decide (b = s)) as [->|Hne].
      * rewrite list_lookup_insert_eq by done. simplify_eq. eauto.
      * rewrite list_lookup_insert_ne by done. exists x. split; [done|apply le_refl].
    + intros x Hx. destruct changed; [by apply push_keeps|done].
    + intros _. rewrite list_lookup_insert_eq by done. eauto.
    + intros b Hb. destruct (decide (b = s)) as [->|Hne]; [|by rewrite list_lookup_insert_ne].
      destruct changed; [exfalso; apply Hb, push_elem|].
      rewrite list_lookup_insert_eq, Es by done. by rewrite Hsame.
  - simplify_eq. pose proof (lookup_lt_Some _ _ _ Es) as Hlt. split_and!.
    + intros b x Hx. destruct (decide (b = s)) as [->|Hne].
      * rewrite list_lookup_insert_eq in Hx by done. by simplify_eq.
      * rewrite list_lookup_insert_ne in Hx by done. eauto.
    + split; [by rewrite length_insert|]. intros b x Hx. destruct (decide (b = s)) as [->|Hne].
      * congruence.
      * rewrite list_lookup_insert_ne by done. exists x. split; [done|apply le_refl].
    + intros x Hx. by apply push_keeps.
    + intros _. rewrite list_lookup_insert_eq by done. exists out. split; [done|apply le_refl].
    + intros b Hb. destruct (decide (b = s)) as [->|Hne]; [exfalso; apply Hb, push_elem|].
      by rewrite list_lookup_insert_ne.
  - simplify_eq. split_and!; try done. intros Hlt.
    apply lookup_lt_is_Some in Hlt as [? ?]. congruence.
Qed.

Lemma flow_all_spec out ss es wl es' wl' :
  entries_wf es -> wf out -> fold_left (flow_into out) ss (es, wl) = (es', wl') ->
  entries_wf es' /\ descends es es' /\ (forall x, x ∈ wl -> x ∈ wl')
  /\ (forall s, s ∈ ss -> (s < length es)%nat -> exists e, es' !! s = Some (Some e) /\ le e out)
  /\ (forall b, b ∉ wl' -> es' !! b = es !! b).
Proof.
  revert es wl. induction ss as [|s ss IH]; intros es wl Hwf Hout Hf.
  { simpl in Hf. simplify_eq. split_and!; try done. intros s Hs. by apply elem_of_nil in Hs. }
  cbn [fold_left] in Hf. destruct (flow_into out (es, wl) s) as [es1 wl1] eqn:E1.
  destruct (flow_into_spec _ _ _ _ _ _ Hwf Hout E1) as (Hwf1 & Hd1 & Hk1 & Hs1 & Hsame1).
  destruct (IH _ _ Hwf1 Hout Hf) as (Hwf2 & Hd2 & Hk2 & Hs2 & Hsame2).
  split_and!; [done|by etrans|by auto| |].
  - intros x [->|Hx]%elem_of_cons Hlt.
    + destruct (Hs1 Hlt) as (e & He & Hle). destruct Hd2 as [_ Hd2].
      destruct (Hd2 _ _ He) as (e' & He' & Hle'). exists e'. split; [done|by eapply le_trans].
    + apply Hs2; [done|]. destruct Hd1 as [<- _]. done.
  - intros b Hb. rewrite Hsame2 by done. apply Hsame1. intros Hin. apply Hb. auto.
Qed.

(** The loop invariant: a block that is not waiting is settled. *)
Definition loop_invariant (st : entries * list nat) : Prop :=
  entries_wf st.1 /\ forall b, b ∉ st.2 -> settled st.1 b.

Lemma visit_invariant st st' : loop_invariant st -> visit st = inl st' -> loop_invariant st'.
Proof.
  destruct st as [es wl]. intros [Hwf Hinv] Hv. simpl in Hwf, Hinv. unfold visit in Hv.
  destruct (pop wl) as [[b wl']|] eqn:Ep; [|done].
  destruct (es !! b) as [[e|]|] eqn:Eb; simplify_eq.
  - destruct (fold_left _ _ _) as [es2 wl2] eqn:Ef.
    destruct (flow_all_spec _ _ _ _ _ _ Hwf (transfer_wf b e (Hwf _ _ Eb)) Ef)
      as (Hwf2 & [Hlen Hd] & Hk & Hs & Hsame).
    split; [done|]. simpl. intros x Hx y s Hy Hin Hlt. rewrite Hsame in Hy by done.
    destruct (decide (x = b)) as [->|Hne].
    + assert (y = e) as -> by congruence. apply Hs; [done|by rewrite Hlen].
    + destruct (Hinv x) with (e := y) (s := s) as (z & Hz & Hle); try done.
      * intros Hin'. destruct (pop_keeps _ _ _ _ Ep Hin') as [->|?]; [done|]. by apply Hx, Hk.
      * by rewrite Hlen.
      * destruct (Hd _ _ Hz) as (z' & Hz' & Hle'). exists z'. split; [done|by eapply le_trans].
  - split; [done|]. simpl. intros x Hx y s Hy. apply Hinv; [|done].
    intros Hin. destruct (pop_keeps _ _ _ _ Ep Hin) as [->|?]; [congruence|done].
  - split; [done|]. simpl. intros x Hx y s Hy. apply Hinv; [|done].
    intros Hin. destruct (pop_keeps _ _ _ _ Ep Hin) as [->|?]; [congruence|done].
Qed.

Lemma start_invariant n e0 : wf e0 -> (0 < n)%nat -> loop_invariant (start n e0).
Proof.
  intros He Hn. unfold start. split; simpl.
  - intros b e Hb. destruct (decide (b = 0%nat)) as [->|Hne].
    + rewrite list_lookup_insert_eq in Hb by (by rewrite length_replicate). by simplify_eq.
    + rewrite list_lookup_insert_ne in Hb by done.
      apply lookup_replicate in Hb as [? ?]. done.
  - intros b Hb e s He' _ _. destruct (decide (b = 0%nat)) as [->|Hne].
    + exfalso. apply Hb, push_elem.
    + rewrite list_lookup_insert_ne in He' by done.
      apply lookup_replicate in He' as [? ?]. done.
Qed.

Definition reaches (st : entries * list nat) (es : entries) : Prop := descends st.1 es.

Lemma iter_visit_spec fuel st es :
  loop_invariant st -> iter_until visit fuel st = inr es ->
  entries_wf es /\ postfixpoint es /\ descends st.1 es.
Proof.
  revert st. induction fuel as [|fuel IH]; intros st Hinv Hi; [done|].
  simpl in Hi. destruct (visit st) as [st'|es'] eqn:Ev.
  - destruct (IH st' (visit_invariant _ _ Hinv Ev) Hi) as (H1 & H2 & H3). split_and!; try done.
    etrans; [|done]. destruct st as [es1 wl1], Hinv as [Hwf _]. simpl in *.
    destruct (pop wl1) as [[b wl']|] eqn:Ep; [|done].
    destruct (es1 !! b) as [[e|]|] eqn:Eb; simplify_eq; try done.
    destruct (fold_left _ _ _) as [es2 wl2] eqn:Ef.
    by destruct (flow_all_spec _ _ _ _ _ _ Hwf (transfer_wf b e (Hwf _ _ Eb)) Ef) as (_ & ? & _).
  - simplify_eq. destruct st as [es1 wl1], Hinv as [Hwf Hinv]. simpl in *.
    destruct (pop wl1) as [[b wl']|] eqn:Ep.
    { destruct (es1 !! b) as [[?|]|]; done. }
    simplify_eq. apply pop_None in Ep. subst. split_and!; [done| |done].
    intros b. apply Hinv. apply not_elem_of_nil.
Qed.

(** The result of a loop that stopped is a post-fixpoint above the start. *)
Lemma solve_postfixpoint fuel n e0 es :
  wf e0 -> (0 < n)%nat -> solve fuel n e0 = Some es ->
  entries_wf es /\ postfixpoint es /\ length es = n
  /\ exists e, es !! 0%nat = Some (Some e) /\ le e e0.
Proof.
  intros He Hn Hs. unfold solve in Hs. destruct (iter_until _ _ _) as [|es'] eqn:Ei; simplify_eq.
  destruct (iter_visit_spec _ _ _ (start_invariant n e0 He Hn) Ei) as (Hwf & Hp & [Hlen Hd]).
  split_and!; try done.
  - rewrite <- Hlen. unfold start. simpl. by rewrite length_insert, length_replicate.
  - apply Hd. unfold start. simpl. rewrite list_lookup_insert_eq; [done|by rewrite length_replicate].
Qed.

(** ** Termination *)

Definition entry_weight (o : option S) : nat :=
  match o with None => Datatypes.S top | Some e => height e end.

Definition total_weight (es : entries) : nat := sum_list (map entry_weight es).

(** The number of visits the loop can make. *)
Definition budget (n : nat) : nat := Datatypes.S (n * Datatypes.S top + 1).

Lemma total_weight_insert es s o o' :
  es !! s = Some o ->
  (total_weight (<[s := o']> es) + entry_weight o = total_weight es + entry_weight o')%nat.
Proof.
  unfold total_weight. revert s. induction es as [|x es IH]; intros [|s] Hs; simplify_eq/=; [lia|].
  specialize (IH s Hs). lia.
Qed.

Lemma flow_into_weight out es wl s es' wl' :
  entries_wf es -> wf out -> flow_into out (es, wl) s = (es', wl') ->
  (total_weight es' + length wl' <= total_weight es + length wl)%nat.
Proof.
  intros Hwf Hout Hf. unfold flow_into in Hf. destruct (es !! s) as [[e|]|] eqn:Es.
  - destruct (merge e out) as [e' changed] eqn:Em. simplify_eq. pose proof (Hwf _ _ Es) as He.
    pose proof (merge_drop e out He Hout) as Hdrop. pose proof (merge_same e out He Hout) as Hsame.
    rewrite Em in Hdrop, Hsame. simpl in *.
    pose proof (total_weight_insert es s (Some e) (Some e') Es) as Hw. simpl in Hw.
    destruct changed.
    + pose proof (push_length s wl). specialize (Hdrop eq_refl). lia.
    + rewrite (Hsame eq_refl) in *. lia.
  - simplify_eq. pose proof (total_weight_insert es s None (Some out) Es) as Hw. simpl in Hw.
    pose proof (push_length s wl). pose proof (wf_height out Hout). lia.
  - simplify_eq. lia.
Qed.

Lemma flow_all_weight out ss es wl es' wl' :
  entries_wf es -> wf out -> fold_left (flow_into out) ss (es, wl) = (es', wl') ->
  (total_weight es' + length wl' <= total_weight es + length wl)%nat.
Proof.
  revert es wl. induction ss as [|s ss IH]; intros es wl Hwf Hout Hf;
    cbn [fold_left] in Hf; [by simplify_eq|].
  destruct (flow_into out (es, wl) s) as [es1 wl1] eqn:E1.
  pose proof (flow_into_weight _ _ _ _ _ _ Hwf Hout E1).
  destruct (flow_into_spec _ _ _ _ _ _ Hwf Hout E1) as (Hwf1 & _).
  specialize (IH _ _ Hwf1 Hout Hf). lia.
Qed.

Lemma visit_weight es wl es' wl' :
  entries_wf es -> visit (es, wl) = inl (es', wl') ->
  (total_weight es' + length wl' < total_weight es + length wl)%nat.
Proof.
  intros Hwf Hv. unfold visit in Hv. destruct (pop wl) as [[b wl1]|] eqn:Ep; [|done].
  apply pop_length in Ep. destruct (es !! b) as [[e|]|] eqn:Eb; simplify_eq; [|lia|lia].
  destruct (fold_left _ _ _) as [es2 wl2] eqn:Ef. simplify_eq.
  pose proof (flow_all_weight _ _ _ _ _ _ Hwf (transfer_wf b e (Hwf _ _ Eb)) Ef). lia.
Qed.

Lemma iter_visit_stops fuel st :
  loop_invariant st -> (total_weight st.1 + length st.2 < fuel)%nat ->
  exists es, iter_until visit fuel st = inr es.
Proof.
  revert st. induction fuel as [|fuel IH]; intros st Hinv Hlt; [lia|]. simpl.
  destruct (visit st) as [st'|es] eqn:Ev; [|by eexists].
  pose proof (visit_invariant _ _ Hinv Ev) as Hinv'.
  apply IH; [done|]. destruct st as [es wl], st' as [es' wl'], Hinv as [Hwf _].
  pose proof (visit_weight _ _ _ _ Hwf Ev). simpl in *. lia.
Qed.

Lemma total_weight_replicate n : total_weight (replicate n None) = (n * Datatypes.S top)%nat.
Proof.
  unfold total_weight. induction n as [|n IH]; [done|].
  change (entry_weight None + sum_list (map entry_weight (replicate n None)) = Datatypes.S n * Datatypes.S top)%nat.
  rewrite IH. simpl. lia.
Qed.

(** [budget n] visits are enough. *)
Lemma solve_stops n e0 : wf e0 -> (0 < n)%nat -> exists es, solve (budget n) n e0 = Some es.
Proof.
  intros He Hn. destruct (iter_visit_stops (budget n) (start n e0)) as [es Hes].
  - by apply start_invariant.
  - unfold start, budget. simpl.
    assert (replicate n (@None S) !! 0%nat = Some None) as Hl by (by apply lookup_replicate).
    pose proof (total_weight_insert _ 0 None (Some e0) Hl) as Hw. simpl in Hw.
    rewrite total_weight_replicate in Hw. pose proof (wf_height e0 He).
    pose proof (push_length 0%nat []). simpl in *. lia.
  - exists es. unfold solve. by rewrite Hes.
Qed.

End Loop.

(** ** Work lists *)

(** [std::priority_queue] on indices with the [queued] flags: ascending, no
    duplicates. *)
Fixpoint sorted_insert (s : nat) (wl : list nat) : list nat :=
  match wl with
  | [] => [s]
  | x :: wl' => if (s <? x)%nat then s :: wl
                else if (s =? x)%nat then wl
                else x :: sorted_insert s wl'
  end.

Definition pop_front (wl : list nat) : option (nat * list nat) :=
  match wl with [] => None | x :: wl => Some (x, wl) end.

(** [std::queue]. *)
Definition push_back (s : nat) (wl : list nat) : list nat := wl ++ [s].

(** [push_back]/[pop_back] on a vector, kept with its last element first. *)
Definition push_stack (s : nat) (wl : list nat) : list nat := s :: wl.

Lemma sorted_insert_elem s wl x : x ∈ sorted_insert s wl <-> x = s \/ x ∈ wl.
Proof.
  induction wl as [|y wl IH]; simpl; [set_solver|].
  destruct (Nat.ltb_spec s y); [set_solver|]. destruct (Nat.eqb_spec s y) as [->|]; set_solver.
Qed.

#[export] Instance priority_worklist : Worklist sorted_insert pop_front.
Proof.
  split.
  - intros s wl. apply sorted_insert_elem. by left.
  - intros s wl x Hx. apply sorted_insert_elem. by right.
  - intros s wl x. apply sorted_insert_elem.
  - intros s wl. induction wl as [|y wl IH]; simpl; [lia|].
    destruct (Nat.ltb_spec s y); simpl; [lia|]. destruct (Nat.eqb_spec s y); simpl; lia.
  - by intros [|].
  - intros [|y wl] b wl' x ? Hx; simplify_eq/=. set_solver.
  - intros [|y wl] b wl' x ? Hx; simplify_eq/=. set_solver.
  - intros [|y wl] b wl' ?; by simplify_eq/=.
Qed.

#[export] Instance queue_worklist : Worklist push_back pop_front.
Proof.
  split.
  - intros s wl. unfold push_back. set_solver.
  - intros s wl x Hx. unfold push_back. set_solver.
  - intros s wl x. unfold push_back. set_solver.
  - intros s wl. unfold push_back. rewrite length_app. simpl. lia.
  - by intros [|].
  - intros [|y wl] b wl' x ? Hx; simplify_eq/=. set_solver.
  - intros [|y wl] b wl' x ? Hx; simplify_eq/=. set_solver.
  - intros [|y wl] b wl' ?; by simplify_eq/=.
Qed.

#[export] Instance stack_worklist : Worklist push_stack pop_front.
Proof.
  split.
  - intros s wl. unfold push_stack. set_solver.
  - intros s wl x Hx. unfold push_stack. set_solver.
  - intros s wl x. unfold push_stack. set_solver.
  - intros s wl. unfold push_stack. simpl. lia.
  - by intros [|].
  - intros [|y wl] b wl' x ? Hx; simplify_eq/=. set_solver.
  - intros [|y wl] b wl' x ? Hx; simplify_eq/=. set_solver.
  - intros [|y wl] b wl' ?; by simplify_eq/=.
Qed.
