(* ===== verification/Double.v ===== *)
(** * IEEE-754 binary64

    The C++ [double] of the source, as the standard library's executable
    specification of binary floating point ([SpecFloat]) at precision 53 and
    maximal exponent 1024: round to nearest, ties to even, one NaN.  Nothing of
    this file models the repository; it is the language's arithmetic the
    interpreter, the constant folder and the evaluator of global functions use.
    The transcendental functions of <cmath> have no correctly rounded meaning,
    so they are the fields of the class [Libm] and every theorem holds for any
    choice of them. *)

From S2P Require Import Prelude.
From Stdlib Require Export SpecFloat.

Definition double : Type := spec_float.

#[export] Instance double_eq_dec : EqDecision double.
Proof. unfold double. intros x y. unfold Decision. decide equality; try apply bool_eq_dec; try apply Z.eq_dec; apply Pos.eq_dec. Defined.

Definition dprec : Z := 53.
Definition demax : Z := 1024.

Definition dadd : double -> double -> double := SFadd dprec demax.
Definition dsub : double -> double -> double := SFsub dprec demax.
Definition dmul : double -> double -> double := SFmul dprec demax.
Definition ddiv : double -> double -> double := SFdiv dprec demax.
Definition dsqrt : double -> double := SFsqrt dprec demax.
Definition dneg : double -> double := SFopp.
Definition dabs : double -> double := SFabs.

Definition deqb : double -> double -> bool := SFeqb.
Definition dltb : double -> double -> bool := SFltb.
Definition dleb : double -> double -> bool := SFleb.
Definition dgtb (x y : double) : bool := dltb y x.
Definition dgeb (x y : double) : bool := dleb y x.

Definition is_nan (x : double) : bool := match x with S754_nan => true | _ => false end.
Definition is_inf (x : double) : bool := match x with S754_infinity _ => true | _ => false end.
Definition is_finite (x : double) : bool := negb (is_nan x) && negb (is_inf x).

(** [static_cast<double>(z)]. *)
Definition double_of_Z (z : Z) : double := binary_normalize dprec demax z 0 false.

(** The literal n / 10^k, correctly rounded. *)
Definition dlit (n : positive) (k : N) : double :=
  ddiv (S754_finite false n 0) (S754_finite false (Z.to_pos (10 ^ Z.of_N k)) 0).

Definition dzero : double := S754_zero false.
Definition d_one : double := double_of_Z 1.

(** The mantissa with its sign, and truncation toward zero and toward minus
    infinity of a finite number. *)
Definition signed_mantissa (s : bool) (m : positive) : Z := if s then Zneg m else Zpos m.

Definition ztrunc (s : bool) (m : positive) (e : Z) : Z :=
  if 0 <=? e then signed_mantissa s m * 2 ^ e
  else Z.quot (signed_mantissa s m) (2 ^ (- e)).

Definition zfloor (s : bool) (m : positive) (e : Z) : Z :=
  if 0 <=? e then signed_mantissa s m * 2 ^ e
  else Z.div (signed_mantissa s m) (2 ^ (- e)).

(** [static_cast<int64_t>(x)]: defined only when the truncated value fits. *)
Definition int64_of_double (x : double) : outcome Z :=
  match x with
  | S754_zero _ => Ok 0
  | S754_finite s m e =>
      let z := ztrunc s m e in
      if bool_decide (is_int64 z) then Ok z else Throw (UB "float to int64_t out of range")
  | _ => Throw (UB "float to int64_t out of range")
  end.

(** [std::floor] and [std::ceil]. *)
Definition dfloor (x : double) : double :=
  match x with
  | S754_finite s m e => binary_normalize dprec demax (zfloor s m e) 0 s
  | _ => x
  end.
Definition dceil (x : double) : double := dneg (dfloor (dneg x)).

(** [std::fmod]: exact remainder of truncated division, with the sign of [x]. *)
Definition dfmod (x y : double) : double :=
  match x, y with
  | S754_nan, _ | _, S754_nan => S754_nan
  | S754_infinity _, _ => S754_nan
  | _, S754_zero _ => S754_nan
  | _, S754_infinity _ => x
  | S754_zero _, _ => x
  | S754_finite s mx ex, S754_finite _ my ey =>
      let e := Z.min ex ey in
      let r := (Zpos mx * 2 ^ (ex - e)) mod (Zpos my * 2 ^ (ey - e)) in
      match r with
      | 0 => S754_zero s
      | _ => binary_normalize dprec demax (if s then - r else r) e s
      end
  end.

(** The functions of <cmath> whose results depend on the C library. *)
Class Libm : Type := {
  d_sin : double -> double;  d_cos : double -> double;  d_tan : double -> double;
  d_asin : double -> double; d_acos : double -> double; d_atan : double -> double;
  d_sinh : double -> double; d_cosh : double -> double; d_tanh : double -> double;
  d_asinh : double -> double; d_acosh : double -> double; d_atanh : double -> double;
  d_exp : double -> double;  d_log : double -> double;  d_log10 : double -> double;
  d_atan2 : double -> double -> double;
  d_pow : double -> double -> double
}.

(** An instance for evaluating programs that call none of them. *)
Definition identity_libm : Libm := {|
  d_sin := id; d_cos := id; d_tan := id; d_asin := id; d_acos := id; d_atan := id;
  d_sinh := id; d_cosh := id; d_tanh := id; d_asinh := id; d_acosh := id; d_atanh := id;
  d_exp := id; d_log := id; d_log10 := id; d_atan2 := fun x _ => x; d_pow := fun x _ => x
|}.

(** ** Order of doubles *)

Lemma SFcompare_swap x y : SFcompare y x = CompOpp <$> SFcompare x y.
Proof.
  destruct x as [sx|sx| |sx mx ex], y as [sy|sy| |sy my ey];
    try destruct sx; try destruct sy; try done; simpl;
    rewrite (Z.compare_antisym ex ey); destruct (Z.compare ex ey); simpl; try done;
    change (Pos.compare_cont Eq my mx) with (Pos.compare my mx);
    change (Pos.compare_cont Eq mx my) with (Pos.compare mx my);
    rewrite (Pos.compare_antisym mx my); by destruct (Pos.compare mx my).
Qed.

Lemma SFcompare_None x y : SFcompare x y = None <-> is_nan x || is_nan y = true.
Proof.
  destruct x as [sx|sx| |sx mx ex], y as [sy|sy| |sy my ey];
    try destruct sx; try destruct sy; simpl; try done;
    destruct (Z.compare ex ey); done.
Qed.

(** Negating an ordered comparison inverts it, unless an operand is NaN. *)
Lemma dgeb_negb_dltb x y :
  is_nan x || is_nan y = false -> dgeb x y = negb (dltb x y).
Proof.
  intros Hn. unfold dgeb, dltb, dleb, SFltb, SFleb. rewrite (SFcompare_swap x y).
  destruct (SFcompare x y) as [[]|] eqn:E; try done.
  apply SFcompare_None in E. congruence.
Qed.

Lemma dgtb_negb_dleb x y :
  is_nan x || is_nan y = false -> dgtb x y = negb (dleb x y).
Proof.
  intros Hn. unfold dgtb, dltb, dleb, SFltb, SFleb. rewrite (SFcompare_swap x y).
  destruct (SFcompare x y) as [[]|] eqn:E; try done.
  apply SFcompare_None in E. congruence.
Qed.

Lemma nan_unordered x y :
  is_nan x || is_nan y = true ->
  deqb x y = false /\ dltb x y = false /\ dleb x y = false.
Proof.
  intros Hn%SFcompare_None. unfold deqb, dltb, dleb, SFeqb, SFltb, SFleb.
  by rewrite Hn.
Qed.
