(* ===== verification/VariantTypes.v ===== *)
(** * Variant types, type sets and the Variant layout

    Models [variant_types.h] (the enumeration [Variant::Type] and the name
    table behind [as] casts), [type_set.h] (the 64-bit mask of accepted types)
    and [variant_layout.h] (the sizes and offsets of a Variant in guest
    memory). *)

From S2P Require Import Prelude.

Module Variant.

Inductive Type_ :=
  | NIL
  (* atomic types *)
  | BOOL | INT | FLOAT | STRING
  (* math types *)
  | VECTOR2 | VECTOR2I | RECT2 | RECT2I | VECTOR3 | VECTOR3I | TRANSFORM2D
  | VECTOR4 | VECTOR4I | PLANE | QUATERNION | AABB | BASIS | TRANSFORM3D
  | PROJECTION
  (* misc types *)
  | COLOR | STRING_NAME | NODE_PATH | RID | OBJECT | CALLABLE | SIGNAL
  | DICTIONARY | ARRAY
  (* typed arrays *)
  | PACKED_BYTE_ARRAY | PACKED_INT32_ARRAY | PACKED_INT64_ARRAY
  | PACKED_FLOAT32_ARRAY | PACKED_FLOAT64_ARRAY | PACKED_STRING_ARRAY
  | PACKED_VECTOR2_ARRAY | PACKED_VECTOR3_ARRAY | PACKED_COLOR_ARRAY
  | PACKED_VECTOR4_ARRAY
  | VARIANT_MAX.

(** The enumerator's [uint32_t] value. *)
Definition num (t : Type_) : Z :=
  match t with
  | NIL => 0 | BOOL => 1 | INT => 2 | FLOAT => 3 | STRING => 4
  | VECTOR2 => 5 | VECTOR2I => 6 | RECT2 => 7 | RECT2I => 8 | VECTOR3 => 9
  | VECTOR3I => 10 | TRANSFORM2D => 11 | VECTOR4 => 12 | VECTOR4I => 13
  | PLANE => 14 | QUATERNION => 15 | AABB => 16 | BASIS => 17
  | TRANSFORM3D => 18 | PROJECTION => 19
  | COLOR => 20 | STRING_NAME => 21 | NODE_PATH => 22 | RID => 23
  | OBJECT => 24 | CALLABLE => 25 | SIGNAL => 26 | DICTIONARY => 27
  | ARRAY => 28
  | PACKED_BYTE_ARRAY => 29 | PACKED_INT32_ARRAY => 30
  | PACKED_INT64_ARRAY => 31 | PACKED_FLOAT32_ARRAY => 32
  | PACKED_FLOAT64_ARRAY => 33 | PACKED_STRING_ARRAY => 34
  | PACKED_VECTOR2_ARRAY => 35 | PACKED_VECTOR3_ARRAY => 36
  | PACKED_COLOR_ARRAY => 37 | PACKED_VECTOR4_ARRAY => 38
  | VARIANT_MAX => 39
  end.

#[export] Instance Type_eq_dec : EqDecision Type_.
Proof. solve_decision. Defined.

(** The rows of [type_from_name]; Nil and Object are absent: neither is a
    cast target. *)
Definition type_rows : list (string * Type_) := [
  ("bool", BOOL); ("int", INT); ("float", FLOAT); ("String", STRING);
  ("Vector2", VECTOR2); ("Vector2i", VECTOR2I); ("Rect2", RECT2);
  ("Rect2i", RECT2I); ("Vector3", VECTOR3); ("Vector3i", VECTOR3I);
  ("Transform2D", TRANSFORM2D); ("Vector4", VECTOR4); ("Vector4i", VECTOR4I);
  ("Plane", PLANE); ("Quaternion", QUATERNION); ("AABB", AABB);
  ("Basis", BASIS); ("Transform3D", TRANSFORM3D); ("Projection", PROJECTION);
  ("Color", COLOR); ("StringName", STRING_NAME); ("NodePath", NODE_PATH);
  ("RID", RID); ("Callable", CALLABLE); ("Signal", SIGNAL);
  ("Dictionary", DICTIONARY); ("Array", ARRAY);
  ("PackedByteArray", PACKED_BYTE_ARRAY);
  ("PackedInt32Array", PACKED_INT32_ARRAY);
  ("PackedInt64Array", PACKED_INT64_ARRAY);
  ("PackedFloat32Array", PACKED_FLOAT32_ARRAY);
  ("PackedFloat64Array", PACKED_FLOAT64_ARRAY);
  ("PackedStringArray", PACKED_STRING_ARRAY);
  ("PackedVector2Array", PACKED_VECTOR2_ARRAY);
  ("PackedVector3Array", PACKED_VECTOR3_ARRAY);
  ("PackedColorArray", PACKED_COLOR_ARRAY);
  ("PackedVector4Array", PACKED_VECTOR4_ARRAY)
].

Fixpoint find_row (rows : list (string * Type_)) (name : string) : Type_ :=
  match rows with
  | [] => VARIANT_MAX
  | (n, t) :: rows => if String.eqb n name then t else find_row rows name
  end.

Definition type_from_name (name : string) : Type_ := find_row type_rows name.

End Variant.

(** [Variant::X] used as a number, as C++ converts the unscoped enumerator. *)
Coercion Variant.num : Variant.Type_ >-> Z.

(** ** TypeSet *)
Module TypeSet.

Record TypeSet := mk { mask : Z }.

(** A [uint64_t] mask. *)
Definition wf (s : TypeSet) : Prop := 0 <= mask s < 2 ^ 64.

Definition any (s : TypeSet) : bool := mask s =? 0.

Definition single (s : TypeSet) : bool :=
  negb (mask s =? 0) && (Z.land (mask s) (to_uint64 (mask s - 1)) =? 0).

(** [__builtin_ctzll]: index of the lowest set bit of a non-zero mask. *)
Definition ctz (m : Z) : Z := Z.log2 (Z.land m (- m)).

Definition only (s : TypeSet) : Z :=
  if single s then ctz (mask s) else Variant.VARIANT_MAX.

Definition contains (s : TypeSet) (type : Z) : bool :=
  (type <? Variant.VARIANT_MAX)
  && negb (Z.land (mask s) (to_uint64 (Z.shiftl 1 type)) =? 0).

Definition intersect (s other : TypeSet) : TypeSet := mk (Z.land (mask s) (mask other)).

Definition without (s : TypeSet) (type : Z) : TypeSet :=
  if type <? Variant.VARIANT_MAX
  then mk (Z.land (mask s) (to_uint64 (Z.lnot (Z.shiftl 1 type))))
  else s.

Definition non_null (s : TypeSet) : TypeSet := without s Variant.NIL.

Definition is_nullable_single (s : TypeSet) : bool :=
  contains s Variant.NIL && single (non_null s).

(** The spelling of each type in diagnostics. *)
Definition names : list string := [
  "null"; "bool"; "int"; "float"; "String"; "Vector2"; "Vector2i";
  "Rect2"; "Rect2i"; "Vector3"; "Vector3i"; "Transform2D"; "Vector4";
  "Vector4i"; "Plane"; "Quaternion"; "AABB"; "Basis"; "Transform3D";
  "Projection"; "Color"; "StringName"; "NodePath"; "RID"; "Object";
  "Callable"; "Signal"; "Dictionary"; "Array"; "PackedByteArray";
  "PackedInt32Array"; "PackedInt64Array"; "PackedFloat32Array";
  "PackedFloat64Array"; "PackedStringArray"; "PackedVector2Array";
  "PackedVector3Array"; "PackedColorArray"; "PackedVector4Array" ].

Definition append_alternative (result name : string) : string :=
  if String.eqb result "" then name else (result +:+ " | " +:+ name)%string.

(** Keeps null last. *)
Definition to_string (s : TypeSet) : string :=
  let result :=
    fold_left (fun result i =>
        if Z.land (mask s) (to_uint64 (Z.shiftl 1 (Z.of_nat i))) =? 0 then result
        else append_alternative result (nth i names ""))
      (seq 1 (Z.to_nat Variant.VARIANT_MAX - 1)) ""%string in
  if contains s Variant.NIL then append_alternative result "null" else result.

(** *** Bit-level facts *)

Lemma land_bit_zero (m i : Z) :
  0 <= i -> Z.land m (2 ^ i) = (if Z.testbit m i then 2 ^ i else 0).
Proof.
  intros Hi. apply Z.bits_inj'. intros n Hn.
  rewrite Z.land_spec, Z.pow2_bits_eqb by done.
  destruct (Z.eqb_spec i n) as [<-|Hne].
  - destruct (Z.testbit m i); [|by rewrite Z.bits_0].
    by rewrite Z.pow2_bits_eqb, Z.eqb_refl by done.
  - rewrite andb_false_r. destruct (Z.testbit m i); [|by rewrite Z.bits_0].
    rewrite Z.pow2_bits_eqb by done. symmetry. by apply Z.eqb_neq.
Qed.

Lemma to_uint64_small z : 0 <= z < 2 ^ 64 -> to_uint64 z = z.
Proof. intros. unfold wrapu. by apply Z.mod_small. Qed.

Lemma contains_testbit s type :
  0 <= type -> contains s type = (type <? Variant.VARIANT_MAX) && Z.testbit (mask s) type.
Proof.
  intros Ht. unfold contains. destruct (Z.ltb_spec type Variant.VARIANT_MAX) as [Hlt|]; [|done].
  simpl in Hlt. rewrite Z.shiftl_1_l.
  assert (2 ^ type < 2 ^ 64) by (apply Z.pow_lt_mono_r; lia).
  assert (0 < 2 ^ type) by (apply Z.pow_pos_nonneg; lia).
  rewrite to_uint64_small, land_bit_zero by lia. simpl.
  destruct (Z.testbit (mask s) type); [|done].
  destruct (Z.eqb_spec (2 ^ type) 0); [lia|done].
Qed.

Lemma without_mask_testbit (m type n : Z) :
  0 <= type < 64 -> 0 <= n -> 0 <= m < 2 ^ 64 ->
  Z.testbit (Z.land m (to_uint64 (Z.lnot (Z.shiftl 1 type)))) n
  = Z.testbit m n && negb (n =? type).
Proof.
  intros Ht Hn Hm. rewrite Z.land_spec. unfold wrapu.
  destruct (Z.lt_ge_cases n 64) as [Hlt|Hge].
  - rewrite Z.mod_pow2_bits_low, Z.lnot_spec, Z.shiftl_1_l, Z.pow2_bits_eqb by lia.
    by rewrite (Z.eqb_sym type n).
  - assert (Z.testbit m n = false) as ->; [|done].
    destruct (Z.eq_dec m 0) as [->|]; [apply Z.bits_0|].
    apply Z.bits_above_log2; [lia|].
    assert (Z.log2 m < 64) by (apply Z.log2_lt_pow2; lia). lia.
Qed.

Lemma land_pred_pow2 i : 0 <= i -> Z.land (2 ^ i) (2 ^ i - 1) = 0.
Proof.
  intros Hi. replace (2 ^ i - 1) with (Z.ones i) by (rewrite Z.ones_equiv; lia).
  rewrite Z.land_ones by done. by rewrite Z.mod_same by (apply Z.pow_nonzero; lia).
Qed.

(** Clearing the lowest set bit of a mask leaves the rest: the mask has one
    bit exactly when nothing is left. *)
Lemma land_pred_zero (m : Z) :
  0 < m -> Z.land m (m - 1) = 0 -> m = 2 ^ Z.log2 m.
Proof.
  intros Hm Hland. destruct (Z.log2_spec m Hm) as [Hlo Hhi].
  destruct (Z.eq_dec m (2 ^ Z.log2 m)) as [|Hne]; [done|exfalso].
  assert (0 < 2 ^ Z.log2 m) by (apply Z.pow_pos_nonneg; [lia|apply Z.log2_nonneg]).
  assert (Z.testbit (Z.land m (m - 1)) (Z.log2 m) = true) as Ht.
  { rewrite Z.land_spec, Z.bit_log2 by done. simpl.
    replace (Z.log2 m) with (Z.log2 (m - 1)); [apply Z.bit_log2; lia|].
    apply Z.log2_unique; [apply Z.log2_nonneg|lia]. }
  rewrite Hland, Z.bits_0 in Ht. done.
Qed.

Lemma ctz_pow2 i : 0 <= i -> ctz (2 ^ i) = i.
Proof.
  intros Hi. unfold ctz.
  replace (Z.land (2 ^ i) (- 2 ^ i)) with (2 ^ i); [by apply Z.log2_pow2|].
  rewrite (Z.land_comm), land_bit_zero by done.
  replace (- 2 ^ i) with (Z.lnot (2 ^ i - 1)) by (unfold Z.lnot; lia).
  rewrite Z.lnot_spec by done.
  replace (2 ^ i - 1) with (Z.ones i) by (rewrite Z.ones_equiv; lia).
  by rewrite Z.ones_spec_high by lia.
Qed.

(** *** Specification *)

(** [single] recognises exactly the masks with one bit. *)
Lemma single_spec_aux s : wf s -> single s = true <-> exists i, 0 <= i < 64 /\ mask s = 2 ^ i.
Proof.
  intros [H0 H64]. unfold single. split.
  - intros [Hnz Hl]%andb_prop. apply negb_true_iff, Z.eqb_neq in Hnz. apply Z.eqb_eq in Hl.
    rewrite to_uint64_small in Hl by lia.
    exists (Z.log2 (mask s)). split; [|apply land_pred_zero; lia].
    split; [apply Z.log2_nonneg|apply Z.log2_lt_pow2; lia].
  - intros (i & Hi & ->).
    assert (0 < 2 ^ i) by (apply Z.pow_pos_nonneg; lia).
    assert (2 ^ i < 2 ^ 64) by (apply Z.pow_lt_mono_r; lia).
    rewrite to_uint64_small by lia. rewrite land_pred_pow2 by lia.
    destruct (Z.eqb_spec (2 ^ i) 0); [lia|done].
Qed.

End TypeSet.

(** ** VariantLayout *)
Module VariantLayout.

Record VariantLayout := mk { double_precision : bool }.

Definition DATA_OFFSET : Z := 8.
Definition COMPONENTS : Z := 4.
Definition INT_COMPONENT_SIZE : Z := 4.

Definition real_size (l : VariantLayout) : Z := if double_precision l then 8 else 4.
Definition variant_size (l : VariantLayout) : Z := DATA_OFFSET + COMPONENTS * real_size l.
Definition variant_words (l : VariantLayout) : Z := Z.quot (variant_size l) 8.
Definition real_offset (l : VariantLayout) (index : Z) : Z := DATA_OFFSET + index * real_size l.
Definition int_offset (index : Z) : Z := DATA_OFFSET + index * INT_COMPONENT_SIZE.

End VariantLayout.

(** ** Properties *)

(** The operations of [TypeSet] are set operations on the bits below
    [VARIANT_MAX]: membership reads one bit, [intersect] is intersection,
    [without] removes exactly one type and [only] answers the single member. *)
Theorem typeset_operations (s o : TypeSet.TypeSet) (t u : Z)
    (Hs : TypeSet.wf s) (Ht : 0 <= t < Variant.VARIANT_MAX) (Hu : 0 <= u < Variant.VARIANT_MAX) :
  TypeSet.contains s t = Z.testbit (TypeSet.mask s) t
  /\ TypeSet.contains (TypeSet.intersect s o) t = TypeSet.contains s t && TypeSet.contains o t
  /\ TypeSet.contains (TypeSet.without s t) u = TypeSet.contains s u && negb (u =? t)
  /\ (TypeSet.mask s = 2 ^ t <-> TypeSet.only s = t).
Proof.
  simpl in Ht, Hu.
  assert (forall x, 0 <= x < 39 -> (x <? Variant.VARIANT_MAX) = true) as Hmax
    by (intros; apply Z.ltb_lt; simpl; lia).
  rewrite !TypeSet.contains_testbit by lia. rewrite !Hmax by lia.
  split_and!; [done| | |].
  - simpl. apply Z.land_spec.
  - unfold TypeSet.without. rewrite Hmax by lia. simpl.
    apply TypeSet.without_mask_testbit; [lia|lia|exact Hs].
  - pose proof (TypeSet.single_spec_aux s Hs) as Hsingle. unfold TypeSet.only. split.
    + intros Hm. rewrite (proj2 Hsingle) by (exists t; lia).
      rewrite Hm. apply TypeSet.ctz_pow2. lia.
    + destruct (TypeSet.single s); [|simpl; lia].
      destruct (proj1 Hsingle eq_refl) as (i & Hi & Hm). rewrite Hm, TypeSet.ctz_pow2 by lia. by intros ->.
Qed.

Lemma typeset_operations_witness :
  TypeSet.only (TypeSet.mk 4) = 2
  /\ TypeSet.contains (TypeSet.without (TypeSet.mk 5) 2) 0 = true.
Proof.
  assert (TypeSet.wf (TypeSet.mk 4)) as H4 by (unfold TypeSet.wf; simpl; lia).
  assert (TypeSet.wf (TypeSet.mk 5)) as H5 by (unfold TypeSet.wf; simpl; lia).
  destruct (typeset_operations (TypeSet.mk 4) (TypeSet.mk 5) 2 0 H4) as (_ & _ & _ & [Hf _]);
    [simpl; lia|simpl; lia|].
  destruct (typeset_operations (TypeSet.mk 5) (TypeSet.mk 5) 2 0 H5) as (_ & _ & Hw & _);
    [simpl; lia|simpl; lia|].
  split; [apply Hf; reflexivity|rewrite Hw; reflexivity].
Defined.

(** Every type name a diagnostic prints, other than null and Object, is
    read back by [type_from_name] as the type whose bit printed it. *)
Theorem type_name_roundtrip (t : Variant.Type_) :
  t <> Variant.NIL -> t <> Variant.OBJECT -> t <> Variant.VARIANT_MAX ->
  exists name, TypeSet.names !! Z.to_nat t = Some name
               /\ Variant.type_from_name name = t
               /\ TypeSet.to_string (TypeSet.mk (2 ^ t)) = name.
Proof. destruct t; intros; try done; eexists; vm_compute; done. Qed.

Lemma type_name_roundtrip_witness :
  exists name, TypeSet.names !! 24%nat = Some "Object"%string
               /\ TypeSet.names !! Z.to_nat Variant.SIGNAL = Some name
               /\ Variant.type_from_name name = Variant.SIGNAL.
Proof.
  destruct (type_name_roundtrip Variant.SIGNAL ltac:(discriminate) ltac:(discriminate)
              ltac:(discriminate)) as (name & Hn & Ht & _).
  exists name. split; [reflexivity|split; assumption].
Defined.
