(* ===== verification/IROpcodes.v ===== *)
(** * The IR opcode table

    Models [ir_opcodes.def], the enumerations and the metadata accessors
    generated from it in [ir.h] and [ir.cpp]: one row per opcode with its
    mnemonic, the role of each operand and its effects.  Every query of the
    verifier, the optimizer and the register allocator goes through this table. *)

From S2P Require Import Prelude.

Module IROpcode.

(** The enumeration generated from [ir_opcodes.def], in its order. *)
Inductive IROpcode :=
  | LOAD_IMM | LOAD_FLOAT_IMM | LOAD_BOOL | LOAD_STRING | LOAD_STRING_AS
  | LOAD_GLOBAL | STORE_GLOBAL | MOVE | CONVERT | COERCE | TYPE_TEST | TYPE_TEST_MASK
  | TRAIT_TEST | MAKE_SCOPED | BATCH_GET | CODEPOINT_GET | SCOPE_MARK | SCOPE_RELEASE
  | BREAKPOINT | TYPE_OF | LOAD_NIL | ADD | SUB | MUL | DIV | MOD | NEG | POW
  | CMP_EQ | CMP_NEQ | CMP_LT | CMP_LTE | CMP_GT | CMP_GTE | AND | OR | NOT | BIT_AND
  | BIT_OR | BIT_XOR | BIT_NOT | SHL | SHR | IN | LABEL | JUMP | BRANCH_ZERO
  | BRANCH_NOT_ZERO | BRANCH_EQ | BRANCH_NEQ | BRANCH_LT | BRANCH_LTE | BRANCH_GT
  | BRANCH_GTE | SWITCH | CALL | CALL_HOSTED | CALL_SYSCALL | GET_NODE
  | MAKE_CALLABLE | LOAD_RESOURCE | LOAD_RESOURCE_VAR | RETURN | VCALL | VGET | VSET
  | VARIANT_SET | PRINT | THROW | GLOBAL_CALL | MAKE_VECTOR2 | MAKE_VECTOR3
  | MAKE_VECTOR4 | MAKE_VECTOR2I | MAKE_VECTOR3I | MAKE_VECTOR4I | MAKE_COLOR
  | MAKE_RECT2 | MAKE_RECT2I | MAKE_PLANE | CONSTRUCT | ARRAY_GET | ARRAY_SET
  | ARRAY_APPEND | DICT_SET | DICT_GET_CONST | DICT_SET_CONST | DICT_SET_CONST_STR
  | DICT_HAS_CONST | STRUCT_CHECK | MAKE_ARRAY | MAKE_DICTIONARY
  | MAKE_DICTIONARY_KEYED | MAKE_PACKED_BYTE_ARRAY | MAKE_PACKED_INT32_ARRAY
  | MAKE_PACKED_INT64_ARRAY | MAKE_PACKED_FLOAT32_ARRAY | MAKE_PACKED_FLOAT64_ARRAY
  | MAKE_PACKED_STRING_ARRAY | MAKE_PACKED_VECTOR2_ARRAY | MAKE_PACKED_VECTOR3_ARRAY
  | MAKE_PACKED_COLOR_ARRAY | MAKE_PACKED_VECTOR4_ARRAY | AWAIT | VGET_INLINE
  | VSET_INLINE.

(** The enumerators in declaration order. *)
Definition all : list IROpcode := [
  LOAD_IMM; LOAD_FLOAT_IMM; LOAD_BOOL; LOAD_STRING; LOAD_STRING_AS; LOAD_GLOBAL;
  STORE_GLOBAL; MOVE; CONVERT; COERCE; TYPE_TEST; TYPE_TEST_MASK; TRAIT_TEST;
  MAKE_SCOPED; BATCH_GET; CODEPOINT_GET; SCOPE_MARK; SCOPE_RELEASE; BREAKPOINT;
  TYPE_OF; LOAD_NIL; ADD; SUB; MUL; DIV; MOD; NEG; POW; CMP_EQ; CMP_NEQ; CMP_LT;
  CMP_LTE; CMP_GT; CMP_GTE; AND; OR; NOT; BIT_AND; BIT_OR; BIT_XOR; BIT_NOT; SHL;
  SHR; IN; LABEL; JUMP; BRANCH_ZERO; BRANCH_NOT_ZERO; BRANCH_EQ; BRANCH_NEQ;
  BRANCH_LT; BRANCH_LTE; BRANCH_GT; BRANCH_GTE; SWITCH; CALL; CALL_HOSTED;
  CALL_SYSCALL; GET_NODE; MAKE_CALLABLE; LOAD_RESOURCE; LOAD_RESOURCE_VAR; RETURN;
  VCALL; VGET; VSET; VARIANT_SET; PRINT; THROW; GLOBAL_CALL; MAKE_VECTOR2;
  MAKE_VECTOR3; MAKE_VECTOR4; MAKE_VECTOR2I; MAKE_VECTOR3I; MAKE_VECTOR4I;
  MAKE_COLOR; MAKE_RECT2; MAKE_RECT2I; MAKE_PLANE; CONSTRUCT; ARRAY_GET; ARRAY_SET;
  ARRAY_APPEND; DICT_SET; DICT_GET_CONST; DICT_SET_CONST; DICT_SET_CONST_STR;
  DICT_HAS_CONST; STRUCT_CHECK; MAKE_ARRAY; MAKE_DICTIONARY; MAKE_DICTIONARY_KEYED;
  MAKE_PACKED_BYTE_ARRAY; MAKE_PACKED_INT32_ARRAY; MAKE_PACKED_INT64_ARRAY;
  MAKE_PACKED_FLOAT32_ARRAY; MAKE_PACKED_FLOAT64_ARRAY; MAKE_PACKED_STRING_ARRAY;
  MAKE_PACKED_VECTOR2_ARRAY; MAKE_PACKED_VECTOR3_ARRAY; MAKE_PACKED_COLOR_ARRAY;
  MAKE_PACKED_VECTOR4_ARRAY; AWAIT; VGET_INLINE; VSET_INLINE].

(** [static_cast<size_t>(op)]. *)
Definition index (op : IROpcode) : nat :=
  match op with
  | LOAD_IMM => 0 | LOAD_FLOAT_IMM => 1 | LOAD_BOOL => 2 | LOAD_STRING => 3
  | LOAD_STRING_AS => 4 | LOAD_GLOBAL => 5 | STORE_GLOBAL => 6 | MOVE => 7 | CONVERT => 8
  | COERCE => 9 | TYPE_TEST => 10 | TYPE_TEST_MASK => 11 | TRAIT_TEST => 12
  | MAKE_SCOPED => 13 | BATCH_GET => 14 | CODEPOINT_GET => 15 | SCOPE_MARK => 16
  | SCOPE_RELEASE => 17 | BREAKPOINT => 18 | TYPE_OF => 19 | LOAD_NIL => 20 | ADD => 21
  | SUB => 22 | MUL => 23 | DIV => 24 | MOD => 25 | NEG => 26 | POW => 27 | CMP_EQ => 28
  | CMP_NEQ => 29 | CMP_LT => 30 | CMP_LTE => 31 | CMP_GT => 32 | CMP_GTE => 33
  | AND => 34 | OR => 35 | NOT => 36 | BIT_AND => 37 | BIT_OR => 38 | BIT_XOR => 39
  | BIT_NOT => 40 | SHL => 41 | SHR => 42 | IN => 43 | LABEL => 44 | JUMP => 45
  | BRANCH_ZERO => 46 | BRANCH_NOT_ZERO => 47 | BRANCH_EQ => 48 | BRANCH_NEQ => 49
  | BRANCH_LT => 50 | BRANCH_LTE => 51 | BRANCH_GT => 52 | BRANCH_GTE => 53
  | SWITCH => 54 | CALL => 55 | CALL_HOSTED => 56 | CALL_SYSCALL => 57 | GET_NODE => 58
  | MAKE_CALLABLE => 59 | LOAD_RESOURCE => 60 | LOAD_RESOURCE_VAR => 61 | RETURN => 62
  | VCALL => 63 | VGET => 64 | VSET => 65 | VARIANT_SET => 66 | PRINT => 67 | THROW => 68
  | GLOBAL_CALL => 69 | MAKE_VECTOR2 => 70 | MAKE_VECTOR3 => 71 | MAKE_VECTOR4 => 72
  | MAKE_VECTOR2I => 73 | MAKE_VECTOR3I => 74 | MAKE_VECTOR4I => 75 | MAKE_COLOR => 76
  | MAKE_RECT2 => 77 | MAKE_RECT2I => 78 | MAKE_PLANE => 79 | CONSTRUCT => 80
  | ARRAY_GET => 81 | ARRAY_SET => 82 | ARRAY_APPEND => 83 | DICT_SET => 84
  | DICT_GET_CONST => 85 | DICT_SET_CONST => 86 | DICT_SET_CONST_STR => 87
  | DICT_HAS_CONST => 88 | STRUCT_CHECK => 89 | MAKE_ARRAY => 90 | MAKE_DICTIONARY => 91
  | MAKE_DICTIONARY_KEYED => 92 | MAKE_PACKED_BYTE_ARRAY => 93
  | MAKE_PACKED_INT32_ARRAY => 94 | MAKE_PACKED_INT64_ARRAY => 95
  | MAKE_PACKED_FLOAT32_ARRAY => 96 | MAKE_PACKED_FLOAT64_ARRAY => 97
  | MAKE_PACKED_STRING_ARRAY => 98 | MAKE_PACKED_VECTOR2_ARRAY => 99
  | MAKE_PACKED_VECTOR3_ARRAY => 100 | MAKE_PACKED_COLOR_ARRAY => 101
  | MAKE_PACKED_VECTOR4_ARRAY => 102 | AWAIT => 103 | VGET_INLINE => 104
  | VSET_INLINE => 105
  end%nat.

Lemma all_index op : all !! index op = Some op.
Proof. by destruct op. Qed.

Lemma index_inj op1 op2 : index op1 = index op2 -> op1 = op2.
Proof. intros H. pose proof (all_index op1) as H1. rewrite H, all_index in H1. by simplify_eq. Qed.

(** Opcode equality, decided on the enumerators' values. *)
Definition eqb (op1 op2 : IROpcode) : bool := Nat.eqb (index op1) (index op2).

Lemma eqb_eq op1 op2 : eqb op1 op2 = true <-> op1 = op2.
Proof. unfold eqb. rewrite Nat.eqb_eq. split; [apply index_inj|by intros ->]. Qed.

Lemma eqb_refl op : eqb op op = true.
Proof. by apply eqb_eq. Qed.

Lemma eqb_neq op1 op2 : eqb op1 op2 = false <-> op1 <> op2.
Proof. rewrite <- not_true_iff_false, eqb_eq. done. Qed.

#[export] Instance IROpcode_eq_dec : EqDecision IROpcode.
Proof.
  intros op1 op2. destruct (eqb op1 op2) eqn:E.
  - left. by apply eqb_eq.
  - right. by apply eqb_neq.
Defined.

End IROpcode.
Export (hints) IROpcode.
Abbreviation IROpcode := IROpcode.IROpcode.

(** [IR_OPCODE_COUNT]. *)
Definition IR_OPCODE_COUNT : nat := length IROpcode.all.

Module IROperandKind.

Inductive IROperandKind :=
  | NONE
  | DST
  (* Read-modify-write: copy propagation and DCE must preserve the register. *)
  | INOUT
  | SRC | IMM | FIMM | STR | LBL
  | CNT        (* trailing-list length *)
  | CNT2       (* trailing-list pair count *)
  | SRC_LIST
  | ARG_LIST   (* registers and/or immediates *)
  | LBL_LIST.

#[export] Instance IROperandKind_eq_dec : EqDecision IROperandKind.
Proof. solve_decision. Defined.

End IROperandKind.
Export (hints) IROperandKind.
Abbreviation IROperandKind := IROperandKind.IROperandKind.

(** [IREffect]: one bit each. *)
Definition IR_PURE : Z := 0.
Definition IR_SIDE_EFFECTS : Z := Z.shiftl 1 0.
Definition IR_BRANCH : Z := Z.shiftl 1 1.
Definition IR_FUSED_BRANCH : Z := Z.shiftl 1 2.
Definition IR_TERMINATOR : Z := Z.shiftl 1 3.
Definition IR_LABEL : Z := Z.shiftl 1 4.
Definition IR_CALL : Z := Z.shiftl 1 5.
Definition IR_READS_GLOBAL : Z := Z.shiftl 1 6.
Definition IR_WRITES_GLOBAL : Z := Z.shiftl 1 7.
Definition IR_ARITHMETIC : Z := Z.shiftl 1 8.
Definition IR_COMPARISON : Z := Z.shiftl 1 9.
Definition IR_SIMPLE_LOAD : Z := Z.shiftl 1 10.

(** [IROperandSignature]: the kinds in order; [count] is their number. *)
Record IROperandSignature := SIG { kinds : list IROperandKind }.

Definition MAX_OPERANDS : nat := 8.

Definition sig_count (s : IROperandSignature) : nat := length (kinds s).

Definition is_list_kind (k : IROperandKind) : bool :=
  match k with
  | IROperandKind.SRC_LIST | IROperandKind.ARG_LIST | IROperandKind.LBL_LIST => true
  | _ => false
  end.

(** Ends in a variadic list. *)
Definition is_variadic (s : IROperandSignature) : bool :=
  match last (kinds s) with
  | Some k => is_list_kind k
  | None => false
  end.

(** Operands before the repeating tail. *)
Definition fixed_count (s : IROperandSignature) : nat :=
  if is_variadic s then sig_count s - 1 else sig_count s.

(** Role of operand [index]; NONE past the end. *)
Definition kind_at (s : IROperandSignature) (index : nat) : IROperandKind :=
  if (index <? fixed_count s)%nat then nth index (kinds s) IROperandKind.NONE
  else if is_variadic s then nth (sig_count s - 1) (kinds s) IROperandKind.NONE
  else IROperandKind.NONE.

Record IROpcodeInfo := mkInfo {
  info_mnemonic : string;
  info_signature : IROperandSignature;
  info_effects : Z
}.

Section Table.
Import IROpcode IROperandKind.
#[local] Infix "|||" := Z.lor (at level 50, left associativity).

(** [ir_opcode_info]: the rows of [ir_opcodes.def].  A value outside the
    enumeration, which the C++ answers with an UNKNOWN row, does not exist in
    the model. *)
Definition ir_opcode_info (op : IROpcode.IROpcode) : IROpcodeInfo :=
  match op with
  | LOAD_IMM => mkInfo "LOAD_IMM" (SIG [DST; IMM]) (IR_PURE ||| IR_SIMPLE_LOAD)
  | LOAD_FLOAT_IMM => mkInfo "LOAD_FLOAT_IMM" (SIG [DST; FIMM]) (IR_PURE ||| IR_SIMPLE_LOAD)
  | LOAD_BOOL => mkInfo "LOAD_BOOL" (SIG [DST; IMM]) (IR_PURE ||| IR_SIMPLE_LOAD)
  | LOAD_STRING => mkInfo "LOAD_STRING" (SIG [DST; IMM]) (IR_PURE ||| IR_SIMPLE_LOAD)
  | LOAD_STRING_AS => mkInfo "LOAD_STRING_AS" (SIG [DST; IMM; IMM]) (IR_PURE ||| IR_SIMPLE_LOAD)
  | LOAD_GLOBAL => mkInfo "LOAD_GLOBAL" (SIG [DST; IMM]) (IR_PURE ||| IR_READS_GLOBAL)
  | STORE_GLOBAL => mkInfo "STORE_GLOBAL" (SIG [IMM; SRC]) (IR_SIDE_EFFECTS ||| IR_WRITES_GLOBAL)
  | MOVE => mkInfo "MOVE" (SIG [DST; SRC]) (IR_PURE ||| IR_SIMPLE_LOAD)
  | CONVERT => mkInfo "CONVERT" (SIG [DST; SRC; IMM]) IR_PURE
  | COERCE => mkInfo "COERCE" (SIG [DST; SRC]) IR_PURE
  | TYPE_TEST => mkInfo "TYPE_TEST" (SIG [DST; SRC; IMM]) IR_PURE
  | TYPE_TEST_MASK => mkInfo "TYPE_TEST_MASK" (SIG [DST; SRC; IMM]) IR_PURE
  | TRAIT_TEST => mkInfo "TRAIT_TEST" (SIG [DST; SRC; IMM]) IR_SIDE_EFFECTS
  | MAKE_SCOPED => mkInfo "MAKE_SCOPED" (SIG [DST; SRC; IMM]) IR_PURE
  | BATCH_GET => mkInfo "BATCH_GET" (SIG [DST; IMM; SRC]) IR_PURE
  | CODEPOINT_GET => mkInfo "CODEPOINT_GET" (SIG [DST; IMM; SRC]) IR_PURE
  | SCOPE_MARK => mkInfo "SCOPE_MARK" (SIG [IMM]) IR_SIDE_EFFECTS
  | SCOPE_RELEASE => mkInfo "SCOPE_RELEASE" (SIG [IMM]) IR_SIDE_EFFECTS
  | BREAKPOINT => mkInfo "BREAKPOINT" (SIG []) IR_SIDE_EFFECTS
  | TYPE_OF => mkInfo "TYPE_OF" (SIG [DST; SRC]) IR_PURE
  | LOAD_NIL => mkInfo "LOAD_NIL" (SIG [DST]) (IR_PURE ||| IR_SIMPLE_LOAD)
  | ADD => mkInfo "ADD" (SIG [DST; SRC; SRC]) (IR_PURE ||| IR_ARITHMETIC)
  | SUB => mkInfo "SUB" (SIG [DST; SRC; SRC]) (IR_PURE ||| IR_ARITHMETIC)
  | MUL => mkInfo "MUL" (SIG [DST; SRC; SRC]) (IR_PURE ||| IR_ARITHMETIC)
  | DIV => mkInfo "DIV" (SIG [DST; SRC; SRC]) (IR_PURE ||| IR_ARITHMETIC)
  | MOD => mkInfo "MOD" (SIG [DST; SRC; SRC]) (IR_PURE ||| IR_ARITHMETIC)
  | NEG => mkInfo "NEG" (SIG [DST; SRC]) (IR_PURE ||| IR_ARITHMETIC)
  | POW => mkInfo "POW" (SIG [DST; SRC; SRC]) (IR_PURE ||| IR_ARITHMETIC)
  | CMP_EQ => mkInfo "CMP_EQ" (SIG [DST; SRC; SRC]) (IR_PURE ||| IR_ARITHMETIC ||| IR_COMPARISON)
  | CMP_NEQ => mkInfo "CMP_NEQ" (SIG [DST; SRC; SRC]) (IR_PURE ||| IR_ARITHMETIC ||| IR_COMPARISON)
  | CMP_LT => mkInfo "CMP_LT" (SIG [DST; SRC; SRC]) (IR_PURE ||| IR_ARITHMETIC ||| IR_COMPARISON)
  | CMP_LTE => mkInfo "CMP_LTE" (SIG [DST; SRC; SRC]) (IR_PURE ||| IR_ARITHMETIC ||| IR_COMPARISON)
  | CMP_GT => mkInfo "CMP_GT" (SIG [DST; SRC; SRC]) (IR_PURE ||| IR_ARITHMETIC ||| IR_COMPARISON)
  | CMP_GTE => mkInfo "CMP_GTE" (SIG [DST; SRC; SRC]) (IR_PURE ||| IR_ARITHMETIC ||| IR_COMPARISON)
  | AND => mkInfo "AND" (SIG [DST; SRC; SRC]) (IR_PURE ||| IR_ARITHMETIC)
  | OR => mkInfo "OR" (SIG [DST; SRC; SRC]) (IR_PURE ||| IR_ARITHMETIC)
  | NOT => mkInfo "NOT" (SIG [DST; SRC]) IR_PURE
  | BIT_AND => mkInfo "BIT_AND" (SIG [DST; SRC; SRC]) (IR_PURE ||| IR_ARITHMETIC)
  | BIT_OR => mkInfo "BIT_OR" (SIG [DST; SRC; SRC]) (IR_PURE ||| IR_ARITHMETIC)
  | BIT_XOR => mkInfo "BIT_XOR" (SIG [DST; SRC; SRC]) (IR_PURE ||| IR_ARITHMETIC)
  | BIT_NOT => mkInfo "BIT_NOT" (SIG [DST; SRC]) (IR_PURE ||| IR_ARITHMETIC)
  | SHL => mkInfo "SHL" (SIG [DST; SRC; SRC]) (IR_PURE ||| IR_ARITHMETIC)
  | SHR => mkInfo "SHR" (SIG [DST; SRC; SRC]) (IR_PURE ||| IR_ARITHMETIC)
  | IN => mkInfo "IN" (SIG [DST; SRC; SRC]) (IR_PURE ||| IR_ARITHMETIC)
  | LABEL => mkInfo "LABEL" (SIG [LBL]) (IR_SIDE_EFFECTS ||| IR_LABEL)
  | JUMP => mkInfo "JUMP" (SIG [LBL]) (IR_SIDE_EFFECTS ||| IR_TERMINATOR)
  | BRANCH_ZERO => mkInfo "BRANCH_ZERO" (SIG [SRC; LBL]) (IR_SIDE_EFFECTS ||| IR_BRANCH)
  | BRANCH_NOT_ZERO => mkInfo "BRANCH_NOT_ZERO" (SIG [SRC; LBL]) (IR_SIDE_EFFECTS ||| IR_BRANCH)
  | BRANCH_EQ => mkInfo "BRANCH_EQ" (SIG [SRC; SRC; LBL]) (IR_SIDE_EFFECTS ||| IR_BRANCH ||| IR_FUSED_BRANCH)
  | BRANCH_NEQ => mkInfo "BRANCH_NEQ" (SIG [SRC; SRC; LBL]) (IR_SIDE_EFFECTS ||| IR_BRANCH ||| IR_FUSED_BRANCH)
  | BRANCH_LT => mkInfo "BRANCH_LT" (SIG [SRC; SRC; LBL]) (IR_SIDE_EFFECTS ||| IR_BRANCH ||| IR_FUSED_BRANCH)
  | BRANCH_LTE => mkInfo "BRANCH_LTE" (SIG [SRC; SRC; LBL]) (IR_SIDE_EFFECTS ||| IR_BRANCH ||| IR_FUSED_BRANCH)
  | BRANCH_GT => mkInfo "BRANCH_GT" (SIG [SRC; SRC; LBL]) (IR_SIDE_EFFECTS ||| IR_BRANCH ||| IR_FUSED_BRANCH)
  | BRANCH_GTE => mkInfo "BRANCH_GTE" (SIG [SRC; SRC; LBL]) (IR_SIDE_EFFECTS ||| IR_BRANCH ||| IR_FUSED_BRANCH)
  | SWITCH => mkInfo "SWITCH" (SIG [SRC; IMM; CNT; LBL_LIST]) (IR_SIDE_EFFECTS ||| IR_BRANCH)
  | CALL => mkInfo "CALL" (SIG [STR; DST; CNT; SRC_LIST]) (IR_SIDE_EFFECTS ||| IR_CALL)
  | CALL_HOSTED => mkInfo "CALL_HOSTED" (SIG [STR; DST; CNT; SRC_LIST]) (IR_SIDE_EFFECTS ||| IR_CALL)
  | CALL_SYSCALL => mkInfo "CALL_SYSCALL" (SIG [DST; IMM; ARG_LIST]) (IR_SIDE_EFFECTS ||| IR_CALL)
  | GET_NODE => mkInfo "GET_NODE" (SIG [DST; STR]) (IR_SIDE_EFFECTS ||| IR_CALL)
  | MAKE_CALLABLE => mkInfo "MAKE_CALLABLE" (SIG [DST; STR; SRC]) (IR_SIDE_EFFECTS ||| IR_CALL)
  | LOAD_RESOURCE => mkInfo "LOAD_RESOURCE" (SIG [DST; STR]) (IR_SIDE_EFFECTS ||| IR_CALL)
  | LOAD_RESOURCE_VAR => mkInfo "LOAD_RESOURCE_VAR" (SIG [DST; SRC]) (IR_SIDE_EFFECTS ||| IR_CALL)
  | RETURN => mkInfo "RETURN" (SIG []) (IR_SIDE_EFFECTS ||| IR_TERMINATOR)
  | VCALL => mkInfo "VCALL" (SIG [DST; SRC; STR; CNT; SRC_LIST]) (IR_SIDE_EFFECTS ||| IR_CALL)
  | VGET => mkInfo "VGET" (SIG [DST; SRC; IMM; IMM]) IR_SIDE_EFFECTS
  | VSET => mkInfo "VSET" (SIG [SRC; IMM; IMM; SRC]) IR_SIDE_EFFECTS
  | VARIANT_SET => mkInfo "VARIANT_SET" (SIG [INOUT; SRC; SRC]) IR_SIDE_EFFECTS
  | PRINT => mkInfo "PRINT" (SIG [DST; IMM; CNT; SRC_LIST]) (IR_SIDE_EFFECTS ||| IR_CALL)
  | THROW => mkInfo "THROW" (SIG [STR; STR; CNT; SRC_LIST]) (IR_SIDE_EFFECTS ||| IR_CALL)
  | GLOBAL_CALL => mkInfo "GLOBAL_CALL" (SIG [DST; IMM; IMM; CNT; SRC_LIST]) IR_PURE
  | MAKE_VECTOR2 => mkInfo "MAKE_VECTOR2" (SIG [DST; SRC; SRC]) IR_PURE
  | MAKE_VECTOR3 => mkInfo "MAKE_VECTOR3" (SIG [DST; SRC; SRC; SRC]) IR_PURE
  | MAKE_VECTOR4 => mkInfo "MAKE_VECTOR4" (SIG [DST; SRC; SRC; SRC; SRC]) IR_PURE
  | MAKE_VECTOR2I => mkInfo "MAKE_VECTOR2I" (SIG [DST; SRC; SRC]) IR_PURE
  | MAKE_VECTOR3I => mkInfo "MAKE_VECTOR3I" (SIG [DST; SRC; SRC; SRC]) IR_PURE
  | MAKE_VECTOR4I => mkInfo "MAKE_VECTOR4I" (SIG [DST; SRC; SRC; SRC; SRC]) IR_PURE
  | MAKE_COLOR => mkInfo "MAKE_COLOR" (SIG [DST; SRC; SRC; SRC; SRC]) IR_PURE
  | MAKE_RECT2 => mkInfo "MAKE_RECT2" (SIG [DST; SRC; SRC; SRC; SRC]) IR_PURE
  | MAKE_RECT2I => mkInfo "MAKE_RECT2I" (SIG [DST; SRC; SRC; SRC; SRC]) IR_PURE
  | MAKE_PLANE => mkInfo "MAKE_PLANE" (SIG [DST; SRC; SRC; SRC; SRC]) IR_PURE
  | CONSTRUCT => mkInfo "CONSTRUCT" (SIG [DST; IMM; CNT; SRC_LIST]) IR_PURE
  | ARRAY_GET => mkInfo "ARRAY_GET" (SIG [DST; SRC; SRC]) IR_SIDE_EFFECTS
  | ARRAY_SET => mkInfo "ARRAY_SET" (SIG [SRC; SRC; SRC]) IR_SIDE_EFFECTS
  | ARRAY_APPEND => mkInfo "ARRAY_APPEND" (SIG [DST; SRC; SRC]) IR_SIDE_EFFECTS
  | DICT_SET => mkInfo "DICT_SET" (SIG [SRC; SRC; SRC]) IR_SIDE_EFFECTS
  | DICT_GET_CONST => mkInfo "DICT_GET_CONST" (SIG [DST; SRC; IMM]) IR_SIDE_EFFECTS
  | DICT_SET_CONST => mkInfo "DICT_SET_CONST" (SIG [SRC; IMM; SRC]) IR_SIDE_EFFECTS
  | DICT_SET_CONST_STR => mkInfo "DICT_SET_CONST_STR" (SIG [SRC; IMM; SRC]) IR_SIDE_EFFECTS
  | DICT_HAS_CONST => mkInfo "DICT_HAS_CONST" (SIG [DST; SRC; IMM]) IR_SIDE_EFFECTS
  | STRUCT_CHECK => mkInfo "STRUCT_CHECK" (SIG [DST; SRC; CNT; ARG_LIST]) IR_SIDE_EFFECTS
  | MAKE_ARRAY => mkInfo "MAKE_ARRAY" (SIG [DST; CNT; SRC_LIST]) IR_PURE
  | MAKE_DICTIONARY => mkInfo "MAKE_DICTIONARY" (SIG [DST; CNT2; SRC_LIST]) IR_PURE
  | MAKE_DICTIONARY_KEYED => mkInfo "MAKE_DICTIONARY_KEYED" (SIG [DST; CNT2; ARG_LIST]) IR_SIDE_EFFECTS
  | MAKE_PACKED_BYTE_ARRAY => mkInfo "MAKE_PACKED_BYTE_ARRAY" (SIG [DST; CNT; SRC_LIST]) IR_PURE
  | MAKE_PACKED_INT32_ARRAY => mkInfo "MAKE_PACKED_INT32_ARRAY" (SIG [DST; CNT; SRC_LIST]) IR_PURE
  | MAKE_PACKED_INT64_ARRAY => mkInfo "MAKE_PACKED_INT64_ARRAY" (SIG [DST; CNT; SRC_LIST]) IR_PURE
  | MAKE_PACKED_FLOAT32_ARRAY => mkInfo "MAKE_PACKED_FLOAT32_ARRAY" (SIG [DST; CNT; SRC_LIST]) IR_PURE
  | MAKE_PACKED_FLOAT64_ARRAY => mkInfo "MAKE_PACKED_FLOAT64_ARRAY" (SIG [DST; CNT; SRC_LIST]) IR_PURE
  | MAKE_PACKED_STRING_ARRAY => mkInfo "MAKE_PACKED_STRING_ARRAY" (SIG [DST; CNT; SRC_LIST]) IR_PURE
  | MAKE_PACKED_VECTOR2_ARRAY => mkInfo "MAKE_PACKED_VECTOR2_ARRAY" (SIG [DST; CNT; SRC_LIST]) IR_PURE
  | MAKE_PACKED_VECTOR3_ARRAY => mkInfo "MAKE_PACKED_VECTOR3_ARRAY" (SIG [DST; CNT; SRC_LIST]) IR_PURE
  | MAKE_PACKED_COLOR_ARRAY => mkInfo "MAKE_PACKED_COLOR_ARRAY" (SIG [DST; CNT; SRC_LIST]) IR_PURE
  | MAKE_PACKED_VECTOR4_ARRAY => mkInfo "MAKE_PACKED_VECTOR4_ARRAY" (SIG [DST; CNT; SRC_LIST]) IR_PURE
  | AWAIT => mkInfo "AWAIT" (SIG [DST; SRC]) (IR_SIDE_EFFECTS ||| IR_CALL)
  | VGET_INLINE => mkInfo "VGET_INLINE" (SIG [DST; SRC; STR; IMM]) IR_PURE
  | VSET_INLINE => mkInfo "VSET_INLINE" (SIG [INOUT; STR; IMM; SRC; IMM]) IR_SIDE_EFFECTS
  end.

End Table.
Definition ir_has_effect (op : IROpcode) (effect : Z) : bool :=
  negb (Z.land (info_effects (ir_opcode_info op)) effect =? 0).

Definition ir_is_pure (op : IROpcode) : bool :=
  Z.land (info_effects (ir_opcode_info op)) IR_SIDE_EFFECTS =? 0.

Definition ir_is_control_flow (op : IROpcode) : bool :=
  negb (Z.land (info_effects (ir_opcode_info op))
               (Z.lor (Z.lor IR_LABEL IR_BRANCH) IR_TERMINATOR) =? 0).

Definition ir_opcode_name (op : IROpcode) : string := info_mnemonic (ir_opcode_info op).

(** For verifier diagnostics. *)
Definition ir_operand_kind_name (kind : IROperandKind) : string :=
  match kind with
  | IROperandKind.NONE => "nothing"
  | IROperandKind.DST => "destination register"
  | IROperandKind.INOUT => "read-modify-write register"
  | IROperandKind.SRC => "source register"
  | IROperandKind.IMM => "immediate"
  | IROperandKind.FIMM => "float immediate"
  | IROperandKind.STR => "string"
  | IROperandKind.LBL => "label"
  | IROperandKind.CNT => "argument count"
  | IROperandKind.CNT2 => "pair count"
  | IROperandKind.SRC_LIST => "source register"
  | IROperandKind.ARG_LIST => "argument"
  | IROperandKind.LBL_LIST => "label"
  end.

(** The destination's operand position: the first DST or INOUT among the fixed
    operands, -1 in the source when there is none. *)
Definition is_dst_kind (k : IROperandKind) : bool :=
  match k with IROperandKind.DST | IROperandKind.INOUT => true | _ => false end.

Fixpoint find_kind (p : IROperandKind -> bool) (ks : list IROperandKind) (i : nat) : option nat :=
  match ks with
  | [] => None
  | k :: ks => if p k then Some i else find_kind p ks (S i)
  end.

Definition ir_destination_operand_index (op : IROpcode) : option nat :=
  let signature := info_signature (ir_opcode_info op) in
  find_kind is_dst_kind (take (fixed_count signature) (kinds signature)) 0.
