(* ===== verification/Globals.v ===== *)
(** * Global functions

    Models [globals.h] and [globals.cpp]: the table of @GlobalScope functions,
    the dispatch between integer and floating-point forms and the evaluation
    shared by the IR interpreter, the constant folder and the differential
    harness.  The tables of named constants, which hold no logic, are not
    modelled.  C++ leaves signed overflow and [INT64_MIN % -1] undefined: the
    integer evaluator answers [UB] exactly there.  Floating-point expressions
    are evaluated one operation at a time, without contraction. *)

From stdpp Require Import pretty.
From S2P Require Import Prelude.
From S2P Require Import Double.
From S2P Require Import VariantTypes.

(** ** Enumerations *)

Module UtilityOp.

Inductive UtilityOp :=
  | UTILITY_STR | UTILITY_LEN | UTILITY_FLOOR | UTILITY_CEIL | UTILITY_ROUND
  | UTILITY_SIGN | UTILITY_SIN | UTILITY_COS | UTILITY_TAN | UTILITY_ASIN
  | UTILITY_ACOS | UTILITY_ATAN | UTILITY_SINH | UTILITY_COSH | UTILITY_TANH
  | UTILITY_ASINH | UTILITY_ACOSH | UTILITY_ATANH | UTILITY_EXP | UTILITY_LOG
  | UTILITY_DEG_TO_RAD | UTILITY_RAD_TO_DEG | UTILITY_LINEAR_TO_DB
  | UTILITY_DB_TO_LINEAR | UTILITY_IS_NAN | UTILITY_IS_INF | UTILITY_IS_FINITE
  | UTILITY_IS_ZERO_APPROX | UTILITY_ATAN2 | UTILITY_POW | UTILITY_FMOD
  | UTILITY_FPOSMOD | UTILITY_SNAPPED | UTILITY_IS_EQUAL_APPROX
  | UTILITY_ANGLE_DIFFERENCE | UTILITY_PINGPONG | UTILITY_LERP | UTILITY_INVERSE_LERP
  | UTILITY_SMOOTHSTEP | UTILITY_MOVE_TOWARD | UTILITY_LERP_ANGLE
  | UTILITY_ROTATE_TOWARD | UTILITY_WRAP | UTILITY_REMAP | UTILITY_CUBIC_INTERPOLATE
  | UTILITY_BEZIER_INTERPOLATE | UTILITY_BEZIER_DERIVATIVE | UTILITY_TO_INT
  | UTILITY_TO_FLOAT | UTILITY_TO_BOOL | UTILITY_RANDF | UTILITY_RANDF_RANGE
  | UTILITY_RANDFN | UTILITY_RANDI | UTILITY_RANDI_RANGE | UTILITY_EASE
  | UTILITY_STEP_DECIMALS | UTILITY_NEAREST_PO2 | UTILITY_HASH | UTILITY_VAR_TO_STR
  | UTILITY_STR_TO_VAR | UTILITY_VAR_TO_BYTES | UTILITY_BYTES_TO_VAR
  | UTILITY_TYPE_STRING | UTILITY_TYPE_CONVERT | UTILITY_ERROR_STRING | UTILITY_IS_SAME
  | UTILITY_IS_INSTANCE_VALID | UTILITY_CHAR | UTILITY_ORD
  | UTILITY_CUBIC_INTERPOLATE_ANGLE | UTILITY_CUBIC_INTERPOLATE_IN_TIME
  | UTILITY_CUBIC_INTERPOLATE_ANGLE_IN_TIME | UTILITY_RAND_FROM_SEED
  | UTILITY_RANDOMIZE | UTILITY_SEED | UTILITY_IS_INSTANCE_OF.

(** The ABI-stable [int16_t] value. *)
Definition num (op : UtilityOp) : Z :=
  match op with
  | UTILITY_STR => 0 | UTILITY_LEN => 1 | UTILITY_FLOOR => 2 | UTILITY_CEIL => 3
  | UTILITY_ROUND => 4 | UTILITY_SIGN => 5 | UTILITY_SIN => 6 | UTILITY_COS => 7
  | UTILITY_TAN => 8 | UTILITY_ASIN => 9 | UTILITY_ACOS => 10 | UTILITY_ATAN => 11
  | UTILITY_SINH => 12 | UTILITY_COSH => 13 | UTILITY_TANH => 14 | UTILITY_ASINH => 15
  | UTILITY_ACOSH => 16 | UTILITY_ATANH => 17 | UTILITY_EXP => 18 | UTILITY_LOG => 19
  | UTILITY_DEG_TO_RAD => 20 | UTILITY_RAD_TO_DEG => 21 | UTILITY_LINEAR_TO_DB => 22
  | UTILITY_DB_TO_LINEAR => 23 | UTILITY_IS_NAN => 24 | UTILITY_IS_INF => 25
  | UTILITY_IS_FINITE => 26 | UTILITY_IS_ZERO_APPROX => 27 | UTILITY_ATAN2 => 28
  | UTILITY_POW => 29 | UTILITY_FMOD => 30 | UTILITY_FPOSMOD => 31
  | UTILITY_SNAPPED => 32 | UTILITY_IS_EQUAL_APPROX => 33
  | UTILITY_ANGLE_DIFFERENCE => 34 | UTILITY_PINGPONG => 35 | UTILITY_LERP => 36
  | UTILITY_INVERSE_LERP => 37 | UTILITY_SMOOTHSTEP => 38 | UTILITY_MOVE_TOWARD => 39
  | UTILITY_LERP_ANGLE => 40 | UTILITY_ROTATE_TOWARD => 41 | UTILITY_WRAP => 42
  | UTILITY_REMAP => 43 | UTILITY_CUBIC_INTERPOLATE => 44
  | UTILITY_BEZIER_INTERPOLATE => 45 | UTILITY_BEZIER_DERIVATIVE => 46
  | UTILITY_TO_INT => 47 | UTILITY_TO_FLOAT => 48 | UTILITY_TO_BOOL => 49
  | UTILITY_RANDF => 50 | UTILITY_RANDF_RANGE => 51 | UTILITY_RANDFN => 52
  | UTILITY_RANDI => 53 | UTILITY_RANDI_RANGE => 54 | UTILITY_EASE => 55
  | UTILITY_STEP_DECIMALS => 56 | UTILITY_NEAREST_PO2 => 57 | UTILITY_HASH => 58
  | UTILITY_VAR_TO_STR => 59 | UTILITY_STR_TO_VAR => 60 | UTILITY_VAR_TO_BYTES => 61
  | UTILITY_BYTES_TO_VAR => 62 | UTILITY_TYPE_STRING => 63 | UTILITY_TYPE_CONVERT => 64
  | UTILITY_ERROR_STRING => 65 | UTILITY_IS_SAME => 66
  | UTILITY_IS_INSTANCE_VALID => 69 | UTILITY_CHAR => 67 | UTILITY_ORD => 68
  | UTILITY_CUBIC_INTERPOLATE_ANGLE => 70 | UTILITY_CUBIC_INTERPOLATE_IN_TIME => 71
  | UTILITY_CUBIC_INTERPOLATE_ANGLE_IN_TIME => 72 | UTILITY_RAND_FROM_SEED => 73
  | UTILITY_RANDOMIZE => 74 | UTILITY_SEED => 75 | UTILITY_IS_INSTANCE_OF => 76
  end.

Definition all : list UtilityOp := [
  UTILITY_STR; UTILITY_LEN; UTILITY_FLOOR; UTILITY_CEIL; UTILITY_ROUND; UTILITY_SIGN;
  UTILITY_SIN; UTILITY_COS; UTILITY_TAN; UTILITY_ASIN; UTILITY_ACOS; UTILITY_ATAN;
  UTILITY_SINH; UTILITY_COSH; UTILITY_TANH; UTILITY_ASINH; UTILITY_ACOSH;
  UTILITY_ATANH; UTILITY_EXP; UTILITY_LOG; UTILITY_DEG_TO_RAD; UTILITY_RAD_TO_DEG;
  UTILITY_LINEAR_TO_DB; UTILITY_DB_TO_LINEAR; UTILITY_IS_NAN; UTILITY_IS_INF;
  UTILITY_IS_FINITE; UTILITY_IS_ZERO_APPROX; UTILITY_ATAN2; UTILITY_POW; UTILITY_FMOD;
  UTILITY_FPOSMOD; UTILITY_SNAPPED; UTILITY_IS_EQUAL_APPROX; UTILITY_ANGLE_DIFFERENCE;
  UTILITY_PINGPONG; UTILITY_LERP; UTILITY_INVERSE_LERP; UTILITY_SMOOTHSTEP;
  UTILITY_MOVE_TOWARD; UTILITY_LERP_ANGLE; UTILITY_ROTATE_TOWARD; UTILITY_WRAP;
  UTILITY_REMAP; UTILITY_CUBIC_INTERPOLATE; UTILITY_BEZIER_INTERPOLATE;
  UTILITY_BEZIER_DERIVATIVE; UTILITY_TO_INT; UTILITY_TO_FLOAT; UTILITY_TO_BOOL;
  UTILITY_RANDF; UTILITY_RANDF_RANGE; UTILITY_RANDFN; UTILITY_RANDI;
  UTILITY_RANDI_RANGE; UTILITY_EASE; UTILITY_STEP_DECIMALS; UTILITY_NEAREST_PO2;
  UTILITY_HASH; UTILITY_VAR_TO_STR; UTILITY_STR_TO_VAR; UTILITY_VAR_TO_BYTES;
  UTILITY_BYTES_TO_VAR; UTILITY_TYPE_STRING; UTILITY_TYPE_CONVERT;
  UTILITY_ERROR_STRING; UTILITY_IS_SAME; UTILITY_IS_INSTANCE_VALID; UTILITY_CHAR;
  UTILITY_ORD; UTILITY_CUBIC_INTERPOLATE_ANGLE; UTILITY_CUBIC_INTERPOLATE_IN_TIME;
  UTILITY_CUBIC_INTERPOLATE_ANGLE_IN_TIME; UTILITY_RAND_FROM_SEED; UTILITY_RANDOMIZE;
  UTILITY_SEED; UTILITY_IS_INSTANCE_OF].

Definition of_num (z : Z) : option UtilityOp := find (fun op => num op =? z) all.

Lemma of_num_num op : of_num (num op) = Some op.
Proof. by destruct op. Qed.

End UtilityOp.

Module GlobalFn.

Inductive GlobalFn :=
  | PRINT | PRINTERR | PRINTRAW | PRINT_RICH | PRINT_VERBOSE | PRINTS | PRINTT
  | PUSH_ERROR | PUSH_WARNING | ABS | SIGN | FLOOR | CEIL | ROUND | MIN | MAX | CLAMP
  | SNAPPED | WRAP | ABSI | SIGNI | MINI | MAXI | CLAMPI | WRAPI | POSMOD
  | INT_IDENTITY | ABSF | MINF | MAXF | CLAMPF | SQRT | SIGNF | FLOORF | CEILF | ROUNDF
  | FLOORI | CEILI | ROUNDI | SNAPPEDF | SNAPPEDI | WRAPF | SIN | COS | TAN | ASIN
  | ACOS | ATAN | ATAN2 | SINH | COSH | TANH | ASINH | ACOSH | ATANH | EXP | LOG | POW
  | FMOD | FPOSMOD | DEG_TO_RAD | RAD_TO_DEG | LINEAR_TO_DB | DB_TO_LINEAR | LERP
  | LERPF | INVERSE_LERP | REMAP | SMOOTHSTEP | MOVE_TOWARD | LERP_ANGLE
  | ANGLE_DIFFERENCE | ROTATE_TOWARD | PINGPONG | CUBIC_INTERPOLATE
  | CUBIC_INTERPOLATE_ANGLE | CUBIC_INTERPOLATE_IN_TIME
  | CUBIC_INTERPOLATE_ANGLE_IN_TIME | BEZIER_INTERPOLATE | BEZIER_DERIVATIVE | IS_NAN
  | IS_INF | IS_FINITE | IS_ZERO_APPROX | IS_EQUAL_APPROX | EASE | STEP_DECIMALS
  | NEAREST_PO2 | STR | LEN | HASH | VAR_TO_STR | STR_TO_VAR | VAR_TO_BYTES
  | BYTES_TO_VAR | TYPE_STRING | TYPE_CONVERT | ERROR_STRING | IS_SAME
  | IS_INSTANCE_VALID | IS_INSTANCE_OF | CHAR | ORD | RAND_FROM_SEED | RANDOMIZE | SEED
  | RANDF | RANDF_RANGE | RANDFN | RANDI | RANDI_RANGE | TO_INT | TO_FLOAT | TO_BOOL
  | TO_STRING | FLOAT_IDENTITY | BOOLEANIZE.

Definition all : list GlobalFn := [
  PRINT; PRINTERR; PRINTRAW; PRINT_RICH; PRINT_VERBOSE; PRINTS; PRINTT; PUSH_ERROR;
  PUSH_WARNING; ABS; SIGN; FLOOR; CEIL; ROUND; MIN; MAX; CLAMP; SNAPPED; WRAP; ABSI;
  SIGNI; MINI; MAXI; CLAMPI; WRAPI; POSMOD; INT_IDENTITY; ABSF; MINF; MAXF; CLAMPF;
  SQRT; SIGNF; FLOORF; CEILF; ROUNDF; FLOORI; CEILI; ROUNDI; SNAPPEDF; SNAPPEDI; WRAPF;
  SIN; COS; TAN; ASIN; ACOS; ATAN; ATAN2; SINH; COSH; TANH; ASINH; ACOSH; ATANH; EXP;
  LOG; POW; FMOD; FPOSMOD; DEG_TO_RAD; RAD_TO_DEG; LINEAR_TO_DB; DB_TO_LINEAR; LERP;
  LERPF; INVERSE_LERP; REMAP; SMOOTHSTEP; MOVE_TOWARD; LERP_ANGLE; ANGLE_DIFFERENCE;
  ROTATE_TOWARD; PINGPONG; CUBIC_INTERPOLATE; CUBIC_INTERPOLATE_ANGLE;
  CUBIC_INTERPOLATE_IN_TIME; CUBIC_INTERPOLATE_ANGLE_IN_TIME; BEZIER_INTERPOLATE;
  BEZIER_DERIVATIVE; IS_NAN; IS_INF; IS_FINITE; IS_ZERO_APPROX; IS_EQUAL_APPROX; EASE;
  STEP_DECIMALS; NEAREST_PO2; STR; LEN; HASH; VAR_TO_STR; STR_TO_VAR; VAR_TO_BYTES;
  BYTES_TO_VAR; TYPE_STRING; TYPE_CONVERT; ERROR_STRING; IS_SAME; IS_INSTANCE_VALID;
  IS_INSTANCE_OF; CHAR; ORD; RAND_FROM_SEED; RANDOMIZE; SEED; RANDF; RANDF_RANGE;
  RANDFN; RANDI; RANDI_RANGE; TO_INT; TO_FLOAT; TO_BOOL; TO_STRING; FLOAT_IDENTITY;
  BOOLEANIZE].

(** The enumerator's [int16_t] value. *)
Definition num (fn : GlobalFn) : Z :=
  match fn with
  | PRINT => 0 | PRINTERR => 1 | PRINTRAW => 2 | PRINT_RICH => 3 | PRINT_VERBOSE => 4
  | PRINTS => 5 | PRINTT => 6 | PUSH_ERROR => 7 | PUSH_WARNING => 8 | ABS => 9
  | SIGN => 10 | FLOOR => 11 | CEIL => 12 | ROUND => 13 | MIN => 14 | MAX => 15
  | CLAMP => 16 | SNAPPED => 17 | WRAP => 18 | ABSI => 19 | SIGNI => 20 | MINI => 21
  | MAXI => 22 | CLAMPI => 23 | WRAPI => 24 | POSMOD => 25 | INT_IDENTITY => 26
  | ABSF => 27 | MINF => 28 | MAXF => 29 | CLAMPF => 30 | SQRT => 31 | SIGNF => 32
  | FLOORF => 33 | CEILF => 34 | ROUNDF => 35 | FLOORI => 36 | CEILI => 37
  | ROUNDI => 38 | SNAPPEDF => 39 | SNAPPEDI => 40 | WRAPF => 41 | SIN => 42
  | COS => 43 | TAN => 44 | ASIN => 45 | ACOS => 46 | ATAN => 47 | ATAN2 => 48
  | SINH => 49 | COSH => 50 | TANH => 51 | ASINH => 52 | ACOSH => 53 | ATANH => 54
  | EXP => 55 | LOG => 56 | POW => 57 | FMOD => 58 | FPOSMOD => 59 | DEG_TO_RAD => 60
  | RAD_TO_DEG => 61 | LINEAR_TO_DB => 62 | DB_TO_LINEAR => 63 | LERP => 64
  | LERPF => 65 | INVERSE_LERP => 66 | REMAP => 67 | SMOOTHSTEP => 68
  | MOVE_TOWARD => 69 | LERP_ANGLE => 70 | ANGLE_DIFFERENCE => 71 | ROTATE_TOWARD => 72
  | PINGPONG => 73 | CUBIC_INTERPOLATE => 74 | CUBIC_INTERPOLATE_ANGLE => 75
  | CUBIC_INTERPOLATE_IN_TIME => 76 | CUBIC_INTERPOLATE_ANGLE_IN_TIME => 77
  | BEZIER_INTERPOLATE => 78 | BEZIER_DERIVATIVE => 79 | IS_NAN => 80 | IS_INF => 81
  | IS_FINITE => 82 | IS_ZERO_APPROX => 83 | IS_EQUAL_APPROX => 84 | EASE => 85
  | STEP_DECIMALS => 86 | NEAREST_PO2 => 87 | STR => 88 | LEN => 89 | HASH => 90
  | VAR_TO_STR => 91 | STR_TO_VAR => 92 | VAR_TO_BYTES => 93 | BYTES_TO_VAR => 94
  | TYPE_STRING => 95 | TYPE_CONVERT => 96 | ERROR_STRING => 97 | IS_SAME => 98
  | IS_INSTANCE_VALID => 99 | IS_INSTANCE_OF => 100 | CHAR => 101 | ORD => 102
  | RAND_FROM_SEED => 103 | RANDOMIZE => 104 | SEED => 105 | RANDF => 106
  | RANDF_RANGE => 107 | RANDFN => 108 | RANDI => 109 | RANDI_RANGE => 110
  | TO_INT => 111 | TO_FLOAT => 112 | TO_BOOL => 113 | TO_STRING => 114
  | FLOAT_IDENTITY => 115 | BOOLEANIZE => 116
  end.

Lemma all_num fn : all !! Z.to_nat (num fn) = Some fn.
Proof. by destruct fn. Qed.

Lemma num_inj fn1 fn2 : num fn1 = num fn2 -> fn1 = fn2.
Proof. intros H. pose proof (all_num fn1) as H1. rewrite H, all_num in H1. by simplify_eq. Qed.

End GlobalFn.
Abbreviation GlobalFn := GlobalFn.GlobalFn.

(** How a call is performed. *)
Module GlobalKind.
Inductive GlobalKind := PRINT | NUMERIC | INT_OP | FLOAT_OP | SYSCALL | SYSCALL_INT | CAST | HOST.
#[export] Instance GlobalKind_eq_dec : EqDecision GlobalKind.
Proof. solve_decision. Defined.
End GlobalKind.
Export (hints) GlobalKind.

(** Result Variant type. *)
Module GlobalResult.
Inductive GlobalResult := NIL | BOOL | INT | FLOAT | STRING | NUMERIC | VARIANT.
#[export] Instance GlobalResult_eq_dec : EqDecision GlobalResult.
Proof. solve_decision. Defined.
End GlobalResult.
Export (hints) GlobalResult.

Record GlobalFunction := mkGlobalFunction {
  gf_name : string;
  gf_fn : GlobalFn;
  gf_kind : GlobalKind.GlobalKind;
  gf_min_args : Z;
  gf_max_args : Z;
  gf_result : GlobalResult.GlobalResult;
  gf_utility_op : Z;
  gf_float_args : Z;
  gf_int_form : GlobalFn;
  gf_float_form : GlobalFn;
  gf_impure : bool;
  gf_unrestricted_only : bool
}.

(** ** The table *)

Definition NO_OP : Z := -1.
Definition NO_FORM : GlobalFn := GlobalFn.PRINT.

Definition GLOBAL_FUNCTIONS : list GlobalFunction := [
  mkGlobalFunction "print" GlobalFn.PRINT GlobalKind.PRINT 0 63 GlobalResult.NIL 0 0 NO_FORM NO_FORM false false;
  mkGlobalFunction "prints" GlobalFn.PRINTS GlobalKind.PRINT 0 63 GlobalResult.NIL 1 0 NO_FORM NO_FORM false false;
  mkGlobalFunction "printt" GlobalFn.PRINTT GlobalKind.PRINT 0 63 GlobalResult.NIL 2 0 NO_FORM NO_FORM false false;
  mkGlobalFunction "printraw" GlobalFn.PRINTRAW GlobalKind.PRINT 0 63 GlobalResult.NIL 3 0 NO_FORM NO_FORM false false;
  mkGlobalFunction "print_rich" GlobalFn.PRINT_RICH GlobalKind.PRINT 0 63 GlobalResult.NIL 4 0 NO_FORM NO_FORM false false;
  mkGlobalFunction "printerr" GlobalFn.PRINTERR GlobalKind.PRINT 0 63 GlobalResult.NIL 5 0 NO_FORM NO_FORM false false;
  mkGlobalFunction "print_verbose" GlobalFn.PRINT_VERBOSE GlobalKind.PRINT 0 63 GlobalResult.NIL 6 0 NO_FORM NO_FORM false false;
  mkGlobalFunction "push_error" GlobalFn.PUSH_ERROR GlobalKind.PRINT 1 63 GlobalResult.NIL 7 0 NO_FORM NO_FORM false false;
  mkGlobalFunction "push_warning" GlobalFn.PUSH_WARNING GlobalKind.PRINT 1 63 GlobalResult.NIL 8 0 NO_FORM NO_FORM false false;
  mkGlobalFunction "abs" GlobalFn.ABS GlobalKind.NUMERIC 1 1 GlobalResult.NUMERIC NO_OP 0 GlobalFn.ABSI GlobalFn.ABSF false false;
  mkGlobalFunction "absi" GlobalFn.ABSI GlobalKind.INT_OP 1 1 GlobalResult.INT NO_OP 0 NO_FORM NO_FORM false false;
  mkGlobalFunction "absf" GlobalFn.ABSF GlobalKind.FLOAT_OP 1 1 GlobalResult.FLOAT NO_OP 0 NO_FORM NO_FORM false false;
  mkGlobalFunction "sign" GlobalFn.SIGN GlobalKind.NUMERIC 1 1 GlobalResult.NUMERIC NO_OP 0 GlobalFn.SIGNI GlobalFn.SIGNF false false;
  mkGlobalFunction "signi" GlobalFn.SIGNI GlobalKind.INT_OP 1 1 GlobalResult.INT NO_OP 0 NO_FORM NO_FORM false false;
  mkGlobalFunction "signf" GlobalFn.SIGNF GlobalKind.SYSCALL 1 1 GlobalResult.FLOAT (UtilityOp.num UtilityOp.UTILITY_SIGN) 1 NO_FORM NO_FORM false false;
  mkGlobalFunction "floor" GlobalFn.FLOOR GlobalKind.NUMERIC 1 1 GlobalResult.NUMERIC NO_OP 0 GlobalFn.INT_IDENTITY GlobalFn.FLOORF false false;
  mkGlobalFunction "floorf" GlobalFn.FLOORF GlobalKind.SYSCALL 1 1 GlobalResult.FLOAT (UtilityOp.num UtilityOp.UTILITY_FLOOR) 1 NO_FORM NO_FORM false false;
  mkGlobalFunction "floori" GlobalFn.FLOORI GlobalKind.SYSCALL 1 1 GlobalResult.INT (UtilityOp.num UtilityOp.UTILITY_FLOOR) 1 NO_FORM NO_FORM false false;
  mkGlobalFunction "ceil" GlobalFn.CEIL GlobalKind.NUMERIC 1 1 GlobalResult.NUMERIC NO_OP 0 GlobalFn.INT_IDENTITY GlobalFn.CEILF false false;
  mkGlobalFunction "ceilf" GlobalFn.CEILF GlobalKind.SYSCALL 1 1 GlobalResult.FLOAT (UtilityOp.num UtilityOp.UTILITY_CEIL) 1 NO_FORM NO_FORM false false;
  mkGlobalFunction "ceili" GlobalFn.CEILI GlobalKind.SYSCALL 1 1 GlobalResult.INT (UtilityOp.num UtilityOp.UTILITY_CEIL) 1 NO_FORM NO_FORM false false;
  mkGlobalFunction "round" GlobalFn.ROUND GlobalKind.NUMERIC 1 1 GlobalResult.NUMERIC NO_OP 0 GlobalFn.INT_IDENTITY GlobalFn.ROUNDF false false;
  mkGlobalFunction "roundf" GlobalFn.ROUNDF GlobalKind.SYSCALL 1 1 GlobalResult.FLOAT (UtilityOp.num UtilityOp.UTILITY_ROUND) 1 NO_FORM NO_FORM false false;
  mkGlobalFunction "roundi" GlobalFn.ROUNDI GlobalKind.SYSCALL 1 1 GlobalResult.INT (UtilityOp.num UtilityOp.UTILITY_ROUND) 1 NO_FORM NO_FORM false false;
  mkGlobalFunction "snapped" GlobalFn.SNAPPED GlobalKind.NUMERIC 2 2 GlobalResult.NUMERIC NO_OP 0 GlobalFn.SNAPPEDI GlobalFn.SNAPPEDF false false;
  mkGlobalFunction "snappedf" GlobalFn.SNAPPEDF GlobalKind.SYSCALL 2 2 GlobalResult.FLOAT (UtilityOp.num UtilityOp.UTILITY_SNAPPED) 2 NO_FORM NO_FORM false false;
  mkGlobalFunction "snappedi" GlobalFn.SNAPPEDI GlobalKind.SYSCALL 2 2 GlobalResult.INT (UtilityOp.num UtilityOp.UTILITY_SNAPPED) 2 NO_FORM NO_FORM false false;
  mkGlobalFunction "min" GlobalFn.MIN GlobalKind.NUMERIC 2 63 GlobalResult.NUMERIC NO_OP 0 GlobalFn.MINI GlobalFn.MINF false false;
  mkGlobalFunction "mini" GlobalFn.MINI GlobalKind.INT_OP 2 2 GlobalResult.INT NO_OP 0 NO_FORM NO_FORM false false;
  mkGlobalFunction "minf" GlobalFn.MINF GlobalKind.FLOAT_OP 2 2 GlobalResult.FLOAT NO_OP 0 NO_FORM NO_FORM false false;
  mkGlobalFunction "max" GlobalFn.MAX GlobalKind.NUMERIC 2 63 GlobalResult.NUMERIC NO_OP 0 GlobalFn.MAXI GlobalFn.MAXF false false;
  mkGlobalFunction "maxi" GlobalFn.MAXI GlobalKind.INT_OP 2 2 GlobalResult.INT NO_OP 0 NO_FORM NO_FORM false false;
  mkGlobalFunction "maxf" GlobalFn.MAXF GlobalKind.FLOAT_OP 2 2 GlobalResult.FLOAT NO_OP 0 NO_FORM NO_FORM false false;
  mkGlobalFunction "clamp" GlobalFn.CLAMP GlobalKind.NUMERIC 3 3 GlobalResult.NUMERIC NO_OP 0 GlobalFn.CLAMPI GlobalFn.CLAMPF false false;
  mkGlobalFunction "clampi" GlobalFn.CLAMPI GlobalKind.INT_OP 3 3 GlobalResult.INT NO_OP 0 NO_FORM NO_FORM false false;
  mkGlobalFunction "clampf" GlobalFn.CLAMPF GlobalKind.FLOAT_OP 3 3 GlobalResult.FLOAT NO_OP 0 NO_FORM NO_FORM false false;
  mkGlobalFunction "posmod" GlobalFn.POSMOD GlobalKind.INT_OP 2 2 GlobalResult.INT NO_OP 0 NO_FORM NO_FORM false false;
  mkGlobalFunction "fmod" GlobalFn.FMOD GlobalKind.SYSCALL 2 2 GlobalResult.FLOAT (UtilityOp.num UtilityOp.UTILITY_FMOD) 2 NO_FORM NO_FORM false false;
  mkGlobalFunction "fposmod" GlobalFn.FPOSMOD GlobalKind.SYSCALL 2 2 GlobalResult.FLOAT (UtilityOp.num UtilityOp.UTILITY_FPOSMOD) 2 NO_FORM NO_FORM false false;
  mkGlobalFunction "wrap" GlobalFn.WRAP GlobalKind.NUMERIC 3 3 GlobalResult.NUMERIC NO_OP 0 GlobalFn.WRAPI GlobalFn.WRAPF false false;
  mkGlobalFunction "wrapi" GlobalFn.WRAPI GlobalKind.INT_OP 3 3 GlobalResult.INT NO_OP 0 NO_FORM NO_FORM false false;
  mkGlobalFunction "wrapf" GlobalFn.WRAPF GlobalKind.SYSCALL 3 3 GlobalResult.FLOAT (UtilityOp.num UtilityOp.UTILITY_WRAP) 3 NO_FORM NO_FORM false false;
  mkGlobalFunction "sqrt" GlobalFn.SQRT GlobalKind.FLOAT_OP 1 1 GlobalResult.FLOAT NO_OP 0 NO_FORM NO_FORM false false;
  mkGlobalFunction "pow" GlobalFn.POW GlobalKind.SYSCALL 2 2 GlobalResult.FLOAT (UtilityOp.num UtilityOp.UTILITY_POW) 2 NO_FORM NO_FORM false false;
  mkGlobalFunction "exp" GlobalFn.EXP GlobalKind.SYSCALL 1 1 GlobalResult.FLOAT (UtilityOp.num UtilityOp.UTILITY_EXP) 1 NO_FORM NO_FORM false false;
  mkGlobalFunction "log" GlobalFn.LOG GlobalKind.SYSCALL 1 1 GlobalResult.FLOAT (UtilityOp.num UtilityOp.UTILITY_LOG) 1 NO_FORM NO_FORM false false;
  mkGlobalFunction "sin" GlobalFn.SIN GlobalKind.SYSCALL 1 1 GlobalResult.FLOAT (UtilityOp.num UtilityOp.UTILITY_SIN) 1 NO_FORM NO_FORM false false;
  mkGlobalFunction "cos" GlobalFn.COS GlobalKind.SYSCALL 1 1 GlobalResult.FLOAT (UtilityOp.num UtilityOp.UTILITY_COS) 1 NO_FORM NO_FORM false false;
  mkGlobalFunction "tan" GlobalFn.TAN GlobalKind.SYSCALL 1 1 GlobalResult.FLOAT (UtilityOp.num UtilityOp.UTILITY_TAN) 1 NO_FORM NO_FORM false false;
  mkGlobalFunction "asin" GlobalFn.ASIN GlobalKind.SYSCALL 1 1 GlobalResult.FLOAT (UtilityOp.num UtilityOp.UTILITY_ASIN) 1 NO_FORM NO_FORM false false;
  mkGlobalFunction "acos" GlobalFn.ACOS GlobalKind.SYSCALL 1 1 GlobalResult.FLOAT (UtilityOp.num UtilityOp.UTILITY_ACOS) 1 NO_FORM NO_FORM false false;
  mkGlobalFunction "atan" GlobalFn.ATAN GlobalKind.SYSCALL 1 1 GlobalResult.FLOAT (UtilityOp.num UtilityOp.UTILITY_ATAN) 1 NO_FORM NO_FORM false false;
  mkGlobalFunction "atan2" GlobalFn.ATAN2 GlobalKind.SYSCALL 2 2 GlobalResult.FLOAT (UtilityOp.num UtilityOp.UTILITY_ATAN2) 2 NO_FORM NO_FORM false false;
  mkGlobalFunction "sinh" GlobalFn.SINH GlobalKind.SYSCALL 1 1 GlobalResult.FLOAT (UtilityOp.num UtilityOp.UTILITY_SINH) 1 NO_FORM NO_FORM false false;
  mkGlobalFunction "cosh" GlobalFn.COSH GlobalKind.SYSCALL 1 1 GlobalResult.FLOAT (UtilityOp.num UtilityOp.UTILITY_COSH) 1 NO_FORM NO_FORM false false;
  mkGlobalFunction "tanh" GlobalFn.TANH GlobalKind.SYSCALL 1 1 GlobalResult.FLOAT (UtilityOp.num UtilityOp.UTILITY_TANH) 1 NO_FORM NO_FORM false false;
  mkGlobalFunction "asinh" GlobalFn.ASINH GlobalKind.SYSCALL 1 1 GlobalResult.FLOAT (UtilityOp.num UtilityOp.UTILITY_ASINH) 1 NO_FORM NO_FORM false false;
  mkGlobalFunction "acosh" GlobalFn.ACOSH GlobalKind.SYSCALL 1 1 GlobalResult.FLOAT (UtilityOp.num UtilityOp.UTILITY_ACOSH) 1 NO_FORM NO_FORM false false;
  mkGlobalFunction "atanh" GlobalFn.ATANH GlobalKind.SYSCALL 1 1 GlobalResult.FLOAT (UtilityOp.num UtilityOp.UTILITY_ATANH) 1 NO_FORM NO_FORM false false;
  mkGlobalFunction "deg_to_rad" GlobalFn.DEG_TO_RAD GlobalKind.SYSCALL 1 1 GlobalResult.FLOAT (UtilityOp.num UtilityOp.UTILITY_DEG_TO_RAD) 1 NO_FORM NO_FORM false false;
  mkGlobalFunction "rad_to_deg" GlobalFn.RAD_TO_DEG GlobalKind.SYSCALL 1 1 GlobalResult.FLOAT (UtilityOp.num UtilityOp.UTILITY_RAD_TO_DEG) 1 NO_FORM NO_FORM false false;
  mkGlobalFunction "angle_difference" GlobalFn.ANGLE_DIFFERENCE GlobalKind.SYSCALL 2 2 GlobalResult.FLOAT (UtilityOp.num UtilityOp.UTILITY_ANGLE_DIFFERENCE) 2 NO_FORM NO_FORM false false;
  mkGlobalFunction "linear_to_db" GlobalFn.LINEAR_TO_DB GlobalKind.SYSCALL 1 1 GlobalResult.FLOAT (UtilityOp.num UtilityOp.UTILITY_LINEAR_TO_DB) 1 NO_FORM NO_FORM false false;
  mkGlobalFunction "db_to_linear" GlobalFn.DB_TO_LINEAR GlobalKind.SYSCALL 1 1 GlobalResult.FLOAT (UtilityOp.num UtilityOp.UTILITY_DB_TO_LINEAR) 1 NO_FORM NO_FORM false false;
  mkGlobalFunction "lerp" GlobalFn.LERP GlobalKind.SYSCALL 3 3 GlobalResult.FLOAT (UtilityOp.num UtilityOp.UTILITY_LERP) 3 NO_FORM NO_FORM false false;
  mkGlobalFunction "lerpf" GlobalFn.LERPF GlobalKind.SYSCALL 3 3 GlobalResult.FLOAT (UtilityOp.num UtilityOp.UTILITY_LERP) 3 NO_FORM NO_FORM false false;
  mkGlobalFunction "lerp_angle" GlobalFn.LERP_ANGLE GlobalKind.SYSCALL 3 3 GlobalResult.FLOAT (UtilityOp.num UtilityOp.UTILITY_LERP_ANGLE) 3 NO_FORM NO_FORM false false;
  mkGlobalFunction "inverse_lerp" GlobalFn.INVERSE_LERP GlobalKind.SYSCALL 3 3 GlobalResult.FLOAT (UtilityOp.num UtilityOp.UTILITY_INVERSE_LERP) 3 NO_FORM NO_FORM false false;
  mkGlobalFunction "remap" GlobalFn.REMAP GlobalKind.SYSCALL 5 5 GlobalResult.FLOAT (UtilityOp.num UtilityOp.UTILITY_REMAP) 5 NO_FORM NO_FORM false false;
  mkGlobalFunction "smoothstep" GlobalFn.SMOOTHSTEP GlobalKind.SYSCALL 3 3 GlobalResult.FLOAT (UtilityOp.num UtilityOp.UTILITY_SMOOTHSTEP) 3 NO_FORM NO_FORM false false;
  mkGlobalFunction "move_toward" GlobalFn.MOVE_TOWARD GlobalKind.SYSCALL 3 3 GlobalResult.FLOAT (UtilityOp.num UtilityOp.UTILITY_MOVE_TOWARD) 3 NO_FORM NO_FORM false false;
  mkGlobalFunction "rotate_toward" GlobalFn.ROTATE_TOWARD GlobalKind.SYSCALL 3 3 GlobalResult.FLOAT (UtilityOp.num UtilityOp.UTILITY_ROTATE_TOWARD) 3 NO_FORM NO_FORM false false;
  mkGlobalFunction "pingpong" GlobalFn.PINGPONG GlobalKind.SYSCALL 2 2 GlobalResult.FLOAT (UtilityOp.num UtilityOp.UTILITY_PINGPONG) 2 NO_FORM NO_FORM false false;
  mkGlobalFunction "cubic_interpolate" GlobalFn.CUBIC_INTERPOLATE GlobalKind.SYSCALL 5 5 GlobalResult.FLOAT (UtilityOp.num UtilityOp.UTILITY_CUBIC_INTERPOLATE) 5 NO_FORM NO_FORM false false;
  mkGlobalFunction "cubic_interpolate_angle" GlobalFn.CUBIC_INTERPOLATE_ANGLE GlobalKind.SYSCALL 5 5 GlobalResult.FLOAT (UtilityOp.num UtilityOp.UTILITY_CUBIC_INTERPOLATE_ANGLE) 5 NO_FORM NO_FORM false false;
  mkGlobalFunction "cubic_interpolate_in_time" GlobalFn.CUBIC_INTERPOLATE_IN_TIME GlobalKind.SYSCALL 8 8 GlobalResult.FLOAT (UtilityOp.num UtilityOp.UTILITY_CUBIC_INTERPOLATE_IN_TIME) 8 NO_FORM NO_FORM false false;
  mkGlobalFunction "cubic_interpolate_angle_in_time" GlobalFn.CUBIC_INTERPOLATE_ANGLE_IN_TIME GlobalKind.SYSCALL 8 8 GlobalResult.FLOAT (UtilityOp.num UtilityOp.UTILITY_CUBIC_INTERPOLATE_ANGLE_IN_TIME) 8 NO_FORM NO_FORM false false;
  mkGlobalFunction "bezier_interpolate" GlobalFn.BEZIER_INTERPOLATE GlobalKind.SYSCALL 5 5 GlobalResult.FLOAT (UtilityOp.num UtilityOp.UTILITY_BEZIER_INTERPOLATE) 5 NO_FORM NO_FORM false false;
  mkGlobalFunction "bezier_derivative" GlobalFn.BEZIER_DERIVATIVE GlobalKind.SYSCALL 5 5 GlobalResult.FLOAT (UtilityOp.num UtilityOp.UTILITY_BEZIER_DERIVATIVE) 5 NO_FORM NO_FORM false false;
  mkGlobalFunction "is_nan" GlobalFn.IS_NAN GlobalKind.SYSCALL 1 1 GlobalResult.BOOL (UtilityOp.num UtilityOp.UTILITY_IS_NAN) 1 NO_FORM NO_FORM false false;
  mkGlobalFunction "is_inf" GlobalFn.IS_INF GlobalKind.SYSCALL 1 1 GlobalResult.BOOL (UtilityOp.num UtilityOp.UTILITY_IS_INF) 1 NO_FORM NO_FORM false false;
  mkGlobalFunction "is_finite" GlobalFn.IS_FINITE GlobalKind.SYSCALL 1 1 GlobalResult.BOOL (UtilityOp.num UtilityOp.UTILITY_IS_FINITE) 1 NO_FORM NO_FORM false false;
  mkGlobalFunction "is_zero_approx" GlobalFn.IS_ZERO_APPROX GlobalKind.SYSCALL 1 1 GlobalResult.BOOL (UtilityOp.num UtilityOp.UTILITY_IS_ZERO_APPROX) 1 NO_FORM NO_FORM false false;
  mkGlobalFunction "is_equal_approx" GlobalFn.IS_EQUAL_APPROX GlobalKind.SYSCALL 2 2 GlobalResult.BOOL (UtilityOp.num UtilityOp.UTILITY_IS_EQUAL_APPROX) 2 NO_FORM NO_FORM false false;
  mkGlobalFunction "ease" GlobalFn.EASE GlobalKind.SYSCALL 2 2 GlobalResult.FLOAT (UtilityOp.num UtilityOp.UTILITY_EASE) 2 NO_FORM NO_FORM false false;
  mkGlobalFunction "step_decimals" GlobalFn.STEP_DECIMALS GlobalKind.SYSCALL 1 1 GlobalResult.INT (UtilityOp.num UtilityOp.UTILITY_STEP_DECIMALS) 1 NO_FORM NO_FORM false false;
  mkGlobalFunction "nearest_po2" GlobalFn.NEAREST_PO2 GlobalKind.SYSCALL_INT 1 1 GlobalResult.INT (UtilityOp.num UtilityOp.UTILITY_NEAREST_PO2) 0 NO_FORM NO_FORM false false;
  mkGlobalFunction "str" GlobalFn.STR GlobalKind.HOST 1 63 GlobalResult.STRING (UtilityOp.num UtilityOp.UTILITY_STR) 0 NO_FORM NO_FORM false false;
  mkGlobalFunction "len" GlobalFn.LEN GlobalKind.HOST 1 1 GlobalResult.INT (UtilityOp.num UtilityOp.UTILITY_LEN) 0 NO_FORM NO_FORM false false;
  mkGlobalFunction "hash" GlobalFn.HASH GlobalKind.HOST 1 1 GlobalResult.INT (UtilityOp.num UtilityOp.UTILITY_HASH) 0 NO_FORM NO_FORM false false;
  mkGlobalFunction "var_to_str" GlobalFn.VAR_TO_STR GlobalKind.HOST 1 1 GlobalResult.STRING (UtilityOp.num UtilityOp.UTILITY_VAR_TO_STR) 0 NO_FORM NO_FORM false false;
  mkGlobalFunction "str_to_var" GlobalFn.STR_TO_VAR GlobalKind.HOST 1 1 GlobalResult.VARIANT (UtilityOp.num UtilityOp.UTILITY_STR_TO_VAR) 0 NO_FORM NO_FORM false false;
  mkGlobalFunction "var_to_bytes" GlobalFn.VAR_TO_BYTES GlobalKind.HOST 1 1 GlobalResult.VARIANT (UtilityOp.num UtilityOp.UTILITY_VAR_TO_BYTES) 0 NO_FORM NO_FORM false false;
  mkGlobalFunction "bytes_to_var" GlobalFn.BYTES_TO_VAR GlobalKind.HOST 1 1 GlobalResult.VARIANT (UtilityOp.num UtilityOp.UTILITY_BYTES_TO_VAR) 0 NO_FORM NO_FORM false false;
  mkGlobalFunction "type_string" GlobalFn.TYPE_STRING GlobalKind.HOST 1 1 GlobalResult.STRING (UtilityOp.num UtilityOp.UTILITY_TYPE_STRING) 0 NO_FORM NO_FORM false false;
  mkGlobalFunction "type_convert" GlobalFn.TYPE_CONVERT GlobalKind.HOST 2 2 GlobalResult.VARIANT (UtilityOp.num UtilityOp.UTILITY_TYPE_CONVERT) 0 NO_FORM NO_FORM false false;
  mkGlobalFunction "error_string" GlobalFn.ERROR_STRING GlobalKind.HOST 1 1 GlobalResult.STRING (UtilityOp.num UtilityOp.UTILITY_ERROR_STRING) 0 NO_FORM NO_FORM false false;
  mkGlobalFunction "is_same" GlobalFn.IS_SAME GlobalKind.HOST 2 2 GlobalResult.BOOL (UtilityOp.num UtilityOp.UTILITY_IS_SAME) 0 NO_FORM NO_FORM false false;
  mkGlobalFunction "is_instance_valid" GlobalFn.IS_INSTANCE_VALID GlobalKind.HOST 1 1 GlobalResult.BOOL (UtilityOp.num UtilityOp.UTILITY_IS_INSTANCE_VALID) 0 NO_FORM NO_FORM false false;
  mkGlobalFunction "is_instance_of" GlobalFn.IS_INSTANCE_OF GlobalKind.HOST 2 2 GlobalResult.BOOL (UtilityOp.num UtilityOp.UTILITY_IS_INSTANCE_OF) 0 NO_FORM NO_FORM false false;
  mkGlobalFunction "char" GlobalFn.CHAR GlobalKind.HOST 1 1 GlobalResult.STRING (UtilityOp.num UtilityOp.UTILITY_CHAR) 0 NO_FORM NO_FORM false false;
  mkGlobalFunction "ord" GlobalFn.ORD GlobalKind.HOST 1 1 GlobalResult.INT (UtilityOp.num UtilityOp.UTILITY_ORD) 0 NO_FORM NO_FORM false false;
  mkGlobalFunction "rand_from_seed" GlobalFn.RAND_FROM_SEED GlobalKind.HOST 1 1 GlobalResult.VARIANT (UtilityOp.num UtilityOp.UTILITY_RAND_FROM_SEED) 0 NO_FORM NO_FORM false false;
  mkGlobalFunction "int" GlobalFn.TO_INT GlobalKind.CAST 1 1 GlobalResult.INT (UtilityOp.num UtilityOp.UTILITY_TO_INT) 0 GlobalFn.INT_IDENTITY NO_FORM false false;
  mkGlobalFunction "float" GlobalFn.TO_FLOAT GlobalKind.CAST 1 1 GlobalResult.FLOAT (UtilityOp.num UtilityOp.UTILITY_TO_FLOAT) 0 GlobalFn.FLOAT_IDENTITY NO_FORM false false;
  mkGlobalFunction "bool" GlobalFn.TO_BOOL GlobalKind.CAST 1 1 GlobalResult.BOOL (UtilityOp.num UtilityOp.UTILITY_TO_BOOL) 0 GlobalFn.BOOLEANIZE NO_FORM false false;
  mkGlobalFunction "String" GlobalFn.TO_STRING GlobalKind.HOST 0 1 GlobalResult.STRING (UtilityOp.num UtilityOp.UTILITY_STR) 0 NO_FORM NO_FORM false false;
  mkGlobalFunction "randf" GlobalFn.RANDF GlobalKind.SYSCALL 0 0 GlobalResult.FLOAT (UtilityOp.num UtilityOp.UTILITY_RANDF) 0 NO_FORM NO_FORM true false;
  mkGlobalFunction "randf_range" GlobalFn.RANDF_RANGE GlobalKind.SYSCALL 2 2 GlobalResult.FLOAT (UtilityOp.num UtilityOp.UTILITY_RANDF_RANGE) 2 NO_FORM NO_FORM true false;
  mkGlobalFunction "randfn" GlobalFn.RANDFN GlobalKind.SYSCALL 2 2 GlobalResult.FLOAT (UtilityOp.num UtilityOp.UTILITY_RANDFN) 2 NO_FORM NO_FORM true false;
  mkGlobalFunction "randi" GlobalFn.RANDI GlobalKind.SYSCALL_INT 0 0 GlobalResult.INT (UtilityOp.num UtilityOp.UTILITY_RANDI) 0 NO_FORM NO_FORM true false;
  mkGlobalFunction "randi_range" GlobalFn.RANDI_RANGE GlobalKind.SYSCALL_INT 2 2 GlobalResult.INT (UtilityOp.num UtilityOp.UTILITY_RANDI_RANGE) 0 NO_FORM NO_FORM true false;
  mkGlobalFunction "randomize" GlobalFn.RANDOMIZE GlobalKind.HOST 0 0 GlobalResult.NIL (UtilityOp.num UtilityOp.UTILITY_RANDOMIZE) 0 NO_FORM NO_FORM true true;
  mkGlobalFunction "seed" GlobalFn.SEED GlobalKind.HOST 1 1 GlobalResult.NIL (UtilityOp.num UtilityOp.UTILITY_SEED) 0 NO_FORM NO_FORM true true;
  mkGlobalFunction ".int_identity" GlobalFn.INT_IDENTITY GlobalKind.INT_OP 1 1 GlobalResult.INT NO_OP 0 NO_FORM NO_FORM false false;
  mkGlobalFunction ".float_identity" GlobalFn.FLOAT_IDENTITY GlobalKind.FLOAT_OP 1 1 GlobalResult.FLOAT NO_OP 0 NO_FORM NO_FORM false false;
  mkGlobalFunction ".booleanize" GlobalFn.BOOLEANIZE GlobalKind.FLOAT_OP 1 1 GlobalResult.BOOL NO_OP 0 NO_FORM NO_FORM false false].

(** [find_global_function]: the by-name map keeps the last row of a name. *)
Definition find_global_function (name : string) : option GlobalFunction :=
  find (fun entry => String.eqb (gf_name entry) name) (rev GLOBAL_FUNCTIONS).

(** [global_function_name]: the internal lowering forms, whose name starts with
    a dot, are not visible from source. *)
Definition global_function_name (index : nat) : outcome (option string) :=
  let? entry := nth_ub GLOBAL_FUNCTIONS index in
  Ok (if String.prefix "." (gf_name entry) then None else Some (gf_name entry)).

(** [global_function]: the row of a function id. *)
Definition global_function (fn : Z) : outcome GlobalFunction :=
  match find (fun entry => GlobalFn.num (gf_fn entry) =? fn) (rev GLOBAL_FUNCTIONS) with
  | Some entry => Ok entry
  | None => Throw (CompilerException CODEGEN_ERROR ("No table entry for global function id " +:+ pretty fn)%string)
  end.

Definition resolve_numeric_form (info : GlobalFunction) (all_integer : bool) : GlobalFn :=
  if decide (gf_kind info = GlobalKind.NUMERIC)
  then if all_integer then gf_int_form info else gf_float_form info
  else gf_fn info.

Definition resolve_cast_form (info : GlobalFunction) (hint : Z) : GlobalFn :=
  if decide (gf_kind info = GlobalKind.CAST)
  then if (hint =? Variant.INT) || (hint =? Variant.FLOAT) || (hint =? Variant.BOOL)
       then gf_int_form info else gf_fn info
  else gf_fn info.

(** ** Floating-point evaluation *)

Definition MATH_PI : double := dlit 31415926535897932384626433833 28.
Definition MATH_TAU : double := dlit 62831853071795864769252867666 28.
Definition CMP_EPSILON : double := dlit 1 5.

#[local] Infix "+#" := dadd (at level 50, left associativity).
#[local] Infix "-#" := dsub (at level 50, left associativity).
#[local] Infix "*#" := dmul (at level 40, left associativity).
#[local] Infix "/#" := ddiv (at level 40, left associativity).
#[local] Infix "<#" := dltb (at level 70).
#[local] Infix ">#" := dgtb (at level 70).
#[local] Infix "<=#" := dleb (at level 70).
#[local] Infix ">=#" := dgeb (at level 70).
#[local] Infix "==#" := deqb (at level 70).
#[local] Notation "-# x" := (dneg x) (at level 35, right associativity).
#[local] Abbreviation Dz := double_of_Z.
#[local] Abbreviation half := (dlit 5 1).

(** SIGN(): zero and NaN are neither positive nor negative. *)
Definition eval_sign (x : double) : double :=
  if x <# Dz 0 then Dz (-1) else if x ># Dz 0 then Dz 1 else Dz 0.

Definition eval_is_equal_approx (a b : double) : bool :=
  if a ==# b then true
  else
    let tolerance := CMP_EPSILON *# dabs a in
    let tolerance := if tolerance <# CMP_EPSILON then CMP_EPSILON else tolerance in
    dabs (a -# b) <# tolerance.

Definition eval_is_zero_approx (x : double) : bool := dabs x <# CMP_EPSILON.

Definition eval_fposmod (x y : double) : double :=
  let value := dfmod x y in
  let value :=
    if (value <# Dz 0) && (y ># Dz 0) || (value ># Dz 0) && (y <# Dz 0)
    then value +# y else value in
  value +# Dz 0.

Definition eval_lerp (from to weight : double) : double :=
  from +# weight *# (to -# from).

Definition eval_inverse_lerp (from to value : double) : double :=
  (value -# from) /# (to -# from).

Definition eval_angle_difference (from to : double) : double :=
  let difference := dfmod (to -# from) MATH_TAU in
  dfmod (Dz 2 *# difference) MATH_TAU -# difference.

Definition eval_cubic_interpolate (from to pre post weight : double) : double :=
  half *#
    ((from *# Dz 2) +#
     ((-# pre) +# to) *# weight +#
     (Dz 2 *# pre -# Dz 5 *# from +# Dz 4 *# to -# post) *# (weight *# weight) +#
     ((-# pre) +# Dz 3 *# from -# Dz 3 *# to +# post) *# (weight *# weight *# weight)).

Definition eval_cubic_interpolate_in_time
    (from to pre post weight to_t pre_t post_t : double) : double :=
  let t := eval_lerp (Dz 0) to_t weight in
  let a1 := eval_lerp pre from
              (if pre_t ==# Dz 0 then Dz 0 else (t -# pre_t) /# (-# pre_t)) in
  let a2 := eval_lerp from to (if to_t ==# Dz 0 then half else t /# to_t) in
  let a3 := eval_lerp to post
              (if post_t -# to_t ==# Dz 0 then Dz 1 else (t -# to_t) /# (post_t -# to_t)) in
  let b1 := eval_lerp a1 a2
              (if to_t -# pre_t ==# Dz 0 then Dz 0 else (t -# pre_t) /# (to_t -# pre_t)) in
  let b2 := eval_lerp a2 a3 (if post_t ==# Dz 0 then Dz 1 else t /# post_t) in
  eval_lerp b1 b2 (if to_t ==# Dz 0 then half else t /# to_t).

Record CubicAngles := mkCubicAngles { ca_from : double; ca_to : double; ca_pre : double; ca_post : double }.

Definition eval_cubic_angles (from to pre post : double) : CubicAngles :=
  let from_rot := dfmod from MATH_TAU in
  let pre_diff := dfmod (pre -# from_rot) MATH_TAU in
  let pre_rot := from_rot +# dfmod (Dz 2 *# pre_diff) MATH_TAU -# pre_diff in
  let to_diff := dfmod (to -# from_rot) MATH_TAU in
  let to_rot := from_rot +# dfmod (Dz 2 *# to_diff) MATH_TAU -# to_diff in
  let post_diff := dfmod (post -# to_rot) MATH_TAU in
  let post_rot := to_rot +# dfmod (Dz 2 *# post_diff) MATH_TAU -# post_diff in
  mkCubicAngles from_rot to_rot pre_rot post_rot.

Definition eval_snapped (value step : double) : double :=
  if negb (step ==# Dz 0) then dfloor (value /# step +# half) *# step else value.

Definition eval_wrapf (value min max : double) : double :=
  let range := max -# min in
  if eval_is_zero_approx range then min
  else
    let result := value -# (range *# dfloor ((value -# min) /# range)) in
    if eval_is_equal_approx result max then min else result.

Definition bool_double (b : bool) : double := if b then Dz 1 else Dz 0.

(** The thresholds of [step_decimals()]. *)
Definition step_decimals_table : list double :=
  [dlit 9999 4; dlit 9999 5; dlit 9999 6; dlit 9999 7; dlit 9999 8; dlit 9999 9;
   dlit 9999 10; dlit 9999 11; dlit 9999 12; dlit 9999 13].

Fixpoint step_decimals_from (sd : list double) (decimals : double) (i : Z) : double :=
  match sd with
  | [] => Dz 0
  | limit :: sd => if decimals >=# limit then Dz i else step_decimals_from sd decimals (i + 1)
  end.

Section Utility.
Context `{Libm}.
Import UtilityOp.

(** [eval_utility_op], part 1: the unary operations. *)
Definition eval_utility_unary (op : UtilityOp) (a b : double) : option double :=
  match op with
  | UTILITY_FLOOR => Some (dfloor a)
  | UTILITY_CEIL => Some (dceil a)
  | UTILITY_ROUND => Some (if a >=# Dz 0 then dfloor (a +# half) else -# dfloor ((-# a) +# half))
  | UTILITY_SIGN => Some (eval_sign a)
  | UTILITY_SIN => Some (d_sin a)
  | UTILITY_COS => Some (d_cos a)
  | UTILITY_TAN => Some (d_tan a)
  | UTILITY_ASIN => Some (d_asin a)
  | UTILITY_ACOS => Some (d_acos a)
  | UTILITY_ATAN => Some (d_atan a)
  | UTILITY_SINH => Some (d_sinh a)
  | UTILITY_COSH => Some (d_cosh a)
  | UTILITY_TANH => Some (d_tanh a)
  | UTILITY_ASINH => Some (d_asinh a)
  | UTILITY_ACOSH => Some (d_acosh a)
  | UTILITY_ATANH => Some (d_atanh a)
  | UTILITY_EXP => Some (d_exp a)
  | UTILITY_LOG => Some (d_log a)
  | UTILITY_DEG_TO_RAD => Some (a *# MATH_PI /# Dz 180)
  | UTILITY_RAD_TO_DEG => Some (a *# Dz 180 /# MATH_PI)
  | UTILITY_LINEAR_TO_DB => Some (d_log a *# dlit 86858896380650365530225783783321 31)
  | UTILITY_DB_TO_LINEAR => Some (d_exp (a *# dlit 11512925464970228420089957273422 32))
  | UTILITY_IS_NAN => Some (bool_double (is_nan a))
  | UTILITY_IS_INF => Some (bool_double (is_inf a))
  | UTILITY_IS_FINITE => Some (bool_double (is_finite a))
  | UTILITY_IS_ZERO_APPROX => Some (bool_double (eval_is_zero_approx a))
  | UTILITY_EASE =>
      let x := if a <# Dz 0 then Dz 0 else if a ># Dz 1 then Dz 1 else a in
      Some (if b ># Dz 0
            then if b <# Dz 1 then Dz 1 -# d_pow (Dz 1 -# x) (Dz 1 /# b) else d_pow x b
            else if b <# Dz 0
            then if x <# half then d_pow (x *# Dz 2) (-# b) *# half
                 else (Dz 1 -# d_pow (Dz 1 -# (x -# half) *# Dz 2) (-# b)) *# half +# half
            else Dz 0)
  | UTILITY_STEP_DECIMALS =>
      let magnitude := dabs a in
      let decimals := magnitude -# dfloor magnitude in
      Some (step_decimals_from step_decimals_table decimals 0)
  | _ => None
  end.

(** [eval_utility_op], part 2: the operations of two to eight arguments. *)
Definition eval_utility_nary (op : UtilityOp) (a b c d e f g h : double) : option double :=
  match op with
  | UTILITY_ATAN2 => Some (d_atan2 a b)
  | UTILITY_POW => Some (d_pow a b)
  | UTILITY_FMOD => Some (dfmod a b)
  | UTILITY_FPOSMOD => Some (eval_fposmod a b)
  | UTILITY_SNAPPED => Some (eval_snapped a b)
  | UTILITY_IS_EQUAL_APPROX => Some (bool_double (eval_is_equal_approx a b))
  | UTILITY_ANGLE_DIFFERENCE => Some (eval_angle_difference a b)
  | UTILITY_PINGPONG =>
      Some (if b ==# Dz 0 then Dz 0
            else let x := (a -# b) /# (b *# Dz 2) in
                 let fract := x -# dfloor x in
                 dabs (fract *# b *# Dz 2 -# b))
  | UTILITY_LERP => Some (eval_lerp a b c)
  | UTILITY_INVERSE_LERP => Some (eval_inverse_lerp a b c)
  | UTILITY_SMOOTHSTEP =>
      Some (if eval_is_equal_approx a b then a
            else let x := eval_inverse_lerp a b c in
                 let x := if x <# Dz 0 then Dz 0 else if x ># Dz 1 then Dz 1 else x in
                 x *# x *# (Dz 3 -# Dz 2 *# x))
  | UTILITY_MOVE_TOWARD =>
      Some (if dabs (b -# a) <=# c then b else a +# eval_sign (b -# a) *# c)
  | UTILITY_LERP_ANGLE => Some (a +# eval_angle_difference a b *# c)
  | UTILITY_ROTATE_TOWARD =>
      let difference := eval_angle_difference a b in
      let abs_difference := dabs difference in
      let lower := abs_difference -# MATH_PI in
      let delta := if c <# lower then lower
                   else if c ># abs_difference then abs_difference else c in
      Some (a +# delta *# (if difference >=# Dz 0 then Dz 1 else Dz (-1)))
  | UTILITY_WRAP => Some (eval_wrapf a b c)
  | UTILITY_REMAP => Some (eval_lerp d e (eval_inverse_lerp b c a))
  | UTILITY_CUBIC_INTERPOLATE => Some (eval_cubic_interpolate a b c d e)
  | UTILITY_CUBIC_INTERPOLATE_ANGLE =>
      let rot := eval_cubic_angles a b c d in
      Some (eval_cubic_interpolate (ca_from rot) (ca_to rot) (ca_pre rot) (ca_post rot) e)
  | UTILITY_CUBIC_INTERPOLATE_IN_TIME =>
      Some (eval_cubic_interpolate_in_time a b c d e f g h)
  | UTILITY_CUBIC_INTERPOLATE_ANGLE_IN_TIME =>
      let rot := eval_cubic_angles a b c d in
      Some (eval_cubic_interpolate_in_time (ca_from rot) (ca_to rot) (ca_pre rot) (ca_post rot) e f g h)
  | UTILITY_BEZIER_INTERPOLATE =>
      let omt := Dz 1 -# e in
      let omt2 := omt *# omt in
      let omt3 := omt2 *# omt in
      let t2 := e *# e in
      let t3 := t2 *# e in
      Some (a *# omt3 +# b *# omt2 *# e *# Dz 3 +# c *# omt *# t2 *# Dz 3 +# d *# t3)
  | UTILITY_BEZIER_DERIVATIVE =>
      let omt := Dz 1 -# e in
      let omt2 := omt *# omt in
      let t2 := e *# e in
      Some ((b -# a) *# Dz 3 *# omt2 +# (c -# b) *# Dz 6 *# omt *# e +# (d -# c) *# Dz 3 *# t2)
  | _ => None
  end.

(** [eval_utility_op]: the first matching case, or the exception of the
    operations only the host answers. *)
Definition eval_utility_op (utility_op : Z) (args : list double) : outcome double :=
  let arg i := nth i args dzero in
  match of_num utility_op with
  | None => Throw (CompilerException CODEGEN_ERROR ("Unknown utility op " +:+ pretty utility_op)%string)
  | Some op =>
      match eval_utility_unary op (arg 0%nat) (arg 1%nat) with
      | Some r => Ok r
      | None =>
          match eval_utility_nary op (arg 0%nat) (arg 1%nat) (arg 2%nat) (arg 3%nat)
                                     (arg 4%nat) (arg 5%nat) (arg 6%nat) (arg 7%nat) with
          | Some r => Ok r
          | None =>
              match op with
              | UTILITY_STR | UTILITY_LEN | UTILITY_TO_INT | UTILITY_TO_FLOAT
              | UTILITY_TO_BOOL | UTILITY_RAND_FROM_SEED =>
                  Throw (CompilerException CODEGEN_ERROR
                    "str(), len() and the type constructors need the host's Variant API and cannot be evaluated here")
              | UTILITY_RANDF | UTILITY_RANDF_RANGE | UTILITY_RANDFN | UTILITY_RANDI
              | UTILITY_RANDI_RANGE =>
                  Throw (CompilerException CODEGEN_ERROR
                    "The random functions need the host's random number generator and cannot be evaluated here")
              | _ => Throw (CompilerException CODEGEN_ERROR ("Unknown utility op " +:+ pretty utility_op)%string)
              end
          end
      end
  end.

End Utility.

(** ** Integer evaluation *)

(** A signed operation whose mathematical result must fit. *)
Definition checked (z : Z) : outcome Z :=
  if bool_decide (is_int64 z) then Ok z else Throw (UB "signed overflow").

(** The built-in [%] on [int64_t] with a non-zero divisor. *)
Definition rem_checked (a b : Z) : outcome Z :=
  if (b =? -1) && (a =? INT64_MIN) then Throw (UB "signed overflow") else Ok (Z.rem a b).

Definition need (fn : GlobalFn) (count n : nat) : outcome unit :=
  if (count <? n)%nat then
    let? info := global_function (GlobalFn.num fn) in
    Throw (CompilerException CODEGEN_ERROR (gf_name info +:+ " needs " +:+ pretty n +:+ " arguments")%string)
  else Ok tt.

(** The sign-mask form of the absolute value: wraps on INT64_MIN. *)
Definition eval_absi (a : Z) : Z :=
  let mask := Z.shiftr a 63 in
  to_int64 (to_uint64 (Z.lxor (to_uint64 a) (to_uint64 mask) - to_uint64 mask)).

Definition eval_posmod (a b : Z) : outcome Z :=
  if b =? 0 then Ok 0
  else
    let? value := rem_checked a b in
    if (value <? 0) && (b >? 0) || (value >? 0) && (b <? 0)
    then checked (value + b) else Ok value.

Definition eval_wrapi (value min max : Z) : outcome Z :=
  let? range := checked (max - min) in
  if range =? 0 then Ok min
  else
    let? diff := checked (value - min) in
    let? m := rem_checked diff range in
    let? m := checked (m + range) in
    let? m := rem_checked m range in
    checked (min + m).

Definition eval_global_int (fn : GlobalFn) (args : list Z) : outcome Z :=
  let arg i := nth i args 0 in
  let count := length args in
  match fn with
  | GlobalFn.INT_IDENTITY => let? _ := need fn count 1 in Ok (arg 0%nat)
  | GlobalFn.ABSI => let? _ := need fn count 1 in Ok (eval_absi (arg 0%nat))
  | GlobalFn.SIGNI =>
      let? _ := need fn count 1 in
      Ok (if arg 0%nat >? 0 then 1 else if arg 0%nat <? 0 then -1 else 0)
  | GlobalFn.MINI =>
      let? _ := need fn count 2 in
      Ok (if arg 0%nat <? arg 1%nat then arg 0%nat else arg 1%nat)
  | GlobalFn.MAXI =>
      let? _ := need fn count 2 in
      Ok (if arg 0%nat >? arg 1%nat then arg 0%nat else arg 1%nat)
  | GlobalFn.CLAMPI =>
      let? _ := need fn count 3 in
      Ok (if arg 0%nat <? arg 1%nat then arg 1%nat
          else if arg 0%nat >? arg 2%nat then arg 2%nat else arg 0%nat)
  | GlobalFn.POSMOD => let? _ := need fn count 2 in eval_posmod (arg 0%nat) (arg 1%nat)
  | GlobalFn.WRAPI =>
      let? _ := need fn count 3 in eval_wrapi (arg 0%nat) (arg 1%nat) (arg 2%nat)
  | _ =>
      let? info := global_function (GlobalFn.num fn) in
      Throw (CompilerException CODEGEN_ERROR (gf_name info +:+ " is not an integer operation")%string)
  end.

(** SYSCALL_INT: always throws, the host answers these. *)
Definition eval_global_int_syscall (fn : GlobalFn) (args : list Z) : outcome Z :=
  let? info := global_function (GlobalFn.num fn) in
  Throw (CompilerException OPTIMIZER_ERROR
    (gf_name info +:+ "() is answered by the host and cannot be evaluated here")%string).

Section FloatEval.
Context `{Libm}.

Definition UTILITY_MAX_FLOAT_ARGS : nat := 8.

Definition eval_global_float (fn : GlobalFn) (args : list double) : outcome double :=
  let? info := global_function (GlobalFn.num fn) in
  let arg i := nth i args dzero in
  let count := length args in
  if decide (gf_kind info = GlobalKind.SYSCALL)
  then eval_utility_op (gf_utility_op info) (take UTILITY_MAX_FLOAT_ARGS args)
  else
    match fn with
    | GlobalFn.ABSF => let? _ := need fn count 1 in Ok (dabs (arg 0%nat))
    | GlobalFn.SQRT => let? _ := need fn count 1 in Ok (dsqrt (arg 0%nat))
    | GlobalFn.MINF =>
        let? _ := need fn count 2 in
        Ok (if arg 0%nat <# arg 1%nat then arg 0%nat else arg 1%nat)
    | GlobalFn.MAXF =>
        let? _ := need fn count 2 in
        Ok (if arg 0%nat ># arg 1%nat then arg 0%nat else arg 1%nat)
    | GlobalFn.CLAMPF =>
        let? _ := need fn count 3 in
        Ok (if arg 0%nat <# arg 1%nat then arg 1%nat
            else if arg 0%nat ># arg 2%nat then arg 2%nat else arg 0%nat)
    | GlobalFn.FLOAT_IDENTITY => let? _ := need fn count 1 in Ok (arg 0%nat)
    | GlobalFn.BOOLEANIZE =>
        let? _ := need fn count 1 in Ok (bool_double (negb (arg 0%nat ==# Dz 0)))
    | _ => Throw (CompilerException CODEGEN_ERROR (gf_name info +:+ " is not a floating-point operation")%string)
    end.

End FloatEval.

(** ** Properties *)

Lemma checked_Ok z : is_int64 z -> checked z = Ok z.
Proof. intros. unfold checked. by rewrite bool_decide_true. Qed.

Lemma checked_in_range z : - 2 ^ 63 <= z < 2 ^ 63 -> checked z = Ok z.
Proof. intros. apply checked_Ok. unfold is_int64, INT64_MIN, INT64_MAX. lia. Qed.

Lemma eval_absi_spec a : is_int64 a -> eval_absi a = to_int64 (Z.abs a).
Proof.
  intros [Hlo Hhi]. unfold INT64_MIN, INT64_MAX in *. unfold eval_absi.
  rewrite wraps_wrapu by lia.
  destruct (Z.le_gt_cases 0 a) as [Hpos|Hneg].
  - replace (Z.shiftr a 63) with 0.
    2: { symmetry. rewrite Z.shiftr_div_pow2 by lia. apply Z.div_small. lia. }
    change (to_uint64 0) with 0. rewrite Z.lxor_0_r, Z.sub_0_r, wraps_wrapu by lia.
    by rewrite Z.abs_eq.
  - replace (Z.shiftr a 63) with (-1).
    2: { rewrite Z.shiftr_div_pow2 by lia.
         apply Z.div_unique with (r := a + 2 ^ 63); lia. }
    rewrite Z.abs_neq by lia. unfold wrapu, wraps.
    replace (Z.lxor (a mod 2 ^ 64) (-1 mod 2 ^ 64)) with ((- a - 1) mod 2 ^ 64).
    + change (-1 mod 2 ^ 64) with (2 ^ 64 - 1).
      f_equal.
      replace ((- a - 1) mod 2 ^ 64 - (2 ^ 64 - 1) + 2 ^ (64 - 1))
        with ((- a - 1) mod 2 ^ 64 + (2 ^ (64 - 1) - (2 ^ 64 - 1))) by lia.
      rewrite Zplus_mod_idemp_l.
      replace (- a - 1 + (2 ^ (64 - 1) - (2 ^ 64 - 1)))
        with (- a + 2 ^ (64 - 1) + (-1) * 2 ^ 64) by lia.
      by rewrite Z_mod_plus_full.
    + rewrite <- !Z.land_ones by lia. apply Z.bits_inj'. intros n Hn.
      rewrite Z.lxor_spec, !Z.land_spec.
      replace (- a - 1) with (Z.lnot a) by (unfold Z.lnot; lia).
      rewrite Z.lnot_spec, Z.bits_m1 by done.
      destruct (Z.testbit (Z.ones 64) n), (Z.testbit a n); done.
Qed.

Lemma eval_posmod_spec a b :
  is_int64 a -> is_int64 b -> b <> 0 -> (a <> INT64_MIN \/ b <> -1) ->
  eval_posmod a b = Ok (a mod b).
Proof.
  intros Ha Hb Hb0 Hov. unfold eval_posmod.
  destruct (Z.eqb_spec b 0); [done|].
  assert (rem_checked a b = Ok (Z.rem a b)) as ->.
  { unfold rem_checked.
    destruct (Z.eqb_spec b (-1)), (Z.eqb_spec a INT64_MIN); simpl; naive_solver. }
  simpl. unfold is_int64, INT64_MIN, INT64_MAX in *.
  pose proof (Z.rem_bound_abs a b Hb0) as Hr.
  pose proof (Z.quot_rem a b Hb0) as Hq.
  destruct (Z.ltb_spec (Z.rem a b) 0), (Z.gtb_spec b 0), (Z.gtb_spec (Z.rem a b) 0),
    (Z.ltb_spec b 0); simpl; try lia;
    try rewrite checked_in_range by lia; f_equal;
    first [ apply Z.mod_unique with (q := Z.quot a b); lia
          | apply Z.mod_unique with (q := Z.quot a b - 1); lia ].
Qed.

(** No subtraction or addition of [wrapi] overflows, and the division is not the
    one of INT64_MIN by -1. *)
Definition wrapi_fits (value min max : Z) : Prop :=
  is_int64 (max - min) /\
  (max = min \/
   is_int64 (value - min) /\ ~ (value - min = INT64_MIN /\ max - min = -1) /\
   is_int64 (Z.rem (value - min) (max - min) + (max - min))).

Definition wraps_to (value min max r : Z) : Prop :=
  (min < max -> min <= r < max) /\ (max < min -> max < r <= min) /\ (max = min -> r = min)
  /\ (max <> min -> (max - min | r - value)).

Lemma checked_overflow z : ~ is_int64 z -> checked z = Throw (UB "signed overflow").
Proof. intros H. unfold checked. by rewrite bool_decide_eq_false_2. Qed.

Lemma rem_checked_Ok a b : ~ (a = INT64_MIN /\ b = -1) -> rem_checked a b = Ok (Z.rem a b).
Proof.
  intros H. unfold rem_checked. destruct (Z.eqb_spec b (-1)); [|done]. by destruct (Z.eqb_spec a INT64_MIN); [tauto|].
Qed.

(** Twice the remainder, the way to one of the sign of the divisor. *)
Lemma rem_rem_sign d range :
  range <> 0 ->
  let m := Z.rem (Z.rem d range + range) range in
  (range | m - d) /\ (0 < range -> 0 <= m < range) /\ (range < 0 -> range < m <= 0).
Proof.
  intros Hr m. set (x := Z.rem d range) in *.
  pose proof (Z.quot_rem d range Hr) as Hd. pose proof (Z.quot_rem (x + range) range Hr) as Hx.
  pose proof (Z.rem_bound_abs d range Hr) as B1. pose proof (Z.rem_bound_abs (x + range) range Hr) as B2.
  fold x in Hd, B1. fold m in Hx, B2. split.
  - exists (1 - Z.quot d range - Z.quot (x + range) range). lia.
  - split; intros Hs.
    + assert (0 <= m) by (apply Z.rem_nonneg; lia). lia.
    + assert (m <= 0) by (apply Z.rem_nonpos; lia). lia.
Qed.

Lemma eval_wrapi_defined value min max :
  is_int64 min -> is_int64 max -> wrapi_fits value min max ->
  exists r, eval_wrapi value min max = Ok r /\ wraps_to value min max r.
Proof.
  intros Hmin Hmax [Hrange Hrest]. unfold eval_wrapi. rewrite checked_Ok by done. cbn [obind].
  destruct (Z.eqb_spec (max - min) 0) as [Hz|Hz].
  { exists min. split; [done|]. unfold wraps_to. split_and!; lia. }
  destruct Hrest as [?|(Hdiff & Hdiv & Hsum)]; [lia|].
  rewrite checked_Ok by done. cbn [obind]. rewrite rem_checked_Ok by done. cbn [obind].
  rewrite checked_Ok by done. cbn [obind].
  destruct (rem_rem_sign (value - min) (max - min) Hz) as (Hdvd & Hpos & Hneg).
  pose proof (Z.rem_bound_abs (value - min) (max - min) Hz).
  rewrite rem_checked_Ok by (unfold INT64_MIN; lia). cbn [obind].
  set (m := Z.rem (Z.rem (value - min) (max - min) + (max - min)) (max - min)) in *.
  exists (min + m). rewrite checked_Ok.
  - split; [done|]. unfold wraps_to. split_and!; [lia|lia|lia|]. intros _.
    by replace (min + m - value) with (m - (value - min)) by lia.
  - unfold is_int64 in *. destruct (Z.lt_total 0 (max - min)) as [?|[?|?]]; lia.
Qed.

Lemma eval_wrapi_overflows value min max :
  ~ wrapi_fits value min max -> eval_wrapi value min max = Throw (UB "signed overflow").
Proof.
  intros Hn. unfold wrapi_fits in Hn. unfold eval_wrapi.
  destruct (decide (is_int64 (max - min))) as [Hr|Hr]; [|by rewrite checked_overflow].
  rewrite checked_Ok by done. cbn [obind]. destruct (Z.eqb_spec (max - min) 0) as [Hz|Hz]; [exfalso; apply Hn; split; [done|left; lia]|].
  destruct (decide (is_int64 (value - min))) as [Hd|Hd]; [|by rewrite checked_overflow].
  rewrite checked_Ok by done. cbn [obind].
  destruct (decide (value - min = INT64_MIN /\ max - min = -1)) as [Hdiv|Hdiv].
  { unfold rem_checked. by destruct Hdiv as [-> ->]. }
  rewrite rem_checked_Ok by done. cbn [obind]. rewrite checked_overflow; [done|]. tauto.
Qed.

(** C16: on all 64-bit arguments the inline integer globals compute what GDScript
    documents, or reach the undefined behaviour of a signed overflow.  [absi] is
    the absolute value, wrapping at INT64_MIN; [signi] the sign; [mini] and
    [maxi] the order; [clampi] the nearest number of the range, and for a range
    upside down its lower end where the value is below it and the upper one
    elsewhere; [posmod] the floored modulo, 0 for a divisor 0 and undefined for
    INT64_MIN by -1; [wrapi] the number of the half-open range that differs by a
    multiple of its length, the start of an empty range, and undefined exactly
    when one of its operations overflows. *)
Theorem eval_global_int_correct (a b c : Z) :
  is_int64 a -> is_int64 b -> is_int64 c ->
  eval_global_int GlobalFn.ABSI [a] = Ok (if a =? INT64_MIN then INT64_MIN else Z.abs a)
  /\ eval_global_int GlobalFn.SIGNI [a] = Ok (Z.sgn a)
  /\ eval_global_int GlobalFn.MINI [a; b] = Ok (Z.min a b)
  /\ eval_global_int GlobalFn.MAXI [a; b] = Ok (Z.max a b)
  /\ eval_global_int GlobalFn.CLAMPI [a; b; c]
     = Ok (if b <=? c then Z.max b (Z.min a c) else if a <? b then b else c)
  /\ eval_global_int GlobalFn.POSMOD [a; b]
     = (if (a =? INT64_MIN) && (b =? -1) then Throw (UB "signed overflow") else Ok (if b =? 0 then 0 else a mod b))
  /\ (wrapi_fits a b c -> exists r, eval_global_int GlobalFn.WRAPI [a; b; c] = Ok r /\ wraps_to a b c r)
  /\ (~ wrapi_fits a b c -> eval_global_int GlobalFn.WRAPI [a; b; c] = Throw (UB "signed overflow")).
Proof.
  intros Ha Hb Hc.
  assert (forall n m : nat, (n <? m)%nat = false -> forall fn, need fn n m = Ok tt) as Hneed
    by (intros n m E fn; unfold need; by rewrite E).
  unfold eval_global_int; simpl length; rewrite !Hneed by done; simpl.
  split_and!.
  - rewrite eval_absi_spec by auto. f_equal. destruct (Z.eqb_spec a INT64_MIN) as [->|]; [done|].
    apply to_int64_id. unfold is_int64, INT64_MIN, INT64_MAX in *. lia.
  - f_equal. destruct (Z.gtb_spec a 0), (Z.ltb_spec a 0); lia.
  - f_equal. destruct (Z.ltb_spec a b); lia.
  - f_equal. destruct (Z.gtb_spec a b); lia.
  - f_equal. destruct (Z.ltb_spec a b), (Z.gtb_spec a c), (Z.leb_spec b c); lia.
  - destruct (Z.eqb_spec a INT64_MIN) as [->|Hm]; [destruct (Z.eqb_spec b (-1)) as [->|Hm]; [done|]|]; cbn [andb];
      (destruct (Z.eqb_spec b 0) as [->|Hz]; [done|apply eval_posmod_spec; auto]).
  - by apply eval_wrapi_defined.
  - apply eval_wrapi_overflows.
Qed.

Lemma eval_global_int_correct_witness :
  eval_global_int GlobalFn.POSMOD [-7; 3] = Ok 2
  /\ (exists r, eval_global_int GlobalFn.WRAPI [7; -2; 3] = Ok r /\ wraps_to 7 (-2) 3 r)
  /\ eval_global_int GlobalFn.ABSI [- 2 ^ 63] = Ok (- 2 ^ 63)
  /\ eval_global_int GlobalFn.WRAPI [2 ^ 63 - 1; -1; 0] = Throw (UB "signed overflow").
Proof.
  assert (Hint : forall z, bool_decide (is_int64 z) = true -> is_int64 z) by (intros z; apply bool_decide_eq_true_1).
  destruct (eval_global_int_correct (-7) 3 0) as (_ & _ & _ & _ & _ & Hp & _); [by apply Hint..|].
  destruct (eval_global_int_correct 7 (-2) 3) as (_ & _ & _ & _ & _ & _ & Hw & _); [by apply Hint..|].
  destruct (eval_global_int_correct (- 2 ^ 63) 0 0) as (Ha & _); [by apply Hint..|].
  destruct (eval_global_int_correct (2 ^ 63 - 1) (-1) 0) as (_ & _ & _ & _ & _ & _ & _ & Ho); [by apply Hint..|].
  split; [exact Hp|]. split; [apply Hw|split; [exact Ha|apply Ho]].
  - split; [by apply Hint|right]. split; [by apply Hint|]. split; [by intros [? _]|by apply Hint].
  - intros [_ [?|[H _]]]; [done|]. apply (bool_decide_eq_true_2 (is_int64 (2 ^ 63 - 1 - -1))) in H. by vm_compute in H.
Defined.

(** The table is complete and its dispatch is closed: every [GlobalFn] has a
    row that carries it, found by id and by name; a NUMERIC row resolves, for
    integer and for mixed arguments, to rows that are not NUMERIC, take the
    same arguments and answer INT and FLOAT. *)
Theorem global_table_complete (fn : GlobalFn) :
  exists info,
    global_function (GlobalFn.num fn) = Ok info
    /\ gf_fn info = fn
    /\ find_global_function (gf_name info) = Some info
    /\ (gf_kind info = GlobalKind.NUMERIC ->
        exists int_info float_info,
          global_function (GlobalFn.num (resolve_numeric_form info true)) = Ok int_info
          /\ global_function (GlobalFn.num (resolve_numeric_form info false)) = Ok float_info
          /\ gf_kind int_info <> GlobalKind.NUMERIC /\ gf_kind float_info <> GlobalKind.NUMERIC
          /\ gf_min_args int_info = gf_min_args info /\ gf_min_args float_info = gf_min_args info
          /\ gf_result int_info = GlobalResult.INT /\ gf_result float_info = GlobalResult.FLOAT).
Proof.
  destruct fn; (eexists; split; [vm_compute; reflexivity|];
    split; [reflexivity|]; split; [vm_compute; reflexivity|]; intros; try discriminate);
    do 2 eexists; (split; [vm_compute; reflexivity|]); (split; [vm_compute; reflexivity|]);
    split_and!; done.
Qed.
