(* ===== verification/IR.v ===== *)
(** * The intermediate representation

    Models [ir.h] and [ir.cpp]: operand values, instructions, functions, the
    interned string table, the register bit set of the liveness analyses, and
    the operand-role queries every pass goes through. *)

From S2P Require Import Prelude.
From S2P Require Import Double.
From S2P Require Import VariantTypes.
From S2P Require Import IROpcodes.
From S2P Require Import Globals.

(** ** String table *)
Module IRStringTable.

Record IRStringTable := mk {
  m_strings : list string;
  m_ids : gmap string Z
}.

Definition INVALID_ID : Z := UINT32_MAX.

Definition empty : IRStringTable := mk [] ∅.

Definition intern (t : IRStringTable) (text : string) : IRStringTable * Z :=
  match m_ids t !! text with
  | Some id => (t, id)
  | None =>
      let id := to_uint32 (Z.of_nat (length (m_strings t))) in
      (mk (m_strings t ++ [text]) (<[text := id]> (m_ids t)), id)
  end.

(** [operator[]]: the empty string for an unknown id. *)
Definition get (t : IRStringTable) (id : Z) : string :=
  if (0 <=? id) && (id <? Z.of_nat (length (m_strings t)))
  then nth (Z.to_nat id) (m_strings t) ""%string else ""%string.

Definition size (t : IRStringTable) : nat := length (m_strings t).

(** The two indexes agree: [m_ids] maps exactly the stored strings to their
    positions. *)
Definition wf (t : IRStringTable) : Prop :=
  Z.of_nat (length (m_strings t)) <= 2 ^ 32 /\
  forall text id, m_ids t !! text = Some id <->
    0 <= id /\ m_strings t !! Z.to_nat id = Some text.

Lemma empty_wf : wf empty.
Proof. split; [done|]. intros text id. simpl. rewrite lookup_empty. naive_solver. Qed.

Lemma get_lookup t id text : m_strings t !! Z.to_nat id = Some text -> 0 <= id -> get t id = text.
Proof.
  intros Hl Hid. unfold get. pose proof (lookup_lt_Some _ _ _ Hl).
  rewrite (proj2 (Z.leb_le 0 id)), (proj2 (Z.ltb_lt _ _)) by lia. simpl.
  by apply nth_lookup_Some.
Qed.

Lemma intern_spec t text :
  wf t -> Z.of_nat (length (m_strings t)) < 2 ^ 32 ->
  let '(t', id) := intern t text in
  wf t' /\ 0 <= id /\ m_strings t' !! Z.to_nat id = Some text
  /\ (forall i s, m_strings t !! i = Some s -> m_strings t' !! i = Some s).
Proof.
  intros [Hlen Hwf] Hroom. unfold intern. destruct (m_ids t !! text) as [id|] eqn:E.
  { split; [done|]. apply Hwf in E as [? ?]. done. }
  set (n := length (m_strings t)) in *.
  assert (to_uint32 (Z.of_nat n) = Z.of_nat n) as Hid by (unfold wrapu; apply Z.mod_small; lia).
  rewrite Hid. simpl. rewrite Nat2Z.id. split_and!; [split| |by apply list_lookup_middle|].
  - simpl. rewrite length_app. simpl. lia.
  - intros u id. simpl. rewrite lookup_insert. case_decide as Hu; subst.
    + split.
      * intros [= <-]. rewrite Nat2Z.id. split; [lia|by apply list_lookup_middle].
      * intros [H0 Hl]. apply lookup_snoc_Some in Hl as [[? Hl]|[Heq _]].
        -- assert (m_ids t !! u = Some id) by (by apply Hwf). congruence.
        -- f_equal. lia.
    + rewrite Hwf. split; intros [H0 Hl]; (split; [done|]).
      * by apply lookup_app_l_Some.
      * apply lookup_snoc_Some in Hl as [[? Hl]|[? ?]]; [done|congruence].
  - lia.
  - intros i s Hs. by apply lookup_app_l_Some.
Qed.

End IRStringTable.

(** ** Operands *)
Module IRValue.

(** The tagged union: the payload of each [Type] is its constructor's argument. *)
Inductive IRValue :=
  | REGISTER (reg_value : Z)
  | IMMEDIATE (imm_value : Z)
  | FLOAT (float_value : double)
  | LABEL (string_id : Z)
  | VARIABLE (string_id : Z)
  | STRING (string_id : Z).

Definition reg (r : Z) : IRValue := REGISTER r.
Definition imm (i : Z) : IRValue := IMMEDIATE i.
Definition fimm (d : double) : IRValue := FLOAT d.
Definition label (id : Z) : IRValue := LABEL id.
Definition var (id : Z) : IRValue := VARIABLE id.
Definition str (id : Z) : IRValue := STRING id.

#[export] Instance IRValue_eq_dec : EqDecision IRValue.
Proof. solve_decision. Defined.

Definition is_register (v : IRValue) : bool := match v with REGISTER _ => true | _ => false end.
Definition is_immediate (v : IRValue) : bool := match v with IMMEDIATE _ => true | _ => false end.
Definition is_float (v : IRValue) : bool := match v with FLOAT _ => true | _ => false end.
Definition is_label (v : IRValue) : bool := match v with LABEL _ => true | _ => false end.
Definition is_string (v : IRValue) : bool := match v with STRING _ => true | _ => false end.

(** The union members, where the source reads one without testing the tag.
    The other members are undefined behaviour. *)
Definition reg_index_ub (v : IRValue) : outcome Z :=
  match v with REGISTER r => Ok r | _ => Throw (UB "inactive union member") end.
Definition immediate_ub (v : IRValue) : outcome Z :=
  match v with IMMEDIATE i => Ok i | _ => Throw (UB "inactive union member") end.
Definition float_number_ub (v : IRValue) : outcome double :=
  match v with FLOAT d => Ok d | _ => Throw (UB "inactive union member") end.
Definition string_id_ub (v : IRValue) : outcome Z :=
  match v with
  | LABEL id | VARIABLE id | STRING id => Ok id
  | _ => Throw (UB "inactive union member")
  end.

(** The same members in the passes of the optimizer.  Those read operands of a
    known role, and are only claimed correct on functions whose operands match
    their signatures, where the default is never taken. *)
Definition reg_index (v : IRValue) : Z := match v with REGISTER r => r | _ => -1 end.
Definition immediate (v : IRValue) : Z := match v with IMMEDIATE i => i | _ => 0 end.
Definition float_number (v : IRValue) : double := match v with FLOAT d => d | _ => dzero end.
Definition string_id (v : IRValue) : Z :=
  match v with LABEL id | VARIABLE id | STRING id => id | _ => IRStringTable.INVALID_ID end.

(** [operator==]: floats compare as numbers. *)
Definition equals (a b : IRValue) : bool :=
  match a, b with
  | REGISTER x, REGISTER y => x =? y
  | IMMEDIATE x, IMMEDIATE y => x =? y
  | FLOAT x, FLOAT y => deqb x y
  | LABEL x, LABEL y | VARIABLE x, VARIABLE y | STRING x, STRING y => x =? y
  | _, _ => false
  end.

End IRValue.
Export (hints) IRValue.
Abbreviation IRValue := IRValue.IRValue.

(** ** Instructions *)

Definition TypeHint_NONE : Z := -1.

Record IRInstruction := mkInstr {
  opcode : IROpcode;
  operands : list IRValue;
  type_hint : Z;
  lhs_type_hint : Z;
  rhs_type_hint : Z;
  line : Z;
  debug_order : Z;
  super_call : bool;
  trusted_internal_call : bool
}.

(** The constructors: an opcode and its operands, everything else default. *)
Definition instr (op : IROpcode) (ops : list IRValue) : IRInstruction :=
  mkInstr op ops TypeHint_NONE TypeHint_NONE TypeHint_NONE 0 0 false false.

#[export] Instance IRInstruction_eq_dec : EqDecision IRInstruction.
Proof. solve_decision. Defined.

(** [operator==]; [debug_order] is not part of it. *)
Definition instr_equals (a b : IRInstruction) : bool :=
  IROpcode.eqb (opcode a) (opcode b)
  && (type_hint a =? type_hint b)
  && (lhs_type_hint a =? lhs_type_hint b)
  && (rhs_type_hint a =? rhs_type_hint b)
  && (line a =? line b)
  && Bool.eqb (super_call a) (super_call b)
  && Bool.eqb (trusted_internal_call a) (trusted_internal_call b)
  && (length (operands a) =? length (operands b))%nat
  && forallb (fun p => IRValue.equals p.1 p.2) (zip (operands a) (operands b)).

(** Field updates. *)
Definition with_operands (i : IRInstruction) (ops : list IRValue) : IRInstruction :=
  mkInstr (opcode i) ops (type_hint i) (lhs_type_hint i) (rhs_type_hint i)
    (line i) (debug_order i) (super_call i) (trusted_internal_call i).
Definition with_type_hint (i : IRInstruction) (h : Z) : IRInstruction :=
  mkInstr (opcode i) (operands i) h (lhs_type_hint i) (rhs_type_hint i)
    (line i) (debug_order i) (super_call i) (trusted_internal_call i).
Definition with_line (i : IRInstruction) (l : Z) : IRInstruction :=
  mkInstr (opcode i) (operands i) (type_hint i) (lhs_type_hint i) (rhs_type_hint i)
    l (debug_order i) (super_call i) (trusted_internal_call i).

(** ** Functions and programs *)

Record DebugLocal := mkDebugLocal {
  dl_name : string;
  dl_register_num : Z;
  dl_type_hint : Z;
  dl_begin_instruction : Z;
  dl_end_instruction : Z;
  dl_parameter : bool
}.

Record IRFunction := mkFunction {
  fn_name : string;
  source_path : string;
  parameters : list string;
  instructions : list IRInstruction;
  debug_locals : list DebugLocal;
  max_registers : Z;
  return_type_hint : Z;
  param_sets : list Z;
  return_set : Z;
  array_batch_scopes : list (Z * Z);
  codepoint_batch_buffers : list Z;
  is_coroutine : bool
}.

Definition RETURN_REGISTER : Z := 0.

Definition with_instructions (f : IRFunction) (body : list IRInstruction) : IRFunction :=
  mkFunction (fn_name f) (source_path f) (parameters f) body (debug_locals f)
    (max_registers f) (return_type_hint f) (param_sets f) (return_set f)
    (array_batch_scopes f) (codepoint_batch_buffers f) (is_coroutine f).
Definition with_max_registers (f : IRFunction) (n : Z) : IRFunction :=
  mkFunction (fn_name f) (source_path f) (parameters f) (instructions f) (debug_locals f)
    n (return_type_hint f) (param_sets f) (return_set f)
    (array_batch_scopes f) (codepoint_batch_buffers f) (is_coroutine f).
Definition with_debug_locals (f : IRFunction) (ls : list DebugLocal) : IRFunction :=
  mkFunction (fn_name f) (source_path f) (parameters f) (instructions f) ls
    (max_registers f) (return_type_hint f) (param_sets f) (return_set f)
    (array_batch_scopes f) (codepoint_batch_buffers f) (is_coroutine f).

(** A function with a body and everything else default. *)
Definition simple_function (name : string) (params : list string) (body : list IRInstruction)
    (regs : Z) : IRFunction :=
  mkFunction name "" params body [] regs TypeHint_NONE [] 0 [] [] false.

Module InitType.
Inductive InitType := NONE | INT | FLOAT | STRING | BOOL | NULL_VAL | EMPTY_ARRAY | EMPTY_DICT | RUNTIME.
End InitType.

(** [std::variant<int64_t, double, std::string, bool>]. *)
Inductive InitValue :=
  | IV_int (z : Z)
  | IV_double (d : double)
  | IV_string (s : string)
  | IV_bool (b : bool).

(** The fields of [IRGlobalVar] the interpreter reads. *)
Record IRGlobalVar := mkGlobalVar {
  gv_name : string;
  gv_init_type : InitType.InitType;
  gv_init_value : InitValue
}.

(** The fields of [IRProgram] the modelled components read. *)
Record IRProgram := mkProgram {
  globals : list IRGlobalVar;
  functions : list IRFunction;
  string_constants : list string;
  strings : IRStringTable.IRStringTable;
  global_init : IRFunction;
  has_global_init : bool;
  member_init : IRFunction;
  has_member_init : bool
}.

(** ** Operand roles *)

(** The register the instruction defines: -1 in the source when there is
    none, which [None] stands for. *)
Definition ir_destination_register (i : IRInstruction) : option Z :=
  match ir_destination_operand_index (opcode i) with
  | None => None
  | Some index =>
      match operands i !! index with
      | Some (IRValue.REGISTER r) => Some r
      | _ => None
      end
  end.

Definition operand_kind (i : IRInstruction) (index : nat) : IROperandKind :=
  kind_at (info_signature (ir_opcode_info (opcode i))) index.

(** Read unless the signature marks it DST. *)
Definition ir_reads_operand (i : IRInstruction) (index : nat) : bool :=
  match operands i !! index with
  | Some (IRValue.REGISTER _) => negb (bool_decide (operand_kind i index = IROperandKind.DST))
  | _ => false
  end.

Definition ir_writes_operand (i : IRInstruction) (index : nat) : bool :=
  match operands i !! index with
  | Some (IRValue.REGISTER _) =>
      bool_decide (operand_kind i index = IROperandKind.DST)
      || bool_decide (operand_kind i index = IROperandKind.INOUT)
  | _ => false
  end.

Definition is_bare_return (i : IRInstruction) : bool :=
  IROpcode.eqb (opcode i) IROpcode.RETURN && (length (operands i) =? 0)%nat.

(** Bare RETURN implicitly reads the return register. *)
Definition ir_collect_read_registers (i : IRInstruction) : list Z :=
  if is_bare_return i then [RETURN_REGISTER]
  else omap (fun index =>
         if ir_reads_operand i index
         then match operands i !! index with
              | Some v => Some (IRValue.reg_index v)
              | None => None
              end
         else None) (seq 0 (length (operands i))).

(** Per-instruction purity: an impure global function is not deletable even
    when its result is unused.  An unknown function id makes the source throw. *)
Definition ir_instruction_is_pure (i : IRInstruction) : outcome bool :=
  if negb (ir_is_pure (opcode i)) then Ok false
  else if negb (IROpcode.eqb (opcode i) IROpcode.GLOBAL_CALL) then Ok true
  else match operands i !! 1%nat with
       | Some (IRValue.IMMEDIATE fn) =>
           let? info := global_function (to_int16 fn) in Ok (negb (gf_impure info))
       | _ => Ok true
       end.

Module TypeHintUtils.
Definition is_variant (hint : Z) : bool := negb (hint =? TypeHint_NONE).
Definition is_int_vector (hint : Z) : bool :=
  (hint =? Variant.VECTOR2I) || (hint =? Variant.VECTOR3I) || (hint =? Variant.VECTOR4I).
Definition is_float_vector (hint : Z) : bool :=
  (hint =? Variant.VECTOR2) || (hint =? Variant.VECTOR3) || (hint =? Variant.VECTOR4)
  || (hint =? Variant.COLOR).
Definition is_vector (hint : Z) : bool :=
  (hint =? Variant.VECTOR2) || (hint =? Variant.VECTOR3) || (hint =? Variant.VECTOR4)
  || (hint =? Variant.COLOR)
  || (hint =? Variant.VECTOR2I) || (hint =? Variant.VECTOR3I) || (hint =? Variant.VECTOR4I).
End TypeHintUtils.

(** [variant_type_name]. *)
Definition variant_type_names : list (Variant.Type_ * string) := [
  (Variant.NIL, "NIL"); (Variant.BOOL, "BOOL"); (Variant.INT, "INT"); (Variant.FLOAT, "FLOAT");
  (Variant.STRING, "STRING"); (Variant.STRING_NAME, "STRING_NAME"); (Variant.NODE_PATH, "NODE_PATH");
  (Variant.VECTOR2, "VECTOR2"); (Variant.VECTOR2I, "VECTOR2I"); (Variant.VECTOR3, "VECTOR3");
  (Variant.VECTOR3I, "VECTOR3I"); (Variant.VECTOR4, "VECTOR4"); (Variant.VECTOR4I, "VECTOR4I");
  (Variant.COLOR, "COLOR"); (Variant.RECT2, "RECT2"); (Variant.RECT2I, "RECT2I");
  (Variant.TRANSFORM2D, "TRANSFORM2D"); (Variant.TRANSFORM3D, "TRANSFORM3D"); (Variant.BASIS, "BASIS");
  (Variant.QUATERNION, "QUATERNION"); (Variant.PLANE, "PLANE"); (Variant.AABB, "AABB");
  (Variant.PROJECTION, "PROJECTION"); (Variant.ARRAY, "ARRAY"); (Variant.DICTIONARY, "DICTIONARY");
  (Variant.OBJECT, "OBJECT"); (Variant.RID, "RID"); (Variant.CALLABLE, "CALLABLE");
  (Variant.SIGNAL, "SIGNAL"); (Variant.PACKED_BYTE_ARRAY, "PACKED_BYTE_ARRAY");
  (Variant.PACKED_INT32_ARRAY, "PACKED_INT32_ARRAY"); (Variant.PACKED_INT64_ARRAY, "PACKED_INT64_ARRAY");
  (Variant.PACKED_FLOAT32_ARRAY, "PACKED_FLOAT32_ARRAY");
  (Variant.PACKED_FLOAT64_ARRAY, "PACKED_FLOAT64_ARRAY");
  (Variant.PACKED_STRING_ARRAY, "PACKED_STRING_ARRAY");
  (Variant.PACKED_VECTOR2_ARRAY, "PACKED_VECTOR2_ARRAY");
  (Variant.PACKED_VECTOR3_ARRAY, "PACKED_VECTOR3_ARRAY");
  (Variant.PACKED_COLOR_ARRAY, "PACKED_COLOR_ARRAY");
  (Variant.PACKED_VECTOR4_ARRAY, "PACKED_VECTOR4_ARRAY") ]%string.

Definition variant_type_name (hint : Z) : string :=
  if hint =? TypeHint_NONE then "NONE"
  else match find (fun row => Variant.num row.1 =? hint) variant_type_names with
       | Some row => row.2
       | None => "UNKNOWN"
       end.
