(* ===== verification/Samples.v ===== *)
(** * Sample programs

    Small IR functions the witnesses of the development evaluate. *)

From S2P Require Import Prelude.
From S2P Require Import Double.
From S2P Require Import VariantTypes.
From S2P Require Import IROpcodes.
From S2P Require Import Globals.
From S2P Require Import IR.

Module Samples.
Import IROpcode.

Abbreviation R := IRValue.reg.
Abbreviation I := IRValue.imm.
Abbreviation L := IRValue.label.

(** Interned names: 0 is "loop", 1 is "done", 2 is "sum", 3 is "pow". *)
Definition table : IRStringTable.IRStringTable :=
  fold_left (fun t name => (IRStringTable.intern t name).1)
    ["loop"; "done"; "sum"; "pow"]%string IRStringTable.empty.

Lemma table_wf : IRStringTable.wf table.
Proof.
  unfold table. simpl.
  assert (forall t name, IRStringTable.wf t -> (IRStringTable.size t < 10)%nat ->
    IRStringTable.wf (IRStringTable.intern t name).1
    /\ (IRStringTable.size (IRStringTable.intern t name).1 <= S (IRStringTable.size t))%nat) as Hstep.
  { intros t name Hwf Hs. unfold IRStringTable.size in *.
    pose proof (IRStringTable.intern_spec t name Hwf ltac:(lia)) as Hi.
    destruct (IRStringTable.intern t name) as [t' id] eqn:E. destruct Hi as (Hwf' & _). split; [done|].
    unfold IRStringTable.intern in E. destruct (IRStringTable.m_ids t !! name); simplify_eq; simpl; [lia|].
    rewrite length_app. simpl. lia. }
  assert (IRStringTable.wf IRStringTable.empty /\ (IRStringTable.size IRStringTable.empty <= 0)%nat) as H0
    by (split; [apply IRStringTable.empty_wf|done]).
  pose proof (Hstep _ "loop"%string (proj1 H0) ltac:(lia)) as H1.
  pose proof (Hstep _ "done"%string (proj1 H1) ltac:(lia)) as H2.
  pose proof (Hstep _ "sum"%string (proj1 H2) ltac:(lia)) as H3.
  apply (Hstep _ "pow"%string (proj1 H3)). lia.
Qed.

(** The sum of 1..n for the parameter n. *)
Definition sum : IRFunction := simple_function "sum" ["n"] [
  instr LOAD_IMM [R 1; I 0];
  instr LOAD_IMM [R 2; I 1];
  instr LABEL [L 0];
  instr CMP_GT [R 3; R 2; R 0];
  instr BRANCH_NOT_ZERO [R 3; L 1];
  instr ADD [R 1; R 1; R 2];
  instr LOAD_IMM [R 4; I 1];
  instr ADD [R 2; R 2; R 4];
  instr JUMP [L 0];
  instr LABEL [L 1];
  instr MOVE [R 0; R 1];
  instr RETURN []
] 5.

(** Needs the host. *)
Definition pow : IRFunction := simple_function "pow" ["a"; "b"] [
  instr POW [R 0; R 0; R 1];
  instr RETURN []
] 2.

(** Marks a scope around a loop and releases it. *)
Definition scoped : IRFunction := simple_function "scoped" ["n"] [
  instr SCOPE_MARK [I 7];
  instr SCOPE_RELEASE [I 7];
  instr RETURN []
] 1.

(** Jumps over nothing. *)
Definition jumper : IRFunction := simple_function "jumper" [] [
  instr JUMP [L 1];
  instr LABEL [L 1];
  instr RETURN []
] 1.

(** A constant copied twice. *)
Definition copies : IRFunction := simple_function "copies" [] [
  instr LOAD_IMM [R 1; I 5];
  instr MOVE [R 2; R 1];
  instr MOVE [R 3; R 2];
  instr ADD [R 0; R 3; R 1];
  instr RETURN []
] 4.

(** A jump over code nothing reaches. *)
Definition stranded : IRFunction := simple_function "stranded" [] [
  instr LOAD_IMM [R 0; I 1];
  instr JUMP [L 1];
  instr LABEL [L 0];
  instr LOAD_IMM [R 0; I 2];
  instr LABEL [L 1];
  instr RETURN []
] 1.

Definition program_of (fs : list IRFunction) : IRProgram :=
  mkProgram [] fs [] table (simple_function "" [] [] 0) false (simple_function "" [] [] 0) false.

Definition program : IRProgram := program_of [sum; pow; scoped; jumper].

End Samples.
