(* ===== verification/Cfg.v ===== *)
(** * Basic blocks

    Models the block construction that [IRVerifier::build_blocks]
    (ir_verifier.cpp) and [IROptimizer::analysis] (ir_optimizer.cpp) share: the
    leaders, the scan that cuts the instructions into blocks and the successor
    lists.  The two differ in how a label operand is resolved (by name, by
    interned id), which is the parameter [target]. *)

From S2P Require Import Prelude.
From S2P Require Import Dataflow.
From S2P Require Import Double.
From S2P Require Import VariantTypes.
From S2P Require Import IROpcodes.
From S2P Require Import Globals.
From S2P Require Import IR.

Section Blocks.
Context (body : list IRInstruction).

Definition has_effect_at (i : nat) (effect : Z) : bool :=
  match body !! i with Some ins => ir_has_effect (opcode ins) effect | None => false end.

(** First instruction, labels, and the positions after a branch or terminator. *)
Definition is_leader (i : nat) : bool :=
  (i =? 0)%nat || has_effect_at i IR_LABEL
  || has_effect_at (i - 1) IR_BRANCH || has_effect_at (i - 1) IR_TERMINATOR.

(** The scan's state: the blocks found so far with their bounds, and the block
    of every instruction passed. *)
Record Scan := mkScan {
  sc_blocks : list (nat * nat);
  sc_block_of : list nat
}.

Definition scan_step (st : Scan) (i : nat) : Scan :=
  let blocks := if is_leader i then sc_blocks st ++ [(i, i)] else sc_blocks st in
  let last := (length blocks - 1)%nat in
  mkScan (alter (fun b => (b.1, S i)) last blocks) (sc_block_of st ++ [last]).

Definition scan : Scan := fold_left scan_step (seq 0 (length body)) (mkScan [] []).

Definition blocks : list (nat * nat) := sc_blocks scan.
Definition block_of (i : nat) : nat := nth i (sc_block_of scan) 0%nat.

Context (target : Z -> option nat).

(** Branch targets, then the fall-through. *)
Definition successors (b : nat) : list nat :=
  match blocks !! b with
  | None => []
  | Some (_, e) =>
      match body !! (e - 1)%nat with
      | None => []
      | Some last =>
          (if ir_has_effect (opcode last) IR_LABEL then []
           else omap (fun operand =>
                  match operand with
                  | IRValue.LABEL id => block_of <$> target id
                  | _ => None
                  end) (operands last))
          ++ (if negb (ir_has_effect (opcode last) IR_TERMINATOR) && (S b <? length blocks)%nat
              then [S b] else [])
      end
  end.

(** ** What the scan establishes *)

(** [n] instructions passed: each lies in its block, blocks start at leaders
    and contain no other, and they follow one another without gaps. *)
Record scan_ok (n : nat) (st : Scan) : Prop := {
  so_length : length (sc_block_of st) = n;
  so_of : forall p, (p < n)%nat -> exists b x y,
    sc_block_of st !! p = Some b /\ sc_blocks st !! b = Some (x, y) /\ (x <= p < y)%nat;
  so_block : forall b x y, sc_blocks st !! b = Some (x, y) ->
    (x < y <= n)%nat /\ is_leader x = true /\ (forall p, (x < p < y)%nat -> is_leader p = false);
  so_next : forall b x y, sc_blocks st !! b = Some (x, y) ->
    ((y < n)%nat /\ exists z, sc_blocks st !! S b = Some (y, z)) \/ (y = n /\ S b = length (sc_blocks st));
  so_first : (0 < n)%nat -> exists y, sc_blocks st !! 0%nat = Some (0%nat, y)
}.

Lemma scan_ok_nil : scan_ok 0 (mkScan [] []).
Proof. split; simpl; intros; try lia; try done. Qed.

Lemma is_leader_0 : is_leader 0 = true.
Proof. done. Qed.

(** A leader opens a block. *)
Lemma scan_step_leader n st :
  scan_ok n st -> is_leader n = true ->
  scan_step st n = mkScan (sc_blocks st ++ [(n, S n)]) (sc_block_of st ++ [length (sc_blocks st)]).
Proof.
  intros Hok Hl. unfold scan_step. rewrite Hl, length_app. simpl.
  rewrite Nat.add_sub. f_equal.
  replace (length (sc_blocks st)) with (length (sc_blocks st) + 0)%nat by lia.
  by rewrite alter_app_r.
Qed.

Lemma scan_ok_leader n st :
  scan_ok n st -> is_leader n = true -> scan_ok (S n) (scan_step st n).
Proof.
  intros Hok Hl. rewrite (scan_step_leader n) by done. destruct Hok as [Hlen Hof Hblk Hnext Hfirst].
  set (bs := sc_blocks st) in *. assert (forall b xy, (bs ++ [(n, S n)]) !! b = Some xy ->
    bs !! b = Some xy \/ b = length bs /\ xy = (n, S n)) as Hlk.
  { intros b xy [Hb|[Hb Hx]]%lookup_app_Some; [by left|right].
    destruct (b - length bs)%nat eqn:E; [|done]. split; [lia|by simplify_eq/=]. }
  split; simpl.
  - rewrite length_app, Hlen. simpl. lia.
  - intros p Hp. destruct (decide (p = n)) as [->|Hne].
    + exists (length bs), n, (S n). rewrite list_lookup_middle by done. rewrite list_lookup_middle by done.
      split; [done|]. split; [done|lia].
    + destruct (Hof p) as (b & x & y & ? & ? & ?); [lia|]. exists b, x, y.
      split; [by apply lookup_app_l_Some|]. split; [by apply lookup_app_l_Some|lia].
  - intros b x y [Hb|[-> [= -> ->]]]%Hlk.
    + destruct (Hblk _ _ _ Hb) as (? & ? & ?). split; [lia|done].
    + split; [lia|]. split; [done|]. intros; lia.
  - intros b x y [Hb|[-> [= -> ->]]]%Hlk; [left|right].
    + destruct (Hnext _ _ _ Hb) as [[Hy [z Hz]]|[-> Hb1]]; (split; [lia|]).
      * exists z. by apply lookup_app_l_Some.
      * exists (S n). rewrite Hb1. by apply list_lookup_middle.
    + split; [done|]. rewrite length_app. simpl. lia.
  - intros _. destruct (decide (0 < n)%nat) as [Hn|Hn].
    + destruct (Hfirst Hn) as [y Hy]. exists y. by apply lookup_app_l_Some.
    + assert (n = 0)%nat as -> by lia. destruct bs as [|b bs']; [by eexists|].
      destruct b as [x y]. destruct (Hblk 0%nat x y) as ([? ?] & _); [done|lia].
Qed.

(** Any other instruction extends the last block. *)
Lemma scan_step_inner n st x y :
  is_leader n = false -> last (sc_blocks st) = Some (x, y) ->
  exists bs, sc_blocks st = bs ++ [(x, y)] /\
  scan_step st n = mkScan (bs ++ [(x, S n)]) (sc_block_of st ++ [length bs]).
Proof.
  intros Hl Hlast. apply last_Some in Hlast as [bs Hbs]. exists bs. split; [done|].
  unfold scan_step. rewrite Hl, Hbs, length_app. simpl. rewrite Nat.add_sub. f_equal.
  replace (length bs) with (length bs + 0)%nat by lia. by rewrite alter_app_r.
Qed.

Lemma scan_ok_inner n st :
  scan_ok n st -> is_leader n = false -> scan_ok (S n) (scan_step st n).
Proof.
  intros Hok Hl. assert (0 < n)%nat as Hn by (destruct n; [done|lia]).
  destruct (last (sc_blocks st)) as [[x y]|] eqn:Elast.
  2: { apply last_None in Elast. destruct (so_first _ _ Hok Hn) as [? Hx]. by rewrite Elast in Hx. }
  destruct (scan_step_inner n st x y Hl Elast) as (bs & Hbs & ->).
  destruct Hok as [Hlen Hof Hblk Hnext Hfirst]. rewrite Hbs in *.
  assert (forall b xy, (bs ++ [(x, S n)]) !! b = Some xy ->
    bs !! b = Some xy \/ b = length bs /\ xy = (x, S n)) as Hlk.
  { intros b xy [Hb|[Hb Hx]]%lookup_app_Some; [by left|right].
    destruct (b - length bs)%nat eqn:E; [|done]. split; [lia|by simplify_eq/=]. }
  assert ((bs ++ [(x, y)]) !! length bs = Some (x, y)) as Hxy by (by apply list_lookup_middle).
  destruct (Hblk _ _ _ Hxy) as ([Hx Hy] & Hlx & Hno).
  assert (y = n) as Hyn.
  { destruct (Hnext _ _ _ Hxy) as [[_ [z Hz]]|[Hyn _]]; [|done].
    apply lookup_lt_Some in Hz. rewrite length_app in Hz. simpl in Hz. lia. }
  subst y. split; simpl.
  - rewrite length_app, Hlen. simpl. lia.
  - intros p Hp. destruct (decide (p = n)) as [->|Hne].
    + exists (length bs), x, (S n). rewrite list_lookup_middle by done. rewrite list_lookup_middle by done.
      split; [done|]. split; [done|lia].
    + destruct (Hof p) as (b & u & v & Hb & Hbb & Huv); [lia|].
      apply lookup_app_Some in Hbb as [Hbb|[Hge Hbb]].
      * exists b, u, v. split; [by apply lookup_app_l_Some|]. split; [by apply lookup_app_l_Some|lia].
      * destruct (b - length bs)%nat eqn:E; [|done]. injection Hbb as <- <-. exists b, x, (S n).
        split; [by apply lookup_app_l_Some|]. split; [|lia].
        replace b with (length bs) by lia. by apply list_lookup_middle.
  - intros b u v [Hb|[-> [= -> ->]]]%Hlk.
    + destruct (Hblk b u v) as (? & ? & ?); [by apply lookup_app_l_Some|]. split; [lia|done].
    + split; [lia|]. split; [done|]. intros p Hp. destruct (decide (p = n)) as [->|]; [done|].
      apply Hno. lia.
  - intros b u v [Hb|[-> [= -> ->]]]%Hlk; [left|right].
    + destruct (Hnext b u v) as [[Hv [z Hz]]|[-> Hb1]]; [by apply lookup_app_l_Some| |].
      * split; [lia|]. apply lookup_app_Some in Hz as [Hz|[Hge Hz]].
        -- exists z. by apply lookup_app_l_Some.
        -- destruct (S b - length bs)%nat eqn:E; [|done]. injection Hz as <- <-. exists (S n).
           apply lookup_app_Some. right. split; [done|]. by rewrite E.
      * apply lookup_lt_Some in Hb. rewrite length_app in Hb1. simpl in Hb1. lia.
    + split; [done|]. rewrite length_app. simpl. lia.
  - intros _. destruct (Hfirst Hn) as [v Hv]. apply lookup_app_Some in Hv as [Hv|[Hge Hv]].
    + exists v. by apply lookup_app_l_Some.
    + destruct bs; simplify_eq/=; [by eexists|lia].
Qed.

Lemma scan_correct : scan_ok (length body) scan.
Proof.
  unfold scan. assert (forall n, scan_ok n (fold_left scan_step (seq 0 n) (mkScan [] []))) as Hn; [|apply Hn].
  induction n as [|n IH]; [apply scan_ok_nil|].
  rewrite seq_S, fold_left_app. simpl. destruct (is_leader n) eqn:E.
  - by apply scan_ok_leader.
  - by apply scan_ok_inner.
Qed.

(** ** What clients use *)

Lemma blocks_nonempty : body <> [] -> exists y, blocks !! 0%nat = Some (0%nat, y).
Proof. intros Hb. apply (so_first _ _ scan_correct). destruct body; simpl; [done|lia]. Qed.

(** Every instruction lies in its block. *)
Lemma block_of_spec p :
  (p < length body)%nat -> exists x y, blocks !! block_of p = Some (x, y) /\ (x <= p < y)%nat.
Proof.
  intros Hp. destruct (so_of _ _ scan_correct p Hp) as (b & x & y & Hb & Hbb & Hxy).
  exists x, y. unfold block_of. by rewrite (nth_lookup_Some _ _ _ _ Hb).
Qed.

Lemma block_bounds b x y : blocks !! b = Some (x, y) -> (x < y <= length body)%nat.
Proof. intros Hb. by destruct (so_block _ _ scan_correct _ _ _ Hb). Qed.

(** A leader starts its block. *)
Lemma block_of_leader p :
  (p < length body)%nat -> is_leader p = true -> exists y, blocks !! block_of p = Some (p, y).
Proof.
  intros Hp Hl. destruct (block_of_spec p Hp) as (x & y & Hb & Hxy).
  destruct (so_block _ _ scan_correct _ _ _ Hb) as (_ & _ & Hno).
  destruct (decide (x = p)) as [->|Hne]; [by exists y|].
  rewrite (Hno p) in Hl by lia. done.
Qed.

(** An instruction that is not the last of its block neither branches nor ends
    control. *)
Lemma block_inner b x y p :
  blocks !! b = Some (x, y) -> (x <= p)%nat -> (S p < y)%nat ->
  has_effect_at p IR_BRANCH = false /\ has_effect_at p IR_TERMINATOR = false.
Proof.
  intros Hb Hx Hy. destruct (so_block _ _ scan_correct _ _ _ Hb) as (_ & _ & Hno).
  specialize (Hno (S p) ltac:(lia)). unfold is_leader in Hno. simpl in Hno. rewrite Nat.sub_0_r in Hno.
  apply orb_false_elim in Hno as [Hno ?]. by apply orb_false_elim in Hno as [? ?].
Qed.

(** Blocks follow one another. *)
Lemma block_next b x y :
  blocks !! b = Some (x, y) -> (y < length body)%nat ->
  (S b < length blocks)%nat /\ exists z, blocks !! S b = Some (y, z).
Proof.
  intros Hb Hy. destruct (so_next _ _ scan_correct _ _ _ Hb) as [[_ [z Hz]]|[-> _]]; [|lia].
  split; [by eapply lookup_lt_Some|eauto].
Qed.

(** The blocks start where their predecessor ends, so an instruction lies in
    exactly one. *)
Lemma block_monotone b b' x y x' y' :
  blocks !! b = Some (x, y) -> blocks !! b' = Some (x', y') -> (b < b')%nat -> (y <= x')%nat.
Proof.
  intros Hb. revert x' y'. induction b' as [|b' IH]; intros x' y' Hb' Hlt; [lia|].
  destruct (lookup_lt_is_Some_2 blocks b') as [[u v] Huv].
  { apply lookup_lt_Some in Hb'. lia. }
  destruct (so_next _ _ scan_correct _ _ _ Huv) as [[_ [z Hz]]|[_ Hl]].
  - assert (x' = v) as -> by (unfold blocks in *; congruence).
    destruct (decide (b = b')) as [->|Hne]; [by simplify_eq|].
    pose proof (block_bounds _ _ _ Huv). specialize (IH _ _ Huv ltac:(lia)). lia.
  - apply lookup_lt_Some in Hb'. unfold blocks in Hb'. lia.
Qed.

Lemma block_of_unique b x y p :
  blocks !! b = Some (x, y) -> (x <= p < y)%nat -> block_of p = b.
Proof.
  intros Hb Hp. pose proof (block_bounds _ _ _ Hb).
  destruct (block_of_spec p ltac:(lia)) as (u & v & Hof & Huv).
  destruct (lt_eq_lt_dec (block_of p) b) as [[Hlt|Heq]|Hlt]; [|done|].
  - pose proof (block_monotone _ _ _ _ _ _ Hof Hb Hlt). lia.
  - pose proof (block_monotone _ _ _ _ _ _ Hb Hof Hlt). lia.
Qed.

(** Successor facts: the fall-through and every label operand of the last
    instruction. *)
Lemma successor_fall b x y last :
  blocks !! b = Some (x, y) -> body !! (y - 1)%nat = Some last ->
  ir_has_effect (opcode last) IR_TERMINATOR = false -> (y < length body)%nat ->
  S b ∈ successors b.
Proof.
  intros Hb Hl Ht Hy. unfold successors. rewrite Hb, Hl, Ht.
  destruct (block_next _ _ _ Hb Hy) as [Hlt _]. simpl.
  rewrite (proj2 (Nat.ltb_lt _ _)) by done. apply elem_of_app. right. set_solver.
Qed.

Lemma successor_label b x y last id t :
  blocks !! b = Some (x, y) -> body !! (y - 1)%nat = Some last ->
  ir_has_effect (opcode last) IR_LABEL = false -> IRValue.LABEL id ∈ operands last ->
  target id = Some t -> block_of t ∈ successors b.
Proof.
  intros Hb Hl Hn Hop Ht. unfold successors. rewrite Hb, Hl, Hn.
  apply elem_of_app. left. apply list_elem_of_omap. exists (IRValue.LABEL id).
  split; [done|]. by rewrite Ht.
Qed.

End Blocks.

(** ** From block entries to instructions

    The entries a forward analysis stops with give a fact about every
    instruction position, and the facts follow control flow. *)

Section Certificate.
Context (body : list IRInstruction) (target : Z -> option nat).
Context {A : Type} (transfer1 : A -> IRInstruction -> A) (le : A -> A -> Prop).
Context (es : list (option A)).

Definition slice (x p : nat) : list IRInstruction := take (p - x) (drop x body).

Definition block_slice (b : nat) : list IRInstruction :=
  match blocks body !! b with Some (x, y) => slice x y | None => [] end.

Definition transfer_slice (b : nat) (e : A) : A := fold_left transfer1 (block_slice b) e.

(** The fact at position [p]. *)
Definition cert (p : nat) : option A :=
  match blocks body !! block_of body p, es !! block_of body p with
  | Some (x, _), Some (Some e) => Some (fold_left transfer1 (slice x p) e)
  | _, _ => None
  end.

(** Control goes from [p] to [p']. *)
Inductive cfg_step (p p' : nat) : Prop :=
  | cfg_fall i : body !! p = Some i -> ir_has_effect (opcode i) IR_TERMINATOR = false ->
      p' = S p -> cfg_step p p'
  | cfg_jump i id j : body !! p = Some i ->
      (ir_has_effect (opcode i) IR_BRANCH = true \/ opcode i = IROpcode.JUMP) ->
      IRValue.LABEL id ∈ operands i -> target id = Some p' ->
      body !! p' = Some j -> opcode j = IROpcode.LABEL -> cfg_step p p'.

Lemma slice_S x p i : (x <= p)%nat -> body !! p = Some i -> slice x (S p) = slice x p ++ [i].
Proof.
  intros Hx Hi. unfold slice. replace (S p - x)%nat with (S (p - x)) by lia.
  apply take_S_r. rewrite lookup_drop. by replace (x + (p - x))%nat with p by lia.
Qed.

Lemma slice_nil x : slice x x = [].
Proof. unfold slice. by rewrite Nat.sub_diag. Qed.

Hypothesis le_refl : forall a, le a a.
Hypothesis es_length : length es = length (blocks body).
Hypothesis es_settled : postfixpoint (le := le) (successors body target) transfer_slice es.

Lemma cert_inv p a i :
  cert p = Some a -> body !! p = Some i ->
  exists x y e, blocks body !! block_of body p = Some (x, y) /\ (x <= p < y)%nat
    /\ es !! block_of body p = Some (Some e) /\ a = fold_left transfer1 (slice x p) e.
Proof.
  intros Hc Hi. destruct (block_of_spec body p) as (x & y & Hb & Hxy); [by eapply lookup_lt_Some|].
  unfold cert in Hc. rewrite Hb in Hc. destruct (es !! _) as [[e|]|] eqn:E; simplify_eq.
  exists x, y, e. done.
Qed.

(** The last instruction of a block passes its fact to a successor. *)
Lemma cert_edge p a i s z :
  cert p = Some a -> body !! p = Some i ->
  (forall x y, blocks body !! block_of body p = Some (x, y) -> y = S p) ->
  block_of body s ∈ successors body target (block_of body p) ->
  blocks body !! block_of body s = Some (s, z) ->
  exists a', cert s = Some a' /\ le a' (transfer1 a i).
Proof.
  intros Hc Hi Hlast Hs Hb. destruct (cert_inv _ _ _ Hc Hi) as (x & y & e & Hbp & Hxy & He & ->).
  assert (y = S p) as -> by (by eapply Hlast).
  destruct (es_settled (block_of body p) e (block_of body s) He Hs) as (e' & He' & Hle).
  { rewrite es_length. by eapply lookup_lt_Some. }
  exists e'. unfold cert. rewrite Hb, He', slice_nil. split; [done|].
  unfold transfer_slice, block_slice in Hle. rewrite Hbp, (slice_S x p i), fold_left_app in Hle by (done || lia).
  done.
Qed.

(** Facts follow control. *)
Lemma cert_step p p' a i :
  cert p = Some a -> body !! p = Some i -> cfg_step p p' -> (p' < length body)%nat ->
  exists a', cert p' = Some a' /\ le a' (transfer1 a i).
Proof.
  intros Hc Hi Hstep Hp'. destruct (cert_inv _ _ _ Hc Hi) as (x & y & e & Hbp & Hxy & He & Ha).
  destruct Hstep as [i' Hi' Ht ->|i' id j Hi' Hbr Hop Htgt Hj Hlab]; simplify_eq.
  - destruct (decide (S p < y)%nat) as [Hin|Hin].
    + assert (block_of body (S p) = block_of body p) as Hsame by (eapply block_of_unique; [done|lia]).
      exists (transfer1 (fold_left transfer1 (slice x p) e) i). split; [|done].
      unfold cert. rewrite Hsame, Hbp, He, (slice_S x p i), fold_left_app by (done || lia). done.
    + assert (y = S p) as -> by lia. destruct (block_next _ _ _ _ Hbp Hp') as [_ [z Hz]].
      pose proof (block_bounds _ _ _ _ Hz) as Hbz.
      assert (block_of body (S p) = S (block_of body p)) as Hof by (eapply block_of_unique; [done|lia]).
      eapply (cert_edge p _ i (S p) z); try done; [intros ? ? ?; congruence| |by rewrite Hof].
      rewrite Hof. eapply successor_fall; [done| |done|done]. by replace (S p - 1)%nat with p by lia.
  - assert (y = S p) as Hy.
    { destruct (decide (S p < y)%nat) as [Hin|]; [exfalso|lia].
      destruct (block_inner _ _ _ _ p Hbp ltac:(lia) Hin) as [Hnb Hnt].
      unfold has_effect_at in Hnb, Hnt. rewrite Hi in Hnb, Hnt.
      destruct Hbr as [Hbr|Hbr]; [congruence|]. by rewrite Hbr in Hnt. }
    destruct (block_of_leader body p') as [z Hz]; [done| |].
    { unfold is_leader, has_effect_at at 1. rewrite Hj, Hlab. by rewrite orb_true_r. }
    eapply (cert_edge p _ i p' z); try done; [intros ? ? ?; congruence|].
    eapply successor_label; [done| | |done|done]; [by replace (y - 1)%nat with p by lia|].
    destruct Hbr as [Hbr|Hbr]; [|by rewrite Hbr]. revert Hbr. by destruct (opcode i).
Qed.

(** The first instruction has the entry fact. *)
Lemma cert_start e0 e :
  body <> [] -> es !! 0%nat = Some (Some e) -> le e e0 -> exists a, cert 0 = Some a /\ le a e0.
Proof.
  intros Hb He Hle. destruct (blocks_nonempty body Hb) as [y Hy].
  pose proof (block_bounds _ _ _ _ Hy).
  assert (block_of body 0 = 0%nat) as Hof by (eapply block_of_unique; [done|lia]).
  exists e. unfold cert. rewrite Hof, Hy, He, slice_nil. done.
Qed.

End Certificate.
