(* ===== verification/Verifier.v ===== *)
(** * The IR verifier

    Models [ir_verifier.cpp]: the [Verifier] class run over every function
    between the optimizer's passes.  A check answers [None] when it passes and
    the first failure otherwise; the text of a diagnostic is represented by a
    constructor of [Failure] with the numbers the text mentions.  The two
    dataflow analyses are instances of [Dataflow.solve], run with the budget
    that [Dataflow.solve_stops] shows to be enough. *)

From stdpp Require Import pretty.
From S2P Require Import Prelude.
From S2P Require Import Dataflow.
From S2P Require Import Double.
From S2P Require Import VariantTypes.
From S2P Require Import IROpcodes.
From S2P Require Import Globals.
From S2P Require Import IR.
From S2P Require Import Cfg.

(** What [fail] is called with. *)
Inductive Failure :=
  | NegativeMaxRegisters
  | ParametersNotCovered
  | NegativeRegister (instr_idx : nat) (reg : Z)
  | RegisterOutsideMax (instr_idx : nat) (reg : Z)
  | TooFewOperands (instr_idx : nat)
  | TooManyOperands (instr_idx : nat)
  | OperandMismatch (instr_idx operand : nat)
  | NegativeArgumentCount (instr_idx : nat) (declared : Z)
  | ArgumentCountMismatch (instr_idx : nat) (declared : Z)
  | DestinationIsArgument (instr_idx : nat) (reg : Z)
  | DuplicateLabel (instr_idx : nat) (name : string)
  | MissingLabel (instr_idx : nat) (name : string)
  | AwaitOutsideCoroutine (instr_idx : nat)
  | UndefinedRead (instr_idx : nat) (reg : Z)
  | ConvertWithoutType (instr_idx : nat)
  | CoerceWithoutType (instr_idx : nat)
  | HintMismatch (instr_idx : nat) (reg : Z)
  | UnmarkedScope (instr_idx : nat) (scope : Z)
  | FuelExhausted.  (* never the answer: [ir_verify_terminates] *)

Abbreviation check := (option Failure).

(** [c1] and then [c2], which runs only when [c1] passes. *)
Definition andthen (c1 c2 : check) : check := match c1 with Some f => Some f | None => c2 end.
Notation "c1 ;; c2" := (andthen c1 c2) (at level 100, right associativity) : gdsc_scope.

Definition fail_if (b : bool) (f : Failure) : check := if b then Some f else None.

(** [for (size_t i = k; ...)] over a list, stopping at the first failure. *)
Fixpoint check_each {A} (f : nat -> A -> check) (l : list A) (k : nat) : check :=
  match l with
  | [] => None
  | x :: l => f k x ;; check_each f l (S k)
  end.

(** ** Register states *)

(** Top of the type lattice; disagreeing paths merge to this. *)
Definition TYPE_UNKNOWN : Z := -2.

Record RegisterState := mkState {
  rs_defined : list bool;
  rs_type : list Z
}.

Definition initial_state (count : nat) : RegisterState :=
  mkState (replicate count false) (replicate count TYPE_UNKNOWN).

Fixpoint merge_defined (mine other : list bool) : list bool * bool :=
  match mine, other with
  | d :: mine, o :: other =>
      let '(ds, changed) := merge_defined mine other in
      if d && negb o then (false :: ds, true) else (d :: ds, changed)
  | _, _ => (mine, false)
  end.

Fixpoint merge_types (mine other : list Z) : list Z * bool :=
  match mine, other with
  | t :: mine, o :: other =>
      let '(ts, changed) := merge_types mine other in
      if negb (t =? TYPE_UNKNOWN) && negb (t =? o) then (TYPE_UNKNOWN :: ts, true) else (t :: ts, changed)
  | _, _ => (mine, false)
  end.

(** Intersect: defined only if all paths agree.  Answers whether it changed. *)
Definition merge_from (mine other : RegisterState) : RegisterState * bool :=
  let '(d, c1) := merge_defined (rs_defined mine) (rs_defined other) in
  let '(t, c2) := merge_types (rs_type mine) (rs_type other) in
  (mkState d t, c1 || c2).

Definition result_type (i : IRInstruction) (state : RegisterState) : Z :=
  match opcode i with
  | IROpcode.LOAD_IMM => Variant.INT
  | IROpcode.LOAD_FLOAT_IMM => Variant.FLOAT
  | IROpcode.LOAD_BOOL => Variant.BOOL
  | IROpcode.LOAD_STRING => Variant.STRING
  | IROpcode.CONVERT => type_hint i
  | IROpcode.COERCE => type_hint i
  | IROpcode.MOVE =>
      match operands i !! 1%nat with
      | Some v =>
          let src := IRValue.reg_index v in
          if 0 <=? src then default TYPE_UNKNOWN (rs_type state !! Z.to_nat src) else TYPE_UNKNOWN
      | None => TYPE_UNKNOWN
      end
  | IROpcode.MAKE_VECTOR2 => Variant.VECTOR2
  | IROpcode.MAKE_VECTOR3 => Variant.VECTOR3
  | IROpcode.MAKE_VECTOR4 => Variant.VECTOR4
  | IROpcode.MAKE_VECTOR2I => Variant.VECTOR2I
  | IROpcode.MAKE_VECTOR3I => Variant.VECTOR3I
  | IROpcode.MAKE_VECTOR4I => Variant.VECTOR4I
  | IROpcode.MAKE_COLOR => Variant.COLOR
  | IROpcode.MAKE_ARRAY => Variant.ARRAY
  | IROpcode.MAKE_DICTIONARY => Variant.DICTIONARY
  | IROpcode.MAKE_DICTIONARY_KEYED => Variant.DICTIONARY
  | IROpcode.DICT_HAS_CONST | IROpcode.STRUCT_CHECK => Variant.BOOL
  | _ =>
      if ir_has_effect (opcode i) IR_COMPARISON then Variant.BOOL
      else if ir_has_effect (opcode i) IR_ARITHMETIC && negb (type_hint i =? TypeHint_NONE)
      then type_hint i
      else TYPE_UNKNOWN
  end.

(** The destination becomes defined, with the type of the result. *)
Definition transfer_instr (state : RegisterState) (i : IRInstruction) : RegisterState :=
  match ir_destination_register i with
  | Some dst =>
      if (0 <=? dst) && (dst <? Z.of_nat (length (rs_defined state)))
      then
        let defined := mkState (<[Z.to_nat dst := true]> (rs_defined state)) (rs_type state) in
        mkState (rs_defined defined) (<[Z.to_nat dst := result_type i defined]> (rs_type state))
      else state
  | None => state
  end.

(** ** The checks *)

Section Verifier.
Context (m_func : IRFunction) (m_strings : option IRStringTable.IRStringTable).

Abbreviation body := (instructions m_func).

Definition name_of (id : Z) : string :=
  match m_strings with
  | Some strings => IRStringTable.get strings id
  | None => "#" +:+ pretty id
  end.

Definition register_count : nat := Z.to_nat (Z.max (max_registers m_func) 0).

Definition check_coroutine : check :=
  if is_coroutine m_func then None
  else check_each (fun i instr =>
         fail_if (IROpcode.eqb (opcode instr) IROpcode.AWAIT) (AwaitOutsideCoroutine i)) body 0.

Definition check_register (i : nat) (operand : IRValue) : check :=
  match operand with
  | IRValue.REGISTER reg =>
      fail_if (reg <? 0) (NegativeRegister i reg) ;;
      fail_if (max_registers m_func <=? reg) (RegisterOutsideMax i reg)
  | _ => None
  end.

Definition check_register_range : check :=
  fail_if (max_registers m_func <? 0) NegativeMaxRegisters ;;
  fail_if (max_registers m_func <? to_int32 (Z.of_nat (length (parameters m_func)))) ParametersNotCovered ;;
  check_each (fun i instr => check_each (fun _ => check_register i) (operands instr) 0) body 0.

Definition operand_matches (operand : IRValue) (kind : IROperandKind) : bool :=
  match kind with
  | IROperandKind.DST | IROperandKind.INOUT | IROperandKind.SRC | IROperandKind.SRC_LIST =>
      IRValue.is_register operand
  | IROperandKind.IMM | IROperandKind.CNT | IROperandKind.CNT2 => IRValue.is_immediate operand
  | IROperandKind.FIMM => IRValue.is_float operand
  | IROperandKind.STR => IRValue.is_string operand
  | IROperandKind.LBL | IROperandKind.LBL_LIST => IRValue.is_label operand
  | IROperandKind.ARG_LIST => IRValue.is_register operand || IRValue.is_immediate operand
  | IROperandKind.NONE => false
  end.

(** CNT/CNT2 must match the actual trailing-list length. *)
Definition check_count_operand (instr : IRInstruction) (instr_idx j : nat) (kind : IROperandKind) : check :=
  match kind, operands instr !! j with
  | IROperandKind.CNT, Some v | IROperandKind.CNT2, Some v =>
      let declared := IRValue.immediate v in
      let multiplier := if decide (kind = IROperandKind.CNT2) then 2 else 1 in
      let fixed := Z.of_nat (fixed_count (info_signature (ir_opcode_info (opcode instr)))) in
      let expected := to_uint64 (fixed + to_uint64 declared * multiplier) in
      fail_if (declared <? 0) (NegativeArgumentCount instr_idx declared) ;;
      fail_if (negb (Z.of_nat (length (operands instr)) =? expected))
        (ArgumentCountMismatch instr_idx declared)
  | _, _ => None
  end.

Definition check_argument_count (instr : IRInstruction) (instr_idx : nat) : check :=
  let signature := info_signature (ir_opcode_info (opcode instr)) in
  check_each (check_count_operand instr instr_idx) (take (fixed_count signature) (kinds signature)) 0.

(** DST must not alias an argument register; the backend overwrites it first. *)
Definition check_call_destination (instr : IRInstruction) (instr_idx : nat) : check :=
  if negb (ir_has_effect (opcode instr) IR_CALL) then None
  else match ir_destination_register instr with
       | Some dst =>
           if dst <? 0 then None
           else fail_if (existsb (Z.eqb dst) (ir_collect_read_registers instr))
                  (DestinationIsArgument instr_idx dst)
       | None => None
       end.

Definition check_instruction_operands (i : nat) (instr : IRInstruction) : check :=
  let signature := info_signature (ir_opcode_info (opcode instr)) in
  fail_if (length (operands instr) <? fixed_count signature)%nat (TooFewOperands i) ;;
  fail_if (negb (is_variadic signature) && (sig_count signature <? length (operands instr))%nat)
    (TooManyOperands i) ;;
  check_each (fun j operand =>
    fail_if (negb (operand_matches operand (kind_at signature j))) (OperandMismatch i j))
    (operands instr) 0 ;;
  check_argument_count instr i ;;
  check_call_destination instr i.

Definition check_operands : check := check_each check_instruction_operands body 0.

(** *** Labels *)

(** The LABEL instructions by name; a second definition fails. *)
Fixpoint index_labels (is_ : list IRInstruction) (i : nat) (acc : gmap string nat)
  : Failure + gmap string nat :=
  match is_ with
  | [] => inr acc
  | instr :: is_ =>
      if negb (ir_has_effect (opcode instr) IR_LABEL) then index_labels is_ (S i) acc
      else
        let name := name_of (default IRStringTable.INVALID_ID (IRValue.string_id <$> head (operands instr))) in
        match acc !! name with
        | Some _ => inl (DuplicateLabel i name)
        | None => index_labels is_ (S i) (<[name := i]> acc)
        end
  end.

Definition m_label_index : gmap string nat :=
  match index_labels body 0 ∅ with inr m => m | inl _ => ∅ end.

Definition check_label_operand (i : nat) (operand : IRValue) : check :=
  match operand with
  | IRValue.LABEL id =>
      match m_label_index !! name_of id with
      | Some _ => None
      | None => Some (MissingLabel i (name_of id))
      end
  | _ => None
  end.

Definition check_labels : check :=
  match index_labels body 0 ∅ with
  | inl f => Some f
  | inr _ =>
      check_each (fun i instr =>
        if ir_has_effect (opcode instr) IR_LABEL then None
        else check_each (fun _ => check_label_operand i) (operands instr) 0) body 0
  end.

(** *** Definedness and types *)

Definition label_target (id : Z) : option nat := m_label_index !! name_of id.

Definition m_blocks : list (nat * nat) := blocks body.
Definition block_successors : nat -> list nat := successors body label_target.

(** The instructions of block [b], with the index of the first. *)
Definition block_code (b : nat) : list IRInstruction :=
  match m_blocks !! b with
  | Some (x, y) => take (y - x) (drop x body)
  | None => []
  end.

Definition transfer_block (b : nat) (state : RegisterState) : RegisterState :=
  fold_left transfer_instr (block_code b) state.

(** Parameters are pre-defined. *)
Definition entry_state : RegisterState :=
  let regs := register_count in
  mkState (map (fun i => (i <? length (parameters m_func))%nat) (seq 0 regs))
          (replicate regs TYPE_UNKNOWN).

(** The read registers of an instruction, each checked against the state. *)
Definition check_reads (instr_idx : nat) (instr : IRInstruction) (state : RegisterState) : check :=
  check_each (fun _ reg =>
    fail_if ((0 <=? reg) && bool_decide (rs_defined state !! Z.to_nat reg = Some false))
      (UndefinedRead instr_idx reg)) (ir_collect_read_registers instr) 0.

(** The expected type of the [read_index]-th register read. *)
Definition expected_hint (instr : IRInstruction) (read_index : nat) : Z :=
  if (read_index =? 0)%nat && negb (lhs_type_hint instr =? TypeHint_NONE) then lhs_type_hint instr
  else if (read_index =? 1)%nat && negb (rhs_type_hint instr =? TypeHint_NONE) then rhs_type_hint instr
  else type_hint instr.

Fixpoint check_operand_hints (instr_idx : nat) (instr : IRInstruction) (state : RegisterState)
    (operand_indices : list nat) (read_index : nat) : check :=
  match operand_indices with
  | [] => None
  | operand_index :: rest =>
      match operands instr !! operand_index with
      | Some (IRValue.REGISTER reg) =>
          if negb (ir_reads_operand instr operand_index) || (reg <? 0)
          then check_operand_hints instr_idx instr state rest read_index
          else match rs_type state !! Z.to_nat reg with
               | None => check_operand_hints instr_idx instr state rest read_index
               | Some known =>
                   if known =? TYPE_UNKNOWN
                   then check_operand_hints instr_idx instr state rest (S read_index)
                   else
                     fail_if (negb (known =? expected_hint instr read_index)) (HintMismatch instr_idx reg) ;;
                     check_operand_hints instr_idx instr state rest (S read_index)
               end
      | _ => check_operand_hints instr_idx instr state rest read_index
      end
  end.

Definition check_type_hint (instr_idx : nat) (instr : IRInstruction) (state : RegisterState) : check :=
  if IROpcode.eqb (opcode instr) IROpcode.CONVERT then
    fail_if (type_hint instr =? TypeHint_NONE) (ConvertWithoutType instr_idx)
  else if IROpcode.eqb (opcode instr) IROpcode.COERCE then
    fail_if (type_hint instr =? TypeHint_NONE) (CoerceWithoutType instr_idx)
  else if type_hint instr =? TypeHint_NONE then None
  else if negb (ir_has_effect (opcode instr) IR_ARITHMETIC) then None
  else check_operand_hints instr_idx instr state (seq 0 (length (operands instr))) 0.

(** Bare RETURN's implicit r0 read is not checked for definedness. *)
Definition report_instr (instr_idx : nat) (instr : IRInstruction) (state : RegisterState) : check :=
  if is_bare_return instr then None
  else check_reads instr_idx instr state ;; check_type_hint instr_idx instr state.

Fixpoint report_code (instr_idx : nat) (code : list IRInstruction) (state : RegisterState) : check :=
  match code with
  | [] => None
  | instr :: code =>
      report_instr instr_idx instr state ;;
      report_code (S instr_idx) code (transfer_instr state instr)
  end.

(** Twice the registers bounds how often an entry can go down. *)
Definition definedness_height (s : RegisterState) : nat :=
  length (filter (fun d : bool => d = true) (rs_defined s))
  + length (filter (fun t : Z => t <> TYPE_UNKNOWN) (rs_type s)).

Definition definedness_entries : option (list (option RegisterState)) :=
  solve block_successors transfer_block merge_from sorted_insert pop_front
    (budget (top := 2 * register_count) (length m_blocks)) (length m_blocks) entry_state.

(** The report pass over the reachable blocks. *)
Definition report_blocks (entries : list (option RegisterState)) : check :=
  check_each (fun b entry =>
    match entry with
    | Some state => report_code (default (0, 0)%nat (m_blocks !! b)).1 (block_code b) state
    | None => None
    end) entries 0.

Definition check_definedness_and_types : check :=
  if (length m_blocks =? 0)%nat then None
  else match definedness_entries with
       | Some entries => report_blocks entries
       | None => Some FuelExhausted
       end.

(** *** Scope marks *)

Definition scope_operand (instr : IRInstruction) : Z :=
  default 0 (IRValue.immediate <$> head (operands instr)).

Definition mark_instr (marked : gset Z) (instr : IRInstruction) : gset Z :=
  if IROpcode.eqb (opcode instr) IROpcode.SCOPE_MARK then {[scope_operand instr]} ∪ marked else marked.

Definition mark_block (b : nat) (marked : gset Z) : gset Z := fold_left mark_instr (block_code b) marked.

(** A scope stays marked only if this path marked it too. *)
Definition merge_marks (into out : gset Z) : gset Z * bool :=
  let kept := into ∩ out in (kept, bool_decide (kept <> into)).

Definition report_mark (instr_idx : nat) (instr : IRInstruction) (marked : gset Z) : check :=
  fail_if (IROpcode.eqb (opcode instr) IROpcode.SCOPE_RELEASE && bool_decide (scope_operand instr ∉ marked))
    (UnmarkedScope instr_idx (scope_operand instr)).

Fixpoint report_marks (instr_idx : nat) (code : list IRInstruction) (marked : gset Z) : check :=
  match code with
  | [] => None
  | instr :: code =>
      report_mark instr_idx instr marked ;; report_marks (S instr_idx) code (mark_instr marked instr)
  end.

(** An entry holds at most the scopes the function marks. *)
Definition mark_entries : option (list (option (gset Z))) :=
  solve block_successors mark_block merge_marks push_back pop_front
    (budget (top := length body) (length m_blocks)) (length m_blocks) ∅.

Definition check_scope_marks : check :=
  if (length m_blocks =? 0)%nat then None
  else match mark_entries with
       | Some entries =>
           check_each (fun b entry =>
             match entry with
             | Some marked => report_marks (default (0, 0)%nat (m_blocks !! b)).1 (block_code b) marked
             | None => None
             end) entries 0
       | None => Some FuelExhausted
       end.

(** [Verifier::run]. *)
Definition ir_verify : check :=
  check_register_range ;;
  check_operands ;;
  check_labels ;;
  check_coroutine ;;
  check_definedness_and_types ;;
  check_scope_marks.

End Verifier.

(** The whole program: every function, then the initializers it has. *)
Definition ir_verify_program (program : IRProgram) : check :=
  check_each (fun _ func => ir_verify func (Some (strings program))) (functions program) 0 ;;
  (if has_member_init program then ir_verify (member_init program) (Some (strings program)) else None) ;;
  (if has_global_init program then ir_verify (global_init program) (Some (strings program)) else None).
