(* ===== verification/VerifierFacts.v ===== *)
(** * What a passing check says

    The declarative reading of each check of the verifier, the two lattices of
    its dataflow analyses with their termination, and the facts the analyses
    establish at every instruction. *)

From S2P Require Import Prelude.
From S2P Require Import Dataflow.
From S2P Require Import Double.
From S2P Require Import VariantTypes.
From S2P Require Import IROpcodes.
From S2P Require Import Globals.
From S2P Require Import IR.
From S2P Require Import Cfg.
From S2P Require Import Verifier.

(** ** Checks *)

Lemma andthen_None c1 c2 : (c1 ;; c2) = None <-> c1 = None /\ c2 = None.
Proof. unfold andthen. destruct c1; naive_solver. Qed.

Lemma fail_if_None b f : fail_if b f = None <-> b = false.
Proof. unfold fail_if. destruct b; naive_solver. Qed.

Lemma check_each_None {A} (f : nat -> A -> check) l k :
  check_each f l k = None <-> forall j x, l !! j = Some x -> f (k + j)%nat x = None.
Proof.
  revert k. induction l as [|x l IH]; intros k; simpl; [naive_solver|].
  rewrite andthen_None, IH. split.
  - intros [Hx Hl] [|j] y Hy; simplify_eq/=; [by rewrite Nat.add_0_r|].
    replace (k + S j)%nat with (S k + j)%nat by lia. by apply Hl.
  - intros Hall. split; [rewrite <- (Nat.add_0_r k); by apply Hall|].
    intros j y Hy. replace (S k + j)%nat with (k + S j)%nat by lia. by apply Hall.
Qed.

Lemma check_each_nat_None {A} (f : A -> check) l k :
  check_each (fun _ => f) l k = None <-> forall x, x ∈ l -> f x = None.
Proof.
  rewrite check_each_None. split.
  - intros Hf x Hx. apply list_elem_of_lookup in Hx as [j Hj]. by eapply Hf.
  - intros Hf j x Hj. apply Hf. by eapply list_elem_of_lookup_2.
Qed.

(** ** Operands *)

(** The operands an instruction's signature promises. *)
Record operands_ok (i : IRInstruction) : Prop := {
  ok_fixed : (fixed_count (info_signature (ir_opcode_info (opcode i))) <= length (operands i))%nat;
  ok_kind : forall j v, operands i !! j = Some v -> operand_matches v (operand_kind i j) = true
}.

Lemma check_instruction_operands_ok k i :
  check_instruction_operands k i = None -> operands_ok i.
Proof.
  unfold check_instruction_operands. rewrite !andthen_None, !fail_if_None, check_each_None.
  intros (Hfew & _ & Hkinds & _). split.
  - by apply Nat.ltb_ge.
  - intros j v Hv. specialize (Hkinds j v Hv). apply fail_if_None in Hkinds.
    by apply negb_false_iff in Hkinds.
Qed.

Lemma check_operands_ok func k i :
  check_operands func = None -> instructions func !! k = Some i -> operands_ok i.
Proof.
  unfold check_operands. rewrite check_each_None. intros Hall Hi.
  by eapply check_instruction_operands_ok, Hall.
Qed.

(** A fixed operand exists and has its kind. *)
Lemma ok_operand i j :
  operands_ok i -> (j < fixed_count (info_signature (ir_opcode_info (opcode i))))%nat ->
  exists v, operands i !! j = Some v /\ operand_matches v (operand_kind i j) = true.
Proof.
  intros [Hf Hk] Hj. destruct (lookup_lt_is_Some_2 (operands i) j) as [v Hv]; [lia|].
  exists v. split; [done|by apply Hk].
Qed.

Lemma register_in_range func k i r :
  check_register_range func = None -> instructions func !! k = Some i ->
  IRValue.REGISTER r ∈ operands i -> 0 <= r < max_registers func.
Proof.
  unfold check_register_range. rewrite !andthen_None, check_each_None. intros (_ & _ & Hall) Hi Hr.
  specialize (Hall k i Hi). rewrite check_each_nat_None in Hall. specialize (Hall _ Hr).
  simpl in Hall. rewrite andthen_None, !fail_if_None in Hall. lia.
Qed.

(** ** Lattices *)

Section Definedness.
Context (n : nat).

(** Less is promised: fewer registers defined, fewer types known. *)
Record state_le (a b : RegisterState) : Prop := {
  le_defined : forall r, rs_defined a !! r = Some true -> rs_defined b !! r = Some true;
  le_type : forall r t, rs_type a !! r = Some t -> t <> TYPE_UNKNOWN -> rs_type b !! r = Some t
}.

Definition state_wf (s : RegisterState) : Prop :=
  length (rs_defined s) = n /\ length (rs_type s) = n.

Abbreviation count_defined := (fun l => length (filter (fun d : bool => d = true) l)).
Abbreviation count_known := (fun l => length (filter (fun t : Z => t <> TYPE_UNKNOWN) l)).

Lemma merge_defined_spec a b :
  length a = length b ->
  let '(d, c) := merge_defined a b in
  length d = length a
  /\ (forall r, d !! r = Some true -> a !! r = Some true /\ b !! r = Some true)
  /\ (c = false -> d = a)
  /\ (count_defined d <= count_defined a)%nat /\ (c = true -> (count_defined d < count_defined a)%nat).
Proof.
  revert b. induction a as [|x a IH]; intros [|y b] Hl; simplify_eq/=; [by split_and!|].
  specialize (IH b Hl). destruct (merge_defined a b) as [d c].
  destruct IH as (Hlen & Hboth & Hsame & Hle & Hlt).
  destruct (x && negb y) eqn:E.
  - apply andb_prop in E as [-> E]. rewrite !filter_cons. simpl. split_and!; try done; try lia.
    intros [|r] Hr; simplify_eq/=. by apply Hboth.
  - rewrite !filter_cons. split_and!.
    + simpl. by f_equal.
    + intros [|r] Hr; simplify_eq/=; [|by apply Hboth]. by destruct y.
    + intros ->. by rewrite Hsame.
    + case_decide; cbn [length]; lia.
    + intros ->. specialize (Hlt eq_refl). case_decide; cbn [length]; lia.
Qed.

Lemma merge_types_spec a b :
  length a = length b ->
  let '(d, c) := merge_types a b in
  length d = length a
  /\ (forall r t, d !! r = Some t -> t <> TYPE_UNKNOWN -> a !! r = Some t /\ b !! r = Some t)
  /\ (c = false -> d = a)
  /\ (count_known d <= count_known a)%nat /\ (c = true -> (count_known d < count_known a)%nat).
Proof.
  revert b. induction a as [|x a IH]; intros [|y b] Hl; simplify_eq/=; [by split_and!|].
  specialize (IH b Hl). destruct (merge_types a b) as [d c].
  destruct IH as (Hlen & Hboth & Hsame & Hle & Hlt).
  destruct (negb (x =? TYPE_UNKNOWN) && negb (x =? y)) eqn:E.
  - rewrite !filter_cons. rewrite decide_False by auto.
    rewrite decide_True by lia. cbn [length]. split_and!; try done; try lia.
    intros [|r] t Hr Ht; simplify_eq/=. by apply Hboth.
  - rewrite !filter_cons. split_and!.
    + simpl; by f_equal.
    + intros [|r] t Hr Ht; simplify_eq/=; [|by apply Hboth].
      apply andb_false_iff in E as [E|E]; [lia|]. apply negb_false_iff, Z.eqb_eq in E. by subst.
    + intros ->. by rewrite Hsame.
    + case_decide; cbn [length]; lia.
    + intros ->. specialize (Hlt eq_refl). case_decide; cbn [length]; lia.
Qed.

#[export] Instance definedness_lattice :
  EntryLattice state_le merge_from state_wf definedness_height (2 * n).
Proof.
  assert (forall a b, state_wf a -> state_wf b ->
    let '(m, c) := merge_from a b in
    state_wf m /\ state_le m a /\ state_le m b /\ (c = false -> m = a)
    /\ (c = true -> (definedness_height m < definedness_height a)%nat)) as Hmerge.
  { intros a b [Ha Ha'] [Hb Hb']. unfold merge_from.
    pose proof (merge_defined_spec (rs_defined a) (rs_defined b) ltac:(congruence)) as Hd.
    pose proof (merge_types_spec (rs_type a) (rs_type b) ltac:(congruence)) as Ht.
    destruct (merge_defined _ _) as [d c1], (merge_types _ _) as [t c2].
    destruct Hd as (Hd1 & Hd2 & Hd3 & Hd4 & Hd5), Ht as (Ht1 & Ht2 & Ht3 & Ht4 & Ht5).
    split_and!.
    - split; simpl; congruence.
    - split; simpl; naive_solver.
    - split; simpl; naive_solver.
    - intros [-> ->]%orb_false_elim. rewrite Hd3, Ht3 by done. by destruct a.
    - unfold definedness_height. simpl. intros [->| ->]%orb_prop; [specialize (Hd5 eq_refl)|specialize (Ht5 eq_refl)]; lia. }
  split.
  - intros e. by split.
  - intros a b c [H1 H2] [H3 H4]. split; naive_solver.
  - intros a b Ha Hb. specialize (Hmerge a b Ha Hb). destruct (merge_from a b). naive_solver.
  - intros a b Ha Hb. specialize (Hmerge a b Ha Hb). destruct (merge_from a b). naive_solver.
  - intros a b Ha Hb. specialize (Hmerge a b Ha Hb). destruct (merge_from a b). naive_solver.
  - intros a b Ha Hb. specialize (Hmerge a b Ha Hb). destruct (merge_from a b). naive_solver.
  - intros a b Ha Hb. specialize (Hmerge a b Ha Hb). destruct (merge_from a b). naive_solver.
  - intros e [H1 H2]. unfold definedness_height.
    pose proof (length_filter (fun d : bool => d = true) (rs_defined e)).
    pose proof (length_filter (fun t : Z => t <> TYPE_UNKNOWN) (rs_type e)). lia.
Qed.

Lemma transfer_instr_wf s i : state_wf s -> state_wf (transfer_instr s i).
Proof.
  intros [H1 H2]. unfold transfer_instr. destruct (ir_destination_register i); [|done].
  destruct (_ && _); [|done]. split; simpl; by rewrite length_insert.
Qed.

Lemma fold_transfer_wf code s : state_wf s -> state_wf (fold_left transfer_instr code s).
Proof. revert s. induction code as [|i code IH]; intros s Hs; [done|]. by apply IH, transfer_instr_wf. Qed.

End Definedness.

Lemma marks_lattice (all : gset Z) (top : nat) :
  (size all <= top)%nat -> EntryLattice (⊆) merge_marks (fun e => e ⊆ all) size top.
Proof.
  intros Htop. unfold merge_marks. split; simpl.
  - done.
  - intros a b c. set_solver.
  - intros a b _ _. set_solver.
  - intros a b _ _. set_solver.
  - intros a b _ _ Hc. apply bool_decide_eq_false in Hc. by apply dec_stable.
  - intros a b _ _ Hc. apply bool_decide_eq_true in Hc. apply subset_size. set_solver.
  - intros a b Ha _. set_solver.
  - intros e He. apply subseteq_size in He. lia.
Qed.

(** ** One function *)

Section Function.
Context (func : IRFunction) (strs : option IRStringTable.IRStringTable).
Abbreviation body := (instructions func).

Lemma transfer_block_wf n b s : state_wf n s -> state_wf n (transfer_block func b s).
Proof. apply fold_transfer_wf. Qed.

Lemma entry_state_wf : state_wf (register_count func) (entry_state func).
Proof. split; simpl; [by rewrite length_map, length_seq|by rewrite length_replicate]. Qed.

Lemma block_count_pos : (length (m_blocks func) =? 0)%nat = false -> (0 < length (m_blocks func))%nat.
Proof. intros Hn. apply Nat.eqb_neq in Hn. lia. Qed.

Lemma definedness_stops :
  (0 < length (m_blocks func))%nat -> exists es, definedness_entries func strs = Some es.
Proof.
  intros Hn. unfold definedness_entries.
  eapply (@solve_stops _ _ _ _ _ _ state_le (state_wf (register_count func)) definedness_height _ _
    (definedness_lattice _)); [apply transfer_block_wf|apply entry_state_wf|done].
Qed.

(** The scopes the function marks. *)
Definition all_marks : gset Z := list_to_set (map scope_operand body).

Lemma all_marks_size : (size all_marks <= length body)%nat.
Proof.
  unfold all_marks. induction body as [|i is_ IH]; simpl; [done|].
  rewrite size_union_alt, size_singleton.
  pose proof (subseteq_size (list_to_set (map scope_operand is_) ∖ {[scope_operand i]})
    (list_to_set (map scope_operand is_) : gset Z) ltac:(set_solver)). lia.
Qed.

Lemma mark_instr_wf i m : i ∈ body -> m ⊆ all_marks -> mark_instr m i ⊆ all_marks.
Proof.
  intros Hi Hm. unfold mark_instr. destruct (IROpcode.eqb _ _); [|done].
  apply union_subseteq. split; [|done]. apply singleton_subseteq_l, elem_of_list_to_set.
  by apply list_elem_of_fmap_2.
Qed.

Lemma block_code_sub b i : i ∈ block_code func b -> i ∈ body.
Proof.
  unfold block_code. destruct (m_blocks func !! b) as [[x y]|]; [|by intros ?%elem_of_nil].
  intros (j & Hj & _)%elem_of_take.
  rewrite lookup_drop in Hj. by eapply list_elem_of_lookup_2.
Qed.

Lemma mark_block_wf b m : m ⊆ all_marks -> mark_block func b m ⊆ all_marks.
Proof.
  unfold mark_block. pose proof (block_code_sub b) as Hc. revert m Hc.
  induction (block_code func b) as [|i code IH]; intros m Hc Hm; [done|]. simpl.
  apply IH; [set_solver|]. apply mark_instr_wf; [set_solver|done].
Qed.

Lemma marks_stop :
  (0 < length (m_blocks func))%nat -> exists es, mark_entries func strs = Some es.
Proof.
  intros Hn. unfold mark_entries.
  eapply (@solve_stops _ _ _ _ _ _ (⊆) (fun e => e ⊆ all_marks) size _ _
    (marks_lattice all_marks _ all_marks_size)); [apply mark_block_wf|set_solver|done].
Qed.

(** *** Termination *)

Definition no_fuel (c : check) : Prop := c <> Some FuelExhausted.

Lemma no_fuel_andthen c1 c2 : no_fuel c1 -> no_fuel c2 -> no_fuel (c1 ;; c2).
Proof. unfold no_fuel, andthen. by destruct c1. Qed.

Lemma no_fuel_fail_if b f : f <> FuelExhausted -> no_fuel (fail_if b f).
Proof. unfold no_fuel, fail_if. destruct b; congruence. Qed.

Lemma no_fuel_each {A} (f : nat -> A -> check) l k :
  (forall j x, no_fuel (f j x)) -> no_fuel (check_each f l k).
Proof.
  intros Hf. revert k. induction l as [|x l IH]; intros k; [done|]. by apply no_fuel_andthen.
Qed.

#[local] Hint Resolve no_fuel_andthen no_fuel_fail_if no_fuel_each : gdsc.
#[local] Hint Extern 1 (no_fuel None) => done : gdsc.
#[local] Hint Extern 1 (_ <> FuelExhausted) => done : gdsc.
#[local] Hint Extern 1 (no_fuel (Some _)) => done : gdsc.

Lemma no_fuel_operand_hints k i s ns r : no_fuel (check_operand_hints k i s ns r).
Proof.
  revert r. induction ns as [|n ns IH]; intros r; [done|]. simpl.
  destruct (operands i !! n) as [[]|]; auto. destruct (_ || _); auto.
  destruct (rs_type s !! _); auto. destruct (_ =? _); auto with gdsc.
Qed.

Lemma no_fuel_report_code k code s : no_fuel (report_code k code s).
Proof.
  revert k s. induction code as [|i code IH]; intros k s; [done|]. simpl. apply no_fuel_andthen; [|apply IH].
  unfold report_instr. destruct (is_bare_return i); [done|].
  apply no_fuel_andthen; [unfold check_reads; auto with gdsc|].
  unfold check_type_hint. destruct (IROpcode.eqb _ _); auto with gdsc.
  destruct (IROpcode.eqb _ _); auto with gdsc. destruct (_ =? _); auto with gdsc.
  destruct (negb _); auto with gdsc. apply no_fuel_operand_hints.
Qed.

Lemma no_fuel_report_marks k code m : no_fuel (report_marks k code m).
Proof.
  revert k m. induction code as [|i code IH]; intros k m; [done|]. simpl.
  apply no_fuel_andthen; [unfold report_mark; auto with gdsc|apply IH].
Qed.

Lemma no_fuel_count_operand i k j kind : no_fuel (check_count_operand i k j kind).
Proof.
  unfold check_count_operand. destruct kind; try done; destruct (operands i !! j); auto with gdsc.
Qed.

Lemma no_fuel_operands : no_fuel (check_operands func).
Proof.
  apply no_fuel_each. intros k i. unfold check_instruction_operands.
  repeat apply no_fuel_andthen; auto with gdsc.
  - apply no_fuel_each, no_fuel_count_operand.
  - unfold check_call_destination. destruct (negb _); [done|].
    destruct (ir_destination_register i) as [d|]; [|done]. destruct (d <? 0); auto with gdsc.
Qed.

Lemma index_labels_no_fuel is_ k acc f :
  index_labels strs is_ k acc = inl f -> f <> FuelExhausted.
Proof.
  revert k acc. induction is_ as [|i is_ IH]; intros k acc; simpl; [done|].
  destruct (negb _); [apply IH|]. destruct (acc !! _); [by intros [= <-]|apply IH].
Qed.

Lemma no_fuel_labels : no_fuel (check_labels func strs).
Proof.
  unfold check_labels. destruct (index_labels _ _ _ _) as [f|] eqn:E.
  - apply index_labels_no_fuel in E. unfold no_fuel. congruence.
  - apply no_fuel_each. intros k i. destruct (ir_has_effect _ _); [done|].
    apply no_fuel_each. intros _ v. unfold check_label_operand. destruct v; try done.
    by destruct (m_label_index func strs !! _).
Qed.

Lemma no_fuel_definedness : no_fuel (check_definedness_and_types func strs).
Proof.
  unfold check_definedness_and_types. destruct (_ =? 0)%nat eqn:E; [done|].
  destruct (definedness_stops (block_count_pos E)) as [es ->].
  apply no_fuel_each. intros b [s|]; [apply no_fuel_report_code|done].
Qed.

Lemma no_fuel_scope_marks : no_fuel (check_scope_marks func strs).
Proof.
  unfold check_scope_marks. destruct (_ =? 0)%nat eqn:E; [done|].
  destruct (marks_stop (block_count_pos E)) as [es ->].
  apply no_fuel_each. intros b [s|]; [apply no_fuel_report_marks|done].
Qed.

(** *** Facts at every instruction *)

Section Analyses.
Context {A : Type} (t : A -> IRInstruction -> A) (report : nat -> IRInstruction -> A -> check).

(** The report pass over one block's code. *)
Fixpoint report_list (k : nat) (code : list IRInstruction) (a : A) : check :=
  match code with
  | [] => None
  | i :: code => report k i a ;; report_list (S k) code (t a i)
  end.

Lemma report_list_None k code a :
  report_list k code a = None ->
  forall j i, code !! j = Some i -> report (k + j)%nat i (fold_left t (take j code) a) = None.
Proof.
  revert k a. induction code as [|i code IH]; intros k a; simpl; [done|].
  rewrite andthen_None. intros [Hi Hc] [|j] i' Hj; simplify_eq/=; [by rewrite Nat.add_0_r|].
  replace (k + S j)%nat with (S k + j)%nat by lia. by apply IH.
Qed.

(** A report that passes on every reachable block passes at every fact. *)
Lemma report_at es p a i :
  check_each (fun b entry =>
    match entry with
    | Some a => report_list (default (0, 0)%nat (m_blocks func !! b)).1 (block_code func b) a
    | None => None
    end) es 0 = None ->
  cert body t es p = Some a -> body !! p = Some i -> report p i a = None.
Proof.
  rewrite check_each_None. intros Hall Hc Hi.
  destruct (cert_inv body t es _ _ _ Hc Hi) as (x & y & e & Hb & Hxy & He & ->).
  specialize (Hall _ _ He). simpl in Hall. unfold block_code, m_blocks in Hall. rewrite Hb in Hall.
  simpl in Hall. pose proof (report_list_None _ _ _ Hall (p - x) i) as Hr.
  replace (x + (p - x))%nat with p in Hr by lia. rewrite take_take in Hr.
  replace (Nat.min (p - x) (y - x)) with (p - x)%nat in Hr by lia. apply Hr.
  rewrite lookup_take_Some, lookup_drop. split; [|lia]. by replace (x + (p - x))%nat with p by lia.
Qed.

End Analyses.

Lemma m_blocks_body : (length (m_blocks func) =? 0)%nat = false -> body <> [].
Proof.
  intros Hn Hb. unfold m_blocks, blocks, scan in Hn. by rewrite Hb in Hn.
Qed.

Lemma body_m_blocks : body <> [] -> (length (m_blocks func) =? 0)%nat = false.
Proof.
  intros Hb. destruct (blocks_nonempty body Hb) as [y Hy]. apply lookup_lt_Some in Hy.
  apply Nat.eqb_neq. unfold m_blocks. lia.
Qed.

(** The definedness facts of a verified body. *)
Definition state_at (p : nat) : option RegisterState :=
  match definedness_entries func strs with
  | Some es => cert body transfer_instr es p
  | None => None
  end.

Record definedness_facts : Prop := {
  df_start : exists a, state_at 0 = Some a /\ state_le a (entry_state func);
  df_step : forall p p' a i, state_at p = Some a -> body !! p = Some i ->
    cfg_step body (label_target func strs) p p' -> (p' < length body)%nat ->
    exists a', state_at p' = Some a' /\ state_le a' (transfer_instr a i);
  df_wf : forall p a i, state_at p = Some a -> body !! p = Some i -> state_wf (register_count func) a;
  df_report : forall p a i, state_at p = Some a -> body !! p = Some i -> report_instr p i a = None
}.

Lemma definedness_sound :
  check_definedness_and_types func strs = None -> body <> [] -> definedness_facts.
Proof.
  intros Hc Hb. pose proof (body_m_blocks Hb) as Hn. unfold check_definedness_and_types in Hc.
  rewrite Hn in Hc. destruct (definedness_entries func strs) as [es|] eqn:Ees; [|done].
  pose proof (solve_postfixpoint _ _ _ _ _ (transfer_block_wf (register_count func)) _ _ _ es
    entry_state_wf (block_count_pos Hn) Ees) as (Hwf & Hpost & Hlen & e & He & Hle).
  unfold m_blocks in Hlen. split; unfold state_at; rewrite Ees.
  - by eapply cert_start.
  - intros p p' a i Ha Hi Hs Hp. eapply cert_step; try done.
  - intros p a i Ha Hi. destruct (cert_inv _ _ _ _ _ _ Ha Hi) as (x & y & e' & _ & _ & He' & ->).
    eapply fold_transfer_wf, Hwf. done.
  - intros p a i Ha Hi. eapply (report_at transfer_instr report_instr es); try done.
Qed.

(** The scope facts. *)
Definition marks_at (p : nat) : option (gset Z) :=
  match mark_entries func strs with
  | Some es => cert body mark_instr es p
  | None => None
  end.

Record marks_facts : Prop := {
  mf_start : marks_at 0 = Some ∅;
  mf_step : forall p p' a i, marks_at p = Some a -> body !! p = Some i ->
    cfg_step body (label_target func strs) p p' -> (p' < length body)%nat ->
    exists a', marks_at p' = Some a' /\ a' ⊆ mark_instr a i;
  mf_report : forall p a i, marks_at p = Some a -> body !! p = Some i -> report_mark p i a = None
}.

Lemma marks_sound : check_scope_marks func strs = None -> body <> [] -> marks_facts.
Proof.
  intros Hc Hb. pose proof (body_m_blocks Hb) as Hn. unfold check_scope_marks in Hc.
  rewrite Hn in Hc. destruct (mark_entries func strs) as [es|] eqn:Ees; [|done].
  pose proof (@solve_postfixpoint _ _ _ _ _ _ _ _ _ _ _
    (marks_lattice all_marks _ all_marks_size) mark_block_wf _ _ _ es
    (empty_subseteq all_marks) (block_count_pos Hn) Ees) as (_ & Hpost & Hlen & e & He & Hle).
  unfold m_blocks in Hlen. split; unfold marks_at; rewrite Ees.
  - destruct (cert_start body mark_instr (⊆) es ltac:(done) ∅ e Hb He Hle) as (a & -> & Ha).
    f_equal. set_solver.
  - intros p p' a i Ha Hi Hs Hp. eapply (cert_step body (label_target func strs) mark_instr (⊆)); try done.
  - intros p a i Ha Hi. eapply (report_at mark_instr report_mark es); try done.
Qed.

End Function.

(** The verifier terminates on every function: the visits of its two
    dataflow loops are bounded by the heights of their lattices, so the budget
    the model runs them with is never exhausted. *)
Theorem ir_verify_terminates (func : IRFunction) (strs : option IRStringTable.IRStringTable) :
  ir_verify func strs <> Some FuelExhausted.
Proof.
  assert (no_fuel (check_register_range func)) as Hrange.
  { repeat apply no_fuel_andthen; try (by apply no_fuel_fail_if).
    do 2 (apply no_fuel_each; intros ? ?). unfold check_register. case_match; try done.
    by apply no_fuel_andthen; apply no_fuel_fail_if. }
  assert (no_fuel (check_coroutine func)) as Hco.
  { unfold check_coroutine. destruct (is_coroutine func); [done|].
    apply no_fuel_each. intros k i. by apply no_fuel_fail_if. }
  apply no_fuel_andthen; [done|]. apply no_fuel_andthen; [apply no_fuel_operands|].
  apply no_fuel_andthen; [apply no_fuel_labels|]. apply no_fuel_andthen; [done|].
  apply no_fuel_andthen; [apply no_fuel_definedness|apply no_fuel_scope_marks].
Qed.
