(* ===== verification/Interpreter.v ===== *)
(** * The IR interpreter

    Models [ir_interpreter.h] and [ir_interpreter.cpp], the executable
    semantics the differential tests compare the generated code with.  The
    members [m_globals], [m_error] and [m_call_depth] are a state that survives
    an exception; a call's [ExecutionContext] is passed explicitly, and reading
    a register that was never written creates it, as [get_register] does.

    [execute_instruction] takes the interpreter's own [call] as an argument, so
    that a function body has a meaning for any behaviour of its callees; [call]
    closes the recursion with a budget of one unit per frame.  The depth limit
    of the source makes 257 units enough ([call_enough_fuel]). *)

From S2P Require Import Prelude.
From S2P Require Import Double.
From S2P Require Import VariantTypes.
From S2P Require Import IROpcodes.
From S2P Require Import Globals.
From S2P Require Import IR.

(** [std::variant<std::monostate, int64_t, double, std::string, bool>]. *)
Inductive Value :=
  | VNil
  | VInt (z : Z)
  | VFloat (d : double)
  | VString (s : string)
  | VBool (b : bool).

#[export] Instance Value_eq_dec : EqDecision Value.
Proof. solve_decision. Defined.

Record ExecutionContext := mkContext {
  registers : gmap Z Value;
  labels : gmap string nat;
  pc : nat;
  returned : bool;
  return_value : Value
}.

Definition empty_context : ExecutionContext := mkContext ∅ ∅ 0 false VNil.

Definition with_registers (ctx : ExecutionContext) (r : gmap Z Value) : ExecutionContext :=
  mkContext r (labels ctx) (pc ctx) (returned ctx) (return_value ctx).
Definition with_pc (ctx : ExecutionContext) (n : nat) : ExecutionContext :=
  mkContext (registers ctx) (labels ctx) n (returned ctx) (return_value ctx).
Definition with_return (ctx : ExecutionContext) (v : Value) : ExecutionContext :=
  mkContext (registers ctx) (labels ctx) (pc ctx) true v.

(** The interpreter's members. *)
Record Interp := mkInterp {
  m_globals : list Value;
  m_error : string;
  m_call_depth : Z
}.

Definition set_globals (s : Interp) (g : list Value) : Interp := mkInterp g (m_error s) (m_call_depth s).
Definition set_error (s : Interp) (e : string) : Interp := mkInterp (m_globals s) e (m_call_depth s).
Definition set_depth (s : Interp) (d : Z) : Interp := mkInterp (m_globals s) (m_error s) d.

Definition MAX_STEPS : positive := 20000000.
Definition MAX_CALL_DEPTH : Z := 256.

Definition optimizer_error {A} (message : string) : outcome A :=
  Throw (CompilerException OPTIMIZER_ERROR message).

(** ** Conversions *)

Definition is_float (v : Value) : bool := match v with VFloat _ => true | _ => false end.
Definition is_string (v : Value) : bool := match v with VString _ => true | _ => false end.
Definition is_nil (v : Value) : bool := match v with VNil => true | _ => false end.
Definition is_int (v : Value) : bool := match v with VInt _ => true | _ => false end.

Definition get_int (v : Value) : outcome Z :=
  match v with
  | VInt z => Ok z
  | VFloat d => int64_of_double d
  | VBool b => Ok (if b then 1 else 0)
  | _ => Ok 0
  end.

Definition get_double (v : Value) : double :=
  match v with
  | VFloat d => d
  | VInt z => double_of_Z z
  | VBool b => if b then d_one else dzero
  | _ => dzero
  end.

(** Variant::booleanize(): a String is true iff non-empty. *)
Definition get_bool (v : Value) : bool :=
  match v with
  | VBool b => b
  | VInt z => negb (z =? 0)
  | VFloat d => negb (deqb d dzero)
  | VString s => negb (String.eqb s "")
  | VNil => false
  end.

Definition get_string (v : Value) : string := match v with VString s => s | _ => "" end.

(** The Variant type tag of a value. *)
Definition type_tag (v : Value) : Z :=
  match v with
  | VBool _ => Variant.BOOL
  | VInt _ => Variant.INT
  | VFloat _ => Variant.FLOAT
  | VString _ => Variant.STRING
  | VNil => Variant.NIL
  end.

(** ** Operators *)

(** Bitwise and shift operators work on integers only. *)
Definition bitwise_op (left right : Value) (op : IROpcode) : option (outcome Value) :=
  let int2 f := Some (let? l := get_int left in let? r := get_int right in Ok (VInt (f l r))) in
  match op with
  | IROpcode.BIT_AND => int2 Z.land
  | IROpcode.BIT_OR => int2 Z.lor
  | IROpcode.BIT_XOR => int2 Z.lxor
  (* Shift masked to 0-63, matching the RISC-V backend. *)
  | IROpcode.SHL => int2 (fun l r => to_int64 (to_uint64 (Z.shiftl (to_uint64 l) (Z.land r 63))))
  | IROpcode.SHR => int2 (fun l r => Z.shiftr l (Z.land r 63))
  | _ => None
  end.

Definition float_op (l r : double) (op : IROpcode) : outcome Value :=
  match op with
  | IROpcode.ADD => Ok (VFloat (dadd l r))
  | IROpcode.SUB => Ok (VFloat (dsub l r))
  | IROpcode.MUL => Ok (VFloat (dmul l r))
  | IROpcode.DIV => Ok (VFloat (ddiv l r))
  | IROpcode.MOD => Ok (VFloat (dfmod l r))
  | _ => optimizer_error ("Operator " +:+ ir_opcode_name op +:+ " is not a float binary operation")
  end.

(** Wrapping arithmetic; division by zero is 0 and INT64_MIN / -1 wraps. *)
Definition int_op (left right : Z) (op : IROpcode) : outcome Value :=
  let l := to_uint64 left in
  let r := to_uint64 right in
  match op with
  | IROpcode.ADD => Ok (VInt (to_int64 (to_uint64 (l + r))))
  | IROpcode.SUB => Ok (VInt (to_int64 (to_uint64 (l - r))))
  | IROpcode.MUL => Ok (VInt (to_int64 (to_uint64 (l * r))))
  | IROpcode.DIV =>
      if r =? 0 then Ok (VInt 0)
      else if (r =? UINT64_MAX) && (l =? to_uint64 INT64_MIN) then Ok (VInt INT64_MIN)
      else Ok (VInt (Z.quot left right))
  | IROpcode.MOD =>
      if r =? 0 then Ok (VInt 0)
      else if (r =? UINT64_MAX) && (l =? to_uint64 INT64_MIN) then Ok (VInt 0)
      else Ok (VInt (Z.rem left right))
  | _ => optimizer_error ("Operator " +:+ ir_opcode_name op +:+ " is not an integer binary operation")
  end.

Definition binary_op (left right : Value) (op : IROpcode) : outcome Value :=
  if is_string left || is_string right then
    if IROpcode.eqb op IROpcode.ADD && is_string left && is_string right
    then Ok (VString (get_string left +:+ get_string right))
    else optimizer_error ("Operator " +:+ ir_opcode_name op +:+ " is not defined on strings")
  else match bitwise_op left right op with
  | Some r => r
  | None =>
      if is_float left || is_float right
      then float_op (get_double left) (get_double right) op
      else let? l := get_int left in let? r := get_int right in int_op l r op
  end.

Definition unary_op (operand : Value) (op : IROpcode) : outcome Value :=
  match op with
  | IROpcode.NEG =>
      if is_float operand then Ok (VFloat (dneg (get_double operand)))
      (* INT64_MIN wraps, matching the machine. *)
      else let? z := get_int operand in Ok (VInt (to_int64 (to_uint64 (0 - to_uint64 z))))
  | IROpcode.NOT => Ok (VBool (negb (get_bool operand)))
  | IROpcode.BIT_NOT => let? z := get_int operand in Ok (VInt (Z.lnot z))
  | _ => optimizer_error ("Operator " +:+ ir_opcode_name op +:+ " is not a unary operation")
  end.

Definition bool_int (b : bool) : Value := VInt (if b then 1 else 0).

(** The six comparisons over a type with equality and order tests. *)
Definition compare_with {A} (eq lt le : A -> A -> bool) (l r : A) (op : IROpcode) : bool :=
  match op with
  | IROpcode.CMP_EQ => eq l r
  | IROpcode.CMP_NEQ => negb (eq l r)
  | IROpcode.CMP_LT => lt l r
  | IROpcode.CMP_LTE => le l r
  | IROpcode.CMP_GT => lt r l
  | IROpcode.CMP_GTE => le r l
  | _ => false
  end.

Definition compare_op (left right : Value) (op : IROpcode) : outcome Value :=
  if is_nil left || is_nil right then
    match op with
    | IROpcode.CMP_EQ => Ok (bool_int (is_nil left && is_nil right))
    | IROpcode.CMP_NEQ => Ok (bool_int (negb (is_nil left && is_nil right)))
    | _ => optimizer_error "Ordered comparison involving null"
    end
  else if is_string left || is_string right then
    if negb (is_string left) || negb (is_string right) then
      match op with
      | IROpcode.CMP_EQ => Ok (VInt 0)
      | IROpcode.CMP_NEQ => Ok (VInt 1)
      | _ => optimizer_error "Ordered comparison between a String and a non-String"
      end
    else Ok (bool_int (compare_with String.eqb String.ltb String.leb
                         (get_string left) (get_string right) op))
  else if is_float left || is_float right then
    Ok (bool_int (compare_with deqb dltb dleb (get_double left) (get_double right) op))
  else
    let? l := get_int left in let? r := get_int right in
    Ok (bool_int (compare_with Z.eqb Z.ltb Z.leb l r op)).

Definition fused_comparison (op : IROpcode) : option IROpcode :=
  match op with
  | IROpcode.BRANCH_EQ => Some IROpcode.CMP_EQ
  | IROpcode.BRANCH_NEQ => Some IROpcode.CMP_NEQ
  | IROpcode.BRANCH_LT => Some IROpcode.CMP_LT
  | IROpcode.BRANCH_LTE => Some IROpcode.CMP_LTE
  | IROpcode.BRANCH_GT => Some IROpcode.CMP_GT
  | IROpcode.BRANCH_GTE => Some IROpcode.CMP_GTE
  | _ => None
  end.

Definition fused_branch_taken (left right : Value) (op : IROpcode) : outcome bool :=
  match fused_comparison op with
  | Some cmp => let? v := compare_op left right cmp in Ok (get_bool v)
  | None => optimizer_error (ir_opcode_name op +:+ " is not a fused branch")
  end.

(** ** Registers, operands, labels *)

(** Reading a register that does not exist creates it as NIL. *)
Definition get_register (ctx : ExecutionContext) (reg : Z) : ExecutionContext * Value :=
  match registers ctx !! reg with
  | Some v => (ctx, v)
  | None => (with_registers ctx (<[reg := VNil]> (registers ctx)), VNil)
  end.

Definition set_register (ctx : ExecutionContext) (reg : Z) (v : Value) : ExecutionContext :=
  with_registers ctx (<[reg := v]> (registers ctx)).

Fixpoint get_registers (ctx : ExecutionContext) (regs : list Z) : ExecutionContext * list Value :=
  match regs with
  | [] => (ctx, [])
  | r :: regs =>
      let '(ctx, v) := get_register ctx r in
      let '(ctx, vs) := get_registers ctx regs in
      (ctx, v :: vs)
  end.

(** [instr.operands[n]], unchecked in the source. *)
Definition operand_ub (i : IRInstruction) (n : nat) : outcome IRValue :=
  of_option (UB "operand past the end") (operands i !! n).

Definition reg_operand (i : IRInstruction) (n : nat) : outcome Z :=
  let? v := operand_ub i n in IRValue.reg_index_ub v.
Definition imm_operand (i : IRInstruction) (n : nat) : outcome Z :=
  let? v := operand_ub i n in IRValue.immediate_ub v.
Definition float_operand (i : IRInstruction) (n : nat) : outcome double :=
  let? v := operand_ub i n in IRValue.float_number_ub v.

(** The registers of [count] operands from position [first] on. *)
Definition arg_operands (i : IRInstruction) (first count : nat) : outcome (list Z) :=
  omapM (reg_operand i) (seq first count).

Section Interpreter.
Context `{Libm} (program : IRProgram).

(** Resolves an operand's interned name. *)
Definition label_text (i : IRInstruction) (n : nat) : outcome string :=
  let? v := operand_ub i n in
  let? id := IRValue.string_id_ub v in
  Ok (IRStringTable.get (strings program) id).

Definition missing_label_message (op : IROpcode) (label : string) : string :=
  ir_opcode_name op +:+ " targets a label that does not exist: " +:+ label.

Definition jump_to_label (i : IRInstruction) (label : string) (ctx : ExecutionContext)
  : outcome ExecutionContext :=
  match labels ctx !! label with
  | Some target => Ok (with_pc ctx target)
  | None => optimizer_error (missing_label_message (opcode i) label)
  end.

(** ** One instruction *)

(** LOAD_IMM, LOAD_NIL, LOAD_BOOL, LOAD_FLOAT_IMM, LOAD_STRING. *)
Definition exec_load (i : IRInstruction) (ctx : ExecutionContext) : outcome ExecutionContext :=
  let? reg := reg_operand i 0 in
  match opcode i with
  | IROpcode.LOAD_IMM => let? imm := imm_operand i 1 in Ok (set_register ctx reg (VInt imm))
  | IROpcode.LOAD_NIL => Ok (set_register ctx reg VNil)
  | IROpcode.LOAD_BOOL =>
      let? imm := imm_operand i 1 in Ok (set_register ctx reg (VBool (negb (imm =? 0))))
  | IROpcode.LOAD_FLOAT_IMM => let? d := float_operand i 1 in Ok (set_register ctx reg (VFloat d))
  | _ =>
      let? index := imm_operand i 1 in
      if (index <? 0) || (Z.of_nat (length (string_constants program)) <=? index)
      then optimizer_error "String constant index out of range"
      else let? s := nth_ub (string_constants program) (Z.to_nat index) in
           Ok (set_register ctx reg (VString s))
  end.

(** LOAD_GLOBAL and STORE_GLOBAL. *)
Definition exec_load_global (i : IRInstruction) (ctx : ExecutionContext) : M Interp ExecutionContext :=
  let* reg := mlift (reg_operand i 0) in
  let* index := mlift (imm_operand i 1) in
  let* s := mget in
  if (index <? 0) || (Z.of_nat (length (m_globals s)) <=? index)
  then mlift (optimizer_error "Global index out of range")
  else let* v := mlift (nth_ub (m_globals s) (Z.to_nat index)) in
       mret (set_register ctx reg v).

Definition exec_store_global (i : IRInstruction) (ctx : ExecutionContext) : M Interp ExecutionContext :=
  let* index := mlift (imm_operand i 0) in
  let* reg := mlift (reg_operand i 1) in
  let* s := mget in
  if (index <? 0) || (Z.of_nat (length (m_globals s)) <=? index)
  then mlift (optimizer_error "Global index out of range")
  else let '(ctx, v) := get_register ctx reg in
       let* _ := mmodify (fun s => set_globals s (<[Z.to_nat index := v]> (m_globals s))) in
       mret ctx.

(** CONVERT and COERCE: the target type is the hint. *)
Definition exec_convert (i : IRInstruction) (ctx : ExecutionContext) : outcome ExecutionContext :=
  let? dst := reg_operand i 0 in
  let? src := reg_operand i 1 in
  let '(ctx, v) := get_register ctx src in
  if type_hint i =? Variant.FLOAT then Ok (set_register ctx dst (VFloat (get_double v)))
  else if type_hint i =? Variant.INT then let? z := get_int v in Ok (set_register ctx dst (VInt z))
  else if IROpcode.eqb (opcode i) IROpcode.COERCE && (type_hint i =? Variant.BOOL)
  then Ok (set_register ctx dst (VBool (get_bool v)))
  else optimizer_error (ir_opcode_name (opcode i) +:+ " to " +:+ variant_type_name (type_hint i)
         +:+ " is not implemented in the interpreter").

Definition exec_move (i : IRInstruction) (ctx : ExecutionContext) : outcome ExecutionContext :=
  let? dst := reg_operand i 0 in
  let? src := reg_operand i 1 in
  let '(ctx, v) := get_register ctx src in
  Ok (set_register ctx dst v).

(** The binary arithmetic, bitwise and comparison instructions. *)
Definition exec_binary (f : Value -> Value -> IROpcode -> outcome Value)
    (i : IRInstruction) (ctx : ExecutionContext) : outcome ExecutionContext :=
  let? dst := reg_operand i 0 in
  let? src1 := reg_operand i 1 in
  let? src2 := reg_operand i 2 in
  let '(ctx, val1) := get_register ctx src1 in
  let '(ctx, val2) := get_register ctx src2 in
  let? v := f val1 val2 (opcode i) in
  Ok (set_register ctx dst v).

Definition exec_unary (i : IRInstruction) (ctx : ExecutionContext) : outcome ExecutionContext :=
  let? dst := reg_operand i 0 in
  let? src := reg_operand i 1 in
  let '(ctx, v) := get_register ctx src in
  let? r := unary_op v (opcode i) in
  Ok (set_register ctx dst r).

(** TYPE_TEST, TYPE_TEST_MASK and TYPE_OF. *)
Definition exec_type_test (i : IRInstruction) (ctx : ExecutionContext) : outcome ExecutionContext :=
  let? dst := reg_operand i 0 in
  let? src := reg_operand i 1 in
  let? tested := imm_operand i 2 in
  let '(ctx, value) := get_register ctx src in
  let actual := type_tag value in
  Ok (set_register ctx dst (VBool
    (if IROpcode.eqb (opcode i) IROpcode.TYPE_TEST then actual =? tested
     else negb (Z.land (Z.shiftr tested actual) 1 =? 0)))).

Definition exec_type_of (i : IRInstruction) (ctx : ExecutionContext) : outcome ExecutionContext :=
  let? dst := reg_operand i 0 in
  let? src := reg_operand i 1 in
  let '(ctx, value) := get_register ctx src in
  Ok (set_register ctx dst (VInt (type_tag value))).

(** AND and OR short-circuit: the second register may not be read at all. *)
Definition exec_logical (i : IRInstruction) (ctx : ExecutionContext) : outcome ExecutionContext :=
  let? dst := reg_operand i 0 in
  let? src1 := reg_operand i 1 in
  let? src2 := reg_operand i 2 in
  let '(ctx, v1) := get_register ctx src1 in
  let is_and := IROpcode.eqb (opcode i) IROpcode.AND in
  if Bool.eqb (get_bool v1) is_and
  then let '(ctx, v2) := get_register ctx src2 in
       Ok (set_register ctx dst (bool_int (get_bool v2)))
  else Ok (set_register ctx dst (bool_int (negb is_and))).

(** BRANCH_ZERO and BRANCH_NOT_ZERO. *)
Definition exec_branch (i : IRInstruction) (ctx : ExecutionContext) : outcome ExecutionContext :=
  let? reg := reg_operand i 0 in
  let '(ctx, v) := get_register ctx reg in
  if Bool.eqb (get_bool v) (IROpcode.eqb (opcode i) IROpcode.BRANCH_NOT_ZERO)
  then let? label := label_text i 1 in jump_to_label i label ctx
  else Ok ctx.

Definition exec_fused_branch (i : IRInstruction) (ctx : ExecutionContext) : outcome ExecutionContext :=
  let? lhs := reg_operand i 0 in
  let? rhs := reg_operand i 1 in
  let '(ctx, lv) := get_register ctx lhs in
  let '(ctx, rv) := get_register ctx rhs in
  let? taken := fused_branch_taken lv rv (opcode i) in
  if taken then let? label := label_text i 2 in jump_to_label i label ctx
  else Ok ctx.

(** Only integers dispatch; everything else falls through. *)
Definition exec_switch (i : IRInstruction) (ctx : ExecutionContext) : outcome ExecutionContext :=
  let? reg := reg_operand i 0 in
  let '(ctx, subject) := get_register ctx reg in
  match subject with
  | VInt value =>
      let? base := imm_operand i 1 in
      let? count := imm_operand i 2 in
      if value <? base then Ok ctx
      else
        let? limit := checked (base + count) in
        if limit <=? value then Ok ctx
        else let? diff := checked (value - base) in
             let? label := label_text i (3 + Z.to_nat diff) in
             jump_to_label i label ctx
  | _ => Ok ctx
  end.

(** How the exceptions of what only the host can do end. *)
Definition in_function (func : IRFunction) : string :=
  " in the IR interpreter (in function '" +:+ fn_name func +:+ "')".

(** The value of a GLOBAL_CALL. *)
Definition global_call_value (func : IRFunction) (fn : Z) (args : list Value) : outcome Value :=
  let? info := global_function fn in
  let unavailable why := optimizer_error (gf_name info +:+ why +:+ " and is not available" +:+ in_function func) in
  if (fn =? GlobalFn.num GlobalFn.STR) && negb (length args =? 0)%nat && forallb is_string args
  then Ok (VString (fold_left (fun joined v => joined +:+ get_string v) args ""))
  else if decide (gf_kind info = GlobalKind.HOST) then
    unavailable "() needs the host Variant API"
  else if gf_impure info then
    unavailable "() needs the host's random number generator"
  else if decide (gf_kind info = GlobalKind.CAST) then
    let? value := nth_at args 0 in
    if is_string value && negb (fn =? GlobalFn.num GlobalFn.TO_BOOL) then
      unavailable "() of a String needs the host Variant API"
    else if fn =? GlobalFn.num GlobalFn.TO_INT then let? z := get_int value in Ok (VInt z)
    else if fn =? GlobalFn.num GlobalFn.TO_FLOAT then Ok (VFloat (get_double value))
    else Ok (VBool (get_bool value))
  else
    let? info :=
      if decide (gf_kind info = GlobalKind.NUMERIC)
      then global_function (GlobalFn.num (resolve_numeric_form info (forallb is_int args)))
      else Ok info in
    if decide (gf_kind info = GlobalKind.INT_OP) then
      let? ints := omapM get_int args in
      let? z := eval_global_int (gf_fn info) ints in Ok (VInt z)
    else if decide (gf_kind info = GlobalKind.SYSCALL_INT) then
      let? ints := omapM get_int args in
      let? z := eval_global_int_syscall (gf_fn info) ints in Ok (VInt z)
    else
      let? result := eval_global_float (gf_fn info) (map get_double args) in
      match gf_result info with
      | GlobalResult.BOOL => Ok (VBool (negb (deqb result dzero)))
      | GlobalResult.INT => let? z := int64_of_double result in Ok (VInt z)
      | _ => Ok (VFloat result)
      end.

Definition exec_global_call (func : IRFunction) (i : IRInstruction) (ctx : ExecutionContext)
  : outcome ExecutionContext :=
  let? result_reg := reg_operand i 0 in
  let? fn := imm_operand i 1 in
  let? arg_count := imm_operand i 3 in
  let arg_count := to_int32 arg_count in
  if arg_count <? 0 then Throw length_error
  else
    let? regs := arg_operands i 4 (Z.to_nat arg_count) in
    let '(ctx, args) := get_registers ctx regs in
    let? v := global_call_value func (to_int16 fn) args in
    Ok (set_register ctx result_reg v).

(** The map from names to functions: a later function replaces an earlier one
    of the same name. *)
Definition m_function_map : gmap string IRFunction :=
  fold_left (fun m f => <[fn_name f := f]> m) (functions program) ∅.

Section Body.
(** The interpreter's [call]. *)
Context (call_rec : string -> list Value -> M Interp Value).

Definition exec_call (i : IRInstruction) (ctx : ExecutionContext) : M Interp ExecutionContext :=
  let* func_name := mlift (label_text i 0) in
  let* result_reg := mlift (reg_operand i 1) in
  let* arg_count := mlift (imm_operand i 2) in
  let* regs := mlift (arg_operands i 3 (Z.to_nat (to_int32 arg_count))) in
  let '(ctx, args) := get_registers ctx regs in
  match m_function_map !! func_name with
  | None => mlift (optimizer_error ("Call to a function the interpreter does not know: " +:+ func_name))
  | Some _ =>
      let* result := call_rec func_name args in
      mret (set_register ctx result_reg result)
  end.

Definition exec_return (ctx : ExecutionContext) : ExecutionContext :=
  match registers ctx !! RETURN_REGISTER with
  | Some v => with_return ctx v
  | None => with_return ctx (VInt 0)
  end.

(** Everything else needs the host. *)
Definition exec_host_only (func : IRFunction) (i : IRInstruction) : outcome ExecutionContext :=
  match opcode i with
  | IROpcode.POW => optimizer_error ("'**' is evaluated by the host through Variant::evaluate() and is not available"
        +:+ in_function func)
  | IROpcode.IN => optimizer_error ("'in' needs the host Variant API and is not available" +:+ in_function func)
  | IROpcode.AWAIT => optimizer_error ("'await' suspends into the host and is not available" +:+ in_function func)
  | IROpcode.CALL_HOSTED =>
      optimizer_error ("a call to a coroutine re-enters through the host and is not available" +:+ in_function func)
  | _ => optimizer_error ("Opcode " +:+ ir_opcode_name (opcode i) +:+
           " needs the host Variant API and is not available" +:+ in_function func)
  end.

Definition execute_instruction (func : IRFunction) (i : IRInstruction) (ctx : ExecutionContext)
  : M Interp ExecutionContext :=
  match opcode i with
  | IROpcode.LOAD_IMM | IROpcode.LOAD_NIL | IROpcode.LOAD_BOOL | IROpcode.LOAD_FLOAT_IMM
  | IROpcode.LOAD_STRING => mlift (exec_load i ctx)
  | IROpcode.SCOPE_MARK | IROpcode.SCOPE_RELEASE => mret ctx
  | IROpcode.LOAD_GLOBAL => exec_load_global i ctx
  | IROpcode.STORE_GLOBAL => exec_store_global i ctx
  | IROpcode.CONVERT | IROpcode.COERCE => mlift (exec_convert i ctx)
  | IROpcode.MOVE => mlift (exec_move i ctx)
  | IROpcode.ADD | IROpcode.SUB | IROpcode.MUL | IROpcode.DIV | IROpcode.MOD
  | IROpcode.BIT_AND | IROpcode.BIT_OR | IROpcode.BIT_XOR | IROpcode.SHL | IROpcode.SHR =>
      mlift (exec_binary binary_op i ctx)
  | IROpcode.TYPE_TEST | IROpcode.TYPE_TEST_MASK => mlift (exec_type_test i ctx)
  | IROpcode.TYPE_OF => mlift (exec_type_of i ctx)
  | IROpcode.NEG | IROpcode.NOT | IROpcode.BIT_NOT => mlift (exec_unary i ctx)
  | IROpcode.CMP_EQ | IROpcode.CMP_NEQ | IROpcode.CMP_LT | IROpcode.CMP_LTE
  | IROpcode.CMP_GT | IROpcode.CMP_GTE => mlift (exec_binary compare_op i ctx)
  | IROpcode.AND | IROpcode.OR => mlift (exec_logical i ctx)
  | IROpcode.LABEL | IROpcode.BREAKPOINT => mret ctx
  | IROpcode.JUMP => mlift (let? label := label_text i 0 in jump_to_label i label ctx)
  | IROpcode.BRANCH_ZERO | IROpcode.BRANCH_NOT_ZERO => mlift (exec_branch i ctx)
  | IROpcode.BRANCH_EQ | IROpcode.BRANCH_NEQ | IROpcode.BRANCH_LT | IROpcode.BRANCH_LTE
  | IROpcode.BRANCH_GT | IROpcode.BRANCH_GTE => mlift (exec_fused_branch i ctx)
  | IROpcode.SWITCH => mlift (exec_switch i ctx)
  | IROpcode.CALL => exec_call i ctx
  | IROpcode.GLOBAL_CALL => mlift (exec_global_call func i ctx)
  | IROpcode.RETURN => mret (exec_return ctx)
  | _ => mlift (exec_host_only func i)
  end.

(** ** One function *)

(** The label map: the last LABEL of a name wins. *)
Fixpoint collect_labels (is_ : list IRInstruction) (i : nat) (acc : gmap string nat) : gmap string nat :=
  match is_ with
  | [] => acc
  | ins :: is_ =>
      collect_labels is_ (S i)
        (match opcode ins, operands ins with
         | IROpcode.LABEL, IRValue.LABEL id :: _ =>
             <[IRStringTable.get (strings program) id := i]> acc
         | _, _ => acc
         end)
  end.

Definition running (func : IRFunction) (ctx : ExecutionContext) : bool :=
  (pc ctx <? length (instructions func))%nat && negb (returned ctx).

(** The loop body: taken branches have already moved [pc]. *)
Definition step (func : IRFunction) (ctx : ExecutionContext) : M Interp ExecutionContext :=
  let* i := mlift (nth_ub (instructions func) (pc ctx)) in
  let* ctx' := execute_instruction func i ctx in
  mret (if negb (returned ctx') && (pc ctx' =? pc ctx)%nat then with_pc ctx' (S (pc ctx')) else ctx').

(** One iteration of the [while] loop, as a transition that stops when the
    condition fails or an exception is thrown. *)
Definition loop_step (func : IRFunction) (sc : Interp * ExecutionContext)
  : (Interp * ExecutionContext) + (Interp * outcome ExecutionContext) :=
  let '(s, ctx) := sc in
  if running func ctx
  then match step func ctx s with
       | (s', Ok ctx') => inl (s', ctx')
       | (s', Throw e) => inr (s', Throw e)
       end
  else inr (s, Ok ctx).

Definition decrement_depth (s : Interp) : Interp := set_depth s (m_call_depth s - 1).

Definition step_limit_message (function_name : string) : string :=
  "IR interpreter step limit exceeded in function '" +:+ function_name +:+ "'".

Definition call_depth_message (function_name : string) : string :=
  "IR interpreter call depth exceeded in function '" +:+ function_name +:+ "'".

(** Runs the body with at most [steps] instructions. *)
Definition run_body (steps : positive) (func : IRFunction) (ctx : ExecutionContext)
  : M Interp ExecutionContext := fun s =>
  match iter_until_pos (loop_step func) steps (s, ctx) with
  | inr (s', Ok ctx') => (decrement_depth s', Ok ctx')
  | inr (s', Throw e) => (s', Throw e)
  | inl (s', ctx') =>
      (* the step counter is tested after the loop condition *)
      if running func ctx'
      then (decrement_depth s', optimizer_error (step_limit_message (fn_name func)))
      else (decrement_depth s', Ok ctx')
  end.

Definition execute_function (func : IRFunction) (ctx : ExecutionContext) : M Interp ExecutionContext :=
  let* _ := mmodify (fun s => set_depth s (m_call_depth s + 1)) in
  let* s := mget in
  if MAX_CALL_DEPTH <? m_call_depth s then
    let* _ := mmodify decrement_depth in
    mlift (optimizer_error (call_depth_message (fn_name func)))
  else
    run_body MAX_STEPS func
      (mkContext (registers ctx) (collect_labels (instructions func) 0 (labels ctx)) 0
         (returned ctx) (return_value ctx)).

(** The registers of a call: argument [i] in register [i], as many as both
    lists have. *)
Definition argument_registers (func : IRFunction) (args : list Value) : gmap Z Value :=
  list_to_map (zip (map Z.of_nat (seq 0 (length args))) (take (length (parameters func)) args)).

Definition call_function (func : IRFunction) (args : list Value) : M Interp Value :=
  let* ctx := execute_function func
      (mkContext (argument_registers func args) ∅ 0 false VNil) in
  mret (if returned ctx then return_value ctx else VNil).

End Body.

(** ** Calls *)

Fixpoint call_fuel (fuel : nat) (function_name : string) (args : list Value) : M Interp Value :=
  match fuel with
  | O => mthrow OutOfFuel
  | S fuel =>
      match m_function_map !! function_name with
      | None =>
          let* _ := mmodify (fun s => set_error s ("Function not found: " +:+ function_name)) in
          mret (VInt 0)
      | Some func => call_function (call_fuel fuel) func args
      end
  end.

(** One frame more than the depth limit admits. *)
Definition CALL_FUEL : nat := Z.to_nat (MAX_CALL_DEPTH + 1).

Definition call : string -> list Value -> M Interp Value := call_fuel CALL_FUEL.

(** ** Construction *)

Definition initial_global (g : IRGlobalVar) : outcome Value :=
  match gv_init_type g with
  | InitType.INT => match gv_init_value g with IV_int z => Ok (VInt z) | _ => Throw bad_variant_access end
  | InitType.FLOAT => match gv_init_value g with IV_double d => Ok (VFloat d) | _ => Throw bad_variant_access end
  | InitType.STRING => match gv_init_value g with IV_string s => Ok (VString s) | _ => Throw bad_variant_access end
  | InitType.BOOL => match gv_init_value g with IV_bool b => Ok (VBool b) | _ => Throw bad_variant_access end
  | _ => Ok VNil
  end.

Definition initialize_globals : M Interp unit :=
  let* gs := mlift (omapM initial_global (globals program)) in
  let* _ := mmodify (fun s => set_globals s gs) in
  let* _ := (if has_global_init program
             then let* _ := execute_function call (global_init program) empty_context in mret tt
             else mret tt) in
  if has_member_init program
  then let* _ := execute_function call (member_init program) empty_context in mret tt
  else mret tt.

Definition construct : Interp * outcome unit := initialize_globals (mkInterp [] "" 0).

End Interpreter.
