(* ===== verification/Effects.v ===== *)
(** * Instruction effects

    A second reading of [execute_instruction] that separates what an
    instruction does from where its registers are.  [effect_of] sees the values
    of the registers read and answers which operands were touched and whether
    the instruction writes its destination, jumps, returns or falls through;
    [apply_effect] performs it.  [execute_effect] states that the two together
    are [execute_instruction].  The passes of the optimizer are then compared
    through [effect_of_congr]: instructions of the same shape whose reads see
    the same values have the same effect. *)

From S2P Require Import Prelude.
From S2P Require Import Double.
From S2P Require Import VariantTypes.
From S2P Require Import IROpcodes.
From S2P Require Import Globals.
From S2P Require Import IR.
From S2P Require Import Interpreter.

Inductive Effect :=
  | E_none
  | E_write (v : Value)
  | E_jump (label : string)
  | E_return.

(** The value a register holds; a missing register reads as NIL. *)
Definition rd (regs : gmap Z Value) (r : Z) : Value := default VNil (regs !! r).

(** Reading a missing register creates it. *)
Definition touch (regs : gmap Z Value) (r : Z) : gmap Z Value :=
  match regs !! r with Some _ => regs | None => <[r := VNil]> regs end.

Definition touch_all (regs : gmap Z Value) (rs : list Z) : gmap Z Value := fold_left touch rs regs.

Definition touched_registers (i : IRInstruction) (ns : list nat) : list Z :=
  omap (fun n => match operands i !! n with Some (IRValue.REGISTER r) => Some r | _ => None end) ns.

#[global] Arguments touched_registers : simpl never.

(** ** Values, per group of opcodes *)

Definition val_operand (rho : Z -> Value) (i : IRInstruction) (n : nat) : outcome Value :=
  let? r := reg_operand i n in Ok (rho r).

Section Effects.
Context `{Libm} (program : IRProgram).

Definition load_value (i : IRInstruction) : outcome Value :=
  match opcode i with
  | IROpcode.LOAD_IMM => let? imm := imm_operand i 1 in Ok (VInt imm)
  | IROpcode.LOAD_NIL => Ok VNil
  | IROpcode.LOAD_BOOL => let? imm := imm_operand i 1 in Ok (VBool (negb (imm =? 0)))
  | IROpcode.LOAD_FLOAT_IMM => let? d := float_operand i 1 in Ok (VFloat d)
  | _ =>
      let? index := imm_operand i 1 in
      if (index <? 0) || (Z.of_nat (length (string_constants program)) <=? index)
      then optimizer_error "String constant index out of range"
      else let? s := nth_ub (string_constants program) (Z.to_nat index) in Ok (VString s)
  end.

Definition convert_value (i : IRInstruction) (v : Value) : outcome Value :=
  if type_hint i =? Variant.FLOAT then Ok (VFloat (get_double v))
  else if type_hint i =? Variant.INT then let? z := get_int v in Ok (VInt z)
  else if IROpcode.eqb (opcode i) IROpcode.COERCE && (type_hint i =? Variant.BOOL)
  then Ok (VBool (get_bool v))
  else optimizer_error (ir_opcode_name (opcode i) +:+ " to " +:+ variant_type_name (type_hint i)
         +:+ " is not implemented in the interpreter").

(** A destination, one source, a result computed from its value. *)
Definition unary_effect (f : Value -> outcome Value) (rho : Z -> Value) (i : IRInstruction)
  : outcome (list nat * Effect) :=
  let? _ := reg_operand i 0 in
  let? v := val_operand rho i 1 in
  let? r := f v in Ok ([1%nat], E_write r).

Definition binary_effect (f : Value -> Value -> outcome Value) (rho : Z -> Value) (i : IRInstruction)
  : outcome (list nat * Effect) :=
  let? _ := reg_operand i 0 in
  let? a := val_operand rho i 1 in
  let? b := val_operand rho i 2 in
  let? r := f a b in Ok ([1%nat; 2%nat], E_write r).

Definition type_test_effect (rho : Z -> Value) (i : IRInstruction) : outcome (list nat * Effect) :=
  let? _ := reg_operand i 0 in
  let? v := val_operand rho i 1 in
  let? tested := imm_operand i 2 in
  Ok ([1%nat], E_write (VBool
    (if IROpcode.eqb (opcode i) IROpcode.TYPE_TEST then type_tag v =? tested
     else negb (Z.land (Z.shiftr tested (type_tag v)) 1 =? 0)))).

Definition logical_effect (rho : Z -> Value) (i : IRInstruction) : outcome (list nat * Effect) :=
  let? _ := reg_operand i 0 in
  let? a := val_operand rho i 1 in
  let? b := val_operand rho i 2 in
  let is_and := IROpcode.eqb (opcode i) IROpcode.AND in
  if Bool.eqb (get_bool a) is_and
  then Ok ([1%nat; 2%nat], E_write (bool_int (get_bool b)))
  else Ok ([1%nat], E_write (bool_int (negb is_and))).

Definition branch_effect (rho : Z -> Value) (i : IRInstruction) : outcome (list nat * Effect) :=
  let? v := val_operand rho i 0 in
  if Bool.eqb (get_bool v) (IROpcode.eqb (opcode i) IROpcode.BRANCH_NOT_ZERO)
  then let? label := label_text program i 1 in Ok ([0%nat], E_jump label)
  else Ok ([0%nat], E_none).

Definition fused_effect (rho : Z -> Value) (i : IRInstruction) : outcome (list nat * Effect) :=
  let? a := val_operand rho i 0 in
  let? b := val_operand rho i 1 in
  let? taken := fused_branch_taken a b (opcode i) in
  if taken then let? label := label_text program i 2 in Ok ([0%nat; 1%nat], E_jump label)
  else Ok ([0%nat; 1%nat], E_none).

Definition switch_effect (rho : Z -> Value) (i : IRInstruction) : outcome (list nat * Effect) :=
  let? subject := val_operand rho i 0 in
  match subject with
  | VInt value =>
      let? base := imm_operand i 1 in
      let? count := imm_operand i 2 in
      if value <? base then Ok ([0%nat], E_none)
      else
        let? limit := checked (base + count) in
        if limit <=? value then Ok ([0%nat], E_none)
        else let? diff := checked (value - base) in
             let? label := label_text program i (3 + Z.to_nat diff) in
             Ok ([0%nat], E_jump label)
  | _ => Ok ([0%nat], E_none)
  end.

Definition arg_values (rho : Z -> Value) (i : IRInstruction) (first count : nat) : outcome (list Value) :=
  omapM (val_operand rho i) (seq first count).

Definition global_call_effect (func : IRFunction) (rho : Z -> Value) (i : IRInstruction)
  : outcome (list nat * Effect) :=
  let? _ := reg_operand i 0 in
  let? fn := imm_operand i 1 in
  let? arg_count := imm_operand i 3 in
  let arg_count := to_int32 arg_count in
  if arg_count <? 0 then Throw length_error
  else
    let? args := arg_values rho i 4 (Z.to_nat arg_count) in
    let? v := global_call_value func (to_int16 fn) args in
    Ok (seq 4 (Z.to_nat arg_count), E_write v).

Definition load_global_effect (i : IRInstruction) : M Interp (list nat * Effect) :=
  let* _ := mlift (reg_operand i 0) in
  let* index := mlift (imm_operand i 1) in
  let* s := mget in
  if (index <? 0) || (Z.of_nat (length (m_globals s)) <=? index)
  then mlift (optimizer_error "Global index out of range")
  else let* v := mlift (nth_ub (m_globals s) (Z.to_nat index)) in
       mret ([], E_write v).

Definition store_global_effect (rho : Z -> Value) (i : IRInstruction) : M Interp (list nat * Effect) :=
  let* index := mlift (imm_operand i 0) in
  let* v := mlift (val_operand rho i 1) in
  let* s := mget in
  if (index <? 0) || (Z.of_nat (length (m_globals s)) <=? index)
  then mlift (optimizer_error "Global index out of range")
  else let* _ := mmodify (fun s => set_globals s (<[Z.to_nat index := v]> (m_globals s))) in
       mret ([1%nat], E_none).

Section Body.
Context (call_rec : string -> list Value -> M Interp Value).

Definition call_effect (rho : Z -> Value) (i : IRInstruction) : M Interp (list nat * Effect) :=
  let* func_name := mlift (label_text program i 0) in
  let* _ := mlift (reg_operand i 1) in
  let* arg_count := mlift (imm_operand i 2) in
  let* args := mlift (arg_values rho i 3 (Z.to_nat (to_int32 arg_count))) in
  match m_function_map program !! func_name with
  | None => mlift (optimizer_error ("Call to a function the interpreter does not know: " +:+ func_name))
  | Some _ =>
      let* result := call_rec func_name args in
      mret (seq 3 (Z.to_nat (to_int32 arg_count)), E_write result)
  end.

Definition effect_of (func : IRFunction) (rho : Z -> Value) (i : IRInstruction)
  : M Interp (list nat * Effect) :=
  match opcode i with
  | IROpcode.LOAD_IMM | IROpcode.LOAD_NIL | IROpcode.LOAD_BOOL | IROpcode.LOAD_FLOAT_IMM
  | IROpcode.LOAD_STRING =>
      mlift (let? _ := reg_operand i 0 in let? v := load_value i in Ok ([], E_write v))
  | IROpcode.SCOPE_MARK | IROpcode.SCOPE_RELEASE | IROpcode.LABEL | IROpcode.BREAKPOINT =>
      mret ([], E_none)
  | IROpcode.LOAD_GLOBAL => load_global_effect i
  | IROpcode.STORE_GLOBAL => store_global_effect rho i
  | IROpcode.CONVERT | IROpcode.COERCE => mlift (unary_effect (convert_value i) rho i)
  | IROpcode.MOVE => mlift (unary_effect Ok rho i)
  | IROpcode.ADD | IROpcode.SUB | IROpcode.MUL | IROpcode.DIV | IROpcode.MOD
  | IROpcode.BIT_AND | IROpcode.BIT_OR | IROpcode.BIT_XOR | IROpcode.SHL | IROpcode.SHR =>
      mlift (binary_effect (fun a b => binary_op a b (opcode i)) rho i)
  | IROpcode.TYPE_TEST | IROpcode.TYPE_TEST_MASK => mlift (type_test_effect rho i)
  | IROpcode.TYPE_OF => mlift (unary_effect (fun v => Ok (VInt (type_tag v))) rho i)
  | IROpcode.NEG | IROpcode.NOT | IROpcode.BIT_NOT =>
      mlift (unary_effect (fun v => unary_op v (opcode i)) rho i)
  | IROpcode.CMP_EQ | IROpcode.CMP_NEQ | IROpcode.CMP_LT | IROpcode.CMP_LTE
  | IROpcode.CMP_GT | IROpcode.CMP_GTE =>
      mlift (binary_effect (fun a b => compare_op a b (opcode i)) rho i)
  | IROpcode.AND | IROpcode.OR => mlift (logical_effect rho i)
  | IROpcode.JUMP => mlift (let? label := label_text program i 0 in Ok ([], E_jump label))
  | IROpcode.BRANCH_ZERO | IROpcode.BRANCH_NOT_ZERO => mlift (branch_effect rho i)
  | IROpcode.BRANCH_EQ | IROpcode.BRANCH_NEQ | IROpcode.BRANCH_LT | IROpcode.BRANCH_LTE
  | IROpcode.BRANCH_GT | IROpcode.BRANCH_GTE => mlift (fused_effect rho i)
  | IROpcode.SWITCH => mlift (switch_effect rho i)
  | IROpcode.CALL => call_effect rho i
  | IROpcode.GLOBAL_CALL => mlift (global_call_effect func rho i)
  | IROpcode.RETURN => mret ([], E_return)
  | _ => mlift (let? _ := exec_host_only func i in Ok ([], E_none))
  end.

Definition apply_effect (i : IRInstruction) (te : list nat * Effect) (ctx : ExecutionContext)
  : outcome ExecutionContext :=
  let ctx := with_registers ctx (touch_all (registers ctx) (touched_registers i te.1)) in
  match te.2 with
  | E_none => Ok ctx
  | E_write v =>
      match ir_destination_register i with
      | Some r => Ok (set_register ctx r v)
      | None => Ok ctx
      end
  | E_jump label => jump_to_label i label ctx
  | E_return => Ok (exec_return ctx)
  end.

(** ** The two readings agree *)

Lemma with_registers_id ctx : with_registers ctx (registers ctx) = ctx.
Proof. by destruct ctx. Qed.

Lemma get_register_touch ctx r :
  get_register ctx r = (with_registers ctx (touch (registers ctx) r), rd (registers ctx) r).
Proof.
  unfold get_register, touch, rd. destruct (registers ctx !! r) eqn:E; simpl;
    by rewrite ?with_registers_id.
Qed.

Lemma rd_touch regs r x : rd (touch regs r) x = rd regs x.
Proof.
  unfold rd, touch. destruct (regs !! r) eqn:E; [done|].
  destruct (decide (r = x)) as [->|Hne].
  - by rewrite lookup_insert_eq, E.
  - by rewrite lookup_insert_ne.
Qed.

Lemma rd_touch_all regs rs x : rd (touch_all regs rs) x = rd regs x.
Proof. revert regs. induction rs as [|r rs IH]; intros regs; simpl; [done|]. by rewrite IH, rd_touch. Qed.

Lemma get_registers_touch ctx rs :
  get_registers ctx rs =
  (with_registers ctx (touch_all (registers ctx) rs), map (rd (registers ctx)) rs).
Proof.
  revert ctx. induction rs as [|r rs IH]; intros ctx; simpl; [by rewrite with_registers_id|].
  rewrite get_register_touch, IH. f_equal. simpl. f_equal.
  apply map_ext. intros x. apply rd_touch.
Qed.

Lemma reg_operand_Ok i n r :
  reg_operand i n = Ok r <-> operands i !! n = Some (IRValue.REGISTER r).
Proof.
  unfold reg_operand, operand_ub. destruct (operands i !! n) as [[]|]; simpl; naive_solver.
Qed.

Lemma touched_one i n r :
  reg_operand i n = Ok r -> touched_registers i [n] = [r].
Proof. intros Hr%reg_operand_Ok. unfold touched_registers. simpl. by rewrite Hr. Qed.

Lemma touched_cons i n ns r :
  reg_operand i n = Ok r -> touched_registers i (n :: ns) = r :: touched_registers i ns.
Proof. intros Hr%reg_operand_Ok. unfold touched_registers. simpl. by rewrite Hr. Qed.

(** The destination operand of an executed opcode. *)
Lemma destination_register_reg i n r :
  ir_destination_operand_index (opcode i) = Some n -> reg_operand i n = Ok r ->
  ir_destination_register i = Some r.
Proof.
  intros Hn Hr%reg_operand_Ok. unfold ir_destination_register. by rewrite Hn, Hr.
Qed.

Lemma arg_operands_values (rho : Z -> Value) i first count :
  arg_values rho i first count = let? rs := arg_operands i first count in Ok (map rho rs).
Proof.
  unfold arg_values, arg_operands. generalize (seq first count) as ns.
  induction ns as [|n ns IH]; simpl; [done|]. unfold val_operand at 1.
  destruct (reg_operand i n); simpl; [|done]. rewrite IH.
  by destruct (omapM (reg_operand i) ns).
Qed.

Lemma arg_operands_touched i first count rs :
  arg_operands i first count = Ok rs -> touched_registers i (seq first count) = rs.
Proof.
  unfold arg_operands. generalize (seq first count) as ns. intros ns. revert rs.
  induction ns as [|n ns IH]; intros rs; simpl; [intros; by simplify_eq|].
  destruct (reg_operand i n) as [r|] eqn:Er; simpl; [|done].
  destruct (omapM (reg_operand i) ns) as [rs'|]; simpl; [|done]. intros; simplify_eq.
  rewrite (touched_cons i n ns r) by done. f_equal. by apply IH.
Qed.

Abbreviation rho ctx := (rd (registers ctx)).

Lemma exec_unary_effect f i ctx :
  ir_destination_operand_index (opcode i) = Some 0%nat ->
  (let? dst := reg_operand i 0 in
   let? src := reg_operand i 1 in
   let '(ctx, v) := get_register ctx src in
   let? r := f v in Ok (set_register ctx dst r))
  = let? te := unary_effect f (rho ctx) i in apply_effect i te ctx.
Proof.
  intros Hd. unfold unary_effect, val_operand.
  destruct (reg_operand i 0) as [d|] eqn:E0; simpl; [|done].
  destruct (reg_operand i 1) as [r|] eqn:E1; simpl; [|done].
  rewrite get_register_touch. destruct (f _); simpl; [|done].
  unfold apply_effect. simpl.
  by rewrite (touched_one _ _ _ E1), (destination_register_reg _ _ _ Hd E0).
Qed.

Lemma exec_binary_effect f i ctx :
  ir_destination_operand_index (opcode i) = Some 0%nat ->
  exec_binary f i ctx
  = let? te := binary_effect (fun a b => f a b (opcode i)) (rho ctx) i in apply_effect i te ctx.
Proof.
  intros Hd. unfold exec_binary, binary_effect, val_operand.
  destruct (reg_operand i 0) as [d|] eqn:E0; simpl; [|done].
  destruct (reg_operand i 1) as [r|] eqn:E1; simpl; [|done].
  destruct (reg_operand i 2) as [r2|] eqn:E2; simpl; [|done].
  rewrite get_register_touch, get_register_touch. simpl. rewrite rd_touch.
  destruct (f _ _ _); simpl; [|done].
  unfold apply_effect. simpl.
  by rewrite (touched_cons _ _ _ _ E1), (touched_one _ _ _ E2), (destination_register_reg _ _ _ Hd E0).
Qed.

Lemma exec_logical_effect i ctx :
  ir_destination_operand_index (opcode i) = Some 0%nat ->
  exec_logical i ctx = let? te := logical_effect (rho ctx) i in apply_effect i te ctx.
Proof.
  intros Hd. unfold exec_logical, logical_effect, val_operand.
  destruct (reg_operand i 0) as [d|] eqn:E0; simpl; [|done].
  destruct (reg_operand i 1) as [r|] eqn:E1; simpl; [|done].
  destruct (reg_operand i 2) as [r2|] eqn:E2; simpl; [|done].
  rewrite get_register_touch. destruct (Bool.eqb _ _); [rewrite get_register_touch|]; simpl;
    unfold apply_effect; simpl;
    rewrite ?(touched_cons _ _ _ _ E1), ?(touched_one _ _ _ E2), (destination_register_reg _ _ _ Hd E0);
    [by rewrite rd_touch|done].
Qed.

Lemma exec_type_test_effect i ctx :
  ir_destination_operand_index (opcode i) = Some 0%nat ->
  exec_type_test i ctx = let? te := type_test_effect (rho ctx) i in apply_effect i te ctx.
Proof.
  intros Hd. unfold exec_type_test, type_test_effect, val_operand.
  destruct (reg_operand i 0) as [d|] eqn:E0; simpl; [|done].
  destruct (reg_operand i 1) as [r|] eqn:E1; simpl; [|done].
  destruct (imm_operand i 2) as [m|] eqn:E2; simpl; [|done].
  rewrite get_register_touch. unfold apply_effect. simpl.
  by rewrite (touched_one _ _ _ E1), (destination_register_reg _ _ _ Hd E0).
Qed.

Lemma exec_load_effect i ctx :
  ir_destination_operand_index (opcode i) = Some 0%nat ->
  exec_load program i ctx
  = let? te := (let? _ := reg_operand i 0 in let? v := load_value i in Ok ([], E_write v)) in
    apply_effect i te ctx.
Proof.
  intros Hd. unfold exec_load, load_value.
  destruct (reg_operand i 0) as [d|] eqn:E0; simpl; [|done].
  pose proof (destination_register_reg _ _ _ Hd E0) as Hr.
  assert (forall v, Ok (set_register ctx d v) = apply_effect i ([], E_write v) ctx) as Ha.
  { intros v. unfold apply_effect. simpl. by rewrite Hr, with_registers_id. }
  destruct (opcode i); simpl; rewrite ?Ha;
    try (destruct (imm_operand i 1); simpl; rewrite ?Ha; [|done]);
    try (destruct (float_operand i 1); simpl; rewrite ?Ha; [|done]); try done;
    (destruct (_ || _); [done|]); destruct (nth_ub _ _); simpl; rewrite ?Ha; done.
Qed.

Lemma exec_branch_effect i ctx :
  exec_branch program i ctx = let? te := branch_effect (rho ctx) i in apply_effect i te ctx.
Proof.
  unfold exec_branch, branch_effect, val_operand.
  destruct (reg_operand i 0) as [r|] eqn:E0; simpl; [|done]. rewrite get_register_touch.
  destruct (Bool.eqb _ _); [destruct (label_text program i 1); simpl; [|done]|];
    unfold apply_effect; simpl; by rewrite (touched_one _ _ _ E0).
Qed.

Lemma exec_fused_effect i ctx :
  exec_fused_branch program i ctx = let? te := fused_effect (rho ctx) i in apply_effect i te ctx.
Proof.
  unfold exec_fused_branch, fused_effect, val_operand.
  destruct (reg_operand i 0) as [r|] eqn:E0; simpl; [|done].
  destruct (reg_operand i 1) as [r2|] eqn:E1; simpl; [|done].
  rewrite get_register_touch, get_register_touch. simpl. rewrite rd_touch.
  destruct (fused_branch_taken _ _ _) as [[]|]; simpl; [| |done];
    [destruct (label_text program i 2); simpl; [|done]|];
    unfold apply_effect; simpl; by rewrite (touched_cons _ _ _ _ E0), (touched_one _ _ _ E1).
Qed.

Lemma exec_switch_effect i ctx :
  exec_switch program i ctx = let? te := switch_effect (rho ctx) i in apply_effect i te ctx.
Proof.
  unfold exec_switch, switch_effect, val_operand.
  destruct (reg_operand i 0) as [r|] eqn:E0; simpl; [|done]. rewrite get_register_touch.
  destruct (rd _ r); simpl; try (unfold apply_effect; simpl; by rewrite (touched_one _ _ _ E0)).
  destruct (imm_operand i 1); simpl; [|done]. destruct (imm_operand i 2); simpl; [|done].
  destruct (_ <? _); [unfold apply_effect; simpl; by rewrite (touched_one _ _ _ E0)|].
  destruct (checked _); simpl; [|done].
  destruct (_ <=? _); [unfold apply_effect; simpl; by rewrite (touched_one _ _ _ E0)|].
  destruct (checked _); simpl; [|done]. destruct (label_text _ _ _); simpl; [|done].
  unfold apply_effect; simpl; by rewrite (touched_one _ _ _ E0).
Qed.

Lemma exec_global_call_effect func i ctx :
  ir_destination_operand_index (opcode i) = Some 0%nat ->
  exec_global_call func i ctx
  = let? te := global_call_effect func (rho ctx) i in apply_effect i te ctx.
Proof.
  intros Hd. unfold exec_global_call, global_call_effect.
  destruct (reg_operand i 0) as [d|] eqn:E0; simpl; [|done].
  destruct (imm_operand i 1); simpl; [|done]. destruct (imm_operand i 3) as [n|]; simpl; [|done].
  destruct (_ <? 0); [done|]. rewrite arg_operands_values.
  destruct (arg_operands _ _ _) as [rs|] eqn:Er; simpl; [|done].
  rewrite get_registers_touch. destruct (global_call_value _ _ _); simpl; [|done].
  unfold apply_effect. simpl.
  by rewrite (arg_operands_touched _ _ _ _ Er), (destination_register_reg _ _ _ Hd E0).
Qed.

Lemma exec_load_global_effect i ctx s :
  ir_destination_operand_index (opcode i) = Some 0%nat ->
  exec_load_global i ctx s
  = (let* te := load_global_effect i in mlift (apply_effect i te ctx)) s.
Proof.
  intros Hd. unfold exec_load_global, load_global_effect, mbind, mlift, mget, mret.
  destruct (reg_operand i 0) as [d|] eqn:E0; [|done]. destruct (imm_operand i 1); [|done].
  destruct (_ || _); [done|]. destruct (nth_ub _ _); [|done].
  unfold apply_effect. simpl. by rewrite (destination_register_reg _ _ _ Hd E0), with_registers_id.
Qed.

Lemma exec_store_global_effect i ctx s :
  exec_store_global i ctx s
  = (let* te := store_global_effect (rho ctx) i in mlift (apply_effect i te ctx)) s.
Proof.
  unfold exec_store_global, store_global_effect, val_operand, mbind, mlift, mget, mret, mmodify.
  destruct (imm_operand i 0); [|done]. destruct (reg_operand i 1) as [r|] eqn:E1; simpl; [|done].
  destruct (_ || _); [done|]. rewrite get_register_touch. unfold apply_effect. simpl.
  by rewrite (touched_one _ _ _ E1).
Qed.

Lemma exec_call_effect i ctx s :
  ir_destination_operand_index (opcode i) = Some 1%nat ->
  exec_call program call_rec i ctx s
  = (let* te := call_effect (rho ctx) i in mlift (apply_effect i te ctx)) s.
Proof.
  intros Hd. unfold exec_call, call_effect, mbind, mlift, mret.
  destruct (label_text program i 0) as [name|]; [|done].
  destruct (reg_operand i 1) as [d|] eqn:E1; [|done].
  destruct (imm_operand i 2) as [n|]; [|done]. rewrite arg_operands_values.
  destruct (arg_operands _ _ _) as [rs|] eqn:Er; simpl; [|done]. rewrite get_registers_touch.
  destruct (m_function_map program !! name); [|done].
  destruct (call_rec _ _ _) as [s' [v|e]]; [|done]. unfold apply_effect. simpl.
  by rewrite (arg_operands_touched _ _ _ _ Er), (destination_register_reg _ _ _ Hd E1).
Qed.

Lemma mlift_bind {A} (o : outcome A) (k : A -> outcome ExecutionContext) (s : Interp) :
  (mlift (let? a := o in k a)) s = (let* a := mlift o in mlift (k a)) s.
Proof. unfold mbind, mlift. by destruct o. Qed.

Lemma exec_convert_effect i ctx :
  ir_destination_operand_index (opcode i) = Some 0%nat ->
  exec_convert i ctx = let? te := unary_effect (convert_value i) (rho ctx) i in apply_effect i te ctx.
Proof.
  intros Hd. rewrite <- exec_unary_effect by done. unfold exec_convert, convert_value.
  destruct (reg_operand i 0); cbn [obind]; [|done]. destruct (reg_operand i 1); cbn [obind]; [|done].
  destruct (get_register ctx _) as [ctx' v].
  destruct (type_hint i =? Variant.FLOAT); [done|].
  destruct (type_hint i =? Variant.INT); [by destruct (get_int v)|].
  by destruct (_ && _).
Qed.

Lemma exec_host_only_throws func i : exists e, exec_host_only func i = Throw e.
Proof. unfold exec_host_only. destruct (opcode i); by eexists. Qed.

(** [execute_instruction] computes an effect and applies it. *)
Lemma execute_effect func i ctx s :
  execute_instruction program call_rec func i ctx s
  = (let* te := effect_of func (rho ctx) i in mlift (apply_effect i te ctx)) s.
Proof.
  unfold execute_instruction, effect_of. destruct (opcode i) eqn:Eop;
    try (assert (ir_destination_operand_index (opcode i) = Some 0%nat) as Hd by (by rewrite Eop));
    first
    [ rewrite exec_load_effect by done; apply mlift_bind
    | unfold mlift; rewrite exec_binary_effect by done; rewrite Eop; apply mlift_bind
    | unfold mlift; rewrite exec_logical_effect by done; apply mlift_bind
    | unfold mlift; rewrite exec_type_test_effect by done; apply mlift_bind
    | unfold mlift; rewrite exec_branch_effect; apply mlift_bind
    | unfold mlift; rewrite exec_fused_effect; apply mlift_bind
    | unfold mlift; rewrite exec_switch_effect; apply mlift_bind
    | unfold mlift; rewrite exec_global_call_effect by done; apply mlift_bind
    | by apply exec_load_global_effect
    | apply exec_store_global_effect
    | apply exec_call_effect; by rewrite Eop
    | unfold mlift; rewrite exec_convert_effect by done; apply mlift_bind
    | rewrite <- mlift_bind, <- exec_unary_effect by done; done
    | rewrite <- mlift_bind, <- exec_unary_effect by done; unfold exec_unary; by rewrite Eop
    | unfold mbind, mlift, mret, apply_effect; simpl; by rewrite with_registers_id
    | rewrite <- mlift_bind; unfold apply_effect, mlift; simpl;
      destruct (label_text program i 0); simpl; by rewrite ?with_registers_id
    | unfold mlift, mbind; by destruct (exec_host_only_throws func i) as [? ->] ].
Qed.

(** ** Congruence *)

Definition same_operand (f g : Z -> Value) (reads : bool) (a b : IRValue) : Prop :=
  match a, b with
  | IRValue.REGISTER r, IRValue.REGISTER r' => reads = true -> f r = g r'
  | IRValue.REGISTER _, _ | _, IRValue.REGISTER _ => False
  | _, _ => a = b
  end.

Definition same_slot (f g : Z -> Value) (reads : bool) (a b : option IRValue) : Prop :=
  match a, b with
  | Some a, Some b => same_operand f g reads a b
  | None, None => True
  | _, _ => False
  end.

(** Same opcode, same hint, same operands up to the registers' numbers, and the
    registers read hold the same values. *)
Record same_view (f : Z -> Value) (i : IRInstruction) (g : Z -> Value) (i' : IRInstruction) : Prop := {
  sv_opcode : opcode i = opcode i';
  sv_hint : type_hint i = type_hint i';
  sv_operands : forall n,
    same_slot f g (negb (bool_decide (operand_kind i n = IROperandKind.DST))) (operands i !! n) (operands i' !! n)
}.

Section Congruence.
Context {f g : Z -> Value} {i i' : IRInstruction} (Hv : same_view f i g i').

Lemma imm_operand_congr n : imm_operand i n = imm_operand i' n.
Proof.
  unfold imm_operand, operand_ub. pose proof (sv_operands _ _ _ _ Hv n) as Hn.
  destruct (operands i !! n) as [[]|], (operands i' !! n) as [[]|]; simpl in *; try done; by simplify_eq.
Qed.

Lemma float_operand_congr n : float_operand i n = float_operand i' n.
Proof.
  unfold float_operand, operand_ub. pose proof (sv_operands _ _ _ _ Hv n) as Hn.
  destruct (operands i !! n) as [[]|], (operands i' !! n) as [[]|]; simpl in *; try done; by simplify_eq.
Qed.

Lemma label_text_congr n : label_text program i n = label_text program i' n.
Proof.
  unfold label_text, operand_ub. pose proof (sv_operands _ _ _ _ Hv n) as Hn.
  destruct (operands i !! n) as [[]|], (operands i' !! n) as [[]|]; simpl in *; try done; by simplify_eq.
Qed.

Lemma reg_operand_congr {A} n (k : outcome A) :
  (let? _ := reg_operand i n in k) = (let? _ := reg_operand i' n in k).
Proof.
  unfold reg_operand, operand_ub. pose proof (sv_operands _ _ _ _ Hv n) as Hn.
  destruct (operands i !! n) as [[]|], (operands i' !! n) as [[]|]; simpl in *; try done; by simplify_eq.
Qed.

Lemma val_operand_congr n :
  operand_kind i n <> IROperandKind.DST -> val_operand f i n = val_operand g i' n.
Proof.
  intros Hk. unfold val_operand, reg_operand, operand_ub. pose proof (sv_operands _ _ _ _ Hv n) as Hn.
  rewrite bool_decide_eq_false_2 in Hn by done.
  destruct (operands i !! n) as [[]|], (operands i' !! n) as [[]|]; simpl in *; try done;
    simplify_eq; f_equal; auto.
Qed.

Lemma arg_values_congr first count :
  (forall n, (first <= n)%nat -> operand_kind i n <> IROperandKind.DST) ->
  arg_values f i first count = arg_values g i' first count.
Proof.
  intros Hk. unfold arg_values.
  assert (Forall (fun n => (first <= n)%nat) (seq first count)) as Hall.
  { apply Forall_forall. intros n Hn%elem_of_seq. lia. }
  revert Hall. generalize (seq first count) as ns. induction ns as [|n ns IH]; intros Hall; [done|].
  inversion Hall; subst. simpl. rewrite val_operand_congr by auto. by rewrite IH.
Qed.

Lemma reg_operand_same n :
  match reg_operand i n, reg_operand i' n with
  | Ok _, Ok _ => True
  | Throw e, Throw e' => e = e'
  | _, _ => False
  end.
Proof.
  unfold reg_operand, operand_ub. pose proof (sv_operands _ _ _ _ Hv n) as Hn.
  destruct (operands i !! n) as [[]|], (operands i' !! n) as [[]|]; simpl in *; try done; by simplify_eq.
Qed.

Lemma mlift_reg_operand_congr {A St} n (k : M St A) s :
  (let* _ := mlift (reg_operand i n) in k) s = (let* _ := mlift (reg_operand i' n) in k) s.
Proof.
  unfold mbind, mlift, reg_operand, operand_ub. pose proof (sv_operands _ _ _ _ Hv n) as Hn.
  destruct (operands i !! n) as [[]|], (operands i' !! n) as [[]|]; simpl in *; try done; by simplify_eq.
Qed.

End Congruence.

Ltac kind_goal Eop := unfold operand_kind; rewrite Eop; by vm_compute.

Lemma unary_effect_congr F f i g i' :
  same_view f i g i' -> operand_kind i 1 <> IROperandKind.DST ->
  unary_effect F f i = unary_effect F g i'.
Proof.
  intros Hv Hk. unfold unary_effect. rewrite (reg_operand_congr Hv).
  by rewrite (val_operand_congr Hv 1 Hk).
Qed.

Lemma binary_effect_congr F f i g i' :
  same_view f i g i' -> operand_kind i 1 <> IROperandKind.DST -> operand_kind i 2 <> IROperandKind.DST ->
  binary_effect F f i = binary_effect F g i'.
Proof.
  intros Hv Hk Hk2. unfold binary_effect. rewrite (reg_operand_congr Hv).
  by rewrite (val_operand_congr Hv 1 Hk), (val_operand_congr Hv 2 Hk2).
Qed.

Lemma logical_effect_congr f i g i' :
  same_view f i g i' -> operand_kind i 1 <> IROperandKind.DST -> operand_kind i 2 <> IROperandKind.DST ->
  logical_effect f i = logical_effect g i'.
Proof.
  intros Hv Hk Hk2. unfold logical_effect. rewrite (reg_operand_congr Hv).
  by rewrite (val_operand_congr Hv 1 Hk), (val_operand_congr Hv 2 Hk2), (sv_opcode _ _ _ _ Hv).
Qed.

Lemma type_test_effect_congr f i g i' :
  same_view f i g i' -> operand_kind i 1 <> IROperandKind.DST ->
  type_test_effect f i = type_test_effect g i'.
Proof.
  intros Hv Hk. unfold type_test_effect. rewrite (reg_operand_congr Hv).
  by rewrite (val_operand_congr Hv 1 Hk), (imm_operand_congr Hv), (sv_opcode _ _ _ _ Hv).
Qed.

Lemma branch_effect_congr f i g i' :
  same_view f i g i' -> operand_kind i 0 <> IROperandKind.DST ->
  branch_effect f i = branch_effect g i'.
Proof.
  intros Hv Hk. unfold branch_effect.
  by rewrite (val_operand_congr Hv 0 Hk), (label_text_congr Hv), (sv_opcode _ _ _ _ Hv).
Qed.

Lemma fused_effect_congr f i g i' :
  same_view f i g i' -> operand_kind i 0 <> IROperandKind.DST -> operand_kind i 1 <> IROperandKind.DST ->
  fused_effect f i = fused_effect g i'.
Proof.
  intros Hv Hk Hk1. unfold fused_effect.
  by rewrite (val_operand_congr Hv 0 Hk), (val_operand_congr Hv 1 Hk1), (label_text_congr Hv),
    (sv_opcode _ _ _ _ Hv).
Qed.

Lemma switch_effect_congr f i g i' :
  same_view f i g i' -> operand_kind i 0 <> IROperandKind.DST ->
  switch_effect f i = switch_effect g i'.
Proof.
  intros Hv Hk. unfold switch_effect. rewrite (val_operand_congr Hv 0 Hk).
  destruct (val_operand g i' 0) as [[]|]; cbn [obind]; try done.
  rewrite !(imm_operand_congr Hv).
  destruct (imm_operand i' 1); cbn [obind]; [|done]. destruct (imm_operand i' 2); cbn [obind]; [|done].
  destruct (_ <? _); [done|]. destruct (checked _); cbn [obind]; [|done].
  destruct (_ <=? _); [done|]. destruct (checked _); cbn [obind]; [|done].
  by rewrite (label_text_congr Hv).
Qed.

Lemma host_only_congr func func' i i' :
  fn_name func = fn_name func' -> opcode i = opcode i' -> exec_host_only func i = exec_host_only func' i'.
Proof. intros Hn Ho. unfold exec_host_only, in_function. by rewrite Hn, Ho. Qed.

Lemma load_value_congr f i g i' : same_view f i g i' -> load_value i = load_value i'.
Proof.
  intros Hv. unfold load_value.
  by rewrite (sv_opcode _ _ _ _ Hv), (imm_operand_congr Hv), (float_operand_congr Hv).
Qed.

Lemma global_call_value_congr func func' n args :
  fn_name func = fn_name func' -> global_call_value func n args = global_call_value func' n args.
Proof. intros Hn. unfold global_call_value, in_function. by rewrite Hn. Qed.

Lemma kind_at_list ks n : is_variadic (SIG ks) = true -> (length ks <= S n)%nat ->
  kind_at (SIG ks) n = nth (length ks - 1) ks IROperandKind.NONE.
Proof.
  intros Hvar Hn. unfold kind_at, fixed_count, sig_count. rewrite Hvar. simpl.
  destruct (Nat.ltb_spec n (length ks - 1)); [lia|done].
Qed.

Lemma load_global_effect_congr f i g i' s :
  same_view f i g i' -> load_global_effect i s = load_global_effect i' s.
Proof.
  intros Hv. unfold load_global_effect. rewrite (mlift_reg_operand_congr Hv).
  by rewrite (imm_operand_congr Hv).
Qed.

Lemma store_global_effect_congr f i g i' s :
  same_view f i g i' -> operand_kind i 1 <> IROperandKind.DST ->
  store_global_effect f i s = store_global_effect g i' s.
Proof.
  intros Hv Hk. unfold store_global_effect.
  by rewrite (imm_operand_congr Hv), (val_operand_congr Hv 1 Hk).
Qed.

Lemma call_effect_congr f i g i' s :
  same_view f i g i' -> (forall n, (3 <= n)%nat -> operand_kind i n <> IROperandKind.DST) ->
  call_effect f i s = call_effect g i' s.
Proof.
  intros Hv Hk. unfold call_effect, mbind, mlift. rewrite (label_text_congr Hv).
  destruct (label_text program i' 0) as [name|]; [|done].
  pose proof (reg_operand_same Hv 1) as Hr.
  destruct (reg_operand i 1), (reg_operand i' 1); try done; [|congruence].
  rewrite (imm_operand_congr Hv). destruct (imm_operand i' 2) as [n|]; [|done].
  by rewrite (arg_values_congr Hv) by done.
Qed.

Lemma global_call_effect_congr func func' f i g i' :
  fn_name func = fn_name func' ->
  same_view f i g i' -> (forall n, (4 <= n)%nat -> operand_kind i n <> IROperandKind.DST) ->
  global_call_effect func f i = global_call_effect func' g i'.
Proof.
  intros Hn Hv Hk. unfold global_call_effect. rewrite (reg_operand_congr Hv).
  rewrite !(imm_operand_congr Hv). destruct (reg_operand i' 0); cbn [obind]; [|done].
  destruct (imm_operand i' 1); cbn [obind]; [|done]. destruct (imm_operand i' 3); cbn [obind]; [|done].
  destruct (_ <? 0); [done|]. rewrite (arg_values_congr Hv) by done.
  destruct (arg_values g i' _ _); cbn [obind]; [|done].
  by rewrite (global_call_value_congr func func') by done.
Qed.

Lemma list_kind_not_dst i n ks :
  info_signature (ir_opcode_info (opcode i)) = SIG ks -> is_variadic (SIG ks) = true ->
  (length ks <= S n)%nat -> nth (length ks - 1) ks IROperandKind.NONE <> IROperandKind.DST ->
  operand_kind i n <> IROperandKind.DST.
Proof. intros Hs Hvar Hlen Hk. unfold operand_kind. by rewrite Hs, kind_at_list. Qed.

(** Instructions of the same shape whose reads see the same values have the same
    effect. *)
Lemma effect_of_congr func func' f i g i' s :
  fn_name func = fn_name func' -> same_view f i g i' ->
  effect_of func f i s = effect_of func' g i' s.
Proof.
  intros Hn Hv. unfold effect_of. pose proof (sv_opcode _ _ _ _ Hv) as Ho.
  rewrite (host_only_congr func func' i i' Hn Ho), <- Ho.
  destruct (opcode i) eqn:Eop; try done;
    first
    [ by apply (load_global_effect_congr _ _ _ _ _ Hv)
    | apply (store_global_effect_congr _ _ _ _ _ Hv); kind_goal Eop
    | apply (call_effect_congr _ _ _ _ _ Hv); intros n Hle;
      eapply list_kind_not_dst; [by rewrite Eop|done|simpl; lia|done]
    | unfold mlift; f_equal; apply (global_call_effect_congr _ _ _ _ _ _ Hn Hv); intros n Hle;
      eapply list_kind_not_dst; [by rewrite Eop|done|simpl; lia|done]
    | unfold mlift; f_equal; rewrite (load_value_congr _ _ _ _ Hv); apply (reg_operand_congr Hv)
    | unfold mlift; f_equal; rewrite (unary_effect_congr _ _ _ _ _ Hv) by (kind_goal Eop); try done;
      unfold unary_effect, convert_value; by rewrite <- (sv_hint _ _ _ _ Hv), <- Ho, Eop
    | unfold mlift; f_equal; by apply (binary_effect_congr _ _ _ _ _ Hv); kind_goal Eop
    | unfold mlift; f_equal; by apply (logical_effect_congr _ _ _ _ Hv); kind_goal Eop
    | unfold mlift; f_equal; by apply (type_test_effect_congr _ _ _ _ Hv); kind_goal Eop
    | unfold mlift; f_equal; by apply (branch_effect_congr _ _ _ _ Hv); kind_goal Eop
    | unfold mlift; f_equal; by apply (fused_effect_congr _ _ _ _ Hv); kind_goal Eop
    | unfold mlift; f_equal; by apply (switch_effect_congr _ _ _ _ Hv); kind_goal Eop
    | unfold mlift; f_equal; by rewrite (label_text_congr Hv) ].
Qed.

End Body.
End Effects.
