(* ===== verification/Machine.v ===== *)
(** * Executions of a function body

    Facts about the interpreter's loop that the verifier's soundness and every
    optimizer pass share: where control goes after an instruction, which
    registers an instruction can change, the label map, lockstep and stuttering
    simulations between two bodies, and the lifting of a function-level
    equality to whole programs. *)

From S2P Require Import Prelude.
From S2P Require Import Double.
From S2P Require Import VariantTypes.
From S2P Require Import IROpcodes.
From S2P Require Import Globals.
From S2P Require Import IR.
From S2P Require Import Interpreter.
From S2P Require Import Effects.

(** What an exception-or-value pair of two runs must share. *)
Definition rel_out {St A B} (R : A -> B -> Prop) (x : St * outcome A) (y : St * outcome B) : Prop :=
  x.1 = y.1 /\
  match x.2, y.2 with
  | Ok a, Ok b => R a b
  | Throw e, Throw e' => e = e'
  | _, _ => False
  end.

Lemma rel_out_eq {St A} (x y : St * outcome A) : rel_out eq x y <-> x = y.
Proof.
  unfold rel_out. destruct x as [s [a|e]], y as [s' [a'|e']]; simpl; split; naive_solver.
Qed.

(** After the instruction: the loop advances unless it jumped or returned. *)
Definition advance (ctx ctx' : ExecutionContext) : ExecutionContext :=
  if negb (returned ctx') && (pc ctx' =? pc ctx)%nat then with_pc ctx' (S (pc ctx')) else ctx'.

(** A context at the start of a call. *)
Definition fresh_context (regs : gmap Z Value) : ExecutionContext := mkContext regs ∅ 0 false VNil.

(** The label a LABEL instruction defines. *)
Definition label_id (i : IRInstruction) : option Z :=
  match opcode i, operands i with
  | IROpcode.LABEL, IRValue.LABEL id :: _ => Some id
  | _, _ => None
  end.

Section Machine.
Context `{Libm} (program : IRProgram).

Section Body.
Context (call_rec : string -> list Value -> M Interp Value).

Lemma step_effect func ctx s i :
  instructions func !! pc ctx = Some i ->
  step program call_rec func ctx s =
  match effect_of program call_rec func (rd (registers ctx)) i s with
  | (s', Ok te) => (s', let? ctx' := apply_effect i te ctx in Ok (advance ctx ctx'))
  | (s', Throw e) => (s', Throw e)
  end.
Proof.
  intros Hi. unfold step, mbind, mlift, nth_ub. rewrite Hi. simpl.
  rewrite execute_effect. unfold mbind, mlift.
  destruct (effect_of _ _ _ _ _ _) as [s' [te|e]]; [|done].
  by destruct (apply_effect i te ctx).
Qed.

Lemma running_lookup func ctx :
  running func ctx = true ->
  returned ctx = false /\ exists i, instructions func !! pc ctx = Some i.
Proof.
  unfold running. intros [Hlt Hr]%andb_prop. split; [by destruct (returned ctx)|].
  apply lookup_lt_is_Some. by apply Nat.ltb_lt.
Qed.

(** ** Lockstep simulation *)

Section Lockstep.
Context (func func' : IRFunction) (R : ExecutionContext -> ExecutionContext -> Prop).
Hypothesis same_running : forall c c', R c c' -> running func c = running func' c'.
Hypothesis same_step : forall c c' s, R c c' -> running func c = true ->
  rel_out R (step program call_rec func c s) (step program call_rec func' c' s).

Definition rel_loop (x y : (Interp * ExecutionContext) + (Interp * outcome ExecutionContext)) : Prop :=
  match x, y with
  | inl (s, c), inl (s', c') => s = s' /\ R c c'
  | inr a, inr b => rel_out R a b
  | _, _ => False
  end.

Lemma iter_lockstep n s c c' :
  R c c' ->
  rel_loop (iter_until (loop_step program call_rec func) n (s, c))
           (iter_until (loop_step program call_rec func') n (s, c')).
Proof.
  revert s c c'. induction n as [|n IH]; intros s c c' Hr; [done|]. cbn [iter_until].
  unfold loop_step at 1 3. rewrite <- (same_running _ _ Hr).
  destruct (running func c) eqn:Erun; [|done].
  pose proof (same_step _ _ s Hr Erun) as Hs.
  destruct (step _ _ func c s) as [s1 [c1|e1]], (step _ _ func' c' s) as [s2 [c2|e2]];
    destruct Hs as [Hst Hs]; simpl in *; try done; subst; by auto.
Qed.

Lemma run_body_lockstep steps s c c' :
  fn_name func = fn_name func' -> R c c' ->
  rel_out R (run_body program call_rec steps func c s) (run_body program call_rec steps func' c' s).
Proof.
  intros Hn Hr. unfold run_body. rewrite !iter_until_pos_nat.
  pose proof (iter_lockstep (Pos.to_nat steps) s c c' Hr) as Hi.
  destruct (iter_until _ _ (s, c)) as [[s1 c1]|[s1 [c1|e1]]],
    (iter_until _ _ (s, c')) as [[s2 c2]|[s2 [c2|e2]]]; simpl in Hi; try done;
    try (destruct Hi as [Hst Hi]; simpl in *; subst; done).
  destruct Hi as [-> Hi]. rewrite <- (same_running _ _ Hi), Hn. by destruct (running func c1).
Qed.

End Lockstep.

(** ** Labels *)

Lemma collect_labels_spec is_ k acc l t :
  collect_labels program is_ k acc !! l = Some t ->
  acc !! l = Some t \/
  exists i id, (k <= t)%nat /\ is_ !! (t - k)%nat = Some i /\ label_id i = Some id
    /\ IRStringTable.get (strings program) id = l.
Proof.
  revert k acc. induction is_ as [|i is_ IH]; intros k acc; simpl; [by left|].
  intros [Hacc|(j & id & Hle & Hj & Hid & Hl)]%IH.
  - destruct (opcode i) eqn:Eo; try (by left).
    destruct (operands i) as [|[] ?] eqn:Ops; try (by left).
    rewrite lookup_insert in Hacc. case_decide as Hd; [|by left]. simplify_eq. right.
    exists i, string_id. split; [done|]. rewrite Nat.sub_diag. split; [done|].
    unfold label_id. by rewrite Eo, Ops.
  - right. exists j, id. split; [lia|]. replace (t - k)%nat with (S (t - S k)) by lia. done.
Qed.

Lemma collect_labels_ext is1 is2 k acc :
  map label_id is1 = map label_id is2 ->
  collect_labels program is1 k acc = collect_labels program is2 k acc.
Proof.
  revert is2 k acc. induction is1 as [|i is1 IH]; intros [|j is2] k acc Heq; try done.
  simpl in *. injection Heq as Hij Heq. rewrite (IH is2) by done. f_equal.
  unfold label_id in Hij. destruct (opcode i), (opcode j); try done;
    destruct (operands i) as [|[] ?]; destruct (operands j) as [|[] ?]; simpl in *; try done; congruence.
Qed.

(** The label map of a call. *)
Definition function_labels (func : IRFunction) : gmap string nat :=
  collect_labels program (instructions func) 0 ∅.

Lemma function_labels_spec func l t :
  function_labels func !! l = Some t ->
  exists i id, instructions func !! t = Some i /\ label_id i = Some id
    /\ IRStringTable.get (strings program) id = l.
Proof.
  intros [Ha|(i & id & _ & Hi & Hid & Hl)]%collect_labels_spec; [done|].
  exists i, id. by rewrite Nat.sub_0_r in Hi.
Qed.

Lemma label_id_opcode i id : label_id i = Some id -> opcode i = IROpcode.LABEL.
Proof. unfold label_id. by destruct (opcode i). Qed.

(** ** Where control goes *)

(** A jump names one of the instruction's name operands. *)
Lemma label_text_Ok i n l :
  label_text program i n = Ok l ->
  exists v id, operands i !! n = Some v /\ IRValue.string_id_ub v = Ok id
    /\ IRStringTable.get (strings program) id = l.
Proof.
  unfold label_text, operand_ub. destruct (operands i !! n) as [v|]; simpl; [|done].
  destruct (IRValue.string_id_ub v) as [id|] eqn:E; simpl; [|done]. intros [= <-]. eauto.
Qed.

Definition falls_through (e : Effect) : Prop :=
  match e with E_none | E_write _ => True | _ => False end.

(** What an effect says about the opcode that had it. *)
Definition effect_shape (i : IRInstruction) (te : list nat * Effect) : Prop :=
  (forall n, n ∈ te.1 -> operand_kind i n <> IROperandKind.DST) /\
  match te.2 with
  | E_none => ir_has_effect (opcode i) IR_TERMINATOR = false
              /\ ir_destination_operand_index (opcode i) = None
  | E_write _ => ir_has_effect (opcode i) IR_TERMINATOR = false
                 /\ is_Some (ir_destination_register i)
  | E_jump l => (ir_has_effect (opcode i) IR_BRANCH = true \/ opcode i = IROpcode.JUMP)
                /\ ir_destination_operand_index (opcode i) = None
                /\ exists n, label_text program i n = Ok l
                     /\ (operand_kind i n = IROperandKind.LBL \/ operand_kind i n = IROperandKind.LBL_LIST)
  | E_return => opcode i = IROpcode.RETURN
  end.

Lemma seq_list_kind i k first n :
  (forall m, (first <= m)%nat -> operand_kind i m <> k) ->
  forall x, x ∈ seq first n -> operand_kind i x <> k.
Proof. intros Hk x [Hle _]%elem_of_seq. by apply Hk. Qed.

Ltac bind_inv H :=
  repeat match type of H with
  | obind ?o _ = Ok _ =>
      let a := fresh "a" in let E := fresh "E" in
      destruct o as [a|] eqn:E; cbn [obind] in H; [|discriminate H]
  | (if ?b then _ else _) = _ => destruct b eqn:?
  | Ok _ = Ok _ => injection H as H
  | Throw _ = Ok _ => discriminate H
  | optimizer_error _ = Ok _ => discriminate H
  end.

Lemma unary_effect_inv F f i te :
  unary_effect F f i = Ok te -> is_Ok (reg_operand i 0) /\ exists v, te = ([1%nat], E_write v).
Proof. unfold unary_effect. intros Hx. bind_inv Hx. subst. split; by eexists. Qed.

Lemma binary_effect_inv F f i te :
  binary_effect F f i = Ok te -> is_Ok (reg_operand i 0) /\ exists v, te = ([1%nat; 2%nat], E_write v).
Proof. unfold binary_effect. intros Hx. bind_inv Hx. subst. split; by eexists. Qed.

Lemma logical_effect_inv f i te :
  logical_effect f i = Ok te ->
  is_Ok (reg_operand i 0) /\ exists ns v, te = (ns, E_write v) /\ ns ⊆ [1%nat; 2%nat].
Proof.
  unfold logical_effect. intros Hx. bind_inv Hx; subst; (split; [by eexists|]); do 2 eexists;
    (split; [done|]); set_solver.
Qed.

Lemma type_test_effect_inv f i te :
  type_test_effect f i = Ok te -> is_Ok (reg_operand i 0) /\ exists v, te = ([1%nat], E_write v).
Proof. unfold type_test_effect. intros Hx. bind_inv Hx; subst; split; by eexists. Qed.

Lemma branch_effect_inv f i te :
  branch_effect program f i = Ok te ->
  te = ([0%nat], E_none) \/ exists l, te = ([0%nat], E_jump l) /\ label_text program i 1 = Ok l.
Proof. unfold branch_effect. intros Hx. bind_inv Hx; subst; eauto. Qed.

Lemma fused_effect_inv f i te :
  fused_effect program f i = Ok te ->
  te = ([0%nat; 1%nat], E_none) \/
  exists l, te = ([0%nat; 1%nat], E_jump l) /\ label_text program i 2 = Ok l.
Proof. unfold fused_effect. intros Hx. bind_inv Hx; subst; eauto. Qed.

Lemma switch_effect_inv f i te :
  switch_effect program f i = Ok te ->
  te = ([0%nat], E_none) \/
  exists l n, (3 <= n)%nat /\ te = ([0%nat], E_jump l) /\ label_text program i n = Ok l.
Proof.
  unfold switch_effect. intros Hx. bind_inv Hx.
  destruct a as [|z| | |]; bind_inv Hx; subst; eauto.
  right. exists a3, (3 + Z.to_nat a2)%nat. split; [lia|]. done.
Qed.

Lemma global_call_effect_inv func f i te :
  global_call_effect func f i = Ok te ->
  is_Ok (reg_operand i 0) /\ exists n v, te = (seq 4 n, E_write v).
Proof. unfold global_call_effect. intros Hx. bind_inv Hx. subst. split; [by eexists|]. eauto. Qed.

Lemma load_global_effect_inv i s s' te :
  load_global_effect i s = (s', Ok te) ->
  is_Ok (reg_operand i 0) /\ s' = s /\ exists v, te = ([], E_write v).
Proof.
  unfold load_global_effect, mbind, mlift, mget, mret.
  destruct (reg_operand i 0) as [d|]; [|done]. destruct (imm_operand i 1); [|done].
  destruct (_ || _); [done|]. destruct (nth_ub _ _); [|done]. intros [= <- <-].
  split; [by eexists|]. eauto.
Qed.

Lemma store_global_effect_inv f i s s' te :
  store_global_effect f i s = (s', Ok te) -> te = ([1%nat], E_none).
Proof.
  unfold store_global_effect, mbind, mlift, mget, mmodify, mret.
  destruct (imm_operand i 0); [|done]. destruct (val_operand f i 1); [|done].
  destruct (_ || _); [done|]. by intros [= <- <-].
Qed.

Lemma call_effect_inv f i s s' te :
  call_effect program call_rec f i s = (s', Ok te) ->
  is_Ok (reg_operand i 1) /\ exists n v, te = (seq 3 n, E_write v).
Proof.
  unfold call_effect, mbind, mlift, mret.
  destruct (label_text program i 0) as [name|]; [|done]. destruct (reg_operand i 1); [|done].
  destruct (imm_operand i 2); [|done]. destruct (arg_values _ _ _ _); [|done].
  destruct (m_function_map program !! name); [|done].
  destruct (call_rec _ _ _) as [? [v|]]; [|done]. intros [= <- <-].
  split; [by eexists|]. eauto.
Qed.

Lemma dst_is_Some i n :
  ir_destination_operand_index (opcode i) = Some n -> is_Ok (reg_operand i n) ->
  is_Some (ir_destination_register i).
Proof. intros Hd [r Hr]. exists r. by eapply destination_register_reg. Qed.

(** Closes a side goal on the table row of a known opcode. *)
Ltac table Eop := unfold operand_kind; rewrite Eop; by vm_compute.
Ltac index_goal Eop :=
  intros ?n Hn; simpl in Hn;
  repeat (apply elem_of_cons in Hn as [->|Hn]; [table Eop|]); by apply elem_of_nil in Hn.

Lemma write_shape i ns v n :
  ir_destination_operand_index (opcode i) = Some n -> ir_has_effect (opcode i) IR_TERMINATOR = false ->
  is_Ok (reg_operand i n) -> (forall m, m ∈ ns -> operand_kind i m <> IROperandKind.DST) ->
  effect_shape i (ns, E_write v).
Proof. intros Hd Ht Hr Hns. split; [done|]. split; [done|by eapply dst_is_Some]. Qed.

Lemma jump_shape i ns l n :
  ir_has_effect (opcode i) IR_BRANCH = true \/ opcode i = IROpcode.JUMP ->
  ir_destination_operand_index (opcode i) = None ->
  label_text program i n = Ok l ->
  operand_kind i n = IROperandKind.LBL \/ operand_kind i n = IROperandKind.LBL_LIST ->
  (forall m, m ∈ ns -> operand_kind i m <> IROperandKind.DST) ->
  effect_shape i (ns, E_jump l).
Proof. intros Hb Hd Hl Hk Hns. split; [done|]. split; [done|]. split; [done|eauto]. Qed.

Lemma none_shape i ns :
  ir_has_effect (opcode i) IR_TERMINATOR = false -> ir_destination_operand_index (opcode i) = None ->
  (forall m, m ∈ ns -> operand_kind i m <> IROperandKind.DST) -> effect_shape i (ns, E_none).
Proof. done. Qed.

Lemma load_effect_inv i te :
  (let? _ := reg_operand i 0 in let? v := load_value program i in Ok ([], E_write v)) = Ok te ->
  is_Ok (reg_operand i 0) /\ exists v, te = ([] : list nat, E_write v).
Proof. intros Hx. bind_inv Hx. subst. split; by eexists. Qed.

Lemma jump_effect_inv i te :
  (let? label := label_text program i 0 in Ok ([], E_jump label)) = Ok te ->
  exists l, te = ([] : list nat, E_jump l) /\ label_text program i 0 = Ok l.
Proof. intros Hx. bind_inv Hx. subst. by eexists. Qed.

Ltac list_index_goal Eop :=
  apply seq_list_kind; intros ? ?; eapply list_kind_not_dst; [by rewrite Eop|done|simpl; lia|done].
Ltac row Eop := rewrite Eop; by vm_compute.

Lemma effect_of_shape func f i s s' te :
  effect_of program call_rec func f i s = (s', Ok te) -> effect_shape i te.
Proof.
  unfold effect_of. destruct (opcode i) eqn:Eop; intros Hx;
    try (unfold mlift in Hx; destruct (exec_host_only_throws func i) as [? He]; rewrite He in Hx;
         discriminate Hx);
    try (apply (f_equal snd) in Hx as Hx'; cbn [snd mlift] in Hx');
    first
    [ injection Hx' as <-; split; [by intros ? ?%elem_of_nil|first [done|row Eop|split; row Eop]]
    | apply load_effect_inv in Hx' as [Hr [v ->]];
      eapply write_shape; [row Eop|row Eop|done|index_goal Eop]
    | apply unary_effect_inv in Hx' as [Hr [v ->]];
      eapply write_shape; [row Eop|row Eop|done|index_goal Eop]
    | apply type_test_effect_inv in Hx' as [Hr [v ->]];
      eapply write_shape; [row Eop|row Eop|done|index_goal Eop]
    | apply binary_effect_inv in Hx' as [Hr [v ->]];
      eapply write_shape; [row Eop|row Eop|done|index_goal Eop]
    | apply logical_effect_inv in Hx' as [Hr (ns & v & -> & Hns)];
      eapply write_shape; [row Eop|row Eop|done|intros m Hm%Hns; revert m Hm; index_goal Eop]
    | apply load_global_effect_inv in Hx as [Hr (_ & v & ->)];
      eapply write_shape; [row Eop|row Eop|done|index_goal Eop]
    | apply store_global_effect_inv in Hx as ->; apply none_shape; [row Eop|row Eop|index_goal Eop]
    | apply call_effect_inv in Hx as [Hr (n & v & ->)];
      eapply write_shape; [row Eop|row Eop|done|list_index_goal Eop]
    | apply global_call_effect_inv in Hx' as [Hr (n & v & ->)];
      eapply write_shape; [row Eop|row Eop|done|list_index_goal Eop]
    | apply jump_effect_inv in Hx' as (l & -> & Hl);
      eapply jump_shape; [by right|row Eop|done|left; table Eop|index_goal Eop]
    | apply branch_effect_inv in Hx' as [->|(l & -> & Hl)];
      [apply none_shape; [row Eop|row Eop|index_goal Eop]
      |eapply jump_shape; [left; row Eop|row Eop|done|left; table Eop|index_goal Eop]]
    | apply fused_effect_inv in Hx' as [->|(l & -> & Hl)];
      [apply none_shape; [row Eop|row Eop|index_goal Eop]
      |eapply jump_shape; [left; row Eop|row Eop|done|left; table Eop|index_goal Eop]]
    | apply switch_effect_inv in Hx' as [->|(l & n & Hge & -> & Hl)];
      [apply none_shape; [row Eop|row Eop|index_goal Eop]
      |eapply jump_shape; [left; row Eop|row Eop|done
        |right; unfold operand_kind; rewrite Eop;
          apply (kind_at_list [IROperandKind.SRC; IROperandKind.IMM; IROperandKind.CNT; IROperandKind.LBL_LIST] n);
          [done|simpl; lia]
        |index_goal Eop]] ].
Qed.

(** Touched registers are read registers. *)
Lemma touched_reads i te r :
  effect_shape i te -> r ∈ touched_registers i te.1 -> r ∈ ir_collect_read_registers i.
Proof.
  intros [Hns _] Hr. unfold touched_registers in Hr. apply list_elem_of_omap in Hr as (n & Hn & Hop).
  destruct (operands i !! n) as [[]|] eqn:E; simplify_eq.
  pose proof (lookup_lt_Some _ _ _ E) as Hlt.
  unfold ir_collect_read_registers, is_bare_return.
  destruct (Nat.eqb_spec (length (operands i)) 0); [lia|]. rewrite andb_false_r.
  apply list_elem_of_omap. exists n. split; [apply elem_of_seq; lia|].
  unfold ir_reads_operand. rewrite E, bool_decide_eq_false_2 by (by apply Hns). done.
Qed.

Lemma touch_lookup regs r x v : regs !! x = Some v -> touch regs r !! x = Some v.
Proof.
  unfold touch. intros Hx. destruct (regs !! r) eqn:E; [done|].
  rewrite lookup_insert_ne; [done|]. congruence.
Qed.

Lemma touch_all_lookup regs rs x v : regs !! x = Some v -> touch_all regs rs !! x = Some v.
Proof. revert regs. induction rs as [|r rs IH]; intros regs Hx; simpl; [done|]. by apply IH, touch_lookup. Qed.

Lemma touch_all_defined regs rs :
  (forall r, r ∈ rs -> is_Some (regs !! r)) -> touch_all regs rs = regs.
Proof.
  induction rs as [|r rs IH]; intros Hd; [done|]. simpl.
  assert (touch regs r = regs) as ->.
  { unfold touch. destruct (Hd r) as [v ->]; [set_solver|done]. }
  apply IH. set_solver.
Qed.

(** The registers after an instruction. *)
Definition effect_regs (i : IRInstruction) (te : list nat * Effect) (regs : gmap Z Value) : gmap Z Value :=
  let regs := touch_all regs (touched_registers i te.1) in
  match te.2, ir_destination_register i with
  | E_write v, Some r => <[r := v]> regs
  | _, _ => regs
  end.

(** Only the destination changes among the registers that exist. *)
Lemma effect_regs_frame i te regs r v :
  regs !! r = Some v -> ir_destination_register i <> Some r -> effect_regs i te regs !! r = Some v.
Proof.
  intros Hr Hd. unfold effect_regs.
  destruct (te.2), (ir_destination_register i); try (by apply touch_all_lookup).
  rewrite lookup_insert_ne by congruence. by apply touch_all_lookup.
Qed.

Definition next_of (func : IRFunction) (e : Effect) (ctx ctx' : ExecutionContext) : Prop :=
  match e with
  | E_none | E_write _ =>
      returned ctx' = false /\ pc ctx' = S (pc ctx) /\ return_value ctx' = return_value ctx
  | E_jump l => returned ctx' = false /\ function_labels func !! l = Some (pc ctx')
                /\ return_value ctx' = return_value ctx
  | E_return => returned ctx' = true
                /\ return_value ctx' = default (VInt 0) (registers ctx' !! RETURN_REGISTER)
  end.

(** What one step of a running body does. *)
Lemma step_inv func ctx s s' ctx' i :
  returned ctx = false -> labels ctx = function_labels func ->
  instructions func !! pc ctx = Some i ->
  step program call_rec func ctx s = (s', Ok ctx') ->
  exists te, effect_of program call_rec func (rd (registers ctx)) i s = (s', Ok te)
    /\ labels ctx' = labels ctx /\ registers ctx' = effect_regs i te (registers ctx)
    /\ next_of func te.2 ctx ctx'.
Proof.
  intros Hret Hlab Hi Hs. rewrite (step_effect _ _ _ _ Hi) in Hs.
  destruct (effect_of _ _ _ _ _ _) as [s1 [te|]] eqn:Ee; [|done].
  injection Hs as <- Hs. exists te. split; [done|].
  pose proof (effect_of_shape _ _ _ _ _ _ Ee) as [_ Hsh].
  destruct ctx as [regs lab p ret rv]. simpl in *. subst ret lab.
  unfold apply_effect, effect_regs in *. destruct te as [ns [|v|l|]]; simpl in *.
  - injection Hs as <-. unfold advance. simpl. rewrite Nat.eqb_refl. done.
  - destruct Hsh as [_ [r Hr]]. rewrite Hr in *. simpl in Hs. injection Hs as <-.
    unfold advance. simpl. rewrite Nat.eqb_refl. done.
  - unfold jump_to_label in Hs. simpl in Hs.
    destruct (function_labels func !! l) as [t|] eqn:El; [|done]. injection Hs as <-.
    unfold advance. simpl. destruct (Nat.eqb_spec t p) as [->|]; [|done].
    apply function_labels_spec in El as (j & id & Hj & Hid%label_id_opcode & _).
    destruct Hsh as [[Hb|Hb] _]; simplify_eq; rewrite Hid in Hb; done.
  - injection Hs as <-. unfold exec_return, advance. simpl.
    destruct (touch_all _ _ !! RETURN_REGISTER) eqn:E; simpl; by rewrite E.
Qed.

(** A lockstep simulation whose related contexts agree on the result makes two
    calls equal. *)
Lemma call_function_lockstep func func' (R : ExecutionContext -> ExecutionContext -> Prop) args s :
  fn_name func = fn_name func' ->
  (forall c c', R c c' -> running func c = running func' c') ->
  (forall c c' s, R c c' -> running func c = true ->
    rel_out R (step program call_rec func c s) (step program call_rec func' c' s)) ->
  (forall c c', R c c' -> returned c = returned c' /\ return_value c = return_value c') ->
  R (mkContext (argument_registers func args) (function_labels func) 0 false VNil)
    (mkContext (argument_registers func' args) (function_labels func') 0 false VNil) ->
  call_function program call_rec func args s = call_function program call_rec func' args s.
Proof.
  intros Hname Hrun Hstep Hres Hstart.
  unfold call_function, mbind, execute_function, mbind, mmodify, mget. rewrite <- Hname.
  destruct (_ <? _); [done|]. fold (function_labels func). fold (function_labels func').
  pose proof (run_body_lockstep func func' R Hrun Hstep MAX_STEPS
    (set_depth s (m_call_depth s + 1)) _ _ Hname Hstart) as [Hst Hout]. simpl in Hst, Hout |- *.
  destruct (run_body _ _ _ func _ _) as [s1 [c1|e1]], (run_body _ _ _ func' _ _) as [s2 [c2|e2]];
    simpl in *; subst; try done.
  destruct (Hres _ _ Hout) as [Hr Hv]. unfold mret. by rewrite Hr, Hv.
Qed.

(** ** Passes that rewrite instructions in place *)

Lemma apply_effect_regs i te ctx :
  apply_effect i te ctx =
  let ctx := with_registers ctx (effect_regs i te (registers ctx)) in
  match te.2 with
  | E_none | E_write _ => Ok ctx
  | E_jump l => jump_to_label i l ctx
  | E_return => Ok (exec_return ctx)
  end.
Proof.
  unfold apply_effect, effect_regs. destruct te as [ns [|v|l|]]; simpl; try done.
  by destruct (ir_destination_register i).
Qed.

(** The two instructions do the same to the registers and to control. *)
Definition same_effect (regs : gmap Z Value) (i i' : IRInstruction)
    (x y : Interp * outcome (list nat * Effect)) : Prop :=
  rel_out (fun te te' =>
    effect_regs i te regs = effect_regs i' te' regs /\ te.2 = te'.2
    /\ (falls_through te.2 \/ opcode i = opcode i')) x y.

Section InPlace.
Context (func func' : IRFunction) (Inv : nat -> gmap Z Value -> Prop).
Hypothesis same_name : fn_name func = fn_name func'.
Hypothesis same_length : length (instructions func) = length (instructions func').
Hypothesis same_labels : function_labels func = function_labels func'.
Hypothesis Inv_same : forall p i i' regs s,
  Inv p regs -> instructions func !! p = Some i -> instructions func' !! p = Some i' ->
  same_effect regs i i' (effect_of program call_rec func (rd regs) i s)
                        (effect_of program call_rec func' (rd regs) i' s).
Hypothesis Inv_next : forall p i regs s s' te,
  Inv p regs -> instructions func !! p = Some i ->
  effect_of program call_rec func (rd regs) i s = (s', Ok te) ->
  match te.2 with
  | E_none | E_write _ => Inv (S p) (effect_regs i te regs)
  | E_jump _ => forall t j, instructions func !! t = Some j -> opcode j = IROpcode.LABEL ->
                Inv t (effect_regs i te regs)
  | E_return => True
  end.

Definition same_context (c c' : ExecutionContext) : Prop :=
  c = c' /\ labels c = function_labels func /\ (returned c = false -> Inv (pc c) (registers c)).

Lemma in_place_step c s i i' :
  same_context c c -> returned c = false ->
  instructions func !! pc c = Some i -> instructions func' !! pc c = Some i' ->
  step program call_rec func c s = step program call_rec func' c s.
Proof.
  intros (_ & _ & HI) Hret Hi Hi'. specialize (HI Hret).
  rewrite (step_effect _ _ _ _ Hi), (step_effect _ _ _ _ Hi').
  pose proof (Inv_same _ _ _ _ s HI Hi Hi') as [Hst Hout].
  destruct (effect_of _ _ func _ i s) as [s1 [te|e]],
    (effect_of _ _ func' _ i' s) as [s2 [te'|e']]; simpl in Hst, Hout; try done; subst; [|done].
  destruct Hout as (Hregs & Hte & Ho). f_equal. rewrite !apply_effect_regs, <- Hregs, <- Hte.
  destruct (te.2); try done. destruct Ho as [[]|Ho]. unfold jump_to_label. by rewrite Ho.
Qed.

Lemma in_place_simulation c c' s :
  same_context c c' -> running func c = true ->
  rel_out same_context (step program call_rec func c s) (step program call_rec func' c' s).
Proof.
  intros Hsc Hrun. destruct (running_lookup _ _ Hrun) as [Hret [i Hi]].
  assert (c' = c) as -> by (by destruct Hsc as [-> _]).
  destruct (lookup_lt_is_Some_2 (instructions func') (pc c)) as [i' Hi'].
  { rewrite <- same_length. by eapply lookup_lt_Some. }
  rewrite <- (in_place_step c s i i') by done.
  destruct (step program call_rec func c s) as [s1 [c1|e1]] eqn:Es; [|done].
  split; [done|]. simpl. destruct Hsc as (_ & Hlab & HI). split; [done|].
  destruct (step_inv _ _ _ _ _ _ Hret Hlab Hi Es) as (te & Ee & Hl1 & Hr1 & Hn).
  split; [congruence|]. intros Hret1.
  pose proof (Inv_next _ _ _ _ _ _ (HI Hret) Hi Ee) as Hnext. rewrite Hr1.
  destruct (te.2) as [|v|l|]; simpl in Hn.
  - destruct Hn as (_ & -> & _). done.
  - destruct Hn as (_ & -> & _). done.
  - destruct Hn as (_ & Ht & _).
    apply function_labels_spec in Ht as (j & id & Hj & Hid%label_id_opcode & _). by eapply Hnext.
  - destruct Hn as [? _]. congruence.
Qed.

(** A pass whose rewriting is justified by an invariant does not change what a
    call does. *)
Lemma in_place_correct regs s :
  Inv 0 regs ->
  execute_function program call_rec func (fresh_context regs) s
  = execute_function program call_rec func' (fresh_context regs) s.
Proof.
  intros HI. unfold execute_function, mbind, mmodify, mget. rewrite <- same_name.
  destruct (_ <? _); [done|]. apply rel_out_eq. simpl.
  fold (function_labels func) (function_labels func'). rewrite <- same_labels.
  pose proof (run_body_lockstep func func' same_context) as Hsim.
  specialize (Hsim ltac:(intros ? ? (<- & _); unfold running; by rewrite same_length)).
  specialize (Hsim in_place_simulation MAX_STEPS (set_depth s (m_call_depth s + 1))).
  specialize (Hsim (mkContext regs (function_labels func) 0 false VNil)
    (mkContext regs (function_labels func) 0 false VNil) same_name).
  destruct Hsim as [Hst Hout]; [done|]. split; [done|].
  destruct (run_body _ _ _ _ _ _) as [? [?|?]], (run_body _ _ _ _ _ _) as [? [?|?]]; simpl in *; try done.
  by destruct Hout as [-> _].
Qed.

End InPlace.

End Body.
End Machine.
