(* ===== verification/InterpreterFacts.v ===== *)
(** * Calls of the interpreter

    The model closes the recursion of [call] with a budget of [CALL_FUEL]
    frames.  This file shows that the depth limit of the source makes that
    budget invisible: [call] satisfies the equation of the source's recursion,
    and [OutOfFuel] is never an answer.  It also shows what [m_call_depth] does
    across calls, and that an exception leaves it incremented. *)

From S2P Require Import Prelude.
From S2P Require Import Double.
From S2P Require Import VariantTypes.
From S2P Require Import IROpcodes.
From S2P Require Import Globals.
From S2P Require Import IR.
From S2P Require Import Interpreter.
From S2P Require Import Effects.
From S2P Require Import Machine.
From S2P Require Import Samples.

Section Calls.
Context `{Libm} (program : IRProgram).

Abbreviation Callee := (string -> list Value -> M Interp Value).

(** A callee that returns leaves the call depth as it found it. *)
Definition keeps_depth (rec : Callee) (D : Z) : Prop :=
  forall name args s s' v, m_call_depth s = D -> rec name args s = (s', Ok v) -> m_call_depth s' = D.

(** Two callees that agree at call depth [D]. *)
Definition agree_at (rec1 rec2 : Callee) (D : Z) : Prop :=
  forall name args s, m_call_depth s = D -> rec1 name args s = rec2 name args s.

(** ** One instruction *)

Lemma effect_of_agree rec1 rec2 D func f i s :
  agree_at rec1 rec2 D -> m_call_depth s = D ->
  effect_of program rec1 func f i s = effect_of program rec2 func f i s.
Proof.
  intros Ha Hs. unfold effect_of. destruct (opcode i); try done.
  unfold call_effect, mbind, mlift.
  destruct (label_text program i 0) as [name|]; [|done]. destruct (reg_operand i 1); [|done].
  destruct (imm_operand i 2); [|done]. destruct (arg_values _ _ _ _) as [args|]; [|done].
  destruct (m_function_map program !! name); [|done]. by rewrite (Ha name args s Hs).
Qed.

Lemma effect_of_depth rec D func f i s s' te :
  keeps_depth rec D -> m_call_depth s = D ->
  effect_of program rec func f i s = (s', Ok te) -> m_call_depth s' = D.
Proof.
  intros Hk Hs He. unfold effect_of in He. destruct (opcode i);
    try (unfold mlift, mret in He; by simplify_eq).
  - unfold load_global_effect, mbind, mlift, mget, mret in He.
    destruct (reg_operand i 0); [|done]. destruct (imm_operand i 1); [|done].
    destruct (_ || _); [done|]. destruct (nth_ub _ _); by simplify_eq.
  - unfold store_global_effect, mbind, mlift, mget, mmodify, mret in He.
    destruct (imm_operand i 0); [|done]. destruct (val_operand f i 1); [|done].
    destruct (_ || _); by simplify_eq.
  - unfold call_effect, mbind, mlift, mret in He.
    destruct (label_text program i 0) as [name|]; [|done]. destruct (reg_operand i 1); [|done].
    destruct (imm_operand i 2); [|done]. destruct (arg_values _ _ _ _) as [args|]; [|done].
    destruct (m_function_map program !! name); [|done].
    destruct (rec name args s) as [s1 [v|]] eqn:Er; [|done]. simplify_eq. by eapply Hk.
Qed.

(** ** One body *)

Lemma step_agree rec1 rec2 D func c s :
  agree_at rec1 rec2 D -> m_call_depth s = D -> running func c = true ->
  step program rec1 func c s = step program rec2 func c s.
Proof.
  intros Ha Hs Hrun. destruct (running_lookup _ _ Hrun) as [_ [i Hi]].
  rewrite !(step_effect _ _ _ _ _ _ Hi). by rewrite (effect_of_agree rec1 rec2 D).
Qed.

Lemma step_depth rec D func c s s' c' :
  keeps_depth rec D -> m_call_depth s = D -> running func c = true ->
  step program rec func c s = (s', Ok c') -> m_call_depth s' = D.
Proof.
  intros Hk Hs Hrun Hst. destruct (running_lookup _ _ Hrun) as [_ [i Hi]].
  rewrite (step_effect _ _ _ _ _ _ Hi) in Hst.
  destruct (effect_of _ _ _ _ _ _) as [s1 [te|]] eqn:Ee; [|done]. simplify_eq/=. by eapply effect_of_depth.
Qed.

Lemma loop_agree rec1 rec2 D func n s c :
  agree_at rec1 rec2 D -> keeps_depth rec1 D -> m_call_depth s = D ->
  iter_until (loop_step program rec1 func) n (s, c) = iter_until (loop_step program rec2 func) n (s, c)
  /\ match iter_until (loop_step program rec1 func) n (s, c) with
     | inl (s', _) | inr (s', Ok _) => m_call_depth s' = D
     | inr (_, Throw _) => True
     end.
Proof.
  intros Ha Hk. revert s c. induction n as [|n IH]; intros s c Hs; simpl; [done|].
  destruct (running func c) eqn:Hrun; [|done].
  rewrite <- (step_agree rec1 rec2 D) by done.
  destruct (step program rec1 func c s) as [s' [c'|e]] eqn:Est; [|done].
  apply IH. by eapply step_depth.
Qed.

Lemma run_body_agree rec1 rec2 D steps func s c :
  agree_at rec1 rec2 D -> keeps_depth rec1 D -> m_call_depth s = D ->
  run_body program rec1 steps func c s = run_body program rec2 steps func c s
  /\ match run_body program rec1 steps func c s with
     | (s', Ok _) => m_call_depth s' = D - 1
     | (_, Throw _) => True
     end.
Proof.
  intros Ha Hk Hs. unfold run_body. rewrite !iter_until_pos_nat.
  destruct (loop_agree rec1 rec2 D func (Pos.to_nat steps) s c Ha Hk Hs) as [<- Hd].
  split; [done|]. destruct (iter_until _ _ _) as [[s' c']|[s' [c'|e]]]; [|simpl; lia|done].
  destruct (running func c'); simpl; [done|lia].
Qed.

(** A call runs its body one frame deeper and comes back. *)
Lemma call_function_agree rec1 rec2 func args s :
  (m_call_depth s + 1 <= MAX_CALL_DEPTH ->
     agree_at rec1 rec2 (m_call_depth s + 1) /\ keeps_depth rec1 (m_call_depth s + 1)) ->
  call_function program rec1 func args s = call_function program rec2 func args s
  /\ match call_function program rec1 func args s with
     | (s', Ok _) => m_call_depth s' = m_call_depth s
     | (_, Throw _) => True
     end.
Proof.
  intros Hrec. unfold call_function, mbind, execute_function, mbind, mmodify, mget. simpl.
  destruct (MAX_CALL_DEPTH <? m_call_depth s + 1) eqn:Ed; [done|].
  destruct Hrec as [Ha Hk]; [lia|].
  destruct (run_body_agree rec1 rec2 _ MAX_STEPS func (set_depth s (m_call_depth s + 1))
    (mkContext (argument_registers func args) (collect_labels program (instructions func) 0 ∅) 0 false VNil)
    Ha Hk eq_refl) as [<- Hd].
  split; [done|]. destruct (run_body _ _ _ _ _ _) as [s' [c'|e]]; simpl; [lia|done].
Qed.

(** ** The budget *)

Lemma call_fuel_depth fuel D : keeps_depth (call_fuel program fuel) D.
Proof.
  revert D. induction fuel as [|fuel IH]; intros D name args s s' v Hs Hc; [done|]. simpl in Hc.
  destruct (m_function_map program !! name) as [func|]; [|injection Hc as <- _; exact Hs].
  pose proof (call_function_agree (call_fuel program fuel) (call_fuel program fuel) func args s) as [_ Hd].
  { intros _. split; [by intros ???|apply IH]. }
  rewrite Hc in Hd. congruence.
Qed.

(** Budgets that cover the depth still allowed answer the same. *)
Lemma call_fuel_enough f1 f2 name args s :
  (1 <= f1)%nat -> (1 <= f2)%nat ->
  MAX_CALL_DEPTH < m_call_depth s + Z.of_nat f1 -> MAX_CALL_DEPTH < m_call_depth s + Z.of_nat f2 ->
  call_fuel program f1 name args s = call_fuel program f2 name args s.
Proof.
  revert f2 name args s. induction f1 as [|f1 IH]; intros [|f2] name args s H1 H2 Hf1 Hf2; try lia.
  simpl. destruct (m_function_map program !! name) as [func|]; [|done].
  apply call_function_agree. intros Hd. split; [|apply call_fuel_depth].
  intros nm as_ st Hst. apply IH; lia.
Qed.

Lemma call_fuel_S fuel name args s :
  call_fuel program (S fuel) name args s =
  match m_function_map program !! name with
  | None => (set_error s ("Function not found: " +:+ name), Ok (VInt 0))
  | Some func => call_function program (call_fuel program fuel) func args s
  end.
Proof. simpl. by destruct (m_function_map program !! name). Qed.

Lemma call_recursion name args s :
  0 <= m_call_depth s ->
  call program name args s =
  match m_function_map program !! name with
  | None => (set_error s ("Function not found: " +:+ name), Ok (VInt 0))
  | Some func => call_function program (call program) func args s
  end.
Proof.
  intros Hs. assert (exists n, CALL_FUEL = S n /\ Z.of_nat n = MAX_CALL_DEPTH) as (n & Hn & Hmax).
  { exists (Z.to_nat MAX_CALL_DEPTH). by vm_compute. }
  unfold call. rewrite Hn, call_fuel_S. destruct (m_function_map program !! name) as [func|]; [|done].
  apply call_function_agree. intros Hd. split; [|apply call_fuel_depth].
  intros nm as_ st Hst. apply call_fuel_enough; lia.
Qed.

End Calls.

(** [call] is the source's recursion: it runs the function of that name with
    [call] itself for its callees, and reports an unknown name.  The budget the
    model needs to be a total function is invisible, because the depth limit of
    256 frames stops the recursion before 257 units are spent. *)
Theorem call_satisfies_recursion `{Libm} (program : IRProgram) (name : string)
    (args : list Value) (s : Interp) :
  0 <= m_call_depth s ->
  call program name args s =
  match m_function_map program !! name with
  | None => (set_error s ("Function not found: " +:+ name), Ok (VInt 0))
  | Some func => call_function program (call program) func args s
  end.
Proof. apply call_recursion. Qed.

(** A call that returns a value leaves the interpreter's call depth where it
    was, whatever the functions it went through did. *)
Theorem call_restores_depth `{Libm} (program : IRProgram) (name : string) (args : list Value)
    (s s' : Interp) (v : Value) :
  call program name args s = (s', Ok v) -> m_call_depth s' = m_call_depth s.
Proof. intros Hc. by eapply call_fuel_depth. Qed.

(** ** Exceptions *)

Definition call_depth_exceeded (name : string) : exn := CompilerException OPTIMIZER_ERROR (call_depth_message name).
Definition step_limit_exceeded (name : string) : exn := CompilerException OPTIMIZER_ERROR (step_limit_message name).

Section Exceptions.
Context `{Libm} (program : IRProgram).

Abbreviation Callee := (string -> list Value -> M Interp Value).

(** An exception of a callee leaves the depth where it was, or higher. *)
Definition never_lowers (rec : Callee) : Prop :=
  forall name args s s' e, rec name args s = (s', Throw e) -> m_call_depth s <= m_call_depth s'.

Lemma effect_of_throw rec func f i s s' e :
  never_lowers rec -> effect_of program rec func f i s = (s', Throw e) -> m_call_depth s <= m_call_depth s'.
Proof.
  intros Hk He. unfold effect_of in He. destruct (opcode i);
    try (unfold mlift, mret in He; simplify_eq; lia).
  - unfold load_global_effect, mbind, mlift, mget, mret in He.
    repeat (case_match; simplify_eq; try lia).
  - unfold store_global_effect, mbind, mlift, mget, mmodify, mret in He.
    repeat (case_match; simplify_eq; try lia).
  - unfold call_effect, mbind, mlift, mret in He.
    destruct (label_text program i 0) as [name|]; [|simplify_eq; lia].
    destruct (reg_operand i 1); [|simplify_eq; lia]. destruct (imm_operand i 2); [|simplify_eq; lia].
    destruct (arg_values _ _ _ _) as [args|]; [|simplify_eq; lia].
    destruct (m_function_map program !! name); [|simplify_eq; lia].
    destruct (rec name args s) as [s1 [v|e1]] eqn:Er; simplify_eq. by eapply Hk.
Qed.

Lemma step_throw rec func c s s' e :
  keeps_depth rec (m_call_depth s) -> never_lowers rec -> running func c = true ->
  step program rec func c s = (s', Throw e) -> m_call_depth s <= m_call_depth s'.
Proof.
  intros Hd Hk Hrun Hst. destruct (running_lookup _ _ Hrun) as [_ [i Hi]].
  rewrite (step_effect _ _ _ _ _ _ Hi) in Hst.
  destruct (effect_of _ _ _ _ _ _) as [s1 [te|e1]] eqn:Ee; [|simplify_eq; by eapply effect_of_throw].
  apply effect_of_depth with (D := m_call_depth s) in Ee; [|done..]. injection Hst as <- _. lia.
Qed.

Lemma loop_throw rec D func n s c s' e :
  keeps_depth rec D -> never_lowers rec -> m_call_depth s = D ->
  iter_until (loop_step program rec func) n (s, c) = inr (s', Throw e) -> D <= m_call_depth s'.
Proof.
  intros Hd Hk. revert s c. induction n as [|n IH]; intros s c Hs; simpl; [done|].
  destruct (running func c) eqn:Hrun; [|done].
  destruct (step program rec func c s) as [s1 [c1|e1]] eqn:Est.
  - apply IH. by eapply step_depth.
  - intros [= <- <-]. subst D. by eapply step_throw.
Qed.

(** A body that throws: its own step limit takes the depth back, everything
    else leaves it. *)
Lemma run_body_throw rec D steps func s c s' e :
  keeps_depth rec D -> never_lowers rec -> m_call_depth s = D ->
  run_body program rec steps func c s = (s', Throw e) ->
  D <= m_call_depth s' \/ e = step_limit_exceeded (fn_name func) /\ m_call_depth s' = D - 1.
Proof.
  intros Hd Hk Hs. unfold run_body. rewrite !iter_until_pos_nat.
  destruct (loop_agree program rec rec D func (Pos.to_nat steps) s c) as [_ Hl]; [by intros ???|done|done|].
  destruct (iter_until _ _ _) as [[s1 c1]|[s1 [c1|e1]]] eqn:Eit.
  - destruct (running func c1); [|done]. intros [= <- <-]. right. split; [done|]. simpl. lia.
  - done.
  - intros [= <- <-]. left. by eapply loop_throw.
Qed.

Lemma call_function_throw rec func args s s' e :
  (m_call_depth s + 1 <= MAX_CALL_DEPTH -> keeps_depth rec (m_call_depth s + 1) /\ never_lowers rec) ->
  call_function program rec func args s = (s', Throw e) ->
  m_call_depth s + 1 <= m_call_depth s' /\ m_call_depth s + 1 <= MAX_CALL_DEPTH
  \/ m_call_depth s' = m_call_depth s
     /\ (e = step_limit_exceeded (fn_name func) \/ e = call_depth_exceeded (fn_name func)).
Proof.
  intros Hrec. unfold call_function, mbind, execute_function, mbind, mmodify, mget. simpl.
  destruct (MAX_CALL_DEPTH <? m_call_depth s + 1) eqn:Ed.
  { intros [= <- <-]. right. simpl. split; [lia|by right]. }
  destruct Hrec as [Hd Hk]; [lia|]. destruct (run_body _ _ _ _ _ _) as [s1 [c1|e1]] eqn:Eb; [done|].
  intros [= <- <-]. eapply run_body_throw in Eb as [Hb|[-> Hb]]; [left|right|done|done|done]; simpl in *; [lia|].
  split; [lia|by left].
Qed.

Lemma call_fuel_never_lowers fuel : never_lowers (call_fuel program fuel).
Proof.
  induction fuel as [|fuel IH]; intros name args s s' e Hc; [injection Hc as <- _; lia|]. simpl in Hc.
  destruct (m_function_map program !! name) as [func|]; [|done].
  apply call_function_throw in Hc; [lia|]. split; [apply call_fuel_depth|done].
Qed.

(** The table of functions is by name. *)
Lemma function_map_name name func : m_function_map program !! name = Some func -> fn_name func = name.
Proof.
  unfold m_function_map. assert (Hg : forall (l : list IRFunction) (m : gmap string IRFunction),
    (forall n f, m !! n = Some f -> fn_name f = n) ->
    forall n f, fold_left (fun m f => <[fn_name f := f]> m) l m !! n = Some f -> fn_name f = n).
  { induction l as [|x l IH]; simpl; [done|]. intros m Hm. apply IH.
    intros n f [[<- <-]|[_ Hl]]%lookup_insert_Some; [done|by apply Hm]. }
  apply Hg. intros n f. by rewrite lookup_empty.
Qed.

(** A call that throws anything but a limit of its own frame leaves the depth at
    least one higher. *)
Lemma thrown_call_leaks name args s s' e :
  call program name args s = (s', Throw e) ->
  m_call_depth s + 1 <= m_call_depth s'
  \/ m_call_depth s' = m_call_depth s /\ (e = step_limit_exceeded name \/ e = call_depth_exceeded name).
Proof.
  unfold call. assert (exists n, CALL_FUEL = S n) as [n ->] by (by eexists; vm_compute). rewrite call_fuel_S.
  destruct (m_function_map program !! name) as [func|] eqn:Ef; [|done]. intros Hc.
  apply call_function_throw in Hc; [|split; [apply call_fuel_depth|apply call_fuel_never_lowers]].
  rewrite (function_map_name _ _ Ef) in Hc. destruct Hc as [[? _]|?]; auto.
Qed.

(** Calls made one after the other on the same interpreter, by a host that goes on
    after an exception. *)
Fixpoint run_calls (calls : list (string * list Value)) (s : Interp) : Interp :=
  match calls with
  | [] => s
  | (name, args) :: calls => run_calls calls (call program name args s).1
  end.

(** The two exceptions before which [execute_function] takes the depth back. *)
Definition own_limit (name : string) (e : exn) : bool :=
  match e with
  | CompilerException OPTIMIZER_ERROR message =>
      String.eqb message (step_limit_message name) || String.eqb message (call_depth_message name)
  | _ => false
  end.

Definition fails (name : string) (answer : outcome Value) : bool :=
  match answer with Throw e => negb (own_limit name e) | Ok _ => false end.

Fixpoint failures (calls : list (string * list Value)) (s : Interp) : nat :=
  match calls with
  | [] => 0
  | (name, args) :: calls =>
      let r := call program name args s in
      (if fails name r.2 then 1 else 0) + failures calls r.1
  end.

Lemma run_calls_depth calls : forall s, m_call_depth s + Z.of_nat (failures calls s) <= m_call_depth (run_calls calls s).
Proof.
  induction calls as [|[name args] calls IH]; intros s; simpl; [lia|].
  specialize (IH (call program name args s).1). destruct (call program name args s) as [s' [v|e]] eqn:Ec; simpl in *.
  - assert (m_call_depth s' = m_call_depth s) by (by eapply call_fuel_depth). lia.
  - apply thrown_call_leaks in Ec as [?|[Hd [-> | ->]]]; [destruct (own_limit name e); simpl; lia| |];
      simpl; rewrite String.eqb_refl, ?orb_true_r; simpl; lia.
Qed.

End Exceptions.

(** C15: An exception leaves the depth incremented.  Whatever calls were made
    before, once 256 of them have thrown anything else than a limit of their own
    frame, every later call of a function of the program throws the depth-limit
    exception: [execute_function] takes its increment back on its own exits, and
    not when [execute_instruction] throws. *)
Theorem failed_calls_exhaust_depth `{Libm} (program : IRProgram) (calls : list (string * list Value)) (s : Interp)
    (name : string) (args : list Value) (func : IRFunction) :
  0 <= m_call_depth s -> m_function_map program !! name = Some func ->
  (256 <= failures program calls s)%nat ->
  call program name args (run_calls program calls s) = (run_calls program calls s, Throw (call_depth_exceeded name)).
Proof.
  intros Hs Hf Hn. pose proof (run_calls_depth program calls s) as Hd.
  rewrite call_recursion, Hf by lia. unfold call_function, mbind, execute_function, mbind, mmodify, mget. simpl.
  rewrite (proj2 (Z.ltb_lt _ _)) by (unfold MAX_CALL_DEPTH; lia). simpl.
  rewrite (function_map_name _ _ _ Hf). unfold decrement_depth, set_depth. simpl. rewrite Z.add_simpl_r.
  by destruct (run_calls program calls s).
Qed.

Module InterpreterWitnesses.
Import Samples.
#[local] Existing Instance identity_libm.

Definition initial : Interp := mkInterp [] "" 0.

Lemma call_satisfies_recursion_witness :
  call program "sum" [VInt 10] initial = (initial, Ok (VInt 55)) /\
  call program "sum" [VInt 10] initial =
  match m_function_map program !! "sum"%string with
  | None => (set_error initial ("Function not found: " +:+ "sum"), Ok (VInt 0))
  | Some func => call_function program (call program) func [VInt 10] initial
  end.
Proof. split; [by vm_compute|]. apply call_satisfies_recursion. by vm_compute. Defined.

Lemma call_restores_depth_witness : m_call_depth initial = 0.
Proof. apply (call_restores_depth program "sum" [VInt 10] initial initial (VInt 55)). by vm_compute. Defined.

Definition mapped : IRFunction :=
  default (simple_function "" [] [] 0) (m_function_map program !! "sum"%string).

(** 256 calls that fail on [**], the first of them between calls that return. *)
Definition failing_calls : list (string * list Value) :=
  ("sum"%string, [VInt 3]) :: replicate 256 ("pow"%string, [VInt 2; VInt 3]) ++ [("sum"%string, [VInt 3])].

Lemma failed_calls_exhaust_depth_witness :
  call program "sum" [VInt 10] initial = (initial, Ok (VInt 55))
  /\ (call program "sum" [VInt 10] (run_calls program failing_calls initial)).2
     = Throw (call_depth_exceeded "sum").
Proof.
  split; [by vm_compute|].
  rewrite (failed_calls_exhaust_depth program failing_calls initial "sum" [VInt 10] mapped); by vm_compute.
Defined.

End InterpreterWitnesses.
