(* ===== verification/VerifierSound.v ===== *)
(** * Soundness of the verifier

    What acceptance by [ir_verify] buys an execution of the interpreter: every
    register read was written on the path taken, every jump finds its label,
    every operand has the form the interpreter assumes without a test, and a
    scope is released only after it was marked. *)

From S2P Require Import Prelude.
From S2P Require Import Dataflow.
From S2P Require Import Double.
From S2P Require Import VariantTypes.
From S2P Require Import IROpcodes.
From S2P Require Import Globals.
From S2P Require Import IR.
From S2P Require Import Cfg.
From S2P Require Import Verifier.
From S2P Require Import VerifierFacts.
From S2P Require Import Interpreter.
From S2P Require Import Effects.
From S2P Require Import Machine.
From S2P Require Import Samples.

Section Sound.
Context `{Libm} (program : IRProgram).

(** A function the verifier accepts with the program's string table. *)
Definition verified (func : IRFunction) : Prop := ir_verify func (Some (strings program)) = None.

Section Checks.
Context {func : IRFunction} (Hv : verified func).

Lemma verified_checks :
  check_register_range func = None /\ check_operands func = None
  /\ check_labels func (Some (strings program)) = None
  /\ check_definedness_and_types func (Some (strings program)) = None
  /\ check_scope_marks func (Some (strings program)) = None.
Proof.
  unfold verified, ir_verify in Hv. rewrite !andthen_None in Hv. naive_solver.
Qed.

Lemma verified_operands k i : instructions func !! k = Some i -> operands_ok i.
Proof. destruct verified_checks as (_ & Ho & _). by eapply check_operands_ok. Qed.

(** ** Labels *)

Lemma label_operand i :
  operands_ok i -> ir_has_effect (opcode i) IR_LABEL = true ->
  opcode i = IROpcode.LABEL /\ exists id ops, operands i = IRValue.LABEL id :: ops.
Proof.
  intros Hok Hl. assert (opcode i = IROpcode.LABEL) as Ho by (revert Hl; by destruct (opcode i)).
  split; [done|]. destruct (ok_operand i 0 Hok) as (v & Hv0 & Hm).
  { rewrite Ho. vm_compute. lia. }
  unfold operand_kind in Hm. rewrite Ho in Hm. destruct (operands i) as [|w ops]; simplify_eq/=.
  destruct v; try done. eauto.
Qed.

Lemma index_labels_collect is_ k acc m :
  (forall i, i ∈ is_ -> operands_ok i) ->
  index_labels (Some (strings program)) is_ k acc = inr m ->
  collect_labels program is_ k acc = m.
Proof.
  revert k acc. induction is_ as [|i is_ IH]; intros k acc Hok; simpl; [congruence|].
  destruct (ir_has_effect (opcode i) IR_LABEL) eqn:El; simpl.
  - destruct (label_operand i) as (-> & id & ops & ->); [apply Hok; set_solver|done|]. simpl.
    destruct (acc !! _) eqn:Ea; [done|]. apply IH. set_solver.
  - intros Hi. revert El. destruct (opcode i); try done; intros _; apply IH; done || set_solver.
Qed.

(** The verifier's label index is the interpreter's label map. *)
Lemma verified_labels :
  function_labels program func = m_label_index func (Some (strings program)).
Proof.
  destruct verified_checks as (_ & _ & Hl & _). unfold check_labels in Hl.
  unfold m_label_index, function_labels.
  destruct (index_labels _ _ _ _) as [|m] eqn:E; [done|].
  apply index_labels_collect; [|done]. intros i Hi. apply list_elem_of_lookup in Hi as [j Hj].
  by eapply verified_operands.
Qed.

(** A jump's label operand resolves. *)
Lemma verified_label_target k i id :
  instructions func !! k = Some i -> ir_has_effect (opcode i) IR_LABEL = false ->
  IRValue.LABEL id ∈ operands i ->
  is_Some (label_target func (Some (strings program)) id).
Proof.
  intros Hi Hn Hop. destruct verified_checks as (_ & _ & Hl & _). unfold check_labels in Hl.
  destruct (index_labels _ _ _ _) as [|m] eqn:E; [done|]. rewrite check_each_None in Hl.
  specialize (Hl k i Hi). simpl in Hl. rewrite Hn, check_each_nat_None in Hl.
  specialize (Hl _ Hop). simpl in Hl. unfold label_target.
  destruct (m_label_index _ _ !! _); [by eexists|done].
Qed.

End Checks.

(** ** Executions *)

Section Body.
Context (call_rec : string -> list Value -> M Interp Value).

(** The contexts a call of [func] goes through, starting with [regs0]; [marked]
    collects the scopes marked on the way. *)
Inductive reachable (func : IRFunction) (regs0 : gmap Z Value)
  : Interp -> ExecutionContext -> gset Z -> Prop :=
  | reach_start s :
      reachable func regs0 s (mkContext regs0 (function_labels program func) 0 false VNil) ∅
  | reach_step s c marked s' c' i :
      reachable func regs0 s c marked -> running func c = true ->
      instructions func !! pc c = Some i ->
      step program call_rec func c s = (s', Ok c') ->
      reachable func regs0 s' c' (mark_instr marked i).

Context {func : IRFunction} (Hv : verified func).
Abbreviation body := (instructions func).
Abbreviation strs := (Some (strings program)).

(** A jump effect names a label the function defines. *)
Lemma jump_target f i s s' ns l k :
  body !! k = Some i -> effect_of program call_rec func f i s = (s', Ok (ns, E_jump l)) ->
  exists id, IRValue.LABEL id ∈ operands i /\ ir_has_effect (opcode i) IR_LABEL = false
    /\ IRStringTable.get (strings program) id = l
    /\ (ir_has_effect (opcode i) IR_BRANCH = true \/ opcode i = IROpcode.JUMP).
Proof.
  intros Hi He. apply effect_of_shape in He as [_ (Hbr & _ & n & Hl & Hk)]. simpl in *.
  apply label_text_Ok in Hl as (v & id & Hop & Hid & Hget).
  pose proof (ok_kind _ (verified_operands Hv _ _ Hi) _ _ Hop) as Hm.
  assert (v = IRValue.LABEL id) as ->.
  { destruct Hk as [Hk|Hk]; rewrite Hk in Hm; destruct v; simplify_eq/=; done. }
  exists id. split; [by eapply list_elem_of_lookup_2|]. split; [|done].
  destruct Hbr as [Hbr|Hbr]; revert Hbr; by destruct (opcode i).
Qed.

(** A step of a verified body follows the control-flow graph. *)
Lemma step_cfg c s s' c' i :
  returned c = false -> labels c = function_labels program func -> body !! pc c = Some i ->
  step program call_rec func c s = (s', Ok c') -> returned c' = false ->
  cfg_step body (label_target func strs) (pc c) (pc c').
Proof.
  intros Hret Hlab Hi Hs Hret'.
  destruct (step_inv _ _ _ _ _ _ _ _ Hret Hlab Hi Hs) as (te & He & _ & _ & Hn).
  destruct te as [ns e]. pose proof (effect_of_shape _ _ _ _ _ _ _ _ He) as [_ Hsh].
  destruct e as [|v|l|]; simpl in Hn, Hsh.
  - destruct Hn as (_ & Hpc & _), Hsh as [Ht _]. by eapply cfg_fall.
  - destruct Hn as (_ & Hpc & _), Hsh as [Ht _]. by eapply cfg_fall.
  - destruct Hn as (_ & Hl & _).
    destruct (jump_target _ _ _ _ _ _ _ Hi He) as (id & Hop & _ & Hget & Hbr).
    destruct (function_labels_spec _ _ _ _ Hl) as (j & id' & Hj & Hid & _).
    eapply cfg_jump; [done|done|done| |done|by eapply label_id_opcode].
    unfold label_target, name_of. by rewrite <- (verified_labels Hv), Hget.
  - destruct Hn. congruence.
Qed.

(** Registers the analysis calls defined exist. *)
Definition sat (regs : gmap Z Value) (a : RegisterState) : Prop :=
  forall r, 0 <= r -> rs_defined a !! Z.to_nat r = Some true -> is_Some (regs !! r).

Lemma sat_le regs a b : sat regs b -> state_le a b -> sat regs a.
Proof. intros Hs [Hd _] r Hr Ha. apply Hs; [done|]. by apply Hd. Qed.

Lemma sat_step regs a i f s s' te :
  sat regs a -> effect_of program call_rec func f i s = (s', Ok te) ->
  sat (effect_regs i te regs) (transfer_instr a i).
Proof.
  intros Hs He r Hr Hd. apply effect_of_shape in He as [_ Hsh].
  destruct (decide (ir_destination_register i = Some r)) as [Hdst|Hdst].
  - unfold effect_regs. rewrite Hdst. unfold ir_destination_register in Hdst.
    destruct (te.2) as [|v|l|]; simpl in Hsh.
    + destruct Hsh as [_ Hn]. by rewrite Hn in Hdst.
    + rewrite lookup_insert_eq. by eexists.
    + destruct Hsh as (_ & Hn & _). by rewrite Hn in Hdst.
    + by rewrite Hsh in Hdst.
  - assert (rs_defined a !! Z.to_nat r = Some true) as Ha.
    { unfold transfer_instr in Hd. destruct (ir_destination_register i) as [d|]; [|done].
      destruct ((0 <=? d) && _) eqn:E; [|done]. simpl in Hd.
      rewrite list_lookup_insert_ne in Hd; [done|]. intros Heq. apply Hdst. f_equal. lia. }
    destruct (Hs r Hr Ha) as [v Hv']. exists v. by apply effect_regs_frame.
Qed.

(** What holds at every context of a verified call. *)
Record call_invariant (c : ExecutionContext) (marked : gset Z) : Prop := {
  ci_labels : labels c = function_labels program func;
  ci_defined : returned c = false -> (pc c < length body)%nat ->
    exists a, state_at func strs (pc c) = Some a /\ sat (registers c) a;
  ci_marked : returned c = false -> (pc c < length body)%nat ->
    exists m, marks_at func strs (pc c) = Some m /\ m ⊆ marked
}.

(** The parameters exist at the start. *)
Definition parameters_present (regs0 : gmap Z Value) : Prop :=
  forall n, (n < length (parameters func))%nat -> is_Some (regs0 !! Z.of_nat n).

Lemma sat_entry regs0 a :
  parameters_present regs0 -> state_le a (entry_state func) -> sat regs0 a.
Proof.
  intros Hp Hle. apply sat_le with (b := entry_state func); [|done].
  intros r Hr Hd. simpl in Hd. rewrite list_lookup_fmap in Hd.
  destruct (seq 0 _ !! _) as [x|] eqn:E; simplify_eq/=. apply lookup_seq in E as [-> _].
  simpl in Hd. destruct (Hp (Z.to_nat r)) as [v Hv']; [by apply Nat.ltb_lt; simplify_eq|].
  rewrite Z2Nat.id in Hv' by done. by exists v.
Qed.

Lemma reachable_invariant regs0 s c marked :
  parameters_present regs0 -> reachable func regs0 s c marked -> call_invariant c marked.
Proof.
  intros Hp. destruct (verified_checks Hv) as (_ & _ & _ & Hdef & Hmark).
  induction 1 as [s|s c marked s' c' i Hreach IH Hrun Hi Hs].
  - assert ((0 < length body)%nat -> body <> []) as Hne by (destruct body; simpl; [lia|done]).
    split; simpl; [done| |].
    + intros _ Hlt. destruct (df_start _ _ (definedness_sound _ _ Hdef (Hne Hlt))) as (a & Ha & Hle).
      exists a. split; [done|by apply sat_entry].
    + intros _ Hlt. exists ∅. split; [|done]. by apply (mf_start _ _ (marks_sound _ _ Hmark (Hne Hlt))).
  - destruct (running_lookup _ _ Hrun) as [Hret _]. destruct IH as [Hlab Hd Hm].
    pose proof (lookup_lt_Some _ _ _ Hi) as Hlt.
    assert (body <> []) as Hne by (intros Hb; rewrite Hb in Hi; done).
    destruct (step_inv _ _ _ _ _ _ _ _ Hret Hlab Hi Hs) as (te & He & Hl' & Hr' & _).
    split; [congruence| |].
    + intros Hret' Hlt'. destruct (Hd Hret Hlt) as (a & Ha & Hsat).
      destruct (df_step _ _ (definedness_sound _ _ Hdef Hne) _ _ _ _ Ha Hi
        (step_cfg _ _ _ _ _ Hret Hlab Hi Hs Hret') Hlt') as (a' & Ha' & Hle).
      exists a'. split; [done|]. rewrite Hr'. eapply sat_le; [|done]. by eapply sat_step.
    + intros Hret' Hlt'. destruct (Hm Hret Hlt) as (m & Hma & Hsub).
      destruct (mf_step _ _ (marks_sound _ _ Hmark Hne) _ _ _ _ Hma Hi
        (step_cfg _ _ _ _ _ Hret Hlab Hi Hs Hret') Hlt') as (m' & Hm' & Hle).
      exists m'. split; [done|]. unfold mark_instr in *. destruct (IROpcode.eqb _ _); set_solver.
Qed.

(** The registers an instruction reads explicitly exist when it runs. *)
Lemma reads_defined_at c marked i r :
  call_invariant c marked -> running func c = true -> body !! pc c = Some i ->
  is_bare_return i = false -> r ∈ ir_collect_read_registers i -> is_Some (registers c !! r).
Proof.
  intros Hci Hrun Hi Hbare Hr. destruct (running_lookup _ _ Hrun) as [Hret _].
  destruct (verified_checks Hv) as (Hrange & _ & _ & Hdef & _).
  destruct (ci_defined _ _ Hci Hret) as (a & Ha & Hsat); [by eapply lookup_lt_Some|].
  assert (body <> []) as Hne by (intros Hb; rewrite Hb in Hi; done).
  pose proof (df_report _ _ (definedness_sound _ _ Hdef Hne) _ _ _ Ha Hi) as Hrep.
  unfold report_instr in Hrep. rewrite Hbare, andthen_None in Hrep. destruct Hrep as [Hrep _].
  unfold check_reads in Hrep. rewrite check_each_nat_None in Hrep. specialize (Hrep r Hr).
  apply fail_if_None in Hrep.
  assert (IRValue.REGISTER r ∈ operands i) as Hop.
  { unfold ir_collect_read_registers in Hr. rewrite Hbare in Hr.
    apply list_elem_of_omap in Hr as (n & _ & Hn). unfold ir_reads_operand in Hn.
    destruct (operands i !! n) as [[]|] eqn:E; simplify_eq/=.
    destruct (negb _); simplify_eq. by eapply list_elem_of_lookup_2. }
  pose proof (register_in_range _ _ _ _ Hrange Hi Hop) as Hrr.
  apply Hsat; [lia|]. rewrite (proj2 (Z.leb_le 0 r)) in Hrep by lia. simpl in Hrep.
  apply bool_decide_eq_false in Hrep.
  pose proof (df_wf _ _ (definedness_sound _ _ Hdef Hne) _ _ _ Ha Hi) as [Hlen _].
  destruct (lookup_lt_is_Some_2 (rs_defined a) (Z.to_nat r)) as [[] Hd]; [|done|done].
  rewrite Hlen. unfold register_count. lia.
Qed.

End Body.

(** ** Properties *)



(** A verified function releases a scope only after marking that scope on
    the path taken. *)
Theorem verified_scopes_marked (call_rec : string -> list Value -> M Interp Value)
    (func : IRFunction) (regs0 : gmap Z Value) (s : Interp) (c : ExecutionContext)
    (marked : gset Z) (i : IRInstruction) :
  verified func -> parameters_present (func := func) regs0 ->
  reachable call_rec func regs0 s c marked -> running func c = true ->
  instructions func !! pc c = Some i -> opcode i = IROpcode.SCOPE_RELEASE ->
  scope_operand i ∈ marked.
Proof.
  intros Hv Hp Hr Hrun Hi Ho. pose proof (reachable_invariant call_rec Hv _ _ _ _ Hp Hr) as Hci.
  destruct (running_lookup _ _ Hrun) as [Hret _].
  destruct (verified_checks Hv) as (_ & _ & _ & _ & Hmark).
  assert (instructions func <> []) as Hne by (intros Hb; rewrite Hb in Hi; done).
  destruct (ci_marked _ _ Hci Hret) as (m & Hm & Hsub); [by eapply lookup_lt_Some|].
  pose proof (mf_report _ _ (marks_sound _ _ Hmark Hne) _ _ _ Hm Hi) as Hrep.
  unfold report_mark in Hrep. rewrite Ho in Hrep. apply fail_if_None in Hrep. simpl in Hrep.
  apply bool_decide_eq_false in Hrep. apply Hsub. by apply dec_stable.
Qed.

End Sound.

(** *** Witnesses *)

Module VerifierWitnesses.
Import Samples.
#[local] Existing Instance identity_libm.

Definition no_call : string -> list Value -> M Interp Value := fun _ _ => mret VNil.

Definition args1 : gmap Z Value := {[0 := VInt 3]}.



Lemma verified_scopes_marked_witness : 7 ∈ ({[7]} ∪ ∅ : gset Z).
Proof.
  apply (verified_scopes_marked program no_call scoped args1 (mkInterp [] "" 0)
    (mkContext args1 (function_labels program scoped) 1 false VNil) ({[7]} ∪ ∅)
    (instr IROpcode.SCOPE_RELEASE [I 7])).
  - by vm_compute.
  - intros [|n] Hn; simpl in *; [by eexists|lia].
  - apply (reach_step program no_call scoped args1 (mkInterp [] "" 0)
      (mkContext args1 (function_labels program scoped) 0 false VNil) ∅ (mkInterp [] "" 0)
      (mkContext args1 (function_labels program scoped) 1 false VNil) (instr IROpcode.SCOPE_MARK [I 7]));
      [apply reach_start|done|done|done].
  - done.
  - done.
  - done.
Defined.

End VerifierWitnesses.
