(* ===== verification/VerifierSafe.v ===== *)
(** * Verified programs never misread an operand

    The interpreter indexes operands and reads union members without tests.
    This file shows that a program the verifier accepts never makes it do so
    out of bounds or on the wrong member, whatever it calls and whatever it
    computes. *)

From S2P Require Import Prelude.
From S2P Require Import Dataflow.
From S2P Require Import Double.
From S2P Require Import VariantTypes.
From S2P Require Import IROpcodes.
From S2P Require Import Globals.
From S2P Require Import IR.
From S2P Require Import Cfg.
From S2P Require Import Verifier.
From S2P Require Import VerifierFacts.
From S2P Require Import Interpreter.
From S2P Require Import Effects.
From S2P Require Import Machine.
From S2P Require Import InterpreterFacts.
From S2P Require Import VerifierSound.
From S2P Require Import Samples.

(** Undefined behaviour that comes from the shape of an instruction (and the
    model's own [OutOfFuel]). *)
Definition malformed (e : exn) : bool :=
  match e with
  | OutOfFuel => true
  | UB what => String.eqb what "operand past the end" || String.eqb what "inactive union member"
  | _ => false
  end.

Definition fine {A} (o : outcome A) : Prop :=
  match o with Ok _ => True | Throw e => malformed e = false end.

Lemma fine_bind {A B} (o : outcome A) (k : A -> outcome B) :
  fine o -> (forall a, o = Ok a -> fine (k a)) -> fine (obind o k).
Proof. destruct o; simpl; auto. Qed.

Create HintDb fine.
#[export] Hint Resolve fine_bind : fine.

(** Values and globals. *)
Ltac fine_cases :=
  repeat first
  [ done
  | apply fine_bind; [|intros ? ?]
  | match goal with |- fine (match ?x with _ => _ end) => destruct x end ].

Lemma fine_int64_of_double d : fine (int64_of_double d).
Proof. unfold int64_of_double. destruct d; try done. by destruct (bool_decide _). Qed.

Lemma fine_get_int v : fine (get_int v).
Proof. destruct v; try done. apply fine_int64_of_double. Qed.

Lemma fine_checked z : fine (checked z).
Proof. unfold checked. by destruct (bool_decide _). Qed.

Lemma fine_rem_checked a b : fine (rem_checked a b).
Proof. unfold rem_checked. by destruct (_ && _). Qed.

Lemma fine_int_op a b op : fine (int_op a b op).
Proof. unfold int_op. destruct op; fine_cases. Qed.

Lemma fine_float_op a b op : fine (float_op a b op).
Proof. by destruct op. Qed.

Lemma fine_binary_op a b op : fine (binary_op a b op).
Proof.
  unfold binary_op. destruct (_ || _); [by destruct (_ && _)|].
  destruct (bitwise_op a b op) as [o|] eqn:E.
  - unfold bitwise_op in E. destruct op; simplify_eq;
      (apply fine_bind; [apply fine_get_int|intros ? _]); (apply fine_bind; [apply fine_get_int|done]).
  - destruct (_ || _); [apply fine_float_op|].
    apply fine_bind; [apply fine_get_int|intros ? _]. apply fine_bind; [apply fine_get_int|intros ? _].
    apply fine_int_op.
Qed.

Lemma fine_unary_op a op : fine (unary_op a op).
Proof.
  unfold unary_op. destruct op; try done; [destruct (is_float a); [done|]|];
    (apply fine_bind; [apply fine_get_int|done]).
Qed.

Lemma fine_compare_op a b op : fine (compare_op a b op).
Proof.
  unfold compare_op. destruct (_ || _); [by destruct op|]. destruct (_ || _).
  { destruct (_ || _); [by destruct op|done]. }
  destruct (_ || _); [done|]. apply fine_bind; [apply fine_get_int|intros ? _].
  apply fine_bind; [apply fine_get_int|done].
Qed.

Lemma fine_convert_value i v : fine (convert_value i v).
Proof.
  unfold convert_value. destruct (_ =? _); [done|]. destruct (_ =? _); [|by destruct (_ && _)].
  apply fine_bind; [apply fine_get_int|done].
Qed.

Lemma fine_fused_branch_taken a b op : fine (fused_branch_taken a b op).
Proof.
  unfold fused_branch_taken. destruct (fused_comparison op); [|done].
  apply fine_bind; [apply fine_compare_op|done].
Qed.

Lemma fine_omapM {A B} (f : A -> outcome B) l : (forall x, x ∈ l -> fine (f x)) -> fine (omapM f l).
Proof.
  induction l as [|x l IH]; intros Hf; [done|]. simpl.
  apply fine_bind; [apply Hf; set_solver|intros ? _].
  apply fine_bind; [apply IH; set_solver|done].
Qed.

Lemma fine_global_function fn : fine (global_function fn).
Proof. unfold global_function. by destruct (find _ _). Qed.

Lemma fine_need fn c n : fine (need fn c n).
Proof. unfold need. destruct (_ <? _)%nat; [|done]. by apply fine_bind; [apply fine_global_function|]. Qed.

#[export] Hint Resolve fine_int64_of_double fine_get_int fine_checked fine_rem_checked fine_global_function
  fine_need : fine.

Ltac fine_auto :=
  repeat first
  [ done
  | solve [auto with fine]
  | apply fine_bind; [|intros ? ?]
  | match goal with |- fine (match ?x with _ => _ end) => destruct x end ].

Lemma fine_eval_global_int fn args : fine (eval_global_int fn args).
Proof. unfold eval_global_int. destruct fn; unfold eval_posmod, eval_wrapi; fine_auto. Qed.

Lemma fine_eval_global_int_syscall fn args : fine (eval_global_int_syscall fn args).
Proof. unfold eval_global_int_syscall. fine_auto. Qed.

Section Safe.
Context `{Libm}.

Lemma fine_eval_utility_op op args : fine (eval_utility_op op args).
Proof. unfold eval_utility_op, eval_utility_unary, eval_utility_nary. fine_auto. Qed.

Lemma fine_eval_global_float fn args : fine (eval_global_float fn args).
Proof.
  unfold eval_global_float. apply fine_bind; [auto with fine|intros info _].
  destruct (decide _); [apply fine_eval_utility_op|]. destruct fn; fine_auto.
Qed.

Lemma fine_global_call_value func fn args : fine (global_call_value func fn args).
Proof.
  unfold global_call_value. apply fine_bind; [auto with fine|intros info _].
  destruct (_ && _); [done|]. destruct (decide _); [done|]. destruct (gf_impure info); [done|].
  destruct (decide _).
  { apply fine_bind; [unfold nth_at; by destruct (args !! _)|intros ? _]. fine_auto. }
  apply fine_bind; [destruct (decide _); auto with fine; done|intros info' _].
  destruct (decide _).
  { apply fine_bind; [apply fine_omapM; auto with fine|intros ? _].
    apply fine_bind; [apply fine_eval_global_int|done]. }
  destruct (decide _).
  { apply fine_bind; [apply fine_omapM; auto with fine|intros ? _].
    apply fine_bind; [apply fine_eval_global_int_syscall|done]. }
  apply fine_bind; [apply fine_eval_global_float|intros ? _]. fine_auto.
Qed.

(** ** Operands *)

(** What the C++ types of an operand list guarantee: an immediate is an
    [int64_t], and a list of more than 2^31 operands does not occur. *)
Definition representable (i : IRInstruction) : Prop :=
  Z.of_nat (length (operands i)) < 2 ^ 31
  /\ forall z, IRValue.IMMEDIATE z ∈ operands i -> is_int64 z.

Definition representable_b (i : IRInstruction) : bool :=
  (Z.of_nat (length (operands i)) <? 2 ^ 31)
  && forallb (fun v => match v with IRValue.IMMEDIATE z => bool_decide (is_int64 z) | _ => true end) (operands i).

Lemma representable_decide i : representable_b i = true -> representable i.
Proof.
  unfold representable_b. intros [Hl Hf]%andb_prop. split; [lia|]. intros z Hz.
  rewrite forallb_forall in Hf. specialize (Hf (IRValue.IMMEDIATE z)). simpl in Hf.
  eapply bool_decide_eq_true, Hf. by apply list_elem_of_In.
Qed.

Definition is_register_kind (k : IROperandKind) : bool :=
  match k with
  | IROperandKind.DST | IROperandKind.INOUT | IROperandKind.SRC | IROperandKind.SRC_LIST => true
  | _ => false
  end.

Definition is_immediate_kind (k : IROperandKind) : bool :=
  match k with IROperandKind.IMM | IROperandKind.CNT | IROperandKind.CNT2 => true | _ => false end.

Definition is_name_kind (k : IROperandKind) : bool :=
  match k with IROperandKind.STR | IROperandKind.LBL | IROperandKind.LBL_LIST => true | _ => false end.

Section Operand.
Context (i : IRInstruction) (Hok : operands_ok i) (j : nat) (Hj : (j < length (operands i))%nat).

Lemma reg_operand_ok : is_register_kind (operand_kind i j) = true -> is_Ok (reg_operand i j).
Proof.
  intros Hk. destruct (lookup_lt_is_Some_2 _ _ Hj) as [v Hv]. pose proof (ok_kind _ Hok _ _ Hv) as Hm.
  unfold reg_operand, operand_ub. rewrite Hv. simpl.
  destruct (operand_kind i j); try done; destruct v; try done; by eexists.
Qed.

Lemma imm_operand_ok : is_immediate_kind (operand_kind i j) = true -> is_Ok (imm_operand i j).
Proof.
  intros Hk. destruct (lookup_lt_is_Some_2 _ _ Hj) as [v Hv]. pose proof (ok_kind _ Hok _ _ Hv) as Hm.
  unfold imm_operand, operand_ub. rewrite Hv. simpl.
  destruct (operand_kind i j); try done; destruct v; try done; by eexists.
Qed.

Lemma float_operand_ok : operand_kind i j = IROperandKind.FIMM -> is_Ok (float_operand i j).
Proof.
  intros Hk. destruct (lookup_lt_is_Some_2 _ _ Hj) as [v Hv]. pose proof (ok_kind _ Hok _ _ Hv) as Hm.
  unfold float_operand, operand_ub. rewrite Hv. simpl. rewrite Hk in Hm. destruct v; try done. by eexists.
Qed.

Lemma label_text_ok program : is_name_kind (operand_kind i j) = true -> is_Ok (label_text program i j).
Proof.
  intros Hk. destruct (lookup_lt_is_Some_2 _ _ Hj) as [v Hv]. pose proof (ok_kind _ Hok _ _ Hv) as Hm.
  unfold label_text, operand_ub. rewrite Hv. simpl.
  destruct (operand_kind i j); try done; destruct v; try done; by eexists.
Qed.

End Operand.

Lemma ok_length i op n :
  operands_ok i -> opcode i = op -> fixed_count (info_signature (ir_opcode_info op)) = n ->
  (n <= length (operands i))%nat.
Proof. intros [Hf _] <- <-. done. Qed.

Lemma fine_ok {A} (o : outcome A) : is_Ok o -> fine o.
Proof. by intros [a ->]. Qed.

Lemma fine_val_operand f i j : is_Ok (reg_operand i j) -> fine (val_operand f i j).
Proof. intros [r Hr]. unfold val_operand. by rewrite Hr. Qed.

Lemma fine_arg_values f i first count :
  operands_ok i -> (first + count <= length (operands i))%nat ->
  (forall n, (first <= n)%nat -> operand_kind i n = IROperandKind.SRC_LIST) ->
  fine (arg_values f i first count).
Proof.
  intros Hok Hlen Hk. apply fine_omapM. intros n [Hle Hlt]%elem_of_seq. apply fine_val_operand.
  apply reg_operand_ok; [done|lia|]. by rewrite Hk.
Qed.

(** The declared count is the length of the trailing list. *)
Lemma count_operand k i j n :
  check_instruction_operands k i = None -> representable i ->
  take (fixed_count (info_signature (ir_opcode_info (opcode i))))
    (kinds (info_signature (ir_opcode_info (opcode i)))) !! j = Some IROperandKind.CNT ->
  imm_operand i j = Ok n ->
  0 <= n /\ Z.of_nat (length (operands i))
            = Z.of_nat (fixed_count (info_signature (ir_opcode_info (opcode i)))) + n.
Proof.
  unfold check_instruction_operands. rewrite !andthen_None. intros (Hfew & _ & _ & Hc & _) [Hlen Hint] Hk Hn.
  unfold check_argument_count in Hc. rewrite check_each_None in Hc. specialize (Hc _ _ Hk).
  unfold imm_operand, operand_ub in Hn. simpl in Hc. unfold check_count_operand in Hc.
  destruct (operands i !! j) as [v|] eqn:E; [|done]. destruct v; simplify_eq/=.
  rewrite andthen_None, !fail_if_None in Hc. destruct Hc as [Hneg Hexp].
  apply negb_false_iff, Z.eqb_eq in Hexp. apply list_elem_of_lookup_2, Hint in E.
  apply Z.ltb_ge in Hneg. split; [done|]. rewrite Hexp.
  assert (fixed_count (info_signature (ir_opcode_info (opcode i))) <= 8)%nat as Hfix
    by (destruct (opcode i); vm_compute; lia).
  unfold wrapu, is_int64, INT64_MAX in *.
  rewrite (Z.mod_small n), Z.mul_1_r, Z.mod_small by lia. done.
Qed.

Lemma int32_small z : 0 <= z < 2 ^ 31 -> to_int32 z = z.
Proof. intros. apply wraps_id; simpl; lia. Qed.

(** ** Instructions *)

Section Body.
Context (program : IRProgram) (call_rec : string -> list Value -> M Interp Value).

Lemma fine_unary_effect F f i :
  operands_ok i -> (2 <= length (operands i))%nat ->
  is_register_kind (operand_kind i 0) = true -> is_register_kind (operand_kind i 1) = true ->
  (forall v, fine (F v)) -> fine (unary_effect F f i).
Proof.
  intros Hok Hlen H0 H1 HF. unfold unary_effect.
  apply fine_bind; [apply fine_ok, reg_operand_ok; done || lia|intros ? _].
  apply fine_bind; [apply fine_val_operand, reg_operand_ok; done || lia|intros ? _].
  by apply fine_bind.
Qed.

Lemma fine_binary_effect F f i :
  operands_ok i -> (3 <= length (operands i))%nat ->
  is_register_kind (operand_kind i 0) = true -> is_register_kind (operand_kind i 1) = true ->
  is_register_kind (operand_kind i 2) = true ->
  (forall a b, fine (F a b)) -> fine (binary_effect F f i).
Proof.
  intros Hok Hlen H0 H1 H2 HF. unfold binary_effect.
  apply fine_bind; [apply fine_ok, reg_operand_ok; done || lia|intros ? _].
  apply fine_bind; [apply fine_val_operand, reg_operand_ok; done || lia|intros ? _].
  apply fine_bind; [apply fine_val_operand, reg_operand_ok; done || lia|intros ? _].
  by apply fine_bind.
Qed.

Lemma fine_logical_effect f i :
  operands_ok i -> (3 <= length (operands i))%nat ->
  is_register_kind (operand_kind i 0) = true -> is_register_kind (operand_kind i 1) = true ->
  is_register_kind (operand_kind i 2) = true -> fine (logical_effect f i).
Proof.
  intros Hok Hlen H0 H1 H2. unfold logical_effect.
  apply fine_bind; [apply fine_ok, reg_operand_ok; done || lia|intros ? _].
  apply fine_bind; [apply fine_val_operand, reg_operand_ok; done || lia|intros ? _].
  apply fine_bind; [apply fine_val_operand, reg_operand_ok; done || lia|intros ? _].
  by destruct (Bool.eqb _ _).
Qed.

Lemma fine_type_test_effect f i :
  operands_ok i -> (3 <= length (operands i))%nat ->
  is_register_kind (operand_kind i 0) = true -> is_register_kind (operand_kind i 1) = true ->
  is_immediate_kind (operand_kind i 2) = true -> fine (type_test_effect f i).
Proof.
  intros Hok Hlen H0 H1 H2. unfold type_test_effect.
  apply fine_bind; [apply fine_ok, reg_operand_ok; done || lia|intros ? _].
  apply fine_bind; [apply fine_val_operand, reg_operand_ok; done || lia|intros ? _].
  by apply fine_bind; [apply fine_ok, imm_operand_ok; done || lia|].
Qed.

Lemma fine_branch_effect f i :
  operands_ok i -> (2 <= length (operands i))%nat ->
  is_register_kind (operand_kind i 0) = true -> is_name_kind (operand_kind i 1) = true ->
  fine (branch_effect program f i).
Proof.
  intros Hok Hlen H0 H1. unfold branch_effect.
  apply fine_bind; [apply fine_val_operand, reg_operand_ok; done || lia|intros ? _].
  destruct (Bool.eqb _ _); [|done].
  by apply fine_bind; [apply fine_ok, label_text_ok; done || lia|].
Qed.

Lemma fine_fused_effect f i :
  operands_ok i -> (3 <= length (operands i))%nat ->
  is_register_kind (operand_kind i 0) = true -> is_register_kind (operand_kind i 1) = true ->
  is_name_kind (operand_kind i 2) = true -> fine (fused_effect program f i).
Proof.
  intros Hok Hlen H0 H1 H2. unfold fused_effect.
  apply fine_bind; [apply fine_val_operand, reg_operand_ok; done || lia|intros ? _].
  apply fine_bind; [apply fine_val_operand, reg_operand_ok; done || lia|intros ? _].
  apply fine_bind; [apply fine_fused_branch_taken|intros [] _]; [|done].
  by apply fine_bind; [apply fine_ok, label_text_ok; done || lia|].
Qed.

Lemma fine_switch_effect f i k :
  check_instruction_operands k i = None -> representable i -> opcode i = IROpcode.SWITCH ->
  fine (switch_effect program f i).
Proof.
  intros Hc Hrep Ho. pose proof (check_instruction_operands_ok _ _ Hc) as Hok.
  pose proof (ok_length i _ 3 Hok Ho eq_refl) as Hlen. unfold switch_effect.
  apply fine_bind; [apply fine_val_operand, reg_operand_ok; [done|lia|unfold operand_kind; by rewrite Ho]|].
  intros [|value| | |] _; try done.
  apply fine_bind; [apply fine_ok, imm_operand_ok; [done|lia|unfold operand_kind; by rewrite Ho]|].
  intros base _.
  apply fine_bind; [apply fine_ok, imm_operand_ok; [done|lia|unfold operand_kind; by rewrite Ho]|].
  intros count Hcount.
  destruct (count_operand k i 2 count Hc Hrep) as [Hpos Hlen']; [by rewrite Ho|done|].
  rewrite Ho in Hlen'. change (Z.of_nat (length (operands i)) = 3 + count) in Hlen'.
  destruct (value <? base) eqn:Elo; [done|]. apply fine_bind; [auto with fine|intros limit Hlimit].
  destruct (limit <=? value) eqn:Ehi; [done|]. apply fine_bind; [auto with fine|intros diff Hdiff].
  unfold checked in Hlimit, Hdiff. destruct (bool_decide _); simplify_eq.
  destruct (bool_decide _); simplify_eq.
  apply fine_bind; [|done]. apply fine_ok, label_text_ok; [done|lia|].
  assert (operand_kind i (3 + Z.to_nat (value - base)) = IROperandKind.LBL_LIST) as ->; [|done].
  unfold operand_kind. rewrite Ho.
  apply (kind_at_list [IROperandKind.SRC; IROperandKind.IMM; IROperandKind.CNT; IROperandKind.LBL_LIST]);
    [done|simpl; lia].
Qed.

Lemma fine_global_call_effect func f i k :
  check_instruction_operands k i = None -> representable i -> opcode i = IROpcode.GLOBAL_CALL ->
  fine (global_call_effect func f i).
Proof.
  intros Hc Hrep Ho. pose proof (check_instruction_operands_ok _ _ Hc) as Hok.
  pose proof (ok_length i _ 4 Hok Ho eq_refl) as Hlen. unfold global_call_effect.
  apply fine_bind; [apply fine_ok, reg_operand_ok; [done|lia|unfold operand_kind; by rewrite Ho]|intros ? _].
  apply fine_bind; [apply fine_ok, imm_operand_ok; [done|lia|unfold operand_kind; by rewrite Ho]|intros fn _].
  apply fine_bind; [apply fine_ok, imm_operand_ok; [done|lia|unfold operand_kind; by rewrite Ho]|].
  intros count Hcount.
  destruct (count_operand k i 3 count Hc Hrep) as [Hpos Hlen']; [by rewrite Ho|done|].
  rewrite Ho in Hlen'. change (Z.of_nat (length (operands i)) = 4 + count) in Hlen'. destruct Hrep as [Hsmall _].
  rewrite (int32_small count) by lia.
  destruct (count <? 0); [done|]. apply fine_bind.
  - apply fine_arg_values; [done|lia|]. intros n Hn. unfold operand_kind. rewrite Ho.
    apply (kind_at_list [IROperandKind.DST; IROperandKind.IMM; IROperandKind.IMM; IROperandKind.CNT;
      IROperandKind.SRC_LIST]); [done|simpl; lia].
  - intros args _. by apply fine_bind; [apply fine_global_call_value|].
Qed.

Lemma fine_load_effect i :
  operands_ok i -> is_register_kind (operand_kind i 0) = true -> (1 <= length (operands i))%nat ->
  fine (load_value program i) ->
  fine (let? _ := reg_operand i 0 in let? v := load_value program i in Ok ([] : list nat, E_write v)).
Proof.
  intros Hok Hk Hlen Hv. apply fine_bind; [apply fine_ok, reg_operand_ok; done || lia|intros ? _].
  by apply fine_bind.
Qed.

Lemma fine_load_value i :
  operands_ok i -> opcode i = IROpcode.LOAD_NIL \/
    (2 <= length (operands i))%nat /\
    (if IROpcode.eqb (opcode i) IROpcode.LOAD_FLOAT_IMM then operand_kind i 1 = IROperandKind.FIMM
     else is_immediate_kind (operand_kind i 1) = true) ->
  fine (load_value program i).
Proof.
  intros Hok [Hn|[Hlen Hk]]; unfold load_value; [by rewrite Hn|].
  destruct (opcode i) eqn:Ho; simpl in Hk; try done;
    try (apply fine_bind; [apply fine_ok, float_operand_ok; done || lia|done]);
    (apply fine_bind; [apply fine_ok, imm_operand_ok; done || lia|intros index _]); try done;
    (destruct (_ || _); [done|]); unfold nth_ub; by destruct (string_constants program !! _).
Qed.

Lemma fine_load_global_effect i s :
  operands_ok i -> (2 <= length (operands i))%nat ->
  is_register_kind (operand_kind i 0) = true -> is_immediate_kind (operand_kind i 1) = true ->
  fine (load_global_effect i s).2.
Proof.
  intros Hok Hlen H0 H1. unfold load_global_effect, mbind, mlift, mget, mret.
  destruct (reg_operand_ok i Hok 0 ltac:(lia) H0) as [r ->].
  destruct (imm_operand_ok i Hok 1 ltac:(lia) H1) as [z ->].
  destruct (_ || _); [done|]. unfold nth_ub. by destruct (m_globals s !! _).
Qed.

Lemma fine_store_global_effect f i s :
  operands_ok i -> (2 <= length (operands i))%nat ->
  is_immediate_kind (operand_kind i 0) = true -> is_register_kind (operand_kind i 1) = true ->
  fine (store_global_effect f i s).2.
Proof.
  intros Hok Hlen H0 H1. unfold store_global_effect, val_operand, mbind, mlift, mget, mret, mmodify.
  destruct (imm_operand_ok i Hok 0 ltac:(lia) H0) as [z ->].
  destruct (reg_operand_ok i Hok 1 ltac:(lia) H1) as [r ->]. simpl. by destruct (_ || _).
Qed.

Context (D : Z).
Hypothesis fine_calls : forall name args s, m_call_depth s = D -> fine (call_rec name args s).2.
Hypothesis calls_keep_depth : keeps_depth call_rec D.

Lemma fine_call_effect f i k s :
  m_call_depth s = D ->
  check_instruction_operands k i = None -> representable i -> opcode i = IROpcode.CALL ->
  fine (call_effect program call_rec f i s).2.
Proof.
  intros Hs Hc Hrep Ho. pose proof (check_instruction_operands_ok _ _ Hc) as Hok.
  pose proof (ok_length i _ 3 Hok Ho eq_refl) as Hlen. unfold call_effect, mbind, mlift, mret.
  destruct (label_text_ok i Hok 0 ltac:(lia) program) as [name ->]; [unfold operand_kind; by rewrite Ho|].
  destruct (reg_operand_ok i Hok 1 ltac:(lia)) as [r ->]; [unfold operand_kind; by rewrite Ho|].
  destruct (imm_operand_ok i Hok 2 ltac:(lia)) as [count Hcount]; [unfold operand_kind; by rewrite Ho|].
  rewrite Hcount.
  destruct (count_operand k i 2 count Hc Hrep) as [Hpos Hlen']; [by rewrite Ho|done|].
  rewrite Ho in Hlen'. change (Z.of_nat (length (operands i)) = 3 + count) in Hlen'. destruct Hrep as [Hsmall _].
  rewrite (int32_small count) by lia.
  assert (fine (arg_values f i 3 (Z.to_nat count))) as Hargs.
  { apply fine_arg_values; [done|lia|]. intros n Hn. unfold operand_kind. rewrite Ho.
    apply (kind_at_list [IROperandKind.STR; IROperandKind.DST; IROperandKind.CNT; IROperandKind.SRC_LIST]);
      [done|simpl; lia]. }
  destruct (arg_values f i 3 (Z.to_nat count)) as [args|]; [|done].
  destruct (m_function_map program !! name); [|done].
  pose proof (fine_calls name args s Hs) as Hcall. by destruct (call_rec name args s) as [? []].
Qed.

Ltac op_row Ho := unfold operand_kind; rewrite Ho; by vm_compute.
Ltac op_len Hok Ho :=
  eapply Nat.le_trans; [|apply (ok_fixed _ Hok)]; rewrite Ho; apply Nat.leb_le; by vm_compute.

Lemma fine_host_only func i : fine (exec_host_only func i).
Proof. unfold exec_host_only. by destruct (opcode i). Qed.

Lemma fine_effect_of func f i k s :
  m_call_depth s = D -> check_instruction_operands k i = None -> representable i ->
  fine (effect_of program call_rec func f i s).2.
Proof.
  intros Hs Hc Hrep. pose proof (check_instruction_operands_ok _ _ Hc) as Hok.
  unfold effect_of. destruct (opcode i) eqn:Ho; cbn [mlift snd mret];
    try (apply fine_bind; [apply fine_host_only|done]);
    first
    [ done
    | apply fine_load_effect; [done|op_row Ho|op_len Hok Ho|apply fine_load_value; [done|]];
      first [by left|right; split; [op_len Hok Ho|op_row Ho || (rewrite Ho; op_row Ho)]]
    | apply fine_load_global_effect; [done|op_len Hok Ho|op_row Ho|op_row Ho]
    | apply fine_store_global_effect; [done|op_len Hok Ho|op_row Ho|op_row Ho]
    | by eapply fine_call_effect
    | by eapply fine_global_call_effect
    | by eapply fine_switch_effect
    | apply fine_unary_effect; [done|op_len Hok Ho|op_row Ho|op_row Ho|];
      intros; first [done|apply fine_convert_value|apply fine_unary_op]
    | apply fine_binary_effect; [done|op_len Hok Ho|op_row Ho|op_row Ho|op_row Ho|];
      intros; first [apply fine_binary_op|apply fine_compare_op]
    | apply fine_logical_effect; [done|op_len Hok Ho|op_row Ho|op_row Ho|op_row Ho]
    | apply fine_type_test_effect; [done|op_len Hok Ho|op_row Ho|op_row Ho|op_row Ho]
    | apply fine_branch_effect; [done|op_len Hok Ho|op_row Ho|op_row Ho]
    | apply fine_fused_effect; [done|op_len Hok Ho|op_row Ho|op_row Ho|op_row Ho]
    | apply fine_bind; [apply fine_ok, label_text_ok; [done|op_len Hok Ho|op_row Ho]|done]
    | idtac ].
Qed.

(** ** Functions and programs *)

Definition safe_body (func : IRFunction) : Prop :=
  forall k i, instructions func !! k = Some i ->
    check_instruction_operands k i = None /\ representable i.

Lemma fine_step func c s :
  safe_body func -> m_call_depth s = D -> running func c = true ->
  fine (step program call_rec func c s).2.
Proof.
  intros Hsafe Hs Hrun. destruct (running_lookup _ _ Hrun) as [_ [i Hi]].
  destruct (Hsafe _ _ Hi) as [Hc Hrep]. rewrite (step_effect _ _ _ _ _ _ Hi).
  pose proof (fine_effect_of func (rd (registers c)) i _ s Hs Hc Hrep) as Hf.
  destruct (effect_of _ _ _ _ _ _) as [s' [te|e]]; [|done]. simpl.
  apply fine_bind; [|done]. rewrite apply_effect_regs. destruct (te.2); try done.
  unfold jump_to_label. by destruct (labels _ !! _).
Qed.

Lemma fine_loop func n s c :
  safe_body func -> m_call_depth s = D ->
  match iter_until (loop_step program call_rec func) n (s, c) with
  | inr (_, o) => fine o
  | inl _ => True
  end.
Proof.
  intros Hsafe. revert s c. induction n as [|n IH]; intros s c Hs; [done|]. simpl.
  destruct (running func c) eqn:Hrun; [|done].
  pose proof (fine_step func c s Hsafe Hs Hrun) as Hf.
  destruct (step program call_rec func c s) as [s' [c'|e]] eqn:Est; [|done]. apply IH.
  by eapply step_depth.
Qed.

Lemma fine_run_body steps func c s :
  safe_body func -> m_call_depth s = D -> fine (run_body program call_rec steps func c s).2.
Proof.
  intros Hsafe Hs. unfold run_body. rewrite iter_until_pos_nat.
  pose proof (fine_loop func (Pos.to_nat steps) s c Hsafe Hs) as Hf.
  destruct (iter_until _ _ _) as [[s' c']|[s' [c'|e]]]; try done. by destruct (running func c').
Qed.

End Body.

Lemma fine_call_function program call_rec func args s :
  (m_call_depth s + 1 <= MAX_CALL_DEPTH ->
    (forall name args' s', m_call_depth s' = m_call_depth s + 1 -> fine (call_rec name args' s').2)
    /\ keeps_depth call_rec (m_call_depth s + 1)) ->
  safe_body func -> fine (call_function program call_rec func args s).2.
Proof.
  intros Hrec Hsafe. unfold call_function, mbind, execute_function, mbind, mmodify, mget. simpl.
  destruct (MAX_CALL_DEPTH <? m_call_depth s + 1) eqn:Ed; [done|].
  destruct Hrec as [Hfine Hkeep]; [lia|].
  pose proof (fine_run_body program call_rec (m_call_depth s + 1) Hfine Hkeep MAX_STEPS func
    (mkContext (argument_registers func args) (collect_labels program (instructions func) 0 ∅) 0 false VNil)
    (set_depth s (m_call_depth s + 1)) Hsafe eq_refl) as Hf.
  by destruct (run_body _ _ _ _ _ _) as [s' [c|e]].
Qed.

Lemma function_map_elem program name func :
  m_function_map program !! name = Some func -> func ∈ functions program /\ fn_name func = name.
Proof.
  unfold m_function_map.
  assert (forall l acc, (fold_left (fun m f => <[fn_name f := f]> m) l acc : gmap string IRFunction) !! name
    = Some func -> acc !! name = Some func \/ func ∈ l /\ fn_name func = name) as Hgen.
  { induction l as [|f l IH]; intros acc Hl; simpl in *; [by left|].
    destruct (IH _ Hl) as [Ha|[Hin Hn]]; [|right; set_solver].
    rewrite lookup_insert in Ha. case_decide; [|by left]. simplify_eq. right. split; [set_solver|done]. }
  intros Hl. destruct (Hgen _ _ Hl) as [Ha|?]; [|done]. by rewrite lookup_empty in Ha.
Qed.

(** Every function of the program has operands of the forms the C++ types admit. *)
Definition representable_program (program : IRProgram) : Prop :=
  forall func i, func ∈ functions program -> i ∈ instructions func -> representable i.

Lemma verified_safe_body program func :
  ir_verify_program program = None -> representable_program program ->
  func ∈ functions program -> safe_body func.
Proof.
  unfold ir_verify_program. rewrite andthen_None, check_each_nat_None. intros [Hall _] Hrep Hf k i Hi.
  pose proof (Hall _ Hf) as Hv. destruct (verified_checks program Hv) as (_ & Hops & _).
  unfold check_operands in Hops. rewrite check_each_None in Hops.
  split; [by apply Hops|]. eapply Hrep; [done|]. by eapply list_elem_of_lookup_2.
Qed.

(** C10: A program the verifier accepts never makes the interpreter index an
    operand list past its end or read the inactive member of an operand's union,
    in any call with any arguments from any interpreter state; nor does the
    model of its calls ever run out of its budget. *)
Theorem verified_program_never_misreads (program : IRProgram) (name : string)
    (args : list Value) (s : Interp) (e : exn) :
  ir_verify_program program = None -> representable_program program -> 0 <= m_call_depth s ->
  (call program name args s).2 = Throw e -> malformed e = false.
Proof.
  intros Hv Hrep Hs.
  assert (forall fuel nm as_ st, (1 <= fuel)%nat -> MAX_CALL_DEPTH < m_call_depth st + Z.of_nat fuel ->
    fine (call_fuel program fuel nm as_ st).2) as Hfine.
  { induction fuel as [|fuel IH]; intros nm as_ st Hf Hd; [lia|]. rewrite call_fuel_S.
    destruct (m_function_map program !! nm) as [func|] eqn:Ef; [|done].
    apply function_map_elem in Ef as [Hin _].
    apply fine_call_function; [|by eapply verified_safe_body].
    intros Hd'. split; [|apply call_fuel_depth]. intros nm' as' st' Hst'. apply IH; lia. }
  intros He. pose proof (Hfine CALL_FUEL name args s) as Hf. unfold call in He. rewrite He in Hf.
  apply Hf; [apply Nat.leb_le; by vm_compute|].
  assert (Z.of_nat CALL_FUEL = MAX_CALL_DEPTH + 1) as -> by (by vm_compute). lia.
Qed.

End Safe.

Module SafeWitness.
Import Samples.
#[local] Existing Instance identity_libm.

Definition initial : Interp := mkInterp [] "" 0.

Lemma verified_program_never_misreads_witness :
  malformed (CompilerException OPTIMIZER_ERROR "'**' is evaluated by the host through Variant::evaluate() and is not available in the IR interpreter (in function 'pow')") = false.
Proof.
  apply (verified_program_never_misreads program "pow" [VInt 1; VInt 2] initial).
  - by vm_compute.
  - intros func i Hf Hi. apply representable_decide.
    revert i Hi. apply Forall_forall. revert func Hf. apply Forall_forall. apply (bool_decide_unpack _). by vm_compute.
  - done.
  - by vm_compute.
Defined.

End SafeWitness.
