(* ===== verification/Positions.v ===== *)
(** * Deleting instructions

    A pass that deletes instructions keeps a subset of the positions.  This
    file relates positions before and after, and the label maps of the two
    bodies. *)

From S2P Require Import Prelude.
From S2P Require Import Dataflow.
From S2P Require Import Double.
From S2P Require Import VariantTypes.
From S2P Require Import IROpcodes.
From S2P Require Import Globals.
From S2P Require Import IR.
From S2P Require Import Cfg.
From S2P Require Import Verifier.
From S2P Require Import VerifierFacts.
From S2P Require Import Interpreter.
From S2P Require Import Effects.
From S2P Require Import Machine.
From S2P Require Import VerifierSound.

Section Survivors.
Context {A : Type} (keep : nat -> bool).

Fixpoint survivors (is_ : list A) (k : nat) : list A :=
  match is_ with
  | [] => []
  | i :: is_ => if keep k then i :: survivors is_ (S k) else survivors is_ (S k)
  end.

(** The number of kept positions in [k, k + n). *)
Fixpoint kept_from (k n : nat) : nat :=
  match n with
  | O => 0
  | S n => (if keep k then 1 else 0) + kept_from (S k) n
  end.

Definition newpos (p : nat) : nat := kept_from 0 p.

Lemma kept_from_S k n : kept_from k (S n) = (kept_from k n + if keep (k + n)%nat then 1 else 0)%nat.
Proof.
  revert k. induction n as [|n IH]; intros k.
  - simpl. rewrite !Nat.add_0_r. destruct (keep k); lia.
  - change (kept_from k (S (S n))) with ((if keep k then 1 else 0) + kept_from (S k) (S n))%nat.
    rewrite IH. replace (S k + n)%nat with (k + S n)%nat by lia. cbn [kept_from]. lia.
Qed.

Lemma newpos_S p : newpos (S p) = (newpos p + if keep p then 1 else 0)%nat.
Proof. unfold newpos. by rewrite kept_from_S. Qed.

Lemma survivors_length is_ k : length (survivors is_ k) = kept_from k (length is_).
Proof.
  revert k. induction is_ as [|i is_ IH]; intros k; [done|]. simpl.
  destruct (keep k); simpl; by rewrite IH.
Qed.

Lemma survivors_from_lookup is_ k p i :
  is_ !! p = Some i -> keep (k + p)%nat = true -> survivors is_ k !! kept_from k p = Some i.
Proof.
  revert k p. induction is_ as [|j is_ IH]; intros k [|p] Hi Hk; simplify_eq/=.
  - rewrite Nat.add_0_r in Hk. by rewrite Hk.
  - specialize (IH (S k) p Hi). rewrite <- Nat.add_succ_comm in Hk. specialize (IH Hk).
    destruct (keep k); simpl; done.
Qed.

Lemma survivors_lookup is_ p i :
  is_ !! p = Some i -> keep p = true -> survivors is_ 0 !! newpos p = Some i.
Proof. intros. by apply survivors_from_lookup. Qed.

Lemma survivors_from_inv is_ k q i :
  survivors is_ k !! q = Some i ->
  exists p, is_ !! p = Some i /\ keep (k + p)%nat = true /\ kept_from k p = q.
Proof.
  revert k q. induction is_ as [|j is_ IH]; intros k q Hq; simpl in Hq; [done|].
  destruct (keep k) eqn:Ek; [destruct q as [|q]|]; simpl in Hq.
  - simplify_eq. exists 0%nat. rewrite Nat.add_0_r. done.
  - destruct (IH _ _ Hq) as (p & Hp & Hkp & Hn). exists (S p). rewrite <- Nat.add_succ_comm.
    split; [done|]. split; [done|]. simpl. rewrite Ek, Hn. done.
  - destruct (IH _ _ Hq) as (p & Hp & Hkp & Hn). exists (S p). rewrite <- Nat.add_succ_comm.
    split; [done|]. split; [done|]. simpl. by rewrite Ek, Hn.
Qed.

Lemma survivors_inv is_ q i :
  survivors is_ 0 !! q = Some i -> exists p, is_ !! p = Some i /\ keep p = true /\ newpos p = q.
Proof. apply survivors_from_inv. Qed.

Lemma newpos_mono p q : (p <= q)%nat -> (newpos p <= newpos q)%nat.
Proof. induction 1 as [|q Hle IH]; [done|]. rewrite newpos_S. lia. Qed.

Lemma newpos_lt_iff is_ p i :
  is_ !! p = Some i -> keep p = true -> (newpos p < length (survivors is_ 0))%nat.
Proof. intros Hi Hk. by eapply lookup_lt_Some, survivors_lookup. Qed.

End Survivors.

(** ** Labels *)

Section Labels.
Context (program : IRProgram).

Definition names (i : IRInstruction) (l : string) : Prop :=
  exists id, label_id i = Some id /\ IRStringTable.get (strings program) id = l.

Lemma collect_labels_total is_ k acc l :
  (is_Some (acc !! l) \/ exists i, i ∈ is_ /\ names i l) ->
  is_Some (collect_labels program is_ k acc !! l).
Proof.
  revert k acc. induction is_ as [|i is_ IH]; intros k acc Hl; simpl.
  { destruct Hl as [|(i & Hi & _)]; [done|]. by apply elem_of_nil in Hi. }
  apply IH. destruct Hl as [Ha|(j & [->|Hj]%elem_of_cons & Hn)]; [left|left|right; eauto].
  - destruct (opcode i); try done. destruct (operands i) as [|[] ?]; try done.
    rewrite lookup_insert. by case_decide.
  - destruct Hn as (id & Hid & Hl). unfold label_id in Hid. destruct (opcode i); try done.
    destruct (operands i) as [|[] ?]; simplify_eq. rewrite lookup_insert_eq. by eexists.
Qed.

(** A label defined once is found where it is. *)
Lemma labels_unique func l t i :
  instructions func !! t = Some i -> names i l ->
  (forall t' i', instructions func !! t' = Some i' -> names i' l -> t' = t) ->
  function_labels program func !! l = Some t.
Proof.
  intros Hi Hn Hu. unfold function_labels.
  destruct (collect_labels_total (instructions func) 0 ∅ l) as [t' Ht'].
  { right. exists i. split; [by eapply list_elem_of_lookup_2|done]. }
  rewrite Ht'. f_equal.
  destruct (function_labels_spec program func l t' Ht') as (j & id & Hj & Hid & Hl).
  eapply Hu; [done|]. by exists id.
Qed.

Lemma index_labels_unique is_ k acc m p q i j l :
  (forall x, x ∈ is_ -> operands_ok x) ->
  index_labels (Some (strings program)) is_ k acc = inr m ->
  is_ !! p = Some i -> is_ !! q = Some j -> names i l -> names j l ->
  p = q /\ acc !! l = None.
Proof.
  revert k acc p q i j. induction is_ as [|x is_ IH]; intros k acc p q i j Hok Hi Hp Hq Hni Hnj; [done|].
  simpl in Hi. assert (forall y, names y l -> ir_has_effect (opcode y) IR_LABEL = true) as Hlab.
  { intros y (id & Hid & _). by rewrite (label_id_opcode _ _ Hid). }
  destruct (ir_has_effect (opcode x) IR_LABEL) eqn:Ex; simpl in Hi.
  - destruct (label_operand x) as (Ho & id & ops & Hops); [apply Hok; set_solver|done|].
    rewrite Hops in Hi. simpl in Hi.
    set (nm := IRStringTable.get (strings program) id) in *.
    assert (names x l <-> nm = l) as Hx.
    { unfold names, label_id. rewrite Ho, Hops. split; [by intros (? & [= <-] & ?)|eauto]. }
    destruct (acc !! nm) as [t|] eqn:Ea; [done|].
    destruct p as [|p], q as [|q]; simplify_eq/=.
    + split; [done|]. by apply Hx in Hni as <-.
    + apply Hx in Hni as <-.
      destruct (IH _ _ q q j j ltac:(set_solver) Hi Hq Hq Hnj Hnj) as [_ Hbad]. by rewrite lookup_insert_eq in Hbad.
    + apply Hx in Hnj as <-.
      destruct (IH _ _ p p i i ltac:(set_solver) Hi Hp Hp Hni Hni) as [_ Hbad]. by rewrite lookup_insert_eq in Hbad.
    + destruct (IH _ _ p q i j ltac:(set_solver) Hi Hp Hq Hni Hnj) as [-> Hacc].
      rewrite lookup_insert in Hacc. by case_decide.
  - destruct p as [|p], q as [|q]; simplify_eq/=.
    + by rewrite Hlab in Ex.
    + by rewrite Hlab in Ex.
    + by rewrite Hlab in Ex.
    + by destruct (IH _ _ p q i j ltac:(set_solver) Hi Hp Hq Hni Hnj) as [-> ?].
Qed.

(** Two labels of a verified function have different names. *)
Lemma verified_labels_unique func p q i j l :
  verified program func ->
  instructions func !! p = Some i -> instructions func !! q = Some j ->
  names i l -> names j l -> p = q.
Proof.
  intros Hv Hp Hq Hi Hj. destruct (verified_checks program Hv) as (_ & _ & Hl & _).
  unfold check_labels in Hl. destruct (index_labels _ _ _ _) as [|m] eqn:E; [done|].
  eapply index_labels_unique in E; [by destruct E| |done|done|done|done].
  intros x Hx. apply list_elem_of_lookup in Hx as [k Hk]. by eapply verified_operands.
Qed.

(** Deleting other instructions moves a label of a verified function. *)
Lemma survivors_labels func func' keep l t i :
  verified program func -> instructions func' = survivors keep (instructions func) 0 ->
  instructions func !! t = Some i -> names i l -> keep t = true ->
  function_labels program func' !! l = Some (newpos keep t).
Proof.
  intros Hv Hs Hi Hn Hk. apply (labels_unique func' l (newpos keep t) i).
  - rewrite Hs. by apply survivors_lookup.
  - done.
  - intros t' i' Hi' Hn'. rewrite Hs in Hi'.
    apply survivors_inv in Hi' as (p & Hp & _ & <-). f_equal.
    by eapply verified_labels_unique.
Qed.

End Labels.
