(* ===== verification/OptimizerBase.v ===== *)
(** * Shared parts of the optimizer

    Models the helpers of [IROptimizer] (ir_optimizer.cpp) every pass uses:
    [replace_instructions] and the unchecked operand accesses, and the facts
    about executed instructions the correctness proofs of the passes share. *)

From S2P Require Import Prelude.
From S2P Require Import Dataflow.
From S2P Require Import Double.
From S2P Require Import VariantTypes.
From S2P Require Import IROpcodes.
From S2P Require Import Globals.
From S2P Require Import IR.
From S2P Require Import Cfg.
From S2P Require Import Verifier.
From S2P Require Import VerifierFacts.
From S2P Require Import Interpreter.
From S2P Require Import Effects.
From S2P Require Import Machine.
From S2P Require Import VerifierSound.

(** [instr.operands[n].reg_index()] in a pass. *)
Definition op_reg (i : IRInstruction) (n : nat) : Z :=
  match operands i !! n with Some v => IRValue.reg_index v | None => -1 end.

Definition op_imm (i : IRInstruction) (n : nat) : Z :=
  match operands i !! n with Some v => IRValue.immediate v | None => 0 end.

(** [ir_destination_register] as the source answers it: -1 for none. *)
Definition dst_reg (i : IRInstruction) : Z := default (-1) (ir_destination_register i).

(** Assigns; answers whether the result differs. *)
Definition replace_instructions (func : IRFunction) (fresh : list IRInstruction) : IRFunction * bool :=
  (with_instructions func fresh,
   negb (length fresh =? length (instructions func))%nat
   || existsb (fun p => negb (instr_equals p.1 p.2)) (zip fresh (instructions func))).

(** ** Facts about verified instructions *)

Section Facts.
Context `{Libm} (program : IRProgram) (call_rec : string -> list Value -> M Interp Value).

Lemma reg_operand_op_reg i n r : reg_operand i n = Ok r -> op_reg i n = r.
Proof. intros Hr%reg_operand_Ok. unfold op_reg. by rewrite Hr. Qed.

Lemma effect_of_move func f i s d r :
  opcode i = IROpcode.MOVE -> reg_operand i 0 = Ok d -> reg_operand i 1 = Ok r ->
  effect_of program call_rec func f i s = (s, Ok ([1%nat], E_write (f r))).
Proof.
  intros Ho H0 H1. unfold effect_of. rewrite Ho. unfold mlift, unary_effect, val_operand.
  by rewrite H0, H1.
Qed.

(** A verified MOVE has two registers. *)
Lemma move_operands i :
  operands_ok i -> opcode i = IROpcode.MOVE ->
  exists d r, reg_operand i 0 = Ok d /\ reg_operand i 1 = Ok r /\ ir_destination_register i = Some d.
Proof.
  intros Hok Ho.
  destruct (ok_operand i 0 Hok) as (v & Hv & Hm); [rewrite Ho; vm_compute; lia|].
  destruct (ok_operand i 1 Hok) as (w & Hw & Hm'); [rewrite Ho; vm_compute; lia|].
  unfold operand_kind in Hm, Hm'. rewrite Ho in Hm, Hm'. destruct v; try done. destruct w; try done.
  eexists _, _. split; [by apply reg_operand_Ok|]. split; [by apply reg_operand_Ok|].
  eapply destination_register_reg; [by rewrite Ho|by apply reg_operand_Ok].
Qed.

Lemma same_effect_refl regs i x : same_effect regs i i x x.
Proof. split; [done|]. destruct (x.2) as [te|]; [|done]. split_and!; [done|done|by right]. Qed.

Lemma effect_fn_name func func' f i s :
  fn_name func = fn_name func' ->
  effect_of program call_rec func f i s = effect_of program call_rec func' f i s.
Proof.
  intros Hn. apply effect_of_congr; [done|]. split; try done.
  intros n. unfold same_slot. destruct (operands i !! n) as [v|]; [|done]. by destruct v.
Qed.

Lemma dst_nonneg func k i d :
  check_register_range func = None -> instructions func !! k = Some i ->
  ir_destination_register i = Some d -> 0 <= d.
Proof.
  intros Hr Hi Hd. unfold ir_destination_register in Hd.
  destruct (ir_destination_operand_index (opcode i)) as [n|]; [|done].
  destruct (operands i !! n) as [[]|] eqn:E; simplify_eq.
  eapply (register_in_range func k i); [done|done|]. by eapply list_elem_of_lookup_2.
Qed.

End Facts.
