(* ===== verification/CopyPropagation.v ===== *)
(** * Copy propagation of constants

    Models [IROptimizer::copy_propagation] (ir_optimizer.cpp) and proves that
    it does not change what a verified function does. *)

From S2P Require Import Prelude.
From S2P Require Import Dataflow.
From S2P Require Import Double.
From S2P Require Import VariantTypes.
From S2P Require Import IROpcodes.
From S2P Require Import Globals.
From S2P Require Import IR.
From S2P Require Import Cfg.
From S2P Require Import Verifier.
From S2P Require Import VerifierFacts.
From S2P Require Import Interpreter.
From S2P Require Import Effects.
From S2P Require Import Machine.
From S2P Require Import VerifierSound.
From S2P Require Import OptimizerBase.
From S2P Require Import Samples.

Module CopyPropagation.

Record ConstantInfo := mkConstantInfo {
  ci_opcode : IROpcode;
  ci_value : IRValue;
  ci_type_hint : Z
}.

Abbreviation Constants := (gmap Z ConstantInfo).

(** A label forgets everything, a definition forgets its register. *)
Definition kill (constant_regs : Constants) (i : IRInstruction) : Constants :=
  let constant_regs := if IROpcode.eqb (opcode i) IROpcode.LABEL then ∅ else constant_regs in
  let killed := dst_reg i in
  if 0 <=? killed then delete killed constant_regs else constant_regs.

Definition is_constant_load (i : IRInstruction) : bool :=
  IROpcode.eqb (opcode i) IROpcode.LOAD_IMM || IROpcode.eqb (opcode i) IROpcode.LOAD_FLOAT_IMM.

Definition record (constant_regs : Constants) (i : IRInstruction) : Constants :=
  if is_constant_load i then
    match operands i with
    | IRValue.REGISTER dst :: value :: _ =>
        <[dst := mkConstantInfo (opcode i) value (type_hint i)]> constant_regs
    | _ => constant_regs
    end
  else constant_regs.

(** One iteration of the pass: the new table and the instruction emitted. *)
Definition propagate (constant_regs : Constants) (i : IRInstruction) : Constants * IRInstruction :=
  let constant_regs := record (kill constant_regs i) i in
  if IROpcode.eqb (opcode i) IROpcode.MOVE then
    let dst := op_reg i 0 in
    let src := op_reg i 1 in
    match constant_regs !! src with
    | Some info =>
        (<[dst := info]> constant_regs,
         with_type_hint (instr (ci_opcode info) [IRValue.reg dst; ci_value info]) (ci_type_hint info))
    | None => (constant_regs, i)
    end
  else (constant_regs, i).

Fixpoint propagate_all (constant_regs : Constants) (is_ : list IRInstruction) : list IRInstruction :=
  match is_ with
  | [] => []
  | i :: is_ =>
      let '(constant_regs, i') := propagate constant_regs i in
      i' :: propagate_all constant_regs is_
  end.

Definition copy_propagation (func : IRFunction) : IRFunction * bool :=
  replace_instructions func (propagate_all ∅ (instructions func)).

(** ** Correctness *)

(** The table before instruction [p]. *)
Fixpoint table_at (constant_regs : Constants) (is_ : list IRInstruction) (p : nat) : Constants :=
  match p, is_ with
  | S p, i :: is_ => table_at (propagate constant_regs i).1 is_ p
  | _, _ => constant_regs
  end.

Lemma table_at_S K is_ p i :
  is_ !! p = Some i -> table_at K is_ (S p) = (propagate (table_at K is_ p) i).1.
Proof.
  revert K p. induction is_ as [|j is_ IH]; intros K [|p] Hi; simplify_eq/=; [by destruct is_|].
  by rewrite <- IH.
Qed.

Lemma copied_propagate_all_lookup K is_ p i :
  is_ !! p = Some i -> propagate_all K is_ !! p = Some (propagate (table_at K is_ p) i).2.
Proof.
  revert K p. induction is_ as [|j is_ IH]; intros K [|p] Hi; simplify_eq/=;
    destruct (propagate K _) as [K' j'] eqn:E; simpl; [done|].
  by apply IH.
Qed.

Lemma copied_propagate_all_length K is_ : length (propagate_all K is_) = length is_.
Proof.
  revert K. induction is_ as [|i is_ IH]; intros K; [done|]. simpl.
  destruct (propagate K i). simpl. by rewrite IH.
Qed.

(** The value a constant stands for. *)
Definition const_value (info : ConstantInfo) : option Value :=
  match ci_opcode info, ci_value info with
  | IROpcode.LOAD_IMM, IRValue.IMMEDIATE z => Some (VInt z)
  | IROpcode.LOAD_FLOAT_IMM, IRValue.FLOAT d => Some (VFloat d)
  | _, _ => None
  end.

(** Every constant of the table is in its register. *)
Definition holds (K : Constants) (regs : gmap Z Value) : Prop :=
  forall r info, K !! r = Some info -> exists v, const_value info = Some v /\ regs !! r = Some v.

Section Correct.
Context `{Libm} (program : IRProgram) (call_rec : string -> list Value -> M Interp Value).
Context (func : IRFunction).
Hypothesis Hrange : check_register_range func = None.
Hypothesis Hops : check_operands func = None.

Abbreviation body := (instructions func).
Abbreviation table := (table_at ∅ body).

(** What is known when instruction [p] runs, however it was reached. *)
Definition known (p : nat) (regs : gmap Z Value) : Prop :=
  forall i, body !! p = Some i -> opcode i <> IROpcode.LABEL -> holds (table p) regs.

Lemma kill_lookup K i r info :
  kill K i !! r = Some info -> (0 <= dst_reg i -> r <> dst_reg i) /\ opcode i <> IROpcode.LABEL /\ K !! r = Some info.
Proof.
  unfold kill. destruct (0 <=? dst_reg i) eqn:E.
  - intros [Hne Hl]%lookup_delete_Some. split; [done|].
    destruct (opcode i); simpl in Hl; try done.
  - intros Hl. split; [lia|]. destruct (opcode i); simpl in Hl; done.
Qed.

Lemma effect_of_load f i s :
  operands_ok i -> is_constant_load i = true ->
  exists d x v, operands i !! 0%nat = Some (IRValue.REGISTER d) /\ operands i !! 1%nat = Some x
    /\ const_value (mkConstantInfo (opcode i) x (type_hint i)) = Some v
    /\ ir_destination_register i = Some d
    /\ effect_of program call_rec func f i s = (s, Ok ([], E_write v)).
Proof.
  intros Hok Hl. unfold is_constant_load in Hl.
  assert (opcode i = IROpcode.LOAD_IMM \/ opcode i = IROpcode.LOAD_FLOAT_IMM) as Ho
    by (apply orb_true_iff in Hl as [Hl|Hl]; apply IROpcode.eqb_eq in Hl; auto).
  destruct (ok_operand i 0 Hok) as (v & Hv & Hm); [destruct Ho as [-> | ->]; vm_compute; lia|].
  destruct (ok_operand i 1 Hok) as (w & Hw & Hm'); [destruct Ho as [-> | ->]; vm_compute; lia|].
  unfold operand_kind in Hm, Hm'.
  assert (exists d, v = IRValue.REGISTER d) as [d ->].
  { destruct Ho as [Ho|Ho]; rewrite Ho in Hm; destruct v; try done; by eexists. }
  assert (ir_destination_register i = Some d) as Hd.
  { eapply destination_register_reg; [|by apply reg_operand_Ok]. by destruct Ho as [-> | ->]. }
  unfold effect_of, load_value, mlift. destruct Ho as [Ho|Ho]; rewrite Ho in *; destruct w; try done;
    eexists d, _, _; (split; [done|]); (split; [done|]); (split; [done|]); (split; [done|]);
    unfold reg_operand, imm_operand, float_operand, operand_ub; rewrite Hv, Hw; done.
Qed.

(** The table stays true when the instruction falls through. *)
Lemma copied_holds_next p i regs s s' te :
  body !! p = Some i -> known p regs ->
  effect_of program call_rec func (rd regs) i s = (s', Ok te) ->
  holds (propagate (table p) i).1 (effect_regs i te regs).
Proof.
  intros Hi Hk He. pose proof (check_operands_ok _ _ _ Hops Hi) as Hok.
  (* what survives the kill *)
  assert (forall r info, kill (table p) i !! r = Some info -> ir_destination_register i <> Some r ->
    exists v, const_value info = Some v /\ effect_regs i te regs !! r = Some v) as Hkeep.
  { intros r info (_ & Hnl & Hr)%kill_lookup Hne.
    destruct (Hk i Hi Hnl r info Hr) as (v & Hv & Hreg). exists v. split; [done|].
    by apply effect_regs_frame. }
  assert (forall r info, kill (table p) i !! r = Some info -> ir_destination_register i <> Some r) as Hnd.
  { intros r info (Hne & _)%kill_lookup Hd. apply Hne; unfold dst_reg; rewrite Hd; simpl; [|done].
    by eapply dst_nonneg. }
  unfold propagate. destruct (IROpcode.eqb (opcode i) IROpcode.MOVE) eqn:Em.
  - apply IROpcode.eqb_eq in Em. destruct (move_operands i Hok Em) as (d & r & H0 & H1 & Hd).
    rewrite (effect_of_move _ _ _ _ _ _ d r) in He by done. injection He as <- <-.
    assert (record (kill (table p) i) i = kill (table p) i) as Hrec
      by (unfold record, is_constant_load; by rewrite Em).
    rewrite Hrec, (reg_operand_op_reg _ _ _ H0), (reg_operand_op_reg _ _ _ H1).
    destruct (kill (table p) i !! r) as [info|] eqn:Er; simpl.
    + intros x info'. rewrite lookup_insert. case_decide as Hx.
      * intros [= <-]. subst x. destruct (Hkeep _ _ Er (Hnd _ _ Er)) as (v & Hv & Hreg).
        exists v. split; [done|]. unfold effect_regs. simpl. rewrite Hd, lookup_insert_eq.
        destruct (kill_lookup _ _ _ _ Er) as (_ & Hnl & Hr).
        destruct (Hk i Hi Hnl r info Hr) as (v' & Hv' & Hreg'). unfold rd. rewrite Hreg'. simpl. congruence.
      * intros Hl. apply Hkeep; [done|]. congruence.
    + intros x info' Hl. apply Hkeep; [done|by eapply Hnd].
  - simpl. unfold record. destruct (is_constant_load i) eqn:El; [|intros x info' Hl; apply Hkeep; eauto].
    destruct (effect_of_load (rd regs) i s Hok El) as (d & w & v & H0 & H1 & Hv & Hd & He').
    rewrite He' in He. injection He as <- <-.
    destruct (operands i) as [|o0 [|o1 ops]]; simplify_eq/=.
    intros x info'. rewrite lookup_insert. case_decide as Hx.
    + intros [= <-]. subst x. exists v. split; [done|]. unfold effect_regs. simpl. by rewrite Hd, lookup_insert_eq.
    + intros Hl. apply Hkeep; [done|]. congruence.
Qed.

(** The rewritten instruction does the same. *)
Lemma propagate_same p i regs s :
  body !! p = Some i -> known p regs ->
  same_effect regs i (propagate (table p) i).2
    (effect_of program call_rec func (rd regs) i s)
    (effect_of program call_rec func (rd regs) (propagate (table p) i).2 s).
Proof.
  intros Hi Hk. unfold propagate. destruct (IROpcode.eqb (opcode i) IROpcode.MOVE) eqn:Em;
    [|apply same_effect_refl].
  apply IROpcode.eqb_eq in Em.
  destruct (move_operands i (check_operands_ok _ _ _ Hops Hi) Em) as (d & r & H0 & H1 & Hd).
  assert (record (kill (table p) i) i = kill (table p) i) as Hrec
    by (unfold record, is_constant_load; by rewrite Em).
  rewrite Hrec, (reg_operand_op_reg _ _ _ H0), (reg_operand_op_reg _ _ _ H1).
  destruct (kill (table p) i !! r) as [info|] eqn:Er; [|apply same_effect_refl]. simpl.
  apply kill_lookup in Er as (_ & Hnl & Hr).
  destruct (Hk i Hi Hnl r info Hr) as (v & Hv & Hreg).
  rewrite (effect_of_move _ _ _ _ _ _ d r) by done.
  unfold const_value in Hv. destruct info as [op x hint]. simpl in Hv.
  destruct op; try done; destruct x; simplify_eq; (split; [done|]); simpl;
    (split; [|split; [unfold rd; by rewrite Hreg|by left]]); unfold effect_regs; simpl;
    rewrite Hd; unfold ir_destination_register; simpl;
    rewrite (touched_one i 1 r H1); simpl; unfold touch, rd; by rewrite Hreg.
Qed.

Lemma propagate_label K i : label_id (propagate K i).2 = label_id i.
Proof.
  unfold propagate. destruct (IROpcode.eqb (opcode i) IROpcode.MOVE) eqn:Em; [|done].
  apply IROpcode.eqb_eq in Em. destruct (record _ _ !! _) as [info|]; [|done].
  unfold label_id. simpl. rewrite Em. by destruct (ci_opcode info).
Qed.

Lemma copied_propagate_all_labels K is_ : map label_id (propagate_all K is_) = map label_id is_.
Proof.
  revert K. induction is_ as [|i is_ IH]; intros K; [done|]. simpl.
  pose proof (propagate_label K i) as Hl. destruct (propagate K i) as [K' i']. simpl in *. by rewrite Hl, IH.
Qed.

Lemma copied_execute_equal regs s :
  execute_function program call_rec func (fresh_context regs) s
  = execute_function program call_rec (copy_propagation func).1 (fresh_context regs) s.
Proof.
  apply (in_place_correct program call_rec func (copy_propagation func).1 known); simpl.
  - done.
  - by rewrite copied_propagate_all_length.
  - unfold function_labels. simpl. apply collect_labels_ext. by rewrite copied_propagate_all_labels.
  - intros p i i' rg st Hk Hi Hi'. rewrite (copied_propagate_all_lookup _ _ _ _ Hi) in Hi'. simplify_eq.
    rewrite (effect_fn_name program call_rec (with_instructions func _) func) by done.
    by apply propagate_same.
  - intros p i rg st st' te Hk Hi He.
    assert (forall j, body !! S p = Some j -> opcode j <> IROpcode.LABEL ->
      holds (table (S p)) (effect_regs i te rg)) as Hnext.
    { intros j _ _. rewrite (table_at_S _ _ _ _ Hi). by eapply copied_holds_next. }
    destruct (te.2); try done. intros t j Hj Hl j' Hj' Hnl. congruence.
  - intros j Hj Hnl r info Hr. simpl in Hr. destruct body; simpl in Hr; by rewrite lookup_empty in Hr.
Qed.

End Correct.

(** C3: Copy propagation does not change what a verified function does: from any
    registers and interpreter state, and whatever its callees do, the rewritten
    body ends with the same value or exception, the same registers and the same
    interpreter state as the original. *)
Theorem copy_propagation_correct `{Libm} (program : IRProgram)
    (call_rec : string -> list Value -> M Interp Value) (func : IRFunction)
    (regs : gmap Z Value) (s : Interp) :
  verified program func ->
  execute_function program call_rec (copy_propagation func).1 (fresh_context regs) s
  = execute_function program call_rec func (fresh_context regs) s.
Proof.
  intros Hv. destruct (verified_checks program Hv) as (Hr & Ho & _). symmetry. by apply copied_execute_equal.
Qed.

Lemma copy_propagation_correct_witness :
  (copy_propagation Samples.copies).2 = true /\
  execute_function (H := identity_libm) Samples.program (fun _ _ => mret VNil)
    (copy_propagation Samples.copies).1 (fresh_context ∅) (mkInterp [] "" 0)
  = execute_function (H := identity_libm) Samples.program (fun _ _ => mret VNil)
    Samples.copies (fresh_context ∅) (mkInterp [] "" 0).
Proof. split; [by vm_compute|]. apply copy_propagation_correct. by vm_compute. Defined.

End CopyPropagation.
