(* ===== verification/EnhancedCopyPropagation.v ===== *)
(** * Copy propagation of registers

    Models [IROptimizer::enhanced_copy_propagation] and
    [register_unmodified_between] (ir_optimizer.cpp), and proves that the pass
    does not change what a verified function does. *)

From S2P Require Import Prelude.
From S2P Require Import Dataflow.
From S2P Require Import Double.
From S2P Require Import VariantTypes.
From S2P Require Import IROpcodes.
From S2P Require Import Globals.
From S2P Require Import IR.
From S2P Require Import Cfg.
From S2P Require Import Verifier.
From S2P Require Import VerifierFacts.
From S2P Require Import Interpreter.
From S2P Require Import Effects.
From S2P Require Import Machine.
From S2P Require Import VerifierSound.
From S2P Require Import OptimizerBase.
From S2P Require Import Samples.

Module EnhancedCopyPropagation.

Record CopyInfo := mkCopyInfo { source_reg : Z; def_idx : nat }.

Abbreviation Copies := (gmap Z CopyInfo).

(** Neither [reg] is defined nor a label passed strictly between the two. *)
Definition register_unmodified_between (is_ : list IRInstruction) (reg : Z) (start_idx end_idx : nat) : bool :=
  forallb (fun i => negb (dst_reg i =? reg) && negb (IROpcode.eqb (opcode i) IROpcode.LABEL))
    (take (end_idx - S start_idx) (drop (S start_idx) is_)).

Definition clear_after (i : IRInstruction) : bool :=
  IROpcode.eqb (opcode i) IROpcode.CALL || IROpcode.eqb (opcode i) IROpcode.AWAIT
  || IROpcode.eqb (opcode i) IROpcode.SCOPE_RELEASE.

(** Operand [j] of the instruction at [idx], with its copy's source substituted. *)
Definition substitute_operand (is_ : list IRInstruction) (copies : Copies) (idx : nat)
    (i : IRInstruction) (j : nat) (v : IRValue) : IRValue :=
  if negb (ir_reads_operand i j) || ir_writes_operand i j then v
  else match copies !! IRValue.reg_index v with
       | Some info =>
           if register_unmodified_between is_ (source_reg info) (def_idx info) idx
           then IRValue.REGISTER (source_reg info) else v
       | None => v
       end.

Definition substitute (is_ : list IRInstruction) (copies : Copies) (idx : nat) (i : IRInstruction)
  : IRInstruction :=
  with_operands i (imap (substitute_operand is_ copies idx i) (operands i)).

(** A write forgets the copies of and from its register. *)
Definition invalidate (copies : Copies) (written : Z) : Copies :=
  if 0 <=? written
  then filter (fun p => source_reg p.2 <> written) (delete written copies)
  else copies.

Definition record (copies : Copies) (idx : nat) (i : IRInstruction) : Copies :=
  match opcode i, operands i with
  | IROpcode.MOVE, IRValue.REGISTER dst :: IRValue.REGISTER src :: _ =>
      if dst =? src then copies else <[dst := mkCopyInfo src idx]> copies
  | _, _ => copies
  end.

Definition propagate (is_ : list IRInstruction) (copies : Copies) (idx : nat) (i : IRInstruction)
  : Copies * IRInstruction :=
  let i' := substitute is_ copies idx i in
  let copies := if clear_after i then ∅ else copies in
  (record (invalidate copies (dst_reg i')) idx i', i').

Fixpoint propagate_all (is_ : list IRInstruction) (copies : Copies) (idx : nat)
    (rest : list IRInstruction) : list IRInstruction :=
  match rest with
  | [] => []
  | i :: rest =>
      let '(copies, i') := propagate is_ copies idx i in
      i' :: propagate_all is_ copies (S idx) rest
  end.

Definition enhanced_copy_propagation (func : IRFunction) : IRFunction * bool :=
  replace_instructions func (propagate_all (instructions func) ∅ 0 (instructions func)).

(** ** Correctness *)

Fixpoint table_from (is_ : list IRInstruction) (copies : Copies) (idx : nat)
    (rest : list IRInstruction) (p : nat) : Copies :=
  match p, rest with
  | S p, i :: rest => table_from is_ (propagate is_ copies idx i).1 (S idx) rest p
  | _, _ => copies
  end.

Lemma table_from_S is_ K idx rest p i :
  rest !! p = Some i ->
  table_from is_ K idx rest (S p) = (propagate is_ (table_from is_ K idx rest p) (idx + p) i).1.
Proof.
  revert K idx p. induction rest as [|j rest IH]; intros K idx [|p] Hi; simplify_eq/=.
  - rewrite Nat.add_0_r. by destruct rest.
  - rewrite <- Nat.add_succ_comm. by rewrite <- IH.
Qed.

Lemma enhanced_propagate_all_lookup is_ K idx rest p i :
  rest !! p = Some i ->
  propagate_all is_ K idx rest !! p = Some (propagate is_ (table_from is_ K idx rest p) (idx + p) i).2.
Proof.
  revert K idx p. induction rest as [|j rest IH]; intros K idx [|p] Hi; simplify_eq/=.
  - by rewrite Nat.add_0_r.
  - rewrite <- Nat.add_succ_comm. by apply IH.
Qed.

Lemma enhanced_propagate_all_length is_ K idx rest : length (propagate_all is_ K idx rest) = length rest.
Proof. revert K idx. induction rest as [|i rest IH]; intros K idx; [done|]. simpl. by rewrite IH. Qed.

Lemma unmodified_S is_ reg start p i :
  (start < p)%nat -> is_ !! p = Some i ->
  register_unmodified_between is_ reg start (S p) = true ->
  register_unmodified_between is_ reg start p = true /\ dst_reg i <> reg /\ opcode i <> IROpcode.LABEL.
Proof.
  intros Hlt Hi. unfold register_unmodified_between.
  replace (S p - S start)%nat with (S (p - S start)) by lia.
  rewrite (take_S_r _ _ i), forallb_app.
  2: { rewrite lookup_drop. by replace (S start + (p - S start))%nat with p by lia. }
  simpl. intros [Hall [[Hd Hl]%andb_prop _]%andb_prop]%andb_prop. split; [done|].
  split; [by apply negb_true_iff, Z.eqb_neq in Hd|].
  apply negb_true_iff, IROpcode.eqb_neq in Hl. done.
Qed.

(** Touching two lists that differ only in registers that exist. *)
Lemma touch_all_same regs xs ys :
  Forall2 (fun x y => x = y \/ is_Some (regs !! x) /\ is_Some (regs !! y)) xs ys ->
  touch_all regs xs = touch_all regs ys.
Proof.
  revert regs ys. induction xs as [|x xs IH]; intros regs ys Hf; inversion Hf as [|? y ? ys' Hxy Hrest]; subst;
    [done|]. simpl.
  assert (touch regs x = touch regs y) as ->.
  { destruct Hxy as [->|[[v Hx] [w Hy]]]; [done|]. unfold touch. by rewrite Hx, Hy. }
  apply IH. eapply Forall2_impl; [done|]. intros a b [->|[[v Ha] [w Hb]]]; [by left|right].
  split; [exists v|exists w]; by apply touch_lookup.
Qed.

Section Correct.
Context `{Libm} (program : IRProgram) (call_rec : string -> list Value -> M Interp Value).
Context (func : IRFunction).
Hypothesis Hrange : check_register_range func = None.
Hypothesis Hops : check_operands func = None.

Abbreviation body := (instructions func).
Abbreviation table := (table_from body ∅ 0 body).

(** The two registers of a copy hold the same value. *)
Definition equal_registers (regs : gmap Z Value) (x y : Z) : Prop :=
  exists v, regs !! x = Some v /\ regs !! y = Some v.

Definition holds (K : Copies) (p : nat) (regs : gmap Z Value) : Prop :=
  forall d info, K !! d = Some info ->
    register_unmodified_between body (source_reg info) (def_idx info) p = true ->
    equal_registers regs d (source_reg info).

Definition known (p : nat) (regs : gmap Z Value) : Prop :=
  forall i, body !! p = Some i -> opcode i <> IROpcode.LABEL -> holds (table p) p regs.

(** A substituted operand reads the same value. *)
Lemma substitute_operand_spec p i j v K regs :
  holds K p regs -> operands i !! j = Some v ->
  substitute_operand body K p i j v = v \/
  exists x y, v = IRValue.REGISTER x /\ substitute_operand body K p i j v = IRValue.REGISTER y
    /\ equal_registers regs x y /\ operand_kind i j <> IROperandKind.DST
    /\ operand_kind i j <> IROperandKind.INOUT.
Proof.
  intros Hk Hv. unfold substitute_operand, ir_reads_operand, ir_writes_operand. rewrite Hv.
  destruct v; simpl; try (by left).
  destruct (bool_decide (operand_kind i j = IROperandKind.DST)) eqn:Ed; [by left|].
  destruct (bool_decide (operand_kind i j = IROperandKind.INOUT)) eqn:Ei; [by left|]. simpl.
  apply bool_decide_eq_false in Ed, Ei.
  destruct (K !! reg_value) as [info|] eqn:Ek; [|by left].
  destruct (register_unmodified_between _ _ _ _) eqn:Eu; [|by left].
  right. exists reg_value, (source_reg info). split_and!; try done. by apply (Hk _ _ Ek).
Qed.

Lemma substitute_lookup p i j K :
  operands (substitute body K p i) !! j = substitute_operand body K p i j <$> operands i !! j.
Proof. simpl. apply list_lookup_imap. Qed.

(** The substitution changes no destination. *)
Lemma substitute_destination p i K regs :
  holds K p regs -> ir_destination_register (substitute body K p i) = ir_destination_register i.
Proof.
  intros Hk. unfold ir_destination_register. change (opcode (substitute body K p i)) with (opcode i).
  destruct (ir_destination_operand_index (opcode i)) as [n|] eqn:En; [|done].
  rewrite substitute_lookup. destruct (operands i !! n) as [v|] eqn:Ev; [|done]. simpl.
  destruct (substitute_operand_spec p i n v K regs Hk Ev) as [->|(x & y & -> & _ & _ & Hd & Hi)]; [done|].
  exfalso. unfold operand_kind in Hd, Hi. clear -En Hd Hi.
  destruct (opcode i); vm_compute in En; simplify_eq; (by apply Hd) || (by apply Hi).
Qed.

Lemma substitute_view p i K regs :
  holds K p regs -> same_view (rd regs) i (rd regs) (substitute body K p i).
Proof.
  intros Hk. split; [done|done|]. intros n. rewrite substitute_lookup.
  destruct (operands i !! n) as [v|] eqn:Ev; [|done]. simpl.
  destruct (substitute_operand_spec p i n v K regs Hk Ev) as [->|(x & y & -> & -> & (w & Hx & Hy) & _ & _)].
  - by destruct v.
  - intros _. unfold rd. by rewrite Hx, Hy.
Qed.

Lemma substitute_touched p i K regs ns :
  holds K p regs ->
  touch_all regs (touched_registers (substitute body K p i) ns) = touch_all regs (touched_registers i ns).
Proof.
  intros Hk. apply touch_all_same. unfold touched_registers. induction ns as [|n ns IH]; [constructor|].
  cbn [omap list_omap]. rewrite substitute_lookup.
  destruct (operands i !! n) as [v|] eqn:Ev; [|done]. simpl.
  destruct (substitute_operand_spec p i n v K regs Hk Ev) as [->|(x & y & -> & -> & (w & Hx & Hy) & _ & _)].
  - destruct v; try done. constructor; [by left|done].
  - constructor; [right; eauto|done].
Qed.

Lemma substitute_same p i K regs s :
  holds K p regs ->
  same_effect regs i (substitute body K p i)
    (effect_of program call_rec func (rd regs) i s)
    (effect_of program call_rec func (rd regs) (substitute body K p i) s).
Proof.
  intros Hk. rewrite (effect_of_congr program call_rec func func _ i _ (substitute body K p i) s)
    by (done || by apply substitute_view).
  split; [done|]. destruct (effect_of _ _ _ _ _ _).2 as [te|]; [|done].
  split; [|split; [done|by right]]. unfold effect_regs.
  by rewrite (substitute_touched p i K regs), (substitute_destination p i K regs).
Qed.

(** Copies are recorded at earlier instructions. *)
Lemma propagate_def K p i d info :
  (propagate body K p i).1 !! d = Some info ->
  def_idx info = p /\ opcode i = IROpcode.MOVE \/ K !! d = Some info.
Proof.
  unfold propagate. cbn [fst]. set (i' := substitute body K p i).
  assert (opcode i' = opcode i) as Ho by done. unfold record. rewrite Ho.
  assert (forall K0 : Copies, K0 ⊆ K -> forall w, invalidate K0 w !! d = Some info -> K !! d = Some info) as Hinv.
  { intros K0 Hsub w Hl. unfold invalidate in Hl. destruct (0 <=? w); [|by eapply lookup_weaken].
    apply map_lookup_filter_Some in Hl as [Hl _]. apply lookup_delete_Some in Hl as [_ Hl].
    by eapply lookup_weaken. }
  assert ((if clear_after i then ∅ else K) ⊆ K) as Hsub
    by (destruct (clear_after i); [apply map_empty_subseteq|done]).
  intros Hl. destruct (opcode i) eqn:Eo; try (right; by eapply Hinv).
  destruct (operands i') as [|[] [|[] ?]]; try (right; by eapply Hinv).
  destruct (_ =? _); [right; by eapply Hinv|]. rewrite lookup_insert in Hl.
  case_decide; [left; by simplify_eq|right; by eapply Hinv].
Qed.

Lemma table_def p d info : table p !! d = Some info -> (p <= length body)%nat -> (def_idx info < p)%nat.
Proof.
  revert d info. induction p as [|p IH]; intros d info Hl Hp.
  - replace (table 0) with (∅ : Copies) in Hl by (by destruct body). by rewrite lookup_empty in Hl.
  - destruct (lookup_lt_is_Some_2 body p) as [i Hi]; [lia|].
    rewrite (table_from_S _ _ _ _ _ _ Hi) in Hl. apply propagate_def in Hl as [[-> _]|Hl]; [simpl; lia|].
    specialize (IH _ _ Hl ltac:(lia)). lia.
Qed.

Lemma invalidate_lookup K w d info :
  invalidate K w !! d = Some info -> K !! d = Some info /\ (0 <= w -> d <> w /\ source_reg info <> w).
Proof.
  unfold invalidate. destruct (0 <=? w) eqn:E; [|intros; split; [done|lia]].
  intros [Hl Hs]%map_lookup_filter_Some. apply lookup_delete_Some in Hl as [Hne Hl]. naive_solver.
Qed.

(** A copy that survives the instruction still holds. *)
Lemma survivor_holds p i regs s s' te d info :
  body !! p = Some i -> known p regs ->
  effect_of program call_rec func (rd regs) i s = (s', Ok te) ->
  table p !! d = Some info -> (0 <= dst_reg i -> d <> dst_reg i /\ source_reg info <> dst_reg i) ->
  register_unmodified_between body (source_reg info) (def_idx info) (S p) = true ->
  equal_registers (effect_regs i te regs) d (source_reg info).
Proof.
  intros Hi Hk He Hl Hw Hu. pose proof (lookup_lt_Some _ _ _ Hi) as Hlt.
  pose proof (table_def p d info Hl ltac:(lia)) as Hdef.
  destruct (unmodified_S _ _ _ _ _ Hdef Hi Hu) as (Hu' & _ & Hnl).
  destruct (Hk i Hi Hnl d info Hl Hu') as (v & Hd & Hs). exists v.
  assert (forall r, r = d \/ r = source_reg info -> ir_destination_register i <> Some r) as Hne.
  { intros r Hr Hdst. assert (dst_reg i = r) as Hdr by (unfold dst_reg; by rewrite Hdst).
    assert (0 <= r) by (by eapply dst_nonneg). destruct Hw; [lia|]. destruct Hr; congruence. }
  split; apply effect_regs_frame; auto.
Qed.

(** A copy recorded by a MOVE holds after it. *)
Lemma recorded_holds p i regs s s' te x y ops :
  body !! p = Some i -> known p regs -> opcode i = IROpcode.MOVE ->
  effect_of program call_rec func (rd regs) i s = (s', Ok te) ->
  operands (substitute body (table p) p i) = IRValue.REGISTER x :: IRValue.REGISTER y :: ops ->
  x <> y -> equal_registers (effect_regs i te regs) x y.
Proof.
  intros Hi Hk Ho He Hsub Hne. assert (opcode i <> IROpcode.LABEL) as Hnl by congruence.
  pose proof (Hk i Hi Hnl) as Hh.
  destruct (move_operands i (check_operands_ok _ _ _ Hops Hi) Ho) as (d & r & H0 & H1 & Hd).
  rewrite (effect_of_move _ _ _ _ _ _ d r) in He by done. injection He as <- <-.
  assert (x = d) as ->.
  { pose proof (substitute_destination p i (table p) regs Hh) as Hdst. rewrite Hd in Hdst.
    assert (ir_destination_register (substitute body (table p) p i) = Some x) as Hx; [|congruence].
    eapply (destination_register_reg _ 0); [|apply reg_operand_Ok; by rewrite Hsub].
    change (opcode (substitute body (table p) p i)) with (opcode i). by rewrite Ho. }
  assert (y = r \/ equal_registers regs r y) as Hy.
  { apply reg_operand_Ok in H1. pose proof (substitute_lookup p i 1 (table p)) as Hlk.
    rewrite Hsub, H1 in Hlk. simpl in Hlk. injection Hlk as Hlk.
    destruct (substitute_operand_spec p i 1 _ (table p) regs Hh H1) as [Hs|(a & b & Ha & Hs & Heq & _)];
      rewrite Hs in Hlk; simplify_eq; [by left|by right]. }
  exists (rd regs r). unfold effect_regs. simpl. rewrite Hd, (touched_one i 1 r H1). simpl.
  rewrite lookup_insert_eq. split; [done|]. rewrite lookup_insert_ne by done.
  destruct Hy as [->|(v & Hr & Hyv)].
  - unfold touch, rd. destruct (regs !! r) eqn:E; simpl; [done|by rewrite lookup_insert_eq].
  - unfold rd. rewrite Hr. simpl. by apply touch_lookup.
Qed.

Lemma enhanced_holds_next p i regs s s' te :
  body !! p = Some i -> known p regs ->
  effect_of program call_rec func (rd regs) i s = (s', Ok te) ->
  holds (table (S p)) (S p) (effect_regs i te regs).
Proof.
  intros Hi Hk He d info Hl Hu. rewrite (table_from_S _ _ _ _ _ _ Hi) in Hl. simpl in Hl.
  destruct (decide (opcode i = IROpcode.LABEL)) as [Hlab|Hnl].
  { (* nothing known survives a label *)
    apply propagate_def in Hl as [[_ Ho]|Hl]; [congruence|].
    pose proof (lookup_lt_Some _ _ _ Hi). pose proof (table_def p d info Hl ltac:(lia)) as Hdef.
    by destruct (unmodified_S _ _ _ _ _ Hdef Hi Hu) as (_ & _ & []). }
  unfold propagate in Hl. cbn [fst] in Hl.
  set (K := table p) in *. set (i' := substitute body K p i) in *.
  assert (dst_reg i' = dst_reg i) as Hdst.
  { unfold dst_reg. f_equal. apply (substitute_destination p i K regs). by apply (Hk i). }
  rewrite Hdst in Hl.
  assert (invalidate (if clear_after i then ∅ else K) (dst_reg i) !! d = Some info ->
    equal_registers (effect_regs i te regs) d (source_reg info)) as Hsurv.
  { intros [Hk' Hw]%invalidate_lookup. eapply (survivor_holds p i regs s s' te d info); try done.
    destruct (clear_after i); [by rewrite lookup_empty in Hk'|done]. }
  unfold record in Hl. change (opcode i') with (opcode i) in Hl.
  destruct (opcode i) eqn:Eo; try (by apply Hsurv).
  destruct (operands i') as [|[x| | | | |] [|[y| | | | |] ops]] eqn:Eops; try (by apply Hsurv).
  destruct (Z.eqb_spec x y) as [->|Hxy]; [by apply Hsurv|].
  rewrite lookup_insert in Hl. case_decide as Hx; [|by apply Hsurv]. simplify_eq. simpl.
  by eapply (recorded_holds p i regs s s' te d y ops).
Qed.

Lemma substitute_label K p i : operands_ok i -> label_id (substitute body K p i) = label_id i.
Proof.
  intros Hok. unfold label_id. change (opcode (substitute body K p i)) with (opcode i).
  destruct (opcode i) eqn:Eo; try done. destruct (ok_operand i 0 Hok) as (v & Hv & Hm).
  { rewrite Eo. vm_compute. lia. }
  simpl. destruct (operands i) as [|w ops] eqn:Eops; simplify_eq/=.
  unfold substitute_operand, ir_reads_operand. rewrite Eops. simpl.
  unfold operand_kind in Hm. rewrite Eo in Hm. by destruct v.
Qed.

Lemma enhanced_propagate_all_labels K idx rest :
  (forall i, i ∈ rest -> operands_ok i) ->
  map label_id (propagate_all body K idx rest) = map label_id rest.
Proof.
  revert K idx. induction rest as [|i rest IH]; intros K idx Hok; [done|]. simpl.
  rewrite substitute_label by (apply Hok; set_solver). rewrite IH by set_solver. done.
Qed.

Lemma enhanced_execute_equal regs s :
  execute_function program call_rec func (fresh_context regs) s
  = execute_function program call_rec (enhanced_copy_propagation func).1 (fresh_context regs) s.
Proof.
  apply (in_place_correct program call_rec func (enhanced_copy_propagation func).1 known); simpl.
  - done.
  - by rewrite enhanced_propagate_all_length.
  - unfold function_labels. simpl. apply collect_labels_ext. rewrite enhanced_propagate_all_labels; [done|].
    intros i Hi. apply list_elem_of_lookup in Hi as [j Hj]. by eapply check_operands_ok.
  - intros p i i' rg st Hk Hi Hi'. rewrite (enhanced_propagate_all_lookup _ _ _ _ _ _ Hi) in Hi'. simplify_eq.
    rewrite (effect_fn_name program call_rec (with_instructions func _) func) by done.
    destruct (decide (opcode i = IROpcode.LABEL)) as [Hlab|Hnl]; [|apply substitute_same; by apply (Hk i)].
    split; [unfold effect_of; simpl; by rewrite Hlab|].
    unfold effect_of. simpl. rewrite Hlab. simpl. split_and!; [|done|by right].
    unfold effect_regs. simpl. done.
  - intros p i rg st st' te Hk Hi He.
    assert (forall j, body !! S p = Some j -> opcode j <> IROpcode.LABEL ->
      holds (table (S p)) (S p) (effect_regs i te rg)) as Hnext by (intros; by eapply enhanced_holds_next).
    destruct (te.2); try done. intros t j Hj Hl j' Hj' Hnl. congruence.
  - intros j Hj Hnl d info Hd. replace (table 0) with (∅ : Copies) in Hd by (by destruct body).
    by rewrite lookup_empty in Hd.
Qed.

End Correct.

(** C4: Enhanced copy propagation does not change what a verified function does:
    the rewritten body ends with the same value or exception, registers and
    interpreter state, whatever its callees do. *)
Theorem enhanced_copy_propagation_correct `{Libm} (program : IRProgram)
    (call_rec : string -> list Value -> M Interp Value) (func : IRFunction)
    (regs : gmap Z Value) (s : Interp) :
  verified program func ->
  execute_function program call_rec (enhanced_copy_propagation func).1 (fresh_context regs) s
  = execute_function program call_rec func (fresh_context regs) s.
Proof.
  intros Hv. destruct (verified_checks program Hv) as (Hr & Ho & _). symmetry. by apply enhanced_execute_equal.
Qed.

Lemma enhanced_copy_propagation_correct_witness :
  (enhanced_copy_propagation Samples.copies).2 = true /\
  execute_function (H := identity_libm) Samples.program (fun _ _ => mret VNil)
    (enhanced_copy_propagation Samples.copies).1 (fresh_context ∅) (mkInterp [] "" 0)
  = execute_function (H := identity_libm) Samples.program (fun _ _ => mret VNil)
    Samples.copies (fresh_context ∅) (mkInterp [] "" 0).
Proof. split; [by vm_compute|]. apply enhanced_copy_propagation_correct. by vm_compute. Defined.

End EnhancedCopyPropagation.
