(* ===== verification/ReduceRegisters.v ===== *)
(** * Register compaction

    Models [IROptimizer::reduce_register_pressure] (ir_optimizer.cpp), which
    renumbers the temporaries of a function into the registers above the return
    slot and the parameters, and proves that a call of the renumbered function
    is the same call. *)

From S2P Require Import Prelude.
From S2P Require Import Dataflow.
From S2P Require Import Double.
From S2P Require Import VariantTypes.
From S2P Require Import IROpcodes.
From S2P Require Import Globals.
From S2P Require Import IR.
From S2P Require Import Cfg.
From S2P Require Import Verifier.
From S2P Require Import VerifierFacts.
From S2P Require Import Interpreter.
From S2P Require Import Effects.
From S2P Require Import Machine.
From S2P Require Import VerifierSound.
From S2P Require Import OptimizerBase.
From S2P Require Import Samples.

Module ReduceRegisters.

(** [reg_map] and [next_reg]. *)
Record Renaming := mkRenaming {
  reg_map : gmap Z Z;
  next_reg : Z
}.

(** r0 is the return slot, and parameters occupy r0..rN-1 by ABI. *)
Definition pinned (func : IRFunction) : Renaming :=
  mkRenaming
    (fold_left (fun m i => <[Z.of_nat i := Z.of_nat i]> m) (seq 0 (length (parameters func)))
       {[RETURN_REGISTER := RETURN_REGISTER]})
    (Z.max 1 (Z.of_nat (length (parameters func)))).

Definition assign (rn : Renaming) (old_reg : Z) : Renaming :=
  match reg_map rn !! old_reg with
  | Some _ => rn
  | None => mkRenaming (<[old_reg := next_reg rn]> (reg_map rn)) (next_reg rn + 1)
  end.

Definition operand_registers (i : IRInstruction) : list Z :=
  omap (fun v => match v with IRValue.REGISTER r => Some r | _ => None end) (operands i).

Definition assign_all (func : IRFunction) : Renaming :=
  fold_left assign (flat_map operand_registers (instructions func)) (pinned func).

(** [reg_map[old_reg]]; the default is never taken for a register of the body. *)
Definition renamed (m : gmap Z Z) (r : Z) : Z := default 0 (m !! r).

Definition rename_value (m : gmap Z Z) (v : IRValue) : IRValue :=
  match v with IRValue.REGISTER r => IRValue.REGISTER (renamed m r) | _ => v end.

Definition rename_instr (m : gmap Z Z) (i : IRInstruction) : IRInstruction :=
  with_operands i (map (rename_value m) (operands i)).

Definition rename_local (m : gmap Z Z) (l : DebugLocal) : DebugLocal :=
  match m !! dl_register_num l with
  | Some r => mkDebugLocal (dl_name l) r (dl_type_hint l) (dl_begin_instruction l)
                (dl_end_instruction l) (dl_parameter l)
  | None => l
  end.

Definition reduce_register_pressure (func : IRFunction) : IRFunction * bool :=
  let m := reg_map (assign_all func) in
  let changed_operand := existsb (fun r => negb (renamed m r =? r)) (flat_map operand_registers (instructions func)) in
  let changed_local := existsb (fun l => negb (dl_register_num (rename_local m l) =? dl_register_num l))
                         (debug_locals func) in
  (with_debug_locals (with_instructions func (map (rename_instr m) (instructions func)))
     (map (rename_local m) (debug_locals func)),
   changed_operand || changed_local).

(** ** The renaming is injective *)

(** Pinned registers keep their number; the others get distinct numbers below
    [next_reg] and above the pinned ones. *)
Record renaming_ok (func : IRFunction) (rn : Renaming) : Prop := {
  ro_pinned : forall r, 0 <= r < Z.max 1 (Z.of_nat (length (parameters func))) -> reg_map rn !! r = Some r;
  ro_other : forall r r', reg_map rn !! r = Some r' ->
    ~ (0 <= r < Z.max 1 (Z.of_nat (length (parameters func)))) ->
    Z.max 1 (Z.of_nat (length (parameters func))) <= r' < next_reg rn;
  ro_inj : forall r1 r2 r', reg_map rn !! r1 = Some r' -> reg_map rn !! r2 = Some r' -> r1 = r2;
  ro_next : Z.max 1 (Z.of_nat (length (parameters func))) <= next_reg rn
}.

Lemma pinned_lookup (n : nat) (r : Z) (m : gmap Z Z) :
  fold_left (fun m i => <[Z.of_nat i := Z.of_nat i]> m) (seq 0 n) m !! r
  = if decide (0 <= r < Z.of_nat n) then Some r else m !! r.
Proof.
  induction n as [|n IH]; [case_decide; [lia|done]|].
  rewrite seq_S, fold_left_app. simpl. rewrite lookup_insert, IH.
  repeat case_decide; try lia; try done. f_equal. lia.
Qed.

Lemma pinned_ok func : renaming_ok func (pinned func).
Proof.
  assert (forall r, reg_map (pinned func) !! r
    = if decide (0 <= r < Z.max 1 (Z.of_nat (length (parameters func)))) then Some r else None) as Hl.
  { intros r. unfold pinned. simpl. rewrite pinned_lookup, lookup_singleton.
    unfold RETURN_REGISTER. repeat case_decide; try lia; try done. by subst. }
  split.
  - intros r Hr. rewrite Hl. by rewrite decide_True.
  - intros r r' Hr Hn. rewrite Hl in Hr. by rewrite decide_False in Hr.
  - intros r1 r2 r' H1 H2. rewrite Hl in H1, H2. repeat case_decide; simplify_eq. done.
  - done.
Qed.

Lemma assign_ok func rn r : renaming_ok func rn -> renaming_ok func (assign rn r).
Proof.
  intros [Hp Ho Hi Hn]. unfold assign. destruct (reg_map rn !! r) as [x|] eqn:Er; [done|].
  assert (forall y z, reg_map rn !! y = Some z -> z < next_reg rn) as Hlt.
  { intros y z Hy. destruct (decide (0 <= y < Z.max 1 (Z.of_nat (length (parameters func))))) as [Hd|Hd].
    - rewrite (Hp _ Hd) in Hy. simplify_eq. lia.
    - apply (Ho _ _ Hy) in Hd. lia. }
  split; simpl.
  - intros x Hx. rewrite lookup_insert_ne; [by apply Hp|]. intros ->. by rewrite (Hp _ Hx) in Er.
  - intros x y. rewrite lookup_insert. case_decide; [intros; simplify_eq; lia|].
    intros Hx Hnx. apply (Ho _ _ Hx) in Hnx. lia.
  - intros x y z. rewrite !lookup_insert. repeat case_decide; subst; intros Hx Hy; simplify_eq; try done.
    + apply Hlt in Hy. lia.
    + apply Hlt in Hx. lia.
    + by eapply Hi.
  - lia.
Qed.

Lemma assign_keeps rn r x y : reg_map rn !! x = Some y -> reg_map (assign rn r) !! x = Some y.
Proof.
  unfold assign. destruct (reg_map rn !! r) eqn:E; [done|]. intros Hx. simpl.
  rewrite lookup_insert_ne; [done|]. congruence.
Qed.

Lemma assign_defines rn r : is_Some (reg_map (assign rn r) !! r).
Proof.
  unfold assign. destruct (reg_map rn !! r) eqn:E; [by eexists|]. simpl. rewrite lookup_insert_eq. by eexists.
Qed.

Lemma fold_assign_ok func rs rn : renaming_ok func rn -> renaming_ok func (fold_left assign rs rn).
Proof. revert rn. induction rs as [|r rs IH]; intros rn Hok; [done|]. by apply IH, assign_ok. Qed.

Lemma fold_assign_defines rs rn r :
  r ∈ rs \/ is_Some (reg_map rn !! r) -> is_Some (reg_map (fold_left assign rs rn) !! r).
Proof.
  revert rn. induction rs as [|x rs IH]; intros rn Hr; simpl.
  { destruct Hr as [Hr|]; [by apply elem_of_nil in Hr|done]. }
  apply IH. destruct Hr as [[->|Hr]%elem_of_cons|[y Hy]]; [right; apply assign_defines|by left|].
  right. exists y. by apply assign_keeps.
Qed.

Lemma assign_all_ok func : renaming_ok func (assign_all func).
Proof. apply fold_assign_ok, pinned_ok. Qed.

Lemma assign_all_covers func k i r :
  instructions func !! k = Some i -> IRValue.REGISTER r ∈ operands i ->
  is_Some (reg_map (assign_all func) !! r).
Proof.
  intros Hi Hr. apply fold_assign_defines. left. apply list_elem_of_In, in_flat_map. exists i.
  split; [by eapply list_elem_of_In, list_elem_of_lookup_2|].
  apply list_elem_of_In, list_elem_of_omap. by exists (IRValue.REGISTER r).
Qed.

(** ** Simulation *)

Section Correct.
Context `{Libm} (program : IRProgram) (call_rec : string -> list Value -> M Interp Value).
Context (func : IRFunction).

Abbreviation m := (reg_map (assign_all func)).
Abbreviation func' := (reduce_register_pressure func).1.

Definition rel_regs (regs regs' : gmap Z Value) : Prop :=
  forall r r', m !! r = Some r' -> regs !! r = regs' !! r'.

Lemma rel_regs_insert regs regs' r r' v :
  rel_regs regs regs' -> m !! r = Some r' -> rel_regs (<[r := v]> regs) (<[r' := v]> regs').
Proof.
  intros Hrel Hr x x' Hx. rewrite !lookup_insert. repeat case_decide; subst; try done.
  - simplify_eq.
  - exfalso. by eapply (ro_inj _ _ (assign_all_ok func)) in Hr; [|exact Hx].
  - by apply Hrel.
Qed.

Lemma rel_regs_touch regs regs' r r' :
  rel_regs regs regs' -> m !! r = Some r' -> rel_regs (touch regs r) (touch regs' r').
Proof.
  intros Hrel Hr. unfold touch. rewrite <- (Hrel _ _ Hr).
  destruct (regs !! r); [done|]. by apply rel_regs_insert.
Qed.

Lemma rel_regs_touch_all regs regs' rs :
  rel_regs regs regs' -> (forall r, r ∈ rs -> is_Some (m !! r)) ->
  rel_regs (touch_all regs rs) (touch_all regs' (map (renamed m) rs)).
Proof.
  revert regs regs'. induction rs as [|r rs IH]; intros regs regs' Hrel Hd; [done|]. simpl.
  apply IH; [|intros; apply Hd; set_solver]. destruct (Hd r) as [r' Hr]; [set_solver|].
  unfold renamed. rewrite Hr. by apply rel_regs_touch.
Qed.

Section Instr.
Context (k : nat) (i : IRInstruction) (Hi : instructions func !! k = Some i).

Lemma covered n r : operands i !! n = Some (IRValue.REGISTER r) -> is_Some (m !! r).
Proof. intros Hn. eapply assign_all_covers; [done|]. by eapply list_elem_of_lookup_2. Qed.

Lemma rename_lookup n : operands (rename_instr m i) !! n = rename_value m <$> operands i !! n.
Proof. simpl. apply list_lookup_fmap. Qed.

Lemma rename_view regs regs' :
  rel_regs regs regs' -> same_view (rd regs) i (rd regs') (rename_instr m i).
Proof.
  intros Hrel. split; [done|done|]. intros n. rewrite rename_lookup.
  destruct (operands i !! n) as [v|] eqn:E; [|done]. simpl. destruct v; try done. simpl.
  intros _. destruct (covered _ _ E) as [r' Hr]. unfold rd, renamed. rewrite Hr. simpl.
  by rewrite (Hrel _ _ Hr).
Qed.

Lemma rename_touched ns :
  touched_registers (rename_instr m i) ns = map (renamed m) (touched_registers i ns).
Proof.
  unfold touched_registers. induction ns as [|n ns IH]; [done|]. cbn [omap list_omap].
  rewrite rename_lookup. destruct (operands i !! n) as [v|]; simpl; [|done].
  destruct v; simpl; try done. by f_equal.
Qed.

Lemma rename_destination :
  ir_destination_register (rename_instr m i) = renamed m <$> ir_destination_register i.
Proof.
  unfold ir_destination_register. change (opcode (rename_instr m i)) with (opcode i).
  destruct (ir_destination_operand_index (opcode i)) as [n|]; [|done].
  rewrite rename_lookup. destruct (operands i !! n) as [v|]; [|done]. by destruct v.
Qed.

Lemma touched_covered ns r : r ∈ touched_registers i ns -> is_Some (m !! r).
Proof.
  unfold touched_registers. intros (n & _ & Hn)%list_elem_of_omap.
  destruct (operands i !! n) as [[]|] eqn:E; simplify_eq. by eapply covered.
Qed.

Lemma destination_covered r : ir_destination_register i = Some r -> is_Some (m !! r).
Proof.
  unfold ir_destination_register. destruct (ir_destination_operand_index (opcode i)) as [n|]; [|done].
  intros Hr. destruct (operands i !! n) as [[]|] eqn:E; simplify_eq. by eapply covered.
Qed.

Lemma rename_effect_regs te regs regs' :
  rel_regs regs regs' -> rel_regs (effect_regs i te regs) (effect_regs (rename_instr m i) te regs').
Proof.
  intros Hrel. unfold effect_regs. rewrite rename_touched, rename_destination.
  pose proof (rel_regs_touch_all _ _ _ Hrel (touched_covered te.1)) as Ht.
  destruct (te.2); [done| |done|done]. destruct (ir_destination_register i) as [d|] eqn:Ed; [|done].
  simpl. destruct (destination_covered _ Ed) as [d' Hd]. unfold renamed at 1. rewrite Hd.
  by apply rel_regs_insert.
Qed.

End Instr.

Record rel_context (c c' : ExecutionContext) : Prop := {
  rc_regs : rel_regs (registers c) (registers c');
  rc_labels : labels c = labels c';
  rc_pc : pc c = pc c';
  rc_returned : returned c = returned c';
  rc_value : return_value c = return_value c'
}.

Lemma return_pinned : m !! RETURN_REGISTER = Some RETURN_REGISTER.
Proof. apply (ro_pinned _ _ (assign_all_ok func)). unfold RETURN_REGISTER. lia. Qed.

Lemma rename_step c c' s :
  rel_context c c' -> running func c = true ->
  rel_out rel_context (step program call_rec func c s) (step program call_rec func' c' s).
Proof.
  intros [Hr Hl Hp Hret Hv] Hrun. destruct (running_lookup _ _ Hrun) as [_ [i Hi]].
  assert (instructions func' !! pc c' = Some (rename_instr m i)) as Hi'.
  { simpl. rewrite list_lookup_fmap, <- Hp, Hi. done. }
  rewrite (step_effect _ _ _ _ _ _ Hi), (step_effect _ _ _ _ _ _ Hi').
  rewrite (effect_of_congr program call_rec func func' _ i _ (rename_instr m i) s)
    by (done || by eapply rename_view).
  destruct (effect_of _ _ _ _ _ _) as [s' [te|e]]; [|done]. rewrite !apply_effect_regs.
  pose proof (rename_effect_regs _ _ Hi te _ _ Hr) as Hregs.
  split; [done|]. destruct (te.2) as [|v|l|]; simpl.
  - unfold advance. simpl. rewrite <- Hret, Hp, Nat.eqb_refl. destruct (negb _); simpl; by split.
  - unfold advance. simpl. rewrite <- Hret, Hp, Nat.eqb_refl. destruct (negb _); simpl; by split.
  - unfold jump_to_label. simpl. rewrite <- Hl. destruct (labels c !! l) as [t|]; [|done]. simpl.
    unfold advance. simpl. rewrite <- Hret, Hp. destruct (_ && _); simpl; by split.
  - unfold exec_return, advance. simpl. rewrite (Hregs _ _ return_pinned).
    destruct (effect_regs (rename_instr m i) te (registers c') !! RETURN_REGISTER); simpl; by split.
Qed.

Lemma rename_labels : function_labels program func' = function_labels program func.
Proof.
  unfold function_labels. apply collect_labels_ext. simpl. rewrite map_map. apply map_ext.
  intros i. unfold label_id. simpl. destruct (opcode i); try done. by destruct (operands i) as [|[] ?].
Qed.

(** Arguments are in pinned registers. *)
Lemma argument_rel args :
  rel_regs (argument_registers func args) (argument_registers func' args).
Proof.
  change (argument_registers func' args) with (argument_registers func args).
  intros r r' Hr.
  assert (forall x, is_Some (argument_registers func args !! x) ->
    0 <= x < Z.max 1 (Z.of_nat (length (parameters func)))) as Hdom.
  { intros x [v Hx]. unfold argument_registers in Hx. apply elem_of_list_to_map_2 in Hx.
    apply list_elem_of_lookup in Hx as [j Hj]. rewrite lookup_zip_Some in Hj. destruct Hj as [Hj1 Hj2].
    rewrite list_lookup_fmap in Hj1. destruct (seq 0 _ !! j) as [y|] eqn:Ey; simplify_eq/=.
    apply lookup_seq in Ey as [-> _]. apply lookup_take_Some in Hj2 as [_ Hlt]. lia. }
  destruct (decide (0 <= r < Z.max 1 (Z.of_nat (length (parameters func))))) as [Hd|Hd].
  - rewrite (ro_pinned _ _ (assign_all_ok func) _ Hd) in Hr. by simplify_eq.
  - pose proof (ro_other _ _ (assign_all_ok func) _ _ Hr Hd) as Hge.
    destruct (argument_registers func args !! r) eqn:E1; [exfalso; apply Hd, Hdom; by eexists|].
    destruct (argument_registers func args !! r') eqn:E2; [|done].
    specialize (Hdom r' ltac:(by eexists)). lia.
Qed.

Lemma renumbered_call_equal args s :
  call_function program call_rec func' args s = call_function program call_rec func args s.
Proof.
  symmetry. apply (call_function_lockstep program call_rec func func' rel_context).
  - done.
  - intros c c' [_ _ Hp Hr _]. unfold running. rewrite Hp, Hr. simpl. by rewrite length_map.
  - apply rename_step.
  - intros c c' [_ _ _ Hr Hv]. done.
  - split; try done; [apply argument_rel|symmetry; apply rename_labels].
Qed.

End Correct.

(** C9: Renumbering the registers of a function does not change its calls: for
    every program, arguments, interpreter state and behaviour of its callees, the
    call returns the same value or exception and leaves the same state. *)
Theorem reduce_register_pressure_correct `{Libm} (program : IRProgram)
    (call_rec : string -> list Value -> M Interp Value) (func : IRFunction)
    (args : list Value) (s : Interp) :
  call_function program call_rec (reduce_register_pressure func).1 args s
  = call_function program call_rec func args s.
Proof. apply renumbered_call_equal. Qed.

(** The renumbering leaves r0 and the parameter registers alone and gives
    the remaining registers of the body distinct numbers without holes above
    them: no two registers are merged. *)
Theorem reduce_register_pressure_renaming (func : IRFunction) (k : nat) (i : IRInstruction) (r : Z) :
  instructions func !! k = Some i -> IRValue.REGISTER r ∈ operands i ->
  let m := reg_map (assign_all func) in
  let base := Z.max 1 (Z.of_nat (length (parameters func))) in
  (0 <= r < base -> renamed m r = r)
  /\ (~ 0 <= r < base -> base <= renamed m r < next_reg (assign_all func))
  /\ forall k2 i2 r2, instructions func !! k2 = Some i2 -> IRValue.REGISTER r2 ∈ operands i2 ->
       renamed m r2 = renamed m r -> r2 = r.
Proof.
  intros Hi Hr m base. pose proof (assign_all_ok func) as [Hp Ho Hinj _].
  destruct (assign_all_covers func k i r Hi Hr) as [r' Hr'].
  assert (renamed m r = r') as Hren by (unfold renamed, m; by rewrite Hr'). rewrite Hren. split_and!.
  - intros Hb. rewrite (Hp _ Hb) in Hr'. congruence.
  - intros Hb. by eapply Ho.
  - intros k2 i2 r2 Hi2 Hr2 Heq. destruct (assign_all_covers func k2 i2 r2 Hi2 Hr2) as [r2' Hr2'].
    unfold renamed, m in Heq. rewrite Hr2' in Heq. simpl in Heq. subst. by eapply Hinj.
Qed.

Lemma reduce_register_pressure_renaming_witness :
  let f := simple_function "f" ["a"%string] [instr IROpcode.MOVE [IRValue.reg 9; IRValue.reg 0];
    instr IROpcode.MOVE [IRValue.reg 0; IRValue.reg 9]; instr IROpcode.RETURN []] 10 in
  renamed (reg_map (assign_all f)) 9 = 1 /\ 1 <= renamed (reg_map (assign_all f)) 9 < next_reg (assign_all f).
Proof.
  intros f. split; [by vm_compute|].
  destruct (reduce_register_pressure_renaming f 0 (instr IROpcode.MOVE [IRValue.reg 9; IRValue.reg 0]) 9)
    as (_ & Hother & _); [done|apply list_elem_of_lookup_2 with (i := 0%nat); done|].
  apply Hother. vm_compute. intros [_ Hlt]. discriminate Hlt.
Defined.

End ReduceRegisters.
