(* ===== verification/UnreachableCode.v ===== *)
(** * Unreachable code

    Models [IROptimizer::analysis] (the label index and the block shape) and
    [IROptimizer::eliminate_unreachable_code] (ir_optimizer.cpp), and proves
    that deleting the blocks the worklist does not reach leaves every call of a
    verified function unchanged. *)

From S2P Require Import Prelude.
From S2P Require Import Dataflow.
From S2P Require Import Double.
From S2P Require Import VariantTypes.
From S2P Require Import IROpcodes.
From S2P Require Import Globals.
From S2P Require Import IR.
From S2P Require Import Cfg.
From S2P Require Import Verifier.
From S2P Require Import VerifierFacts.
From S2P Require Import Interpreter.
From S2P Require Import Effects.
From S2P Require Import Machine.
From S2P Require Import VerifierSound.
From S2P Require Import Positions.
From S2P Require Import OptimizerBase.
From S2P Require Import Samples.

(** ** [FunctionAnalysis] *)
Module Analysis.

(** [label_index]: the first LABEL of an id ([emplace] keeps it). *)
Fixpoint label_index (is_ : list IRInstruction) (i : nat) (acc : gmap Z nat) : gmap Z nat :=
  match is_ with
  | [] => acc
  | instr :: is_ =>
      label_index is_ (S i)
        (if ir_has_effect (opcode instr) IR_LABEL then
           match operands instr with
           | v :: _ =>
               let id := IRValue.string_id v in
               match acc !! id with Some _ => acc | None => <[id := i]> acc end
           | [] => acc
           end
         else acc)
  end.

Definition labels_of (func : IRFunction) : gmap Z nat := label_index (instructions func) 0 ∅.

Definition target (func : IRFunction) (id : Z) : option nat := labels_of func !! id.

Definition blocks_of (func : IRFunction) : list (nat * nat) := blocks (instructions func).
Definition successors_of (func : IRFunction) : nat -> list nat :=
  successors (instructions func) (target func).


(** An id that labels exactly one instruction is found there. *)
Lemma label_index_unique is_ k acc id t i ops :
  is_ !! t = Some i -> ir_has_effect (opcode i) IR_LABEL = true -> operands i = IRValue.LABEL id :: ops ->
  (forall t' i' v ops', is_ !! t' = Some i' -> ir_has_effect (opcode i') IR_LABEL = true ->
    operands i' = v :: ops' -> IRValue.string_id v = id -> t' = t) ->
  acc !! id = None -> label_index is_ k acc !! id = Some (k + t)%nat.
Proof.
  revert k acc t. induction is_ as [|x is_ IH]; intros k acc t Ht Hl Hops Hu Ha; [done|]. simpl.
  destruct t as [|t]; simplify_eq/=.
  - rewrite Hl, Hops. simpl. rewrite Ha, Nat.add_0_r.
    assert (forall rest j acc', acc' !! id = Some k -> label_index rest j acc' !! id = Some k) as Hkeep.
    { induction rest as [|y rest IHr]; intros j acc' Hk; simpl; [done|]. apply IHr.
      destruct (ir_has_effect (opcode y) IR_LABEL); [|done]. destruct (operands y) as [|v ?]; [done|].
      destruct (acc' !! IRValue.string_id v) eqn:E; [done|]. rewrite lookup_insert_ne; [done|]. congruence. }
    apply Hkeep. by rewrite lookup_insert_eq.
  - replace (k + S t)%nat with (S k + t)%nat by lia. apply IH; [done|done|done| |].
    + intros t' i' v ops' Ht' Hl' Ho' Hid. specialize (Hu (S t') i' v ops' Ht' Hl' Ho' Hid). lia.
    + destruct (ir_has_effect (opcode x) IR_LABEL) eqn:Ex; [|done].
      destruct (operands x) as [|v ops'] eqn:Ox; [done|].
      destruct (acc !! IRValue.string_id v); [done|]. rewrite lookup_insert_ne; [done|].
      intros Hid. specialize (Hu 0%nat x v ops' eq_refl Ex Ox Hid). lia.
Qed.

End Analysis.

Module UnreachableCode.
Import Analysis.

(** The worklist of [eliminate_unreachable_code]: reachability flags are the
    dataflow loop over a one-point lattice with a stack. *)
Definition reachable_blocks (func : IRFunction) : option (list (option unit)) :=
  let n := length (blocks_of func) in
  solve (successors_of func) (fun _ s => s) (fun a _ => (a, false)) push_stack pop_front
    (budget (top := 0) n) n tt.

Definition is_reachable (es : list (option unit)) (b : nat) : bool :=
  match es !! b with Some (Some _) => true | _ => false end.

(** The instructions of the reachable blocks, in order. *)
Definition reachable_code (func : IRFunction) (es : list (option unit)) : list IRInstruction :=
  concat (imap (fun b '(x, y) => if is_reachable es b then take (y - x) (drop x (instructions func)) else [])
    (blocks_of func)).

Definition eliminate_unreachable_code (func : IRFunction) : IRFunction * bool :=
  if (length (blocks_of func) =? 0)%nat then (func, false)
  else match reachable_blocks func with
       | Some es => replace_instructions func (reachable_code func es)
       | None => (func, false) (* the worklist always empties: [reachable_stops] *)
       end.

#[export] Instance unit_lattice :
  EntryLattice (fun _ _ : unit => True) (fun a _ => (a, false)) (fun _ => True) (fun _ => 0%nat) 0.
Proof. split; intros; simpl; done || lia. Qed.

Lemma reachable_stops func :
  (0 < length (blocks_of func))%nat -> exists es, reachable_blocks func = Some es.
Proof.
  intros Hn. unfold reachable_blocks.
  by eapply (@solve_stops _ _ _ _ _ _ _ _ _ _ stack_worklist unit_lattice).
Qed.

(** ** Correctness *)

(** Position [p] is kept. *)
Definition kept (func : IRFunction) (es : list (option unit)) (p : nat) : bool :=
  is_reachable es (block_of (instructions func) p).

(** Cutting the kept positions out block by block or one by one is the same. *)
Lemma survivors_app {A} keep (l1 l2 : list A) k :
  survivors keep (l1 ++ l2) k = survivors keep l1 k ++ survivors keep l2 (k + length l1).
Proof.
  revert k. induction l1 as [|x l1 IH]; intros k; simpl; [by rewrite Nat.add_0_r|].
  rewrite IH. replace (S k + length l1)%nat with (k + S (length l1))%nat by lia.
  by destruct (keep k).
Qed.

Lemma survivors_const {A} keep (b : bool) (l : list A) k :
  (forall p, (k <= p < k + length l)%nat -> keep p = b) ->
  survivors keep l k = if b then l else [].
Proof.
  revert k. induction l as [|x l IH]; intros k Hk; simpl; [by destruct b|].
  rewrite (Hk k) by (simpl; lia). rewrite IH; [by destruct b|]. intros p Hp. apply Hk. simpl. lia.
Qed.

Section Cut.
Context (func : IRFunction) (es : list (option unit)).
Abbreviation body := (instructions func).

Lemma block_survivors b x y :
  blocks body !! b = Some (x, y) ->
  survivors (kept func es) (take (y - x) (drop x body)) x
  = if is_reachable es b then take (y - x) (drop x body) else [].
Proof.
  intros Hb. apply survivors_const. intros p Hp. unfold kept.
  pose proof (block_bounds _ _ _ _ Hb). rewrite length_take, length_drop in Hp.
  by rewrite (block_of_unique _ _ _ _ p Hb) by lia.
Qed.

(** The first [n] blocks of the list are the survivors before the next one. *)
Lemma reachable_code_prefix n :
  (n <= length (blocks body))%nat ->
  concat (imap (fun b '(x, y) => if is_reachable es b then take (y - x) (drop x body) else [])
    (take n (blocks body)))
  = survivors (kept func es) (take (match n with O => 0%nat | S m => (nth m (blocks body) (0, 0)%nat).2 end) body) 0.
Proof.
  induction n as [|n IH]; intros Hn; [done|].
  destruct (lookup_lt_is_Some_2 (blocks body) n) as [[x y] Hb]; [lia|].
  rewrite (take_S_r _ _ _ Hb), imap_app, concat_app, IH by lia. simpl.
  rewrite app_nil_r, length_take, Nat.min_l, Nat.add_0_r by lia.
  rewrite (nth_lookup_Some _ _ _ _ Hb). simpl.
  assert (match n with O => 0%nat | S m => (nth m (blocks body) (0, 0)%nat).2 end = x) as ->.
  { destruct n as [|m].
    - assert (body <> []) as Hne.
      { intros Hbd. pose proof (block_bounds _ _ _ _ Hb). rewrite Hbd in *. simpl in *. lia. }
      destruct (blocks_nonempty body Hne) as [z Hz]. congruence.
    - destruct (lookup_lt_is_Some_2 (blocks body) m) as [[u v] Hm]; [lia|].
      rewrite (nth_lookup_Some _ _ _ _ Hm). simpl.
      pose proof (block_bounds _ _ _ _ Hb). pose proof (block_monotone _ _ _ _ _ _ _ Hm Hb ltac:(lia)).
      destruct (block_next _ _ _ _ Hm ltac:(lia)) as [_ [z Hz]]. congruence. }
  pose proof (block_bounds _ _ _ _ Hb) as [Hxy Hle].
  assert (take y body = take x body ++ take (y - x) (drop x body)) as ->.
  { rewrite <- (take_drop x (take y body)), take_take, skipn_firstn_comm. do 2 f_equal; lia. }
  rewrite survivors_app, length_take, Nat.min_l, Nat.add_0_l by lia. f_equal.
  symmetry. by apply block_survivors.
Qed.

Lemma reachable_code_survivors :
  body <> [] -> reachable_code func es = survivors (kept func es) body 0.
Proof.
  intros Hne. unfold reachable_code, blocks_of.
  rewrite <- (firstn_all (blocks body)), reachable_code_prefix by done.
  destruct (length (blocks body)) as [|n] eqn:El.
  { destruct (blocks_nonempty body Hne) as [y Hy]. apply lookup_lt_Some in Hy. lia. }
  destruct (lookup_lt_is_Some_2 (blocks body) n) as [[x y] Hb]; [lia|].
  rewrite (nth_lookup_Some _ _ _ _ Hb). simpl.
  pose proof (block_bounds _ _ _ _ Hb). destruct (decide (y < length body)%nat) as [Hlt|Hge].
  - destruct (block_next _ _ _ _ Hb Hlt). lia.
  - by rewrite firstn_all2 by lia.
Qed.

End Cut.

(** Every label operand is an interned id. *)
Definition interned (program : IRProgram) (func : IRFunction) : Prop :=
  forall i id, i ∈ instructions func -> IRValue.LABEL id ∈ operands i ->
    0 <= id < Z.of_nat (IRStringTable.size (strings program)).

Definition interned_b (program : IRProgram) (func : IRFunction) : bool :=
  forallb (fun i => forallb (fun v =>
    match v with
    | IRValue.LABEL id => (0 <=? id) && (id <? Z.of_nat (IRStringTable.size (strings program)))
    | _ => true
    end) (operands i)) (instructions func).

Lemma interned_decide program func : interned_b program func = true -> interned program func.
Proof.
  unfold interned_b. intros Hb i id Hi Hid. rewrite forallb_forall in Hb.
  apply list_elem_of_In in Hi, Hid. specialize (Hb i Hi). rewrite forallb_forall in Hb.
  specialize (Hb _ Hid). simpl in Hb. lia.
Qed.

Lemma get_injective t id1 id2 :
  IRStringTable.wf t -> 0 <= id1 < Z.of_nat (IRStringTable.size t) ->
  0 <= id2 < Z.of_nat (IRStringTable.size t) ->
  IRStringTable.get t id1 = IRStringTable.get t id2 -> id1 = id2.
Proof.
  intros [_ Hwf] H1 H2 Heq. unfold IRStringTable.size in *.
  destruct (lookup_lt_is_Some_2 (IRStringTable.m_strings t) (Z.to_nat id1)) as [x Hx]; [lia|].
  destruct (lookup_lt_is_Some_2 (IRStringTable.m_strings t) (Z.to_nat id2)) as [y Hy]; [lia|].
  rewrite (IRStringTable.get_lookup t id1 x), (IRStringTable.get_lookup t id2 y) in Heq by (done || lia).
  subst y. assert (IRStringTable.m_ids t !! x = Some id1) as Ha by (apply Hwf; split; [lia|done]).
  assert (IRStringTable.m_ids t !! x = Some id2) as Hb by (apply Hwf; split; [lia|done]). congruence.
Qed.

Section Correct.
Context `{Libm} (program : IRProgram) (call_rec : string -> list Value -> M Interp Value).
Context (func : IRFunction).
Hypothesis Hv : verified program func.
Hypothesis Htable : IRStringTable.wf (strings program).
Hypothesis Hint : interned program func.
Context (es : list (option unit)).
Hypothesis Hes : reachable_blocks func = Some es.
Hypothesis Hne : instructions func <> [].

Abbreviation body := (instructions func).
Abbreviation func' := (with_instructions func (survivors (kept func es) body 0)).
Abbreviation np := (newpos (kept func es)).

(** The optimizer resolves a label by id to where the verifier resolves it by
    name. *)
Lemma target_agrees k i id t :
  body !! k = Some i -> IRValue.LABEL id ∈ operands i ->
  label_target func (Some (strings program)) id = Some t -> target func id = Some t.
Proof.
  intros Hi Hop Ht. unfold label_target, name_of in Ht. rewrite <- (verified_labels program Hv) in Ht.
  destruct (function_labels_spec program func _ _ Ht) as (j & id' & Hj & Hid & Hget).
  pose proof (label_id_opcode _ _ Hid) as Hjo.
  destruct (operands j) as [|v ops] eqn:Eops; [by unfold label_id in Hid; rewrite Hjo, Eops in Hid|].
  assert (v = IRValue.LABEL id') as ->.
  { unfold label_id in Hid. rewrite Hjo, Eops in Hid. destruct v; by simplify_eq. }
  assert (id' = id) as ->.
  { eapply get_injective; [done| | |done].
    - eapply Hint; [by eapply list_elem_of_lookup_2|]. rewrite Eops. set_solver.
    - eapply (Hint i); [by eapply list_elem_of_lookup_2|done]. }
  apply (label_index_unique body 0 ∅ id t j ops); try done; [by rewrite Hjo|].
  intros t' i' w ops' Ht' Hl' Ho' Hw.
  destruct (label_operand i') as (Hlo & id2 & ops2 & Hops2); [by eapply verified_operands|done|].
  rewrite Hops2 in Ho'. simplify_eq/=. eapply verified_labels_unique; [done|done|done| |].
  - eexists. split; [|done]. unfold label_id. by rewrite Hlo, Hops2.
  - by eexists.
Qed.

Lemma blocks_pos : (0 < length (blocks body))%nat.
Proof. destruct (blocks_nonempty body Hne) as [y Hy]. apply lookup_lt_Some in Hy. lia. Qed.

(** What the worklist established. *)
Lemma es_facts :
  postfixpoint (le := fun _ _ => True) (successors body (target func))
    (transfer_slice body (fun a _ => a)) es
  /\ length es = length (blocks body) /\ exists e, es !! 0%nat = Some (Some e).
Proof.
  pose proof (@solve_postfixpoint _ _ _ _ _ _ _ _ _ _ stack_worklist unit_lattice
    (fun _ _ Hx => Hx) _ _ _ es I blocks_pos Hes) as (_ & Hpost & Hlen & e & He & _).
  split; [|by eauto]. intros b e' s' Hb Hs Hlt. destruct (Hpost b e' s' Hb Hs Hlt) as (x & Hx & _). eauto.
Qed.

Lemma cert_kept p : (p < length body)%nat ->
  is_Some (cert body (fun (a : unit) _ => a) es p) <-> kept func es p = true.
Proof.
  intros Hp. destruct (block_of_spec body p Hp) as (x & y & Hb & _).
  unfold cert, kept, is_reachable. rewrite Hb. destruct (es !! _) as [[]|]; naive_solver.
Qed.

Lemma kept_step p p' :
  kept func es p = true -> (p < length body)%nat -> (p' < length body)%nat ->
  cfg_step body (target func) p p' -> kept func es p' = true.
Proof.
  intros Hk Hp Hp' Hs. destruct es_facts as (Hpost & Hlen & _).
  destruct (lookup_lt_is_Some_2 body p Hp) as [i Hi].
  apply (cert_kept p Hp) in Hk as [a Ha]. apply (cert_kept p' Hp').
  destruct (cert_step body (target func) (fun (a : unit) _ => a) (fun _ _ => True) es
    ltac:(done) Hlen Hpost p p' a i Ha Hi Hs Hp') as (a' & Ha' & _). by exists a'.
Qed.

Lemma kept_start : kept func es 0 = true.
Proof.
  destruct es_facts as (_ & _ & e & He). destruct (blocks_nonempty body Hne) as [y Hy].
  pose proof (block_bounds _ _ _ _ Hy). unfold kept, is_reachable.
  rewrite (block_of_unique _ _ _ _ 0%nat Hy) by lia. by rewrite He.
Qed.

Record rel_context (c c' : ExecutionContext) : Prop := {
  rc_regs : registers c = registers c';
  rc_labels : labels c = function_labels program func;
  rc_labels' : labels c' = function_labels program func';
  rc_returned : returned c = returned c';
  rc_value : return_value c = return_value c';
  rc_pc : returned c = false ->
    pc c' = np (pc c) /\ (pc c <= length body)%nat /\ ((pc c < length body)%nat -> kept func es (pc c) = true)
}.

Lemma rel_running c c' : rel_context c c' -> running func c = running func' c'.
Proof.
  intros [_ _ _ Hr _ Hp]. unfold running. rewrite <- Hr. destruct (returned c); [by rewrite !andb_false_r|].
  destruct (Hp eq_refl) as (-> & Hle & Hk). simpl. f_equal.
  destruct (decide (pc c < length body)%nat) as [Hlt|Hge].
  - destruct (lookup_lt_is_Some_2 body _ Hlt) as [i Hi].
    rewrite (proj2 (Nat.ltb_lt _ _) Hlt). symmetry. apply Nat.ltb_lt.
    eapply newpos_lt_iff; [done|by apply Hk].
  - assert (pc c = length body) as -> by lia. rewrite Nat.ltb_irrefl. symmetry. apply Nat.ltb_ge.
    rewrite survivors_length. unfold newpos. lia.
Qed.

(** A jump goes to the same label. *)
Lemma rel_jump k i f s s' ns l :
  body !! k = Some i -> kept func es k = true ->
  effect_of program call_rec func f i s = (s', Ok (ns, E_jump l)) ->
  exists t, function_labels program func !! l = Some t /\ (t < length body)%nat /\ t <> k
    /\ kept func es t = true /\ function_labels program func' !! l = Some (np t) /\ np t <> np k.
Proof.
  intros Hi Hk He. destruct (jump_target program call_rec Hv _ _ _ _ _ _ _ Hi He) as (id & Hop & Hn & Hget & Hbr).
  destruct (verified_label_target program Hv _ _ _ Hi Hn Hop) as [t Ht].
  pose proof (target_agrees _ _ _ _ Hi Hop Ht) as Htgt.
  unfold label_target, name_of in Ht. rewrite <- (verified_labels program Hv), Hget in Ht.
  destruct (function_labels_spec program func _ _ Ht) as (j & id' & Hj & Hid & Hget').
  pose proof (label_id_opcode _ _ Hid) as Hjo.
  pose proof (lookup_lt_Some _ _ _ Hj) as Htl. pose proof (lookup_lt_Some _ _ _ Hi) as Hkl.
  assert (kept func es t = true) as Hkt.
  { eapply (kept_step k t); [done|done|done|]. by eapply cfg_jump. }
  exists t. split; [done|]. split; [done|].
  assert (opcode i <> IROpcode.LABEL) as Hnl by (intros Hl; by rewrite Hl in Hn).
  split; [congruence|]. split; [done|]. split.
  - eapply survivors_labels; [done|done|done| |done]. by exists id'.
  - intros Heq. pose proof (survivors_lookup (kept func es) body t j Hj Hkt) as Hs1.
    rewrite Heq, (survivors_lookup (kept func es) body k i Hi Hk) in Hs1. congruence.
Qed.

Lemma rel_step c c' s :
  rel_context c c' -> running func c = true ->
  rel_out rel_context (step program call_rec func c s) (step program call_rec func' c' s).
Proof.
  intros [Hregs Hl Hl' Hr Hval Hp] Hrun. destruct (running_lookup _ _ Hrun) as [Hret [i Hi]].
  destruct (Hp Hret) as (Hpc & Hle & Hk). pose proof (lookup_lt_Some _ _ _ Hi) as Hlt.
  specialize (Hk Hlt).
  assert (instructions func' !! pc c' = Some i) as Hi'.
  { rewrite Hpc. simpl. by apply survivors_lookup. }
  rewrite (step_effect _ _ _ _ _ _ Hi), (step_effect _ _ _ _ _ _ Hi'), <- Hregs.
  rewrite (effect_fn_name program call_rec func' func) by done.
  destruct (effect_of program call_rec func _ i s) as [s' [te|e]] eqn:Ee; [|done].
  split; [done|]. rewrite !apply_effect_regs, <- Hregs.
  pose proof (effect_of_shape _ _ _ _ _ _ _ _ Ee) as [_ Hsh].
  assert (forall v, te.2 = E_none \/ te.2 = E_write v -> (S (pc c) <= length body)%nat /\
    ((S (pc c) < length body)%nat -> kept func es (S (pc c)) = true)) as Hfall.
  { intros v Hte. split; [lia|]. intros Hlt'. eapply (kept_step (pc c)); [done|done|done|].
    eapply cfg_fall; [done| |done]. destruct Hte as [Hte|Hte]; rewrite Hte in Hsh; by destruct Hsh. }
  destruct te as [ns [|v|l|]]; simpl.
  - unfold advance. simpl. rewrite <- Hr, Hret, !Nat.eqb_refl. simpl. split; try done. intros _. simpl.
    rewrite Hpc, newpos_S, Hk. split; [lia|]. by apply (Hfall VNil); left.
  - unfold advance. simpl. rewrite <- Hr, Hret, !Nat.eqb_refl. simpl. split; try done. intros _. simpl.
    rewrite Hpc, newpos_S, Hk. split; [lia|]. by apply (Hfall v); right.
  - destruct (rel_jump _ _ _ _ _ _ _ Hi Hk Ee) as (t & Ht & Htl & Htk & Hkt & Ht' & Hnp).
    unfold jump_to_label. simpl. rewrite Hl, Hl', Ht, Ht'. simpl.
    unfold advance. simpl. rewrite <- Hr, Hret, Hpc.
    rewrite (proj2 (Nat.eqb_neq _ _) Htk), (proj2 (Nat.eqb_neq _ _) Hnp). simpl.
    split; try done. intros _. simpl. split; [done|]. split; [lia|done].
  - unfold exec_return. simpl. destruct (effect_regs _ _ _ !! _); unfold advance; simpl; split; done.
Qed.

Lemma stripped_call_equal args s :
  call_function program call_rec func args s = call_function program call_rec func' args s.
Proof.
  apply (call_function_lockstep program call_rec func func' rel_context); [done|apply rel_running|apply rel_step| |].
  - by intros c c' [].
  - split; try done. intros _. simpl. split; [done|]. split; [lia|]. intros _. apply kept_start.
Qed.

End Correct.

Lemma unreachable_call_equal `{Libm} (program : IRProgram)
    (call_rec : string -> list Value -> M Interp Value) (func : IRFunction)
    (args : list Value) (s : Interp) :
  verified program func -> IRStringTable.wf (strings program) -> interned program func ->
  call_function program call_rec (eliminate_unreachable_code func).1 args s
  = call_function program call_rec func args s.
Proof.
  intros Hv Htable Hint. unfold eliminate_unreachable_code.
  destruct (_ =? 0)%nat eqn:En; [done|].
  assert (0 < length (blocks_of func))%nat as Hpos by (apply Nat.eqb_neq in En; lia).
  destruct (reachable_stops func Hpos) as [es Hes]. rewrite Hes. simpl.
  assert (instructions func <> []) as Hne.
  { intros Hb. unfold blocks_of, blocks, scan in Hpos. rewrite Hb in Hpos. simpl in Hpos. lia. }
  rewrite (reachable_code_survivors func es Hne). symmetry. by apply stripped_call_equal.
Qed.

(** C5: Removing the blocks the worklist does not reach does not change any call
    of a verified function: same value or exception, same interpreter state. *)
Theorem eliminate_unreachable_code_correct `{Libm} (program : IRProgram)
    (call_rec : string -> list Value -> M Interp Value) (func : IRFunction)
    (args : list Value) (s : Interp) :
  verified program func -> IRStringTable.wf (strings program) -> interned program func ->
  call_function program call_rec (eliminate_unreachable_code func).1 args s
  = call_function program call_rec func args s.
Proof. apply unreachable_call_equal. Qed.

Lemma eliminate_unreachable_code_correct_witness :
  (eliminate_unreachable_code Samples.stranded).2 = true /\
  call_function (H := identity_libm) Samples.program (fun _ _ => mret VNil)
    (eliminate_unreachable_code Samples.stranded).1 [] (mkInterp [] "" 0)
  = call_function (H := identity_libm) Samples.program (fun _ _ => mret VNil)
    Samples.stranded [] (mkInterp [] "" 0).
Proof.
  split; [by vm_compute|]. apply eliminate_unreachable_code_correct.
  - by vm_compute.
  - apply Samples.table_wf.
  - apply interned_decide. by vm_compute.
Defined.

End UnreachableCode.
