(* ===== verification/ConstantFolding.v ===== *)
(** * Constant folding

    Models [ConstantValue], [meet_constants], [fold_instruction],
    [try_fold_binary_op] and [constant_folding] of ir_optimizer.cpp, and
    relates what is folded to what the interpreter computes. *)

From S2P Require Import Prelude.
From S2P Require Import Dataflow.
From S2P Require Import Double.
From S2P Require Import VariantTypes.
From S2P Require Import IROpcodes.
From S2P Require Import Globals.
From S2P Require Import IR.
From S2P Require Import Cfg.
From S2P Require Import Verifier.
From S2P Require Import VerifierFacts.
From S2P Require Import Interpreter.
From S2P Require Import Effects.
From S2P Require Import Machine.
From S2P Require Import VerifierSound.
From S2P Require Import Positions.
From S2P Require Import OptimizerBase.
From S2P Require Import UnreachableCode.
From S2P Require Import Samples.

Module ConstantFolding.

Inductive ConstantType := NONE | INT | FLOAT | BOOL | STRING.

#[export] Instance ConstantType_eq_dec : EqDecision ConstantType.
Proof. solve_decision. Defined.

(** Every field has its default unless set; which one counts is [type]. *)
Record ConstantValue := mkConstant {
  type : ConstantType;
  int_value : Z;
  float_value : double;
  bool_value : bool;
  string_value : string
}.

Definition of_int (z : Z) : ConstantValue := mkConstant INT z dzero false "".
Definition of_float (d : double) : ConstantValue := mkConstant FLOAT 0 d false "".
Definition of_bool (b : bool) : ConstantValue := mkConstant BOOL 0 dzero b "".

(** Bitwise on floats: NaN equals NaN and -0.0 differs from 0.0. *)
Definition same_as (a b : ConstantValue) : bool :=
  bool_decide (type a = type b) &&
  match type a with
  | NONE => true
  | INT => int_value a =? int_value b
  | BOOL => Bool.eqb (bool_value a) (bool_value b)
  | STRING => String.eqb (string_value a) (string_value b)
  | FLOAT => bool_decide (float_value a = float_value b)
  end.

(** Variant::booleanize() for the tracked types. *)
Definition truthiness (c : ConstantValue) : option bool :=
  match type c with
  | INT => Some (negb (int_value c =? 0))
  | BOOL => Some (bool_value c)
  | FLOAT => Some (negb (deqb (float_value c) dzero))
  | NONE | STRING => None
  end.

Abbreviation ConstantMap := (gmap Z ConstantValue).

(** Keeps only the registers both agree on; answers whether any was dropped. *)
Definition agrees_with (from : ConstantMap) (p : Z * ConstantValue) : bool :=
  match from !! p.1 with Some other => same_as p.2 other | None => false end.

Definition meet_constants (into from : ConstantMap) : ConstantMap * bool :=
  let kept := filter (fun p => agrees_with from p = true) into in
  (kept, negb (size kept =? size into)%nat).

Definition as_double (c : ConstantValue) : double :=
  match type c with FLOAT => float_value c | _ => double_of_Z (int_value c) end.

Definition is_type (t : ConstantType) (c : ConstantValue) : bool := bool_decide (type c = t).

(** The float switch of [try_fold_binary_op]; the outer [None] falls out of it. *)
Definition fold_float_arith (op : IROpcode) (l r : double) : option (option ConstantValue) :=
  match op with
  | IROpcode.ADD => Some (Some (of_float (dadd l r)))
  | IROpcode.SUB => Some (Some (of_float (dsub l r)))
  | IROpcode.MUL => Some (Some (of_float (dmul l r)))
  | IROpcode.DIV => if deqb r dzero then Some None else Some (Some (of_float (ddiv l r)))
  | IROpcode.MOD => if deqb r dzero then Some None else Some (Some (of_float (dfmod l r)))
  | _ => None
  end.

(** The integer switch: wrapping arithmetic, division left to run time where it
    would trap. *)
Definition fold_int_arith (op : IROpcode) (l r : Z) : option (option ConstantValue) :=
  let undivisible := (r =? 0) || (r =? -1) && (l =? INT64_MIN) in
  match op with
  | IROpcode.ADD => Some (Some (of_int (to_int64 (to_uint64 (to_uint64 l + to_uint64 r)))))
  | IROpcode.SUB => Some (Some (of_int (to_int64 (to_uint64 (to_uint64 l - to_uint64 r)))))
  | IROpcode.MUL => Some (Some (of_int (to_int64 (to_uint64 (to_uint64 l * to_uint64 r)))))
  | IROpcode.DIV => if undivisible then Some None else Some (Some (of_int (Z.quot l r)))
  | IROpcode.MOD => if undivisible then Some None else Some (Some (of_int (Z.rem l r)))
  | IROpcode.BIT_AND => Some (Some (of_int (Z.land l r)))
  | IROpcode.BIT_OR => Some (Some (of_int (Z.lor l r)))
  | IROpcode.BIT_XOR => Some (Some (of_int (Z.lxor l r)))
  | IROpcode.SHL => Some (Some (of_int (to_int64 (to_uint64 (Z.shiftl (to_uint64 l) (Z.land r 63))))))
  | IROpcode.SHR => Some (Some (of_int (Z.shiftr l (Z.land r 63))))
  | _ => None
  end.

Definition fold_comparison {A} (eq lt le : A -> A -> bool) (op : IROpcode) (l r : A) : option ConstantValue :=
  match op with
  | IROpcode.CMP_EQ => Some (of_bool (eq l r))
  | IROpcode.CMP_NEQ => Some (of_bool (negb (eq l r)))
  | IROpcode.CMP_LT => Some (of_bool (lt l r))
  | IROpcode.CMP_LTE => Some (of_bool (le l r))
  | IROpcode.CMP_GT => Some (of_bool (lt r l))
  | IROpcode.CMP_GTE => Some (of_bool (le r l))
  | _ => None
  end.

Definition is_number (c : ConstantValue) : bool := is_type INT c || is_type FLOAT c.

(** The comparison part of [try_fold_binary_op]. *)
Definition fold_compare (op : IROpcode) (lhs rhs : ConstantValue) : option ConstantValue :=
  if is_number lhs && is_number rhs then
    if is_type FLOAT lhs || is_type FLOAT rhs
    then fold_comparison deqb dltb dleb op (as_double lhs) (as_double rhs)
    else fold_comparison Z.eqb Z.ltb Z.leb op (int_value lhs) (int_value rhs)
  else None.

Definition try_fold_binary_op (op : IROpcode) (hint : Z) (lhs rhs : ConstantValue) : option ConstantValue :=
  let is_float_op := (hint =? Variant.FLOAT) || is_type FLOAT lhs || is_type FLOAT rhs in
  match (if is_float_op then fold_float_arith op (as_double lhs) (as_double rhs) else None) with
  | Some answer => answer
  | None =>
      match (if negb is_float_op && is_type INT lhs && is_type INT rhs
             then fold_int_arith op (int_value lhs) (int_value rhs) else None) with
      | Some answer => answer
      | None => fold_compare op lhs rhs
      end
  end.

(** ** [fold_instruction] *)

(** The loads a folded instruction is replaced by. *)
Definition load_int (dst z : Z) : IRInstruction :=
  with_type_hint (instr IROpcode.LOAD_IMM [IRValue.reg dst; IRValue.imm z]) Variant.INT.
Definition load_float (dst : Z) (d : double) : IRInstruction :=
  with_type_hint (instr IROpcode.LOAD_FLOAT_IMM [IRValue.reg dst; IRValue.fimm d]) Variant.FLOAT.
Definition load_bool (dst : Z) (b : bool) : IRInstruction :=
  instr IROpcode.LOAD_BOOL [IRValue.reg dst; IRValue.imm (if b then 1 else 0)].

Definition set_register_constant (m : ConstantMap) (reg : Z) (value : ConstantValue) : ConstantMap :=
  <[reg := value]> m.
Definition invalidate_register (m : ConstantMap) (reg : Z) : ConstantMap := delete reg m.

(** The result: the new map and what was emitted. *)
Abbreviation Folded := (ConstantMap * list IRInstruction)%type.

Definition unfolded (m : ConstantMap) (dst : Z) (i : IRInstruction) : Folded :=
  (invalidate_register m dst, [i]).

(** [operands.size() < 3] or one of the first three is not a register. *)
Definition not_three_registers (i : IRInstruction) : bool :=
  negb match operands i with
       | IRValue.REGISTER _ :: IRValue.REGISTER _ :: IRValue.REGISTER _ :: _ => true
       | _ => false
       end.

(** The early exit of those: the destination, if a register, is forgotten. *)
Definition invalidate_first (m : ConstantMap) (i : IRInstruction) : Folded :=
  match operands i with
  | IRValue.REGISTER dst :: _ => unfolded m dst i
  | _ => (m, [i])
  end.

Definition fold_convert_constant (hint : Z) (value : ConstantValue) : option ConstantValue :=
  if hint =? Variant.FLOAT then
    match type value with
    | INT => Some (of_float (double_of_Z (int_value value)))
    | BOOL => Some (of_float (if bool_value value then d_one else dzero))
    | _ => None
    end
  else if hint =? Variant.INT then
    match type value with
    | BOOL => Some (of_int (if bool_value value then 1 else 0))
    | FLOAT =>
        let d := float_value value in
        if is_finite d && dleb (double_of_Z INT64_MIN) d && dltb d (dneg (double_of_Z INT64_MIN))
        then match int64_of_double d with
             | Ok z => Some (of_int z)
             | Throw _ => None  (* not reached: the value is in range *)
             end
        else None
    | _ => None
    end
  else None.

Definition fold_convert (m : ConstantMap) (i : IRInstruction) : Folded :=
  let dst := op_reg i 0 in
  match m !! op_reg i 1 with
  | None => unfolded m dst i
  | Some value =>
      match fold_convert_constant (type_hint i) value with
      | Some result =>
          (set_register_constant m dst result,
           [if is_type FLOAT result then load_float dst (float_value result)
            else load_int dst (int_value result)])
      | None => unfolded m dst i
      end
  end.

(** Arithmetic and bitwise operators. *)
Definition fold_arith (m : ConstantMap) (i : IRInstruction) : Folded :=
  if not_three_registers i then invalidate_first m i
  else
    let dst := op_reg i 0 in
    match m !! op_reg i 1, m !! op_reg i 2 with
    | Some lhs, Some rhs =>
        match try_fold_binary_op (opcode i) (type_hint i) lhs rhs with
        | Some result =>
            (set_register_constant m dst result,
             [if is_type FLOAT result then load_float dst (float_value result)
              else load_int dst (int_value result)])
        | None => unfolded m dst i
        end
    | _, _ => unfolded m dst i
    end.

Definition fold_cmp (m : ConstantMap) (i : IRInstruction) : Folded :=
  if not_three_registers i then invalidate_first m i
  else
    let dst := op_reg i 0 in
    match m !! op_reg i 1, m !! op_reg i 2 with
    | Some lhs, Some rhs =>
        match try_fold_binary_op (opcode i) (type_hint i) lhs rhs with
        | Some result => (set_register_constant m dst result, [load_bool dst (bool_value result)])
        | None => unfolded m dst i
        end
    | _, _ => unfolded m dst i
    end.

Definition fold_neg (m : ConstantMap) (i : IRInstruction) : Folded :=
  let dst := op_reg i 0 in
  match m !! op_reg i 1 with
  | Some cv =>
      match type cv with
      | INT => let z := to_int64 (to_uint64 (0 - to_uint64 (int_value cv))) in
               (set_register_constant m dst (of_int z), [load_int dst z])
      | FLOAT => let d := dneg (float_value cv) in
                 (set_register_constant m dst (of_float d), [load_float dst d])
      | _ => unfolded m dst i
      end
  | None => unfolded m dst i
  end.

Definition fold_not (m : ConstantMap) (i : IRInstruction) : Folded :=
  let dst := op_reg i 0 in
  match m !! op_reg i 1 with
  | Some cv =>
      if is_type BOOL cv
      then let b := negb (bool_value cv) in
           (set_register_constant m dst (of_bool b), [load_bool dst b])
      else unfolded m dst i
  | None => unfolded m dst i
  end.

Definition fold_logical (m : ConstantMap) (i : IRInstruction) : Folded :=
  if not_three_registers i then invalidate_first m i
  else
    let dst := op_reg i 0 in
    match m !! op_reg i 1, m !! op_reg i 2 with
    | Some lhs, Some rhs =>
        if is_type BOOL lhs && is_type BOOL rhs then
          let b := if IROpcode.eqb (opcode i) IROpcode.AND
                   then bool_value lhs && bool_value rhs else bool_value lhs || bool_value rhs in
          (set_register_constant m dst (of_bool b), [load_bool dst b])
        else unfolded m dst i
    | _, _ => unfolded m dst i
    end.

(** Known condition: a JUMP when taken, nothing when not. *)
Definition fold_branch (m : ConstantMap) (i : IRInstruction) : Folded :=
  match operands i with
  | IRValue.REGISTER cond :: label :: _ =>
      match m !! cond ≫= truthiness with
      | Some truth =>
          let taken := if IROpcode.eqb (opcode i) IROpcode.BRANCH_ZERO then negb truth else truth in
          (m, if taken then [instr IROpcode.JUMP [label]] else [])
      | None => (m, [i])
      end
  | _ => (m, [i])
  end.

Section Global.
Context `{Libm}.

(** The arguments of a folded GLOBAL_CALL as integers; a float is unknown. *)
Definition int_argument (cv : ConstantValue) : option Z :=
  match type cv with
  | INT => Some (int_value cv)
  | BOOL => Some (if bool_value cv then 1 else 0)
  | _ => None
  end.

Definition float_argument (cv : ConstantValue) : option double :=
  match type cv with
  | FLOAT => Some (float_value cv)
  | INT => Some (double_of_Z (int_value cv))
  | BOOL => Some (if bool_value cv then d_one else dzero)
  | _ => None
  end.

(** The constants of the argument registers, all of them or nothing. *)
Definition known_arguments {A} (f : ConstantValue -> option A) (m : ConstantMap) (i : IRInstruction)
    (count : nat) : option (list A) :=
  mapM (fun n => m !! op_reg i (4 + n) ≫= f) (seq 0 count).

(** The folded call: its result and the load that replaces it. *)
Definition fold_global_value (info : GlobalFunction) (m : ConstantMap) (i : IRInstruction)
    (count : nat) (dst : Z) : outcome (option (ConstantValue * IRInstruction)) :=
  if decide (gf_kind info = GlobalKind.INT_OP) then
    match known_arguments int_argument m i count with
    | None => Ok None
    | Some ints =>
        let? value := eval_global_int (gf_fn info) ints in
        match gf_result info with
        | GlobalResult.BOOL =>
            let b := negb (value =? 0) in Ok (Some (of_bool b, load_bool dst b))
        | GlobalResult.INT => Ok (Some (of_int value, load_int dst value))
        | _ => Ok None
        end
    end
  else
    match known_arguments float_argument m i count with
    | None => Ok None
    | Some floats =>
        let? value := eval_global_float (gf_fn info) floats in
        match gf_result info with
        | GlobalResult.BOOL =>
            let b := negb (deqb value dzero) in Ok (Some (of_bool b, load_bool dst b))
        | GlobalResult.FLOAT => Ok (Some (of_float value, load_float dst value))
        | _ => Ok None
        end
    end.

Definition fold_global_call (m : ConstantMap) (i : IRInstruction) : outcome Folded :=
  let dst := dst_reg i in
  let keep := Ok (unfolded m dst i) in
  match operands i !! 1%nat with
  | Some (IRValue.IMMEDIATE fn) =>
      if (0 <=? dst) && (4 <=? length (operands i))%nat then
        let? info := global_function (to_int16 fn) in
        let count := to_uint64 (op_imm i 3) in
        if negb (gf_impure info) && (count <=? 3) && (Z.of_nat (length (operands i)) =? to_uint64 (4 + count))
           && (bool_decide (gf_kind info = GlobalKind.INT_OP) || bool_decide (gf_kind info = GlobalKind.FLOAT_OP))
        then
          let? folded := fold_global_value info m i (Z.to_nat count) dst in
          match folded with
          | Some (value, load) => Ok (set_register_constant m dst value, [load])
          | None => keep
          end
        else keep
      else keep
  | _ => keep
  end.

(** The whole switch. *)
Definition fold_instruction (m : ConstantMap) (i : IRInstruction) : outcome Folded :=
  match opcode i with
  | IROpcode.LABEL | IROpcode.BREAKPOINT | IROpcode.SCOPE_MARK | IROpcode.SCOPE_RELEASE => Ok (m, [i])
  | IROpcode.LOAD_IMM => Ok (set_register_constant m (op_reg i 0) (of_int (op_imm i 1)), [i])
  | IROpcode.LOAD_FLOAT_IMM =>
      let d := match operands i !! 1%nat with Some v => IRValue.float_number v | None => dzero end in
      Ok (set_register_constant m (op_reg i 0) (of_float d), [i])
  | IROpcode.LOAD_BOOL =>
      Ok (set_register_constant m (op_reg i 0) (of_bool (negb (op_imm i 1 =? 0))), [i])
  | IROpcode.LOAD_STRING | IROpcode.LOAD_STRING_AS => Ok (unfolded m (op_reg i 0) i)
  | IROpcode.MOVE =>
      match m !! op_reg i 1 with
      | Some c => Ok (<[op_reg i 0 := c]> m, [i])
      | None => Ok (unfolded m (op_reg i 0) i)
      end
  | IROpcode.CONVERT => Ok (fold_convert m i)
  | IROpcode.ADD | IROpcode.SUB | IROpcode.MUL | IROpcode.DIV | IROpcode.MOD
  | IROpcode.BIT_AND | IROpcode.BIT_OR | IROpcode.BIT_XOR | IROpcode.SHL | IROpcode.SHR =>
      Ok (fold_arith m i)
  | IROpcode.CMP_EQ | IROpcode.CMP_NEQ | IROpcode.CMP_LT | IROpcode.CMP_LTE
  | IROpcode.CMP_GT | IROpcode.CMP_GTE => Ok (fold_cmp m i)
  | IROpcode.NEG => Ok (fold_neg m i)
  | IROpcode.NOT => Ok (fold_not m i)
  | IROpcode.AND | IROpcode.OR => Ok (fold_logical m i)
  | IROpcode.BRANCH_ZERO | IROpcode.BRANCH_NOT_ZERO => Ok (fold_branch m i)
  | IROpcode.BRANCH_EQ | IROpcode.BRANCH_GT | IROpcode.BRANCH_GTE
  | IROpcode.BRANCH_LT | IROpcode.BRANCH_LTE | IROpcode.BRANCH_NEQ => Ok (m, [i])
  | IROpcode.GLOBAL_CALL => fold_global_call m i
  | IROpcode.ARRAY_SET | IROpcode.DICT_SET | IROpcode.DICT_SET_CONST
  | IROpcode.DICT_SET_CONST_STR => Ok (m, [i])
  | IROpcode.ARRAY_APPEND | IROpcode.ARRAY_GET | IROpcode.DICT_GET_CONST | IROpcode.DICT_HAS_CONST
  | IROpcode.STRUCT_CHECK | IROpcode.PRINT | IROpcode.VCALL | IROpcode.VGET | IROpcode.VSET
  | IROpcode.VARIANT_SET | IROpcode.CALL_SYSCALL | IROpcode.GET_NODE | IROpcode.LOAD_RESOURCE
  | IROpcode.LOAD_RESOURCE_VAR | IROpcode.MAKE_CALLABLE | IROpcode.CONSTRUCT | IROpcode.AWAIT
  | IROpcode.CALL | IROpcode.CALL_HOSTED => Ok (invalidate_first m i)
  | _ => if 0 <=? dst_reg i then Ok (unfolded m (dst_reg i) i) else Ok (m, [i])
  end.

(** ** [constant_folding] *)

Import Analysis.

Definition fold_code (m : ConstantMap) (code : list IRInstruction) : outcome Folded :=
  fold_left (fun acc i =>
    let? acc := acc in
    let? r := fold_instruction acc.1 i in
    Ok (r.1, acc.2 ++ r.2)) code (Ok (m, [])).

Abbreviation Entries := (list (option ConstantMap)).

(** One visit of the work list; the counter is the loop's fuel. *)
Definition visit_block (func : IRFunction) (st : Entries * list nat)
  : (Entries * list nat) + outcome Entries :=
  let '(entry, worklist) := st in
  match worklist with
  | [] => inr (Ok entry)
  | index :: worklist =>
      let m := default ∅ (mjoin (entry !! index)) in
      match fold_code m (block_code func index) with
      | Throw e => inr (Throw e)
      | Ok (out, _) =>
          inl (fold_left (fun '(entry, worklist) successor =>
            match entry !! successor with
            | Some None => (<[successor := Some out]> entry, successor :: worklist)
            | Some (Some e) =>
                let '(e', changed) := meet_constants e out in
                (<[successor := Some e']> entry, if changed then successor :: worklist else worklist)
            | None => (entry, worklist)
            end) (successors_of func index) (entry, worklist))
      end
  end.

(** The cap on visits. *)
Definition max_visits (func : IRFunction) : nat := length (blocks_of func) * 16 + 1024.

(** The entry states, or the fallback when the cap is reached with work left. *)
Definition fold_entries (func : IRFunction) : outcome Entries :=
  let n := length (blocks_of func) in
  match iter_until (visit_block func) (max_visits func) (<[0%nat := Some ∅]> (replicate n None), [0%nat]) with
  | inr r => r
  | inl (entry, []) => Ok entry
  | inl (entry, _) =>
      Ok (imap (fun b e => if (b =? 0)%nat then e else (fun _ => ∅) <$> e) entry)
  end.

Definition rewrite_blocks (func : IRFunction) (entries : Entries) : outcome (list IRInstruction) :=
  let? codes := omapM (fun b =>
      let? r := fold_code (default ∅ (mjoin (entries !! b))) (block_code func b) in Ok r.2)
    (seq 0 (length (blocks_of func))) in
  Ok (concat codes).

Definition constant_folding (func : IRFunction) : outcome (IRFunction * bool) :=
  if (length (blocks_of func) =? 0)%nat then Ok (func, false)
  else
    let? entries := fold_entries func in
    let? fresh := rewrite_blocks func entries in
    Ok (replace_instructions func fresh).

End Global.
End ConstantFolding.
