(* ===== verification/ConstantFoldingSound.v ===== *)
(** * What constant folding folds

    Relates the constants [ConstantFolding] tracks and the instructions it emits
    to the interpreter: the value a folded operator loads is the value the
    interpreter computes, instruction by instruction, and the constant map stays
    true of the registers.  The two exceptions found while stating this are
    theorems too: the destination of a CALL is not forgotten, and a BOOL in
    float arithmetic counts as zero. *)

From S2P Require Import Prelude.
From S2P Require Import Dataflow.
From S2P Require Import Double.
From S2P Require Import VariantTypes.
From S2P Require Import IROpcodes.
From S2P Require Import Globals.
From S2P Require Import IR.
From S2P Require Import Cfg.
From S2P Require Import Verifier.
From S2P Require Import VerifierFacts.
From S2P Require Import Interpreter.
From S2P Require Import Effects.
From S2P Require Import Machine.
From S2P Require Import VerifierSound.
From S2P Require Import VerifierSafe.
From S2P Require Import Positions.
From S2P Require Import OptimizerBase.
From S2P Require Import UnreachableCode.
From S2P Require Import ConstantFolding.
From S2P Require Import Samples.

Module ConstantFoldingSound.
Import ConstantFolding.

(** The constant describes the value. *)
Definition holds_constant (c : ConstantValue) (v : Value) : Prop :=
  match type c with
  | INT => v = VInt (int_value c) /\ is_int64 (int_value c)
  | FLOAT => v = VFloat (float_value c)
  | BOOL => v = VBool (bool_value c)
  | NONE | STRING => False
  end.

(** ** Integers *)

Lemma int64_shiftr z : is_int64 z <-> Z.shiftr z 63 = 0 \/ Z.shiftr z 63 = -1.
Proof.
  unfold is_int64, INT64_MIN, INT64_MAX. rewrite Z.shiftr_div_pow2 by lia.
  pose proof (Z.div_mod z (2 ^ 63)). pose proof (Z.mod_pos_bound z (2 ^ 63)). lia.
Qed.

Lemma int64_land a b : is_int64 a -> is_int64 b -> is_int64 (Z.land a b).
Proof.
  rewrite !int64_shiftr, Z.shiftr_land. intros [-> | ->] [-> | ->]; vm_compute; tauto.
Qed.

Lemma int64_lor a b : is_int64 a -> is_int64 b -> is_int64 (Z.lor a b).
Proof.
  rewrite !int64_shiftr, Z.shiftr_lor. intros [-> | ->] [-> | ->]; vm_compute; tauto.
Qed.

Lemma int64_lxor a b : is_int64 a -> is_int64 b -> is_int64 (Z.lxor a b).
Proof.
  rewrite !int64_shiftr, Z.shiftr_lxor. intros [-> | ->] [-> | ->]; vm_compute; tauto.
Qed.

Lemma int64_shiftr_masked a b : is_int64 a -> is_int64 (Z.shiftr a (Z.land b 63)).
Proof.
  intros Ha. assert (0 <= Z.land b 63) by (apply Z.land_nonneg; lia).
  rewrite int64_shiftr, Z.shiftr_shiftr, Z.add_comm, <- Z.shiftr_shiftr by lia.
  rewrite int64_shiftr in Ha. destruct Ha as [-> | ->].
  - left. by apply Z.shiftr_0_l.
  - right. rewrite Z.shiftr_div_pow2 by done.
    assert (0 < 2 ^ Z.land b 63) by (by apply Z.pow_pos_nonneg).
    symmetry. apply Z.div_unique with (r := 2 ^ Z.land b 63 - 1); lia.
Qed.

Lemma int64_quot a b : is_int64 a -> is_int64 b -> b <> 0 -> (a <> INT64_MIN \/ b <> -1) ->
  is_int64 (Z.quot a b) /\ is_int64 (Z.rem a b).
Proof.
  unfold is_int64, INT64_MIN, INT64_MAX. intros Ha Hb Hz Hm.
  pose proof (Z.rem_bound_abs a b Hz) as Hr. pose proof (Z.quot_rem a b Hz) as Hq.
  split; [|lia].
  destruct (Z.eq_dec b 1) as [->|H1]; [rewrite Z.quot_1_r; lia|].
  destruct (Z.eq_dec b (-1)) as [->|Hm1].
  - replace (Z.quot a (-1)) with (- a); [lia|].
    symmetry. apply Z.mul_cancel_l with (p := -1); [lia|]. lia.
  - assert (Z.abs (Z.quot a b) <= Z.abs a).
    { rewrite <- Z.quot_abs by done. apply Z.quot_le_upper_bound; nia. }
    assert (2 * Z.abs (Z.quot a b) <= Z.abs a); [|lia].
    rewrite <- Z.quot_abs by done.
    pose proof (Z.quot_rem (Z.abs a) (Z.abs b)). pose proof (Z.rem_nonneg (Z.abs a) (Z.abs b)).
    pose proof (Z.quot_pos (Z.abs a) (Z.abs b)). nia.
Qed.

Lemma to_uint64_eq0 r : is_int64 r -> (to_uint64 r =? 0) = (r =? 0).
Proof.
  unfold is_int64, INT64_MIN, INT64_MAX, wrapu. intros Hr.
  destruct (Z.eqb_spec r 0) as [->|Hz]; [done|]. apply Z.eqb_neq. intros Hm.
  apply Z.mod_divide in Hm as [q Hq]; [|lia]. nia.
Qed.

Lemma to_uint64_inj a b : is_int64 a -> is_int64 b -> (to_uint64 a =? to_uint64 b) = (a =? b).
Proof.
  intros Ha Hb. destruct (Z.eqb_spec a b) as [->|Hne]; [by rewrite Z.eqb_refl|].
  apply Z.eqb_neq. intros He. apply Hne.
  rewrite <- (to_int64_id a), <- (to_int64_id b) by done.
  by rewrite <- (wraps_wrapu 64 a), <- (wraps_wrapu 64 b), He by lia.
Qed.

Create HintDb int64.
#[local] Hint Resolve int64_land int64_lor int64_lxor int64_shiftr_masked to_int64_range : int64.

(** An operator the integer switch folds is the interpreter's. *)
Lemma fold_int_arith_correct op l r c :
  is_int64 l -> is_int64 r -> fold_int_arith op l r = Some (Some c) ->
  binary_op (VInt l) (VInt r) op = Ok (VInt (int_value c)) /\ type c = INT /\ is_int64 (int_value c).
Proof.
  intros Hl Hr. unfold fold_int_arith.
  destruct op; intros Hc; simplify_eq/=; try (split_and!; [done|done|eauto with int64]).
  all: destruct ((r =? 0) || (r =? -1) && (l =? INT64_MIN)) eqn:E; simplify_eq/=.
  all: assert (r <> 0 /\ (l <> INT64_MIN \/ r <> -1)) as [Hz Hm] by
    (revert E; destruct (Z.eqb_spec r 0), (Z.eqb_spec r (-1)), (Z.eqb_spec l INT64_MIN); simpl; intros;
     try discriminate; split; first [done | by left | by right]).
  all: destruct (int64_quot l r Hl Hr Hz Hm) as [? ?].
  all: unfold binary_op, int_op; cbn [is_string orb bitwise_op is_float get_int obind].
  all: change UINT64_MAX with (to_uint64 (-1)); rewrite to_uint64_eq0, !to_uint64_inj by (done || (vm_compute; split; discriminate)).
  all: destruct (Z.eqb_spec r 0); [done|]; rewrite <- (proj1 (orb_false_iff _ _) E) || idtac.
  all: apply orb_false_iff in E as [_ ->]; done.
Qed.

(** The inline integer globals stay within [int64_t]. *)
Lemma checked_range z r : checked z = Ok r -> is_int64 r.
Proof. unfold checked. case_bool_decide; by intros; simplify_eq. Qed.

Lemma eval_global_int_range fn args z :
  Forall is_int64 args -> eval_global_int fn args = Ok z -> is_int64 z.
Proof.
  intros Ha. assert (forall n, is_int64 (nth n args 0)) as Hn.
  { intros n. destruct (decide (n < length args)%nat) as [Hlt|Hge].
    - rewrite nth_lookup. destruct (lookup_lt_is_Some_2 args n Hlt) as [a Ea]. rewrite Ea.
      simpl. eapply Forall_lookup_1; [exact Ha|exact Ea].
    - rewrite nth_overflow by lia. vm_compute. split; discriminate. }
  pose proof (Hn 0%nat) as H0. pose proof (Hn 1%nat) as H1. pose proof (Hn 2%nat) as H2.
  unfold eval_global_int. destruct fn;
    repeat match goal with
    | |- (let? _ := need ?a ?b ?c in _) = _ -> _ => destruct (need a b c); cbn [obind]; [|done]
    | |- (let? _ := global_function ?a in _) = _ -> _ => destruct (global_function a); cbn [obind]; [|done]
    end; try done;
    try (intros Hz; injection Hz as <-; try (by apply to_int64_range);
         repeat case_match; first [done | vm_compute; split; discriminate]).
  - unfold eval_wrapi. destruct (checked (nth 2 args 0 - _)) as [range|]; cbn [obind]; [|done].
    destruct (range =? 0); [by intros Hx; injection Hx as <-|].
    repeat match goal with
    | |- (let? _ := ?a in _) = _ -> _ => destruct a; cbn [obind]; [|done]
    end. apply checked_range.
  - unfold eval_posmod. destruct (Z.eqb_spec (nth 1 args 0) 0) as [|Hz].
    + intros Hx. injection Hx as <-. vm_compute; split; discriminate.
    + unfold rem_checked. destruct (_ && _) eqn:E; cbn [obind]; [done|].
      destruct (_ || _); [by apply checked_range|]. intros Hx. injection Hx as <-.
      apply (int64_quot _ _ H0 H1 Hz).
      destruct (Z.eqb_spec (nth 1 args 0) (-1)), (Z.eqb_spec (nth 0 args 0) INT64_MIN); simpl in E; first [discriminate | tauto].
Qed.

(** The rows the folder evaluates. *)
Definition foldable_row (e : GlobalFunction) : bool :=
  match gf_kind e with
  | GlobalKind.INT_OP => bool_decide (gf_result e = GlobalResult.INT)
  | GlobalKind.FLOAT_OP =>
      bool_decide (gf_result e = GlobalResult.BOOL) || bool_decide (gf_result e = GlobalResult.FLOAT)
  | _ => true
  end.

Lemma foldable_rows fn info :
  global_function fn = Ok info ->
  (gf_kind info = GlobalKind.INT_OP -> gf_result info = GlobalResult.INT)
  /\ (gf_kind info = GlobalKind.FLOAT_OP -> gf_result info = GlobalResult.BOOL \/ gf_result info = GlobalResult.FLOAT)
  /\ (fn = GlobalFn.num GlobalFn.STR -> gf_kind info = GlobalKind.HOST).
Proof.
  unfold global_function. destruct (find _ _) as [e|] eqn:E; [|done]. intros Hx. injection Hx as <-.
  assert (foldable_row e = true) as Hrow.
  { apply find_some in E as [Hin _]. revert e Hin. apply forallb_forall. by vm_compute. }
  unfold foldable_row in Hrow. split_and!.
  - intros Hk. rewrite Hk in Hrow. by apply bool_decide_eq_true in Hrow.
  - intros Hk. rewrite Hk, orb_true_iff, !bool_decide_eq_true in Hrow. done.
  - intros ->. vm_compute in E. by injection E as <-.
Qed.

(** ** Operators on tracked constants *)

(** The operators the float switch folds. *)
Definition float_arith (op : IROpcode) : bool :=
  match op with
  | IROpcode.ADD | IROpcode.SUB | IROpcode.MUL | IROpcode.DIV | IROpcode.MOD => true
  | _ => false
  end.

Definition comparison (op : IROpcode) : bool :=
  match op with
  | IROpcode.CMP_EQ | IROpcode.CMP_NEQ | IROpcode.CMP_LT | IROpcode.CMP_LTE
  | IROpcode.CMP_GT | IROpcode.CMP_GTE => true
  | _ => false
  end.

(** What the folder relies on in float arithmetic: a FLOAT hint comes with a
    FLOAT operand, and the other one is a number. *)
Definition well_typed (op : IROpcode) (hint : Z) (l r : ConstantValue) : Prop :=
  float_arith op = true -> (hint = Variant.FLOAT \/ type l = FLOAT \/ type r = FLOAT) ->
  is_number l = true /\ is_number r = true /\ (type l = FLOAT \/ type r = FLOAT).

Lemma holds_is_type c v t : holds_constant c v -> is_type t c = true -> type c = t.
Proof. intros _. apply bool_decide_eq_true. Qed.

Lemma number_as_double c v : holds_constant c v -> is_number c = true -> as_double c = get_double v.
Proof.
  unfold holds_constant, is_number, is_type, as_double. destruct (type c); intros Hc Hn; try done.
  - by destruct Hc as [-> _].
  - by subst.
Qed.

Lemma number_value c v : holds_constant c v -> is_number c = true ->
  is_string v = false /\ is_nil v = false /\ is_float v = is_type FLOAT c.
Proof.
  unfold holds_constant, is_number, is_type. destruct (type c); intros Hc Hn; try done.
  - by destruct Hc as [-> _].
  - by subst.
Qed.

Lemma int_value_of c v : holds_constant c v -> type c = INT -> v = VInt (int_value c) /\ is_int64 (int_value c).
Proof. unfold holds_constant. intros Hc Ht. by rewrite Ht in Hc. Qed.

Lemma fold_float_arith_correct op l r vl vr c :
  holds_constant l vl -> holds_constant r vr -> is_number l = true -> is_number r = true ->
  type l = FLOAT \/ type r = FLOAT ->
  fold_float_arith op (as_double l) (as_double r) = Some (Some c) ->
  exists d, c = of_float d /\ binary_op vl vr op = Ok (VFloat d).
Proof.
  intros Hl Hr Hnl Hnr Hf Hc.
  destruct (number_value _ _ Hl Hnl) as (Hsl & _ & Hfl), (number_value _ _ Hr Hnr) as (Hsr & _ & Hfr).
  rewrite (number_as_double l vl), (number_as_double r vr) in Hc by done.
  unfold binary_op. rewrite Hsl, Hsr, Hfl, Hfr. cbn [orb].
  replace (is_type FLOAT l || is_type FLOAT r) with true.
  2: { unfold is_type. destruct Hf as [-> | ->]; by rewrite ?orb_true_r. }
  unfold fold_float_arith in Hc. destruct op; simplify_eq/=; eauto;
    destruct (deqb (get_double vr) dzero); simplify_eq; eauto.
Qed.

Lemma fold_comparison_with {A} (eq lt le : A -> A -> bool) op l r c :
  fold_comparison eq lt le op l r = Some c ->
  comparison op = true /\ c = of_bool (compare_with eq lt le l r op).
Proof. unfold fold_comparison. destruct op; intros; by simplify_eq/=. Qed.

Lemma fold_compare_correct op l r vl vr c :
  holds_constant l vl -> holds_constant r vr -> fold_compare op l r = Some c ->
  comparison op = true /\ exists b, c = of_bool b /\ compare_op vl vr op = Ok (bool_int b).
Proof.
  intros Hl Hr. unfold fold_compare.
  destruct (is_number l) eqn:Hnl; [|done]. destruct (is_number r) eqn:Hnr; [|done]. cbn [andb].
  destruct (number_value _ _ Hl Hnl) as (Hsl & Hnil & Hfl), (number_value _ _ Hr Hnr) as (Hsr & Hnir & Hfr).
  unfold compare_op. rewrite Hsl, Hsr, Hfl, Hfr, Hnil, Hnir. cbn [orb].
  destruct (is_type FLOAT l || is_type FLOAT r) eqn:E; intros [Ho ->]%fold_comparison_with;
    (split; [done|]); eexists; (split; [done|]).
  - by rewrite (number_as_double l vl), (number_as_double r vr).
  - apply orb_false_iff in E as [El Er]. unfold is_number in Hnl, Hnr.
    rewrite El, orb_false_r in Hnl. rewrite Er, orb_false_r in Hnr.
    apply bool_decide_eq_true in Hnl, Hnr.
    destruct (int_value_of _ _ Hl Hnl) as [-> _], (int_value_of _ _ Hr Hnr) as [-> _]. done.
Qed.

Lemma fold_float_arith_None op l r :
  fold_float_arith op l r = None <-> float_arith op = false.
Proof. unfold fold_float_arith. destruct op; simpl; try done; by destruct (deqb _ _). Qed.

Lemma fold_int_arith_cmp op l r x : fold_int_arith op l r = Some x -> comparison op = false.
Proof. by destruct op. Qed.

(** [try_fold_binary_op] against the interpreter's operators. *)
Lemma try_fold_correct op hint l r vl vr c :
  holds_constant l vl -> holds_constant r vr -> well_typed op hint l r ->
  try_fold_binary_op op hint l r = Some c ->
  (comparison op = false /\ exists v, binary_op vl vr op = Ok v /\ holds_constant c v /\ is_number c = true)
  \/ (comparison op = true /\ exists b, c = of_bool b /\ compare_op vl vr op = Ok (bool_int b)).
Proof.
  intros Hl Hr Hw. unfold try_fold_binary_op.
  destruct ((hint =? Variant.FLOAT) || is_type FLOAT l || is_type FLOAT r) eqn:Hfop.
  - destruct (fold_float_arith op (as_double l) (as_double r)) as [answer|] eqn:Ef.
    + intros ->. assert (float_arith op = true) as Hfa.
      { destruct (float_arith op) eqn:E; [done|]. apply (fold_float_arith_None op (as_double l) (as_double r)) in E. congruence. }
      destruct (Hw Hfa) as (Hnl & Hnr & Hf).
      { rewrite !orb_true_iff, Z.eqb_eq in Hfop. unfold is_type in Hfop.
        rewrite !bool_decide_eq_true in Hfop. tauto. }
      destruct (fold_float_arith_correct op l r vl vr c) as (d & -> & Hd); try done.
      left. split; [by destruct op|]. by exists (VFloat d).
    + cbn [negb andb]. intros Hc. right.
      destruct (fold_compare_correct op l r vl vr c Hl Hr Hc) as (? & ?). done.
  - cbn [negb andb]. destruct (is_type INT l && is_type INT r) eqn:Hint.
    + apply andb_true_iff in Hint as [Htl Htr]. apply bool_decide_eq_true in Htl, Htr.
      destruct (int_value_of _ _ Hl Htl) as [-> ?], (int_value_of _ _ Hr Htr) as [-> ?].
      destruct (fold_int_arith op (int_value l) (int_value r)) as [answer|] eqn:Ei.
      * intros ->. destruct (fold_int_arith_correct _ _ _ _ H H0 Ei) as (Hb & Ht & Hc).
        left. split; [by eapply fold_int_arith_cmp|]. eexists. split; [done|].
        unfold holds_constant, is_number, is_type. by rewrite Ht.
      * intros Hc. right. destruct (fold_compare_correct op l r _ _ c Hl Hr Hc) as (? & ?). done.
    + intros Hc. right. destruct (fold_compare_correct op l r vl vr c Hl Hr Hc) as (? & ?). done.
Qed.

(** Branches: a tracked constant is truthy when the value is. *)
Lemma truthiness_correct c v b : holds_constant c v -> truthiness c = Some b -> get_bool v = b.
Proof.
  unfold holds_constant, truthiness. destruct (type c); intros Hc Hb; simplify_eq; try done.
  by destruct Hc as [-> _].
Qed.

Lemma int64_of_double_range d z : int64_of_double d = Ok z -> is_int64 z.
Proof.
  unfold int64_of_double. destruct d; intros; simplify_eq; try done.
  case_bool_decide; by simplify_eq.
Qed.

Lemma fold_convert_correct i c v r :
  holds_constant c v -> fold_convert_constant (type_hint i) c = Some r ->
  exists w, convert_value i v = Ok w /\ holds_constant r w /\ is_number r = true.
Proof.
  unfold holds_constant, fold_convert_constant, convert_value. intros Hc.
  destruct (type_hint i =? Variant.FLOAT).
  { destruct (type c); intros; simplify_eq/=; [destruct Hc as [-> _]|];
      (eexists; split; [done|]); by simpl. }
  destruct (type_hint i =? Variant.INT); [|done].
  destruct (type c); intros; simplify_eq/=.
  - destruct (_ && _); [|done]. destruct (int64_of_double (float_value c)) as [z|] eqn:E; [|done].
    simplify_eq/=. eexists. split; [done|]. split; [|done].
    split; [done|]. by eapply int64_of_double_range.
  - eexists. split; [done|]. split; [|done]. split; [done|]. by destruct (bool_value c).
Qed.

(** ** Maps of constants *)

(** Every tracked register exists and holds its constant. *)
Definition sound (m : ConstantMap) (regs : gmap Z Value) : Prop :=
  forall r c, m !! r = Some c -> exists v, regs !! r = Some v /\ holds_constant c v.

Lemma sound_set m regs d c v :
  sound m regs -> holds_constant c v -> sound (set_register_constant m d c) (<[d := v]> regs).
Proof.
  intros Hs Hc r c' Hr. unfold set_register_constant in Hr. rewrite lookup_insert in Hr.
  rewrite lookup_insert. case_decide; simplify_eq; [by eexists|by apply Hs].
Qed.

Lemma sound_sub m m' regs : sound m regs -> m' ⊆ m -> sound m' regs.
Proof. intros Hs Hsub r c Hr. apply Hs. by eapply lookup_weaken. Qed.

Lemma sound_frame m i te regs :
  sound m regs -> (forall r c, m !! r = Some c -> ir_destination_register i <> Some r) ->
  sound m (effect_regs i te regs).
Proof.
  intros Hs Hd r c Hr. destruct (Hs r c Hr) as (v & Hv & Hc). exists v. split; [|done].
  apply effect_regs_frame; [done|by eapply Hd].
Qed.

Lemma meet_sound m m' regs : sound m regs \/ sound m' regs -> sound (meet_constants m m').1 regs.
Proof.
  unfold meet_constants. simpl. intros Hs r c [Hr Ha]%map_lookup_filter_Some.
  destruct Hs as [Hs|Hs]; [by apply Hs|].
  unfold agrees_with in Ha. simpl in Ha. destruct (m' !! r) as [c'|] eqn:E; [|done].
  destruct (Hs r c' E) as (v & Hv & Hc). exists v. split; [done|].
  revert Ha Hc. unfold same_as, holds_constant. rewrite andb_true_iff, bool_decide_eq_true.
  intros [Ht Hv']. rewrite <- Ht. destruct (type c); try done.
  - apply Z.eqb_eq in Hv'. by rewrite Hv'.
  - apply bool_decide_eq_true in Hv'. by rewrite Hv'.
  - apply eqb_prop in Hv'. by rewrite Hv'.
Qed.

Lemma sound_rd m regs r c : sound m regs -> m !! r = Some c ->
  holds_constant c (rd regs r) /\ touch regs r = regs.
Proof.
  intros Hs Hr. destruct (Hs r c Hr) as (v & Hv & Hc). unfold rd, touch. by rewrite Hv.
Qed.

(** ** One instruction *)

Section Instruction.
Context `{Libm} (program : IRProgram) (call_rec : string -> list Value -> M Interp Value).
Context (func : IRFunction).

Abbreviation execute := (execute_instruction program call_rec func).

(** The folded code does in [ctx] what the instruction did there, up to a
    boolean register: a comparison stores the integer 0 or 1 where the folded
    LOAD_BOOL stores the boolean.  The new map is true of the registers. *)
Definition folds_to (ctx : ExecutionContext) (s s' : Interp) (ctx' : ExecutionContext)
    (folded : Folded) : Prop :=
  match folded.2 with
  | [] => s' = s /\ ctx' = ctx /\ sound folded.1 (registers ctx)
  | [i'] =>
      exists ctx'', execute i' ctx s = (s', Ok ctx'') /\ sound folded.1 (registers ctx'')
        /\ (ctx'' = ctx' \/ exists d b, ctx' = set_register ctx d (bool_int b)
                                       /\ ctx'' = set_register ctx d (VBool b))
  | _ => False
  end.

Lemma execute_inv i ctx s s' ctx' :
  execute i ctx s = (s', Ok ctx') ->
  exists te, effect_of program call_rec func (rd (registers ctx)) i s = (s', Ok te)
    /\ apply_effect i te ctx = Ok ctx' /\ registers ctx' = effect_regs i te (registers ctx).
Proof.
  rewrite execute_effect. unfold mbind at 1. destruct (effect_of _ _ _ _ _ _) as [s1 [te|]]; [|done].
  unfold mlift. intros Hx. injection Hx as <- Ha. exists te. split_and!; [done|done|].
  rewrite apply_effect_regs in Ha. simpl in Ha. destruct te as [ns [|v|l|]]; simpl in *.
  - by simplify_eq.
  - by simplify_eq.
  - unfold jump_to_label in Ha. destruct (labels _ !! l); by simplify_eq.
  - simplify_eq. unfold exec_return. by destruct (registers _ !! _).
Qed.

(** The instruction stays and nothing tracked is its destination. *)
Lemma folds_kept m m' i ctx s s' ctx' :
  sound m (registers ctx) -> execute i ctx s = (s', Ok ctx') -> m' ⊆ m ->
  (forall d, ir_destination_register i = Some d -> m' !! d = None) ->
  folds_to ctx s s' ctx' (m', [i]).
Proof.
  intros Hs He Hsub Hd. exists ctx'. split_and!; [done| |by left].
  destruct (execute_inv _ _ _ _ _ He) as (te & _ & _ & ->).
  apply sound_frame; [by eapply sound_sub|]. intros r c Hr Hdr. apply Hd in Hdr. simpl in Hr. congruence.
Qed.

Lemma folds_unfolded m i d ctx s s' ctx' :
  sound m (registers ctx) -> execute i ctx s = (s', Ok ctx') ->
  (forall d', ir_destination_register i = Some d' -> d' = d) ->
  folds_to ctx s s' ctx' (unfolded m d i).
Proof.
  intros Hs He Hd. unfold unfolded, invalidate_register. eapply folds_kept; [done|done| |].
  - apply delete_subseteq.
  - intros d' Hd'. apply Hd in Hd' as ->. apply lookup_delete_eq.
Qed.

(** The loads. *)
Lemma execute_load_int d z ctx s : execute (load_int d z) ctx s = (s, Ok (set_register ctx d (VInt z))).
Proof. done. Qed.
Lemma execute_load_float d x ctx s : execute (load_float d x) ctx s = (s, Ok (set_register ctx d (VFloat x))).
Proof. done. Qed.
Lemma execute_load_bool d b ctx s : execute (load_bool d b) ctx s = (s, Ok (set_register ctx d (VBool b))).
Proof. by destruct b. Qed.

(** A number is loaded as itself. *)
Lemma folds_number m d c v ctx s :
  sound m (registers ctx) -> holds_constant c v -> is_number c = true ->
  folds_to ctx s s (set_register ctx d v)
    (set_register_constant m d c,
     [if is_type FLOAT c then load_float d (float_value c) else load_int d (int_value c)]).
Proof.
  intros Hs Hc Hn. exists (set_register ctx d v).
  split_and!; [|by apply sound_set|by left].
  revert Hc Hn. unfold holds_constant, is_number, is_type. destruct (type c); intros Hc Hn; try done.
  - by destruct Hc as [-> _].
  - by subst.
Qed.

(** A boolean is loaded as itself, or where the interpreter stores 0 or 1. *)
Lemma folds_bool m d b v ctx s :
  sound m (registers ctx) -> v = VBool b \/ v = bool_int b ->
  folds_to ctx s s (set_register ctx d v)
    (set_register_constant m d (of_bool b), [load_bool d b]).
Proof.
  intros Hs Hv. exists (set_register ctx d (VBool b)).
  split_and!; [apply execute_load_bool|by apply sound_set|].
  destruct Hv as [-> | ->]; [by left|right]. by exists d, b.
Qed.

(** ** The groups of opcodes *)

Lemma op_reg_Ok i n r : reg_operand i n = Ok r -> op_reg i n = r.
Proof. intros Hr%reg_operand_Ok. unfold op_reg. by rewrite Hr. Qed.

(** A destination and one source. *)
Lemma unary_run F i te ctx ctx' m c :
  unary_effect F (rd (registers ctx)) i = Ok te -> apply_effect i te ctx = Ok ctx' ->
  ir_destination_operand_index (opcode i) = Some 0%nat ->
  sound m (registers ctx) -> m !! op_reg i 1 = Some c ->
  exists v w, holds_constant c v /\ F v = Ok w /\ ctx' = set_register ctx (op_reg i 0) w.
Proof.
  unfold unary_effect, val_operand. intros He Ha Hd Hs Hm.
  destruct (reg_operand i 0) as [d|] eqn:E0; [|done]. destruct (reg_operand i 1) as [r|] eqn:E1; [|done].
  cbn [obind] in He. apply op_reg_Ok in E1 as Hr. rewrite Hr in Hm.
  destruct (sound_rd _ _ _ _ Hs Hm) as [Hc Ht].
  destruct (F _) as [w|] eqn:Ef; [|done]. cbn [obind] in He. injection He as He. rewrite <- He in Ha.
  unfold apply_effect in Ha. cbn [fst snd] in Ha. rewrite (touched_one i 1 r) in Ha by done.
  change (touch_all (registers ctx) [r]) with (touch (registers ctx) r) in Ha. rewrite Ht, with_registers_id in Ha.
  rewrite (destination_register_reg i 0 d) in Ha by done. injection Ha as <-.
  exists (rd (registers ctx) r), w. by rewrite (op_reg_Ok i 0 d).
Qed.

(** A destination and two sources. *)
Lemma binary_run F i te ctx ctx' m c1 c2 :
  binary_effect F (rd (registers ctx)) i = Ok te -> apply_effect i te ctx = Ok ctx' ->
  ir_destination_operand_index (opcode i) = Some 0%nat ->
  sound m (registers ctx) -> m !! op_reg i 1 = Some c1 -> m !! op_reg i 2 = Some c2 ->
  exists v1 v2 w, holds_constant c1 v1 /\ holds_constant c2 v2 /\ F v1 v2 = Ok w
    /\ ctx' = set_register ctx (op_reg i 0) w.
Proof.
  unfold binary_effect, val_operand. intros He Ha Hd Hs Hm1 Hm2.
  destruct (reg_operand i 0) as [d|] eqn:E0; [|done]. destruct (reg_operand i 1) as [r1|] eqn:E1; [|done].
  destruct (reg_operand i 2) as [r2|] eqn:E2; [|done].
  cbn [obind] in He. apply op_reg_Ok in E1 as Hr1. apply op_reg_Ok in E2 as Hr2. rewrite Hr1 in Hm1. rewrite Hr2 in Hm2.
  destruct (sound_rd _ _ _ _ Hs Hm1) as [Hc1 Ht1], (sound_rd _ _ _ _ Hs Hm2) as [Hc2 Ht2].
  destruct (F _ _) as [w|] eqn:Ef; [|done]. cbn [obind] in He. injection He as He. rewrite <- He in Ha.
  unfold apply_effect in Ha. cbn [fst snd] in Ha.
  rewrite (touched_cons i 1 [2%nat] r1), (touched_one i 2 r2) in Ha by done.
  change (touch_all (registers ctx) [r1; r2]) with (touch (touch (registers ctx) r1) r2) in Ha.
  rewrite Ht1, Ht2, with_registers_id in Ha.
  rewrite (destination_register_reg i 0 d) in Ha by done. injection Ha as <-.
  exists (rd (registers ctx) r1), (rd (registers ctx) r2), w. by rewrite (op_reg_Ok i 0 d).
Qed.

Lemma first_destination i d :
  ir_destination_operand_index (opcode i) = Some 0%nat -> ir_destination_register i = Some d -> op_reg i 0 = d.
Proof.
  unfold ir_destination_register, op_reg. intros ->. destruct (operands i !! 0%nat) as [[]|]; naive_solver.
Qed.

Lemma folds_unfolded_first m i ctx s s' ctx' :
  sound m (registers ctx) -> execute i ctx s = (s', Ok ctx') ->
  ir_destination_operand_index (opcode i) = Some 0%nat ->
  folds_to ctx s s' ctx' (unfolded m (op_reg i 0) i).
Proof.
  intros Hs He Hd. eapply folds_unfolded; [done|done|]. intros d' Hd'. symmetry. by apply first_destination.
Qed.

(** The first three operands of an operator are registers. *)
Lemma three_registers i d a b :
  reg_operand i 0 = Ok d -> reg_operand i 1 = Ok a -> reg_operand i 2 = Ok b -> not_three_registers i = false.
Proof.
  intros H0%reg_operand_Ok H1%reg_operand_Ok H2%reg_operand_Ok. unfold not_three_registers.
  destruct (operands i) as [|? [|? [|? ?]]]; by simplify_eq/=.
Qed.

Lemma binary_three F rho i te : binary_effect F rho i = Ok te -> not_three_registers i = false.
Proof.
  unfold binary_effect, val_operand. destruct (reg_operand i 0) eqn:E0; [|done].
  destruct (reg_operand i 1) eqn:E1; [|done]. destruct (reg_operand i 2) eqn:E2; [|done].
  intros _. by eapply three_registers.
Qed.

Lemma logical_three rho i te : logical_effect rho i = Ok te -> not_three_registers i = false.
Proof.
  unfold logical_effect, val_operand. destruct (reg_operand i 0) eqn:E0; [|done].
  destruct (reg_operand i 1) eqn:E1; [|done]. destruct (reg_operand i 2) eqn:E2; [|done].
  intros _. by eapply three_registers.
Qed.

Section Fold.
Context (m : ConstantMap) (i : IRInstruction) (ctx : ExecutionContext) (s s' : Interp) (ctx' : ExecutionContext).
Hypothesis Hs : sound m (registers ctx).
Hypothesis He : execute i ctx s = (s', Ok ctx').

Abbreviation effect := (effect_of program call_rec func (rd (registers ctx)) i).
Abbreviation folded := (folds_to ctx s s' ctx').

Hypothesis Hd : ir_destination_operand_index (opcode i) = Some 0%nat.

Lemma kept_first : folded (unfolded m (op_reg i 0) i).
Proof. by apply folds_unfolded_first. Qed.

Lemma lifted_effect o : effect = mlift o ->
  exists te, o = Ok te /\ s' = s /\ apply_effect i te ctx = Ok ctx'.
Proof.
  intros Hl. destruct (execute_inv _ _ _ _ _ He) as (te & Hx & Ha & _). rewrite Hl in Hx.
  unfold mlift in Hx. injection Hx as -> ->. by exists te.
Qed.

Lemma fold_convert_folds :
  effect = mlift (unary_effect (convert_value i) (rd (registers ctx)) i) -> folded (fold_convert m i).
Proof.
  intros (te & Hu & Hss & Ha)%lifted_effect. unfold fold_convert.
  destruct (m !! op_reg i 1) as [c|] eqn:Ec; [|by apply kept_first].
  destruct (fold_convert_constant (type_hint i) c) as [r|] eqn:Er; [|by apply kept_first].
  destruct (unary_run _ _ _ _ _ _ _ Hu Ha Hd Hs Ec) as (v & w & Hc & Hw & Hctx).
  destruct (fold_convert_correct _ _ _ _ Hc Er) as (w' & Hw' & Hr & Hn). rewrite Hw in Hw'. injection Hw' as <-.
  rewrite Hss, Hctx. by apply folds_number.
Qed.

Lemma fold_neg_folds :
  opcode i = IROpcode.NEG -> effect = mlift (unary_effect (fun v => unary_op v (opcode i)) (rd (registers ctx)) i) ->
  folded (fold_neg m i).
Proof.
  intros Ho (te & Hu & Hss & Ha)%lifted_effect. unfold fold_neg.
  destruct (m !! op_reg i 1) as [c|] eqn:Ec; [|by apply kept_first].
  destruct (unary_run _ _ _ _ _ _ _ Hu Ha Hd Hs Ec) as (v & w & Hc & Hw & Hctx).
  unfold holds_constant in Hc. rewrite Ho in Hw.
  destruct (type c) eqn:Et; try by apply kept_first; subst.
  - destruct Hc as [-> _]. cbn in Hw. injection Hw as <-. rewrite Hss, Hctx.
    eapply (folds_number m (op_reg i 0) (of_int _)); [done|split; [done|apply to_int64_range]|done].
  - subst v. cbn in Hw. injection Hw as <-. rewrite Hss, Hctx.
    by eapply (folds_number m (op_reg i 0) (of_float _)).
Qed.

Lemma fold_not_folds :
  opcode i = IROpcode.NOT -> effect = mlift (unary_effect (fun v => unary_op v (opcode i)) (rd (registers ctx)) i) ->
  folded (fold_not m i).
Proof.
  intros Ho (te & Hu & Hss & Ha)%lifted_effect. unfold fold_not.
  destruct (m !! op_reg i 1) as [c|] eqn:Ec; [|by apply kept_first].
  destruct (is_type BOOL c) eqn:Et; [|by apply kept_first].
  destruct (unary_run _ _ _ _ _ _ _ Hu Ha Hd Hs Ec) as (v & w & Hc & Hw & Hctx).
  apply bool_decide_eq_true in Et. unfold holds_constant in Hc. rewrite Et in Hc. subst v.
  rewrite Ho in Hw. cbn in Hw. injection Hw as <-. rewrite Hss, Hctx. apply folds_bool; [done|by left].
Qed.

Lemma fold_arith_folds :
  comparison (opcode i) = false ->
  (forall l r, m !! op_reg i 1 = Some l -> m !! op_reg i 2 = Some r -> well_typed (opcode i) (type_hint i) l r) ->
  effect = mlift (binary_effect (fun a b => binary_op a b (opcode i)) (rd (registers ctx)) i) ->
  folded (fold_arith m i).
Proof.
  intros Ho Hw (te & Hu & Hss & Ha)%lifted_effect. unfold fold_arith.
  rewrite (binary_three _ _ _ _ Hu).
  destruct (m !! op_reg i 1) as [l|] eqn:El; [|by apply kept_first].
  destruct (m !! op_reg i 2) as [r|] eqn:Er; [|by apply kept_first].
  destruct (try_fold_binary_op _ _ _ _) as [c|] eqn:Ec; [|by apply kept_first].
  destruct (binary_run _ _ _ _ _ _ _ _ Hu Ha Hd Hs El Er) as (v1 & v2 & w & Hc1 & Hc2 & Hv & Hctx).
  destruct (try_fold_correct _ _ _ _ _ _ _ Hc1 Hc2 (Hw l r eq_refl eq_refl) Ec)
    as [(_ & v & Hv' & Hc & Hn)|(Hcmp & _)]; [|congruence].
  rewrite Hv in Hv'. injection Hv' as <-. rewrite Hss, Hctx. by apply folds_number.
Qed.

Lemma fold_cmp_folds :
  comparison (opcode i) = true ->
  effect = mlift (binary_effect (fun a b => compare_op a b (opcode i)) (rd (registers ctx)) i) ->
  folded (fold_cmp m i).
Proof.
  intros Ho (te & Hu & Hss & Ha)%lifted_effect. unfold fold_cmp.
  rewrite (binary_three _ _ _ _ Hu).
  destruct (m !! op_reg i 1) as [l|] eqn:El; [|by apply kept_first].
  destruct (m !! op_reg i 2) as [r|] eqn:Er; [|by apply kept_first].
  destruct (try_fold_binary_op _ _ _ _) as [c|] eqn:Ec; [|by apply kept_first].
  destruct (binary_run _ _ _ _ _ _ _ _ Hu Ha Hd Hs El Er) as (v1 & v2 & w & Hc1 & Hc2 & Hv & Hctx).
  assert (well_typed (opcode i) (type_hint i) l r) as Hw by (intros Hf; by destruct (opcode i)).
  destruct (try_fold_correct _ _ _ _ _ _ _ Hc1 Hc2 Hw Ec) as [(Hcmp & _)|(_ & b & -> & Hb)]; [congruence|].
  rewrite Hv in Hb. injection Hb as ->. rewrite Hss, Hctx. apply folds_bool; [done|by right].
Qed.

Lemma fold_logical_folds :
  effect = mlift (logical_effect (rd (registers ctx)) i) -> folded (fold_logical m i).
Proof.
  intros (te & Hu & Hss & Ha)%lifted_effect. unfold fold_logical. rewrite (logical_three _ _ _ Hu).
  destruct (m !! op_reg i 1) as [l|] eqn:El; [|by apply kept_first].
  destruct (m !! op_reg i 2) as [r|] eqn:Er; [|by apply kept_first].
  destruct (is_type BOOL l && is_type BOOL r) eqn:Et; [|by apply kept_first].
  apply andb_true_iff in Et as [Htl Htr]. apply bool_decide_eq_true in Htl, Htr.
  destruct (sound_rd _ _ _ _ Hs El) as [Hl Htl'], (sound_rd _ _ _ _ Hs Er) as [Hr Htr'].
  unfold holds_constant in Hl, Hr. rewrite Htl in Hl. rewrite Htr in Hr.
  unfold logical_effect, val_operand in Hu.
  destruct (reg_operand i 0) as [d|] eqn:E0; [|done]. destruct (reg_operand i 1) as [a|] eqn:E1; [|done].
  destruct (reg_operand i 2) as [b|] eqn:E2; [|done]. cbn [obind] in Hu.
  rewrite (op_reg_Ok _ _ _ E1) in Hl, Htl'. rewrite (op_reg_Ok _ _ _ E2) in Hr, Htr'. rewrite (op_reg_Ok _ _ _ E0).
  rewrite Hl, Hr in Hu. cbn [get_bool] in Hu.
  assert (ir_destination_register i = Some d) as Hdst by (by eapply destination_register_reg).
  assert (ctx' = set_register ctx d (bool_int (if IROpcode.eqb (opcode i) IROpcode.AND
            then bool_value l && bool_value r else bool_value l || bool_value r))) as Hctx.
  { unfold apply_effect in Ha. destruct (IROpcode.eqb (opcode i) IROpcode.AND), (bool_value l); cbn in Hu;
      injection Hu as <-; cbn [fst snd] in Ha; rewrite Hdst in Ha; injection Ha as <-;
      rewrite ?(touched_cons i 1 [2%nat] a), ?(touched_one i 2 b), ?(touched_one i 1 a) by done;
      unfold touch_all; cbn [fold_left]; by rewrite Htl', ?Htr', with_registers_id. }
  rewrite Hss, Hctx. apply folds_bool; [done|by right].
Qed.

End Fold.

(** ** Branches *)

Lemma fold_branch_folds m i ctx s s' ctx' :
  sound m (registers ctx) -> execute i ctx s = (s', Ok ctx') ->
  opcode i = IROpcode.BRANCH_ZERO \/ opcode i = IROpcode.BRANCH_NOT_ZERO ->
  folds_to ctx s s' ctx' (fold_branch m i).
Proof.
  intros Hs He Ho.
  assert (folds_to ctx s s' ctx' (m, [i])) as Hkept.
  { eapply folds_kept; [done|done|done|]. unfold ir_destination_register. by destruct Ho as [-> | ->]. }
  unfold fold_branch. destruct (operands i) as [|v [|label ops]] eqn:Eops; [done|by destruct v|].
  destruct v as [cond| | | | |]; try done.
  destruct (m !! cond) as [c|] eqn:Ec; [|done]. simpl.
  destruct (truthiness c) as [truth|] eqn:Et; [|done].
  destruct (sound_rd _ _ _ _ Hs Ec) as [Hc Ht].
  pose proof (truthiness_correct _ _ _ Hc Et) as Hb.
  destruct (lifted_effect _ _ _ _ _ He (branch_effect program (rd (registers ctx)) i)) as (te & Hu & Hss & Ha).
  { unfold effect_of. by destruct Ho as [-> | ->]. }
  assert (reg_operand i 0 = Ok cond) as E0 by (apply reg_operand_Ok; by rewrite Eops).
  unfold branch_effect, val_operand in Hu. rewrite E0 in Hu. cbn [obind] in Hu. rewrite Hb in Hu.
  replace (if IROpcode.eqb (opcode i) IROpcode.BRANCH_ZERO then negb truth else truth)
    with (Bool.eqb truth (IROpcode.eqb (opcode i) IROpcode.BRANCH_NOT_ZERO))
    by (destruct Ho as [-> | ->], truth; done).
  rewrite Hss. destruct (Bool.eqb truth _).
  - exists ctx'. split_and!; [|by destruct (execute_inv _ _ _ _ _ He) as (te' & _ & _ & Hregs); simpl;
        destruct Hkept as (c2 & Hc2 & Hsd & _); rewrite He in Hc2; simplify_eq|by left].
    unfold execute_instruction, mlift. cbn [opcode instr].
    assert (label_text program (instr IROpcode.JUMP [label]) 0 = label_text program i 1) as ->
      by (unfold label_text, operand_ub; by rewrite Eops).
    destruct (label_text program i 1) as [l|] eqn:El; [|done]. cbn [obind] in *. injection Hu as <-.
    unfold apply_effect in Ha. cbn [fst snd] in Ha. rewrite (touched_one i 0 cond) in Ha by done.
    unfold touch_all in Ha. cbn [fold_left] in Ha. rewrite Ht, with_registers_id in Ha.
    revert Ha. unfold jump_to_label. destruct (labels ctx !! l); intros Hx; [by injection Hx as <-|discriminate].
  - injection Hu as <-. unfold apply_effect in Ha. cbn [fst snd] in Ha. rewrite (touched_one i 0 cond) in Ha by done.
    unfold touch_all in Ha. cbn [fold_left] in Ha. rewrite Ht, with_registers_id in Ha. injection Ha as <-. done.
Qed.

(** ** Global functions *)

Lemma known_arguments_values {A} (f : ConstantValue -> option A) (P : Value -> A -> Prop) m i regs count xs vs :
  sound m regs -> (forall c v a, holds_constant c v -> f c = Some a -> P v a) ->
  known_arguments f m i count = Some xs -> arg_values (rd regs) i 4 count = Ok vs ->
  Forall2 P vs xs /\ touch_all regs (touched_registers i (seq 4 count)) = regs.
Proof.
  intros Hs Hp. unfold known_arguments, arg_values.
  assert (forall first, mapM (fun n => m !! op_reg i (4 + n) ≫= f) (seq first count) = Some xs ->
    omapM (val_operand (rd regs) i) (seq (4 + first) count) = Ok vs ->
    Forall2 P vs xs /\ touch_all regs (touched_registers i (seq (4 + first) count)) = regs) as Hgen;
    [|apply (Hgen 0%nat)].
  revert xs vs. induction count as [|count IH]; intros xs vs first; simpl.
  - intros Hx Hv. injection Hx as <-. injection Hv as <-. by split; [constructor|].
  - destruct (m !! op_reg i (S (S (S (S first))))) as [c|] eqn:Ec; simpl; [|done].
    destruct (f c) as [a|] eqn:Ef; simpl; [|done].
    destruct (mapM _ (seq (S first) count)) as [ys|] eqn:Ey; simpl; [|done]. intros Hx. injection Hx as <-.
    unfold val_operand at 1. destruct (reg_operand i _) as [r|] eqn:Er; cbn [obind]; [|done].
    destruct (omapM _ _) as [ws|] eqn:Ew; cbn [obind]; [|done]. intros Hv. injection Hv as <-.
    destruct (IH ys ws (S first) Ey) as [Hf Ht]; [by simpl; rewrite Ew|].
    rewrite (op_reg_Ok _ _ _ Er) in Ec. destruct (sound_rd _ _ _ _ Hs Ec) as [Hc Htr].
    split; [constructor; [by eapply Hp|done]|].
    rewrite (touched_cons i _ _ r) by done. unfold touch_all. cbn [fold_left]. by rewrite Htr.
Qed.

Lemma int_argument_value c v z : holds_constant c v -> int_argument c = Some z -> get_int v = Ok z /\ is_int64 z.
Proof.
  unfold holds_constant, int_argument. destruct (type c); intros Hc Hz; try done; injection Hz as <-.
  - by destruct Hc as [-> ?].
  - subst v. split; [done|]. by destruct (bool_value c).
Qed.

Lemma float_argument_value c v d : holds_constant c v -> float_argument c = Some d -> get_double v = d.
Proof.
  unfold holds_constant, float_argument. destruct (type c); intros Hc Hz; try done; injection Hz as <-.
  - by destruct Hc as [-> ?].
  - by subst v.
  - by subst v.
Qed.

Lemma Forall2_get_int vs zs :
  Forall2 (fun v z => get_int v = Ok z /\ is_int64 z) vs zs -> omapM get_int vs = Ok zs /\ Forall is_int64 zs.
Proof.
  induction 1 as [|v z vs zs [Hv Hz] _ [IH IHr]]; [done|]. simpl. rewrite Hv. cbn [obind]. rewrite IH.
  by split; [|constructor].
Qed.

Lemma Forall2_get_double vs ds : Forall2 (fun v d => get_double v = d) vs ds -> map get_double vs = ds.
Proof. induction 1 as [|v d vs ds Hv _ IH]; [done|]. simpl. by rewrite Hv, IH. Qed.

(** What is folded is what the interpreter's dispatch answers. *)
Lemma fold_global_value_correct m i ctx fn info count d c load vs w :
  sound m (registers ctx) -> global_function fn = Ok info -> gf_impure info = false ->
  gf_kind info = GlobalKind.INT_OP \/ gf_kind info = GlobalKind.FLOAT_OP ->
  fold_global_value info m i count d = Ok (Some (c, load)) ->
  arg_values (rd (registers ctx)) i 4 count = Ok vs -> global_call_value func fn vs = Ok w ->
  touch_all (registers ctx) (touched_registers i (seq 4 count)) = registers ctx /\ holds_constant c w
  /\ forall s, execute load ctx s = (s, Ok (set_register ctx d w)).
Proof.
  intros Hs Hg Hpure Hkind Hf Hargs Hw. destruct (foldable_rows fn info Hg) as (Hri & Hrf & Hstr).
  unfold global_call_value in Hw. rewrite Hg in Hw. cbn [obind] in Hw.
  destruct (Z.eqb_spec fn (GlobalFn.num GlobalFn.STR)) as [Hx|_].
  { apply Hstr in Hx. destruct Hkind as [Hk|Hk]; rewrite Hk in Hx; done. }
  cbn [andb] in Hw. rewrite decide_False in Hw by (destruct Hkind as [-> | ->]; done). rewrite Hpure in Hw.
  do 2 (rewrite decide_False in Hw by (destruct Hkind as [-> | ->]; done)). cbn [obind] in Hw.
  unfold fold_global_value in Hf.
  destruct Hkind as [Hk|Hk].
  - rewrite decide_True in Hf by done. rewrite decide_True in Hw by done.
    destruct (known_arguments int_argument m i count) as [zs|] eqn:Ez; [|done].
    destruct (known_arguments_values _ _ _ _ _ _ _ _ Hs int_argument_value Ez Hargs) as [Hall Ht].
    destruct (Forall2_get_int _ _ Hall) as [Hints Hrange]. rewrite Hints in Hw. cbn [obind] in Hw.
    destruct (eval_global_int (gf_fn info) zs) as [z|] eqn:Eev; cbn [obind] in Hf, Hw; [|done].
    injection Hw as <-. rewrite (Hri Hk) in Hf. injection Hf as <- <-.
    split; [done|]. split; [|done]. split; [done|]. by eapply eval_global_int_range.
  - do 2 (rewrite decide_False in Hw by (by rewrite Hk)). rewrite decide_False in Hf by (by rewrite Hk).
    destruct (known_arguments float_argument m i count) as [ds|] eqn:Ez; [|done].
    destruct (known_arguments_values _ _ _ _ _ _ _ _ Hs float_argument_value Ez Hargs) as [Hall Ht].
    rewrite (Forall2_get_double _ _ Hall) in Hw.
    destruct (eval_global_float (gf_fn info) ds) as [x|] eqn:Eev; cbn [obind] in Hf, Hw; [|done].
    destruct (Hrf Hk) as [Hr|Hr]; rewrite Hr in Hf, Hw; injection Hw as <-; injection Hf as <- <-;
      (split; [done|]); (split; [done|]).
    + intros s. apply execute_load_bool.
    + done.
Qed.

Lemma fold_global_call_folds m i ctx s s' ctx' folded :
  sound m (registers ctx) -> execute i ctx s = (s', Ok ctx') -> representable i ->
  opcode i = IROpcode.GLOBAL_CALL -> fold_global_call m i = Ok folded ->
  folds_to ctx s s' ctx' folded.
Proof.
  intros Hs He [Hlen Hrep] Ho. unfold fold_global_call.
  assert (forall d, ir_destination_register i = Some d -> d = dst_reg i) as Hd
    by (intros d Hd; unfold dst_reg; by rewrite Hd).
  assert (folds_to ctx s s' ctx' (unfolded m (dst_reg i) i)) as Hkept by (by apply folds_unfolded).
  destruct (operands i !! 1%nat) as [v|] eqn:E1; [|by intros Hx; injection Hx as <-].
  destruct v as [|fn| | | |]; try (by intros Hx; injection Hx as <-).
  destruct (_ && _); [|by intros Hx; injection Hx as <-].
  destruct (global_function (to_int16 fn)) as [info|] eqn:Eg; cbn [obind]; [|done].
  destruct (negb (gf_impure info) && (to_uint64 (op_imm i 3) <=? 3) && _ && _) eqn:Econd;
    [|by intros Hx; injection Hx as <-].
  rewrite !andb_true_iff, orb_true_iff, !bool_decide_eq_true, negb_true_iff in Econd.
  destruct Econd as [[[Hpure Hcount%Z.leb_le] _] Hkind].
  destruct (fold_global_value _ _ _ _ _) as [[[c load]|]|] eqn:Ef; cbn [obind];
    [|by intros Hx; injection Hx as <-|done].
  intros Hx. injection Hx as <-.
  destruct (lifted_effect _ _ _ _ _ He (global_call_effect func (rd (registers ctx)) i)) as (te & Hu & Hss & Ha).
  { unfold effect_of. by rewrite Ho. }
  unfold global_call_effect in Hu. destruct (reg_operand i 0) as [d|] eqn:E0; [|done]. cbn [obind] in Hu.
  unfold imm_operand, operand_ub in Hu. rewrite E1 in Hu. cbn [obind of_option IRValue.immediate_ub] in Hu.
  destruct (operands i !! 3%nat) as [v3|] eqn:E3; [|done]. cbn [obind of_option] in Hu.
  destruct v3 as [|n| | | |]; try done. cbn [obind IRValue.immediate_ub] in Hu.
  assert (op_imm i 3 = n) as En by (unfold op_imm; by rewrite E3). rewrite En in Hcount, Ef.
  assert (is_int64 n) as Hn by (eapply Hrep, list_elem_of_lookup_2, E3).
  assert (0 <= n <= 3) as Hn3.
  { unfold is_int64, INT64_MIN, INT64_MAX, wrapu in *.
    destruct (decide (0 <= n)) as [|Hneg]; [rewrite Z.mod_small in Hcount by lia; lia|].
    replace n with (n + 2 ^ 64 + (-1) * 2 ^ 64) in Hcount by lia.
    rewrite Z_mod_plus_full, Z.mod_small in Hcount by lia. lia. }
  rewrite (int32_small n) in Hu by lia. unfold wrapu in Ef. rewrite Z.mod_small in Ef by lia.
  destruct (Z.ltb_spec n 0); [lia|].
  destruct (arg_values _ _ _ _) as [vs|] eqn:Eargs; [|done]. cbn [obind] in Hu.
  destruct (global_call_value _ _ _) as [w|] eqn:Ew; [|done]. cbn [obind] in Hu. injection Hu as <-.
  destruct (fold_global_value_correct m i ctx _ _ _ _ _ _ _ _ Hs Eg Hpure Hkind Ef Eargs Ew) as (Ht & Hc & Hl).
  unfold apply_effect in Ha. cbn [fst snd] in Ha. rewrite Ht, with_registers_id in Ha.
  assert (ir_destination_register i = Some d) as Hdst
    by (eapply destination_register_reg; [by rewrite Ho|done]).
  rewrite Hdst in Ha. injection Ha as <-. rewrite Hss.
  assert (dst_reg i = d) as Hdd by (unfold dst_reg; by rewrite Hdst). rewrite Hdd in *.
  exists (set_register ctx d w). split_and!; [by rewrite Hl|by apply sound_set|by left].
Qed.

(** ** Loads, copies and the rest *)

Lemma load_folds m i ctx s s' ctx' c :
  sound m (registers ctx) -> execute i ctx s = (s', Ok ctx') ->
  ir_destination_operand_index (opcode i) = Some 0%nat ->
  effect_of program call_rec func (rd (registers ctx)) i
  = mlift (let? _ := reg_operand i 0 in let? v := load_value program i in Ok ([], E_write v)) ->
  (forall v, load_value program i = Ok v -> holds_constant c v) ->
  folds_to ctx s s' ctx' (set_register_constant m (op_reg i 0) c, [i]).
Proof.
  intros Hs He Hd Heff Hc.
  destruct (lifted_effect _ _ _ _ _ He _ Heff) as (te & Hu & _ & Ha).
  destruct (reg_operand i 0) as [d|] eqn:E0; [|done]. cbn [obind] in Hu.
  destruct (load_value program i) as [v|] eqn:El; [|done]. cbn [obind] in Hu. injection Hu as <-.
  unfold apply_effect in Ha. cbn in Ha. rewrite (destination_register_reg i 0 d) in Ha by done.
  injection Ha as <-. exists (set_register (with_registers ctx (registers ctx)) d v).
  rewrite with_registers_id in *. split_and!; [done| |by left].
  rewrite (op_reg_Ok _ _ _ E0). apply sound_set; [done|by apply Hc].
Qed.

Lemma move_folds m i ctx s s' ctx' folded :
  sound m (registers ctx) -> execute i ctx s = (s', Ok ctx') -> opcode i = IROpcode.MOVE ->
  fold_instruction m i = Ok folded -> folds_to ctx s s' ctx' folded.
Proof.
  intros Hs He Ho. unfold fold_instruction. rewrite Ho.
  assert (ir_destination_operand_index (opcode i) = Some 0%nat) as Hd by (by rewrite Ho).
  destruct (m !! op_reg i 1) as [c|] eqn:Ec; intros Hx; injection Hx as <-; [|by apply folds_unfolded_first].
  destruct (lifted_effect _ _ _ _ _ He (unary_effect Ok (rd (registers ctx)) i)) as (te & Hu & _ & Ha).
  { unfold effect_of. by rewrite Ho. }
  destruct (unary_run _ _ _ _ _ _ _ Hu Ha Hd Hs Ec) as (v & w & Hc & Hw & ->). injection Hw as <-.
  exists (set_register ctx (op_reg i 0) v). split_and!; [done| |by left]. by apply sound_set.
Qed.

(** Kept, its destination forgotten. *)
Lemma default_folds m i ctx s s' ctx' folded :
  sound m (registers ctx) -> execute i ctx s = (s', Ok ctx') ->
  (forall d, ir_destination_register i = Some d -> 0 <= d) ->
  (if 0 <=? dst_reg i then Ok (unfolded m (dst_reg i) i) else Ok (m, [i])) = Ok folded ->
  folds_to ctx s s' ctx' folded.
Proof.
  intros Hs He Hnn. unfold dst_reg. destruct (ir_destination_register i) as [d|] eqn:E; simpl.
  - destruct (Z.leb_spec 0 d); [|specialize (Hnn d eq_refl); lia]. intros Hx. injection Hx as <-.
    apply folds_unfolded; [done|done|]. intros d' Hd'. congruence.
  - intros Hx. injection Hx as <-. eapply folds_kept; [done|done|done|]. by rewrite E.
Qed.

(** An opcode that writes no register. *)
Lemma silent_folds m i ctx s s' ctx' :
  sound m (registers ctx) -> execute i ctx s = (s', Ok ctx') ->
  ir_destination_operand_index (opcode i) = None -> folds_to ctx s s' ctx' (m, [i]).
Proof.
  intros Hs He Hd. eapply folds_kept; [done|done|done|]. unfold ir_destination_register. by rewrite Hd.
Qed.

Lemma host_only_folds (P : Prop) i ctx s s' ctx' :
  execute i ctx s = (s', Ok ctx') -> (execute i ctx = mlift (exec_host_only func i)) -> P.
Proof.
  intros He Hx. rewrite Hx in He. unfold mlift in He. destruct (exec_host_only_throws func i) as [e Hy].
  by rewrite Hy in He.
Qed.

(** C7: One step of constant folding agrees with one step of the interpreter,
    except for CALL and where the folder takes a BOOL for a number.
    If the tracked constants are true of the registers, the arithmetic of the
    instruction is well typed (a FLOAT hint comes with a FLOAT operand, and beside a
    FLOAT stands a number: [folding_loses_boolean] shows what happens otherwise), and
    the instruction of a verified function, its immediates in 64 bits, runs to a new
    context, then the folded code (the instruction itself, a load of the constant, a
    JUMP, or nothing) runs from the same context to the same interpreter state and to
    the same context, save that a truth value the interpreter stores as the integer 0
    or 1 may be the boolean; and the constants tracked afterwards are true of the
    registers it leaves. *)
Theorem fold_instruction_sound (k : nat) (m : ConstantMap) (i : IRInstruction) (ctx ctx' : ExecutionContext)
    (s s' : Interp) (folded : Folded) :
  verified program func -> instructions func !! k = Some i -> representable i ->
  opcode i <> IROpcode.CALL ->
  (forall l r, m !! op_reg i 1 = Some l -> m !! op_reg i 2 = Some r -> well_typed (opcode i) (type_hint i) l r) ->
  sound m (registers ctx) -> fold_instruction m i = Ok folded ->
  execute i ctx s = (s', Ok ctx') ->
  folds_to ctx s s' ctx' folded.
Proof.
  intros Hv Hi Hrep Hcall Hw Hs Hf He.
  destruct (verified_checks program Hv) as (Hrange & _).
  pose proof (fun d => dst_nonneg func k i d Hrange Hi) as Hnn. destruct Hrep as [Hlen Hint].
  destruct (opcode i) eqn:Ho;
    try (assert (ir_destination_operand_index (opcode i) = Some 0%nat) as Hd by (by rewrite Ho));
    try (by eapply host_only_folds; [exact He|unfold execute_instruction; rewrite Ho]);
    try (by eapply move_folds); try (by eapply fold_global_call_folds; [done|done|done|done|];
      unfold fold_instruction in Hf; rewrite Ho in Hf);
    unfold fold_instruction in Hf; rewrite Ho in Hf; try done;
    try (by eapply default_folds); injection Hf as <-; try (apply silent_folds; [done|done|by rewrite Ho]);
    try (apply fold_branch_folds; [done|done|auto]);
    try ((first [ apply fold_arith_folds | apply fold_cmp_folds | apply fold_logical_folds | apply fold_convert_folds
                | apply fold_neg_folds | apply fold_not_folds ]);
         first [ done | by rewrite Ho | by (unfold effect_of; rewrite Ho) ]);
    try (by apply folds_unfolded_first);
    try (apply load_folds; [done|done|done|unfold effect_of; by rewrite Ho|]; intros v Hl;
         unfold load_value in Hl; rewrite Ho in Hl).
  - unfold imm_operand, operand_ub in Hl. unfold op_imm.
    destruct (operands i !! 1%nat) as [[|n| | | |]|] eqn:E; try done. cbn in Hl. injection Hl as <-.
    split; [done|]. by eapply Hint, list_elem_of_lookup_2.
  - unfold float_operand, operand_ub in Hl.
    destruct (operands i !! 1%nat) as [[| |d| | |]|] eqn:E; try done. cbn in Hl. by injection Hl as <-.
  - unfold imm_operand, operand_ub in Hl. unfold op_imm.
    destruct (operands i !! 1%nat) as [[|n| | | |]|] eqn:E; try done. cbn in Hl. by injection Hl as <-.

Qed.

End Instruction.

(** ** Witness and counterexamples *)

Import Samples IROpcode.

(** 6 * 7. *)
Definition product : IRFunction := simple_function "product" [] [
  instr LOAD_IMM [R 1; I 6];
  instr LOAD_IMM [R 2; I 7];
  instr MUL [R 0; R 1; R 2];
  instr RETURN []
] 3.

Definition known : ConstantMap := {[1 := of_int 6; 2 := of_int 7]}.
Definition before_mul : ExecutionContext := mkContext {[1 := VInt 6; 2 := VInt 7]} ∅ 2 false VNil.

Lemma known_sound : sound known (registers before_mul).
Proof.
  intros r c Hr. unfold known in Hr. simpl. rewrite lookup_insert in Hr.
  destruct (decide (1 = r)) as [<-|Hne].
  - injection Hr as <-. exists (VInt 6). split; [done|]. split; [done|]. by vm_compute.
  - apply lookup_singleton_Some in Hr as [<- <-]. exists (VInt 7). split; [done|]. split; [done|]. by vm_compute.
Qed.

Lemma fold_instruction_sound_witness :
  folds_to (H := identity_libm) Samples.program (fun _ _ => mret VNil) product before_mul
    (mkInterp [] "" 0) (mkInterp [] "" 0) (set_register before_mul 0 (VInt 42))
    (<[0 := of_int 42]> known, [load_int 0 42]).
Proof.
  apply (@fold_instruction_sound identity_libm) with (k := 2%nat) (m := known) (i := instr MUL [R 0; R 1; R 2]).
  - by vm_compute.
  - done.
  - apply representable_decide. by vm_compute.
  - done.
  - intros l r Hl Hr. vm_compute in Hl, Hr. injection Hl as <-. injection Hr as <-.
    intros _ [Hx|[Hx|Hx]]; discriminate.
  - apply known_sound.
  - by vm_compute.
  - by vm_compute.
Defined.

(** r1 is 5, then the result of a call. *)
Definition caller : IRFunction := simple_function "caller" [] [
  instr LOAD_IMM [R 1; I 5];
  instr CALL [IRValue.str 3; R 1; I 0];
  instr ADD [R 0; R 1; R 1];
  instr RETURN []
] 2.

Definition one : IRFunction := simple_function "pow" [] [instr LOAD_IMM [R 0; I 1]; instr RETURN []] 1.

(** true + 2.0 *)
Definition boolean_sum : IRFunction := simple_function "boolean_sum" [] [
  instr LOAD_BOOL [R 1; I 1];
  instr LOAD_FLOAT_IMM [R 2; IRValue.fimm (double_of_Z 2)];
  instr ADD [R 0; R 1; R 2];
  instr RETURN []
] 3.

Abbreviation answer fs name :=
  (call (H := identity_libm) (program_of fs) name [] (mkInterp [] "" 0)).2.

Abbreviation folded_answer func rest :=
  (let? r := constant_folding (H := identity_libm) func in answer (r.1 :: rest) (fn_name func)).

(** A CALL does not invalidate its destination (operand 1): the stale 5 is
    folded into the addition. *)
Theorem folding_forgets_no_call_result :
  ir_verify_program (program_of [caller; one]) = None
  /\ answer [caller; one] "caller" = Ok (VInt 2) /\ folded_answer caller [one] = Ok (VInt 10).
Proof. split_and!; by vm_compute. Qed.

(** A BOOL constant is the number 0 in float arithmetic. *)
Theorem folding_loses_boolean :
  ir_verify_program (program_of [boolean_sum]) = None
  /\ answer [boolean_sum] "boolean_sum" = Ok (VFloat (double_of_Z 3))
  /\ folded_answer boolean_sum [] = Ok (VFloat (double_of_Z 2)).
Proof. split_and!; by vm_compute. Qed.

End ConstantFoldingSound.
