(* ===== verification/Stuttering.v ===== *)
(** * Forward simulation with stuttering

    A pass that deletes instructions makes a body finish in fewer steps, and a
    deleted instruction may have failed.  Such a pass is a refinement: when the
    original call returns, the optimized call returns the same value in the same
    interpreter state.  This file proves that from a step-wise simulation in
    which the optimized body may stand still. *)

From S2P Require Import Prelude.
From S2P Require Import Double.
From S2P Require Import VariantTypes.
From S2P Require Import IROpcodes.
From S2P Require Import Globals.
From S2P Require Import IR.
From S2P Require Import Interpreter.
From S2P Require Import Effects.
From S2P Require Import Machine.

Section Stuttering.
Context `{Libm} (program : IRProgram) (call_rec : string -> list Value -> M Interp Value).

(** What the original call returns, the optimized call returns. *)
Definition call_refines (func func' : IRFunction) (args : list Value) (s : Interp) : Prop :=
  forall s' v, call_function program call_rec func args s = (s', Ok v) ->
               call_function program call_rec func' args s = (s', Ok v).

Abbreviation loop func := (iter_until (loop_step program call_rec func)).

(** A body returns when its loop stops, the test after the last step
    included. *)
Lemma run_body_Ok steps func c s s1 c1 :
  run_body program call_rec steps func c s = (s1, Ok c1) <->
  exists s', loop func (S (Pos.to_nat steps)) (s, c) = inr (s', Ok c1) /\ s1 = decrement_depth s'.
Proof.
  unfold run_body. rewrite iter_until_pos_nat.
  replace (S (Pos.to_nat steps)) with (Pos.to_nat steps + 1)%nat by lia. rewrite iter_until_add.
  destruct (loop func (Pos.to_nat steps) (s, c)) as [[s2 c2]|[s2 [c2|e]]].
  - cbn [iter_until]. unfold loop_step. destruct (running func c2) eqn:E.
    + split; [done|]. intros (s' & Hs & _). by destruct (step _ _ _ _ _) as [? []].
    + split; [intros Hx; injection Hx as <- <-; eauto|intros (s' & Hx & ->); by injection Hx as <- <-].
  - split; [intros Hx; injection Hx as <- <-; eauto|intros (s' & Hx & ->); by injection Hx as <- <-].
  - split; [done|]. by intros (s' & Hs & _).
Qed.

Section Simulation.
Context (func func' : IRFunction) (R : Interp -> ExecutionContext -> ExecutionContext -> Prop).

Hypothesis final : forall s c c', R s c c' -> running func c = false -> running func' c' = false.
Hypothesis simulate : forall s c c' s1 c1,
  R s c c' -> running func c = true -> step program call_rec func c s = (s1, Ok c1) ->
  (s1 = s /\ R s c1 c')
  \/ (running func' c' = true
      /\ exists c1', step program call_rec func' c' s = (s1, Ok c1') /\ R s1 c1 c1').

Lemma loop_simulation n s c c' s1 c1 :
  R s c c' -> loop func n (s, c) = inr (s1, Ok c1) ->
  exists m c1', (m <= n)%nat /\ loop func' m (s, c') = inr (s1, Ok c1') /\ R s1 c1 c1'.
Proof.
  revert s c c'. induction n as [|n IH]; intros s c c' Hr Hl; [done|]. cbn [iter_until] in Hl.
  unfold loop_step at 1 in Hl. destruct (running func c) eqn:Erun.
  - destruct (step program call_rec func c s) as [s2 [c2|e]] eqn:Es; [|done].
    destruct (simulate _ _ _ _ _ Hr Erun Es) as [[-> Hr']|(Hrun' & c2' & Es' & Hr')].
    + destruct (IH _ _ _ Hr' Hl) as (m & c1' & Hm & Hx). exists m, c1'. split; [lia|done].
    + destruct (IH _ _ _ Hr' Hl) as (m & c1' & Hm & Hx & Hr1). exists (S m), c1'. split; [lia|].
      split; [|done]. cbn [iter_until]. unfold loop_step at 1. by rewrite Hrun', Es'.
  - injection Hl as <- <-. exists 1%nat, c'. split; [lia|]. split; [|done].
    cbn [iter_until]. unfold loop_step. by rewrite (final _ _ _ Hr Erun).
Qed.

Lemma call_function_simulation args s :
  fn_name func = fn_name func' ->
  (forall s c c', R s c c' -> returned c = returned c' /\ return_value c = return_value c') ->
  (forall s, R s (mkContext (argument_registers func args) (function_labels program func) 0 false VNil)
                 (mkContext (argument_registers func' args) (function_labels program func') 0 false VNil)) ->
  call_refines func func' args s.
Proof.
  intros Hname Hres Hstart s' v. unfold call_function, mbind, execute_function, mbind, mmodify, mget.
  rewrite <- Hname. destruct (_ <? _); [done|].
  fold (function_labels program func). fold (function_labels program func').
  destruct (run_body _ _ _ func _ _) as [s1 [c1|e1]] eqn:Eb; [|done].
  apply run_body_Ok in Eb as (s2 & Hl & ->). intros Hv.
  destruct (loop_simulation _ _ _ _ _ _ (Hstart _) Hl) as (m & c1' & Hm & Hl' & Hr).
  assert (run_body program call_rec MAX_STEPS func'
    (mkContext (argument_registers func' args) (function_labels program func') 0 false VNil)
    (set_depth s (m_call_depth s + 1)) = (decrement_depth s2, Ok c1')) as Hb.
  { apply run_body_Ok. exists s2. split; [|done]. by eapply iter_until_mono. }
  cbn [registers labels returned return_value]. unfold function_labels in Hb. rewrite Hb.
  destruct (Hres _ _ _ Hr) as [Ha Hb']. unfold mret in *. by rewrite <- Ha, <- Hb'.
Qed.

End Simulation.
End Stuttering.
