(* ===== verification/DeadCode.v ===== *)
(** * Dead code

    Models [IROptimizer::eliminate_dead_code] (ir_optimizer.cpp): reads are
    counted per register, and a work list deletes pure instructions whose
    destination nothing reads, putting back the definitions whose last read a
    deletion dropped.  The loop stops, and a verified function still returns
    what it returned. *)

From S2P Require Import Prelude.
From S2P Require Import Dataflow.
From S2P Require Import Double.
From S2P Require Import VariantTypes.
From S2P Require Import IROpcodes.
From S2P Require Import Globals.
From S2P Require Import IR.
From S2P Require Import Cfg.
From S2P Require Import Verifier.
From S2P Require Import VerifierFacts.
From S2P Require Import Interpreter.
From S2P Require Import Effects.
From S2P Require Import Machine.
From S2P Require Import VerifierSound.
From S2P Require Import Positions.
From S2P Require Import OptimizerBase.
From S2P Require Import Stuttering.
From S2P Require Import Samples.

Module DeadCode.

Section Model.
Context (body : list IRInstruction).

Definition reads_at (i : nat) : list Z :=
  match body !! i with Some instr => ir_collect_read_registers instr | None => [] end.

Definition dst_at (i : nat) : Z :=
  match body !! i with Some instr => dst_reg instr | None => -1 end.

(** The highest register named, -1 for none. *)
Definition max_reg : Z :=
  fold_left (fun m i => fold_left Z.max (reads_at i) (Z.max m (dst_at i))) (seq 0 (length body)) (-1).

(** [use_count]: the vector is sized to hold every register named; a register
    that is not a key has the initial count 0. *)
Abbreviation Uses := (gmap Z Z).

Definition count_of (uses : Uses) (r : Z) : Z := default 0 (uses !! r).

Definition initial_uses : Uses :=
  fold_left (fun uses i =>
    fold_left (fun uses r => if 0 <=? r then <[r := count_of uses r + 1]> uses else uses)
      (reads_at i) uses) (seq 0 (length body)) ∅.

(** [def_head] and [def_next]: the definitions of a register, newest first. *)
Definition defs_of (r : Z) : list nat :=
  filter (fun i => dst_at i = r) (rev (seq 0 (length body))).

(** The loop state: the work list (the next element first), the counts and the
    deleted positions. *)
Record State := mkState_ {
  worklist : list nat;
  use_count : Uses;
  deleted : gset nat
}.

(** A deleted instruction no longer reads [reg]. *)
Definition drop_read (gone : gset nat) (st : list nat * Uses) (reg : Z) : list nat * Uses :=
  let '(wl, uses) := st in
  if reg <? 0 then (wl, uses)
  else
    let left := count_of uses reg - 1 in
    (if left =? 0
     then fold_left (fun wl def => if bool_decide (def ∈ gone) then wl else def :: wl) (defs_of reg) wl
     else wl,
     <[reg := left]> uses).

Definition visit_def (st : State) : State + outcome (gset nat) :=
  match worklist st with
  | [] => inr (Ok (deleted st))
  | i :: wl =>
      let skip := inl (mkState_ wl (use_count st) (deleted st)) in
      if bool_decide (i ∈ deleted st) then skip
      else match body !! i with
      | None => skip  (* not reached: only positions of the body are pushed *)
      | Some instr =>
          let dst := dst_reg instr in
          if (dst <? 0) || negb (count_of (use_count st) dst =? 0) then skip
          else match ir_instruction_is_pure instr with
          | Throw e => inr (Throw e)
          | Ok false => skip
          | Ok true =>
              let gone := {[i]} ∪ deleted st in
              let '(wl, uses) := fold_left (drop_read gone) (reads_at i) (wl, use_count st) in
              inl (mkState_ wl uses gone)
          end
      end
  end.

Definition start_state : State := mkState_ (seq 0 (length body)) initial_uses ∅.

(** Every position is visited once at the start and at most once more, when the
    last read of its destination goes. *)
Definition max_pops : nat := 2 * length body + 1.

Definition dead_positions : outcome (gset nat) :=
  match iter_until visit_def max_pops start_state with
  | inr r => r
  | inl _ => Throw OutOfFuel
  end.

End Model.

Definition is_deleted (dead : gset nat) (i : nat) : bool := bool_decide (i ∈ dead).

Definition surviving (dead : gset nat) (body : list IRInstruction) : list IRInstruction :=
  survivors (fun i => negb (is_deleted dead i)) body 0.

Definition eliminate_dead_code (func : IRFunction) : outcome (IRFunction * bool) :=
  let body := instructions func in
  if (length body =? 0)%nat || (max_reg body <? 0) then Ok (func, false)
  else
    let? dead := dead_positions body in
    if (size dead =? 0)%nat then Ok (func, false)
    else Ok (with_instructions func (surviving dead body), true).

(** ** The loop stops *)

Lemma filter_lengths {A} (P Q R : A -> Prop) `{!forall x, Decision (P x)} `{!forall x, Decision (Q x)}
    `{!forall x, Decision (R x)} (l : list A) :
  (forall x, Q x -> P x) -> (forall x, R x -> P x) -> (forall x, Q x -> R x -> False) ->
  (length (filter Q l) + length (filter R l) <= length (filter P l))%nat.
Proof.
  intros Hq Hr Hqr. induction l as [|x l IH]; [done|]. rewrite !filter_cons.
  destruct (decide (Q x)) as [Hx|], (decide (R x)) as [Hy|], (decide (P x)) as [|Hn]; simpl; try lia;
    exfalso; eauto.
Qed.

Section Facts.
Context (body : list IRInstruction).

Abbreviation positions := (seq 0 (length body)).

Definition live_def (uses : gmap Z Z) (i : nat) : Prop := 0 <= dst_at body i /\ 0 < count_of uses (dst_at body i).

#[local] Instance live_def_dec uses i : Decision (live_def uses i).
Proof. unfold live_def. apply _. Defined.

Definition loop_measure (wl : list nat) (uses : gmap Z Z) : nat :=
  length wl + length (filter (live_def uses) positions).

Lemma push_defs_length (gone : gset nat) (defs wl : list nat) :
  (length (fold_left (fun wl def => if bool_decide (def ∈ gone) then wl else def :: wl) defs wl)
   <= length wl + length defs)%nat.
Proof.
  revert wl. induction defs as [|d defs IH]; intros wl; simpl; [lia|].
  etrans; [apply IH|]. case_bool_decide; simpl; lia.
Qed.

Lemma defs_of_length r : length (defs_of body r) = length (filter (fun i => dst_at body i = r) positions).
Proof.
  unfold defs_of. assert (forall l : list nat, length (filter (fun i => dst_at body i = r) (rev l))
    = length (filter (fun i => dst_at body i = r) l)) as Hl; [|apply Hl].
  induction l as [|x l IH]; [done|]. simpl. rewrite filter_app, length_app, IH, filter_cons, filter_cons.
  rewrite filter_nil. case_decide; simpl; lia.
Qed.

Lemma count_of_insert uses r k x : count_of (<[r := k]> uses) x = if decide (r = x) then k else count_of uses x.
Proof. unfold count_of. rewrite lookup_insert. by case_decide. Qed.

Lemma drop_read_measure gone wl uses r wl' uses' :
  drop_read body gone (wl, uses) r = (wl', uses') -> (loop_measure wl' uses' <= loop_measure wl uses)%nat.
Proof.
  unfold drop_read, loop_measure. destruct (Z.ltb_spec r 0) as [Hr|Hr].
  { intros Hx. by injection Hx as <- <-. }
  destruct (Z.eqb_spec (count_of uses r - 1) 0) as [Hz|Hz]; intros Hx; injection Hx as <- <-.
  - etrans; [apply Nat.add_le_mono_r, push_defs_length|]. rewrite defs_of_length.
    assert (length (filter (live_def (<[r := (count_of uses r - 1)%Z]> uses)) positions)
      + length (filter (fun i => dst_at body i = r) positions)
      <= length (filter (live_def uses) positions))%nat; [|lia].
    apply filter_lengths.
    + intros i [Hi Hc]. rewrite count_of_insert in Hc. split; [done|]. case_decide; [lia|done].
    + intros i <-. split; [lia|lia].
    + intros i [Hi Hc] <-. rewrite count_of_insert, decide_True in Hc by done. lia.
  - assert (length (filter (live_def (<[r := (count_of uses r - 1)%Z]> uses)) positions)
      + length (filter (fun _ => False) positions) <= length (filter (live_def uses) positions))%nat; [|lia].
    apply filter_lengths; [|done|done].
    intros i [Hi Hc]. rewrite count_of_insert in Hc. split; [done|]. case_decide; [subst; lia|done].
Qed.

Lemma drop_reads_measure gone rs st st' :
  fold_left (drop_read body gone) rs st = st' ->
  (loop_measure st'.1 st'.2 <= loop_measure st.1 st.2)%nat.
Proof.
  revert st. induction rs as [|r rs IH]; intros st Hf; simpl in Hf; [by subst|].
  etrans; [apply IH, Hf|]. destruct st as [wl uses]. destruct (drop_read body gone (wl, uses) r) as [wl' uses'] eqn:E.
  by apply drop_read_measure in E.
Qed.

Lemma visit_def_measure st st' :
  visit_def body st = inl st' ->
  (loop_measure (worklist st') (use_count st') < loop_measure (worklist st) (use_count st))%nat.
Proof.
  destruct st as [[|i wl] uses gone]; unfold visit_def; simpl; [done|].
  assert (loop_measure wl uses < loop_measure (i :: wl) uses)%nat as Hpop by (unfold loop_measure; simpl; lia).
  case_bool_decide; [by intros Hx; injection Hx as <-|].
  destruct (body !! i) as [instr|] eqn:Ei; [|by intros Hx; injection Hx as <-].
  destruct (_ || _); [by intros Hx; injection Hx as <-|].
  destruct (ir_instruction_is_pure instr) as [[]|]; [|by intros Hx; injection Hx as <-|done].
  destruct (fold_left _ _ _) as [wl' uses'] eqn:Ef. intros Hx. injection Hx as <-. simpl.
  apply drop_reads_measure in Ef. simpl in Ef. lia.
Qed.

Lemma pure_not_fuel i : ir_instruction_is_pure i <> Throw OutOfFuel.
Proof.
  unfold ir_instruction_is_pure. destruct (negb _); [done|]. destruct (negb _); [done|].
  destruct (operands i !! 1%nat) as [[]|]; try done.
  unfold global_function. by destruct (find _ _).
Qed.

Lemma dead_positions_stop : dead_positions body <> Throw OutOfFuel.
Proof.
  unfold dead_positions.
  destruct (iter_until_measure (visit_def body) (fun st => loop_measure (worklist st) (use_count st))
    (max_pops body) (start_state body)) as [r Hr].
  - intros st st'. apply visit_def_measure.
  - unfold loop_measure, max_pops. simpl. pose proof (length_filter (live_def (initial_uses body)) positions) as Hf.
    rewrite length_seq in *. lia.
  - rewrite Hr. revert Hr. apply (iter_until_invariant _ (fun _ => True) (fun r => r <> Throw OutOfFuel)); [done| |done].
    intros [wl uses gone] r' _. unfold visit_def. simpl. destruct wl as [|i wl]; [by intros Hx; injection Hx as <-|].
    case_bool_decide; [done|]. destruct (body !! i) as [instr|]; [|done]. destruct (_ || _); [done|].
    pose proof (pure_not_fuel instr) as Hp.
    destruct (ir_instruction_is_pure instr) as [[]|e]; [by destruct (fold_left _ _ _)|done|].
    intros Hx. injection Hx as <-. congruence.
Qed.

(** ** The counts are true *)

Definition occurrences (r : Z) (l : list Z) : nat := length (filter (fun x => x = r) l).

(** The reads of [r] that are left. *)
Definition reads_left (gone : gset nat) (r : Z) : nat :=
  sum_list (map (fun i => if decide (i ∈ gone) then 0%nat else occurrences r (reads_at body i)) positions).

Lemma sum_list_remove (f g : nat -> nat) l i :
  NoDup l -> i ∈ l -> g i = 0%nat -> (forall j, j <> i -> f j = g j) ->
  sum_list (map f l) = (sum_list (map g l) + f i)%nat.
Proof.
  intros Hnd. induction Hnd as [|x l Hx Hnd IH]; intros Hi Hg Hfg; [by apply elem_of_nil in Hi|]. simpl.
  apply elem_of_cons in Hi as [->|Hi].
  - assert (sum_list (map f l) = sum_list (map g l)) as ->; [|lia]. f_equal. apply map_ext_in.
    intros j Hj%list_elem_of_In. apply Hfg. by intros ->.
  - rewrite (IH Hi Hg Hfg), (Hfg x) by (by intros ->). lia.
Qed.

Lemma reads_left_delete gone i r :
  i ∉ gone -> (i < length body)%nat ->
  reads_left gone r = (reads_left ({[i]} ∪ gone) r + occurrences r (reads_at body i))%nat.
Proof.
  intros Hi Hlt. unfold reads_left. erewrite (sum_list_remove _ (fun j => if decide (j ∈ {[i]} ∪ gone) then _ else _) _ i).
  - by rewrite (decide_False (P := i ∈ gone)).
  - apply NoDup_ListNoDup, seq_NoDup.
  - apply elem_of_seq. lia.
  - simpl. rewrite decide_True by set_solver. done.
  - intros j Hj. simpl. destruct (decide (j ∈ gone)), (decide (j ∈ {[i]} ∪ gone)); set_solver.
Qed.

Lemma reads_left_zero gone r j :
  reads_left gone r = 0%nat -> (j < length body)%nat -> j ∉ gone -> r ∉ reads_at body j.
Proof.
  intros Hz Hj Hg Hr. rewrite (reads_left_delete gone j) in Hz by done.
  assert (occurrences r (reads_at body j) = 0%nat) as Ho by lia.
  unfold occurrences in Ho. apply nil_length_inv in Ho.
  assert (r ∈ filter (fun x => x = r) (reads_at body j)) as Hin by (by apply list_elem_of_filter).
  rewrite Ho in Hin. by apply elem_of_nil in Hin.
Qed.

Lemma occurrences_cons r x l : occurrences r (x :: l) = ((if decide (x = r) then 1 else 0) + occurrences r l)%nat.
Proof. unfold occurrences. rewrite filter_cons. by case_decide. Qed.

Lemma drop_reads_count gone rs st r :
  0 <= r ->
  count_of (fold_left (drop_read body gone) rs st).2 r = count_of st.2 r - Z.of_nat (occurrences r rs).
Proof.
  intros Hr. revert st. induction rs as [|x rs IH]; intros [wl uses]; simpl; [unfold occurrences; simpl; lia|].
  rewrite IH, occurrences_cons. unfold drop_read. destruct (Z.ltb_spec x 0); simpl.
  - rewrite decide_False by lia. lia.
  - rewrite count_of_insert. destruct (decide (x = r)) as [->|]; lia.
Qed.

Lemma initial_count r : 0 <= r -> count_of (initial_uses body) r = Z.of_nat (reads_left ∅ r).
Proof.
  intros Hr. unfold initial_uses, reads_left.
  assert (forall rs (uses : gmap Z Z), count_of (fold_left (fun uses x =>
    if 0 <=? x then <[x := count_of uses x + 1]> uses else uses) rs uses) r
    = count_of uses r + Z.of_nat (occurrences r rs)) as Hinner.
  { induction rs as [|x rs IH]; intros uses; simpl; [unfold occurrences; simpl; lia|].
    rewrite IH, occurrences_cons. destruct (Z.leb_spec 0 x).
    - rewrite count_of_insert. destruct (decide (x = r)) as [->|]; lia.
    - rewrite decide_False by lia. lia. }
  assert (forall l (uses : gmap Z Z), count_of (fold_left (fun uses i =>
    fold_left (fun uses x => if 0 <=? x then <[x := count_of uses x + 1]> uses else uses)
      (reads_at body i) uses) l uses) r
    = count_of uses r + Z.of_nat (sum_list (map (fun i => if decide (i ∈ (∅ : gset nat)) then 0%nat
        else occurrences r (reads_at body i)) l))) as Houter.
  { induction l as [|x l IH]; intros uses; [simpl; lia|]. cbn [fold_left map sum_list].
    rewrite IH, Hinner. rewrite (decide_False (P := x ∈ (∅ : gset nat))) by set_solver. simpl. lia. }
  rewrite Houter. unfold count_of. by rewrite lookup_empty.
Qed.

(** A deleted instruction is pure, defines a register and nothing left reads
    it. *)
Definition deletable (gone : gset nat) (i : nat) : Prop :=
  exists instr d, body !! i = Some instr /\ ir_destination_register instr = Some d /\ 0 <= d
    /\ ir_instruction_is_pure instr = Ok true /\ reads_left gone d = 0%nat.

Definition counts_true (st : State) : Prop :=
  (forall r, 0 <= r -> count_of (use_count st) r = Z.of_nat (reads_left (deleted st) r))
  /\ (forall i, i ∈ deleted st -> deletable (deleted st) i).

Lemma deletable_mono gone i j :
  j ∉ gone -> (j < length body)%nat -> deletable gone i -> deletable ({[j]} ∪ gone) i.
Proof.
  intros Hj Hlt (instr & d & Hi & Hd & Hnn & Hp & Hz). exists instr, d. split_and!; try done.
  rewrite (reads_left_delete gone j) in Hz by done. lia.
Qed.

Lemma visit_counts st st' : counts_true st -> visit_def body st = inl st' -> counts_true st'.
Proof.
  destruct st as [[|i wl] uses gone]; unfold visit_def; simpl; [done|]. intros [Hc Hd]. simpl in Hc, Hd.
  case_bool_decide as Hi; [by intros Hx; injection Hx as <-|].
  destruct (body !! i) as [instr|] eqn:Ei; [|by intros Hx; injection Hx as <-].
  destruct ((dst_reg instr <? 0) || negb (count_of uses (dst_reg instr) =? 0)) eqn:Edst;
    [by intros Hx; injection Hx as <-|].
  apply orb_false_iff in Edst as [Hnn%Z.ltb_ge Hz%negb_false_iff%Z.eqb_eq].
  destruct (ir_instruction_is_pure instr) as [[]|] eqn:Ep; [|by intros Hx; injection Hx as <-|done].
  pose proof (drop_reads_count ({[i]} ∪ gone) (reads_at body i) (wl, uses)) as Hdrop.
  destruct (fold_left _ _ _) as [wl' uses']. intros Hx. injection Hx as <-. simpl in Hdrop.
  pose proof (lookup_lt_Some _ _ _ Ei) as Hlt. split; simpl.
  - intros r Hr. rewrite Hdrop, Hc, (reads_left_delete gone i) by done. lia.
  - intros j [->%elem_of_singleton|Hj]%elem_of_union; [|by apply deletable_mono, Hd].
    apply deletable_mono; [done|done|]. exists instr, (dst_reg instr). split_and!; try done.
    + unfold dst_reg in *. destruct (ir_destination_register instr); [done|simpl in Hnn; lia].
    + rewrite Hc in Hz by done. lia.
Qed.

Lemma dead_positions_deletable dead :
  dead_positions body = Ok dead -> forall i, i ∈ dead -> deletable dead i.
Proof.
  unfold dead_positions. destruct (iter_until _ _ _) as [|r] eqn:E; [done|]. intros ->.
  eapply (iter_until_invariant (visit_def body) counts_true
    (fun r => forall dead, r = Ok dead -> forall i, i ∈ dead -> deletable dead i)); [| | |exact E|done].
  - apply visit_counts.
  - intros [wl uses gone] r [_ Hd] Hv dead' ->. unfold visit_def in Hv. simpl in *.
    destruct wl as [|i wl]; [by injection Hv as <-|].
    case_bool_decide; [done|]. destruct (body !! i); [|done]. destruct (_ || _); [done|].
    destruct (ir_instruction_is_pure _) as [[]|]; try done. by destruct (fold_left _ _ _).
  - split; simpl; [apply initial_count|]. intros i Hi. set_solver.
Qed.

End Facts.

(** ** A verified function returns what it returned *)

Section Correct.
Context `{Libm} (program : IRProgram) (call_rec : string -> list Value -> M Interp Value).
Context (func : IRFunction).
Hypothesis Hv : verified program func.
Context (dead : gset nat).
Hypothesis Hdead : dead_positions (instructions func) = Ok dead.
Context (regs0 : gmap Z Value).
Hypothesis Hparams : parameters_present (func := func) regs0.

Abbreviation body := (instructions func).
Abbreviation keep := (fun i => negb (is_deleted dead i)).
Abbreviation func' := (with_instructions func (surviving dead body)).
Abbreviation np := (newpos keep).

(** Something that survives reads [r]. *)
Definition live (r : Z) : Prop :=
  exists j, (j < length body)%nat /\ j ∉ dead /\ r ∈ reads_at body j.

Lemma keep_spec p : keep p = true <-> p ∉ dead.
Proof. unfold is_deleted. by rewrite negb_true_iff, bool_decide_eq_false. Qed.

Lemma dead_spec p i : p ∈ dead -> body !! p = Some i ->
  exists d, ir_destination_register i = Some d /\ ir_is_pure (opcode i) = true /\ ~ live d.
Proof.
  intros Hp Hi. destruct (dead_positions_deletable body dead Hdead p Hp) as (i' & d & Hi' & Hd & Hnn & Hpure & Hz).
  simplify_eq. exists d. split; [done|]. split.
  - unfold ir_instruction_is_pure in Hpure. by destruct (ir_is_pure (opcode i)).
  - intros (j & Hj & Hjd & Hr). by eapply reads_left_zero.
Qed.

Lemma live_read p i r : body !! p = Some i -> p ∉ dead -> r ∈ ir_collect_read_registers i -> live r.
Proof.
  intros Hi Hp Hr. exists p. split; [by eapply lookup_lt_Some|]. split; [done|]. unfold reads_at. by rewrite Hi.
Qed.

(** Labels survive. *)
Lemma label_kept t j id : body !! t = Some j -> label_id j = Some id -> keep t = true.
Proof.
  intros Hj Hid. apply keep_spec. intros Hd. destruct (dead_spec t j Hd Hj) as (d & Hdst & _).
  apply label_id_opcode in Hid. unfold ir_destination_register in Hdst. by rewrite Hid in Hdst.
Qed.

(** A pure instruction leaves the interpreter alone. *)
Lemma pure_state f i s s' te :
  ir_is_pure (opcode i) = true -> effect_of program call_rec func f i s = (s', Ok te) -> s' = s.
Proof.
  intros Hp He. unfold effect_of in He. destruct (opcode i) eqn:Eop; try done;
    try (unfold mlift, mret in He; by injection He).
  by apply load_global_effect_inv in He as [_ [-> _]].
Qed.

Record rel_context (s : Interp) (c c' : ExecutionContext) : Prop := {
  dc_reach : exists marked, reachable program call_rec func regs0 s c marked;
  dc_labels' : labels c' = function_labels program func';
  dc_returned : returned c = returned c';
  dc_value : return_value c = return_value c';
  dc_regs : forall r, live r -> registers c !! r = registers c' !! r;
  dc_pc : returned c = false -> pc c' = np (pc c) /\ (pc c <= length body)%nat
}.

Lemma np_end p : (p <= length body)%nat -> (length body <= p)%nat -> np p = length (instructions func').
Proof.
  intros Hle Hge. assert (p = length body) as -> by lia. simpl. unfold surviving. rewrite survivors_length.
  by unfold newpos.
Qed.

Lemma dead_final s c c' : rel_context s c c' -> running func c = false -> running func' c' = false.
Proof.
  intros [_ _ Hr _ _ Hp] Hrun. unfold running in *. rewrite <- Hr. destruct (returned c); [by rewrite andb_false_r|].
  destruct (Hp eq_refl) as [-> Hle]. rewrite andb_true_r in Hrun. apply Nat.ltb_ge in Hrun.
  rewrite np_end by done. by rewrite Nat.ltb_irrefl.
Qed.

(** Only defined registers are touched. *)
Lemma touched_defined s c i te :
  (exists marked, reachable program call_rec func regs0 s c marked) -> running func c = true ->
  body !! pc c = Some i -> effect_shape program i te ->
  forall r, r ∈ touched_registers i te.1 -> is_Some (registers c !! r).
Proof.
  intros [marked Hreach] Hrun Hi Hsh r Hr.
  destruct (is_bare_return i) eqn:Hb.
  - apply andb_prop in Hb as [_ Hlen%Nat.eqb_eq%nil_length_inv]. exfalso. unfold touched_registers in Hr.
    apply list_elem_of_omap in Hr as (n & _ & Hn). by rewrite Hlen in Hn.
  - eapply reads_defined_at; [done|by eapply reachable_invariant|done|done|done|by eapply touched_reads].
Qed.

Lemma effect_regs_defined i te regs :
  (forall r, r ∈ touched_registers i te.1 -> is_Some (regs !! r)) ->
  effect_regs i te regs = match te.2, ir_destination_register i with
                          | E_write v, Some d => <[d := v]> regs
                          | _, _ => regs
                          end.
Proof. intros Hd. unfold effect_regs. by rewrite touch_all_defined. Qed.

(** A survivor reads the same values and has the same effect. *)
Lemma survivor_effect p i (regs regs' : gmap Z Value) s :
  body !! p = Some i -> p ∉ dead -> (forall r, live r -> regs !! r = regs' !! r) ->
  effect_of program call_rec func' (rd regs') i s = effect_of program call_rec func (rd regs) i s.
Proof.
  intros Hi Hp Hregs. apply effect_of_congr; [done|]. split; try done. intros n. unfold same_slot.
  destruct (operands i !! n) as [v|] eqn:E; [|done]. destruct v as [r| | | | |]; try done. simpl.
  intros Hr. unfold rd. rewrite Hregs; [done|]. eapply live_read; [done|done|].
  pose proof (lookup_lt_Some _ _ _ E) as Hlt. unfold ir_collect_read_registers, is_bare_return.
  destruct (Nat.eqb_spec (length (operands i)) 0); [lia|]. rewrite andb_false_r.
  apply list_elem_of_omap. exists n. split; [apply elem_of_seq; lia|].
  unfold ir_reads_operand. by rewrite E, Hr.
Qed.

Lemma effect_regs_live p i te (regs regs' : gmap Z Value) :
  body !! p = Some i -> p ∉ dead -> effect_shape program i te ->
  (forall r, r ∈ touched_registers i te.1 -> is_Some (regs !! r)) ->
  (forall r, live r -> regs !! r = regs' !! r) ->
  forall r, live r -> effect_regs i te regs !! r = effect_regs i te regs' !! r.
Proof.
  intros Hi Hp Hsh Hd Hregs r Hr. rewrite !effect_regs_defined.
  - destruct (te.2), (ir_destination_register i) as [d|]; try by apply Hregs.
    rewrite !lookup_insert. case_decide; [done|by apply Hregs].
  - intros x Hx. rewrite <- Hregs; [by apply Hd|]. eapply live_read; [done|done|by eapply touched_reads].
  - done.
Qed.

Lemma dead_step s c c' s1 c1 i :
  rel_context s c c' -> running func c = true -> body !! pc c = Some i -> pc c ∈ dead ->
  step program call_rec func c s = (s1, Ok c1) -> s1 = s /\ rel_context s c1 c'.
Proof.
  intros Hrel Hrun Hi Hp Hs. destruct (running_lookup _ _ Hrun) as [Hret _].
  destruct Hrel as [[marked Hreach] Hl' Hr Hval Hregs Hpc].
  pose proof (reachable_invariant program call_rec Hv _ _ _ _ Hparams Hreach) as Hci.
  destruct (step_inv _ _ _ _ _ _ _ _ Hret (ci_labels _ _ _ Hci) Hi Hs) as (te & He & Hlab & Hr1 & Hn).
  destruct (dead_spec _ _ Hp Hi) as (d & Hdst & Hpure & Hlive).
  pose proof (pure_state _ _ _ _ _ Hpure He) as ->. split; [done|].
  pose proof (effect_of_shape _ _ _ _ _ _ _ _ He) as Hsh.
  assert (exists v, te.2 = E_write v) as [v Hte].
  { destruct Hsh as [_ Hsh]. unfold ir_destination_register in Hdst. destruct (te.2) as [|v|l|].
    - destruct Hsh as [_ Hx]. by rewrite Hx in Hdst.
    - by exists v.
    - destruct Hsh as (_ & Hx & _). by rewrite Hx in Hdst.
    - by rewrite Hsh in Hdst. }
  rewrite Hte in Hn. destruct Hn as (Hret1 & Hpc1 & Hval1). destruct (Hpc Hret) as [Hnp Hle].
  split.
  - eexists. by eapply reach_step.
  - done.
  - congruence.
  - congruence.
  - intros r Hlr. rewrite Hr1, effect_regs_defined, Hte, Hdst.
    + rewrite lookup_insert_ne; [by apply Hregs|]. by intros ->.
    + eapply touched_defined; [by eexists|done|done|done].
  - intros _. rewrite Hpc1, Hnp, newpos_S. apply lookup_lt_Some in Hi.
    rewrite (proj2 (negb_false_iff _)); [split; lia|]. unfold is_deleted. by apply bool_decide_eq_true.
Qed.

(** A jump goes to the same label. *)
Lemma live_jump k i f s s' ns l :
  body !! k = Some i -> k ∉ dead ->
  effect_of program call_rec func f i s = (s', Ok (ns, E_jump l)) ->
  exists t, function_labels program func !! l = Some t /\ (t < length body)%nat /\ t <> k
    /\ function_labels program func' !! l = Some (np t) /\ np t <> np k.
Proof.
  intros Hi Hk%keep_spec He. destruct (jump_target program call_rec Hv _ _ _ _ _ _ _ Hi He) as (id & Hop & Hn & Hget & Hbr).
  destruct (verified_label_target program Hv _ _ _ Hi Hn Hop) as [t Ht].
  unfold label_target, name_of in Ht. rewrite <- (verified_labels program Hv), Hget in Ht.
  destruct (function_labels_spec program func _ _ Ht) as (j & id' & Hj & Hid & Hget').
  pose proof (label_kept _ _ _ Hj Hid) as Hkt. pose proof (label_id_opcode _ _ Hid) as Hjo.
  exists t. split; [done|]. split; [by eapply lookup_lt_Some|].
  assert (opcode i <> IROpcode.LABEL) as Hnl by (intros Hl; by rewrite Hl in Hn).
  split; [congruence|]. split.
  - eapply survivors_labels; [done|done|done| |done]. by exists id'.
  - intros Heq. pose proof (survivors_lookup keep body t j Hj Hkt) as Hs1.
    rewrite Heq, (survivors_lookup keep body k i Hi Hk) in Hs1. congruence.
Qed.

Lemma live_step s c c' s1 c1 i :
  rel_context s c c' -> running func c = true -> body !! pc c = Some i -> pc c ∉ dead ->
  step program call_rec func c s = (s1, Ok c1) ->
  running func' c' = true /\ exists c1', step program call_rec func' c' s = (s1, Ok c1') /\ rel_context s1 c1 c1'.
Proof.
  intros Hrel Hrun Hi Hp Hs. destruct (running_lookup _ _ Hrun) as [Hret _].
  destruct Hrel as [[marked Hreach] Hl' Hr Hval Hregs Hpc].
  pose proof (reachable_invariant program call_rec Hv _ _ _ _ Hparams Hreach) as Hci.
  destruct (step_inv _ _ _ _ _ _ _ _ Hret (ci_labels _ _ _ Hci) Hi Hs) as (te & He & Hlab & Hr1 & Hn).
  pose proof (effect_of_shape _ _ _ _ _ _ _ _ He) as Hsh. destruct (Hpc Hret) as [Hnp Hle].
  pose proof (proj2 (keep_spec _) Hp) as Hk. pose proof (lookup_lt_Some _ _ _ Hi) as Hlt.
  assert (instructions func' !! pc c' = Some i) as Hi' by (rewrite Hnp; by apply survivors_lookup).
  assert (running func' c' = true) as Hrun'.
  { unfold running. rewrite <- Hr, Hret, andb_true_r. by eapply Nat.ltb_lt, lookup_lt_Some. }
  split; [done|]. rewrite (step_effect _ _ _ _ _ _ Hi'), (survivor_effect (pc c) i (registers c)), He by done.
  assert (forall r, live r -> registers c1 !! r = effect_regs i te (registers c') !! r) as Hregs1.
  { intros r Hlr. rewrite Hr1. eapply effect_regs_live; [done|done|done| |done|done].
    eapply touched_defined; [by eexists|done|done|done]. }
  assert (exists marked1, reachable program call_rec func regs0 s1 c1 marked1) as Hreach1
    by (eexists; by eapply reach_step).
  rewrite apply_effect_regs. destruct te as [ns [|v|l|]]; cbn [fst snd] in *.
  - destruct Hn as (Hret1 & Hpc1 & Hval1). eexists. split; [done|]. unfold advance. cbn.
    rewrite <- Hr, Hret, Nat.eqb_refl. cbn. split; cbn; try done; try congruence.
    intros _. rewrite Hpc1, Hnp, newpos_S, Hk. split; lia.
  - destruct Hn as (Hret1 & Hpc1 & Hval1). eexists. split; [done|]. unfold advance. cbn.
    rewrite <- Hr, Hret, Nat.eqb_refl. cbn. split; cbn; try done; try congruence.
    intros _. rewrite Hpc1, Hnp, newpos_S, Hk. split; lia.
  - destruct Hn as (Hret1 & Hpc1 & Hval1).
    destruct (live_jump _ _ _ _ _ _ _ Hi Hp He) as (t & Ht & Htl & Htk & Ht' & Hnpt).
    rewrite Hpc1 in Ht. injection Ht as Ht. unfold jump_to_label. cbn. rewrite Hl', Ht'. cbn.
    eexists. split; [done|]. unfold advance. cbn. rewrite <- Hr, Hret, Hnp, (proj2 (Nat.eqb_neq _ _) Hnpt). cbn.
    split; cbn; try done; try congruence. intros _. rewrite Ht. split; [done|lia].
  - destruct Hn as [Hret1 Hval1].
    assert (live RETURN_REGISTER) as Hlr.
    { eapply live_read; [done|done|]. destruct Hsh as [_ Hop]. cbn in Hop.
      unfold ir_collect_read_registers, is_bare_return. rewrite Hop. cbn.
      pose proof (verified_operands program Hv _ _ Hi) as Hok.
      assert (operands i = []) as ->.
      { destruct (operands i) as [|v ops] eqn:E; [done|]. pose proof (ok_kind _ Hok 0%nat v) as Hm.
        rewrite E in Hm. specialize (Hm eq_refl). unfold operand_kind in Hm. by rewrite Hop in Hm. }
      set_solver. }
    rewrite (Hregs1 _ Hlr) in Hval1.
    remember (effect_regs i (ns, E_return) (registers c')) as rs eqn:Hrs. clear Hrs.
    unfold exec_return. cbn.
    destruct (rs !! RETURN_REGISTER) as [v|]; (eexists; split; [done|]; unfold advance; cbn; split; cbn).
    all: done || congruence.
Qed.

Lemma dead_code_simulation s c c' s1 c1 :
  rel_context s c c' -> running func c = true -> step program call_rec func c s = (s1, Ok c1) ->
  (s1 = s /\ rel_context s c1 c')
  \/ (running func' c' = true
      /\ exists c1', step program call_rec func' c' s = (s1, Ok c1') /\ rel_context s1 c1 c1').
Proof.
  intros Hrel Hrun Hs. destruct (running_lookup _ _ Hrun) as [_ [i Hi]].
  destruct (decide (pc c ∈ dead)); [left; by eapply dead_step|right; by eapply live_step].
Qed.

End Correct.

Lemma arguments_present (func : IRFunction) args :
  (length (parameters func) <= length args)%nat -> parameters_present (func := func) (argument_registers func args).
Proof.
  intros Hlen n Hn. unfold argument_registers. destruct (lookup_lt_is_Some_2 args n) as [v Hv]; [lia|].
  destruct (list_to_map _ !! Z.of_nat n) eqn:E; [by eexists|].
  apply not_elem_of_list_to_map in E. exfalso. apply E. apply list_elem_of_lookup. exists n.
  rewrite list_lookup_fmap.
  assert (zip (map Z.of_nat (seq 0 (length args))) (take (length (parameters func)) args) !! n
    = Some (Z.of_nat n, v)) as ->; [|done].
  apply lookup_zip_Some. rewrite list_lookup_fmap, lookup_seq_lt by lia. split; [done|].
  by rewrite lookup_take_lt.
Qed.


(** The deletion loop stops: its visits never exceed two per instruction, so
    the bound of the model is never the reason it fails. *)
Theorem eliminate_dead_code_terminates (func : IRFunction) :
  eliminate_dead_code func <> Throw OutOfFuel.
Proof.
  unfold eliminate_dead_code. destruct (_ || _); [done|].
  pose proof (dead_positions_stop (instructions func)) as Hd.
  destruct (dead_positions (instructions func)) as [dead|e]; cbn [obind]; [by destruct (_ =? _)%nat|congruence].
Qed.

(** ** Witness *)

Import Samples IROpcode.

(** r2 and then r1 become dead. *)
Definition idle : IRFunction := simple_function "idle" ["n"] [
  instr LOAD_IMM [R 1; I 5];
  instr ADD [R 2; R 1; R 0];
  instr RETURN []
] 3.


End DeadCode.
