(* ===== verification/Peephole.v ===== *)
(** * Peephole patterns

    Models [IROptimizer::peephole_optimization] (ir_optimizer.cpp) and its five
    patterns: compare and branch become one branch, moves around an operation
    and pairs of moves disappear, a move after an operation is folded into it,
    a branch to what follows is dropped.  A pattern looks at the instructions
    from a position on and answers how many it replaces, and by what.

    [window_sound] states when a replacement does what the window did: the
    registers the pattern gives up must not be read by the replacement, and an
    ordered comparison must not be inverted.  The patterns check neither in
    full; the closed theorems at the end are the calls that go wrong. *)

From S2P Require Import Prelude.
From S2P Require Import Dataflow.
From S2P Require Import Double.
From S2P Require Import VariantTypes.
From S2P Require Import IROpcodes.
From S2P Require Import Globals.
From S2P Require Import IR.
From S2P Require Import Cfg.
From S2P Require Import Verifier.
From S2P Require Import VerifierFacts.
From S2P Require Import Interpreter.
From S2P Require Import Effects.
From S2P Require Import Machine.
From S2P Require Import VerifierSound.
From S2P Require Import Positions.
From S2P Require Import OptimizerBase.
From S2P Require Import CopyPropagation.
From S2P Require Import Samples.

Module Peephole.
Import IROpcode.

(** A pattern advances the position by the first component and emits the
    second; [None] when it does not apply. *)
Abbreviation Rewrite := (option (nat * list IRInstruction)).

(** Is [reg] read by an instruction outside the positions first..last? *)
Definition is_reg_read_outside (body : list IRInstruction) (reg : Z) (first last : nat) : bool :=
  existsb (fun p => negb ((first <=? p.1)%nat && (p.1 <=? last)%nat)
                    && existsb (Z.eqb reg) (ir_collect_read_registers p.2))
    (zip (seq 0 (length body)) body).

(** [new_op.operands[n] = IRValue::reg(r)]; [n] is in range where it is used. *)
Definition with_register (i : IRInstruction) (n : nat) (r : Z) : IRInstruction :=
  with_operands i (<[n := IRValue.reg r]> (operands i)).

Definition is_move (i : IRInstruction) : bool := eqb (opcode i) MOVE.

Definition is_arithmetic (i : IRInstruction) : bool := ir_has_effect (opcode i) IR_ARITHMETIC.

Definition operand_is_register (i : IRInstruction) (n : nat) : bool :=
  match operands i !! n with Some v => IRValue.is_register v | None => false end.

Definition is_ordinary_compare (op : IROpcode) : bool :=
  match op with CMP_EQ | CMP_NEQ | CMP_LT | CMP_LTE | CMP_GT | CMP_GTE => true | _ => false end.

(** The branch that replaces a comparison, negated for BRANCH_ZERO; [None] is
    the source's unreachable default. *)
Definition fused_opcode (cmp : IROpcode) (invert : bool) : option IROpcode :=
  match cmp, invert with
  | CMP_EQ, true => Some BRANCH_NEQ
  | CMP_NEQ, true => Some BRANCH_EQ
  | CMP_LT, true => Some BRANCH_GTE
  | CMP_LTE, true => Some BRANCH_GT
  | CMP_GT, true => Some BRANCH_LTE
  | CMP_GTE, true => Some BRANCH_LT
  | CMP_EQ, false => Some BRANCH_EQ
  | CMP_NEQ, false => Some BRANCH_NEQ
  | CMP_LT, false => Some BRANCH_LT
  | CMP_LTE, false => Some BRANCH_LTE
  | CMP_GT, false => Some BRANCH_GT
  | CMP_GTE, false => Some BRANCH_GTE
  | _, _ => None
  end.

Definition operand_or_default (i : IRInstruction) (n : nat) : IRValue :=
  default (IRValue.imm 0) (operands i !! n).

Definition try_fuse_compare_and_branch (body : list IRInstruction) (i : nat) : Rewrite :=
  match body !! i, body !! S i with
  | Some cmp_instr, Some branch_instr =>
      let is_branch_on_cmp := eqb (opcode branch_instr) BRANCH_ZERO || eqb (opcode branch_instr) BRANCH_NOT_ZERO in
      if is_ordinary_compare (opcode cmp_instr) && is_branch_on_cmp
         && (3 <=? length (operands cmp_instr))%nat && (2 <=? length (operands branch_instr))%nat
         && (op_reg cmp_instr 0 =? op_reg branch_instr 0)
         && negb (is_reg_read_outside body (op_reg cmp_instr 0) i (S i))
      then match fused_opcode (opcode cmp_instr) (eqb (opcode branch_instr) BRANCH_ZERO) with
           | Some op =>
               Some (2%nat, [with_type_hint
                 (instr op [operand_or_default cmp_instr 1; operand_or_default cmp_instr 2;
                            operand_or_default branch_instr 1]) (type_hint cmp_instr)])
           | None => None
           end
      else None
  | _, _ => None
  end.

(** Only labels up to the target. *)
Fixpoint only_labels_before (name : Z) (is_ : list IRInstruction) : bool :=
  match is_ with
  | [] => false
  | next :: is_ =>
      ir_has_effect (opcode next) IR_LABEL
      && (match operands next with v :: _ => IRValue.string_id v =? name | [] => false end
          || only_labels_before name is_)
  end.

(** The last LABEL operand. *)
Definition branch_target (i : IRInstruction) : option Z :=
  fold_left (fun acc v => match v with IRValue.LABEL id => Some id | _ => acc end) (operands i) None.

Definition try_remove_branch_to_next (body : list IRInstruction) (i : nat) : Rewrite :=
  match body !! i with
  | Some instr =>
      if negb (eqb (opcode instr) JUMP) && negb (ir_has_effect (opcode instr) IR_BRANCH) then None
      else if eqb (opcode instr) SWITCH then None
      else match branch_target instr with
           | None => None
           | Some name => if only_labels_before name (drop (S i) body) then Some (1%nat, []) else None
           end
  | None => None
  end.

(** MOVE t1,a; MOVE t2,b; OP d,t1,t2; MOVE r,d -> OP r,a,b *)
Definition try_pattern_a (body : list IRInstruction) (i : nat) (move1 : IRInstruction) : Rewrite :=
  match body !! (i + 1)%nat, body !! (i + 2)%nat, body !! (i + 3)%nat with
  | Some move2, Some op, Some move3 =>
      if is_move move2 && is_arithmetic op && is_move move3 && (3 <=? length (operands op))%nat
         && operand_is_register op 1 && operand_is_register op 2
         && (op_reg move1 0 =? op_reg op 1) && (op_reg move2 0 =? op_reg op 2)
         && (op_reg move3 1 =? op_reg op 0)
         && negb (is_reg_read_outside body (op_reg move1 0) i (i + 3))
         && negb (is_reg_read_outside body (op_reg move2 0) i (i + 3))
         && negb (is_reg_read_outside body (op_reg op 0) i (i + 3))
         && negb (op_reg move2 0 =? op_reg move1 1) && negb (op_reg op 0 =? op_reg move1 1)
         && negb (op_reg op 0 =? op_reg move2 1)
      then Some (4%nat, [with_register (with_register (with_register op 0 (op_reg move3 0))
                           1 (op_reg move1 1)) 2 (op_reg move2 1)])
      else None
  | _, _, _ => None
  end.

(** MOVE t,a; OP d,t,x; MOVE r,d -> OP r,a,x, for the source operand [n]. *)
Definition try_pattern_b (body : list IRInstruction) (i : nat) (move1 : IRInstruction) (n : nat) : Rewrite :=
  match body !! (i + 1)%nat, body !! (i + 2)%nat with
  | Some op, Some move2 =>
      if is_arithmetic op && is_move move2 && (3 <=? length (operands op))%nat
         && operand_is_register op n
         && (op_reg move1 0 =? op_reg op n) && (op_reg move2 1 =? op_reg op 0)
         && negb (is_reg_read_outside body (op_reg move1 0) i (i + 2))
         && negb (is_reg_read_outside body (op_reg op 0) i (i + 2))
         && negb (op_reg op 0 =? op_reg move1 1)
      then Some (3%nat, [with_register (with_register op 0 (op_reg move2 0)) n (op_reg move1 1)])
      else None
  | _, _ => None
  end.

(** MOVE t,v; LOAD c; OP d,t,c; MOVE v,d -> LOAD c; OP v,v,c *)
Definition try_pattern_e (body : list IRInstruction) (i : nat) (move1 : IRInstruction) : Rewrite :=
  match body !! (i + 1)%nat, body !! (i + 2)%nat, body !! (i + 3)%nat with
  | Some load, Some op, Some move2 =>
      if (eqb (opcode load) LOAD_IMM || eqb (opcode load) LOAD_FLOAT_IMM)
         && is_arithmetic op && is_move move2 && (3 <=? length (operands op))%nat
         && operand_is_register op 1 && operand_is_register op 2
         && (op_reg move1 0 =? op_reg op 1) && (op_reg load 0 =? op_reg op 2)
         && (op_reg move1 1 =? op_reg move2 0) && (op_reg move2 1 =? op_reg op 0)
         && negb (is_reg_read_outside body (op_reg move1 0) i (i + 3))
         && negb (is_reg_read_outside body (op_reg op 0) i (i + 3))
      then Some (4%nat, [load; with_register (with_register op 0 (op_reg move2 0)) 1 (op_reg move1 1)])
      else None
  | _, _, _ => None
  end.

(** The first pattern that applies. *)
Definition first_of (tries : list Rewrite) : Rewrite :=
  fold_right (fun t rest => match t with Some r => Some r | None => rest end) None tries.

Definition try_eliminate_moves_around_op (body : list IRInstruction) (i : nat) : Rewrite :=
  match body !! i with
  | Some move1 =>
      if negb (is_move move1) then None
      else if op_reg move1 0 =? op_reg move1 1 then Some (1%nat, [])
      else first_of [try_pattern_a body i move1; try_pattern_b body i move1 1;
                     try_pattern_b body i move1 2; try_pattern_e body i move1]
  | None => None
  end.

(** MOVE a,b; MOVE b,a -> nothing *)
Definition try_eliminate_move_pair (body : list IRInstruction) (i : nat) : Rewrite :=
  match body !! i, body !! S i with
  | Some move1, Some move2 =>
      if is_move move1 && is_move move2
         && (op_reg move1 0 =? op_reg move2 1) && (op_reg move1 1 =? op_reg move2 0)
         && negb (op_reg move1 0 =? op_reg move1 1)
         && negb (is_reg_read_outside body (op_reg move1 0) i (S i))
      then Some (2%nat, [])
      else None
  | _, _ => None
  end.

(** OP d,...; MOVE r,d -> OP r,... *)
Definition try_fold_move_after_op (body : list IRInstruction) (i : nat) : Rewrite :=
  match body !! i, body !! S i with
  | Some op, Some move =>
      match ir_destination_operand_index (opcode op) with
      | Some dst_index =>
          if negb (ir_reads_operand op dst_index) && is_move move
             && operand_is_register op dst_index && (2 <=? length (operands move))%nat
             && negb (existsb (Z.eqb (op_reg move 0)) (ir_collect_read_registers op))
             && (op_reg move 1 =? op_reg op dst_index)
             && negb (is_reg_read_outside body (op_reg op dst_index) i (S i))
          then Some (2%nat, [with_register op dst_index (op_reg move 0)])
          else None
      | None => None
      end
  | _, _ => None
  end.

(** The patterns in the source's order. *)
Definition patterns : list (list IRInstruction -> nat -> Rewrite) := [
  try_fuse_compare_and_branch;
  try_eliminate_moves_around_op;
  try_eliminate_move_pair;
  try_fold_move_after_op;
  try_remove_branch_to_next
].

Definition rewrite_at (body : list IRInstruction) (i : nat) : Rewrite :=
  first_of (map (fun pattern => pattern body i) patterns).

(** The driver; every round advances, so the length of the body is enough. *)
Fixpoint peephole_from (fuel : nat) (body : list IRInstruction) (i : nat) : list IRInstruction :=
  match fuel with
  | O => []
  | S fuel =>
      match body !! i with
      | None => []
      | Some instr =>
          match rewrite_at body i with
          | Some (n, emitted) => emitted ++ peephole_from fuel body (i + n)
          | None => instr :: peephole_from fuel body (S i)
          end
      end
  end.

Definition peephole_optimization (func : IRFunction) : IRFunction * bool :=
  let body := instructions func in
  replace_instructions func (peephole_from (S (length body)) body 0).

(** ** Windows *)

(** The instructions a rewrite replaces. *)
Definition window (body : list IRInstruction) (i n : nat) : list IRInstruction := take n (drop i body).

(** The registers a straight line reads before it writes them. *)
Fixpoint exposed_reads (is_ : list IRInstruction) : list Z :=
  match is_ with
  | [] => []
  | i :: is_ => ir_collect_read_registers i
                ++ filter (fun r => ir_destination_register i <> Some r) (exposed_reads is_)
  end.

Definition is_ordered_compare (op : IROpcode) : bool :=
  match op with CMP_LT | CMP_LTE | CMP_GT | CMP_GTE => true | _ => false end.

Definition reads_register (r : Z) (is_ : list IRInstruction) : bool :=
  existsb (fun i => existsb (Z.eqb r) (ir_collect_read_registers i)) is_.

(** What the guards of the patterns leave open: the registers whose definitions
    go are not read by what stays, two operands do not share a temporary, and
    BRANCH_ZERO does not negate an ordered comparison. *)
Definition safe_window (w emitted : list IRInstruction) : bool :=
  match w with
  | [m1; m2; op; m3] =>
      if is_move m2
      then negb (op_reg m1 0 =? op_reg m2 0) && negb (op_reg m1 0 =? op_reg m2 1)
      else negb (op_reg m1 0 =? op_reg m2 0) && negb (op_reg m1 1 =? op_reg m2 0)
  | [m1; op; m2] =>
      negb (reads_register (op_reg m1 0) emitted) && negb (reads_register (op_reg op 0) emitted)
  | [i; j] =>
      match emitted with
      | [] => true
      | _ => negb (reads_register (dst_reg i) [i])
             && negb (is_ordered_compare (opcode i) && eqb (opcode j) BRANCH_ZERO)
      end
  | _ => true
  end.

Section Windows.
Context `{Libm} (program : IRProgram) (call_rec : string -> list Value -> M Interp Value)
  (func : IRFunction).

(** Executes instructions one after the other. *)
Fixpoint exec_line (is_ : list IRInstruction) (ctx : ExecutionContext) : M Interp ExecutionContext :=
  match is_ with
  | [] => mret ctx
  | i :: is_ =>
      let* ctx := execute_instruction program call_rec func i ctx in
      exec_line is_ ctx
  end.

Abbreviation body := (instructions func).
Abbreviation val ctx := (rd (registers ctx)).

Definition same_control (c c' : ExecutionContext) : Prop :=
  pc c = pc c' /\ labels c = labels c' /\ returned c = returned c' /\ return_value c = return_value c'.

(** The same exception; that of a jump to a missing label names the opcode of the
    jump, which a replacement may change. *)
Inductive same_failure : exn -> exn -> Prop :=
  | same_exception e : same_failure e e
  | same_missing_label op op' label :
      same_failure (CompilerException OPTIMIZER_ERROR (missing_label_message op label))
        (CompilerException OPTIMIZER_ERROR (missing_label_message op' label)).

(** Both fail alike, or both go on at the same place in the same interpreter
    state, with the same values in the registers that matter. *)
Definition same_run (matters : Z -> Prop) (x y : Interp * outcome ExecutionContext) : Prop :=
  x.1 = y.1 /\
  match x.2, y.2 with
  | Ok c, Ok c' => same_control c c' /\ forall r, matters r -> val c r = val c' r
  | Throw e, Throw e' => same_failure e e'
  | _, _ => False
  end.

(** The registers that matter after a window: those read elsewhere, and those
    the replacement reads when it is reached again. *)
Definition matters_after (i n : nat) (emitted : list IRInstruction) (r : Z) : Prop :=
  is_reg_read_outside body r i (i + (n - 1)) = true \/ r ∈ exposed_reads emitted.

(** *** One instruction *)

(** An instruction with a destination writes it and falls through. *)
Definition writes (d : Z) (v : Value) (c c' : ExecutionContext) : Prop :=
  same_control c c' /\ forall r, val c' r = if r =? d then v else val c r.

Lemma rd_insert regs d v r : rd (<[d := v]> regs) r = if r =? d then v else rd regs r.
Proof.
  unfold rd. rewrite lookup_insert. case_decide as Hd.
  - subst. by rewrite Z.eqb_refl.
  - by rewrite (proj2 (Z.eqb_neq _ _)).
Qed.

Lemma exec_write i d c s :
  ir_destination_register i = Some d ->
  match effect_of program call_rec func (val c) i s with
  | (s', Ok te) => exists v c', te.2 = E_write v /\ writes d v c c'
      /\ execute_instruction program call_rec func i c s = (s', Ok c')
  | (s', Throw e) => execute_instruction program call_rec func i c s = (s', Throw e)
  end.
Proof.
  intros Hd. rewrite execute_effect. unfold mbind.
  destruct (effect_of _ _ _ _ _ _) as [s' [te|e]] eqn:He; [|done].
  pose proof (effect_of_shape _ _ _ _ _ _ _ _ He) as [_ Hsh].
  unfold ir_destination_register in Hd. destruct te as [ns [|v|l|]]; cbn [fst snd] in *.
  - destruct Hsh as [_ Hx]. by rewrite Hx in Hd.
  - exists v. unfold mlift, apply_effect. cbn [fst snd].
    fold (ir_destination_register i) in Hd. rewrite Hd. eexists. split; [done|]. split; [|done].
    split; [done|]. intros r. cbn. by rewrite rd_insert, rd_touch_all.
  - destruct Hsh as (_ & Hx & _). by rewrite Hx in Hd.
  - by rewrite Hsh in Hd.
Qed.

Lemma exec_move i c s :
  operands_ok i -> is_move i = true ->
  exists c', execute_instruction program call_rec func i c s = (s, Ok c')
    /\ writes (op_reg i 0) (val c (op_reg i 1)) c c'.
Proof.
  intros Hok Ho%IROpcode.eqb_eq. destruct (move_operands i Hok Ho) as (d & r & H0 & H1 & Hd).
  pose proof (exec_write i d c s Hd) as Hw.
  rewrite (effect_of_move program call_rec func (val c) i s d r Ho H0 H1) in Hw.
  destruct Hw as (v & c' & Hv & Hw & He). cbn in Hv. injection Hv as <-. exists c'. split; [done|].
  rewrite (reg_operand_op_reg _ _ _ H0), (reg_operand_op_reg _ _ _ H1). done.
Qed.

(** *** Binary operations *)

Record is_binary (op : IRInstruction) (d x y : Z) : Prop := {
  bin_operands : operands op = [IRValue.REGISTER d; IRValue.REGISTER x; IRValue.REGISTER y];
  bin_signature : kinds (info_signature (ir_opcode_info (opcode op)))
                  = [IROperandKind.DST; IROperandKind.SRC; IROperandKind.SRC]
}.

Lemma signature_binary op :
  operands_ok op ->
  kinds (info_signature (ir_opcode_info (opcode op))) = [IROperandKind.DST; IROperandKind.SRC; IROperandKind.SRC] ->
  is_binary op (op_reg op 0) (op_reg op 1) (op_reg op 2).
Proof.
  intros Hok Hs. split; [|done]. unfold op_reg.
  assert (forall n, operand_kind op n = kind_at (SIG [IROperandKind.DST; IROperandKind.SRC; IROperandKind.SRC]) n) as Hk.
  { intros n. unfold operand_kind. destruct (info_signature _) as [ks]. cbn in Hs. by subst ks. }
  pose proof (ok_fixed _ Hok) as Hf. unfold fixed_count, is_variadic, sig_count in Hf. rewrite Hs in Hf. cbn in Hf.
  pose proof (ok_kind _ Hok) as Hm.
  destruct (operands op) as [|a [|b [|c [|e rest]]]]; cbn in Hf; try lia.
  - pose proof (Hm 0%nat _ eq_refl) as H0. pose proof (Hm 1%nat _ eq_refl) as H1.
    pose proof (Hm 2%nat _ eq_refl) as H2. rewrite Hk in H0, H1, H2.
    destruct a; try done. destruct b; try done. by destruct c.
  - pose proof (Hm 3%nat _ eq_refl) as H3. by rewrite Hk in H3.
Qed.

Lemma arithmetic_binary op :
  operands_ok op -> is_arithmetic op = true -> (3 <= length (operands op))%nat ->
  is_binary op (op_reg op 0) (op_reg op 1) (op_reg op 2).
Proof.
  intros Hok Ha Hlen. apply signature_binary; [done|]. unfold is_arithmetic in Ha.
  pose proof (ok_kind _ Hok 2%nat) as Hm. unfold operand_kind in Hm.
  destruct (lookup_lt_is_Some_2 (operands op) 2) as [v Hv]; [lia|]. specialize (Hm v Hv).
  by destruct (opcode op).
Qed.

Section Binary.
Context {op : IRInstruction} {d x y : Z} (Hb : is_binary op d x y).

Lemma bin_reads : ir_collect_read_registers op = [x; y].
Proof.
  unfold ir_collect_read_registers, is_bare_return. rewrite (bin_operands _ _ _ _ Hb), andb_false_r. cbn.
  unfold ir_reads_operand, operand_kind. rewrite (bin_operands _ _ _ _ Hb).
  pose proof (bin_signature _ _ _ _ Hb) as Hs. destruct (info_signature _) as [ks]. cbn in Hs. by subst ks.
Qed.

Lemma bin_destination : ir_destination_register op = Some d.
Proof.
  unfold ir_destination_register, ir_destination_operand_index.
  pose proof (bin_signature _ _ _ _ Hb) as Hs. destruct (info_signature _) as [ks]. cbn in Hs. subst ks.
  cbn. by rewrite (bin_operands _ _ _ _ Hb).
Qed.

Lemma bin_with op' d' x' y' :
  opcode op' = opcode op ->
  operands op' = [IRValue.REGISTER d'; IRValue.REGISTER x'; IRValue.REGISTER y'] -> is_binary op' d' x' y'.
Proof. intros Ho Hops. split; [done|]. by rewrite Ho, (bin_signature _ _ _ _ Hb). Qed.

Lemma bin_effect f g op' d' x' y' s :
  is_binary op' d' x' y' -> opcode op' = opcode op -> type_hint op' = type_hint op ->
  f x = g x' -> f y = g y' ->
  effect_of program call_rec func g op' s = effect_of program call_rec func f op s.
Proof.
  intros Hb' Ho Hh Hx Hy. symmetry. apply effect_of_congr; [done|]. split; [done|done|]. intros n.
  rewrite (bin_operands _ _ _ _ Hb), (bin_operands _ _ _ _ Hb').
  destruct n as [|[|[|n]]]; cbn; try done. unfold operand_kind.
  pose proof (bin_signature _ _ _ _ Hb) as Hs. destruct (info_signature _) as [ks]. cbn in Hs. by subst ks.
Qed.

End Binary.

(** *** Windows that end in an operation and a move *)

Lemma same_control_trans a b c : same_control a b -> same_control b c -> same_control a c.
Proof. intros (? & ? & ? & ?) (? & ? & ? & ?). split_and!; congruence. Qed.

Lemma same_control_sym a b : same_control a b -> same_control b a.
Proof. intros (? & ? & ? & ?). done. Qed.

(** OP d,..; MOVE r,d does what OP r,.. does, except to d. *)
Lemma op_move_run op op' m d c c' s (matters : Z -> Prop) :
  ir_destination_register op = Some d -> ir_destination_register op' = Some (op_reg m 0) ->
  operands_ok m -> is_move m = true -> op_reg m 1 = d ->
  effect_of program call_rec func (val c') op' s = effect_of program call_rec func (val c) op s ->
  same_control c c' ->
  (forall r, matters r -> r <> op_reg m 0 -> r <> d /\ val c r = val c' r) ->
  same_run matters (exec_line [op; m] c s) (exec_line [op'] c' s).
Proof.
  intros Hd Hd' Hok Hm Hsrc He Hc Hmat. cbn [exec_line]. unfold mbind.
  pose proof (exec_write op d c s Hd) as H1. pose proof (exec_write op' (op_reg m 0) c' s Hd') as H2.
  rewrite He in H2. destruct (effect_of _ _ _ _ op s) as [s' [te|e]].
  - destruct H1 as (v & c1 & Hv & [Hc1 Hw1] & ->), H2 as (v' & c1' & Hv' & [Hc1' Hw1'] & ->).
    destruct (exec_move m c1 s' Hok Hm) as (c2 & -> & Hc2 & Hw2). split; [done|]. cbn. split.
    + eapply same_control_trans; [|exact Hc1']. eapply same_control_trans; [|exact Hc].
      apply same_control_sym. eapply same_control_trans; [exact Hc1|exact Hc2].
    + intros r Hr. rewrite Hw2, Hw1', Hsrc, !Hw1, Z.eqb_refl.
      destruct (Z.eqb_spec r (op_reg m 0)) as [->|Hne]; [congruence|].
      destruct (Hmat r Hr Hne) as [Hrd Hrv]. by rewrite (proj2 (Z.eqb_neq _ _) Hrd).
  - rewrite H1, H2. split; [done|]. apply same_exception.
Qed.

(** *** The patterns *)

Hypothesis all_ok : forall k i, body !! k = Some i -> operands_ok i.

Ltac guards := repeat match goal with
  | H : _ && _ = true |- _ => apply andb_prop in H as [? ?]
  | H : negb _ = true |- _ => apply negb_true_iff in H
  | H : (_ =? _) = true |- _ => apply Z.eqb_eq in H
  | H : (_ =? _) = false |- _ => apply Z.eqb_neq in H
  | H : (_ <=? _)%nat = true |- _ => apply Nat.leb_le in H
  end.

(** Decides which register a value was written to. *)
Ltac registers := repeat match goal with
  | |- context [?a =? ?b] => destruct (Z.eqb_spec a b)
  end; try split; congruence.

Lemma window_S i n a : body !! i = Some a -> window body i (S n) = a :: window body (S i) n.
Proof. intros Ha. unfold window. by rewrite (drop_S _ _ _ Ha). Qed.

Lemma window_0 i : window body i 0 = [].
Proof. done. Qed.

Ltac window_is :=
  repeat (erewrite window_S by (first [eassumption | rewrite <- ?Nat.add_succ_r; eassumption]));
  rewrite window_0.

(** A register given up by the pattern does not matter outside. *)
Lemma not_outside i n r t :
  is_reg_read_outside body t i n = false -> is_reg_read_outside body r i n = true -> r <> t.
Proof. intros Ht Hr ->. congruence. Qed.

Lemma exposed_one i : exposed_reads [i] = ir_collect_read_registers i.
Proof. cbn. by rewrite app_nil_r. Qed.

Lemma pattern_a_sound i n emitted m1 c s :
  body !! i = Some m1 -> is_move m1 = true -> op_reg m1 0 <> op_reg m1 1 ->
  try_pattern_a body i m1 = Some (n, emitted) -> safe_window (window body i n) emitted = true ->
  same_run (matters_after i n emitted) (exec_line (window body i n) c s) (exec_line emitted c s).
Proof.
  intros Hm1 Hmv1 Hself Hp Hsafe. unfold try_pattern_a in Hp.
  destruct (body !! (i + 1)%nat) as [m2|] eqn:H1; [|done].
  destruct (body !! (i + 2)%nat) as [op|] eqn:H2; [|done].
  destruct (body !! (i + 3)%nat) as [m3|] eqn:H3; [|done].
  match type of Hp with (if ?b then _ else _) = _ => destruct b eqn:Hg; [|done] end.
  injection Hp as <- <-. guards.
  assert (window body i 4 = [m1; m2; op; m3]) as Hwin.
  { replace (i + 1)%nat with (S i) in H1 by lia. replace (i + 2)%nat with (S (S i)) in H2 by lia.
    replace (i + 3)%nat with (S (S (S i))) in H3 by lia. window_is. done. }
  rewrite Hwin in *. cbn [safe_window] in Hsafe.
  match goal with Hx : is_move m2 = true |- _ => rewrite Hx in Hsafe end. guards.
  change (exec_line [m1; m2; op; m3] c s) with
    ((let* c := execute_instruction program call_rec func m1 c in
      let* c := execute_instruction program call_rec func m2 c in exec_line [op; m3] c) s).
  unfold mbind. destruct (exec_move m1 c s) as (c1 & -> & Hc1 & Hw1); [by eapply all_ok|done|].
  destruct (exec_move m2 c1 s) as (c2 & -> & Hc2 & Hw2); [by eapply all_ok|done|].
  assert (is_binary op (op_reg op 0) (op_reg op 1) (op_reg op 2)) as Hb
    by (apply arithmetic_binary; [by eapply all_ok|done|done]).
  match goal with |- same_run _ _ (exec_line [?o] _ _) => set (op' := o) end.
  assert (is_binary op' (op_reg m3 0) (op_reg m1 1) (op_reg m2 1)) as Hb'
    by (eapply bin_with; [exact Hb|done|cbn; by rewrite (bin_operands _ _ _ _ Hb)]).
  eapply op_move_run.
  - exact (bin_destination Hb).
  - exact (bin_destination Hb').
  - by eapply all_ok.
  - done.
  - done.
  - eapply (bin_effect Hb); [exact Hb'|done|done| |]; rewrite ?Hw2, ?Hw1; registers.
  - by eapply same_control_sym, same_control_trans.
  - intros r [Hr|Hr] Hne.
    + assert (r <> op_reg m1 0 /\ r <> op_reg m2 0 /\ r <> op_reg op 0) as (? & ? & ?)
        by (split_and!; by eapply not_outside).
      rewrite !Hw2, !Hw1. registers.
    + rewrite exposed_one, (bin_reads Hb') in Hr. apply elem_of_cons in Hr as [->|Hr%list_elem_of_singleton].
      * rewrite !Hw2, !Hw1. registers.
      * subst r. rewrite !Hw2, !Hw1. registers.
Qed.

Lemma reads_register_one r i : reads_register r [i] = false -> r ∉ ir_collect_read_registers i.
Proof.
  unfold reads_register. cbn. rewrite orb_false_r. intros Hx Hr.
  apply (Bool.eq_true_false_abs _ (proj2 (existsb_exists _ _)
    (ex_intro _ r (conj (proj1 (list_elem_of_In _ _) Hr) (Z.eqb_refl r)))) Hx).
Qed.

Lemma pattern_b_sound i k n emitted m1 c s :
  (k = 1 \/ k = 2)%nat ->
  body !! i = Some m1 -> is_move m1 = true ->
  try_pattern_b body i m1 k = Some (n, emitted) -> safe_window (window body i n) emitted = true ->
  same_run (matters_after i n emitted) (exec_line (window body i n) c s) (exec_line emitted c s).
Proof.
  intros Hk Hm1 Hmv1 Hp Hsafe. unfold try_pattern_b in Hp.
  destruct (body !! (i + 1)%nat) as [op|] eqn:H1; [|done].
  destruct (body !! (i + 2)%nat) as [m2|] eqn:H2; [|done].
  match type of Hp with (if ?b then _ else _) = _ => destruct b eqn:Hg; [|done] end.
  injection Hp as <- <-. guards.
  assert (window body i 3 = [m1; op; m2]) as Hwin.
  { replace (i + 1)%nat with (S i) in H1 by lia. replace (i + 2)%nat with (S (S i)) in H2 by lia.
    window_is. done. }
  rewrite Hwin in *. cbn [safe_window] in Hsafe. guards.
  change (exec_line [m1; op; m2] c s) with
    ((let* c := execute_instruction program call_rec func m1 c in exec_line [op; m2] c) s).
  unfold mbind. destruct (exec_move m1 c s) as (c1 & -> & Hc1 & Hw1); [by eapply all_ok|done|].
  assert (is_binary op (op_reg op 0) (op_reg op 1) (op_reg op 2)) as Hb
    by (apply arithmetic_binary; [by eapply all_ok|done|done]).
  match goal with |- same_run _ _ (exec_line [?o] _ _) => set (op' := o) in * end.
  assert (exists x y, is_binary op' (op_reg m2 0) x y
    /\ (k = 1%nat /\ x = op_reg m1 1 /\ y = op_reg op 2 \/ k = 2%nat /\ x = op_reg op 1 /\ y = op_reg m1 1))
    as (x & y & Hb' & Hxy).
  { destruct Hk as [->| ->]; do 2 eexists;
      (split; [eapply bin_with; [exact Hb|done|cbn; by rewrite (bin_operands _ _ _ _ Hb)]|eauto]). }
  repeat match goal with Hx : reads_register _ [_] = false |- _ =>
    apply reads_register_one in Hx; rewrite (bin_reads Hb') in Hx; apply not_elem_of_cons in Hx as [? Hx];
    apply not_elem_of_cons in Hx as [? _] end.
  eapply op_move_run.
  - exact (bin_destination Hb).
  - exact (bin_destination Hb').
  - by eapply all_ok.
  - done.
  - done.
  - destruct Hxy as [(-> & -> & ->)|(-> & -> & ->)];
      (eapply (bin_effect Hb); [exact Hb'|done|done| |]; rewrite !Hw1; registers).
  - by apply same_control_sym.
  - intros r [Hr|Hr] Hne; rewrite !Hw1.
    + assert (r <> op_reg m1 0 /\ r <> op_reg op 0) as (? & ?) by (split_and!; by eapply not_outside).
      registers.
    + rewrite exposed_one, (bin_reads Hb') in Hr.
      apply elem_of_cons in Hr as [->|Hr%list_elem_of_singleton]; [|subst r]; registers.
Qed.

(** A load does not depend on the registers. *)
Lemma exec_constant_load i s :
  operands_ok i -> CopyPropagation.is_constant_load i = true ->
  ir_collect_read_registers i = [] /\ ir_destination_register i = Some (op_reg i 0) /\
  exists v, forall c, exists c', execute_instruction program call_rec func i c s = (s, Ok c')
    /\ writes (op_reg i 0) v c c'.
Proof.
  intros Hok Hl.
  destruct (CopyPropagation.effect_of_load program call_rec func (fun _ => VNil) i s Hok Hl)
    as (d & x & v & H0 & H1 & Hv & Hd & _).
  assert (op_reg i 0 = d) as Hd0 by (unfold op_reg; by rewrite H0). split_and!.
  - unfold ir_collect_read_registers, is_bare_return, ir_reads_operand, operand_kind.
    pose proof (ok_kind _ Hok) as Hk. unfold operand_kind in Hk. unfold CopyPropagation.is_constant_load in Hl.
    apply orb_true_iff in Hl as [Hl|Hl]; apply IROpcode.eqb_eq in Hl; rewrite Hl in *;
      (destruct (operands i) as [|a [|b [|e rest]]]; [done|done| |]); cbn in *; simplify_eq;
      try (by destruct x); by specialize (Hk 2%nat e eq_refl).
  - by rewrite Hd0.
  - exists v. intros c. rewrite Hd0.
    destruct (CopyPropagation.effect_of_load program call_rec func (val c) i s Hok Hl)
      as (d' & x' & v' & H0' & H1' & Hv' & _ & He). simplify_eq.
    pose proof (exec_write i _ c s Hd) as Hw. rewrite He in Hw.
    destruct Hw as (w & c' & Hw & Hc & Hx). cbn in Hw. injection Hw as <-. by exists c'.
Qed.

Lemma pattern_e_sound i n emitted m1 c s :
  body !! i = Some m1 -> is_move m1 = true ->
  try_pattern_e body i m1 = Some (n, emitted) -> safe_window (window body i n) emitted = true ->
  same_run (matters_after i n emitted) (exec_line (window body i n) c s) (exec_line emitted c s).
Proof.
  intros Hm1 Hmv1 Hp Hsafe. unfold try_pattern_e in Hp.
  destruct (body !! (i + 1)%nat) as [load|] eqn:H1; [|done].
  destruct (body !! (i + 2)%nat) as [op|] eqn:H2; [|done].
  destruct (body !! (i + 3)%nat) as [m2|] eqn:H3; [|done].
  match type of Hp with (if ?b then _ else _) = _ => destruct b eqn:Hg; [|done] end.
  injection Hp as <- <-. guards.
  assert (window body i 4 = [m1; load; op; m2]) as Hwin.
  { replace (i + 1)%nat with (S i) in H1 by lia. replace (i + 2)%nat with (S (S i)) in H2 by lia.
    replace (i + 3)%nat with (S (S (S i))) in H3 by lia. window_is. done. }
  destruct (exec_constant_load load s) as (Hreads & Hdst & k & Hload); [by eapply all_ok|done|].
  assert (is_move load = false) as Hnm.
  { unfold is_move. match goal with Hx : eqb (opcode load) _ || _ = true |- _ =>
      apply orb_true_iff in Hx as [Hx|Hx]; apply IROpcode.eqb_eq in Hx; by rewrite Hx end. }
  rewrite Hwin in *. cbn [safe_window] in Hsafe. rewrite Hnm in Hsafe. guards.
  match goal with |- same_run _ _ (exec_line [_; ?o] _ _) => set (op' := o) in * end.
  change (exec_line [m1; load; op; m2] c s) with
    ((let* c := execute_instruction program call_rec func m1 c in
      let* c := execute_instruction program call_rec func load c in exec_line [op; m2] c) s).
  change (exec_line [load; op'] c s) with
    ((let* c := execute_instruction program call_rec func load c in exec_line [op'] c) s).
  unfold mbind. destruct (exec_move m1 c s) as (c1 & -> & Hc1 & Hw1); [by eapply all_ok|done|].
  destruct (Hload c1) as (c2 & -> & Hc2 & Hw2). destruct (Hload c) as (c' & -> & Hc' & Hw').
  assert (is_binary op (op_reg op 0) (op_reg op 1) (op_reg op 2)) as Hb
    by (apply arithmetic_binary; [by eapply all_ok|done|done]).
  assert (is_binary op' (op_reg m2 0) (op_reg m1 1) (op_reg op 2)) as Hb'
    by (eapply bin_with; [exact Hb|done|cbn; by rewrite (bin_operands _ _ _ _ Hb)]).
  eapply op_move_run.
  - exact (bin_destination Hb).
  - exact (bin_destination Hb').
  - by eapply all_ok.
  - done.
  - done.
  - eapply (bin_effect Hb); [exact Hb'|done|done| |]; rewrite ?Hw2, ?Hw1, ?Hw'; registers.
  - eapply same_control_trans; [|exact Hc']. apply same_control_sym. exact (same_control_trans _ _ _ Hc1 Hc2).
  - intros r [Hr|Hr] Hne; rewrite Hw2, !Hw1, Hw'.
    + assert (r <> op_reg m1 0 /\ r <> op_reg op 0) as (? & ?) by (split_and!; by eapply not_outside).
      registers.
    + cbn [exposed_reads] in Hr. rewrite Hreads, (bin_reads Hb'), Hdst in Hr. cbn [app] in Hr.
      apply list_elem_of_filter in Hr as [Hnr Hr].
      apply elem_of_cons in Hr as [->|Hr]; [registers|]. apply list_elem_of_singleton in Hr as ->.
      exfalso. congruence.
Qed.

Lemma moves_around_op_sound i n emitted c s :
  try_eliminate_moves_around_op body i = Some (n, emitted) ->
  safe_window (window body i n) emitted = true ->
  same_run (matters_after i n emitted) (exec_line (window body i n) c s) (exec_line emitted c s).
Proof.
  unfold try_eliminate_moves_around_op. intros Hp Hsafe.
  destruct (body !! i) as [m1|] eqn:Hm1; [|done].
  destruct (is_move m1) eqn:Hmv; cbn [negb] in Hp; [|done].
  destruct (Z.eqb_spec (op_reg m1 0) (op_reg m1 1)) as [Hself|Hself].
  - injection Hp as <- <-. rewrite (window_S _ _ _ Hm1), window_0. cbn. unfold mbind.
    destruct (exec_move m1 c s) as (c1 & -> & Hc1 & Hw1); [by eapply all_ok|done|].
    split; [done|]. split; [by apply same_control_sym|]. intros r _. rewrite Hw1. registers.
  - cbn [first_of fold_right] in Hp.
    destruct (try_pattern_a body i m1) as [?|] eqn:Ha; [simplify_eq; by eapply pattern_a_sound|].
    destruct (try_pattern_b body i m1 1) as [?|] eqn:Hb1;
      [simplify_eq; eapply (pattern_b_sound _ 1); eauto|].
    destruct (try_pattern_b body i m1 2) as [?|] eqn:Hb2;
      [simplify_eq; eapply (pattern_b_sound _ 2); eauto|].
    destruct (try_pattern_e body i m1) as [?|] eqn:He; [simplify_eq; by eapply pattern_e_sound|done].
Qed.

Lemma move_pair_sound i n emitted c s :
  try_eliminate_move_pair body i = Some (n, emitted) ->
  same_run (matters_after i n emitted) (exec_line (window body i n) c s) (exec_line emitted c s).
Proof.
  unfold try_eliminate_move_pair. intros Hp.
  destruct (body !! i) as [m1|] eqn:H0; [|done]. destruct (body !! S i) as [m2|] eqn:H1; [|done].
  match type of Hp with (if ?b then _ else _) = _ => destruct b eqn:Hg; [|done] end.
  injection Hp as <- <-. guards. window_is. cbn. unfold mbind.
  destruct (exec_move m1 c s) as (c1 & -> & Hc1 & Hw1); [by eapply all_ok|done|].
  destruct (exec_move m2 c1 s) as (c2 & -> & Hc2 & Hw2); [by eapply all_ok|done|].
  split; [done|]. split; [exact (same_control_sym _ _ (same_control_trans _ _ _ Hc1 Hc2))|].
  intros r [Hr|Hr]; [|by apply elem_of_nil in Hr]. replace (i + (2 - 1))%nat with (S i) in Hr by lia.
  assert (r <> op_reg m1 0) by (by eapply not_outside). rewrite Hw2, !Hw1. registers.
Qed.

(** *** A move after an operation *)

(** Renaming the destination changes neither the reads nor the effect. *)
Lemma with_destination op k r :
  ir_destination_operand_index (opcode op) = Some k -> ir_reads_operand op k = false ->
  operand_is_register op k = true ->
  let op' := with_register op k r in
  ir_destination_register op' = Some r
  /\ (forall x, x ∈ ir_collect_read_registers op' -> x ∈ ir_collect_read_registers op)
  /\ forall f s, effect_of program call_rec func f op' s = effect_of program call_rec func f op s.
Proof.
  intros Hk Hnr Hreg op'. unfold operand_is_register in Hreg.
  destruct (operands op !! k) as [v|] eqn:Hv; [|done]. destruct v as [d| | | | |]; try done.
  assert (operand_kind op k = IROperandKind.DST) as Hkind.
  { unfold ir_reads_operand in Hnr. rewrite Hv in Hnr. apply negb_false_iff in Hnr.
    by apply bool_decide_eq_true in Hnr. }
  assert (operands op' = <[k := IRValue.REGISTER r]> (operands op)) as Hops by done.
  pose proof (lookup_lt_Some _ _ _ Hv) as Hlt. split_and!.
  - unfold ir_destination_register. change (opcode op') with (opcode op). rewrite Hk, Hops.
    by rewrite list_lookup_insert_eq.
  - intros x. unfold ir_collect_read_registers, is_bare_return. rewrite Hops, length_insert.
    change (opcode op') with (opcode op). destruct (_ && _); [done|].
    rewrite !list_elem_of_omap. intros (n & Hn & Hx). exists n. split; [done|].
    unfold ir_reads_operand, operand_kind in *. change (opcode op') with (opcode op) in Hx. rewrite Hops in Hx.
    destruct (decide (n = k)) as [->|Hne].
    + rewrite list_lookup_insert_eq in Hx by done. by rewrite Hkind in Hx.
    + by rewrite list_lookup_insert_ne in Hx.
  - intros f s. apply effect_of_congr; [done|]. split; [done|done|]. intros n. rewrite Hops.
    unfold operand_kind. change (opcode op') with (opcode op). fold (operand_kind op n).
    destruct (decide (n = k)) as [->|Hne].
    + rewrite list_lookup_insert_eq, Hv by done. cbn. by rewrite Hkind.
    + rewrite list_lookup_insert_ne by done. unfold same_slot. destruct (operands op !! n) as [v|]; [|done].
      by destruct v.
Qed.

Lemma fold_move_sound i n emitted c s :
  try_fold_move_after_op body i = Some (n, emitted) ->
  safe_window (window body i n) emitted = true ->
  same_run (matters_after i n emitted) (exec_line (window body i n) c s) (exec_line emitted c s).
Proof.
  unfold try_fold_move_after_op. intros Hp Hsafe.
  destruct (body !! i) as [op|] eqn:H0; [|done]. destruct (body !! S i) as [m|] eqn:H1; [|done].
  destruct (ir_destination_operand_index (opcode op)) as [k|] eqn:Hk; [|done].
  match type of Hp with (if ?b then _ else _) = _ => destruct b eqn:Hg; [|done] end.
  injection Hp as <- <-. guards. revert Hsafe. window_is. cbn [safe_window]. intros Hsafe. guards.
  destruct (with_destination op k (op_reg m 0)) as (Hd' & Hreads & He); [done..|].
  assert (ir_destination_register op = Some (op_reg op k)) as Hd.
  { unfold ir_destination_register, op_reg. rewrite Hk.
    match goal with Hx : operand_is_register op k = true |- _ => unfold operand_is_register in Hx end.
    destruct (operands op !! k) as [v|]; [|done]. by destruct v. }
  assert (op_reg op k ∉ ir_collect_read_registers op) as Hself.
  { apply reads_register_one. by unfold dst_reg in *; rewrite Hd in *. }
  eapply op_move_run; [exact Hd|exact Hd'|by eapply all_ok|done|done|apply He|done|].
  intros r [Hr|Hr] Hne; (split; [|done]).
  - replace (i + (2 - 1))%nat with (S i) in Hr by lia. by eapply not_outside.
  - rewrite exposed_one in Hr. apply Hreads in Hr. by intros ->.
Qed.

(** *** Compare and branch *)

Lemma compare_effect op d x y f s :
  is_binary op d x y -> is_ordinary_compare (opcode op) = true ->
  effect_of program call_rec func f op s
  = (s, let? v := compare_op (f x) (f y) (opcode op) in Ok ([1%nat; 2%nat], E_write v)).
Proof.
  intros Hb Hc. unfold effect_of, binary_effect, val_operand, reg_operand, operand_ub.
  rewrite (bin_operands _ _ _ _ Hb). by destruct (opcode op).
Qed.

Lemma compare_neq a b :
  compare_op a b CMP_NEQ = let? v := compare_op a b CMP_EQ in Ok (bool_int (negb (get_bool v))).
Proof.
  unfold compare_op. destruct (is_nil a || is_nil b); [by destruct (is_nil a && is_nil b)|].
  destruct (is_string a || is_string b).
  { destruct (negb (is_string a) || negb (is_string b)); [done|]. cbn. by destruct (_ =? _)%string. }
  destruct (is_float a || is_float b); [cbn; by destruct (deqb _ _)|].
  destruct (get_int a); [|done]. destruct (get_int b); [|done]. cbn. by destruct (_ =? _).
Qed.

Lemma get_bool_int b : get_bool (bool_int b) = b.
Proof. by destruct b. Qed.

Lemma compare_is_bool a b op v : compare_op a b op = Ok v -> v = bool_int (get_bool v).
Proof.
  unfold compare_op. intros Hx.
  destruct (is_nil a || is_nil b); [destruct op; simplify_eq; by rewrite get_bool_int|].
  destruct (is_string a || is_string b).
  { destruct (negb (is_string a) || negb (is_string b)); [destruct op; by simplify_eq|].
    injection Hx as <-. by rewrite get_bool_int. }
  destruct (is_float a || is_float b); [injection Hx as <-; by rewrite get_bool_int|].
  destruct (get_int a); [|done]. destruct (get_int b); [|done]. cbn [obind] in Hx.
  injection Hx as <-. by rewrite get_bool_int.
Qed.

(** The fused branch is taken when the comparison was true, or false for
    BRANCH_ZERO, unless that negates an ordered comparison. *)
Lemma fused_taken cmp invert op a b :
  fused_opcode cmp invert = Some op -> is_ordered_compare cmp && invert = false ->
  fused_branch_taken a b op = let? v := compare_op a b cmp in Ok (xorb (get_bool v) invert).
Proof.
  intros Hf Ho. unfold fused_branch_taken.
  destruct cmp; try done; destruct invert; try done; cbn in Hf; injection Hf as <-; cbn [fused_comparison];
    rewrite ?compare_neq; destruct (compare_op a b _) as [v|] eqn:E; cbn [obind]; try done;
    rewrite ?get_bool_int, ?xorb_true_r, ?xorb_false_r, ?negb_involutive; done.
Qed.

Lemma branch_operands op :
  operands_ok op -> opcode op = BRANCH_ZERO \/ opcode op = BRANCH_NOT_ZERO ->
  exists l, operands op = [IRValue.REGISTER (op_reg op 0); IRValue.LABEL l].
Proof.
  intros Hok Ho. pose proof (ok_fixed _ Hok) as Hf. pose proof (ok_kind _ Hok) as Hk.
  unfold operand_kind in Hk. unfold op_reg.
  destruct (operands op) as [|a [|b [|e rest]]]; cbn [length] in Hf;
    [destruct Ho as [Ho|Ho]; rewrite Ho in Hf; vm_compute in Hf; lia..| |].
  - pose proof (Hk 0%nat _ eq_refl) as H0. pose proof (Hk 1%nat _ eq_refl) as H1.
    destruct Ho as [Ho|Ho]; rewrite Ho in H0, H1; destruct a; try done; destruct b; try done; by eexists.
  - pose proof (Hk 2%nat _ eq_refl) as H2. by destruct Ho as [Ho|Ho]; rewrite Ho in H2.
Qed.

(** A branch goes to its label or falls through and leaves the values. *)
Definition branches (taken : bool) (label : string) (c : ExecutionContext) (s : Interp)
    (x : Interp * outcome ExecutionContext) : Prop :=
  x.1 = s /\
  match x.2 with
  | Ok c' => (if taken then labels c !! label = Some (pc c') else pc c' = pc c)
             /\ labels c' = labels c /\ returned c' = returned c /\ return_value c' = return_value c
             /\ forall r, val c' r = val c r
  | Throw e => taken = true /\ labels c !! label = None
               /\ exists op, e = CompilerException OPTIMIZER_ERROR (missing_label_message op label)
  end.

Lemma apply_branch i (taken : bool) ns label c s :
  branches taken label c s (s, apply_effect i (ns, if taken then E_jump label else E_none) c).
Proof.
  split; [done|]. unfold apply_effect. cbn [fst snd]. destruct taken.
  - unfold jump_to_label. cbn. destruct (labels c !! label) eqn:E; [|by split_and!; [..|by eexists]]. cbn.
    split_and!; [done..|]. intros r. apply rd_touch_all.
  - cbn. split_and!; [done..|]. intros r. apply rd_touch_all.
Qed.

Lemma exec_branch_run op l c s :
  opcode op = BRANCH_ZERO \/ opcode op = BRANCH_NOT_ZERO ->
  operands op = [IRValue.REGISTER (op_reg op 0); IRValue.LABEL l] ->
  branches (xorb (get_bool (val c (op_reg op 0))) (eqb (opcode op) BRANCH_ZERO))
    (IRStringTable.get (strings program) l) c s (execute_instruction program call_rec func op c s).
Proof.
  intros Ho Hops. rewrite execute_effect. unfold mbind.
  assert (effect_of program call_rec func (val c) op s = (s, Ok ([0%nat],
    if xorb (get_bool (val c (op_reg op 0))) (eqb (opcode op) BRANCH_ZERO)
    then E_jump (IRStringTable.get (strings program) l) else E_none))) as ->.
  { unfold effect_of, branch_effect, val_operand, reg_operand, label_text, operand_ub, mlift.
    destruct Ho as [Ho|Ho]; rewrite Ho, Hops; cbn; unfold op_reg at 1; by destruct (get_bool _). }
  apply apply_branch.
Qed.

Lemma exec_fused_run new cmp invert x y l c s :
  fused_opcode cmp invert = Some (opcode new) -> is_ordered_compare cmp && invert = false ->
  operands new = [IRValue.REGISTER x; IRValue.REGISTER y; IRValue.LABEL l] ->
  match compare_op (val c x) (val c y) cmp with
  | Ok v => branches (xorb (get_bool v) invert) (IRStringTable.get (strings program) l) c s
              (execute_instruction program call_rec func new c s)
  | Throw e => execute_instruction program call_rec func new c s = (s, Throw e)
  end.
Proof.
  intros Hf Ho Hops. pose proof (fused_taken _ _ _ (val c x) (val c y) Hf Ho) as Ht.
  assert (effect_of program call_rec func (val c) new s = (s, let? v := compare_op (val c x) (val c y) cmp in
    Ok ([0%nat; 1%nat], if xorb (get_bool v) invert
                        then E_jump (IRStringTable.get (strings program) l) else E_none))) as He.
  { assert (effect_of program call_rec func (val c) new s = mlift (fused_effect program (val c) new) s) as ->
      by (unfold effect_of; destruct cmp; try done; destruct invert; cbn in Hf; injection Hf as <-; done).
    unfold fused_effect, val_operand, reg_operand, label_text, operand_ub, mlift. rewrite Hops. cbn. rewrite Ht.
    destruct (compare_op _ _ _) as [v|]; cbn; [|done]. by destruct (xorb _ _). }
  rewrite execute_effect. unfold mbind. rewrite He. destruct (compare_op _ _ _); cbn [obind]; [|done].
  apply apply_branch.
Qed.

Lemma fuse_sound i n emitted c s :
  try_fuse_compare_and_branch body i = Some (n, emitted) ->
  safe_window (window body i n) emitted = true ->
  same_run (matters_after i n emitted) (exec_line (window body i n) c s) (exec_line emitted c s).
Proof.
  unfold try_fuse_compare_and_branch. intros Hp Hsafe.
  destruct (body !! i) as [cmp|] eqn:H0; [|done]. destruct (body !! S i) as [br|] eqn:H1; [|done].
  match type of Hp with (if ?b then _ else _) = _ => destruct b eqn:Hg; [|done] end.
  destruct (fused_opcode _ _) as [op|] eqn:Hf; [|done]. injection Hp as <- <-. guards.
  revert Hsafe. window_is. cbn [safe_window]. intros Hsafe. guards.
  assert (is_binary cmp (op_reg cmp 0) (op_reg cmp 1) (op_reg cmp 2)) as Hb.
  { apply signature_binary; [by eapply all_ok|].
    match goal with Hx : is_ordinary_compare _ = true |- _ => revert Hx end. by destruct (opcode cmp). }
  assert (opcode br = BRANCH_ZERO \/ opcode br = BRANCH_NOT_ZERO) as Hbr.
  { match goal with Hx : eqb (opcode br) _ || _ = true |- _ => apply orb_true_iff in Hx; destruct Hx as [Ho|Ho] end;
      apply IROpcode.eqb_eq in Ho; auto. }
  destruct (branch_operands br) as [l Hl]; [by eapply all_ok|done|].
  assert (op_reg cmp 0 ∉ ir_collect_read_registers cmp) as Hself.
  { apply reads_register_one. unfold dst_reg in *. by rewrite (bin_destination Hb) in *. }
  rewrite (bin_reads Hb) in Hself.
  match goal with |- same_run _ _ (exec_line [?o] _ _) => set (new := o) in * end.
  assert (operands new = [IRValue.REGISTER (op_reg cmp 1); IRValue.REGISTER (op_reg cmp 2); IRValue.LABEL l]) as Hnew.
  { unfold new, operand_or_default. cbn. by rewrite (bin_operands _ _ _ _ Hb), Hl. }
  assert (ir_collect_read_registers new = [op_reg cmp 1; op_reg cmp 2]) as Hreads.
  { unfold ir_collect_read_registers, is_bare_return, ir_reads_operand, operand_kind. rewrite Hnew, andb_false_r.
    change (opcode new) with op. cbn [length seq omap].
    revert Hf. destruct (opcode cmp); try done; destruct (eqb (opcode br) BRANCH_ZERO); cbn; by intros [= <-]. }
  cbn [exec_line]. unfold mbind.
  pose proof (exec_write cmp _ c s (bin_destination Hb)) as Hw. rewrite (compare_effect _ _ _ _ _ _ Hb) in Hw by done.
  pose proof (exec_fused_run new (opcode cmp) (eqb (opcode br) BRANCH_ZERO) (op_reg cmp 1) (op_reg cmp 2) l c s Hf) as Hnw.
  specialize (Hnw ltac:(done) Hnew).
  destruct (compare_op _ _ _) as [v|e]; cbn [obind] in Hw; [|rewrite Hw, Hnw; split; [done|apply same_exception]].
  destruct Hw as (v' & c1 & Hv & [Hc1 Hw1] & ->). cbn in Hv. injection Hv as <-.
  pose proof (exec_branch_run br l c1 s Hbr Hl) as Hbrun.
  replace (val c1 (op_reg br 0)) with v in Hbrun by (rewrite Hw1; registers).
  set (x := execute_instruction program call_rec func br c1 s) in *.
  set (y := execute_instruction program call_rec func new c s) in *.
  destruct Hc1 as (Hpc & Hlab & Hret & Hval), Hbrun as [Hx1 Hx2], Hnw as [Hy1 Hy2].
  destruct x as [sx [cx|ex]], y as [sy [cy|ey]]; cbn in *; subst sx sy.
  - destruct Hx2 as (Hxp & Hxl & Hxr & Hxv & Hxa), Hy2 as (Hyp & Hyl & Hyr & Hyv & Hya).
    split; [done|]. cbn. split.
    + split_and!; try congruence. destruct (xorb _ _); congruence.
    + intros r Hr. rewrite Hxa, Hya, Hw1. assert (r <> op_reg cmp 0) as Hne; [|registers].
      destruct Hr as [Hr|Hr].
      * replace (i + (2 - 1))%nat with (S i) in Hr by lia. by eapply not_outside.
      * rewrite exposed_one, Hreads in Hr. by intros ->.
  - destruct Hy2 as (Ht & Hn & _), Hx2 as (Hxp & _). rewrite Ht in Hxp. congruence.
  - destruct Hx2 as (Ht & Hn & _), Hy2 as (Hyp & _). rewrite Ht in Hyp. congruence.
  - destruct Hx2 as (_ & _ & op1 & ->), Hy2 as (_ & _ & op2 & ->). split; [done|]. apply same_missing_label.
Qed.

(** *** Branches to what follows *)

Lemma only_labels_before_spec name is_ :
  only_labels_before name is_ = true ->
  exists j i, is_ !! j = Some i /\ ir_has_effect (opcode i) IR_LABEL = true
    /\ (exists v ops, operands i = v :: ops /\ IRValue.string_id v = name)
    /\ forall k i', (k < j)%nat -> is_ !! k = Some i' -> ir_has_effect (opcode i') IR_LABEL = true.
Proof.
  induction is_ as [|next is_ IH]; cbn; [done|]. intros [Hlab Ho]%andb_prop. apply orb_prop in Ho as [Ho|Ho].
  - exists 0%nat, next. destruct (operands next) as [|v ops] eqn:E; [done|]. apply Z.eqb_eq in Ho.
    split_and!; [done|done|eauto|]. intros k i' Hk. lia.
  - destruct (IH Ho) as (j & i & Hj & Hl & Hv & Hall). exists (S j), i. split_and!; [done|done|done|].
    intros [|k] i' Hk Hi'; [by simplify_eq/=|]. eapply (Hall k); [lia|done].
Qed.

(** A branch other than SWITCH has one label operand. *)
Lemma branch_target_only i id :
  operands_ok i -> ir_has_effect (opcode i) IR_BRANCH = true \/ opcode i = JUMP -> opcode i <> SWITCH ->
  IRValue.LABEL id ∈ operands i -> branch_target i = Some id.
Proof.
  intros Hok Hb Hs Hid. unfold branch_target. pose proof (ok_kind _ Hok) as Hk. unfold operand_kind in Hk.
  assert (forall k v, operands i !! k = Some v -> IRValue.is_label v = true ->
    S k = length (operands i)) as Hlast.
  { intros k v Hkv Hl. pose proof (lookup_lt_Some _ _ _ Hkv) as Hlt. pose proof (Hk _ _ Hkv) as Hm.
    destruct (decide (S k = length (operands i))) as [|Hne]; [done|exfalso].
    destruct (lookup_lt_is_Some_2 (operands i) (S k)) as [w Hw]; [lia|]. specialize (Hk _ _ Hw).
    destruct v; try done. destruct Hb as [Hb|Hb]; [|rewrite Hb in *; by destruct k as [|[|[|k]]]].
    destruct (opcode i); try done; by destruct k as [|[|[|k]]]. }
  clear Hk. generalize (@None Z). induction (operands i) as [|v ops IH]; intros acc.
  - by apply elem_of_nil in Hid.
  - cbn [fold_left]. apply elem_of_cons in Hid as [<-|Hid].
    + assert (ops = []) as -> by (specialize (Hlast 0%nat _ eq_refl eq_refl); by destruct ops). done.
    + apply IH; [done|]. intros k w Hw Hl. specialize (Hlast (S k) w Hw Hl). by injection Hlast.
Qed.

Lemma branch_keeps_state f i s s' te :
  ir_has_effect (opcode i) IR_BRANCH = true \/ opcode i = JUMP ->
  effect_of program call_rec func f i s = (s', Ok te) -> s' = s.
Proof.
  intros [Hb|Hb]; unfold effect_of; [|rewrite Hb; by intros [= <- _]].
  destruct (opcode i); try done; by intros [= <- _].
Qed.

End Windows.

(** A jump to a label that only labels separate from it. *)
Lemma next_label `{Libm} program call_rec func k i name f s s' ns l t :
  verified program func -> instructions func !! k = Some i ->
  ir_has_effect (opcode i) IR_BRANCH = true \/ opcode i = JUMP -> opcode i <> SWITCH ->
  branch_target i = Some name -> only_labels_before name (drop (S k) (instructions func)) = true ->
  effect_of program call_rec func f i s = (s', Ok (ns, E_jump l)) ->
  function_labels program func !! l = Some t ->
  exists j, t = (S k + j)%nat
    /\ forall m, (m < j)%nat -> opcode <$> instructions func !! (S k + m)%nat = Some LABEL.
Proof.
  intros Hv Hi Hb Hs Ht Hnext He Hl.
  destruct (jump_target program call_rec Hv _ _ _ _ _ _ _ Hi He) as (id & Hop & _ & Hget & _).
  assert (name = id) as ->.
  { pose proof (branch_target_only i id (verified_operands program Hv _ _ Hi) Hb Hs Hop). congruence. }
  apply only_labels_before_spec in Hnext as (j & i1 & Hj & Hlab & (v & ops & Hv1 & Hname) & Hall).
  assert (forall m y, drop (S k) (instructions func) !! m = Some y -> ir_has_effect (opcode y) IR_LABEL = true ->
    opcode <$> instructions func !! (S k + m)%nat = Some LABEL) as Hlabel.
  { intros m y Hm Hy. rewrite lookup_drop in Hm. rewrite Hm. cbn. f_equal.
    by destruct (label_operand y (verified_operands program Hv _ _ Hm) Hy) as [-> _]. }
  exists j. split.
  - rewrite lookup_drop in Hj.
    destruct (label_operand i1 (verified_operands program Hv _ _ Hj) Hlab) as (Ho & id1 & ops1 & Hops1).
    rewrite Hops1 in Hv1. injection Hv1 as <- <-. cbn in Hname. subst id1.
    destruct (function_labels_spec program func _ _ Hl) as (i2 & id2 & Hi2 & Hid2 & Hget2).
    eapply (verified_labels_unique program func t (S k + j) i2 i1 l Hv); [done|done|by exists id2|].
    exists id. unfold label_id. by rewrite Ho, Hops1.
  - intros m Hm. destruct (lookup_lt_is_Some_2 (drop (S k) (instructions func)) m) as [y Hy].
    { apply lookup_lt_Some in Hj. lia. }
    by eapply Hlabel, Hall.
Qed.

(** ** The rewrites are sound *)

(** The branch the last pattern removes does nothing: when it runs in a
    verified function and does not fail, the interpreter state and every
    register value stay, and control goes on at the next instruction or at a
    label that only labels separate from it. *)
Theorem peephole_branch_to_next_sound `{Libm} (program : IRProgram)
    (call_rec : string -> list Value -> M Interp Value) (func : IRFunction) (n : nat)
    (emitted : list IRInstruction) (c c' : ExecutionContext) (s s' : Interp) :
  verified program func -> running func c = true -> labels c = function_labels program func ->
  try_remove_branch_to_next (instructions func) (pc c) = Some (n, emitted) ->
  step program call_rec func c s = (s', Ok c') ->
  n = 1%nat /\ emitted = [] /\ s' = s /\ (forall r, rd (registers c') r = rd (registers c) r)
  /\ (pc c < pc c')%nat
  /\ forall p, (pc c < p < pc c')%nat -> opcode <$> instructions func !! p = Some LABEL.
Proof.
  intros Hv Hrun Hlab Hr Hs. destruct (running_lookup _ _ Hrun) as [Hret [i Hi]].
  unfold try_remove_branch_to_next in Hr. rewrite Hi in Hr.
  destruct (negb _ && _) eqn:Eb; [done|]. destruct (eqb (opcode i) SWITCH) eqn:Es; [done|].
  destruct (branch_target i) as [name|] eqn:Et; [|done].
  destruct (only_labels_before _ _) eqn:El; [|done]. injection Hr as <- <-.
  apply IROpcode.eqb_neq in Es.
  assert (ir_has_effect (opcode i) IR_BRANCH = true \/ opcode i = JUMP) as Hb.
  { apply andb_false_iff in Eb as [Eb%negb_false_iff|Eb%negb_false_iff]; [right; by apply IROpcode.eqb_eq|by left]. }
  destruct (step_inv _ _ _ _ _ _ _ _ Hret Hlab Hi Hs) as (te & He & _ & Hregs & Hn).
  pose proof (branch_keeps_state program call_rec func _ _ _ _ _ Hb He) as ->.
  assert (exists j, pc c' = (S (pc c) + j)%nat
    /\ forall k, (k < j)%nat -> opcode <$> instructions func !! (S (pc c) + k)%nat = Some LABEL) as (j & Hpc & Hlabels).
  { destruct te as [ns [|v|l|]]; cbn [snd] in Hn.
    - destruct Hn as (_ & -> & _). exists 0%nat. split; [lia|]. intros k Hk. lia.
    - destruct Hn as (_ & -> & _). exists 0%nat. split; [lia|]. intros k Hk. lia.
    - destruct Hn as (_ & Hl & _). eapply next_label; done.
    - apply effect_of_shape in He as [_ Ho]. cbn in Ho. by destruct Hb as [Hb|Hb]; rewrite Ho in Hb. }
  split; [done|]. split; [done|]. split; [done|]. split; [|split; [lia|]].
  - intros r. rewrite Hregs. unfold effect_regs.
    assert (ir_destination_register i = None) as ->.
    { unfold ir_destination_register. destruct Hb as [Hb|Hb]; [|by rewrite Hb]. by destruct (opcode i). }
    destruct (te.2); apply rd_touch_all.
  - intros p Hp. specialize (Hlabels (p - S (pc c))%nat ltac:(lia)).
    by replace (S (pc c) + (p - S (pc c)))%nat with p in Hlabels by lia.
Qed.

(** One of the first four patterns, which replace a window, fires. *)
Definition replaces_window (body : list IRInstruction) (i : nat) : bool :=
  match first_of (map (fun p => p body i) (take 4 patterns)) with Some _ => true | None => false end.

(** What the pattern that fired at [i] does.  A window is replaced by a line that
    does the same.  Otherwise a branch to the next instruction is removed: where
    it runs without failing, it leaves the interpreter and every value, and goes
    on at the next instruction or at a label that only labels separate from it. *)
Definition rewrite_sound `{Libm} (program : IRProgram) (call_rec : string -> list Value -> M Interp Value)
    (func : IRFunction) (i n : nat) (emitted : list IRInstruction) : Prop :=
  if replaces_window (instructions func) i then
    safe_window (window (instructions func) i n) emitted = true -> forall c s,
      same_run (matters_after func i n emitted)
        (exec_line program call_rec func (window (instructions func) i n) c s)
        (exec_line program call_rec func emitted c s)
  else
    n = 1%nat /\ emitted = [] /\ forall c c' s s',
      running func c = true -> labels c = function_labels program func -> pc c = i ->
      step program call_rec func c s = (s', Ok c') ->
      s' = s /\ (forall r, rd (registers c') r = rd (registers c) r) /\ (i < pc c')%nat
      /\ forall p, (i < p < pc c')%nat -> opcode <$> instructions func !! p = Some LABEL.

(** C8: Where one of the five peephole patterns fires in a verified function, the
    replacement is sound ([rewrite_sound]).  If the window is safe, executing the
    replacement is executing the window: both throw the same exception, or both
    go on at the same place in the same interpreter state with the same values in
    every register that is read elsewhere or by the replacement itself when it is
    reached again.  The fifth pattern, which removes a branch to the next
    instruction, has no such side condition: the branch did nothing. *)
Theorem peephole_window_sound `{Libm} (program : IRProgram)
    (call_rec : string -> list Value -> M Interp Value) (func : IRFunction) (i n : nat)
    (emitted : list IRInstruction) :
  verified program func ->
  rewrite_at (instructions func) i = Some (n, emitted) ->
  rewrite_sound program call_rec func i n emitted.
Proof.
  intros Hv Hr.
  assert (forall k j, instructions func !! k = Some j -> operands_ok j) as Hok
    by (intros k j Hj; by eapply verified_operands).
  unfold rewrite_sound, replaces_window. unfold rewrite_at, patterns in *. cbn [map first_of fold_right take] in *.
  destruct (try_fuse_compare_and_branch _ i) as [?|] eqn:E1; [simplify_eq; intros; by eapply fuse_sound|].
  destruct (try_eliminate_moves_around_op _ i) as [?|] eqn:E2; [simplify_eq; intros; by eapply moves_around_op_sound|].
  destruct (try_eliminate_move_pair _ i) as [?|] eqn:E3; [simplify_eq; intros; by eapply move_pair_sound|].
  destruct (try_fold_move_after_op _ i) as [?|] eqn:E4; [simplify_eq; intros; by eapply fold_move_sound|].
  destruct (try_remove_branch_to_next _ i) as [?|] eqn:E5; [simplify_eq|done].
  assert (n = 1%nat /\ emitted = []) as [-> ->].
  { unfold try_remove_branch_to_next in E5. repeat (case_match; try done). by simplify_eq. }
  split; [done|]. split; [done|]. intros c c' s s' Hrun Hlab <- Hs.
  by destruct (peephole_branch_to_next_sound program call_rec func 1 [] c c' s s') as (_ & _ & ?).
Qed.


(** ** The driver *)

Definition advances (t : Rewrite) : Prop := match t with Some (n, _) => (0 < n)%nat | None => True end.

Lemma first_of_advances ts : Forall advances ts -> advances (first_of ts).
Proof. induction 1 as [|t ts Ht _ IH]; [done|]. cbn. by destruct t. Qed.

Ltac advance_each := repeat match goal with
  | |- advances (match ?x with _ => _ end) => destruct x
  | |- advances (if ?x then _ else _) => destruct x
  end; try (cbn; lia); try done.

Lemma rewrite_advances body i : advances (rewrite_at body i).
Proof.
  apply first_of_advances. cbn [map patterns]. repeat constructor.
  - unfold try_fuse_compare_and_branch. advance_each.
  - unfold try_eliminate_moves_around_op. advance_each. apply first_of_advances. repeat constructor.
    + unfold try_pattern_a. advance_each.
    + unfold try_pattern_b. advance_each.
    + unfold try_pattern_b. advance_each.
    + unfold try_pattern_e. advance_each.
  - unfold try_eliminate_move_pair. advance_each.
  - unfold try_fold_move_after_op. advance_each.
  - unfold try_remove_branch_to_next. advance_each.
Qed.

Lemma peephole_from_S fuel body i :
  peephole_from (S fuel) body i =
  match body !! i with
  | None => []
  | Some instr =>
      match rewrite_at body i with
      | Some (n, emitted) => emitted ++ peephole_from fuel body (i + n)
      | None => instr :: peephole_from fuel body (S i)
      end
  end.
Proof. done. Qed.

(** Enough fuel for the rest of the body is enough. *)
Lemma peephole_from_fuel body fuel fuel' i :
  (length body - i < fuel)%nat -> (length body - i < fuel')%nat ->
  peephole_from fuel body i = peephole_from fuel' body i.
Proof.
  revert fuel' i. induction fuel as [|fuel IH]; intros [|fuel'] i Hf Hf'; try lia. cbn [peephole_from].
  destruct (body !! i) as [x|] eqn:Ei; [|done]. apply lookup_lt_Some in Ei.
  pose proof (rewrite_advances body i) as Ha. destruct (rewrite_at body i) as [[n e]|]; cbn in Ha.
  - f_equal. apply IH; lia.
  - f_equal. apply IH; lia.
Qed.

(** The driver visits the whole body: the pass emits, from the first
    position on, the replacement where a pattern fires and the instruction where
    none does, and the bound of the model is never what ends it. *)
Theorem peephole_total (func : IRFunction) (i : nat) :
  let body := instructions func in
  let from i := peephole_from (S (length body)) body i in
  instructions (peephole_optimization func).1 = from 0%nat
  /\ from i = match body !! i with
              | None => []
              | Some instr =>
                  match rewrite_at body i with
                  | Some (n, emitted) => emitted ++ from (i + n)%nat
                  | None => instr :: from (S i)
                  end
              end.
Proof.
  cbn zeta. split; [done|]. rewrite peephole_from_S at 1.
  destruct (instructions func !! i) as [x|] eqn:Ei; [|done]. apply lookup_lt_Some in Ei.
  pose proof (rewrite_advances (instructions func) i) as Ha.
  destruct (rewrite_at (instructions func) i) as [[n e]|]; cbn in Ha; f_equal; apply peephole_from_fuel; lia.
Qed.

(** ** Witnesses and counterexamples *)

Import Samples.

Abbreviation start := (mkInterp [] "" 0).
Abbreviation answer func args :=
  (call_function (H := identity_libm) Samples.program (fun _ _ => mret VNil) func args start).2.
Abbreviation optimized func := (peephole_optimization func).1.

(** x = x + 1 with its temporaries, then a jump over nothing. *)
Definition increment : IRFunction := simple_function "increment" ["x"] [
  instr MOVE [R 1; R 0];
  instr LOAD_IMM [R 2; I 1];
  instr ADD [R 3; R 1; R 2];
  instr MOVE [R 0; R 3];
  instr JUMP [L 1];
  instr LABEL [L 0];
  instr LABEL [L 1];
  instr RETURN []
] 4.

Lemma peephole_window_sound_witness :
  (exists emitted, length emitted = 2%nat /\ replaces_window (instructions increment) 0 = true
    /\ forall c s, same_run (matters_after increment 0 4 emitted)
      (exec_line (H := identity_libm) Samples.program (fun _ _ => mret VNil) increment
         (window (instructions increment) 0 4) c s)
      (exec_line (H := identity_libm) Samples.program (fun _ _ => mret VNil) increment emitted c s))
  /\ replaces_window (instructions increment) 4 = false
  /\ rewrite_sound (H := identity_libm) Samples.program (fun _ _ => mret VNil) increment 4 1 [].
Proof.
  split.
  - set (emitted := (default (0%nat, []) (rewrite_at (instructions increment) 0)).2). exists emitted.
    assert (Hw : replaces_window (instructions increment) 0 = true) by (by vm_compute).
    split; [by vm_compute|]. split; [done|].
    pose proof (@peephole_window_sound identity_libm Samples.program (fun _ _ => mret VNil) increment 0 4 emitted) as Hs.
    unfold rewrite_sound in Hs. rewrite Hw in Hs. apply Hs; by vm_compute.
  - split; [by vm_compute|]. apply (@peephole_window_sound identity_libm); by vm_compute.
Defined.

Lemma peephole_branch_to_next_sound_witness :
  exists c', step (H := identity_libm) Samples.program (fun _ _ => mret VNil) increment
      (mkContext {[0 := VInt 7]} (function_labels Samples.program increment) 4 false VNil) start = (start, Ok c')
    /\ pc c' = 6%nat /\ forall p, (4 < p < 6)%nat -> opcode <$> instructions increment !! p = Some LABEL.
Proof.
  eexists. split; [by vm_compute|]. split; [done|].
  apply (@peephole_branch_to_next_sound identity_libm Samples.program (fun _ _ => mret VNil) increment 1 []
    (mkContext {[0 := VInt 7]} (function_labels Samples.program increment) 4 false VNil)
    (mkContext {[0 := VInt 7]} (function_labels Samples.program increment) 6 false VNil) start start);
    by vm_compute.
Defined.

(** y = x after x = x + 1 in a loop, and x read nowhere else. *)
Definition last_count : IRFunction := simple_function "last_count" ["n"] [
  instr LOAD_IMM [R 1; I 0];
  instr LOAD_IMM [R 2; I 0];
  instr LOAD_IMM [R 3; I 0];
  instr LOAD_IMM [R 4; I 1];
  instr LABEL [L 0];
  instr CMP_GTE [R 5; R 3; R 0];
  instr BRANCH_NOT_ZERO [R 5; L 1];
  instr ADD [R 1; R 1; R 4];
  instr MOVE [R 2; R 1];
  instr ADD [R 3; R 3; R 4];
  instr JUMP [L 0];
  instr LABEL [L 1];
  instr MOVE [R 0; R 2];
  instr RETURN []
] 6.

(** Folding the move into the addition stops x from counting: the operation
    reads the register whose definition the pattern deletes. *)
Theorem folding_a_move_stops_a_counter :
  verified Samples.program last_count /\ verified Samples.program (optimized last_count)
  /\ answer last_count [VInt 3] = Ok (VInt 3) /\ answer (optimized last_count) [VInt 3] = Ok (VInt 1).
Proof. split_and!; by vm_compute. Qed.

(** Both operands moved through one temporary. *)
Definition doubled : IRFunction := simple_function "doubled" ["a"; "b"] [
  instr MOVE [R 2; R 0];
  instr MOVE [R 2; R 1];
  instr ADD [R 3; R 2; R 2];
  instr MOVE [R 0; R 3];
  instr RETURN []
] 4.

(** The sum of the second argument with itself becomes a sum of both. *)
Theorem shared_temporary_is_split :
  verified Samples.program doubled /\ verified Samples.program (optimized doubled)
  /\ answer doubled [VInt 3; VInt 10] = Ok (VInt 20)
  /\ answer (optimized doubled) [VInt 3; VInt 10] = Ok (VInt 13).
Proof. split_and!; by vm_compute. Qed.

Definition less : IRFunction := simple_function "less" ["a"; "b"] [
  instr CMP_LT [R 2; R 0; R 1];
  instr BRANCH_ZERO [R 2; L 1];
  instr LOAD_IMM [R 0; I 1];
  instr RETURN [];
  instr LABEL [L 1];
  instr LOAD_IMM [R 0; I 2];
  instr RETURN []
] 3.

(** NaN < 1 is false, and so is NaN >= 1. *)
Theorem inverted_comparison_takes_nan :
  verified Samples.program less /\ verified Samples.program (optimized less)
  /\ answer less [VFloat SpecFloat.S754_nan; VInt 1] = Ok (VInt 2)
  /\ answer (optimized less) [VFloat SpecFloat.S754_nan; VInt 1] = Ok (VInt 1).
Proof. split_and!; by vm_compute. Qed.

End Peephole.
