(* ===== verification/RedundantStores.v ===== *)
(** * Redundant stores

    Models [IROptimizer::eliminate_redundant_stores] (ir_optimizer.cpp) with
    [flush_pending] and [reads_pending_store]: loads and moves are held back
    until something reads them, so that one overwritten before it is read, or
    repeated, is dropped.

    Everything but the held-back loads stays, in order.  The loads themselves
    can move past a redefinition of their source, and two loads of zeros of
    different signs count as the same: the closed theorems at the end are calls
    that change. *)

From stdpp Require Import sorting.
From S2P Require Import Prelude.
From S2P Require Import Dataflow.
From S2P Require Import Double.
From S2P Require Import VariantTypes.
From S2P Require Import IROpcodes.
From S2P Require Import Globals.
From S2P Require Import IR.
From S2P Require Import Cfg.
From S2P Require Import Verifier.
From S2P Require Import Interpreter.
From S2P Require Import VerifierSound.
From S2P Require Import OptimizerBase.
From S2P Require Import Samples.

Module RedundantStores.
Import IROpcode.

(** [pending_stores]: the position of the load held back for a register. *)
Abbreviation Pending := (gmap Z nat).

(** The instructions held back, in the order of their positions. *)
Definition flush_pending (body : list IRInstruction) (pending : Pending) : list IRInstruction :=
  omap (fun idx => body !! idx) (merge_sort Nat.le (map snd (map_to_list pending))).

Definition reads_pending_store (i : IRInstruction) (pending : Pending) : bool :=
  existsb (fun reg => bool_decide (is_Some (pending !! reg))) (ir_collect_read_registers i).

(** The values loaded are the same; only immediates, floats (compared as
    numbers) and registers are. *)
Definition same_load_value (curr prev : IRValue) : bool :=
  match curr, prev with
  | IRValue.IMMEDIATE a, IRValue.IMMEDIATE b => a =? b
  | IRValue.FLOAT a, IRValue.FLOAT b => deqb a b
  | IRValue.REGISTER a, IRValue.REGISTER b => a =? b
  | _, _ => false
  end.

Definition is_identical (curr prev : IRInstruction) : bool :=
  eqb (opcode prev) (opcode curr) && (length (operands prev) =? length (operands curr))%nat
  && (if (2 <=? length (operands curr))%nat
      then match operands curr !! 1%nat, operands prev !! 1%nat with
           | Some c, Some p => same_load_value c p
           | _, _ => false
           end
      else true).

(** A load whose destination is a register. *)
Definition held_back (i : IRInstruction) : bool :=
  ir_has_effect (opcode i) IR_SIMPLE_LOAD
  && match operands i with IRValue.REGISTER _ :: _ => true | _ => false end.

(** One instruction of the loop. *)
Definition visit (body : list IRInstruction) (st : list IRInstruction * Pending) (at_ : nat * IRInstruction)
  : outcome (list IRInstruction * Pending) :=
  let '(out, pending) := st in
  let '(i, instr) := at_ in
  let? pure := ir_instruction_is_pure instr in
  if negb pure then Ok (out ++ flush_pending body pending ++ [instr], ∅)
  else
    let '(out, pending) :=
      if reads_pending_store instr pending then (out ++ flush_pending body pending, ∅) else (out, pending) in
    if held_back instr then
      let dst := op_reg instr 0 in
      match pending !! dst with
      | Some prev_idx =>
          match body !! prev_idx with
          | Some prev_instr =>
              if is_identical instr prev_instr then Ok (out, pending) else Ok (out, <[dst := i]> pending)
          | None => Ok (out, <[dst := i]> pending) (* not reached: positions of the body are held *)
          end
      | None => Ok (out, <[dst := i]> pending)
      end
    else
      let defined := dst_reg instr in
      Ok (out ++ [instr], if 0 <=? defined then delete defined pending else pending).

Fixpoint visit_all (body : list IRInstruction) (st : list IRInstruction * Pending)
    (rest : list (nat * IRInstruction)) : outcome (list IRInstruction * Pending) :=
  match rest with
  | [] => Ok st
  | x :: rest => let? st := visit body st x in visit_all body st rest
  end.

Definition eliminate_redundant_stores (func : IRFunction) : outcome (IRFunction * bool) :=
  let body := instructions func in
  if (length body =? 0)%nat then Ok (func, false)
  else
    let? st := visit_all body ([], ∅) (zip (seq 0 (length body)) body) in
    Ok (replace_instructions func (st.1 ++ flush_pending body st.2)).

(** ** What stays *)

(** Not a load. *)
Definition kept (i : IRInstruction) : Prop := held_back i = false.
#[export] Instance kept_dec i : Decision (kept i) := decide (held_back i = false).

(** Only loads of the body are held back. *)
Definition pending_loads (body : list IRInstruction) (pending : Pending) : Prop :=
  forall r idx, pending !! r = Some idx -> exists i, body !! idx = Some i /\ held_back i = true.

Lemma no_pending body : pending_loads body ∅.
Proof. intros r idx Hr. by rewrite lookup_empty in Hr. Qed.

Lemma flush_loads body pending i :
  pending_loads body pending -> i ∈ flush_pending body pending -> held_back i = true.
Proof.
  intros Hp Hi. unfold flush_pending in Hi. apply list_elem_of_omap in Hi as (idx & Hidx & Hb).
  rewrite merge_sort_Permutation in Hidx. apply list_elem_of_fmap in Hidx as ([r k] & -> & Hk).
  apply elem_of_map_to_list in Hk. destruct (Hp _ _ Hk) as (j & Hj & Hh). cbn in Hb. congruence.
Qed.

Lemma flush_kept body pending : pending_loads body pending -> filter kept (flush_pending body pending) = [].
Proof.
  intros Hp. apply elem_of_nil_inv. intros i [Hk Hi]%list_elem_of_filter.
  apply (flush_loads _ _ _ Hp) in Hi. unfold kept in Hk. congruence.
Qed.

Lemma pending_insert body pending r i instr :
  pending_loads body pending -> body !! i = Some instr -> held_back instr = true ->
  pending_loads body (<[r := i]> pending).
Proof.
  intros Hp Hi Hh r' idx. rewrite lookup_insert. case_decide; [intros [= <-]; eauto|apply Hp].
Qed.

Lemma visit_kept body out pending i instr out' pending' :
  pending_loads body pending -> body !! i = Some instr ->
  visit body (out, pending) (i, instr) = Ok (out', pending') ->
  pending_loads body pending' /\ filter kept out' = filter kept out ++ filter kept [instr].
Proof.
  intros Hp Hi Hv. unfold visit in Hv.
  destruct (ir_instruction_is_pure instr) as [pure|]; cbn [obind] in Hv; [|done].
  pose proof (no_pending body) as He.
  destruct pure; cbn [negb] in Hv.
  - assert (exists out1 pending1, (if reads_pending_store instr pending
        then (out ++ flush_pending body pending, ∅) else (out, pending)) = (out1, pending1)
      /\ pending_loads body pending1 /\ filter kept out1 = filter kept out) as (out1 & pending1 & E & Hp1 & Ho1).
    { destruct (reads_pending_store instr pending); do 2 eexists; (split; [done|]); [|done].
      split; [done|]. by rewrite filter_app, flush_kept, app_nil_r. }
    rewrite E in Hv. destruct (held_back instr) eqn:Eh.
    + assert (filter kept [instr] = []) as -> by (unfold kept; rewrite filter_cons_False; [done|congruence]).
      rewrite app_nil_r. pose proof (pending_insert _ _ (op_reg instr 0) _ _ Hp1 Hi Eh) as Hins.
      destruct (pending1 !! op_reg instr 0) as [k|]; [destruct (body !! k); [destruct (is_identical _ _)|]|];
        by simplify_eq.
    + injection Hv as <- <-. split; [|by rewrite filter_app, Ho1].
      destruct (0 <=? dst_reg instr); [|done]. intros r idx [_ Hr]%lookup_delete_Some. by apply Hp1 in Hr.
  - injection Hv as <- <-. split; [done|]. by rewrite !filter_app, flush_kept.
Qed.

Lemma visit_all_kept body rest out pending st :
  pending_loads body pending -> (forall k i, (k, i) ∈ rest -> body !! k = Some i) ->
  visit_all body (out, pending) rest = Ok st ->
  pending_loads body st.2 /\ filter kept st.1 = filter kept out ++ filter kept (map snd rest).
Proof.
  revert out pending. induction rest as [|[k i] rest IH]; intros out pending Hp Hr Hv; cbn [visit_all] in Hv.
  - injection Hv as <-. by rewrite app_nil_r.
  - destruct (visit body (out, pending) (k, i)) as [[out1 pending1]|] eqn:E; cbn [obind] in Hv; [|done].
    destruct (visit_kept _ _ _ _ _ _ _ Hp (Hr k i (list_elem_of_here _ _)) E) as [Hp1 Ho1].
    assert (forall k i, (k, i) ∈ rest -> body !! k = Some i) as Hr' by (intros; apply Hr; by right).
    destruct (IH _ _ Hp1 Hr' Hv) as [Hp2 Ho2]. split; [done|].
    rewrite Ho2, Ho1, <- app_assoc, <- filter_app. done.
Qed.

Lemma zip_positions {A} (l : list A) k x : (k, x) ∈ zip (seq 0 (length l)) l -> l !! k = Some x.
Proof.
  intros Hk. apply list_elem_of_lookup in Hk as [n Hn]. apply lookup_zip_Some in Hn as [Hs Hx].
  apply lookup_seq in Hs as [-> _]. done.
Qed.

(** Dropping redundant stores touches nothing but the loads it holds back:
    the other instructions stay, in their order, and every load left comes from
    the body. *)
Theorem redundant_stores_keep_the_rest (func func' : IRFunction) (changed : bool) :
  eliminate_redundant_stores func = Ok (func', changed) ->
  filter kept (instructions func') = filter kept (instructions func).
Proof.
  unfold eliminate_redundant_stores. intros He. destruct (_ =? 0)%nat; [by simplify_eq|].
  destruct (visit_all _ _ _) as [st|] eqn:Ev; cbn [obind] in He; [|done]. injection He as <- _. cbn.
  destruct (visit_all_kept (instructions func) _ [] ∅ st (no_pending _) (zip_positions _) Ev) as [Hp Ho].
  rewrite filter_app, flush_kept, app_nil_r, Ho by done. cbn.
  change (map snd ?l) with (l.*2). by rewrite snd_zip by (by rewrite length_seq).
Qed.

(** ** Witness and counterexamples *)

Import Samples.

(** The first load is overwritten unread. *)
Definition overwritten : IRFunction := simple_function "overwritten" ["a"] [
  instr LOAD_IMM [R 1; I 1];
  instr LOAD_IMM [R 1; I 2];
  instr ADD [R 0; R 0; R 1];
  instr RETURN []
] 2.

Lemma redundant_stores_keep_the_rest_witness :
  exists func', eliminate_redundant_stores overwritten = Ok (func', true)
    /\ length (instructions func') = 3%nat
    /\ filter kept (instructions func') = filter kept (instructions overwritten).
Proof.
  eexists. split; [by vm_compute|]. split; [done|].
  apply redundant_stores_keep_the_rest with (changed := true). by vm_compute.
Defined.

Abbreviation start := (mkInterp [] "" 0).
Abbreviation answer func args :=
  (call_function (H := identity_libm) Samples.program (fun _ _ => mret VNil) func args start).2.
Abbreviation optimized func := (let? r := eliminate_redundant_stores func in Ok r.1).

(** The old value of a is copied, a changes, the copy is returned. *)
Definition old_value : IRFunction := simple_function "old_value" ["a"] [
  instr MOVE [R 1; R 0];
  instr ADD [R 0; R 0; R 0];
  instr MOVE [R 0; R 1];
  instr RETURN []
] 2.

(** The copy moves below the addition. *)
Theorem delayed_copy_sees_the_new_value :
  verified Samples.program old_value
  /\ answer old_value [VInt 3] = Ok (VInt 3)
  /\ (let? f := optimized old_value in answer f [VInt 3]) = Ok (VInt 6).
Proof. split_and!; by vm_compute. Qed.

Definition two_zeros : IRFunction := simple_function "two_zeros" [] [
  instr LOAD_FLOAT_IMM [R 0; IRValue.fimm (SpecFloat.S754_zero true)];
  instr LOAD_FLOAT_IMM [R 0; IRValue.fimm (SpecFloat.S754_zero false)];
  instr RETURN []
] 1.

(** 0.0 is dropped because -0.0 is loaded already. *)
Theorem zero_loses_its_sign :
  verified Samples.program two_zeros
  /\ answer two_zeros [] = Ok (VFloat (SpecFloat.S754_zero false))
  /\ (let? f := optimized two_zeros in answer f []) = Ok (VFloat (SpecFloat.S754_zero true)).
Proof. split_and!; by vm_compute. Qed.

End RedundantStores.
