(* ===== verification/ScopeMarks.v ===== *)
(** * Scope marks

    Models [IROptimizer::tighten_scope_marks] (ir_optimizer.cpp): code hoisted
    out of a loop lands between the loop's SCOPE_MARK and its label; the mark
    slides down to the label.  Nothing else moves, and control-flow
    instructions keep their positions. *)

From S2P Require Import Prelude.
From S2P Require Import Double.
From S2P Require Import VariantTypes.
From S2P Require Import IROpcodes.
From S2P Require Import Globals.
From S2P Require Import IR.
From S2P Require Import Samples.

Module ScopeMarks.
Import IROpcode.

(** The inner loop stops at a label, at another scope instruction or at control
    flow. *)
Definition stops (i : IRInstruction) : bool :=
  match opcode i with
  | LABEL | SCOPE_MARK | SCOPE_RELEASE => true
  | op => ir_is_control_flow op
  end.

(** The distance from the front to where the inner loop stops. *)
Fixpoint span (is_ : list IRInstruction) : nat :=
  match is_ with
  | [] => 0
  | i :: is_ => if stops i then 0 else S (span is_)
  end.

(** What the mark at position [i] slides over: [label - (i + 1)] instructions,
    none when the search did not end at a label. *)
Definition slide (body : list IRInstruction) (i : nat) : nat :=
  let distance := span (drop (S i) body) in
  match body !! (S i + distance)%nat with
  | Some target => if eqb (opcode target) LABEL then distance else 0
  | None => 0
  end.

(** [erase] at [i], then [insert] at [label - 1]. *)
Definition move_down (body : list IRInstruction) (i distance : nat) (mark : IRInstruction) : list IRInstruction :=
  take i body ++ take distance (drop (S i) body) ++ [mark] ++ drop (S i + distance) body.

Definition tighten_at (body : list IRInstruction) (i : nat) : list IRInstruction * bool :=
  match body !! i with
  | Some mark =>
      if negb (eqb (opcode mark) SCOPE_MARK) then (body, false)
      else match slide body i with
           | O => (body, false)
           | distance => (move_down body i distance mark, true)
           end
  | None => (body, false)
  end.

(** The positions 0 .. size - 2 in turn; the size does not change. *)
Fixpoint tighten_from (body : list IRInstruction) (changed : bool) (positions : list nat)
  : list IRInstruction * bool :=
  match positions with
  | [] => (body, changed)
  | i :: positions =>
      let '(body, here) := tighten_at body i in
      tighten_from body (changed || here) positions
  end.

Definition tighten_scope_marks (func : IRFunction) : IRFunction * bool :=
  let body := instructions func in
  let '(fresh, changed) := tighten_from body false (seq 0 (length body - 1)) in
  (with_instructions func fresh, changed).

(** ** What moves *)

(** Two bodies that differ by a mark slid over straight-line code. *)
Inductive slid : list IRInstruction -> list IRInstruction -> Prop :=
  | slid_refl body : slid body body
  | slid_step before over mark after body' :
      opcode mark = SCOPE_MARK -> Forall (fun i => stops i = false) over ->
      slid (before ++ over ++ mark :: after) body' ->
      slid (before ++ mark :: over ++ after) body'.

Lemma span_spec is_ : Forall (fun i => stops i = false) (take (span is_) is_).
Proof.
  induction is_ as [|i is_ IH]; cbn; [done|]. destruct (stops i) eqn:E; cbn; [done|]. by constructor.
Qed.

Lemma slide_spec body i : exists d, slide body i = d /\ Forall (fun i => stops i = false) (take d (drop (S i) body)).
Proof.
  exists (slide body i). split; [done|]. unfold slide. pose proof (span_spec (drop (S i) body)) as Hs.
  destruct (body !! _); [destruct (eqb _ _)|]; done.
Qed.

Lemma tighten_at_slid body i : slid body (tighten_at body i).1.
Proof.
  unfold tighten_at. destruct (body !! i) as [mark|] eqn:Ei; [|constructor].
  destruct (eqb (opcode mark) SCOPE_MARK) eqn:Eo; [|constructor]. cbn [negb].
  destruct (slide_spec body i) as (d & Hd & Hover). rewrite Hd. destruct d as [|d]; [constructor|].
  cbn [fst]. remember (S d) as n. clear Heqn.
  assert (body = take i body ++ mark :: take n (drop (S i) body) ++ drop (S i + n) body) as Hb.
  { rewrite <- drop_drop, take_drop. by rewrite (take_drop_middle _ _ _ Ei). }
  rewrite Hb at 1. apply slid_step; [by apply IROpcode.eqb_eq|done|]. unfold move_down. constructor.
Qed.

Lemma slid_trans a b c : slid a b -> slid b c -> slid a c.
Proof. induction 1; [done|]. intros Hc. apply slid_step; auto. Qed.

Lemma tighten_from_slid body changed positions : slid body (tighten_from body changed positions).1.
Proof.
  revert body changed. induction positions as [|i positions IH]; intros body changed; [constructor|].
  cbn. pose proof (tighten_at_slid body i) as Hs. destruct (tighten_at body i) as [body' here].
  eapply slid_trans; [exact Hs|apply IH].
Qed.

Definition is_mark (i : IRInstruction) : Prop := opcode i = SCOPE_MARK.
#[export] Instance is_mark_dec i : Decision (is_mark i) := decide (opcode i = SCOPE_MARK).

(** The positions of the instructions control depends on. *)
Definition control_at (body : list IRInstruction) (p : nat) : option IRInstruction :=
  match body !! p with
  | Some i => if ir_is_control_flow (opcode i) then Some i else None
  | None => None
  end.

Lemma slid_length body body' : slid body body' -> length body = length body'.
Proof.
  induction 1 as [|b o m a body' _ _ _ IH]; [done|]. rewrite <- IH, !length_app. cbn. rewrite length_app. lia.
Qed.

Lemma slid_rest body body' :
  slid body body' -> filter (fun i => ~ is_mark i) body' = filter (fun i => ~ is_mark i) body.
Proof.
  induction 1 as [|b o m a body' Hm _ _ IH]; [done|]. rewrite IH, !filter_app, !filter_cons, filter_app.
  destruct (decide (~ is_mark m)) as [Hn|]; [|done]. by destruct Hn.
Qed.

Lemma slid_marks body body' : slid body body' -> filter is_mark body' = filter is_mark body.
Proof.
  induction 1 as [|b o m a body' Hm Ho _ IH]; [done|]. rewrite IH, !filter_app, !filter_cons, filter_app.
  assert (filter is_mark o = []) as ->; [|done].
  apply elem_of_nil_inv. intros i [Hi Hin]%list_elem_of_filter. rewrite Forall_forall in Ho.
  specialize (Ho i Hin). unfold stops in Ho. by rewrite Hi in Ho.
Qed.

Lemma stops_control i : stops i = false -> ir_is_control_flow (opcode i) = false.
Proof. unfold stops. by destruct (opcode i). Qed.

Lemma control_at_straight over after p :
  Forall (fun i => ir_is_control_flow (opcode i) = false) over ->
  control_at (over ++ after) p = if (p <? length over)%nat then None else control_at after (p - length over).
Proof.
  intros Ho. unfold control_at. destruct (Nat.ltb_spec p (length over)) as [Hlt|].
  - rewrite lookup_app_l by done. destruct (lookup_lt_is_Some_2 _ _ Hlt) as [i Hi]. rewrite Hi.
    by rewrite (Forall_lookup_1 _ _ _ _ Ho Hi).
  - by rewrite lookup_app_r.
Qed.

Lemma control_at_app a b b' p :
  (forall q, control_at b q = control_at b' q) -> control_at (a ++ b) p = control_at (a ++ b') p.
Proof.
  intros Hb. unfold control_at in *. destruct (Nat.ltb_spec p (length a)).
  - by rewrite !lookup_app_l.
  - rewrite !lookup_app_r by done. apply Hb.
Qed.

Lemma slid_control body body' : slid body body' -> forall p, control_at body' p = control_at body p.
Proof.
  induction 1 as [|b o m a body' Hm Ho _ IH]; intros p; [done|]. rewrite IH. apply control_at_app.
  assert (Forall (fun i => ir_is_control_flow (opcode i) = false) o) as Ho'
    by (eapply Forall_impl; [exact Ho|apply stops_control]).
  assert (ir_is_control_flow (opcode m) = false) as Hm' by (by rewrite Hm).
  intros q. change (m :: o ++ a) with ((m :: o) ++ a). replace (o ++ m :: a) with ((o ++ [m]) ++ a) by (by rewrite <- app_assoc).
  rewrite !control_at_straight by (rewrite ?Forall_app; auto). rewrite length_app. cbn [length].
  by replace (length o + 1)%nat with (S (length o)) by lia.
Qed.

(** Sliding the scope marks moves nothing else: the body keeps its length, the
    marks and the other instructions keep their orders, and every label, branch
    and terminator keeps its position. *)
Theorem tighten_scope_marks_moves_only_marks (func : IRFunction) (p : nat) :
  let body := instructions func in
  let body' := instructions (tighten_scope_marks func).1 in
  length body' = length body
  /\ filter is_mark body' = filter is_mark body
  /\ filter (fun i => ~ is_mark i) body' = filter (fun i => ~ is_mark i) body
  /\ control_at body' p = control_at body p.
Proof.
  cbn zeta. unfold tighten_scope_marks.
  pose proof (tighten_from_slid (instructions func) false (seq 0 (length (instructions func) - 1))) as Hs.
  destruct (tighten_from _ _ _) as [fresh changed]. cbn in *.
  split_and!; [by rewrite (slid_length _ _ Hs)|by apply slid_marks|by apply slid_rest|by apply slid_control].
Qed.

(** A mark above two hoisted loads goes down to the loop. *)
Example tighten_scoped :
  let body := [instr SCOPE_MARK [IRValue.imm 7]; instr LOAD_IMM [IRValue.reg 1; IRValue.imm 5];
               instr LOAD_IMM [IRValue.reg 2; IRValue.imm 6]; instr LABEL [IRValue.label 0];
               instr SCOPE_RELEASE [IRValue.imm 7]; instr JUMP [IRValue.label 0]] in
  map opcode (instructions (tighten_scope_marks (simple_function "f" [] body 3)).1)
  = [LOAD_IMM; LOAD_IMM; SCOPE_MARK; LABEL; SCOPE_RELEASE; JUMP].
Proof. by vm_compute. Qed.

End ScopeMarks.
