(* ===== verification/Loops.v ===== *)
(** * Loop-invariant code motion

    Models [IROptimizer::loop_invariant_code_motion] (ir_optimizer.cpp) with
    [identify_loops], [is_loop_invariant], [can_safely_hoist],
    [is_unconditional_in_loop], [loop_only_reads_host] and the syscall
    classification.

    [identify_loops] also takes a LABEL for a jump to itself, and the first edge
    found fixes the extent of a loop.  The label comes before the jump back to
    it, so in a verified function every loop found is its label alone and the
    pass hoists nothing ([licm_changes_nothing]). *)

From S2P Require Import Prelude.
From S2P Require Import Dataflow.
From S2P Require Import Double.
From S2P Require Import VariantTypes.
From S2P Require Import IROpcodes.
From S2P Require Import Globals.
From S2P Require Import IR.
From S2P Require Import Cfg.
From S2P Require Import Verifier.
From S2P Require Import VerifierFacts.
From S2P Require Import Interpreter.
From S2P Require Import Machine.
From S2P Require Import VerifierSound.
From S2P Require Import Positions.
From S2P Require Import OptimizerBase.
From S2P Require Import UnreachableCode.
From S2P Require Import Samples.

Module Loops.
Import IROpcode Analysis.

Record LoopInfo := mkLoop {
  header_idx : nat;
  end_idx : nat;
  header_label : Z;
  end_label : Z;
  back_edges : list nat
}.

(** The label of the first branch from [is_] on whose last operand is one. *)
Fixpoint first_exit (is_ : list IRInstruction) : Z :=
  match is_ with
  | [] => IRStringTable.INVALID_ID
  | i :: is_ =>
      if ir_has_effect (opcode i) IR_BRANCH
      then match last (operands i) with
           | Some (IRValue.LABEL id) => id
           | _ => first_exit is_
           end
      else first_exit is_
  end.

(** A loop with this header gets one more back edge; otherwise the loop is new. *)
Fixpoint add_edge (loops : list LoopInfo) (fresh : LoopInfo) (i : nat) : list LoopInfo :=
  match loops with
  | [] => [fresh]
  | loop :: loops =>
      if (header_idx loop =? header_idx fresh)%nat
      then mkLoop (header_idx loop) (end_idx loop) (header_label loop) (end_label loop) (back_edges loop ++ [i]) :: loops
      else loop :: add_edge loops fresh i
  end.

Definition visit_operand (func : IRFunction) (i : nat) (loops : list LoopInfo) (operand : IRValue) : list LoopInfo :=
  match operand with
  | IRValue.LABEL target_label =>
      match labels_of func !! target_label with
      | Some header =>
          if (header <=? i)%nat then
            let exit_label := first_exit (take (i - header) (drop header (instructions func))) in
            let exit_idx :=
              if exit_label =? IRStringTable.INVALID_ID then S i
              else default (S i) (labels_of func !! exit_label) in
            add_edge loops (mkLoop header exit_idx target_label exit_label [i]) i
          else loops
      | None => loops
      end
  | _ => loops
  end.

Definition visit_instruction (func : IRFunction) (loops : list LoopInfo) (at_ : nat * IRInstruction) : list LoopInfo :=
  if ir_is_control_flow (opcode at_.2)
  then fold_left (visit_operand func at_.1) (operands at_.2) loops
  else loops.

Definition identify_loops (func : IRFunction) : list LoopInfo :=
  fold_left (visit_instruction func) (zip (seq 0 (length (instructions func))) (instructions func)) [].

(** *** Syscalls that only read (numbers of syscalls.h) *)

Definition ECALL_ARRAY_SIZE : Z := 523.
Definition ECALL_DICTIONARY_OPS : Z := 524.
Definition ECALL_STRING_SIZE : Z := 528.

Module Dictionary_Op.
Definition GET : Z := 0.
Definition HAS : Z := 3.
Definition GET_KEYS : Z := 4.
Definition GET_VALUES : Z := 5.
Definition GET_SIZE : Z := 6.
End Dictionary_Op.

Definition one_of (z : Z) (zs : list Z) : bool := existsb (Z.eqb z) zs.

(** The syscall number, and the dictionary operation where there is one. *)
Definition syscall_number (i : IRInstruction) : option Z :=
  if eqb (opcode i) CALL_SYSCALL
  then match operands i !! 1%nat with Some (IRValue.IMMEDIATE n) => Some n | _ => None end
  else None.

Definition dictionary_operation (i : IRInstruction) : option Z :=
  match operands i !! 2%nat with Some (IRValue.IMMEDIATE n) => Some n | _ => None end.

Definition syscall_only_reads (i : IRInstruction) : bool :=
  match syscall_number i with
  | None => false
  | Some n =>
      if one_of n [ECALL_ARRAY_SIZE; ECALL_STRING_SIZE] then true
      else if n =? ECALL_DICTIONARY_OPS then
        match dictionary_operation i with
        | Some op => one_of op [Dictionary_Op.GET_SIZE; Dictionary_Op.HAS; Dictionary_Op.GET;
                                Dictionary_Op.GET_KEYS; Dictionary_Op.GET_VALUES]
        | None => false
        end
      else false
  end.

Definition syscall_is_hoistable_query (i : IRInstruction) : bool :=
  syscall_only_reads i &&
  match syscall_number i with
  | None => false
  | Some n =>
      if one_of n [ECALL_ARRAY_SIZE; ECALL_STRING_SIZE] then true
      else if n =? ECALL_DICTIONARY_OPS then one_of (op_imm i 2) [Dictionary_Op.GET_SIZE; Dictionary_Op.HAS]
      else false
  end.

(** The instructions from the header to the end of a loop, with their
    positions. *)
Definition loop_body (func : IRFunction) (loop : LoopInfo) (first : nat) : list (nat * IRInstruction) :=
  omap (fun i => (fun instr => (i, instr)) <$> instructions func !! i) (seq first (end_idx loop - first)).

Fixpoint only_reads (is_ : list IRInstruction) : outcome bool :=
  match is_ with
  | [] => Ok true
  | i :: is_ =>
      if ir_is_control_flow (opcode i) || eqb (opcode i) SCOPE_MARK || eqb (opcode i) SCOPE_RELEASE
         || syscall_only_reads i
      then only_reads is_
      else let? pure := ir_instruction_is_pure i in
           if pure then only_reads is_ else Ok false
  end.

Definition loop_only_reads_host (loop : LoopInfo) (func : IRFunction) : outcome bool :=
  only_reads (map snd (loop_body func loop (header_idx loop))).

Definition builds_from_inputs (op : IROpcode) : bool :=
  match op with
  | VGET_INLINE | MAKE_VECTOR2 | MAKE_VECTOR3 | MAKE_VECTOR4 | MAKE_VECTOR2I | MAKE_VECTOR3I | MAKE_VECTOR4I => true
  | _ => false
  end.

Definition is_register_in (regs : gset Z) (i : IRInstruction) (n : nat) : bool :=
  bool_decide (op_reg i n ∈ regs).

(** No call and no store to the same global in the loop. *)
Definition global_is_stable (func : IRFunction) (loop : LoopInfo) (global : Z) : bool :=
  forallb (fun at_ =>
    let body := at_.2 in
    negb (ir_has_effect (opcode body) IR_CALL)
    && negb (eqb (opcode body) STORE_GLOBAL
             && match operands body !! 0%nat with Some (IRValue.IMMEDIATE g) => g =? global | _ => false end))
    (loop_body func loop (header_idx loop)).

Definition is_loop_invariant (i : IRInstruction) (loop : LoopInfo) (func : IRFunction)
    (invariant_regs : gset Z) (loop_reads_only : bool) : bool :=
  if loop_reads_only && syscall_is_hoistable_query i then
    forallb (fun n => match operands i !! n with
                      | Some (IRValue.REGISTER r) => bool_decide (r ∈ invariant_regs)
                      | _ => true
                      end) (seq 2 (length (operands i) - 2))
  else match opcode i, operands i !! 1%nat with
  | LOAD_IMM, _ | LOAD_FLOAT_IMM, _ | LOAD_BOOL, _ | LOAD_STRING, _ => true
  | LOAD_GLOBAL, Some (IRValue.IMMEDIATE global) => global_is_stable func loop global
  | MOVE, Some (IRValue.REGISTER src) => bool_decide (src ∈ invariant_regs)
  | op, _ =>
      builds_from_inputs op
      && forallb (fun n => negb (ir_reads_operand i n) || is_register_in invariant_regs i n)
           (seq 0 (length (operands i)))
  end.

(** Between the header and the instruction: no label, no terminator, and only
    branches that leave the loop. *)
Definition is_unconditional_in_loop (instr_idx : nat) (loop : LoopInfo) (func : IRFunction) : bool :=
  forallb (fun between =>
    if ir_has_effect (opcode between) IR_LABEL then false
    else if ir_has_effect (opcode between) IR_TERMINATOR then false
    else if negb (ir_has_effect (opcode between) IR_BRANCH) then true
    else match last (operands between) with
         | Some (IRValue.LABEL id) =>
             match labels_of func !! id with
             | Some target_idx => (target_idx <? header_idx loop)%nat || (end_idx loop <=? target_idx)%nat
             | None => false
             end
         | _ => false
         end)
    (omap (fun i => instructions func !! i) (seq (S (header_idx loop)) (instr_idx - S (header_idx loop)))).

Definition can_safely_hoist (i : IRInstruction) (instr_idx : nat) (loop : LoopInfo) (func : IRFunction) : bool :=
  let dst := dst_reg i in
  if dst <? 0 then false
  else
    let src_regs := ir_collect_read_registers i in
    forallb (fun at_ =>
      let '(k, loop_instr) := at_ in
      if (k =? instr_idx)%nat then true
      else
        let modified := dst_reg loop_instr in
        negb ((0 <=? modified) && one_of modified src_regs)
        && negb (modified =? dst)
        && negb ((k <? instr_idx)%nat && one_of dst (ir_collect_read_registers loop_instr)))
      (loop_body func loop (header_idx loop))
    && is_unconditional_in_loop instr_idx loop func.

(** ** Hoisting *)

(** [invariant_regs] and [invariant_instrs]. *)
Abbreviation Invariant := (gset Z * gset nat)%type.

(** Parameters and what is defined before the loop. *)
Definition seed_registers (func : IRFunction) (loop : LoopInfo) : gset Z :=
  list_to_set (map Z.of_nat (seq 0 (length (parameters func))))
  ∪ list_to_set (filter (fun r => 0 <= r) (map dst_reg (take (header_idx loop) (instructions func)))).

Definition visit_invariant (func : IRFunction) (loop : LoopInfo) (reads_only : bool)
    (st : Invariant * bool) (at_ : nat * IRInstruction) : Invariant * bool :=
  let '((regs, instrs), changed) := st in
  let '(i, instr) := at_ in
  if bool_decide (i ∈ instrs) then st
  else if ir_is_control_flow (opcode instr) then st
  else if is_loop_invariant instr loop func regs reads_only && can_safely_hoist instr i loop func
  then ((if 0 <=? dst_reg instr then {[dst_reg instr]} ∪ regs else regs, {[i]} ∪ instrs), true)
  else st.

(** Rounds until none finds a new instruction; every round but the last finds
    one, so the length of the function bounds them. *)
Fixpoint find_invariant (fuel : nat) (func : IRFunction) (loop : LoopInfo) (reads_only : bool) (st : Invariant)
  : outcome Invariant :=
  match fuel with
  | O => Throw OutOfFuel
  | S fuel =>
      let '(st, changed) :=
        fold_left (visit_invariant func loop reads_only) (loop_body func loop (S (header_idx loop))) (st, false) in
      if changed then find_invariant fuel func loop reads_only st else Ok st
  end.

(** The invariant instructions go in front of the header's label. *)
Definition hoist (func : IRFunction) (loop : LoopInfo) (invariant_instrs : gset nat) : list IRInstruction :=
  let positions := zip (seq 0 (length (instructions func))) (instructions func) in
  let is_hoisted (at_ : nat * IRInstruction) :=
    (header_idx loop <=? at_.1)%nat && (at_.1 <? end_idx loop)%nat && bool_decide (at_.1 ∈ invariant_instrs) in
  let hoisted := map snd (List.filter is_hoisted positions) in
  let remaining := map snd (List.filter (fun at_ => negb (is_hoisted at_)) positions) in
  flat_map (fun i =>
    (if eqb (opcode i) LABEL
        && match operands i with v :: _ => IRValue.string_id v =? header_label loop | [] => false end
     then hoisted else []) ++ [i]) remaining.

Definition is_nested (loops : list LoopInfo) (loop : LoopInfo) : bool :=
  existsb (fun other => (header_idx other <? header_idx loop)%nat && (header_idx loop <? end_idx other)%nat) loops.

Definition hoist_loop (loops : list LoopInfo) (st : IRFunction * bool) (loop : LoopInfo) : outcome (IRFunction * bool) :=
  let '(func, changed) := st in
  if is_nested loops loop then Ok st
  else
    let? reads_only := loop_only_reads_host loop func in
    let? inv := find_invariant (S (length (instructions func))) func loop reads_only (seed_registers func loop, ∅) in
    if (size inv.2 =? 0)%nat then Ok st
    else let '(func, differs) := replace_instructions func (hoist func loop inv.2) in Ok (func, differs || changed).

Fixpoint hoist_loops (loops : list LoopInfo) (st : IRFunction * bool) (rest : list LoopInfo)
  : outcome (IRFunction * bool) :=
  match rest with
  | [] => Ok st
  | loop :: rest => let? st := hoist_loop loops st loop in hoist_loops loops st rest
  end.

Definition loop_invariant_code_motion (func : IRFunction) : outcome (IRFunction * bool) :=
  let loops := identify_loops func in
  if (length loops =? 0)%nat then Ok (func, false) else hoist_loops loops (func, false) loops.

(** ** Every loop found is its label *)

Lemma label_index_spec is_ k acc id h :
  label_index is_ k acc !! id = Some h ->
  acc !! id = Some h \/
  exists i v ops, (k <= h)%nat /\ is_ !! (h - k)%nat = Some i /\ ir_has_effect (opcode i) IR_LABEL = true
    /\ operands i = v :: ops /\ IRValue.string_id v = id.
Proof.
  revert k acc. induction is_ as [|x is_ IH]; intros k acc; cbn [label_index]; [by left|].
  intros [Ha|(i & v & ops & Hle & Hi & Hrest)]%IH.
  - destruct (ir_has_effect (opcode x) IR_LABEL) eqn:Ex; [|by left].
    destruct (operands x) as [|v ops] eqn:Ox; [by left|].
    destruct (acc !! IRValue.string_id v) eqn:Ev; [by left|]. rewrite lookup_insert in Ha.
    case_decide as Hd; [|by left]. injection Ha as ->. right. exists x, v, ops. rewrite Nat.sub_diag. done.
  - right. exists i, v, ops. split; [lia|]. replace (h - k)%nat with (S (h - S k)) by lia. done.
Qed.

Lemma labels_of_spec func id h :
  labels_of func !! id = Some h ->
  exists i v ops, instructions func !! h = Some i /\ ir_has_effect (opcode i) IR_LABEL = true
    /\ operands i = v :: ops /\ IRValue.string_id v = id.
Proof.
  intros [Ha|(i & v & ops & _ & Hi & Hrest)]%label_index_spec; [done|].
  rewrite Nat.sub_0_r in Hi. by exists i, v, ops.
Qed.

(** A loop that is one label long. *)
Definition only_label (func : IRFunction) (loop : LoopInfo) : Prop :=
  end_idx loop = S (header_idx loop)
  /\ exists i, instructions func !! header_idx loop = Some i /\ ir_has_effect (opcode i) IR_LABEL = true.

Definition headed (loops : list LoopInfo) (h : nat) : Prop := exists loop, loop ∈ loops /\ header_idx loop = h.

Lemma add_edge_spec func loops fresh i :
  Forall (only_label func) loops -> (headed loops (header_idx fresh) \/ only_label func fresh) ->
  Forall (only_label func) (add_edge loops fresh i)
  /\ headed (add_edge loops fresh i) (header_idx fresh)
  /\ forall h, headed loops h -> headed (add_edge loops fresh i) h.
Proof.
  intros Hall Hf. induction Hall as [|loop loops Hl Hall IH]; cbn.
  - destruct Hf as [(loop & Hin & _)|Hf]; [by apply elem_of_nil in Hin|].
    split; [by constructor|]. split; [exists fresh; by split; [left|]|].
    intros h (loop & Hin & _). by apply elem_of_nil in Hin.
  - destruct (Nat.eqb_spec (header_idx loop) (header_idx fresh)) as [He|Hne].
    + split; [by constructor|]. split; [eexists; split; [left|done]|].
      intros h (l & [->|Hin]%elem_of_cons & Hh); [eexists; split; [left|exact Hh]|exists l; by split; [right|]].
    + destruct IH as (Ha & Hh & Hk).
      { destruct Hf as [(l & [->|Hin]%elem_of_cons & Hh)|]; [done|left; by exists l|by right]. }
      split; [by constructor|]. split.
      * destruct Hh as (l & Hin & Hl'). exists l. split; [by right|done].
      * intros h (l & [->|Hin]%elem_of_cons & Hl'); [exists loop; split; [left|done]|].
        destruct (Hk h) as (l' & Hin' & Hh'); [by exists l|]. exists l'. split; [by right|done].
Qed.

Section Verified.
Context (program : IRProgram) (func : IRFunction) (Hv : verified program func).
Abbreviation body := (instructions func).

(** What holds when the positions before [n] have been visited. *)
Definition found (n : nat) (loops : list LoopInfo) : Prop :=
  Forall (only_label func) loops /\ forall id h, labels_of func !! id = Some h -> (h < n)%nat -> headed loops h.

Lemma visit_operand_found n loops operand :
  found n loops ->
  found n (visit_operand func n loops operand)
  /\ (forall h, headed loops h -> headed (visit_operand func n loops operand) h)
  /\ forall id, operand = IRValue.LABEL id -> labels_of func !! id = Some n ->
       headed (visit_operand func n loops operand) n.
Proof.
  intros [Hall Hhead]. unfold visit_operand. destruct operand as [| | |target| |]; try (split; [done|]; split; [done|]; done).
  destruct (labels_of func !! target) as [header|] eqn:Et; [|split; [done|]; split; [done|]; intros id [= <-]; congruence].
  destruct (Nat.leb_spec header n) as [Hle|Hgt]; [|split; [done|]; split; [done|]; intros id [= <-] Hid; simplify_eq; lia].
  match goal with |- context [add_edge loops ?f n] => set (fresh := f) end.
  destruct (add_edge_spec func loops fresh n Hall) as (Ha & Hf & Hk).
  { destruct (decide (header < n)%nat) as [Hlt|Hge]; [left; by eapply Hhead|right].
    assert (header = n) as -> by lia. destruct (labels_of_spec _ _ _ Et) as (i & v & ops & Hi & Hl & _).
    split; [|by exists i]. unfold fresh. rewrite Nat.sub_diag, take_0. cbn. by rewrite Z.eqb_refl. }
  split; [|split; [done|]].
  - split; [done|]. intros id h Hid Hlt. eapply Hk, Hhead; done.
  - intros id [= <-] Hid. simplify_eq. done.
Qed.

Lemma visit_operands_found n loops ops :
  found n loops ->
  found n (fold_left (visit_operand func n) ops loops)
  /\ (forall h, headed loops h -> headed (fold_left (visit_operand func n) ops loops) h)
  /\ forall id, IRValue.LABEL id ∈ ops -> labels_of func !! id = Some n ->
       headed (fold_left (visit_operand func n) ops loops) n.
Proof.
  revert loops. induction ops as [|v ops IH]; intros loops Hf; cbn [fold_left].
  - split; [done|]. split; [done|]. intros id Hid. by apply elem_of_nil in Hid.
  - destruct (visit_operand_found n loops v Hf) as (Hf1 & Hk1 & Hn1).
    destruct (IH _ Hf1) as (Hf2 & Hk2 & Hn2). split; [done|]. split; [auto|].
    intros id [He|Hid]%elem_of_cons Hn; [by eapply Hk2, (Hn1 id (eq_sym He))|by eapply Hn2].
Qed.

Lemma visit_instruction_found n i loops :
  body !! n = Some i -> found n loops -> found (S n) (visit_instruction func loops (n, i)).
Proof.
  intros Hi Hf. unfold visit_instruction. cbn [fst snd].
  destruct (visit_operands_found n loops (operands i) Hf) as ([Ha Hh] & Hk & Hn).
  assert (forall id h, labels_of func !! id = Some h -> (h < S n)%nat ->
    (h < n)%nat \/ h = n /\ ir_is_control_flow (opcode i) = true /\ IRValue.LABEL id ∈ operands i) as Hcase.
  { intros id h Hid Hlt. destruct (decide (h < n)%nat) as [|Hge]; [by left|right]. assert (h = n) as -> by lia.
    destruct (labels_of_spec _ _ _ Hid) as (j & v & ops & Hj & Hl & Hops & Hs).
    assert (j = i) as -> by congruence. subst id.
    destruct (label_operand i (verified_operands program Hv _ _ Hi) Hl) as (Ho & id & ops' & Hops').
    split; [done|]. split; [by rewrite Ho|]. rewrite Hops' in Hops |- *. injection Hops as <- <-. left. }
  destruct (ir_is_control_flow (opcode i)) eqn:Ec.
  - split; [done|]. intros id h Hid Hlt. destruct (Hcase id h Hid Hlt) as [Hl|(-> & _ & Hin)]; [by eapply Hh|by eapply Hn].
  - destruct Hf as [Hf1 Hf2]. split; [done|]. intros id h Hid Hlt.
    destruct (Hcase id h Hid Hlt) as [Hl|(_ & Hbad & _)]; [by eapply Hf2|done].
Qed.

Lemma visit_all_found rest n loops :
  (forall k i, rest !! k = Some i -> body !! (n + k)%nat = Some i) -> found n loops ->
  Forall (only_label func) (fold_left (visit_instruction func) (zip (seq n (length rest)) rest) loops).
Proof.
  revert n loops. induction rest as [|i rest IH]; intros n loops Hr Hf; cbn.
  - by destruct Hf.
  - apply IH.
    + intros k j Hk. specialize (Hr (S k) j Hk). by rewrite Nat.add_succ_r in Hr.
    + apply visit_instruction_found; [|done]. specialize (Hr 0%nat i eq_refl). by rewrite Nat.add_0_r in Hr.
Qed.

Lemma identify_loops_labels : Forall (only_label func) (identify_loops func).
Proof.
  unfold identify_loops. apply visit_all_found; [done|]. split; [constructor|]. intros id h _ Hlt. lia.
Qed.

Lemma hoist_loop_nothing loops loop changed :
  only_label func loop -> hoist_loop loops (func, changed) loop = Ok (func, changed).
Proof.
  intros [Hend (i & Hi & Hl)]. unfold hoist_loop. destruct (is_nested loops loop); [done|].
  assert (ir_is_control_flow (opcode i) = true) as Hc.
  { revert Hl. unfold ir_is_control_flow. by destruct (opcode i). }
  assert (loop_body func loop (header_idx loop) = [(header_idx loop, i)]) as Hb.
  { unfold loop_body. rewrite Hend. replace (S (header_idx loop) - header_idx loop)%nat with 1%nat by lia.
    simpl. by rewrite Hi. }
  assert (loop_body func loop (S (header_idx loop)) = []) as Hb'.
  { unfold loop_body. by rewrite Hend, Nat.sub_diag. }
  unfold loop_only_reads_host. rewrite Hb. cbn. rewrite Hc. cbn. by rewrite Hb'.
Qed.

End Verified.

Lemma licm_identity (program : IRProgram) (func : IRFunction) :
  verified program func -> loop_invariant_code_motion func = Ok (func, false).
Proof.
  intros Hv. unfold loop_invariant_code_motion. destruct (_ =? 0)%nat; [done|].
  pose proof (identify_loops_labels program func Hv) as Hall. revert Hall. generalize (identify_loops func) at 1 3.
  intros rest Hall. induction Hall as [|loop rest Hl _ IH]; [done|]. cbn [hoist_loops]. rewrite (hoist_loop_nothing func) by done. apply IH.
Qed.

(** C14: Loop-invariant code motion leaves every verified function as it is: the
    loop found first for a header is the header's own label, one instruction
    long, so there is nothing to hoist. *)
Theorem licm_changes_nothing (program : IRProgram) (func : IRFunction) :
  verified program func -> loop_invariant_code_motion func = Ok (func, false).
Proof. apply licm_identity. Qed.

(** x = 2 in a loop: the load could be hoisted. *)
Definition invariant_load : IRFunction := simple_function "invariant_load" ["n"] [
  instr LOAD_IMM [IRValue.reg 1; IRValue.imm 0];
  instr LABEL [IRValue.label 0];
  instr LOAD_IMM [IRValue.reg 2; IRValue.imm 2];
  instr ADD [IRValue.reg 1; IRValue.reg 1; IRValue.reg 2];
  instr BRANCH_LT [IRValue.reg 1; IRValue.reg 0; IRValue.label 0];
  instr MOVE [IRValue.reg 0; IRValue.reg 1];
  instr RETURN []
] 3.

Lemma licm_changes_nothing_witness :
  length (identify_loops invariant_load) = 1%nat
  /\ loop_invariant_code_motion invariant_load = Ok (invariant_load, false).
Proof. split; [by vm_compute|]. apply (licm_changes_nothing Samples.program). by vm_compute. Defined.

End Loops.
