(* ===== verification/ScalarReplacement.v ===== *)
(** * Scalar replacement of structs

    Models [IROptimizer::scalar_replace_structs] (ir_optimizer.cpp): a keyed
    dictionary that does not escape becomes one register per field.  The pass
    repeats until no dictionary can be replaced; every replacement removes one
    construction, so it stops. *)

From S2P Require Import Prelude.
From S2P Require Import Double.
From S2P Require Import VariantTypes.
From S2P Require Import IROpcodes.
From S2P Require Import Globals.
From S2P Require Import IR.
From S2P Require Import Verifier.
From S2P Require Import VerifierSound.
From S2P Require Import OptimizerBase.
From S2P Require Import Samples.

Module ScalarReplacement.
Import IROpcode.

(** A construction that qualifies by its shape: its register, its fields with
    the registers they start from, in order. *)
Record Struct := mkStruct {
  root : Z;
  initial_fields : list (Z * Z)
}.

Definition field_operands (i : IRInstruction) (count : Z) : list (Z * Z) :=
  map (fun k => (op_imm i (2 + k * 2), op_reg i (3 + k * 2))) (seq 0 (Z.to_nat count)).

Definition struct_at (i : IRInstruction) : option Struct :=
  if negb (eqb (opcode i) MAKE_DICTIONARY_KEYED) || (length (operands i) <? 2)%nat then None
  else
    let count := op_imm i 1 in
    if (count <? 0) || negb (Z.of_nat (length (operands i)) =? 2 + count * 2) then None
    else if op_reg i 0 =? 0 then None
    else Some (mkStruct (op_reg i 0) (field_operands i count)).

Definition declared (st : Struct) (key : Z) : bool := existsb (Z.eqb key) (map fst (initial_fields st)).

(** ** The whole-function rule *)

Abbreviation Aliases := (gset Z).

Definition in_ (aliases : Aliases) (r : Z) : bool := bool_decide (r ∈ aliases).

Definition alias_round (body : list IRInstruction) (aliases : Aliases) : Aliases :=
  fold_left (fun aliases i =>
    if eqb (opcode i) MOVE && (length (operands i) =? 2)%nat && in_ aliases (op_reg i 1)
    then {[op_reg i 0]} ∪ aliases else aliases) body aliases.

(** Rounds until one adds nothing; each other round adds the destination of a
    MOVE. *)
Fixpoint alias_closure (fuel : nat) (body : list IRInstruction) (aliases : Aliases) : outcome Aliases :=
  match fuel with
  | O => Throw OutOfFuel
  | S fuel =>
      let grown := alias_round body aliases in
      if (size grown =? size aliases)%nat then Ok grown else alias_closure fuel body grown
  end.

(** The definitions of a register: one for a parameter, one per written
    operand. *)
Definition definitions (func : IRFunction) (reg : Z) : Z :=
  (if reg <? Z.of_nat (length (parameters func)) then 1 else 0)
  + Z.of_nat (length (List.filter (fun '(i, n) => ir_writes_operand i n && (op_reg i n =? reg))
      (flat_map (fun i => map (fun n => (i, n)) (seq 0 (length (operands i)))) (instructions func)))).

(** An alias may only be copied to an alias or have a declared field read. *)
Definition allowed_read (st : Struct) (aliases : Aliases) (i : IRInstruction) (reg : Z) : bool :=
  negb (in_ aliases reg)
  || eqb (opcode i) MOVE && (length (operands i) =? 2)%nat && (op_reg i 1 =? reg) && in_ aliases (op_reg i 0)
  || eqb (opcode i) DICT_GET_CONST && (length (operands i) =? 3)%nat && (op_reg i 1 =? reg)
     && declared st (op_imm i 2).

Definition immutable_safe (func : IRFunction) (st : Struct) (aliases : Aliases) : bool :=
  negb (in_ aliases RETURN_REGISTER)
  && forallb (fun alias => definitions func alias =? 1) (elements aliases)
  && forallb (fun i => forallb (allowed_read st aliases i) (ir_collect_read_registers i)) (instructions func).

(** ** The straight-line rule *)

(** One instruction after the construction: [None] when it is not safe, else
    the aliases after it. *)
Definition straight_step (st : Struct) (aliases : Aliases) (i : IRInstruction) : option Aliases :=
  let reads_alias := existsb (in_ aliases) (ir_collect_read_registers i) in
  if ir_is_control_flow (opcode i) then
    if eqb (opcode i) RETURN && negb reads_alias then Some aliases else None
  else if eqb (opcode i) MOVE && in_ aliases (op_reg i 1) then
    if op_reg i 0 =? RETURN_REGISTER then None else Some ({[op_reg i 0]} ∪ aliases)
  else if eqb (opcode i) DICT_GET_CONST && in_ aliases (op_reg i 1) && declared st (op_imm i 2) then Some aliases
  else if eqb (opcode i) DICT_SET_CONST && in_ aliases (op_reg i 0) && declared st (op_imm i 1) then Some aliases
  else if reads_alias then None
  else if existsb (fun n => ir_writes_operand i n && in_ aliases (op_reg i n)) (seq 0 (length (operands i)))
  then None
  else Some aliases.

Fixpoint straight_line_safe (st : Struct) (aliases : Aliases) (is_ : list IRInstruction) : bool :=
  match is_ with
  | [] => true
  | i :: is_ =>
      match straight_step st aliases i with
      | Some aliases => straight_line_safe st aliases is_
      | None => false
      end
  end.

(** ** Rewriting *)

Definition next_register (func : IRFunction) : Z :=
  fold_left (fun m v => match v with IRValue.REGISTER r => Z.max m (r + 1) | _ => m end)
    (flat_map operands (instructions func)) (max_registers func).

(** The snapshot register of each field, in order from [first]. *)
Definition snapshots (st : Struct) (first : Z) : list (Z * Z * Z) :=
  map (fun '(k, (key, source)) => (key, source, first + Z.of_nat k))
    (zip (seq 0 (length (initial_fields st))) (initial_fields st)).

(** [fields]: a repeated key keeps its last register. *)
Definition fields_of (st : Struct) (first : Z) : gmap Z Z :=
  fold_left (fun m '(key, _, snapshot) => <[key := snapshot]> m) (snapshots st first) ∅.

Definition move_instruction (dst src : IRValue) (hint line_ : Z) : IRInstruction :=
  with_line (with_type_hint (instr MOVE [dst; src]) hint) line_.

Definition snapshot_moves (st : Struct) (first line_ : Z) : list IRInstruction :=
  map (fun '(_, source, snapshot) =>
    move_instruction (IRValue.reg snapshot) (IRValue.reg source) TypeHint_NONE line_) (snapshots st first).

Definition operand_at (i : IRInstruction) (n : nat) : IRValue := default (IRValue.imm 0) (operands i !! n).

(** [fields.at(key)] *)
Definition field_at (fields : gmap Z Z) (key : Z) : outcome Z := of_option out_of_range (fields !! key).

(** One instruction after the construction.  The aliases grow only under the
    straight-line rule. *)
Definition rewrite_step (immutable : bool) (fields : gmap Z Z) (aliases : Aliases) (i : IRInstruction)
  : outcome (Aliases * list IRInstruction) :=
  if eqb (opcode i) MOVE && in_ aliases (op_reg i 1) then
    Ok (if immutable then aliases else {[op_reg i 0]} ∪ aliases, [])
  else if eqb (opcode i) DICT_GET_CONST && in_ aliases (op_reg i 1) then
    let? field := field_at fields (op_imm i 2) in
    Ok (aliases, [move_instruction (operand_at i 0) (IRValue.reg field) (type_hint i) (line i)])
  else if eqb (opcode i) DICT_SET_CONST && in_ aliases (op_reg i 0) then
    let? field := field_at fields (op_imm i 1) in
    Ok (aliases, [move_instruction (IRValue.reg field) (operand_at i 2) TypeHint_NONE (line i)])
  else Ok (aliases, [i]).

Fixpoint rewrite_after (immutable : bool) (fields : gmap Z Z) (aliases : Aliases) (is_ : list IRInstruction)
  : outcome (list IRInstruction) :=
  match is_ with
  | [] => Ok []
  | i :: is_ =>
      let? r := rewrite_step immutable fields aliases i in
      let? rest := rewrite_after immutable fields r.1 is_ in
      Ok (r.2 ++ rest)
  end.

(** The function without the construction at [make_at], when it may go. *)
Definition replace_at (func : IRFunction) (make_at : nat) : outcome (option IRFunction) :=
  match instructions func !! make_at with
  | None => Ok None
  | Some make =>
      match struct_at make with
      | None => Ok None
      | Some st =>
          let body := instructions func in
          let? aliases := alias_closure (S (S (length body))) body {[root st]} in
          let immutable := immutable_safe func st aliases in
          let after := drop (S make_at) body in
          if negb immutable && negb (straight_line_safe st {[root st]} after) then Ok None
          else
            let first := next_register func in
            let? rest := rewrite_after immutable (fields_of st first)
                           (if immutable then aliases else {[root st]}) after in
            let fresh := take make_at body ++ snapshot_moves st first (line make) ++ rest in
            let func := with_max_registers func
                          (Z.max (max_registers func) (first + Z.of_nat (length (initial_fields st)))) in
            Ok (Some (replace_instructions func fresh).1)
      end
  end.

(** The first construction that may go. *)
Fixpoint replace_first (func : IRFunction) (positions : list nat) : outcome (option IRFunction) :=
  match positions with
  | [] => Ok None
  | p :: positions =>
      let? r := replace_at func p in
      match r with
      | Some func' => Ok (Some func')
      | None => replace_first func positions
      end
  end.

Fixpoint replace_all (fuel : nat) (func : IRFunction) (changed : bool) : outcome (IRFunction * bool) :=
  match fuel with
  | O => Throw OutOfFuel
  | S fuel =>
      let? r := replace_first func (seq 0 (length (instructions func))) in
      match r with
      | Some func' => replace_all fuel func' true
      | None => Ok (func, changed)
      end
  end.

(** The number of constructions bounds the replacements. *)
Definition constructions (body : list IRInstruction) : nat :=
  length (List.filter (fun i => eqb (opcode i) MAKE_DICTIONARY_KEYED) body).

Definition scalar_replace_structs (func : IRFunction) : outcome (IRFunction * bool) :=
  replace_all (S (constructions (instructions func))) func false.

(** ** The pass stops *)

Lemma alias_round_grows body aliases (U : gset Z) :
  aliases ⊆ U -> (forall i, i ∈ body -> op_reg i 0 ∈ U) ->
  aliases ⊆ alias_round body aliases /\ alias_round body aliases ⊆ U.
Proof.
  unfold alias_round. revert aliases. induction body as [|i body IH]; intros aliases Ha Hb; cbn [fold_left]; [done|].
  assert (op_reg i 0 ∈ U) as Hi by (apply Hb; left).
  assert (forall j, j ∈ body -> op_reg j 0 ∈ U) as Hb' by (intros j Hj; apply Hb; by right).
  destruct (_ && _ && _); [|by apply IH].
  destruct (IH ({[op_reg i 0]} ∪ aliases)) as [H1 H2]; [set_solver|done|]. split; [set_solver|done].
Qed.

Lemma alias_closure_stops fuel body aliases (U : gset Z) :
  aliases ⊆ U -> (forall i, i ∈ body -> op_reg i 0 ∈ U) -> (size U - size aliases < fuel)%nat ->
  alias_closure fuel body aliases <> Throw OutOfFuel.
Proof.
  revert aliases. induction fuel as [|fuel IH]; intros aliases Ha Hb Hf; [lia|]. cbn [alias_closure].
  destruct (alias_round_grows body aliases U Ha Hb) as [Hg Hu].
  pose proof (subseteq_size _ _ Hg) as Hs. pose proof (subseteq_size _ _ Hu) as Hsu.
  destruct (Nat.eqb_spec (size (alias_round body aliases)) (size aliases)) as [|Hne]; [done|].
  apply IH; [done|done|lia].
Qed.

Lemma alias_closure_total body r : alias_closure (S (S (length body))) body {[r]} <> Throw OutOfFuel.
Proof.
  apply (alias_closure_stops _ _ _ ({[r]} ∪ list_to_set (map (fun i => op_reg i 0) body))); [set_solver| |].
  - intros i Hi. apply elem_of_union. right. apply elem_of_list_to_set, list_elem_of_fmap. by exists i.
  - rewrite size_singleton.
    pose proof (size_union_alt (C := gset Z) {[r]} (list_to_set (map (fun i => op_reg i 0) body))) as Hsz.
    rewrite Hsz, size_singleton.
    assert (size (list_to_set (C := gset Z) (map (fun i => op_reg i 0) body) ∖ {[r]}) <= length body)%nat; [|lia].
    etrans; [apply subseteq_size, subseteq_difference_l; reflexivity|].
    rewrite <- (length_map (fun i => op_reg i 0)). generalize (map (fun i => op_reg i 0) body) as l.
    induction l as [|x l IH]; cbn; [done|]. rewrite size_union_alt, size_singleton.
    pose proof (subseteq_size (C := gset Z) (list_to_set l ∖ {[x]}) (list_to_set l) ltac:(set_solver)). lia.
Qed.

Lemma constructions_app a b : constructions (a ++ b) = (constructions a + constructions b)%nat.
Proof. unfold constructions. by rewrite List.filter_app, length_app. Qed.

Lemma constructions_cons i a :
  constructions (i :: a) = ((if eqb (opcode i) MAKE_DICTIONARY_KEYED then 1 else 0) + constructions a)%nat.
Proof. unfold constructions. cbn. by destruct (eqb _ _). Qed.

Lemma snapshot_constructions st first line_ : constructions (snapshot_moves st first line_) = 0%nat.
Proof.
  unfold snapshot_moves. induction (snapshots st first) as [|[[key source] snapshot] l IH]; [done|].
  cbn [map]. by rewrite constructions_cons, IH.
Qed.

Lemma rewrite_after_constructions immutable fields aliases is_ rest :
  rewrite_after immutable fields aliases is_ = Ok rest -> (constructions rest <= constructions is_)%nat.
Proof.
  revert aliases rest. induction is_ as [|i is_ IH]; intros aliases rest; cbn [rewrite_after]; [by intros [= <-]|].
  destruct (rewrite_step immutable fields aliases i) as [[al out]|] eqn:Es; cbn [obind fst snd]; [|done].
  destruct (rewrite_after immutable fields al is_) as [rest'|] eqn:Er; cbn [obind]; [|done]. intros [= <-].
  apply IH in Er. rewrite constructions_app, constructions_cons.
  assert (constructions out <= (if eqb (opcode i) MAKE_DICTIONARY_KEYED then 1 else 0))%nat; [|lia].
  unfold rewrite_step in Es. destruct (_ && _); [injection Es as <- <-; cbn; lia|].
  destruct (_ && _); [destruct (field_at _ _); cbn [obind] in Es; [|done]; injection Es as <- <-; cbn; lia|].
  destruct (_ && _); [destruct (field_at _ _); cbn [obind] in Es; [|done]; injection Es as <- <-; cbn; lia|].
  injection Es as <- <-. rewrite constructions_cons. unfold constructions. cbn. lia.
Qed.

(** A replacement removes a construction. *)
Lemma replace_at_decreases func p func' :
  replace_at func p = Ok (Some func') ->
  (constructions (instructions func') < constructions (instructions func))%nat.
Proof.
  unfold replace_at. destruct (instructions func !! p) as [make|] eqn:Ep; [|done].
  destruct (struct_at make) as [st|] eqn:Est; [|done].
  destruct (alias_closure _ _ _) as [aliases|]; cbn [obind]; [|done]. destruct (_ && _); [done|].
  destruct (rewrite_after _ _ _ _) as [rest|] eqn:Er; cbn [obind]; [|done]. intros [= <-].
  unfold replace_instructions, with_instructions. cbn [fst instructions].
  apply rewrite_after_constructions in Er. rewrite !constructions_app, snapshot_constructions.
  pose proof (f_equal constructions (take_drop_middle _ _ _ Ep)) as Hb.
  rewrite constructions_app, constructions_cons in Hb. rewrite <- Hb.
  unfold struct_at in Est. destruct (eqb (opcode make) MAKE_DICTIONARY_KEYED); [lia|done].
Qed.

Lemma replace_at_fuel func p : replace_at func p <> Throw OutOfFuel.
Proof.
  unfold replace_at. destruct (instructions func !! p) as [make|]; [|done].
  destruct (struct_at make) as [st|]; [|done].
  pose proof (alias_closure_total (instructions func) (root st)) as Ha.
  destruct (alias_closure _ _ _) as [aliases|e]; cbn [obind]; [|congruence]. destruct (_ && _); [done|].
  assert (forall im f al is_, rewrite_after im f al is_ <> Throw OutOfFuel) as Hr.
  { intros im f al is_. revert al. induction is_ as [|i is_ IH]; intros al; [done|]. cbn [rewrite_after].
    assert (rewrite_step im f al i <> Throw OutOfFuel) as Hs.
    { unfold rewrite_step, field_at, of_option. repeat (destruct (_ && _); [try done; by destruct (f !! _)|]). done. }
    destruct (rewrite_step im f al i) as [r|e]; cbn [obind]; [|congruence]. specialize (IH r.1).
    destruct (rewrite_after im f r.1 is_); cbn [obind]; congruence. }
  match goal with |- context [rewrite_after ?a ?b ?c ?d] => specialize (Hr a b c d); destruct (rewrite_after a b c d) end;
    cbn [obind]; congruence.
Qed.

Lemma replace_first_spec func positions :
  replace_first func positions <> Throw OutOfFuel
  /\ forall func', replace_first func positions = Ok (Some func') ->
       (constructions (instructions func') < constructions (instructions func))%nat.
Proof.
  induction positions as [|p positions IH]; cbn [replace_first]; [done|].
  pose proof (replace_at_fuel func p) as Hf.
  destruct (replace_at func p) as [[f|]|e] eqn:E; cbn [obind]; [| |split; [congruence|done]].
  - split; [done|]. intros func' [= <-]. by eapply replace_at_decreases.
  - done.
Qed.

(** Scalar replacement stops: every replacement removes one dictionary
    construction and the alias search adds at most one register per
    instruction, so neither bound of the model is ever reached. *)
Theorem scalar_replacement_terminates (func : IRFunction) :
  scalar_replace_structs func <> Throw OutOfFuel.
Proof.
  unfold scalar_replace_structs. generalize false.
  assert (constructions (instructions func) < S (constructions (instructions func)))%nat as Hlt by lia.
  revert Hlt. generalize (S (constructions (instructions func))) as fuel. intros fuel. revert func.
  induction fuel as [|fuel IH]; intros func Hlt changed; [lia|]. cbn [replace_all].
  destruct (replace_first_spec func (seq 0 (length (instructions func)))) as [Hf Hd].
  destruct (replace_first _ _) as [[f|]|e]; cbn [obind]; [|done|congruence].
  apply IH. specialize (Hd f eq_refl). lia.
Qed.

(** ** Examples *)

Import Samples.

Abbreviation optimized func := (let? r := scalar_replace_structs func in Ok (map opcode (instructions r.1), r.2)).

(** A point of two fields, one of them written and read back. *)
Definition point : IRFunction := simple_function "point" ["x"; "y"] [
  instr MAKE_DICTIONARY_KEYED [R 2; I 2; I 10; R 0; I 11; R 1];
  instr DICT_SET_CONST [R 2; I 10; R 1];
  instr DICT_GET_CONST [R 0; R 2; I 10];
  instr RETURN []
] 3.

Example point_becomes_registers :
  verified Samples.program point
  /\ optimized point = Ok ([MOVE; MOVE; MOVE; MOVE; RETURN], true).
Proof. split; by vm_compute. Qed.

(** A struct stored in its own field. *)
Definition own_field : IRFunction := simple_function "own_field" ["x"] [
  instr MAKE_DICTIONARY_KEYED [R 1; I 1; I 10; R 0];
  instr DICT_SET_CONST [R 1; I 10; R 1];
  instr LOAD_NIL [R 0];
  instr RETURN []
] 2.

(** The straight-line rule does not look at the value a field is set to: the
    construction goes, and the register it defined is still read. *)
Theorem own_field_is_left_dangling :
  verified Samples.program own_field
  /\ (let? r := scalar_replace_structs own_field in Ok (ir_verify r.1 (Some (strings Samples.program))))
     = Ok (Some (UndefinedRead 1 1)).
Proof. split; by vm_compute. Qed.

End ScalarReplacement.
