(* ===== verification/Pipeline.v ===== *)
(** * The pass pipeline

    Models the driver of the optimizer (ir_optimizer.cpp): the list of passes,
    the selection of passes by name ([GDSC_PASSES], [set_enabled_passes],
    [is_pass_enabled]), [optimize_function] with the skip of passes that
    reported no change, the verification between passes and the recomputation
    of the register count, and [optimize].

    [optimize_preserves_program] composes the results of the passes: with
    verification on and a selection among the passes proved to be equivalences,
    the interpreter does the same on the optimized program. *)

From Stdlib Require Import Ascii.
From S2P Require Import Prelude.
From S2P Require Import Dataflow.
From S2P Require Import Double.
From S2P Require Import VariantTypes.
From S2P Require Import IROpcodes.
From S2P Require Import Globals.
From S2P Require Import IR.
From S2P Require Import Cfg.
From S2P Require Import Verifier.
From S2P Require Import VerifierFacts.
From S2P Require Import Interpreter.
From S2P Require Import Effects.
From S2P Require Import Machine.
From S2P Require Import VerifierSound.
From S2P Require Import Positions.
From S2P Require Import OptimizerBase.
From S2P Require Import CopyPropagation.
From S2P Require Import EnhancedCopyPropagation.
From S2P Require Import ReduceRegisters.
From S2P Require Import UnreachableCode.
From S2P Require Import ConstantFolding.
From S2P Require Import DeadCode.
From S2P Require Import Peephole.
From S2P Require Import RedundantStores.
From S2P Require Import ScopeMarks.
From S2P Require Import Loops.
From S2P Require Import ScalarReplacement.
From S2P Require Import Samples.

Module Pipeline.

(** ** Selecting passes *)

(** [GDSC_PASSES]: names between commas, blanks and tabs ignored. *)
Fixpoint split_names (env : string) (current : string) : list string :=
  let flush := if String.eqb current "" then [] else [current] in
  match env with
  | EmptyString => flush
  | String c env =>
      if Ascii.eqb c ","%char then flush ++ split_names env ""
      else if Ascii.eqb c " "%char || Ascii.eqb c "009"%char then split_names env current
      else split_names env (current +:+ String c EmptyString)
  end.

Definition env_passes (env : string) : list string :=
  match split_names env "" with [] => ["none"%string] | names => names end.

Section Passes.
Context `{Libm}.

Record IRPass := mkPass {
  pass_name : string;
  pass_run : IRFunction -> outcome (IRFunction * bool)
}.

Definition pipeline : list IRPass := [
  mkPass "constant-folding" ConstantFolding.constant_folding;
  mkPass "unreachable-code" (fun f => Ok (UnreachableCode.eliminate_unreachable_code f));
  mkPass "copy-propagation" (fun f => Ok (CopyPropagation.copy_propagation f));
  mkPass "enhanced-copy-propagation" (fun f => Ok (EnhancedCopyPropagation.enhanced_copy_propagation f));
  mkPass "scalar-replacement" ScalarReplacement.scalar_replace_structs;
  mkPass "licm" Loops.loop_invariant_code_motion;
  mkPass "peephole" (fun f => Ok (Peephole.peephole_optimization f));
  mkPass "peephole" (fun f => Ok (Peephole.peephole_optimization f));
  mkPass "redundant-stores" RedundantStores.eliminate_redundant_stores;
  mkPass "peephole" (fun f => Ok (Peephole.peephole_optimization f));
  mkPass "dead-code" DeadCode.eliminate_dead_code;
  mkPass "compact-registers" (fun f => Ok (ReduceRegisters.reduce_register_pressure f));
  mkPass "scope-marks" (fun f => Ok (ScopeMarks.tighten_scope_marks f))
].

(** The optimizer's settings: [None] for the pass limit is SIZE_MAX; an empty
    selection means every pass. *)
Record Settings := mkSettings {
  m_pass_limit : option nat;
  m_enabled_passes : gset string
}.

Definition is_known (name : string) : bool := existsb (fun pass => String.eqb name (pass_name pass)) pipeline.

Fixpoint select (names : list string) (chosen : gset string) : outcome (gset string) :=
  match names with
  | [] => Ok ({[""%string]} ∪ chosen) (* the empty name matches no pass: not "every pass" *)
  | name :: names =>
      if String.eqb name "all" then Ok ∅
      else if String.eqb name "none" then select names chosen
      else if negb (is_known name)
      then Throw (CompilerException OPTIMIZER_ERROR ("Unknown optimizer pass: " +:+ name))
      else select names ({[name]} ∪ chosen)
  end.

Definition set_enabled_passes (st : Settings) (names : list string) : outcome Settings :=
  let? chosen := select names ∅ in Ok (mkSettings (m_pass_limit st) chosen).

Definition set_pass_limit (st : Settings) (count : nat) : Settings := mkSettings (Some count) (m_enabled_passes st).

(** The constructor, given the environment variable. *)
Definition make_optimizer (env : option string) : outcome Settings :=
  let st := mkSettings None ∅ in
  match env with None => Ok st | Some env => set_enabled_passes st (env_passes env) end.

Definition is_pass_enabled (st : Settings) (name : string) : bool :=
  (size (m_enabled_passes st) =? 0)%nat || bool_decide (name ∈ m_enabled_passes st).

(** ** One function *)

(** The verifier's exception; its message also names the pass and the failure. *)
Definition verify_stage (verify : bool) (strings_ : IRStringTable.IRStringTable) (func : IRFunction) : outcome unit :=
  if verify then
    match ir_verify func (Some strings_) with
    | None => Ok tt
    | Some _ => Throw (CompilerException IR_VERIFIER_ERROR ("IR verification failed in function '" +:+ fn_name func +:+ "'"))
    end
  else Ok tt.

(** The passes in order; [settled] are the names that reported no change since
    the last change. *)
Fixpoint run_passes (verify : bool) (strings_ : IRStringTable.IRStringTable) (st : Settings) (passes : list IRPass)
    (settled : list string) (func : IRFunction) : outcome IRFunction :=
  match passes with
  | [] => Ok func
  | pass :: passes =>
      if negb (is_pass_enabled st (pass_name pass)) then run_passes verify strings_ st passes settled func
      else if existsb (String.eqb (pass_name pass)) settled then run_passes verify strings_ st passes settled func
      else
        let? r := pass_run pass func in
        let? _ := verify_stage verify strings_ r.1 in
        run_passes verify strings_ st passes (if r.2 then [] else settled ++ [pass_name pass]) r.1
  end.

(** The highest register named, 0 at least. *)
Definition max_reg (body : list IRInstruction) : Z :=
  fold_left (fun m v => match v with IRValue.REGISTER r => Z.max m r | _ => m end) (flat_map operands body) 0.

Definition recount_registers (func : IRFunction) : IRFunction :=
  with_max_registers func (Z.max (max_reg (instructions func) + 1) (Z.of_nat (length (parameters func)))).

Definition optimize_function (verify : bool) (strings_ : IRStringTable.IRStringTable) (st : Settings)
    (func : IRFunction) : outcome IRFunction :=
  let limit := match m_pass_limit st with
               | Some n => Nat.min n (length pipeline)
               | None => length pipeline
               end in
  let? _ := verify_stage verify strings_ func in
  let? func := run_passes verify strings_ st (take limit pipeline) [] func in
  let func := recount_registers func in
  let? _ := verify_stage verify strings_ func in
  Ok func.

(** ** The program *)

Definition with_functions (p : IRProgram) (fs : list IRFunction) (member global : IRFunction) : IRProgram :=
  mkProgram (globals p) fs (string_constants p) (strings p) global (has_global_init p) member (has_member_init p).

Definition optimize (verify : bool) (st : Settings) (p : IRProgram) : outcome IRProgram :=
  let? fs := omapM (optimize_function verify (strings p) st) (functions p) in
  let? member := if has_member_init p then optimize_function verify (strings p) st (member_init p)
                 else Ok (member_init p) in
  let? global := if has_global_init p then optimize_function verify (strings p) st (global_init p)
                 else Ok (global_init p) in
  Ok (with_functions p fs member global).

(** ** Selection *)

(** What a selection enables: the named passes, none for "none", all for
    "all". *)
Lemma select_spec names chosen enabled :
  select names chosen = Ok enabled ->
  enabled = ∅ /\ "all"%string ∈ names
  \/ "all"%string ∉ names /\
     forall name, name ∈ enabled <-> name = ""%string \/ name ∈ chosen \/ name ∈ names /\ name <> "none"%string.
Proof.
  revert chosen. induction names as [|n names IH]; intros chosen; cbn [select].
  - intros [= <-]. right. split; [by intros Hn%elem_of_nil|]. set_solver.
  - destruct (String.eqb_spec n "all") as [->|Hall]; [intros [= <-]; left; split; [done|left]|].
    destruct (String.eqb_spec n "none") as [->|Hnone].
    + intros [[-> Hin]|[Hnin Hs]]%IH; [left; split; [done|by right]|right].
      split; [by intros [?|?]%elem_of_cons|]. intros name. rewrite Hs, elem_of_cons. naive_solver.
    + destruct (negb (is_known n)); [done|].
      intros [[-> Hin]|[Hnin Hs]]%IH; [left; split; [done|by right]|right].
      split; [by intros [?|?]%elem_of_cons|]. intros name. rewrite Hs, elem_of_cons, elem_of_union, elem_of_singleton.
      naive_solver.
Qed.

(** Selecting passes by name enables exactly the passes named: after a
    successful selection without "all" a pass of the pipeline runs exactly when
    its name is in the list, so "none" alone enables nothing, and with "all"
    every pass runs. *)
Theorem selection_enables_the_named (st st' : Settings) (names : list string) (pass : IRPass) :
  set_enabled_passes st names = Ok st' -> pass ∈ pipeline ->
  (is_pass_enabled st' (pass_name pass) = true
   <-> "all"%string ∈ names \/ pass_name pass ∈ names).
Proof.
  unfold set_enabled_passes. destruct (select names ∅) as [enabled|] eqn:Es; cbn [obind]; [|done].
  intros [= <-] Hp. unfold is_pass_enabled. cbn [m_enabled_passes].
  assert (pass_name pass <> ""%string /\ pass_name pass <> "none"%string) as [Hne Hnn].
  { revert Hp. unfold pipeline.
    repeat (intros [->|Hp]%elem_of_cons; [by split|revert Hp]). by intros Hp%elem_of_nil. }
  destruct (select_spec _ _ _ Es) as [[-> Hin]|[Hnin Hs]].
  - rewrite size_empty. cbn. split; [by left|done].
  - assert (size enabled <> 0)%nat as Hsz.
    { intros Hz%size_empty_inv. assert (""%string ∈ enabled) by (apply Hs; by left). set_solver. }
    apply Nat.eqb_neq in Hsz. rewrite Hsz. cbn. rewrite bool_decide_eq_true, Hs. set_solver.
Qed.

End Passes.

(** ** Programs with the same names *)

Section Congruence.
Context `{Libm}.

Abbreviation Calls := (string -> list Value -> M Interp Value).

Lemma iter_until_ext {S R} (f g : S -> S + R) n s :
  (forall s, f s = g s) -> iter_until f n s = iter_until g n s.
Proof.
  intros Hfg. revert s. induction n as [|n IH]; intros s; cbn; [done|]. rewrite Hfg. by destruct (g s).
Qed.

(** A call depends on the program through its tables, on the existence of its
    callees and on what they answer. *)
Lemma call_function_ext p fs member global (r r' : Calls) func args s :
  let p' := with_functions p fs member global in
  (forall name, is_Some (m_function_map p' !! name) <-> is_Some (m_function_map p !! name)) ->
  (forall name args s, r name args s = r' name args s) ->
  call_function p' r func args s = call_function p r' func args s.
Proof.
  intros p' Hmap Hr.
  assert (forall i c s, execute_instruction p' r func i c s = execute_instruction p r' func i c s) as He.
  { intros i c s0. unfold execute_instruction. destruct (opcode i); try reflexivity.
    unfold exec_call, mbind, mlift, mret. change (label_text p' i 0) with (label_text p i 0).
    destruct (label_text p i 0) as [name|]; [|done]. destruct (reg_operand i 1); [|done].
    destruct (imm_operand i 2); [|done]. destruct (arg_operands _ _ _); [|done].
    destruct (get_registers _ _) as [c1 vs]. specialize (Hmap name).
    destruct (m_function_map p' !! name), (m_function_map p !! name); try done.
    - by rewrite Hr.
    - exfalso. destruct (proj1 Hmap) as [? ?]; [by eexists|done].
    - exfalso. destruct (proj2 Hmap) as [? ?]; [by eexists|done]. }
  unfold call_function, execute_function, mbind, mmodify, mget.
  destruct (MAX_CALL_DEPTH <? _); [done|]. unfold run_body. rewrite !iter_until_pos_nat.
  change (collect_labels p') with (collect_labels p).
  rewrite (iter_until_ext (loop_step p' r func) (loop_step p r' func)); [done|].
  intros [s1 c1]. unfold loop_step. destruct (running func c1); [|done].
  unfold step, mbind, mlift. destruct (nth_ub _ _); [|done]. by rewrite He.
Qed.

(** ** Equivalent functions *)

Definition equivalent (p : IRProgram) (func func' : IRFunction) : Prop :=
  fn_name func' = fn_name func
  /\ forall (r : Calls) args s, call_function p r func' args s = call_function p r func args s.

Lemma equivalent_refl p func : equivalent p func func.
Proof. done. Qed.

Lemma equivalent_trans p f g h : equivalent p f g -> equivalent p g h -> equivalent p f h.
Proof. intros [H1 H2] [H3 H4]. split; [congruence|]. intros r args s. by rewrite H4, H2. Qed.

(** The passes proved to be equivalences of verified functions, apart from
    unreachable-code, which also needs interned labels. *)
Definition equivalences : list string :=
  ["copy-propagation"; "enhanced-copy-propagation"; "licm"; "compact-registers"]%string.

Definition proved : list string := "unreachable-code"%string :: equivalences.

Lemma pass_equivalent p pass func r :
  verified p func -> pass ∈ pipeline -> pass_name pass ∈ equivalences ->
  pass_run pass func = Ok r -> equivalent p func r.1.
Proof.
  intros Hv Hp Hn. destruct (verified_checks p Hv) as (Hrange & Hops & _).
  unfold pipeline in Hp.
  repeat (apply elem_of_cons in Hp as [->|Hp];
    [cbn [pass_name pass_run] in *; try (by vm_compute in Hn; set_solver)|]); [..|by apply elem_of_nil in Hp].
  - intros [= <-]. split; [done|]. intros r args s. unfold call_function, mbind.
    pose proof (CopyPropagation.copied_execute_equal p r func Hrange Hops (argument_registers func args) s) as He.
    unfold fresh_context in He. change (argument_registers (CopyPropagation.copy_propagation func).1) with (argument_registers func).
    by rewrite <- He.
  - intros [= <-]. split; [done|]. intros r args s. unfold call_function, mbind.
    pose proof (EnhancedCopyPropagation.enhanced_execute_equal p r func Hrange Hops (argument_registers func args) s) as He.
    unfold fresh_context in He.
    change (argument_registers (EnhancedCopyPropagation.enhanced_copy_propagation func).1) with (argument_registers func).
    by rewrite <- He.
  - rewrite (Loops.licm_identity p func Hv). intros [= <-]. apply equivalent_refl.
  - intros [= <-]. split; [done|]. intros r args s. apply ReduceRegisters.renumbered_call_equal.
Qed.

Lemma verify_stage_Ok p func u : verify_stage true (strings p) func = Ok u -> verified p func.
Proof. unfold verify_stage, verified. by destruct (ir_verify _ _). Qed.

Lemma run_passes_equivalent p st passes settled func func' :
  (forall pass, pass ∈ passes -> pass ∈ pipeline
    /\ (is_pass_enabled st (pass_name pass) = true -> pass_name pass ∈ equivalences)) ->
  verified p func -> run_passes true (strings p) st passes settled func = Ok func' ->
  equivalent p func func'.
Proof.
  revert settled func. induction passes as [|pass passes IH]; intros settled func Hp Hv; cbn [run_passes].
  { intros [= <-]. apply equivalent_refl. }
  assert (forall q, q ∈ passes -> q ∈ pipeline
    /\ (is_pass_enabled st (pass_name q) = true -> pass_name q ∈ equivalences)) as Hrest
    by (intros q Hq; apply Hp; by right).
  destruct (Hp pass ltac:(left)) as [Hin Hen].
  destruct (is_pass_enabled st (pass_name pass)); cbn [negb]; [|by apply IH].
  destruct (existsb _ settled); [by apply IH|].
  destruct (pass_run pass func) as [r|] eqn:Er; cbn [obind]; [|done].
  destruct (verify_stage true (strings p) r.1) as [u|] eqn:Ev; cbn [obind]; [|done].
  intros Hrun. eapply equivalent_trans; [eapply pass_equivalent; [done|done|by apply Hen|done]|]. eapply IH; [done| |exact Hrun].
  by eapply verify_stage_Ok.
Qed.

(** The selection runs proved passes only. *)
Definition selects_proved (st : Settings) : Prop :=
  forall pass, pass ∈ pipeline -> is_pass_enabled st (pass_name pass) = true -> pass_name pass ∈ proved.

Lemma recount_equivalent p func : equivalent p func (recount_registers func).
Proof.
  split; [done|]. unfold recount_registers. generalize (Z.max (max_reg (instructions func) + 1) (Z.of_nat (length (parameters func)))).
  intros n r args s.
  assert (forall i c s, execute_instruction p r (with_max_registers func n) i c s = execute_instruction p r func i c s) as He.
  { intros i c s0. unfold execute_instruction. by destruct (opcode i). }
  unfold call_function, execute_function, mbind, mmodify, mget.
  destruct (MAX_CALL_DEPTH <? _); [done|]. unfold run_body. rewrite !iter_until_pos_nat.
  rewrite (iter_until_ext (loop_step p r (with_max_registers func n)) (loop_step p r func)); [done|].
  intros [s1 c1]. unfold loop_step. change (running (with_max_registers func n) c1) with (running func c1).
  destruct (running func c1); [|done].
  unfold step, mbind, mlift. change (instructions (with_max_registers func n)) with (instructions func).
  destruct (nth_ub _ _); [|done]. by rewrite He.
Qed.

Lemma optimize_function_equivalent p st func func' :
  selects_proved st -> IRStringTable.wf (strings p) -> UnreachableCode.interned p func ->
  optimize_function true (strings p) st func = Ok func' -> equivalent p func func'.
Proof.
  intros Hsel Htable Hint. unfold optimize_function.
  destruct (verify_stage true (strings p) func) as [u|] eqn:Ev; cbn [obind]; [|done].
  apply verify_stage_Ok in Ev as Hv. generalize (match m_pass_limit st with Some n => Nat.min n (length pipeline)
    | None => length pipeline end). intros limit.
  destruct (run_passes _ _ _ _ _ _) as [f|] eqn:Er; cbn [obind]; [|done].
  destruct (verify_stage true _ (recount_registers f)); cbn [obind]; [|done]. intros [= <-].
  eapply equivalent_trans; [|apply recount_equivalent].
  assert (forall n settled g, verified p g -> run_passes true (strings p) st (take n (drop 2 pipeline)) settled g = Ok f ->
    equivalent p g f) as Htail.
  { intros n settled g Hg. apply run_passes_equivalent; [|done]. intros pass Hin.
    apply list_elem_of_lookup in Hin as [k Hk]. apply lookup_take_Some in Hk as [Hk _].
    pose proof (list_elem_of_lookup_2 _ _ _ Hk) as Hd.
    assert (pass ∈ pipeline) as Hpl by (rewrite <- (take_drop 2 pipeline); apply elem_of_app; by right).
    split; [done|]. intros Hen. pose proof (Hsel pass Hpl Hen) as Hpr.
    apply elem_of_cons in Hpr as [Hu|]; [exfalso|done]. revert Hd Hu. unfold pipeline. cbn [drop].
    repeat (intros [->|Hd]%elem_of_cons; [done|revert Hd]). by intros Hd%elem_of_nil. }
  destruct limit as [|[|n]].
  - injection Er as <-. apply equivalent_refl.
  - cbn [take pipeline run_passes pass_name] in Er.
    destruct (is_pass_enabled st "constant-folding") eqn:Ec; cbn [negb] in Er.
    + exfalso. pose proof (Hsel (mkPass "constant-folding" ConstantFolding.constant_folding) ltac:(left) Ec) as Hx.
      vm_compute in Hx. set_solver.
    + injection Er as <-. apply equivalent_refl.
  - change (take (S (S n)) pipeline) with
      (mkPass "constant-folding" ConstantFolding.constant_folding
       :: mkPass "unreachable-code" (fun f => Ok (UnreachableCode.eliminate_unreachable_code f))
       :: take n (drop 2 pipeline)) in Er.
    cbn [run_passes pass_name pass_run] in Er.
    destruct (is_pass_enabled st "constant-folding") eqn:Ec; cbn [negb] in Er.
    { exfalso. pose proof (Hsel (mkPass "constant-folding" ConstantFolding.constant_folding) ltac:(left) Ec) as Hx.
      vm_compute in Hx. set_solver. }
    destruct (is_pass_enabled st "unreachable-code"); cbn [negb existsb obind] in Er; [|by eapply Htail].
    destruct (verify_stage true (strings p) (UnreachableCode.eliminate_unreachable_code func).1) as [w|] eqn:Ew;
      cbn [obind] in Er; [|done].
    apply verify_stage_Ok in Ew. eapply equivalent_trans; [|by eapply Htail]. split.
    + unfold UnreachableCode.eliminate_unreachable_code.
      destruct (_ =? 0)%nat; [done|]. by destruct (UnreachableCode.reachable_blocks func).
    + intros r args s. by apply UnreachableCode.unreachable_call_equal.
Qed.

(** ** Equivalent programs *)

Lemma function_map_related fs fs' (R : IRFunction -> IRFunction -> Prop) :
  Forall2 R fs fs' -> (forall f f', R f f' -> fn_name f' = fn_name f) ->
  forall (m m' : gmap string IRFunction) name, (forall name, option_Forall2 R (m !! name) (m' !! name)) ->
  option_Forall2 R (fold_left (fun m f => <[fn_name f := f]> m) fs m !! name)
                   (fold_left (fun m f => <[fn_name f := f]> m) fs' m' !! name).
Proof.
  intros Hall Hname. induction Hall as [|f f' fs fs' Hf Hall IH]; intros m m' name Hm; cbn [fold_left]; [done|].
  apply IH. intros n. rewrite (Hname _ _ Hf), !lookup_insert. case_decide; [by constructor|done].
Qed.

Lemma omapM_Forall2 {A B} (f : A -> outcome B) (l : list A) (l' : list B) :
  omapM f l = Ok l' -> Forall2 (fun x y => f x = Ok y) l l'.
Proof.
  revert l'. induction l as [|x l IH]; intros l'; cbn; [by intros [= <-]|].
  destruct (f x) as [y|] eqn:Ef; cbn; [|done]. destruct (omapM f l) as [ys|]; cbn; [|done].
  intros [= <-]. constructor; [done|by apply IH].
Qed.

Lemma mbind_ext {St A B} (x y : M St A) (k k' : A -> M St B) s :
  (forall s, x s = y s) -> (forall a s, k a s = k' a s) -> mbind x k s = mbind y k' s.
Proof. intros Hx Hk. unfold mbind. rewrite Hx. by destruct (y s) as [s' [a|e]]. Qed.

Section Program.
Context (p : IRProgram) (fs : list IRFunction) (member global : IRFunction).
Abbreviation p' := (with_functions p fs member global).
Hypothesis Hfs : Forall2 (equivalent p) (functions p) fs.

Lemma map_related name : option_Forall2 (equivalent p) (m_function_map p !! name) (m_function_map p' !! name).
Proof.
  unfold m_function_map. eapply function_map_related; [exact Hfs|by intros f f' []|].
  intros n. rewrite !lookup_empty. constructor.
Qed.

Lemma map_domain name : is_Some (m_function_map p' !! name) <-> is_Some (m_function_map p !! name).
Proof. destruct (map_related name); split; (intros [? ?]; by eexists) || (intros [? ?]; done). Qed.

Lemma call_fuel_equal n name args s : call_fuel p' n name args s = call_fuel p n name args s.
Proof.
  revert name args s. induction n as [|n IH]; intros name args s; [done|]. cbn [call_fuel].
  destruct (map_related name) as [f f' [_ Hf]|]; [|done].
  rewrite (call_function_ext p fs member global (call_fuel p' n) (call_fuel p n)); [apply Hf|apply map_domain|done].
Qed.

(** An initializer runs like a call without arguments. *)
Lemma init_as_call q (r : Calls) func :
  forall s, (let* _ := execute_function q r func empty_context in mret tt) s
            = (let* _ := call_function q r func [] in mret tt) s.
Proof.
  intros s. unfold call_function, mbind. replace (argument_registers func []) with (∅ : gmap Z Value) by done.
  change (mkContext ∅ ∅ 0 false VNil) with empty_context.
  by destruct (execute_function q r func empty_context s) as [s1 [c|e]].
Qed.

Lemma init_equal func func' s :
  equivalent p func func' ->
  (let* _ := execute_function p' (call p') func' empty_context in mret tt) s
  = (let* _ := execute_function p (call p) func empty_context in mret tt) s.
Proof.
  intros [_ Hf]. rewrite !init_as_call. unfold mbind.
  rewrite (call_function_ext p fs member global (call p') (call p)); [by rewrite Hf|apply map_domain|].
  intros name args s0. apply call_fuel_equal.
Qed.

End Program.

(** C1: The pipeline preserves programs: with verification on and a selection
    among unreachable-code, copy-propagation, enhanced-copy-propagation, licm
    and compact-registers, when [optimize] succeeds, the optimized program
    initialises to the same state and every call of it returns the same value
    or exception in the same state as the original's. *)
Theorem optimize_preserves_program (st : Settings) (p p' : IRProgram) :
  selects_proved st -> IRStringTable.wf (strings p) ->
  (forall func, func ∈ member_init p :: global_init p :: functions p -> UnreachableCode.interned p func) ->
  optimize true st p = Ok p' ->
  (forall name args s, call p' name args s = call p name args s) /\ construct p' = construct p.
Proof.
  intros Hsel Htable Hint. unfold optimize.
  destruct (omapM _ _) as [fs|] eqn:Ef; cbn [obind]; [|done]. apply omapM_Forall2 in Ef.
  assert (Forall2 (equivalent p) (functions p) fs) as Hfs.
  { apply Forall2_same_length_lookup in Ef as [Hlen Hl]. apply Forall2_same_length_lookup. split; [done|].
    intros i f f' Hi Hi'. eapply optimize_function_equivalent; [done|done| |by eapply Hl].
    apply Hint. do 2 right. by eapply list_elem_of_lookup_2. }
  destruct (if has_member_init p then _ else _) as [member|] eqn:Em; cbn [obind]; [|done].
  destruct (if has_global_init p then _ else _) as [global|] eqn:Eg; cbn [obind]; [|done]. intros [= <-].
  assert (equivalent p (member_init p) member) as Hm.
  { destruct (has_member_init p); [|injection Em as <-; apply equivalent_refl].
    eapply optimize_function_equivalent; [done|done|apply Hint; left|done]. }
  assert (equivalent p (global_init p) global) as Hg.
  { destruct (has_global_init p); [|injection Eg as <-; apply equivalent_refl].
    eapply optimize_function_equivalent; [done|done|apply Hint; by right; left|done]. }
  split; [intros name args s; by apply call_fuel_equal|].
  unfold construct, initialize_globals. cbn [globals has_global_init has_member_init global_init member_init with_functions].
  apply mbind_ext; [done|]. intros gs s1. apply mbind_ext; [done|]. intros _ s2. apply mbind_ext.
  - intros s3. destruct (has_global_init p); [by apply init_equal|done].
  - intros _ s3. destruct (has_member_init p); [by apply init_equal|done].
Qed.

End Congruence.

(** ** Witnesses *)

#[local] Existing Instance identity_libm.

(** Two functions with copies and stranded code. *)
Definition sample : IRProgram := Samples.program_of [Samples.copies; Samples.stranded; Samples.sum].

Definition proved_settings : Settings := mkSettings None (list_to_set ("" :: proved)%string).

Lemma proved_settings_select : selects_proved proved_settings.
Proof.
  intros pass Hp Hen. unfold is_pass_enabled in Hen.
  change (size (m_enabled_passes proved_settings) =? 0)%nat with false in Hen. cbn [orb] in Hen.
  apply bool_decide_eq_true in Hen. unfold proved_settings in Hen. cbn [m_enabled_passes] in Hen.
  apply elem_of_list_to_set, elem_of_cons in Hen as [He|Hen]; [|done]. exfalso. revert Hp He. unfold pipeline.
  repeat (intros [->|Hp]%elem_of_cons; [done|revert Hp]). by intros Hp%elem_of_nil.
Qed.

Lemma optimize_preserves_program_witness :
  exists p', optimize true proved_settings sample = Ok p'
    /\ map (fun f => length (instructions f)) (functions p') = [5; 4; 12]%nat
    /\ forall name args s, call p' name args s = call sample name args s.
Proof.
  eexists. split; [vm_compute; reflexivity|]. split; [done|].
  apply (optimize_preserves_program proved_settings sample).
  - apply proved_settings_select.
  - apply Samples.table_wf.
  - intros func Hf. apply UnreachableCode.interned_decide.
    repeat (apply elem_of_cons in Hf as [->|Hf]; [by vm_compute|]). by apply elem_of_nil in Hf.
  - vm_compute. reflexivity.
Defined.

Lemma selection_enables_the_named_witness :
  exists st, set_enabled_passes (mkSettings None ∅) (env_passes "licm, dead-code") = Ok st
    /\ (is_pass_enabled st "licm" = true
        <-> "all"%string ∈ ["licm"; "dead-code"]%string \/ "licm"%string ∈ ["licm"; "dead-code"]%string).
Proof.
  eexists. split; [vm_compute; reflexivity|].
  apply (selection_enables_the_named (mkSettings None ∅) _ ["licm"; "dead-code"]%string
    (mkPass "licm" Loops.loop_invariant_code_motion)).
  - vm_compute. reflexivity.
  - by do 5 right; left.
Defined.

(** With every pass the peephole fold reaches the result: the counter of
    [Peephole.last_count] answers 1 for 3, and every verification passes. *)
Theorem every_pass_stops_a_counter :
  (let? p := optimize true (mkSettings None ∅) (Samples.program_of [Peephole.last_count]) in
   (call p "last_count" [VInt 3] (mkInterp [] "" 0)).2) = Ok (VInt 1)
  /\ (call (Samples.program_of [Peephole.last_count]) "last_count" [VInt 3] (mkInterp [] "" 0)).2 = Ok (VInt 3).
Proof. split; by vm_compute. Qed.

End Pipeline.
