(* ===== verification/RegisterAllocator.v ===== *)
(** * Register allocator

    Models [RegisterAllocator] (register_allocator.h, register_allocator.cpp):
    the maps between virtual and physical registers, the pool of free physical
    registers and the use positions that choose what to spill.

    The class iterates an [unordered_map]; the order is the parameter
    [HashOrder], of which only the contents are known.  [allocator_consistent]
    is the invariant of every sequence of operations; [next_use_correct]
    and [allocate_evicts_the_furthest] are the functional behaviour of the spill
    choice; [clobbering_moves_into_clobbered] is a closed counterexample. *)

From stdpp Require Import sorting.
From S2P Require Import Prelude.
From S2P Require Import Double.
From S2P Require Import VariantTypes.
From S2P Require Import IROpcodes.
From S2P Require Import Globals.
From S2P Require Import IR.

(** The order in which an [unordered_map] is walked. *)
Class HashOrder := {
  hash_order : gmap Z Z -> list (Z * Z);
  hash_order_contents : forall m, hash_order m ≡ₚ map_to_list m
}.

#[export] Instance key_order : HashOrder := {
  hash_order := fun m => map_to_list m;
  hash_order_contents := fun m => reflexivity _
}.

Module RegisterAllocator.

(** The registers of the pool; t6 (31) and s0 (8) are not among them. *)
Definition init_free_registers : list Z :=
  [5; 6; 7; 9; 18; 19; 20; 21; 22; 23; 24; 25; 26; 27; 28; 29; 30].

Record Allocator := mkAllocator {
  m_vreg_to_preg : gmap Z Z;
  m_preg_to_vreg : gmap Z Z;
  m_free_registers : list Z;  (* the next register to hand out is the last *)
  m_vreg_all_uses : gmap Z (list Z)
}.

Definition with_maps (a : Allocator) (to_preg to_vreg : gmap Z Z) (free : list Z) : Allocator :=
  mkAllocator to_preg to_vreg free (m_vreg_all_uses a).

(** ** Uses *)

Definition register_operands (i : IRInstruction) : list Z :=
  omap (fun v => match v with IRValue.REGISTER r => Some r | _ => None end) (operands i).

Definition add_use (uses : gmap Z (list Z)) (at_ : nat * IRInstruction) : gmap Z (list Z) :=
  fold_left (fun uses vreg => <[vreg := default [] (uses !! vreg) ++ [Z.of_nat at_.1]]> uses)
    (register_operands at_.2) uses.

(** [std::unique]: equal neighbours become one. *)
Fixpoint unique (l : list Z) : list Z :=
  match l with
  | x :: ((y :: _) as rest) => if x =? y then unique rest else x :: unique rest
  | _ => l
  end.

Definition compute_next_use (func : IRFunction) : gmap Z (list Z) :=
  (fun uses => unique (merge_sort Z.le uses)) <$>
    fold_left add_use (zip (seq 0 (length (instructions func))) (instructions func)) ∅.

(** The constructor has no uses yet. *)
Definition construct : Allocator := mkAllocator ∅ ∅ init_free_registers ∅.

Definition init (func : IRFunction) : Allocator :=
  mkAllocator ∅ ∅ init_free_registers (compute_next_use func).

(** [std::lower_bound] on the sorted positions. *)
Definition get_next_use (a : Allocator) (vreg current_instr_idx : Z) : Z :=
  match m_vreg_all_uses a !! vreg with
  | None => -1
  | Some uses =>
      match List.find (fun u => current_instr_idx + 1 <=? u) uses with
      | Some u => u
      | None => -1
      end
  end.

(** ** Spilling *)

(** The walk of [find_spill_candidate]: the first dead register, else the
    furthest so far. *)
Fixpoint furthest (a : Allocator) (current best_vreg best_next_use : Z) (entries : list (Z * Z)) : Z :=
  match entries with
  | [] => best_vreg
  | (vreg, _) :: entries =>
      let next_use := get_next_use a vreg current in
      if next_use =? -1 then vreg
      else if best_next_use <? next_use then furthest a current vreg next_use entries
      else furthest a current best_vreg best_next_use entries
  end.

Definition find_spill_candidate `{HashOrder} (a : Allocator) (current : Z) : Z :=
  furthest a current (-1) (-1) (hash_order (m_vreg_to_preg a)).

(** Gives the register of [vreg] back; the body of [spill_register],
    [free_register] and [invalidate_register]. *)
Definition release (a : Allocator) (vreg : Z) : Allocator :=
  match m_vreg_to_preg a !! vreg with
  | None => a
  | Some preg =>
      with_maps a (delete vreg (m_vreg_to_preg a)) (delete preg (m_preg_to_vreg a)) (m_free_registers a ++ [preg])
  end.

Definition spill_register : Allocator -> Z -> Allocator := release.
Definition free_register : Allocator -> Z -> Allocator := release.
Definition invalidate_register : Allocator -> Z -> Allocator := release.

(** ** Allocation *)

(** The last free register and the others. *)
Definition pop_free (free : list Z) : option (list Z * Z) :=
  match last free with Some p => Some (removelast free, p) | None => None end.

Definition allocate_register `{HashOrder} (a : Allocator) (vreg current : Z) : Allocator * Z :=
  match m_vreg_to_preg a !! vreg with
  | Some preg => (a, preg)
  | None =>
      let a :=
        match m_free_registers a with
        | [] => let candidate := find_spill_candidate a current in
                if candidate =? -1 then a else spill_register a candidate
        | _ => a
        end in
      match pop_free (m_free_registers a) with
      | None => (a, -1)
      | Some (free, preg) =>
          (with_maps a (<[vreg := preg]> (m_vreg_to_preg a)) (<[preg := vreg]> (m_preg_to_vreg a)) free, preg)
      end
  end.

Definition get_physical_register (a : Allocator) (vreg : Z) : Z := default (-1) (m_vreg_to_preg a !! vreg).
Definition get_vreg_for_preg (a : Allocator) (preg : Z) : Z := default (-1) (m_preg_to_vreg a !! preg).
Definition mapped_vregs `{HashOrder} (a : Allocator) : list Z := map fst (hash_order (m_vreg_to_preg a)).
Definition is_register_available (a : Allocator) (preg : Z) : bool := existsb (Z.eqb preg) (m_free_registers a).
Definition get_stack_offset (a : Allocator) (vreg : Z) : Z := -1.

(** Moves the value of one clobbered register, or spills it. *)
Definition move_clobbered (st : Allocator * list (Z * Z)) (clobbered : Z) : Allocator * list (Z * Z) :=
  let '(a, moves) := st in
  match m_preg_to_vreg a !! clobbered with
  | None => st
  | Some vreg =>
      match pop_free (m_free_registers a) with
      | Some (free, preg) =>
          (with_maps a (<[vreg := preg]> (m_vreg_to_preg a))
             (<[preg := vreg]> (delete clobbered (m_preg_to_vreg a))) free, moves ++ [(clobbered, preg)])
      | None => (spill_register a vreg, moves)
      end
  end.

Definition handle_syscall_clobbering (a : Allocator) (clobbered_regs : list Z) : Allocator * list (Z * Z) :=
  fold_left move_clobbered clobbered_regs (a, []).

(** Removes the first occurrence. *)
Fixpoint erase_first (p : Z) (l : list Z) : list Z :=
  match l with [] => [] | x :: l => if x =? p then l else x :: erase_first p l end.

Definition force_register_mapping (a : Allocator) (vreg preg : Z) : Allocator :=
  let to_preg :=
    match m_preg_to_vreg a !! preg with
    | Some other => if other =? vreg then m_vreg_to_preg a else delete other (m_vreg_to_preg a)
    | None => m_vreg_to_preg a
    end in
  let '(to_vreg, free) :=
    match to_preg !! vreg with
    | Some old => if old =? preg then (m_preg_to_vreg a, m_free_registers a)
                  else (delete old (m_preg_to_vreg a), m_free_registers a ++ [old])
    | None => (m_preg_to_vreg a, m_free_registers a)
    end in
  with_maps a (<[vreg := preg]> to_preg) (<[preg := vreg]> to_vreg) (erase_first preg free).

Definition reserve_register (a : Allocator) (preg : Z) : Allocator :=
  with_maps a (m_vreg_to_preg a) (m_preg_to_vreg a) (erase_first preg (m_free_registers a)).

(** ** The invariant *)

(** The maps are inverse to each other and a free register is in use nowhere. *)
Record consistent (a : Allocator) : Prop := {
  inverse : forall v p, m_vreg_to_preg a !! v = Some p <-> m_preg_to_vreg a !! p = Some v;
  free_once : NoDup (m_free_registers a);
  free_unused : forall p, p ∈ m_free_registers a -> m_preg_to_vreg a !! p = None
}.

(** The operations that change the allocator. *)
Inductive Op :=
  | Allocate (vreg current : Z)
  | Spill (vreg : Z)
  | Free (vreg : Z)
  | Invalidate (vreg : Z)
  | Force (vreg preg : Z)
  | Reserve (preg : Z)
  | Clobber (clobbered : list Z).

Definition apply_op `{HashOrder} (a : Allocator) (op : Op) : Allocator :=
  match op with
  | Allocate vreg current => (allocate_register a vreg current).1
  | Spill vreg => spill_register a vreg
  | Free vreg => free_register a vreg
  | Invalidate vreg => invalidate_register a vreg
  | Force vreg preg => force_register_mapping a vreg preg
  | Reserve preg => reserve_register a preg
  | Clobber clobbered => (handle_syscall_clobbering a clobbered).1
  end.

Definition apply_ops `{HashOrder} (a : Allocator) (ops : list Op) : Allocator := fold_left apply_op ops a.

Lemma init_consistent func : consistent (init func).
Proof.
  split; cbn.
  - intros v p. by rewrite !lookup_empty.
  - unfold init_free_registers. repeat (apply NoDup_cons; split; [set_solver|]). apply NoDup_nil_2.
  - intros p _. by rewrite lookup_empty.
Qed.

Lemma release_consistent a vreg : consistent a -> consistent (release a vreg).
Proof.
  intros [Hi Hn Hf]. unfold release. destruct (m_vreg_to_preg a !! vreg) as [preg|] eqn:E; [|done].
  apply Hi in E as E'. split; cbn.
  - intros v p. rewrite !lookup_delete_Some, Hi. split; intros [Hne Hp]; (split; [|done]); intros ->.
    + congruence.
    + apply Hi in Hp. congruence.
  - apply NoDup_app. split; [done|]. split; [|apply NoDup_singleton].
    intros p Hp ->%list_elem_of_singleton. apply Hf in Hp. congruence.
  - intros p [Hp| ->%list_elem_of_singleton]%elem_of_app; rewrite lookup_delete; case_decide; try done. by apply Hf.
Qed.

Lemma pop_free_spec free free' p :
  NoDup free -> pop_free free = Some (free', p) ->
  NoDup free' /\ p ∉ free' /\ p ∈ free /\ forall x, x ∈ free' -> x ∈ free.
Proof.
  unfold pop_free. intros Hn. destruct (last free) as [q|] eqn:El; [|done]. intros [= <- <-].
  apply last_Some in El as [l ->]. rewrite removelast_last. apply NoDup_app in Hn as (Hl & Hd & _).
  split; [done|]. split; [intros Hx; apply (Hd _ Hx); left|]. split; [apply elem_of_app; right; left|].
  intros x Hx. apply elem_of_app. by left.
Qed.

Lemma map_free_consistent a vreg preg free :
  consistent a -> m_vreg_to_preg a !! vreg = None -> pop_free (m_free_registers a) = Some (free, preg) ->
  consistent (with_maps a (<[vreg := preg]> (m_vreg_to_preg a)) (<[preg := vreg]> (m_preg_to_vreg a)) free).
Proof.
  intros [Hi Hn Hf] Hv Hpop. destruct (pop_free_spec _ _ _ Hn Hpop) as (Hn' & Hp & Hin & Hsub).
  pose proof (Hf _ Hin) as Hpf. split; cbn.
  - intros v p. rewrite !lookup_insert_Some, Hi. split; intros [[<- <-]|[Hne Hp']]; auto; right; (split; [|done]).
    + intros ->. congruence.
    + intros ->. apply Hi in Hp'. congruence.
  - done.
  - intros p Hx. rewrite lookup_insert_ne; [by apply Hf, Hsub|]. by intros ->.
Qed.

Lemma erase_first_spec p l :
  NoDup l -> NoDup (erase_first p l) /\ forall x, x ∈ erase_first p l <-> x ∈ l /\ x <> p.
Proof.
  induction l as [|y l IH]; cbn; intros Hn; [split; [done|set_solver]|].
  apply NoDup_cons in Hn as [Hy Hl]. destruct (IH Hl) as [IHn IHx].
  destruct (Z.eqb_spec y p) as [->|Hne].
  - split; [done|]. intros x. set_solver.
  - split; [|set_solver]. apply NoDup_cons. split; [|done]. rewrite IHx. tauto.
Qed.

Lemma reserve_consistent a preg : consistent a -> consistent (reserve_register a preg).
Proof.
  intros [Hi Hn Hf]. destruct (erase_first_spec preg _ Hn) as [Hn' Hx].
  split; cbn; [done|done|]. intros p [Hp _]%Hx. by apply Hf.
Qed.

Lemma allocate_consistent `{HashOrder} a vreg current :
  consistent a -> consistent (allocate_register a vreg current).1.
Proof.
  intros Ha. unfold allocate_register. destruct (m_vreg_to_preg a !! vreg) as [p|] eqn:Ev; [done|].
  match goal with |- context [match pop_free (m_free_registers ?b) with _ => _ end] => set (a' := b) end.
  assert (consistent a' /\ m_vreg_to_preg a' !! vreg = None) as [Ha' Hv'].
  { subst a'. destruct (m_free_registers a); [|done]. destruct (_ =? -1); [done|].
    split; [by apply release_consistent|]. unfold spill_register, release.
    destruct (m_vreg_to_preg a !! find_spill_candidate a current); [|done]. cbn. rewrite lookup_delete. by case_decide. }
  destruct (pop_free (m_free_registers a')) as [[free p]|] eqn:Ep; [|done].
  by apply map_free_consistent.
Qed.

Lemma move_clobbered_consistent a moves clobbered :
  consistent a -> consistent (move_clobbered (a, moves) clobbered).1.
Proof.
  intros Ha. unfold move_clobbered. destruct (m_preg_to_vreg a !! clobbered) as [vreg|] eqn:E; [|done].
  destruct (pop_free (m_free_registers a)) as [[free p]|] eqn:Ep; [|by apply release_consistent].
  destruct Ha as [Hi Hn Hf]. destruct (pop_free_spec _ _ _ Hn Ep) as (Hn' & Hp & Hin & Hsub).
  pose proof (Hf _ Hin) as Hpf. split; cbn.
  - intros v q. rewrite !lookup_insert_Some, lookup_delete_Some, Hi.
    apply Hi in E as E'. split.
    + intros [[<- <-]|[Hne Hq]]; [by left|]. right. split; [congruence|]. split; [congruence|done].
    + intros [[<- <-]|[Hne [Hc Hq]]]; [by left|]. right. split; [|done]. intros ->. apply Hi in Hq. congruence.
  - done.
  - intros q Hq. rewrite lookup_insert_ne by (by intros ->). apply lookup_delete_None. right. by apply Hf, Hsub.
Qed.

Lemma clobber_consistent a clobbered : consistent a -> consistent (handle_syscall_clobbering a clobbered).1.
Proof.
  unfold handle_syscall_clobbering. generalize (@nil (Z * Z)) as moves. revert a.
  induction clobbered as [|c cs IH]; intros a moves Ha; [done|]. cbn [fold_left].
  pose proof (move_clobbered_consistent a moves c Ha) as Hc.
  destruct (move_clobbered (a, moves) c) as [a' moves']. by apply IH.
Qed.

(** Forcing a mapping first gives the old register of [vreg] back and drops
    the mapping of the register asked for. *)
Lemma force_consistent a vreg preg : consistent a -> consistent (force_register_mapping a vreg preg).
Proof.
  intros [Hi Hn Hf]. unfold force_register_mapping.
  set (to_preg := match m_preg_to_vreg a !! preg with Some _ => _ | None => _ end).
  assert (Hto : forall v p, v <> vreg -> to_preg !! v = Some p <-> m_vreg_to_preg a !! v = Some p /\ p <> preg).
  { intros v p Hv. subst to_preg. destruct (m_preg_to_vreg a !! preg) as [other|] eqn:E.
    - destruct (Z.eqb_spec other vreg) as [->|Ho].
      + split; [|tauto]. intros Hp. split; [done|]. intros ->. apply Hi in Hp. congruence.
      + rewrite lookup_delete_Some. split; intros [H1 H2]; (split; [|try done]).
        * done.
        * intros ->. apply Hi in H2. congruence.
        * intros ->. apply Hi in E. congruence.
    - split; [|tauto]. intros Hp. split; [done|]. intros ->. apply Hi in Hp. congruence. }
  assert (Hvreg : to_preg !! vreg = m_vreg_to_preg a !! vreg).
  { subst to_preg. destruct (m_preg_to_vreg a !! preg) as [other|]; [|done].
    destruct (Z.eqb_spec other vreg); [done|]. by rewrite lookup_delete_ne. }
  rewrite Hvreg. clearbody to_preg.
  match goal with |- context [let '(_, _) := ?x in _] => set (st := x) end.
  assert (Hst : NoDup st.2 /\ (forall p v, v <> vreg -> st.1 !! p = Some v <-> m_preg_to_vreg a !! p = Some v) /\
                (forall p, st.1 !! p = Some vreg -> p = preg) /\
                (forall p, p ∈ st.2 -> st.1 !! p = None)).
  { subst st. destruct (m_vreg_to_preg a !! vreg) as [old|] eqn:E.
    - apply Hi in E as E'. destruct (Z.eqb_spec old preg) as [->|Ho]; cbn.
      + split; [done|]. split; [done|]. split; [|done]. intros p Hp%Hi. congruence.
      + split; [|split; [|split]].
        * apply NoDup_app. split; [done|]. split; [|apply NoDup_singleton].
          intros p Hp ->%list_elem_of_singleton. apply Hf in Hp. congruence.
        * intros p v Hv. rewrite lookup_delete_Some. split; [tauto|]. intros Hp. split; [congruence|done].
        * intros p [Hne Hp%Hi]%lookup_delete_Some. congruence.
        * intros p [Hp| ->%list_elem_of_singleton]%elem_of_app; rewrite lookup_delete; case_decide; try done. by apply Hf.
    - cbn. split; [done|]. split; [done|]. split; [|done]. intros p Hp%Hi. congruence. }
  destruct st as [to_vreg free]. cbn in Hst. destruct Hst as (Hn' & Hv & Hown & Hfree).
  destruct (erase_first_spec preg _ Hn') as [Hn2 Hx]. split; cbn.
  - intros v p. rewrite (lookup_insert_Some to_preg), (lookup_insert_Some to_vreg).
    destruct (decide (v = vreg)) as [->|Hne].
    + split; intros [[H1 H2]|[H1 H2]]; [by left|done|by left|]. apply Hown in H2. congruence.
    + rewrite (Hto v p Hne), (Hv p v Hne), Hi. naive_solver.
  - done.
  - intros p [Hp Hne]%Hx. rewrite lookup_insert_ne by congruence. by apply Hfree.
Qed.

Lemma apply_op_consistent `{HashOrder} a op : consistent a -> consistent (apply_op a op).
Proof.
  destruct op; cbn; auto using allocate_consistent, release_consistent, force_consistent,
    reserve_consistent, clobber_consistent.
Qed.

(** ** Next uses *)

Lemma unique_elem l x : x ∈ unique l <-> x ∈ l.
Proof.
  induction l as [|y [|z l] IH]; [done|done|]. change (unique (y :: z :: l)) with
    (if y =? z then unique (z :: l) else y :: unique (z :: l)).
  destruct (Z.eqb_spec y z) as [->|]; rewrite ?(elem_of_cons _ _ y), IH, !elem_of_cons; tauto.
Qed.

Lemma unique_sorted l : StronglySorted Z.le l -> StronglySorted Z.le (unique l).
Proof.
  induction l as [|y [|z l] IH]; [done|done|]. change (unique (y :: z :: l)) with
    (if y =? z then unique (z :: l) else y :: unique (z :: l)).
  intros [Hs Hy]%StronglySorted_inv. destruct (y =? z); [by apply IH|]. constructor; [by apply IH|].
  rewrite Forall_forall in *. intros x Hx. apply Hy. by rewrite unique_elem in Hx.
Qed.

Lemma add_use_elem (at_ : nat * IRInstruction) uses vreg x :
  x ∈ default [] (add_use uses at_ !! vreg) <->
  x ∈ default [] (uses !! vreg) \/ (x = Z.of_nat at_.1 /\ vreg ∈ register_operands at_.2).
Proof.
  unfold add_use. generalize (register_operands at_.2) as regs. intros regs. revert uses.
  induction regs as [|r regs IH]; intros uses; cbn [fold_left]; [set_solver|].
  rewrite IH. destruct (decide (r = vreg)) as [->|Hne].
  - rewrite lookup_insert_eq. cbn. set_solver.
  - rewrite lookup_insert_ne by done. set_solver.
Qed.

Lemma all_uses_elem func vreg x :
  x ∈ default [] (compute_next_use func !! vreg) <->
  exists k i, x = Z.of_nat k /\ instructions func !! k = Some i /\ vreg ∈ register_operands i.
Proof.
  assert (Hz : forall l n uses, x ∈ default [] (fold_left add_use (zip (seq n (length l)) l) uses !! vreg) <->
    x ∈ default [] (uses !! vreg) \/
    exists k i, x = Z.of_nat (n + k) /\ l !! k = Some i /\ vreg ∈ register_operands i).
  { induction l as [|i l IH]; intros n uses; cbn [length seq zip_with fold_left].
    { split; [by left|]. intros [H|(k & i & _ & H & _)]; [done|by rewrite lookup_nil in H]. }
    rewrite IH, add_use_elem. cbn. split.
    - intros [[H|[-> H]]|(k & j & -> & H)]; [by left| |].
      + right. exists 0%nat, i. rewrite Nat.add_0_r. done.
      + right. exists (S k), j. split; [f_equal; lia|done].
    - intros [H|([|k] & j & -> & H1 & H2)]; [by left; left| |].
      + injection H1 as ->. left. right. by rewrite Nat.add_0_r.
      + right. exists k, j. split; [f_equal; lia|done]. }
  unfold compute_next_use. rewrite lookup_fmap.
  specialize (Hz (instructions func) 0%nat ∅). rewrite lookup_empty in Hz. cbn in Hz.
  destruct (fold_left _ _ _ !! vreg) as [l|]; cbn in *.
  - rewrite unique_elem, merge_sort_Permutation, Hz. set_solver.
  - rewrite Hz. set_solver.
Qed.

Lemma all_uses_sorted func vreg l : compute_next_use func !! vreg = Some l -> StronglySorted Z.le l.
Proof.
  unfold compute_next_use. rewrite lookup_fmap. intros (uses & _ & ->)%fmap_Some.
  apply unique_sorted, StronglySorted_merge_sort; apply _.
Qed.

Lemma find_sorted n l :
  StronglySorted Z.le l ->
  match List.find (fun u => n <=? u) l with
  | Some u => u ∈ l /\ n <= u /\ forall x, x ∈ l -> n <= x -> u <= x
  | None => forall x, x ∈ l -> x < n
  end.
Proof.
  induction 1 as [|y l Hs IH Hy]; cbn; [set_solver|]. rewrite Forall_forall in Hy.
  destruct (Z.leb_spec n y).
  - split; [left|]. split; [done|]. intros x [->|Hx]%elem_of_cons Hn; [lia|by apply Hy].
  - destruct (List.find _ l) as [u|].
    + destruct IH as (Hu & Hn & Hm). split; [by right|]. split; [done|].
      intros x [->|Hx]%elem_of_cons Hx'; [lia|by apply Hm].
    + intros x [->|Hx]%elem_of_cons; [lia|by apply IH].
Qed.

Lemma apply_ops_uses `{HashOrder} a ops : m_vreg_all_uses (apply_ops a ops) = m_vreg_all_uses a.
Proof.
  assert (Hr : forall a v, m_vreg_all_uses (release a v) = m_vreg_all_uses a).
  { intros b v. unfold release. by destruct (m_vreg_to_preg b !! v). }
  revert a. induction ops as [|op ops IH]; intros a; [done|].
  change (apply_ops a (op :: ops)) with (apply_ops (apply_op a op) ops). rewrite IH.
  destruct op; cbn; try done; try apply Hr.
  - unfold allocate_register. destruct (m_vreg_to_preg a !! vreg); [done|].
    destruct (m_free_registers a); [destruct (_ =? -1)|]; destruct (pop_free _) as [[??]|]; cbn; auto;
      by rewrite Hr.
  - unfold force_register_mapping. by destruct (match _ !! vreg with Some _ => _ | None => _ end).
  - unfold handle_syscall_clobbering. generalize (@nil (Z * Z)) as moves.
    revert a. induction clobbered as [|c cs IHc]; intros a moves; [done|]. cbn [fold_left].
    unfold move_clobbered at 2. destruct (m_preg_to_vreg a !! c); [|apply IHc].
    destruct (pop_free _) as [[??]|]; rewrite IHc; [done|]. apply Hr.
Qed.

(** The use positions of a program counted from the instructions. *)
Definition used_at (func : IRFunction) (vreg : Z) (k : nat) : Prop :=
  exists i, instructions func !! k = Some i /\ vreg ∈ register_operands i.

Lemma get_next_use_spec a func vreg current :
  m_vreg_all_uses a = compute_next_use func ->
  (get_next_use a vreg current = -1 /\ forall k, used_at func vreg k -> Z.of_nat k <= current) \/
  (exists k, get_next_use a vreg current = Z.of_nat k /\ current < Z.of_nat k /\ used_at func vreg k /\
     forall k', used_at func vreg k' -> current < Z.of_nat k' -> (k <= k')%nat).
Proof.
  intros Ha. unfold get_next_use. rewrite Ha. pose proof (all_uses_elem func vreg) as Hall.
  destruct (compute_next_use func !! vreg) as [l|] eqn:E; cbn in Hall; [pose proof (all_uses_sorted _ _ _ E) as Hs|].
  - pose proof (find_sorted (current + 1) l Hs) as Hf. destruct (List.find _ l) as [u|].
    + destruct Hf as (Hu & Hn & Hm). right. apply Hall in Hu as (k & i & -> & Hi & Hr). exists k.
      split; [done|]. split; [lia|]. split; [by exists i|]. intros k' (i' & Hi' & Hr') Hk'.
      apply Nat2Z.inj_le, Hm; [|lia]. apply Hall. by exists k', i'.
    + left. split; [done|]. intros k (i & Hi & Hr). apply Z.lt_succ_r. unfold Z.succ. apply Hf, Hall. by exists k, i.
  - left. split; [done|]. intros k (i & Hi & Hr). exfalso. apply (not_elem_of_nil (Z.of_nat k)), Hall. by exists k, i.
Qed.

Lemma furthest_spec a current entries best best_use :
  -1 <= best_use ->
  (forall v p, (v, p) ∈ entries -> -1 <= get_next_use a v current) ->
  let c := furthest a current best best_use entries in
  (c ∈ entries.*1 /\ get_next_use a c current = -1) \/
  (c ∈ entries.*1 /\ best_use < get_next_use a c current /\
   forall v, v ∈ entries.*1 -> get_next_use a v current <= get_next_use a c current) \/
  (c = best /\ forall v, v ∈ entries.*1 -> -1 < get_next_use a v current <= best_use).
Proof.
  revert best best_use. induction entries as [|[v p] entries IH]; intros best best_use Hb Hall; cbn; [set_solver|].
  destruct (Z.eqb_spec (get_next_use a v current) (-1)) as [->|Hv]; [left; split; [left|done]|].
  assert (-1 <= get_next_use a v current) by (apply (Hall v p); left).
  assert (forall w q, (w, q) ∈ entries -> -1 <= get_next_use a w current) by (intros w q Hw; eapply Hall; right; exact Hw).
  destruct (Z.ltb_spec best_use (get_next_use a v current)) as [Hlt|Hge].
  - destruct (IH v (get_next_use a v current) ltac:(lia) ltac:(done)) as [[Hc Hd]|[(Hc & Hlt' & Hm)|[-> Hm]]].
    + left. set_solver.
    + right. left. split; [by right|]. split; [lia|]. intros w [->|Hw]%elem_of_cons; [lia|by apply Hm].
    + right. left. split; [left|]. split; [done|]. intros w [->|Hw]%elem_of_cons; [lia|by apply Hm].
  - destruct (IH best best_use Hb ltac:(done)) as [[Hc Hd]|[(Hc & Hlt' & Hm)|[Hc Hm]]].
    + left. set_solver.
    + right. left. split; [by right|]. split; [done|]. intros w [->|Hw]%elem_of_cons; [lia|by apply Hm].
    + right. right. split; [done|]. intros w [->|Hw]%elem_of_cons; [lia|by apply Hm].
Qed.


(** In every state the allocator reaches, [get_next_use] is the first
    position after the current one at which an instruction names the register,
    or -1 when no later instruction does. *)
Theorem next_use_correct `{HashOrder} func ops vreg current :
  let n := get_next_use (apply_ops (init func) ops) vreg current in
  (n = -1 /\ forall k, used_at func vreg k -> Z.of_nat k <= current) \/
  (exists k, n = Z.of_nat k /\ current < n /\ used_at func vreg k /\
     forall k', used_at func vreg k' -> current < Z.of_nat k' -> (k <= k')%nat).
Proof.
  intros n. destruct (get_next_use_spec (apply_ops (init func) ops) func vreg current) as [H'|(k & Hk & H')].
  - by rewrite apply_ops_uses.
  - by left.
  - right. exists k. split; [done|]. subst n. by rewrite Hk.
Qed.

Lemma get_next_use_lower a func vreg current :
  m_vreg_all_uses a = compute_next_use func -> -1 <= get_next_use a vreg current.
Proof. intros Ha. destruct (get_next_use_spec a func vreg current Ha) as [[-> _]|(k & -> & _)]; lia. Qed.

Lemma hash_order_keys `{HashOrder} (m : gmap Z Z) v : v ∈ (hash_order m).*1 <-> is_Some (m !! v).
Proof.
  rewrite (hash_order_contents m). split.
  - intros ([w p] & -> & Hp)%list_elem_of_fmap. exists p. by apply elem_of_map_to_list.
  - intros [p Hp]. apply list_elem_of_fmap. exists (v, p). split; [done|]. by apply elem_of_map_to_list.
Qed.

Lemma spill_candidate_spec `{HashOrder} a func current :
  m_vreg_all_uses a = compute_next_use func ->
  let c := find_spill_candidate a current in
  (m_vreg_to_preg a = ∅ /\ c = -1) \/
  (is_Some (m_vreg_to_preg a !! c) /\
   ((forall k, used_at func c k -> Z.of_nat k <= current) \/
    (forall v, is_Some (m_vreg_to_preg a !! v) -> get_next_use a v current <= get_next_use a c current))).
Proof.
  intros Ha. unfold find_spill_candidate.
  destruct (furthest_spec a current (hash_order (m_vreg_to_preg a)) (-1) (-1) ltac:(lia)) as [[Hc Hd]|[(Hc & Hlt & Hm)|[Hc Hm]]].
  - intros v p _. by apply (get_next_use_lower a func).
  - right. split; [by apply hash_order_keys|]. left.
    destruct (get_next_use_spec a func (furthest a current (-1) (-1) (hash_order (m_vreg_to_preg a))) current Ha)
      as [[_ Hx]|(k & Hk & _)]; [done|lia].
  - right. split; [by apply hash_order_keys|]. right. intros v Hv. by apply Hm, hash_order_keys.
  - cbn zeta. destruct (map_choose_or_empty (m_vreg_to_preg a)) as [(v & p & Hv)|He]; [|by left; rewrite He in *].
    specialize (Hm v ltac:(apply hash_order_keys; by exists p)). lia.
Qed.

(** A register no later instruction names, or one needed no earlier than any
    other that is mapped. *)
Definition evictable func (a : Allocator) (current victim : Z) : Prop :=
  (forall k, used_at func victim k -> Z.of_nat k <= current) \/
  (forall v, is_Some (m_vreg_to_preg a !! v) -> get_next_use a v current <= get_next_use a victim current).

(** What an allocation answers and the registers it leaves mapped. *)
Inductive allocated func (a : Allocator) (vreg current : Z) (a' : Allocator) (preg : Z) : Prop :=
  | already_mapped : m_vreg_to_preg a !! vreg = Some preg -> a' = a -> allocated func a vreg current a' preg
  | from_pool :
      m_vreg_to_preg a !! vreg = None -> last (m_free_registers a) = Some preg ->
      m_vreg_to_preg a' = <[vreg := preg]> (m_vreg_to_preg a) ->
      allocated func a vreg current a' preg
  | from_victim victim :
      m_vreg_to_preg a !! vreg = None -> m_free_registers a = [] ->
      m_vreg_to_preg a !! victim = Some preg -> evictable func a current victim ->
      m_vreg_to_preg a' = <[vreg := preg]> (delete victim (m_vreg_to_preg a)) ->
      allocated func a vreg current a' preg
  | exhausted :
      m_vreg_to_preg a = ∅ -> m_free_registers a = [] -> a' = a -> preg = -1 -> allocated func a vreg current a' preg.

Lemma allocate_spec `{HashOrder} a func vreg current :
  m_vreg_all_uses a = compute_next_use func -> m_vreg_to_preg a !! (-1) = None ->
  let r := allocate_register a vreg current in allocated func a vreg current r.1 r.2.
Proof.
  intros Ha Hneg. cbn zeta. unfold allocate_register.
  destruct (m_vreg_to_preg a !! vreg) as [p|] eqn:Ev; [by apply already_mapped|].
  destruct (m_free_registers a) as [|f fs] eqn:Ef.
  - destruct (spill_candidate_spec a func current Ha) as [[He Hc]|[[p Hp] Hcand]].
    + rewrite Hc. cbn. rewrite Ef. cbn. by apply exhausted.
    + set (c := find_spill_candidate a current) in *. destruct (Z.eqb_spec c (-1)) as [Hc|_]; [congruence|].
      unfold spill_register, release. rewrite Hp. cbn. rewrite Ef. cbn. by eapply from_victim.
  - unfold pop_free. destruct (last (m_free_registers a)) as [p|] eqn:El; rewrite Ef in El.
    + apply from_pool; [done|by rewrite Ef|done].
    + by apply last_None in El.
Qed.

(** C22: an allocation keeps the mapping it finds; takes the last register of the
    pool; with an empty pool takes the register of one mapped victim, whose mapping
    is the only one given up, and which no later instruction names or is needed no
    earlier than any other; or, with nothing mapped either, answers -1.  The
    register -1 must not be mapped: the code takes it for "no candidate". *)
Theorem allocate_evicts_the_furthest `{HashOrder} func ops vreg current :
  let a := apply_ops (init func) ops in
  let r := allocate_register a vreg current in
  m_vreg_to_preg a !! (-1) = None -> allocated func a vreg current r.1 r.2.
Proof. intros a r Hneg. apply allocate_spec; [|done]. subst a. by rewrite apply_ops_uses. Qed.

(** Seventeen registers in use. *)
Definition full_pool : list Op := map (fun v => Allocate (Z.of_nat v) 0) (seq 0 17).

Definition idle_function : IRFunction :=
  simple_function "f" [] [instr IROpcode.RETURN []] 20.

Lemma allocate_evicts_the_furthest_witness :
  let a := apply_ops (init idle_function) full_pool in
  let r := allocate_register a 17 0 in
  m_free_registers a = [] /\ m_vreg_to_preg a !! (-1) = None /\ allocated idle_function a 17 0 r.1 r.2.
Proof.
  split; [by vm_compute|]. split; [by vm_compute|].
  apply (allocate_evicts_the_furthest idle_function full_pool 17 0). by vm_compute.
Defined.

(** With the pool exhausted, [handle_syscall_clobbering] spills the first
    clobbered register, takes it for free, and moves the value of the second
    one into it: the move it returns ends in a register of the list it was
    asked to clear. *)
Theorem clobbering_moves_into_clobbered :
  let a := apply_ops (init idle_function) full_pool in
  m_free_registers a = [] /\
  (handle_syscall_clobbering a [5; 6]).2 = [(6, 5)] /\
  get_vreg_for_preg (handle_syscall_clobbering a [5; 6]).1 5 = 15.
Proof. by vm_compute. Qed.

(** A register whose value was moved away is neither in use nor free. *)
Example clobbering_leaks :
  let a := (handle_syscall_clobbering (apply_ops (init idle_function) [Allocate 0 0]) [30]).1 in
  get_vreg_for_preg a 30 = -1 /\ is_register_available a 30 = false.
Proof. by vm_compute. Qed.

End RegisterAllocator.
