(* ===== verification/Wire.v ===== *)
(** * Binary metadata: scalars, strings and the bounds-checked reader

    The metadata formats (function_signature.cpp, property_signature.cpp,
    gdsmeta.cpp, line_table.cpp, debug_layout.cpp) share their scalar and string
    encodings and a [Reader]: a cursor that, once a read would pass the end,
    clears [ok] and answers zeros.  A byte is a [Z] between 0 and 255.

    A decoder is a computation of the [Dec] monad: it answers [Ok None] where
    the source returns false, and [Throw (UB _)] where it would copy from
    outside the blob.  [Safe] says that the second never happens; [Parses] and
    [Finishes] say what a decoder makes of well-formed bytes, and compose along
    the monad. *)

From Stdlib Require Import Ascii.
From S2P Require Import Prelude.

Module Wire.

(** ** Bytes *)

Definition is_byte (b : Z) : Prop := 0 <= b < 256.

(** [write_scalar<T>] on a little-endian machine, [sizeof(T)] being [n]. *)
Fixpoint write_scalar (n : nat) (value : Z) : list Z :=
  match n with
  | O => []
  | S n => value mod 256 :: write_scalar n (value / 256)
  end.

(** What [memcpy] makes of the bytes in an unsigned variable. *)
Fixpoint of_bytes (bytes : list Z) : Z :=
  match bytes with
  | [] => 0
  | b :: bytes => b + 256 * of_bytes bytes
  end.

Definition string_bytes (s : string) : list Z :=
  map (fun c => Z.of_N (N_of_ascii c)) (String.list_ascii_of_string s).

Definition bytes_string (bytes : list Z) : string :=
  String.string_of_list_ascii (map (fun b => ascii_of_N (Z.to_N b)) bytes).

Definition write_string (s : string) : list Z :=
  write_scalar 4 (Z.of_nat (String.length s)) ++ string_bytes s.

Definition write_blob (blob : list Z) : list Z :=
  write_scalar 4 (Z.of_nat (length blob)) ++ blob.

Definition write_bool (b : bool) : list Z := write_scalar 1 (if b then 1 else 0).

(** ** The reader *)

Record Reader := mkReader {
  data : list Z;
  offset : nat;
  ok : bool
}.

Definition size (r : Reader) : nat := length (data r).

Definition Dec (A : Type) : Type := Reader -> outcome (option (A * Reader)).

Definition ret {A} (a : A) : Dec A := fun r => Ok (Some (a, r)).

Definition bind {A B} (c : Dec A) (k : A -> Dec B) : Dec B :=
  fun r => match c r with
           | Ok (Some (a, r')) => k a r'
           | Ok None => Ok None
           | Throw e => Throw e
           end.

Notation "'let+' x ':=' c 'in' k" := (bind c (fun x => k))
  (at level 10, x pattern, c at level 100, k at level 200) : gdsc_scope.

(** [if (...) return false;] where the condition is the negation of [p]. *)
Definition require (p : Reader -> bool) : Dec unit :=
  fun r => if p r then Ok (Some (tt, r)) else Ok None.

(** The condition [reader.offset == size]. *)
Definition at_end : Dec bool := fun r => Ok (Some (Nat.eqb (offset r) (size r), r)).

Definition is_ok : Dec bool := fun r => Ok (Some (ok r, r)).

(** [reader.ok = false;] *)
Definition fail : Dec unit := fun r => Ok (Some (tt, mkReader (data r) (offset r) false)).

(** The bytes at [at_], which are in the blob or the copy is undefined. *)
Definition memcpy (bytes : list Z) (at_ n : nat) : outcome (list Z) :=
  if decide (at_ + n <= length bytes)%nat then Ok (take n (drop at_ bytes))
  else Throw (UB "copy from outside the blob").

Definition take_bytes (n : nat) : Dec (list Z) :=
  fun r => let? bytes := memcpy (data r) (offset r) n in
           Ok (Some (bytes, mkReader (data r) (offset r + n) (ok r))).

(** [scalar<T>] for an unsigned [T]. *)
Definition scalar (n : nat) : Dec Z :=
  fun r =>
    if negb (ok r) || (size r <? offset r + n)%nat then Ok (Some (0, mkReader (data r) (offset r) false))
    else (let+ bytes := take_bytes n in ret (of_bytes bytes)) r.

(** [scalar<int32_t>] and [scalar<int64_t>]. *)
Definition signed_scalar (n : nat) : Dec Z :=
  let+ v := scalar n in ret (wraps (8 * Z.of_nat n) v).

(** [string()]; [limit] is the decoder's [MAX_STRING], when it has one. *)
Definition read_string (limit : option Z) : Dec string :=
  let+ length := scalar 4 in
  fun r =>
    if negb (ok r) || (match limit with Some l => l <? length | None => false end)
       || (Z.of_nat (size r) <? Z.of_nat (offset r) + length)
    then Ok (Some (EmptyString, mkReader (data r) (offset r) false))
    else (let+ bytes := take_bytes (Z.to_nat length) in ret (bytes_string bytes)) r.

(** [for (i = 0; i < count; i++) out.push_back(...)] *)
Fixpoint repeat {A} (n : nat) (g : Dec A) : Dec (list A) :=
  match n with
  | O => ret []
  | S n => let+ x := g in let+ xs := repeat n g in ret (x :: xs)
  end.

(** [for (T &x : out) ...], the body answering the new value of [x]. *)
Fixpoint for_each {A B} (g : A -> Dec B) (l : list A) : Dec (list B) :=
  match l with
  | [] => ret []
  | x :: l => let+ y := g x in let+ ys := for_each g l in ret (y :: ys)
  end.

(** Runs a decoder on a blob. *)
Definition run {A} (g : Dec A) (bytes : list Z) : outcome (option A) :=
  let? res := g (mkReader bytes 0 true) in Ok (fst <$> res).

(** ** Decoders stay inside the blob *)

Definition in_bounds (r : Reader) : Prop := (offset r <= size r)%nat.

(** Never copies from outside and leaves the cursor in the same blob. *)
Class Safe {A} (g : Dec A) : Prop :=
  safe : forall r, in_bounds r ->
    match g r with
    | Ok (Some (_, r')) => in_bounds r' /\ data r' = data r
    | Ok None => True
    | Throw _ => False
    end.

#[export] Instance safe_ret {A} (a : A) : Safe (ret a).
Proof. intros r Hr. done. Qed.

#[export] Instance safe_bind {A B} (c : Dec A) (k : A -> Dec B) :
  Safe c -> (forall a, Safe (k a)) -> Safe (bind c k).
Proof.
  intros Hc Hk r Hr. unfold bind. specialize (Hc r Hr). destruct (c r) as [[[a r']|]|]; [|done|done].
  destruct Hc as [Hr' Hd]. specialize (Hk a r' Hr'). destruct (k a r') as [[[b r'']|]|]; [|done|done].
  by rewrite <- Hd.
Qed.

#[export] Instance safe_if {A} (b : bool) (g h : Dec A) : Safe g -> Safe h -> Safe (if b then g else h).
Proof. by destruct b. Qed.

#[export] Instance safe_require p : Safe (require p).
Proof. intros r Hr. unfold require. by destruct (p r). Qed.

#[export] Instance safe_at_end : Safe at_end.
Proof. intros r Hr. done. Qed.

#[export] Instance safe_is_ok : Safe is_ok.
Proof. intros r Hr. done. Qed.

#[export] Instance safe_fail : Safe fail.
Proof. intros r Hr. done. Qed.

(** A copy after its length was compared with what is left. *)
Lemma take_bytes_safe n r :
  (offset r + n <= size r)%nat ->
  exists bytes, length bytes = n /\ take_bytes n r = Ok (Some (bytes, mkReader (data r) (offset r + n) (ok r))).
Proof.
  intros Hn. unfold take_bytes, memcpy. rewrite decide_True by done. eexists. split; [|done].
  unfold size in Hn. rewrite length_take, length_drop. lia.
Qed.

#[export] Instance safe_scalar n : Safe (scalar n).
Proof.
  intros r Hr. unfold scalar. destruct (ok r); cbn [negb orb]; [|by split].
  destruct (Nat.ltb_spec (size r) (offset r + n)); [by split|]. unfold bind.
  destruct (take_bytes_safe n r ltac:(lia)) as (bytes & _ & ->). cbn. split; [|done].
  unfold in_bounds, size in *. cbn. lia.
Qed.

#[export] Instance safe_signed_scalar n : Safe (signed_scalar n).
Proof. unfold signed_scalar. apply _. Qed.

Lemma of_bytes_nonneg bytes : Forall is_byte bytes -> 0 <= of_bytes bytes.
Proof. induction 1 as [|b bytes [? ?] _ IH]; cbn; lia. Qed.

#[export] Instance safe_read_string limit : Safe (read_string limit).
Proof.
  apply safe_bind; [apply _|]. intros length r Hr. destruct (_ || _) eqn:E; [done|]. unfold bind.
  apply orb_false_iff in E as [_ E%Z.ltb_ge]. unfold in_bounds in Hr.
  destruct (take_bytes_safe (Z.to_nat length) r) as (bytes & _ & ->); [lia|]. cbn. split; [|done].
  unfold in_bounds, size in *. cbn. lia.
Qed.

#[export] Instance safe_repeat {A} n (g : Dec A) : Safe g -> Safe (repeat n g).
Proof. intros Hg. induction n; cbn; apply _. Qed.

#[export] Instance safe_for_each {A B} (g : A -> Dec B) l : (forall x, Safe (g x)) -> Safe (for_each g l).
Proof. intros Hg. induction l; cbn; apply _. Qed.

Lemma run_safe {A} (g : Dec A) bytes : Safe g -> is_Ok (run g bytes).
Proof.
  intros Hg. specialize (Hg (mkReader bytes 0 true) ltac:(unfold in_bounds; cbn; lia)). unfold run.
  destruct (g _) as [[[a r]|]|]; [by eexists|by eexists|done].
Qed.

(** ** What decoders make of well-formed bytes *)

(** Wherever [bytes] stand in a blob, [g] reads exactly them and answers [a]. *)
Definition Parses {A} (g : Dec A) (bytes : list Z) (a : A) : Prop :=
  forall before after_,
    g (mkReader (before ++ bytes ++ after_) (length before) true)
    = Ok (Some (a, mkReader (before ++ bytes ++ after_) (length before + length bytes) true)).

(** The same where [bytes] are the end of the blob. *)
Definition Finishes {A} (g : Dec A) (bytes : list Z) (a : A) : Prop :=
  forall before,
    g (mkReader (before ++ bytes) (length before) true)
    = Ok (Some (a, mkReader (before ++ bytes) (length before + length bytes) true)).

Lemma parses_finishes {A} (g : Dec A) bytes a : Parses g bytes a -> Finishes g bytes a.
Proof. intros Hg before. specialize (Hg before []). by rewrite app_nil_r in Hg. Qed.

Lemma finishes_run {A} (g : Dec A) bytes a : Finishes g bytes a -> run g bytes = Ok (Some a).
Proof. intros Hg. specialize (Hg []). cbn in Hg. unfold run. by rewrite Hg. Qed.

Lemma parses_ret {A} (a : A) : Parses (ret a) [] a.
Proof. intros before after_. unfold ret. cbn. by rewrite Nat.add_0_r. Qed.

Lemma parses_bind {A B} (c : Dec A) (k : A -> Dec B) bytes1 bytes2 a b :
  Parses c bytes1 a -> Parses (k a) bytes2 b -> Parses (bind c k) (bytes1 ++ bytes2) b.
Proof.
  intros Hc Hk before after_. unfold bind. rewrite <- app_assoc, Hc.
  rewrite (app_assoc before bytes1), <- (length_app before bytes1), Hk, !length_app. do 4 f_equal. lia.
Qed.

Lemma finishes_bind {A B} (c : Dec A) (k : A -> Dec B) bytes1 bytes2 a b :
  Parses c bytes1 a -> Finishes (k a) bytes2 b -> Finishes (bind c k) (bytes1 ++ bytes2) b.
Proof.
  intros Hc Hk before. unfold bind. rewrite Hc.
  rewrite (app_assoc before bytes1), <- (length_app before bytes1), Hk, !length_app. do 4 f_equal. lia.
Qed.

(** The last step of a computation. *)
Lemma parses_bind_ret {A B} (c : Dec A) (f : A -> B) bytes a :
  Parses c bytes a -> Parses (bind c (fun x => ret (f x))) bytes (f a).
Proof. intros Hc. rewrite <- (app_nil_r bytes). by eapply parses_bind, parses_ret. Qed.

(** A condition that holds of the blob at hand. *)
Lemma parses_require {B} p (k : unit -> Dec B) bytes b :
  (forall r, in_bounds r -> (length bytes <= size r - offset r)%nat -> ok r = true -> p r = true) ->
  Parses (k tt) bytes b -> Parses (bind (require p) k) bytes b.
Proof.
  intros Hp Hk before after_. unfold bind, require. rewrite Hp; [apply Hk| | |done];
    unfold in_bounds, size; cbn; rewrite !length_app; lia.
Qed.

Lemma finishes_require {B} p (k : unit -> Dec B) bytes b :
  (forall r, in_bounds r -> (length bytes = size r - offset r)%nat -> ok r = true -> p r = true) ->
  Finishes (k tt) bytes b -> Finishes (bind (require p) k) bytes b.
Proof.
  intros Hp Hk before. unfold bind, require. rewrite Hp; [apply Hk| | |done];
    unfold in_bounds, size; cbn; rewrite !length_app; lia.
Qed.

Lemma finishes_at_end {B} (k : bool -> Dec B) bytes b :
  Finishes (k (bool_decide (bytes = []))) bytes b -> Finishes (bind at_end k) bytes b.
Proof.
  intros Hk before. unfold bind, at_end, size. cbn. rewrite length_app.
  replace (Nat.eqb (length before) (length before + length bytes)) with (bool_decide (bytes = [])); [apply Hk|].
  destruct bytes; cbn; symmetry; [apply Nat.eqb_eq|apply Nat.eqb_neq]; lia.
Qed.

Lemma finishes_is_ok {B} (k : bool -> Dec B) bytes b : Finishes (k true) bytes b -> Finishes (bind is_ok k) bytes b.
Proof. intros Hk before. apply Hk. Qed.

Lemma length_write_scalar n v : length (write_scalar n v) = n.
Proof. revert v. induction n; intros v; cbn; auto. Qed.

Lemma of_bytes_write_scalar n v : of_bytes (write_scalar n v) = v mod 2 ^ (8 * Z.of_nat n).
Proof.
  revert v. induction n as [|n IH]; intros v; cbn [write_scalar of_bytes]; [by rewrite Z.mod_1_r|].
  rewrite IH. replace (8 * Z.of_nat (S n)) with (8 + 8 * Z.of_nat n) by lia.
  rewrite Z.pow_add_r by lia. change (2 ^ 8) with 256.
  rewrite Z.rem_mul_r by (try apply Z.pow_pos_nonneg; lia). done.
Qed.

Lemma write_scalar_bytes n v : Forall is_byte (write_scalar n v).
Proof.
  revert v. induction n as [|n IH]; intros v; cbn; [done|]. constructor; [|apply IH].
  apply Z.mod_pos_bound. lia.
Qed.

Lemma take_bytes_parses bytes : Parses (take_bytes (length bytes)) bytes bytes.
Proof.
  intros before after_. unfold take_bytes, memcpy. cbn.
  rewrite decide_True by (rewrite !length_app; lia). cbn. by rewrite drop_app_length, take_app_length.
Qed.

Lemma scalar_parses n v : 0 <= v < 2 ^ (8 * Z.of_nat n) -> Parses (scalar n) (write_scalar n v) v.
Proof.
  intros Hv before after_. unfold scalar, size. cbn [ok data offset negb orb].
  destruct (Nat.ltb_spec (length (before ++ write_scalar n v ++ after_)) (length before + n)) as [Hlt|_].
  { rewrite !length_app, length_write_scalar in Hlt. lia. }
  pose proof (parses_bind_ret _ of_bytes _ _ (take_bytes_parses (write_scalar n v)) before after_) as Hp.
  rewrite length_write_scalar in Hp. rewrite length_write_scalar, Hp, of_bytes_write_scalar, Z.mod_small by done.
  reflexivity.
Qed.

Lemma signed_scalar_parses n v :
  (0 < n)%nat -> - 2 ^ (8 * Z.of_nat n - 1) <= v < 2 ^ (8 * Z.of_nat n - 1) ->
  Parses (signed_scalar n) (write_scalar n v) v.
Proof.
  intros Hn Hv. assert (Hmod : write_scalar n v = write_scalar n (v mod 2 ^ (8 * Z.of_nat n))).
  { clear Hv Hn. revert v. induction n as [|n IH]; intros v; [done|]. cbn [write_scalar].
    replace (8 * Z.of_nat (S n)) with (8 + 8 * Z.of_nat n) by lia. rewrite Z.pow_add_r by lia.
    change (2 ^ 8) with 256. assert (0 < 2 ^ (8 * Z.of_nat n)) by (apply Z.pow_pos_nonneg; lia).
    rewrite Z.rem_mul_r by lia. rewrite (Z.mul_comm 256), Z.mod_add, Z.mod_mod by lia.
    rewrite Z.div_add by lia. rewrite (Z.div_small (v mod 256)) by (apply Z.mod_pos_bound; lia).
    rewrite Z.add_0_l. by rewrite <- IH. }
  rewrite Hmod. replace v with (wraps (8 * Z.of_nat n) (v mod 2 ^ (8 * Z.of_nat n))) at 2.
  - apply parses_bind_ret, scalar_parses, Z.mod_pos_bound, Z.pow_pos_nonneg; lia.
  - change (v mod 2 ^ (8 * Z.of_nat n)) with (wrapu (8 * Z.of_nat n) v).
    rewrite wraps_wrapu by lia. apply wraps_id; lia.
Qed.

Lemma bytes_string_bytes s : bytes_string (string_bytes s) = s.
Proof.
  unfold bytes_string, string_bytes. rewrite map_map.
  rewrite (map_ext _ (fun c => c)); [by rewrite map_id, String.string_of_list_ascii_of_string|].
  intros c. by rewrite N2Z.id, ascii_N_embedding.
Qed.

Lemma length_string_bytes s : length (string_bytes s) = String.length s.
Proof. unfold string_bytes. rewrite length_map. induction s; cbn; auto. Qed.

(** A string whose length the format carries. *)
Definition short (limit : option Z) (s : string) : Prop :=
  Z.of_nat (String.length s) <= match limit with Some l => Z.min l (2 ^ 32 - 1) | None => 2 ^ 32 - 1 end.

Lemma read_string_parses limit s : short limit s -> Parses (read_string limit) (write_string s) s.
Proof.
  intros Hs. eapply parses_bind.
  - apply scalar_parses. unfold short in Hs. destruct limit; lia.
  - intros before after_. cbn [ok data offset].
    destruct (_ || _) eqn:E.
    + exfalso. apply orb_true_iff in E as [E|E%Z.ltb_lt].
      * unfold short in Hs. destruct limit; cbn in E; [apply Z.ltb_lt in E|]; lia.
      * unfold size in E. cbn in E. rewrite !length_app, length_string_bytes in E. lia.
    + rewrite Nat2Z.id, <- length_string_bytes.
      pose proof (parses_bind_ret _ bytes_string _ _ (take_bytes_parses (string_bytes s))) as Hp.
      rewrite bytes_string_bytes in Hp. apply Hp.
Qed.

Lemma repeat_parses {A B} (g : Dec B) (w : A -> list Z) (f : A -> B) l :
  (forall x, x ∈ l -> Parses g (w x) (f x)) ->
  Parses (repeat (length l) g) (concat (map w l)) (map f l).
Proof.
  induction l as [|x l IH]; intros Hl; cbn; [apply parses_ret|].
  eapply parses_bind; [apply Hl; left|]. apply (parses_bind_ret _ (cons (f x))), IH. intros y Hy. apply Hl. by right.
Qed.

Lemma for_each_parses {A B C} (g : B -> Dec C) (w : A -> list Z) (f : A -> B) (h : A -> C) l :
  (forall x, x ∈ l -> Parses (g (f x)) (w x) (h x)) ->
  Parses (for_each g (map f l)) (concat (map w l)) (map h l).
Proof.
  induction l as [|x l IH]; intros Hl; cbn; [apply parses_ret|].
  eapply parses_bind; [apply Hl; left|]. apply (parses_bind_ret _ (cons (h x))), IH. intros y Hy. apply Hl. by right.
Qed.

(** ** Flags *)

(** [scalar<uint8_t>() != 0] *)
Definition read_bool : Dec bool := let+ v := scalar 1 in ret (negb (v =? 0)).

(** A flag byte above 1 makes the function return. *)
Definition read_strict_bool : Dec bool :=
  let+ v := scalar 1 in let+ _ := require (fun _ => v <=? 1) in ret (negb (v =? 0)).

(** A flag byte above 1 clears [ok]. *)
Definition read_flag : Dec bool :=
  let+ v := scalar 1 in let+ _ := (if 1 <? v then fail else ret tt) in ret (negb (v =? 0)).

#[export] Instance safe_read_bool : Safe read_bool.
Proof. unfold read_bool. apply _. Qed.

#[export] Instance safe_read_strict_bool : Safe read_strict_bool.
Proof. unfold read_strict_bool. apply _. Qed.

#[export] Instance safe_read_flag : Safe read_flag.
Proof. unfold read_flag. apply _. Qed.

Lemma scalar1_parses (b : bool) : Parses (scalar 1) (write_bool b) (if b then 1 else 0).
Proof. apply scalar_parses. by destruct b. Qed.

Lemma read_bool_parses b : Parses read_bool (write_bool b) b.
Proof.
  rewrite <- (app_nil_r (write_bool b)). eapply parses_bind; [apply scalar1_parses|]. destruct b; apply parses_ret.
Qed.

Lemma read_strict_bool_parses b : Parses read_strict_bool (write_bool b) b.
Proof.
  rewrite <- (app_nil_r (write_bool b)). eapply parses_bind; [apply scalar1_parses|].
  apply parses_require; [by destruct b|]. destruct b; apply parses_ret.
Qed.

Lemma read_flag_parses b : Parses read_flag (write_bool b) b.
Proof.
  rewrite <- (app_nil_r (write_bool b)). eapply parses_bind; [apply scalar1_parses|]. destruct b; apply parses_ret.
Qed.

(** ** Nested blobs *)

(** Continues with the answer of a decoder run on other bytes. *)
Definition lift {A} (o : outcome (option A)) : Dec A :=
  fun r => let? res := o in Ok ((fun a => (a, r)) <$> res).

(** [decode(reader.data + reader.offset, length, ...)] and the step over the
    nested blob, after the length was read. *)
Definition sub_blob {A} (decode : list Z -> outcome (option A)) (length : Z) : Dec A :=
  let+ _ := require (fun r => ok r && (Z.of_nat (offset r) + length <=? Z.of_nat (size r))) in
  let+ bytes := take_bytes (Z.to_nat length) in
  lift (decode bytes).

#[export] Instance safe_lift {A} (o : outcome (option A)) : is_Ok o -> Safe (lift o).
Proof. intros [res ->] r Hr. unfold lift. by destruct res. Qed.

#[export] Instance safe_sub_blob {A} (decode : list Z -> outcome (option A)) length :
  (forall bytes, is_Ok (decode bytes)) -> Safe (sub_blob decode length).
Proof.
  intros Hd r Hr. unfold sub_blob, bind, require. destruct (_ && _) eqn:E; [|done].
  apply andb_true_iff in E as [_ E%Z.leb_le]. unfold in_bounds in Hr.
  destruct (take_bytes_safe (Z.to_nat length) r ltac:(lia)) as (bytes & _ & ->).
  destruct (Hd bytes) as [[a|] ->]; cbn; [|done]. split; [|done]. unfold in_bounds, size in *. cbn. lia.
Qed.

Lemma lift_parses {A} (a : A) : Parses (lift (Ok (Some a))) [] a.
Proof. apply parses_ret. Qed.

Lemma sub_blob_parses {A} (decode : list Z -> outcome (option A)) bytes a :
  decode bytes = Ok (Some a) -> Parses (sub_blob decode (Z.of_nat (length bytes))) bytes a.
Proof.
  intros Hd. apply parses_require.
  - intros r Hr Hl ->. apply Z.leb_le. unfold in_bounds in Hr. lia.
  - rewrite Nat2Z.id. rewrite <- (app_nil_r bytes) at 2. eapply parses_bind; [apply take_bytes_parses|].
    rewrite Hd. apply lift_parses.
Qed.

(** ** Encoders that may throw *)

Definition ok_bytes (o : outcome (list Z)) : list Z := match o with Ok bytes => bytes | Throw _ => [] end.

Lemma omapM_ok_bytes {A} (w : A -> outcome (list Z)) l :
  (forall x, x ∈ l -> is_Ok (w x)) -> omapM w l = Ok (map (fun x => ok_bytes (w x)) l).
Proof.
  induction l as [|x l IH]; intros Hl; [done|]. cbn [omapM map].
  destruct (Hl x ltac:(left)) as [bytes ->]. cbn [obind ok_bytes]. rewrite IH; [done|]. intros y Hy. apply Hl. by right.
Qed.

Lemma length_concat_map {A} (w : A -> list Z) l :
  (forall x, x ∈ l -> 0 < length (w x))%nat -> (length l <= length (concat (map w l)))%nat.
Proof.
  induction l as [|x l IH]; intros Hl; cbn [map concat length]; [lia|]. rewrite length_app.
  specialize (Hl x ltac:(left)) as Hx. specialize (IH ltac:(intros y Hy; apply Hl; by right)). lia.
Qed.

(** One step of a decoder that reads a scalar, a string or a flag; the side
    conditions are bounds. *)
Ltac parse_scalar :=
  first [ apply read_string_parses | apply read_bool_parses | apply read_strict_bool_parses | apply read_flag_parses
        | apply signed_scalar_parses | apply scalar_parses ]; try done; try lia.

Ltac parse_fields := repeat (eapply parses_bind; [by parse_scalar|]).

End Wire.
