(* ===== verification/LineTable.v ===== *)
(** * Line table

    Models line_table.h and line_table.cpp: the map from code addresses to
    source lines, its lookups and its blob.  [decode_line_table_exact] says that
    the decoder accepts the encodings of ascending tables and nothing else;
    [line_for_address_correct] that the binary search finds the covering row. *)

From stdpp Require Import sorting.
From S2P Require Import Prelude.
From S2P Require Import Wire.

Module LineTable.
Import Wire.

Definition LINE_TABLE_MAGIC : Z := 0x4C534447.
Definition LINE_TABLE_VERSION : Z := 1.

Record LineTableEntry := mkEntry {
  address : Z;
  line : Z
}.

Definition LineTable : Type := list LineTableEntry.

(** ** Lookups *)

(** [std::upper_bound]: halves the range [first, first + len) that may hold the
    first element for which [less] answers true. *)
Fixpoint upper_bound_loop {A} (less : A -> bool) (l : list A) (fuel first len : nat) : nat :=
  match fuel, len with
  | S fuel, S _ =>
      let half := Nat.div2 len in
      match l !! (first + half)%nat with
      | Some x => if less x then upper_bound_loop less l fuel first half
                  else upper_bound_loop less l fuel (first + half + 1) (len - half - 1)
      | None => first
      end
  | _, _ => first
  end.

Definition upper_bound {A} (less : A -> bool) (l : list A) : nat :=
  upper_bound_loop less l (length l) 0 (length l).

Definition line_for_address (t : LineTable) (addr : Z) : outcome Z :=
  match upper_bound (fun entry => addr <? address entry) t with
  | O => Ok 0
  | S i => let? entry := nth_ub t i in Ok (line entry)
  end.

Definition address_for_line (t : LineTable) (wanted : Z) : Z :=
  let '(best, found) :=
    fold_left (fun '(best, found) entry =>
      if negb (line entry =? wanted) then (best, found)
      else if negb found || (address entry <? best) then (address entry, true)
      else (best, found)) t (0, false) in
  if found : bool then best else 0.

Fixpoint is_normalized (t : LineTable) : bool :=
  match t with
  | e1 :: ((e2 :: _) as rest) =>
      if address e2 <=? address e1 then false
      else if line e2 =? line e1 then false
      else is_normalized rest
  | _ => true
  end.

(** ** The blob *)

Definition write_entry (entry : LineTableEntry) : list Z :=
  write_scalar 4 (address entry) ++ write_scalar 4 (line entry).

Definition encode_line_table (t : LineTable) : list Z :=
  write_scalar 4 LINE_TABLE_MAGIC ++ write_scalar 4 LINE_TABLE_VERSION
  ++ write_scalar 4 (Z.of_nat (length t)) ++ concat (map write_entry t).

Definition read_row (data : list Z) (i : nat) : outcome LineTableEntry :=
  let? row := memcpy data (12 + i * 8) 8 in
  Ok (mkEntry (of_bytes (take 4 row)) (of_bytes (drop 4 row))).

Fixpoint ascending (t : LineTable) : bool :=
  match t with
  | e1 :: ((e2 :: _) as rest) => if address e2 <=? address e1 then false else ascending rest
  | _ => true
  end.

(** [None] is the null pointer; [Ok None] is the answer false, the output empty. *)
Definition decode_line_table (data : option (list Z)) : outcome (option LineTable) :=
  match data with
  | None => Ok None
  | Some data =>
      if (length data <? 12)%nat then Ok None else
      let? header := memcpy data 0 12 in
      if negb (of_bytes (take 4 header) =? LINE_TABLE_MAGIC)
         || negb (of_bytes (take 4 (drop 4 header)) =? LINE_TABLE_VERSION) then Ok None else
      let count := of_bytes (drop 8 header) in
      if negb (Z.of_nat (length data) =? 12 + count * 8) then Ok None else
      let? entries := omapM (read_row data) (seq 0 (Z.to_nat count)) in
      if ascending entries then Ok (Some entries) else Ok None
  end.

(** ** Binary search *)

Lemma upper_bound_loop_spec {A} (less : A -> bool) l fuel first len :
  (len <= fuel)%nat -> (first + len <= length l)%nat ->
  (forall i j x y, l !! i = Some x -> l !! j = Some y -> (i <= j)%nat -> less x = true -> less y = true) ->
  (forall i x, l !! i = Some x -> (i < first)%nat -> less x = false) ->
  (forall i x, l !! i = Some x -> (first + len <= i)%nat -> less x = true) ->
  let n := upper_bound_loop less l fuel first len in
  (n <= length l)%nat /\
  (forall i x, l !! i = Some x -> (i < n)%nat -> less x = false) /\
  (forall i x, l !! i = Some x -> (n <= i)%nat -> less x = true).
Proof.
  intros Hf Hl Hmono. revert first len Hf Hl. induction fuel as [|fuel IH]; intros first len Hf Hl Hlo Hhi.
  { cbn. replace len with 0%nat in * by lia. rewrite Nat.add_0_r in *. auto. }
  destruct len as [|len']; [cbn; rewrite Nat.add_0_r in *; auto|]. cbn [upper_bound_loop].
  set (len := S len') in *. pose proof (Nat.lt_div2 len ltac:(lia)) as Hh. set (half := Nat.div2 len) in *.
  destruct (lookup_lt_is_Some_2 l (first + half)%nat ltac:(lia)) as [x Hx]. rewrite Hx.
  destruct (less x) eqn:E; apply IH; try lia; try done.
  - intros i y Hy Hi. apply (Hmono (first + half)%nat i x y); [done|done|lia|done].
  - intros i y Hy Hi. destruct (less y) eqn:Ey; [|done].
    rewrite (Hmono i (first + half)%nat y x) in E; [done|done|done|lia|done].
  - intros i y Hy Hi. apply (Hhi i); [done|lia].
Qed.

Lemma ascending_lt (t : LineTable) i j x y :
  ascending t = true -> t !! i = Some x -> t !! j = Some y -> (i < j)%nat -> address x < address y.
Proof.
  intros Ha. assert (Hs : StronglySorted (fun x y => address x < address y) t).
  { apply Sorted_StronglySorted; [intros ???; lia|].
    induction t as [|e1 [|e2 t] IH]; [constructor|by repeat constructor|].
    cbn [ascending] in Ha. destruct (Z.leb_spec (address e2) (address e1)); [done|].
    constructor; [by apply IH|]. by constructor. }
  clear Ha. revert i j. induction Hs as [|e t Hs IH Ht]; intros [|i] [|j] Hx Hy Hij; try done; try lia.
  - cbn in *. injection Hx as ->. rewrite Forall_forall in Ht. apply Ht. by eapply list_elem_of_lookup_2.
  - cbn in *. eapply IH; [done|done|lia].
Qed.

(** In a table whose addresses ascend, the binary search of
    [line_for_address] finds the row that covers the address, the last one that
    does not start after it, and answers 0 before the first row; it never reads
    outside the table. *)
Theorem line_for_address_correct (t : LineTable) (addr : Z) :
  ascending t = true ->
  (forall before entry after_, t = before ++ entry :: after_ ->
     address entry <= addr -> Forall (fun e => addr < address e) after_ ->
     line_for_address t addr = Ok (line entry)) /\
  (Forall (fun e => addr < address e) t -> line_for_address t addr = Ok 0).
Proof.
  intros Ha. unfold line_for_address, upper_bound.
  destruct (upper_bound_loop_spec (fun e => addr <? address e) t (length t) 0 (length t)) as (Hn & Hlo & Hhi); try lia.
  - intros i j x y Hx Hy Hij Hlt%Z.ltb_lt. apply Z.ltb_lt. destruct (decide (i = j)) as [->|]; [by simplify_eq|].
    pose proof (ascending_lt t i j x y Ha Hx Hy ltac:(lia)). lia.
  - intros i x Hx Hi. apply lookup_lt_Some in Hx. lia.
  - set (n := upper_bound_loop _ _ _ _ _) in *. split.
    + intros before entry after_ -> He Hafter.
      assert (n = S (length before)) as ->.
      { assert (Hb : (before ++ entry :: after_) !! length before = Some entry) by (by rewrite list_lookup_middle).
        destruct (decide (n <= length before)%nat) as [Hle|Hgt].
        - apply (Hhi _ _ Hb), Z.ltb_lt in Hle. lia.
        - destruct (decide (n = S (length before))) as [|Hne]; [done|].
          rewrite length_app in Hn. cbn in Hn. destruct after_ as [|e after_]; [cbn in Hn; lia|].
          apply Forall_cons in Hafter as [Hlt _].
          assert (addr <? address e = false) as E%Z.ltb_ge; [|lia].
          apply (Hlo (S (length before)) e); [|lia].
          rewrite lookup_app_r by lia. by rewrite Nat.sub_succ_l, Nat.sub_diag by lia. }
      unfold nth_ub. rewrite list_lookup_middle by done. done.
    + intros Hall. destruct n as [|n'] eqn:E; [done|].
      destruct (lookup_lt_is_Some_2 t n' ltac:(lia)) as [x Hx].
      rewrite Forall_forall in Hall. specialize (Hall x (list_elem_of_lookup_2 _ _ _ Hx)).
      specialize (Hlo n' x Hx ltac:(lia)). apply Z.ltb_ge in Hlo. lia.
Qed.

Definition sample_table : LineTable := [mkEntry 16 3; mkEntry 24 5; mkEntry 40 3].

Lemma line_for_address_correct_witness :
  ascending sample_table = true /\ line_for_address sample_table 30 = Ok 5.
Proof.
  split; [reflexivity|].
  apply (proj1 (line_for_address_correct sample_table 30 eq_refl) [mkEntry 16 3] (mkEntry 24 5) [mkEntry 40 3] eq_refl).
  - cbn. lia.
  - constructor; [cbn; lia|constructor].
Defined.

(** ** The decoder accepts exactly the encodings *)

Definition entry_in_range (e : LineTableEntry) : Prop := is_uint32 (address e) /\ is_uint32 (line e).

Lemma length_write_entry e : length (write_entry e) = 8%nat.
Proof. unfold write_entry. by rewrite length_app, !length_write_scalar. Qed.

Lemma length_rows t : length (concat (map write_entry t)) = (length t * 8)%nat.
Proof. induction t as [|e t IH]; cbn [map concat length]; [done|]. rewrite length_app, IH, length_write_entry. lia. Qed.

Lemma of_bytes_uint32 v : is_uint32 v -> of_bytes (write_scalar 4 v) = v.
Proof. intros Hv. rewrite of_bytes_write_scalar. apply Z.mod_small, Hv. Qed.

Lemma read_row_here (before : list Z) i e after_ :
  length before = (12 + i * 8)%nat -> entry_in_range e ->
  read_row (before ++ write_entry e ++ after_) i = Ok e.
Proof.
  intros Hb [Ha Hl]. unfold read_row, memcpy. rewrite <- Hb.
  rewrite decide_True by (rewrite !length_app, length_write_entry; lia). cbn [obind].
  rewrite drop_app_length. pose proof (take_app_length (write_entry e) after_) as Ht.
  rewrite length_write_entry in Ht. rewrite Ht. unfold write_entry.
  pose proof (take_app_length (write_scalar 4 (address e)) (write_scalar 4 (line e))) as H1.
  pose proof (drop_app_length (write_scalar 4 (address e)) (write_scalar 4 (line e))) as H2.
  rewrite length_write_scalar in H1, H2. rewrite H1, H2, !of_bytes_uint32 by done. by destruct e.
Qed.

Lemma read_rows (before : list Z) i t :
  length before = (12 + i * 8)%nat -> Forall entry_in_range t ->
  omapM (read_row (before ++ concat (map write_entry t))) (seq i (length t)) = Ok t.
Proof.
  intros Hb Ht. revert before i Hb. induction Ht as [|e t He Ht IH]; intros before i Hb; [done|].
  cbn [length seq omapM map concat]. rewrite read_row_here by done. cbn [obind].
  rewrite app_assoc, IH; [done|]. rewrite length_app, length_write_entry. lia.
Qed.

Lemma of_bytes_range bytes : Forall is_byte bytes -> 0 <= of_bytes bytes < 2 ^ (8 * Z.of_nat (length bytes)).
Proof.
  induction 1 as [|b bytes [? ?] _ IH]; cbn [of_bytes length]; [done|].
  replace (8 * Z.of_nat (S (length bytes))) with (8 + 8 * Z.of_nat (length bytes)) by lia.
  rewrite Z.pow_add_r by lia. change (2 ^ 8) with 256. lia.
Qed.

Lemma write_of_bytes bytes : Forall is_byte bytes -> write_scalar (length bytes) (of_bytes bytes) = bytes.
Proof.
  induction 1 as [|b bytes Hb _ IH]; cbn [of_bytes length write_scalar]; [done|].
  rewrite Z.mul_comm, Z.mod_add, Z.mod_small by (lia || apply Hb).
  by rewrite Z.div_add, Z.div_small, Z.add_0_l, IH by (lia || apply Hb).
Qed.

(** Four bytes of the blob are the encoding of the number read from them. *)
Lemma write_word (bytes : list Z) at_ :
  Forall is_byte bytes -> (at_ + 4 <= length bytes)%nat ->
  write_scalar 4 (of_bytes (take 4 (drop at_ bytes))) = take 4 (drop at_ bytes) /\
  is_uint32 (of_bytes (take 4 (drop at_ bytes))).
Proof.
  intros Hb Hl. assert (Hw : Forall is_byte (take 4 (drop at_ bytes))) by (by apply Forall_take, Forall_drop).
  assert (Hn : length (take 4 (drop at_ bytes)) = 4%nat) by (rewrite length_take, length_drop; lia).
  pose proof (write_of_bytes _ Hw) as H1. pose proof (of_bytes_range _ Hw) as H2. rewrite Hn in *. done.
Qed.

Lemma read_row_write (data : list Z) i e :
  Forall is_byte data -> read_row data i = Ok e ->
  write_entry e = take 8 (drop (12 + i * 8) data) /\ entry_in_range e.
Proof.
  intros Hd. unfold read_row, memcpy. generalize (12 + i * 8)%nat as at_. intros at_.
  destruct (decide _) as [Hl|]; [|done]. cbn [obind]. intros [= <-]. unfold write_entry, entry_in_range. cbn [address line].
  rewrite take_take, skipn_firstn_comm, drop_drop. cbn [Nat.min Nat.sub].
  destruct (write_word data at_ Hd ltac:(lia)) as [-> H1].
  destruct (write_word data (at_ + 4) Hd ltac:(lia)) as [-> H2].
  split; [|done]. rewrite <- drop_drop. apply (take_take_drop _ 4 4).
Qed.

Lemma read_rows_write (data : list Z) i n t :
  Forall is_byte data -> omapM (read_row data) (seq i n) = Ok t -> (12 + (i + n) * 8 <= length data)%nat ->
  concat (map write_entry t) = take (n * 8) (drop (12 + i * 8) data) /\ Forall entry_in_range t /\ length t = n.
Proof.
  intros Hd. revert i t. induction n as [|n IH]; intros i t; cbn [seq omapM]; [by intros [= <-] _|].
  intros (e & He & (t' & Ht' & [= <-])%obind_Ok)%obind_Ok Hl.
  destruct (read_row_write data i e Hd He) as [Hw Hr].
  destruct (IH (S i) t' Ht' ltac:(lia)) as (Hw' & Hr' & Hn). split; [|split; [by constructor|cbn; congruence]].
  cbn [map concat]. rewrite Hw, Hw'. change (S n * 8)%nat with (8 + n * 8)%nat.
  rewrite <- (take_take_drop (drop (12 + i * 8) data) 8 (n * 8)), drop_drop. do 3 f_equal. lia.
Qed.

Lemma decode_of_encode (t : LineTable) :
  ascending t = true -> Forall entry_in_range t -> Z.of_nat (length t) < 2 ^ 32 ->
  decode_line_table (Some (encode_line_table t)) = Ok (Some t).
Proof.
  intros Ha Hr Hn. set (header := write_scalar 4 LINE_TABLE_MAGIC ++ write_scalar 4 LINE_TABLE_VERSION
    ++ write_scalar 4 (Z.of_nat (length t))).
  assert (Henc : encode_line_table t = header ++ concat (map write_entry t)).
  { unfold encode_line_table, header. by rewrite <- !app_assoc. }
  assert (Hh : length header = 12%nat) by (unfold header; by rewrite !length_app, !length_write_scalar).
  unfold decode_line_table. rewrite Henc. rewrite length_app, Hh, length_rows.
  destruct (Nat.ltb_spec (12 + length t * 8) 12); [lia|].
  assert (Hm : memcpy (header ++ concat (map write_entry t)) 0 12 = Ok header).
  { unfold memcpy. rewrite decide_True by (rewrite length_app, Hh; lia). rewrite drop_0, <- Hh. by rewrite take_app_length. }
  assert (H0 : of_bytes (take 4 header) = LINE_TABLE_MAGIC) by (apply (of_bytes_uint32 LINE_TABLE_MAGIC); by vm_compute).
  assert (H4 : of_bytes (take 4 (drop 4 header)) = LINE_TABLE_VERSION)
    by (apply (of_bytes_uint32 LINE_TABLE_VERSION); by vm_compute).
  assert (H8 : of_bytes (drop 8 header) = Z.of_nat (length t)) by (apply of_bytes_uint32; unfold is_uint32; lia).
  rewrite Hm. cbn [obind]. rewrite H0, H4, H8, !Z.eqb_refl. cbn [negb orb].
  destruct (Z.eqb_spec (Z.of_nat (12 + length t * 8)) (12 + Z.of_nat (length t) * 8)); [|lia]. cbn [negb].
  rewrite Nat2Z.id, (read_rows header 0 t) by done. cbn [obind]. by rewrite Ha.
Qed.

(** C19: the decoder accepts exactly the encodings of tables with ascending
    addresses: whatever bytes it is given, it answers a table if and only if
    the bytes are that table's encoding. *)
Theorem decode_line_table_exact (data : list Z) (t : LineTable) :
  Forall is_byte data ->
  decode_line_table (Some data) = Ok (Some t) <->
  data = encode_line_table t /\ ascending t = true /\ Forall entry_in_range t /\ Z.of_nat (length t) < 2 ^ 32.
Proof.
  intros Hd. split; [|intros (-> & Ha & Hr & Hn); by apply decode_of_encode].
  unfold decode_line_table. destruct (Nat.ltb_spec (length data) 12) as [|Hl]; [done|].
  unfold memcpy at 1. rewrite decide_True by lia. cbn [obind]. rewrite drop_0.
  rewrite take_take, skipn_firstn_comm, take_take, skipn_firstn_comm. cbn [Nat.min Nat.sub].
  destruct (write_word data 0 Hd ltac:(lia)) as [W0 R0]. destruct (write_word data 4 Hd ltac:(lia)) as [W4 R4].
  destruct (write_word data 8 Hd ltac:(lia)) as [W8 R8]. rewrite drop_0 in W0, R0.
  destruct (Z.eqb_spec (of_bytes (take 4 data)) LINE_TABLE_MAGIC) as [E0|]; [|done].
  destruct (Z.eqb_spec (of_bytes (take 4 (drop 4 data))) LINE_TABLE_VERSION) as [E4|]; [|done]. cbn [negb orb].
  set (count := of_bytes (take 4 (drop 8 data))) in *.
  destruct (Z.eqb_spec (Z.of_nat (length data)) (12 + count * 8)) as [Hc|]; [|done]. cbn [negb].
  intros (entries & He & Hok)%obind_Ok. destruct (ascending entries) eqn:Ha; [|done]. injection Hok as ->.
  destruct R8 as [R8a R8b]. destruct (read_rows_write data 0 (Z.to_nat count) t Hd He ltac:(lia)) as (Hw & Hr & Hn).
  split; [|split; [done|]; split; [done|lia]].
  unfold encode_line_table. rewrite Hw, Hn, Z2Nat.id, <- E0, <- E4, W0, W4 by done. fold count. rewrite W8.
  rewrite (take_ge _ (Z.to_nat count * 8)) by (rewrite length_drop; lia).
  rewrite <- (take_drop 4 data) at 1. f_equal. rewrite <- (take_drop 4 (drop 4 data)) at 1. rewrite drop_drop.
  f_equal. rewrite <- (take_drop 4 (drop (4 + 4) data)) at 1. rewrite drop_drop. done.
Qed.

Lemma encode_line_table_bytes t : Forall is_byte (encode_line_table t).
Proof.
  unfold encode_line_table. rewrite !Forall_app. repeat (split; [apply write_scalar_bytes|]).
  induction t as [|e t IH]; cbn [map concat]; [done|]. unfold write_entry.
  rewrite !Forall_app. auto using write_scalar_bytes.
Qed.

Lemma decode_line_table_exact_witness :
  decode_line_table (Some (encode_line_table sample_table)) = Ok (Some sample_table).
Proof.
  apply (proj2 (decode_line_table_exact (encode_line_table sample_table) sample_table
    (encode_line_table_bytes sample_table))).
  split; [reflexivity|]. split; [reflexivity|]. split; [|by vm_compute].
  unfold sample_table. repeat (apply List.Forall_cons; [by vm_compute|]). apply List.Forall_nil.
Defined.

(** A blob is never read outside. *)
Lemma decode_line_table_safe (data : option (list Z)) : is_Ok (decode_line_table data).
Proof.
  destruct data as [data|]; [|by eexists]. unfold decode_line_table.
  destruct (Nat.ltb_spec (length data) 12) as [|Hl]; [by eexists|].
  unfold memcpy at 1. rewrite decide_True by lia. cbn [obind]. destruct (_ || _); [by eexists|].
  set (count := of_bytes _). destruct (Z.eqb_spec (Z.of_nat (length data)) (12 + count * 8)) as [Hc|]; [|by eexists].
  cbn [negb]. assert (Hrows : forall n i, (12 + (i + n) * 8 <= length data)%nat ->
    is_Ok (omapM (read_row data) (seq i n))).
  { induction n as [|n IH]; intros i Hi; cbn [seq omapM]; [by eexists|]. unfold read_row at 1, memcpy.
    rewrite decide_True by lia. cbn [obind]. destruct (IH (S i) ltac:(lia)) as [t ->]. by eexists. }
  destruct (Hrows (Z.to_nat count) 0%nat ltac:(lia)) as [t ->]. cbn. destruct (ascending t); by eexists.
Qed.

End LineTable.
