(* ===== verification/DebugLayout.v ===== *)
(** * Debug area and debug variables

    Models debug_layout.h and debug_layout.cpp: the offsets of the call-stack
    area and the DVAR blob of debug variable records. *)

From S2P Require Import Prelude.
From S2P Require Import Wire.

Module DebugLayout.
Import Wire.

(** ** The call-stack area *)

Definition MAX_DEPTH : Z := 256.
Definition DEPTH_OFF : Z := 24.
Definition HEADER_SIZE : Z := 32.
Definition FUNCTION_INDEX_OFF : Z := 0.
Definition RETURN_ADDRESS_OFF : Z := 8.
Definition FRAME_SP_OFF : Z := 16.
Definition INSTANCE_BASE_OFF : Z := 24.
Definition FRAME_SIZE : Z := 32.
Definition FRAME_SHIFT : Z := 5.

Definition frames_offset : Z := HEADER_SIZE.

(** [int32_t(depth)] wraps; the product and the sum are of [int32_t]. *)
Definition frame_offset (depth : Z) : Z := frames_offset + to_int32 depth * FRAME_SIZE.

Definition area_size : Z := frames_offset + to_int32 MAX_DEPTH * FRAME_SIZE.

(** ** Variable records *)

Inductive DebugStorage := FRAME | MEMBER | GLOBAL.

Definition storage_code (s : DebugStorage) : Z := match s with FRAME => 0 | MEMBER => 1 | GLOBAL => 2 end.

(** The cast of a checked number back to the enumeration. *)
Definition storage_of (code : Z) : DebugStorage := if code =? 0 then FRAME else if code =? 1 then MEMBER else GLOBAL.

Record DebugVariableRecord := mkRecord {
  function_index : Z;
  name : string;
  type : Z;
  storage : DebugStorage;
  var_offset : Z;
  pc_begin : Z;
  pc_end : Z
}.

Definition MAGIC : Z := 0x52415644.
Definition MAJOR : Z := 1.
Definition MAX_RECORDS : Z := 100000.
Definition MAX_STRING : Z := 1024 * 1024.
Definition MAX_BLOB : Z := 16 * 1024 * 1024.

Definition put_record (record : DebugVariableRecord) : list Z :=
  write_scalar 4 (function_index record) ++ write_string (name record)
  ++ write_scalar 4 (type record) ++ write_scalar 1 (storage_code (storage record))
  ++ write_scalar 4 (var_offset record) ++ write_scalar 8 (pc_begin record) ++ write_scalar 8 (pc_end record).

Definition encode_debug_variables (records : list DebugVariableRecord) : list Z :=
  write_scalar 4 MAGIC ++ write_scalar 2 MAJOR ++ write_scalar 2 0
  ++ write_scalar 4 (Z.of_nat (length records)) ++ concat (map put_record records).

Definition get_record : Dec DebugVariableRecord :=
  let+ function_index := scalar 4 in
  let+ name := read_string (Some MAX_STRING) in
  let+ type := signed_scalar 4 in
  let+ storage := scalar 1 in
  let+ var_offset := signed_scalar 4 in
  let+ pc_begin := scalar 8 in
  let+ pc_end := scalar 8 in
  let+ _ := require (fun r => ok r && negb (String.eqb name EmptyString) && (storage <=? 2)
                              && (-1 <=? type) && (type <=? 64) && (0 <=? var_offset) && (pc_begin <=? pc_end)) in
  ret (mkRecord function_index name type (storage_of storage) var_offset pc_begin pc_end).

Definition get_debug_variables : Dec (list DebugVariableRecord) :=
  let+ magic := scalar 4 in
  let+ _ := require (fun _ => magic =? MAGIC) in
  let+ major := scalar 2 in
  let+ _ := require (fun _ => major =? MAJOR) in
  let+ _ := scalar 2 in
  let+ count := scalar 4 in
  let+ _ := require (fun r => ok r && (count <=? MAX_RECORDS) && (count <=? Z.of_nat (size r))) in
  let+ staged := repeat (Z.to_nat count) get_record in
  let+ _ := require (fun r => ok r && Nat.eqb (offset r) (size r)) in
  ret staged.

(** [None] is the null pointer. *)
Definition decode_debug_variables (data : option (list Z)) : outcome (option (list DebugVariableRecord)) :=
  match data with
  | None => Ok None
  | Some data => if MAX_BLOB <? Z.of_nat (length data) then Ok None else run get_debug_variables data
  end.

(** What the decoder demands of a record. *)
Record valid_record (r : DebugVariableRecord) : Prop := {
  valid_function : is_uint32 (function_index r);
  valid_name : name r <> EmptyString /\ Z.of_nat (String.length (name r)) <= MAX_STRING;
  valid_type : -1 <= type r <= 64;
  valid_offset : 0 <= var_offset r < 2 ^ 31;
  valid_range : 0 <= pc_begin r <= pc_end r /\ pc_end r < 2 ^ 64
}.

#[export] Instance safe_get_record : Safe get_record.
Proof. unfold get_record. apply _. Qed.

#[export] Instance safe_get_debug_variables : Safe get_debug_variables.
Proof. unfold get_debug_variables. apply _. Qed.

Lemma storage_of_code s : storage_of (storage_code s) = s.
Proof. by destruct s. Qed.

Lemma get_record_parses r : valid_record r -> Parses get_record (put_record r) r.
Proof.
  intros [Hf [Hn1 Hn2] Ht Ho [Hp1 Hp2]]. unfold get_record, put_record.
  eapply parses_bind; [by apply scalar_parses|].
  eapply parses_bind; [apply read_string_parses; unfold short, MAX_STRING in *; lia|].
  eapply parses_bind; [apply signed_scalar_parses; lia|].
  eapply parses_bind; [apply scalar_parses; destruct (storage r); cbn; lia|].
  eapply parses_bind; [apply signed_scalar_parses; lia|].
  eapply parses_bind; [apply scalar_parses; lia|].
  rewrite <- (app_nil_r (write_scalar 8 (pc_end r))).
  eapply parses_bind; [apply scalar_parses; lia|].
  apply parses_require.
  - intros rd _ _ ->. rewrite !andb_true_iff, negb_true_iff, !Z.leb_le, String.eqb_neq.
    repeat split; try done; try lia. destruct (storage r); cbn; lia.
  - rewrite storage_of_code. destruct r. apply parses_ret.
Qed.

(** The decoder gives back the records that were encoded, when each is one
    it accepts and the blob is within the limits of the format. *)
Theorem debug_variables_roundtrip (records : list DebugVariableRecord) :
  Forall valid_record records -> Z.of_nat (length records) <= MAX_RECORDS ->
  Z.of_nat (length (encode_debug_variables records)) <= MAX_BLOB ->
  decode_debug_variables (Some (encode_debug_variables records)) = Ok (Some records).
Proof.
  intros Hv Hn Hs. unfold decode_debug_variables. destruct (Z.ltb_spec MAX_BLOB (Z.of_nat (length (encode_debug_variables records)))); [lia|].
  apply finishes_run. unfold get_debug_variables, encode_debug_variables, MAX_RECORDS in *.
  eapply finishes_bind; [by apply scalar_parses|]. apply finishes_require; [done|].
  eapply finishes_bind; [by apply scalar_parses|]. apply finishes_require; [done|].
  eapply finishes_bind; [by apply scalar_parses|]. eapply finishes_bind; [apply scalar_parses; lia|].
  assert (Hl : (length records <= length (concat (map put_record records)))%nat).
  { apply length_concat_map. intros x _. unfold put_record. rewrite length_app, length_write_scalar. lia. }
  apply finishes_require.
  { intros r Hr Hlen ->. rewrite !andb_true_iff, !Z.leb_le. unfold in_bounds in Hr. lia. }
  rewrite Nat2Z.id, <- (app_nil_r (concat _)). eapply finishes_bind.
  - apply (repeat_parses _ _ (fun x => x)). intros x Hx. apply get_record_parses. by eapply Forall_forall in Hv.
  - apply finishes_require; [|rewrite map_id; apply parses_finishes, parses_ret].
    intros r Hr Hlen ->. unfold in_bounds in Hr. apply Nat.eqb_eq. cbn in Hlen. lia.
Qed.

Definition sample_record : DebugVariableRecord := mkRecord 2 "hp" 2 FRAME 48 100 164.

Lemma debug_variables_roundtrip_witness :
  decode_debug_variables (Some (encode_debug_variables [sample_record])) = Ok (Some [sample_record]).
Proof.
  apply (debug_variables_roundtrip [sample_record]); [|by vm_compute|by vm_compute].
  apply List.Forall_cons; [|apply List.Forall_nil]. split; cbn; [by vm_compute|split; [done|by vm_compute]|lia|lia|lia].
Defined.

(** C20: the frame of every recorded depth lies inside the area and after the
    header, its fields lie inside it, frames of different depths do not overlap,
    and the offset is the shifted depth the generated code computes. *)
Theorem frames_in_area (d1 d2 : Z) :
  0 <= d1 < MAX_DEPTH -> 0 <= d2 < MAX_DEPTH ->
  frame_offset d1 = HEADER_SIZE + Z.shiftl d1 FRAME_SHIFT /\
  DEPTH_OFF + 8 <= frame_offset d1 /\ frame_offset d1 + FRAME_SIZE <= area_size /\
  Forall (fun off => frame_offset d1 <= frame_offset d1 + off /\ frame_offset d1 + off + 8 <= frame_offset d1 + FRAME_SIZE)
    [FUNCTION_INDEX_OFF; RETURN_ADDRESS_OFF; FRAME_SP_OFF; INSTANCE_BASE_OFF] /\
  (d1 < d2 -> frame_offset d1 + FRAME_SIZE <= frame_offset d2).
Proof.
  intros H1 H2. unfold MAX_DEPTH in *.
  assert (Hoff : forall d, 0 <= d < 256 -> frame_offset d = 32 + d * 32).
  { intros d Hd. unfold frame_offset, frames_offset, HEADER_SIZE, FRAME_SIZE. rewrite wraps_id; lia. }
  rewrite !Hoff by lia. change area_size with 8224. rewrite Z.shiftl_mul_pow2 by done.
  unfold HEADER_SIZE, DEPTH_OFF, FRAME_SIZE, FRAME_SHIFT. change (2 ^ 5) with 32.
  split; [lia|]. split; [lia|]. split; [lia|]. split; [|lia].
  repeat (apply Forall_cons; split; [unfold FUNCTION_INDEX_OFF, RETURN_ADDRESS_OFF, FRAME_SP_OFF, INSTANCE_BASE_OFF; lia|]).
  apply Forall_nil_2.
Qed.

Lemma frames_in_area_witness :
  frame_offset 255 = HEADER_SIZE + Z.shiftl 255 FRAME_SHIFT /\ frame_offset 254 + FRAME_SIZE <= frame_offset 255.
Proof.
  split.
  - apply (frames_in_area 255 0); unfold MAX_DEPTH; lia.
  - apply (frames_in_area 254 255); unfold MAX_DEPTH; lia.
Defined.

End DebugLayout.
