(* ===== verification/FunctionSignature.v ===== *)
(** * Function signatures and the other declaration blobs

    Models function_signature.h and function_signature.cpp: the blobs that
    publish the functions, RPC configurations and constants of a script (the
    class blob is in [ClassSignature]).  A [double] is carried by its 64 bits:
    the code only copies it.

    [published] is what the decoder can give back: the format leaves out the
    native default evaluator, and the value of a default that has none. *)

From S2P Require Import Prelude.
From S2P Require Import Wire.

(** [std::variant<int64_t, double, std::string, bool>] *)
Inductive Constant :=
  | CInt (value : Z)
  | CFloat (bits : Z)
  | CString (value : string)
  | CBool (value : bool).

Definition is_uint64 (z : Z) : Prop := 0 <= z < 2 ^ 64.
Definition is_int32 (z : Z) : Prop := - 2 ^ 31 <= z < 2 ^ 31.

Module FunctionSignature.
Import Wire.

Record DeclaredType := mkDeclaredType {
  dt_name : string;
  mask : Z;
  nominal : bool
}.

Definition no_declared_type : DeclaredType := mkDeclaredType EmptyString 0 false.

Inductive DefaultKind := NONE | NIL | INT | FLOAT | BOOL | STRING | EMPTY_ARRAY | EMPTY_DICT.

Definition kind_code (k : DefaultKind) : Z :=
  match k with NONE => 0 | NIL => 1 | INT => 2 | FLOAT => 3 | BOOL => 4 | STRING => 5 | EMPTY_ARRAY => 6 | EMPTY_DICT => 7 end.

(** The cast of a checked number. *)
Definition kind_of (code : Z) : DefaultKind :=
  if code =? 0 then NONE else if code =? 1 then NIL else if code =? 2 then INT else if code =? 3 then FLOAT
  else if code =? 4 then BOOL else if code =? 5 then STRING else if code =? 6 then EMPTY_ARRAY else EMPTY_DICT.

Record FunctionParameter := mkParameter {
  declared_type : DeclaredType;
  p_name : string;
  p_type : Z;
  p_class_name : string;
  default_kind : DefaultKind;
  default_value : Constant;
  default_function : string
}.

(** [optional()] *)
Definition optional (p : FunctionParameter) : bool :=
  match default_kind p with NONE => negb (String.eqb (default_function p) EmptyString) | _ => true end.

Record FunctionSignature := mkSignature {
  declared_return : DeclaredType;
  has_declaration : bool;
  is_abstract : bool;
  requires_host_hook : bool;
  name : string;
  parameters : list FunctionParameter;
  return_type : Z;
  return_class_name : string;
  required_arguments : Z;
  line : Z;
  description : string;
  is_coroutine : bool;
  is_static : bool
}.

(** ** Encoding *)

(** [std::get] throws when the alternative is another one. *)
Definition encode_default (kind : DefaultKind) (value : Constant) : outcome (list Z) :=
  match kind, value with
  | INT, CInt v => Ok (write_scalar 8 v)
  | FLOAT, CFloat bits => Ok (write_scalar 8 bits)
  | BOOL, CBool b => Ok (write_bool b)
  | STRING, CString s => Ok (write_string s)
  | (INT | FLOAT | BOOL | STRING), _ => Throw bad_variant_access
  | (NONE | NIL | EMPTY_ARRAY | EMPTY_DICT), _ => Ok []
  end.

Definition encode_parameter (p : FunctionParameter) : outcome (list Z) :=
  let? value := encode_default (default_kind p) (default_value p) in
  Ok (write_string (p_name p) ++ write_scalar 4 (p_type p) ++ write_scalar 1 (kind_code (default_kind p)) ++ value).

Definition encode_signature (sig : FunctionSignature) : outcome (list Z) :=
  let? params := omapM encode_parameter (parameters sig) in
  Ok (write_string (name sig) ++ write_scalar 4 (return_type sig) ++ write_scalar 4 (line sig)
      ++ write_string (description sig) ++ write_scalar 4 (required_arguments sig)
      ++ write_bool (is_coroutine sig) ++ write_scalar 4 (Z.of_nat (length (parameters sig))) ++ concat params).

Definition STAT : Z := 0x54415453.
Definition STYP : Z := 0x50595453.
Definition DECL : Z := 0x4c434544.
Definition HOOK : Z := 0x4b4f4f48.

(** A section: its tag, the number of signatures and one record for each. *)
Definition section (tag : Z) (record : FunctionSignature -> list Z) (sigs : list FunctionSignature) : list Z :=
  write_scalar 4 tag ++ write_scalar 4 (Z.of_nat (length sigs)) ++ concat (map record sigs).

Definition class_name_record (sig : FunctionSignature) : list Z :=
  write_string (return_class_name sig) ++ write_scalar 4 (Z.of_nat (length (parameters sig)))
  ++ concat (map (fun p => write_string (p_class_name p)) (parameters sig)).

Definition write_declared_type (t : DeclaredType) : list Z :=
  write_string (dt_name t) ++ write_scalar 8 (mask t) ++ write_bool (nominal t).

Definition declaration_record (sig : FunctionSignature) : list Z :=
  write_bool (has_declaration sig) ++ write_bool (is_abstract sig) ++ write_declared_type (declared_return sig)
  ++ concat (map (fun p => write_declared_type (declared_type p)) (parameters sig)).

Definition encode_function_signatures (sigs : list FunctionSignature) : outcome (list Z) :=
  let? records := omapM encode_signature sigs in
  Ok (write_scalar 4 (Z.of_nat (length sigs)) ++ concat records
      ++ section STAT (fun sig => write_bool (is_static sig)) sigs
      ++ section STYP class_name_record sigs
      ++ section DECL declaration_record sigs
      ++ (if existsb requires_host_hook sigs then section HOOK (fun sig => write_bool (requires_host_hook sig)) sigs else [])).

(** ** Decoding *)

(** A value-initialised variant holds the integer 0. *)
Definition get_default (kind : DefaultKind) : Dec Constant :=
  match kind with
  | INT => let+ v := signed_scalar 8 in ret (CInt v)
  | FLOAT => let+ bits := scalar 8 in ret (CFloat bits)
  | BOOL => let+ b := read_bool in ret (CBool b)
  | STRING => let+ s := read_string None in ret (CString s)
  | NONE | NIL | EMPTY_ARRAY | EMPTY_DICT => ret (CInt 0)
  end.

Definition get_parameter : Dec FunctionParameter :=
  let+ name := read_string None in
  let+ type := signed_scalar 4 in
  let+ kind := scalar 1 in
  let+ _ := require (fun r => ok r && (kind <=? 7)) in
  let+ value := get_default (kind_of kind) in
  ret (mkParameter no_declared_type name type EmptyString (kind_of kind) value EmptyString).

Definition get_signature : Dec FunctionSignature :=
  let+ name := read_string None in
  let+ return_type := signed_scalar 4 in
  let+ line := signed_scalar 4 in
  let+ description := read_string None in
  let+ required := scalar 4 in
  let+ coroutine := read_bool in
  let+ parameter_count := scalar 4 in
  let+ _ := require (fun r => ok r && (parameter_count <=? Z.of_nat (size r))) in
  let+ params := repeat (Z.to_nat parameter_count) get_parameter in
  ret (mkSignature no_declared_type false false false name params return_type EmptyString
         (if Z.of_nat (length params) <? required then Z.of_nat (length params) else required)
         line description coroutine false).

Definition with_static (sig : FunctionSignature) (b : bool) : FunctionSignature :=
  mkSignature (declared_return sig) (has_declaration sig) (is_abstract sig) (requires_host_hook sig) (name sig)
    (parameters sig) (return_type sig) (return_class_name sig) (required_arguments sig) (line sig) (description sig)
    (is_coroutine sig) b.

Definition with_class_names (sig : FunctionSignature) (ret_name : string) (params : list FunctionParameter) : FunctionSignature :=
  mkSignature (declared_return sig) (has_declaration sig) (is_abstract sig) (requires_host_hook sig) (name sig)
    params (return_type sig) ret_name (required_arguments sig) (line sig) (description sig)
    (is_coroutine sig) (is_static sig).

Definition with_declaration (sig : FunctionSignature) (has abstract : bool) (returned : DeclaredType)
    (params : list FunctionParameter) : FunctionSignature :=
  mkSignature returned has abstract (requires_host_hook sig) (name sig)
    params (return_type sig) (return_class_name sig) (required_arguments sig) (line sig) (description sig)
    (is_coroutine sig) (is_static sig).

Definition with_hook (sig : FunctionSignature) (b : bool) : FunctionSignature :=
  mkSignature (declared_return sig) (has_declaration sig) (is_abstract sig) b (name sig)
    (parameters sig) (return_type sig) (return_class_name sig) (required_arguments sig) (line sig) (description sig)
    (is_coroutine sig) (is_static sig).

Definition with_class_name (p : FunctionParameter) (class_name : string) : FunctionParameter :=
  mkParameter (declared_type p) (p_name p) (p_type p) class_name (default_kind p) (default_value p) (default_function p).

Definition with_declared_type (p : FunctionParameter) (t : DeclaredType) : FunctionParameter :=
  mkParameter t (p_name p) (p_type p) (p_class_name p) (default_kind p) (default_value p) (default_function p).

(** The tag and the count at the head of a section. *)
Definition get_header (tag : Z) (out : list FunctionSignature) : Dec unit :=
  let+ found := scalar 4 in
  let+ _ := require (fun _ => found =? tag) in
  let+ count := scalar 4 in
  require (fun r => ok r && (count =? Z.of_nat (length out))).

Definition get_static (sig : FunctionSignature) : Dec FunctionSignature :=
  let+ b := read_strict_bool in ret (with_static sig b).

Definition get_class_names (sig : FunctionSignature) : Dec FunctionSignature :=
  let+ ret_name := read_string None in
  let+ count := scalar 4 in
  let+ _ := require (fun r => ok r && (count =? Z.of_nat (length (parameters sig)))) in
  let+ params := for_each (fun p => let+ n := read_string None in ret (with_class_name p n)) (parameters sig) in
  ret (with_class_names sig ret_name params).

Definition get_declared_type : Dec DeclaredType :=
  let+ name := read_string None in
  let+ mask := scalar 8 in
  let+ nominal := read_flag in
  ret (mkDeclaredType name mask nominal).

Definition get_declaration (sig : FunctionSignature) : Dec FunctionSignature :=
  let+ has := read_flag in
  let+ abstract := read_flag in
  let+ returned := get_declared_type in
  let+ params := for_each (fun p => let+ t := get_declared_type in ret (with_declared_type p t)) (parameters sig) in
  ret (with_declaration sig has abstract returned params).

Definition get_hook (sig : FunctionSignature) : Dec FunctionSignature :=
  let+ b := read_flag in ret (with_hook sig b).

(** A section that is read when the reader is fine and the blob goes on; the
    count is compared without looking at [ok]. *)
Definition get_optional (tag : Z) (get : FunctionSignature -> Dec FunctionSignature) (out : list FunctionSignature) :
    Dec (list FunctionSignature) :=
  let+ fine := is_ok in
  let+ ended := at_end in
  if fine && negb ended then
    let+ found := scalar 4 in
    let+ _ := require (fun _ => found =? tag) in
    let+ count := scalar 4 in
    let+ _ := require (fun _ => count =? Z.of_nat (length out)) in
    for_each get out
  else ret out.

(** What follows the STAT section. *)
Definition get_typed_sections (out : list FunctionSignature) : Dec (list FunctionSignature) :=
  let+ _ := get_header STYP out in
  let+ out := for_each get_class_names out in
  let+ out := get_optional DECL get_declaration out in
  let+ out := get_optional HOOK get_hook out in
  let+ _ := require (fun r => ok r && Nat.eqb (offset r) (size r)) in
  ret out.

Definition get_function_signatures : Dec (list FunctionSignature) :=
  let+ function_count := scalar 4 in
  let+ _ := require (fun r => ok r && (function_count <=? Z.of_nat (size r))) in
  let+ out := repeat (Z.to_nat function_count) get_signature in
  let+ _ := require ok in
  let+ ended := at_end in
  if (ended : bool) then ret out else
  let+ _ := get_header STAT out in
  let+ out := for_each get_static out in
  let+ _ := require ok in
  let+ ended := at_end in
  if (ended : bool) then ret out else get_typed_sections out.

Definition decode_function_signatures (data : list Z) : outcome (option (list FunctionSignature)) :=
  run get_function_signatures data.

(** ** The decoder stays inside the blob *)

#[export] Instance safe_get_default kind : Safe (get_default kind).
Proof. destruct kind; cbn; apply _. Qed.

#[export] Instance safe_get_parameter : Safe get_parameter.
Proof. unfold get_parameter. apply _. Qed.

#[export] Instance safe_get_signature : Safe get_signature.
Proof. unfold get_signature. apply _. Qed.

#[export] Instance safe_get_header tag out : Safe (get_header tag out).
Proof. unfold get_header. apply _. Qed.

#[export] Instance safe_get_class_names sig : Safe (get_class_names sig).
Proof. unfold get_class_names. apply _. Qed.

#[export] Instance safe_get_declared_type : Safe get_declared_type.
Proof. unfold get_declared_type. apply _. Qed.

#[export] Instance safe_get_declaration sig : Safe (get_declaration sig).
Proof. unfold get_declaration. apply _. Qed.

#[export] Instance safe_get_optional tag get out : (forall sig, Safe (get sig)) -> Safe (get_optional tag get out).
Proof. unfold get_optional. intros. apply _. Qed.

#[export] Instance safe_get_function_signatures : Safe get_function_signatures.
Proof. unfold get_function_signatures, get_typed_sections, get_static, get_hook. apply _. Qed.

Lemma decode_function_signatures_safe data : is_Ok (decode_function_signatures data).
Proof. apply run_safe, _. Qed.

(** ** Round trip *)

(** The value a default is published with. *)
Definition carried (kind : DefaultKind) (value : Constant) : Constant :=
  match kind with INT | FLOAT | BOOL | STRING => value | _ => CInt 0 end.

Definition published_parameter (p : FunctionParameter) : FunctionParameter :=
  mkParameter (declared_type p) (p_name p) (p_type p) (p_class_name p) (default_kind p)
    (carried (default_kind p) (default_value p)) EmptyString.

Definition published (sig : FunctionSignature) : FunctionSignature :=
  mkSignature (declared_return sig) (has_declaration sig) (is_abstract sig) (requires_host_hook sig) (name sig)
    (map published_parameter (parameters sig)) (return_type sig) (return_class_name sig) (required_arguments sig)
    (line sig) (description sig) (is_coroutine sig) (is_static sig).

Definition carriable (s : string) : Prop := short None s.

(** The default has the alternative its kind names, in its range. *)
Definition valid_default (kind : DefaultKind) (value : Constant) : Prop :=
  match kind, value with
  | INT, CInt v => is_int64 v
  | FLOAT, CFloat bits => is_uint64 bits
  | STRING, CString s => carriable s
  | BOOL, CBool _ => True
  | (INT | FLOAT | BOOL | STRING), _ => False
  | (NONE | NIL | EMPTY_ARRAY | EMPTY_DICT), _ => True
  end.

Definition valid_declared_type (t : DeclaredType) : Prop := carriable (dt_name t) /\ is_uint64 (mask t).

Record valid_parameter (p : FunctionParameter) : Prop := {
  vp_declared : valid_declared_type (declared_type p);
  vp_name : carriable (p_name p);
  vp_type : is_int32 (p_type p);
  vp_class_name : carriable (p_class_name p);
  vp_default : valid_default (default_kind p) (default_value p)
}.

Record valid_signature (sig : FunctionSignature) : Prop := {
  vs_declared : valid_declared_type (declared_return sig);
  vs_name : carriable (name sig);
  vs_parameters : Forall valid_parameter (parameters sig);
  vs_count : Z.of_nat (length (parameters sig)) < 2 ^ 32;
  vs_return_type : is_int32 (return_type sig);
  vs_return_class : carriable (return_class_name sig);
  vs_required : 0 <= required_arguments sig <= Z.of_nat (length (parameters sig));
  vs_line : is_int32 (line sig);
  vs_description : carriable (description sig)
}.

Lemma kind_of_code kind : kind_of (kind_code kind) = kind.
Proof. by destruct kind. Qed.

Lemma get_default_parses kind value :
  valid_default kind value ->
  exists bytes, encode_default kind value = Ok bytes /\ Parses (get_default kind) bytes (carried kind value).
Proof.
  intros Hv. destruct kind; try (exists []; split; [done|apply parses_ret]); destruct value; try done; cbn in Hv.
  - eexists. split; [done|]. unfold is_int64, INT64_MIN, INT64_MAX in Hv. apply (parses_bind_ret _ CInt). by parse_scalar.
  - eexists. split; [done|]. apply (parses_bind_ret _ CFloat). by parse_scalar.
  - eexists. split; [done|]. apply (parses_bind_ret _ CBool). by parse_scalar.
  - eexists. split; [done|]. apply (parses_bind_ret _ CString). by parse_scalar.
Qed.

(** The parameter after the legacy record. *)
Definition bare_parameter (p : FunctionParameter) : FunctionParameter :=
  mkParameter no_declared_type (p_name p) (p_type p) EmptyString (default_kind p)
    (carried (default_kind p) (default_value p)) EmptyString.

Lemma encode_parameter_length p bytes : encode_parameter p = Ok bytes -> (0 < length bytes)%nat.
Proof.
  unfold encode_parameter, write_string. intros (value & _ & E%(f_equal ok_bytes))%obind_Ok.
  cbn [ok_bytes] in E. rewrite <- E, !length_app, length_write_scalar. lia.
Qed.

Lemma get_parameter_parses p :
  valid_parameter p ->
  is_Ok (encode_parameter p) /\ Parses get_parameter (ok_bytes (encode_parameter p)) (bare_parameter p).
Proof.
  intros [_ Hn Ht _ Hd]. destruct (get_default_parses _ _ Hd) as (value & He & Hp).
  unfold encode_parameter. rewrite He. split; [by eexists|]. cbn [obind ok_bytes].
  unfold is_int32 in Ht. unfold get_parameter. do 2 (eapply parses_bind; [by parse_scalar|]).
  eapply parses_bind; [apply scalar_parses; destruct (default_kind p); cbn; lia|].
  apply parses_require; [intros r _ _ ->; by destruct (default_kind p)|].
  rewrite kind_of_code. by apply (parses_bind_ret _ (fun value => mkParameter _ _ _ _ _ value _)).
Qed.

Definition bare (sig : FunctionSignature) : FunctionSignature :=
  mkSignature no_declared_type false false false (name sig) (map bare_parameter (parameters sig)) (return_type sig)
    EmptyString (required_arguments sig) (line sig) (description sig) (is_coroutine sig) false.

(** The bytes of the legacy record. *)
Lemma get_signature_parses sig :
  valid_signature sig ->
  is_Ok (encode_signature sig) /\ Parses get_signature (ok_bytes (encode_signature sig)) (bare sig).
Proof.
  intros [_ Hn Hp Hc Ht _ Hr Hl Hd]. rewrite Forall_forall in Hp. unfold encode_signature.
  rewrite omapM_ok_bytes by (intros p Hin; by apply get_parameter_parses, Hp). split; [by eexists|].
  cbn [obind ok_bytes]. unfold is_int32 in *. unfold get_signature. parse_fields.
  set (bytes := concat _). assert (Hlen : (length (parameters sig) <= length bytes)%nat).
  { apply length_concat_map. intros p Hin. destruct (get_parameter_parses p (Hp p Hin)) as [[b E] _].
    rewrite E. by apply (encode_parameter_length p). }
  apply parses_require.
  { intros r Hb Hs ->. apply Z.leb_le. unfold in_bounds in Hb. lia. }
  rewrite Nat2Z.id, <- (app_nil_r bytes). eapply parses_bind.
  - apply repeat_parses. intros p Hin. apply get_parameter_parses, Hp, Hin.
  - rewrite length_map. destruct (Z.ltb_spec (Z.of_nat (length (parameters sig))) (required_arguments sig)); [lia|].
    apply parses_ret.
Qed.

(** ** The sections *)

Lemma get_header_parses tag (sigs : list FunctionSignature) (f : FunctionSignature -> FunctionSignature) :
  is_uint32 tag -> Z.of_nat (length sigs) < 2 ^ 32 ->
  Parses (get_header tag (map f sigs)) (write_scalar 4 tag ++ write_scalar 4 (Z.of_nat (length sigs))) tt.
Proof.
  intros Ht Hn. unfold get_header. eapply parses_bind; [by parse_scalar|].
  apply parses_require; [intros r _ _ _; apply Z.eqb_refl|].
  rewrite <- (app_nil_r (write_scalar 4 (Z.of_nat _))). eapply parses_bind; [by parse_scalar|].
  intros before after_. unfold require. rewrite length_map, Z.eqb_refl. apply (parses_ret tt).
Qed.

Lemma get_optional_finishes tag get record (f g : FunctionSignature -> FunctionSignature) sigs rest :
  is_uint32 tag -> Z.of_nat (length sigs) < 2 ^ 32 ->
  (forall sig, sig ∈ sigs -> Parses (get (f sig)) (record sig) (g sig)) ->
  forall {B} (k : list FunctionSignature -> Dec B) b,
  Finishes (k (map g sigs)) rest b ->
  Finishes (bind (get_optional tag get (map f sigs)) k) (section tag record sigs ++ rest) b.
Proof.
  intros Ht Hn Hg B k b Hk.
  assert (Hp : Parses (let+ found := scalar 4 in let+ _ := require (fun _ => found =? tag) in
    let+ count := scalar 4 in let+ _ := require (fun _ => count =? Z.of_nat (length (map f sigs))) in
    for_each get (map f sigs)) (section tag record sigs) (map g sigs)).
  { unfold section. eapply parses_bind; [by parse_scalar|]. apply parses_require; [intros r _ _ _; apply Z.eqb_refl|].
    eapply parses_bind; [by parse_scalar|].
    apply parses_require; [intros r _ _ _; rewrite length_map; apply Z.eqb_refl|]. by apply for_each_parses. }
  intros before. pose proof (finishes_bind _ k _ _ _ _ Hp Hk before) as Hf. unfold get_optional.
  unfold bind at 1. unfold bind at 1. cbn [is_ok]. unfold bind at 1, at_end. cbn [offset size data ok].
  replace (Nat.eqb _ _) with false; [exact Hf|]. symmetry. apply Nat.eqb_neq. unfold size, section. cbn [data].
  rewrite !length_app, !length_write_scalar. lia.
Qed.

Lemma get_optional_absent tag get out {B} (k : list FunctionSignature -> Dec B) b :
  Finishes (k out) [] b -> Finishes (bind (get_optional tag get out) k) [] b.
Proof.
  intros Hk before. unfold get_optional. unfold bind at 1. unfold bind at 1. cbn [is_ok]. unfold bind at 1, at_end.
  cbn [offset size data ok]. replace (Nat.eqb _ _) with true; [apply Hk|].
  symmetry. apply Nat.eqb_eq. unfold size. cbn [data]. rewrite length_app. cbn. lia.
Qed.

(** The signature and its parameters after the sections STAT, STYP and DECL. *)
Definition stat (sig : FunctionSignature) : FunctionSignature := with_static (bare sig) (is_static sig).

Definition typed_parameter (p : FunctionParameter) : FunctionParameter := with_class_name (bare_parameter p) (p_class_name p).

Definition typed (sig : FunctionSignature) : FunctionSignature :=
  with_class_names (stat sig) (return_class_name sig) (map typed_parameter (parameters sig)).

Definition declared (sig : FunctionSignature) : FunctionSignature :=
  with_declaration (typed sig) (has_declaration sig) (is_abstract sig) (declared_return sig)
    (map published_parameter (parameters sig)).

Lemma get_static_parses sig : Parses (get_static (bare sig)) (write_bool (is_static sig)) (stat sig).
Proof. unfold get_static. apply (parses_bind_ret _ (with_static (bare sig))). by parse_scalar. Qed.

Lemma get_class_names_parses sig :
  valid_signature sig -> Parses (get_class_names (stat sig)) (class_name_record sig) (typed sig).
Proof.
  intros [_ _ Hp Hc _ Hr _ _ _]. rewrite Forall_forall in Hp. unfold get_class_names, class_name_record.
  parse_fields. change (parameters (stat sig)) with (map bare_parameter (parameters sig)).
  apply parses_require; [intros r _ _ ->; rewrite length_map; apply Z.eqb_refl|].
  apply (parses_bind_ret _ (with_class_names (stat sig) (return_class_name sig))), for_each_parses.
  intros p Hin. apply (parses_bind_ret _ (with_class_name (bare_parameter p))), read_string_parses, (Hp p Hin).
Qed.

Lemma get_declared_type_parses t :
  valid_declared_type t -> Parses get_declared_type (write_declared_type t) t.
Proof.
  intros [Hn Hm]. unfold get_declared_type, write_declared_type. do 2 (eapply parses_bind; [by parse_scalar|]).
  destruct t as [n m b]. apply (parses_bind_ret _ (mkDeclaredType n m)). by parse_scalar.
Qed.

Lemma get_declaration_parses sig :
  valid_signature sig -> Parses (get_declaration (typed sig)) (declaration_record sig) (declared sig).
Proof.
  intros [Hd _ Hp _ _ _ _ _ _]. rewrite Forall_forall in Hp. unfold get_declaration, declaration_record. parse_fields.
  eapply parses_bind; [by apply get_declared_type_parses|].
  apply (parses_bind_ret _ (with_declaration (typed sig) (has_declaration sig) (is_abstract sig) (declared_return sig))).
  change (parameters (typed sig)) with (map typed_parameter (parameters sig)). apply for_each_parses.
  intros p Hin. apply (parses_bind_ret _ (with_declared_type (typed_parameter p))), get_declared_type_parses, (Hp p Hin).
Qed.

Lemma get_hook_parses sig : Parses (get_hook (declared sig)) (write_bool (requires_host_hook sig)) (published sig).
Proof. unfold get_hook. apply (parses_bind_ret _ (with_hook (declared sig))). by parse_scalar. Qed.

(** After the class names: the declarations, the hooks when a function demands
    one, and the end of the blob. *)
Lemma typed_sections_finish sigs :
  Forall valid_signature sigs -> Z.of_nat (length sigs) < 2 ^ 32 ->
  Finishes (get_typed_sections (map stat sigs))
    (section STYP class_name_record sigs ++ section DECL declaration_record sigs
     ++ (if existsb requires_host_hook sigs then section HOOK (fun sig => write_bool (requires_host_hook sig)) sigs else []))
    (map published sigs).
Proof.
  intros Hv Hn. rewrite Forall_forall in Hv. unfold get_typed_sections. unfold section at 1. rewrite <- !app_assoc, app_assoc.
  eapply finishes_bind; [by apply get_header_parses|].
  eapply finishes_bind; [apply for_each_parses; intros sig Hin; by apply get_class_names_parses, Hv|].
  eapply get_optional_finishes; [done|done|intros sig Hin; by apply get_declaration_parses, Hv|].
  assert (Hend : forall out : list FunctionSignature,
    Finishes (let+ _ := require (fun r => ok r && Nat.eqb (offset r) (size r)) in ret out) [] out).
  { intros out. apply finishes_require; [|apply parses_finishes, parses_ret].
    intros r Hr Hl ->. unfold in_bounds in Hr. apply Nat.eqb_eq. cbn in Hl. lia. }
  destruct (existsb requires_host_hook sigs) eqn:E.
  - rewrite <- (app_nil_r (section HOOK _ _)).
    eapply get_optional_finishes; [done|done|intros sig _; apply get_hook_parses|apply Hend].
  - apply get_optional_absent. replace (map published sigs) with (map declared sigs); [apply Hend|].
    apply map_ext_in. intros sig Hin. assert (requires_host_hook sig = false) as Hf.
    { destruct (requires_host_hook sig) eqn:Eh; [|done]. assert (existsb requires_host_hook sigs = true); [|congruence].
      apply existsb_exists. by exists sig. }
    unfold published. by rewrite Hf.
Qed.

Lemma encode_signature_length sig bytes : encode_signature sig = Ok bytes -> (0 < length bytes)%nat.
Proof.
  unfold encode_signature, write_string. intros (value & _ & E%(f_equal ok_bytes))%obind_Ok.
  cbn [ok_bytes] in E. rewrite <- E, !length_app, length_write_scalar. lia.
Qed.

Lemma function_signatures_decode sigs :
  Forall valid_signature sigs -> Z.of_nat (length sigs) < 2 ^ 32 ->
  exists bytes, encode_function_signatures sigs = Ok bytes /\
    decode_function_signatures bytes = Ok (Some (map published sigs)).
Proof.
  intros Hv Hn. pose proof Hv as Hv'. rewrite Forall_forall in Hv'. unfold encode_function_signatures.
  rewrite omapM_ok_bytes by (intros sig Hin; by apply get_signature_parses, Hv'). eexists. split; [done|].
  apply finishes_run. unfold get_function_signatures.
  eapply finishes_bind; [by parse_scalar|]. set (records := concat _).
  assert (Hl : (length sigs <= length records)%nat).
  { apply length_concat_map. intros sig Hin. destruct (get_signature_parses sig (Hv' sig Hin)) as [[b E] _].
    rewrite E. by apply (encode_signature_length sig). }
  apply finishes_require.
  { intros r Hr Hs ->. apply Z.leb_le. unfold in_bounds in Hr. rewrite length_app in Hs. lia. }
  rewrite Nat2Z.id. eapply finishes_bind; [apply repeat_parses; intros sig Hin; by apply get_signature_parses, Hv'|].
  apply finishes_require; [by intros r _ _ ->|]. apply finishes_at_end. rewrite bool_decide_eq_false_2.
  2:{ intros H%(f_equal length). unfold section in H. rewrite !length_app, length_write_scalar in H. cbn in H. lia. }
  unfold section at 1. rewrite <- !app_assoc, app_assoc. eapply finishes_bind; [by apply get_header_parses|].
  eapply finishes_bind; [apply for_each_parses; intros sig Hin; apply get_static_parses|].
  apply finishes_require; [by intros r _ _ ->|]. apply finishes_at_end. rewrite bool_decide_eq_false_2.
  2:{ intros H%(f_equal length). unfold section in H. rewrite !length_app, length_write_scalar in H. cbn in H. lia. }
  by apply typed_sections_finish.
Qed.

(** Decoding an encoded list of function signatures gives the signatures
    back, with everything but what the format leaves out on purpose: the native
    default evaluator and the value of a default that has none. *)
Theorem function_signatures_roundtrip sigs :
  Forall valid_signature sigs -> Z.of_nat (length sigs) < 2 ^ 32 ->
  exists bytes, encode_function_signatures sigs = Ok bytes /\
    decode_function_signatures bytes = Ok (Some (map published sigs)).
Proof. apply function_signatures_decode. Qed.

Definition sample_parameter : FunctionParameter :=
  mkParameter (mkDeclaredType "int" 4 false) "amount" 2 "" INT (CInt (-7)) "default_amount".

Definition sample_signature : FunctionSignature :=
  mkSignature (mkDeclaredType "Enemy" 16777216 true) true false true "hit" [sample_parameter] 24 "Enemy" 0 12 "Hits."
    false true.

Lemma sample_signature_valid : valid_signature sample_signature.
Proof.
  split; try (by vm_compute).
  apply List.Forall_cons; [|apply List.Forall_nil]. split; by vm_compute.
Qed.

Lemma function_signatures_roundtrip_witness :
  exists bytes, encode_function_signatures [sample_signature] = Ok bytes /\
    decode_function_signatures bytes = Ok (Some (map published [sample_signature])).
Proof.
  apply (function_signatures_roundtrip [sample_signature]); [|by vm_compute].
  apply List.Forall_cons; [apply sample_signature_valid|apply List.Forall_nil].
Defined.

End FunctionSignature.
