(* ===== verification/DeclarationBlobs.v ===== *)
(** * RPC configurations and script constants

    Models the RPC and constant blobs of function_signature.cpp.  The RPC
    decoder fills its output while it reads, so its answer is a flag and the
    output. *)

From S2P Require Import Prelude.
From S2P Require Import Wire.
From S2P Require Import FunctionSignature.

Module RPCConfig.
Import Wire.

Record RPCConfig := mkRPCConfig {
  name : string;
  rpc_mode : Z;
  transfer_mode : Z;
  call_local : bool;
  channel : Z
}.

Definition write_config (config : RPCConfig) : list Z :=
  write_string (name config) ++ write_scalar 4 (rpc_mode config) ++ write_scalar 4 (transfer_mode config)
  ++ write_bool (call_local config) ++ write_scalar 4 (channel config).

Definition encode_rpc_configs (configs : list RPCConfig) : list Z :=
  write_scalar 4 (Z.of_nat (length configs)) ++ concat (map write_config configs).

Definition get_config : Dec RPCConfig :=
  let+ name := read_string None in
  let+ rpc_mode := signed_scalar 4 in
  let+ transfer_mode := signed_scalar 4 in
  let+ call_local := read_bool in
  let+ channel := signed_scalar 4 in
  let+ _ := require (fun r => ok r && negb (String.eqb name EmptyString)
    && ((rpc_mode =? 1) || (rpc_mode =? 2)) && (0 <=? transfer_mode) && (transfer_mode <=? 2) && (0 <=? channel)) in
  ret (mkRPCConfig name rpc_mode transfer_mode call_local channel).

(** The flag is the last line's [reader.ok && reader.offset == size]. *)
Definition get_rpc_configs : Dec (bool * list RPCConfig) :=
  let+ count := scalar 4 in
  let+ _ := require (fun r => ok r && (count <=? Z.of_nat (size r))) in
  let+ out := repeat (Z.to_nat count) get_config in
  let+ fine := is_ok in
  let+ ended := at_end in
  ret (fine && ended, out).

Definition decode_rpc_configs (data : list Z) : outcome (bool * list RPCConfig) :=
  let? res := run get_rpc_configs data in Ok (default (false, []) res).

#[export] Instance safe_get_config : Safe get_config.
Proof. unfold get_config. apply _. Qed.

#[export] Instance safe_get_rpc_configs : Safe get_rpc_configs.
Proof. unfold get_rpc_configs. apply _. Qed.

Lemma decode_rpc_configs_safe data : is_Ok (decode_rpc_configs data).
Proof.
  unfold decode_rpc_configs. destruct (run_safe get_rpc_configs data _) as [res ->]. by eexists.
Qed.

(** What the decoder demands of a configuration. *)
Record valid_config (c : RPCConfig) : Prop := {
  vc_name : name c <> EmptyString /\ short None (name c);
  vc_mode : 1 <= rpc_mode c <= 2;
  vc_transfer : 0 <= transfer_mode c <= 2;
  vc_channel : 0 <= channel c < 2 ^ 31
}.

Lemma get_config_parses c : valid_config c -> Parses get_config (write_config c) c.
Proof.
  intros [[Hn1 Hn2] Hm Ht Hc]. unfold get_config, write_config. do 4 (eapply parses_bind; [by parse_scalar|]).
  rewrite <- (app_nil_r (write_scalar 4 (channel c))). eapply parses_bind; [by parse_scalar|].
  apply parses_require; [|destruct c; apply parses_ret].
  intros r _ _ ->. rewrite !andb_true_iff, orb_true_iff, negb_true_iff, !Z.leb_le, !Z.eqb_eq, String.eqb_neq.
  repeat split; try done; lia.
Qed.

Lemma rpc_configs_decode configs :
  Forall valid_config configs -> Z.of_nat (length configs) < 2 ^ 32 ->
  decode_rpc_configs (encode_rpc_configs configs) = Ok (true, configs).
Proof.
  intros Hv Hn. rewrite Forall_forall in Hv. unfold decode_rpc_configs.
  rewrite (finishes_run _ _ (true, configs)); [done|]. unfold get_rpc_configs, encode_rpc_configs.
  eapply finishes_bind; [by parse_scalar|]. apply finishes_require.
  { intros r Hr Hs ->. apply Z.leb_le. unfold in_bounds in Hr.
    pose proof (length_concat_map write_config configs) as Hl.
    specialize (Hl ltac:(intros x _; unfold write_config, write_string; rewrite !length_app, length_write_scalar; lia)). lia. }
  rewrite Nat2Z.id, <- (app_nil_r (concat _)).
  eapply finishes_bind; [apply (repeat_parses _ _ (fun x => x)); intros c Hc; by apply get_config_parses, Hv|].
  rewrite map_id. apply finishes_is_ok, finishes_at_end. apply parses_finishes, parses_ret.
Qed.

(** On a blob with a byte too many the answer is false, and the output keeps
    what was read. *)
Example rejected_output_is_kept :
  decode_rpc_configs (encode_rpc_configs [mkRPCConfig "f" 1 2 true 0] ++ [0])
  = Ok (false, [mkRPCConfig "f" 1 2 true 0]).
Proof. by vm_compute. Qed.

End RPCConfig.

Module ScriptConstant.
Import Wire.

Inductive Kind := INT | FLOAT | BOOL | STRING | ENUM.

Definition kind_code (k : Kind) : Z := match k with INT => 0 | FLOAT => 1 | BOOL => 2 | STRING => 3 | ENUM => 4 end.

Definition kind_of (code : Z) : Kind :=
  if code =? 0 then INT else if code =? 1 then FLOAT else if code =? 2 then BOOL else if code =? 3 then STRING else ENUM.

Record EnumMember := mkEnumMember {
  member_name : string;
  member_value : Z
}.

Record ScriptConstant := mkScriptConstant {
  name : string;
  kind : Kind;
  value : Constant;
  members : list EnumMember
}.

Definition write_member (m : EnumMember) : list Z := write_string (member_name m) ++ write_scalar 8 (member_value m).

Definition encode_value (c : ScriptConstant) : outcome (list Z) :=
  match kind c, value c with
  | INT, CInt v => Ok (write_scalar 8 v)
  | FLOAT, CFloat bits => Ok (write_scalar 8 bits)
  | BOOL, CBool b => Ok (write_bool b)
  | STRING, CString s => Ok (write_string s)
  | (INT | FLOAT | BOOL | STRING), _ => Throw bad_variant_access
  | ENUM, _ => Ok (write_scalar 4 (Z.of_nat (length (members c))) ++ concat (map write_member (members c)))
  end.

Definition encode_constant (c : ScriptConstant) : outcome (list Z) :=
  let? bytes := encode_value c in
  Ok (write_string (name c) ++ write_scalar 1 (kind_code (kind c)) ++ bytes).

Definition encode_script_constants (constants : list ScriptConstant) : outcome (list Z) :=
  let? records := omapM encode_constant constants in
  Ok (write_scalar 4 (Z.of_nat (length constants)) ++ concat records).

Definition get_member : Dec EnumMember :=
  let+ name := read_string None in
  let+ value := signed_scalar 8 in
  ret (mkEnumMember name value).

(** The value and the members of a constant of that kind. *)
Definition get_value (kind : Kind) : Dec (Constant * list EnumMember) :=
  match kind with
  | INT => let+ v := signed_scalar 8 in ret (CInt v, [])
  | FLOAT => let+ bits := scalar 8 in ret (CFloat bits, [])
  | BOOL => let+ b := read_bool in ret (CBool b, [])
  | STRING => let+ s := read_string None in ret (CString s, [])
  | ENUM =>
      let+ member_count := scalar 4 in
      let+ _ := require (fun r => ok r && (member_count <=? Z.of_nat (size r))) in
      let+ members := repeat (Z.to_nat member_count) get_member in
      ret (CInt 0, members)
  end.

Definition get_constant : Dec ScriptConstant :=
  let+ name := read_string None in
  let+ kind := scalar 1 in
  let+ _ := require (fun r => ok r && (kind <=? 4)) in
  let+ body := get_value (kind_of kind) in
  ret (mkScriptConstant name (kind_of kind) body.1 body.2).

(** Bytes after the last constant are not looked at. *)
Definition get_script_constants : Dec (list ScriptConstant) :=
  let+ count := scalar 4 in
  let+ _ := require (fun r => ok r && (count <=? Z.of_nat (size r))) in
  let+ out := repeat (Z.to_nat count) get_constant in
  let+ _ := require ok in
  ret out.

Definition decode_script_constants (data : list Z) : outcome (option (list ScriptConstant)) :=
  run get_script_constants data.

#[export] Instance safe_get_member : Safe get_member.
Proof. unfold get_member. apply _. Qed.

#[export] Instance safe_get_value kind : Safe (get_value kind).
Proof. destruct kind; cbn; apply _. Qed.

#[export] Instance safe_get_constant : Safe get_constant.
Proof. unfold get_constant. apply _. Qed.

#[export] Instance safe_get_script_constants : Safe get_script_constants.
Proof. unfold get_script_constants. apply _. Qed.

Lemma decode_script_constants_safe data : is_Ok (decode_script_constants data).
Proof. apply run_safe, _. Qed.

(** The format carries the members of an enum and the value of the others. *)
Definition published (c : ScriptConstant) : ScriptConstant :=
  match kind c with
  | ENUM => mkScriptConstant (name c) ENUM (CInt 0) (members c)
  | k => mkScriptConstant (name c) k (value c) []
  end.

Definition valid_member (m : EnumMember) : Prop := short None (member_name m) /\ is_int64 (member_value m).

Definition valid_value (c : ScriptConstant) : Prop :=
  match kind c, value c with
  | INT, CInt v => is_int64 v
  | FLOAT, CFloat bits => is_uint64 bits
  | BOOL, CBool _ => True
  | STRING, CString s => short None s
  | (INT | FLOAT | BOOL | STRING), _ => False
  | ENUM, _ => Forall valid_member (members c) /\ Z.of_nat (length (members c)) < 2 ^ 32
  end.

Definition valid_constant (c : ScriptConstant) : Prop := short None (name c) /\ valid_value c.

Lemma get_member_parses m : valid_member m -> Parses get_member (write_member m) m.
Proof.
  destruct m as [n v]. intros [Hn Hv]. cbn in Hn, Hv. unfold is_int64, INT64_MIN, INT64_MAX in Hv.
  unfold get_member, write_member. cbn [member_name member_value].
  eapply parses_bind; [by parse_scalar|]. apply (parses_bind_ret _ (mkEnumMember n)). by parse_scalar.
Qed.

Lemma get_value_parses c :
  valid_value c ->
  is_Ok (encode_value c) /\
  Parses (get_value (kind c)) (ok_bytes (encode_value c)) (value (published c), members (published c)).
Proof.
  unfold valid_value, encode_value, published.
  destruct (kind c); [destruct (value c); try done..|]; cbn [ok_bytes value members]; intros Hv; (split; [by eexists|]).
  - unfold is_int64, INT64_MIN, INT64_MAX in Hv. apply (parses_bind_ret _ (fun v => (CInt v, []))). by parse_scalar.
  - apply (parses_bind_ret _ (fun v => (CFloat v, []))). by parse_scalar.
  - apply (parses_bind_ret _ (fun v => (CBool v, []))). by parse_scalar.
  - apply (parses_bind_ret _ (fun v => (CString v, []))). by parse_scalar.
  - destruct Hv as [Hm Hn]. rewrite Forall_forall in Hm. eapply parses_bind; [by parse_scalar|].
    pose proof (length_concat_map write_member (members c)) as Hl.
    specialize (Hl ltac:(intros x _; unfold write_member, write_string; rewrite !length_app, length_write_scalar; lia)).
    apply parses_require; [intros r Hr Hs ->; apply Z.leb_le; unfold in_bounds in Hr; lia|].
    rewrite Nat2Z.id. apply (parses_bind_ret _ (fun ms => (CInt 0, ms))).
    rewrite <- (map_id (members c)) at 3. apply repeat_parses. intros m Hin. by apply get_member_parses, Hm.
Qed.

Lemma constant_kind_of_code k : kind_of (kind_code k) = k.
Proof. by destruct k. Qed.

Lemma get_constant_parses c :
  valid_constant c ->
  is_Ok (encode_constant c) /\ Parses get_constant (ok_bytes (encode_constant c)) (published c).
Proof.
  intros [Hn Hv]. destruct (get_value_parses c Hv) as [[bytes E] Hp]. unfold encode_constant. rewrite E in *.
  split; [by eexists|]. cbn [obind ok_bytes] in *. unfold get_constant. eapply parses_bind; [by parse_scalar|].
  eapply parses_bind; [apply scalar_parses; destruct (kind c); cbn; lia|].
  apply parses_require; [intros r _ _ ->; by destruct (kind c)|]. rewrite constant_kind_of_code.
  replace (published c) with (mkScriptConstant (name c) (kind c) (value (published c)) (members (published c)))
    by (unfold published; by destruct (kind c)).
  apply (parses_bind_ret _ (fun body => mkScriptConstant (name c) (kind c) body.1 body.2) _
    (value (published c), members (published c))), Hp.
Qed.

Lemma script_constants_decode constants :
  Forall valid_constant constants -> Z.of_nat (length constants) < 2 ^ 32 ->
  exists bytes, encode_script_constants constants = Ok bytes /\
    decode_script_constants bytes = Ok (Some (map published constants)).
Proof.
  intros Hv Hn. rewrite Forall_forall in Hv. unfold encode_script_constants.
  rewrite omapM_ok_bytes by (intros c Hin; by apply get_constant_parses, Hv). eexists. split; [done|].
  apply finishes_run. unfold get_script_constants. eapply finishes_bind; [by parse_scalar|]. set (records := concat _).
  assert (Hl : (length constants <= length records)%nat).
  { apply length_concat_map. intros c Hin. destruct (get_constant_parses c (Hv c Hin)) as [[b E] _]. rewrite E.
    unfold encode_constant, write_string in E. apply obind_Ok in E as (value & _ & E%(f_equal ok_bytes)).
    cbn [ok_bytes] in *. rewrite <- E, !length_app, length_write_scalar. lia. }
  apply finishes_require; [intros r Hr Hs ->; apply Z.leb_le; unfold in_bounds in Hr; lia|].
  rewrite Nat2Z.id, <- (app_nil_r records).
  eapply finishes_bind; [apply repeat_parses; intros c Hin; by apply get_constant_parses, Hv|].
  apply finishes_require; [by intros r _ _ ->|]. apply parses_finishes, parses_ret.
Qed.

End ScriptConstant.
