(* ===== verification/ClassSignature.v ===== *)
(** * Class signatures

    Models the class blob of function_signature.cpp: the legacy records, the
    SDOC section (structs and documentation), the TRAT section (traits) and the
    CSIG section (signals), the last two holding nested function signature
    blobs. *)

From S2P Require Import Prelude.
From S2P Require Import Wire.
From S2P Require Import FunctionSignature.

Module ClassSignature.
Import Wire.

Record ClassField := mkClassField {
  f_name : string;
  f_type : Z;
  f_class_name : string;
  f_description : string
}.

Record ClassMethod := mkClassMethod {
  m_name : string;
  m_static : bool
}.

Record ClassSignature := mkClass {
  name : string;
  source_path : string;
  base_name : string;
  native_base : string;
  fields : list ClassField;
  methods : list ClassMethod;
  line : Z;
  is_struct : bool;
  description : string;
  is_trait : bool;
  uses : list string;
  trait_methods : list FunctionSignature.FunctionSignature;
  trait_fields : list ClassField;
  trait_signals : list FunctionSignature.FunctionSignature;
  signals : list FunctionSignature.FunctionSignature
}.

(** ** Encoding *)

Definition write_field (f : ClassField) : list Z := write_string (f_name f) ++ write_scalar 4 (f_type f).

Definition write_method (m : ClassMethod) : list Z := write_string (m_name m) ++ write_bool (m_static m).

Definition write_class (c : ClassSignature) : list Z :=
  write_string (name c) ++ write_string (base_name c) ++ write_string (native_base c) ++ write_scalar 4 (line c)
  ++ write_scalar 4 (Z.of_nat (length (fields c))) ++ concat (map write_field (fields c))
  ++ write_scalar 4 (Z.of_nat (length (methods c))) ++ concat (map write_method (methods c)).

Definition SDOC : Z := 0x434F4453.
Definition TRAT : Z := 0x54415254.
Definition CSIG : Z := 0x47495343.

Definition write_documentation (c : ClassSignature) : list Z :=
  write_bool (is_struct c) ++ write_string (description c) ++ write_scalar 4 (Z.of_nat (length (fields c)))
  ++ concat (map (fun f => write_string (f_class_name f) ++ write_string (f_description f)) (fields c)).

Definition write_trait_field (f : ClassField) : list Z :=
  write_string (f_name f) ++ write_scalar 4 (f_type f) ++ write_string (f_class_name f) ++ write_string (f_description f).

Definition encode_trait (c : ClassSignature) : outcome (list Z) :=
  let? tmethods := FunctionSignature.encode_function_signatures (trait_methods c) in
  let? tsignals := FunctionSignature.encode_function_signatures (trait_signals c) in
  Ok (write_bool (is_trait c) ++ write_scalar 4 (Z.of_nat (length (uses c))) ++ concat (map write_string (uses c))
      ++ write_blob tmethods
      ++ write_scalar 4 (Z.of_nat (length (trait_fields c))) ++ concat (map write_trait_field (trait_fields c))
      ++ write_blob tsignals).

Definition encode_signals (c : ClassSignature) : outcome (list Z) :=
  let? blob := FunctionSignature.encode_function_signatures (signals c) in Ok (write_blob blob).

Definition section_header (tag : Z) (classes : list ClassSignature) : list Z :=
  write_scalar 4 tag ++ write_scalar 4 (Z.of_nat (length classes)).

Definition encode_class_signatures (classes : list ClassSignature) : outcome (list Z) :=
  let? traits := omapM encode_trait classes in
  let? sigs := omapM encode_signals classes in
  Ok (write_scalar 4 (Z.of_nat (length classes)) ++ concat (map write_class classes)
      ++ section_header SDOC classes ++ concat (map write_documentation classes)
      ++ section_header TRAT classes ++ concat traits
      ++ section_header CSIG classes ++ concat sigs).

(** ** Decoding *)

Definition get_field : Dec ClassField :=
  let+ name := read_string None in
  let+ type := signed_scalar 4 in
  ret (mkClassField name type EmptyString EmptyString).

Definition get_method : Dec ClassMethod :=
  let+ name := read_string None in
  let+ is_static := read_bool in
  ret (mkClassMethod name is_static).

(** A count that no honest blob exceeds. *)
Definition get_count : Dec Z :=
  let+ count := scalar 4 in
  let+ _ := require (fun r => ok r && (count <=? Z.of_nat (size r))) in
  ret count.

Definition get_class : Dec ClassSignature :=
  let+ name := read_string None in
  let+ base_name := read_string None in
  let+ native_base := read_string None in
  let+ line := signed_scalar 4 in
  let+ field_count := get_count in
  let+ fields := repeat (Z.to_nat field_count) get_field in
  let+ method_count := get_count in
  let+ methods := repeat (Z.to_nat method_count) get_method in
  ret (mkClass name EmptyString base_name native_base fields methods line false EmptyString false [] [] [] [] []).

(** The tag and the count of a section; with [strict] the count is compared
    after [ok] was looked at. *)
Definition get_header (tag : Z) (strict : bool) (out : list ClassSignature) : Dec unit :=
  let+ found := scalar 4 in
  let+ _ := require (fun _ => found =? tag) in
  let+ count := scalar 4 in
  require (fun r => (negb strict || ok r) && (count =? Z.of_nat (length out))).

Definition with_documentation (c : ClassSignature) (is_struct : bool) (description : string) (fields : list ClassField) :
    ClassSignature :=
  mkClass (name c) (source_path c) (base_name c) (native_base c) fields (methods c) (line c) is_struct description
    (is_trait c) (uses c) (trait_methods c) (trait_fields c) (trait_signals c) (signals c).

Definition get_field_documentation (f : ClassField) : Dec ClassField :=
  let+ class_name := read_string None in
  let+ description := read_string None in
  ret (mkClassField (f_name f) (f_type f) class_name description).

Definition get_documentation (c : ClassSignature) : Dec ClassSignature :=
  let+ is_struct := read_strict_bool in
  let+ description := read_string None in
  let+ field_count := scalar 4 in
  let+ _ := require (fun r => ok r && (field_count =? Z.of_nat (length (fields c)))) in
  let+ fields := for_each get_field_documentation (fields c) in
  ret (with_documentation c is_struct description fields).

Definition with_trait (c : ClassSignature) (is_trait : bool) (uses : list string)
    (tmethods : list FunctionSignature.FunctionSignature) (tfields : list ClassField)
    (tsignals : list FunctionSignature.FunctionSignature) : ClassSignature :=
  mkClass (name c) (source_path c) (base_name c) (native_base c) (fields c) (methods c) (line c) (is_struct c)
    (description c) is_trait uses tmethods tfields tsignals (signals c).

Definition get_trait_field : Dec ClassField :=
  let+ name := read_string None in
  let+ type := signed_scalar 4 in
  let+ class_name := read_string None in
  let+ description := read_string None in
  ret (mkClassField name type class_name description).

Definition get_nested : Dec (list FunctionSignature.FunctionSignature) :=
  let+ length := scalar 4 in sub_blob FunctionSignature.decode_function_signatures length.

Definition get_trait (c : ClassSignature) : Dec ClassSignature :=
  let+ kind := scalar 1 in
  let+ uses_count := scalar 4 in
  let+ _ := require (fun r => ok r && (kind <=? 1) && (uses_count <=? Z.of_nat (size r))) in
  let+ uses := repeat (Z.to_nat uses_count) (read_string None) in
  let+ tmethods := get_nested in
  let+ field_count := get_count in
  let+ tfields := repeat (Z.to_nat field_count) get_trait_field in
  let+ tsignals := get_nested in
  ret (with_trait c (negb (kind =? 0)) uses tmethods tfields tsignals).

Definition with_signals (c : ClassSignature) (sigs : list FunctionSignature.FunctionSignature) : ClassSignature :=
  mkClass (name c) (source_path c) (base_name c) (native_base c) (fields c) (methods c) (line c) (is_struct c)
    (description c) (is_trait c) (uses c) (trait_methods c) (trait_fields c) (trait_signals c) sigs.

Definition get_signals (c : ClassSignature) : Dec ClassSignature :=
  let+ sigs := get_nested in ret (with_signals c sigs).

(** From the TRAT section on. *)
Definition get_trait_sections (out : list ClassSignature) : Dec (list ClassSignature) :=
  let+ _ := get_header TRAT true out in
  let+ out := for_each get_trait out in
  let+ fine := is_ok in
  let+ ended := at_end in
  if (fine : bool) && ended then ret out else
  let+ _ := get_header CSIG false out in
  let+ out := for_each get_signals out in
  let+ _ := require (fun r => ok r && Nat.eqb (offset r) (size r)) in
  ret out.

Definition get_class_signatures : Dec (list ClassSignature) :=
  let+ class_count := get_count in
  let+ out := repeat (Z.to_nat class_count) get_class in
  let+ _ := require ok in
  let+ ended := at_end in
  if (ended : bool) then ret out else
  let+ _ := get_header SDOC true out in
  let+ out := for_each get_documentation out in
  let+ _ := require ok in
  let+ ended := at_end in
  if (ended : bool) then ret out else get_trait_sections out.

Definition decode_class_signatures (data : list Z) : outcome (option (list ClassSignature)) :=
  run get_class_signatures data.

(** ** The decoder stays inside the blob *)

#[export] Instance safe_get_nested : Safe get_nested.
Proof. apply safe_bind; [apply _|]. intros n. apply safe_sub_blob, FunctionSignature.decode_function_signatures_safe. Qed.

#[export] Instance safe_get_class : Safe get_class.
Proof. unfold get_class, get_count, get_field, get_method. apply _. Qed.

#[export] Instance safe_get_class_header tag strict out : Safe (get_header tag strict out).
Proof. unfold get_header. apply _. Qed.

#[export] Instance safe_get_documentation c : Safe (get_documentation c).
Proof. unfold get_documentation, get_field_documentation. apply _. Qed.

#[export] Instance safe_get_trait c : Safe (get_trait c).
Proof. unfold get_trait, get_count, get_trait_field. apply _. Qed.

#[export] Instance safe_get_trait_sections out : Safe (get_trait_sections out).
Proof. unfold get_trait_sections, get_signals. apply _. Qed.

#[export] Instance safe_get_class_signatures : Safe get_class_signatures.
Proof. unfold get_class_signatures, get_count. apply _. Qed.

Lemma decode_class_signatures_safe data : is_Ok (decode_class_signatures data).
Proof. apply run_safe, _. Qed.

(** ** Round trip *)

(** The path of an imported script is not carried. *)
Definition published (c : ClassSignature) : ClassSignature :=
  mkClass (name c) EmptyString (base_name c) (native_base c) (fields c) (methods c) (line c) (is_struct c) (description c)
    (is_trait c) (uses c) (map FunctionSignature.published (trait_methods c)) (trait_fields c)
    (map FunctionSignature.published (trait_signals c)) (map FunctionSignature.published (signals c)).

(** A nested blob whose length the format carries. *)
Definition valid_nested (sigs : list FunctionSignature.FunctionSignature) : Prop :=
  Forall FunctionSignature.valid_signature sigs /\ Z.of_nat (length sigs) < 2 ^ 32 /\
  Z.of_nat (length (ok_bytes (FunctionSignature.encode_function_signatures sigs))) < 2 ^ 32.

Record valid_field (f : ClassField) : Prop := {
  vf_name : short None (f_name f);
  vf_type : is_int32 (f_type f);
  vf_class_name : short None (f_class_name f);
  vf_description : short None (f_description f)
}.

Record valid_class (c : ClassSignature) : Prop := {
  vk_name : short None (name c);
  vk_base : short None (base_name c);
  vk_native : short None (native_base c);
  vk_fields : Forall valid_field (fields c) /\ Z.of_nat (length (fields c)) < 2 ^ 32;
  vk_methods : Forall (fun m => short None (m_name m)) (methods c) /\ Z.of_nat (length (methods c)) < 2 ^ 32;
  vk_line : is_int32 (line c);
  vk_description : short None (description c);
  vk_uses : Forall (short None) (uses c) /\ Z.of_nat (length (uses c)) < 2 ^ 32;
  vk_trait_methods : valid_nested (trait_methods c);
  vk_trait_fields : Forall valid_field (trait_fields c) /\ Z.of_nat (length (trait_fields c)) < 2 ^ 32;
  vk_trait_signals : valid_nested (trait_signals c);
  vk_signals : valid_nested (signals c)
}.

(** The class and its fields after the legacy records, SDOC and TRAT. *)
Definition bare_field (f : ClassField) : ClassField := mkClassField (f_name f) (f_type f) EmptyString EmptyString.

Definition bare (c : ClassSignature) : ClassSignature :=
  mkClass (name c) EmptyString (base_name c) (native_base c) (map bare_field (fields c)) (methods c) (line c)
    false EmptyString false [] [] [] [] [].

Definition documented (c : ClassSignature) : ClassSignature :=
  with_documentation (bare c) (is_struct c) (description c) (fields c).

Definition traited (c : ClassSignature) : ClassSignature :=
  with_trait (documented c) (is_trait c) (uses c) (map FunctionSignature.published (trait_methods c)) (trait_fields c)
    (map FunctionSignature.published (trait_signals c)).

(** A counted list of records, none of which is empty. *)
Lemma counted_parses {A B C} (g : Dec B) (w : A -> list Z) (f : A -> B) (l : list A) (k : list B -> Dec C) rest c :
  Z.of_nat (length l) < 2 ^ 32 -> (forall x, x ∈ l -> Parses g (w x) (f x)) ->
  (forall x, x ∈ l -> 0 < length (w x))%nat -> Parses (k (map f l)) rest c ->
  Parses (let+ count := get_count in let+ xs := repeat (Z.to_nat count) g in k xs)
    (write_scalar 4 (Z.of_nat (length l)) ++ concat (map w l) ++ rest) c.
Proof.
  intros Hn Hg Hw Hk before after_. pose proof (length_concat_map w l Hw) as Hl.
  assert (Hp : Parses (let+ count := scalar 4 in
      let+ _ := require (fun r => ok r && (count <=? Z.of_nat (size r))) in
      let+ xs := repeat (Z.to_nat count) g in k xs)
    (write_scalar 4 (Z.of_nat (length l)) ++ concat (map w l) ++ rest) c).
  { eapply parses_bind; [by parse_scalar|]. apply parses_require.
    - intros r Hr Hs ->. apply Z.leb_le. unfold in_bounds in Hr. rewrite length_app in Hs. lia.
    - rewrite Nat2Z.id. eapply parses_bind; [by apply repeat_parses|done]. }
  rewrite <- (Hp before after_). unfold get_count, bind, ret.
  destruct (scalar 4 _) as [[[count r]|]|]; [|done|done]. by destruct (require _ r) as [[[? ?]|]|].
Qed.

Lemma get_class_parses c : valid_class c -> Parses get_class (write_class c) (bare c).
Proof.
  intros [Hn Hb Hv [Hf Hfn] [Hm Hmn] Hl _ _ _ _ _ _]. unfold is_int32 in Hl. unfold get_class, write_class.
  rewrite Forall_forall in Hf. rewrite Forall_forall in Hm.
  do 4 (eapply parses_bind; [by parse_scalar|]). eapply (counted_parses _ write_field bare_field).
  - done.
  - intros f Hin. destruct (Hf f Hin) as [H1 H2 _ _]. unfold is_int32 in H2. unfold get_field, write_field.
    eapply parses_bind; [by parse_scalar|]. apply (parses_bind_ret _ (fun t => mkClassField (f_name f) t _ _)). by parse_scalar.
  - intros f _. unfold write_field, write_string. rewrite !length_app, length_write_scalar. lia.
  - rewrite <- (app_nil_r (concat (map write_method _))). eapply (counted_parses _ write_method (fun x => x)).
    + done.
    + intros m Hin. pose proof (Hm m Hin) as H1. destruct m as [n b]. unfold get_method, write_method.
      eapply parses_bind; [by parse_scalar|]. apply (parses_bind_ret _ (mkClassMethod n)). by parse_scalar.
    + intros m _. unfold write_method, write_string. rewrite !length_app, length_write_scalar. lia.
    + rewrite map_id. apply parses_ret.
Qed.

Lemma get_documentation_parses c :
  valid_class c -> Parses (get_documentation (bare c)) (write_documentation c) (documented c).
Proof.
  intros [_ _ _ [Hf Hfn] _ _ Hd _ _ _ _ _]. rewrite Forall_forall in Hf. unfold get_documentation, write_documentation.
  parse_fields. change (fields (bare c)) with (map bare_field (fields c)).
  apply parses_require; [intros r _ _ ->; rewrite length_map; apply Z.eqb_refl|].
  apply (parses_bind_ret _ (with_documentation (bare c) (is_struct c) (description c))).
  pose proof (for_each_parses get_field_documentation
    (fun f => write_string (f_class_name f) ++ write_string (f_description f)) bare_field (fun f => f) (fields c)) as Hp.
  rewrite map_id in Hp. apply Hp. intros f Hin. destruct (Hf f Hin) as [_ _ H3 H4]. unfold get_field_documentation.
  eapply parses_bind; [by parse_scalar|]. destruct f as [n t cn d].
  apply (parses_bind_ret _ (fun d => mkClassField n t cn d)). by parse_scalar.
Qed.

Lemma valid_nested_decode sigs :
  valid_nested sigs ->
  exists bytes, FunctionSignature.encode_function_signatures sigs = Ok bytes /\
    Parses get_nested (write_blob bytes) (map FunctionSignature.published sigs).
Proof.
  intros (Hv & Hn & Hs). destruct (FunctionSignature.function_signatures_decode sigs Hv Hn) as (bytes & E & Hd).
  exists bytes. split; [done|]. rewrite E in Hs. cbn [ok_bytes] in Hs.
  eapply parses_bind; [by parse_scalar|]. by apply sub_blob_parses.
Qed.

Lemma get_trait_field_parses f : valid_field f -> Parses get_trait_field (write_trait_field f) f.
Proof.
  destruct f as [n t cn d]. intros [H1 H2 H3 H4]. unfold is_int32 in H2. unfold get_trait_field, write_trait_field.
  cbn [f_name f_type f_class_name f_description] in *. do 3 (eapply parses_bind; [by parse_scalar|]).
  apply (parses_bind_ret _ (mkClassField n t cn)). by parse_scalar.
Qed.

Lemma get_trait_parses c :
  valid_class c ->
  is_Ok (encode_trait c) /\ Parses (get_trait (documented c)) (ok_bytes (encode_trait c)) (traited c).
Proof.
  intros [_ _ _ _ _ _ _ [Hu Hun] Hm [Hf Hfn] Hs _]. rewrite Forall_forall in Hu. rewrite Forall_forall in Hf.
  destruct (valid_nested_decode _ Hm) as (mb & Em & Pm). destruct (valid_nested_decode _ Hs) as (sb & Es & Ps).
  unfold encode_trait. rewrite Em, Es. split; [by eexists|]. cbn [obind ok_bytes]. unfold get_trait.
  eapply parses_bind; [apply scalar1_parses|]. eapply parses_bind; [by parse_scalar|].
  pose proof (length_concat_map write_string (uses c)) as Hl.
  specialize (Hl ltac:(intros x _; unfold write_string; rewrite length_app, length_write_scalar; lia)).
  apply parses_require.
  { intros r Hr Hlen ->. rewrite length_app in Hlen. unfold in_bounds in Hr.
    rewrite !andb_true_iff, !Z.leb_le. destruct (is_trait c); lia. }
  rewrite Nat2Z.id.
  eapply parses_bind; [apply (repeat_parses _ _ (fun x => x)); intros u Hin; by apply read_string_parses, Hu|].
  eapply parses_bind; [exact Pm|]. eapply (counted_parses _ write_trait_field (fun x => x)).
  - done.
  - intros f Hin. by apply get_trait_field_parses, Hf.
  - intros f _. unfold write_trait_field, write_string. rewrite !length_app, length_write_scalar. lia.
  - rewrite <- (app_nil_r (write_blob sb)). eapply parses_bind; [exact Ps|].
    replace (negb ((if is_trait c then 1 else 0) =? 0)) with (is_trait c) by (by destruct (is_trait c)).
    rewrite !map_id. apply parses_ret.
Qed.

Lemma get_signals_parses c :
  valid_class c ->
  is_Ok (encode_signals c) /\ Parses (get_signals (traited c)) (ok_bytes (encode_signals c)) (published c).
Proof.
  intros Hc. destruct (valid_nested_decode _ (vk_signals c Hc)) as (sb & Es & Ps). unfold encode_signals. rewrite Es.
  split; [by eexists|]. by apply (parses_bind_ret _ (with_signals (traited c))).
Qed.

Lemma class_header_parses tag strict (f : ClassSignature -> ClassSignature) classes :
  is_uint32 tag -> Z.of_nat (length classes) < 2 ^ 32 ->
  Parses (get_header tag strict (map f classes)) (section_header tag classes) tt.
Proof.
  intros Ht Hn. unfold get_header, section_header. eapply parses_bind; [by parse_scalar|].
  apply parses_require; [intros r _ _ _; apply Z.eqb_refl|].
  rewrite <- (app_nil_r (write_scalar 4 (Z.of_nat _))). eapply parses_bind; [by parse_scalar|].
  intros before after_. unfold require. rewrite length_map, Z.eqb_refl, andb_true_r. cbn [ok].
  rewrite orb_true_r. apply (parses_ret tt).
Qed.

Lemma section_header_nonempty tag classes rest : section_header tag classes ++ rest <> [].
Proof. intros H%(f_equal length). unfold section_header in H. rewrite !length_app, length_write_scalar in H. cbn in H. lia. Qed.

Lemma class_signatures_decode classes :
  Forall valid_class classes -> Z.of_nat (length classes) < 2 ^ 32 ->
  exists bytes, encode_class_signatures classes = Ok bytes /\
    decode_class_signatures bytes = Ok (Some (map published classes)).
Proof.
  intros Hv Hn. rewrite Forall_forall in Hv. unfold encode_class_signatures.
  rewrite omapM_ok_bytes by (intros c Hin; by apply get_trait_parses, Hv).
  rewrite omapM_ok_bytes by (intros c Hin; by apply get_signals_parses, Hv). eexists. split; [done|].
  apply finishes_run. unfold get_class_signatures.
  pose proof (counted_parses get_class write_class bare classes ret [] (map bare classes) Hn) as Hc.
  rewrite app_nil_r in Hc. specialize (Hc ltac:(intros c Hin; by apply get_class_parses, Hv)).
  specialize (Hc ltac:(intros x _; unfold write_class, write_string; rewrite !length_app, length_write_scalar; lia)
    (parses_ret _)).
  assert (Hrest : forall {B} (k : list ClassSignature -> Dec B) rest b, Finishes (k (map bare classes)) rest b ->
    Finishes (let+ count := get_count in let+ xs := repeat (Z.to_nat count) get_class in k xs)
      (write_scalar 4 (Z.of_nat (length classes)) ++ concat (map write_class classes) ++ rest) b).
  { intros B k rest b Hk before. pose proof (finishes_bind _ k _ _ _ _ Hc Hk before) as E.
    rewrite <- app_assoc in E. rewrite <- E.
    unfold bind, ret. destruct (get_count _) as [[[? ?]|]|]; [|done|done]. by destruct (repeat _ _ _) as [[[? ?]|]|]. }
  apply Hrest. apply finishes_require; [by intros r _ _ ->|]. apply finishes_at_end.
  rewrite bool_decide_eq_false_2 by apply section_header_nonempty.
  eapply finishes_bind; [by apply class_header_parses|].
  eapply finishes_bind; [apply for_each_parses; intros c Hin; by apply get_documentation_parses, Hv|].
  apply finishes_require; [by intros r _ _ ->|]. apply finishes_at_end.
  rewrite bool_decide_eq_false_2 by apply section_header_nonempty. unfold get_trait_sections.
  eapply finishes_bind; [by apply class_header_parses|].
  eapply finishes_bind; [apply for_each_parses; intros c Hin; by apply get_trait_parses, Hv|].
  apply finishes_is_ok, finishes_at_end. rewrite bool_decide_eq_false_2 by apply section_header_nonempty. cbn [andb].
  eapply finishes_bind; [by apply class_header_parses|].
  rewrite <- (app_nil_r (concat _)).
  eapply finishes_bind; [apply for_each_parses; intros c Hin; by apply get_signals_parses, Hv|].
  apply finishes_require; [|apply parses_finishes, parses_ret].
  intros r Hr Hlen ->. unfold in_bounds in Hr. apply Nat.eqb_eq. cbn in Hlen. lia.
Qed.

End ClassSignature.
