(* ===== verification/PropertySignature.v ===== *)
(** * Property signatures

    Models property_signature.h and property_signature.cpp (and the
    [ExportSection] of export_hints.h): the blob that publishes the exported
    properties of a script. *)

From S2P Require Import Prelude.
From S2P Require Import Wire.
From S2P Require Import FunctionSignature.

Module PropertySignature.
Import Wire.

Inductive PropertyDefaultKind := NONE | NIL | INT | FLOAT | BOOL | STRING | EMPTY_ARRAY | EMPTY_DICTIONARY.

Definition kind_code (k : PropertyDefaultKind) : Z :=
  match k with
  | NONE => 0 | NIL => 1 | INT => 2 | FLOAT => 3 | BOOL => 4 | STRING => 5 | EMPTY_ARRAY => 6 | EMPTY_DICTIONARY => 7
  end.

Definition kind_of (code : Z) : PropertyDefaultKind :=
  if code =? 0 then NONE else if code =? 1 then NIL else if code =? 2 then INT else if code =? 3 then FLOAT
  else if code =? 4 then BOOL else if code =? 5 then STRING else if code =? 6 then EMPTY_ARRAY else EMPTY_DICTIONARY.

Record ExportSection := mkExportSection {
  category : string;
  group : string;
  group_prefix : string;
  subgroup : string;
  subgroup_prefix : string
}.

Record PropertySignature := mkProperty {
  name : string;
  type : Z;
  class_name : string;
  hint : Z;
  hint_string : string;
  usage : Z;
  declaration_line : Z;
  export_section : ExportSection;
  is_member : bool;
  is_static : bool;
  default_kind : PropertyDefaultKind;
  default_value : Constant
}.

Definition MAGIC : Z := 0x50524753.
Definition VERSION_MAJOR : Z := 1.
Definition VERSION_MINOR : Z := 1.
Definition MAX_BLOB_SIZE : Z := 16 * 1024 * 1024.
Definition MAX_RECORDS : Z := 100000.
Definition MAX_STRING_SIZE : Z := 1024 * 1024.

(** ** Encoding *)

Definition encode_default (kind : PropertyDefaultKind) (value : Constant) : outcome (list Z) :=
  match kind, value with
  | INT, CInt v => Ok (write_scalar 8 v)
  | FLOAT, CFloat bits => Ok (write_scalar 8 bits)
  | BOOL, CBool b => Ok (write_bool b)
  | STRING, CString s => Ok (write_string s)
  | (INT | FLOAT | BOOL | STRING), _ => Throw bad_variant_access
  | (NONE | NIL | EMPTY_ARRAY | EMPTY_DICTIONARY), _ => Ok []
  end.

Definition write_section (s : ExportSection) : list Z :=
  write_string (category s) ++ write_string (group s) ++ write_string (group_prefix s)
  ++ write_string (subgroup s) ++ write_string (subgroup_prefix s).

Definition encode_property (p : PropertySignature) : outcome (list Z) :=
  let? value := encode_default (default_kind p) (default_value p) in
  Ok (write_string (name p) ++ write_scalar 4 (type p) ++ write_string (class_name p) ++ write_scalar 4 (hint p)
      ++ write_string (hint_string p) ++ write_scalar 4 (usage p) ++ write_scalar 4 (declaration_line p)
      ++ write_section (export_section p) ++ write_bool (is_member p) ++ write_bool (is_static p)
      ++ write_scalar 1 (kind_code (default_kind p)) ++ value).

Definition encode_property_signatures (properties : list PropertySignature) : outcome (list Z) :=
  let? records := omapM encode_property properties in
  Ok (write_scalar 4 MAGIC ++ write_scalar 2 VERSION_MAJOR ++ write_scalar 2 VERSION_MINOR
      ++ write_scalar 4 (Z.of_nat (length properties)) ++ concat records).

(** ** Decoding *)

Definition read_text : Dec string := read_string (Some MAX_STRING_SIZE).

Definition get_section : Dec ExportSection :=
  let+ category := read_text in
  let+ group := read_text in
  let+ group_prefix := read_text in
  let+ subgroup := read_text in
  let+ subgroup_prefix := read_text in
  ret (mkExportSection category group group_prefix subgroup subgroup_prefix).

Definition no_section : ExportSection := mkExportSection EmptyString EmptyString EmptyString EmptyString EmptyString.

Definition get_default (kind : PropertyDefaultKind) : Dec Constant :=
  match kind with
  | INT => let+ v := signed_scalar 8 in ret (CInt v)
  | FLOAT => let+ bits := scalar 8 in ret (CFloat bits)
  | BOOL => let+ b := read_strict_bool in ret (CBool b)
  | STRING => let+ s := read_text in ret (CString s)
  | NONE | NIL | EMPTY_ARRAY | EMPTY_DICTIONARY => ret (CInt 0)
  end.

(** Version 1.0 has no sections. *)
Definition get_property (minor : Z) : Dec PropertySignature :=
  let+ name := read_text in
  let+ type := signed_scalar 4 in
  let+ class_name := read_text in
  let+ hint := scalar 4 in
  let+ hint_string := read_text in
  let+ usage := scalar 4 in
  let+ declaration_line := scalar 4 in
  let+ section := (if 1 <=? minor then get_section else ret no_section) in
  let+ member := scalar 1 in
  let+ is_static := scalar 1 in
  let+ kind := scalar 1 in
  let+ _ := require (fun r => ok r && negb (String.eqb name EmptyString) && (member <=? 1) && (is_static <=? 1)
                              && (kind <=? 7) && (-1 <=? type) && (type <=? 64)) in
  let+ value := get_default (kind_of kind) in
  let+ _ := require ok in
  ret (mkProperty name type class_name hint hint_string usage declaration_line section
         (negb (member =? 0)) (negb (is_static =? 0)) (kind_of kind) value).

Definition get_property_signatures : Dec (list PropertySignature) :=
  let+ magic := scalar 4 in
  let+ _ := require (fun _ => magic =? MAGIC) in
  let+ major := scalar 2 in
  let+ _ := require (fun _ => major =? VERSION_MAJOR) in
  let+ minor := scalar 2 in
  let+ _ := require (fun r => ok r && (minor <=? VERSION_MINOR)) in
  let+ count := scalar 4 in
  let+ _ := require (fun r => ok r && (count <=? MAX_RECORDS) && (count <=? Z.of_nat (size r))) in
  let+ staged := repeat (Z.to_nat count) (get_property minor) in
  let+ _ := require (fun r => ok r && Nat.eqb (offset r) (size r)) in
  ret staged.

(** [None] is the null pointer. *)
Definition decode_property_signatures (data : option (list Z)) : outcome (option (list PropertySignature)) :=
  match data with
  | None => Ok None
  | Some data => if MAX_BLOB_SIZE <? Z.of_nat (length data) then Ok None else run get_property_signatures data
  end.

#[export] Instance safe_get_section : Safe get_section.
Proof. unfold get_section, read_text. apply _. Qed.

#[export] Instance safe_get_property_default kind : Safe (get_default kind).
Proof. destruct kind; cbn; unfold read_text; apply _. Qed.

#[export] Instance safe_get_property minor : Safe (get_property minor).
Proof. unfold get_property, read_text. apply _. Qed.

#[export] Instance safe_get_property_signatures : Safe get_property_signatures.
Proof. unfold get_property_signatures. apply _. Qed.

Lemma decode_property_signatures_safe data : is_Ok (decode_property_signatures data).
Proof.
  destruct data as [data|]; [|by eexists]. cbn. destruct (MAX_BLOB_SIZE <? _); [by eexists|]. apply run_safe, _.
Qed.

(** ** Round trip *)

Definition carried (kind : PropertyDefaultKind) (value : Constant) : Constant :=
  match kind with INT | FLOAT | BOOL | STRING => value | _ => CInt 0 end.

(** The value of a default without one is not carried. *)
Definition published (p : PropertySignature) : PropertySignature :=
  mkProperty (name p) (type p) (class_name p) (hint p) (hint_string p) (usage p) (declaration_line p)
    (export_section p) (is_member p) (is_static p) (default_kind p) (carried (default_kind p) (default_value p)).

Definition text (s : string) : Prop := short (Some MAX_STRING_SIZE) s.

Definition valid_default (kind : PropertyDefaultKind) (value : Constant) : Prop :=
  match kind, value with
  | INT, CInt v => is_int64 v
  | FLOAT, CFloat bits => is_uint64 bits
  | STRING, CString s => text s
  | BOOL, CBool _ => True
  | (INT | FLOAT | BOOL | STRING), _ => False
  | (NONE | NIL | EMPTY_ARRAY | EMPTY_DICTIONARY), _ => True
  end.

Definition valid_section (s : ExportSection) : Prop :=
  text (category s) /\ text (group s) /\ text (group_prefix s) /\ text (subgroup s) /\ text (subgroup_prefix s).

Record valid_property (p : PropertySignature) : Prop := {
  vp_name : name p <> EmptyString /\ text (name p);
  vp_type : -1 <= type p <= 64;
  vp_class_name : text (class_name p);
  vp_hint : is_uint32 (hint p) /\ text (hint_string p);
  vp_usage : is_uint32 (usage p);
  vp_line : is_uint32 (declaration_line p);
  vp_section : valid_section (export_section p);
  vp_default : valid_default (default_kind p) (default_value p)
}.

Lemma property_kind_of_code kind : kind_of (kind_code kind) = kind.
Proof. by destruct kind. Qed.

Lemma property_default_parses kind value :
  valid_default kind value ->
  exists bytes, encode_default kind value = Ok bytes /\ Parses (get_default kind) bytes (carried kind value).
Proof.
  intros Hv. destruct kind; try (exists []; split; [done|apply parses_ret]); destruct value; try done; cbn in Hv;
    eexists; (split; [done|]).
  - unfold is_int64, INT64_MIN, INT64_MAX in Hv. apply (parses_bind_ret _ CInt). by parse_scalar.
  - apply (parses_bind_ret _ CFloat). by parse_scalar.
  - apply (parses_bind_ret _ CBool). by parse_scalar.
  - apply (parses_bind_ret _ CString). by parse_scalar.
Qed.

Lemma get_section_parses s : valid_section s -> Parses get_section (write_section s) s.
Proof.
  destruct s as [a b c d e]. intros (Ha & Hb & Hc & Hd & He). unfold get_section, write_section, read_text.
  cbn [category group group_prefix subgroup subgroup_prefix] in *. do 4 (eapply parses_bind; [by parse_scalar|]).
  apply (parses_bind_ret _ (mkExportSection a b c d)). by parse_scalar.
Qed.

Lemma get_property_parses p :
  valid_property p ->
  is_Ok (encode_property p) /\
  Parses (get_property VERSION_MINOR) (ok_bytes (encode_property p)) (published p).
Proof.
  intros [[Hn1 Hn2] Ht Hc [Hh Hs] Hu Hl Hsec Hd]. destruct (property_default_parses _ _ Hd) as (value & He & Hp).
  unfold encode_property. rewrite He. split; [by eexists|]. cbn [obind ok_bytes]. unfold get_property, read_text.
  do 7 (eapply parses_bind; [by parse_scalar|]).
  change (1 <=? VERSION_MINOR) with true. eapply parses_bind; [by apply get_section_parses|].
  do 2 (eapply parses_bind; [apply scalar1_parses|]).
  eapply parses_bind; [apply scalar_parses; destruct (default_kind p); cbn; lia|]. apply parses_require.
  - intros r _ _ ->. rewrite !andb_true_iff, negb_true_iff, !Z.leb_le, String.eqb_neq.
    repeat split; try done; try lia; [destruct (is_member p)|destruct (is_static p)|destruct (default_kind p)]; cbn; lia.
  - rewrite property_kind_of_code, <- (app_nil_r value). eapply parses_bind; [exact Hp|].
    apply parses_require; [by intros r _ _ ->|]. unfold published.
    replace (negb ((if is_member p then 1 else 0) =? 0)) with (is_member p) by (by destruct (is_member p)).
    replace (negb ((if is_static p then 1 else 0) =? 0)) with (is_static p) by (by destruct (is_static p)).
    apply parses_ret.
Qed.

Lemma property_signatures_decode properties :
  Forall valid_property properties -> Z.of_nat (length properties) <= MAX_RECORDS ->
  exists bytes, encode_property_signatures properties = Ok bytes /\
    (Z.of_nat (length bytes) <= MAX_BLOB_SIZE ->
     decode_property_signatures (Some bytes) = Ok (Some (map published properties))).
Proof.
  intros Hv Hn. rewrite Forall_forall in Hv. unfold encode_property_signatures, MAX_RECORDS in *.
  rewrite omapM_ok_bytes by (intros p Hin; by apply get_property_parses, Hv). eexists. split; [done|]. intros Hs.
  cbn [decode_property_signatures]. apply Z.ltb_ge in Hs. rewrite Hs. apply finishes_run. unfold get_property_signatures.
  eapply finishes_bind; [by parse_scalar|]. apply finishes_require; [done|].
  eapply finishes_bind; [by parse_scalar|]. apply finishes_require; [done|].
  eapply finishes_bind; [by parse_scalar|]. apply finishes_require; [by intros r _ _ ->|].
  eapply finishes_bind; [apply scalar_parses; lia|]. set (records := concat _).
  assert (Hl : (length properties <= length records)%nat).
  { apply length_concat_map. intros p Hin. destruct (get_property_parses p (Hv p Hin)) as [[b E] _]. rewrite E.
    unfold encode_property, write_string in E. apply obind_Ok in E as (value & _ & E%(f_equal ok_bytes)).
    cbn [ok_bytes] in *. rewrite <- E, !length_app, length_write_scalar. lia. }
  apply finishes_require.
  { intros r Hr Hlen ->. rewrite !andb_true_iff, !Z.leb_le. unfold in_bounds in Hr. unfold MAX_RECORDS. lia. }
  rewrite Nat2Z.id, <- (app_nil_r records).
  eapply finishes_bind; [apply repeat_parses; intros p Hin; by apply get_property_parses, Hv|].
  apply finishes_require; [|apply parses_finishes, parses_ret].
  intros r Hr Hlen ->. unfold in_bounds in Hr. apply Nat.eqb_eq. cbn in Hlen. lia.
Qed.

End PropertySignature.
