(* ===== verification/GdsMeta.v ===== *)
(** * Script metadata

    Models gdsmeta.h and gdsmeta.cpp: the [.gdsmeta] section, which holds the
    blobs of all the other metadata components.  [script_metadata_roundtrip]
    composes their round trips; [decode_script_metadata_safe] says that no
    input, however malformed, makes the decoder read outside the section. *)

From S2P Require Import Prelude.
From S2P Require Import Wire.
From S2P Require Import LineTable.
From S2P Require Import FunctionSignature.
From S2P Require Import DeclarationBlobs.
From S2P Require Import ClassSignature.
From S2P Require Import PropertySignature.

Module GdsMeta.
Import Wire.

Record ScriptMetadata := mkMetadata {
  double_precision : bool;
  is_tool : bool;
  base_is_path : bool;
  class_name : string;
  base_class : string;
  functions : list FunctionSignature.FunctionSignature;
  signals : list FunctionSignature.FunctionSignature;
  line_table : LineTable.LineTable;
  properties : list PropertySignature.PropertySignature;
  rpc_configs : list RPCConfig.RPCConfig;
  has_trait_metadata : bool;
  constants : list ScriptConstant.ScriptConstant;
  uses : list string;
  classes : list ClassSignature.ClassSignature
}.

Definition GDSMETA_MAGIC : Z := 0x4D534447.
Definition GDSMETA_VERSION : Z := 2.
Definition FLAG_DOUBLE_PRECISION : Z := Z.shiftl 1 0.
Definition FLAG_IS_TOOL : Z := Z.shiftl 1 1.
Definition FLAG_BASE_IS_PATH : Z := Z.shiftl 1 2.
Definition CNST : Z := 0x54534e43.
Definition TRAT : Z := 0x54415254.
Definition PRPC : Z := 0x43505250.

(** ** Encoding *)

Definition flags (m : ScriptMetadata) : Z :=
  let flags := 0 in
  let flags := if double_precision m then Z.lor flags FLAG_DOUBLE_PRECISION else flags in
  let flags := if is_tool m then Z.lor flags FLAG_IS_TOOL else flags in
  if base_is_path m then Z.lor flags FLAG_BASE_IS_PATH else flags.

Definition encode_script_metadata (m : ScriptMetadata) : outcome (list Z) :=
  let? functions_blob := FunctionSignature.encode_function_signatures (functions m) in
  let? signals_blob := FunctionSignature.encode_function_signatures (signals m) in
  let? constants_blob := ScriptConstant.encode_script_constants (constants m) in
  let? classes_blob := ClassSignature.encode_class_signatures (classes m) in
  let? properties_blob := PropertySignature.encode_property_signatures (properties m) in
  Ok (write_scalar 4 GDSMETA_MAGIC ++ write_scalar 2 GDSMETA_VERSION ++ write_scalar 2 (flags m)
      ++ write_string (class_name m) ++ write_string (base_class m)
      ++ write_blob functions_blob ++ write_blob signals_blob ++ write_blob (LineTable.encode_line_table (line_table m))
      ++ write_scalar 4 CNST ++ write_blob constants_blob
      ++ write_scalar 4 TRAT ++ write_scalar 4 (Z.of_nat (length (uses m))) ++ concat (map write_string (uses m))
      ++ write_blob classes_blob
      ++ write_scalar 4 PRPC ++ write_blob properties_blob
      ++ write_blob (RPCConfig.encode_rpc_configs (rpc_configs m))).

(** ** Decoding *)

(** [blob()]; the null pointer once the reader has failed. *)
Definition get_blob : Dec (option (list Z)) :=
  let+ length := scalar 4 in
  fun r =>
    if negb (ok r) || (Z.of_nat (size r) <? Z.of_nat (offset r) + length)
    then Ok (Some (None, mkReader (data r) (offset r) false))
    else (let+ bytes := take_bytes (Z.to_nat length) in ret (Some bytes)) r.

(** [if (reader.scalar<uint32_t>() != tag) return false;] *)
Definition get_tag (tag : Z) : Dec unit :=
  let+ found := scalar 4 in require (fun _ => found =? tag).

(** A null pointer comes with size 0. *)
Definition bytes_of (blob : option (list Z)) : list Z := default [] blob.

Definition lift_flag {A} (o : outcome (bool * A)) : Dec A :=
  lift (let? res := o in Ok (if res.1 then Some res.2 else None)).

Definition has_flag (value flag : Z) : bool := negb (Z.land value flag =? 0).

Definition get_script_metadata : Dec ScriptMetadata :=
  let+ magic := scalar 4 in
  let+ version := scalar 2 in
  let+ _ := require (fun r => ok r && (magic =? GDSMETA_MAGIC) && (version =? GDSMETA_VERSION)) in
  let+ flags := scalar 2 in
  let+ class_name := read_string None in
  let+ base_class := read_string None in
  let+ functions_blob := get_blob in
  let+ signals_blob := get_blob in
  let+ line_table_blob := get_blob in
  let+ _ := require ok in
  let+ functions := lift (FunctionSignature.decode_function_signatures (bytes_of functions_blob)) in
  let+ signals := lift (FunctionSignature.decode_function_signatures (bytes_of signals_blob)) in
  let+ line_table := lift (LineTable.decode_line_table line_table_blob) in
  let+ _ := get_tag CNST in
  let+ constants_blob := get_blob in
  let+ _ := require ok in
  let+ constants := lift (ScriptConstant.decode_script_constants (bytes_of constants_blob)) in
  let+ _ := get_tag TRAT in
  let+ count := scalar 4 in
  let+ _ := require (fun r => ok r && (count <=? Z.of_nat (size r - offset r))) in
  let+ uses := repeat (Z.to_nat count) (read_string None) in
  let+ classes_blob := get_blob in
  let+ _ := require ok in
  let+ classes := lift (ClassSignature.decode_class_signatures (bytes_of classes_blob)) in
  let+ _ := get_tag PRPC in
  let+ properties_blob := get_blob in
  let+ rpc_blob := get_blob in
  let+ _ := require ok in
  let+ properties := lift (PropertySignature.decode_property_signatures properties_blob) in
  let+ rpc_configs := lift_flag (RPCConfig.decode_rpc_configs (bytes_of rpc_blob)) in
  let+ _ := require (fun r => Nat.eqb (offset r) (size r)) in
  ret (mkMetadata (has_flag flags FLAG_DOUBLE_PRECISION) (has_flag flags FLAG_IS_TOOL) (has_flag flags FLAG_BASE_IS_PATH)
         class_name base_class functions signals line_table properties rpc_configs true constants uses classes).

Definition decode_script_metadata (data : list Z) : outcome (option ScriptMetadata) := run get_script_metadata data.

(** ** Safety *)

#[export] Instance safe_get_blob : Safe get_blob.
Proof.
  apply safe_bind; [apply _|]. intros length r Hr. destruct (_ || _) eqn:E; [done|]. unfold bind.
  apply orb_false_iff in E as [_ E%Z.ltb_ge]. unfold in_bounds in Hr.
  destruct (take_bytes_safe (Z.to_nat length) r) as (bytes & _ & ->); [lia|]. cbn. split; [|done].
  unfold in_bounds, size in *. cbn. lia.
Qed.

#[export] Instance safe_lift_flag {A} (o : outcome (bool * A)) : is_Ok o -> Safe (lift_flag o).
Proof. intros [res ->]. apply safe_lift. by eexists. Qed.

Lemma safe_get_script_metadata : Safe get_script_metadata.
Proof.
  pose proof FunctionSignature.decode_function_signatures_safe.
  pose proof LineTable.decode_line_table_safe. pose proof ScriptConstant.decode_script_constants_safe.
  pose proof ClassSignature.decode_class_signatures_safe. pose proof PropertySignature.decode_property_signatures_safe.
  pose proof RPCConfig.decode_rpc_configs_safe. unfold get_script_metadata, get_tag.
  repeat (apply safe_bind; [solve [apply _ | by apply safe_lift | by apply safe_lift_flag]|intros ?]). apply _.
Qed.

(** C18: whatever bytes it is given, the metadata decoder answers without reading
    outside them: no input makes one of its copies leave the section or one of
    the blobs nested in it. *)
Theorem decode_script_metadata_safe (data : list Z) : is_Ok (decode_script_metadata data).
Proof. apply run_safe, safe_get_script_metadata. Qed.

(** ** Round trip *)

(** What the section carries: the parts' published forms. *)
Definition published (m : ScriptMetadata) : ScriptMetadata :=
  mkMetadata (double_precision m) (is_tool m) (base_is_path m) (class_name m) (base_class m)
    (map FunctionSignature.published (functions m)) (map FunctionSignature.published (signals m)) (line_table m)
    (map PropertySignature.published (properties m)) (rpc_configs m) true
    (map ScriptConstant.published (constants m)) (uses m) (map ClassSignature.published (classes m)).

(** The parts are valid, and the blobs have lengths the section carries. *)
Record valid_metadata (m : ScriptMetadata) : Prop := {
  vm_class_name : short None (class_name m);
  vm_base_class : short None (base_class m);
  vm_functions : ClassSignature.valid_nested (functions m);
  vm_signals : ClassSignature.valid_nested (signals m);
  vm_lines : LineTable.ascending (line_table m) = true /\ Forall LineTable.entry_in_range (line_table m)
    /\ Z.of_nat (length (LineTable.encode_line_table (line_table m))) < 2 ^ 32;
  vm_constants : Forall ScriptConstant.valid_constant (constants m) /\ Z.of_nat (length (constants m)) < 2 ^ 32
    /\ Z.of_nat (length (ok_bytes (ScriptConstant.encode_script_constants (constants m)))) < 2 ^ 32;
  vm_uses : Forall (short None) (uses m) /\ Z.of_nat (length (uses m)) < 2 ^ 32;
  vm_classes : Forall ClassSignature.valid_class (classes m) /\ Z.of_nat (length (classes m)) < 2 ^ 32
    /\ Z.of_nat (length (ok_bytes (ClassSignature.encode_class_signatures (classes m)))) < 2 ^ 32;
  vm_properties : Forall PropertySignature.valid_property (properties m)
    /\ Z.of_nat (length (properties m)) <= PropertySignature.MAX_RECORDS
    /\ Z.of_nat (length (ok_bytes (PropertySignature.encode_property_signatures (properties m)))) <= PropertySignature.MAX_BLOB_SIZE;
  vm_rpc : Forall RPCConfig.valid_config (rpc_configs m)
    /\ Z.of_nat (length (RPCConfig.encode_rpc_configs (rpc_configs m))) < 2 ^ 32
}.

Lemma get_blob_parses bytes : Z.of_nat (length bytes) < 2 ^ 32 -> Parses get_blob (write_blob bytes) (Some bytes).
Proof.
  intros Hn. eapply parses_bind; [by parse_scalar|]. intros before after_. cbn [ok offset].
  destruct (_ || _) eqn:E.
  - exfalso. apply Z.ltb_lt in E. unfold size in E. cbn in E. rewrite !length_app in E. lia.
  - rewrite Nat2Z.id. apply (parses_bind_ret _ Some), take_bytes_parses.
Qed.

Lemma finishes_lift {A B} (o : outcome (option A)) (a : A) (k : A -> Dec B) bytes b :
  o = Ok (Some a) -> Finishes (k a) bytes b -> Finishes (bind (lift o) k) bytes b.
Proof. intros -> Hk. apply (finishes_bind _ k [] bytes a); [apply lift_parses|done]. Qed.

Lemma finishes_tag {B} tag (k : unit -> Dec B) bytes b :
  is_uint32 tag -> Finishes (k tt) bytes b -> Finishes (bind (get_tag tag) k) (write_scalar 4 tag ++ bytes) b.
Proof.
  intros Ht Hk. eapply finishes_bind; [|exact Hk]. rewrite <- (app_nil_r (write_scalar 4 tag)).
  eapply parses_bind; [by parse_scalar|]. intros before after_. unfold require. rewrite Z.eqb_refl. apply (parses_ret tt).
Qed.

Lemma flags_range m : 0 <= flags m < 2 ^ 16.
Proof. unfold flags. destruct (double_precision m), (is_tool m), (base_is_path m); by vm_compute. Qed.

Lemma flags_decode m :
  has_flag (flags m) FLAG_DOUBLE_PRECISION = double_precision m /\ has_flag (flags m) FLAG_IS_TOOL = is_tool m /\
  has_flag (flags m) FLAG_BASE_IS_PATH = base_is_path m.
Proof. unfold flags. by destruct (double_precision m), (is_tool m), (base_is_path m). Qed.

(** The part after the line table. *)
Lemma metadata_tail_finishes (m : ScriptMetadata) cb kb pb (mk : list ScriptConstant.ScriptConstant -> list string ->
    list ClassSignature.ClassSignature -> list PropertySignature.PropertySignature -> list RPCConfig.RPCConfig -> ScriptMetadata) :
  ScriptConstant.decode_script_constants cb = Ok (Some (map ScriptConstant.published (constants m))) ->
  ClassSignature.decode_class_signatures kb = Ok (Some (map ClassSignature.published (classes m))) ->
  PropertySignature.decode_property_signatures (Some pb) = Ok (Some (map PropertySignature.published (properties m))) ->
  Z.of_nat (length cb) < 2 ^ 32 -> Z.of_nat (length kb) < 2 ^ 32 -> Z.of_nat (length pb) < 2 ^ 32 ->
  valid_metadata m ->
  Finishes
    (let+ _ := get_tag CNST in
     let+ constants_blob := get_blob in
     let+ _ := require ok in
     let+ constants := lift (ScriptConstant.decode_script_constants (bytes_of constants_blob)) in
     let+ _ := get_tag TRAT in
     let+ count := scalar 4 in
     let+ _ := require (fun r => ok r && (count <=? Z.of_nat (size r - offset r))) in
     let+ uses := repeat (Z.to_nat count) (read_string None) in
     let+ classes_blob := get_blob in
     let+ _ := require ok in
     let+ classes := lift (ClassSignature.decode_class_signatures (bytes_of classes_blob)) in
     let+ _ := get_tag PRPC in
     let+ properties_blob := get_blob in
     let+ rpc_blob := get_blob in
     let+ _ := require ok in
     let+ properties := lift (PropertySignature.decode_property_signatures properties_blob) in
     let+ rpc_configs := lift_flag (RPCConfig.decode_rpc_configs (bytes_of rpc_blob)) in
     let+ _ := require (fun r => Nat.eqb (offset r) (size r)) in
     ret (mk constants uses classes properties rpc_configs))
    (write_scalar 4 CNST ++ write_blob cb
     ++ write_scalar 4 TRAT ++ write_scalar 4 (Z.of_nat (length (uses m))) ++ concat (map write_string (uses m))
     ++ write_blob kb
     ++ write_scalar 4 PRPC ++ write_blob pb
     ++ write_blob (RPCConfig.encode_rpc_configs (rpc_configs m)))
    (mk (map ScriptConstant.published (constants m)) (uses m) (map ClassSignature.published (classes m))
       (map PropertySignature.published (properties m)) (rpc_configs m)).
Proof.
  intros Hc Hk Hp Lc Lk Lp [_ _ _ _ _ _ [Hu Hun] _ _ [Hr Hrl]]. rewrite Forall_forall in Hu.
  apply finishes_tag; [done|]. eapply finishes_bind; [by apply get_blob_parses|]. apply finishes_require; [by intros r _ _ ->|].
  eapply finishes_lift; [exact Hc|]. apply finishes_tag; [done|]. eapply finishes_bind; [by parse_scalar|].
  pose proof (length_concat_map write_string (uses m)) as Hl.
  specialize (Hl ltac:(intros x _; unfold write_string; rewrite length_app, length_write_scalar; lia)).
  apply finishes_require.
  { intros r Hb Hlen ->. apply Z.leb_le. rewrite length_app in Hlen. lia. }
  rewrite Nat2Z.id.
  eapply finishes_bind; [apply (repeat_parses _ _ (fun x => x)); intros u Hin; by apply read_string_parses, Hu|].
  rewrite map_id. eapply finishes_bind; [by apply get_blob_parses|]. apply finishes_require; [by intros r _ _ ->|].
  eapply finishes_lift; [exact Hk|]. apply finishes_tag; [done|]. eapply finishes_bind; [by apply get_blob_parses|].
  rewrite <- (app_nil_r (write_blob (RPCConfig.encode_rpc_configs _))).
  eapply finishes_bind; [by apply get_blob_parses|]. apply finishes_require; [by intros r _ _ ->|].
  eapply finishes_lift; [exact Hp|]. eapply finishes_lift.
  { change (bytes_of (Some ?x)) with x. rewrite RPCConfig.rpc_configs_decode; [reflexivity|done|].
    unfold RPCConfig.encode_rpc_configs in Hrl. rewrite length_app in Hrl.
    pose proof (length_concat_map RPCConfig.write_config (rpc_configs m)) as Hl'.
    specialize (Hl' ltac:(intros x _; unfold RPCConfig.write_config, write_string; rewrite !length_app, length_write_scalar; lia)).
    lia. }
  apply finishes_require; [|apply parses_finishes, parses_ret].
  intros r Hb Hlen _. unfold in_bounds in Hb. apply Nat.eqb_eq. cbn in Hlen. lia.
Qed.

(** C17: the metadata a script is compiled with comes back from its section: the
    functions, signals, line table, properties, RPC configurations, constants,
    traits and classes, each in the form its own format carries. *)
Theorem script_metadata_roundtrip (m : ScriptMetadata) :
  valid_metadata m ->
  exists bytes, encode_script_metadata m = Ok bytes /\ decode_script_metadata bytes = Ok (Some (published m)).
Proof.
  intros Hm. pose proof Hm as [Hcn Hbc (Hfv & Hfn & Hfl) (Hsv & Hsn & Hsl) (Ha & Hr & Hll) (Hcv & Hcn' & Hcl) _
    (Hkv & Hkn & Hkl) (Hpv & Hpn & Hpl) _].
  destruct (FunctionSignature.function_signatures_decode _ Hfv Hfn) as (fb & Ef & Df).
  destruct (FunctionSignature.function_signatures_decode _ Hsv Hsn) as (sb & Es & Ds).
  destruct (ScriptConstant.script_constants_decode _ Hcv Hcn') as (cb & Ec & Dc).
  destruct (ClassSignature.class_signatures_decode _ Hkv Hkn) as (kb & Ek & Dk).
  destruct (PropertySignature.property_signatures_decode _ Hpv Hpn) as (pb & Ep & Dp).
  unfold encode_script_metadata. rewrite Ef, Es, Ec, Ek, Ep in *. cbn [obind ok_bytes] in *. specialize (Dp Hpl).
  eexists. split; [done|]. apply finishes_run. unfold get_script_metadata.
  eapply finishes_bind; [by parse_scalar|]. eapply finishes_bind; [by parse_scalar|].
  apply finishes_require; [by intros r _ _ ->|].
  eapply finishes_bind; [apply scalar_parses, flags_range|]. do 2 (eapply finishes_bind; [by parse_scalar|]).
  do 3 (eapply finishes_bind; [by apply get_blob_parses|]). apply finishes_require; [by intros r _ _ ->|].
  eapply finishes_lift; [exact Df|]. eapply finishes_lift; [exact Ds|].
  eapply finishes_lift.
  { apply LineTable.decode_of_encode; [done|done|]. unfold LineTable.encode_line_table in Hll.
    rewrite !length_app, LineTable.length_rows in Hll. lia. }
  destruct (flags_decode m) as (-> & -> & ->). unfold PropertySignature.MAX_BLOB_SIZE in Hpl.
  apply (metadata_tail_finishes m cb kb pb (fun constants uses classes properties rpc =>
    mkMetadata _ _ _ _ _ _ _ _ properties rpc true constants uses classes)); auto. lia.
Qed.

(** ** A script with one of everything *)

Definition sample_property : PropertySignature.PropertySignature :=
  PropertySignature.mkProperty "speed" 3 "" 1 "0,10" 6 4 (PropertySignature.mkExportSection "" "Motion" "" "" "")
    true false PropertySignature.FLOAT (CFloat 4611686018427387904).

Definition sample_class : ClassSignature.ClassSignature :=
  ClassSignature.mkClass "Enemy" "" "" "Node" [ClassSignature.mkClassField "hp" 2 "" "Health."]
    [ClassSignature.mkClassMethod "hit" false] 9 false "" false ["Mortal"] [] [] [] [FunctionSignature.sample_signature].

Definition sample_metadata : ScriptMetadata :=
  mkMetadata false true false "Player" "Node2D" [FunctionSignature.sample_signature] [] LineTable.sample_table
    [sample_property] [RPCConfig.mkRPCConfig "hit" 1 2 true 0] true
    [ScriptConstant.mkScriptConstant "State" ScriptConstant.ENUM (CInt 0) [ScriptConstant.mkEnumMember "IDLE" 0]]
    ["Mortal"] [sample_class].

Lemma sample_functions_valid : ClassSignature.valid_nested [FunctionSignature.sample_signature].
Proof.
  split; [|by vm_compute]. apply List.Forall_cons; [apply FunctionSignature.sample_signature_valid|apply List.Forall_nil].
Qed.

Lemma no_functions_valid : ClassSignature.valid_nested [].
Proof. split; [apply List.Forall_nil|by vm_compute]. Qed.

Lemma sample_class_valid : ClassSignature.valid_class sample_class.
Proof.
  split; [by vm_compute|by vm_compute|by vm_compute| | |by vm_compute|by vm_compute| | | | |].
  - split; [|by vm_compute]. apply List.Forall_cons; [split; by vm_compute|apply List.Forall_nil].
  - split; [|by vm_compute]. apply List.Forall_cons; [by vm_compute|apply List.Forall_nil].
  - split; [|by vm_compute]. apply List.Forall_cons; [by vm_compute|apply List.Forall_nil].
  - apply no_functions_valid.
  - split; [apply List.Forall_nil|by vm_compute].
  - apply no_functions_valid.
  - apply sample_functions_valid.
Qed.

Lemma sample_metadata_valid : valid_metadata sample_metadata.
Proof.
  split.
  - by vm_compute.
  - by vm_compute.
  - apply sample_functions_valid.
  - apply no_functions_valid.
  - split; [by vm_compute|]. split; [|by vm_compute].
    repeat (apply List.Forall_cons; [by vm_compute|]). apply List.Forall_nil.
  - split; [|by vm_compute]. apply List.Forall_cons; [|apply List.Forall_nil].
    split; [by vm_compute|]. split; [|by vm_compute]. apply List.Forall_cons; [by vm_compute|apply List.Forall_nil].
  - split; [|by vm_compute]. apply List.Forall_cons; [by vm_compute|apply List.Forall_nil].
  - split; [|by vm_compute]. apply List.Forall_cons; [|apply List.Forall_nil]. apply sample_class_valid.
  - split; [|by vm_compute]. apply List.Forall_cons; [|apply List.Forall_nil]. split; by vm_compute.
  - split; [|by vm_compute]. apply List.Forall_cons; [|apply List.Forall_nil]. split; by vm_compute.
Qed.

Lemma script_metadata_roundtrip_witness :
  exists bytes, encode_script_metadata sample_metadata = Ok bytes /\
    decode_script_metadata bytes = Ok (Some (published sample_metadata)).
Proof. apply (script_metadata_roundtrip sample_metadata). exact sample_metadata_valid. Defined.


End GdsMeta.
