(* ===== verification/Token.v ===== *)
(** * Tokens

    Models token.h and token.cpp.  Source text is a list of bytes, a byte being
    a [Z] between 0 and 255. *)

From S2P Require Import Prelude.
From S2P Require Import Double.
From S2P Require Import Wire.

Abbreviation text := (list Z).

Definition str (s : string) : text := Wire.string_bytes s.

Module Token.

Inductive TokenType :=
  | IDENTIFIER | INTEGER | FLOAT | STRING | STRING_NAME | NODE_PATH | FUNC | VAR
  | CONST | RETURN | IF | ELSE | ELIF | FOR | IN | WHILE
  | BREAK | BREAKPOINT | CONTINUE | PASS | EXTENDS | STRUCT | TRAIT | TRAIT_NAME
  | USES | TRUE | FALSE | NULL_VAL | MATCH | SWITCH | IS | AS
  | STATIC | ENUM | CLASS | CLASS_NAME | SIGNAL | AWAIT | PLUS | MINUS
  | MULTIPLY | POWER | DIVIDE | MODULO | ASSIGN | PLUS_ASSIGN | MINUS_ASSIGN | MULTIPLY_ASSIGN
  | DIVIDE_ASSIGN | MODULO_ASSIGN | POWER_ASSIGN | BIT_AND | BIT_OR | BIT_XOR | BIT_NOT | SHIFT_LEFT
  | SHIFT_RIGHT | BIT_AND_ASSIGN | BIT_OR_ASSIGN | BIT_XOR_ASSIGN | SHIFT_LEFT_ASSIGN | SHIFT_RIGHT_ASSIGN | EQUAL | NOT_EQUAL
  | LESS | LESS_EQUAL | GREATER | GREATER_EQUAL | AND | OR | NOT | LPAREN
  | RPAREN | LBRACKET | RBRACKET | LBRACE | RBRACE | COLON | COMMA | SEMICOLON
  | DOT | DOT_DOT | AT | DOLLAR | QUESTION | QUESTION_QUESTION | QUESTION_DOT | NEWLINE
  | INDENT | DEDENT | EOF_TOKEN | INVALID.

#[export] Instance token_type_eq_dec : EqDecision TokenType.
Proof. solve_decision. Defined.

Inductive TokenValue :=
  | TInt (value : Z)
  | TDouble (value : double)
  | TString (value : text).

Record Token := mkToken {
  type : TokenType;
  lexeme : text;
  value : TokenValue;
  line : Z;
  column : Z
}.

(** The constructor leaves the variant at the integer 0. *)
Definition plain (t : TokenType) (lex : text) (l c : Z) : Token := mkToken t lex (TInt 0) l c.

Definition is_type (tok : Token) (t : TokenType) : bool := bool_decide (type tok = t).

Definition is_one_of (tok : Token) (ts : list TokenType) : bool := existsb (is_type tok) ts.

Definition token_type_name (t : TokenType) : string :=
  match t with
  | IDENTIFIER => "IDENTIFIER"
  | INTEGER => "INTEGER"
  | FLOAT => "FLOAT"
  | STRING => "STRING"
  | STRING_NAME => "STRING_NAME"
  | NODE_PATH => "NODE_PATH"
  | FUNC => "FUNC"
  | VAR => "VAR"
  | RETURN => "RETURN"
  | IF => "IF"
  | ELSE => "ELSE"
  | ELIF => "ELIF"
  | FOR => "FOR"
  | IN => "IN"
  | WHILE => "WHILE"
  | BREAK => "BREAK"
  | CONTINUE => "CONTINUE"
  | PASS => "PASS"
  | EXTENDS => "EXTENDS"
  | STRUCT => "STRUCT"
  | TRAIT => "TRAIT"
  | TRAIT_NAME => "TRAIT_NAME"
  | USES => "USES"
  | TRUE => "TRUE"
  | FALSE => "FALSE"
  | NULL_VAL => "NULL"
  | MATCH => "MATCH"
  | SWITCH => "SWITCH"
  | IS => "IS"
  | AS => "AS"
  | STATIC => "STATIC"
  | ENUM => "ENUM"
  | CLASS => "CLASS"
  | CLASS_NAME => "CLASS_NAME"
  | SIGNAL => "SIGNAL"
  | AWAIT => "AWAIT"
  | PLUS => "PLUS"
  | MINUS => "MINUS"
  | MULTIPLY => "MULTIPLY"
  | POWER => "POWER"
  | DIVIDE => "DIVIDE"
  | MODULO => "MODULO"
  | ASSIGN => "ASSIGN"
  | PLUS_ASSIGN => "PLUS_ASSIGN"
  | MINUS_ASSIGN => "MINUS_ASSIGN"
  | MULTIPLY_ASSIGN => "MULTIPLY_ASSIGN"
  | DIVIDE_ASSIGN => "DIVIDE_ASSIGN"
  | MODULO_ASSIGN => "MODULO_ASSIGN"
  | POWER_ASSIGN => "POWER_ASSIGN"
  | BIT_AND => "BIT_AND"
  | BIT_OR => "BIT_OR"
  | BIT_XOR => "BIT_XOR"
  | BIT_NOT => "BIT_NOT"
  | SHIFT_LEFT => "SHIFT_LEFT"
  | SHIFT_RIGHT => "SHIFT_RIGHT"
  | BIT_AND_ASSIGN => "BIT_AND_ASSIGN"
  | BIT_OR_ASSIGN => "BIT_OR_ASSIGN"
  | BIT_XOR_ASSIGN => "BIT_XOR_ASSIGN"
  | SHIFT_LEFT_ASSIGN => "SHIFT_LEFT_ASSIGN"
  | SHIFT_RIGHT_ASSIGN => "SHIFT_RIGHT_ASSIGN"
  | EQUAL => "EQUAL"
  | NOT_EQUAL => "NOT_EQUAL"
  | LESS => "LESS"
  | LESS_EQUAL => "LESS_EQUAL"
  | GREATER => "GREATER"
  | GREATER_EQUAL => "GREATER_EQUAL"
  | AND => "AND"
  | OR => "OR"
  | NOT => "NOT"
  | LPAREN => "LPAREN"
  | RPAREN => "RPAREN"
  | LBRACKET => "LBRACKET"
  | RBRACKET => "RBRACKET"
  | LBRACE => "LBRACE"
  | RBRACE => "RBRACE"
  | COLON => "COLON"
  | COMMA => "COMMA"
  | SEMICOLON => "SEMICOLON"
  | DOT => "DOT"
  | DOT_DOT => "DOT_DOT"
  | AT => "AT"
  | DOLLAR => "DOLLAR"
  | QUESTION => "QUESTION"
  | QUESTION_QUESTION => "QUESTION_QUESTION"
  | QUESTION_DOT => "QUESTION_DOT"
  | NEWLINE => "NEWLINE"
  | INDENT => "INDENT"
  | DEDENT => "DEDENT"
  | EOF_TOKEN => "EOF"
  | INVALID => "INVALID"
  | _ => "UNKNOWN"
  end.

(** The name of a token in messages. *)
Definition describe (tok : Token) : text :=
  match type tok with
  | NEWLINE => str "end of line"
  | INDENT => str "an indented block"
  | DEDENT => str "the end of a block"
  | EOF_TOKEN => str "end of file"
  | STRING => str "a string"
  | STRING_NAME => str "a StringName"
  | NODE_PATH => str "a NodePath"
  | INVALID => str "an unrecognized token"
  | t =>
      match lexeme tok with
      | [] => str (token_type_name t)
      | lex => str "'" ++ lex ++ str "'"
      end
  end.

(** Two token types have no name of their own. *)
Lemma unnamed_types t : token_type_name t = "UNKNOWN" <-> t = CONST \/ t = BREAKPOINT.
Proof. split; [by destruct t; intros; auto|]. by intros [->| ->]. Qed.

End Token.
