(* ===== verification/Lexer.v ===== *)
(** * Lexer

    Models lexer.h, lexer.cpp and parse_diagnostics.h: the scanner that turns
    source text into tokens with INDENT and DEDENT, its brackets, the layout of
    multiline lambdas, and its two modes of reporting: it throws at the first
    error, or adds a diagnostic to a sink and goes on.

    Stacks are lists whose head is the top.  The loops of the source run on a
    budget ([budget]); [LexerFacts] shows that it is never exhausted. *)

From S2P Require Import Prelude.
From S2P Require Import Double.
From S2P Require Import Wire.
From S2P Require Import Token.

Module Lexer.
Import Token.

(** ** Characters *)

(** The byte of a one-character literal. *)
Definition chr (s : string) : Z := default 0 (head (str s)).

Definition TAB : Z := 9.
Definition NL : Z := 10.
Definition CR : Z := 13.
Definition SPACE : Z := 32.
Definition QUOTE : Z := 34.
Definition APOSTROPHE : Z := 39.
Definition BACKSLASH : Z := 92.

Definition is_digit (c : Z) : bool := (chr "0" <=? c) && (c <=? chr "9").

Definition is_hex_digit (c : Z) : bool :=
  is_digit c || ((chr "a" <=? c) && (c <=? chr "f")) || ((chr "A" <=? c) && (c <=? chr "F")).

Definition is_alpha (c : Z) : bool :=
  ((chr "a" <=? c) && (c <=? chr "z")) || ((chr "A" <=? c) && (c <=? chr "Z")) || (c =? chr "_") || (128 <=? c).

Definition is_alphanumeric (c : Z) : bool := is_alpha c || is_digit c.

(** [std::isalnum] in the C locale. *)
Definition isalnum (c : Z) : bool :=
  ((chr "a" <=? c) && (c <=? chr "z")) || ((chr "A" <=? c) && (c <=? chr "Z")) || is_digit c.

Definition is_blank (c : Z) : bool := (c =? SPACE) || (c =? TAB).

(** ** State *)

Record ParseDiagnostic := mkDiagnostic {
  d_code : string;
  d_message : string;
  d_line : Z;
  d_column : Z;
  d_end_line : Z;
  d_end_column : Z
}.

Record DiagnosticSink := mkSink {
  diagnostics : list ParseDiagnostic;
  limit : nat
}.

Definition sink_add (sink : DiagnosticSink) (code message : string) (line column end_line end_column : Z) : DiagnosticSink :=
  if (limit sink <=? length (diagnostics sink))%nat then sink else
  let line := if line <? 1 then 1 else line in
  let column := if column <? 1 then 1 else column in
  let end_line := if end_line <? line then line else end_line in
  let end_column := if (end_line =? line) && (end_column <=? column) then column + 1 else end_column in
  mkSink (diagnostics sink ++ [mkDiagnostic code message line column end_line end_column]) (limit sink).

Record OpenBracket := mkBracket {
  closer : Z;
  b_line : Z;
  b_column : Z;
  line_indent : Z
}.

Record LambdaLayout := mkLayout {
  base_indent : Z;
  bracket_depth : nat
}.

Record LambdaState := mkLambda {
  layouts : list LambdaLayout;
  signature : bool;
  parameters_closed : bool;
  suite_may_start : bool;
  parameter_depth : nat;
  lambda_base_indent : Z
}.

Record Lexer := mkLexer {
  m_diagnostics : option DiagnosticSink;
  m_source : text;
  m_tokens : list Token;
  m_indent_stack : list Z;
  m_doc_comments : list (Z * text);
  m_start : nat;
  m_current : nat;
  m_line : Z;
  m_column : Z;
  m_at_line_start : bool;
  m_statement_start : bool;
  m_type_header : bool;
  m_extensions : bool;
  m_line_indent : Z;
  m_open_brackets : list OpenBracket;
  m_lambda : LambdaState
}.

Definition set_diagnostics (x : option DiagnosticSink) (s : Lexer) : Lexer :=
  mkLexer x (m_source s) (m_tokens s) (m_indent_stack s) (m_doc_comments s) (m_start s) (m_current s) (m_line s)
    (m_column s) (m_at_line_start s) (m_statement_start s) (m_type_header s) (m_extensions s) (m_line_indent s)
    (m_open_brackets s) (m_lambda s).
Definition set_tokens (x : list Token) (s : Lexer) : Lexer :=
  mkLexer (m_diagnostics s) (m_source s) x (m_indent_stack s) (m_doc_comments s) (m_start s) (m_current s) (m_line s)
    (m_column s) (m_at_line_start s) (m_statement_start s) (m_type_header s) (m_extensions s) (m_line_indent s)
    (m_open_brackets s) (m_lambda s).
Definition set_indent_stack (x : list Z) (s : Lexer) : Lexer :=
  mkLexer (m_diagnostics s) (m_source s) (m_tokens s) x (m_doc_comments s) (m_start s) (m_current s) (m_line s)
    (m_column s) (m_at_line_start s) (m_statement_start s) (m_type_header s) (m_extensions s) (m_line_indent s)
    (m_open_brackets s) (m_lambda s).
Definition set_doc_comments (x : list (Z * text)) (s : Lexer) : Lexer :=
  mkLexer (m_diagnostics s) (m_source s) (m_tokens s) (m_indent_stack s) x (m_start s) (m_current s) (m_line s)
    (m_column s) (m_at_line_start s) (m_statement_start s) (m_type_header s) (m_extensions s) (m_line_indent s)
    (m_open_brackets s) (m_lambda s).
Definition set_start (x : nat) (s : Lexer) : Lexer :=
  mkLexer (m_diagnostics s) (m_source s) (m_tokens s) (m_indent_stack s) (m_doc_comments s) x (m_current s) (m_line s)
    (m_column s) (m_at_line_start s) (m_statement_start s) (m_type_header s) (m_extensions s) (m_line_indent s)
    (m_open_brackets s) (m_lambda s).
Definition set_current (x : nat) (s : Lexer) : Lexer :=
  mkLexer (m_diagnostics s) (m_source s) (m_tokens s) (m_indent_stack s) (m_doc_comments s) (m_start s) x (m_line s)
    (m_column s) (m_at_line_start s) (m_statement_start s) (m_type_header s) (m_extensions s) (m_line_indent s)
    (m_open_brackets s) (m_lambda s).
Definition set_line (x : Z) (s : Lexer) : Lexer :=
  mkLexer (m_diagnostics s) (m_source s) (m_tokens s) (m_indent_stack s) (m_doc_comments s) (m_start s) (m_current s)
    x (m_column s) (m_at_line_start s) (m_statement_start s) (m_type_header s) (m_extensions s) (m_line_indent s)
    (m_open_brackets s) (m_lambda s).
Definition set_column (x : Z) (s : Lexer) : Lexer :=
  mkLexer (m_diagnostics s) (m_source s) (m_tokens s) (m_indent_stack s) (m_doc_comments s) (m_start s) (m_current s)
    (m_line s) x (m_at_line_start s) (m_statement_start s) (m_type_header s) (m_extensions s) (m_line_indent s)
    (m_open_brackets s) (m_lambda s).
Definition set_at_line_start (x : bool) (s : Lexer) : Lexer :=
  mkLexer (m_diagnostics s) (m_source s) (m_tokens s) (m_indent_stack s) (m_doc_comments s) (m_start s) (m_current s)
    (m_line s) (m_column s) x (m_statement_start s) (m_type_header s) (m_extensions s) (m_line_indent s)
    (m_open_brackets s) (m_lambda s).
Definition set_statement_start (x : bool) (s : Lexer) : Lexer :=
  mkLexer (m_diagnostics s) (m_source s) (m_tokens s) (m_indent_stack s) (m_doc_comments s) (m_start s) (m_current s)
    (m_line s) (m_column s) (m_at_line_start s) x (m_type_header s) (m_extensions s) (m_line_indent s)
    (m_open_brackets s) (m_lambda s).
Definition set_type_header (x : bool) (s : Lexer) : Lexer :=
  mkLexer (m_diagnostics s) (m_source s) (m_tokens s) (m_indent_stack s) (m_doc_comments s) (m_start s) (m_current s)
    (m_line s) (m_column s) (m_at_line_start s) (m_statement_start s) x (m_extensions s) (m_line_indent s)
    (m_open_brackets s) (m_lambda s).
Definition set_line_indent (x : Z) (s : Lexer) : Lexer :=
  mkLexer (m_diagnostics s) (m_source s) (m_tokens s) (m_indent_stack s) (m_doc_comments s) (m_start s) (m_current s)
    (m_line s) (m_column s) (m_at_line_start s) (m_statement_start s) (m_type_header s) (m_extensions s) x
    (m_open_brackets s) (m_lambda s).
Definition set_open_brackets (x : list OpenBracket) (s : Lexer) : Lexer :=
  mkLexer (m_diagnostics s) (m_source s) (m_tokens s) (m_indent_stack s) (m_doc_comments s) (m_start s) (m_current s)
    (m_line s) (m_column s) (m_at_line_start s) (m_statement_start s) (m_type_header s) (m_extensions s)
    (m_line_indent s) x (m_lambda s).
Definition set_lambda (x : LambdaState) (s : Lexer) : Lexer :=
  mkLexer (m_diagnostics s) (m_source s) (m_tokens s) (m_indent_stack s) (m_doc_comments s) (m_start s) (m_current s)
    (m_line s) (m_column s) (m_at_line_start s) (m_statement_start s) (m_type_header s) (m_extensions s)
    (m_line_indent s) (m_open_brackets s) x.
Definition set_l_layouts (x : list LambdaLayout) (l : LambdaState) : LambdaState :=
  mkLambda x (signature l) (parameters_closed l) (suite_may_start l) (parameter_depth l) (lambda_base_indent l).
Definition set_l_signature (x : bool) (l : LambdaState) : LambdaState :=
  mkLambda (layouts l) x (parameters_closed l) (suite_may_start l) (parameter_depth l) (lambda_base_indent l).
Definition set_l_parameters_closed (x : bool) (l : LambdaState) : LambdaState :=
  mkLambda (layouts l) (signature l) x (suite_may_start l) (parameter_depth l) (lambda_base_indent l).
Definition set_l_suite_may_start (x : bool) (l : LambdaState) : LambdaState :=
  mkLambda (layouts l) (signature l) (parameters_closed l) x (parameter_depth l) (lambda_base_indent l).
Definition set_l_parameter_depth (x : nat) (l : LambdaState) : LambdaState :=
  mkLambda (layouts l) (signature l) (parameters_closed l) (suite_may_start l) x (lambda_base_indent l).
Definition set_l_lambda_base_indent (x : Z) (l : LambdaState) : LambdaState :=
  mkLambda (layouts l) (signature l) (parameters_closed l) (suite_may_start l) (parameter_depth l) x.

Definition no_lambda : LambdaState := mkLambda [] false false false 0 0.

(** [Lexer(source)] with the settings of [set_diagnostics] and [set_extensions]. *)
Definition construct (source : text) (sink : option DiagnosticSink) (extensions : bool) : Lexer :=
  mkLexer sink source [] [0] [] 0 0 1 1 true true false extensions 0 [] no_lambda.

Definition tolerant (s : Lexer) : bool := match m_diagnostics s with Some _ => true | None => false end.

Definition L (A : Type) : Type := M Lexer A.

Definition done_ : L unit := mret tt.
Definition gets {A} (f : Lexer -> A) : L A := fun s => (s, Ok (f s)).
Definition modify (f : Lexer -> Lexer) : L unit := mmodify f.
Definition when (b : bool) (c : L unit) : L unit := if b then c else done_.

(** ** The cursor *)

(** [m_source.substr(pos, n)] *)
Definition substr (source : text) (pos n : nat) : outcome text :=
  if decide (pos <= length source)%nat then Ok (take n (drop pos source)) else Throw out_of_range.

Definition char_at (s : Lexer) (i : nat) : Z := default 0 (m_source s !! i).

Definition is_at_end (s : Lexer) : bool := (length (m_source s) <=? m_current s)%nat.

(** [m_source[m_current++]]: at the end it is the terminating zero, past it the
    access is undefined. *)
Definition advance : L Z :=
  fun s =>
    if decide (m_current s <= length (m_source s))%nat
    then (set_column (m_column s + 1) (set_current (S (m_current s)) s), Ok (char_at s (m_current s)))
    else (s, Throw (UB "read past the end of the source")).

Definition peek_at (ahead : nat) : L Z := gets (fun s => char_at s (m_current s + ahead)).
Definition peek : L Z := gets (fun s => char_at s (m_current s)).
Definition peek_next : L Z := peek_at 1.

Definition match_ (expected : Z) : L bool :=
  fun s =>
    if is_at_end s then (s, Ok false)
    else if negb (char_at s (m_current s) =? expected) then (s, Ok false)
    else (set_column (m_column s + 1) (set_current (S (m_current s)) s), Ok true).

(** ** Errors and tokens *)

Definition error_at (message : string) (line column : Z) (code : string) (width : Z) : L unit :=
  fun s =>
    match m_diagnostics s with
    | Some sink => (set_diagnostics (Some (sink_add sink code message line column line (column + width))) s, Ok tt)
    | None => (s, Throw (LocatedException LEXER_ERROR message line column))
    end.

Definition error_code (message code : string) : L unit :=
  let* s := gets id in
  let width := Z.of_nat (m_current s) - Z.of_nat (m_start s) in
  error_at message (m_line s) (m_column s - (if 0 <? width then width else 0)) code (if 0 <? width then width else 1).

Definition error (message : string) : L unit := error_code message "LEXER_ERROR".

Definition lexeme_text : L text :=
  let* s := gets id in mlift (substr (m_source s) (m_start s) (m_current s - m_start s)).

Definition add_token (t : TokenType) : L unit :=
  let* lex := lexeme_text in
  let* _ := modify (fun s => set_tokens (m_tokens s ++ [plain t lex (m_line s) (m_column s)]) s) in
  match t with
  | NEWLINE => modify (fun s => set_type_header false (set_statement_start true s))
  | COLON => modify (fun s => if m_type_header s then set_type_header false s else s)
  | _ => done_
  end.

(** The overloads for literals. *)
Definition add_value (t : TokenType) (v : TokenValue) : L unit :=
  let* lex := lexeme_text in
  modify (fun s => set_tokens (m_tokens s ++ [mkToken t lex v (m_line s) (m_column s)]) s).

(** The loops of the source consume at least a character each time. *)
Definition budget (s : Lexer) : nat := S (length (m_source s)).

(** [while (more()) body();], the body answering the new local state. *)
Fixpoint while_ {A} (fuel : nat) (more : A -> L bool) (body : A -> L A) (a : A) : L A :=
  match fuel with
  | O => mthrow OutOfFuel
  | S fuel =>
      let* go := more a in
      if (go : bool) then let* a := body a in while_ fuel more body a else mret a
  end.

Definition while {A} (more : A -> L bool) (body : A -> L A) (a : A) : L A :=
  let* fuel := gets budget in while_ fuel more body a.

(** ** Brackets and lambda layouts *)

Definition opener_for (c : Z) : string := if c =? chr ")" then "(" else if c =? chr "]" then "[" else "{".

(** The closer as text, for a message. *)
Definition closer_text (c : Z) : string := Wire.bytes_string [c].

Definition push_bracket (c : Z) : L unit :=
  modify (fun s => set_open_brackets (mkBracket c (m_line s) (m_column s - 1) (m_line_indent s) :: m_open_brackets s) s).

Definition pop_bracket (c : Z) : L unit :=
  modify (fun s => match m_open_brackets s with
                   | b :: rest => if closer b =? c then set_open_brackets rest s else s
                   | [] => s
                   end).

Definition declaration_keywords : list string :=
  ["func"; "static"; "var"; "const"; "class"; "class_name"; "trait"; "trait_name"; "extends"; "signal"; "enum";
   "struct"; "uses"].

(** The longest prefix of characters that satisfy [p]. *)
Fixpoint span (p : Z -> bool) (l : text) : text :=
  match l with c :: l => if p c then c :: span p l else [] | [] => [] end.

Definition indent_width (blanks : text) : Z := fold_left (fun n c => n + (if c =? TAB then 4 else 1)) blanks 0.

(** The next line starts with a declaration keyword, no deeper than the line of
    the first unclosed bracket. *)
Definition resumes_after_unclosed (s : Lexer) : bool :=
  let rest := drop (m_current s) (m_source s) in
  let blanks := span is_blank rest in
  match last (m_open_brackets s) with
  | Some first =>
      if line_indent first <? indent_width blanks then false else
      let word := span (fun c => isalnum c || (c =? chr "_")) (drop (length blanks) rest) in
      existsb (fun k => bool_decide (word = str k)) declaration_keywords
  | None => false
  end.

Definition lambda_layout_active (s : Lexer) : bool :=
  match layouts (m_lambda s) with
  | l :: _ => (length (m_open_brackets s) <=? bracket_depth l)%nat
  | [] => false
  end.

(** Closes the blocks deeper than [level], one DEDENT each. *)
Fixpoint dedent_while (stack : list Z) (level : Z) : L unit :=
  match stack with
  | top :: ((_ :: _) as rest) =>
      if level <? top then
        let* _ := modify (set_indent_stack rest) in
        let* _ := add_token DEDENT in
        dedent_while rest level
      else done_
  | _ => done_
  end.

Definition dedent_to (level : Z) : L unit :=
  let* stack := gets m_indent_stack in dedent_while stack level.

Fixpoint close_layouts (ls : list LambdaLayout) : L unit :=
  match ls with
  | [] => done_
  | l :: ls =>
      let* s := gets id in
      if lambda_layout_active s && (length (m_open_brackets s) =? bracket_depth l)%nat then
        let* _ := dedent_to (base_indent l) in
        let* _ := modify (fun s => set_lambda (set_l_layouts ls (m_lambda s)) s) in
        close_layouts ls
      else done_
  end.

Definition close_lambda_layout : L unit :=
  let* ls := gets (fun s => layouts (m_lambda s)) in close_layouts ls.

(** ** Strings *)

(** The bytes of a code point, each cast to [char]. *)
Definition utf8 (cp : Z) : text :=
  map (fun b => b mod 256)
    (if cp <? 0x80 then [cp]
     else if cp <? 0x800 then [Z.lor 0xC0 (Z.shiftr cp 6); Z.lor 0x80 (Z.land cp 0x3F)]
     else if cp <? 0x10000 then
       [Z.lor 0xE0 (Z.shiftr cp 12); Z.lor 0x80 (Z.land (Z.shiftr cp 6) 0x3F); Z.lor 0x80 (Z.land cp 0x3F)]
     else
       [Z.lor 0xF0 (Z.shiftr cp 18); Z.lor 0x80 (Z.land (Z.shiftr cp 12) 0x3F);
        Z.lor 0x80 (Z.land (Z.shiftr cp 6) 0x3F); Z.lor 0x80 (Z.land cp 0x3F)]).

Definition append_utf8 (out : text) (cp : Z) : text := out ++ utf8 cp.

Definition hex_value (c : Z) : Z :=
  if (chr "0" <=? c) && (c <=? chr "9") then c - chr "0"
  else if (chr "a" <=? c) && (c <=? chr "f") then c - chr "a" + 10
  else c - chr "A" + 10.

Fixpoint hex_digits (n : nat) (value : Z) : L Z :=
  match n with
  | O => mret value
  | S n =>
      let* at_end := gets is_at_end in
      if (at_end : bool) then let* _ := error_code "Unterminated string" "UNTERMINATED_STRING" in mret value else
      let* c := peek in
      if negb (is_hex_digit c) then
        let* _ := error "Invalid hexadecimal digit in unicode escape sequence" in mret value
      else
        let* _ := advance in
        hex_digits n (to_uint32 (Z.lor (Z.shiftl value 4) (hex_value c)))
  end.

Definition scan_hex_escape (hex_len : nat) : L Z := hex_digits hex_len 0.

Definition append_unicode_escape (value : text) (hex_len : nat) : L text :=
  let* cp := scan_hex_escape hex_len in
  let* cp :=
    (if (0xD800 <=? cp) && (cp <=? 0xDBFF) then
       let* c := peek in
       let* next := peek_next in
       let* _ := when (negb (c =? BACKSLASH) || (negb (next =? chr "u") && negb (next =? chr "U")))
         (error "Invalid UTF-16 sequence in string, unpaired lead surrogate") in
       let* _ := advance in
       let* letter := advance in
       let* trail := scan_hex_escape (if letter =? chr "u" then 4 else 6) in
       let* _ := when ((trail <? 0xDC00) || (0xDFFF <? trail))
         (error "Invalid UTF-16 sequence in string, unpaired lead surrogate") in
       mret (to_uint32 (0x10000 + Z.shiftl (cp - 0xD800) 10 + (trail - 0xDC00)))
     else
       let* _ := when ((0xDC00 <=? cp) && (cp <=? 0xDFFF))
         (error "Invalid UTF-16 sequence in string, unpaired trail surrogate") in
       mret cp) in
  let* _ := when (0x10FFFF <? cp) (error "Invalid unicode codepoint in escape sequence") in
  mret (append_utf8 value cp).

(** A newline inside a string: the column of the next character is 1. *)
Definition newline_in_string : L unit := modify (fun s => set_column 0 (set_line (m_line s + 1) s)).

(** The byte of a one-letter escape. *)
Definition simple_escape (c : Z) : option Z :=
  if c =? chr "a" then Some 7
  else if c =? chr "b" then Some 8
  else if c =? chr "f" then Some 12
  else if c =? chr "n" then Some NL
  else if c =? chr "r" then Some CR
  else if c =? chr "t" then Some TAB
  else if c =? chr "v" then Some 11
  else if (c =? BACKSLASH) || (c =? QUOTE) || (c =? APOSTROPHE) then Some c
  else None.

Definition scan_escape (escaped : Z) (value : text) : L text :=
  match simple_escape escaped with
  | Some b => mret (value ++ [b])
  | None =>
      if (escaped =? chr "u") || (escaped =? chr "U") then
        append_unicode_escape value (if escaped =? chr "u" then 4 else 6)
      else if escaped =? CR then
        let* c := peek in
        let* _ := when (negb (c =? NL)) (error "Invalid escape in string") in
        let* _ := advance in
        let* _ := newline_in_string in
        mret value
      else if escaped =? NL then let* _ := newline_in_string in mret value
      else let* _ := error "Invalid escape in string" in mret value
  end.

(** What the loop over a string's characters keeps: its value so far, and how
    it ended. *)
Inductive StringEnd := Going | Terminated | Broken.

Definition append_char (value : text) : L (text * StringEnd) :=
  let* c := advance in mret (value ++ [c], Going).

Definition string_step (quote : Z) (triple raw : bool) (st : text * StringEnd) : L (text * StringEnd) :=
  let value := st.1 in
  let* c := peek in
  if c =? quote then
    if negb triple then mret (value, Terminated) else
    let* c1 := peek_next in
    let* c2 := peek_at 2 in
    if (c1 =? quote) && (c2 =? quote) then mret (value, Terminated) else append_char value
  else if c =? NL then
    let* tol := gets tolerant in
    if tol && negb triple then mret (value, Broken) else
    let* _ := newline_in_string in
    append_char value
  else if c =? BACKSLASH then
    let* _ := advance in
    let* at_end := gets is_at_end in
    if (at_end : bool) then mret (value, Broken)
    else if raw then let* c := advance in mret (value ++ [BACKSLASH; c], Going)
    else
      let* escaped := advance in
      let* value := scan_escape escaped value in
      mret (value, Going)
  else append_char value.

Definition string_going (st : text * StringEnd) : L bool :=
  let* at_end := gets is_at_end in
  mret (negb at_end && match st.2 with Going => true | _ => false end).

Definition skip (n : nat) : L unit := Nat.iter n (fun c => let* _ := advance in c) done_.

Definition scan_string (t : TokenType) (raw : bool) : L unit :=
  let* s := gets id in
  let* quote := mlift (of_option (UB "m_source[m_current - 1]") (m_source s !! (m_current s - 1)%nat)) in
  let open_line := m_line s in
  let open_column := m_column s - 1 in
  let* c := peek in
  let* next := peek_next in
  let triple := (c =? quote) && (next =? quote) in
  let* _ := when triple (skip 2) in
  let* st := while string_going (string_step quote triple raw) ([], Going) in
  match st.2 with
  | Terminated =>
      let* _ := advance in
      let* _ := when triple (skip 2) in
      add_value t (TString st.1)
  | _ =>
      let* _ := error_at "Unterminated string" open_line open_column "UNTERMINATED_STRING" 1 in
      add_value t (TString st.1)
  end.

(** ** Numbers *)

(** [std::stoull]: [None] is the exception. *)
Definition stoull (digits : text) (base : Z) : option Z :=
  let v := fold_left (fun v c => v * base + hex_value c) digits 0 in
  if v <=? UINT64_MAX then Some v else None.

(** [std::stod] of digits with an optional fraction and exponent, rounded to
    nearest; [None] is the exception for a result out of range. *)
Definition decimal (digits : text) : Z := fold_left (fun v c => v * 10 + hex_value c) digits 0.

Definition ratio (n : Z) (d : positive) : double :=
  let k := Z.max 0 (Z.log2 (Zpos d) - Z.log2 n + 66) in
  let q := (n * 2 ^ k) / Zpos d in
  let sticky := if (n * 2 ^ k) mod Zpos d =? 0 then 0 else 1 in
  binary_normalize dprec demax (2 * q + sticky) (- k - 1) false.

Definition split_number (s : text) : Z * Z :=
  let whole := span is_digit s in
  let rest := drop (length whole) s in
  let frac := match rest with c :: r => if c =? chr "." then span is_digit r else [] | [] => [] end in
  let rest := match rest with c :: r => if c =? chr "." then drop (length frac) r else rest | [] => [] end in
  let exponent :=
    match rest with
    | _ :: c :: r => if c =? chr "-" then - decimal r else if c =? chr "+" then decimal r else decimal (c :: r)
    | _ => 0
    end in
  (decimal (whole ++ frac), exponent - Z.of_nat (length frac)).

Definition stod (s : text) : option double :=
  let '(n, e) := split_number s in
  if n =? 0 then Some dzero else
  let v := if 0 <=? e then ratio (n * 10 ^ e) 1 else ratio n (Z.to_pos (10 ^ (- e))) in
  match v with
  | S754_finite _ m ex =>
      (* a subnormal result that is not exact sets ERANGE *)
      if (ex =? -1074) && (Zpos m <? 2 ^ 52) &&
         negb (if 0 <=? e then n * 10 ^ e * 2 ^ 1074 =? Zpos m else n * 2 ^ 1074 =? Zpos m * 10 ^ (- e))
      then None else Some v
  | _ => None
  end.

(** The digits of a 0x or 0b literal, underscores dropped. *)
Definition radix_going (hex : bool) (_ : text) : L bool :=
  let* at_end := gets is_at_end in
  let* c := peek in
  mret (negb at_end && ((c =? chr "_") || (if hex then is_hex_digit c else (c =? chr "0") || (c =? chr "1")))).

Definition digit_step (digits : text) : L text :=
  let* c := advance in mret (if c =? chr "_" then digits else digits ++ [c]).

Definition digits_going (_ : text) : L bool :=
  let* at_end := gets is_at_end in
  let* c := peek in
  mret (negb at_end && ((c =? chr "_") || is_digit c)).

Definition consume_digits (digits : text) : L text := while digits_going digit_step digits.

Definition scan_radix : L unit :=
  let* c := peek in
  let hex := (c =? chr "x") || (c =? chr "X") in
  let* _ := advance in
  let* digits := while (radix_going hex) digit_step [] in
  match digits with
  | [] => error (if hex then "Expected hexadecimal digits after '0x'" else "Expected binary digits after '0b'")
  | _ =>
      match stoull digits (if hex then 16 else 2) with
      | Some v => add_value INTEGER (TInt (to_int64 v))
      | None => error "Integer literal out of range"
      end
  end.

(** [num_str += advance(); ... consume_digits();] *)
Definition push_and_digits (num : text) : L text :=
  let* c := advance in consume_digits (num ++ [c]).

Definition scan_exponent (num : text) : L text :=
  let* e := advance in
  let num := num ++ [e] in
  let* c := peek in
  let* num :=
    (if (c =? chr "+") || (c =? chr "-") then let* c := advance in mret (num ++ [c]) else mret num) in
  consume_digits num.

Definition scan_decimal (first : Z) : L unit :=
  let is_float := first =? chr "." in
  let* num := consume_digits [first] in
  let* c := peek in
  let* next := peek_next in
  let fraction := (c =? chr ".") && is_digit next in
  let* num := (if fraction then push_and_digits num else mret num) in
  let* c := peek in
  let* next := peek_next in
  let* after := peek_at 2 in
  let exponent := ((c =? chr "e") || (c =? chr "E")) &&
    (is_digit next || (((next =? chr "+") || (next =? chr "-")) && is_digit after)) in
  let* num := (if exponent then scan_exponent num else mret num) in
  if is_float || fraction || exponent then
    match stod num with
    | Some v => add_value FLOAT (TDouble v)
    | None => error "Numeric literal out of range"
    end
  else
    match stoull num 10 with
    | Some v => add_value INTEGER (TInt (to_int64 v))
    | None => error "Numeric literal out of range"
    end.

Definition scan_number : L unit :=
  let* s := gets id in
  let* first := mlift (nth_ub (m_source s) (m_start s)) in
  let* c := peek in
  if (first =? chr "0") && ((c =? chr "x") || (c =? chr "X") || (c =? chr "b") || (c =? chr "B"))
  then scan_radix
  else scan_decimal first.

(** ** Identifiers *)

Definition keywords : list (string * TokenType) :=
  [("func", FUNC); ("var", VAR); ("const", CONST); ("return", RETURN); ("if", IF);
   ("else", ELSE); ("elif", ELIF); ("for", FOR); ("in", IN); ("while", WHILE);
   ("break", BREAK); ("breakpoint", BREAKPOINT); ("continue", CONTINUE); ("pass", PASS); ("extends", EXTENDS);
   ("struct", STRUCT); ("trait", TRAIT); ("trait_name", TRAIT_NAME); ("true", TRUE); ("false", FALSE);
   ("null", NULL_VAL); ("and", AND); ("or", OR); ("not", NOT); ("match", MATCH);
   ("switch", SWITCH); ("is", IS); ("static", STATIC); ("enum", ENUM); ("class", CLASS);
   ("class_name", CLASS_NAME); ("signal", SIGNAL); ("await", AWAIT); ("as", AS)].

Definition find_keyword (word : text) : option TokenType :=
  snd <$> List.find (fun k => bool_decide (word = str k.1)) keywords.

(** The width of the blanks at the start of the line that holds [m_start]. *)
Definition line_start (s : Lexer) : nat :=
  let before := take (m_start s) (m_source s) in
  let tail_ := span (fun c => negb (c =? NL)) (rev before) in
  (length before - length tail_)%nat.

Definition line_base_indent (s : Lexer) : Z :=
  let from := line_start s in
  indent_width (span is_blank (take (m_start s - from) (drop from (m_source s)))).

Definition uses_is_keyword (s : Lexer) : bool :=
  let rest := drop (m_current s) (m_source s) in
  let after := drop (length (span is_blank rest)) rest in
  (m_statement_start s || m_type_header s) && match after with c :: _ => is_alpha c | [] => false end.

Definition identifier_going (_ : unit) : L bool := let* c := peek in mret (is_alphanumeric c).

Definition skip_char (_ : unit) : L unit := let* _ := advance in done_.

Definition identifier_type (s : Lexer) (word : text) : TokenType :=
  let t := default IDENTIFIER (find_keyword word) in
  let t :=
    if negb (m_extensions s) then
      match t with STRUCT | TRAIT | TRAIT_NAME | SWITCH => IDENTIFIER | _ => t end
    else t in
  if m_extensions s && bool_decide (word = str "uses") && uses_is_keyword s then USES else t.

Definition start_lambda : L unit :=
  modify (fun s =>
    set_lambda (mkLambda (layouts (m_lambda s)) true false (suite_may_start (m_lambda s)) 0 (line_base_indent s)) s).

Definition scan_identifier : L unit :=
  let* _ := while identifier_going skip_char tt in
  let* s := gets id in
  let* word := mlift (substr (m_source s) (m_start s) (m_current s - m_start s)) in
  let t := identifier_type s word in
  let* _ := add_token t in
  let* _ := when (match t with CLASS | STRUCT | TRAIT => true | _ => false end) (modify (set_type_header true)) in
  let* _ := modify (set_statement_start false) in
  let* s := gets id in
  when (bool_decide (t = FUNC) && match m_open_brackets s with [] => false | _ => true end) start_lambda.

(** ** Layout *)

Definition blank_going (_ : Z) : L bool :=
  let* at_end := gets is_at_end in
  let* c := peek in
  mret (negb at_end && is_blank c).

Definition blank_step (level : Z) : L Z :=
  let* c := peek in
  let* _ := advance in
  mret (level + (if c =? TAB then 4 else 1)).

(** Leaves the lambda layouts a line of this indentation is outside of. *)
Fixpoint leave_layouts (level : Z) (leaving : bool) (ls : list LambdaLayout) : list LambdaLayout :=
  match ls with
  | l :: rest => if (level <=? base_indent l) || leaving then leave_layouts level leaving rest else ls
  | [] => []
  end.

Definition is_closing (c : Z) : bool := (c =? chr ")") || (c =? chr "]") || (c =? chr "}") || (c =? chr ",").

Definition top_indent (s : Lexer) : Z := default 0 (head (m_indent_stack s)).

(** [m_indent_stack.back() = level] *)
Definition replace_top (level : Z) (s : Lexer) : Lexer := set_indent_stack (level :: tail (m_indent_stack s)) s.

Definition change_indent (level : Z) (leaving : bool) : L unit :=
  let* s := gets id in
  if top_indent s <? level then
    let* _ := modify (set_indent_stack (level :: m_indent_stack s)) in
    add_token INDENT
  else if level <? top_indent s then
    let* _ := dedent_to level in
    let* s := gets id in
    when (negb (top_indent s =? level) && negb leaving)
      (let* _ := error_code "Inconsistent indentation" "INCONSISTENT_INDENTATION" in
       modify (replace_top level))
  else done_.

Definition handle_indent : L unit :=
  let* level := while blank_going blank_step 0 in
  let* at_end := gets is_at_end in
  let* c := peek in
  let* _ := modify (set_at_line_start false) in
  if at_end || (c =? NL) || (c =? chr "#") then done_ else
  let* _ := modify (set_line_indent level) in
  let* s := gets id in
  let leaving := lambda_layout_active s && (level <? top_indent s) && is_closing c in
  let* _ := change_indent level leaving in
  modify (fun s => set_lambda (set_l_layouts (leave_layouts level leaving (layouts (m_lambda s))) (m_lambda s)) s).

(** ** One token *)

Definition next_line : L unit := modify (fun s => set_column 1 (set_line (m_line s + 1) s)).

(** The report of [resumes_after_unclosed] and the recovery. *)
Definition recover_unclosed : L unit :=
  let* s := gets id in
  match last (m_open_brackets s) with
  | Some open =>
      if tolerant s && resumes_after_unclosed s then
        let* _ := error_at ("Unclosed '" +:+ opener_for (closer open) +:+ "', expected '" +:+ closer_text (closer open)
                            +:+ "' before the end of the statement") (b_line open) (b_column open)
                    "EXPECTED_CLOSING_DELIMITER" 1 in
        modify (fun s => set_lambda (set_l_layouts [] (m_lambda s)) (set_open_brackets [] s))
      else done_
  | None => done_
  end.

Definition open_suite (s : Lexer) : Lexer :=
  if suite_may_start (m_lambda s) then
    set_lambda (set_l_suite_may_start false
      (set_l_layouts (mkLayout (lambda_base_indent (m_lambda s)) (length (m_open_brackets s)) :: layouts (m_lambda s))
        (m_lambda s))) s
  else s.

Definition scan_newline : L unit :=
  let* _ := modify open_suite in
  let* _ := recover_unclosed in
  let* s := gets id in
  let* _ := when (match m_open_brackets s with [] => true | _ => false end || lambda_layout_active s)
    (let* _ := add_token NEWLINE in modify (set_at_line_start true)) in
  next_line.

Definition continuation_going (_ : unit) : L bool :=
  let* c := peek in mret ((c =? SPACE) || (c =? CR) || (c =? TAB)).

Definition scan_continuation : L unit :=
  let* _ := while continuation_going skip_char tt in
  let* c := peek in
  if negb (c =? NL) then error "Expected end of line after '\' line continuation"
  else let* _ := advance in next_line.

Definition comment_going (_ : unit) : L bool :=
  let* c := peek in
  let* at_end := gets is_at_end in
  mret (negb (c =? NL) && negb at_end).

(** Drops the characters that satisfy [p] from the end. *)
Fixpoint trim_right (p : Z -> bool) (l : text) : text :=
  match l with
  | [] => []
  | c :: l => match trim_right p l with
              | [] => if p c then [] else [c]
              | l' => c :: l'
              end
  end.

Definition doc_text (t : text) : text :=
  let t := match t with c :: rest => if c =? SPACE then rest else t | [] => t end in
  trim_right (fun c => (c =? CR) || (c =? SPACE) || (c =? TAB)) t.

Definition scan_comment : L unit :=
  let* s := gets id in
  let comment_line := m_line s in
  let* c := peek in
  let is_doc := c =? chr "#" in
  let* _ := when is_doc (skip 1) in
  let* text_start := gets m_current in
  let* _ := while comment_going skip_char tt in
  when is_doc
    (let* s := gets id in
     let* t := mlift (substr (m_source s) text_start (m_current s - text_start)) in
     modify (fun s => set_doc_comments (m_doc_comments s ++ [(comment_line, doc_text t)]) s)).

Definition scan_lparen : L unit :=
  let* _ := push_bracket (chr ")") in
  let* _ := add_token LPAREN in
  modify (fun s =>
    let l := m_lambda s in
    if signature l && (parameter_depth l =? 0)%nat
    then set_lambda (set_l_parameter_depth (length (m_open_brackets s)) l) s else s).

Definition scan_rparen : L unit :=
  let* depth := gets (fun s => length (m_open_brackets s)) in
  let* _ := close_lambda_layout in
  let* _ := pop_bracket (chr ")") in
  let* _ := add_token RPAREN in
  modify (fun s =>
    let l := m_lambda s in
    if signature l && (depth =? parameter_depth l)%nat then set_lambda (set_l_parameters_closed true l) s else s).

Definition scan_closer (c : Z) (t : TokenType) : L unit :=
  let* _ := close_lambda_layout in
  let* _ := pop_bracket c in
  add_token t.

Definition scan_colon : L unit :=
  let* _ := add_token COLON in
  modify (fun s =>
    let l := m_lambda s in
    if signature l && parameters_closed l
    then set_lambda (mkLambda (layouts l) false false true 0 (lambda_base_indent l)) s else s).

(** [add_token(match(expected) ? yes : no)] *)
Definition either (expected : Z) (yes no : TokenType) : L unit :=
  let* m := match_ expected in add_token (if (m : bool) then yes else no).

Definition scan_question : L unit :=
  let* s := gets id in
  let* _ := when (negb (m_extensions s))
    (error_code "'?' is a SafeGDScript extension, not GDScript; enable it with --extensions" "EXTENSION_DISABLED") in
  let* m := match_ (chr "?") in
  if (m : bool) then add_token QUESTION_QUESTION else either (chr ".") QUESTION_DOT QUESTION.

(** A doubled operator or the single one, each with its assignment form. *)
Definition scan_double (c : Z) (twice_assign twice once_assign once : TokenType) : L unit :=
  let* m := match_ c in
  if (m : bool) then either (chr "=") twice_assign twice else either (chr "=") once_assign once.

(** A quoted literal after its prefix, which the caller has seen. *)
Definition scan_prefixed (t : TokenType) (raw : bool) : L unit :=
  let* _ := advance in scan_string t raw.

Definition is_quote (c : Z) : bool := (c =? QUOTE) || (c =? APOSTROPHE).

Definition scan_ampersand : L unit :=
  let* next := peek in
  if is_quote next then scan_prefixed STRING_NAME false else
  let* m := match_ (chr "&") in
  if (m : bool) then add_token AND else either (chr "=") BIT_AND_ASSIGN BIT_AND.

Definition scan_bar : L unit :=
  let* m := match_ (chr "|") in
  if (m : bool) then add_token OR else either (chr "=") BIT_OR_ASSIGN BIT_OR.

Definition scan_caret : L unit :=
  let* next := peek in
  if is_quote next then scan_prefixed NODE_PATH false else either (chr "=") BIT_XOR_ASSIGN BIT_XOR.

Definition scan_dot : L unit :=
  let* next := peek in
  if is_digit next then scan_number else either (chr ".") DOT_DOT DOT.

Definition scan_default (c : Z) : L unit :=
  if is_digit c then scan_number else
  let* next := peek in
  if (c =? chr "r") && is_quote next then scan_prefixed STRING true
  else if is_alpha c then scan_identifier
  else error_code "Unexpected character" "UNEXPECTED_CHARACTER".

(** The cases of the switch, in its order. *)
Definition cases : list (Z * L unit) :=
  [(SPACE, done_); (CR, done_); (TAB, done_);
   (NL, scan_newline); (BACKSLASH, scan_continuation); (chr "#", scan_comment);
   (chr "(", scan_lparen);
   (chr "[", let* _ := push_bracket (chr "]") in add_token LBRACKET);
   (chr "{", let* _ := push_bracket (chr "}") in add_token LBRACE);
   (chr ")", scan_rparen); (chr "]", scan_closer (chr "]") RBRACKET); (chr "}", scan_closer (chr "}") RBRACE);
   (chr ":", scan_colon); (chr ",", let* _ := close_lambda_layout in add_token COMMA);
   (chr ";", add_token SEMICOLON); (chr ".", scan_dot); (chr "@", add_token AT); (chr "$", add_token DOLLAR);
   (chr "?", scan_question);
   (chr "+", either (chr "=") PLUS_ASSIGN PLUS); (chr "-", either (chr "=") MINUS_ASSIGN MINUS);
   (chr "*", scan_double (chr "*") POWER_ASSIGN POWER MULTIPLY_ASSIGN MULTIPLY);
   (chr "/", either (chr "=") DIVIDE_ASSIGN DIVIDE); (chr "%", either (chr "=") MODULO_ASSIGN MODULO);
   (chr "=", either (chr "=") EQUAL ASSIGN); (chr "!", either (chr "=") NOT_EQUAL NOT);
   (chr "<", scan_double (chr "<") SHIFT_LEFT_ASSIGN SHIFT_LEFT LESS_EQUAL LESS);
   (chr ">", scan_double (chr ">") SHIFT_RIGHT_ASSIGN SHIFT_RIGHT GREATER_EQUAL GREATER);
   (chr "&", scan_ampersand); (chr "|", scan_bar); (chr "^", scan_caret); (chr "~", add_token BIT_NOT);
   (QUOTE, scan_string STRING false); (APOSTROPHE, scan_string STRING false)].

Definition scan_char (c : Z) : L unit :=
  match List.find (fun k => c =? k.1) cases with
  | Some k => k.2
  | None => scan_default c
  end.

Definition layout_char (c : Z) : bool :=
  (c =? SPACE) || (c =? CR) || (c =? TAB) || (c =? NL) || (c =? chr "#").

Definition scan_token : L unit :=
  let* line_start := gets m_at_line_start in
  if (line_start : bool) then handle_indent else
  let* c := advance in
  let* _ := modify (fun s =>
    if suite_may_start (m_lambda s) && negb (layout_char c)
    then set_lambda (set_l_suite_may_start false (m_lambda s)) s else s) in
  scan_char c.

(** ** The whole source *)

Definition report_unclosed : L unit :=
  let* s := gets id in
  match (if tolerant s then last (m_open_brackets s) else head (m_open_brackets s)) with
  | Some open =>
      let* _ := error_at ("Unclosed '" +:+ opener_for (closer open) +:+ "', expected '" +:+ closer_text (closer open)
                          +:+ "' before the end of the file") (b_line open) (b_column open)
                  "EXPECTED_CLOSING_DELIMITER" 1 in
      let* _ := modify (set_open_brackets []) in
      let* s := gets id in
      when (match last (m_tokens s) with Some t => negb (is_type t NEWLINE) | None => false end) (add_token NEWLINE)
  | None => done_
  end.

(** [while (m_indent_stack.size() > 1)] *)
Fixpoint close_blocks (stack : list Z) : L unit :=
  match stack with
  | _ :: ((_ :: _) as rest) =>
      let* _ := modify (set_indent_stack rest) in
      let* _ := add_token DEDENT in
      close_blocks rest
  | _ => done_
  end.

Definition token_going (_ : unit) : L bool := let* at_end := gets is_at_end in mret (negb at_end).

Definition token_step (_ : unit) : L unit :=
  let* _ := modify (fun s => set_start (m_current s) s) in scan_token.

(** A line start is a step of its own. *)
Definition token_budget (s : Lexer) : nat := (2 * length (m_source s) + 2)%nat.

Definition tokenize_ : L (list Token) :=
  let* fuel := gets token_budget in
  let* _ := while_ fuel token_going token_step tt in
  let* _ := report_unclosed in
  let* stack := gets m_indent_stack in
  let* _ := close_blocks stack in
  let* _ := add_token EOF_TOKEN in
  gets m_tokens.

(** The tokens of a source in strict mode. *)
Definition tokenize (source : text) (extensions : bool) : outcome (list Token) :=
  (tokenize_ (construct source None extensions)).2.

End Lexer.
