(* ===== verification/LexerFacts.v ===== *)
(** * Properties of the lexer

    [layout_balanced]: the INDENT and DEDENT tokens of every source nest.
    [tokenize_total]: the scanning loops end.  Both follow from [Good], what
    every operation of the lexer does to the state, which composes along the
    monad. *)

From S2P Require Import Prelude.
From S2P Require Import Double.
From S2P Require Import Wire.
From S2P Require Import Token.
From S2P Require Import Lexer.

Module LexerFacts.
Import Token.
Import Lexer.

(** ** Nesting *)

(** The depth of the blocks after [tokens], if none is closed that is not open. *)
Fixpoint nesting (depth : nat) (tokens : list Token) : option nat :=
  match tokens with
  | [] => Some depth
  | t :: tokens =>
      match type t, depth with
      | INDENT, _ => nesting (S depth) tokens
      | DEDENT, S depth => nesting depth tokens
      | DEDENT, O => None
      | _, _ => nesting depth tokens
      end
  end.

Definition neutral (t : TokenType) : bool := match t with INDENT | DEDENT => false | _ => true end.

Lemma nesting_app d tokens1 tokens2 :
  nesting d (tokens1 ++ tokens2) = match nesting d tokens1 with Some d' => nesting d' tokens2 | None => None end.
Proof.
  revert d. induction tokens1 as [|t tokens1 IH]; intros d; [done|]. cbn [app nesting].
  destruct (type t); try apply IH. destruct d; [done|apply IH].
Qed.

Lemma nesting_neutral d t : neutral (type t) = true -> nesting d [t] = Some d.
Proof. cbn. by destruct (type t). Qed.

(** The open blocks are the entries above the bottom of the stack. *)
Definition Inv (s : Lexer) : Prop :=
  m_indent_stack s <> [] /\ nesting 0 (m_tokens s) = Some (pred (length (m_indent_stack s))).

(** ** What every operation does *)

Record R (s s' : Lexer) : Prop := {
  r_source : m_source s' = m_source s;
  r_start : m_start s' = m_start s;
  r_mode : tolerant s' = tolerant s;
  r_current : (m_current s <= m_current s')%nat;
  r_inv : Inv s -> Inv s'
}.

Lemma R_refl s : R s s.
Proof. by split. Qed.

Lemma R_trans s1 s2 s3 : R s1 s2 -> R s2 s3 -> R s1 s3.
Proof. intros [H1 H2 H3 H4 H5] [G1 G2 G3 G4 G5]. split; [congruence|congruence|congruence|lia|auto]. Qed.

(** Moves by [R] and never runs out of its budget. *)
Class Good {A} (c : L A) : Prop :=
  good : forall s, match c s with (s', Ok _) => R s s' | (_, Throw e) => e <> OutOfFuel end.

#[export] Instance good_ret {A} (a : A) : Good (mret a).
Proof. intros s. apply R_refl. Qed.

#[export] Instance good_done : Good done_.
Proof. intros s. apply R_refl. Qed.

#[export] Instance good_gets {A} (f : Lexer -> A) : Good (gets f).
Proof. intros s. apply R_refl. Qed.

#[export] Instance good_bind {A B} (c : L A) (k : A -> L B) : Good c -> (forall a, Good (k a)) -> Good (mbind c k).
Proof.
  intros Hc Hk s. unfold mbind. specialize (Hc s). destruct (c s) as [s1 [a|e]]; [|done].
  specialize (Hk a s1). destruct (k a s1) as [s2 [b|e]]; [|done]. by eapply R_trans.
Qed.

#[export] Instance good_if {A} (b : bool) (c d : L A) : Good c -> Good d -> Good (if b then c else d).
Proof. by destruct b. Qed.

#[export] Instance good_when b c : Good c -> Good (when b c).
Proof. unfold when. apply _. Qed.

#[export] Instance good_substr source pos n : Good (mlift (substr source pos n)).
Proof. intros s. unfold mlift, substr. destruct (decide _); [apply R_refl|done]. Qed.

#[export] Instance good_nth {A} (l : list A) i : Good (mlift (nth_ub l i)).
Proof. intros s. unfold mlift, nth_ub, of_option. destruct (l !! i); [apply R_refl|done]. Qed.

(** An update that leaves what [R] looks at. *)
Class Frame (f : Lexer -> Lexer) : Prop :=
  frame : forall s, m_source (f s) = m_source s /\ m_start (f s) = m_start s /\ m_current (f s) = m_current s
    /\ m_diagnostics (f s) = m_diagnostics s /\ m_tokens (f s) = m_tokens s /\ m_indent_stack (f s) = m_indent_stack s.

Lemma frame_R f s : Frame f -> R s (f s).
Proof.
  intros Hf. destruct (Hf s) as (H1 & H2 & H3 & H4 & H5 & H6).
  split; [done|done|unfold tolerant; by rewrite H4|lia|unfold Inv; by rewrite H5, H6].
Qed.

#[export] Instance good_modify f : Frame f -> Good (modify f).
Proof. intros Hf s. by apply frame_R. Qed.

Ltac frame_tac :=
  let s := fresh "s" in intros s; cbv beta zeta; repeat case_match; repeat split; reflexivity.

#[export] Hint Extern 1 (Frame _) => frame_tac : typeclass_instances.

#[export] Instance good_advance : Good advance.
Proof.
  intros s. unfold advance. destruct (decide _); [|done]. split; try done. cbn. lia.
Qed.

#[export] Instance good_peek_at n : Good (peek_at n).
Proof. unfold peek_at. apply _. Qed.

#[export] Instance good_peek : Good peek.
Proof. unfold peek. apply _. Qed.

#[export] Instance good_peek_next : Good peek_next.
Proof. unfold peek_next. apply _. Qed.

#[export] Instance good_match expected : Good (match_ expected).
Proof.
  intros s. unfold match_. destruct (is_at_end s); [apply R_refl|]. destruct (negb _); [apply R_refl|].
  split; try done. cbn. lia.
Qed.

#[export] Instance good_error_at message line column code width : Good (error_at message line column code width).
Proof.
  intros s. unfold error_at. destruct (m_diagnostics s) eqn:E; [|done]. split; try done. unfold tolerant. cbn. by rewrite E.
Qed.

#[export] Instance good_error_code message code : Good (error_code message code).
Proof. unfold error_code. apply _. Qed.

#[export] Instance good_error message : Good (error message).
Proof. unfold error. apply _. Qed.

#[export] Instance good_lexeme_text : Good lexeme_text.
Proof. unfold lexeme_text. apply _. Qed.

(** Adding a token that opens or closes nothing. *)
Lemma add_neutral_R s t : neutral (type t) = true -> R s (set_tokens (m_tokens s ++ [t]) s).
Proof.
  intros Ht. split; try done. unfold Inv. cbn. intros [Hn Hd]. split; [done|]. rewrite nesting_app, Hd. by apply nesting_neutral.
Qed.

#[export] Instance good_add_value t v : neutral t = true -> Good (add_value t v).
Proof.
  intros Ht. unfold add_value. apply good_bind; [apply _|]. intros lex s. by apply add_neutral_R.
Qed.

#[export] Instance good_add_token t : neutral t = true -> Good (add_token t).
Proof.
  intros Ht. unfold add_token. apply good_bind; [apply _|]. intros lex. apply good_bind.
  { intros s. by apply add_neutral_R. }
  intros _. destruct t; apply _.
Qed.

#[export] Hint Extern 0 (neutral _ = true) => first [reflexivity | assumption] : typeclass_instances.

#[export] Instance good_either expected yes no :
  neutral yes = true -> neutral no = true -> Good (either expected yes no).
Proof. intros Hy Hn. unfold either. apply good_bind; [apply _|]. intros m. apply good_add_token. by destruct m. Qed.

(** ** Loops *)

(** The condition only looks. *)
Class Looks (c : L bool) : Prop := looks : forall s, exists b, c s = (s, Ok b).

(** The budget suffices when every round but the last moves the cursor. *)
Lemma good_while {A} (more : A -> L bool) (body : A -> L A) (a : A) :
  (forall a, Looks (more a)) -> (forall a, Good (body a)) ->
  (forall a s, more a s = (s, Ok true) -> (m_current s < length (m_source s))%nat) ->
  (forall a s s' a', more a s = (s, Ok true) -> body a s = (s', Ok a') ->
     more a' s' = (s', Ok false) \/ (m_current s < m_current s')%nat) ->
  Good (while more body a).
Proof.
  intros Hlook Hbody Hend Hmove s. unfold while. unfold mbind at 1, gets. 
  assert (Hfuel : (S (length (m_source s) - m_current s) <= budget s)%nat) by (unfold budget; lia).
  revert Hfuel. generalize (budget s) as fuel. intros fuel. revert a s.
  induction fuel as [|fuel IH]; intros a s Hfuel; [lia|]. cbn [while_]. unfold mbind at 1.
  destruct (Hlook a s) as [b Hb]. rewrite Hb. destruct b; [|apply R_refl].
  specialize (Hend a s Hb). unfold mbind at 1. specialize (Hbody a s) as HR.
  destruct (body a s) as [s' [a'|e]] eqn:E; [|done]. destruct (Hmove a s s' a' Hb E) as [Hstop|Hlt].
  - destruct fuel; [lia|]. cbn [while_]. unfold mbind at 1. by rewrite Hstop.
  - assert (Hf : (S (length (m_source s') - m_current s') <= fuel)%nat) by (rewrite (r_source _ _ HR); lia).
    specialize (IH a' s' Hf). destruct (while_ fuel more body a' s') as [s'' [a''|e]]; [|done]. by eapply R_trans.
Qed.

(** Moves the cursor when it succeeds. *)
Definition Moves {A} (c : L A) : Prop :=
  forall s s' a, c s = (s', Ok a) -> (m_current s < m_current s')%nat.

Lemma moves_advance {A} (k : Z -> L A) : (forall c, Good (k c)) -> Moves (mbind advance k).
Proof.
  intros Hk s s' a. unfold mbind, advance. destruct (decide _); [|done]. intros E.
  match type of E with k ?c ?s1 = _ => pose proof (Hk c s1) as HR end. rewrite E in HR. apply r_current in HR. cbn in HR. lia.
Qed.

Lemma moves_bind {A B} (c : L A) (k : A -> L B) : Good c -> (forall a, Moves (k a)) -> Moves (mbind c k).
Proof.
  intros Hc Hk s s' b. unfold mbind. specialize (Hc s). destruct (c s) as [s1 [a|e]]; [|done]. intros E.
  apply r_current in Hc. specialize (Hk a s1 s' b E). lia.
Qed.

Lemma at_end_false s : is_at_end s = false -> (m_current s < length (m_source s))%nat.
Proof. unfold is_at_end. by intros ?%Nat.leb_gt. Qed.

Lemma char_at_inside s i : char_at s i <> 0 -> (i < length (m_source s))%nat.
Proof.
  unfold char_at. intros Hc. destruct (m_source s !! i) eqn:E; [by apply lookup_lt_Some in E|done].
Qed.

(** A condition on the next character that the terminating zero fails. *)
Definition Inside {A} (more : A -> L bool) : Prop :=
  (forall a, Looks (more a)) /\
  (forall a s, more a s = (s, Ok true) -> (m_current s < length (m_source s))%nat).

Lemma good_char_loop {A} (more : A -> L bool) (body : A -> L A) a :
  Inside more -> (forall a, Good (body a)) -> (forall a, Moves (body a)) -> Good (while more body a).
Proof. intros [Hl Hi] Hg Hm. apply good_while; [done|done|done|]. intros a1 s s' a' _ Hb. right. by eapply Hm. Qed.

Lemma inside_at_end {A} (p : A -> Lexer -> Z -> bool) :
  Inside (fun a => let* e := gets is_at_end in let* c := peek in fun s => (s, Ok (negb e && p a s c))).
Proof.
  split; [intros a s; eexists; reflexivity|]. intros a s E. cbn in E. injection E as E.
  apply andb_true_iff in E as [E _]. by apply at_end_false, negb_true_iff.
Qed.

Lemma inside_char {A} (p : Z -> bool) :
  p 0 = false -> Inside (fun _ : A => let* c := peek in mret (p c)).
Proof.
  intros Hp. split; [intros a s; eexists; reflexivity|]. intros a s E. cbn in E. injection E as E.
  apply char_at_inside. intros E0. congruence.
Qed.

#[export] Instance good_skip_char a : Good (skip_char a).
Proof. unfold skip_char. apply _. Qed.

Lemma moves_skip_char a : Moves (skip_char a).
Proof. apply moves_advance. apply _. Qed.

#[export] Instance good_digit_step d : Good (digit_step d).
Proof. unfold digit_step. apply _. Qed.

Lemma moves_digit_step d : Moves (digit_step d).
Proof. apply moves_advance. apply _. Qed.

#[export] Instance good_consume_digits d : Good (consume_digits d).
Proof.
  apply good_char_loop; [|apply _|apply moves_digit_step].
  apply (inside_at_end (fun _ _ c => (c =? chr "_") || is_digit c)).
Qed.

#[export] Instance good_radix hex d : Good (while (radix_going hex) digit_step d).
Proof.
  apply good_char_loop; [|apply _|apply moves_digit_step].
  apply (inside_at_end (fun _ _ c => (c =? chr "_") || (if hex then is_hex_digit c else (c =? chr "0") || (c =? chr "1")))).
Qed.

#[export] Instance good_identifier_loop : Good (while identifier_going skip_char tt).
Proof.
  apply good_char_loop; [|apply _|apply moves_skip_char]. by apply (inside_char is_alphanumeric).
Qed.

#[export] Instance good_continuation_loop : Good (while continuation_going skip_char tt).
Proof.
  apply good_char_loop; [|apply _|apply moves_skip_char].
  by apply (inside_char (fun c => (c =? SPACE) || (c =? CR) || (c =? TAB))).
Qed.

#[export] Instance good_comment_loop : Good (while comment_going skip_char tt).
Proof.
  apply good_char_loop; [|apply _|apply moves_skip_char]. split; [intros a s; eexists; reflexivity|].
  intros a s E. cbn in E. injection E as [_ E]%andb_true_iff. by apply at_end_false, negb_true_iff.
Qed.

#[export] Instance good_blank_loop level : Good (while blank_going blank_step level).
Proof.
  apply good_char_loop; [|intros a; unfold blank_step; apply _|].
  - apply (inside_at_end (fun _ _ c => is_blank c)).
  - intros a. apply moves_bind; [apply _|]. intros c. apply moves_advance. apply _.
Qed.

(** ** Strings *)

#[export] Instance good_hex_digits n v : Good (hex_digits n v).
Proof. revert v. induction n as [|n IH]; intros v; cbn [hex_digits]; apply _. Qed.

#[export] Instance good_append_unicode_escape v n : Good (append_unicode_escape v n).
Proof. unfold append_unicode_escape, scan_hex_escape. apply _. Qed.

#[export] Instance good_newline_in_string : Good newline_in_string.
Proof. unfold newline_in_string. apply _. Qed.

#[export] Instance good_scan_escape e v : Good (scan_escape e v).
Proof. unfold scan_escape. destruct (simple_escape e); apply _. Qed.

#[export] Instance good_append_char v : Good (append_char v).
Proof. unfold append_char. apply _. Qed.

#[export] Instance good_string_step q t r st : Good (string_step q t r st).
Proof. unfold string_step. apply _. Qed.

(** A step of the string loop ends it or moves the cursor. *)
Class Ends (c : L (text * StringEnd)) : Prop :=
  ends : forall s s' st, c s = (s', Ok st) -> st.2 <> Going \/ (m_current s < m_current s')%nat.

#[export] Instance ends_terminated v : Ends (mret (v, Terminated)).
Proof. intros s s' st [= <- <-]. by left. Qed.

#[export] Instance ends_broken v : Ends (mret (v, Broken)).
Proof. intros s s' st [= <- <-]. by left. Qed.

#[export] Instance ends_if (b : bool) c d : Ends c -> Ends d -> Ends (if b then c else d).
Proof. by destruct b. Qed.

#[export] Instance ends_advance k : (forall c, Good (k c)) -> Ends (mbind advance k) | 1.
Proof. intros Hk s s' st E. right. by eapply moves_advance. Qed.

#[export] Instance ends_bind {A} (c : L A) k : Good c -> (forall a, Ends (k a)) -> Ends (mbind c k) | 5.
Proof.
  intros Hc Hk s s' st. unfold mbind. specialize (Hc s). destruct (c s) as [s1 [a|e]]; [|done]. intros E.
  apply r_current in Hc. destruct (Hk a s1 s' st E) as [|]; [by left|right; lia].
Qed.

#[export] Instance ends_append_char v : Ends (append_char v).
Proof. unfold append_char. apply _. Qed.

Lemma ends_string_step q t r st : Ends (string_step q t r st).
Proof. unfold string_step. apply _. Qed.

#[export] Instance good_string_loop q t r st : Good (while string_going (string_step q t r) st).
Proof.
  apply good_while; [intros a s; eexists; reflexivity|apply _| |].
  - intros a s E. cbn in E. injection E as [E _]%andb_true_iff. by apply at_end_false, negb_true_iff.
  - intros a s s' a' _ Hb. destruct (ends_string_step q t r a s s' a' Hb) as [He|]; [left|by right].
    unfold string_going, mbind, gets, mret. destruct (a'.2); [done|by rewrite andb_false_r..].
Qed.

#[export] Instance good_skip n : Good (skip n).
Proof. unfold skip. induction n; cbn; apply _. Qed.

#[export] Instance good_scan_string t raw : neutral t = true -> Good (scan_string t raw).
Proof.
  intros Ht. unfold scan_string. apply good_bind; [apply _|]. intros s. apply good_bind.
  { intros s0. unfold mlift, of_option. destruct (m_source s !! _); [apply R_refl|done]. }
  intros q. do 3 (apply good_bind; [apply _|intros ?]). apply good_bind; [apply _|]. intros st.
  destruct (st.2); apply _.
Qed.

(** ** Numbers and identifiers *)

#[export] Instance good_scan_number : Good scan_number.
Proof.
  unfold scan_number, scan_radix, scan_decimal, scan_exponent, push_and_digits.
  apply good_bind; [apply _|]. intros s. apply good_bind; [apply _|]. intros first. apply good_bind; [apply _|]. intros c.
  apply good_if.
  - do 3 (apply good_bind; [apply _|intros ?]). destruct a1; [apply _|]. destruct (stoull _ _); apply _.
  - repeat (apply good_bind; [apply _|intros ?]). destruct (_ || _); [destruct (stod _)|destruct (stoull _ _)]; apply _.
Qed.

Lemma identifier_type_neutral s word : neutral (identifier_type s word) = true.
Proof.
  unfold identifier_type. destruct (_ && uses_is_keyword s); [done|].
  assert (H : neutral (default IDENTIFIER (find_keyword word)) = true).
  { unfold find_keyword. destruct (List.find _ keywords) as [[k t]|] eqn:E; [|done].
    apply List.find_some in E as [Hin _]. cbn. clear -Hin.
    unfold keywords in Hin. repeat (destruct Hin as [[= _ <-]|Hin]; [done|]). destruct Hin. }
  destruct (negb _); [|done]. by destruct (default IDENTIFIER (find_keyword word)).
Qed.

#[export] Instance good_start_lambda : Good start_lambda.
Proof. unfold start_lambda. apply _. Qed.

#[export] Instance good_scan_identifier : Good scan_identifier.
Proof.
  unfold scan_identifier. do 3 (apply good_bind; [apply _|intros ?]).
  apply good_bind; [apply good_add_token, identifier_type_neutral|]. intros _. apply _.
Qed.

(** ** Layout *)

(** Adding a layout token and nothing else. *)
Lemma add_layout t s s' :
  neutral t = false -> add_token t s = (s', Ok tt) ->
  exists lex, s' = set_tokens (m_tokens s ++ [plain t lex (m_line s) (m_column s)]) s.
Proof.
  intros Ht. unfold add_token, lexeme_text, mbind, gets, mlift, modify, mmodify. cbv beta.
  destruct (substr _ _ _) as [lex|e]; [|done]. exists lex. by destruct t; inversion H.
Qed.

Lemma add_token_fuel t s s' e : add_token t s = (s', Throw e) -> e <> OutOfFuel.
Proof.
  unfold add_token, lexeme_text, mbind, gets, mlift, modify, mmodify, substr. cbv beta.
  destruct (decide _); [|by intros [= _ <-]]. by destruct t.
Qed.

(** Taking the top block off the stack and a DEDENT. *)
Lemma pop_block_R s s' top next rest :
  m_indent_stack s = top :: next :: rest ->
  add_token DEDENT (set_indent_stack (next :: rest) s) = (s', Ok tt) ->
  R s s' /\ m_indent_stack s' = next :: rest.
Proof.
  intros Hs Ha. destruct (add_layout DEDENT _ _ eq_refl Ha) as [lex ->]. split; [|done]. split; try done.
  unfold Inv. rewrite Hs. cbn. intros [_ Hd]. split; [done|]. by rewrite nesting_app, Hd.
Qed.

Lemma dedent_while_cons top next rest level :
  dedent_while (top :: next :: rest) level =
    if level <? top then
      let* _ := modify (set_indent_stack (next :: rest)) in
      let* _ := add_token DEDENT in
      dedent_while (next :: rest) level
    else done_.
Proof. reflexivity. Qed.

Lemma good_dedent_while level stack s :
  m_indent_stack s = stack ->
  match dedent_while stack level s with (s', Ok _) => R s s' | (_, Throw e) => e <> OutOfFuel end.
Proof.
  revert s. induction stack as [|top [|next rest] IH]; intros s Hs; [apply R_refl|apply R_refl|].
  rewrite dedent_while_cons. destruct (level <? top); [|apply R_refl]. unfold mbind at 1, modify, mmodify. unfold mbind at 1.
  destruct (add_token DEDENT _) as [s1 [[]|e]] eqn:E; [|exact (add_token_fuel _ _ _ _ E)].
  destruct (pop_block_R s s1 top next rest Hs E) as [HR Hs1]. specialize (IH s1 Hs1).
  destruct (dedent_while (next :: rest) level s1) as [s2 [?|e]]; [|done]. by eapply R_trans.
Qed.

#[export] Instance good_dedent_to level : Good (dedent_to level).
Proof. intros s. unfold dedent_to, mbind, gets. by apply good_dedent_while. Qed.

#[export] Instance good_close_lambda_layout : Good close_lambda_layout.
Proof.
  unfold close_lambda_layout. apply good_bind; [apply _|]. intros ls. induction ls as [|l ls IH]; cbn [close_layouts]; apply _.
Qed.

Lemma open_block_R s s' level :
  add_token INDENT (set_indent_stack (level :: m_indent_stack s) s) = (s', Ok tt) -> R s s'.
Proof.
  intros Ha. destruct (add_layout INDENT _ _ eq_refl Ha) as [lex ->]. split; try done. unfold Inv. cbn. intros [Hn Hd].
  split; [done|]. rewrite nesting_app, Hd. cbn. by destruct (m_indent_stack s).
Qed.

Lemma replace_top_R level s : R s (replace_top level s).
Proof. split; try done. unfold Inv, replace_top. cbn. intros [Hn Hd]. by destruct (m_indent_stack s). Qed.

#[export] Instance good_change_indent level leaving : Good (change_indent level leaving).
Proof.
  intros s. unfold change_indent. unfold mbind at 1, gets at 1. unfold id. destruct (top_indent s <? level).
  - unfold mbind, modify, mmodify. destruct (add_token INDENT _) as [s1 [[]|e]] eqn:E; [|exact (add_token_fuel _ _ _ _ E)].
    by eapply open_block_R.
  - refine ((_ : Good (if level <? top_indent s then _ else _)) s).
    apply good_if; [|apply _]. apply good_bind; [apply _|]. intros _. apply good_bind; [apply _|]. intros s1.
    apply good_when, good_bind; [apply _|]. intros _ s2. apply replace_top_R.
Qed.

#[export] Instance good_handle_indent : Good handle_indent.
Proof.
  unfold handle_indent. do 4 (apply good_bind; [apply _|intros ?]).
  apply good_if; [apply _|]. do 2 (apply good_bind; [apply _|intros ?]). apply good_bind; [apply _|]. intros _. apply _.
Qed.

(** ** One token *)

#[export] Instance good_push_bracket c : Good (push_bracket c).
Proof. unfold push_bracket. apply _. Qed.

#[export] Instance good_pop_bracket c : Good (pop_bracket c).
Proof. unfold pop_bracket. apply _. Qed.

#[export] Instance good_next_line : Good next_line.
Proof. unfold next_line. apply _. Qed.

#[export] Instance good_scan_newline : Good scan_newline.
Proof.
  unfold scan_newline, recover_unclosed, open_suite. apply good_bind; [apply _|]. intros _. apply good_bind; [|intros _; apply _].
  apply good_bind; [apply _|]. intros s. destruct (last _); apply _.
Qed.

#[export] Instance good_scan_comment : Good scan_comment.
Proof. unfold scan_comment. apply _. Qed.

#[export] Instance good_scan_continuation : Good scan_continuation.
Proof. unfold scan_continuation. apply _. Qed.

#[export] Instance good_scan_lparen : Good scan_lparen.
Proof. unfold scan_lparen. apply _. Qed.

#[export] Instance good_scan_rparen : Good scan_rparen.
Proof. unfold scan_rparen. apply _. Qed.

#[export] Instance good_scan_closer c t : neutral t = true -> Good (scan_closer c t).
Proof. intros Ht. unfold scan_closer. apply _. Qed.

#[export] Instance good_scan_colon : Good scan_colon.
Proof. unfold scan_colon. apply _. Qed.

#[export] Instance good_scan_question : Good scan_question.
Proof. unfold scan_question. apply _. Qed.

#[export] Instance good_scan_double c t1 t2 t3 t4 :
  neutral t1 = true -> neutral t2 = true -> neutral t3 = true -> neutral t4 = true -> Good (scan_double c t1 t2 t3 t4).
Proof. intros. unfold scan_double. apply _. Qed.

#[export] Instance good_scan_prefixed t raw : neutral t = true -> Good (scan_prefixed t raw).
Proof. intros. unfold scan_prefixed. apply _. Qed.

#[export] Instance good_scan_ampersand : Good scan_ampersand.
Proof. unfold scan_ampersand. apply _. Qed.

#[export] Instance good_scan_bar : Good scan_bar.
Proof. unfold scan_bar. apply _. Qed.

#[export] Instance good_scan_caret : Good scan_caret.
Proof. unfold scan_caret. apply _. Qed.

#[export] Instance good_scan_dot : Good scan_dot.
Proof. unfold scan_dot. apply _. Qed.

#[export] Instance good_scan_default c : Good (scan_default c).
Proof. unfold scan_default. apply _. Qed.

Lemma good_cases : Forall (fun k => Good k.2) cases.
Proof. unfold cases. repeat (apply Forall_cons; split; [cbn [snd]; apply _|]). apply Forall_nil_2. Qed.

#[export] Instance good_scan_char c : Good (scan_char c).
Proof.
  unfold scan_char. destruct (List.find _ cases) as [k|] eqn:E; [|apply _].
  apply List.find_some in E as [Hin _]. apply list_elem_of_In in Hin. exact (proj1 (Forall_forall _ _) good_cases k Hin).
Qed.

#[export] Instance good_scan_token : Good scan_token.
Proof. unfold scan_token. apply _. Qed.

(** ** Line starts *)

(** Leaves the flag that makes the next step measure the indentation. *)
Class Quiet {A} (c : L A) : Prop :=
  quiet : forall s s' a, c s = (s', Ok a) -> m_at_line_start s' = m_at_line_start s.

#[export] Instance quiet_gets {A} (f : Lexer -> A) : Quiet (gets f).
Proof. intros s s' a [= <- <-]. done. Qed.

#[export] Instance quiet_done : Quiet done_.
Proof. intros s s' a [= <- <-]. done. Qed.

#[export] Instance quiet_ret {A} (a : A) : Quiet (mret a).
Proof. intros s s' x [= <- <-]. done. Qed.

#[export] Instance quiet_lift {A} (o : outcome A) : Quiet (mlift o).
Proof. intros s s' x [= <- _]. done. Qed.

#[export] Instance quiet_bind {A B} (c : L A) (k : A -> L B) : Quiet c -> (forall a, Quiet (k a)) -> Quiet (mbind c k).
Proof.
  intros Hc Hk s s' b. unfold mbind. destruct (c s) as [s1 [a|e]] eqn:E; [|done]. intros E'.
  rewrite (Hk a s1 s' b E'). by eapply Hc.
Qed.

#[export] Instance quiet_if {A} (b : bool) (c d : L A) : Quiet c -> Quiet d -> Quiet (if b then c else d).
Proof. by destruct b. Qed.

#[export] Instance quiet_when b c : Quiet c -> Quiet (when b c).
Proof. unfold when. apply _. Qed.

Lemma quiet_modify f : (forall s, m_at_line_start (f s) = m_at_line_start s) -> Quiet (modify f).
Proof. intros Hf s s' a [= <- _]. apply Hf. Qed.

Ltac quiet_tac :=
  apply quiet_modify; let s := fresh "s" in intros s; cbv beta zeta; repeat case_match; reflexivity.

#[export] Hint Extern 1 (Quiet (modify _)) => quiet_tac : typeclass_instances.

#[export] Instance quiet_add_token t : Quiet (add_token t).
Proof. unfold add_token, lexeme_text. destruct t; apply _. Qed.

#[export] Instance quiet_error_code message code : Quiet (error_code message code).
Proof.
  unfold error_code. apply quiet_bind; [apply _|]. intros s0 s s' a. unfold error_at.
  destruct (m_diagnostics s); [by intros [= <- _]|done].
Qed.

#[export] Instance quiet_dedent_to level : Quiet (dedent_to level).
Proof.
  unfold dedent_to. apply quiet_bind; [apply _|]. intros stack. induction stack as [|top [|next rest] IH]; [apply _|apply _|].
  rewrite dedent_while_cons. apply _.
Qed.

#[export] Instance quiet_change_indent level leaving : Quiet (change_indent level leaving).
Proof. unfold change_indent, replace_top. apply _. Qed.

Lemma bind_quiet_false {A B} (c : L A) (k : A -> L B) s s' b :
  (forall a s1 s2 b, m_at_line_start s1 = false -> k a s1 = (s2, Ok b) -> m_at_line_start s2 = false) ->
  (forall s1 a, c s = (s1, Ok a) -> m_at_line_start s1 = false) ->
  mbind c k s = (s', Ok b) -> m_at_line_start s' = false.
Proof.
  intros Hk Hc. unfold mbind. destruct (c s) as [s1 [a|e]] eqn:E; [|done]. intros E'. eapply Hk; [|exact E']. by eapply Hc.
Qed.

(** The indentation of a line is measured once. *)
Lemma handle_indent_line s s' : handle_indent s = (s', Ok tt) -> m_at_line_start s' = false.
Proof.
  unfold handle_indent. unfold mbind at 1. destruct (while _ _ _ s) as [s1 [level|e]]; [|done].
  unfold mbind at 1, gets at 1. unfold mbind at 1. unfold peek, gets at 1. unfold mbind at 1, modify at 1, mmodify.
  set (s2 := set_at_line_start false s1). intros E.
  assert (Hq : Quiet (if is_at_end s1 || (char_at s1 (m_current s1) =? NL) || (char_at s1 (m_current s1) =? chr "#")
    then done_ else
    let* _ := modify (set_line_indent level) in
    let* s := gets id in
    let* _ := change_indent level (lambda_layout_active s && (level <? top_indent s) && is_closing (char_at s1 (m_current s1))) in
    modify (fun s0 => set_lambda (set_l_layouts (leave_layouts level
      (lambda_layout_active s && (level <? top_indent s) && is_closing (char_at s1 (m_current s1)))
      (layouts (m_lambda s0))) (m_lambda s0)) s0))) by apply _.
  by rewrite (Hq s2 s' tt E).
Qed.

(** ** The loop over the tokens *)

(** The state while tokens are scanned; a token starts where the last one ended. *)
Record Run (s s' : Lexer) : Prop := {
  run_source : m_source s' = m_source s;
  run_mode : tolerant s' = tolerant s;
  run_inv : Inv s -> Inv s'
}.

Lemma Run_trans s1 s2 s3 : Run s1 s2 -> Run s2 s3 -> Run s1 s3.
Proof. intros [H1 H2 H3] [G1 G2 G3]. split; [congruence|congruence|auto]. Qed.

Lemma R_Run s s' : R s s' -> Run s s'.
Proof. intros [H1 _ H3 _ H5]. by split. Qed.

Definition distance (s : Lexer) : nat :=
  (2 * (length (m_source s) - m_current s) + (if m_at_line_start s then 1 else 0))%nat.

Lemma scan_char_moves s s' :
  m_at_line_start s = false -> scan_token s = (s', Ok tt) -> (m_current s < m_current s')%nat.
Proof.
  intros Hl. unfold scan_token, mbind at 1, gets. rewrite Hl. intros E.
  refine (moves_advance _ _ s s' tt E).
Qed.

Lemma token_step_spec s :
  is_at_end s = false ->
  match token_step tt s with
  | (s', Ok _) => Run s s' /\ (distance s' < distance s)%nat
  | (_, Throw e) => e <> OutOfFuel
  end.
Proof.
  intros Hend%at_end_false. unfold token_step, mbind at 1, modify, mmodify.
  set (s1 := set_start (m_current s) s). pose proof (good_scan_token s1) as HR.
  destruct (scan_token s1) as [s' [[]|e]] eqn:E; [|done]. pose proof (r_source _ _ HR) as Hsrc.
  pose proof (r_current _ _ HR) as Hcur. split; [destruct HR as [H1 _ H3 _ H5]; by split|].
  unfold distance. rewrite Hsrc. change (m_source s1) with (m_source s). change (m_current s1) with (m_current s) in *.
  destruct (m_at_line_start s) eqn:El.
  - rewrite (handle_indent_line s1 s'); [lia|]. unfold scan_token, mbind at 1, gets in E.
    change (m_at_line_start s1) with (m_at_line_start s) in E. by rewrite El in E.
  - assert (Hm : (m_current s1 < m_current s')%nat) by (by apply scan_char_moves).
    change (m_current s1) with (m_current s) in Hm. destruct (m_at_line_start s'); lia.
Qed.

Lemma token_loop s fuel :
  (distance s < fuel)%nat ->
  match while_ fuel token_going token_step tt s with (s', Ok _) => Run s s' | (_, Throw e) => e <> OutOfFuel end.
Proof.
  revert s. induction fuel as [|fuel IH]; intros s Hf; [lia|]. cbn [while_]. unfold mbind at 1.
  change (token_going tt s) with (s, Ok (negb (is_at_end s))).
  destruct (is_at_end s) eqn:E; cbn [negb]; [apply R_Run, R_refl|]. unfold mbind at 1.
  pose proof (token_step_spec s E) as Hs. destruct (token_step tt s) as [s1 [[]|e]]; [|done].
  destruct Hs as [HR Hd]. specialize (IH s1 ltac:(lia)).
  destruct (while_ fuel token_going token_step tt s1) as [s2 [?|e]]; [|done]. by eapply Run_trans.
Qed.

#[export] Instance good_report_unclosed : Good report_unclosed.
Proof.
  unfold report_unclosed. apply good_bind; [apply _|]. intros s. destruct (if tolerant s then _ else _); [|apply _].
  do 3 (apply good_bind; [apply _|intros ?]). apply good_when, _.
Qed.

Lemma close_blocks_cons top next rest :
  close_blocks (top :: next :: rest) =
    (let* _ := modify (set_indent_stack (next :: rest)) in let* _ := add_token DEDENT in close_blocks (next :: rest)).
Proof. reflexivity. Qed.

(** The blocks still open at the end are closed, all of them. *)
Lemma close_blocks_spec stack s :
  m_indent_stack s = stack -> stack <> [] ->
  match close_blocks stack s with
  | (s', Ok _) => R s s' /\ length (m_indent_stack s') = 1%nat
  | (_, Throw e) => e <> OutOfFuel
  end.
Proof.
  revert s. induction stack as [|top [|next rest] IH]; intros s Hs Hn; [done|split; [apply R_refl|cbn; by rewrite Hs]|].
  rewrite close_blocks_cons. unfold mbind at 1, modify, mmodify. unfold mbind at 1.
  destruct (add_token DEDENT _) as [s1 [[]|e]] eqn:E; [|exact (add_token_fuel _ _ _ _ E)].
  destruct (pop_block_R s s1 top next rest Hs E) as [HR Hs1]. specialize (IH s1 Hs1 ltac:(done)).
  destruct (close_blocks (next :: rest) s1) as [s2 [?|e]]; [|done]. destruct IH as [HR2 Hl]. split; [by eapply R_trans|done].
Qed.

Lemma construct_Inv source sink extensions : Inv (construct source sink extensions).
Proof. by split. Qed.

(** The last token is the end of the file, and the blocks nest. *)
Lemma tokenize_spec s :
  Inv s ->
  match tokenize_ s with
  | (s', Ok tokens) => nesting 0 tokens = Some 0%nat /\ exists t, last tokens = Some t /\ type t = EOF_TOKEN
  | (_, Throw e) => e <> OutOfFuel
  end.
Proof.
  intros Hinv. unfold tokenize_. unfold mbind at 1, gets at 1. unfold mbind at 1.
  pose proof (token_loop s (token_budget s)) as Hloop.
  specialize (Hloop ltac:(unfold distance, token_budget; destruct (m_at_line_start s); lia)).
  destruct (while_ _ _ _ _ s) as [s1 [[]|e]]; [|done]. pose proof (run_inv _ _ Hloop Hinv) as Hinv1. unfold mbind at 1.
  pose proof (good_report_unclosed s1) as HR. destruct (report_unclosed s1) as [s2 [[]|e]]; [|done].
  pose proof (r_inv _ _ HR Hinv1) as Hinv2. unfold mbind at 1, gets at 1. unfold mbind at 1.
  pose proof (close_blocks_spec _ s2 eq_refl (proj1 Hinv2)) as Hc.
  destruct (close_blocks _ s2) as [s3 [[]|e]]; [|done]. destruct Hc as [HR3 Hlen].
  pose proof (r_inv _ _ HR3 Hinv2) as [_ Hd]. rewrite Hlen in Hd. unfold mbind at 1.
  destruct (add_token EOF_TOKEN s3) as [s4 [[]|e]] eqn:E; [|exact (add_token_fuel _ _ _ _ E)].
  unfold gets. unfold add_token, lexeme_text, mbind, gets, mlift, modify, mmodify in E. cbv beta in E.
  destruct (substr _ _ _) as [lex|]; [|done]. injection E as <-. cbn [m_tokens set_tokens]. split.
  - by rewrite nesting_app, Hd.
  - rewrite last_snoc. by eexists.
Qed.

(** C24: in every token stream the lexer answers, in either mode, the INDENT and
    DEDENT tokens nest: no DEDENT comes before its INDENT, and every block is
    closed by the end, which the last token marks. *)
Theorem layout_balanced source sink extensions s tokens :
  tokenize_ (construct source sink extensions) = (s, Ok tokens) ->
  nesting 0 tokens = Some 0%nat /\ exists t, last tokens = Some t /\ type t = EOF_TOKEN.
Proof.
  intros E. pose proof (tokenize_spec _ (construct_Inv source sink extensions)) as H. by rewrite E in H.
Qed.

Definition sample_source : text :=
  str "func f(x):" ++ [NL] ++ str " if x:" ++ [NL] ++ str "  return [1," ++ [NL] ++ str "2]" ++ [NL] ++ str "var y".

Lemma layout_balanced_witness :
  exists s tokens, tokenize_ (construct sample_source None true) = (s, Ok tokens) /\
    nesting 0 tokens = Some 0%nat /\ exists t, last tokens = Some t /\ type t = EOF_TOKEN.
Proof.
  destruct (tokenize_ (construct sample_source None true)) as [s [tokens|e]] eqn:E; [|by vm_compute in E].
  exists s, tokens. split; [done|]. exact (layout_balanced sample_source None true s tokens E).
Defined.

(** C26: the scanning loops end on every source and in either mode: each of them
    consumes the source, so the budgets of the model are never exhausted. *)
Theorem tokenize_total source sink extensions :
  (tokenize_ (construct source sink extensions)).2 <> Throw OutOfFuel.
Proof.
  pose proof (tokenize_spec _ (construct_Inv source sink extensions)) as H.
  destruct (tokenize_ _) as [s [tokens|e]]; [done|]. cbn. intros [= ->]. by apply H.
Qed.

End LexerFacts.
