(* ===== verification/LexerSafe.v ===== *)
(** * The lexer stays inside the source

    In strict mode, where the first error is thrown, the scanner never indexes
    the source past its end: [strict_lexer_safe].  In tolerant mode, where an
    error is recorded and scanning goes on, it does:
    [tolerant_lexer_reads_past_end]. *)

From S2P Require Import Prelude.
From S2P Require Import Double.
From S2P Require Import Wire.
From S2P Require Import Token.
From S2P Require Import Lexer.
From S2P Require Import LexerFacts.

Module LexerSafe.
Import Token.
Import Lexer.
Import LexerFacts.

(** A strict lexer whose current token has at least [n] characters. *)
Definition strict (n : nat) (s : Lexer) : Prop :=
  tolerant s = false /\ (m_start s + n <= m_current s <= length (m_source s))%nat.

(** The exceptions of the source, and the budget of the model. *)
Definition allowed (e : exn) : Prop :=
  match e with LocatedException LEXER_ERROR _ _ _ | OutOfFuel => True | _ => False end.

Definition okay {A} (n : nat) (Q : A -> Lexer -> Prop) (r : Lexer * outcome A) : Prop :=
  match r with
  | (s', Ok a) => strict n s' /\ Q a s'
  | (_, Throw e) => allowed e
  end.

Definition any {A} : A -> Lexer -> Prop := fun _ _ => True.

Class Safe {A} (n : nat) (c : L A) : Prop := lexer_safe : forall s, strict n s -> okay n any (c s).

Lemma okay_any {A} n (Q : A -> Lexer -> Prop) r : okay n Q r -> okay n any r.
Proof. by destruct r as [s' [a|e]]; [intros [? _]|]. Qed.

Lemma okay_bind {A B} n (c : L A) (k : A -> L B) s Q Q' :
  okay n Q (c s) -> (forall a s', strict n s' -> Q a s' -> okay n Q' (k a s')) -> okay n Q' (mbind c k s).
Proof. unfold mbind. destruct (c s) as [s1 [a|e]]; [|done]. intros [Hs HQ] Hk. by apply Hk. Qed.

Lemma safe_then {A B} n (c : L A) (k : A -> L B) s Q :
  Safe n c -> strict n s -> (forall a s', strict n s' -> okay n Q (k a s')) -> okay n Q (mbind c k s).
Proof. intros Hc Hs Hk. eapply okay_bind; [by apply Hc|]. intros a s' Hs' _. by apply Hk. Qed.

#[export] Instance safe_mret {A} n (a : A) : Safe n (mret a).
Proof. intros s Hs. done. Qed.

#[export] Instance safe_done_ n : Safe n done_.
Proof. intros s Hs. done. Qed.

#[export] Instance safe_gets {A} n (f : Lexer -> A) : Safe n (gets f).
Proof. intros s Hs. done. Qed.

#[export] Instance safe_mbind {A B} n (c : L A) (k : A -> L B) : Safe n c -> (forall a, Safe n (k a)) -> Safe n (mbind c k).
Proof. intros Hc Hk s Hs. eapply safe_then; [done|done|]. intros a s' Hs'. by apply Hk. Qed.

#[export] Instance safe_ifb {A} n (b : bool) (c d : L A) : Safe n c -> Safe n d -> Safe n (if b then c else d).
Proof. by destruct b. Qed.

#[export] Instance safe_when n b c : Safe n c -> Safe n (when b c).
Proof. unfold when. apply _. Qed.

#[export] Instance safe_modify n f : Frame f -> Safe n (modify f).
Proof.
  intros Hf s [Ht Hc]. destruct (Hf s) as (H1 & H2 & H3 & H4 & _ & _). split; [|done].
  unfold strict, tolerant in *. by rewrite H1, H2, H3, H4.
Qed.

#[export] Instance safe_peek_at n i : Safe n (peek_at i).
Proof. unfold peek_at. apply _. Qed.

#[export] Instance safe_peek n : Safe n peek.
Proof. unfold peek. apply _. Qed.

#[export] Instance safe_peek_next n : Safe n peek_next.
Proof. unfold peek_next. apply _. Qed.

#[export] Instance safe_match n expected : Safe n (match_ expected).
Proof.
  intros s [Ht Hc]. unfold match_. destruct (is_at_end s) eqn:E; [done|]. apply at_end_false in E.
  destruct (negb _); [done|]. split; [|done]. split; [done|]. cbn. lia.
Qed.

#[export] Instance safe_error_at n message line column code width : Safe n (error_at message line column code width).
Proof. intros s [Ht _]. unfold error_at. unfold tolerant in Ht. by destruct (m_diagnostics s). Qed.

#[export] Instance safe_error_code n message code : Safe n (error_code message code).
Proof. unfold error_code. apply _. Qed.

#[export] Instance safe_error n message : Safe n (error message).
Proof. unfold error. apply _. Qed.

(** After a check that throws, the condition is known to be false. *)
Lemma check_then {B} n b message code (k : unit -> L B) s Q :
  strict n s -> (b = false -> okay n Q (k tt s)) -> okay n Q (mbind (when b (error_code message code)) k s).
Proof.
  intros [Ht Hc] Hk. destruct b; [|by apply Hk]. unfold when, error_code, mbind, gets, error_at, tolerant in *.
  by destruct (m_diagnostics s).
Qed.

Lemma advance_then {B} n (k : Z -> L B) s Q :
  strict n s -> (m_current s < length (m_source s))%nat ->
  (forall s', strict (S n) s' -> m_source s' = m_source s -> m_current s' = S (m_current s) ->
     okay n Q (k (char_at s (m_current s)) s')) ->
  okay n Q (mbind advance k s).
Proof.
  intros [Ht Hc] Hlt Hk. unfold mbind, advance. rewrite decide_True by lia. apply Hk; [|done|done]. split; [done|]. cbn. lia.
Qed.

Lemma strict_weaken n s : strict (S n) s -> strict n s.
Proof. intros [Ht Hc]. split; [done|lia]. Qed.

#[export] Instance safe_substr n source pos k :
  (pos <= length source)%nat -> Safe n (mlift (substr source pos k)).
Proof. intros Hp s Hs. unfold mlift, substr. by rewrite decide_True by done. Qed.

#[export] Instance safe_lexeme_text n : Safe n lexeme_text.
Proof. intros s Hs. unfold lexeme_text, mbind, gets. apply safe_substr; [|done]. destruct Hs as [_ Hs]. unfold id. lia. Qed.

#[export] Instance safe_modify_tokens n (f : Lexer -> list Token) : Safe n (modify (fun s => set_tokens (f s) s)).
Proof. intros s Hs. done. Qed.

#[export] Instance safe_set_indent_stack n stack : Safe n (modify (set_indent_stack stack)).
Proof. intros s Hs. done. Qed.

#[export] Instance safe_add_value n t v : Safe n (add_value t v).
Proof. unfold add_value. apply _. Qed.

#[export] Instance safe_add_token n t : Safe n (add_token t).
Proof. unfold add_token. apply safe_mbind; [apply _|]. intros lex. apply safe_mbind; [apply _|]. intros _. destruct t; apply _. Qed.

#[export] Instance safe_either n expected yes no : Safe n (either expected yes no).
Proof. unfold either. apply _. Qed.

(** ** Loops *)

Lemma safe_while_inv {A} n (more : A -> L bool) (body : A -> L A) (I : A -> Lexer -> Prop) a s :
  (forall a, Looks (more a)) -> strict n s -> I a s ->
  (forall a s, strict n s -> I a s -> more a s = (s, Ok true) -> okay n I (body a s)) ->
  okay n (fun a s => I a s /\ more a s = (s, Ok false)) (while more body a s).
Proof.
  intros Hlook Hs Ha Hbody. unfold while, mbind at 1, gets. generalize (budget s) as fuel. intros fuel. revert a s Hs Ha.
  induction fuel as [|fuel IH]; intros a s Hs Ha; [done|]. cbn [while_]. unfold mbind at 1.
  destruct (Hlook a s) as [b Hb]. rewrite Hb. destruct b; [|by split].
  eapply okay_bind; [by apply Hbody|]. intros a' s' Hs' Ha'. by apply IH.
Qed.

Lemma safe_char_loop {A} n (more : A -> L bool) (body : A -> L A) a :
  Inside more ->
  (forall a s, strict n s -> (m_current s < length (m_source s))%nat -> okay n any (body a s)) ->
  Safe n (while more body a).
Proof.
  intros [Hl Hi] Hbody s Hs. eapply okay_any, safe_while_inv with (I := any); [done|done|done|].
  intros a1 s1 Hs1 _ Hm. apply Hbody; [done|]. by eapply Hi.
Qed.

Lemma advance_any {A} n (k : Z -> L A) s :
  strict n s -> (m_current s < length (m_source s))%nat -> (forall c, Safe n (k c)) -> okay n any (mbind advance k s).
Proof. intros Hs Hc Hk. apply advance_then; [done|done|]. intros s' Hs' _ _. by apply Hk, strict_weaken. Qed.

Lemma skip_char_okay n a s : strict n s -> (m_current s < length (m_source s))%nat -> okay n any (skip_char a s).
Proof. intros Hs Hc. apply advance_any; [done|done|apply _]. Qed.

Lemma digit_step_okay n d s : strict n s -> (m_current s < length (m_source s))%nat -> okay n any (digit_step d s).
Proof. intros Hs Hc. apply advance_any; [done|done|apply _]. Qed.

#[export] Instance safe_consume_digits n d : Safe n (consume_digits d).
Proof.
  apply safe_char_loop; [|intros; by apply digit_step_okay].
  apply (inside_at_end (fun _ _ c => (c =? chr "_") || is_digit c)).
Qed.

#[export] Instance safe_radix_loop n hex d : Safe n (while (radix_going hex) digit_step d).
Proof.
  apply safe_char_loop; [|intros; by apply digit_step_okay].
  apply (inside_at_end (fun _ _ c => (c =? chr "_") || (if hex then is_hex_digit c else (c =? chr "0") || (c =? chr "1")))).
Qed.

#[export] Instance safe_identifier_loop n : Safe n (while identifier_going skip_char tt).
Proof. apply safe_char_loop; [by apply (inside_char is_alphanumeric)|intros; by apply skip_char_okay]. Qed.

#[export] Instance safe_continuation_loop n : Safe n (while continuation_going skip_char tt).
Proof.
  apply safe_char_loop; [|intros; by apply skip_char_okay].
  by apply (inside_char (fun c => (c =? SPACE) || (c =? CR) || (c =? TAB))).
Qed.

#[export] Instance safe_comment_loop n : Safe n (while comment_going skip_char tt).
Proof.
  apply safe_char_loop; [|intros; by apply skip_char_okay]. split; [intros a s; eexists; reflexivity|].
  intros a s E. cbn in E. injection E as [_ E]%andb_true_iff. by apply at_end_false, negb_true_iff.
Qed.

#[export] Instance safe_blank_loop n level : Safe n (while blank_going blank_step level).
Proof.
  apply safe_char_loop; [apply (inside_at_end (fun _ _ c => is_blank c))|].
  intros a s Hs Hc. unfold blank_step, mbind at 1, peek, gets. apply advance_any; [done|done|apply _].
Qed.

(** ** Strings *)

(** A character that is one of these is not the terminating zero. *)
Lemma eqb_inside s i c : (char_at s i =? c) = true -> c <> 0 -> (i < length (m_source s))%nat.
Proof. intros E%Z.eqb_eq Hc. apply char_at_inside. congruence. Qed.

#[export] Instance safe_hex_digits n k v : Safe n (hex_digits k v).
Proof.
  revert v. induction k as [|k IH]; intros v s Hs; [done|]. cbn [hex_digits]. unfold mbind at 1, gets at 1.
  destruct (is_at_end s) eqn:E; [refine ((_ : Safe n (mbind _ _)) s Hs)|]. apply at_end_false in E.
  unfold mbind at 1, peek, gets at 1. destruct (negb _); [refine ((_ : Safe n (mbind _ _)) s Hs)|].
  by apply advance_any.
Qed.

#[export] Instance safe_append_unicode_escape n v k : Safe n (append_unicode_escape v k).
Proof.
  unfold append_unicode_escape, scan_hex_escape. apply safe_mbind; [apply _|]. intros cp. apply safe_mbind; [|intros; apply _].
  apply safe_ifb; [|apply _]. intros s Hs. unfold mbind at 1, peek, gets at 1. unfold mbind at 1, peek_next, peek_at, gets at 1.
  apply check_then; [done|]. intros Hq. apply orb_false_iff in Hq as [Hb%negb_false_iff Hu].
  apply andb_false_iff in Hu. assert (Hin : (m_current s + 1 < length (m_source s))%nat).
  { destruct Hu as [Hu%negb_false_iff|Hu%negb_false_iff]; by apply eqb_inside in Hu. }
  apply advance_then; [done|lia|]. intros s1 Hs1 E1 E2. apply advance_any; [by apply strict_weaken|rewrite E1, E2; lia|].
  intros c. apply _.
Qed.

#[export] Instance safe_newline_in_string n : Safe n newline_in_string.
Proof. unfold newline_in_string. apply _. Qed.

#[export] Instance safe_scan_escape n e v : Safe n (scan_escape e v).
Proof.
  unfold scan_escape. destruct (simple_escape e); [apply _|]. apply safe_ifb; [apply _|]. apply safe_ifb; [|apply _].
  intros s Hs. unfold mbind at 1, peek, gets at 1. apply check_then; [done|]. intros Hn%negb_false_iff.
  apply advance_any; [done|by apply eqb_inside in Hn|apply _].
Qed.

(** The closing quotes are ahead of the cursor. *)
Definition closing_ahead (quote : Z) (triple : bool) (st : text * StringEnd) (s : Lexer) : Prop :=
  st.2 = Terminated ->
  char_at s (m_current s) = quote /\
  (triple = true -> char_at s (m_current s + 1) = quote /\ char_at s (m_current s + 2) = quote).

Lemma okay_going n q t (r : Lexer * outcome (text * StringEnd)) :
  okay n (fun st _ => st.2 <> Terminated) r -> okay n (closing_ahead q t) r.
Proof. destruct r as [s' [st|e]]; [|done]. intros [Hs Hst]. split; [done|]. intros He. done. Qed.

Lemma append_char_okay n v s :
  strict n s -> (m_current s < length (m_source s))%nat -> okay n (fun st _ => st.2 <> Terminated) (append_char v s).
Proof. intros Hs Hc. apply advance_then; [done|done|]. intros s' Hs' _ _. split; [by apply strict_weaken|done]. Qed.

Lemma string_step_okay n q t raw st s :
  strict n s -> (m_current s < length (m_source s))%nat -> okay n (closing_ahead q t) (string_step q t raw st s).
Proof.
  intros Hs Hc. unfold string_step. unfold mbind at 1, peek, gets at 1. destruct (Z.eqb_spec (char_at s (m_current s)) q) as [Eq|_].
  - destruct t; cbn [negb]; [|split; [done|]; intros _; by split]. unfold mbind at 1, peek_next, peek_at, gets at 1.
    unfold mbind at 1, gets at 1. destruct (_ && _) eqn:E; [|by apply okay_going, append_char_okay].
    apply andb_true_iff in E as [E1%Z.eqb_eq E2%Z.eqb_eq]. split; [done|]. intros _. by split.
  - apply okay_going. destruct (_ =? NL).
    { unfold mbind at 1, gets at 1. destruct (_ && _); [done|]. unfold mbind at 1, newline_in_string, modify, mmodify.
      by apply append_char_okay. }
    destruct (_ =? BACKSLASH); [|by apply append_char_okay].
    apply advance_then; [done|done|]. intros s1 Hs1 E1 E2. apply strict_weaken in Hs1. unfold mbind at 1, gets at 1.
    destruct (is_at_end s1) eqn:Ee; [done|]. apply at_end_false in Ee. destruct raw.
    { apply advance_then; [done|done|]. intros s2 Hs2 _ _. by apply strict_weaken in Hs2. }
    apply advance_then; [done|done|]. intros s2 Hs2 _ _. apply strict_weaken in Hs2.
    eapply safe_then; [apply _|done|]. intros v s3 Hs3. done.
Qed.

Lemma skip_okay n k s :
  strict n s -> (m_current s + k <= length (m_source s))%nat ->
  okay n (fun _ s' => m_source s' = m_source s /\ m_current s' = (m_current s + k)%nat) (skip k s).
Proof.
  revert s. induction k as [|k IH]; intros s Hs Hk; [split; [done|]; cbn; split; [done|lia]|].
  change (skip (S k)) with (let* _ := advance in skip k). apply advance_then; [done|lia|]. intros s1 Hs1 E1 E2.
  apply strict_weaken in Hs1. specialize (IH s1 Hs1 ltac:(rewrite E1, E2; lia)).
  destruct (skip k s1) as [s2 [[]|e]]; [|done]. destruct IH as (Hs2 & F1 & F2). split; [done|]. split; [congruence|lia].
Qed.

(** The quote that opens the string has just been consumed. *)
Lemma scan_string_okay n t raw s :
  strict (S n) s -> is_quote (char_at s (m_current s - 1)) = true -> okay n any (scan_string t raw s).
Proof.
  intros Hs1 Hq. pose proof (strict_weaken _ _ Hs1) as Hs. unfold scan_string. unfold mbind at 1, gets at 1, id.
  set (q := char_at s (m_current s - 1)) in *.
  assert (Hq0 : q <> 0) by (intros E; rewrite E in Hq; done).
  assert (E : m_source s !! (m_current s - 1)%nat = Some q).
  { pose proof (char_at_inside s _ Hq0) as Hin. apply lookup_lt_is_Some in Hin as [c Hc]. rewrite Hc.
    subst q. unfold char_at. by rewrite Hc. }
  rewrite E. unfold mbind at 1, mlift, of_option. unfold mbind at 1, peek, gets at 1. unfold mbind at 1, peek_next, peek_at, gets at 1.
  set (triple := (char_at s (m_current s) =? q) && (char_at s (m_current s + 1) =? q)).
  eapply okay_bind with (Q := any).
  { unfold when. destruct triple eqn:Et; [|done]. eapply okay_any, skip_okay; [done|].
    subst triple. apply andb_true_iff in Et as [_ Et]. apply eqb_inside in Et; [lia|done]. }
  intros [] s1 Hs1' _. eapply okay_bind.
  { apply safe_while_inv with (I := closing_ahead q triple); [intros a s0; eexists; reflexivity|done|done|].
    intros st s0 Hs0 _ Hm. apply string_step_okay; [done|]. cbn in Hm. injection Hm as [Hm _]%andb_true_iff.
    by apply at_end_false, negb_true_iff. }
  intros st s2 Hs2 [Hahead _]. destruct (st.2) eqn:Est; [refine ((_ : Safe n (mbind _ _)) s2 Hs2)| |refine ((_ : Safe n (mbind _ _)) s2 Hs2)].
  destruct (Hahead Est) as [Hc Ht].
  assert (Hin : (m_current s2 < length (m_source s2))%nat) by (apply char_at_inside; congruence).
  apply advance_then; [done|done|]. intros s3 Hs3 F1 F2. apply strict_weaken in Hs3.
  eapply okay_bind with (Q := any).
  { unfold when. destruct triple; [|done]. eapply okay_any, skip_okay; [done|]. rewrite F1, F2.
    destruct (Ht eq_refl) as [_ H2]. assert (m_current s2 + 2 < length (m_source s2))%nat; [|lia].
    apply char_at_inside. congruence. }
  intros [] s4 Hs4 _. by apply safe_add_value.
Qed.

(** ** Numbers and identifiers *)

Lemma scan_radix_okay n s :
  strict n s -> (m_current s < length (m_source s))%nat -> okay n any (scan_radix s).
Proof.
  intros Hs Hc. unfold scan_radix, mbind at 1, peek, gets at 1. apply advance_any; [done|done|]. intros c.
  apply safe_mbind; [apply _|]. intros d. destruct d; [apply _|]. destruct (stoull _ _); apply _.
Qed.

Lemma push_and_digits_okay n num s :
  strict n s -> (m_current s < length (m_source s))%nat -> okay n any (push_and_digits num s).
Proof. intros Hs Hc. apply advance_any; [done|done|apply _]. Qed.

Lemma scan_exponent_okay n num s :
  strict n s -> (m_current s < length (m_source s))%nat -> okay n any (scan_exponent num s).
Proof.
  intros Hs Hc. apply advance_any; [done|done|]. intros e s1 Hs1. unfold mbind at 1, peek, gets at 1.
  apply okay_bind with (Q := any); [|intros num' s2 Hs2 _; by apply safe_consume_digits].
  destruct (_ || _) eqn:E; [|done]. apply advance_any; [done| |apply _].
  apply orb_true_iff in E as [E|E]; by apply eqb_inside in E.
Qed.

Lemma safe_scan_decimal n first : Safe n (scan_decimal first).
Proof.
  unfold scan_decimal. apply safe_mbind; [apply _|]. intros num s Hs. unfold mbind at 1, peek, gets at 1.
  unfold mbind at 1, peek_next, peek_at, gets at 1.
  apply okay_bind with (Q := any).
  { destruct (_ && _) eqn:E; [|done]. apply andb_true_iff in E as [E _]. apply push_and_digits_okay; [done|].
    by apply eqb_inside in E. }
  intros num1 s1 Hs1 _. unfold mbind at 1, peek, gets at 1. unfold mbind at 1, peek_next, peek_at, gets at 1.
  unfold mbind at 1, gets at 1. apply okay_bind with (Q := any).
  { destruct (_ && _) eqn:E; [|done]. apply andb_true_iff in E as [E _]. apply scan_exponent_okay; [done|].
    apply orb_true_iff in E as [E|E]; by apply eqb_inside in E. }
  intros num2 s2 Hs2 _. destruct (_ || _); [destruct (stod _)|destruct (stoull _ _)];
    (by apply safe_add_value || by apply safe_error).
Qed.

(** The first character of the number has been consumed. *)
Lemma scan_number_okay n s : strict (S n) s -> okay n any (scan_number s).
Proof.
  intros Hs1. pose proof (strict_weaken _ _ Hs1) as Hs. unfold scan_number. unfold mbind at 1, gets at 1, id.
  destruct Hs1 as [_ Hc]. destruct (lookup_lt_is_Some_2 (m_source s) (m_start s) ltac:(lia)) as [c Hcs].
  unfold mbind at 1, mlift, nth_ub. rewrite Hcs. cbn [of_option]. unfold mbind at 1, peek, gets at 1.
  destruct (_ && _) eqn:E; [|by apply safe_scan_decimal]. apply andb_true_iff in E as [_ E].
  apply scan_radix_okay; [done|]. rewrite !orb_true_iff in E. destruct E as [[[E|E]|E]|E]; by apply eqb_inside in E.
Qed.

#[export] Instance safe_scan_identifier n : Safe n scan_identifier.
Proof.
  unfold scan_identifier, start_lambda. apply safe_mbind; [apply _|]. intros _ s Hs. unfold mbind at 1, gets at 1, id.
  eapply safe_then; [apply safe_substr; destruct Hs as [_ Hs]; lia|done|]. intros word s1 Hs1.
  refine ((_ : Safe n (mbind _ _)) s1 Hs1).
Qed.

(** ** Layout and the other tokens *)

#[export] Instance safe_dedent_to n level : Safe n (dedent_to level).
Proof.
  unfold dedent_to. apply safe_mbind; [apply _|]. intros stack. induction stack as [|top [|next rest] IH]; [apply _|apply _|].
  rewrite dedent_while_cons. apply _.
Qed.

#[export] Instance safe_close_lambda_layout n : Safe n close_lambda_layout.
Proof.
  unfold close_lambda_layout. apply safe_mbind; [apply _|]. intros ls. induction ls as [|l ls IH]; cbn [close_layouts]; apply _.
Qed.

#[export] Instance safe_handle_indent n : Safe n handle_indent.
Proof. unfold handle_indent, change_indent, replace_top.
  assert (forall level, Safe n (modify (fun s => set_indent_stack (level :: tail (m_indent_stack s)) s))) by done. apply _.
Qed.

#[export] Instance safe_push_bracket n c : Safe n (push_bracket c).
Proof. unfold push_bracket. apply _. Qed.

#[export] Instance safe_pop_bracket n c : Safe n (pop_bracket c).
Proof. unfold pop_bracket. apply _. Qed.

#[export] Instance safe_next_line n : Safe n next_line.
Proof. unfold next_line. apply _. Qed.

#[export] Instance safe_scan_newline n : Safe n scan_newline.
Proof.
  unfold scan_newline, recover_unclosed, open_suite. apply safe_mbind; [apply _|]. intros _. apply safe_mbind; [|intros _; apply _].
  apply safe_mbind; [apply _|]. intros s. destruct (last _); apply _.
Qed.

#[export] Instance safe_scan_continuation n : Safe n scan_continuation.
Proof.
  unfold scan_continuation. apply safe_mbind; [apply _|]. intros _ s Hs. unfold mbind at 1, peek, gets at 1.
  destruct (negb _) eqn:E; [by apply safe_error|]. apply negb_false_iff in E. apply advance_any; [done|by apply eqb_inside in E|apply _].
Qed.

#[export] Instance safe_scan_comment n : Safe n scan_comment.
Proof.
  intros s Hs. unfold scan_comment. unfold mbind at 1, gets at 1. unfold mbind at 1, peek, gets at 1.
  apply okay_bind with (Q := any).
  { unfold when. destruct (_ =? _) eqn:E; [|done]. apply eqb_inside in E; [|done]. eapply okay_any, skip_okay; [done|lia]. }
  intros [] s1 Hs1 _. unfold mbind at 1, gets at 1.
  pose proof (good_comment_loop s1) as HR. pose proof (safe_comment_loop n s1 Hs1) as Hl. unfold mbind at 1.
  destruct (while _ _ _ s1) as [s2 [[]|e]]; [|done]. destruct Hl as [Hs2 _]. unfold when. destruct (_ =? _); [|done].
  unfold mbind at 1, gets at 1, id. eapply safe_then; [apply safe_substr|done|].
  - pose proof (r_current _ _ HR). destruct Hs2 as [_ Hs2]. lia.
  - intros t s3 Hs3. refine ((_ : Safe n (modify _)) s3 Hs3).
Qed.

#[export] Instance safe_scan_lparen n : Safe n scan_lparen.
Proof. unfold scan_lparen. apply _. Qed.

#[export] Instance safe_scan_rparen n : Safe n scan_rparen.
Proof. unfold scan_rparen. apply _. Qed.

#[export] Instance safe_scan_closer n c t : Safe n (scan_closer c t).
Proof. unfold scan_closer. apply _. Qed.

#[export] Instance safe_scan_colon n : Safe n scan_colon.
Proof. unfold scan_colon. apply _. Qed.

#[export] Instance safe_scan_question n : Safe n scan_question.
Proof. unfold scan_question. apply _. Qed.

#[export] Instance safe_scan_double n c t1 t2 t3 t4 : Safe n (scan_double c t1 t2 t3 t4).
Proof. unfold scan_double. apply _. Qed.

#[export] Instance safe_scan_bar n : Safe n scan_bar.
Proof. unfold scan_bar. apply _. Qed.

(** After the character of the case has been consumed. *)
Definition SafeAfter (n : nat) (c : Z) (k : L unit) : Prop :=
  forall s, strict (S n) s -> char_at s (m_current s - 1) = c -> okay n any (k s).

Lemma safe_after n c k : Safe n k -> SafeAfter n c k.
Proof. intros Hk s Hs _. by apply Hk, strict_weaken. Qed.

Lemma scan_prefixed_okay n t raw s :
  strict n s -> is_quote (char_at s (m_current s)) = true -> okay n any (scan_prefixed t raw s).
Proof.
  intros Hs Hq. assert (Hin : (m_current s < length (m_source s))%nat).
  { apply char_at_inside. intros E. by rewrite E in Hq. }
  apply advance_then; [done|done|]. intros s1 Hs1 E1 E2. apply scan_string_okay; [done|].
  replace (char_at s1 (m_current s1 - 1)) with (char_at s (m_current s)); [done|].
  unfold char_at. rewrite E1, E2. do 2 f_equal. lia.
Qed.

#[export] Instance safe_scan_ampersand n : Safe n scan_ampersand.
Proof.
  intros s Hs. unfold scan_ampersand, mbind at 1, peek, gets at 1. destruct (is_quote _) eqn:E; [by apply scan_prefixed_okay|].
  refine ((_ : Safe n (mbind _ _)) s Hs).
Qed.

#[export] Instance safe_scan_caret n : Safe n scan_caret.
Proof.
  intros s Hs. unfold scan_caret, mbind at 1, peek, gets at 1. destruct (is_quote _) eqn:E; [by apply scan_prefixed_okay|].
  by apply safe_either.
Qed.

Lemma scan_dot_after n c : SafeAfter n c scan_dot.
Proof.
  intros s Hs _. unfold scan_dot, mbind at 1, peek, gets at 1. destruct (is_digit _); [by apply scan_number_okay|].
  by apply safe_either, strict_weaken.
Qed.

Lemma scan_default_after n c : SafeAfter n c (scan_default c).
Proof.
  intros s Hs _. unfold scan_default. destruct (is_digit c); [by apply scan_number_okay|]. apply strict_weaken in Hs.
  unfold mbind at 1, peek, gets at 1. destruct (_ && _) eqn:E.
  - apply andb_true_iff in E as [_ E]. by apply scan_prefixed_okay.
  - refine ((_ : Safe n (if is_alpha c then _ else _)) s Hs).
Qed.

Lemma scan_string_after n c : is_quote c = true -> SafeAfter n c (scan_string STRING false).
Proof. intros Hc s Hs E. apply scan_string_okay; [done|]. by rewrite E. Qed.

Lemma cases_after n : Forall (fun k => SafeAfter n k.1 k.2) cases.
Proof.
  unfold cases.
  repeat (apply Forall_cons; split; [cbn [fst snd]; first [apply scan_dot_after|by apply scan_string_after|apply safe_after, _]|]).
  apply Forall_nil_2.
Qed.

Lemma scan_char_after n c : SafeAfter n c (scan_char c).
Proof.
  unfold scan_char. destruct (List.find _ cases) as [k|] eqn:E; [|apply scan_default_after].
  apply List.find_some in E as [Hin ->%Z.eqb_eq]. apply list_elem_of_In in Hin.
  exact (proj1 (Forall_forall _ _) (cases_after n) k Hin).
Qed.

Lemma scan_token_okay s : strict 0 s -> is_at_end s = false -> okay 0 any (scan_token s).
Proof.
  intros Hs Hend%at_end_false. unfold scan_token, mbind at 1, gets at 1. destruct (m_at_line_start s); [by apply safe_handle_indent|].
  apply advance_then; [done|done|]. intros s1 Hs1 E1 E2. unfold mbind at 1, modify, mmodify.
  set (c := char_at s (m_current s)). match goal with |- okay _ _ (scan_char c ?x) => set (s2 := x) end.
  assert (H2 : m_source s2 = m_source s1 /\ m_current s2 = m_current s1 /\ m_start s2 = m_start s1 /\ m_diagnostics s2 = m_diagnostics s1).
  { subst s2. by destruct (_ && _). }
  destruct H2 as (G1 & G2 & G3 & G4). apply scan_char_after.
  - destruct Hs1 as [Ht Hc]. split; [unfold tolerant in *; by rewrite G4|]. rewrite G1, G2, G3. done.
  - unfold char_at, c. rewrite G1, G2, E1, E2. unfold char_at. do 2 f_equal. lia.
Qed.

Lemma token_loop_okay s fuel :
  strict 0 s -> okay 0 any (while_ fuel token_going token_step tt s).
Proof.
  revert s. induction fuel as [|fuel IH]; intros s Hs; [done|]. cbn [while_]. unfold mbind at 1.
  change (token_going tt s) with (s, Ok (negb (is_at_end s))). destruct (is_at_end s) eqn:E; cbn [negb]; [done|].
  apply okay_bind with (Q := any); [|intros [] s1 Hs1 _; by apply IH].
  unfold token_step, mbind at 1, modify, mmodify. apply scan_token_okay; [|done].
  destruct Hs as [Ht Hc]. split; [done|]. cbn. lia.
Qed.

Lemma safe_close_blocks n stack : Safe n (close_blocks stack).
Proof. induction stack as [|top [|next rest] IH]; [apply _|apply _|]. rewrite close_blocks_cons. apply _. Qed.

#[export] Instance safe_report_unclosed n : Safe n report_unclosed.
Proof.
  unfold report_unclosed. apply safe_mbind; [apply _|]. intros s. destruct (if tolerant s then _ else _); apply _.
Qed.

Lemma tokenize_okay s : strict 0 s -> okay 0 any (tokenize_ s).
Proof.
  intros Hs. unfold tokenize_, mbind at 1, gets at 1.
  apply okay_bind with (Q := any); [by apply token_loop_okay|]. intros [] s1 Hs1 _.
  pose proof (fun stack => safe_close_blocks 0 stack). refine ((_ : Safe 0 (mbind _ _)) s1 Hs1).
Qed.

Lemma strict_throws source extensions e :
  tokenize source extensions = Throw e -> exists message line column, e = LocatedException LEXER_ERROR message line column.
Proof.
  assert (Hs : strict 0 (construct source None extensions)) by (split; [done|]; cbn; lia).
  apply tokenize_okay in Hs. pose proof (tokenize_spec _ (construct_Inv source None extensions)) as Hf. unfold tokenize.
  destruct (tokenize_ _) as [s [tokens|e']]; [done|]. cbn in *. intros [= ->]. destruct e as [| [] message line column| | | | | | | |]; try done.
  by exists message, line, column.
Qed.

(** C23: in strict mode the lexer answers tokens or throws a located lexer error;
    on no source does it index the text past its end, take a substring from
    beyond it, or read a character that is not there. *)
Theorem strict_lexer_safe source extensions :
  match tokenize source extensions with
  | Ok _ => True
  | Throw e => exists message line column, e = LocatedException LEXER_ERROR message line column
  end.
Proof.
  destruct (tokenize source extensions) as [tokens|e] eqn:E; [done|]. by apply (strict_throws source extensions).
Qed.

(** In tolerant mode an unpaired lead surrogate at the end of the source is
    recorded, and the two characters after it are consumed although there are
    none: the second is past the terminator. *)
Lemma tolerant_lexer_reads_past_end :
  (tokenize_ (construct (QUOTE :: BACKSLASH :: str "uD800") (Some (mkSink [] 100)) true)).2
  = Throw (UB "read past the end of the source").
Proof. by vm_compute. Qed.

End LexerSafe.
