(* ===== verification/LexerStrings.v ===== *)
(** * String literals

    [string_literal_roundtrip]: the lexer gives back the value of a literal
    written with the escapes of GDScript.  [utf8_roundtrip]: the bytes a unicode
    escape appends are the UTF-8 encoding of its code point. *)

From S2P Require Import Prelude.
From S2P Require Import Double.
From S2P Require Import Wire.
From S2P Require Import Token.
From S2P Require Import Lexer.
From S2P Require Import LexerFacts.

Module LexerStrings.
Import Token.
Import Lexer.

(** ** UTF-8 *)

(** Reads one code point, by the table of RFC 3629. *)
Definition utf8_decode (bytes : text) : option Z :=
  match bytes with
  | [a] => if a <? 0x80 then Some a else None
  | [a; b] => if Z.shiftr a 5 =? 6 then Some (Z.land a 0x1F * 2 ^ 6 + Z.land b 0x3F) else None
  | [a; b; c] =>
      if Z.shiftr a 4 =? 14 then Some (Z.land a 0x0F * 2 ^ 12 + Z.land b 0x3F * 2 ^ 6 + Z.land c 0x3F) else None
  | [a; b; c; d] =>
      if Z.shiftr a 3 =? 30
      then Some (Z.land a 0x07 * 2 ^ 18 + Z.land b 0x3F * 2 ^ 12 + Z.land c 0x3F * 2 ^ 6 + Z.land d 0x3F) else None
  | _ => None
  end.

(** A lead or continuation byte: the marker in the high bits, [x] in the low. *)
Lemma lor_marker m k x : 0 <= k -> 0 <= x < 2 ^ k -> Z.lor (m * 2 ^ k) x = m * 2 ^ k + x.
Proof.
  intros Hk Hx. assert (Hd : Z.land (m * 2 ^ k) x = 0).
  { rewrite <- (Z.mod_small x (2 ^ k)) by done. rewrite <- Z.land_ones, (Z.land_comm x), Z.land_assoc by done.
    rewrite Z.land_ones, Z.mod_mul by (try apply Z.pow_nonzero; lia). apply Z.land_0_l. }
  rewrite <- Z.lxor_lor by done. symmetry. by apply Z.add_nocarry_lxor.
Qed.

Lemma land_low x k : 0 <= k -> Z.land x (Z.ones k) = x mod 2 ^ k.
Proof. intros Hk. by apply Z.land_ones. Qed.

Lemma shift_marker m k x : 0 <= k -> 0 <= x < 2 ^ k -> Z.shiftr (m * 2 ^ k + x) k = m.
Proof. intros Hk Hx. rewrite Z.shiftr_div_pow2 by done. rewrite Z.div_add_l, Z.div_small; lia. Qed.

Lemma low_marker m k x : 0 <= k -> 0 <= x < 2 ^ k -> Z.land (m * 2 ^ k + x) (Z.ones k) = x.
Proof.
  intros Hk Hx. rewrite Z.land_ones by done. rewrite Z.add_comm, Z.mod_add by lia. by apply Z.mod_small.
Qed.

(** The shape of each encoding. *)
Lemma utf8_shape cp :
  0 <= cp <= 0x10FFFF ->
  utf8 cp =
    if cp <? 0x80 then [cp]
    else if cp <? 0x800 then [6 * 2 ^ 5 + cp / 2 ^ 6; 2 * 2 ^ 6 + cp mod 2 ^ 6]
    else if cp <? 0x10000 then
      [14 * 2 ^ 4 + cp / 2 ^ 12; 2 * 2 ^ 6 + cp / 2 ^ 6 mod 2 ^ 6; 2 * 2 ^ 6 + cp mod 2 ^ 6]
    else
      [30 * 2 ^ 3 + cp / 2 ^ 18; 2 * 2 ^ 6 + cp / 2 ^ 12 mod 2 ^ 6; 2 * 2 ^ 6 + cp / 2 ^ 6 mod 2 ^ 6;
       2 * 2 ^ 6 + cp mod 2 ^ 6].
Proof.
  intros Hcp. unfold utf8.
  assert (Hlow : forall x, Z.lor 0x80 (Z.land x 0x3F) = 2 * 2 ^ 6 + x mod 2 ^ 6).
  { intros x. change 0x3F with (Z.ones 6). rewrite Z.land_ones by done.
    apply (lor_marker 2 6); [done|]. by apply Z.mod_pos_bound. }
  assert (Hsmall : forall x, 0 <= x < 2 ^ 6 -> (2 * 2 ^ 6 + x) mod 256 = 2 * 2 ^ 6 + x) by (intros; apply Z.mod_small; lia).
  assert (Hmod : forall x, 0 <= x mod 2 ^ 6 < 2 ^ 6) by (intros; by apply Z.mod_pos_bound).
  destruct (Z.ltb_spec cp 0x80); [cbn [map]; by rewrite Z.mod_small by lia|].
  destruct (Z.ltb_spec cp 0x800); [|destruct (Z.ltb_spec cp 0x10000)]; cbn [map];
    rewrite !Z.shiftr_div_pow2 by done; rewrite !Hlow, !Hsmall by apply Hmod; f_equal.
  - rewrite (lor_marker 6 5) by (try split; try apply Z.div_pos; try apply Z.div_lt_upper_bound; lia).
    apply Z.mod_small. assert (0 <= cp / 2 ^ 6 < 2 ^ 5); [|lia].
    split; [apply Z.div_pos|apply Z.div_lt_upper_bound]; lia.
  - rewrite (lor_marker 14 4) by (try split; try apply Z.div_pos; try apply Z.div_lt_upper_bound; lia).
    apply Z.mod_small. assert (0 <= cp / 2 ^ 12 < 2 ^ 4); [|lia].
    split; [apply Z.div_pos|apply Z.div_lt_upper_bound]; lia.
  - rewrite (lor_marker 30 3) by (try split; try apply Z.div_pos; try apply Z.div_lt_upper_bound; lia).
    apply Z.mod_small. assert (0 <= cp / 2 ^ 18 < 2 ^ 3); [|lia].
    split; [apply Z.div_pos|apply Z.div_lt_upper_bound]; lia.
Qed.

(** For every unicode code point, [append_utf8] appends bytes that decode to
    that code point. *)
Theorem utf8_roundtrip (out : text) (cp : Z) :
  0 <= cp <= 0x10FFFF ->
  exists bytes, append_utf8 out cp = out ++ bytes /\ Forall Wire.is_byte bytes /\ utf8_decode bytes = Some cp.
Proof.
  intros Hcp. exists (utf8 cp). split; [done|]. rewrite utf8_shape by done.
  assert (Hmod : forall x, 0 <= x mod 2 ^ 6 < 2 ^ 6) by (intros; by apply Z.mod_pos_bound).
  pose proof (Z.div_mod cp (2 ^ 6) ltac:(done)) as D6. pose proof (Z.div_mod (cp / 2 ^ 6) (2 ^ 6) ltac:(done)) as D12.
  pose proof (Z.div_mod (cp / 2 ^ 12) (2 ^ 6) ltac:(done)) as D18.
  rewrite Z.div_div in D12, D18 by done. change (2 ^ 6 * 2 ^ 6) with (2 ^ 12) in D12. change (2 ^ 12 * 2 ^ 6) with (2 ^ 18) in D18.
  pose proof (Hmod cp) as M0. pose proof (Hmod (cp / 2 ^ 6)) as M1. pose proof (Hmod (cp / 2 ^ 12)) as M2.
  unfold utf8_decode. change 0x3F with (Z.ones 6).
  destruct (Z.ltb_spec cp 0x80) as [Hl|Hl].
  { split; [repeat constructor; lia|]. by apply Z.ltb_lt in Hl as ->. }
  assert (Hb : forall x, 0 <= x < 2 ^ 6 -> Wire.is_byte (2 * 2 ^ 6 + x)) by (unfold Wire.is_byte; lia).
  destruct (Z.ltb_spec cp 0x800); [|destruct (Z.ltb_spec cp 0x10000)]; rewrite ?(low_marker 2 6) by done.
  - assert (Hq : 0 <= cp / 2 ^ 6 < 2 ^ 5) by (split; [apply Z.div_pos|apply Z.div_lt_upper_bound]; lia).
    split; [repeat (apply Forall_cons; split; [by apply Hb || (unfold Wire.is_byte; lia)|]); apply Forall_nil_2|].
    rewrite (shift_marker 6 5) by done. change 0x1F with (Z.ones 5). rewrite (low_marker 6 5) by done. cbn [Z.eqb Pos.eqb].
    f_equal. lia.
  - assert (Hq : 0 <= cp / 2 ^ 12 < 2 ^ 4) by (split; [apply Z.div_pos|apply Z.div_lt_upper_bound]; lia).
    split; [repeat (apply Forall_cons; split; [by apply Hb || (unfold Wire.is_byte; lia)|]); apply Forall_nil_2|].
    rewrite (shift_marker 14 4) by done. change 0x0F with (Z.ones 4). rewrite (low_marker 14 4) by done. cbn [Z.eqb Pos.eqb].
    f_equal. lia.
  - assert (Hq : 0 <= cp / 2 ^ 18 < 2 ^ 3) by (split; [apply Z.div_pos|apply Z.div_lt_upper_bound]; lia).
    split; [repeat (apply Forall_cons; split; [by apply Hb || (unfold Wire.is_byte; lia)|]); apply Forall_nil_2|].
    rewrite (shift_marker 30 3) by done. change 0x07 with (Z.ones 3). rewrite (low_marker 30 3) by done. cbn [Z.eqb Pos.eqb].
    f_equal. lia.
Qed.

Lemma utf8_roundtrip_witness :
  exists bytes, append_utf8 [] 0x1F600 = [] ++ bytes /\ Forall Wire.is_byte bytes /\ utf8_decode bytes = Some 0x1F600.
Proof. apply (utf8_roundtrip [] 0x1F600). lia. Defined.

(** ** String literals *)

(** A character as a literal writes it. *)
Definition escape_char (c : Z) : text :=
  if c =? QUOTE then [BACKSLASH; QUOTE]
  else if c =? BACKSLASH then [BACKSLASH; BACKSLASH]
  else if c =? NL then [BACKSLASH; chr "n"]
  else [c].

Definition escape (v : text) : text := concat (map escape_char v).

Definition literal (v : text) : text := QUOTE :: escape v ++ [QUOTE].

(** The lexer with the cursor elsewhere. *)
Definition at_ (s : Lexer) (n : nat) (c : Z) : Lexer := set_column c (set_current n s).

Lemma char_at_drop s n c i x rest :
  drop n (m_source s) = rest -> rest !! i = Some x -> char_at (at_ s n c) (n + i) = x.
Proof.
  intros Hd Hx. unfold char_at. cbn. rewrite <- lookup_drop. change (m_source (at_ s n c)) with (m_source s). by rewrite Hd, Hx.
Qed.

Lemma drop_lt (l : text) n x rest : drop n l = x :: rest -> (n < length l)%nat.
Proof. intros H%(f_equal length). rewrite length_drop in H. cbn in H. lia. Qed.

Lemma drop_next (l : text) n x rest : drop n l = x :: rest -> drop (S n) l = rest.
Proof. intros H. replace (S n) with (n + 1)%nat by lia. by rewrite <- drop_drop, H. Qed.

Lemma advance_at s n c x rest :
  drop n (m_source s) = x :: rest -> advance (at_ s n c) = (at_ s (S n) (c + 1), Ok x).
Proof.
  intros Hd. pose proof (drop_lt _ _ _ _ Hd). unfold advance. cbn [m_current m_source at_ set_column set_current].
  rewrite decide_True by lia. replace (char_at _ n) with x; [done|]. symmetry. rewrite <- (Nat.add_0_r n) at 2.
  by apply (char_at_drop s n c 0 x (x :: rest)).
Qed.

Lemma going_at s n c v st x rest :
  drop n (m_source s) = x :: rest ->
  string_going (v, st) (at_ s n c) = (at_ s n c, Ok match st with Going => true | _ => false end).
Proof.
  intros Hd. pose proof (drop_lt _ _ _ _ Hd). unfold string_going, mbind, gets, mret, is_at_end. cbn.
  by replace (length (m_source s) <=? n)%nat with false by (symmetry; apply Nat.leb_gt; lia).
Qed.

(** One character of the value. *)
Lemma step_escaped s n c v x rest :
  drop n (m_source s) = escape_char x ++ rest -> rest <> [] ->
  exists c', string_step QUOTE false false (v, Going) (at_ s n c)
    = (at_ s (n + length (escape_char x)) c', Ok (v ++ [x], Going)).
Proof.
  intros Hd Hrest. unfold string_step. unfold mbind at 1, peek, gets at 1. cbn [m_current at_ set_column set_current].
  fold (at_ s n c). unfold escape_char in *.
  assert (Hpeek : forall y r, drop n (m_source s) = y :: r -> char_at (at_ s n c) n = y).
  { intros y r E. rewrite <- (Nat.add_0_r n) at 2. by apply (char_at_drop s n c 0 y (y :: r)). }
  assert (Hesc : forall y, drop n (m_source s) = [BACKSLASH; y] ++ rest -> forall z, simple_escape y = Some z ->
    exists c', (let* _ := advance in
      let* at_end := gets is_at_end in
      if (at_end : bool) then mret ((v, Going).1, Broken)
      else if false then let* c := advance in mret ((v, Going).1 ++ [BACKSLASH; c], Going)
      else let* escaped := advance in let* value := scan_escape escaped (v, Going).1 in mret (value, Going)) (at_ s n c)
    = (at_ s (n + 2) c', Ok (v ++ [z], Going))).
  { intros y E z Hz. cbn [app] in E. pose proof (drop_next _ _ _ _ E) as E1. pose proof (drop_lt _ _ _ _ E1) as Hlt.
    unfold mbind at 1. rewrite (advance_at s n c BACKSLASH (y :: rest)) by done.
    unfold mbind at 1, gets at 1, is_at_end. cbn [m_current m_source at_ set_column set_current].
    replace (length (m_source s) <=? S n)%nat with false by (symmetry; apply Nat.leb_gt; lia). cbn iota.
    unfold mbind at 1. fold (at_ s (S n) (c + 1)). rewrite (advance_at s (S n) (c + 1) y rest) by done.
    unfold scan_escape. rewrite Hz. unfold mbind, mret. exists (c + 1 + 1). by replace (n + 2)%nat with (S (S n)) by lia. }
  destruct (Z.eqb_spec x QUOTE) as [->|Hq]; [|destruct (Z.eqb_spec x BACKSLASH) as [->|Hb]; [|destruct (Z.eqb_spec x NL) as [->|Hn]]].
  - rewrite (Hpeek BACKSLASH (QUOTE :: rest)) by done. by apply (Hesc QUOTE).
  - rewrite (Hpeek BACKSLASH (BACKSLASH :: rest)) by done. by apply (Hesc BACKSLASH).
  - rewrite (Hpeek BACKSLASH (chr "n" :: rest)) by done. by apply (Hesc (chr "n")).
  - rewrite (Hpeek x rest) by done. apply Z.eqb_neq in Hq as ->, Hb as ->, Hn as ->.
    exists (c + 1). unfold append_char, mbind. rewrite (advance_at s n c x rest) by done. cbn [length].
    by replace (n + 1)%nat with (S n) by lia.
Qed.

(** The loop reads the value and stops at the closing quote. *)
Lemma loop_escaped s v : forall n c acc fuel after_,
  drop n (m_source s) = escape v ++ QUOTE :: after_ -> (length v + 1 < fuel)%nat ->
  exists c', while_ fuel string_going (string_step QUOTE false false) (acc, Going) (at_ s n c)
    = (at_ s (n + length (escape v)) c', Ok (acc ++ v, Terminated)).
Proof.
  induction v as [|x v IH]; intros n c acc fuel after_ Hd Hf; (destruct fuel as [|fuel]; [lia|]); cbn [while_]; unfold mbind at 1.
  - cbn in Hd. rewrite (going_at s n c acc Going QUOTE after_) by done. unfold mbind at 1.
    assert (Hstep : string_step QUOTE false false (acc, Going) (at_ s n c) = (at_ s n c, Ok (acc, Terminated))).
    { unfold string_step. unfold mbind at 1, peek, gets at 1. cbn [m_current at_ set_column set_current]. fold (at_ s n c).
      replace (char_at (at_ s n c) n) with QUOTE; [done|]. symmetry. rewrite <- (Nat.add_0_r n) at 2.
      by apply (char_at_drop s n c 0 QUOTE (QUOTE :: after_)). }
    rewrite Hstep. destruct fuel; [lia|]. cbn [while_]. unfold mbind at 1.
    rewrite (going_at s n c acc Terminated QUOTE after_) by done. exists c. unfold mret, escape. cbn. by rewrite Nat.add_0_r, app_nil_r.
  - unfold escape in Hd. cbn [map concat] in Hd. rewrite <- app_assoc in Hd. fold (escape v) in Hd.
    assert (Hhead : exists y r, escape_char x = y :: r).
    { unfold escape_char. repeat case_match; eauto. }
    destruct Hhead as (y & r & Hyr).
    rewrite (going_at s n c acc Going y (r ++ escape v ++ QUOTE :: after_)) by (by rewrite Hd, Hyr). unfold mbind at 1.
    destruct (step_escaped s n c acc x (escape v ++ QUOTE :: after_)) as [c1 ->]; [done|by destruct (escape v)|].
    destruct (IH (n + length (escape_char x))%nat c1 (acc ++ [x]) fuel after_) as [c2 E].
    + by rewrite <- drop_drop, Hd, drop_app_length.
    + cbn in Hf. lia.
    + exists c2. rewrite E. unfold escape. cbn [map concat]. rewrite length_app, Nat.add_assoc, <- app_assoc. done.
Qed.

(** Two quotes never follow the opening one. *)
Lemma not_triple s n c v :
  drop n (m_source s) = escape v ++ [QUOTE] ->
  (char_at (at_ s n c) n =? QUOTE) && (char_at (at_ s n c) (n + 1) =? QUOTE) = false.
Proof.
  intros Hd. assert (Hn : forall i, char_at (at_ s n c) (n + i) = default 0 ((escape v ++ [QUOTE]) !! i)).
  { intros i. unfold char_at. change (m_source (at_ s n c)) with (m_source s). by rewrite <- lookup_drop, Hd. }
  rewrite <- (Nat.add_0_r n) at 2. rewrite !Hn. destruct v as [|x v]; [done|]. unfold escape. cbn [map concat].
  unfold escape_char. destruct (Z.eqb_spec x QUOTE); [done|]. destruct (x =? BACKSLASH); [done|]. destruct (x =? NL); [done|].
  cbn. by apply Z.eqb_neq in n0 as ->.
Qed.

Lemma scan_literal s c v :
  m_source s = literal v -> m_start s = 0%nat -> m_diagnostics s = None ->
  exists c', scan_string STRING false (at_ s 1 c)
    = (set_tokens (m_tokens s ++ [mkToken STRING (literal v) (TString v) (m_line s) c']) (at_ s (length (literal v)) c'), Ok tt).
Proof.
  intros Hsrc Hstart Hdiag. assert (Hd : drop 1 (m_source s) = escape v ++ [QUOTE]) by (by rewrite Hsrc).
  unfold scan_string. unfold mbind at 1, gets at 1, id. change (m_source (at_ s 1 c)) with (m_source s).
  change (m_current (at_ s 1 c)) with 1%nat. rewrite Hsrc. cbn [literal lookup list_lookup Nat.sub].
  unfold mbind at 1, mlift, of_option. unfold mbind at 1, peek, gets at 1. unfold mbind at 1, peek_next, peek_at, gets at 1.
  change (m_current (at_ s 1 c)) with 1%nat. rewrite not_triple with (v := v) by done. unfold mbind at 1, when, done_.
  unfold mret at 1. unfold while. unfold mbind at 1. unfold mbind at 1. unfold gets at 1.
  destruct (loop_escaped s v 1 c [] (budget (at_ s 1 c)) []) as [c1 E].
  { done. }
  { unfold budget. change (m_source (at_ s 1 c)) with (m_source s). rewrite Hsrc. unfold literal. cbn [length].
    rewrite length_app. cbn [length]. assert (length v <= length (escape v))%nat; [|lia].
    apply Wire.length_concat_map. intros x _. unfold escape_char. repeat case_match; cbn; lia. }
  rewrite E. cbn [snd fst]. unfold mbind at 1.
  assert (Hlast : drop (1 + length (escape v)) (m_source s) = [QUOTE]).
  { by rewrite <- drop_drop, Hd, drop_app_length. }
  rewrite (advance_at s _ c1 QUOTE []) by done. exists (c1 + 1).
  unfold mret, add_value, lexeme_text, mbind, gets, mlift, modify, mmodify, id, substr.
  assert (Hcur : length (literal v) = S (1 + length (escape v))) by (unfold literal; cbn; rewrite length_app; cbn; lia).
  cbn [m_source m_start m_current at_ set_column set_current]. rewrite Hstart, Hsrc, decide_True by lia.
  rewrite drop_0, <- Hcur. rewrite take_ge by lia. rewrite Hcur. done.
Qed.

(** The state in which the literal is scanned: the indentation is measured. *)
Definition measured (v : text) (extensions : bool) : Lexer :=
  set_line_indent 0 (set_at_line_start false (construct (literal v) None extensions)).

Lemma literal_indent v extensions :
  token_step tt (construct (literal v) None extensions) = (measured v extensions, Ok tt).
Proof. reflexivity. Qed.

Lemma literal_token v extensions :
  exists c, token_step tt (measured v extensions)
    = (set_tokens [mkToken STRING (literal v) (TString v) 1 c] (at_ (measured v extensions) (length (literal v)) c), Ok tt).
Proof.
  destruct (scan_literal (measured v extensions) 2 v) as [c E]; [done..|]. exists c.
  unfold token_step. unfold mbind at 1, modify, mmodify. unfold scan_token. unfold mbind at 1, gets at 1.
  change (m_at_line_start _) with false. cbn iota. unfold mbind at 1.
  change (set_start (m_current (measured v extensions)) (measured v extensions)) with (at_ (measured v extensions) 0 1).
  rewrite (advance_at _ 0 1 QUOTE (escape v ++ [QUOTE])) by done. exact E.
Qed.

(** C25: a literal written with the escapes of the language is read back: the
    tokens of a quoted text, its quotes, backslashes and newlines escaped, are
    one STRING token whose value is the text, and the end of the file. *)
Theorem string_literal_roundtrip (v : text) (extensions : bool) :
  exists c, tokenize (literal v) extensions =
    Ok [mkToken STRING (literal v) (TString v) 1 c; plain EOF_TOKEN (literal v) 1 c].
Proof.
  destruct (literal_token v extensions) as [c Htok]. exists c. unfold tokenize, tokenize_. unfold mbind at 1, gets at 1.
  set (s0 := construct (literal v) None extensions). unfold mbind at 1.
  assert (Hfuel : exists f, token_budget s0 = S (S (S f))).
  { unfold token_budget, s0. cbn [m_source construct]. unfold literal. cbn [length]. rewrite length_app.
    exists (2 * (length (escape v) + 1) + 1)%nat. cbn. lia. }
  destruct Hfuel as [f ->]. set (s2 := set_tokens _ _) in Htok.
  assert (Hend : is_at_end s2 = true) by (apply Nat.leb_le; cbn; lia).
  assert (Hloop : while_ (S (S (S f))) token_going token_step tt s0 = (s2, Ok tt)).
  { cbn [while_]. unfold mbind at 1. change (token_going tt s0) with (s0, @Ok bool true). cbn iota. unfold mbind at 1.
    change (token_step tt s0) with (token_step tt (construct (literal v) None extensions)).
    rewrite literal_indent. unfold mbind at 1.
    change (token_going tt (measured v extensions)) with (measured v extensions, @Ok bool true). cbn iota. unfold mbind at 1.
    rewrite Htok. unfold mbind at 1. change (token_going tt s2) with (s2, Ok (negb (is_at_end s2))). by rewrite Hend. }
  rewrite Hloop. unfold mbind, report_unclosed, gets. cbn. unfold add_token, lexeme_text, mbind, gets, mlift, substr, id.
  cbn [m_source m_start m_current s2 at_ set_column set_current set_tokens measured set_line_indent set_at_line_start construct].
  rewrite decide_True by lia. cbn [obind]. rewrite drop_0.
  change (S (length (escape v ++ [QUOTE]))) with (length (literal v)). by rewrite take_ge by lia.
Qed.

End LexerStrings.
