(* ===== verification/GlobalConstants.v ===== *)
(** * Named constants

    Models global_constants.def and the lookup of globals.cpp that finds the
    constants of the engine's global scope by name. *)

From S2P Require Import Prelude.
From S2P Require Import Double.
From S2P Require Import VariantTypes.

Module GlobalConstants.

Record GlobalConstant := mkConstant {
  name : string;
  is_float : bool;
  int_value : Z;
  float_value : double
}.

(** [GDSC_INT_CONSTANT] and [GDSC_FLOAT_CONSTANT] *)
Definition int_constant (n : string) (value : Z) : GlobalConstant := mkConstant n false (to_int64 value) dzero.
Definition float_constant (n : string) (value : double) : GlobalConstant := mkConstant n true 0 value.

(** ** global_constants.def *)

Definition core_constants : list GlobalConstant := [
  float_constant "PI" (dlit 31415926535897932384626433833 28);
  float_constant "TAU" (dlit 62831853071795864769252867666 28);
  float_constant "INF" (S754_infinity false);
  float_constant "NAN" S754_nan;
  int_constant "TYPE_NIL" Variant.NIL;
  int_constant "TYPE_BOOL" Variant.BOOL;
  int_constant "TYPE_INT" Variant.INT;
  int_constant "TYPE_FLOAT" Variant.FLOAT;
  int_constant "TYPE_STRING" Variant.STRING;
  int_constant "TYPE_VECTOR2" Variant.VECTOR2;
  int_constant "TYPE_VECTOR2I" Variant.VECTOR2I;
  int_constant "TYPE_RECT2" Variant.RECT2;
  int_constant "TYPE_RECT2I" Variant.RECT2I;
  int_constant "TYPE_VECTOR3" Variant.VECTOR3;
  int_constant "TYPE_VECTOR3I" Variant.VECTOR3I;
  int_constant "TYPE_TRANSFORM2D" Variant.TRANSFORM2D;
  int_constant "TYPE_VECTOR4" Variant.VECTOR4;
  int_constant "TYPE_VECTOR4I" Variant.VECTOR4I;
  int_constant "TYPE_PLANE" Variant.PLANE;
  int_constant "TYPE_QUATERNION" Variant.QUATERNION;
  int_constant "TYPE_AABB" Variant.AABB;
  int_constant "TYPE_BASIS" Variant.BASIS;
  int_constant "TYPE_TRANSFORM3D" Variant.TRANSFORM3D;
  int_constant "TYPE_PROJECTION" Variant.PROJECTION;
  int_constant "TYPE_COLOR" Variant.COLOR;
  int_constant "TYPE_STRING_NAME" Variant.STRING_NAME;
  int_constant "TYPE_NODE_PATH" Variant.NODE_PATH;
  int_constant "TYPE_RID" Variant.RID;
  int_constant "TYPE_OBJECT" Variant.OBJECT;
  int_constant "TYPE_CALLABLE" Variant.CALLABLE;
  int_constant "TYPE_SIGNAL" Variant.SIGNAL;
  int_constant "TYPE_DICTIONARY" Variant.DICTIONARY;
  int_constant "TYPE_ARRAY" Variant.ARRAY;
  int_constant "TYPE_PACKED_BYTE_ARRAY" Variant.PACKED_BYTE_ARRAY;
  int_constant "TYPE_PACKED_INT32_ARRAY" Variant.PACKED_INT32_ARRAY;
  int_constant "TYPE_PACKED_INT64_ARRAY" Variant.PACKED_INT64_ARRAY;
  int_constant "TYPE_PACKED_FLOAT32_ARRAY" Variant.PACKED_FLOAT32_ARRAY;
  int_constant "TYPE_PACKED_FLOAT64_ARRAY" Variant.PACKED_FLOAT64_ARRAY;
  int_constant "TYPE_PACKED_STRING_ARRAY" Variant.PACKED_STRING_ARRAY;
  int_constant "TYPE_PACKED_VECTOR2_ARRAY" Variant.PACKED_VECTOR2_ARRAY;
  int_constant "TYPE_PACKED_VECTOR3_ARRAY" Variant.PACKED_VECTOR3_ARRAY;
  int_constant "TYPE_PACKED_COLOR_ARRAY" Variant.PACKED_COLOR_ARRAY;
  int_constant "TYPE_PACKED_VECTOR4_ARRAY" Variant.PACKED_VECTOR4_ARRAY;
  int_constant "TYPE_MAX" Variant.VARIANT_MAX;
  int_constant "SIDE_LEFT" 0;
  int_constant "SIDE_TOP" 1;
  int_constant "SIDE_RIGHT" 2;
  int_constant "SIDE_BOTTOM" 3;
  int_constant "CORNER_TOP_LEFT" 0;
  int_constant "CORNER_TOP_RIGHT" 1;
  int_constant "CORNER_BOTTOM_RIGHT" 2;
  int_constant "CORNER_BOTTOM_LEFT" 3;
  int_constant "VERTICAL" 1;
  int_constant "HORIZONTAL" 0;
  int_constant "CLOCKWISE" 0;
  int_constant "COUNTERCLOCKWISE" 1;
  int_constant "HORIZONTAL_ALIGNMENT_LEFT" 0;
  int_constant "HORIZONTAL_ALIGNMENT_CENTER" 1;
  int_constant "HORIZONTAL_ALIGNMENT_RIGHT" 2;
  int_constant "HORIZONTAL_ALIGNMENT_FILL" 3;
  int_constant "VERTICAL_ALIGNMENT_TOP" 0;
  int_constant "VERTICAL_ALIGNMENT_CENTER" 1;
  int_constant "VERTICAL_ALIGNMENT_BOTTOM" 2;
  int_constant "VERTICAL_ALIGNMENT_FILL" 3;
  int_constant "INLINE_ALIGNMENT_TOP_TO" 0;
  int_constant "INLINE_ALIGNMENT_CENTER_TO" 1;
  int_constant "INLINE_ALIGNMENT_BASELINE_TO" 3;
  int_constant "INLINE_ALIGNMENT_BOTTOM_TO" 2;
  int_constant "INLINE_ALIGNMENT_TO_TOP" 0;
  int_constant "INLINE_ALIGNMENT_TO_CENTER" 4;
  int_constant "INLINE_ALIGNMENT_TO_BASELINE" 8;
  int_constant "INLINE_ALIGNMENT_TO_BOTTOM" 12;
  int_constant "INLINE_ALIGNMENT_TOP" 0;
  int_constant "INLINE_ALIGNMENT_CENTER" 5;
  int_constant "INLINE_ALIGNMENT_BOTTOM" 14;
  int_constant "INLINE_ALIGNMENT_IMAGE_MASK" 3;
  int_constant "INLINE_ALIGNMENT_TEXT_MASK" 12;
  int_constant "EULER_ORDER_XYZ" 0;
  int_constant "EULER_ORDER_XZY" 1;
  int_constant "EULER_ORDER_YXZ" 2;
  int_constant "EULER_ORDER_YZX" 3;
  int_constant "EULER_ORDER_ZXY" 4;
  int_constant "EULER_ORDER_ZYX" 5;
  int_constant "KEY_NONE" 0;
  int_constant "KEY_SPECIAL" 4194304;
  int_constant "KEY_ESCAPE" 4194305;
  int_constant "KEY_TAB" 4194306;
  int_constant "KEY_BACKTAB" 4194307;
  int_constant "KEY_BACKSPACE" 4194308;
  int_constant "KEY_ENTER" 4194309;
  int_constant "KEY_KP_ENTER" 4194310;
  int_constant "KEY_INSERT" 4194311;
  int_constant "KEY_DELETE" 4194312;
  int_constant "KEY_PAUSE" 4194313;
  int_constant "KEY_PRINT" 4194314;
  int_constant "KEY_SYSREQ" 4194315;
  int_constant "KEY_CLEAR" 4194316;
  int_constant "KEY_HOME" 4194317;
  int_constant "KEY_END" 4194318;
  int_constant "KEY_LEFT" 4194319;
  int_constant "KEY_UP" 4194320;
  int_constant "KEY_RIGHT" 4194321;
  int_constant "KEY_DOWN" 4194322;
  int_constant "KEY_PAGEUP" 4194323;
  int_constant "KEY_PAGEDOWN" 4194324;
  int_constant "KEY_SHIFT" 4194325;
  int_constant "KEY_CTRL" 4194326;
  int_constant "KEY_META" 4194327;
  int_constant "KEY_ALT" 4194328;
  int_constant "KEY_CAPSLOCK" 4194329;
  int_constant "KEY_NUMLOCK" 4194330;
  int_constant "KEY_SCROLLLOCK" 4194331;
  int_constant "KEY_F1" 4194332;
  int_constant "KEY_F2" 4194333
].

Definition key_constants : list GlobalConstant := [
  int_constant "KEY_F3" 4194334;
  int_constant "KEY_F4" 4194335;
  int_constant "KEY_F5" 4194336;
  int_constant "KEY_F6" 4194337;
  int_constant "KEY_F7" 4194338;
  int_constant "KEY_F8" 4194339;
  int_constant "KEY_F9" 4194340;
  int_constant "KEY_F10" 4194341;
  int_constant "KEY_F11" 4194342;
  int_constant "KEY_F12" 4194343;
  int_constant "KEY_F13" 4194344;
  int_constant "KEY_F14" 4194345;
  int_constant "KEY_F15" 4194346;
  int_constant "KEY_F16" 4194347;
  int_constant "KEY_F17" 4194348;
  int_constant "KEY_F18" 4194349;
  int_constant "KEY_F19" 4194350;
  int_constant "KEY_F20" 4194351;
  int_constant "KEY_F21" 4194352;
  int_constant "KEY_F22" 4194353;
  int_constant "KEY_F23" 4194354;
  int_constant "KEY_F24" 4194355;
  int_constant "KEY_F25" 4194356;
  int_constant "KEY_F26" 4194357;
  int_constant "KEY_F27" 4194358;
  int_constant "KEY_F28" 4194359;
  int_constant "KEY_F29" 4194360;
  int_constant "KEY_F30" 4194361;
  int_constant "KEY_F31" 4194362;
  int_constant "KEY_F32" 4194363;
  int_constant "KEY_F33" 4194364;
  int_constant "KEY_F34" 4194365;
  int_constant "KEY_F35" 4194366;
  int_constant "KEY_KP_MULTIPLY" 4194433;
  int_constant "KEY_KP_DIVIDE" 4194434;
  int_constant "KEY_KP_SUBTRACT" 4194435;
  int_constant "KEY_KP_PERIOD" 4194436;
  int_constant "KEY_KP_ADD" 4194437;
  int_constant "KEY_KP_0" 4194438;
  int_constant "KEY_KP_1" 4194439;
  int_constant "KEY_KP_2" 4194440;
  int_constant "KEY_KP_3" 4194441;
  int_constant "KEY_KP_4" 4194442;
  int_constant "KEY_KP_5" 4194443;
  int_constant "KEY_KP_6" 4194444;
  int_constant "KEY_KP_7" 4194445;
  int_constant "KEY_KP_8" 4194446;
  int_constant "KEY_KP_9" 4194447;
  int_constant "KEY_MENU" 4194370;
  int_constant "KEY_HYPER" 4194371;
  int_constant "KEY_HELP" 4194373;
  int_constant "KEY_BACK" 4194376;
  int_constant "KEY_FORWARD" 4194377;
  int_constant "KEY_STOP" 4194378;
  int_constant "KEY_REFRESH" 4194379;
  int_constant "KEY_VOLUMEDOWN" 4194380;
  int_constant "KEY_VOLUMEMUTE" 4194381;
  int_constant "KEY_VOLUMEUP" 4194382;
  int_constant "KEY_MEDIAPLAY" 4194388;
  int_constant "KEY_MEDIASTOP" 4194389;
  int_constant "KEY_MEDIAPREVIOUS" 4194390;
  int_constant "KEY_MEDIANEXT" 4194391;
  int_constant "KEY_MEDIARECORD" 4194392;
  int_constant "KEY_HOMEPAGE" 4194393;
  int_constant "KEY_FAVORITES" 4194394;
  int_constant "KEY_SEARCH" 4194395;
  int_constant "KEY_STANDBY" 4194396;
  int_constant "KEY_OPENURL" 4194397;
  int_constant "KEY_LAUNCHMAIL" 4194398;
  int_constant "KEY_LAUNCHMEDIA" 4194399;
  int_constant "KEY_LAUNCH0" 4194400;
  int_constant "KEY_LAUNCH1" 4194401;
  int_constant "KEY_LAUNCH2" 4194402;
  int_constant "KEY_LAUNCH3" 4194403;
  int_constant "KEY_LAUNCH4" 4194404;
  int_constant "KEY_LAUNCH5" 4194405;
  int_constant "KEY_LAUNCH6" 4194406;
  int_constant "KEY_LAUNCH7" 4194407;
  int_constant "KEY_LAUNCH8" 4194408;
  int_constant "KEY_LAUNCH9" 4194409;
  int_constant "KEY_LAUNCHA" 4194410;
  int_constant "KEY_LAUNCHB" 4194411;
  int_constant "KEY_LAUNCHC" 4194412;
  int_constant "KEY_LAUNCHD" 4194413;
  int_constant "KEY_LAUNCHE" 4194414;
  int_constant "KEY_LAUNCHF" 4194415;
  int_constant "KEY_GLOBE" 4194416;
  int_constant "KEY_KEYBOARD" 4194417;
  int_constant "KEY_JIS_EISU" 4194418;
  int_constant "KEY_JIS_KANA" 4194419;
  int_constant "KEY_UNKNOWN" 8388607;
  int_constant "KEY_SPACE" 32;
  int_constant "KEY_EXCLAM" 33;
  int_constant "KEY_QUOTEDBL" 34;
  int_constant "KEY_NUMBERSIGN" 35;
  int_constant "KEY_DOLLAR" 36;
  int_constant "KEY_PERCENT" 37;
  int_constant "KEY_AMPERSAND" 38;
  int_constant "KEY_APOSTROPHE" 39;
  int_constant "KEY_PARENLEFT" 40;
  int_constant "KEY_PARENRIGHT" 41;
  int_constant "KEY_ASTERISK" 42;
  int_constant "KEY_PLUS" 43;
  int_constant "KEY_COMMA" 44;
  int_constant "KEY_MINUS" 45;
  int_constant "KEY_PERIOD" 46;
  int_constant "KEY_SLASH" 47;
  int_constant "KEY_0" 48;
  int_constant "KEY_1" 49;
  int_constant "KEY_2" 50;
  int_constant "KEY_3" 51;
  int_constant "KEY_4" 52;
  int_constant "KEY_5" 53;
  int_constant "KEY_6" 54;
  int_constant "KEY_7" 55;
  int_constant "KEY_8" 56;
  int_constant "KEY_9" 57;
  int_constant "KEY_COLON" 58;
  int_constant "KEY_SEMICOLON" 59;
  int_constant "KEY_LESS" 60;
  int_constant "KEY_EQUAL" 61;
  int_constant "KEY_GREATER" 62;
  int_constant "KEY_QUESTION" 63;
  int_constant "KEY_AT" 64;
  int_constant "KEY_A" 65;
  int_constant "KEY_B" 66;
  int_constant "KEY_C" 67;
  int_constant "KEY_D" 68;
  int_constant "KEY_E" 69;
  int_constant "KEY_F" 70;
  int_constant "KEY_G" 71;
  int_constant "KEY_H" 72;
  int_constant "KEY_I" 73;
  int_constant "KEY_J" 74;
  int_constant "KEY_K" 75
].

Definition input_constants : list GlobalConstant := [
  int_constant "KEY_L" 76;
  int_constant "KEY_M" 77;
  int_constant "KEY_N" 78;
  int_constant "KEY_O" 79;
  int_constant "KEY_P" 80;
  int_constant "KEY_Q" 81;
  int_constant "KEY_R" 82;
  int_constant "KEY_S" 83;
  int_constant "KEY_T" 84;
  int_constant "KEY_U" 85;
  int_constant "KEY_V" 86;
  int_constant "KEY_W" 87;
  int_constant "KEY_X" 88;
  int_constant "KEY_Y" 89;
  int_constant "KEY_Z" 90;
  int_constant "KEY_BRACKETLEFT" 91;
  int_constant "KEY_BACKSLASH" 92;
  int_constant "KEY_BRACKETRIGHT" 93;
  int_constant "KEY_ASCIICIRCUM" 94;
  int_constant "KEY_UNDERSCORE" 95;
  int_constant "KEY_QUOTELEFT" 96;
  int_constant "KEY_BRACELEFT" 123;
  int_constant "KEY_BAR" 124;
  int_constant "KEY_BRACERIGHT" 125;
  int_constant "KEY_ASCIITILDE" 126;
  int_constant "KEY_YEN" 165;
  int_constant "KEY_SECTION" 167;
  int_constant "KEY_CODE_MASK" 8388607;
  int_constant "KEY_MODIFIER_MASK" 2130706432;
  int_constant "KEY_MASK_CMD_OR_CTRL" 16777216;
  int_constant "KEY_MASK_SHIFT" 33554432;
  int_constant "KEY_MASK_ALT" 67108864;
  int_constant "KEY_MASK_META" 134217728;
  int_constant "KEY_MASK_CTRL" 268435456;
  int_constant "KEY_MASK_KPAD" 536870912;
  int_constant "KEY_MASK_GROUP_SWITCH" 1073741824;
  int_constant "KEY_LOCATION_UNSPECIFIED" 0;
  int_constant "KEY_LOCATION_LEFT" 1;
  int_constant "KEY_LOCATION_RIGHT" 2;
  int_constant "MOUSE_BUTTON_NONE" 0;
  int_constant "MOUSE_BUTTON_LEFT" 1;
  int_constant "MOUSE_BUTTON_RIGHT" 2;
  int_constant "MOUSE_BUTTON_MIDDLE" 3;
  int_constant "MOUSE_BUTTON_WHEEL_UP" 4;
  int_constant "MOUSE_BUTTON_WHEEL_DOWN" 5;
  int_constant "MOUSE_BUTTON_WHEEL_LEFT" 6;
  int_constant "MOUSE_BUTTON_WHEEL_RIGHT" 7;
  int_constant "MOUSE_BUTTON_XBUTTON1" 8;
  int_constant "MOUSE_BUTTON_XBUTTON2" 9;
  int_constant "MOUSE_BUTTON_MASK_LEFT" 1;
  int_constant "MOUSE_BUTTON_MASK_RIGHT" 2;
  int_constant "MOUSE_BUTTON_MASK_MIDDLE" 4;
  int_constant "MOUSE_BUTTON_MASK_MB_XBUTTON1" 128;
  int_constant "MOUSE_BUTTON_MASK_MB_XBUTTON2" 256;
  int_constant "JOY_BUTTON_INVALID" (-1);
  int_constant "JOY_BUTTON_A" 0;
  int_constant "JOY_BUTTON_B" 1;
  int_constant "JOY_BUTTON_X" 2;
  int_constant "JOY_BUTTON_Y" 3;
  int_constant "JOY_BUTTON_BACK" 4;
  int_constant "JOY_BUTTON_GUIDE" 5;
  int_constant "JOY_BUTTON_START" 6;
  int_constant "JOY_BUTTON_LEFT_STICK" 7;
  int_constant "JOY_BUTTON_RIGHT_STICK" 8;
  int_constant "JOY_BUTTON_LEFT_SHOULDER" 9;
  int_constant "JOY_BUTTON_RIGHT_SHOULDER" 10;
  int_constant "JOY_BUTTON_DPAD_UP" 11;
  int_constant "JOY_BUTTON_DPAD_DOWN" 12;
  int_constant "JOY_BUTTON_DPAD_LEFT" 13;
  int_constant "JOY_BUTTON_DPAD_RIGHT" 14;
  int_constant "JOY_BUTTON_MISC1" 15;
  int_constant "JOY_BUTTON_PADDLE1" 16;
  int_constant "JOY_BUTTON_PADDLE2" 17;
  int_constant "JOY_BUTTON_PADDLE3" 18;
  int_constant "JOY_BUTTON_PADDLE4" 19;
  int_constant "JOY_BUTTON_TOUCHPAD" 20;
  int_constant "JOY_BUTTON_SDL_MAX" 21;
  int_constant "JOY_BUTTON_MAX" 128;
  int_constant "JOY_AXIS_INVALID" (-1);
  int_constant "JOY_AXIS_LEFT_X" 0;
  int_constant "JOY_AXIS_LEFT_Y" 1;
  int_constant "JOY_AXIS_RIGHT_X" 2;
  int_constant "JOY_AXIS_RIGHT_Y" 3;
  int_constant "JOY_AXIS_TRIGGER_LEFT" 4;
  int_constant "JOY_AXIS_TRIGGER_RIGHT" 5;
  int_constant "JOY_AXIS_SDL_MAX" 6;
  int_constant "JOY_AXIS_MAX" 10;
  int_constant "MIDI_MESSAGE_NONE" 0;
  int_constant "MIDI_MESSAGE_NOTE_OFF" 8;
  int_constant "MIDI_MESSAGE_NOTE_ON" 9;
  int_constant "MIDI_MESSAGE_AFTERTOUCH" 10;
  int_constant "MIDI_MESSAGE_CONTROL_CHANGE" 11;
  int_constant "MIDI_MESSAGE_PROGRAM_CHANGE" 12;
  int_constant "MIDI_MESSAGE_CHANNEL_PRESSURE" 13;
  int_constant "MIDI_MESSAGE_PITCH_BEND" 14;
  int_constant "MIDI_MESSAGE_SYSTEM_EXCLUSIVE" 240;
  int_constant "MIDI_MESSAGE_QUARTER_FRAME" 241;
  int_constant "MIDI_MESSAGE_SONG_POSITION_POINTER" 242;
  int_constant "MIDI_MESSAGE_SONG_SELECT" 243;
  int_constant "MIDI_MESSAGE_TUNE_REQUEST" 246;
  int_constant "MIDI_MESSAGE_TIMING_CLOCK" 248;
  int_constant "MIDI_MESSAGE_START" 250;
  int_constant "MIDI_MESSAGE_CONTINUE" 251;
  int_constant "MIDI_MESSAGE_STOP" 252;
  int_constant "MIDI_MESSAGE_ACTIVE_SENSING" 254;
  int_constant "MIDI_MESSAGE_SYSTEM_RESET" 255;
  int_constant "OK" 0;
  int_constant "FAILED" 1;
  int_constant "ERR_UNAVAILABLE" 2;
  int_constant "ERR_UNCONFIGURED" 3;
  int_constant "ERR_UNAUTHORIZED" 4;
  int_constant "ERR_PARAMETER_RANGE_ERROR" 5;
  int_constant "ERR_OUT_OF_MEMORY" 6;
  int_constant "ERR_FILE_NOT_FOUND" 7;
  int_constant "ERR_FILE_BAD_DRIVE" 8;
  int_constant "ERR_FILE_BAD_PATH" 9;
  int_constant "ERR_FILE_NO_PERMISSION" 10;
  int_constant "ERR_FILE_ALREADY_IN_USE" 11;
  int_constant "ERR_FILE_CANT_OPEN" 12
].

Definition property_constants : list GlobalConstant := [
  int_constant "ERR_FILE_CANT_WRITE" 13;
  int_constant "ERR_FILE_CANT_READ" 14;
  int_constant "ERR_FILE_UNRECOGNIZED" 15;
  int_constant "ERR_FILE_CORRUPT" 16;
  int_constant "ERR_FILE_MISSING_DEPENDENCIES" 17;
  int_constant "ERR_FILE_EOF" 18;
  int_constant "ERR_CANT_OPEN" 19;
  int_constant "ERR_CANT_CREATE" 20;
  int_constant "ERR_QUERY_FAILED" 21;
  int_constant "ERR_ALREADY_IN_USE" 22;
  int_constant "ERR_LOCKED" 23;
  int_constant "ERR_TIMEOUT" 24;
  int_constant "ERR_CANT_CONNECT" 25;
  int_constant "ERR_CANT_RESOLVE" 26;
  int_constant "ERR_CONNECTION_ERROR" 27;
  int_constant "ERR_CANT_ACQUIRE_RESOURCE" 28;
  int_constant "ERR_CANT_FORK" 29;
  int_constant "ERR_INVALID_DATA" 30;
  int_constant "ERR_INVALID_PARAMETER" 31;
  int_constant "ERR_ALREADY_EXISTS" 32;
  int_constant "ERR_DOES_NOT_EXIST" 33;
  int_constant "ERR_DATABASE_CANT_READ" 34;
  int_constant "ERR_DATABASE_CANT_WRITE" 35;
  int_constant "ERR_COMPILATION_FAILED" 36;
  int_constant "ERR_METHOD_NOT_FOUND" 37;
  int_constant "ERR_LINK_FAILED" 38;
  int_constant "ERR_SCRIPT_FAILED" 39;
  int_constant "ERR_CYCLIC_LINK" 40;
  int_constant "ERR_INVALID_DECLARATION" 41;
  int_constant "ERR_DUPLICATE_SYMBOL" 42;
  int_constant "ERR_PARSE_ERROR" 43;
  int_constant "ERR_BUSY" 44;
  int_constant "ERR_SKIP" 45;
  int_constant "ERR_HELP" 46;
  int_constant "ERR_BUG" 47;
  int_constant "ERR_PRINTER_ON_FIRE" 48;
  int_constant "PROPERTY_HINT_NONE" 0;
  int_constant "PROPERTY_HINT_RANGE" 1;
  int_constant "PROPERTY_HINT_ENUM" 2;
  int_constant "PROPERTY_HINT_ENUM_SUGGESTION" 3;
  int_constant "PROPERTY_HINT_EXP_EASING" 4;
  int_constant "PROPERTY_HINT_LINK" 5;
  int_constant "PROPERTY_HINT_FLAGS" 6;
  int_constant "PROPERTY_HINT_LAYERS_2D_RENDER" 7;
  int_constant "PROPERTY_HINT_LAYERS_2D_PHYSICS" 8;
  int_constant "PROPERTY_HINT_LAYERS_2D_NAVIGATION" 9;
  int_constant "PROPERTY_HINT_LAYERS_3D_RENDER" 10;
  int_constant "PROPERTY_HINT_LAYERS_3D_PHYSICS" 11;
  int_constant "PROPERTY_HINT_LAYERS_3D_NAVIGATION" 12;
  int_constant "PROPERTY_HINT_LAYERS_AVOIDANCE" 37;
  int_constant "PROPERTY_HINT_FILE" 13;
  int_constant "PROPERTY_HINT_DIR" 14;
  int_constant "PROPERTY_HINT_GLOBAL_FILE" 15;
  int_constant "PROPERTY_HINT_GLOBAL_DIR" 16;
  int_constant "PROPERTY_HINT_RESOURCE_TYPE" 17;
  int_constant "PROPERTY_HINT_MULTILINE_TEXT" 18;
  int_constant "PROPERTY_HINT_EXPRESSION" 19;
  int_constant "PROPERTY_HINT_PLACEHOLDER_TEXT" 20;
  int_constant "PROPERTY_HINT_COLOR_NO_ALPHA" 21;
  int_constant "PROPERTY_HINT_OBJECT_ID" 22;
  int_constant "PROPERTY_HINT_TYPE_STRING" 23;
  int_constant "PROPERTY_HINT_NODE_PATH_TO_EDITED_NODE" 24;
  int_constant "PROPERTY_HINT_OBJECT_TOO_BIG" 25;
  int_constant "PROPERTY_HINT_NODE_PATH_VALID_TYPES" 26;
  int_constant "PROPERTY_HINT_SAVE_FILE" 27;
  int_constant "PROPERTY_HINT_GLOBAL_SAVE_FILE" 28;
  int_constant "PROPERTY_HINT_INT_IS_OBJECTID" 29;
  int_constant "PROPERTY_HINT_INT_IS_POINTER" 30;
  int_constant "PROPERTY_HINT_ARRAY_TYPE" 31;
  int_constant "PROPERTY_HINT_DICTIONARY_TYPE" 38;
  int_constant "PROPERTY_HINT_LOCALE_ID" 32;
  int_constant "PROPERTY_HINT_LOCALIZABLE_STRING" 33;
  int_constant "PROPERTY_HINT_NODE_TYPE" 34;
  int_constant "PROPERTY_HINT_HIDE_QUATERNION_EDIT" 35;
  int_constant "PROPERTY_HINT_PASSWORD" 36;
  int_constant "PROPERTY_HINT_TOOL_BUTTON" 39;
  int_constant "PROPERTY_HINT_ONESHOT" 40;
  int_constant "PROPERTY_HINT_GROUP_ENABLE" 42;
  int_constant "PROPERTY_HINT_INPUT_NAME" 43;
  int_constant "PROPERTY_HINT_FILE_PATH" 44;
  int_constant "PROPERTY_HINT_MAX" 45;
  int_constant "PROPERTY_USAGE_NONE" 0;
  int_constant "PROPERTY_USAGE_STORAGE" 2;
  int_constant "PROPERTY_USAGE_EDITOR" 4;
  int_constant "PROPERTY_USAGE_INTERNAL" 8;
  int_constant "PROPERTY_USAGE_CHECKABLE" 16;
  int_constant "PROPERTY_USAGE_CHECKED" 32;
  int_constant "PROPERTY_USAGE_GROUP" 64;
  int_constant "PROPERTY_USAGE_CATEGORY" 128;
  int_constant "PROPERTY_USAGE_SUBGROUP" 256;
  int_constant "PROPERTY_USAGE_CLASS_IS_BITFIELD" 512;
  int_constant "PROPERTY_USAGE_NO_INSTANCE_STATE" 1024;
  int_constant "PROPERTY_USAGE_RESTART_IF_CHANGED" 2048;
  int_constant "PROPERTY_USAGE_SCRIPT_VARIABLE" 4096;
  int_constant "PROPERTY_USAGE_STORE_IF_NULL" 8192;
  int_constant "PROPERTY_USAGE_UPDATE_ALL_IF_MODIFIED" 16384;
  int_constant "PROPERTY_USAGE_SCRIPT_DEFAULT_VALUE" 32768;
  int_constant "PROPERTY_USAGE_CLASS_IS_ENUM" 65536;
  int_constant "PROPERTY_USAGE_NIL_IS_VARIANT" 131072;
  int_constant "PROPERTY_USAGE_ARRAY" 262144;
  int_constant "PROPERTY_USAGE_ALWAYS_DUPLICATE" 524288;
  int_constant "PROPERTY_USAGE_NEVER_DUPLICATE" 1048576;
  int_constant "PROPERTY_USAGE_HIGH_END_GFX" 2097152;
  int_constant "PROPERTY_USAGE_NODE_PATH_FROM_SCENE_ROOT" 4194304;
  int_constant "PROPERTY_USAGE_RESOURCE_NOT_PERSISTENT" 8388608;
  int_constant "PROPERTY_USAGE_KEYING_INCREMENTS" 16777216;
  int_constant "PROPERTY_USAGE_DEFERRED_SET_RESOURCE" 33554432;
  int_constant "PROPERTY_USAGE_EDITOR_INSTANTIATE_OBJECT" 67108864;
  int_constant "PROPERTY_USAGE_EDITOR_BASIC_SETTING" 134217728;
  int_constant "PROPERTY_USAGE_READ_ONLY" 268435456;
  int_constant "PROPERTY_USAGE_SECRET" 536870912;
  int_constant "PROPERTY_USAGE_DEFAULT" 6;
  int_constant "PROPERTY_USAGE_NO_EDITOR" 2;
  int_constant "METHOD_FLAG_NORMAL" 1;
  int_constant "METHOD_FLAG_EDITOR" 2;
  int_constant "METHOD_FLAG_CONST" 4;
  int_constant "METHOD_FLAG_VIRTUAL" 8;
  int_constant "METHOD_FLAG_VARARG" 16;
  int_constant "METHOD_FLAG_STATIC" 32;
  int_constant "METHOD_FLAG_OBJECT_CORE" 64;
  int_constant "METHOD_FLAG_VIRTUAL_REQUIRED" 128;
  int_constant "METHOD_FLAGS_DEFAULT" 1
].

Definition GLOBAL_CONSTANTS : list GlobalConstant :=
  core_constants ++ key_constants ++ input_constants ++ property_constants.

(** The map is filled in the order of the table, so that the last entry of a
    name would be the one that is found. *)
Definition find_global_constant (n : string) : option GlobalConstant :=
  foldl (fun found e => if String.eqb (name e) n then Some e else found) None GLOBAL_CONSTANTS.

Lemma find_by_name (n : string) (l : list GlobalConstant) (found : option GlobalConstant) (e : GlobalConstant) :
  foldl (fun found e => if String.eqb (name e) n then Some e else found) found l = Some e ->
  found = Some e \/ e ∈ l /\ name e = n.
Proof.
  revert found. induction l as [|x l IH]; intros found H; [by left|]. simpl in H.
  destruct (IH _ H) as [E|[Hin Hn]]; [|right; split; [by right|done]].
  destruct (String.eqb_spec (name x) n); [|by left]. injection E as <-. right. by split; [left|].
Qed.

Lemma find_global_constant_name (n : string) (e : GlobalConstant) :
  find_global_constant n = Some e -> e ∈ GLOBAL_CONSTANTS /\ name e = n.
Proof. intros H. by destruct (find_by_name _ _ _ _ H). Qed.

End GlobalConstants.
