(* ===== verification/ExportHints.v ===== *)
(** * Export hints

    Models export_hints.h and export_hints.cpp: what the arguments of an
    [@export...] annotation put in the inspector's hint of a property, with the
    number format the engine uses for ranges. *)

From stdpp Require Import pretty.
From Stdlib Require Import Ascii.
From S2P Require Import Prelude.
From S2P Require Import Double.
From S2P Require Import Wire.
From S2P Require Import GlobalConstants.
Local Open Scope char_scope.
Local Open Scope string_scope.
Open Scope Z_scope.

Module ExportHints.
Import GlobalConstants.

Record ExportHint := mkHint {
  hint : Z;
  hint_string : string;
  usage : Z
}.

Definition no_hint : ExportHint := mkHint 0 "" 0.

Definition empty (s : string) : bool := String.eqb s EmptyString.

Definition is_default (h : ExportHint) : bool := (hint h =? 0) && empty (hint_string h) && (usage h =? 0).

Inductive Kind := NUMBER | STRING | NAME | OTHER.

#[export] Instance kind_eq_dec : EqDecision Kind.
Proof. solve_decision. Defined.

Record ExportArgument := mkArgument {
  kind : Kind;
  number : double;
  text : string;
  line : Z;
  column : Z
}.

Definition is_kind (k : Kind) (arg : ExportArgument) : bool := bool_decide (kind arg = k).

(** ** The table of annotations *)

Inductive ArgStyle := NONE | STRINGS | ONE_STRING | RANGE | CUSTOM.

Record ExportAnnotation := mkAnnotation {
  a_name : string;
  a_hint : Z;
  style : ArgStyle;
  min_args : Z;
  max_args : Z;
  a_usage : Z
}.

Definition USAGE_STORAGE_ONLY : Z := Z.lor 2 4096.

(** [size_t(-1)] *)
Definition ANY : Z := UINT64_MAX.

Definition EXPORT_ANNOTATIONS : list ExportAnnotation := [
  mkAnnotation "export" 0 NONE 0 0 0;
  mkAnnotation "export_range" 1 RANGE 2 ANY 0;
  mkAnnotation "export_enum" 2 STRINGS 1 ANY 0;
  mkAnnotation "export_exp_easing" 4 STRINGS 0 ANY 0;
  mkAnnotation "export_flags" 6 STRINGS 1 ANY 0;
  mkAnnotation "export_flags_2d_render" 7 NONE 0 0 0;
  mkAnnotation "export_flags_2d_physics" 8 NONE 0 0 0;
  mkAnnotation "export_flags_2d_navigation" 9 NONE 0 0 0;
  mkAnnotation "export_flags_3d_render" 10 NONE 0 0 0;
  mkAnnotation "export_flags_3d_physics" 11 NONE 0 0 0;
  mkAnnotation "export_flags_3d_navigation" 12 NONE 0 0 0;
  mkAnnotation "export_flags_avoidance" 37 NONE 0 0 0;
  mkAnnotation "export_file" 13 STRINGS 0 ANY 0;
  mkAnnotation "export_dir" 14 NONE 0 0 0;
  mkAnnotation "export_global_file" 15 STRINGS 0 ANY 0;
  mkAnnotation "export_global_dir" 16 NONE 0 0 0;
  mkAnnotation "export_multiline" 18 NONE 0 0 0;
  mkAnnotation "export_placeholder" 20 ONE_STRING 1 1 0;
  mkAnnotation "export_color_no_alpha" 21 NONE 0 0 0;
  mkAnnotation "export_node_path" 26 STRINGS 0 ANY 0;
  mkAnnotation "export_storage" 0 NONE 0 0 USAGE_STORAGE_ONLY;
  mkAnnotation "export_custom" 0 CUSTOM 2 3 0
].

Definition find_annotation (name : string) : option ExportAnnotation :=
  List.find (fun entry => String.eqb name (a_name entry)) EXPORT_ANNOTATIONS.

Definition arity_text (entry : ExportAnnotation) : string :=
  if max_args entry =? ANY then "at least " +:+ pretty (min_args entry)
  else if min_args entry =? max_args entry then pretty (min_args entry)
  else pretty (min_args entry) +:+ " to " +:+ pretty (max_args entry).

(** ** Arguments *)

(** The answer is the result and what is written through the reference. *)
Definition integer_argument (arg : ExportArgument) : outcome (option Z) :=
  if is_kind NUMBER arg then let? out := int64_of_double (number arg) in Ok (Some out)
  else if negb (is_kind NAME arg) then Ok None
  else match find_global_constant (text arg) with
       | None => Ok None
       | Some constant => Ok (if is_float constant then None else Some (int_value constant))
       end.

Definition number_argument (arg : ExportArgument) : option double :=
  if is_kind NUMBER arg then Some (number arg)
  else if negb (is_kind NAME arg) then None
  else match find_global_constant (text arg) with
       | None => None
       | Some constant =>
           Some (if is_float constant then float_value constant else double_of_Z (int_value constant))
       end.

Definition unevaluated (arg : ExportArgument) : bool :=
  is_kind OTHER arg || (is_kind NAME arg && match find_global_constant (text arg) with None => true | _ => false end).

(** ** Numbers *)

(** [m * 2^e * 10^decimals] rounded to an integer, ties to even: the digits
    [printf] writes for a magnitude. *)
Definition scaled_digits (m : positive) (e : Z) (decimals : nat) : Z :=
  let n := Zpos m * 10 ^ Z.of_nat decimals in
  if 0 <=? e then n * 2 ^ e
  else
    let d := 2 ^ (- e) in
    let q := n / d in
    let r := n mod d in
    if (2 * r <? d) || ((2 * r =? d) && Z.even q) then q else q + 1.

Definition zeros (n : nat) : string := String.string_of_list_ascii (replicate n ("0" : ascii)).

(** [n] with at least [width] digits. *)
Definition padded (width : nat) (n : Z) : string :=
  let digits := pretty n in zeros (width - String.length digits) +:+ digits.

(** ["%.*f"] *)
Definition fixed (decimals : nat) (value : double) : string :=
  let write (negative : bool) (n : Z) :=
    (if negative then "-" else "")
      +:+ pretty (n / 10 ^ Z.of_nat decimals)
      +:+ (if decimals is O then "" else "." +:+ padded decimals (n mod 10 ^ Z.of_nat decimals)) in
  match value with
  | S754_zero s => write s 0
  | S754_finite s m e => write s (scaled_digits m e decimals)
  | S754_infinity s => if s then "-inf" else "inf"
  | S754_nan => "nan"
  end.

(** [text.find('.')] and, from there, [text.find_last_not_of('0')] and
    [text.erase(last + 1)]: the zeros at the end go, except one behind the dot. *)
Fixpoint has_dot (s : list ascii) : bool :=
  match s with [] => false | c :: s => Ascii.eqb c "." || has_dot s end.

Fixpoint drop_zeros (s : list ascii) : list ascii :=
  match s with
  | c :: rest => if Ascii.eqb c "0" then drop_zeros rest else s
  | [] => []
  end.

Definition strip_zeros (s : string) : string :=
  let cs := String.list_ascii_of_string s in
  match drop_zeros (rev cs) with
  | c :: kept =>
      let last := length kept in
      String.string_of_list_ascii (take (if Ascii.eqb c "." then last + 2 else last + 1) cs)
  | [] => s
  end.

Definition int32_of_double (x : double) : outcome Z :=
  let? z := int64_of_double x in
  if bool_decide (- 2 ^ 31 <= z < 2 ^ 31) then Ok z else Throw (UB "float to int out of range").

Section Format.
Context {libm : Libm}.

Definition format_hint_number (value : double) : outcome string :=
  if is_nan value then Ok "nan"
  else if is_inf value then Ok (if dltb value dzero then "-inf" else "inf")
  else
    let magnitude := dabs value in
    let? decimals :=
      if dgtb magnitude (double_of_Z 10)
      then let? digits := int32_of_double (dfloor (d_log10 magnitude)) in Ok (14 - digits)
      else Ok 14 in
    let decimals := if decimals <? 0 then 0 else decimals in
    let text := fixed (Z.to_nat decimals) value in
    if has_dot (String.list_ascii_of_string text) then Ok (strip_zeros text) else Ok (text +:+ ".0").

(** ** build_export_hint *)

(** A comma after the entries before. *)
Definition separate (out : ExportHint) : ExportHint :=
  mkHint (hint out) (if empty (hint_string out) then hint_string out else hint_string out +:+ ",") (usage out).
Definition append (s : string) (out : ExportHint) : ExportHint := mkHint (hint out) (hint_string out +:+ s) (usage out).

(** What is left in the hint and in the error message. *)
Fixpoint string_arguments (name : string) (args : list ExportArgument) (out : ExportHint) : ExportHint * string :=
  match args with
  | [] => (out, "")
  | arg :: args =>
      if unevaluated arg then (no_hint, "")
      else if negb (is_kind STRING arg) then (out, "@" +:+ name +:+ " takes strings; this argument is not one")
      else string_arguments name args (append (text arg) (separate out))
  end.

Fixpoint range_arguments (name : string) (i : nat) (args : list ExportArgument) (out : ExportHint) :
    outcome (ExportHint * string) :=
  match args with
  | [] => Ok (out, "")
  | arg :: args =>
      if unevaluated arg then Ok (no_hint, "")
      else
        let out := separate out in
        if (i <? 3)%nat then
          match number_argument arg with
          | None => Ok (out, "@" +:+ name +:+ " argument " +:+ pretty (S i) +:+ " is a number in the engine")
          | Some number =>
              let? digits := format_hint_number number in
              range_arguments name (S i) args (append digits out)
          end
        else if negb (is_kind STRING arg)
        then Ok (out, "@" +:+ name +:+ " argument " +:+ pretty (S i) +:+ " is a string in the engine")
        else range_arguments name (S i) args (append (text arg) out)
  end.

Definition custom_arguments (name : string) (args : list ExportArgument) (out : ExportHint) :
    outcome (ExportHint * string) :=
  if existsb unevaluated args then Ok (no_hint, "")
  else match args with
       | first :: second :: rest =>
           let? hint := integer_argument first in
           match hint with
           | None => Ok (out, "@" +:+ name +:+ " takes a PROPERTY_HINT_* constant first")
           | Some hint =>
               if negb (is_kind STRING second) then Ok (out, "@" +:+ name +:+ " takes the hint string second")
               else
                 let out := mkHint (to_int32 hint) (text second) (usage out) in
                 match rest with
                 | [third] =>
                     let? usage := integer_argument third in
                     match usage with
                     | None => Ok (out, "@" +:+ name +:+ " takes a PROPERTY_USAGE_* constant third")
                     | Some usage => Ok (mkHint (ExportHints.hint out) (hint_string out) (to_int32 usage), "")
                     end
                 | _ => Ok (out, "")
                 end
           end
       | _ => Throw (UB "index past the end of a vector")
       end.

(** [None] is the result [false]: the annotation is not in the table. *)
Definition build_export_hint (name : string) (args : list ExportArgument) : outcome (option (ExportHint * string)) :=
  match find_annotation name with
  | None => Ok None
  | Some entry =>
      let out := mkHint (a_hint entry) "" (a_usage entry) in
      let n := Z.of_nat (length args) in
      if (n <? min_args entry) || (negb (max_args entry =? ANY) && (max_args entry <? n)) then
        Ok (Some (out, "@" +:+ name +:+ " takes " +:+ arity_text entry +:+ " argument"
          +:+ (if (min_args entry =? 1) && (max_args entry =? 1) then "" else "s") +:+ ", got " +:+ pretty n))
      else
        let? r := match style entry with
                  | NONE => Ok (out, "")
                  | ONE_STRING | STRINGS => Ok (string_arguments name args out)
                  | RANGE => range_arguments name 0 args out
                  | CUSTOM => custom_arguments name args out
                  end in
        Ok (Some r)
  end.

End Format.

End ExportHints.
