(* ===== verification/SmallVector.v ===== *)
(** * Small vectors

    Models small_vector.h: a vector with [N] elements in the object and a block of
    the heap beyond that.  A vector names its block and the heap maps blocks to
    cells, so that what the class does with [malloc], [free] and [memcpy] can go
    wrong: a block freed twice, a read of a freed or unwritten cell and a copy past
    the end of a buffer are undefined behaviour.

    [small_vector_refines]: as long as the program calls the operations as it may,
    none of that happens, every operation is the list operation of its name, and
    every block belongs to one live vector. *)

From S2P Require Import Prelude.

Module SmallVector.

Section SmallVector.
Context {T : Type} (N : nat) (T0 : T) (malloc_succeeds : Z -> bool).

Abbreviation Cells := (list (option T)).
Abbreviation Heap := (gmap nat Cells).

(** [m_data] is a block, or the inline storage. *)
Record Vec := mkVec {
  m_inline : Cells;
  m_data : option nat;
  m_size : Z;
  m_capacity : Z
}.

Definition construct : Vec := mkVec (replicate N None) None 0 (Z.of_nat N).

(** ** Memory *)

Definition buffer (h : Heap) (v : Vec) : outcome Cells :=
  match m_data v with
  | None => Ok (m_inline v)
  | Some b => of_option (UB "use after free") (h !! b)
  end.

Definition set_buffer (cells : Cells) (h : Heap) (v : Vec) : Heap * Vec :=
  match m_data v with
  | None => (h, mkVec cells None (m_size v) (m_capacity v))
  | Some b => (<[b := cells]> h, v)
  end.

(** The first [count] cells of a buffer. *)
Definition first_cells (cells : Cells) (count : Z) : outcome Cells :=
  if count <=? Z.of_nat (length cells) then Ok (take (Z.to_nat count) cells) else Throw (UB "memcpy past the end").

(** [memcpy(to, from, count * sizeof(T))] *)
Definition memcpy (to from : Cells) (count : Z) : outcome Cells :=
  let? copied := first_cells from count in
  if count <=? Z.of_nat (length to) then Ok (copied ++ drop (Z.to_nat count) to) else Throw (UB "memcpy past the end").

(** [m_data[index]], read and written. *)
Definition cell_at (h : Heap) (v : Vec) (index : Z) : outcome T :=
  let? cells := buffer h v in
  match cells !! Z.to_nat index with
  | Some (Some x) => Ok x
  | Some None => Throw (UB "read of an unwritten element")
  | None => Throw (UB "index past the end")
  end.

Definition store (h : Heap) (v : Vec) (index : Z) (x : T) : outcome (Heap * Vec) :=
  let? cells := buffer h v in
  if decide (Z.to_nat index < length cells)%nat then Ok (set_buffer (<[Z.to_nat index := Some x]> cells) h v)
  else Throw (UB "index past the end").

Definition set_size (size : Z) (v : Vec) : Vec := mkVec (m_inline v) (m_data v) (to_uint32 size) (m_capacity v).

(** ** Storage *)

Definition release (h : Heap) (v : Vec) : outcome Heap :=
  match m_data v with
  | None => Ok h
  | Some b => match h !! b with Some _ => Ok (delete b h) | None => Throw (UB "double free") end
  end.

(** [while (capacity < wanted) capacity *= 2;] *)
Fixpoint grow (n : nat) (capacity wanted : Z) : outcome Z :=
  if capacity <? wanted then
    match n with
    | O => Throw OutOfFuel
    | S n => grow n (to_uint64 (capacity * 2)) wanted
    end
  else Ok capacity.

(** The capacity doubles as a 32-bit number first.  [malloc_succeeds] is given the
    number of elements. *)
Definition reserve (h : Heap) (v : Vec) (wanted : Z) : outcome (Heap * Vec) :=
  if wanted <=? m_capacity v then Ok (h, v) else
  let? capacity := grow 64 (to_uint32 (m_capacity v * 2)) wanted in
  if negb (malloc_succeeds capacity) then Throw bad_alloc else
  let block := fresh (dom h) in
  let? cells := buffer h v in
  let? copied := memcpy (replicate (Z.to_nat capacity) None) cells (m_size v) in
  let? h := release (<[block := copied]> h) v in
  Ok (h, mkVec (m_inline v) (Some block) (m_size v) (to_uint32 capacity)).

(** [assign(source, count)] *)
Definition assign (h : Heap) (v : Vec) (source : Heap -> outcome Cells) (count : Z) : outcome (Heap * Vec) :=
  let? hv := reserve h v count in
  let '(h, v) := hv in
  let? from := source h in
  let? to := buffer h v in
  let? cells := memcpy to from count in
  let '(h, v) := set_buffer cells h v in
  Ok (h, set_size count v).

(** [steal(other)]: both vectors afterwards. *)
Definition steal (h : Heap) (v other : Vec) : outcome (Vec * Vec) :=
  let? v' :=
    match m_data other with
    | None =>
        let? cells := memcpy (m_inline v) (m_inline other) (m_size other) in
        Ok (mkVec cells (m_data v) (m_size v) (m_capacity v), other)
    | Some b =>
        Ok (mkVec (m_inline v) (Some b) (m_size v) (m_capacity other),
            mkVec (m_inline other) None (m_size other) (Z.of_nat N))
    end in
  let '(v, other) := v' in
  Ok (mkVec (m_inline v) (m_data v) (m_size other) (m_capacity v), set_size 0 other).

(** ** Elements *)

(** What [push_back] is given: a value elsewhere, or an element of a vector. *)
Inductive Ref := Temp (x : T) | Element (storage : option nat) (index : nat).

Definition deref (h : Heap) (v : Vec) (r : Ref) : outcome T :=
  match r with
  | Temp x => Ok x
  | Element storage index =>
      match (match storage with None => Some (m_inline v) | Some b => h !! b end) with
      | None => Throw (UB "use after free")
      | Some cells =>
          match cells !! index with
          | Some (Some x) => Ok x
          | _ => Throw (UB "read of an unwritten element")
          end
      end
  end.

Definition push_back (h : Heap) (v : Vec) (value : Ref) : outcome (Heap * Vec) :=
  let? hv := (if m_size v =? m_capacity v then reserve h v (to_uint32 (m_size v + 1)) else Ok (h, v)) in
  let '(h, v) := hv in
  let? x := deref h v value in
  let? hv := store h v (m_size v) x in
  let '(h, v) := hv in
  Ok (h, set_size (m_size v + 1) v).

Definition pop_back (v : Vec) : Vec := set_size (m_size v - 1) v.

Definition clear (v : Vec) : Vec := set_size 0 v.

(** [for (i = m_size; i < count; i++) m_data[i] = T();] *)
Fixpoint fill (n : nat) (h : Heap) (v : Vec) (index : Z) : outcome (Heap * Vec) :=
  match n with
  | O => Ok (h, v)
  | S n => let? hv := store h v index T0 in fill n hv.1 hv.2 (index + 1)
  end.

Definition resize (h : Heap) (v : Vec) (count : Z) : outcome (Heap * Vec) :=
  let? hv := reserve h v count in
  let? hv := fill (Z.to_nat (count - m_size hv.2)) hv.1 hv.2 (m_size hv.2) in
  Ok (hv.1, set_size count hv.2).

Definition at_ (h : Heap) (v : Vec) (index : Z) : outcome T :=
  if m_size v <=? index then Throw out_of_range else cell_at h v index.

Definition back (h : Heap) (v : Vec) : outcome T := cell_at h v (to_uint32 (m_size v - 1)).

(** [SmallVector(values)] *)
Fixpoint push_all (h : Heap) (v : Vec) (values : list T) : outcome (Heap * Vec) :=
  match values with
  | [] => Ok (h, v)
  | x :: values =>
      let? hv := store h v (m_size v) x in
      push_all hv.1 (set_size (m_size hv.2 + 1) hv.2) values
  end.

Definition of_list (h : Heap) (values : list T) : outcome (Heap * Vec) :=
  let? hv := reserve h construct (Z.of_nat (length values)) in
  push_all hv.1 hv.2 values.

(** ** Named vectors *)

Record State := mkState {
  heap : Heap;
  vecs : gmap nat Vec
}.

Inductive Op :=
  | New (x : nat)
  | NewList (x : nat) (values : list T)
  | NewCopy (x y : nat)
  | NewMove (x y : nat)
  | CopyAssign (x y : nat)
  | MoveAssign (x y : nat)
  | PushBack (x : nat) (value : T)
  | PopBack (x : nat)
  | Clear (x : nat)
  | Resize (x : nat) (count : Z)
  | Reserve (x : nat) (count : Z)
  | Set_ (x : nat) (index : nat) (value : T)
  | Destroy (x : nat).

Definition vec (s : State) (x : nat) : outcome Vec := of_option (UB "no such object") (vecs s !! x).

Definition update (x : nat) (s : State) (r : outcome (Heap * Vec)) : outcome State :=
  let? hv := r in Ok (mkState hv.1 (<[x := hv.2]> (vecs s))).

(** The special members and the operations, on the vector [x] names. *)
Definition step (s : State) (op : Op) : outcome State :=
  match op with
  | New x => update x s (Ok (heap s, construct))
  | NewList x values => update x s (of_list (heap s) values)
  | NewCopy x y =>
      let? other := vec s y in
      update x s (assign (heap s) construct (fun h => buffer h other) (m_size other))
  | NewMove x y =>
      let? other := vec s y in
      let? moved := steal (heap s) construct other in
      Ok (mkState (heap s) (<[x := moved.1]> (<[y := moved.2]> (vecs s))))
  | CopyAssign x y =>
      if decide (x = y) then Ok s else
      let? v := vec s x in
      let? other := vec s y in
      update x s (assign (heap s) v (fun h => buffer h other) (m_size other))
  | MoveAssign x y =>
      if decide (x = y) then Ok s else
      let? v := vec s x in
      let? other := vec s y in
      let? h := release (heap s) v in
      let v := mkVec (m_inline v) None (m_size v) (Z.of_nat N) in
      let? moved := steal h v other in
      Ok (mkState h (<[x := moved.1]> (<[y := moved.2]> (vecs s))))
  | PushBack x value => let? v := vec s x in update x s (push_back (heap s) v (Temp value))
  | PopBack x => let? v := vec s x in update x s (Ok (heap s, pop_back v))
  | Clear x => let? v := vec s x in update x s (Ok (heap s, clear v))
  | Resize x count => let? v := vec s x in update x s (resize (heap s) v count)
  | Reserve x count => let? v := vec s x in update x s (reserve (heap s) v count)
  | Set_ x index value => let? v := vec s x in update x s (store (heap s) v (Z.of_nat index) value)
  | Destroy x =>
      let? v := vec s x in
      let? h := release (heap s) v in
      Ok (mkState h (delete x (vecs s)))
  end.

Definition run (s : State) (ops : list Op) : outcome State := foldM step ops s.

(** [x.at(index)] *)
Definition element (s : State) (x : nat) (index : Z) : outcome T := let? v := vec s x in at_ (heap s) v index.

(** ** What the class promises *)

(** Named lists; [None] is a call the program may not make. *)
Abbreviation Lists := (gmap nat (list T)).

Definition longest : Z := 2 ^ 31.

Definition spec (A : Lists) (op : Op) : option Lists :=
  let unused x := bool_decide (A !! x = None) in
  let short (n : Z) := (0 <=? n) && (n <=? longest) in
  match op with
  | New x => if unused x then Some (<[x := []]> A) else None
  | NewList x values => if unused x && short (Z.of_nat (length values)) then Some (<[x := values]> A) else None
  | NewCopy x y => if unused x then l ← A !! y; Some (<[x := l]> A) else None
  | NewMove x y => if unused x then l ← A !! y; Some (<[x := l]> (<[y := []]> A)) else None
  | CopyAssign x y => _ ← A !! x; l ← A !! y; Some (<[x := l]> A)
  | MoveAssign x y =>
      _ ← A !! x; l ← A !! y;
      if decide (x = y) then Some A else Some (<[x := l]> (<[y := []]> A))
  | PushBack x value =>
      l ← A !! x;
      if Z.of_nat (length l) <? longest then Some (<[x := l ++ [value]]> A) else None
  | PopBack x => l ← A !! x; match l with [] => None | _ => Some (<[x := take (length l - 1) l]> A) end
  | Clear x => _ ← A !! x; Some (<[x := []]> A)
  | Resize x count =>
      l ← A !! x;
      if short count then Some (<[x := list.resize (Z.to_nat count) T0 l]> A) else None
  | Reserve x count => _ ← A !! x; if short count then Some A else None
  | Set_ x index value =>
      l ← A !! x; if decide (index < length l)%nat then Some (<[x := <[index := value]> l]> A) else None
  | Destroy x => _ ← A !! x; Some (delete x A)
  end.

Definition specs (A : Lists) (ops : list Op) : option Lists := foldl (fun A op => A ← A; spec A op) (Some A) ops.

End SmallVector.

End SmallVector.

Module SmallVectorFacts.
Import SmallVector.

Section Facts.
Context {T : Type} (N : nat) (T0 : T) (malloc_succeeds : Z -> bool).
Context (HN : (0 < N)%nat) (HN32 : Z.of_nat N < 2 ^ 32).

Abbreviation Cells := (list (option T)).
Abbreviation Heap := (gmap nat Cells).
Abbreviation Vec := (Vec (T := T)).

Definition owns (v : Vec) (b : nat) : Prop := m_data v = Some b.

(** The vector [v] holds the elements [l]. *)
Record Good (h : Heap) (v : Vec) (l : list T) : Prop := {
  good_inline : length (m_inline v) = N;
  good_cells : exists rest, buffer h v = Ok (map Some l ++ rest) /\ Z.of_nat (length l + length rest) = m_capacity v;
  good_size : m_size v = Z.of_nat (length l);
  good_capacity : 0 < m_capacity v < 2 ^ 32
}.

(** An operation on one vector leaves the blocks of the others alone, and the only
    block it adds is the vector's own. *)
Record Moves (h : Heap) (v : Vec) (h' : Heap) (v' : Vec) : Prop := {
  moves_keep : forall b c, ~ owns v b -> h !! b = Some c -> h' !! b = Some c /\ ~ owns v' b;
  moves_only : forall b, is_Some (h' !! b) -> owns v' b \/ (~ owns v b /\ is_Some (h !! b))
}.

#[local] Instance owns_dec v b : Decision (owns v b).
Proof. unfold owns. apply _. Defined.

Lemma moves_same h v v' : m_data v' = m_data v -> Moves h v h v'.
Proof.
  intros E. unfold owns in *. split; unfold owns; rewrite E; [done|]. intros b Hb.
  destruct (decide (m_data v = Some b)); [by left|by right].
Qed.

Lemma moves_trans h v h1 v1 h2 v2 : Moves h v h1 v1 -> Moves h1 v1 h2 v2 -> Moves h v h2 v2.
Proof.
  intros [K1 O1] [K2 O2]. split.
  - intros b c Hb Hc. destruct (K1 b c Hb Hc) as [Hc1 Hb1]. by apply K2.
  - intros b Hb. destruct (O2 b Hb) as [|[Hn Hb1]]; [by left|]. destruct (O1 b Hb1) as [|H]; [done|by right].
Qed.

Lemma good_capacity_ge h v l : Good h v l -> Z.of_nat (length l) <= m_capacity v.
Proof. intros [_ (rest & _ & E) _ _]. lia. Qed.

Lemma small_uint32 z : 0 <= z < 2 ^ 32 -> to_uint32 z = z.
Proof. intros Hz. unfold wrapu. by apply Z.mod_small. Qed.

(** ** Buffers *)

Lemma buffer_set cells h v l : Good h v l -> buffer (set_buffer cells h v).1 (set_buffer cells h v).2 = Ok cells.
Proof.
  intros _. unfold buffer, set_buffer. destruct (m_data v) as [b|] eqn:E; cbn; [|done]. rewrite E, lookup_insert_eq. done.
Qed.

Lemma moves_set cells h v l : Good h v l -> Moves h v (set_buffer cells h v).1 (set_buffer cells h v).2.
Proof.
  intros Hg. destruct (good_cells _ _ _ Hg) as (rest & Hb & _). unfold buffer, set_buffer in *.
  destruct (m_data v) as [b|] eqn:E; cbn; [|by apply moves_same]. split; unfold owns; rewrite E.
  - intros b' c Hn Hc. split; [|done]. rewrite lookup_insert_ne; [done|congruence].
  - intros b' Hb'. destruct (decide (b = b')) as [->|Hn]; [by left|]. rewrite lookup_insert_ne in Hb' by done.
    right. split; [congruence|done].
Qed.

Lemma good_set cells h v l l' rest :
  Good h v l -> cells = map Some l' ++ rest -> Z.of_nat (length cells) = m_capacity v ->
  Good (set_buffer cells h v).1 (set_size (Z.of_nat (length l')) (set_buffer cells h v).2) l'.
Proof.
  intros Hg -> Hlen. pose proof (buffer_set (map Some l' ++ rest) h v l Hg) as Hb.
  rewrite length_app, length_map in Hlen. pose proof (good_capacity _ _ _ Hg) as Hc.
  unfold set_buffer in *. destruct (m_data v) as [b|] eqn:E; cbn in *.
  - split; cbn; [apply Hg| | |done].
    + exists rest. split; [|lia]. unfold buffer in *. cbn. by rewrite E in *.
    + apply small_uint32. lia.
  - destruct (good_cells _ _ _ Hg) as (r0 & Hb0 & Hl0). unfold buffer in Hb0. rewrite E in Hb0. injection Hb0 as Hb0.
    split; cbn; [|exists rest; split; [done|lia]|apply small_uint32; lia|done].
    pose proof (good_inline _ _ _ Hg) as Hi. rewrite Hb0, length_app, length_map in Hi. rewrite length_app, length_map. lia.
Qed.

(** ** Storage *)

Lemma grow_spec n capacity wanted :
  0 < capacity < 2 ^ 32 -> wanted <= 2 ^ 31 -> wanted <= capacity * 2 ^ Z.of_nat n ->
  exists c, grow n capacity wanted = Ok c /\ wanted <= c /\ capacity <= c < 2 ^ 32.
Proof.
  revert capacity. induction n as [|n IH]; intros capacity Hc Hw Hn; cbn [grow].
  - destruct (Z.ltb_spec capacity wanted); [cbn in Hn; lia|]. exists capacity. by split_and!; try lia.
  - destruct (Z.ltb_spec capacity wanted) as [Hlt|]; [|exists capacity; by split_and!; try lia].
    assert (E : to_uint64 (capacity * 2) = capacity * 2) by (unfold wrapu; apply Z.mod_small; lia). rewrite E.
    rewrite Nat2Z.inj_succ, Z.pow_succ_r in Hn by lia.
    destruct (IH (capacity * 2) ltac:(lia) Hw ltac:(lia)) as (c & H1 & H2 & H3). exists c. split_and!; [done|lia|lia|lia].
Qed.

(** The outcome of an operation that may run out of memory. *)
Definition runs {A} (Q : A -> Prop) (o : outcome A) : Prop :=
  match o with Ok a => Q a | Throw e => e = bad_alloc end.

Lemma runs_then {A B} (Q : A -> Prop) (Q' : B -> Prop) o k :
  runs Q o -> (forall a, Q a -> runs Q' (k a)) -> runs Q' (obind o k).
Proof. destruct o as [a|e]; cbn; auto. Qed.

Definition Result (h : Heap) (v : Vec) (l : list T) (hv : Heap * Vec) : Prop := Good hv.1 hv.2 l /\ Moves h v hv.1 hv.2.

Lemma reserve_spec h v l wanted :
  Good h v l -> wanted <= 2 ^ 31 ->
  runs (fun hv => Result h v l hv /\ wanted <= m_capacity hv.2) (reserve malloc_succeeds h v wanted).
Proof.
  intros Hg Hw. unfold reserve. destruct (Z.leb_spec wanted (m_capacity v)) as [Hle|Hlt].
  { cbn. split; [split; [done|by apply moves_same]|done]. }
  pose proof (good_capacity _ _ _ Hg) as Hc. destruct (good_cells _ _ _ Hg) as (rest & Hb & Hlen).
  rewrite small_uint32 by lia.
  destruct (grow_spec 64 (m_capacity v * 2) wanted) as (c & Hgrow & Hwc & Hcc); [lia|lia|lia|].
  rewrite Hgrow. cbn [obind]. destruct (malloc_succeeds c); [|done]. cbn [negb]. set (block := fresh (dom h)).
  assert (Hfresh : h !! block = None) by (apply not_elem_of_dom, is_fresh).
  rewrite Hb. cbn [obind]. unfold memcpy, first_cells.
  rewrite (good_size _ _ _ Hg), length_app, length_map, length_replicate, Nat2Z.id.
  destruct (Z.leb_spec (Z.of_nat (length l)) (Z.of_nat (length l + length rest))); [|lia]. cbn [obind].
  destruct (Z.leb_spec (Z.of_nat (length l)) (Z.of_nat (Z.to_nat c))); [|lia]. cbn [obind].
  replace (take (length l) (map Some l ++ rest)) with (map Some l) by (by rewrite <- (length_map Some l), take_app_length).
  set (cells := map Some l ++ drop (length l) (replicate (Z.to_nat c) None)).
  assert (Hown : forall b, m_data v = Some b -> is_Some (h !! b) /\ b <> block).
  { intros b E. unfold buffer in Hb. rewrite E in Hb. destruct (h !! b) eqn:Eb; [|done]. split; [by eexists|]. congruence. }
  assert (Hrel : exists h', release (<[block := cells]> h) v = Ok h' /\ h' !! block = Some cells /\
    (forall b c, ~ owns v b -> h !! b = Some c -> h' !! b = Some c) /\
    (forall b, is_Some (h' !! b) -> b = block \/ (~ owns v b /\ is_Some (h !! b)))).
  { unfold release, owns. destruct (m_data v) as [b|] eqn:E.
    - destruct (Hown b eq_refl) as [[c' Hbc] Hne]. rewrite lookup_insert_ne, Hbc by done. eexists. split; [done|]. split_and!.
      + rewrite lookup_delete_ne by done. by rewrite lookup_insert_eq.
      + intros b' c'' Hn Hc'. rewrite lookup_delete_ne by congruence. rewrite lookup_insert_ne; [done|congruence].
      + intros b' Hb'. destruct (decide (b = b')) as [->|Hn]; [rewrite lookup_delete_eq in Hb'; by destruct Hb'|].
        rewrite lookup_delete_ne in Hb' by done. destruct (decide (block = b')) as [->|Hn']; [by left|].
        rewrite lookup_insert_ne in Hb' by done. right. split; [congruence|done].
    - eexists. split; [done|]. split_and!; [by rewrite lookup_insert_eq| |].
      + intros b' c'' _ Hc'. rewrite lookup_insert_ne; [done|congruence].
      + intros b' Hb'. destruct (decide (block = b')) as [->|Hn']; [by left|].
        rewrite lookup_insert_ne in Hb' by done. by right. }
  destruct Hrel as (h' & Hrel & Hblock & Hkeep & Honly). rewrite Hrel. cbn [obind runs].
  rewrite small_uint32 by lia. split; [|cbn; lia]. split; cbn.
  - split; cbn; [apply Hg| |done|lia]. exists (drop (length l) (replicate (Z.to_nat c) None)).
    unfold buffer. cbn. rewrite Hblock. split; [done|]. rewrite length_drop, length_replicate. lia.
  - split; unfold owns; cbn.
    + intros b c' Hn Hc'. split; [by apply Hkeep|]. intros [= ->]. congruence.
    + intros b Hb'. destruct (Honly b Hb') as [->|H']; [by left|by right].
Qed.

Lemma store_spec h v l index x :
  Good h v l -> (index <= length l)%nat -> Z.of_nat index < m_capacity v ->
  exists hv, store h v (Z.of_nat index) x = Ok hv /\ Moves h v hv.1 hv.2 /\ m_size hv.2 = m_size v /\
    m_capacity hv.2 = m_capacity v /\
    forall l' , l' = take index l ++ x :: drop (S index) l -> Good hv.1 (set_size (Z.of_nat (length l')) hv.2) l'.
Proof.
  intros Hg Hi Hc. destruct (good_cells _ _ _ Hg) as (rest & Hb & Hlen). unfold store. rewrite Hb. cbn [obind]. rewrite Nat2Z.id.
  rewrite decide_True by (rewrite length_app, length_map; lia).
  eexists. split; [done|]. split_and!.
  - by eapply moves_set.
  - unfold set_buffer. by destruct (m_data v).
  - unfold set_buffer. by destruct (m_data v).
  - intros l' ->. destruct (decide (index < length l)%nat) as [Hlt|Hge].
    + eapply (good_set _ h v l _ rest Hg).
      * rewrite insert_app_l by (rewrite length_map; lia). f_equal. rewrite insert_take_drop by (rewrite length_map; lia).
        by rewrite map_app, <- !fmap_take, <- fmap_drop.
      * rewrite length_insert, length_app, length_map. lia.
    + assert (index = length l) as -> by lia. rewrite take_ge, drop_ge by lia.
      destruct rest as [|r rest]; [cbn in Hlen; lia|]. eapply (good_set _ h v l _ rest Hg).
      * rewrite insert_app_r_alt by (rewrite length_map; lia). rewrite length_map, Nat.sub_diag. cbn.
        rewrite map_app, <- app_assoc. done.
      * rewrite length_insert, length_app, length_map. cbn in *. lia.
Qed.

(** ** Elements *)

Lemma set_size_of h v l : Good h v l -> set_size (Z.of_nat (length l)) v = v.
Proof.
  intros Hg. pose proof (good_capacity_ge _ _ _ Hg). destruct Hg as [_ _ E [_ Hc]]. destruct v. cbn in *.
  unfold set_size. cbn. subst. by rewrite small_uint32 by lia.
Qed.

Lemma set_size_twice a b v : set_size (T := T) a (set_size b v) = set_size a v.
Proof. done. Qed.

Lemma moves_size h v h' v' n : Moves h v h' v' -> Moves h v h' (set_size n v').
Proof. intros [K O]. by split. Qed.

(** One element behind the last. *)
Lemma append_spec h v l x :
  Good h v l -> m_size v < m_capacity v ->
  exists hv, store h v (m_size v) x = Ok hv /\ Result h v (l ++ [x]) (hv.1, set_size (m_size hv.2 + 1) hv.2).
Proof.
  intros Hg Hc. pose proof (good_size _ _ _ Hg) as Hs. rewrite Hs in *.
  destruct (store_spec h v l (length l) x Hg ltac:(lia) Hc) as (hv & E & Hm & Es & Ec & Hgood). exists hv. split; [done|].
  split; cbn; [|by apply moves_size]. specialize (Hgood (l ++ [x])). rewrite take_ge, drop_ge in Hgood by lia.
  specialize (Hgood eq_refl). rewrite length_app, Nat2Z.inj_add in Hgood. cbn in Hgood. by rewrite Es, Hs.
Qed.

Lemma result_trans h v l hv l' hv' :
  Result h v l hv -> Result hv.1 hv.2 l' hv' -> Result h v l' hv'.
Proof. intros [_ H1] [H2 H3]. split; [done|]. by eapply moves_trans. Qed.

Lemma push_back_spec h v l x :
  Good h v l -> Z.of_nat (length l) < 2 ^ 31 -> runs (Result h v (l ++ [x])) (push_back malloc_succeeds h v (Temp x)).
Proof.
  intros Hg Hl. unfold push_back. apply runs_then with (Q := fun hv => Result h v l hv /\ m_size hv.2 < m_capacity hv.2).
  - pose proof (good_size _ _ _ Hg). pose proof (good_capacity_ge _ _ _ Hg). destruct (Z.eqb_spec (m_size v) (m_capacity v)) as [Hfull|Hfull].
    + rewrite small_uint32 by lia.
      pose proof (reserve_spec h v l (m_size v + 1) Hg ltac:(lia)) as Hr. destruct (reserve _ _ _ _) as [hv|e]; [|done].
      destruct Hr as [[Hg' Hm] Hw]. split; [by split|]. rewrite (good_size _ _ _ Hg'). lia.
    + cbn. split; [split; [done|by apply moves_same]|lia].
  - intros [h1 v1] [Hr Hc]. cbn in *. destruct (append_spec h1 v1 l x (proj1 Hr) Hc) as ([h2 v2] & E & Hr2).
    rewrite E. cbn in *. eapply (result_trans _ _ _ (h1, v1)); [exact Hr|exact Hr2].
Qed.

Lemma push_all_spec values h v l :
  Good h v l -> Z.of_nat (length l + length values) <= m_capacity v ->
  runs (Result h v (l ++ values)) (push_all h v values).
Proof.
  revert h v l. induction values as [|x values IH]; intros h v l Hg Hc; cbn [push_all].
  { rewrite app_nil_r. split; [done|by apply moves_same]. }
  cbn in Hc. destruct (append_spec h v l x Hg) as (hv & E & Hr); [rewrite (good_size _ _ _ Hg); lia|]. rewrite E. cbn [obind].
  pose proof (store_spec h v l (length l) x Hg ltac:(lia) ltac:(lia)) as (hv' & E' & _ & _ & Ec & _).
  rewrite (good_size _ _ _ Hg), E' in E. injection E as <-.
  specialize (IH hv'.1 (set_size (m_size hv'.2 + 1) hv'.2) (l ++ [x]) (proj1 Hr)). rewrite <- app_assoc in IH. cbn in IH.
  rewrite length_app, Ec in IH. cbn in IH. specialize (IH ltac:(lia)). destruct (push_all _ _ values) as [r|e]; [|done].
  by eapply (result_trans _ _ (l ++ [x]) (_, _)).
Qed.

Lemma good_construct h : Good h (construct N) [].
Proof.
  split; cbn; [by rewrite length_replicate| |done|lia]. exists (replicate N None). rewrite length_replicate. split; [done|lia].
Qed.

Lemma of_list_spec h values :
  Z.of_nat (length values) <= 2 ^ 31 -> runs (Result h (construct N) values) (of_list N malloc_succeeds h values).
Proof.
  intros Hl. unfold of_list. eapply runs_then; [by apply reserve_spec; [apply good_construct|]|]. intros [h1 v1] [Hr Hc]. cbn in *.
  pose proof (push_all_spec values h1 v1 [] (proj1 Hr) Hc) as Hp. destruct (push_all h1 v1 values); [|done].
  by eapply (result_trans _ _ [] (h1, v1)).
Qed.

Lemma fill_spec n h v l :
  Good h v l -> Z.of_nat (length l + n) <= m_capacity v ->
  runs (fun hv => Moves h v hv.1 hv.2 /\
    Good hv.1 (set_size (Z.of_nat (length l + n)) hv.2) (l ++ replicate n T0)) (fill T0 n h v (m_size v)).
Proof.
  intros Hg. enough (H : forall k h0 v0, Good h0 (set_size (Z.of_nat (length l + k)) v0) (l ++ replicate k T0) ->
      Moves h v h0 v0 -> Z.of_nat (length l + k + n) <= m_capacity v0 ->
      runs (fun hv => Moves h v hv.1 hv.2 /\
        Good hv.1 (set_size (Z.of_nat (length l + (k + n))) hv.2) (l ++ replicate (k + n) T0))
        (fill T0 n h0 v0 (Z.of_nat (length l + k)))).
  { intros Hc. rewrite (good_size _ _ _ Hg). specialize (H 0%nat h v). rewrite !Nat.add_0_r in H. cbn in H. apply H.
    - rewrite app_nil_r. by rewrite (set_size_of _ _ _ Hg).
    - by apply moves_same.
    - done. }
  clear Hg. induction n as [|n IH]; intros k h0 v0 Hg Hm Hc; cbn [fill].
  { rewrite Nat.add_0_r. by split. }
  set (l0 := l ++ replicate k T0) in *.
  assert (Hl0 : length l0 = (length l + k)%nat) by (unfold l0; by rewrite length_app, length_replicate).
  destruct (store_spec h0 (set_size (Z.of_nat (length l + k)) v0) l0 (length l0) T0 Hg ltac:(lia)) as (hv & E & Hm' & _ & Ec & Hgood).
  { cbn. lia. }
  assert (E0 : exists hv0, store h0 v0 (Z.of_nat (length l + k)) T0 = Ok hv0 /\ hv0.1 = hv.1 /\
    hv.2 = set_size (Z.of_nat (length l + k)) hv0.2 /\ Moves h0 v0 hv0.1 hv0.2).
  { rewrite Hl0 in E. unfold store in *. change (buffer h0 (set_size _ v0)) with (buffer h0 v0) in E.
    destruct (buffer h0 v0) as [cells|]; [|done]. cbn [obind] in *. destruct (decide _); [|done]. eexists. split; [done|].
    injection E as <-. destruct Hm' as [K O]. unfold set_buffer in *. cbn in *. by destruct (m_data v0). }
  destruct E0 as (hv0 & -> & E1 & E2 & Hm0). cbn [obind].
  replace (Z.of_nat (length l + k) + 1) with (Z.of_nat (length l + S k)) by lia.
  specialize (IH (S k) hv0.1 hv0.2). replace (k + S n)%nat with (S k + n)%nat by lia. apply IH.
  - specialize (Hgood (l ++ replicate (S k) T0)). rewrite E1, E2 in Hgood || rewrite <- E1, E2 in Hgood.
    rewrite set_size_twice, length_app, length_replicate in Hgood. apply Hgood.
    rewrite take_ge, drop_ge by lia. unfold l0. rewrite <- app_assoc. f_equal. by rewrite <- replicate_cons_app.
  - by eapply moves_trans.
  - rewrite E2 in Ec. cbn in Ec. rewrite Ec. lia.
Qed.

(** [resize] cuts or fills up. *)
Lemma good_cut h v l n : Good h v l -> (n <= length l)%nat -> Good h (set_size (Z.of_nat n) v) (take n l).
Proof.
  intros Hg Hn. pose proof (good_capacity_ge _ _ _ Hg). pose proof (good_capacity _ _ _ Hg) as Hc.
  destruct (good_cells _ _ _ Hg) as (rest & Hb & Hlen). split; [apply Hg| | |done].
  - exists (map Some (drop n l) ++ rest). change (buffer h (set_size _ v)) with (buffer h v). rewrite Hb, app_assoc, <- map_app, take_drop.
    split; [done|]. cbn. rewrite length_app, length_map, length_take, length_drop. lia.
  - cbn. rewrite small_uint32, length_take by lia. lia.
Qed.

Lemma resize_spec h v l count :
  Good h v l -> 0 <= count <= longest ->
  runs (Result h v (list.resize (Z.to_nat count) T0 l)) (SmallVector.resize T0 malloc_succeeds h v count).
Proof.
  intros Hg Hc. unfold SmallVector.resize. eapply runs_then; [by apply reserve_spec; [|apply Hc]|].
  intros [h1 v1] [[Hg1 Hm1] Hw]. cbn [fst snd] in *. pose proof (good_size _ _ _ Hg1) as Hs.
  destruct (decide (Z.to_nat count <= length l)%nat) as [Hle|Hgt].
  - rewrite resize_le by done. replace (Z.to_nat (count - m_size v1)) with 0%nat by lia. cbn. split; cbn; [|by apply moves_size].
    rewrite <- (Z2Nat.id count) at 1 by lia. by apply good_cut.
  - rewrite resize_ge by lia. set (n := Z.to_nat (count - m_size v1)).
    replace (Z.to_nat count - length l)%nat with n by lia.
    eapply runs_then; [apply (fill_spec n h1 v1 l Hg1); lia|]. intros [h2 v2] [Hm2 Hg2]. cbn [fst snd] in *.
    replace (Z.of_nat (length l + n)) with count in Hg2 by lia. split; cbn; [done|]. apply moves_size. by eapply moves_trans.
Qed.

Lemma buffer_moves h v h' v' w l :
  Good h w l -> Moves h v h' v' -> (forall b, owns w b -> ~ owns v b) -> buffer h' w = buffer h w.
Proof.
  intros Hg [K _] Hd. destruct (good_cells _ _ _ Hg) as (rest & Hb & _). unfold buffer in *. destruct (m_data w) as [b|] eqn:E; [|done].
  destruct (h !! b) as [c|] eqn:Ec; [|done]. by destruct (K b c (Hd b E) Ec) as [-> _].
Qed.

Lemma good_moves h v h' v' w l :
  Good h w l -> Moves h v h' v' -> (forall b, owns w b -> ~ owns v b) -> Good h' w l.
Proof. intros Hg Hm Hd. pose proof (buffer_moves _ _ _ _ _ _ Hg Hm Hd) as E. destruct Hg. split; try done. by rewrite E. Qed.

Lemma moves_disjoint h v h' v' w l :
  Good h w l -> Moves h v h' v' -> (forall b, owns w b -> ~ owns v b) -> forall b, owns w b -> ~ owns v' b.
Proof.
  intros Hg [K _] Hd b Hb. destruct (good_cells _ _ _ Hg) as (rest & E & _). unfold buffer in E. unfold owns in Hb. rewrite Hb in E.
  destruct (h !! b) as [c|] eqn:Ec; [|done]. by apply (K b c (Hd b Hb) Ec).
Qed.

Lemma assign_spec h v l other l' :
  Good h v l -> Good h other l' -> (forall b, owns other b -> ~ owns v b) -> Z.of_nat (length l') <= longest ->
  runs (Result h v l') (assign malloc_succeeds h v (fun h => buffer h other) (m_size other)).
Proof.
  intros Hg Ho Hd Hl. unfold assign. pose proof (good_size _ _ _ Ho) as Hs. rewrite Hs.
  eapply runs_then; [by apply reserve_spec|]. intros [h1 v1] [[Hg1 Hm1] Hw]. cbn [fst snd] in *.
  rewrite (buffer_moves _ _ _ _ _ _ Ho Hm1 Hd). destruct (good_cells _ _ _ Ho) as (ro & -> & Hlo).
  destruct (good_cells _ _ _ Hg1) as (r1 & -> & Hl1). cbn [obind]. unfold memcpy, first_cells.
  rewrite !length_app, !length_map, Nat2Z.id. destruct (Z.leb_spec (Z.of_nat (length l')) (Z.of_nat (length l' + length ro))); [|lia].
  cbn [obind]. destruct (Z.leb_spec (Z.of_nat (length l')) (Z.of_nat (length l + length r1))); [|lia]. cbn [obind].
  replace (take (length l') (map Some l' ++ ro)) with (map Some l') by (by rewrite <- (length_map Some l'), take_app_length).
  pose proof (good_set (map Some l' ++ drop (length l') (map Some l ++ r1)) h1 v1 l l' _ Hg1 eq_refl) as Hg2.
  pose proof (moves_set (map Some l' ++ drop (length l') (map Some l ++ r1)) h1 v1 l Hg1) as Hm2.
  destruct (set_buffer _ h1 v1) as [h2 v2]. cbn in *. split; cbn.
  - apply Hg2. rewrite length_app, length_drop, length_app, !length_map. lia.
  - apply moves_size. by eapply moves_trans.
Qed.

(** [steal] moves the elements out of [other] into a vector without a block. *)
Lemma steal_spec h v other l :
  m_data v = None -> m_capacity v = Z.of_nat N -> length (m_inline v) = N -> Good h other l ->
  exists moved, steal N h v other = Ok moved /\ Good h moved.1 l /\ Good h moved.2 [] /\
    m_data moved.1 = m_data other /\ m_data moved.2 = None.
Proof.
  intros Hv Hcv Hiv Hg. destruct (good_cells _ _ _ Hg) as (rest & Hb & Hlen). pose proof (good_size _ _ _ Hg) as Hs.
  pose proof (good_capacity _ _ _ Hg) as Hc. pose proof (good_inline _ _ _ Hg) as Hi. unfold steal. unfold buffer in Hb.
  destruct (m_data other) as [b|] eqn:E.
  - cbn [obind]. eexists. split; [done|]. cbn. split_and!; [|split; cbn; [done| |done|lia]|done|done].
    + split; cbn; [done| |done|done]. exists rest. unfold buffer. cbn. by split.
    + exists (m_inline other). unfold buffer. cbn. split; [done|lia].
  - injection Hb as Hb. unfold memcpy, first_cells. rewrite Hs, Nat2Z.id.
    assert (Hll : length (m_inline other) = (length l + length rest)%nat) by (by rewrite Hb, length_app, length_map).
    destruct (Z.leb_spec (Z.of_nat (length l)) (Z.of_nat (length (m_inline other)))); [|lia]. cbn [obind].
    destruct (Z.leb_spec (Z.of_nat (length l)) (Z.of_nat (length (m_inline v)))); [|lia]. cbn [obind].
    eexists. split; [done|]. cbn. rewrite Hv, E, Hcv. split_and!; [| |done|done].
    + rewrite Hb. replace (take (length l) (map Some l ++ rest)) with (map Some l) by (by rewrite <- (length_map Some l), take_app_length).
      split; cbn; [rewrite length_app, length_map, length_drop; lia| |lia|lia].
      eexists. unfold buffer. cbn. split; [done|]. rewrite length_drop. lia.
    + split; cbn; [done| |done|lia]. exists (m_inline other). unfold buffer. cbn. rewrite E. split; [done|lia].
Qed.

(** ** Named vectors *)

(** The vectors hold their lists, share no block, and hold every block there is. *)
Record Rep (s : State) (A : gmap nat (list T)) : Prop := {
  rep_dom : dom (vecs s) = dom A;
  rep_good : forall x v l, vecs s !! x = Some v -> A !! x = Some l -> Good (heap s) v l /\ Z.of_nat (length l) <= longest;
  rep_apart : forall x y v w b, vecs s !! x = Some v -> vecs s !! y = Some w -> owns v b -> owns w b -> x = y;
  rep_owned : forall b, is_Some (heap s !! b) -> exists x v, vecs s !! x = Some v /\ owns v b
}.

Lemma rep_vec s A x l :
  Rep s A -> A !! x = Some l ->
  exists v, vec s x = Ok v /\ vecs s !! x = Some v /\ Good (heap s) v l /\ Z.of_nat (length l) <= longest.
Proof.
  intros HR E. assert (Hd : x ∈ dom (vecs s)) by (rewrite (rep_dom _ _ HR); by apply elem_of_dom_2 in E).
  apply elem_of_dom in Hd as [v Hv]. exists v. unfold vec. rewrite Hv. split; [done|]. split; [done|]. by apply (rep_good _ _ HR x).
Qed.

Lemma rep_unused s A x : Rep s A -> A !! x = None -> vecs s !! x = None.
Proof. intros HR E. apply not_elem_of_dom. rewrite (rep_dom _ _ HR). by apply not_elem_of_dom. Qed.

(** The vector an operation works on: [x]'s, or one under construction. *)
Definition target (s : State) (x : nat) (v : Vec) : Prop :=
  vecs s !! x = Some v \/ (vecs s !! x = None /\ m_data v = None).

Lemma target_apart s A x y v w :
  Rep s A -> target s x v -> vecs s !! y = Some w -> x <> y -> forall b, owns w b -> ~ owns v b.
Proof.
  intros HR [Hx|[_ Hx]] Hy Hn b Hw Hv; [|unfold owns in Hv; congruence]. exact (Hn (rep_apart _ _ HR _ _ _ _ _ Hx Hy Hv Hw)).
Qed.

Lemma rep_update s A x v l hv :
  Rep s A -> target s x v -> Result (heap s) v l hv -> Z.of_nat (length l) <= longest ->
  Rep (mkState hv.1 (<[x := hv.2]> (vecs s))) (<[x := l]> A).
Proof.
  intros HR Ht [Hg Hm] Hl. destruct hv as [h' v']. cbn in *. split; cbn.
  - by rewrite !dom_insert_L, (rep_dom _ _ HR).
  - intros y w l'. destruct (decide (x = y)) as [<-|Hn].
    + rewrite !lookup_insert_eq. by intros [= <-] [= <-].
    + rewrite !lookup_insert_ne by done. intros Hy HA. destruct (rep_good _ _ HR y w l' Hy HA) as [Hgy ?]. split; [|done].
      eapply good_moves; [done..|]. by eapply target_apart.
  - assert (Hap : forall y w, y <> x -> vecs s !! y = Some w -> forall b, owns w b -> ~ owns v' b).
    { intros y w Hn Hy. assert (is_Some (A !! y)) as [l' Hl'].
      { apply elem_of_dom. rewrite <- (rep_dom _ _ HR). by apply elem_of_dom_2 in Hy. }
      eapply moves_disjoint; [by apply (rep_good _ _ HR y w l')|done|]. by eapply target_apart. }
    intros y z w w' b Hy Hz Hb Hb'. destruct (decide (x = y)) as [<-|Hny], (decide (x = z)) as [<-|Hnz]; [done|..].
    + rewrite lookup_insert_eq in Hy. rewrite lookup_insert_ne in Hz by done. injection Hy as <-. by destruct (Hap z w' ltac:(done) Hz b).
    + rewrite lookup_insert_eq in Hz. rewrite lookup_insert_ne in Hy by done. injection Hz as <-. by destruct (Hap y w ltac:(done) Hy b).
    + rewrite lookup_insert_ne in Hy, Hz by done. by apply (rep_apart _ _ HR y z w w' b).
  - intros b Hb. destruct (moves_only _ _ _ _ Hm b Hb) as [Ho|[Hn Hold]]; [exists x, v'; by rewrite lookup_insert_eq|].
    destruct (rep_owned _ _ HR b Hold) as (y & w & Hy & Hw). exists y, w. rewrite lookup_insert_ne; [done|].
    intros <-. destruct Ht as [Ht|[Ht _]]; congruence.
Qed.

(** Every operation on one vector is done through this. *)
Lemma update_spec s A x v l o :
  Rep s A -> target s x v -> runs (Result (heap s) v l) o -> Z.of_nat (length l) <= longest ->
  runs (fun s' => Rep s' (<[x := l]> A)) (update x s o).
Proof. intros HR Ht Ho Hl. eapply runs_then; [done|]. intros hv Hr. cbn. by eapply rep_update. Qed.

Lemma target_of s x v : vecs s !! x = Some v -> target s x v.
Proof. by left. Qed.

Lemma target_new s A x : Rep s A -> A !! x = None -> target s x (construct N).
Proof. intros HR E. right. split; [by eapply rep_unused|done]. Qed.

Lemma result_same h v l : Good h v l -> Result h v l (h, v).
Proof. intros Hg. split; [done|by apply moves_same]. Qed.

Lemma rep_start : Rep (mkState ∅ ∅) ∅.
Proof. split; cbn; [by rewrite !dom_empty_L|done..|]. intros b [c Hc]. by rewrite lookup_empty in Hc. Qed.

(** A vector is destroyed: its block goes with it. *)
Lemma rep_release s A x v :
  Rep s A -> vecs s !! x = Some v ->
  exists h, release (heap s) v = Ok h /\ Rep (mkState h (delete x (vecs s))) (delete x A).
Proof.
  intros HR Hx. assert (is_Some (A !! x)) as [l Hl].
  { apply elem_of_dom. rewrite <- (rep_dom _ _ HR). by apply elem_of_dom_2 in Hx. }
  destruct (rep_good _ _ HR x v l Hx Hl) as [Hg _]. destruct (good_cells _ _ _ Hg) as (rest & Hb & _).
  assert (Hrel : exists h, release (heap s) v = Ok h /\ Moves (heap s) v h (construct N)).
  { unfold release, buffer in *. destruct (m_data v) as [b|] eqn:E; [|exists (heap s); split; [done|by apply moves_same]].
    destruct (heap s !! b); [|done]. eexists. split; [done|]. split; unfold owns; rewrite E.
    - intros b' c' Hn Hc. rewrite lookup_delete_ne by congruence. by split.
    - intros b' Hb'. right. destruct (decide (b = b')) as [->|Hn]; [rewrite lookup_delete_eq in Hb'; by destruct Hb'|].
      rewrite lookup_delete_ne in Hb' by done. split; [congruence|done]. }
  destruct Hrel as (h & Hrel & Hm). exists h. split; [done|]. split; cbn.
  - by rewrite !dom_delete_L, (rep_dom _ _ HR).
  - intros y w l' Hy HA. apply lookup_delete_Some in Hy as [Hn Hy]. apply lookup_delete_Some in HA as [_ HA].
    destruct (rep_good _ _ HR y w l' Hy HA) as [Hgy ?]. split; [|done]. eapply good_moves; [done..|].
    by eapply target_apart; [|apply target_of| |].
  - intros y z w w' b Hy Hz. apply lookup_delete_Some in Hy as [_ Hy]. apply lookup_delete_Some in Hz as [_ Hz]. by apply (rep_apart _ _ HR).
  - intros b Hb'. destruct (moves_only _ _ _ _ Hm b Hb') as [Ho|[Hn Hold]]; [done|].
    destruct (rep_owned _ _ HR b Hold) as (y & w & Hy & Hw). exists y, w. rewrite lookup_delete_ne; [done|]. congruence.
Qed.

(** The elements of [y] go to a new [x], with their block. *)
Lemma rep_steal s A x y v l :
  Rep s A -> vecs s !! x = None -> m_data v = None -> m_capacity v = Z.of_nat N -> length (m_inline v) = N -> A !! y = Some l ->
  exists other moved, vecs s !! y = Some other /\ steal N (heap s) v other = Ok moved /\
    Rep (mkState (heap s) (<[x := moved.1]> (<[y := moved.2]> (vecs s)))) (<[x := l]> (<[y := []]> A)).
Proof.
  intros HR Hx Hv Hc Hi Hl. destruct (rep_vec s A y l HR Hl) as (other & _ & Hy & Hg & Hll).
  destruct (steal_spec (heap s) v other l Hv Hc Hi Hg) as (moved & E & Hg1 & Hg2 & Hd1 & Hd2).
  exists other, moved. split; [done|]. split; [done|]. assert (Hn : x <> y) by congruence.
  assert (Howns : forall z w b, <[x := moved.1]> (<[y := moved.2]> (vecs s)) !! z = Some w -> owns w b ->
    exists w', vecs s !! (if decide (z = x) then y else z) = Some w' /\ owns w' b /\ z <> y).
  { intros z w b. rewrite !lookup_insert_Some. unfold owns. intros [[<- <-]|[Hz [[<- <-]|[Hz' Hw]]]] Hb.
    - rewrite decide_True by done. exists other. split; [done|]. split; [congruence|done].
    - congruence.
    - rewrite decide_False by done. exists w. by split_and!. }
  split; cbn.
  - by rewrite !dom_insert_L, (rep_dom _ _ HR).
  - intros z w l'. rewrite !lookup_insert_Some. intros [[<- <-]|[Hz [[<- <-]|[Hz' Hw]]]] [[Ez <-]|[Ez [[Ez' <-]|[Ez' HA]]]]; try congruence.
    + by split.
    + by split.
    + by apply (rep_good _ _ HR z).
  - intros z1 z2 w1 w2 b H1 H2 Hb1 Hb2. destruct (Howns z1 w1 b H1 Hb1) as (w1' & K1 & O1 & N1).
    destruct (Howns z2 w2 b H2 Hb2) as (w2' & K2 & O2 & N2). pose proof (rep_apart _ _ HR _ _ _ _ b K1 K2 O1 O2) as Heq.
    destruct (decide (z1 = x)), (decide (z2 = x)); congruence.
  - intros b Hb. destruct (rep_owned _ _ HR b Hb) as (z & w & Hz & Hw). destruct (decide (z = y)) as [->|Hzy].
    + exists x, moved.1. rewrite lookup_insert_eq. split; [done|]. unfold owns in *. congruence.
    + exists z, w. rewrite !lookup_insert_ne by congruence. by split.
Qed.

(** ** One call *)

Abbreviation step := (step N T0 malloc_succeeds).
Abbreviation spec := (spec T0).

Definition steps_to (s : State) (op : Op) (A' : gmap nat (list T)) : Prop := runs (fun s' => Rep s' A') (step s op).

Lemma short_spec z : (0 <=? z) && (z <=? longest) = true <-> 0 <= z <= longest.
Proof. rewrite andb_true_iff, !Z.leb_le. done. Qed.

Lemma step_new s A x : Rep s A -> A !! x = None -> steps_to s (New x) (<[x := []]> A).
Proof.
  intros HR E. eapply update_spec; [done|by eapply target_new| |done]. cbn. apply result_same, good_construct.
Qed.

Lemma step_copy s A x y l :
  Rep s A -> A !! x = None -> A !! y = Some l -> steps_to s (NewCopy x y) (<[x := l]> A).
Proof.
  intros HR E Hl. destruct (rep_vec s A y l HR Hl) as (w & Ev & Hw & Hgw & Hll). unfold steps_to. cbn. rewrite Ev. cbn [obind].
  eapply update_spec; [done|by eapply target_new| |done]. eapply assign_spec; [apply good_construct|done| |done]. done.
Qed.

Lemma step_copy_assign s A x y lx l :
  Rep s A -> A !! x = Some lx -> A !! y = Some l -> steps_to s (CopyAssign x y) (<[x := l]> A).
Proof.
  intros HR Hx Hl. unfold steps_to. cbn. destruct (decide (x = y)) as [<-|Hn].
  - cbn. by rewrite insert_id.
  - destruct (rep_vec s A y l HR Hl) as (w & Ev & Hw & Hgw & Hll). destruct (rep_vec s A x lx HR Hx) as (v & Ex & Hv & Hgv & _).
    rewrite Ex, Ev. cbn [obind]. eapply update_spec; [done|by apply target_of| |done]. eapply assign_spec; [done..| |done].
    by eapply target_apart; [|apply target_of| |].
Qed.

Lemma step_move s A x y l :
  Rep s A -> A !! x = None -> A !! y = Some l -> steps_to s (NewMove x y) (<[x := l]> (<[y := []]> A)).
Proof.
  intros HR E Hl. destruct (rep_steal s A x y (construct N) l HR) as (w & moved & Hw & Es & HR'); try done.
  { by eapply rep_unused. } { cbn. by rewrite length_replicate. }
  unfold steps_to. cbn. unfold vec. rewrite Hw. cbn [obind of_option]. by rewrite Es.
Qed.

Lemma step_move_assign s A x y lx l :
  Rep s A -> A !! x = Some lx -> A !! y = Some l -> x <> y -> steps_to s (MoveAssign x y) (<[x := l]> (<[y := []]> A)).
Proof.
  intros HR Hx Hl Hn. destruct (rep_vec s A x lx HR Hx) as (v & Ex & Hv & Hgv & _).
  destruct (rep_release s A x v HR Hv) as (h & Hrel & HR1).
  destruct (rep_steal _ _ x y (mkVec (m_inline v) None (m_size v) (Z.of_nat N)) l HR1) as (w & moved & Hw & Es & HR2); try done.
  { cbn. by rewrite lookup_delete_eq. } { cbn. apply Hgv. } { by rewrite lookup_delete_ne. }
  cbn in *. rewrite lookup_delete_ne in Hw by done. unfold steps_to. cbn. rewrite decide_False by done. rewrite Ex. cbn [obind].
  unfold vec. rewrite Hw. cbn [obind of_option]. rewrite Hrel. cbn [obind]. rewrite Es. cbn.
  by rewrite <- !(delete_insert_ne _ _ y), !insert_delete_eq in HR2 by done.
Qed.

(** The operations on one vector. *)
Lemma step_one s A x l l' (f : Vec -> outcome (Heap * Vec)) :
  Rep s A -> A !! x = Some l -> Z.of_nat (length l') <= longest ->
  (forall v, Good (heap s) v l -> runs (Result (heap s) v l') (f v)) ->
  runs (fun s' => Rep s' (<[x := l']> A)) (let? v := vec s x in update x s (f v)).
Proof.
  intros HR Hx Hl Hf. destruct (rep_vec s A x l HR Hx) as (v & Ex & Hv & Hgv & _). rewrite Ex. cbn [obind].
  eapply update_spec; [done|by apply target_of|by apply Hf|done].
Qed.

Lemma cut_result h v l n : Good h v l -> (n <= length l)%nat -> Result h v (take n l) (h, set_size (Z.of_nat n) v).
Proof. intros Hg Hn. split; cbn; [by apply good_cut|by apply moves_same]. Qed.

Lemma set_result h v l index x :
  Good h v l -> (index < length l)%nat -> runs (Result h v (<[index := x]> l)) (store h v (Z.of_nat index) x).
Proof.
  intros Hg Hi. pose proof (good_capacity_ge _ _ _ Hg).
  destruct (store_spec h v l index x Hg ltac:(lia) ltac:(lia)) as (hv & E & Hm & Es & _ & Hgood). rewrite E. cbn. split; [|done].
  specialize (Hgood (<[index := x]> l)). rewrite length_insert, <- (good_size _ _ _ Hg), <- Es in Hgood.
  replace (set_size (m_size hv.2) hv.2) with hv.2 in Hgood; [by apply Hgood, insert_take_drop|].
  pose proof (good_size _ _ _ Hg) as Hsize. pose proof (good_capacity _ _ _ Hg). destruct hv as [h' [a b c d]]. unfold set_size. cbn in *.
  by rewrite small_uint32 by lia.
Qed.

Lemma step_spec s A op A' : Rep s A -> spec A op = Some A' -> steps_to s op A'.
Proof.
  intros HR. destruct op as [x|x values|x y|x y|x y|x y|x value|x|x|x count|x count|x index value|x]; cbn [SmallVector.spec].
  - case_bool_decide as E; [|done]. intros [= <-]. by apply step_new.
  - destruct (bool_decide_reflect (A !! x = None)) as [E|]; [|done]. cbn [andb]. destruct (_ && _) eqn:Hl; [|done].
    apply short_spec in Hl. intros [= <-]. eapply update_spec; [done|by eapply target_new|apply of_list_spec, Hl|by apply Hl].
  - case_bool_decide as E; [|done]. destruct (A !! y) as [l|] eqn:Hl; [|done]. intros [= <-]. by apply step_copy.
  - case_bool_decide as E; [|done]. destruct (A !! y) as [l|] eqn:Hl; [|done]. intros [= <-]. by apply step_move.
  - destruct (A !! x) as [lx|] eqn:Hx; [|done]. destruct (A !! y) as [l|] eqn:Hl; [|done]. intros [= <-]. by eapply step_copy_assign.
  - destruct (A !! x) as [lx|] eqn:Hx; [|done]. destruct (A !! y) as [l|] eqn:Hl; [|done]. cbn.
    destruct (decide (x = y)) as [<-|Hn]; intros [= <-]; [|by eapply step_move_assign]. unfold steps_to. cbn. by rewrite decide_True.
  - destruct (A !! x) as [l|] eqn:Hx; [|done]. cbn. destruct (Z.ltb_spec (Z.of_nat (length l)) longest); [|done]. intros [= <-].
    eapply step_one; [done..| |]; [rewrite length_app; cbn -[longest]; lia|]. intros v Hg. by apply push_back_spec.
  - destruct (A !! x) as [l|] eqn:Hx; [|done]. cbn. destruct (rep_vec s A x l HR Hx) as (_ & _ & _ & _ & Hl).
    destruct l as [|a l0] eqn:El; [done|]. rewrite <- El in *. intros [= <-].
    eapply step_one; [done..| |]; [rewrite length_take; lia|]. intros v Hg. cbn. unfold pop_back. rewrite (good_size _ _ _ Hg).
    replace (Z.of_nat (length l) - 1) with (Z.of_nat (length l - 1)) by (rewrite El; cbn; lia). apply cut_result; [done|lia].
  - destruct (A !! x) as [l|] eqn:Hx; [|done]. intros [= <-]. eapply step_one; [done..| |]; [done|]. intros v Hg. cbn.
    by apply (cut_result _ _ l 0); [|lia].
  - destruct (A !! x) as [l|] eqn:Hx; [|done]. cbn -[longest]. destruct (_ && _) eqn:Hl; [|done]. apply short_spec in Hl. intros [= <-].
    eapply step_one; [done..| |]; [rewrite length_resize; lia|]. intros v Hg. by apply resize_spec.
  - destruct (A !! x) as [l|] eqn:Hx; [|done]. cbn -[longest]. destruct (_ && _) eqn:Hs; [|done]. apply short_spec in Hs. intros [= <-].
    rewrite <- (insert_id A x l) by done. destruct (rep_vec s A x l HR Hx) as (_ & _ & _ & _ & Hl). eapply step_one; [done..|].
    intros v Hg. pose proof (reserve_spec (heap s) v l count Hg ltac:(apply Hs)) as Hr.
    destruct (reserve _ _ _ _); [|done]. apply Hr.
  - destruct (A !! x) as [l|] eqn:Hx; [|done]. cbn. destruct (decide (index < length l)%nat) as [Hi|]; [|done]. intros [= <-].
    destruct (rep_vec s A x l HR Hx) as (_ & _ & _ & _ & Hl).
    eapply step_one; [done..| |]; [by rewrite length_insert|]. intros v Hg. by apply set_result.
  - destruct (A !! x) as [l|] eqn:Hx; [|done]. intros [= <-]. destruct (rep_vec s A x l HR Hx) as (v & Ex & Hv & _).
    destruct (rep_release s A x v HR Hv) as (h & Hrel & HR1). unfold steps_to. cbn. rewrite Ex. cbn [obind]. by rewrite Hrel.
Qed.

(** ** A run of calls *)

Lemma specs_cons A op ops A' : specs T0 A (op :: ops) = Some A' -> exists A1, spec A op = Some A1 /\ specs T0 A1 ops = Some A'.
Proof.
  unfold specs. cbn [foldl]. change (Some A ≫= (fun A => spec A op)) with (spec A op). destruct (spec A op) as [A1|]; [by eauto|].
  intros H. exfalso. revert H. induction ops as [|op' ops IH]; [done|]. exact IH.
Qed.

Lemma run_spec ops s A A' : Rep s A -> specs T0 A ops = Some A' -> runs (fun s' => Rep s' A') (run N T0 malloc_succeeds s ops).
Proof.
  revert s A. induction ops as [|op ops IH]; intros s A HR H; [cbn in H; by injection H as <-|].
  apply specs_cons in H as (A1 & H1 & H). unfold run. cbn [foldM]. eapply runs_then; [by eapply step_spec|].
  intros s' HR'. exact (IH s' A1 HR' H).
Qed.

Lemma rep_element s A x l index :
  Rep s A -> A !! x = Some l -> 0 <= index ->
  element s x index = match l !! Z.to_nat index with Some a => Ok a | None => Throw out_of_range end.
Proof.
  intros HR Hx Hi. destruct (rep_vec s A x l HR Hx) as (v & Ex & _ & Hg & _). unfold element. rewrite Ex. cbn [obind]. unfold at_.
  rewrite (good_size _ _ _ Hg). destruct (Z.leb_spec (Z.of_nat (length l)) index) as [Hle|Hlt].
  - by rewrite (lookup_ge_None_2 l) by lia.
  - destruct (lookup_lt_is_Some_2 l (Z.to_nat index)) as [a Ha]; [lia|]. rewrite Ha. unfold cell_at.
    destruct (good_cells _ _ _ Hg) as (rest & -> & _). cbn [obind].
    rewrite lookup_app_l by (rewrite length_map; lia). by rewrite list_lookup_fmap, Ha.
Qed.

Lemma rep_no_leak s : Rep s ∅ -> heap s = ∅.
Proof.
  intros HR. apply map_eq. intros b. rewrite lookup_empty. apply eq_None_not_Some. intros Hb.
  destruct (rep_owned _ _ HR b Hb) as (x & v & Hx & _). apply elem_of_dom_2 in Hx. rewrite (rep_dom _ _ HR) in Hx. set_solver.
Qed.

End Facts.

(** C33: a run of calls the program may make either meets a failing [malloc] with
    [bad_alloc], or goes through with no undefined behaviour and no endless loop.
    Every live vector then answers [at] as the list the specification has for it, and
    when the last vector is destroyed no block is left. *)
Theorem small_vector_refines {T : Type} (N : nat) (T0 : T) (malloc_succeeds : Z -> bool) ops A :
  (0 < N)%nat -> Z.of_nat N < 2 ^ 32 -> specs T0 ∅ ops = Some A ->
  match run N T0 malloc_succeeds (mkState ∅ ∅) ops with
  | Ok s =>
      (forall x l index, A !! x = Some l -> 0 <= index ->
        element s x index = match l !! Z.to_nat index with Some a => Ok a | None => Throw out_of_range end) /\
      (A = ∅ -> heap s = ∅)
  | Throw e => e = bad_alloc
  end.
Proof.
  intros HN HN32 H. pose proof (run_spec N T0 malloc_succeeds HN HN32 ops _ _ _ (rep_start N) H) as Hr.
  destruct (run _ _ _ _ _) as [s|e]; [|done]. cbn in Hr. split; [|intros ->; by eapply rep_no_leak].
  intros x l index Hx Hi. by eapply rep_element.
Qed.

(** Two inline elements: a vector grows onto the heap, is copied, cut and moved. *)
Definition ops : list (Op (T := nat)) :=
  [NewList 0 [1; 2]; PushBack 0 3; NewCopy 1 0; PopBack 1; Resize 1 5; New 2; MoveAssign 2 0; Set_ 2 0 9; CopyAssign 0 2; MoveAssign 1 2]%nat.

Lemma small_vector_refines_witness :
  match run 2 0%nat (fun _ => true) (mkState ∅ ∅) ops with
  | Ok s => element s 1 0 = Ok 9%nat /\ element s 1 3 = Throw out_of_range
  | Throw e => e = bad_alloc
  end.
Proof.
  pose proof (small_vector_refines 2 0%nat (fun _ => true) ops
    (<[0 := [9; 2; 3]]> (<[1 := [9; 2; 3]]> (<[2 := []]> ∅)))%nat ltac:(lia) ltac:(lia) ltac:(by vm_compute)) as H.
  destruct (run _ _ _ _ _); [|exact H]. destruct H as [H _]. split; by rewrite (H 1%nat _ _ eq_refl).
Defined.

Example no_bad_alloc : (let? s := run 2 0%nat (fun _ => true) (mkState ∅ ∅) ops in element s 1 2) = Ok 3%nat.
Proof. by vm_compute. Qed.

(** [v.push_back(v[index])] *)
Definition push_own (values : list nat) (index : nat) : outcome nat :=
  let? hv := of_list 2 (fun _ => true) ∅ values in
  let? hv := push_back (fun _ => true) hv.1 hv.2 (Element (m_data hv.2) index) in
  back hv.1 hv.2.

(** A full block is freed before the element is read; the inline storage stays. *)
Example own_element_pushed :
  push_own [1; 2; 3; 4]%nat 3 = Throw (UB "use after free") /\ push_own [1; 2; 3]%nat 2 = Ok 3%nat /\ push_own [1; 2]%nat 1 = Ok 2%nat.
Proof. by vm_compute. Qed.

(** Above 2^31 elements the capacity has wrapped to zero and doubles to zero for ever. *)
Example reserve_past_32_bits :
  reserve (T := nat) (fun _ => true) {[0%nat := []]} (mkVec [] (Some 0%nat) 0 (2 ^ 31)) (2 ^ 31 + 1) = Throw OutOfFuel.
Proof. by vm_compute. Qed.

End SmallVectorFacts.
