(* ===== verification/Ast.v ===== *)
(** * Abstract syntax

    Models ast.h: expressions, statements, patterns and declarations, with the
    queries the structures answer.

    The classes that derive from [Expr] and [Stmt] are the constructors of the
    node types; the positions of the base class are next to the node.  A
    [unique_ptr] that may be null is an [option].  A [VarDeclStmt] is used as a
    statement and on its own (a global, the variable of a trait, the binding of an
    [if]), so it is a type of its own; what does not contain syntax of a
    declaration is in its information record. *)

From S2P Require Import Prelude.
From S2P Require Import Double.
From S2P Require Import DeclarationBlobs.
From S2P Require Import PropertySignature.
From S2P Require Import ExportHints.
Local Open Scope string_scope.
Open Scope Z_scope.

Module Ast.
Abbreviation RPCConfig := RPCConfig.RPCConfig.
Abbreviation ExportSection := PropertySignature.ExportSection.
Abbreviation ExportHint := ExportHints.ExportHint.

(** [empty()] of a string. *)
Abbreviation blank := ExportHints.empty.

(** ** Types *)

Inductive TypeExpr := mkType {
  names : list string;
  arguments : list TypeExpr;
  nullable : bool;
  spelled_nullable : bool
}.

Definition no_type : TypeExpr := mkType [] [] false false.

Definition is_empty (t : TypeExpr) : bool := bool_decide (names t = []) && negb (nullable t).

Definition is_union (t : TypeExpr) : bool := (1 <? length (names t) + (if nullable t then 1 else 0))%nat.

Definition single_name (t : TypeExpr) : string :=
  match names t with [n] => if nullable t then "" else n | _ => "" end.

Definition sole_name (t : TypeExpr) : string := match names t with [n] => n | _ => "" end.

(** [separator] between the parts. *)
Definition join (separator : string) (parts : list string) : string :=
  foldl (fun result part => (if blank result then result else result +:+ separator) +:+ part) "" parts.

Fixpoint type_string (t : TypeExpr) : string :=
  let listed := String.concat ", " (map type_string (arguments t)) in
  let of_name (name : string) :=
    if bool_decide (length (names t) = 1%nat) && negb (bool_decide (length (arguments t) = 0%nat))
    then name +:+ "[" +:+ listed +:+ "]" else name in
  let result := join " | " (map of_name (names t)) in
  if nullable t then
    if spelled_nullable t && bool_decide (length (names t) = 1%nat) then result +:+ "?"
    else (if blank result then result else result +:+ " | ") +:+ "null"
  else result.

(** [operator==] *)
Definition type_is (t : TypeExpr) (name : string) : bool :=
  if blank name then is_empty t else String.eqb (single_name t) name.

(** ** Operators and literals *)

Module BinaryOp.
Inductive Op :=
  | ADD | SUB | MUL | DIV | MOD | POW
  | EQ | NEQ | LT | LTE | GT | GTE
  | AND | OR
  | BIT_AND | BIT_OR | BIT_XOR | SHL | SHR
  | IN
  | COALESCE.
End BinaryOp.

Module UnaryOp.
Inductive Op := NEG | NOT | BIT_NOT.
End UnaryOp.

#[export] Instance binary_op_eq_dec : EqDecision BinaryOp.Op.
Proof. solve_decision. Defined.
#[export] Instance unary_op_eq_dec : EqDecision UnaryOp.Op.
Proof. solve_decision. Defined.

Module Literal.
Inductive StringType := PLAIN | STRING_NAME | NODE_PATH.
(** [lit_type] and the alternative of the variant it selects; [string_type]
    is the one of a string. *)
Inductive Type_ :=
  | INTEGER (v : Z)
  | FLOAT (v : double)
  | STRING (string_type : StringType) (v : string)
  | BOOL (v : bool)
  | NULL_VAL.
End Literal.

Module Pattern.
Inductive Kind := VALUE | WILDCARD | BIND | ARRAY | DICTIONARY | STRUCT.
End Pattern.

#[export] Instance pattern_kind_eq_dec : EqDecision Pattern.Kind.
Proof. solve_decision. Defined.

(** ** Declarations without their syntax *)

Record FunctionInfo := mkFunctionInfo {
  f_name : string;
  f_return_type : TypeExpr;
  f_line : Z;
  f_column : Z;
  f_doc_comment : string;
  f_is_coroutine : bool;
  f_is_static : bool;
  f_is_abstract : bool;
  f_requires_host_hook : bool;
  f_is_test : bool;
  f_trait_origin : string;
  f_rpc_config : option RPCConfig;
  f_chain_link : Z;
  f_chain_name : string
}.

Definition no_function : FunctionInfo :=
  mkFunctionInfo "" no_type 0 0 "" false false false false false "" None 0 "".

Definition declared_name (f : FunctionInfo) : string := if blank (f_chain_name f) then f_name f else f_chain_name f.

Record VarInfo := mkVarInfo {
  v_line : Z;
  v_column : Z;
  v_name : string;
  v_type_hint : TypeExpr;
  v_is_const : bool;
  v_is_property : bool;
  v_is_static : bool;
  v_is_onready : bool;
  v_inferred : bool;
  v_trait_origin : string;
  v_doc_comment : string;
  v_chain_link : Z;
  v_export_hint : ExportHint;
  v_export_section : ExportSection;
  v_setter_name : string;
  v_getter_name : string
}.

Definition no_section : ExportSection := PropertySignature.mkExportSection "" "" "" "" "".

(** [VarDeclStmt(name, init, is_const)], the initialiser apart. *)
Definition var_info (name : string) (is_const : bool) : VarInfo :=
  mkVarInfo 0 0 name no_type is_const false false false false "" "" 0 ExportHints.no_hint no_section "" "".

(** ** Syntax *)

Inductive Expr := mkExpr (e_line e_column : Z) (e_node : ExprNode)
with ExprNode :=
  | LiteralExpr (lit_type : Literal.Type_)
  | VariableExpr (name : string)
  | ErrorExpr
  | BinaryExpr (left : Expr) (op : BinaryOp.Op) (right : Expr)
  | AwaitExpr (operand : Expr)
  | LambdaExpr (decl : FunctionDecl) (lifted_name : string)
  | UnaryExpr (op : UnaryOp.Op) (operand : Expr)
  | TypeTestExpr (value : Expr) (type : TypeExpr)
  | CastExpr (value : Expr) (type_name : string) (type_arguments : list TypeExpr)
  | TernaryExpr (condition true_value false_value : Expr)
  | CallExpr (function_name : string) (arguments : list Expr) (argument_names : list string)
      (is_node_path_sugar : bool)
  | MemberCallExpr (object : Expr) (member_name : string) (arguments : list Expr) (argument_names : list string)
      (is_method_call safe safe_chain_root : bool)
  | IndexExpr (object index : Expr) (safe_chain_root : bool)
  | ArrayLiteralExpr (elements : list Expr)
  | DictionaryLiteralExpr (elements : list (Expr * Expr))
with Stmt :=
  | DeclStmt (decl : VarDecl)
  | mkStmt (s_line s_column : Z) (s_node : StmtNode)
with StmtNode :=
  | ExprStmt (expression : Expr)
  | BreakpointStmt
  | AssignStmt (name : string) (target : option Expr) (value : Expr)
  | ReturnStmt (value : option Expr)
  | IfStmt (condition : option Expr) (binding : option VarDecl) (then_branch else_branch : list Stmt)
  | WhileStmt (condition : Expr) (body : list Stmt)
  | ForStmt (variable : string) (iterable : Expr) (body : list Stmt)
  | BreakStmt
  | ContinueStmt
  | PassStmt
  | MatchStmt (subject : Expr) (branches : list Branch) (is_switch : bool)
with Branch := mkBranch (patterns : list MatchPattern) (guard : option Expr) (branch_body : list Stmt)
with MatchPattern :=
  mkPattern (kind : Pattern.Kind) (value : option Expr) (name : string) (elements : list MatchPattern)
    (entries : list (Expr * option MatchPattern)) (struct_name : string)
    (struct_entries : list (string * MatchPattern)) (open : bool) (p_line p_column : Z)
with VarDecl := mkVarDecl (info : VarInfo) (initializer : option Expr) (setter_body getter_body : option FunctionDecl)
with FunctionDecl := mkFunction (info : FunctionInfo) (parameters : list Parameter_) (body : list Stmt)
with Parameter_ := mkParameter (name : string) (type_hint : TypeExpr) (default_value : option Expr) (line column : Z).

Definition expr_line (e : Expr) : Z := let '(mkExpr l _ _) := e in l.
Definition expr_column (e : Expr) : Z := let '(mkExpr _ c _) := e in c.
Definition expr_node (e : Expr) : ExprNode := let '(mkExpr _ _ n) := e in n.

(** [LiteralExpr(path)] *)
Definition string_literal (v : string) : ExprNode := LiteralExpr (Literal.STRING Literal.PLAIN v).

Definition var_decl_info (d : VarDecl) : VarInfo := let '(mkVarDecl i _ _ _) := d in i.
Definition initializer (d : VarDecl) : option Expr := let '(mkVarDecl _ e _ _) := d in e.
Definition setter_body (d : VarDecl) : option FunctionDecl := let '(mkVarDecl _ _ f _) := d in f.
Definition getter_body (d : VarDecl) : option FunctionDecl := let '(mkVarDecl _ _ _ f) := d in f.

Definition has_accessors (d : VarDecl) : bool :=
  let '(mkVarDecl i _ setter getter) := d in
  (if setter is Some _ then true else false) || (if getter is Some _ then true else false)
  || negb (blank (v_setter_name i)) || negb (blank (v_getter_name i)).

Definition function_info (f : FunctionDecl) : FunctionInfo := let '(mkFunction i _ _) := f in i.
Definition parameters (f : FunctionDecl) : list Parameter_ := let '(mkFunction _ p _) := f in p.
Definition body (f : FunctionDecl) : list Stmt := let '(mkFunction _ _ b) := f in b.

(** [NamedArguments] *)
Definition argument_name (argument_names : list string) (index : nat) : string :=
  default "" (argument_names !! index).
Definition has_named_arguments (argument_names : list string) : bool :=
  existsb (fun name => negb (blank name)) argument_names.

(** [MatchPattern::binds] *)
Fixpoint binds (p : MatchPattern) : bool :=
  let '(mkPattern kind _ _ elements entries _ struct_entries _ _ _) := p in
  bool_decide (kind = Pattern.BIND)
  || existsb binds elements
  || existsb (fun entry => match entry.2 with Some q => binds q | None => false end) entries
  || existsb (fun entry => binds entry.2) struct_entries.

Definition pattern_kind (p : MatchPattern) : Pattern.Kind := let '(mkPattern k _ _ _ _ _ _ _ _ _) := p in k.

(** [MatchStmt::Branch::is_catch_all] *)
Definition is_catch_all (b : Branch) : bool :=
  match b with
  | mkBranch [p] None _ => bool_decide (pattern_kind p = Pattern.WILDCARD)
  | _ => false
  end.

(** ** Declarations of the file *)

Record SignalDecl := mkSignal {
  sg_name : string;
  sg_parameters : list Parameter_;
  sg_line : Z;
  sg_column : Z;
  sg_doc_comment : string;
  sg_trait_origin : string
}.

Record StructField := mkField {
  fd_name : string;
  fd_type_hint : TypeExpr;
  fd_default_value : option Expr;
  fd_line : Z;
  fd_column : Z;
  fd_doc_comment : string;
  fd_trait_origin : string
}.

Record StructDecl := mkStruct {
  st_name : string;
  st_source_path : string;
  st_fields : list StructField;
  st_line : Z;
  st_column : Z;
  st_doc_comment : string;
  st_is_class : bool;
  st_base_name : string;
  st_uses : list string;
  st_methods : list FunctionDecl;
  st_constants : list StructField;
  st_signals : list SignalDecl;
  st_inherited_fields : nat
}.

Definition no_struct : StructDecl := mkStruct "" "" [] 0 0 "" false "" [] [] [] [] 0.

(** The first of a list with a name, as the loops of the [find_] members. *)
Definition named {A} (name_of : A -> string) (name : string) (l : list A) : option A :=
  List.find (fun x => String.eqb (name_of x) name) l.

Definition method_name (f : FunctionDecl) : string := f_name (function_info f).

Definition struct_find_constant (s : StructDecl) (name : string) : option StructField :=
  named fd_name name (st_constants s).
Definition struct_find_method (s : StructDecl) (name : string) : option FunctionDecl :=
  named method_name name (st_methods s).
Definition struct_find_field (s : StructDecl) (name : string) : option StructField :=
  named fd_name name (st_fields s).

(** -1 when there is none. *)
Definition field_index (s : StructDecl) (name : string) : Z :=
  match list_find (fun f => fd_name f = name) (st_fields s) with
  | Some (i, _) => Z.of_nat i
  | None => -1
  end.

Definition field_list (s : StructDecl) : string :=
  let list := join ", " (map fd_name (st_fields s)) in
  if blank list then "(none)" else list.

(** [value_expr] points into [owned_values]. *)
Record EnumMember := mkMember {
  m_name : string;
  m_value : Z;
  m_value_expr : option Expr;
  m_line : Z;
  m_column : Z
}.

Record EnumDecl := mkEnum {
  en_name : string;
  en_members : list EnumMember;
  en_owned_values : list Expr;
  en_line : Z;
  en_column : Z
}.

Definition find_member (d : EnumDecl) (name : string) : option EnumMember := named m_name name (en_members d).

Record TraitDecl := mkTrait {
  t_name : string;
  t_base_name : string;
  t_uses : list string;
  t_vars : list VarDecl;
  t_constants : list StructField;
  t_enums : list EnumDecl;
  t_signals : list SignalDecl;
  t_methods : list FunctionDecl;
  t_line : Z;
  t_column : Z;
  t_doc_comment : string;
  t_is_file_level : bool
}.

Definition trait_find_method (t : TraitDecl) (name : string) : option FunctionDecl := named method_name name (t_methods t).
Definition trait_find_var (t : TraitDecl) (name : string) : option VarDecl :=
  named (fun d => v_name (var_decl_info d)) name (t_vars t).
Definition trait_find_constant (t : TraitDecl) (name : string) : option StructField := named fd_name name (t_constants t).
Definition trait_find_signal (t : TraitDecl) (name : string) : option SignalDecl := named sg_name name (t_signals t).

(** ** Inheritance chains *)

Record Origin := mkOrigin {
  o_link : Z;
  o_symbol : string
}.

Record ChainInfo := mkChain {
  class_names : list string;
  paths : list string;
  functions : gmap string (list Origin)
}.

Definition merged (c : ChainInfo) : bool := (1 <? length (class_names c))%nat.

Definition names_a_link (c : ChainInfo) (name : string) : bool :=
  existsb (fun link => negb (blank link) && String.eqb link name) (class_names c).

(** The last origin below the link. *)
Definition super_of (c : ChainInfo) (name : string) (link : Z) : option Origin :=
  match functions c !! name with
  | None => None
  | Some origins => foldl (fun found o => if o_link o <? link then Some o else found) None origins
  end.

Record Program := mkProgram {
  is_tool : bool;
  class_name : string;
  class_name_line : Z;
  class_name_column : Z;
  base_class : string;
  base_is_path : bool;
  base_class_line : Z;
  base_class_column : Z;
  native_base_class : string;
  native_base_is_path : bool;
  program_uses : list string;
  trait_name : string;
  trait_name_line : Z;
  trait_name_column : Z;
  chain : ChainInfo;
  globals : list VarDecl;
  structs : list StructDecl;
  traits : list TraitDecl;
  enums : list EnumDecl;
  signals : list SignalDecl;
  program_functions : list FunctionDecl
}.

Definition no_program : Program :=
  mkProgram false "" 0 0 "" false 0 0 "" false [] "" 0 0 (mkChain [] [] ∅) [] [] [] [] [] [].

(** ** Assignment to a member *)

Definition set_is_tool (x : bool) (s : Program) : Program :=
  mkProgram x (class_name s) (class_name_line s) (class_name_column s) (base_class s) (base_is_path s)
    (base_class_line s) (base_class_column s) (native_base_class s) (native_base_is_path s) (program_uses s)
    (trait_name s) (trait_name_line s) (trait_name_column s) (chain s) (globals s) (structs s) (traits s) (enums s)
    (signals s) (program_functions s).
Definition set_class_name (x : string) (s : Program) : Program :=
  mkProgram (is_tool s) x (class_name_line s) (class_name_column s) (base_class s) (base_is_path s)
    (base_class_line s) (base_class_column s) (native_base_class s) (native_base_is_path s) (program_uses s)
    (trait_name s) (trait_name_line s) (trait_name_column s) (chain s) (globals s) (structs s) (traits s) (enums s)
    (signals s) (program_functions s).
Definition set_class_name_line (x : Z) (s : Program) : Program :=
  mkProgram (is_tool s) (class_name s) x (class_name_column s) (base_class s) (base_is_path s) (base_class_line s)
    (base_class_column s) (native_base_class s) (native_base_is_path s) (program_uses s) (trait_name s)
    (trait_name_line s) (trait_name_column s) (chain s) (globals s) (structs s) (traits s) (enums s) (signals s)
    (program_functions s).
Definition set_class_name_column (x : Z) (s : Program) : Program :=
  mkProgram (is_tool s) (class_name s) (class_name_line s) x (base_class s) (base_is_path s) (base_class_line s)
    (base_class_column s) (native_base_class s) (native_base_is_path s) (program_uses s) (trait_name s)
    (trait_name_line s) (trait_name_column s) (chain s) (globals s) (structs s) (traits s) (enums s) (signals s)
    (program_functions s).
Definition set_base_class (x : string) (s : Program) : Program :=
  mkProgram (is_tool s) (class_name s) (class_name_line s) (class_name_column s) x (base_is_path s)
    (base_class_line s) (base_class_column s) (native_base_class s) (native_base_is_path s) (program_uses s)
    (trait_name s) (trait_name_line s) (trait_name_column s) (chain s) (globals s) (structs s) (traits s) (enums s)
    (signals s) (program_functions s).
Definition set_base_is_path (x : bool) (s : Program) : Program :=
  mkProgram (is_tool s) (class_name s) (class_name_line s) (class_name_column s) (base_class s) x
    (base_class_line s) (base_class_column s) (native_base_class s) (native_base_is_path s) (program_uses s)
    (trait_name s) (trait_name_line s) (trait_name_column s) (chain s) (globals s) (structs s) (traits s) (enums s)
    (signals s) (program_functions s).
Definition set_base_class_line (x : Z) (s : Program) : Program :=
  mkProgram (is_tool s) (class_name s) (class_name_line s) (class_name_column s) (base_class s) (base_is_path s) x
    (base_class_column s) (native_base_class s) (native_base_is_path s) (program_uses s) (trait_name s)
    (trait_name_line s) (trait_name_column s) (chain s) (globals s) (structs s) (traits s) (enums s) (signals s)
    (program_functions s).
Definition set_base_class_column (x : Z) (s : Program) : Program :=
  mkProgram (is_tool s) (class_name s) (class_name_line s) (class_name_column s) (base_class s) (base_is_path s)
    (base_class_line s) x (native_base_class s) (native_base_is_path s) (program_uses s) (trait_name s)
    (trait_name_line s) (trait_name_column s) (chain s) (globals s) (structs s) (traits s) (enums s) (signals s)
    (program_functions s).
Definition set_native_base_class (x : string) (s : Program) : Program :=
  mkProgram (is_tool s) (class_name s) (class_name_line s) (class_name_column s) (base_class s) (base_is_path s)
    (base_class_line s) (base_class_column s) x (native_base_is_path s) (program_uses s) (trait_name s)
    (trait_name_line s) (trait_name_column s) (chain s) (globals s) (structs s) (traits s) (enums s) (signals s)
    (program_functions s).
Definition set_native_base_is_path (x : bool) (s : Program) : Program :=
  mkProgram (is_tool s) (class_name s) (class_name_line s) (class_name_column s) (base_class s) (base_is_path s)
    (base_class_line s) (base_class_column s) (native_base_class s) x (program_uses s) (trait_name s)
    (trait_name_line s) (trait_name_column s) (chain s) (globals s) (structs s) (traits s) (enums s) (signals s)
    (program_functions s).
Definition set_program_uses (x : list string) (s : Program) : Program :=
  mkProgram (is_tool s) (class_name s) (class_name_line s) (class_name_column s) (base_class s) (base_is_path s)
    (base_class_line s) (base_class_column s) (native_base_class s) (native_base_is_path s) x (trait_name s)
    (trait_name_line s) (trait_name_column s) (chain s) (globals s) (structs s) (traits s) (enums s) (signals s)
    (program_functions s).
Definition set_trait_name (x : string) (s : Program) : Program :=
  mkProgram (is_tool s) (class_name s) (class_name_line s) (class_name_column s) (base_class s) (base_is_path s)
    (base_class_line s) (base_class_column s) (native_base_class s) (native_base_is_path s) (program_uses s) x
    (trait_name_line s) (trait_name_column s) (chain s) (globals s) (structs s) (traits s) (enums s) (signals s)
    (program_functions s).
Definition set_trait_name_line (x : Z) (s : Program) : Program :=
  mkProgram (is_tool s) (class_name s) (class_name_line s) (class_name_column s) (base_class s) (base_is_path s)
    (base_class_line s) (base_class_column s) (native_base_class s) (native_base_is_path s) (program_uses s)
    (trait_name s) x (trait_name_column s) (chain s) (globals s) (structs s) (traits s) (enums s) (signals s)
    (program_functions s).
Definition set_trait_name_column (x : Z) (s : Program) : Program :=
  mkProgram (is_tool s) (class_name s) (class_name_line s) (class_name_column s) (base_class s) (base_is_path s)
    (base_class_line s) (base_class_column s) (native_base_class s) (native_base_is_path s) (program_uses s)
    (trait_name s) (trait_name_line s) x (chain s) (globals s) (structs s) (traits s) (enums s) (signals s)
    (program_functions s).
Definition set_chain (x : ChainInfo) (s : Program) : Program :=
  mkProgram (is_tool s) (class_name s) (class_name_line s) (class_name_column s) (base_class s) (base_is_path s)
    (base_class_line s) (base_class_column s) (native_base_class s) (native_base_is_path s) (program_uses s)
    (trait_name s) (trait_name_line s) (trait_name_column s) x (globals s) (structs s) (traits s) (enums s)
    (signals s) (program_functions s).
Definition set_globals (x : list VarDecl) (s : Program) : Program :=
  mkProgram (is_tool s) (class_name s) (class_name_line s) (class_name_column s) (base_class s) (base_is_path s)
    (base_class_line s) (base_class_column s) (native_base_class s) (native_base_is_path s) (program_uses s)
    (trait_name s) (trait_name_line s) (trait_name_column s) (chain s) x (structs s) (traits s) (enums s)
    (signals s) (program_functions s).
Definition set_structs (x : list StructDecl) (s : Program) : Program :=
  mkProgram (is_tool s) (class_name s) (class_name_line s) (class_name_column s) (base_class s) (base_is_path s)
    (base_class_line s) (base_class_column s) (native_base_class s) (native_base_is_path s) (program_uses s)
    (trait_name s) (trait_name_line s) (trait_name_column s) (chain s) (globals s) x (traits s) (enums s)
    (signals s) (program_functions s).
Definition set_traits (x : list TraitDecl) (s : Program) : Program :=
  mkProgram (is_tool s) (class_name s) (class_name_line s) (class_name_column s) (base_class s) (base_is_path s)
    (base_class_line s) (base_class_column s) (native_base_class s) (native_base_is_path s) (program_uses s)
    (trait_name s) (trait_name_line s) (trait_name_column s) (chain s) (globals s) (structs s) x (enums s)
    (signals s) (program_functions s).
Definition set_enums (x : list EnumDecl) (s : Program) : Program :=
  mkProgram (is_tool s) (class_name s) (class_name_line s) (class_name_column s) (base_class s) (base_is_path s)
    (base_class_line s) (base_class_column s) (native_base_class s) (native_base_is_path s) (program_uses s)
    (trait_name s) (trait_name_line s) (trait_name_column s) (chain s) (globals s) (structs s) (traits s) x
    (signals s) (program_functions s).
Definition set_signals (x : list SignalDecl) (s : Program) : Program :=
  mkProgram (is_tool s) (class_name s) (class_name_line s) (class_name_column s) (base_class s) (base_is_path s)
    (base_class_line s) (base_class_column s) (native_base_class s) (native_base_is_path s) (program_uses s)
    (trait_name s) (trait_name_line s) (trait_name_column s) (chain s) (globals s) (structs s) (traits s) (enums s)
    x (program_functions s).
Definition set_program_functions (x : list FunctionDecl) (s : Program) : Program :=
  mkProgram (is_tool s) (class_name s) (class_name_line s) (class_name_column s) (base_class s) (base_is_path s)
    (base_class_line s) (base_class_column s) (native_base_class s) (native_base_is_path s) (program_uses s)
    (trait_name s) (trait_name_line s) (trait_name_column s) (chain s) (globals s) (structs s) (traits s) (enums s)
    (signals s) x.
Definition set_f_name (x : string) (s : FunctionInfo) : FunctionInfo :=
  mkFunctionInfo x (f_return_type s) (f_line s) (f_column s) (f_doc_comment s) (f_is_coroutine s) (f_is_static s)
    (f_is_abstract s) (f_requires_host_hook s) (f_is_test s) (f_trait_origin s) (f_rpc_config s) (f_chain_link s)
    (f_chain_name s).
Definition set_f_is_static (x : bool) (s : FunctionInfo) : FunctionInfo :=
  mkFunctionInfo (f_name s) (f_return_type s) (f_line s) (f_column s) (f_doc_comment s) (f_is_coroutine s) x
    (f_is_abstract s) (f_requires_host_hook s) (f_is_test s) (f_trait_origin s) (f_rpc_config s) (f_chain_link s)
    (f_chain_name s).
Definition set_f_requires_host_hook (x : bool) (s : FunctionInfo) : FunctionInfo :=
  mkFunctionInfo (f_name s) (f_return_type s) (f_line s) (f_column s) (f_doc_comment s) (f_is_coroutine s)
    (f_is_static s) (f_is_abstract s) x (f_is_test s) (f_trait_origin s) (f_rpc_config s) (f_chain_link s)
    (f_chain_name s).
Definition set_f_is_test (x : bool) (s : FunctionInfo) : FunctionInfo :=
  mkFunctionInfo (f_name s) (f_return_type s) (f_line s) (f_column s) (f_doc_comment s) (f_is_coroutine s)
    (f_is_static s) (f_is_abstract s) (f_requires_host_hook s) x (f_trait_origin s) (f_rpc_config s)
    (f_chain_link s) (f_chain_name s).
Definition set_f_trait_origin (x : string) (s : FunctionInfo) : FunctionInfo :=
  mkFunctionInfo (f_name s) (f_return_type s) (f_line s) (f_column s) (f_doc_comment s) (f_is_coroutine s)
    (f_is_static s) (f_is_abstract s) (f_requires_host_hook s) (f_is_test s) x (f_rpc_config s) (f_chain_link s)
    (f_chain_name s).
Definition set_f_rpc_config (x : option RPCConfig) (s : FunctionInfo) : FunctionInfo :=
  mkFunctionInfo (f_name s) (f_return_type s) (f_line s) (f_column s) (f_doc_comment s) (f_is_coroutine s)
    (f_is_static s) (f_is_abstract s) (f_requires_host_hook s) (f_is_test s) (f_trait_origin s) x (f_chain_link s)
    (f_chain_name s).
Definition set_v_line (x : Z) (s : VarInfo) : VarInfo :=
  mkVarInfo x (v_column s) (v_name s) (v_type_hint s) (v_is_const s) (v_is_property s) (v_is_static s)
    (v_is_onready s) (v_inferred s) (v_trait_origin s) (v_doc_comment s) (v_chain_link s) (v_export_hint s)
    (v_export_section s) (v_setter_name s) (v_getter_name s).
Definition set_v_column (x : Z) (s : VarInfo) : VarInfo :=
  mkVarInfo (v_line s) x (v_name s) (v_type_hint s) (v_is_const s) (v_is_property s) (v_is_static s)
    (v_is_onready s) (v_inferred s) (v_trait_origin s) (v_doc_comment s) (v_chain_link s) (v_export_hint s)
    (v_export_section s) (v_setter_name s) (v_getter_name s).
Definition set_v_type_hint (x : TypeExpr) (s : VarInfo) : VarInfo :=
  mkVarInfo (v_line s) (v_column s) (v_name s) x (v_is_const s) (v_is_property s) (v_is_static s) (v_is_onready s)
    (v_inferred s) (v_trait_origin s) (v_doc_comment s) (v_chain_link s) (v_export_hint s) (v_export_section s)
    (v_setter_name s) (v_getter_name s).
Definition set_v_is_property (x : bool) (s : VarInfo) : VarInfo :=
  mkVarInfo (v_line s) (v_column s) (v_name s) (v_type_hint s) (v_is_const s) x (v_is_static s) (v_is_onready s)
    (v_inferred s) (v_trait_origin s) (v_doc_comment s) (v_chain_link s) (v_export_hint s) (v_export_section s)
    (v_setter_name s) (v_getter_name s).
Definition set_v_is_static (x : bool) (s : VarInfo) : VarInfo :=
  mkVarInfo (v_line s) (v_column s) (v_name s) (v_type_hint s) (v_is_const s) (v_is_property s) x (v_is_onready s)
    (v_inferred s) (v_trait_origin s) (v_doc_comment s) (v_chain_link s) (v_export_hint s) (v_export_section s)
    (v_setter_name s) (v_getter_name s).
Definition set_v_is_onready (x : bool) (s : VarInfo) : VarInfo :=
  mkVarInfo (v_line s) (v_column s) (v_name s) (v_type_hint s) (v_is_const s) (v_is_property s) (v_is_static s) x
    (v_inferred s) (v_trait_origin s) (v_doc_comment s) (v_chain_link s) (v_export_hint s) (v_export_section s)
    (v_setter_name s) (v_getter_name s).
Definition set_v_inferred (x : bool) (s : VarInfo) : VarInfo :=
  mkVarInfo (v_line s) (v_column s) (v_name s) (v_type_hint s) (v_is_const s) (v_is_property s) (v_is_static s)
    (v_is_onready s) x (v_trait_origin s) (v_doc_comment s) (v_chain_link s) (v_export_hint s) (v_export_section s)
    (v_setter_name s) (v_getter_name s).
Definition set_v_trait_origin (x : string) (s : VarInfo) : VarInfo :=
  mkVarInfo (v_line s) (v_column s) (v_name s) (v_type_hint s) (v_is_const s) (v_is_property s) (v_is_static s)
    (v_is_onready s) (v_inferred s) x (v_doc_comment s) (v_chain_link s) (v_export_hint s) (v_export_section s)
    (v_setter_name s) (v_getter_name s).
Definition set_v_doc_comment (x : string) (s : VarInfo) : VarInfo :=
  mkVarInfo (v_line s) (v_column s) (v_name s) (v_type_hint s) (v_is_const s) (v_is_property s) (v_is_static s)
    (v_is_onready s) (v_inferred s) (v_trait_origin s) x (v_chain_link s) (v_export_hint s) (v_export_section s)
    (v_setter_name s) (v_getter_name s).
Definition set_v_export_hint (x : ExportHint) (s : VarInfo) : VarInfo :=
  mkVarInfo (v_line s) (v_column s) (v_name s) (v_type_hint s) (v_is_const s) (v_is_property s) (v_is_static s)
    (v_is_onready s) (v_inferred s) (v_trait_origin s) (v_doc_comment s) (v_chain_link s) x (v_export_section s)
    (v_setter_name s) (v_getter_name s).
Definition set_v_export_section (x : ExportSection) (s : VarInfo) : VarInfo :=
  mkVarInfo (v_line s) (v_column s) (v_name s) (v_type_hint s) (v_is_const s) (v_is_property s) (v_is_static s)
    (v_is_onready s) (v_inferred s) (v_trait_origin s) (v_doc_comment s) (v_chain_link s) (v_export_hint s) x
    (v_setter_name s) (v_getter_name s).
Definition set_v_setter_name (x : string) (s : VarInfo) : VarInfo :=
  mkVarInfo (v_line s) (v_column s) (v_name s) (v_type_hint s) (v_is_const s) (v_is_property s) (v_is_static s)
    (v_is_onready s) (v_inferred s) (v_trait_origin s) (v_doc_comment s) (v_chain_link s) (v_export_hint s)
    (v_export_section s) x (v_getter_name s).
Definition set_v_getter_name (x : string) (s : VarInfo) : VarInfo :=
  mkVarInfo (v_line s) (v_column s) (v_name s) (v_type_hint s) (v_is_const s) (v_is_property s) (v_is_static s)
    (v_is_onready s) (v_inferred s) (v_trait_origin s) (v_doc_comment s) (v_chain_link s) (v_export_hint s)
    (v_export_section s) (v_setter_name s) x.
Definition set_st_fields (x : list StructField) (s : StructDecl) : StructDecl :=
  mkStruct (st_name s) (st_source_path s) x (st_line s) (st_column s) (st_doc_comment s) (st_is_class s)
    (st_base_name s) (st_uses s) (st_methods s) (st_constants s) (st_signals s) (st_inherited_fields s).
Definition set_st_base_name (x : string) (s : StructDecl) : StructDecl :=
  mkStruct (st_name s) (st_source_path s) (st_fields s) (st_line s) (st_column s) (st_doc_comment s)
    (st_is_class s) x (st_uses s) (st_methods s) (st_constants s) (st_signals s) (st_inherited_fields s).
Definition set_st_uses (x : list string) (s : StructDecl) : StructDecl :=
  mkStruct (st_name s) (st_source_path s) (st_fields s) (st_line s) (st_column s) (st_doc_comment s)
    (st_is_class s) (st_base_name s) x (st_methods s) (st_constants s) (st_signals s) (st_inherited_fields s).
Definition set_st_methods (x : list FunctionDecl) (s : StructDecl) : StructDecl :=
  mkStruct (st_name s) (st_source_path s) (st_fields s) (st_line s) (st_column s) (st_doc_comment s)
    (st_is_class s) (st_base_name s) (st_uses s) x (st_constants s) (st_signals s) (st_inherited_fields s).
Definition set_st_constants (x : list StructField) (s : StructDecl) : StructDecl :=
  mkStruct (st_name s) (st_source_path s) (st_fields s) (st_line s) (st_column s) (st_doc_comment s)
    (st_is_class s) (st_base_name s) (st_uses s) (st_methods s) x (st_signals s) (st_inherited_fields s).
Definition set_st_signals (x : list SignalDecl) (s : StructDecl) : StructDecl :=
  mkStruct (st_name s) (st_source_path s) (st_fields s) (st_line s) (st_column s) (st_doc_comment s)
    (st_is_class s) (st_base_name s) (st_uses s) (st_methods s) (st_constants s) x (st_inherited_fields s).
Definition set_t_base_name (x : string) (s : TraitDecl) : TraitDecl :=
  mkTrait (t_name s) x (t_uses s) (t_vars s) (t_constants s) (t_enums s) (t_signals s) (t_methods s) (t_line s)
    (t_column s) (t_doc_comment s) (t_is_file_level s).
Definition set_t_uses (x : list string) (s : TraitDecl) : TraitDecl :=
  mkTrait (t_name s) (t_base_name s) x (t_vars s) (t_constants s) (t_enums s) (t_signals s) (t_methods s)
    (t_line s) (t_column s) (t_doc_comment s) (t_is_file_level s).
Definition set_t_vars (x : list VarDecl) (s : TraitDecl) : TraitDecl :=
  mkTrait (t_name s) (t_base_name s) (t_uses s) x (t_constants s) (t_enums s) (t_signals s) (t_methods s)
    (t_line s) (t_column s) (t_doc_comment s) (t_is_file_level s).
Definition set_t_constants (x : list StructField) (s : TraitDecl) : TraitDecl :=
  mkTrait (t_name s) (t_base_name s) (t_uses s) (t_vars s) x (t_enums s) (t_signals s) (t_methods s) (t_line s)
    (t_column s) (t_doc_comment s) (t_is_file_level s).
Definition set_t_enums (x : list EnumDecl) (s : TraitDecl) : TraitDecl :=
  mkTrait (t_name s) (t_base_name s) (t_uses s) (t_vars s) (t_constants s) x (t_signals s) (t_methods s) (t_line s)
    (t_column s) (t_doc_comment s) (t_is_file_level s).
Definition set_t_signals (x : list SignalDecl) (s : TraitDecl) : TraitDecl :=
  mkTrait (t_name s) (t_base_name s) (t_uses s) (t_vars s) (t_constants s) (t_enums s) x (t_methods s) (t_line s)
    (t_column s) (t_doc_comment s) (t_is_file_level s).
Definition set_t_methods (x : list FunctionDecl) (s : TraitDecl) : TraitDecl :=
  mkTrait (t_name s) (t_base_name s) (t_uses s) (t_vars s) (t_constants s) (t_enums s) (t_signals s) x (t_line s)
    (t_column s) (t_doc_comment s) (t_is_file_level s).

End Ast.
