(* ===== verification/Parser.v ===== *)
(** * The parser: state, cursor, errors, types and annotations

    Models parser.h and, of parser.cpp, everything below the grammar of
    expressions: the cursor over the tokens, the two ways of reporting (the first
    error is thrown, or a diagnostic is recorded and the parser resumes at the
    next boundary), type expressions and the annotations of declarations.
    [ParserExpr], [ParserStmt] and [ParserDecl] hold the grammar.

    The members a parse does not change (the tokens, the doc comments and the
    extension switch) are the class [Input]; the others are the state.  The two
    locals of [Parser::parse] are in the state as well, because what was written
    to them outlives a [Recovery].

    Recursion: the functions on a cycle of the call graph call each other through
    the class [Callees]; [ParserDecl.callees] ties the knot with a budget.  Loops
    consume a token each time around, so they run on the number of tokens left. *)

From stdpp Require Import pretty.
From S2P Require Import Prelude.
From S2P Require Import Double.
From S2P Require Import Wire.
From S2P Require Import Token.
From S2P Require Import Lexer.
From S2P Require Import DeclarationBlobs.
From S2P Require Import PropertySignature.
From S2P Require Import ExportHints.
From S2P Require Import Ast.
Open Scope Z_scope.

Notation "c ';;;' k" := (mbind c (fun _ => k)) (at level 100, k at level 200, right associativity) : gdsc_scope.

Module Parser.
Import Token.
Import Ast.

Abbreviation ParseDiagnostic := Lexer.ParseDiagnostic.
Abbreviation DiagnosticSink := Lexer.DiagnosticSink.

(** ** State *)

(** The members that only the constructor and the setters write. *)
Class Input := {
  m_tokens : list Token;
  m_extensions : bool;
  m_doc_comments : gmap Z string
}.

Record Parser := mkParser {
  m_diagnostics : option DiagnosticSink;
  m_warnings : list ParseDiagnostic;
  m_nested_classes : list StructDecl;
  m_current : nat;
  m_compound_temps : Z;
  m_pending_primary : option Expr;
  m_saw_await : bool;
  m_inline_suite_depth : Z;
  m_const_ints : gmap string Z;
  m_saw_tool : bool;
  m_export_section : ExportSection;
  program : Program;
  saw_declaration : bool
}.

Definition set_diagnostics (x : option DiagnosticSink) (s : Parser) : Parser :=
  mkParser x (m_warnings s) (m_nested_classes s) (m_current s) (m_compound_temps s) (m_pending_primary s)
    (m_saw_await s) (m_inline_suite_depth s) (m_const_ints s) (m_saw_tool s) (m_export_section s) (program s)
    (saw_declaration s).
Definition set_warnings (x : list ParseDiagnostic) (s : Parser) : Parser :=
  mkParser (m_diagnostics s) x (m_nested_classes s) (m_current s) (m_compound_temps s) (m_pending_primary s)
    (m_saw_await s) (m_inline_suite_depth s) (m_const_ints s) (m_saw_tool s) (m_export_section s) (program s)
    (saw_declaration s).
Definition set_nested_classes (x : list StructDecl) (s : Parser) : Parser :=
  mkParser (m_diagnostics s) (m_warnings s) x (m_current s) (m_compound_temps s) (m_pending_primary s)
    (m_saw_await s) (m_inline_suite_depth s) (m_const_ints s) (m_saw_tool s) (m_export_section s) (program s)
    (saw_declaration s).
Definition set_current (x : nat) (s : Parser) : Parser :=
  mkParser (m_diagnostics s) (m_warnings s) (m_nested_classes s) x (m_compound_temps s) (m_pending_primary s)
    (m_saw_await s) (m_inline_suite_depth s) (m_const_ints s) (m_saw_tool s) (m_export_section s) (program s)
    (saw_declaration s).
Definition set_compound_temps (x : Z) (s : Parser) : Parser :=
  mkParser (m_diagnostics s) (m_warnings s) (m_nested_classes s) (m_current s) x (m_pending_primary s)
    (m_saw_await s) (m_inline_suite_depth s) (m_const_ints s) (m_saw_tool s) (m_export_section s) (program s)
    (saw_declaration s).
Definition set_pending_primary (x : option Expr) (s : Parser) : Parser :=
  mkParser (m_diagnostics s) (m_warnings s) (m_nested_classes s) (m_current s) (m_compound_temps s) x
    (m_saw_await s) (m_inline_suite_depth s) (m_const_ints s) (m_saw_tool s) (m_export_section s) (program s)
    (saw_declaration s).
Definition set_saw_await (x : bool) (s : Parser) : Parser :=
  mkParser (m_diagnostics s) (m_warnings s) (m_nested_classes s) (m_current s) (m_compound_temps s)
    (m_pending_primary s) x (m_inline_suite_depth s) (m_const_ints s) (m_saw_tool s) (m_export_section s)
    (program s) (saw_declaration s).
Definition set_inline_suite_depth (x : Z) (s : Parser) : Parser :=
  mkParser (m_diagnostics s) (m_warnings s) (m_nested_classes s) (m_current s) (m_compound_temps s)
    (m_pending_primary s) (m_saw_await s) x (m_const_ints s) (m_saw_tool s) (m_export_section s) (program s)
    (saw_declaration s).
Definition set_const_ints (x : gmap string Z) (s : Parser) : Parser :=
  mkParser (m_diagnostics s) (m_warnings s) (m_nested_classes s) (m_current s) (m_compound_temps s)
    (m_pending_primary s) (m_saw_await s) (m_inline_suite_depth s) x (m_saw_tool s) (m_export_section s)
    (program s) (saw_declaration s).
Definition set_saw_tool (x : bool) (s : Parser) : Parser :=
  mkParser (m_diagnostics s) (m_warnings s) (m_nested_classes s) (m_current s) (m_compound_temps s)
    (m_pending_primary s) (m_saw_await s) (m_inline_suite_depth s) (m_const_ints s) x (m_export_section s)
    (program s) (saw_declaration s).
Definition set_export_section (x : ExportSection) (s : Parser) : Parser :=
  mkParser (m_diagnostics s) (m_warnings s) (m_nested_classes s) (m_current s) (m_compound_temps s)
    (m_pending_primary s) (m_saw_await s) (m_inline_suite_depth s) (m_const_ints s) (m_saw_tool s) x (program s)
    (saw_declaration s).
Definition set_program (x : Program) (s : Parser) : Parser :=
  mkParser (m_diagnostics s) (m_warnings s) (m_nested_classes s) (m_current s) (m_compound_temps s)
    (m_pending_primary s) (m_saw_await s) (m_inline_suite_depth s) (m_const_ints s) (m_saw_tool s)
    (m_export_section s) x (saw_declaration s).
Definition set_saw_declaration (x : bool) (s : Parser) : Parser :=
  mkParser (m_diagnostics s) (m_warnings s) (m_nested_classes s) (m_current s) (m_compound_temps s)
    (m_pending_primary s) (m_saw_await s) (m_inline_suite_depth s) (m_const_ints s) (m_saw_tool s)
    (m_export_section s) (program s) x.

(** A parser before [parse]. *)
Definition construct (sink : option DiagnosticSink) : Parser :=
  mkParser sink [] [] 0 0 None false 0 ∅ false no_section no_program false.

(** [set_doc_comments]: the first comment of a line is kept. *)
Definition set_doc_comments (comments : list (Z * string)) : gmap Z string :=
  foldl (fun m comment => match m !! comment.1 with Some _ => m | None => <[comment.1 := comment.2]> m end) ∅ comments.

Definition tolerant (s : Parser) : bool := match m_diagnostics s with Some _ => true | None => false end.

Definition P (A : Type) : Type := M Parser A.

Definition gets {A} (f : Parser -> A) : P A := fun s => (s, Ok (f s)).
Definition modify (f : Parser -> Parser) : P unit := mmodify f.
Definition when (b : bool) (c : P unit) : P unit := if b then c else mret tt.

(** [catch (const Recovery&)] *)
Definition try_recovery {A} (c handler : P A) : P A :=
  fun s => match c s with
           | (s', Throw Recovery) => handler s'
           | r => r
           end.

(** A loop whose body answers its next state or leaves. *)
Fixpoint iterate {S R} (n : nat) (step : S -> P (S + R)) (x : S) : P R :=
  match n with
  | O => mthrow OutOfFuel
  | Datatypes.S n' =>
      let* r := step x in
      match r with
      | inl x' => iterate n' step x'
      | inr y => mret y
      end
  end.

(** The text of a token as a name. *)
Definition spelled (tok : Token) : string := Wire.bytes_string (lexeme tok).

(** [std::get] on the value of a token. *)
Definition get_int (tok : Token) : outcome Z :=
  match value tok with TInt z => Ok z | _ => Throw bad_variant_access end.
Definition get_double (tok : Token) : outcome double :=
  match value tok with TDouble d => Ok d | _ => Throw bad_variant_access end.
Definition get_string (tok : Token) : outcome string :=
  match value tok with TString t => Ok (Wire.bytes_string t) | _ => Throw bad_variant_access end.

Definition parser_error {A} (message : string) (line column : Z) : P A :=
  mthrow (LocatedException PARSER_ERROR message line column).

(** [message.find(part) != npos] *)
Definition mentions (part message : string) : bool :=
  match String.index 0 part message with Some _ => true | None => false end.

Definition diagnostic_code (message : string) : string :=
  if String.prefix "Expected expression" message then "EXPECTED_EXPRESSION"
  else if mentions "Expected ':'" message then "EXPECTED_COLON"
  else if mentions "Expected a type" message then "EXPECTED_TYPE"
  else if mentions "Expected newline" message then "EXPECTED_NEWLINE"
  else "PARSE_ERROR".

Section Cursor.
Context {input : Input}.

(** ** The cursor *)

(** [m_tokens[i]]: outside the vector the access is undefined. *)
Definition token_at (i : nat) : outcome Token :=
  of_option (UB "index past the end of the tokens") (m_tokens !! i).

Definition peek : P Token := fun s => (s, token_at (m_current s)).

Definition peek_ahead (offset : nat) : P Token :=
  fun s =>
    let index := (m_current s + offset)%nat in
    (s, token_at (if (index <? length m_tokens)%nat then index else (length m_tokens - 1)%nat)).

Definition previous : P Token :=
  fun s => (s, match m_current s with O => Throw (UB "index before the tokens") | S i => token_at i end).

Definition is_at_end : P bool := let* tok := peek in mret (bool_decide (type tok = EOF_TOKEN)).

Definition check (t : TokenType) : P bool :=
  let* at_end := is_at_end in
  if at_end then mret false else let* tok := peek in mret (bool_decide (type tok = t)).

Definition advance : P Token :=
  let* at_end := is_at_end in
  when (negb at_end) (modify (fun s => set_current (S (m_current s)) s)) ;;;
  previous.

Definition match_ (t : TokenType) : P bool :=
  let* found := check t in
  if found then advance ;;; mret true else mret false.

Fixpoint match_one_of (types : list TokenType) : P bool :=
  match types with
  | [] => mret false
  | t :: types => let* found := match_ t in if found then mret true else match_one_of types
  end.

(** The or and the and of conditions that read the cursor, evaluated in order. *)
Definition or_else (c d : P bool) : P bool := let* b := c in if b then mret true else d.
Definition and_also (c d : P bool) : P bool := let* b := c in if b then d else mret false.

Fixpoint check_any (types : list TokenType) : P bool :=
  match types with
  | [] => mret false
  | t :: types => or_else (check t) (check_any types)
  end.

(** The type of the token ahead. *)
Definition next_is (t : TokenType) : P bool := let* tok := peek_ahead 1 in mret (bool_decide (type tok = t)).

Definition previous_is (t : TokenType) : P bool := let* tok := previous in mret (bool_decide (type tok = t)).

(** [while (step())], with at most one round per token left and one more. *)
Definition loop {S R} (step : S -> P (S + R)) (x : S) : P R :=
  fun s => iterate (Datatypes.S (length m_tokens - m_current s)) step x s.

(** ** Errors *)

Definition error_at {A} (message : string) (line column : Z) : P A :=
  fun s =>
    match m_diagnostics s with
    | Some sink =>
        (set_diagnostics (Some (Lexer.sink_add sink (diagnostic_code message) message line column line (column + 1))) s,
         Throw Recovery)
    | None => parser_error message line column s
    end.

Definition error {A} (message : string) : P A :=
  let* token := peek in
  fun s =>
    match m_diagnostics s with
    | Some sink =>
        let width := Z.of_nat (length (lexeme token)) in
        let start := column token - width in
        (set_diagnostics (Some (Lexer.sink_add sink (diagnostic_code message) message (line token)
           (if 0 <? start then start else column token) (line token)
           (if 0 <? start then column token else column token + 1))) s,
         Throw Recovery)
    | None => parser_error message (line token) (column token) s
    end.

Definition MAX_WARNINGS : nat := 100.

Definition warn (code message : string) (line column width : Z) : P unit :=
  modify (fun s =>
    if (MAX_WARNINGS <=? length (m_warnings s))%nat then s else
    let line := if line <? 1 then 1 else line in
    let column := if column <? 1 then 1 else column in
    let width := if width <? 1 then 1 else width in
    set_warnings (m_warnings s ++ [Lexer.mkDiagnostic code message line column line (column + width)]) s).

Definition consume (t : TokenType) (message : string) : P Token :=
  let* found := check t in
  if found then advance
  else let* tok := peek in error (message +:+ ", but found " +:+ Wire.bytes_string (describe tok)).

(** [std::isalpha] and [std::isalnum] in the C locale, or an underscore. *)
Definition name_start (c : Z) : bool :=
  Lexer.isalnum c && negb (Lexer.is_digit c) || (c =? Lexer.chr "_").
Definition name_part (c : Z) : bool := Lexer.isalnum c || (c =? Lexer.chr "_").

Definition keyword_shaped (tok : Token) : bool :=
  match lexeme tok with
  | [] => false
  | c :: _ => name_start c && forallb name_part (lexeme tok)
  end.

Definition consume_member_name (message : string) : P Token :=
  let* token := peek in
  if bool_decide (type token = IDENTIFIER) || keyword_shaped token then advance
  else consume IDENTIFIER message.

(** ** Recovery *)

Definition synchronize : P unit :=
  advance ;;;
  loop (fun _ : unit =>
    let* at_end := is_at_end in
    if at_end then mret (inr tt) else
    let* newline := previous_is NEWLINE in
    if newline then mret (inr tt) else
    let* stop := check_any [FUNC; VAR; IF; WHILE; RETURN] in
    if stop then mret (inr tt) else advance ;;; mret (inl tt)) tt.

Definition recover_to_statement_end : P unit :=
  loop (fun _ : unit =>
    let* at_end := is_at_end in
    if at_end then mret (inr tt) else
    let* tok := peek in
    if is_one_of tok [DEDENT; INDENT] then mret (inr tt)
    else advance ;;; mret (if is_one_of tok [NEWLINE; SEMICOLON] then inr tt else inl tt)) tt.

Definition skip_newlines : P unit :=
  loop (fun _ : unit =>
    let* found := or_else (match_ NEWLINE) (match_ SEMICOLON) in
    mret (if found then inl tt else inr tt)) tt.

Definition at_inline_suite_end : P bool :=
  let* tok := peek in mret (is_one_of tok [NEWLINE; DEDENT; RPAREN; RBRACKET; RBRACE; COMMA; EOF_TOKEN]).

Definition consume_statement_end (message : string) : P unit :=
  let* semicolon := match_ SEMICOLON in
  if semicolon then mret tt else
  let* depth := gets m_inline_suite_depth in
  let* inline_end := and_also (mret (0 <? depth)) at_inline_suite_end in
  if inline_end then mret tt else
  let* dedent := check DEDENT in
  if dedent then mret tt else
  let* after_block := previous_is DEDENT in
  if after_block then mret tt else
  consume NEWLINE message ;;; mret tt.

(** The contiguous comment lines above a declaration. *)
Fixpoint comment_lines (line : nat) : list string :=
  match line with
  | O => []
  | S above => match m_doc_comments !! Z.of_nat line with
               | None => []
               | Some text => text :: comment_lines above
               end
  end.

Definition newline : string := Wire.bytes_string [10].

Definition doc_comment_above (line : Z) : string := join newline (rev (comment_lines (Z.to_nat (line - 1)))).

End Cursor.

(** ** Recursion *)

(** What the functions on a cycle of the call graph call. *)
Class Callees := {
  c_expression : P Expr;
  c_expression_impl : P Expr;
  c_ternary : P Expr;
  c_coalesce : P Expr;
  c_not : P Expr;
  c_unary : P Expr;
  c_statement : P Stmt;
  c_if_stmt : P Stmt;
  c_match_pattern : P MatchPattern;
  c_type_expr : P TypeExpr;
  c_class : P StructDecl
}.

(** ** Types *)

Section Types.
Context {input : Input} {callees : Callees}.

Definition skip_type_arguments : P unit :=
  let* bracket := match_ LBRACKET in
  if negb bracket then mret tt else
  let* depth := loop (fun depth : Z =>
    let* at_end := is_at_end in
    if negb (0 <? depth) || at_end then mret (inr depth) else
    let* open := match_ LBRACKET in
    if open then mret (inl (depth + 1)) else
    let* close := match_ RBRACKET in
    if close then mret (inl (depth - 1)) else
    advance ;;; mret (inl depth)) 1 in
  when (negb (depth =? 0)) (error "Expected ']' to close the element type").

(** A type can start here. *)
Definition at_type : P bool := or_else (check IDENTIFIER) (check NULL_VAL).

(** [collect] says whether there is a place for the arguments. *)
Definition parse_type_name (collect : bool) : P (string * list TypeExpr) :=
  let* type_token := consume IDENTIFIER "Expected type name" in
  let* qualified := loop (fun qualified : string =>
    let* dot := match_ DOT in
    if negb dot then mret (inr qualified) else
    let* part := consume IDENTIFIER "Expected a type name after '.'" in
    let start := if blank qualified then spelled type_token else qualified in
    mret (inl (start +:+ "." +:+ spelled part))) "" in
  let* bracket := and_also (mret collect) (match_ LBRACKET) in
  let* arguments :=
    (if bracket then
       let* closed := check RBRACKET in
       let* arguments :=
         (if closed then mret [] else
          loop (fun arguments : list TypeExpr =>
            let* found := at_type in
            when (negb found) (error "Expected a type argument") ;;;
            let* argument := c_type_expr in
            let arguments := arguments ++ [argument] in
            let* comma := match_ COMMA in
            mret (if comma then inl arguments else inr arguments)) []) in
       consume RBRACKET "Expected ']' to close the element type" ;;;
       mret arguments
     else skip_type_arguments ;;; mret []) in
  if blank qualified then mret (spelled type_token, arguments) else
  warn "UNRESOLVED_TYPE_HINT" ("Qualified type '" +:+ qualified +:+ "' is not resolved yet; the declaration stays untyped")
    (line type_token) (column type_token - Z.of_nat (length (lexeme type_token)))
    (Z.of_nat (String.length qualified)) ;;;
  mret ("", arguments).

(** The lambda [member] of [parse_type_expr]; the second part is [type_end]. *)
Definition parse_type_member (type : TypeExpr) : P (TypeExpr * Token) :=
  let* null := match_ NULL_VAL in
  if null then
    when (nullable type) (error "Union type repeats member 'null'") ;;;
    let* type_end := previous in
    mret (mkType (names type) (arguments type) true (spelled_nullable type), type_end)
  else
    let first := bool_decide (names type = []) in
    let* parsed := parse_type_name first in
    let* type_end := previous in
    mret (mkType (names type ++ [parsed.1]) (if first then arguments type ++ parsed.2 else arguments type)
            (nullable type) (spelled_nullable type), type_end).

(** The suffix [?], which has to touch the type it follows. *)
Definition parse_nullable_suffix (type : TypeExpr) (type_end : Token) : P TypeExpr :=
  let* suffix := match_ QUESTION in
  if negb suffix then mret type else
  let* question := previous in
  when (negb (line type_end =? line question) || negb (column type_end + 1 =? column question))
    (error "'?' must directly follow the type name") ;;;
  when (nullable type) (error "'?' on a type that already includes 'null'") ;;;
  when (is_union type) (error "'?' cannot follow a union member. Write 'A | B | null'") ;;;
  when (bool_decide (names type = ["Variant"])) (error "'Variant' already includes 'null'") ;;;
  let* again := check QUESTION in
  when again (error "Unexpected second '?'") ;;;
  let* bar := check BIT_OR in
  when bar (error "'?' must come last in a type") ;;;
  mret (mkType (names type) (arguments type) true true).

Definition parse_type_expr : P TypeExpr :=
  let* first := parse_type_member no_type in
  let* parsed := loop (fun parsed : TypeExpr * Token =>
    let* bar := match_ BIT_OR in
    if negb bar then mret (inr parsed) else
    when (negb m_extensions)
      (error "Union types are a SafeGDScript extension, not GDScript; enable them with --extensions") ;;;
    let* found := at_type in
    when (negb found) (error "Expected a type name or 'null' after '|'") ;;;
    let* parsed := parse_type_member parsed.1 in
    mret (inl parsed)) first in
  let '(type, type_end) := parsed in
  let* twice := check QUESTION_QUESTION in
  let* tok := peek in
  when (twice && (line type_end =? line tok) && (column type_end + 2 =? column tok)) (error "Unexpected second '?'") ;;;
  let* type := parse_nullable_suffix type type_end in
  mret (if bool_decide (names type = [""]) then mkType (names type) (arguments type) false false else type).

Definition parse_type_hint : P TypeExpr :=
  let* colon := match_ COLON in
  let* found := and_also (mret colon) at_type in
  if found then parse_type_expr else mret no_type.

Definition parse_return_type : P TypeExpr :=
  let* saved_pos := gets m_current in
  let* minus := match_ MINUS in
  if negb minus then mret no_type else
  let* greater := match_ GREATER in
  if greater then
    let* found := at_type in
    if found then parse_type_expr else mret no_type
  else modify (set_current saved_pos) ;;; mret no_type.

End Types.

(** ** Annotations *)

Section Annotations.
Context {input : Input} {libm : Libm}.
Import ExportHints.

(** [end_chunk]: the argument the tokens between two commas spell. *)
Definition chunk_argument (first : Token) (chunk : list Token) : outcome ExportArgument :=
  let of_token (signed : bool) (sign : double) (tok : Token) : outcome (Kind * double * string) :=
    match type tok with
    | Token.INTEGER => let? v := get_int tok in Ok (NUMBER, dmul sign (double_of_Z v), "")
    | Token.FLOAT => let? v := get_double tok in Ok (NUMBER, dmul sign v, "")
    | Token.STRING => if signed then Ok (OTHER, dzero, "") else let? v := get_string tok in Ok (STRING, dzero, v)
    | Token.IDENTIFIER => Ok (if signed then (OTHER, dzero, "") else (NAME, dzero, spelled tok))
    | _ => Ok (OTHER, dzero, "")
    end in
  let? r :=
    match chunk with
    | [tok] => of_token false d_one tok
    | [sign; tok] =>
        if is_one_of sign [MINUS; PLUS]
        then of_token true (if is_type sign MINUS then dneg d_one else d_one) tok
        else Ok (OTHER, dzero, "")
    | _ => Ok (OTHER, dzero, "")
    end in
  let '(kind, number, text) := r in
  Ok (mkArgument kind number text (Token.line first) (Token.column first)).

Definition end_chunk (chunk : list Token) (arguments : list ExportArgument) : outcome (list ExportArgument) :=
  match chunk with
  | [] => Ok arguments
  | first :: _ => let? argument := chunk_argument first chunk in Ok (arguments ++ [argument])
  end.

Definition parse_attribute_arguments : P (list ExportArgument) :=
  let* paren := match_ LPAREN in
  if negb paren then mret [] else
  let* r := loop (fun st : Z * list Token * list ExportArgument =>
    let '(depth, chunk, arguments) := st in
    let* at_end := is_at_end in
    if negb (0 <? depth) || at_end then mret (inr st) else
    let* open := check LPAREN in
    if open then let* tok := advance in mret (inl (depth + 1, chunk ++ [tok], arguments)) else
    let* close := check RPAREN in
    if close then
      let depth := depth - 1 in
      let* tok := advance in
      mret (if depth =? 0 then inr (depth, chunk, arguments) else inl (depth, chunk ++ [tok], arguments))
    else
    let* comma := and_also (mret (depth =? 1)) (check COMMA) in
    if comma then
      advance ;;;
      let* arguments := mlift (end_chunk chunk arguments) in
      mret (inl (depth, [], arguments))
    else
    let* layout := check_any [NEWLINE; INDENT; DEDENT] in
    let* tok := advance in
    mret (inl (depth, if layout then chunk else chunk ++ [tok], arguments))) (1, [], []) in
  let '(depth, chunk, arguments) := r in
  let* arguments := mlift (end_chunk chunk arguments) in
  when (negb (depth =? 0)) (error "Expected ')' to close the attribute arguments") ;;;
  mret arguments.

(** The caller's variables behind the pointers; [None] is a null pointer. *)
Record Annotations := mkAnnotations {
  an_hint : ExportHints.ExportHint;
  an_onready : option bool;
  an_rpc_config : option (option RPCConfig);
  an_abstract : option bool;
  an_test : option bool;
  an_host_hook : option bool
}.

Definition set_an_hint (x : ExportHints.ExportHint) (a : Annotations) : Annotations :=
  mkAnnotations x (an_onready a) (an_rpc_config a) (an_abstract a) (an_test a) (an_host_hook a).
Definition set_an_onready (x : bool) (a : Annotations) : Annotations :=
  mkAnnotations (an_hint a) (Some x) (an_rpc_config a) (an_abstract a) (an_test a) (an_host_hook a).
Definition set_an_rpc_config (x : option RPCConfig) (a : Annotations) : Annotations :=
  mkAnnotations (an_hint a) (an_onready a) (Some x) (an_abstract a) (an_test a) (an_host_hook a).
Definition set_an_abstract (x : bool) (a : Annotations) : Annotations :=
  mkAnnotations (an_hint a) (an_onready a) (an_rpc_config a) (Some x) (an_test a) (an_host_hook a).
Definition set_an_test (x : bool) (a : Annotations) : Annotations :=
  mkAnnotations (an_hint a) (an_onready a) (an_rpc_config a) (an_abstract a) (Some x) (an_host_hook a).
Definition set_an_host_hook (x : bool) (a : Annotations) : Annotations :=
  mkAnnotations (an_hint a) (an_onready a) (an_rpc_config a) (an_abstract a) (an_test a) (Some x).

(** The inspector-section annotations. *)
Definition parse_section (name : Token) (arguments : list ExportArgument) : P unit :=
  let category := String.eqb (spelled name) "export_category" in
  let max_args := if category then 1%nat else 2%nat in
  match arguments with
  | first :: rest =>
      if (max_args <? length arguments)%nat then
        error_at ("@" +:+ spelled name +:+ " takes a name" +:+ (if category then "" else " and an optional prefix"))
          (Token.line name) (Token.column name)
      else
        match List.find (fun argument => negb (is_kind STRING argument)) arguments with
        | Some argument =>
            error_at ("@" +:+ spelled name +:+ " takes strings; this argument is not one")
              (ExportHints.line argument) (ExportHints.column argument)
        | None =>
            let prefix := match rest with second :: _ => text second | [] => "" end in
            modify (fun s =>
              let section := m_export_section s in
              set_export_section
                (if category then PropertySignature.mkExportSection (text first) "" "" "" ""
                 else if String.eqb (spelled name) "export_group"
                 then PropertySignature.mkExportSection (PropertySignature.category section) (text first) prefix "" ""
                 else PropertySignature.mkExportSection (PropertySignature.category section)
                        (PropertySignature.group section) (PropertySignature.group_prefix section) (text first) prefix) s)
        end
  | [] =>
      error_at ("@" +:+ spelled name +:+ " takes a name" +:+ (if category then "" else " and an optional prefix"))
        (Token.line name) (Token.column name)
  end.

(** [RPCConfig] as it is declared, and the counts of its three options. *)
Record RpcOptions := mkRpcOptions {
  rpc : RPCConfig;
  locality_args : Z;
  permission_args : Z;
  transfer_args : Z
}.

Definition INT32_MAX : Z := 2 ^ 31 - 1.

(** [channel < 0.0 || channel > INT32_MAX || channel != double(int32_t(channel))] *)
Definition bad_channel (channel : double) : outcome bool :=
  if dltb channel dzero || dgtb channel (double_of_Z INT32_MAX) then Ok true
  else let? z := int32_of_double channel in Ok (negb (deqb channel (double_of_Z z))).

Definition rpc_option (i : nat) (argument : ExportArgument) (o : RpcOptions) : P RpcOptions :=
  let c := rpc o in
  let fail {A} (message : string) : P A := error_at message (ExportHints.line argument) (ExportHints.column argument) in
  let rpc_mode := RPCConfig.rpc_mode c in
  let transfer_mode := RPCConfig.transfer_mode c in
  let call_local := RPCConfig.call_local c in
  let channel := RPCConfig.channel c in
  let make := RPCConfig.mkRPCConfig (RPCConfig.name c) in
  let locality x := mkRpcOptions (make rpc_mode transfer_mode x channel)
    (locality_args o + 1) (permission_args o) (transfer_args o) in
  let permission x := mkRpcOptions (make x transfer_mode call_local channel)
    (locality_args o) (permission_args o + 1) (transfer_args o) in
  let transfer x := mkRpcOptions (make rpc_mode x call_local channel)
    (locality_args o) (permission_args o) (transfer_args o + 1) in
  if (i =? 3)%nat then
    let* bad := (if is_kind NUMBER argument then mlift (bad_channel (number argument)) else mret true) in
    if bad then fail "The fourth @rpc argument must be a non-negative integer channel"
    else
      let* value := mlift (int32_of_double (number argument)) in
      mret (mkRpcOptions (make rpc_mode transfer_mode call_local value)
              (locality_args o) (permission_args o) (transfer_args o))
  else if negb (is_kind STRING argument) then fail "The first three @rpc arguments must be string options"
  else if String.eqb (text argument) "call_local" then mret (locality true)
  else if String.eqb (text argument) "call_remote" then mret (locality false)
  else if String.eqb (text argument) "any_peer" then mret (permission 1)
  else if String.eqb (text argument) "authority" then mret (permission 2)
  else if String.eqb (text argument) "unreliable" then mret (transfer 0)
  else if String.eqb (text argument) "unreliable_ordered" then mret (transfer 1)
  else if String.eqb (text argument) "reliable" then mret (transfer 2)
  else fail ("Invalid @rpc option: " +:+ text argument).

Fixpoint rpc_options (i : nat) (arguments : list ExportArgument) (o : RpcOptions) : P RpcOptions :=
  match arguments with
  | [] => mret o
  | argument :: arguments => let* o := rpc_option i argument o in rpc_options (S i) arguments o
  end.

End Annotations.

Section Attribute.
Context {input : Input} {libm : Libm}.

Definition no_options : RpcOptions := mkRpcOptions (RPCConfig.mkRPCConfig "" 2 2 false 0) 0 0 0.

Definition parse_rpc (name : Token) (arguments : list ExportHints.ExportArgument) (a : Annotations) : P Annotations :=
  match an_rpc_config a with
  | None => error_at "@rpc can only be applied to a function" (line name) (column name)
  | Some (Some _) => error_at "@rpc can only be used once per function" (line name) (column name)
  | Some None =>
      when (4 <? length arguments)%nat (error_at "@rpc accepts at most four arguments" (line name) (column name)) ;;;
      let* o := rpc_options 0 arguments no_options in
      when ((1 <? locality_args o) || (1 <? permission_args o) || (1 <? transfer_args o))
        (error_at "Each @rpc option category can be specified only once" (line name) (column name)) ;;;
      mret (set_an_rpc_config (Some (rpc o)) a)
  end.

(** An annotation of the export family. *)
Definition parse_export (name : Token) (arguments : list ExportHints.ExportArgument) (a : Annotations) : P Annotations :=
  let* built := mlift (ExportHints.build_export_hint (spelled name) arguments) in
  match built with
  | Some (parsed, message) =>
      if negb (blank message) then error_at message (line name) (column name)
      else mret (if ExportHints.is_default parsed then a else set_an_hint parsed a)
  | None =>
      let width := Z.of_nat (length (lexeme name)) in
      warn "UNSUPPORTED_ANNOTATION" ("@" +:+ spelled name +:+ " is not implemented yet; it acts as a plain @export")
        (line name) (column name - width - 1) (width + 1) ;;;
      mret a
  end.

(** One of the marks of this compiler's own, which take no arguments and may be
    used once. *)
Definition parse_host_hook (name : Token) (arguments : list ExportHints.ExportArgument) (a : Annotations) : P Annotations :=
  if negb m_extensions then
    error_at "@requires_host_hook is a SafeGDScript extension, not GDScript; enable it with --extensions"
      (line name) (column name)
  else match an_host_hook a with
       | None => error_at "@requires_host_hook is only supported on a file-level instance function" (line name) (column name)
       | Some used =>
           if used || negb (bool_decide (length arguments = 0%nat)) then
             error_at "@requires_host_hook takes no arguments and can only be used once per function" (line name) (column name)
           else mret (set_an_host_hook true a)
       end.

Definition parse_test (name : Token) (arguments : list ExportHints.ExportArgument) (a : Annotations) : P Annotations :=
  if negb m_extensions then
    error_at "@test is a SafeGDScript extension, not GDScript; enable it with --extensions" (line name) (column name)
  else match an_test a with
       | None => error_at "@test is for a file-level function" (line name) (column name)
       | Some true => error_at "@test can only be used once per function" (line name) (column name)
       | Some false =>
           if negb (bool_decide (length arguments = 0%nat)) then error_at "@test takes no arguments" (line name) (column name)
           else mret (set_an_test true a)
       end.

(** Whether the annotation exports, and the variables behind the pointers. *)
Definition parse_attribute (a : Annotations) : P (bool * Annotations) :=
  consume AT "Expected '@' for attribute" ;;;
  let* name := consume IDENTIFIER "Expected an attribute name after '@'" in
  let* arguments := parse_attribute_arguments in
  let spells (s : string) : bool := String.eqb (spelled name) s in
  if spells "export_group" || spells "export_subgroup" || spells "export_category" then
    parse_section name arguments ;;; mret (false, a)
  else if String.prefix "export" (spelled name) then let* a := parse_export name arguments a in mret (true, a)
  else if spells "onready" then
    match an_onready a with
    | None => error_at "@onready is for a member variable; a local is assigned where it is declared" (line name) (column name)
    | Some _ => mret (false, set_an_onready true a)
    end
  else if spells "tool" then modify (set_saw_tool true) ;;; mret (false, a)
  else if spells "abstract" then
    match an_abstract a with
    | None => error_at "@abstract is only supported on a trait method" (line name) (column name)
    | Some _ => mret (false, set_an_abstract true a)
    end
  else if spells "requires_host_hook" then let* a := parse_host_hook name arguments a in mret (false, a)
  else if spells "test" then let* a := parse_test name arguments a in mret (false, a)
  else if spells "rpc" then let* a := parse_rpc name arguments a in mret (false, a)
  else if spells "icon" || spells "warning_ignore" || spells "warning_ignore_start" || spells "warning_ignore_restore"
          || spells "static_unload" then mret (false, a)
  else error ("Unknown attribute: @" +:+ spelled name).

(** [while (check(AT)) { is_export = parse_attribute(...) || is_export; skip_newlines(); }] *)
Definition parse_attributes (a : Annotations) : P (bool * Annotations) :=
  loop (fun st : bool * Annotations =>
    let* found := check AT in
    if negb found then mret (inr st) else
    let* r := parse_attribute st.2 in
    skip_newlines ;;;
    mret (inl (r.1 || st.1, r.2))) (false, a).

End Attribute.

End Parser.
