(* ===== verification/ParserExpr.v ===== *)
(** * The parser: expressions

    Models the expressions of parser.cpp, from [parse_expression] down to
    [parse_primary] (lines 2291 to 2796), with the suites and parameters a lambda
    is made of. *)

From S2P Require Import Prelude.
From S2P Require Import Double.
From S2P Require Import Wire.
From S2P Require Import Token.
From S2P Require Import Ast.
From S2P Require Import Parser.

Module ParserExpr.
Import Token.
Import Ast.
Import Parser.

(** [make_at] and [make_like] *)
Definition make_at (tok : Token) (node : ExprNode) : Expr := mkExpr (line tok) (column tok) node.
Definition make_like (like : Expr) (node : ExprNode) : Expr := mkExpr (expr_line like) (expr_column like) node.

Definition make_binary (left : Expr) (op : BinaryOp.Op) (right : Expr) : Expr :=
  make_like left (BinaryExpr left op right).

Section Expressions.
Context {input : Input} {callees : Callees}.

(** ** Suites *)

(** [while (!check(DEDENT) && !is_at_end())] *)
Definition at_block_end : P bool := or_else (check DEDENT) is_at_end.

Definition parse_block : P (list Stmt) :=
  skip_newlines ;;;
  consume INDENT "Expected indented block" ;;;
  let* statements := loop (fun statements : list Stmt =>
    let* over := at_block_end in
    if over then mret (inr statements) else
    skip_newlines ;;;
    let* over := at_block_end in
    if over then mret (inl statements) else
    let* statement := c_statement in
    mret (inl (statements ++ [statement]))) [] in
  consume DEDENT "Expected dedent after block" ;;;
  mret statements.

Definition parse_inline_suite : P (list Stmt) :=
  modify (fun s => set_inline_suite_depth (m_inline_suite_depth s + 1) s) ;;;
  let* statements := loop (fun statements : list Stmt =>
    let* over := at_inline_suite_end in
    if over then mret (inr statements) else
    let* statement := c_statement in
    let statements := statements ++ [statement] in
    let* semicolon := previous_is SEMICOLON in
    mret (if semicolon then inl statements else inr statements)) [] in
  modify (fun s => set_inline_suite_depth (m_inline_suite_depth s - 1) s) ;;;
  match statements with
  | [] => error "Expected a statement after ':'"
  | _ => mret statements
  end.

Definition parse_suite : P (list Stmt) :=
  let* newline := check NEWLINE in
  if newline then advance ;;; parse_block else parse_inline_suite.

(** ** Arguments and parameters *)

Definition parse_argument_list : P (list Expr * list string) :=
  let* closed := check RPAREN in
  let* r :=
    (if closed then mret ([], []) else
     loop (fun st : list Expr * list string * bool =>
       let '(arguments, names, seen_named) := st in
       let* named := and_also (check IDENTIFIER) (next_is ASSIGN) in
       let* name :=
         (if named then let* tok := advance in advance ;;; mret (spelled tok)
          else when seen_named (error "A positional argument cannot follow a named argument") ;;; mret EmptyString) in
       let* argument := c_expression in
       let arguments := arguments ++ [argument] in
       let names := names ++ [name] in
       let* comma := match_ COMMA in
       let* closed := and_also (mret comma) (check RPAREN) in
       mret (if negb comma || closed then inr (arguments, names) else inl (arguments, names, named || seen_named)))
       ([], [], false)) in
  consume RPAREN "Expected ')' after arguments" ;;;
  mret r.

Definition parse_parameters : P (list Parameter_) :=
  let* closed := check RPAREN in
  if closed then mret [] else
  loop (fun st : list Parameter_ * bool =>
    let '(params, seen_default) := st in
    let* param_name := consume IDENTIFIER "Expected parameter name" in
    let* type_hint := parse_type_hint in
    let* assign := match_ ASSIGN in
    let* default_value :=
      (if assign then let* e := c_expression in mret (Some e)
       else
         when seen_default (error ("Parameter '" +:+ spelled param_name
           +:+ "' without a default value cannot follow one with a default value")) ;;;
         mret None) in
    let params := params ++ [mkParameter (spelled param_name) type_hint default_value (line param_name) (column param_name)] in
    let* closed := check RPAREN in
    let* comma := (if closed then mret true else match_ COMMA) in
    if negb comma then mret (inr params) else
    let* closed := check RPAREN in
    mret (if closed then inr params else inl (params, assign || seen_default))) ([], false).

(** ** Primary expressions *)

Definition parse_node_path : P Expr :=
  let* marker := advance in
  let unique := bool_decide (type marker = MODULO) in
  let* quoted := and_also (mret (negb unique)) (or_else (check STRING) (check NODE_PATH)) in
  let* path :=
    (if quoted then let* tok := advance in mlift (get_string tok)
     else
       loop (fun st : string * bool =>
         let '(path, first) := st in
         let* modulo := match_ MODULO in
         let prefix : string := if modulo || (first && unique) then "%" else EmptyString in
         let* name := consume IDENTIFIER ("Expected a node name after '"
           +:+ (if first then (if unique then "%" else "$") else "/") +:+ "'") in
         let path := path +:+ (if first then EmptyString else "/") +:+ prefix +:+ spelled name in
         let* more := match_ DIVIDE in
         mret (if more then inl (path, false) else inr path)) (EmptyString, true)) in
  mret (make_at marker (CallExpr "get_node" [make_at marker (string_literal path)] [] true)).

(** [await] is tracked over a body only. *)
Definition with_await_tracked {A} (c : P A) : P (A * bool) :=
  let* enclosing_saw_await := gets m_saw_await in
  modify (set_saw_await false) ;;;
  let* a := c in
  let* is_coroutine := gets m_saw_await in
  modify (set_saw_await enclosing_saw_await) ;;;
  mret (a, is_coroutine).

Definition parse_lambda : P Expr :=
  let* func_token := consume FUNC "Expected 'func'" in
  let* named := check IDENTIFIER in
  let* name := (if named then let* tok := advance in mret (spelled tok) else mret EmptyString) in
  consume LPAREN "Expected '(' after 'func' in a lambda" ;;;
  let* parameters := parse_parameters in
  consume RPAREN "Expected ')' after lambda parameters" ;;;
  let* return_type := parse_return_type in
  consume COLON "Expected ':' after lambda signature" ;;;
  let* r := with_await_tracked parse_suite in
  let info := mkFunctionInfo name return_type (line func_token) (column func_token) "" r.2 false false false false "" None 0 "" in
  mret (make_at func_token (LambdaExpr (mkFunction info parameters r.1) "")).

Definition parse_array : P Expr :=
  let* bracket := previous in
  let* closed := check RBRACKET in
  let* elements :=
    (if closed then mret [] else
     loop (fun elements : list Expr =>
       let* element := c_expression in
       let elements := elements ++ [element] in
       let* comma := match_ COMMA in
       let* closed := and_also (mret comma) (check RBRACKET) in
       mret (if negb comma || closed then inr elements else inl elements)) []) in
  consume RBRACKET "Expected ']' after array elements" ;;;
  mret (make_at bracket (ArrayLiteralExpr elements)).

(** An identifier or a string before an [=]. *)
Definition at_lua_key : P bool := and_also (or_else (check IDENTIFIER) (check STRING)) (next_is ASSIGN).

Definition parse_lua_key (lua_here : bool) : P Expr :=
  when (negb lua_here) (error "Expected '=' after dictionary key. Mixing dictionary styles is not allowed") ;;;
  let* name := advance in
  let* key := (if is_type name IDENTIFIER then mret (spelled name) else mlift (get_string name)) in
  advance ;;;
  mret (make_at name (string_literal key)).

Definition parse_python_key (first : bool) : P Expr :=
  let* key := c_expression in
  let* assign := check ASSIGN in
  when assign (error (if first
    then "Expected an identifier or a string as a Lua-style dictionary key (e.g. '{ key = value }')"
    else "Expected ':' after dictionary key. Mixing dictionary styles is not allowed")) ;;;
  consume COLON "Expected ':' after dictionary key" ;;;
  mret key.

Definition parse_dictionary : P Expr :=
  let* brace := previous in
  let* closed := check RBRACE in
  let* elements :=
    (if closed then mret [] else
     loop (fun st : list (Expr * Expr) * bool =>
       let '(elements, lua) := st in
       let* lua_here := at_lua_key in
       let first := bool_decide (length elements = 0%nat) in
       let lua := if first then lua_here else lua in
       let* key := (if lua : bool then parse_lua_key lua_here else parse_python_key first) in
       let* value := c_expression in
       let elements := elements ++ [(key, value)] in
       let* comma := match_ COMMA in
       let* closed := and_also (mret comma) (check RBRACE) in
       mret (if negb comma || closed then inr elements else inl (elements, lua))) ([], false)) in
  consume RBRACE "Expected '}' after dictionary elements" ;;;
  mret (make_at brace (DictionaryLiteralExpr elements)).

(** The token types that are a literal on their own. *)
Definition literal_of (tok : Token) : outcome Literal.Type_ :=
  match type tok with
  | TRUE => Ok (Literal.BOOL true)
  | FALSE => Ok (Literal.BOOL false)
  | NULL_VAL => Ok Literal.NULL_VAL
  | INTEGER => let? v := get_int tok in Ok (Literal.INTEGER v)
  | FLOAT => let? v := get_double tok in Ok (Literal.FLOAT v)
  | STRING => let? v := get_string tok in Ok (Literal.STRING Literal.PLAIN v)
  | STRING_NAME => let? v := get_string tok in Ok (Literal.STRING Literal.STRING_NAME v)
  | _ => let? v := get_string tok in Ok (Literal.STRING Literal.NODE_PATH v)
  end.

Definition parse_primary : P Expr :=
  let* pending := gets m_pending_primary in
  match pending with
  | Some e => modify (set_pending_primary None) ;;; mret e
  | None =>
      let* lambda := check FUNC in
      if lambda then parse_lambda else
      let* literal := match_one_of [TRUE; FALSE; NULL_VAL; INTEGER; FLOAT; STRING; STRING_NAME; NODE_PATH] in
      if literal then
        let* tok := previous in
        let* literal := mlift (literal_of tok) in
        mret (make_at tok (LiteralExpr literal))
      else
      let* path := or_else (check DOLLAR) (check MODULO) in
      if path then parse_node_path else
      let* name := match_ IDENTIFIER in
      if name then let* tok := previous in mret (make_at tok (VariableExpr (spelled tok))) else
      let* paren := match_ LPAREN in
      if paren then
        let* expr := c_expression in
        consume RPAREN "Expected ')' after expression" ;;;
        mret expr
      else
      let* bracket := match_ LBRACKET in
      if bracket then parse_array else
      let* brace := match_ LBRACE in
      if brace then parse_dictionary else
      error "Expected expression"
  end.

(** ** Postfix chains *)

(** [( arguments )] when the next token opens them. *)
Definition parse_method_arguments : P (bool * (list Expr * list string)) :=
  let* paren := match_ LPAREN in
  if paren then let* r := parse_argument_list in mret (true, r) else mret (false, ([], [])).

Definition call_on (callee : Expr) (arguments : list Expr) (names : list string) : P Expr :=
  match expr_node callee with
  | VariableExpr name => mret (make_like callee (CallExpr name arguments names false))
  | _ =>
      when (existsb (fun name => negb (blank name)) names) (error "A call on an expression cannot name its arguments") ;;;
      mret (make_like callee (MemberCallExpr callee "call" arguments [] true false false))
  end.

(** [safe_chain_root] of the outermost link. *)
Definition mark_chain_root (e : Expr) : Expr :=
  match e with
  | mkExpr l c (MemberCallExpr object name arguments names is_method safe _) =>
      mkExpr l c (MemberCallExpr object name arguments names is_method safe true)
  | mkExpr l c (IndexExpr object index _) => mkExpr l c (IndexExpr object index true)
  | _ => e
  end.

Definition parse_call : P Expr :=
  let* expr := parse_primary in
  let* r := loop (fun st : Expr * bool =>
    let '(expr, safe_link) := st in
    let* question_dot := match_ QUESTION_DOT in
    if question_dot then
      let* member := consume_member_name "Expected property or method name after '?.'" in
      let* m := parse_method_arguments in
      let '(is_method, (arguments, names)) := m in
      mret (inl (make_like expr (MemberCallExpr expr (spelled member) arguments names is_method true false), true))
    else
    let* paren := match_ LPAREN in
    if paren then
      let* a := parse_argument_list in
      let* call := call_on expr a.1 a.2 in
      mret (inl (call, safe_link))
    else
    let* dot := match_ DOT in
    if dot then
      let* member := consume_member_name "Expected property or method name after '.'" in
      let* m := parse_method_arguments in
      let '(is_method, (arguments, names)) := m in
      mret (inl (make_like expr (MemberCallExpr expr (spelled member) arguments names is_method false false), safe_link))
    else
    let* bracket := match_ LBRACKET in
    if bracket then
      let* index := c_expression in
      consume RBRACKET "Expected ']' after index" ;;;
      mret (inl (make_like expr (IndexExpr expr index false), safe_link))
    else mret (inr st)) (expr, false) in
  mret (if r.2 : bool then mark_chain_root r.1 else r.1).

(** ** Operators, tightest first *)

Definition unary_node (op : Token) (operand : Expr) : Expr :=
  match type op with
  | MINUS => make_at op (UnaryExpr UnaryOp.NEG operand)
  | BIT_NOT => make_at op (UnaryExpr UnaryOp.BIT_NOT operand)
  | _ => operand
  end.

Definition parse_unary : P Expr :=
  let* pending := gets m_pending_primary in
  match pending with
  | Some _ => parse_call
  | None =>
      let* not := check NOT in
      if not then c_not else
      let* await := check AWAIT in
      if await then
        let* op := advance in
        modify (set_saw_await true) ;;;
        let* operand := c_unary in
        mret (make_at op (AwaitExpr operand))
      else
      let* sign := match_one_of [MINUS; BIT_NOT; PLUS] in
      if sign then
        let* op := previous in
        let* operand := c_unary in
        mret (unary_node op operand)
      else parse_call
  end.

(** The loop of the left-associative levels.  The error is the default branch of
    their switches: no operator reaches it. *)
Definition binary_level (operand : P Expr) (ops : list (TokenType * BinaryOp.Op)) : P Expr :=
  let* lhs := operand in
  loop (fun lhs : Expr =>
    let* found := match_one_of (map fst ops) in
    if negb found then mret (inr lhs) else
    let* op := previous in
    let* rhs := operand in
    match List.find (fun entry => bool_decide (type op = entry.1)) ops with
    | Some (_, bin_op) => mret (inl (make_binary lhs bin_op rhs))
    | None => parser_error "Invalid operator" (line op) (column op)
    end) lhs.

Definition parse_power : P Expr := binary_level parse_unary [(POWER, BinaryOp.POW)].

Definition negate_like (e : Expr) : Expr := make_like e (UnaryExpr UnaryOp.NOT e).

Definition parse_type_test : P Expr :=
  let* lhs := parse_power in
  loop (fun lhs : Expr =>
    let* found := check IS in
    if negb found then mret (inr lhs) else
    advance ;;;
    let* negated := match_ NOT in
    let* type := parse_type_expr in
    let test := make_like lhs (TypeTestExpr lhs type) in
    mret (inl (if negated : bool then negate_like test else test))) lhs.

Definition parse_factor : P Expr :=
  binary_level parse_type_test [(MULTIPLY, BinaryOp.MUL); (DIVIDE, BinaryOp.DIV); (MODULO, BinaryOp.MOD)].
Definition parse_term : P Expr := binary_level parse_factor [(PLUS, BinaryOp.ADD); (MINUS, BinaryOp.SUB)].
Definition parse_shift : P Expr := binary_level parse_term [(SHIFT_LEFT, BinaryOp.SHL); (SHIFT_RIGHT, BinaryOp.SHR)].
Definition parse_bit_and : P Expr := binary_level parse_shift [(BIT_AND, BinaryOp.BIT_AND)].
Definition parse_bit_xor : P Expr := binary_level parse_bit_and [(BIT_XOR, BinaryOp.BIT_XOR)].
Definition parse_bit_or : P Expr := binary_level parse_bit_xor [(BIT_OR, BinaryOp.BIT_OR)].
Definition parse_comparison : P Expr :=
  binary_level parse_bit_or
    [(LESS, BinaryOp.LT); (LESS_EQUAL, BinaryOp.LTE); (GREATER, BinaryOp.GT); (GREATER_EQUAL, BinaryOp.GTE)].
Definition parse_equality : P Expr :=
  binary_level parse_comparison [(EQUAL, BinaryOp.EQ); (NOT_EQUAL, BinaryOp.NEQ)].

Definition parse_inclusion : P Expr :=
  let* lhs := parse_equality in
  loop (fun lhs : Expr =>
    let* negated := and_also (check NOT) (next_is IN) in
    let* found := (if negated then advance ;;; advance ;;; mret true else match_ IN) in
    if negb found then mret (inr lhs) else
    let* rhs := parse_equality in
    let test := make_binary lhs BinaryOp.IN rhs in
    mret (inl (if negated : bool then negate_like test else test))) lhs.

Definition parse_not : P Expr :=
  let* pending := gets m_pending_primary in
  let* not := and_also (mret (if pending is Some _ then false else true)) (match_ NOT) in
  if not then
    let* op := previous in
    let* operand := c_not in
    mret (make_at op (UnaryExpr UnaryOp.NOT operand))
  else parse_inclusion.

Definition parse_and_expression : P Expr := binary_level parse_not [(AND, BinaryOp.AND)].
Definition parse_or_expression : P Expr := binary_level parse_and_expression [(OR, BinaryOp.OR)].

Definition parse_coalesce : P Expr :=
  let* lhs := parse_or_expression in
  let* found := match_ QUESTION_QUESTION in
  if negb found then mret lhs else
  let* rhs := c_coalesce in
  mret (make_binary lhs BinaryOp.COALESCE rhs).

Definition parse_ternary : P Expr :=
  let* true_value := parse_coalesce in
  let* after_block := previous_is DEDENT in
  let* found := (if after_block then mret false else match_ IF) in
  if negb found then mret true_value else
  let* condition := parse_coalesce in
  consume ELSE "Expected 'else' in conditional expression" ;;;
  let* false_value := c_ternary in
  mret (make_like true_value (TernaryExpr condition true_value false_value)).

Definition continues_after_cast : P bool :=
  let* tok := peek in
  match type tok with
  | PLUS | MINUS | MULTIPLY | POWER | DIVIDE | MODULO | BIT_AND | BIT_OR | BIT_XOR | SHIFT_LEFT | SHIFT_RIGHT
  | EQUAL | NOT_EQUAL | LESS | LESS_EQUAL | GREATER | GREATER_EQUAL | AND | OR | IN | IS | IF => mret true
  | NOT => next_is IN
  | _ => mret false
  end.

Definition parse_expression_impl : P Expr :=
  let* expr := parse_ternary in
  loop (fun expr : Expr =>
    let* cast := match_ AS in
    if cast then
      let* type := parse_type_name true in
      let* question := check QUESTION in
      when question (error "'as' cannot take a nullable type; the result of 'as' is already nullable") ;;;
      let expr := make_like expr (CastExpr expr type.1 type.2) in
      let* more := continues_after_cast in
      if more then
        modify (set_pending_primary (Some expr)) ;;;
        let* expr := parse_ternary in
        mret (inl expr)
      else mret (inl expr)
    else
    let* coalesce := match_ QUESTION_QUESTION in
    if coalesce then
      let* fallback := c_expression_impl in
      mret (inl (make_binary expr BinaryOp.COALESCE fallback))
    else mret (inr expr)) expr.

(** To the next token that can follow an expression. *)
Definition skip_expression : P unit :=
  loop (fun _ : unit =>
    let* at_end := is_at_end in
    if at_end then mret (inr tt) else
    let* tok := peek in
    if is_one_of tok [NEWLINE; SEMICOLON; COLON; INDENT; DEDENT; COMMA; RPAREN; RBRACKET; RBRACE]
    then mret (inr tt) else advance ;;; mret (inl tt)) tt.

Definition parse_expression : P Expr :=
  let* tol := gets tolerant in
  if negb tol then parse_expression_impl else
  let* tok := peek in
  try_recovery parse_expression_impl (skip_expression ;;; mret (make_at tok ErrorExpr)).

End Expressions.

End ParserExpr.
