(* ===== verification/ParserStmt.v ===== *)
(** * The parser: statements and patterns

    Models the statements of parser.cpp, from [parse_statement] to
    [parse_expr_or_assign_stmt], with the patterns of [match], the accessors of
    properties and the rewriting of compound assignments. *)

From stdpp Require Import pretty.
From S2P Require Import Prelude.
From S2P Require Import Double.
From S2P Require Import Token.
From S2P Require Import ExportHints.
From S2P Require Import Ast.
From S2P Require Import Parser.
From S2P Require Import ParserExpr.
Open Scope Z_scope.

Module ParserStmt.
Import Token.
Import Ast.
Import Parser.
Import ParserExpr.

(** ** Compound assignments *)

(** [clone_lvalue]: a copy of a target that can be read twice; [None] is null. *)
Fixpoint clone_lvalue (e : Expr) : option Expr :=
  let '(mkExpr l c node) := e in
  match node with
  | VariableExpr _ | LiteralExpr _ => Some e
  | CallExpr name arguments _ sugar =>
      if sugar then
        match mapM clone_lvalue arguments with
        | Some copies => Some (mkExpr l c (CallExpr name copies [] true))
        | None => None
        end
      else None
  | MemberCallExpr object name _ _ is_method safe _ =>
      if is_method || safe then None
      else match clone_lvalue object with
           | Some copy => Some (mkExpr l c (MemberCallExpr copy name [] [] false false false))
           | None => None
           end
  | IndexExpr object index _ =>
      match clone_lvalue object, clone_lvalue index with
      | Some object, Some index => Some (mkExpr l c (IndexExpr object index false))
      | _, _ => None
      end
  | UnaryExpr op operand =>
      match clone_lvalue operand with
      | Some copy => Some (mkExpr l c (UnaryExpr op copy))
      | None => None
      end
  | _ => None
  end.

Definition assign_to (target value : Expr) : StmtNode := AssignStmt "" (Some target) value.

(** The assignment of a value to a variable or to the place a target names. *)
Definition assign_node (target value : Expr) : StmtNode :=
  match expr_node target with
  | VariableExpr name => AssignStmt name None value
  | _ => assign_to target value
  end.

(** The lambda [temp]: a fresh variable that holds a value. *)
Definition compound_temp (at_ value : Expr) : P (string * Stmt) :=
  let* n := gets m_compound_temps in
  modify (set_compound_temps (n + 1)) ;;;
  let name := "__compound_" +:+ pretty n in
  let info := set_v_line (expr_line at_) (set_v_column (expr_column at_) (var_info name false)) in
  mret (name, DeclStmt (mkVarDecl info (Some value) None None)).

(** The container, and the key, of a target are evaluated once. *)
Definition hoist_compound_target (target : Expr) (op : BinaryOp.Op) (rhs : Expr) : P Stmt :=
  let at_stmt (node : StmtNode) := mkStmt (expr_line target) (expr_column target) node in
  let variable name := make_like target (VariableExpr name) in
  let scope (temps : list Stmt) (access : Expr) :=
    let assign := at_stmt (assign_to access (make_binary access op rhs)) in
    at_stmt (IfStmt (Some (make_like target (LiteralExpr (Literal.BOOL true)))) None (temps ++ [assign]) []) in
  match expr_node target with
  | IndexExpr object index _ =>
      let* object := compound_temp target object in
      let* key := compound_temp target index in
      mret (scope [object.2; key.2] (make_like target (IndexExpr (variable object.1) (variable key.1) false)))
  | MemberCallExpr object name _ _ _ _ _ =>
      let* object := compound_temp target object in
      mret (scope [object.2] (make_like target (MemberCallExpr (variable object.1) name [] [] false false false)))
  | _ => mthrow (UB "static_cast to another class")
  end.

Definition compound_ops : list (TokenType * BinaryOp.Op) := [
  (PLUS_ASSIGN, BinaryOp.ADD);
  (MINUS_ASSIGN, BinaryOp.SUB);
  (MULTIPLY_ASSIGN, BinaryOp.MUL);
  (DIVIDE_ASSIGN, BinaryOp.DIV);
  (MODULO_ASSIGN, BinaryOp.MOD);
  (POWER_ASSIGN, BinaryOp.POW);
  (BIT_AND_ASSIGN, BinaryOp.BIT_AND);
  (BIT_OR_ASSIGN, BinaryOp.BIT_OR);
  (BIT_XOR_ASSIGN, BinaryOp.BIT_XOR);
  (SHIFT_LEFT_ASSIGN, BinaryOp.SHL);
  (SHIFT_RIGHT_ASSIGN, BinaryOp.SHR)
].

(** A statement without a position: [parse_statement] gives it one. *)
Definition unplaced (node : StmtNode) : Stmt := mkStmt 0 0 node.

Section Statements.
Context {input : Input} {callees : Callees}.

(** The first entry of the table whose token is next. *)
Fixpoint find_compound (ops : list (TokenType * BinaryOp.Op)) : P (option BinaryOp.Op) :=
  match ops with
  | [] => mret None
  | (t, op) :: ops => let* found := check t in if found then mret (Some op) else find_compound ops
  end.

(** What can be assigned to. *)
Definition checked_target (target : Expr) : P unit :=
  let fail message := parser_error message (expr_line target) (expr_column target) in
  match expr_node target with
  | VariableExpr _ => mret tt
  | IndexExpr _ _ root => when root (fail "Cannot assign through '?.'; write the null check out")
  | MemberCallExpr _ _ _ _ is_method safe _ =>
      if is_method then fail "Cannot assign to method call"
      else when safe (fail "Cannot assign through '?.'; write the null check out")
  | _ => fail "Invalid assignment target"
  end.

(** A target that can only be evaluated once, but whose parts can be kept. *)
Definition can_hoist (target : Expr) : bool :=
  match expr_node target with
  | IndexExpr _ _ root => negb root
  | MemberCallExpr _ _ _ _ is_method safe _ => negb is_method && negb safe
  | _ => false
  end.

Definition parse_compound (lhs : Expr) (op : BinaryOp.Op) : P Stmt :=
  match clone_lvalue lhs with
  | None =>
      when (negb (can_hoist lhs))
        (parser_error "Invalid target for compound assignment" (expr_line lhs) (expr_column lhs)) ;;;
      advance ;;;
      let* rhs := c_expression in
      consume_statement_end "Expected newline after assignment" ;;;
      hoist_compound_target lhs op rhs
  | Some read =>
      advance ;;;
      let* rhs := c_expression in
      let combined := make_binary read op rhs in
      consume_statement_end "Expected newline after assignment" ;;;
      mret (unplaced (assign_node lhs combined))
  end.

Definition parse_expr_or_assign_stmt : P Stmt :=
  let* await := check AWAIT in
  if await then
    let* expr := c_expression in
    consume_statement_end "Expected newline after expression" ;;;
    mret (unplaced (ExprStmt expr))
  else
  let* statement_start := gets m_current in
  let* lhs := parse_call in
  let* assign := match_ ASSIGN in
  if assign then
    let* value := c_expression in
    consume_statement_end "Expected newline after assignment" ;;;
    checked_target lhs ;;;
    mret (unplaced (assign_node lhs value))
  else
  let* compound := find_compound compound_ops in
  match compound with
  | Some op => parse_compound lhs op
  | None =>
      let* over := check_any [NEWLINE; SEMICOLON; DEDENT] in
      let* over := or_else (mret over) is_at_end in
      let* depth := gets m_inline_suite_depth in
      let* over := or_else (mret over) (and_also (mret (0 <? depth)) at_inline_suite_end) in
      let* lhs :=
        (if over then mret lhs
         else modify (set_current statement_start) ;;; c_expression) in
      consume_statement_end "Expected newline after expression" ;;;
      mret (unplaced (ExprStmt lhs))
  end.

(** ** Variables and their accessors *)

Definition at_property_accessor : P bool :=
  let* ident := check IDENTIFIER in
  if negb ident then mret false else
  let* next := peek_ahead 1 in
  let* tok := peek in
  mret ((String.eqb (spelled tok) "set" || String.eqb (spelled tok) "get") && is_one_of next [ASSIGN; LPAREN; COLON]).

Definition has_setter (d : VarDecl) : bool :=
  negb (blank (v_setter_name (var_decl_info d))) || (if setter_body d is Some _ then true else false).
Definition has_getter (d : VarDecl) : bool :=
  negb (blank (v_getter_name (var_decl_info d))) || (if getter_body d is Some _ then true else false).

(** The name of an accessor's function. *)
Definition set_accessor_name (is_setter : bool) (name : string) (d : VarDecl) : VarDecl :=
  let '(mkVarDecl info init setter getter) := d in
  mkVarDecl (if is_setter then set_v_setter_name name info else set_v_getter_name name info) init setter getter.
Definition set_accessor_body (is_setter : bool) (f : FunctionDecl) (d : VarDecl) : VarDecl :=
  let '(mkVarDecl info init setter getter) := d in
  mkVarDecl info init (if is_setter then Some f else setter) (if is_setter then getter else Some f).

Definition parse_accessor_parameters (is_setter : bool) : P (list Parameter_) :=
  let* paren := match_ LPAREN in
  if paren then
    let* closed := (if is_setter then mret false else check RPAREN) in
    let* parameters :=
      (if closed then mret [] else
       let* param := consume IDENTIFIER "Expected the assigned value's name in 'set(...)'" in
       let* type_hint := parse_type_hint in
       mret [mkParameter (spelled param) type_hint None (line param) (column param)]) in
    consume RPAREN "Expected ')' after the accessor's parameter" ;;;
    mret parameters
  else
    when is_setter
      (error "Expected '(' after 'set': a setter body names the assigned value, as in 'set(value):'") ;;;
    mret [].

Definition parse_one_property_accessor (decl : VarDecl) : P VarDecl :=
  let* accessor := at_property_accessor in
  when (negb accessor) (error "Expected 'set' or 'get' in a property declaration") ;;;
  let* keyword := advance in
  let is_setter := String.eqb (spelled keyword) "set" in
  let property := v_name (var_decl_info decl) in
  when (if is_setter then has_setter decl else has_getter decl)
    (error ("Property '" +:+ property +:+ "' already has a '" +:+ spelled keyword +:+ "'")) ;;;
  let* assign := match_ ASSIGN in
  if assign then
    let* target := consume IDENTIFIER ("Expected a function name after '" +:+ spelled keyword +:+ " ='") in
    mret (set_accessor_name is_setter (spelled target) decl)
  else
    let* parameters := parse_accessor_parameters is_setter in
    consume COLON ("Expected ':' after '" +:+ spelled keyword +:+ "'") ;;;
    let* r := with_await_tracked parse_suite in
    when r.2 (error "A property accessor cannot await") ;;;
    let info := mkFunctionInfo ("@" +:+ property +:+ (if is_setter then "_setter" else "_getter")) no_type
      (line keyword) (column keyword) "" r.2 false false false false "" None 0 "" in
    mret (set_accessor_body is_setter (mkFunction info parameters r.1) decl).

Definition parse_property_accessors (decl : VarDecl) : P VarDecl :=
  let* block := check NEWLINE in
  when block (skip_newlines ;;; consume INDENT "Expected an indented block of property accessors" ;;; mret tt) ;;;
  let* decl := loop (fun decl : VarDecl =>
    let* over := (if block : bool then skip_newlines ;;; check DEDENT else mret false) in
    if over then mret (inr decl) else
    let* decl := parse_one_property_accessor decl in
    let* comma := match_ COMMA in
    mret (if negb block && negb comma then inr decl else inl decl)) decl in
  (if block then skip_newlines ;;; consume DEDENT "Expected the property accessors to end" ;;; mret tt
   else consume_statement_end "Expected newline after the property accessors") ;;;
  when (negb (has_accessors decl)) (error "Expected 'set' or 'get' after ':'") ;;;
  mret decl.

(** After the [:] of a declaration: the type, whether accessors follow, and
    whether the type is to be inferred. *)
Definition parse_var_type : P (TypeExpr * bool * bool) :=
  let* colon := match_ COLON in
  if negb colon then mret (no_type, false, false) else
  let* accessors := or_else at_property_accessor (check NEWLINE) in
  if accessors then mret (no_type, true, false) else
  let* typed := at_type in
  if typed then let* type := parse_type_expr in mret (type, false, false)
  else let* inferred := check ASSIGN in mret (no_type, false, inferred).

Definition parse_var_decl (is_const : bool) : P VarDecl :=
  let* name := consume IDENTIFIER "Expected variable name" in
  let* r := parse_var_type in
  let '(type_hint, accessors_follow, inferred) := r in
  let* r :=
    (if accessors_follow : bool then mret (None, true) else
     let* assign := match_ ASSIGN in
     let* initializer :=
       (if assign then let* e := c_expression in mret (Some e)
        else when is_const (error "Const variables must have an initializer") ;;; mret None) in
     let* accessors_follow := match_ COLON in
     mret (initializer, accessors_follow)) in
  let '(initializer, accessors_follow) := r in
  let info := set_v_line (line name) (set_v_column (column name) (set_v_type_hint type_hint (set_v_inferred inferred
    (set_v_doc_comment (doc_comment_above (line name)) (var_info (spelled name) is_const))))) in
  let decl := mkVarDecl info initializer None None in
  if accessors_follow : bool then
    when is_const (error "A const cannot have a setter or a getter") ;;;
    parse_property_accessors decl
  else
    consume_statement_end "Expected newline after variable declaration" ;;;
    mret decl.

(** ** Control flow *)

Definition no_binding_initializer : string := "An 'if var' binding needs an initializer with '=' or ':='".

Definition parse_if_var_binding : P VarDecl :=
  let* name := consume IDENTIFIER "Expected variable name after 'if var'" in
  let* colon := match_ COLON in
  let* type_hint :=
    (if colon then
       let* assign := match_ ASSIGN in
       if assign then mret no_type else
       let* typed := at_type in
       if typed then
         let* type_hint := parse_type_expr in
         consume ASSIGN "An 'if var' binding needs an initializer after its type" ;;;
         mret type_hint
       else error no_binding_initializer
     else
       let* assign := match_ ASSIGN in
       when (negb assign) (error no_binding_initializer) ;;;
       mret no_type) in
  let* initializer := c_expression in
  let info := set_v_line (line name) (set_v_column (column name) (set_v_type_hint type_hint (var_info (spelled name) false))) in
  mret (mkVarDecl info (Some initializer) None None).

Definition parse_if_stmt : P Stmt :=
  let* binds := match_ VAR in
  let* head :=
    (if binds then let* binding := parse_if_var_binding in mret (None, Some binding)
     else let* condition := c_expression in mret (Some condition, None)) in
  consume COLON "Expected ':' after if condition" ;;;
  let* then_branch := parse_suite in
  skip_newlines ;;;
  let* elif := match_ ELIF in
  let* else_branch :=
    (if elif then let* elif_stmt := c_if_stmt in mret [elif_stmt]
     else
       let* else_ := match_ ELSE in
       if else_ then consume COLON "Expected ':' after else" ;;; parse_suite else mret []) in
  mret (unplaced (IfStmt head.1 head.2 then_branch else_branch)).

Definition parse_while_stmt : P Stmt :=
  let* condition := c_expression in
  consume COLON "Expected ':' after while condition" ;;;
  let* body := parse_suite in
  mret (unplaced (WhileStmt condition body)).

Definition parse_for_stmt : P Stmt :=
  let* var_name := consume IDENTIFIER "Expected variable name in for loop" in
  parse_type_hint ;;;
  consume IN "Expected 'in' after for loop variable" ;;;
  let* iterable := c_expression in
  consume COLON "Expected ':' after for loop iterable" ;;;
  let* body := parse_suite in
  mret (unplaced (ForStmt (spelled var_name) iterable body)).

Definition parse_return_stmt : P Stmt :=
  let* over := or_else at_inline_suite_end (check SEMICOLON) in
  let* value := (if over then mret None else let* e := c_expression in mret (Some e)) in
  consume_statement_end "Expected newline after return statement" ;;;
  mret (unplaced (ReturnStmt value)).

(** ** Patterns *)

Definition empty_pattern (kind : Pattern.Kind) (l c : Z) : MatchPattern := mkPattern kind None "" [] [] "" [] false l c.

(** A trailing [..], which has to be the last entry. *)
Definition parse_pattern_rest (what : string) : P bool :=
  let* rest := match_ DOT_DOT in
  if negb rest then mret false else
  match_ COMMA ;;;
  let* closed := or_else (check RBRACKET) (check RBRACE) in
  let* at_ := peek in
  when (negb closed)
    (parser_error ("'..' has to be the last entry of " +:+ what) (line at_) (column at_)) ;;;
  mret true.

Definition parse_match_struct_pattern : P MatchPattern :=
  let* name := consume IDENTIFIER "Expected a struct name in the pattern" in
  consume LPAREN "Expected '(' after the struct name in the pattern" ;;;
  let* entries := loop (fun st : list (string * MatchPattern) * bool =>
    let '(entries, saw_named) := st in
    let* over := or_else (check RPAREN) is_at_end in
    if over then mret (inr entries) else
    let* named := and_also (check IDENTIFIER) (next_is ASSIGN) in
    let* field :=
      (if named then let* tok := advance in advance ;;; mret (spelled tok)
       else
         let* at_ := peek in
         when saw_named
           (parser_error "A positional struct pattern cannot follow a named field pattern" (line at_) (column at_)) ;;;
         mret EmptyString) in
    let* value := c_match_pattern in
    let entries := entries ++ [(field, value)] in
    let* comma := match_ COMMA in
    mret (if comma then inl (entries, named || saw_named) else inr entries)) ([], false) in
  consume RPAREN "Expected ')' after the struct pattern" ;;;
  mret (mkPattern Pattern.STRUCT None "" [] [] (spelled name) entries false (line name) (column name)).

Definition parse_match_array_pattern : P MatchPattern :=
  let* open_bracket := consume LBRACKET "Expected '[' to start an array pattern" in
  let* r := loop (fun elements : list MatchPattern =>
    let* over := or_else (check RBRACKET) is_at_end in
    if over then mret (inr (elements, false)) else
    let* rest := parse_pattern_rest "an array pattern" in
    if rest then mret (inr (elements, true)) else
    let* element := c_match_pattern in
    let elements := elements ++ [element] in
    let* comma := match_ COMMA in
    mret (if comma then inl elements else inr (elements, false))) [] in
  consume RBRACKET "Expected ']' after an array pattern" ;;;
  mret (mkPattern Pattern.ARRAY None "" r.1 [] "" [] r.2 (line open_bracket) (column open_bracket)).

Definition parse_match_dictionary_pattern : P MatchPattern :=
  let* open_brace := consume LBRACE "Expected '{' to start a dictionary pattern" in
  let* r := loop (fun entries : list (Expr * option MatchPattern) =>
    let* over := or_else (check RBRACE) is_at_end in
    if over then mret (inr (entries, false)) else
    let* rest := parse_pattern_rest "a dictionary pattern" in
    if rest then mret (inr (entries, true)) else
    let* key := c_expression in
    let* colon := match_ COLON in
    let* value := (if colon then let* p := c_match_pattern in mret (Some p) else mret None) in
    let entries := entries ++ [(key, value)] in
    let* comma := match_ COMMA in
    mret (if comma then inl entries else inr (entries, false))) [] in
  consume RBRACE "Expected '}' after a dictionary pattern" ;;;
  mret (mkPattern Pattern.DICTIONARY None "" [] r.1 "" [] r.2 (line open_brace) (column open_brace)).

Definition parse_match_pattern : P MatchPattern :=
  let* tok := peek in
  let* ident := check IDENTIFIER in
  if ident && String.eqb (spelled tok) "_" then
    advance ;;; mret (empty_pattern Pattern.WILDCARD (line tok) (column tok))
  else
  let* var := match_ VAR in
  if var then
    let* name := consume IDENTIFIER "Expected a name after 'var' in a pattern" in
    mret (mkPattern Pattern.BIND None (spelled name) [] [] "" [] false (line tok) (column tok))
  else
  let* bracket := check LBRACKET in
  if bracket then parse_match_array_pattern else
  let* brace := check LBRACE in
  if brace then parse_match_dictionary_pattern else
  let* struct := and_also (mret ident) (next_is LPAREN) in
  if struct then parse_match_struct_pattern else
  let* value := c_expression in
  mret (mkPattern Pattern.VALUE (Some value) "" [] [] "" [] false (expr_line value) (expr_column value)).

Definition pattern_line (p : MatchPattern) : Z := let '(mkPattern _ _ _ _ _ _ _ _ l _) := p in l.
Definition pattern_column (p : MatchPattern) : Z := let '(mkPattern _ _ _ _ _ _ _ _ _ c) := p in c.

(** A binding next to other patterns would be undefined when a sibling matched. *)
Definition check_patterns (patterns : list MatchPattern) : P unit :=
  if (1 <? length patterns)%nat then
    match List.find binds patterns with
    | Some p =>
        parser_error "A pattern that binds a name cannot share an arm with other patterns"
          (pattern_line p) (pattern_column p)
    | None => mret tt
    end
  else mret tt.

Definition parse_branch (kw : string) : P Branch :=
  let* patterns := loop (fun patterns : list MatchPattern =>
    let* pattern := c_match_pattern in
    let patterns := patterns ++ [pattern] in
    let* comma := match_ COMMA in
    let* colon := (if comma then check COLON else mret true) in
    mret (if colon then inr patterns else inl patterns)) [] in
  check_patterns patterns ;;;
  let* ident := check IDENTIFIER in
  let* tok := peek in
  let* guard :=
    (if ident && String.eqb (spelled tok) "when"
     then advance ;;; let* e := c_expression in mret (Some e) else mret None) in
  consume COLON ("Expected ':' after " +:+ kw +:+ " pattern") ;;;
  let* body := parse_suite in
  mret (mkBranch patterns guard body).

Definition parse_match_stmt (is_switch : bool) : P Stmt :=
  let* keyword := previous in
  let kw : string := if is_switch then "switch" else "match" in
  let* subject := c_expression in
  consume COLON ("Expected ':' after " +:+ kw +:+ " subject") ;;;
  consume NEWLINE "Expected newline after ':'" ;;;
  skip_newlines ;;;
  consume INDENT ("Expected indented block after '" +:+ kw +:+ "'") ;;;
  let* branches := loop (fun branches : list Branch =>
    let* over := at_block_end in
    if over then mret (inr branches) else
    skip_newlines ;;;
    let* over := at_block_end in
    if over then mret (inr branches) else
    let* branch := parse_branch kw in
    mret (inl (branches ++ [branch]))) [] in
  skip_newlines ;;;
  consume DEDENT ("Expected dedent after " +:+ kw +:+ " block") ;;;
  when (bool_decide (length branches = 0%nat)) (error ("'" +:+ kw +:+ "' requires at least one pattern")) ;;;
  mret (mkStmt (line keyword) (column keyword) (MatchStmt subject branches is_switch)).

(** ** Statements *)

Definition place_statement (l c : Z) (s : Stmt) : Stmt :=
  match s with
  | DeclStmt (mkVarDecl info init setter getter) =>
      if v_line info =? 0 then DeclStmt (mkVarDecl (set_v_line l (set_v_column c info)) init setter getter) else s
  | mkStmt l' _ node => if l' =? 0 then mkStmt l c node else s
  end.

Context {libm : Libm}.

(** No pointers: a local statement takes no annotation that has an effect. *)
Definition local_annotations : Annotations := mkAnnotations ExportHints.no_hint None None None None None.

Definition parse_local_annotations : P unit :=
  loop (fun _ : unit =>
    let* found := check AT in
    if negb found then mret (inr tt) else
    let* r := parse_attribute local_annotations in
    when r.1 (error "@export names a script property; a local variable is not one") ;;;
    skip_newlines ;;;
    mret (inl tt)) tt.

(** A keyword that is a statement on its own. *)
Definition keyword_stmt (node : StmtNode) (message : string) : P Stmt :=
  consume_statement_end message ;;; mret (unplaced node).

Definition parse_statement_impl : P Stmt :=
  skip_newlines ;;;
  parse_local_annotations ;;;
  let* found := match_ VAR in
  if found then let* d := parse_var_decl false in mret (DeclStmt d) else
  let* found := match_ CONST in
  if found then let* d := parse_var_decl true in mret (DeclStmt d) else
  let* found := check CLASS in
  when found (error "A class can only be declared at the top level of the file") ;;;
  let* found := check TRAIT in
  when found (error "A trait can only be declared at the top level of the file") ;;;
  let* found := match_ IF in
  if found then parse_if_stmt else
  let* found := match_ WHILE in
  if found then parse_while_stmt else
  let* found := match_ FOR in
  if found then parse_for_stmt else
  let* found := match_ MATCH in
  if found then parse_match_stmt false else
  let* found := match_ SWITCH in
  if found then parse_match_stmt true else
  let* found := match_ RETURN in
  if found then parse_return_stmt else
  let* found := match_ BREAK in
  if found then keyword_stmt BreakStmt "Expected newline after 'break'" else
  let* found := match_ CONTINUE in
  if found then keyword_stmt ContinueStmt "Expected newline after 'continue'" else
  let* found := match_ PASS in
  if found then keyword_stmt PassStmt "Expected newline after 'pass'" else
  let* found := check BREAKPOINT in
  if found then
    let* tok := advance in
    consume_statement_end "Expected newline after 'breakpoint'" ;;;
    mret (mkStmt (line tok) (column tok) BreakpointStmt)
  else parse_expr_or_assign_stmt.

Definition recover_statement (entry : nat) : P Stmt :=
  recover_to_statement_end ;;;
  let* current := gets m_current in
  let* at_end := is_at_end in
  let* dedent := check DEDENT in
  when (bool_decide (current = entry) && negb at_end && negb dedent) (advance ;;; mret tt) ;;;
  mret (unplaced PassStmt).

Definition parse_statement : P Stmt :=
  let* tok := peek in
  let* entry := gets m_current in
  let* tol := gets tolerant in
  let* stmt :=
    (if tol then try_recovery parse_statement_impl (recover_statement entry) else parse_statement_impl) in
  mret (place_statement (line tok) (column tok) stmt).

End Statements.

End ParserStmt.
