(* ===== verification/ParserDecl.v ===== *)
(** * The parser: declarations

    Models, of parser.cpp, constant folding of enum members, functions,
    signals, enums, structs and classes. *)

From S2P Require Import Prelude.
From S2P Require Import Double.
From S2P Require Import Token.
From S2P Require Import Lexer.
From S2P Require Import GlobalConstants.
From S2P Require Import ExportHints.
From S2P Require Import DeclarationBlobs.
From S2P Require Import Ast.
From S2P Require Import Parser.
From S2P Require Import ParserExpr.
From S2P Require Import ParserStmt.

Module ParserDecl.
Import Token.
Import Ast.
Import Parser.
Import ParserExpr.
Import ParserStmt.

(** ** Constant folding *)

(** [fail]: what is wrong, and the expression it is wrong in. *)
Definition Folded : Type := (string * Expr) + Z.

Definition of_bool (b : bool) : Z := if b then 1 else 0.

Definition not_integer_operator : string := "this operator is not an integer operator".

Definition fold_unary (op : UnaryOp.Op) (operand : Z) : Z :=
  match op with
  | UnaryOp.NEG => to_int64 (- operand)
  | UnaryOp.BIT_NOT => Z.lnot operand
  | UnaryOp.NOT => of_bool (operand =? 0)
  end.

Section Folding.
Context {libm : Libm}.

(** [std::pow] on the converted operands. *)
Definition fold_power (left right : Z) : outcome (string + Z) :=
  let result := d_pow (double_of_Z left) (double_of_Z right) in
  if negb (is_finite result) || dltb result (double_of_Z INT64_MIN) || dgeb result (dneg (double_of_Z INT64_MIN))
  then Ok (inl "this power is outside the range of an integer"%string)
  else let? z := int64_of_double result in Ok (inr z).

Definition fold_binary (op : BinaryOp.Op) (left right : Z) : outcome (string + Z) :=
  let shift := Z.land right 63 in
  match op with
  | BinaryOp.ADD => Ok (inr (to_int64 (left + right)))
  | BinaryOp.SUB => Ok (inr (to_int64 (left - right)))
  | BinaryOp.MUL => Ok (inr (to_int64 (left * right)))
  | BinaryOp.DIV =>
      if right =? 0 then Ok (inl "it divides by zero"%string)
      else Ok (inr (if (left =? INT64_MIN) && (right =? -1) then INT64_MIN else Z.quot left right))
  | BinaryOp.MOD =>
      if right =? 0 then Ok (inl "it divides by zero"%string)
      else Ok (inr (if (left =? INT64_MIN) && (right =? -1) then 0 else Z.rem left right))
  | BinaryOp.POW => fold_power left right
  | BinaryOp.SHL => Ok (inr (to_int64 (Z.shiftl left shift)))
  | BinaryOp.SHR => Ok (inr (Z.shiftr left shift))
  | BinaryOp.BIT_AND => Ok (inr (Z.land left right))
  | BinaryOp.BIT_OR => Ok (inr (Z.lor left right))
  | BinaryOp.BIT_XOR => Ok (inr (Z.lxor left right))
  | BinaryOp.EQ => Ok (inr (of_bool (left =? right)))
  | BinaryOp.NEQ => Ok (inr (of_bool (negb (left =? right))))
  | BinaryOp.LT => Ok (inr (of_bool (left <? right)))
  | BinaryOp.LTE => Ok (inr (of_bool (left <=? right)))
  | BinaryOp.GT => Ok (inr (of_bool (right <? left)))
  | BinaryOp.GTE => Ok (inr (of_bool (right <=? left)))
  | BinaryOp.AND => Ok (inr (of_bool (negb (left =? 0) && negb (right =? 0))))
  | BinaryOp.OR => Ok (inr (of_bool (negb (left =? 0) || negb (right =? 0))))
  | BinaryOp.COALESCE => Ok (inr left)
  | BinaryOp.IN => Ok (inl not_integer_operator)
  end.

(** An earlier member, an integer constant of the file, or one of the engine. *)
Definition fold_variable (name : string) (decl : option EnumDecl) (consts : gmap string Z) : string + Z :=
  let outside :=
    match consts !! name with
    | Some value => inr value
    | None =>
        let unknown := inl ("'" +:+ name +:+ "' is not one of this enum's earlier members and not an integer 'const'") in
        match GlobalConstants.find_global_constant name with
        | Some constant =>
            if GlobalConstants.is_float constant then unknown else inr (GlobalConstants.int_value constant)
        | None => unknown
        end
    end in
  match decl with
  | None => outside
  | Some decl =>
      match find_member decl name with
      | Some member =>
          match m_value_expr member with
          | Some _ => inl ("'" +:+ name +:+ "' is an engine constant, which has no value until the program runs")
          | None => inr (m_value member)
          end
      | None => outside
      end
  end.

Fixpoint try_fold_int (expr : Expr) (decl : option EnumDecl) (consts : gmap string Z) : outcome Folded :=
  let blame (r : string + Z) : Folded := match r with inl why => inl (why, expr) | inr z => inr z end in
  match expr with
  | mkExpr _ _ node =>
      match node with
      | LiteralExpr (Literal.INTEGER v) => Ok (inr v)
      | LiteralExpr (Literal.BOOL b) => Ok (inr (of_bool b))
      | LiteralExpr _ => Ok (blame (inl "this literal is not an integer"%string))
      | UnaryExpr op operand =>
          let? r := try_fold_int operand decl consts in
          match r with
          | inl _ => Ok r
          | inr z => Ok (inr (fold_unary op z))
          end
      | BinaryExpr left_ op right_ =>
          let? l := try_fold_int left_ decl consts in
          match l with
          | inl _ => Ok l
          | inr left_ =>
              let? r := try_fold_int right_ decl consts in
              match r with
              | inl _ => Ok r
              | inr right_ => let? folded := fold_binary op left_ right_ in Ok (blame folded)
              end
          end
      | TernaryExpr condition true_value false_value =>
          let? c := try_fold_int condition decl consts in
          match c with
          | inl _ => Ok c
          | inr c =>
              let? t := try_fold_int true_value decl consts in
              match t with
              | inl _ => Ok t
              | inr t =>
                  let? f := try_fold_int false_value decl consts in
                  match f with
                  | inl _ => Ok f
                  | inr f => Ok (inr (if negb (c =? 0) then t else f))
                  end
              end
          end
      | VariableExpr name => Ok (blame (fold_variable name decl consts))
      | _ => Ok (blame (inl "only literals, operators over them, earlier members and integer 'const' values are"%string))
      end
  end.

(** A qualified name that only the engine can resolve. *)
Fixpoint holds_engine_constant (expr : Expr) : bool :=
  match expr with
  | mkExpr _ _ node =>
      match node with
      | MemberCallExpr _ _ _ _ is_method _ _ => negb is_method
      | UnaryExpr _ operand => holds_engine_constant operand
      | BinaryExpr left_ _ right_ => holds_engine_constant left_ || holds_engine_constant right_
      | _ => false
      end
  end.

Definition record_const_value (decl : VarDecl) : P unit :=
  match v_is_const (var_decl_info decl), initializer decl with
  | true, Some e =>
      let* consts := gets m_const_ints in
      let* r := mlift (try_fold_int e None consts) in
      match r with
      | inr value => modify (fun s => set_const_ints (<[v_name (var_decl_info decl) := value]> (m_const_ints s)) s)
      | inl _ => mret tt
      end
  | _, _ => mret tt
  end.

End Folding.

Section Declarations.
Context {input : Input} {callees : Callees} {libm : Libm}.

Definition fold_enum_value (expr : Expr) (decl : EnumDecl) (start : Token) : P Z :=
  let* consts := gets m_const_ints in
  let* r := mlift (try_fold_int expr (Some decl) consts) in
  match r with
  | inr value => mret value
  | inl (why, at_) =>
      let placed := negb (expr_line at_ =? 0) in
      error_at ("An enum member's value has to be an integer constant expression; " +:+ why)
        (if placed then expr_line at_ else line start) (if placed then expr_column at_ else column start)
  end.

(** ** Functions and signals *)

Definition parse_function : P FunctionDecl :=
  let* func_token := consume FUNC "Expected 'func'" in
  let* name := consume IDENTIFIER "Expected function name" in
  consume LPAREN "Expected '(' after function name" ;;;
  let* parameters := parse_parameters in
  consume RPAREN "Expected ')' after parameters" ;;;
  let* return_type := parse_return_type in
  consume COLON "Expected ':' after function signature" ;;;
  let* r := with_await_tracked parse_suite in
  let info := mkFunctionInfo (spelled name) return_type (line func_token) (column func_token)
    (doc_comment_above (line func_token)) r.2 false false false false "" None 0 "" in
  mret (mkFunction info parameters r.1).

Definition param_default (p : Parameter_) : option Expr := let '(mkParameter _ _ d _ _) := p in d.
Definition param_line (p : Parameter_) : Z := let '(mkParameter _ _ _ l _) := p in l.
Definition param_column (p : Parameter_) : Z := let '(mkParameter _ _ _ _ c) := p in c.

Definition parse_signal : P SignalDecl :=
  let* signal_token := consume SIGNAL "Expected 'signal'" in
  let* name := consume IDENTIFIER "Expected a signal name after 'signal'" in
  let* paren := match_ LPAREN in
  let* parameters :=
    (if paren then
       let* parameters := parse_parameters in
       consume RPAREN "Expected ')' after the signal parameters" ;;;
       match List.find (fun p => if param_default p is Some _ then true else false) parameters with
       | Some p => error_at "Signal parameters cannot have a default value" (param_line p) (param_column p)
       | None => mret parameters
       end
     else mret []) in
  consume_statement_end "Expected newline after signal declaration" ;;;
  mret (mkSignal (spelled name) parameters (line signal_token) (column signal_token)
          (doc_comment_above (line signal_token)) "").

(** ** Enums *)

(** One member; the state is the declaration, the next value and the engine
    constant it counts from. *)
Definition parse_enum_member (st : EnumDecl * Z * option Expr) : P (EnumDecl * Z * option Expr) :=
  let '(decl, next_value, next_value_expr) := st in
  let* member_name := consume IDENTIFIER "Expected an enum member name" in
  let* assign := match_ ASSIGN in
  let* r :=
    (if assign then
       let* start := peek in
       let* initializer := c_expression in
       if holds_engine_constant initializer then
         mret (mkEnum (en_name decl) (en_members decl) (en_owned_values decl ++ [initializer]) (en_line decl) (en_column decl),
               0, Some initializer)
       else
         let* value := fold_enum_value initializer decl start in
         mret (decl, value, None)
     else mret (decl, next_value, next_value_expr)) in
  let '(decl, value, value_expr) := r in
  let member := mkMember (spelled member_name) value value_expr (line member_name) (column member_name) in
  let* next_value := mlift (if value =? INT64_MAX then Throw (UB "signed integer overflow") else Ok (value + 1)) in
  match find_member decl (spelled member_name) with
  | Some _ =>
      parser_error ("Enum member '" +:+ spelled member_name +:+ "' is declared more than once")
        (line member_name) (column member_name)
  | None =>
      mret (mkEnum (en_name decl) (en_members decl ++ [member]) (en_owned_values decl) (en_line decl) (en_column decl),
            next_value, value_expr)
  end.

Definition parse_enum : P EnumDecl :=
  let* enum_token := consume ENUM "Expected 'enum'" in
  let* named := check IDENTIFIER in
  let* name := (if named then let* tok := advance in mret (spelled tok) else mret EmptyString) in
  consume LBRACE "Expected '{' after 'enum'" ;;;
  let* st := loop (fun st : EnumDecl * Z * option Expr =>
    let* over := or_else (check RBRACE) is_at_end in
    if over then mret (inr st) else
    let* st := parse_enum_member st in
    let* comma := match_ COMMA in
    mret (if comma then inl st else inr st))
    (mkEnum name [] [] (line enum_token) (column enum_token), 0, None) in
  consume RBRACE "Expected '}' after enum members" ;;;
  mret st.1.1.

(** ** Lists of names *)

(** [name], then [.part] as often as it comes. *)
Definition parse_qualified (name message : string) : P string :=
  loop (fun qualified : string =>
    let* dot := match_ DOT in
    if negb dot then mret (inr qualified) else
    let* part := consume IDENTIFIER message in
    mret (inl (qualified +:+ "." +:+ spelled part))) name.

Definition parse_uses_list : P (list string) :=
  loop (fun names : list string =>
    let* name := consume IDENTIFIER "Expected a trait name after 'uses'" in
    let* qualified := parse_qualified (spelled name) "Expected a trait name after '.'" in
    when (existsb (String.eqb qualified) names)
      (error_at ("Trait '" +:+ qualified +:+ "' is listed more than once") (line name) (column name)) ;;;
    let names := names ++ [qualified] in
    let* comma := match_ COMMA in
    mret (if comma then inl names else inr names)) [].

(** ** Bodies of structs and classes *)

Definition with_static (is_static : bool) (f : FunctionDecl) : FunctionDecl :=
  let '(mkFunction info parameters body) := f in mkFunction (set_f_is_static is_static info) parameters body.

(** The annotations of a method, which are read and dropped. *)
Definition dropped_annotations : Annotations := mkAnnotations ExportHints.no_hint (Some false) (Some None) None None None.

(** [static] and annotations before a member: whether it is static. *)
Definition parse_member_head : P bool :=
  let* is_static := match_ STATIC in
  let* annotated := check AT in
  if negb annotated then mret is_static else
  parse_attributes dropped_annotations ;;;
  let* again := match_ STATIC in
  let* func := check FUNC in
  when (negb func) (error "A class annotation can only be applied to a function") ;;;
  mret (again || is_static).

(** How a struct and a class are spelled in messages. *)
Record BodyKind := mkBodyKind {
  bk_name : string;
  bk_static_const : string;
  bk_const_value : string;
  bk_members : string;
  bk_static_field : string
}.

Definition struct_kind : BodyKind :=
  mkBodyKind "Struct" "'static' is redundant on a struct const" "A struct const needs a value"
    "A struct body holds constant, field and function declarations"
    "A struct field is one per instance, so it cannot be 'static'".

Definition class_kind : BodyKind :=
  mkBodyKind "Class" "'static' says one per class, and a 'const' is already that"
    "A 'const' is given its value where it is declared"
    "A class body holds constant, field and function declarations"
    "A class field is one per instance, so it cannot be 'static'".

Definition declared_twice {A} (k : BodyKind) (decl : StructDecl) (what : string) (l c : Z) : P A :=
  parser_error (bk_name k +:+ " '" +:+ st_name decl +:+ "' declares " +:+ what +:+ " more than once") l c.

Definition has_member (decl : StructDecl) (name : string) : bool :=
  (if struct_find_constant decl name is Some _ then true else false)
  || (if struct_find_field decl name is Some _ then true else false).

Definition parse_method (k : BodyKind) (is_static : bool) (decl : StructDecl) : P StructDecl :=
  let* method := parse_function in
  let method := with_static is_static method in
  let name := method_name method in
  match struct_find_method decl name with
  | Some _ =>
      declared_twice k decl ("'" +:+ name +:+ "()'") (f_line (function_info method)) (f_column (function_info method))
  | None => mret (set_st_methods (st_methods decl ++ [method]) decl)
  end.

Definition parse_const_member (k : BodyKind) (is_static : bool) (decl : StructDecl) : P StructDecl :=
  let* const_token := advance in
  when is_static (error_at (bk_static_const k) (line const_token) (column const_token)) ;;;
  let* name := consume IDENTIFIER "Expected a name after 'const'" in
  let* type_hint := parse_type_hint in
  consume ASSIGN (bk_const_value k) ;;;
  let* value := c_expression in
  consume_statement_end "Expected newline after the constant declaration" ;;;
  let constant := mkField (spelled name) type_hint (Some value) (line const_token) (column const_token)
    (doc_comment_above (line const_token)) "" in
  if has_member decl (spelled name)
  then declared_twice k decl ("'" +:+ spelled name +:+ "'") (line const_token) (column const_token)
  else mret (set_st_constants (st_constants decl ++ [constant]) decl).

Definition add_field (k : BodyKind) (decl : StructDecl) (field : StructField) : P StructDecl :=
  if has_member decl (fd_name field)
  then declared_twice k decl ("field '" +:+ fd_name field +:+ "'") (fd_line field) (fd_column field)
  else mret (set_st_fields (st_fields decl ++ [field]) decl).

(** [var]: its token, checked against [static]. *)
Definition parse_field_token (k : BodyKind) (is_static : bool) : P Token :=
  let* var_token := consume VAR (bk_members k) in
  when is_static (error_at (bk_static_field k) (line var_token) (column var_token)) ;;;
  mret var_token.

Definition parse_struct_field (is_static : bool) (decl : StructDecl) : P StructDecl :=
  let* var_token := parse_field_token struct_kind is_static in
  let* name := consume IDENTIFIER "Expected field name" in
  let* type_hint := parse_type_hint in
  let* assign := match_ ASSIGN in
  let* default_value := (if assign then let* e := c_expression in mret (Some e) else mret None) in
  consume NEWLINE "Expected newline after field declaration" ;;;
  add_field struct_kind decl
    (mkField (spelled name) type_hint default_value (line var_token) (column var_token)
       (doc_comment_above (line var_token)) "").

(** [pass] *)
Definition parse_pass : P bool :=
  let* pass := match_ PASS in
  if pass then consume_statement_end "Expected newline after 'pass'" ;;; mret true else mret false.

Definition parse_struct_member (decl : StructDecl) : P StructDecl :=
  let* pass := parse_pass in
  if pass then mret decl else
  let* is_static := parse_member_head in
  let* func := check FUNC in
  if func then parse_method struct_kind is_static decl else
  let* const := check CONST in
  if const then parse_const_member struct_kind is_static decl
  else parse_struct_field is_static decl.

(** [while (!check(DEDENT) && !is_at_end()) { skip_newlines(); ...; member }] *)
Definition body_loop {A} (member : A -> P A) (x : A) : P A :=
  loop (fun x : A =>
    let* over := at_block_end in
    if over then mret (inr x) else
    skip_newlines ;;;
    let* over := at_block_end in
    if over then mret (inr x) else
    let* x := member x in
    mret (inl x)) x.

Definition parse_struct : P StructDecl :=
  let* struct_token := consume STRUCT "Expected 'struct'" in
  let* name := consume IDENTIFIER "Expected struct name" in
  let* uses := match_ USES in
  let* uses := (if uses then parse_uses_list else mret []) in
  consume COLON "Expected ':' after struct name" ;;;
  consume NEWLINE "Expected newline after struct declaration" ;;;
  skip_newlines ;;;
  consume INDENT ("Expected indented block after 'struct " +:+ spelled name +:+ ":'") ;;;
  let* decl := body_loop parse_struct_member
    (mkStruct (spelled name) "" [] (line struct_token) (column struct_token)
       (doc_comment_above (line struct_token)) false "" uses [] [] [] 0) in
  consume DEDENT "Expected dedent after struct body" ;;;
  mret decl.

(** ** Classes *)

(** The lambda [parse_extends]. *)
Definition parse_extends (class_name : string) : P string :=
  let* base := consume IDENTIFIER "Expected a class name after 'extends'" in
  let* dotted := check DOT in
  if dotted then
    let* qualified := parse_qualified (spelled base) "Expected a class name after '.'" in
    error_at ("Class '" +:+ class_name +:+ "' cannot extend '" +:+ qualified
      +:+ "': a base class has to be one declared in this file") (line base) (column base)
  else mret (spelled base).

(** The function an accessor of a field is lifted to. *)
Definition rename_function (name : string) (f : FunctionDecl) : FunctionDecl :=
  let '(mkFunction info parameters body) := f in mkFunction (set_f_name name info) parameters body.

Definition lift_getter (accessors : VarDecl) (name : string) (l c : Z) (decl : StructDecl) : StructDecl :=
  let getter_name := "@" +:+ name +:+ "_getter" in
  match getter_body accessors with
  | Some f => set_st_methods (st_methods decl ++ [rename_function getter_name f]) decl
  | None =>
      let target := v_getter_name (var_decl_info accessors) in
      if blank target then decl else
      let call := mkExpr l c (CallExpr target [] [] false) in
      let info := mkFunctionInfo getter_name no_type l c "" false false false false false "" None 0 "" in
      let getter := mkFunction info [] [mkStmt l c (ReturnStmt (Some call))] in
      set_st_methods (st_methods decl ++ [getter]) decl
  end.

Definition parse_class_field (is_static : bool) (decl : StructDecl) : P StructDecl :=
  let* var_token := parse_field_token class_kind is_static in
  let* name := consume IDENTIFIER "Expected a field name" in
  let* colon := match_ COLON in
  let* r :=
    (if negb colon then mret (no_type, false) else
     let* accessors := or_else at_property_accessor (check NEWLINE) in
     if accessors then mret (no_type, true) else
     let* typed := at_type in
     if typed then let* type := parse_type_expr in mret (type, false) else mret (no_type, false)) in
  let '(type_hint, accessors_follow) := r in
  let* assign := (if accessors_follow : bool then mret false else match_ ASSIGN) in
  let* default_value := (if assign then let* e := c_expression in mret (Some e) else mret None) in
  let* accessors_follow := or_else (mret accessors_follow) (match_ COLON) in
  let* decl :=
    (if accessors_follow then
       let* accessors := parse_property_accessors (mkVarDecl (var_info (spelled name) false) None None None) in
       when (has_setter accessors)
         (error_at "A class field setter is not supported yet" (line var_token) (column var_token)) ;;;
       mret (lift_getter accessors (spelled name) (line var_token) (column var_token) decl)
     else
       consume_statement_end "Expected newline after the field declaration" ;;;
       mret decl) in
  add_field class_kind decl
    (mkField (spelled name) type_hint default_value (line var_token) (column var_token)
       (doc_comment_above (line var_token)) "").

Definition parse_class_member (decl : StructDecl) : P StructDecl :=
  let* pass := parse_pass in
  if pass then mret decl else
  let* nested := check CLASS in
  if nested then
    let* inner := c_class in
    modify (fun s => set_nested_classes (m_nested_classes s ++ [inner]) s) ;;;
    mret decl
  else
  let* is_static := parse_member_head in
  let* func := check FUNC in
  if func then parse_method class_kind is_static decl else
  let* const := check CONST in
  if const then parse_const_member class_kind is_static decl else
  let* signal := check SIGNAL in
  if signal then
    when is_static (error "A signal cannot be static") ;;;
    let* signal := parse_signal in
    mret (set_st_signals (st_signals decl ++ [signal]) decl)
  else parse_class_field is_static decl.

(** [extends] and [uses] at the top of the body. *)
Definition parse_class_heads (decl : StructDecl) : P StructDecl :=
  skip_newlines ;;;
  let* extends := check EXTENDS in
  let* decl :=
    (if extends then
       let* token := advance in
       when (negb (blank (st_base_name decl)))
         (error_at ("Class '" +:+ st_name decl +:+ "' already declares a base class") (line token) (column token)) ;;;
       let* base := parse_extends (st_name decl) in
       consume_statement_end "Expected newline after 'extends'" ;;;
       mret (set_st_base_name base decl)
     else mret decl) in
  skip_newlines ;;;
  let* uses := check USES in
  if uses then
    let* token := advance in
    when (negb (bool_decide (st_uses decl = [])))
      (error_at ("Class '" +:+ st_name decl +:+ "' already declares an uses list") (line token) (column token)) ;;;
    let* uses := parse_uses_list in
    consume_statement_end "Expected newline after 'uses'" ;;;
    mret (set_st_uses uses decl)
  else mret decl.

Definition parse_class : P StructDecl :=
  let* class_token := consume CLASS "Expected 'class'" in
  let* name := consume IDENTIFIER "Expected a class name after 'class'" in
  let* extends := match_ EXTENDS in
  let* base := (if extends then parse_extends (spelled name) else mret EmptyString) in
  let* uses := match_ USES in
  let* uses := (if uses then parse_uses_list else mret []) in
  consume COLON "Expected ':' after the class name" ;;;
  consume NEWLINE "Expected newline after the class declaration" ;;;
  skip_newlines ;;;
  consume INDENT ("Expected indented block after 'class " +:+ spelled name +:+ ":'") ;;;
  let* decl := parse_class_heads
    (mkStruct (spelled name) "" [] (line class_token) (column class_token)
       (doc_comment_above (line class_token)) true base uses [] [] [] 0) in
  let* decl := body_loop parse_class_member decl in
  consume DEDENT "Expected dedent after the class body" ;;;
  mret decl.

End Declarations.

End ParserDecl.
