(* ===== verification/ParserProgram.v ===== *)
(** * The parser: traits and the file

    Models the traits of parser.cpp, [Parser::parse], and the recursion that ties
    the functions of the grammar together. *)

From S2P Require Import Prelude.
From S2P Require Import Double.
From S2P Require Import Token.
From S2P Require Import Lexer.
From S2P Require Import ExportHints.
From S2P Require Import DeclarationBlobs.
From S2P Require Import Ast.
From S2P Require Import Parser.
From S2P Require Import ParserExpr.
From S2P Require Import ParserStmt.
From S2P Require Import ParserDecl.

Module ParserProgram.
Import Token.
Import Ast.
Import Parser.
Import ParserExpr.
Import ParserStmt.
Import ParserDecl.

Section Traits.
Context {input : Input} {callees : Callees} {libm : Libm}.

(** [rpc_config->name = func.name] *)
Definition named_rpc (name : string) (c : RPCConfig) : RPCConfig :=
  RPCConfig.mkRPCConfig name (RPCConfig.rpc_mode c) (RPCConfig.transfer_mode c) (RPCConfig.call_local c)
    (RPCConfig.channel c).

Definition parse_trait_method (owner : TraitDecl) (is_static annotated_abstract : bool) (rpc_config : option RPCConfig) :
    P FunctionDecl :=
  let* func_token := consume FUNC "Expected 'func'" in
  let l := line func_token in
  let c := column func_token in
  let* name := consume IDENTIFIER "Expected function name" in
  let name := spelled name in
  when (String.eqb name "_init") (error_at "A trait cannot declare '_init'" l c) ;;;
  consume LPAREN "Expected '(' after function name" ;;;
  let* parameters := parse_parameters in
  consume RPAREN "Expected ')' after parameters" ;;;
  let* return_type := parse_return_type in
  let* colon := match_ COLON in
  let* r :=
    (if colon then
       let* body := parse_suite in
       when annotated_abstract (error_at ("@abstract method '" +:+ name +:+ "' cannot have a body") l c) ;;;
       mret (body, annotated_abstract)
     else
       when is_static (error_at "A static trait method must have a body" l c) ;;;
       consume_statement_end "Expected newline after trait method signature" ;;;
       mret ([], true)) in
  when (if trait_find_method owner name is Some _ then true else false)
    (error_at ("Trait '" +:+ t_name owner +:+ "' declares '" +:+ name +:+ "()' more than once") l c) ;;;
  let info := mkFunctionInfo name return_type l c (doc_comment_above l) false is_static r.2 false false ""
    (option_map (named_rpc name) rpc_config) 0 "" in
  mret (mkFunction info parameters r.1).

(** The fields of a variable or constant of a trait. *)
Definition trait_var (owner : string) (is_export is_onready is_static : bool) (hint : ExportHints.ExportHint)
    (section : ExportSection) (d : VarDecl) : VarDecl :=
  let '(mkVarDecl info init setter getter) := d in
  mkVarDecl (set_v_is_property is_export (set_v_is_onready is_onready (set_v_is_static is_static
    (set_v_export_hint hint (set_v_export_section section (set_v_trait_origin owner info)))))) init setter getter.

Definition trait_constant (owner : string) (d : VarDecl) : StructField :=
  let info := var_decl_info d in
  mkField (v_name info) (v_type_hint info) (initializer d) (v_line info) (v_column info) "" owner.

Definition from_trait (owner : string) (f : FunctionDecl) : FunctionDecl :=
  let '(mkFunction info parameters body) := f in mkFunction (set_f_trait_origin owner info) parameters body.

Definition trait_annotations : Annotations := mkAnnotations ExportHints.no_hint (Some false) (Some None) (Some false) None None.

Definition flag (o : option bool) : bool := default false o.

(** What a trait at file level forbids besides the inner types. *)
Definition inner_types (file_level : bool) : list TokenType :=
  [CLASS; STRUCT; TRAIT] ++ (if file_level then [CLASS_NAME; TRAIT_NAME] else []).

(** [extends], [uses] and [pass]: whether there was one. *)
Definition parse_trait_head (decl : TraitDecl) : P (option TraitDecl) :=
  let* pass := parse_pass in
  if pass then mret (Some decl) else
  let* extends := match_ EXTENDS in
  if extends then
    when (negb (blank (t_base_name decl))) (error ("Trait '" +:+ t_name decl +:+ "' already declares a base requirement")) ;;;
    let* base := consume IDENTIFIER "Expected a base class after 'extends'" in
    consume_statement_end "Expected newline after trait 'extends'" ;;;
    mret (Some (set_t_base_name (spelled base) decl))
  else
  let* uses := match_ USES in
  if uses then
    when (negb (bool_decide (t_uses decl = []))) (error ("Trait '" +:+ t_name decl +:+ "' already declares a uses list")) ;;;
    let* uses := parse_uses_list in
    consume_statement_end "Expected newline after trait 'uses'" ;;;
    mret (Some (set_t_uses uses decl))
  else mret None.

Definition parse_trait_var (is_export is_onready is_static : bool) (hint : ExportHints.ExportHint) (decl : TraitDecl) :
    P TraitDecl :=
  let* is_const := check CONST in
  advance ;;;
  when (is_onready && (is_const || is_static)) (error "@onready requires an instance variable") ;;;
  let* var := parse_var_decl is_const in
  let* section := gets m_export_section in
  let var := trait_var (t_name decl) is_export is_onready is_static hint section var in
  mret (if is_const : bool then set_t_constants (t_constants decl ++ [trait_constant (t_name decl) var]) decl
        else set_t_vars (t_vars decl ++ [var]) decl).

(** A member of a trait, after its [pass], [extends] and [uses]. *)
Definition parse_trait_declaration (file_level : bool) (decl : TraitDecl) : P TraitDecl :=
  let* r := parse_attributes trait_annotations in
  let '(is_export, a) := r in
  let is_onready := flag (an_onready a) in
  let is_abstract := flag (an_abstract a) in
  let rpc_config := default None (an_rpc_config a) in
  let* is_static := match_ STATIC in
  let* inner := check_any (inner_types file_level) in
  when inner (error "A trait cannot declare an inner class") ;;;
  let* func := check FUNC in
  if func then
    when (is_export || is_onready) (error "Variable annotations cannot be applied to a trait method") ;;;
    let* method := parse_trait_method decl is_static is_abstract rpc_config in
    mret (set_t_methods (t_methods decl ++ [from_trait (t_name decl) method]) decl)
  else
  when is_abstract (error "@abstract can only be applied to a trait method") ;;;
  when (if rpc_config is Some _ then true else false) (error "@rpc can only be applied to a function") ;;;
  let annotated := is_static || is_export || is_onready in
  let* signal := check SIGNAL in
  if signal then
    when annotated (error "A trait signal cannot use variable annotations") ;;;
    let* signal := parse_signal in
    let signal := mkSignal (sg_name signal) (sg_parameters signal) (sg_line signal) (sg_column signal)
      (sg_doc_comment signal) (t_name decl) in
    mret (set_t_signals (t_signals decl ++ [signal]) decl)
  else
  let* enum := check ENUM in
  if enum then
    when annotated (error "A trait enum cannot use variable annotations") ;;;
    let* enum := parse_enum in
    mret (set_t_enums (t_enums decl ++ [enum]) decl)
  else
  let* var := check_any [VAR; CONST] in
  if var then parse_trait_var is_export is_onready is_static (an_hint a) decl
  else error "A trait body accepts variables, constants, enums, signals and functions".

Definition parse_trait_member (file_level : bool) (decl : TraitDecl) : P TraitDecl :=
  let* head := parse_trait_head decl in
  match head with
  | Some decl => mret decl
  | None => parse_trait_declaration file_level decl
  end.

Definition parse_trait : P TraitDecl :=
  let* token := consume TRAIT "Expected 'trait'" in
  let* name := consume IDENTIFIER "Expected trait name" in
  let* extends := match_ EXTENDS in
  let* base :=
    (if extends then let* base := consume IDENTIFIER "Expected a base class after 'extends'" in mret (spelled base)
     else mret EmptyString) in
  let* uses := match_ USES in
  let* uses := (if uses then parse_uses_list else mret []) in
  consume COLON "Expected ':' after trait name" ;;;
  consume NEWLINE "Expected newline after trait declaration" ;;;
  skip_newlines ;;;
  consume INDENT ("Expected indented block after 'trait " +:+ spelled name +:+ ":'") ;;;
  let* decl := body_loop (parse_trait_member false)
    (mkTrait (spelled name) base uses [] [] [] [] [] (line token) (column token) (doc_comment_above (line token)) false) in
  consume DEDENT "Expected dedent after trait body" ;;;
  mret decl.

(** The rest of the file is the trait. *)
Definition parse_file_trait (token : Token) (name : string) : P TraitDecl :=
  loop (fun decl : TraitDecl =>
    let* over := is_at_end in
    if over then mret (inr decl) else
    skip_newlines ;;;
    let* over := is_at_end in
    if over then mret (inr decl) else
    let* decl := parse_trait_member true decl in
    mret (inl decl))
    (mkTrait name "" [] [] [] [] [] [] (line token) (column token) (doc_comment_above (line token)) true).

End Traits.

(** ** The file *)

Definition add_global (d : VarDecl) (p : Program) : Program := set_globals (globals p ++ [d]) p.
Definition add_function (f : FunctionDecl) (p : Program) : Program :=
  set_program_functions (program_functions p ++ [f]) p.

(** [@onready] variables are assigned at the start of [_ready]. *)
Definition hoisted (d : VarDecl) : option Stmt :=
  match d with
  | mkVarDecl info (Some e) _ _ =>
      if v_is_onready info
      then Some (mkStmt (v_line info) (v_column info) (AssignStmt (v_name info) None e)) else None
  | _ => None
  end.

Definition without_initializer (d : VarDecl) : VarDecl :=
  match hoisted d, d with
  | Some _, mkVarDecl info _ setter getter => mkVarDecl info None setter getter
  | None, _ => d
  end.

Definition is_ready (f : FunctionDecl) : bool := String.eqb (f_name (function_info f)) "_ready".

Definition prepend_body (prologue : list Stmt) (f : FunctionDecl) : FunctionDecl :=
  let '(mkFunction info parameters body) := f in mkFunction info parameters (prologue ++ body).

(** The first function of that name gets the prologue. *)
Fixpoint prepend_ready (prologue : list Stmt) (functions : list FunctionDecl) : option (list FunctionDecl) :=
  match functions with
  | [] => None
  | f :: functions =>
      if is_ready f then Some (prepend_body prologue f :: functions)
      else match prepend_ready prologue functions with
           | Some functions => Some (f :: functions)
           | None => None
           end
  end.

Definition stmt_line (s : Stmt) : Z := match s with DeclStmt d => v_line (var_decl_info d) | mkStmt l _ _ => l end.
Definition stmt_column (s : Stmt) : Z := match s with DeclStmt d => v_column (var_decl_info d) | mkStmt _ c _ => c end.

Definition hoist_onready_initializers (p : Program) : Program :=
  let prologue := omap hoisted (globals p) in
  let p := set_globals (map without_initializer (globals p)) p in
  match prologue with
  | [] => p
  | first :: _ =>
      match prepend_ready prologue (program_functions p) with
      | Some functions => set_program_functions functions p
      | None =>
          let info := mkFunctionInfo "_ready" no_type (stmt_line first) (stmt_column first)
            "" false false false false false "" None 0 "" in
          add_function (mkFunction info [] prologue) p
      end
  end.

Section File.
Context {input : Input} {callees : Callees} {libm : Libm}.

(** [program.member = value] and [saw_declaration = true] *)
Definition update (f : Program -> Program) : P unit := modify (fun s => set_program (f (program s)) s).
Definition declared (f : Program -> Program) : P unit := update f ;;; modify (set_saw_declaration true).

(** The lambda [heads_the_file]. *)
Definition heads_the_file (keyword : string) (token : Token) : P unit :=
  let* saw := gets saw_declaration in
  when saw (error_at ("'" +:+ keyword +:+ "' comes before every other declaration in the file")
    (line token) (column token)).

Definition parse_file_extends : P unit :=
  let* token := advance in
  heads_the_file "extends" token ;;;
  let* p := gets program in
  when (negb (blank (base_class p))) (error_at "A script extends one base" (line token) (column token)) ;;;
  update (fun p => set_base_class_column (column token) (set_base_class_line (line token) p)) ;;;
  let* quoted := check STRING in
  (if quoted then
     let* path := advance in
     let* path := mlift (get_string path) in
     update (fun p => set_base_is_path true (set_base_class path p))
   else
     let* base := consume IDENTIFIER "Expected a class name or a path after 'extends'" in
     update (set_base_class (spelled base)) ;;;
     loop (fun _ : unit =>
       let* dot := match_ DOT in
       if negb dot then mret (inr tt) else
       update (fun p => set_base_class (base_class p +:+ ".") p) ;;;
       let* part := consume IDENTIFIER "Expected a class name after '.'" in
       update (fun p => set_base_class (base_class p +:+ spelled part) p) ;;;
       mret (inl tt)) tt) ;;;
  skip_newlines.

Definition parse_file_uses : P unit :=
  let* token := advance in
  heads_the_file "uses" token ;;;
  let* p := gets program in
  when (negb (bool_decide (program_uses p = [])))
    (error_at "A script declares one uses list" (line token) (column token)) ;;;
  let* uses := parse_uses_list in
  update (set_program_uses uses) ;;;
  consume_statement_end "Expected newline after 'uses'".

Definition parse_file_class_name : P unit :=
  let* token := advance in
  heads_the_file "class_name" token ;;;
  let* p := gets program in
  when (negb (blank (class_name p))) (error_at "A script declares one class_name" (line token) (column token)) ;;;
  update (fun p => set_class_name_column (column token) (set_class_name_line (line token) p)) ;;;
  let* name := consume IDENTIFIER "Expected a class name after 'class_name'" in
  update (set_class_name (spelled name)) ;;;
  skip_newlines.

Definition parse_file_trait_name : P unit :=
  let* token := advance in
  heads_the_file "trait_name" token ;;;
  let* p := gets program in
  when (negb (blank (trait_name p)) || negb (blank (class_name p)))
    (error_at "A script declares either one trait_name or one class_name" (line token) (column token)) ;;;
  update (fun p => set_trait_name_column (column token) (set_trait_name_line (line token) p)) ;;;
  let* name := consume IDENTIFIER "Expected a trait name after 'trait_name'" in
  update (set_trait_name (spelled name)) ;;;
  consume_statement_end "Expected newline after 'trait_name'" ;;;
  let* decl := parse_file_trait token (spelled name) in
  declared (fun p => set_traits (traits p ++ [decl]) p).

Definition file_annotations : Annotations :=
  mkAnnotations ExportHints.no_hint (Some false) (Some None) None (Some false) (Some false).

Definition global_var (is_export is_static is_onready : bool) (hint : ExportHints.ExportHint) (section : ExportSection)
    (d : VarDecl) : VarDecl :=
  let '(mkVarDecl info init setter getter) := d in
  mkVarDecl (set_v_is_property is_export (set_v_is_static is_static (set_v_is_onready is_onready
    (set_v_export_hint hint (set_v_export_section section info))))) init setter getter.

(** [var] or [const] behind annotations. *)
Definition parse_annotated_var (is_export is_static : bool) (a : Annotations) : P unit :=
  let is_onready := flag (an_onready a) in
  when (if default None (an_rpc_config a) is Some _ then true else false)
    (error "@rpc can only be applied to a function") ;;;
  when (flag (an_test a)) (error "@test can only be applied to a function") ;;;
  let* is_const := check CONST in
  advance ;;;
  when (is_onready && is_const) (error "@onready cannot be applied to a 'const'") ;;;
  when (is_onready && is_static) (error "@onready is per instance, and a 'static var' is shared") ;;;
  let* decl := parse_var_decl is_const in
  let* section := gets m_export_section in
  let decl := global_var is_export is_static is_onready (an_hint a) section decl in
  record_const_value decl ;;;
  declared (add_global decl).

Definition annotated_function (is_static is_test hook : bool) (rpc_config : option RPCConfig) (f : FunctionDecl) : FunctionDecl :=
  let '(mkFunction info parameters body) := f in
  let info := set_f_is_static is_static (set_f_requires_host_hook hook (set_f_is_test is_test info)) in
  mkFunction (match rpc_config with
              | Some c => set_f_rpc_config (Some (named_rpc (f_name info) c)) info
              | None => info
              end) parameters body.

(** The runner invents no argument values and does not wait. *)
Definition check_test (f : FunctionDecl) : P unit :=
  let info := function_info f in
  match parameters f with
  | first :: _ =>
      error_at ("@test function '" +:+ f_name info +:+ "' takes no parameters") (param_line first) (param_column first)
  | [] =>
      when (f_is_coroutine info)
        (error_at ("@test function '" +:+ f_name info +:+ "' cannot be a coroutine") (f_line info) (f_column info))
  end.

(** [func] behind annotations. *)
Definition parse_annotated_func (is_export is_static : bool) (a : Annotations) : P unit :=
  let rpc_config := default None (an_rpc_config a) in
  let has_rpc : bool := if rpc_config is Some _ then true else false in
  let is_test := flag (an_test a) in
  when is_export (error "Expected a variable declaration after '@export'") ;;;
  when (has_rpc && is_static) (error "@rpc cannot be applied to a static function") ;;;
  when (is_test && has_rpc) (error "@test cannot be combined with @rpc") ;;;
  let* function := parse_function in
  when is_test (check_test function) ;;;
  declared (add_function (annotated_function is_static is_test (flag (an_host_hook a)) rpc_config function)).

(** Annotations with nothing to apply to: the parser looks for the next
    declaration. *)
Definition missing_declaration (message : string) : P unit := (error message : P unit) ;;; synchronize.

Definition parse_annotated (is_static : bool) : P unit :=
  let* r := parse_attributes file_annotations in
  let '(is_export, a) := r in
  let has_rpc : bool := if default None (an_rpc_config a) is Some _ then true else false in
  let is_test := flag (an_test a) in
  let* again := match_ STATIC in
  let is_static := again || is_static in
  let* func := check FUNC in
  when (flag (an_host_hook a) && (negb func || is_static || is_test || has_rpc))
    (error "@requires_host_hook requires a file-level instance function and cannot be combined with @test or @rpc") ;;;
  let* var := check_any [VAR; CONST] in
  if var then parse_annotated_var is_export is_static a
  else if flag (an_onready a) then missing_declaration "Expected a variable declaration after '@onready'"
  else if func then parse_annotated_func is_export is_static a
  else if is_export then missing_declaration "Expected a variable declaration after '@export'"
  else if has_rpc then missing_declaration "@rpc can only be applied to a function"
  else if is_test then missing_declaration "@test can only be applied to a function"
  else mret tt.

Definition set_var_static (is_static : bool) (d : VarDecl) : VarDecl :=
  let '(mkVarDecl info init setter getter) := d in mkVarDecl (set_v_is_static is_static info) init setter getter.

(** The classes of a class body come after it. *)
Definition parse_file_class : P unit :=
  let* decl := c_class in
  update (fun p => set_structs (structs p ++ [decl]) p) ;;;
  let* nested := gets m_nested_classes in
  update (fun p => set_structs (structs p ++ nested) p) ;;;
  modify (set_nested_classes []) ;;;
  modify (set_saw_declaration true).

(** A string on a line of its own is a comment. *)
Definition at_block_comment : P bool :=
  let* string := check STRING in
  if negb string then mret false else or_else (next_is NEWLINE) (next_is EOF_TOKEN).

(** What the keyword a declaration starts with selects. *)
Definition parse_by_keyword (is_static : bool) (keyword : TokenType) : P unit :=
  match keyword with
  | EXTENDS => parse_file_extends
  | USES => parse_file_uses
  | SIGNAL => let* d := parse_signal in declared (fun p => set_signals (signals p ++ [d]) p)
  | AT => parse_annotated is_static
  | VAR =>
      advance ;;;
      let* d := parse_var_decl false in
      declared (add_global (set_var_static is_static d))
  | CONST =>
      advance ;;;
      let* d := parse_var_decl true in
      record_const_value d ;;;
      declared (add_global d)
  | STRUCT => let* d := parse_struct in declared (fun p => set_structs (structs p ++ [d]) p)
  | TRAIT => let* d := parse_trait in declared (fun p => set_traits (traits p ++ [d]) p)
  | CLASS => parse_file_class
  | ENUM => let* d := parse_enum in declared (fun p => set_enums (enums p ++ [d]) p)
  | CLASS_NAME => parse_file_class_name
  | TRAIT_NAME => parse_file_trait_name
  | FUNC => let* f := parse_function in declared (add_function (with_static is_static f))
  | _ =>
      let* comment := at_block_comment in
      if comment then advance ;;; consume_statement_end "Expected newline after the string" else
      let* pass := check PASS in
      if pass then advance ;;; consume_statement_end "Expected newline after 'pass'"
      else missing_declaration "Expected function or variable declaration"
  end.

Definition parse_declaration : P unit :=
  let* is_static := match_ STATIC in
  let* tok := peek in
  parse_by_keyword is_static (type tok).

(** The tokens a declaration starts with. *)
Definition declaration_starts : list TokenType :=
  [FUNC; VAR; CONST; STATIC; CLASS; CLASS_NAME; STRUCT; TRAIT; TRAIT_NAME; ENUM; SIGNAL; EXTENDS; AT].

Definition recover_declaration (statement_start : nat) : P unit :=
  let* current := gets m_current in
  let* at_end := is_at_end in
  when (bool_decide (current = statement_start) && negb at_end) (advance ;;; mret tt) ;;;
  recover_to_statement_end ;;;
  loop (fun _ : unit =>
    let* at_end := is_at_end in
    let* start := check_any declaration_starts in
    if at_end || start then mret (inr tt) else advance ;;; mret (inl tt)) tt.

(** [Parser::parse] *)
Definition parse : P Program :=
  skip_newlines ;;;
  loop (fun _ : unit =>
    let* at_end := is_at_end in
    if at_end then mret (inr tt) else
    let* statement_start := gets m_current in
    try_recovery parse_declaration (recover_declaration statement_start) ;;;
    skip_newlines ;;;
    mret (inl tt)) tt ;;;
  let* tool := gets m_saw_tool in
  update (fun p =>
    let p := set_is_tool tool (hoist_onready_initializers p) in
    let p := set_native_base_is_path (base_is_path p) (set_native_base_class (base_class p) p) in
    set_chain (mkChain (class_names (chain p) ++ [class_name p]) (paths (chain p) ++ [EmptyString]) (functions (chain p))) p) ;;;
  gets program.

End File.

(** ** Recursion *)

Section Knot.
Context {input : Input} {libm : Libm}.

Definition no_callees : Callees := {|
  c_expression := mthrow OutOfFuel;
  c_expression_impl := mthrow OutOfFuel;
  c_ternary := mthrow OutOfFuel;
  c_coalesce := mthrow OutOfFuel;
  c_not := mthrow OutOfFuel;
  c_unary := mthrow OutOfFuel;
  c_statement := mthrow OutOfFuel;
  c_if_stmt := mthrow OutOfFuel;
  c_match_pattern := mthrow OutOfFuel;
  c_type_expr := mthrow OutOfFuel;
  c_class := mthrow OutOfFuel
|}.

(** The functions of the grammar, [n] calls deep. *)
Fixpoint callees (n : nat) : Callees :=
  match n with
  | O => no_callees
  | S n =>
      let c := callees n in
      {|
        c_expression := parse_expression;
        c_expression_impl := parse_expression_impl;
        c_ternary := parse_ternary;
        c_coalesce := parse_coalesce;
        c_not := parse_not;
        c_unary := parse_unary;
        c_statement := parse_statement;
        c_if_stmt := parse_if_stmt;
        c_match_pattern := parse_match_pattern;
        c_type_expr := parse_type_expr;
        c_class := parse_class
      |}
  end.

(** Three calls for every token: a statement hands its first token on to an
    expression, and an operand its [not] to [parse_not], before it is consumed. *)
Definition depth : nat := 3 * length m_tokens + 3.

Definition run (sink : option DiagnosticSink) : Parser * outcome Program := parse (callees := callees depth) (construct sink).

End Knot.

End ParserProgram.
