(* ===== verification/ParserFacts.v ===== *)
(** * Symbolic execution of the parser

    A program logic for the monad of [Parser]: [runs n Q r] says that a run that
    started at token [n] ends in a state of the parser's invariant, with an answer
    and a state [Q] relates, or with an exception the parser may raise.  [exec]
    runs the cursor's primitives in a goal of that form; [Spec] is the class of the
    computations that are known to run. *)

From S2P Require Import Prelude.
From S2P Require Import Double.
From S2P Require Import Token.
From S2P Require Import Lexer.
From S2P Require Import Ast.
From S2P Require Import Parser.

Module ParserFacts.
Import Token.
Import Ast.
Import Parser.

(** The lexer gives every literal a value of its own kind. *)
Definition typed (t : Token) : Prop :=
  match type t with
  | INTEGER => exists z, value t = TInt z
  | FLOAT => exists d, value t = TDouble d
  | STRING | STRING_NAME | NODE_PATH => exists v, value t = TString v
  | _ => True
  end.

(** What [parse] may be given: the last token is the end of the file. *)
Record well_formed (tokens : list Token) : Prop := {
  wf_end : exists t, last tokens = Some t /\ type t = EOF_TOKEN;
  wf_typed : Forall typed tokens
}.

(** The conversions and the counter whose overflow the source does not check. *)
Definition unchecked : list string :=
  ["float to int64_t out of range"; "float to int out of range"; "signed integer overflow"].

(** What the parser may raise; a [Recovery] only when it is tolerant. *)
Definition raises (tol : bool) (e : exn) : Prop :=
  match e with
  | LocatedException PARSER_ERROR _ _ _ => True
  | Recovery => tol = true
  | UB what => what ∈ unchecked
  | _ => False
  end.

Section Logic.
Context {input : Input} (tol : bool).

Definition tok (s : Parser) : Token := default (plain EOF_TOKEN [] 0 0) (m_tokens !! m_current s).
Definition cur (s : Parser) : TokenType := type (tok s).
Definition prv (s : Parser) : Token := default (plain EOF_TOKEN [] 0 0) (m_tokens !! (m_current s - 1)%nat).

(** The invariant between two calls of the grammar. *)
Record inv (s : Parser) : Prop := {
  inv_mode : tolerant s = tol;
  inv_current : (m_current s < length m_tokens)%nat;
  inv_pending : m_pending_primary s = None
}.

Definition runs {A} (n : nat) (Q : A -> Parser -> Prop) (r : Parser * outcome A) : Prop :=
  match r with
  | (s', Ok a) => inv s' /\ Q a s'
  | (s', Throw e) => inv s' /\ (n <= m_current s')%nat /\ raises tol e
  end.

(** A computation that runs from every state at or behind token [lo], and
    consumes [k a] tokens when it answers [a]. *)
Class Spec {A} (lo : nat) (k : A -> nat) (c : P A) : Prop :=
  spec_runs : forall s, inv s -> (lo <= m_current s)%nat ->
    runs (m_current s) (fun a s' => (m_current s + k a <= m_current s')%nat) (c s).

(** ** Structure *)

Lemma runs_bind {A B} n (c : P A) (d : A -> P B) s Q1 Q :
  runs n Q1 (c s) -> (forall a s', inv s' -> Q1 a s' -> runs n Q (d a s')) -> runs n Q (mbind c d s).
Proof. unfold mbind. destruct (c s) as [s1 [a|e]]; [|done]. intros [Hs HQ] Hd. by apply Hd. Qed.

Lemma runs_weaken {A} n n1 (r : Parser * outcome A) (Q1 Q : A -> Parser -> Prop) :
  runs n1 Q1 r -> (n <= n1)%nat -> (forall a s', inv s' -> Q1 a s' -> Q a s') -> runs n Q r.
Proof.
  destruct r as [s1 [a|e]]; cbn; [|by intros (? & ? & ?) ? _; split_and!; [|lia|]].
  intros [Hs HQ] _ H. by split; [|apply H].
Qed.

Lemma runs_earlier {A} n n1 (r : Parser * outcome A) (Q : A -> Parser -> Prop) :
  runs n1 Q r -> (n <= n1)%nat -> runs n Q r.
Proof. intros H Hn. eapply runs_weaken; [exact H|done|]. by intros a s' _ HQ. Qed.

Lemma runs_assoc {A B C} n (c : P A) (d : A -> P B) (e : B -> P C) s Q :
  runs n Q (mbind c (fun a => mbind (d a) e) s) -> runs n Q (mbind (mbind c d) e s).
Proof. unfold mbind. by destruct (c s) as [s1 [a|x]]. Qed.

Lemma runs_spec {A B} lo k n (c : P A) (d : A -> P B) s Q :
  Spec lo k c -> inv s -> (lo <= m_current s)%nat -> (n <= m_current s)%nat ->
  (forall a s', inv s' -> (m_current s + k a <= m_current s')%nat -> runs n Q (d a s')) -> runs n Q (mbind c d s).
Proof.
  intros Hc Hs Hlo Hn Hd. eapply runs_bind; [|apply Hd].
  eapply runs_weaken; [by apply Hc|done|done].
Qed.

Lemma runs_tail {A} lo k n (c : P A) s (Q : A -> Parser -> Prop) :
  Spec lo k c -> inv s -> (lo <= m_current s)%nat -> (n <= m_current s)%nat ->
  (forall a s', inv s' -> (m_current s + k a <= m_current s')%nat -> Q a s') -> runs n Q (c s).
Proof. intros Hc Hs Hlo Hn Hq. eapply runs_weaken; [by apply Hc|done|done]. Qed.

(** A tail call, as a bind. *)
Lemma runs_eta {A} n (c : P A) s (Q : A -> Parser -> Prop) : runs n Q (mbind c mret s) -> runs n Q (c s).
Proof. unfold mbind, mret. by destruct (c s) as [s1 [a|e]]. Qed.

Lemma runs_modify {B} n f (d : unit -> P B) s Q :
  tolerant (f s) = tolerant s -> m_current (f s) = m_current s -> m_pending_primary (f s) = m_pending_primary s ->
  inv s -> (forall s', inv s' -> m_current s' = m_current s -> runs n Q (d tt s')) -> runs n Q (mbind (modify f) d s).
Proof.
  intros H1 H2 H3 [I1 I2 I3] Hd. unfold mbind, modify, mmodify. apply Hd; [|done].
  split; [by rewrite H1|by rewrite H2|by rewrite H3].
Qed.

(** Going back to a token that was read before. *)
Lemma runs_rewind {B} n i (d : unit -> P B) s Q :
  inv s -> (i <= m_current s)%nat -> (forall s', inv s' -> m_current s' = i -> runs n Q (d tt s')) ->
  runs n Q (mbind (modify (set_current i)) d s).
Proof. intros [I1 I2 I3] Hi Hd. unfold mbind, modify, mmodify. apply Hd; [|done]. split; [done|cbn; lia|done]. Qed.

Lemma runs_try {A} n (c h : P A) s (Q : A -> Parser -> Prop) :
  runs n Q (c s) ->
  (forall s', inv s' -> (n <= m_current s')%nat -> tol = true -> runs n Q (h s')) ->
  runs n Q (try_recovery c h s).
Proof.
  unfold try_recovery. destruct (c s) as [s1 [a|e]]; [done|]. intros (Hs & Hn & He) Hh.
  destruct e; try done. by apply Hh.
Qed.

Lemma runs_lift {A B} n (o : outcome A) (d : A -> P B) s Q :
  inv s -> (n <= m_current s)%nat ->
  (forall a, o = Ok a -> runs n Q (d a s)) -> (forall e, o = Throw e -> raises tol e) -> runs n Q (mbind (mlift o) d s).
Proof. intros Hs Hn Hd He. unfold mbind, mlift. destruct o as [a|e]; [by apply Hd|]. split_and!; auto. Qed.

Lemma runs_iterate {X Y} (I : X -> Parser -> Prop) n step (fuel : nat) (x : X) s (Q : Y -> Parser -> Prop) :
  inv s -> I x s -> (length m_tokens - m_current s < fuel)%nat ->
  (forall x s', inv s' -> I x s' ->
     runs n (fun r s'' => match r with inl x' => I x' s'' /\ (m_current s' < m_current s'')%nat | inr y => Q y s'' end)
       (step x s')) ->
  runs n Q (iterate fuel step x s).
Proof.
  intros Hs Hi Hf Hstep. revert x s Hs Hi Hf. induction fuel as [|fuel IH]; intros x s Hs Hi Hf; [lia|].
  cbn [iterate]. eapply runs_bind; [by apply Hstep|]. intros [x'|y] s' Hs' H; [|by split].
  destruct H as [Hi' Hlt]. apply IH; [done|done|]. destruct Hs'. lia.
Qed.

Lemma runs_loop {X Y} (I : X -> Parser -> Prop) n step (x : X) s (Q : Y -> Parser -> Prop) :
  inv s -> I x s ->
  (forall x s', inv s' -> I x s' ->
     runs n (fun r s'' => match r with inl x' => I x' s'' /\ (m_current s' < m_current s'')%nat | inr y => Q y s'' end)
       (step x s')) ->
  runs n Q (loop step x s).
Proof. intros Hs Hi Hstep. unfold loop. eapply runs_iterate; [done|done|lia|done]. Qed.

(** A loop of which only the position is of interest. *)
Lemma runs_loop_bind {X Y B} n step (x : X) (d : Y -> P B) s Q :
  inv s ->
  (forall x s', inv s' -> (m_current s <= m_current s')%nat ->
     runs n (fun r s'' => match r with
                          | inl _ => (m_current s' < m_current s'')%nat
                          | inr _ => (m_current s' <= m_current s'')%nat
                          end) (step x s')) ->
  (forall y s', inv s' -> (m_current s <= m_current s')%nat -> runs n Q (d y s')) ->
  runs n Q (mbind (loop step x) d s).
Proof.
  intros Hs Hstep Hd. apply runs_bind with (Q1 := fun _ s' => (m_current s <= m_current s')%nat); [|done].
  apply runs_loop with (I := fun _ s' => (m_current s <= m_current s')%nat); [done|done|].
  intros x' s' Hs' Hle. eapply runs_weaken; [by apply Hstep|done|]. intros [x2|y] s2 _ H2; [split|]; lia.
Qed.

(** ** The cursor *)

Lemma token_current s : inv s -> m_tokens !! m_current s = Some (tok s).
Proof.
  intros [_ Hc _]. destruct (lookup_lt_is_Some_2 _ _ Hc) as [t E]. unfold tok. by rewrite E.
Qed.

Lemma cur_moved s s' : (m_current s <= m_current s')%nat -> cur s <> cur s' -> (m_current s < m_current s')%nat.
Proof.
  intros Hle Hne. destruct (decide (m_current s = m_current s')) as [E|]; [|lia].
  exfalso. apply Hne. unfold cur, tok. by rewrite E.
Qed.

Lemma peek_eq s : inv s -> peek s = (s, Ok (tok s)).
Proof. intros Hs. unfold peek, token_at. by rewrite (token_current _ Hs). Qed.

Lemma previous_eq s : inv s -> (1 <= m_current s)%nat -> previous s = (s, Ok (prv s)).
Proof.
  intros [_ Hc _] H1. unfold previous, prv, token_at. destruct (m_current s) as [|i]; [lia|].
  destruct (lookup_lt_is_Some_2 m_tokens i) as [t E]; [lia|]. replace (S i - 1)%nat with i by lia. by rewrite E.
Qed.

Lemma is_at_end_eq s : inv s -> is_at_end s = (s, Ok (bool_decide (cur s = EOF_TOKEN))).
Proof. intros Hs. unfold is_at_end, mbind. by rewrite peek_eq. Qed.

Lemma check_eq s t : inv s -> t <> EOF_TOKEN -> check t s = (s, Ok (bool_decide (cur s = t))).
Proof.
  intros Hs Ht. unfold check, mbind. rewrite is_at_end_eq by done. case_bool_decide as E; [|by rewrite peek_eq].
  rewrite bool_decide_false; [done|]. congruence.
Qed.

Lemma peek_ahead_eq s n : inv s -> exists t, peek_ahead n s = (s, Ok t).
Proof.
  intros [_ Hc _]. unfold peek_ahead, token_at.
  destruct (lookup_lt_is_Some_2 m_tokens
    (if (m_current s + n <? length m_tokens)%nat then m_current s + n else length m_tokens - 1)%nat) as [t E].
  { destruct (Nat.ltb_spec (m_current s + n) (length m_tokens)); lia. }
  exists t. by rewrite E.
Qed.

Context (Hwf : well_formed m_tokens).

(** Behind a token that is not the end there is another one. *)
Lemma not_last s : inv s -> cur s <> EOF_TOKEN -> (S (m_current s) < length m_tokens)%nat.
Proof.
  intros Hs Hc. destruct Hwf as [[t [Hl Ht]] _]. pose proof (inv_current _ Hs) as Hlt.
  destruct (decide (S (m_current s) < length m_tokens)%nat) as [|Hge]; [done|]. exfalso. apply Hc.
  rewrite last_lookup in Hl. replace (Init.Nat.pred (length m_tokens)) with (m_current s) in Hl by lia.
  unfold cur, tok. by rewrite Hl.
Qed.

Definition next (s : Parser) : Parser := set_current (S (m_current s)) s.

Lemma inv_next s : inv s -> cur s <> EOF_TOKEN -> inv (next s).
Proof. intros Hs Hc. pose proof (not_last _ Hs Hc). destruct Hs. by split. Qed.

Lemma prv_next s : prv (next s) = tok s.
Proof. unfold prv, next, tok. cbn. by rewrite Nat.sub_0_r. Qed.

Lemma advance_eq s : inv s -> cur s <> EOF_TOKEN -> advance s = (next s, Ok (tok s)).
Proof.
  intros Hs Hc. unfold advance, mbind at 1. rewrite is_at_end_eq by done. rewrite bool_decide_false by done. cbn -[previous].
  unfold mbind, modify, mmodify. fold (next s). rewrite previous_eq; [by rewrite prv_next|by apply inv_next|cbn; lia].
Qed.

Lemma advance_end s : inv s -> cur s = EOF_TOKEN -> (1 <= m_current s)%nat -> advance s = (s, Ok (prv s)).
Proof.
  intros Hs Hc H1. unfold advance, mbind at 1. rewrite is_at_end_eq by done. rewrite bool_decide_true by done. cbn -[previous].
  unfold mbind, mret. by rewrite previous_eq.
Qed.

Lemma match_eq s t : inv s -> t <> EOF_TOKEN ->
  match_ t s = (if bool_decide (cur s = t) then next s else s, Ok (bool_decide (cur s = t))).
Proof.
  intros Hs Ht. unfold match_, mbind at 1. rewrite check_eq by done. case_bool_decide as E; [|done].
  unfold mbind. rewrite advance_eq; [done|done|congruence].
Qed.

(** ** The cursor in a goal *)

Lemma runs_peek {B} n (d : Token -> P B) s Q : inv s -> runs n Q (d (tok s) s) -> runs n Q (mbind peek d s).
Proof. intros Hs H. unfold mbind. by rewrite peek_eq. Qed.

Lemma runs_previous {B} n (d : Token -> P B) s Q :
  inv s -> (1 <= m_current s)%nat -> runs n Q (d (prv s) s) -> runs n Q (mbind previous d s).
Proof. intros Hs H1 H. unfold mbind. by rewrite previous_eq. Qed.

Lemma runs_previous_is {B} n t (d : bool -> P B) s Q :
  inv s -> (1 <= m_current s)%nat -> (forall b, runs n Q (d b s)) -> runs n Q (mbind (previous_is t) d s).
Proof. intros Hs H1 H. unfold previous_is. apply runs_assoc, runs_previous; [done|done|]. apply H. Qed.

Lemma runs_peek_ahead {B} n i (d : Token -> P B) s Q :
  inv s -> (forall t, runs n Q (d t s)) -> runs n Q (mbind (peek_ahead i) d s).
Proof. intros Hs H. unfold mbind. by destruct (peek_ahead_eq s i Hs) as [t ->]. Qed.

Lemma runs_next_is {B} n t (d : bool -> P B) s Q :
  inv s -> (forall b, runs n Q (d b s)) -> runs n Q (mbind (next_is t) d s).
Proof. intros Hs H. unfold next_is. apply runs_assoc, runs_peek_ahead; [done|]. intros tk. apply H. Qed.

Lemma runs_at_end {B} n (d : bool -> P B) s Q :
  inv s -> (cur s = EOF_TOKEN -> runs n Q (d true s)) -> (cur s <> EOF_TOKEN -> runs n Q (d false s)) ->
  runs n Q (mbind is_at_end d s).
Proof. intros Hs H1 H2. unfold mbind. rewrite is_at_end_eq by done. case_bool_decide; auto. Qed.

Lemma runs_check {B} n t (d : bool -> P B) s Q :
  inv s -> t <> EOF_TOKEN -> (cur s = t -> runs n Q (d true s)) -> (cur s <> t -> runs n Q (d false s)) ->
  runs n Q (mbind (check t) d s).
Proof. intros Hs Ht H1 H2. unfold mbind. rewrite check_eq by done. case_bool_decide; auto. Qed.

Lemma runs_match {B} n t (d : bool -> P B) s Q :
  inv s -> t <> EOF_TOKEN ->
  (forall s', cur s = t -> inv s' -> m_current s' = S (m_current s) -> prv s' = tok s -> runs n Q (d true s')) ->
  (cur s <> t -> runs n Q (d false s)) ->
  runs n Q (mbind (match_ t) d s).
Proof.
  intros Hs Ht H1 H2. unfold mbind. rewrite match_eq by done. case_bool_decide as E; [|auto].
  apply H1; [done|apply inv_next; [done|congruence]|done|apply prv_next].
Qed.

Lemma runs_advance {B} n (d : Token -> P B) s Q :
  inv s -> cur s <> EOF_TOKEN ->
  (forall s', inv s' -> m_current s' = S (m_current s) -> prv s' = tok s -> runs n Q (d (tok s) s')) ->
  runs n Q (mbind advance d s).
Proof.
  intros Hs Hc H. unfold mbind. rewrite advance_eq by done. apply H; [by apply inv_next|done|apply prv_next].
Qed.

(** Of an [advance] that may stand at the end. *)
Lemma runs_advance_any {B} n (d : Token -> P B) s Q :
  inv s -> (1 <= m_current s)%nat ->
  (forall a s', inv s' -> (m_current s <= m_current s')%nat -> runs n Q (d a s')) ->
  runs n Q (mbind advance d s).
Proof.
  intros Hs H1 H. destruct (decide (cur s = EOF_TOKEN)) as [Hc|Hc].
  - unfold mbind. rewrite advance_end by done. by apply H.
  - apply runs_advance; [done|done|]. intros s' Hs' Hm _. apply H; [done|lia].
Qed.

Lemma runs_check_any {B} n ts (d : bool -> P B) s Q :
  inv s -> EOF_TOKEN ∉ ts -> (cur s ∈ ts -> cur s <> EOF_TOKEN -> runs n Q (d true s)) -> (cur s ∉ ts -> runs n Q (d false s)) ->
  runs n Q (mbind (check_any ts) d s).
Proof.
  intros Hs Ht H1 H2. assert (E : check_any ts s = (s, Ok (bool_decide (cur s ∈ ts)))).
  { clear H1 H2. induction ts as [|t ts IH]; [by rewrite bool_decide_false by apply not_elem_of_nil|].
    apply not_elem_of_cons in Ht as [Ht Hts]. cbn [check_any]. unfold or_else, mbind at 1.
    rewrite check_eq by (done || congruence). destruct (decide (cur s = t)) as [E|E].
    - rewrite !bool_decide_true; [done|rewrite E; by left|done].
    - rewrite bool_decide_false by done. rewrite IH by done. do 2 f_equal. apply bool_decide_ext.
      rewrite elem_of_cons. naive_solver. }
  unfold mbind. rewrite E. case_bool_decide as Hin; [|auto]. apply H1; [done|]. intros Hc. by rewrite Hc in Hin.
Qed.

Lemma runs_match_one_of {B} n ts (d : bool -> P B) s Q :
  inv s -> EOF_TOKEN ∉ ts ->
  (forall s', cur s ∈ ts -> inv s' -> m_current s' = S (m_current s) -> prv s' = tok s -> runs n Q (d true s')) ->
  (cur s ∉ ts -> runs n Q (d false s)) ->
  runs n Q (mbind (match_one_of ts) d s).
Proof.
  intros Hs Ht. induction ts as [|t ts IH]; intros H1 H2.
  - apply H2. apply not_elem_of_nil.
  - apply not_elem_of_cons in Ht as [Ht Hts]. cbn [match_one_of]. apply runs_assoc, runs_match; [done|congruence| |].
    + intros s' Hc. apply H1. rewrite Hc. by left.
    + intros Hc. apply IH; [done| |]; intros H3.
      * intros Hin. apply H1. by right.
      * apply H2. rewrite elem_of_cons. naive_solver.
Qed.

(** ** Errors *)

Lemma runs_throw {A} n e s (Q : A -> Parser -> Prop) :
  inv s -> (n <= m_current s)%nat -> raises tol e -> runs n Q (mthrow e s).
Proof. done. Qed.

Lemma inv_diagnostics sink sink' s : inv s -> m_diagnostics s = Some sink -> inv (set_diagnostics (Some sink') s).
Proof. intros [H1 H2 H3] E. split; [|done|done]. unfold tolerant in *. by rewrite <- H1, E. Qed.

Lemma runs_error_at {A} n message l c s (Q : A -> Parser -> Prop) :
  inv s -> (n <= m_current s)%nat -> runs n Q (error_at message l c s).
Proof.
  intros Hs Hn. unfold error_at. destruct (m_diagnostics s) as [sink|] eqn:E; [|by apply runs_throw].
  cbn. split_and!; [by eapply inv_diagnostics|done|]. rewrite <- (inv_mode _ Hs). unfold tolerant. by rewrite E.
Qed.

Lemma runs_error {A} n message s (Q : A -> Parser -> Prop) :
  inv s -> (n <= m_current s)%nat -> runs n Q (error message s).
Proof.
  intros Hs Hn. unfold error. apply runs_peek; [done|].
  destruct (m_diagnostics s) as [sink|] eqn:E; [|by apply runs_throw].
  cbn. split_and!; [by eapply inv_diagnostics|done|]. rewrite <- (inv_mode _ Hs). unfold tolerant. by rewrite E.
Qed.

Lemma runs_parser_error {A} n message l c s (Q : A -> Parser -> Prop) :
  inv s -> (n <= m_current s)%nat -> runs n Q (parser_error message l c s).
Proof. intros Hs Hn. by apply runs_throw. Qed.

(** An exception before a continuation. *)
Lemma runs_abort {A B} n (c : P A) (d : A -> P B) s Q :
  runs n (fun _ _ => False) (c s) -> runs n Q (mbind c d s).
Proof. intros H. eapply runs_bind; [done|]. by intros. Qed.

Lemma runs_when {B} n b (c : P unit) (d : unit -> P B) s Q :
  (b = true -> runs n Q (mbind c d s)) -> (b = false -> runs n Q (d tt s)) -> runs n Q (mbind (when b c) d s).
Proof. intros H1 H2. destruct b; [by apply H1|]. by apply H2. Qed.

Lemma runs_warn {B} n code message l c w (d : unit -> P B) s Q :
  inv s -> (forall s', inv s' -> m_current s' = m_current s -> runs n Q (d tt s')) ->
  runs n Q (mbind (warn code message l c w) d s).
Proof. intros Hs H. unfold warn. apply runs_modify; try done; by destruct (_ <=? _)%nat. Qed.

Lemma runs_consume {B} n t message (d : Token -> P B) s Q :
  inv s -> (n <= m_current s)%nat -> t <> EOF_TOKEN ->
  (forall s', cur s = t -> inv s' -> m_current s' = S (m_current s) -> prv s' = tok s -> runs n Q (d (tok s) s')) ->
  runs n Q (mbind (consume t message) d s).
Proof.
  intros Hs Hn Ht H. unfold consume. apply runs_assoc, runs_check; [done|done| |].
  - intros Hc. apply runs_advance; [done|congruence|]. intros s'. by apply H.
  - intros _. apply runs_assoc, runs_peek; [done|]. apply runs_abort. by apply runs_error.
Qed.

(** Where an inline suite goes on there is a token that is neither. *)
Lemma runs_inline_end {B} n (d : bool -> P B) s Q :
  inv s -> runs n Q (d true s) -> (cur s <> DEDENT -> cur s <> EOF_TOKEN -> runs n Q (d false s)) ->
  runs n Q (mbind at_inline_suite_end d s).
Proof.
  intros Hs H1 H2. unfold at_inline_suite_end. apply runs_assoc, runs_peek; [done|].
  change (runs n Q (d (is_one_of (tok s) [NEWLINE; DEDENT; RPAREN; RBRACKET; RBRACE; COMMA; EOF_TOKEN]) s)).
  destruct (is_one_of _ _) eqn:E; [done|].
  apply H2; unfold cur; intros Hc; unfold is_one_of, is_type in E; cbn in E; by rewrite Hc in E.
Qed.

(** ** Values *)

Lemma typed_tok s : inv s -> typed (tok s).
Proof. intros Hs. eapply Forall_lookup_1; [apply (wf_typed _ Hwf)|by apply token_current]. Qed.

Lemma get_string_typed t : typed t -> type t ∈ [STRING; STRING_NAME; NODE_PATH] -> exists v, get_string t = Ok v.
Proof.
  unfold typed, get_string. rewrite !elem_of_cons, elem_of_nil.
  intros Ht [E|[E|[E|[]]]]; rewrite E in Ht; destruct Ht as [v ->]; by eexists.
Qed.

Lemma runs_get_string {B} n t (d : string -> P B) s Q :
  inv s -> (n <= m_current s)%nat -> typed t -> type t ∈ [STRING; STRING_NAME; NODE_PATH] ->
  (forall v, runs n Q (d v s)) -> runs n Q (mbind (mlift (get_string t)) d s).
Proof. intros Hs Hn Ht Hin Hd. destruct (get_string_typed t Ht Hin) as [v E]. rewrite E. apply Hd. Qed.

(** [consume_member_name] consumes the token it accepts, also at the end. *)
Lemma runs_member_name {B} n message (d : Token -> P B) s Q :
  inv s -> (n <= m_current s)%nat -> (1 <= m_current s)%nat ->
  (forall a s', inv s' -> (m_current s <= m_current s')%nat -> runs n Q (d a s')) ->
  runs n Q (mbind (consume_member_name message) d s).
Proof.
  intros Hs Hn H1 H. unfold consume_member_name. apply runs_assoc, runs_peek; [done|].
  destruct (_ || _).
  - by apply runs_advance_any.
  - apply runs_consume; [done|done|done|]. intros s' _ Hs' Hm _. apply H; [done|lia].
Qed.

End Logic.

(** ** Automation *)

Ltac no_eof := first [assumption | apply (bool_decide_unpack _); vm_compute; exact I].

(** Extended by the files that use [exec]. *)
Ltac exec_hook c := fail.

Ltac exec_known c :=
  lazymatch c with
  | mbind _ _ => apply runs_assoc
  | mret ?a =>
      lazymatch goal with
      | |- runs ?t ?n ?Q (mbind (mret a) ?d ?s) => change (runs t n Q (d a s))
      end
  | peek => apply runs_peek; [assumption|]
  | previous => apply runs_previous; [assumption|lia|]
  | previous_is _ => apply runs_previous_is; [assumption|lia|intros ?]
  | peek_ahead _ => apply runs_peek_ahead; [assumption|intros ?]
  | next_is _ => apply runs_next_is; [assumption|intros ?]
  | is_at_end => apply runs_at_end; [assumption|intros ?|intros ?]
  | check _ => apply runs_check; [assumption|discriminate|intros ?|intros ?]
  | match_ _ => eapply runs_match; [assumption|assumption|discriminate|intros ? ? ? ? ?|intros ?]
  | advance =>
      first [ eapply runs_advance; [assumption|assumption|congruence|intros ? ? ? ?]
            | eapply runs_advance_any; [assumption|assumption|lia|intros ? ? ? ?] ]
  | check_any _ => apply runs_check_any; [assumption|no_eof|intros ? ?|intros ?]
  | match_one_of _ => eapply runs_match_one_of; [assumption|assumption|no_eof|intros ? ? ? ? ?|intros ?]
  | consume _ _ => eapply runs_consume; [assumption|assumption|lia|discriminate|intros ? ? ? ? ?]
  | consume_member_name _ => eapply runs_member_name; [assumption|assumption|lia|lia|intros ? ? ? ?]
  | at_inline_suite_end => apply runs_inline_end; [assumption| |intros ? ?]
  | or_else _ _ => unfold or_else at 1
  | and_also _ _ => unfold and_also at 1
  | when _ _ => apply runs_when; intros ?
  | error _ => apply runs_abort, runs_error; [assumption|lia]
  | error_at _ _ _ => apply runs_abort, runs_error_at; [assumption|lia]
  | parser_error _ _ _ => apply runs_abort, runs_parser_error; [assumption|lia]
  | warn _ _ _ _ _ => apply runs_warn; [assumption|intros ? ? ?]
  | modify (set_current _) => apply runs_rewind; [assumption|lia|intros ? ? ?]
  | modify _ => apply runs_modify; [done|done|done|assumption|intros ? ? ?]
  | gets _ => unfold gets at 1; unfold mbind at 1
  | loop _ _ => apply runs_loop_bind; [assumption|intros ? ? ? ?|intros ? ? ? ?]
  | (if ?b then _ else _) => destruct b eqn:?
  | match ?x with _ => _ end => destruct x eqn:?
  | _ => eapply runs_spec; [apply _|assumption|lia|lia|let H := fresh in intros ? ? ? H; cbv beta iota in H]
  end.

Ltac exec_bind c := first [exec_hook c | exec_known c]; cbv beta zeta; cbn beta iota delta [negb andb orb].

(** One step of the goal [runs _ _ _ (c s)]. *)
Ltac exec_step :=
  lazymatch goal with
  | |- runs _ _ _ (mbind ?c _ _) => exec_bind c
  | |- runs _ _ _ (mret _ _) => split; [assumption|]
  | |- runs _ _ _ (error _ _) => apply runs_error; [assumption|lia]
  | |- runs _ _ _ (error_at _ _ _ _) => apply runs_error_at; [assumption|lia]
  | |- runs _ _ _ (parser_error _ _ _ _) => apply runs_parser_error; [assumption|lia]
  | |- runs _ _ _ ((if ?b then _ else _) _) => destruct b eqn:?
  | |- runs _ _ _ (match ?x with _ => _ end _) => destruct x eqn:?
  | |- runs _ _ _ (_ _) => apply runs_eta
  end.

Ltac finish := cbn in *; repeat match goal with |- context [if ?b then _ else _] => destruct b; cbn in * end;
  try done; try lia; try (apply cur_moved; [lia|congruence]).

Ltac exec := repeat exec_step; finish.

(** A definition runs as its body does. *)
Ltac spec f := intros; unfold f; let s := fresh "s" in let Hs := fresh "Hs" in let Hlo := fresh "Hlo" in
  intros s Hs Hlo; exec.

End ParserFacts.
