(* ===== verification/ParserSafe.v ===== *)
(** * The parser runs on every token stream

    From well-formed tokens the parser ends within its budget, with a program or
    with an exception of its own: it never reads outside the tokens, reads a
    literal as a value of another kind, or lets a [Recovery] escape. *)

From S2P Require Import Prelude.
From S2P Require Import Double.
From S2P Require Import Token.
From S2P Require Import Lexer.
From S2P Require Import GlobalConstants.
From S2P Require Import ExportHints.
From S2P Require Import Ast.
From S2P Require Import Parser.
From S2P Require Import ParserExpr.
From S2P Require Import ParserStmt.
From S2P Require Import ParserDecl.
From S2P Require Import ParserProgram.
From S2P Require Import ParserFacts.

Module ParserSafe.
Import Token.
Import Ast.
Import Parser.
Import ParserExpr.
Import ParserStmt.
Import ParserDecl.
Import ParserProgram.
Import ParserFacts.

Section Safe.
Context {input : Input} (tol : bool) (Hwf : well_formed m_tokens).

Abbreviation Spec := (Spec tol).

#[local] Instance skip_newlines_spec : Spec 0 (fun _ => 0%nat) skip_newlines.
Proof. spec @skip_newlines. Qed.

#[local] Instance recover_spec : Spec 0 (fun _ => 0%nat) recover_to_statement_end.
Proof. spec @recover_to_statement_end. Qed.

#[local] Instance skip_expression_spec : Spec 0 (fun _ => 0%nat) skip_expression.
Proof. spec @skip_expression. Qed.

#[local] Instance statement_end_spec message : Spec 1 (fun _ => 0%nat) (consume_statement_end message).
Proof. spec @consume_statement_end. Qed.

#[local] Instance at_type_spec : Spec 0 (fun _ => 0%nat) at_type.
Proof. spec @at_type. Qed.

#[local] Instance skip_type_arguments_spec : Spec 0 (fun _ => 0%nat) skip_type_arguments.
Proof. spec @skip_type_arguments. Qed.

#[local] Instance synchronize_spec : Spec 1 (fun _ => 0%nat) synchronize.
Proof.
  intros s Hs Hlo. unfold synchronize. destruct (decide (cur s = EOF_TOKEN)) as [Hc|Hc].
  - unfold mbind at 1. rewrite (advance_end tol) by done. exec.
  - exec.
Qed.

(** ** Annotations *)

Lemma raises_int64 x e : int64_of_double x = Throw e -> raises tol e.
Proof.
  unfold int64_of_double. destruct x; try done; try case_bool_decide; try done; intros [= <-]; by left.
Qed.

Lemma raises_int32 x e : ExportHints.int32_of_double x = Throw e -> raises tol e.
Proof.
  unfold ExportHints.int32_of_double. destruct (int64_of_double x) as [z|e'] eqn:E; cbn.
  - case_bool_decide; [done|]. intros [= <-]. right. by left.
  - intros [= <-]. by eapply raises_int64.
Qed.

Lemma raises_bind {A B} (o : outcome A) (k : A -> outcome B) e :
  (forall e, o = Throw e -> raises tol e) -> (forall a e, o = Ok a -> k a = Throw e -> raises tol e) ->
  obind o k = Throw e -> raises tol e.
Proof. intros H1 H2. destruct o as [a|e']; cbn; [by apply H2|]. intros [= <-]. by apply H1. Qed.

Lemma chunk_argument_typed first chunk : Forall typed chunk -> exists a, chunk_argument first chunk = Ok a.
Proof.
  unfold chunk_argument, get_int, get_double, get_string.
  destruct chunk as [|t [|t' [|]]]; intros Ht; try (by eexists).
  - apply Forall_cons in Ht as [Ht _]. unfold typed in Ht.
    destruct (type t); try (by eexists); destruct Ht as [v ->]; by eexists.
  - apply Forall_cons in Ht as [_ [Ht _]%Forall_cons]. destruct (is_one_of _ _); [|by eexists]. unfold typed in Ht.
    destruct (type t'); try (by eexists); destruct Ht as [v ->]; by eexists.
Qed.

Lemma end_chunk_typed chunk arguments : Forall typed chunk -> exists l, end_chunk chunk arguments = Ok l.
Proof.
  intros Ht. unfold end_chunk. destruct chunk as [|t chunk]; [by eexists|].
  destruct (chunk_argument_typed t (t :: chunk) Ht) as [a ->]. by eexists.
Qed.

Lemma runs_end_chunk {B} n chunk arguments (d : list ExportHints.ExportArgument -> P B) s Q :
  Forall typed chunk -> (forall l, runs tol n Q (d l s)) -> runs tol n Q (mbind (mlift (end_chunk chunk arguments)) d s).
Proof. intros Ht Hd. destruct (end_chunk_typed chunk arguments Ht) as [l E]. rewrite E. apply Hd. Qed.

#[local] Instance attribute_arguments_spec : Spec 0 (fun _ => 0%nat) parse_attribute_arguments.
Proof.
  intros s Hs Hlo. unfold parse_attribute_arguments. exec_step; [|exec].
  eapply runs_bind.
  - apply runs_loop with (I := fun st s' => Forall typed st.1.2 /\ (m_current s <= m_current s')%nat)
      (Q := fun st s' => Forall typed st.1.2 /\ (m_current s <= m_current s')%nat); [done|cbn; by split; [|lia]|].
    intros [[depth chunk] arguments] s1 Hs1 [Ht Hle]. cbn in Ht. pose proof (typed_tok tol Hwf s1 Hs1).
    repeat first [apply runs_end_chunk; [done|intros ?] | exec_step];
      cbn in *; repeat match goal with |- context [if ?b then _ else _] => destruct b; cbn in * end;
      repeat split; first [done | lia | apply Forall_app; by repeat constructor].
  - intros [[depth chunk] arguments] s1 Hs1 [Ht Hle]. cbn in Ht. apply runs_end_chunk; [done|intros l]. exec.
Qed.

Context {libm : Libm}.

Lemma raises_format x e : ExportHints.format_hint_number x = Throw e -> raises tol e.
Proof.
  unfold ExportHints.format_hint_number. destruct (is_nan x); [done|]. destruct (is_inf x); [done|].
  apply raises_bind.
  - intros e'. destruct (dgtb _ _); [|done]. apply raises_bind; [apply raises_int32|done].
  - intros decimals e' _. by destruct (ExportHints.has_dot _).
Qed.

Lemma raises_range name i args out e : ExportHints.range_arguments name i args out = Throw e -> raises tol e.
Proof.
  revert i out e. induction args as [|arg args IH]; intros i out e; [done|]. cbn [ExportHints.range_arguments].
  destruct (ExportHints.unevaluated arg); [done|]. destruct (i <? 3)%nat.
  - destruct (ExportHints.number_argument arg); [|done]. apply raises_bind; [apply raises_format|]. intros a e' _. apply IH.
  - destruct (negb _); [done|]. apply IH.
Qed.

Lemma raises_integer arg e : ExportHints.integer_argument arg = Throw e -> raises tol e.
Proof.
  unfold ExportHints.integer_argument. destruct (ExportHints.is_kind _ arg).
  - apply raises_bind; [apply raises_int64|done].
  - destruct (negb _); [done|]. by destruct (GlobalConstants.find_global_constant _).
Qed.

Lemma raises_custom name args out e :
  (2 <= length args)%nat -> ExportHints.custom_arguments name args out = Throw e -> raises tol e.
Proof.
  unfold ExportHints.custom_arguments. destruct args as [|a [|b rest]]; cbn [length]; [lia|lia|]. intros _.
  destruct (existsb _ _); [done|]. apply raises_bind; [apply raises_integer|].
  intros [h|] e' _; [|done]. destruct (negb _); [done|]. destruct rest as [|c []]; [done| |done].
  apply raises_bind; [apply raises_integer|]. by intros [u|] e2 _.
Qed.

(** The custom style takes two arguments at least. *)
Lemma custom_takes_two name entry :
  ExportHints.find_annotation name = Some entry -> ExportHints.style entry = ExportHints.CUSTOM ->
  ExportHints.min_args entry = 2.
Proof.
  unfold ExportHints.find_annotation. intros H%find_some. destruct H as [Hin _].
  assert (Hall : Forall (fun e => ExportHints.style e = ExportHints.CUSTOM -> ExportHints.min_args e = 2)
    ExportHints.EXPORT_ANNOTATIONS) by (repeat constructor; by cbn).
  rewrite List.Forall_forall in Hall. by apply Hall.
Qed.

Lemma raises_hint name args e : ExportHints.build_export_hint name args = Throw e -> raises tol e.
Proof.
  unfold ExportHints.build_export_hint. destruct (ExportHints.find_annotation name) as [entry|] eqn:Ef; [|done].
  destruct (_ || _) eqn:Eb; [done|]. apply raises_bind; [|done].
  intros e'. destruct (ExportHints.style entry) eqn:Es; [done|done|done|apply raises_range|].
  apply raises_custom. apply orb_false_iff in Eb as [Eb _]. rewrite (custom_takes_two _ _ Ef Es) in Eb.
  apply Z.ltb_ge in Eb. lia.
Qed.

Lemma raises_channel x e : bad_channel x = Throw e -> raises tol e.
Proof.
  unfold bad_channel. destruct (_ || _); [done|]. apply raises_bind; [apply raises_int32|done].
Qed.

#[local] Instance section_spec name arguments : Spec 0 (fun _ => 0%nat) (parse_section name arguments).
Proof. spec @parse_section. Qed.

#[local] Ltac exec_hook c ::=
  lazymatch c with
  | mlift (bad_channel _) => apply runs_lift; [assumption|lia|intros ? _|intros ?; apply raises_channel]
  | mlift (ExportHints.int32_of_double _) => apply runs_lift; [assumption|lia|intros ? _|intros ?; apply raises_int32]
  | mlift (ExportHints.build_export_hint _ _) => apply runs_lift; [assumption|lia|intros ? _|intros ?; apply raises_hint]
  end.

#[local] Instance rpc_option_spec i argument o : Spec 0 (fun _ => 0%nat) (rpc_option i argument o).
Proof. spec @rpc_option. Qed.

#[local] Instance rpc_options_spec i arguments o : Spec 0 (fun _ => 0%nat) (rpc_options i arguments o).
Proof. revert i o. induction arguments as [|a arguments IH]; intros i o; spec @rpc_options. Qed.

#[local] Instance rpc_spec name arguments a : Spec 0 (fun _ => 0%nat) (parse_rpc name arguments a).
Proof. spec @parse_rpc. Qed.

#[local] Instance export_spec name arguments a : Spec 0 (fun _ => 0%nat) (parse_export name arguments a).
Proof. spec @parse_export. Qed.

#[local] Instance host_hook_spec name arguments a : Spec 0 (fun _ => 0%nat) (parse_host_hook name arguments a).
Proof. spec @parse_host_hook. Qed.

#[local] Instance test_spec name arguments a : Spec 0 (fun _ => 0%nat) (parse_test name arguments a).
Proof. spec @parse_test. Qed.

#[local] Instance attribute_spec a : Spec 0 (fun _ => 1%nat) (parse_attribute a).
Proof. spec @parse_attribute. Qed.

#[local] Instance attributes_spec a : Spec 0 (fun _ => 0%nat) (parse_attributes a).
Proof. spec @parse_attributes. Qed.

(** ** Types *)

Section Grammar.
Context {callees : Callees} (floor : nat).

(** The functions of the grammar, on the tokens behind [floor]. *)
Context (Hexpression : Spec (S floor) (fun _ => 0%nat) c_expression).
Context (Hexpression_impl : Spec (S floor) (fun _ => 1%nat) c_expression_impl).
Context (Hternary : Spec (S floor) (fun _ => 1%nat) c_ternary).
Context (Hcoalesce : Spec (S floor) (fun _ => 1%nat) c_coalesce).
Context (Hnot : Spec (S floor) (fun _ => 1%nat) c_not).
Context (Hunary : Spec (S floor) (fun _ => 1%nat) c_unary).
Context (Htype : Spec (S floor) (fun _ => 1%nat) c_type_expr).

#[local] Existing Instances Hexpression Hexpression_impl Hternary Hcoalesce Hnot Hunary Htype.

#[local] Instance type_name_spec collect : Spec floor (fun _ => 1%nat) (parse_type_name collect).
Proof. spec @parse_type_name. Qed.

#[local] Instance type_member_spec type : Spec floor (fun _ => 1%nat) (parse_type_member type).
Proof. spec @parse_type_member. Qed.

#[local] Instance nullable_suffix_spec type e : Spec floor (fun _ => 0%nat) (parse_nullable_suffix type e).
Proof. spec @parse_nullable_suffix. Qed.

#[local] Instance type_expr_spec : Spec floor (fun _ => 1%nat) parse_type_expr.
Proof. spec @parse_type_expr. Qed.

#[local] Instance type_hint_spec : Spec floor (fun _ => 0%nat) parse_type_hint.
Proof. spec @parse_type_hint. Qed.

#[local] Instance return_type_spec : Spec floor (fun _ => 0%nat) parse_return_type.
Proof. spec @parse_return_type. Qed.

(** ** Suites and arguments *)

(** A statement consumes a token unless it stands at the end of its block. *)
Context (Hstatement : forall s, inv tol s -> (S floor <= m_current s)%nat -> cur s <> DEDENT -> cur s <> EOF_TOKEN ->
  runs tol (m_current s) (fun _ s' => (m_current s + 1 <= m_current s')%nat) (c_statement s)).

Lemma runs_statement {B} n (d : Stmt -> P B) s Q :
  inv tol s -> (S floor <= m_current s)%nat -> (n <= m_current s)%nat -> cur s <> DEDENT -> cur s <> EOF_TOKEN ->
  (forall a s', inv tol s' -> (m_current s + 1 <= m_current s')%nat -> runs tol n Q (d a s')) ->
  runs tol n Q (mbind c_statement d s).
Proof.
  intros Hs Hlo Hn H1 H2 Hd. eapply runs_bind; [|exact Hd].
  eapply runs_weaken; [by apply Hstatement|done|done].
Qed.

#[local] Ltac exec_hook c ::=
  lazymatch c with
  | at_block_end => unfold at_block_end at 1
  | at_property_accessor => unfold at_property_accessor at 1
  | at_lua_key => unfold at_lua_key at 1
  | parse_lua_key _ => unfold parse_lua_key at 1
  | c_statement => eapply runs_statement; [assumption|lia|lia|assumption|assumption|intros ? ? ? ?]
  | mlift (get_string ?t) =>
      eapply runs_get_string; [assumption|lia|eapply typed_tok; eassumption| |intros ?];
        [lazymatch goal with
         | H : cur ?s = IDENTIFIER, H' : is_type (tok ?s) IDENTIFIER = false |- _ =>
             exfalso; apply bool_decide_eq_false in H'; by apply H'
         | H : cur ?s = _ |- type (tok ?s) ∈ _ => change (type (tok s)) with (cur s); rewrite H; no_eof
         end|]
  end.

#[local] Instance block_spec : Spec floor (fun _ => 0%nat) parse_block.
Proof. spec @parse_block. Qed.

#[local] Instance inline_suite_spec : Spec (S floor) (fun _ => 0%nat) parse_inline_suite.
Proof. spec @parse_inline_suite. Qed.

#[local] Instance suite_spec : Spec (S floor) (fun _ => 0%nat) parse_suite.
Proof. spec @parse_suite. Qed.

#[local] Instance argument_list_spec : Spec (S floor) (fun _ => 0%nat) parse_argument_list.
Proof. spec @parse_argument_list. Qed.

#[local] Instance parameters_spec : Spec floor (fun _ => 0%nat) parse_parameters.
Proof. spec @parse_parameters. Qed.

(** ** Expressions *)

(** The first token is consumed before anything can go wrong. *)
Lemma node_path_runs s : inv tol s -> (floor <= m_current s)%nat -> cur s <> EOF_TOKEN ->
  runs tol (S (m_current s)) (fun _ s' => (m_current s < m_current s')%nat) (parse_node_path s).
Proof. intros Hs Hlo Hc. unfold parse_node_path. exec. Qed.

Lemma runs_node_path {B} n (d : Expr -> P B) s Q :
  inv tol s -> (floor <= m_current s)%nat -> (n <= S (m_current s))%nat -> cur s <> EOF_TOKEN ->
  (forall a s', inv tol s' -> (m_current s < m_current s')%nat -> runs tol n Q (d a s')) ->
  runs tol n Q (mbind parse_node_path d s).
Proof.
  intros Hs Hlo Hn Hc Hd. eapply runs_bind; [|exact Hd].
  eapply runs_weaken; [by apply node_path_runs|done|done].
Qed.

#[local] Instance await_spec {A} lo k (c : P A) : Spec lo k c -> Spec lo (fun r => k r.1) (with_await_tracked c).
Proof. intros Hc. spec @with_await_tracked. Qed.

Lemma lambda_runs s : inv tol s -> (floor <= m_current s)%nat -> cur s = FUNC ->
  runs tol (S (m_current s)) (fun _ s' => (m_current s < m_current s')%nat) (parse_lambda s).
Proof.
  intros Hs Hlo Hc. unfold parse_lambda, consume. apply runs_assoc, runs_check; [done|done| |done]. intros _. exec.
Qed.

#[local] Instance array_spec : Spec (S floor) (fun _ => 0%nat) parse_array.
Proof. spec @parse_array. Qed.

#[local] Instance python_key_spec first : Spec (S floor) (fun _ => 0%nat) (parse_python_key first).
Proof. spec @parse_python_key. Qed.

#[local] Instance dictionary_spec : Spec (S floor) (fun _ => 0%nat) parse_dictionary.
Proof. spec @parse_dictionary. Qed.

Lemma literal_of_typed t :
  typed t -> type t ∈ [TRUE; FALSE; NULL_VAL; INTEGER; FLOAT; STRING; STRING_NAME; NODE_PATH] ->
  exists l, literal_of t = Ok l.
Proof.
  unfold typed, literal_of, get_int, get_double, get_string. intros Ht Hin.
  destruct (type t); try (by eexists); try (destruct Ht as [v ->]; by eexists);
    exfalso; revert Hin; apply (bool_decide_unpack (_ ∉ _)); by vm_compute.
Qed.

Lemma pending_none s : inv tol s -> m_pending_primary s = None.
Proof. by intros []. Qed.

(** The tokens an operand starts with: of a primary, and of a prefix operator. *)
Definition primary_starts : list TokenType :=
  [FUNC; TRUE; FALSE; NULL_VAL; INTEGER; FLOAT; STRING; STRING_NAME; NODE_PATH; DOLLAR; MODULO; IDENTIFIER; LPAREN;
   LBRACKET; LBRACE].
Definition prefixes : list TokenType := [NOT; AWAIT; MINUS; BIT_NOT; PLUS].
Definition starts : list TokenType := prefixes ++ primary_starts.

(** Such a token is consumed even when there is an error behind it. *)
Definition from (s : Parser) : nat := if bool_decide (cur s ∈ starts) then S (m_current s) else m_current s.

Lemma from_range s : (m_current s <= from s <= S (m_current s))%nat.
Proof. unfold from. case_bool_decide; lia. Qed.

Class Operand {A} (lo : nat) (c : P A) : Prop :=
  operand_runs : forall s, inv tol s -> (lo <= m_current s)%nat ->
    runs tol (from s) (fun _ s' => (m_current s < m_current s')%nat) (c s).

#[local] Instance operand_spec {A} lo (c : P A) : Operand lo c -> Spec lo (fun _ => 1%nat) c.
Proof.
  intros Hc s Hs Hlo. pose proof (from_range s). eapply runs_weaken; [by apply Hc|lia|]. intros a s' _ Hlt. cbn in *. lia.
Qed.

Lemma runs_operand {A B} lo (c : P A) (d : A -> P B) s Q :
  Operand lo c -> inv tol s -> (lo <= m_current s)%nat ->
  (forall a s', inv tol s' -> (m_current s < m_current s')%nat -> runs tol (from s) Q (d a s')) ->
  runs tol (from s) Q (mbind c d s).
Proof. intros Hc Hs Hlo Hd. eapply runs_bind; [by apply Hc|done]. Qed.

Lemma runs_tail_operand lo (c : P Expr) s :
  Operand lo c -> inv tol s -> (lo <= m_current s)%nat ->
  runs tol (from s) (fun _ s' => (m_current s < m_current s')%nat) (mbind c mret s).
Proof. intros Hc Hs Hlo. eapply runs_operand; [done|done|done|]. by intros. Qed.

(** A level that starts with an operand. *)
Ltac operand f := intros s Hs Hlo; unfold f; pose proof (from_range s);
  eapply runs_operand; [apply _|assumption|lia|intros ? ? ? ?]; exec.

Lemma other_from s : cur s ∉ starts -> from s = m_current s.
Proof. intros H. unfold from. by rewrite bool_decide_false. Qed.

Lemma start_from s : cur s ∈ starts -> from s = S (m_current s).
Proof. intros H. unfold from. by rewrite bool_decide_true. Qed.

Definition literals : list TokenType := [TRUE; FALSE; NULL_VAL; INTEGER; FLOAT; STRING; STRING_NAME; NODE_PATH].

Lemma literal_starts t : t ∈ literals -> t ∈ primary_starts.
Proof. unfold literals, primary_starts. set_solver. Qed.

Lemma primary_cases t :
  t ∈ primary_starts -> t = FUNC \/ t ∈ literals \/ t = DOLLAR \/ t = MODULO \/ t = IDENTIFIER \/ t = LPAREN
    \/ t = LBRACKET \/ t = LBRACE.
Proof. unfold primary_starts, literals. set_solver. Qed.

Lemma prefix_cases t : t ∈ prefixes -> t = NOT \/ t = AWAIT \/ t ∈ [MINUS; BIT_NOT; PLUS].
Proof. unfold prefixes. set_solver. Qed.

(** [n] may be the next token where one of a primary is consumed. *)
Lemma primary_runs n s : inv tol s -> (floor <= m_current s)%nat -> (n <= S (m_current s))%nat ->
  (cur s ∉ primary_starts -> (n <= m_current s)%nat) ->
  runs tol n (fun _ s' => (m_current s < m_current s')%nat /\ cur s ∈ primary_starts) (parse_primary s).
Proof.
  intros Hs Hlo H Hp. unfold parse_primary. exec_step. rewrite (pending_none _ Hs). cbv beta iota.
  exec_step.
  { eapply runs_weaken; [by apply lambda_runs|lia|]. intros a s' _ Hlt. split; [done|].
    match goal with H : cur s = FUNC |- _ => rewrite H end. no_eof. }
  exec_step.
  - exec_step. match goal with H : prv _ = tok s |- _ => rewrite H end.
    destruct (literal_of_typed (tok s)) as [l E]; [by eapply typed_tok|done|]. rewrite E.
    match goal with |- runs _ _ _ (mbind (mlift (Ok l)) ?d s') => change (mbind (mlift (Ok l)) d s') with (d l s') end.
    repeat exec_step. split; [lia|]. by apply literal_starts.
  - repeat first
      [ eapply runs_node_path; [assumption|lia|lia|congruence|intros ? ? ? ?]
      | apply runs_error; [assumption|apply Hp; intros Hin%primary_cases; naive_solver]
      | exec_step ];
      (split; [lia|]);
      match goal with H : cur s = _ |- cur s ∈ _ => rewrite H; no_eof end.
Qed.

#[local] Instance method_arguments_spec : Spec (S floor) (fun _ => 0%nat) parse_method_arguments.
Proof. spec @parse_method_arguments. Qed.

#[local] Instance call_on_spec callee arguments names : Spec 0 (fun _ => 0%nat) (call_on callee arguments names).
Proof. spec @call_on. Qed.

(** A function of the chain with a finished cast pending: the cast is its first
    operand. *)
Class Resumes (c : P Expr) : Prop :=
  resumes : forall s e, inv tol s -> (S floor <= m_current s)%nat ->
    runs tol (m_current s) (fun _ s' => (m_current s <= m_current s')%nat) (c (set_pending_primary (Some e) s)).

Lemma clear_pending s e : inv tol s -> inv tol (set_pending_primary None (set_pending_primary (Some e) s)).
Proof. by intros [? ? ?]. Qed.

#[local] Instance primary_resumes : Resumes parse_primary.
Proof. intros s e Hs Hlo. cbn. split; [by apply clear_pending|done]. Qed.

Lemma runs_resume {B} n (c : P Expr) (d : Expr -> P B) s e Q :
  Resumes c -> inv tol s -> (S floor <= m_current s)%nat -> (n <= m_current s)%nat ->
  (forall a s', inv tol s' -> (m_current s <= m_current s')%nat -> runs tol n Q (d a s')) ->
  runs tol n Q (mbind c d (set_pending_primary (Some e) s)).
Proof.
  intros Hc Hs Hlo Hn Hd. eapply runs_bind; [|exact Hd].
  eapply runs_weaken; [by apply Hc|done|done].
Qed.

(** Of a level that starts with an operand: what it does with a pending cast. *)
Ltac resume f := intros s e Hs Hlo; unfold f; eapply runs_resume; [apply _|assumption|lia|lia|intros ? ? ? ?]; exec.

Lemma call_runs n s : inv tol s -> (floor <= m_current s)%nat -> (n <= S (m_current s))%nat ->
  (cur s ∉ primary_starts -> (n <= m_current s)%nat) ->
  runs tol n (fun _ s' => (m_current s < m_current s')%nat /\ cur s ∈ primary_starts) (parse_call s).
Proof.
  intros Hs Hlo H Hp. unfold parse_call. eapply runs_bind; [by apply primary_runs|].
  intros e s1 Hs1 [Hlt Hin]. exec; (split; [lia|done]).
Qed.
#[local] Instance call_resumes : Resumes parse_call.
Proof. resume @parse_call. Qed.

(** A [not] hands its first token on without a step. *)
Context (Hnot_here : forall s, inv tol s -> (floor <= m_current s)%nat -> cur s = NOT ->
  runs tol (from s) (fun _ s' => (m_current s < m_current s')%nat) (c_not s)).

#[local] Instance unary_operand : Operand floor parse_unary.
Proof.
  intros s Hs Hlo. pose proof (from_range s). unfold parse_unary. exec_step. rewrite (pending_none _ Hs). cbv beta iota.
  exec_step; [by apply Hnot_here|]. exec_step; [exec|]. exec_step; [exec|].
  eapply runs_weaken; [apply (call_runs (from s)); [done|done|lia|]|done|by intros ? ? _ []].
  intros Hn. rewrite other_from; [done|]. unfold starts. rewrite elem_of_app.
  intros [Hin%prefix_cases|]; [naive_solver|done].
Qed.
#[local] Instance unary_resumes : Resumes parse_unary.
Proof. intros s e Hs Hlo. exact (call_resumes s e Hs Hlo). Qed.

#[local] Instance binary_level_operand operand ops :
  EOF_TOKEN ∉ map fst ops -> Operand floor operand -> Operand floor (binary_level operand ops).
Proof. intros Hops Hop. operand @binary_level. Qed.
#[local] Instance binary_level_resumes operand ops :
  EOF_TOKEN ∉ map fst ops -> Operand floor operand -> Resumes operand -> Resumes (binary_level operand ops).
Proof. intros Hops Hop Hres. resume @binary_level. Qed.

Ltac level f := unfold f; first [apply binary_level_operand | apply binary_level_resumes]; [no_eof|apply _..].

#[local] Instance power_operand : Operand floor parse_power.
Proof. level @parse_power. Qed.
#[local] Instance power_resumes : Resumes parse_power.
Proof. level @parse_power. Qed.
#[local] Instance type_test_operand : Operand floor parse_type_test.
Proof. operand @parse_type_test. Qed.
#[local] Instance type_test_resumes : Resumes parse_type_test.
Proof. resume @parse_type_test. Qed.
#[local] Instance factor_operand : Operand floor parse_factor.
Proof. level @parse_factor. Qed.
#[local] Instance factor_resumes : Resumes parse_factor.
Proof. level @parse_factor. Qed.
#[local] Instance term_operand : Operand floor parse_term.
Proof. level @parse_term. Qed.
#[local] Instance term_resumes : Resumes parse_term.
Proof. level @parse_term. Qed.
#[local] Instance shift_operand : Operand floor parse_shift.
Proof. level @parse_shift. Qed.
#[local] Instance shift_resumes : Resumes parse_shift.
Proof. level @parse_shift. Qed.
#[local] Instance bit_and_operand : Operand floor parse_bit_and.
Proof. level @parse_bit_and. Qed.
#[local] Instance bit_and_resumes : Resumes parse_bit_and.
Proof. level @parse_bit_and. Qed.
#[local] Instance bit_xor_operand : Operand floor parse_bit_xor.
Proof. level @parse_bit_xor. Qed.
#[local] Instance bit_xor_resumes : Resumes parse_bit_xor.
Proof. level @parse_bit_xor. Qed.
#[local] Instance bit_or_operand : Operand floor parse_bit_or.
Proof. level @parse_bit_or. Qed.
#[local] Instance bit_or_resumes : Resumes parse_bit_or.
Proof. level @parse_bit_or. Qed.
#[local] Instance comparison_operand : Operand floor parse_comparison.
Proof. level @parse_comparison. Qed.
#[local] Instance comparison_resumes : Resumes parse_comparison.
Proof. level @parse_comparison. Qed.
#[local] Instance equality_operand : Operand floor parse_equality.
Proof. level @parse_equality. Qed.
#[local] Instance equality_resumes : Resumes parse_equality.
Proof. level @parse_equality. Qed.
#[local] Instance inclusion_operand : Operand floor parse_inclusion.
Proof. operand @parse_inclusion. Qed.
#[local] Instance inclusion_resumes : Resumes parse_inclusion.
Proof. resume @parse_inclusion. Qed.

#[local] Instance not_operand : Operand floor parse_not.
Proof.
  intros s Hs Hlo. pose proof (from_range s). unfold parse_not. exec_step. rewrite (pending_none _ Hs). cbv beta iota.
  repeat first [eapply runs_tail_operand; [apply _|assumption|lia] | exec_step]; finish.
Qed.
#[local] Instance not_resumes : Resumes parse_not.
Proof. intros s e Hs Hlo. exact (inclusion_resumes s e Hs Hlo). Qed.

#[local] Instance and_operand : Operand floor parse_and_expression.
Proof. level @parse_and_expression. Qed.
#[local] Instance and_resumes : Resumes parse_and_expression.
Proof. level @parse_and_expression. Qed.
#[local] Instance or_operand : Operand floor parse_or_expression.
Proof. level @parse_or_expression. Qed.
#[local] Instance or_resumes : Resumes parse_or_expression.
Proof. level @parse_or_expression. Qed.
#[local] Instance coalesce_operand : Operand floor parse_coalesce.
Proof. operand @parse_coalesce. Qed.
#[local] Instance coalesce_resumes : Resumes parse_coalesce.
Proof. resume @parse_coalesce. Qed.
#[local] Instance ternary_operand : Operand floor parse_ternary.
Proof. operand @parse_ternary. Qed.
#[local] Instance ternary_resumes : Resumes parse_ternary.
Proof. resume @parse_ternary. Qed.

Lemma not_here s : inv tol s -> (floor <= m_current s)%nat -> cur s = NOT ->
  runs tol (from s) (fun _ s' => (m_current s < m_current s')%nat) (parse_not s).
Proof.
  intros Hs Hlo Hc. pose proof (from_range s). unfold parse_not. exec_step. rewrite (pending_none _ Hs). cbv beta iota.
  do 3 exec_step. exec_step; [|done]. exec.
Qed.

(** ** Whole expressions *)

#[local] Instance continues_spec : Spec 0 (fun _ => 0%nat) continues_after_cast.
Proof.
  intros s Hs Hlo. unfold continues_after_cast. exec_step. destruct (type (tok s)); exec.
Qed.

#[local] Instance expression_impl_operand : Operand floor parse_expression_impl.
Proof.
  intros s Hs Hlo. pose proof (from_range s). unfold parse_expression_impl.
  eapply runs_operand; [apply _|assumption|lia|intros ? ? ? ?]. apply runs_eta.
  exec_step; [|exec]. repeat exec_step; finish.
  eapply runs_resume; [apply _|assumption|lia|lia|intros ? ? ? ?]. exec.
Qed.

(** With an error, an expression may consume nothing; not where one can start. *)
Lemma expression_runs s : inv tol s -> (floor <= m_current s)%nat ->
  runs tol (m_current s) (fun _ s' => (from s <= m_current s')%nat) (parse_expression s).
Proof.
  intros Hs Hlo. pose proof (from_range s). unfold parse_expression.
  assert (Himpl : runs tol (from s) (fun _ s' => (from s <= m_current s')%nat) (parse_expression_impl s)).
  { eapply runs_weaken; [by apply expression_impl_operand|done|]. cbn. lia. }
  exec_step. destruct (negb _); [apply runs_earlier with (n1 := from s); [exact Himpl|lia]|]. exec_step.
  apply runs_earlier with (n1 := from s); [|lia].
  apply runs_try; [exact Himpl|]. intros s' Hs' Hle Ht. exec.
Qed.

(** ** Statements *)

(** A statement, a condition and a pattern may begin with an expression. *)
Context (Hhere : forall s, inv tol s -> (floor <= m_current s)%nat ->
  runs tol (m_current s) (fun _ s' => (from s <= m_current s')%nat) (c_expression s)).

Lemma runs_expression {B} n (d : Expr -> P B) s Q :
  inv tol s -> (floor <= m_current s)%nat -> (n <= m_current s)%nat ->
  (forall a s', inv tol s' -> (from s <= m_current s')%nat -> runs tol n Q (d a s')) ->
  runs tol n Q (mbind c_expression d s).
Proof.
  intros Hs Hlo Hn Hd. eapply runs_bind; [|exact Hd].
  eapply runs_earlier; [by apply Hhere|done].
Qed.

#[local] Instance here_spec : Spec floor (fun _ => 0%nat) c_expression.
Proof.
  intros s Hs Hlo. pose proof (from_range s). eapply runs_weaken; [by apply Hhere|done|]. intros a s' _ Hle. cbn in *. lia.
Qed.

#[local] Instance find_compound_spec ops :
  EOF_TOKEN ∉ map fst ops -> Spec 0 (fun _ => 0%nat) (find_compound ops).
Proof.
  induction ops as [|[t op] ops IH]; intros Hops; [spec @find_compound|].
  apply not_elem_of_cons in Hops as [Ht Hops]. specialize (IH Hops). cbn [find_compound].
  intros s Hs Hlo. apply runs_check; [done|cbn in Ht; congruence|intros _; exec|intros _; exec].
Qed.

#[local] Instance checked_target_spec target : Spec 0 (fun _ => 0%nat) (checked_target target).
Proof. spec @checked_target. Qed.

#[local] Instance compound_temp_spec at_ value : Spec 0 (fun _ => 0%nat) (compound_temp at_ value).
Proof. spec @compound_temp. Qed.

Lemma hoist_spec target op rhs : can_hoist target = true -> Spec 0 (fun _ => 0%nat) (hoist_compound_target target op rhs).
Proof.
  unfold can_hoist. intros H. unfold hoist_compound_target. destruct (expr_node target); try done; intros s Hs Hlo; exec.
Qed.

#[local] Instance compound_spec lhs op : Spec (S floor) (fun _ => 0%nat) (parse_compound lhs op).
Proof.
  intros s Hs Hlo. unfold parse_compound. destruct (clone_lvalue lhs); [exec|].
  destruct (can_hoist lhs) eqn:E; cbn [negb]; [|exec]. pose proof (fun rhs => hoist_spec lhs op rhs E). exec.
Qed.

(** A primary was read at [s], so an expression there consumes it. *)
Lemma runs_reparse {B} s (d : Expr -> P B) s2 Q :
  inv tol s -> inv tol s2 -> (floor <= m_current s)%nat -> cur s ∈ primary_starts -> (m_current s <= m_current s2)%nat ->
  (forall a s', inv tol s' -> (m_current s < m_current s')%nat -> runs tol (m_current s) Q (d a s')) ->
  runs tol (m_current s) Q (mbind (modify (set_current (m_current s))) (fun _ => mbind c_expression d) s2).
Proof.
  intros Hs Hs2 Hlo Hin Hle Hd. apply runs_rewind; [done|done|]. intros s3 Hs3 E.
  apply runs_expression; [done|lia|lia|]. intros a s4 Hs4 Hf. apply Hd; [done|].
  rewrite start_from in Hf; [lia|]. unfold starts. apply elem_of_app. right.
  unfold cur, tok. rewrite E. exact Hin.
Qed.

#[local] Instance expr_or_assign_spec : Spec floor (fun _ => 1%nat) parse_expr_or_assign_stmt.
Proof.
  intros s Hs Hlo. unfold parse_expr_or_assign_stmt. exec_step.
  - apply runs_expression; [done|done|done|]. intros e s' Hs' Hle. rewrite start_from in Hle; [exec|].
    match goal with H : cur s = AWAIT |- _ => rewrite H end. no_eof.
  - exec_step. eapply runs_bind; [apply (call_runs (m_current s)); [done|done|lia|done]|].
    intros lhs s1 Hs1 [Hlt Hin]. exec_step; [exec|].
    eapply runs_spec; [apply find_compound_spec; no_eof|assumption|lia|lia|]. intros op s2 Hs2 Hle. cbn in Hle.
    destruct op as [op|]; [exec|].
    repeat lazymatch goal with
    | |- runs _ _ _ (mbind (modify (set_current _)) _ _) => fail
    | |- _ => exec_step
    end.
    all: first [lia | eapply runs_reparse; [exact Hs|assumption|lia|assumption|lia|intros ? ? ? ?]; exec].
Qed.

#[local] Instance accessor_parameters_spec is_setter : Spec floor (fun _ => 0%nat) (parse_accessor_parameters is_setter).
Proof. spec @parse_accessor_parameters. Qed.

#[local] Instance one_accessor_spec decl : Spec floor (fun _ => 1%nat) (parse_one_property_accessor decl).
Proof. spec @parse_one_property_accessor. Qed.

#[local] Instance accessors_spec decl : Spec (S floor) (fun _ => 0%nat) (parse_property_accessors decl).
Proof. spec @parse_property_accessors. Qed.

#[local] Instance var_type_spec : Spec floor (fun _ => 0%nat) parse_var_type.
Proof. spec @parse_var_type. Qed.

#[local] Instance var_decl_spec is_const : Spec floor (fun _ => 1%nat) (parse_var_decl is_const).
Proof. spec @parse_var_decl. Qed.

#[local] Instance if_binding_spec : Spec floor (fun _ => 1%nat) parse_if_var_binding.
Proof. spec @parse_if_var_binding. Qed.

Context (Hif : Spec (S floor) (fun _ => 0%nat) c_if_stmt).
Context (Hpattern : Spec (S floor) (fun _ => 0%nat) c_match_pattern).
#[local] Existing Instances Hif Hpattern.

#[local] Instance if_spec : Spec floor (fun _ => 0%nat) parse_if_stmt.
Proof. spec @parse_if_stmt. Qed.

#[local] Instance while_spec : Spec floor (fun _ => 0%nat) parse_while_stmt.
Proof. spec @parse_while_stmt. Qed.

#[local] Instance for_spec : Spec floor (fun _ => 0%nat) parse_for_stmt.
Proof. spec @parse_for_stmt. Qed.

#[local] Instance return_spec : Spec (S floor) (fun _ => 0%nat) parse_return_stmt.
Proof. spec @parse_return_stmt. Qed.

#[local] Instance pattern_rest_spec what : Spec 0 (fun _ => 0%nat) (parse_pattern_rest what).
Proof. spec @parse_pattern_rest. Qed.

#[local] Instance struct_pattern_spec : Spec floor (fun _ => 0%nat) parse_match_struct_pattern.
Proof. spec @parse_match_struct_pattern. Qed.

#[local] Instance array_pattern_spec : Spec floor (fun _ => 0%nat) parse_match_array_pattern.
Proof. spec @parse_match_array_pattern. Qed.

#[local] Instance dictionary_pattern_spec : Spec floor (fun _ => 0%nat) parse_match_dictionary_pattern.
Proof. spec @parse_match_dictionary_pattern. Qed.

#[local] Instance pattern_spec : Spec floor (fun _ => 0%nat) parse_match_pattern.
Proof. spec @parse_match_pattern. Qed.

#[local] Instance check_patterns_spec patterns : Spec 0 (fun _ => 0%nat) (check_patterns patterns).
Proof. spec @check_patterns. Qed.

#[local] Instance branch_spec kw : Spec (S floor) (fun _ => 1%nat) (parse_branch kw).
Proof. spec @parse_branch. Qed.

#[local] Instance match_spec is_switch : Spec (S floor) (fun _ => 0%nat) (parse_match_stmt is_switch).
Proof. spec @parse_match_stmt. Qed.

#[local] Instance local_annotations_spec : Spec 0 (fun _ => 0%nat) parse_local_annotations.
Proof. spec @parse_local_annotations. Qed.

#[local] Instance keyword_spec node message : Spec 1 (fun _ => 0%nat) (keyword_stmt node message).
Proof. spec @keyword_stmt. Qed.

#[local] Instance statement_impl_spec : Spec floor (fun _ => 1%nat) parse_statement_impl.
Proof. spec @parse_statement_impl. Qed.

Lemma statement_runs s : inv tol s -> (floor <= m_current s)%nat -> cur s <> DEDENT -> cur s <> EOF_TOKEN ->
  runs tol (m_current s) (fun _ s' => (m_current s < m_current s')%nat) (parse_statement s).
Proof.
  intros Hs Hlo H1 H2. unfold parse_statement. do 3 exec_step.
  apply runs_bind with (Q1 := fun _ s' => (m_current s < m_current s')%nat); [|intros a s' Hs' Hlt; exec].
  assert (Himpl : runs tol (m_current s) (fun _ s' => (m_current s < m_current s')%nat) (parse_statement_impl s)).
  { eapply runs_weaken; [by apply statement_impl_spec|done|]. intros a s' _ Hle. cbn in Hle. lia. }
  destruct (tolerant s); [|done]. apply runs_try; [done|]. intros s' Hs' Hle _. unfold recover_statement.
  exec. match goal with H : _ && _ && _ = false |- _ => rewrite !andb_true_r in H; apply bool_decide_eq_false in H end. lia.
Qed.

(** ** Declarations *)

Context (Hclass : Spec (S floor) (fun _ => 1%nat) c_class).
#[local] Existing Instance Hclass.

Lemma raises_binary op x y e : fold_binary op x y = Throw e -> raises tol e.
Proof.
  unfold fold_binary. destruct op; try done; try by destruct (y =? 0).
  unfold fold_power. destruct (_ || _); [done|]. apply raises_bind; [apply raises_int64|done].
Qed.

Lemma raises_fold : forall expr decl consts e, try_fold_int expr decl consts = Throw e -> raises tol e.
Proof.
  fix IH 1. intros [l c node] decl consts e. destruct node; cbn [try_fold_int]; try done.
  - by destruct lit_type.
  - apply raises_bind; [intros ?; apply IH|]. intros [w|x] e1 _; [done|].
    apply raises_bind; [intros ?; apply IH|]. intros [w|y] e2 _; [done|].
    apply raises_bind; [intros ?; apply raises_binary|done].
  - apply raises_bind; [intros ?; apply IH|]. by intros [w|x] e1 _.
  - apply raises_bind; [intros ?; apply IH|]. intros [w|x] e1 _; [done|].
    apply raises_bind; [intros ?; apply IH|]. intros [w|y] e2 _; [done|].
    apply raises_bind; [intros ?; apply IH|]. by intros [w|z] e3 _.
Qed.

Lemma raises_overflow {A} (b : bool) (a : A) e :
  (if b then Throw (UB "signed integer overflow") else Ok a) = Throw e -> raises tol e.
Proof. destruct b; [|done]. intros [= <-]. do 2 right. by left. Qed.

#[local] Ltac exec_hook c ::=
  lazymatch c with
  | at_block_end => unfold at_block_end at 1
  | at_property_accessor => unfold at_property_accessor at 1
  | at_block_comment => unfold at_block_comment at 1
  | parse_pass => unfold parse_pass at 1
  | declared _ => unfold declared at 1
  | update _ => unfold update at 1
  | mlift (try_fold_int _ _ _) => apply runs_lift; [assumption|lia|intros ? _|intros ?; apply raises_fold]
  | mlift (if _ then Throw (UB "signed integer overflow") else Ok _) =>
      apply runs_lift; [assumption|lia|intros ? _|intros ?; apply raises_overflow]
  | c_statement => eapply runs_statement; [assumption|lia|lia|assumption|assumption|intros ? ? ? ?]
  end.

#[local] Instance record_const_spec decl : Spec 0 (fun _ => 0%nat) (record_const_value decl).
Proof. spec @record_const_value. Qed.

#[local] Instance fold_enum_spec expr decl start : Spec 0 (fun _ => 0%nat) (fold_enum_value expr decl start).
Proof. spec @fold_enum_value. Qed.

#[local] Instance function_spec : Spec floor (fun _ => 1%nat) parse_function.
Proof. spec @parse_function. Qed.

#[local] Instance signal_spec : Spec floor (fun _ => 1%nat) parse_signal.
Proof. spec @parse_signal. Qed.

#[local] Instance enum_member_spec st : Spec floor (fun _ => 1%nat) (parse_enum_member st).
Proof. intros s Hs Hlo. destruct st as [[decl next] next_expr]. unfold parse_enum_member. exec. Qed.

#[local] Instance enum_spec : Spec floor (fun _ => 1%nat) parse_enum.
Proof. spec @parse_enum. Qed.

#[local] Instance qualified_spec name message : Spec 0 (fun _ => 0%nat) (parse_qualified name message).
Proof. spec @parse_qualified. Qed.

#[local] Instance uses_list_spec : Spec 0 (fun _ => 0%nat) parse_uses_list.
Proof. spec @parse_uses_list. Qed.

#[local] Instance member_head_spec : Spec 0 (fun _ => 0%nat) parse_member_head.
Proof. spec @parse_member_head. Qed.

#[local] Instance declared_twice_spec {A} k decl what l c : Spec 0 (fun _ => 0%nat) (declared_twice (A := A) k decl what l c).
Proof. spec @declared_twice. Qed.

#[local] Instance method_spec k is_static decl : Spec floor (fun _ => 1%nat) (parse_method k is_static decl).
Proof. spec @parse_method. Qed.

#[local] Instance add_field_spec k decl field : Spec 0 (fun _ => 0%nat) (add_field k decl field).
Proof. spec @add_field. Qed.

#[local] Instance field_token_spec k is_static : Spec 0 (fun _ => 1%nat) (parse_field_token k is_static).
Proof. spec @parse_field_token. Qed.

#[local] Instance struct_field_spec is_static decl : Spec floor (fun _ => 1%nat) (parse_struct_field is_static decl).
Proof. spec @parse_struct_field. Qed.

(** A function that is called with a token to consume before it. *)
Class Consumes {A} (lo : nat) (c : P A) : Prop :=
  consumes_runs : forall s, inv tol s -> (lo <= m_current s)%nat -> cur s <> EOF_TOKEN ->
    runs tol (m_current s) (fun _ s' => (m_current s + 1 <= m_current s')%nat) (c s).

Lemma runs_consumes {A B} lo n (c : P A) (d : A -> P B) s Q :
  Consumes lo c -> inv tol s -> (lo <= m_current s)%nat -> (n <= m_current s)%nat -> cur s <> EOF_TOKEN ->
  (forall a s', inv tol s' -> (m_current s + 1 <= m_current s')%nat -> runs tol n Q (d a s')) ->
  runs tol n Q (mbind c d s).
Proof.
  intros Hc Hs Hlo Hn Hcur Hd. eapply runs_bind; [|exact Hd].
  eapply runs_weaken; [by apply Hc|done|done].
Qed.

Ltac consumes f := intros s Hs Hlo ?; unfold f; exec.

#[local] Instance const_member_consumes k is_static decl : Consumes floor (parse_const_member k is_static decl).
Proof. consumes @parse_const_member. Qed.

#[local] Instance pass_spec : Spec 0 (fun pass : bool => if pass then 1%nat else 0%nat) parse_pass.
Proof. spec @parse_pass. Qed.

#[local] Ltac exec_hook c ::=
  lazymatch c with
  | at_block_end => unfold at_block_end at 1
  | at_property_accessor => unfold at_property_accessor at 1
  | at_block_comment => unfold at_block_comment at 1
  | declared _ => unfold declared at 1
  | update _ => unfold update at 1
  | parse_const_member _ _ _ => eapply runs_consumes; [apply _|assumption|lia|lia|congruence|intros ? ? ? ?]
  end.

#[local] Instance struct_member_spec decl : Spec floor (fun _ => 1%nat) (parse_struct_member decl).
Proof. spec @parse_struct_member. Qed.

#[local] Instance body_spec {A} lo (member : A -> P A) x :
  (forall x, Spec lo (fun _ => 1%nat) (member x)) -> Spec lo (fun _ => 0%nat) (body_loop member x).
Proof. intros Hm. spec @body_loop. Qed.

#[local] Instance struct_spec : Spec floor (fun _ => 1%nat) parse_struct.
Proof. spec @parse_struct. Qed.

#[local] Instance extends_spec name : Spec 0 (fun _ => 1%nat) (parse_extends name).
Proof. spec @parse_extends. Qed.

#[local] Instance class_field_spec is_static decl : Spec floor (fun _ => 1%nat) (parse_class_field is_static decl).
Proof. spec @parse_class_field. Qed.

#[local] Instance class_member_spec decl : Spec (S floor) (fun _ => 1%nat) (parse_class_member decl).
Proof. spec @parse_class_member. Qed.

#[local] Instance class_heads_spec decl : Spec floor (fun _ => 0%nat) (parse_class_heads decl).
Proof.
  intros s Hs Hlo. unfold parse_class_heads.
  eapply runs_bind; [by apply skip_newlines_spec; [|lia]|intros ? s1 Hs1 H1; cbn in H1]. exec.
Qed.

#[local] Instance class_spec : Spec floor (fun _ => 1%nat) parse_class.
Proof. spec @parse_class. Qed.

(** ** Traits *)

#[local] Instance trait_method_spec owner is_static is_abstract rpc_config :
  Spec floor (fun _ => 1%nat) (parse_trait_method owner is_static is_abstract rpc_config).
Proof. spec @parse_trait_method. Qed.

#[local] Instance trait_head_spec decl :
  Spec 0 (fun head : option TraitDecl => if head is Some _ then 1%nat else 0%nat) (parse_trait_head decl).
Proof. spec @parse_trait_head. Qed.

#[local] Instance trait_var_consumes is_export is_onready is_static hint decl :
  Consumes floor (parse_trait_var is_export is_onready is_static hint decl).
Proof. consumes @parse_trait_var. Qed.

#[local] Ltac exec_hook c ::=
  lazymatch c with
  | at_block_end => unfold at_block_end at 1
  | at_block_comment => unfold at_block_comment at 1
  | declared _ => unfold declared at 1
  | update _ => unfold update at 1
  | parse_trait_var _ _ _ _ _ => eapply runs_consumes; [apply _|assumption|lia|lia|assumption|intros ? ? ? ?]
  end.

#[local] Instance trait_declaration_spec file_level decl :
  Spec floor (fun _ => 1%nat) (parse_trait_declaration file_level decl).
Proof. intros s Hs Hlo. unfold parse_trait_declaration. destruct file_level; exec. Qed.

#[local] Instance trait_member_spec file_level decl : Spec floor (fun _ => 1%nat) (parse_trait_member file_level decl).
Proof. spec @parse_trait_member. Qed.

#[local] Instance trait_spec : Spec floor (fun _ => 1%nat) parse_trait.
Proof. spec @parse_trait. Qed.

#[local] Instance file_trait_spec token name : Spec floor (fun _ => 0%nat) (parse_file_trait token name).
Proof. spec @parse_file_trait. Qed.

(** ** The file *)

#[local] Instance heads_spec keyword token : Spec 0 (fun _ => 0%nat) (heads_the_file keyword token).
Proof. spec @heads_the_file. Qed.

#[local] Ltac exec_hook c ::=
  lazymatch c with
  | at_block_end => unfold at_block_end at 1
  | at_block_comment => unfold at_block_comment at 1
  | declared _ => unfold declared at 1
  | update _ => unfold update at 1
  | missing_declaration _ => unfold missing_declaration at 1
  | mlift (get_string ?t) =>
      eapply runs_get_string; [assumption|lia|eapply typed_tok; eassumption| |intros ?];
        [lazymatch goal with H : cur ?s = _ |- type (tok ?s) ∈ _ => change (type (tok s)) with (cur s); rewrite H; no_eof end|]
  | _ => eapply runs_consumes; [apply _|assumption|lia|lia|congruence|intros ? ? ? ?]
  end.

#[local] Instance file_extends_consumes : Consumes floor parse_file_extends.
Proof. consumes @parse_file_extends. Qed.

#[local] Instance file_uses_consumes : Consumes floor parse_file_uses.
Proof. consumes @parse_file_uses. Qed.

#[local] Instance file_class_name_consumes : Consumes floor parse_file_class_name.
Proof. consumes @parse_file_class_name. Qed.

#[local] Instance file_trait_name_consumes : Consumes floor parse_file_trait_name.
Proof. consumes @parse_file_trait_name. Qed.

#[local] Instance annotated_var_consumes is_export is_static a : Consumes floor (parse_annotated_var is_export is_static a).
Proof. consumes @parse_annotated_var. Qed.

#[local] Instance check_test_spec f : Spec 0 (fun _ => 0%nat) (check_test f).
Proof. spec @check_test. Qed.

#[local] Instance annotated_func_spec is_export is_static a :
  Spec floor (fun _ => 1%nat) (parse_annotated_func is_export is_static a).
Proof. spec @parse_annotated_func. Qed.

(** Annotations begin with a token of their own. *)
Lemma attributes_at a s : inv tol s -> cur s = AT ->
  runs tol (m_current s) (fun _ s' => (m_current s < m_current s')%nat) (parse_attributes a s).
Proof.
  intros Hs Hc. unfold parse_attributes.
  apply runs_loop with (I := fun _ s' => (m_current s <= m_current s')%nat); [done|done|].
  intros st s1 Hs1 Hle. exec.
Qed.

Lemma annotated_runs is_static s : inv tol s -> (floor <= m_current s)%nat -> cur s = AT ->
  runs tol (m_current s) (fun _ s' => (m_current s + 1 <= m_current s')%nat) (parse_annotated is_static s).
Proof.
  intros Hs Hlo Hc. unfold parse_annotated. eapply runs_bind; [by apply attributes_at|]. intros [? ?] s1 Hs1 Hlt. exec.
Qed.

(** A class of the file starts where the declaration does. *)
Context (Hclass_here : Spec floor (fun _ => 1%nat) c_class).
#[local] Existing Instance Hclass_here.

#[local] Instance file_class_spec : Spec floor (fun _ => 1%nat) parse_file_class.
Proof. spec @parse_file_class. Qed.

Lemma by_keyword_runs is_static keyword s :
  inv tol s -> (floor <= m_current s)%nat -> cur s = keyword ->
  runs tol (m_current s) (fun _ s' => (m_current s + 1 <= m_current s')%nat) (parse_by_keyword is_static keyword s).
Proof.
  intros Hs Hlo Hc. pose proof (annotated_runs is_static s Hs Hlo).
  unfold parse_by_keyword. destruct keyword; first [by auto | by exec].
Qed.

#[local] Instance declaration_spec : Spec floor (fun _ => 1%nat) parse_declaration.
Proof.
  intros s Hs Hlo. unfold parse_declaration. exec_step; (exec_step; apply runs_eta;
    eapply runs_bind; [eapply runs_earlier; [by apply by_keyword_runs; [|lia|]|lia]|intros ? ? ? ?; exec]).
Qed.

(** A declaration that failed without a step is left behind. *)
Lemma recover_declaration_runs n s : inv tol s -> (n <= m_current s)%nat -> (m_current s = n -> cur s <> EOF_TOKEN) ->
  runs tol n (fun _ s' => (n < m_current s')%nat) (recover_declaration n s).
Proof.
  intros Hs Hn Hc. unfold recover_declaration. destruct (decide (m_current s = n)) as [E|E].
  - specialize (Hc E). exec.
    match goal with H : _ && _ = false |- _ => rewrite andb_true_r in H; apply bool_decide_eq_false in H end. lia.
  - exec.
Qed.

(** The whole file, from its first token. *)
Lemma parse_runs s : floor = 0%nat -> inv tol s -> runs tol 0 (fun _ s' => cur s' = EOF_TOKEN) (parse s).
Proof.
  intros Hf Hs. unfold parse. exec_step.
  apply runs_bind with (Q1 := fun _ s' => cur s' = EOF_TOKEN).
  - apply runs_loop with (I := fun _ _ => True); [done|done|]. intros x s2 Hs2 _. exec_step; [by exec|].
    exec_step. eapply runs_bind with (Q1 := fun _ s' => (m_current s2 < m_current s')%nat); [|intros ? s3 Hs3 H3; exec].
    eapply runs_earlier; [|apply Nat.le_0_l]. apply runs_try.
    + eapply runs_weaken; [by apply declaration_spec; [|lia]|done|]. cbn. lia.
    + intros s3 Hs3 Hle Ht. eapply runs_earlier; [apply recover_declaration_runs; [done|done|]|done].
      intros E. unfold cur, tok. by rewrite E.
  - intros ? s2 Hs2 Hc. repeat exec_step. unfold cur, tok in *. by repeat match goal with H : m_current _ = m_current _ |- _ => rewrite H end.
Qed.

End Grammar.

(** ** Recursion *)

Definition not_runs (c : Callees) (lo : nat) : Prop :=
  forall s, inv tol s -> (lo <= m_current s)%nat -> cur s = NOT ->
    runs tol (from s) (fun _ s' => (m_current s < m_current s')%nat) (c_not s).

Record expressions_run (c : Callees) (lo : nat) : Prop := {
  run_here : forall s, inv tol s -> (lo <= m_current s)%nat ->
    runs tol (m_current s) (fun _ s' => (from s <= m_current s')%nat) (c_expression s);
  run_impl : Spec lo (fun _ => 1%nat) c_expression_impl;
  run_ternary : Spec lo (fun _ => 1%nat) c_ternary;
  run_coalesce : Spec lo (fun _ => 1%nat) c_coalesce;
  run_not : Spec lo (fun _ => 1%nat) c_not;
  run_unary : Spec lo (fun _ => 1%nat) c_unary;
  run_type : Spec lo (fun _ => 1%nat) c_type_expr
}.

Record statements_run (c : Callees) (lo : nat) : Prop := {
  run_statement : forall s, inv tol s -> (lo <= m_current s)%nat -> cur s <> DEDENT -> cur s <> EOF_TOKEN ->
    runs tol (m_current s) (fun _ s' => (m_current s + 1 <= m_current s')%nat) (c_statement s);
  run_if : Spec lo (fun _ => 0%nat) c_if_stmt;
  run_pattern : Spec lo (fun _ => 0%nat) c_match_pattern;
  run_class : Spec lo (fun _ => 1%nat) c_class
}.

Lemma run_expression (c : Callees) lo : expressions_run c lo -> Spec lo (fun _ => 0%nat) c_expression.
Proof.
  intros H s Hs Hlo. pose proof (from_range s). eapply runs_weaken; [by eapply run_here|done|]. intros a s' _ Hle. cbn in *. lia.
Qed.

(** No token is left: there is no state to run from. *)
Lemma none_left {A} lo k (c : P A) : (length m_tokens <= lo)%nat -> Spec lo k c.
Proof. intros Hl s [_ Hc _] Hlo. lia. Qed.

Ltac known_callee :=
  cbn [callees c_expression c_expression_impl c_ternary c_coalesce c_not c_unary c_statement c_if_stmt c_match_pattern
       c_type_expr c_class].

Lemma not_step n lo : expressions_run (callees n) (S lo) -> not_runs (callees (S n)) lo.
Proof. intros HE. unfold not_runs. known_callee. apply (not_here (callees := callees n) lo), run_not, HE. Qed.

Lemma expressions_step n lo :
  not_runs (callees n) lo -> expressions_run (callees n) (S lo) -> statements_run (callees n) (S lo) ->
  expressions_run (callees (S n)) lo.
Proof.
  intros HN HE HS. pose proof (run_expression _ _ HE). destruct HE, HS.
  split; known_callee.
  - by apply (expression_runs (callees := callees n) lo).
  - apply operand_spec. by apply (expression_impl_operand (callees := callees n) lo).
  - apply operand_spec. by apply (ternary_operand (callees := callees n) lo).
  - apply operand_spec. by apply (coalesce_operand (callees := callees n) lo).
  - apply operand_spec. by apply (not_operand (callees := callees n) lo).
  - apply operand_spec. by apply (unary_operand (callees := callees n) lo).
  - by apply (type_expr_spec (callees := callees n) lo).
Qed.

Lemma statements_step n lo :
  expressions_run (callees n) lo -> expressions_run (callees n) (S lo) -> statements_run (callees n) (S lo) ->
  statements_run (callees (S n)) lo.
Proof.
  intros HH HE HS. pose proof (run_expression _ _ HE). pose proof (run_here _ _ HH). destruct HE, HS.
  split; known_callee.
  - intros s Hs Hlo H1 H2. eapply runs_weaken; [by apply (statement_runs (callees := callees n) lo)|done|]. cbn. lia.
  - by apply (if_spec (callees := callees n) lo).
  - by apply (pattern_spec (callees := callees n) lo).
  - by apply (class_spec (callees := callees n) lo).
Qed.

End Safe.

End ParserSafe.
