(* ===== verification/ParserTotal.v ===== *)
(** * Parsing ends, and fails in the ways it says

    Ties the recursion of [ParserProgram] and states what [ParserSafe] proves of
    one function at a time about [Parser::parse]. *)

From S2P Require Import Prelude.
From S2P Require Import Double.
From S2P Require Import Token.
From S2P Require Import Lexer.
From S2P Require Import Ast.
From S2P Require Import Parser.
From S2P Require Import ParserExpr.
From S2P Require Import ParserStmt.
From S2P Require Import ParserDecl.
From S2P Require Import ParserProgram.
From S2P Require Import ParserFacts.
From S2P Require Import ParserSafe.

Module ParserTotal.
Import Token.
Import Ast.
Import Parser.
Import ParserProgram.
Import ParserFacts.
Import ParserSafe.

Section Total.
Context {input : Input}.

(** ** Computations that let no [Recovery] escape *)

Class Contained {A} (c : P A) : Prop := contained : forall s, (c s).2 <> Throw Recovery.

#[local] Instance contained_bind {A B} (c : P A) (d : A -> P B) :
  Contained c -> (forall a, Contained (d a)) -> Contained (mbind c d).
Proof.
  intros Hc Hd s. unfold mbind. specialize (Hc s). destruct (c s) as [s' [a|e]]; cbn in *; [apply Hd|].
  intros [= ->]. by apply Hc.
Qed.

#[local] Instance contained_ret {A} (a : A) : Contained (mret a).
Proof. done. Qed.

#[local] Instance contained_gets {A} (f : Parser -> A) : Contained (gets f).
Proof. done. Qed.

#[local] Instance contained_modify f : Contained (modify f).
Proof. done. Qed.

#[local] Instance contained_if {A} (b : bool) (c d : P A) : Contained c -> Contained d -> Contained (if b then c else d).
Proof. by destruct b. Qed.

#[local] Instance contained_when b (c : P unit) : Contained c -> Contained (when b c).
Proof. by destruct b. Qed.

#[local] Instance contained_peek : Contained peek.
Proof. intros s. unfold peek, token_at. cbn. by destruct (m_tokens !! _). Qed.

#[local] Instance contained_previous : Contained previous.
Proof. intros s. unfold previous, token_at. cbn. by destruct (m_current s) as [|i]; [|destruct (m_tokens !! i)]. Qed.

Ltac contained f := intros; unfold f; exact _.

#[local] Instance contained_at_end : Contained is_at_end.
Proof. contained @is_at_end. Qed.

#[local] Instance contained_check t : Contained (check t).
Proof. contained @check. Qed.

#[local] Instance contained_or_else c d : Contained c -> Contained d -> Contained (or_else c d).
Proof. contained @or_else. Qed.

#[local] Instance contained_check_any ts : Contained (check_any ts).
Proof. induction ts as [|t ts IH]; cbn [check_any]; exact _. Qed.

#[local] Instance contained_advance : Contained advance.
Proof. contained @advance. Qed.

#[local] Instance contained_match t : Contained (match_ t).
Proof. contained @match_. Qed.

#[local] Instance contained_loop {X Y} (step : X -> P (X + Y)) x : (forall x, Contained (step x)) -> Contained (loop step x).
Proof.
  intros Hstep s. unfold loop. generalize (Datatypes.S (length m_tokens - m_current s)) as n.
  intros n. revert x s. induction n as [|n IH]; intros x; [done|]. cbn [iterate].
  apply contained_bind; [apply Hstep|]. intros [x'|y]; [exact (IH x')|done].
Qed.

#[local] Instance contained_skip_newlines : Contained skip_newlines.
Proof. contained @skip_newlines. Qed.

#[local] Instance contained_recover : Contained recover_to_statement_end.
Proof. contained @recover_to_statement_end. Qed.

#[local] Instance contained_recover_declaration n : Contained (recover_declaration n).
Proof. contained @recover_declaration. Qed.

(** The one handler around all declarations. *)
#[local] Instance contained_try {A} (c h : P A) : Contained h -> Contained (try_recovery c h).
Proof.
  intros Hh s. unfold try_recovery. destruct (c s) as [s' [a|e]]; [done|]. by destruct e; try done; apply Hh.
Qed.

Context {libm : Libm}.

#[local] Instance contained_parse (c : Callees) : Contained parse.
Proof. unfold parse, update. exact _. Qed.

(** ** The recursion *)

Context (Hwf : well_formed m_tokens).

(** Three calls for every token behind [lo] are enough: two of them are spent on
    a token that a statement or an operand hands on. *)
Lemma callees_run tol n lo :
  (3 * (length m_tokens - lo) <= n + 2 -> not_runs tol (callees n) lo)%nat /\
  (3 * (length m_tokens - lo) <= n + 1 -> expressions_run tol (callees n) lo)%nat /\
  (3 * (length m_tokens - lo) <= n -> statements_run tol (callees n) lo)%nat.
Proof.
  revert lo. induction n as [|n IH]; intros lo.
  - split_and!; intros Hn; assert (Hl : (length m_tokens <= lo)%nat) by lia.
    + intros s [_ Hc _] Hlo. lia.
    + split; try by apply none_left. intros s [_ Hc _] Hlo. lia.
    + split; try by apply none_left. intros s [_ Hc _] Hlo. lia.
  - pose proof (IH lo) as (HN & HE & _). pose proof (IH (S lo)) as (_ & HE' & HS'). split_and!; intros Hn.
    + apply not_step; [done|]. apply HE'. lia.
    + apply expressions_step; [done|apply HN|apply HE'|apply HS']; lia.
    + apply statements_step; [done|apply HE|apply HE'|apply HS']; lia.
Qed.

(** What [parse] is able to raise. *)
Definition reported (e : exn) : Prop := raises false e.

Lemma raises_reported tol e : raises tol e -> e <> Recovery -> reported e.
Proof. by destruct e. Qed.

Lemma construct_inv sink : inv (tolerant (construct sink)) (construct sink).
Proof.
  destruct (wf_end _ Hwf) as [t [Hl _]]. split; [done| |done]. cbn.
  destruct m_tokens; [done|]. cbn. lia.
Qed.

Lemma parse_outcome sink :
  match run sink with
  | (s, Ok _) => cur s = EOF_TOKEN
  | (_, Throw e) => reported e
  end.
Proof.
  pose proof (contained_parse (callees depth) (construct sink)) as Hc.
  assert (Hr : runs (tolerant (construct sink)) 0 (fun _ s' => cur s' = EOF_TOKEN) (run sink)).
  { pose proof (callees_run (tolerant (construct sink)) depth) as Hn. unfold depth in Hn.
    destruct (Hn 0%nat) as (HN & HE & HS), (Hn 1%nat) as (_ & HE' & HS').
    specialize (HN ltac:(lia)). specialize (HE ltac:(lia)). specialize (HS ltac:(lia)).
    specialize (HE' ltac:(lia)). specialize (HS' ltac:(lia)). fold depth in *.
    pose proof (run_expression _ _ _ HE'). pose proof (run_here _ _ _ HE). destruct HE', HS', HS.
    by apply (parse_runs (callees := callees depth) _ Hwf 0); [..|apply construct_inv]. }
  unfold run in *. destruct (parse _) as [s [p|e]]; [apply Hr|]. eapply raises_reported; [apply Hr|].
  intros ->. by apply Hc.
Qed.

Lemma reported_cases e :
  reported e ->
  (exists message line column, e = LocatedException PARSER_ERROR message line column) \/
  (exists what, e = UB what /\ what ∈ unchecked).
Proof.
  destruct e as [|[] message l c| | | | | | |what|]; try done; intros H; [left; by eexists _, _, _|right; by exists what].
Qed.

End Total.

End ParserTotal.
