(* ===== verification/LexerTyped.v ===== *)
(** * The tokens the lexer hands to the parser

    Every literal token carries a value of its own kind ([lexer_typed]), so the
    parser's [std::get] never meets another; with [ParserTotal] this gives the
    outcome of lexing and parsing a source ([source_outcome]). *)

From S2P Require Import Prelude.
From S2P Require Import Double.
From S2P Require Import Token.
From S2P Require Import Lexer.
From S2P Require Import LexerFacts.
From S2P Require Import LexerSafe.
From S2P Require Import Ast.
From S2P Require Import Parser.
From S2P Require Import ParserProgram.
From S2P Require Import ParserFacts.
From S2P Require Import ParserTotal.

Module LexerTyped.
Import Token.
Import Lexer.
Import LexerFacts.
Import LexerSafe.
Import ParserFacts.

Definition all_typed (s : Lexer) : Prop := Forall typed (m_tokens s).

(** A computation that appends typed tokens only. *)
Class Typed {A} (c : L A) : Prop := tokens_typed : forall s, all_typed s -> all_typed (c s).1.

Definition is_literal (t : TokenType) : bool :=
  match t with INTEGER | FLOAT | STRING | STRING_NAME | NODE_PATH => true | _ => false end.

#[local] Instance typed_mret {A} (a : A) : Typed (mret a).
Proof. by intros s Hs. Qed.

#[local] Instance typed_done : Typed done_.
Proof. by intros s Hs. Qed.

#[local] Instance typed_gets {A} (f : Lexer -> A) : Typed (gets f).
Proof. by intros s Hs. Qed.

#[local] Instance typed_lift {A} (o : outcome A) : Typed (mlift o).
Proof. by intros s Hs. Qed.

#[local] Instance typed_throw {A} e : Typed (mthrow e : L A).
Proof. by intros s Hs. Qed.

#[local] Instance typed_bind {A B} (c : L A) (k : A -> L B) : Typed c -> (forall a, Typed (k a)) -> Typed (mbind c k).
Proof.
  intros Hc Hk s Hs. unfold mbind. specialize (Hc s Hs). destruct (c s) as [s' [a|e]]; [|done]. by apply Hk.
Qed.

#[local] Instance typed_if {A} (b : bool) (c d : L A) : Typed c -> Typed d -> Typed (if b then c else d).
Proof. by destruct b. Qed.

#[local] Instance typed_when b c : Typed c -> Typed (when b c).
Proof. unfold when. apply _. Qed.

#[local] Instance typed_while {A} (more : A -> L bool) (body : A -> L A) a :
  (forall a, Typed (more a)) -> (forall a, Typed (body a)) -> Typed (while more body a).
Proof.
  intros Hm Hb. unfold while. apply typed_bind; [apply _|]. intros fuel. revert a.
  induction fuel as [|fuel IH]; intros a; cbn [while_]; apply _.
Qed.

(** Changes of anything but the tokens. *)
Lemma typed_modify f : (forall s, m_tokens (f s) = m_tokens s) -> Typed (modify f).
Proof. intros Hf s Hs. unfold all_typed. cbn. by rewrite Hf. Qed.

#[local] Hint Extern 2 (Typed (modify _)) =>
  (apply typed_modify; intros ?; repeat match goal with |- context [match ?b with _ => _ end] => destruct b end; reflexivity)
  : typeclass_instances.

Lemma typed_append s t : all_typed s -> typed t -> all_typed (set_tokens (m_tokens s ++ [t]) s).
Proof. intros Hs Ht. apply Forall_app. split; [done|]. by repeat constructor. Qed.

Lemma typed_add_token t : is_literal t = false -> Typed (add_token t).
Proof.
  intros Ht. unfold add_token. apply typed_bind; [unfold lexeme_text; apply _|]. intros lex. apply typed_bind.
  - intros s Hs. apply typed_append; [done|]. by destruct t.
  - intros _. destruct t; apply _.
Qed.

Lemma typed_add_value t v : (forall lex l c, typed (mkToken t lex v l c)) -> Typed (add_value t v).
Proof.
  intros Ht. unfold add_value. apply typed_bind; [unfold lexeme_text; apply _|]. intros lex s Hs. by apply typed_append.
Qed.

#[local] Hint Extern 1 (Typed (add_token _)) => (apply typed_add_token; reflexivity) : typeclass_instances.
#[local] Hint Extern 1 (Typed (add_value _ _)) =>
  (apply typed_add_value; intros; cbn; eexists; reflexivity) : typeclass_instances.

(** What only reads the source or reports. *)
#[local] Instance typed_advance : Typed advance.
Proof. intros s Hs. unfold advance. by destruct (decide _). Qed.

#[local] Instance typed_match c : Typed (match_ c).
Proof. intros s Hs. unfold match_. destruct (is_at_end s); [done|]. by destruct (negb _). Qed.

#[local] Instance typed_error_at message line column code width : Typed (error_at message line column code width).
Proof. intros s Hs. unfold error_at. by destruct (m_diagnostics s). Qed.


(** ** The scanner *)

Ltac typed_ f := intros; unfold f; apply _.

#[local] Instance typed_peek_at i : Typed (peek_at i).
Proof. typed_ peek_at. Qed.
#[local] Instance typed_peek : Typed peek.
Proof. typed_ peek. Qed.
#[local] Instance typed_peek_next : Typed peek_next.
Proof. typed_ peek_next. Qed.
#[local] Instance typed_error_code message code : Typed (error_code message code).
Proof. typed_ error_code. Qed.
#[local] Instance typed_error message : Typed (error message).
Proof. typed_ error. Qed.
#[local] Instance typed_push_bracket c : Typed (push_bracket c).
Proof. typed_ push_bracket. Qed.
#[local] Instance typed_pop_bracket c : Typed (pop_bracket c).
Proof. typed_ pop_bracket. Qed.
#[local] Instance typed_next_line : Typed next_line.
Proof. typed_ next_line. Qed.
#[local] Instance typed_skip n : Typed (skip n).
Proof. induction n as [|n IH]; [by intros s Hs|]. apply typed_bind; [apply _|]. intros _. exact IH. Qed.
#[local] Instance typed_skip_char u : Typed (skip_char u).
Proof. typed_ skip_char. Qed.

#[local] Instance typed_dedent_to level : Typed (dedent_to level).
Proof.
  unfold dedent_to. apply typed_bind; [apply _|]. intros stack.
  induction stack as [|top [|next rest] IH]; [apply _|apply _|]. rewrite dedent_while_cons. apply _.
Qed.

#[local] Instance typed_close_lambda_layout : Typed close_lambda_layout.
Proof.
  unfold close_lambda_layout. apply typed_bind; [apply _|]. intros ls. induction ls as [|l ls IH]; cbn [close_layouts]; apply _.
Qed.

#[local] Instance typed_hex_digits n v : Typed (hex_digits n v).
Proof. revert v. induction n as [|n IH]; intros v; cbn [hex_digits]; apply _. Qed.

#[local] Instance typed_append_unicode_escape v n : Typed (append_unicode_escape v n).
Proof. unfold append_unicode_escape, scan_hex_escape. apply _. Qed.
#[local] Instance typed_newline_in_string : Typed newline_in_string.
Proof. typed_ newline_in_string. Qed.

#[local] Instance typed_scan_escape c v : Typed (scan_escape c v).
Proof. unfold scan_escape. destruct (simple_escape c); apply _. Qed.

#[local] Instance typed_append_char v : Typed (append_char v).
Proof. typed_ append_char. Qed.
#[local] Instance typed_string_step quote triple raw st : Typed (string_step quote triple raw st).
Proof. typed_ string_step. Qed.
#[local] Instance typed_string_going st : Typed (string_going st).
Proof. typed_ string_going. Qed.

(** The tokens that carry a string. *)
Class Textual (t : TokenType) : Prop := textual : forall v lex l c, typed (mkToken t lex (TString v) l c).

#[local] Hint Extern 1 (Textual _) => (intros ? ? ? ?; cbn; eexists; reflexivity) : typeclass_instances.

#[local] Instance typed_scan_string t raw : Textual t -> Typed (scan_string t raw).
Proof.
  intros Ht. unfold scan_string. pose proof (fun v => typed_add_value t (TString v) (Ht v)).
  do 4 (apply typed_bind; [apply _|intros ?]). apply typed_bind; [apply _|]. intros _. apply typed_bind; [apply _|].
  intros [v []]; apply _.
Qed.

#[local] Instance typed_scan_prefixed t raw : Textual t -> Typed (scan_prefixed t raw).
Proof. intros Ht. unfold scan_prefixed. apply _. Qed.

#[local] Instance typed_radix_going hex d : Typed (radix_going hex d).
Proof. typed_ radix_going. Qed.
#[local] Instance typed_digit_step d : Typed (digit_step d).
Proof. typed_ digit_step. Qed.
#[local] Instance typed_digits_going d : Typed (digits_going d).
Proof. typed_ digits_going. Qed.
#[local] Instance typed_consume_digits d : Typed (consume_digits d).
Proof. typed_ consume_digits. Qed.

#[local] Instance typed_scan_radix : Typed scan_radix.
Proof.
  unfold scan_radix. do 2 (apply typed_bind; [apply _|intros ?]). apply typed_bind; [apply _|]. intros d. destruct d; [apply _|]. destruct (stoull _ _); apply _.
Qed.

#[local] Instance typed_push_and_digits num : Typed (push_and_digits num).
Proof. typed_ push_and_digits. Qed.
#[local] Instance typed_scan_exponent num : Typed (scan_exponent num).
Proof. typed_ scan_exponent. Qed.

#[local] Instance typed_scan_decimal first : Typed (scan_decimal first).
Proof.
  unfold scan_decimal. repeat (apply typed_bind; [apply _|intros ?]). destruct (_ || _); [destruct (stod _)|destruct (stoull _ _)]; apply _.
Qed.

#[local] Instance typed_scan_number : Typed scan_number.
Proof. typed_ scan_number. Qed.

(** No keyword is a literal. *)
Lemma identifier_type_plain s word : is_literal (identifier_type s word) = false.
Proof.
  assert (Hk : is_literal (default IDENTIFIER (find_keyword word)) = false).
  { unfold find_keyword. destruct (List.find _ _) as [[k t]|] eqn:E; [|done]. cbn.
    apply List.find_some in E as [Hin _].
    assert (Hall : Forall (fun k => is_literal k.2 = false) keywords) by (repeat constructor).
    rewrite List.Forall_forall in Hall. exact (Hall _ Hin). }
  unfold identifier_type. destruct (_ && _ && _); [done|]. destruct (negb _); [|done].
  by destruct (default IDENTIFIER (find_keyword word)).
Qed.

#[local] Instance typed_scan_identifier : Typed scan_identifier.
Proof.
  unfold scan_identifier, start_lambda, identifier_going. apply typed_bind; [apply _|intros _].
  apply typed_bind; [apply _|intros s]. apply typed_bind; [apply _|intros word].
  pose proof (typed_add_token _ (identifier_type_plain s word)). apply _.
Qed.

(** ** Layout and the other tokens *)

#[local] Instance typed_handle_indent : Typed handle_indent.
Proof. unfold handle_indent, change_indent, blank_going, blank_step. apply _. Qed.
#[local] Instance typed_recover_unclosed : Typed recover_unclosed.
Proof. unfold recover_unclosed. apply typed_bind; [apply _|]. intros s. destruct (last _); apply _. Qed.
#[local] Instance typed_scan_newline : Typed scan_newline.
Proof. unfold scan_newline, open_suite. apply _. Qed.
#[local] Instance typed_scan_continuation : Typed scan_continuation.
Proof. unfold scan_continuation, continuation_going. apply _. Qed.
#[local] Instance typed_scan_comment : Typed scan_comment.
Proof. unfold scan_comment, comment_going. apply _. Qed.
#[local] Instance typed_scan_lparen : Typed scan_lparen.
Proof. typed_ scan_lparen. Qed.
#[local] Instance typed_scan_rparen : Typed scan_rparen.
Proof. typed_ scan_rparen. Qed.
#[local] Instance typed_scan_colon : Typed scan_colon.
Proof. typed_ scan_colon. Qed.

Lemma typed_scan_closer c t : is_literal t = false -> Typed (scan_closer c t).
Proof. intros Ht. pose proof (typed_add_token t Ht). unfold scan_closer. apply _. Qed.

Lemma typed_either c yes no : is_literal yes = false -> is_literal no = false -> Typed (either c yes no).
Proof.
  intros Hy Hn. unfold either. apply typed_bind; [apply _|]. intros m. apply typed_add_token. by destruct m.
Qed.

#[local] Hint Extern 1 (Typed (scan_closer _ _)) => (apply typed_scan_closer; reflexivity) : typeclass_instances.
#[local] Hint Extern 1 (Typed (either _ _ _)) => (apply typed_either; reflexivity) : typeclass_instances.

#[local] Instance typed_scan_question : Typed scan_question.
Proof. typed_ scan_question. Qed.
#[local] Instance typed_scan_ampersand : Typed scan_ampersand.
Proof. typed_ scan_ampersand. Qed.
#[local] Instance typed_scan_bar : Typed scan_bar.
Proof. typed_ scan_bar. Qed.
#[local] Instance typed_scan_caret : Typed scan_caret.
Proof. typed_ scan_caret. Qed.
#[local] Instance typed_scan_dot : Typed scan_dot.
Proof. typed_ scan_dot. Qed.
#[local] Instance typed_scan_default c : Typed (scan_default c).
Proof. typed_ scan_default. Qed.

Lemma cases_typed : Forall (fun k => Typed k.2) cases.
Proof. unfold cases, scan_double. repeat (apply Forall_cons; split; [cbn [snd]; apply _|]). apply Forall_nil_2. Qed.

#[local] Instance typed_scan_char c : Typed (scan_char c).
Proof.
  unfold scan_char. destruct (List.find _ cases) as [k|] eqn:E; [|apply _].
  apply List.find_some in E as [Hin _]. apply list_elem_of_In in Hin. exact (proj1 (Forall_forall _ _) cases_typed k Hin).
Qed.

#[local] Instance typed_scan_token : Typed scan_token.
Proof. typed_ scan_token. Qed.

#[local] Instance typed_close_blocks stack : Typed (close_blocks stack).
Proof. induction stack as [|top [|next rest] IH]; [apply _|apply _|]. rewrite close_blocks_cons. apply _. Qed.

#[local] Instance typed_report_unclosed : Typed report_unclosed.
Proof.
  unfold report_unclosed. apply typed_bind; [apply _|]. intros s. destruct (if tolerant s then _ else _); apply _.
Qed.

#[local] Instance typed_token_loop fuel u : Typed (while_ fuel token_going token_step u).
Proof. revert u. induction fuel as [|fuel IH]; intros u; cbn [while_]; unfold token_going, token_step; apply _. Qed.

Lemma tokenize_state_typed s : all_typed s -> all_typed (tokenize_ s).1.
Proof. apply (_ : Typed tokenize_). Qed.

(** ** From the source to the program *)

Lemma tokens_well_formed source sink extensions s tokens :
  tokenize_ (construct source sink extensions) = (s, Ok tokens) -> well_formed tokens.
Proof.
  intros E. pose proof (tokenize_spec _ (construct_Inv source sink extensions)) as H. rewrite E in H. split; [apply H|].
  pose proof (tokenize_state_typed (construct source sink extensions) ltac:(apply Forall_nil_2)) as Ht. rewrite E in Ht.
  enough (tokens = m_tokens s) as ->; [done|]. clear H Ht. revert E. unfold tokenize_, mbind, gets.
  repeat (lazymatch goal with |- context [match ?x with (_, _) => _ end] => destruct x as [? [?|?]] end; [|done]).
  by intros [= <- <-].
Qed.

(** C13: whatever token stream the lexer answers, in either mode, the last token is
    the end of the file and every literal token holds a value of its own kind:
    an integer an integer, a float a double, the three kinds of string a
    string. *)
Theorem lexer_typed source sink extensions s tokens :
  tokenize_ (construct source sink extensions) = (s, Ok tokens) ->
  (exists t, last tokens = Some t /\ type t = EOF_TOKEN) /\ Forall typed tokens.
Proof. intros E. destruct (tokens_well_formed _ _ _ _ _ E). by split. Qed.

Definition literals_source : text := str "x = [0x1F, 2.5e3, &'s', ^'a/b']".

Lemma lexer_typed_witness :
  exists s tokens, tokenize_ (construct literals_source None true) = (s, Ok tokens) /\
    (exists t, last tokens = Some t /\ type t = EOF_TOKEN) /\ Forall typed tokens.
Proof.
  destruct (tokenize_ (construct literals_source None true)) as [s [tokens|e]] eqn:E; [|by vm_compute in E].
  exists s, tokens. split; [done|]. exact (lexer_typed literals_source None true s tokens E).
Defined.

(** C2: lexing a source strictly and parsing its tokens, in either mode of the
    parser, ends: with a program and the cursor on the end of the file, or with
    a located error of the lexer or of the parser, or, in two conversions and the
    counter of an enum that the source leaves unchecked, undefined.  No index leaves the tokens, no literal
    is read as another kind, no recursion or loop runs out of its budget, and no
    recovery escapes from [parse]. *)
Theorem source_outcome {libm : Libm} source extensions comments sink :
  match tokenize source extensions with
  | Throw e => exists message line column, e = LocatedException LEXER_ERROR message line column
  | Ok tokens =>
      let input := {| Parser.m_tokens := tokens; Parser.m_extensions := extensions; Parser.m_doc_comments := comments |} in
      match ParserProgram.run (input := input) sink with
      | (s, Ok _) => cur (input := input) s = EOF_TOKEN
      | (_, Throw e) =>
          (exists message line column, e = LocatedException PARSER_ERROR message line column) \/
          (exists what, e = UB what /\ what ∈ unchecked)
      end
  end.
Proof.
  destruct (tokenize source extensions) as [tokens|e] eqn:E; [|by apply (strict_throws _ _ _ E)].
  intros input. unfold tokenize in E. destruct (tokenize_ _) as [s r] eqn:Et. cbn in E. subst r.
  pose proof (ParserTotal.parse_outcome (input := input) (tokens_well_formed _ _ _ _ _ Et) sink) as H.
  destruct (ParserProgram.run sink) as [s' [p|e]]; [done|]. by apply ParserTotal.reported_cases.
Qed.

End LexerTyped.
