(* ===== verification/ParserSamples.v ===== *)
(** * Sources the parser reads

    Closed runs of the lexer and the parser: the precedence of a mixed expression,
    and the places where the parser does what its comments or its neighbours do
    not say. *)

From S2P Require Import Prelude.
From S2P Require Import Double.
From S2P Require Import Token.
From S2P Require Import Lexer.
From S2P Require Import Ast.
From S2P Require Import Parser.
From S2P Require Import ParserProgram.

Module ParserSamples.
Import Token.
Import Lexer.
Import Ast.
Import Parser.
Import ParserProgram.
#[local] Existing Instance identity_libm.

(** The program of a source, or the exception; [tolerant] collects diagnostics. *)
Definition compile (source : text) (tolerant : bool) : Parser * outcome Program :=
  let input tokens := {| m_tokens := tokens; m_extensions := true; m_doc_comments := ∅ |} in
  let sink := if tolerant then Some (mkSink [] 100) else None in
  match tokenize source true with
  | Ok tokens => run (input := input tokens) sink
  | Throw e => (construct sink, Throw e)
  end.

Definition lines (l : list string) : text := concat (map (fun s => str s ++ [NL]) l).

Definition throws (r : Parser * outcome Program) (message : string) : bool :=
  match r.2 with Throw (LocatedException PARSER_ERROR m _ _) => String.eqb m message | _ => false end.

(** The statements of the first function. *)
Definition body_of (r : Parser * outcome Program) : list Stmt :=
  match r.2 with
  | Ok p => match program_functions p with mkFunction _ _ body :: _ => body | [] => [] end
  | Throw _ => []
  end.

(** An expression without its places. *)
Fixpoint shape (e : Expr) : string :=
  match e with
  | mkExpr _ _ node =>
      match node with
      | LiteralExpr (Literal.INTEGER v) => pretty.pretty v
      | VariableExpr name => name
      | BinaryExpr l op r =>
          let sign := match op with
            | BinaryOp.ADD => "+" | BinaryOp.MUL => "*" | BinaryOp.POW => "**" | BinaryOp.EQ => "=="
            | BinaryOp.AND => "and" | BinaryOp.COALESCE => "??" | BinaryOp.IN => "in" | _ => "?" end in
          "(" +:+ shape l +:+ " " +:+ sign +:+ " " +:+ shape r +:+ ")"
      | UnaryExpr op e =>
          (match op with UnaryOp.NEG => "-" | UnaryOp.NOT => "!" | UnaryOp.BIT_NOT => "~" end) +:+ shape e
      | TernaryExpr c t f => "(" +:+ shape t +:+ " if " +:+ shape c +:+ " else " +:+ shape f +:+ ")"
      | _ => "_"
      end
  end%string.

Definition returned (r : Parser * outcome Program) : string :=
  match body_of r with [mkStmt _ _ (ReturnStmt (Some e))] => shape e | _ => "" end.

Definition return_of (e : string) : text := lines ["func f():"; ("  return " +:+ e)%string].

(** The sign binds tighter than the power, which groups to the left. *)
Example precedence :
  returned (compile (return_of "not a in b and -x ** 2 ** y == 1 + 2 * 3 if c else d ?? e") false)
  = "((!(a in b) and (((-x ** 2) ** y) == (1 + (2 * 3)))) if c else (d ?? e))".
Proof. by vm_compute. Qed.

(** Assignment through [?.] is refused where the link is the last one or an index
    follows, and accepted where a plain member follows. *)
Example safe_chain_assignment :
  throws (compile (lines ["func f():"; "  a?.b = 1"]) false) "Cannot assign through '?.'; write the null check out" = true /\
  throws (compile (lines ["func f():"; "  a?.b[0] = 1"]) false) "Cannot assign through '?.'; write the null check out" = true /\
  length (body_of (compile (lines ["func f():"; "  a?.b.c = 1"]) false)) = 1%nat.
Proof. by vm_compute. Qed.

(** An expression is read again as a whole statement only if it starts with an
    operand: a sign in front of it is refused. *)
Example signed_statement :
  length (body_of (compile (lines ["func f():"; "  a + b"]) false)) = 1%nat /\
  throws (compile (lines ["func f():"; "  -a + b"]) false) "Expected expression" = true.
Proof. by vm_compute. Qed.

(** The member after the largest value is counted before it is read. *)
Example enum_counts_past_the_end :
  (compile (lines ["enum E { A = 9223372036854775807 }"]) false).2 = Throw (UB "signed integer overflow").
Proof. by vm_compute. Qed.

(** An enum's member declared twice is thrown past the diagnostics: a tolerant
    parser stops there, and has diagnostics nothing. *)
Example thrown_past_the_diagnostics :
  let r := compile (lines ["enum E { A, A }"; "func f():"; "  return 1"]) true in
  throws r "Enum member 'A' is declared more than once" = true /\
  option_map diagnostics (m_diagnostics r.1) = Some [].
Proof. by vm_compute. Qed.

End ParserSamples.
