(* ===== verification/AstClone.v ===== *)
(** * Copies of syntax

    Models ast_clone.cpp, which copies the members of a trait into its users.  A
    copy is the original ([clone_function_same]) except where the source leaves
    something out: the placeholder of a failed expression is refused, and the
    [:=] of a variable is forgotten ([clone_forgets_inference]). *)

From S2P Require Import Prelude.
From S2P Require Import Double.
From S2P Require Import Ast.

Module AstClone.
Import Ast.

(** A null pointer is copied as one, hence the [optM]. *)
Fixpoint clone_expr (e : Expr) : outcome Expr :=
  match e with
  | mkExpr l c node =>
      let? node :=
        match node with
        | LiteralExpr lit => Ok (LiteralExpr lit)
        | VariableExpr name => Ok (VariableExpr name)
        | BinaryExpr left_ op right_ =>
            let? left_ := clone_expr left_ in let? right_ := clone_expr right_ in Ok (BinaryExpr left_ op right_)
        | AwaitExpr operand => let? operand := clone_expr operand in Ok (AwaitExpr operand)
        | LambdaExpr decl lifted_name => let? decl := clone_function decl in Ok (LambdaExpr decl lifted_name)
        | UnaryExpr op operand => let? operand := clone_expr operand in Ok (UnaryExpr op operand)
        | TypeTestExpr value type => let? value := clone_expr value in Ok (TypeTestExpr value type)
        | CastExpr value type_name type_arguments =>
            let? value := clone_expr value in Ok (CastExpr value type_name type_arguments)
        | TernaryExpr condition true_value false_value =>
            let? condition := clone_expr condition in
            let? true_value := clone_expr true_value in
            let? false_value := clone_expr false_value in
            Ok (TernaryExpr condition true_value false_value)
        | CallExpr function_name arguments argument_names sugar =>
            let? arguments := omapM clone_expr arguments in Ok (CallExpr function_name arguments argument_names sugar)
        | MemberCallExpr object member_name arguments argument_names is_method_call safe safe_chain_root =>
            let? object := clone_expr object in
            let? arguments := omapM clone_expr arguments in
            Ok (MemberCallExpr object member_name arguments argument_names is_method_call safe safe_chain_root)
        | IndexExpr object index safe_chain_root =>
            let? object := clone_expr object in let? index := clone_expr index in
            Ok (IndexExpr object index safe_chain_root)
        | ArrayLiteralExpr elements => let? elements := omapM clone_expr elements in Ok (ArrayLiteralExpr elements)
        | DictionaryLiteralExpr elements =>
            let? entries := omapM (fun entry : Expr * Expr =>
              let '(key, value) := entry in
              let? key := clone_expr key in let? value := clone_expr value in Ok (key, value)) elements in
            Ok (DictionaryLiteralExpr entries)
        | ErrorExpr => Throw logic_error
        end in
      Ok (mkExpr l c node)
  end
with clone_pattern (p : MatchPattern) : outcome MatchPattern :=
  match p with
  | mkPattern kind value name elements entries struct_name struct_entries open l c =>
      let? value := optM clone_expr value in
      let? elements := omapM clone_pattern elements in
      let? entries := omapM (fun entry : Expr * option MatchPattern =>
        let '(key, value) := entry in
        let? key := clone_expr key in let? value := optM clone_pattern value in Ok (key, value)) entries in
      let? struct_entries := omapM (fun entry : string * MatchPattern =>
        let '(name, value) := entry in let? value := clone_pattern value in Ok (name, value)) struct_entries in
      Ok (mkPattern kind value name elements entries struct_name struct_entries open l c)
  end
with clone_stmt (s : Stmt) : outcome Stmt :=
  match s with
  | DeclStmt decl => let? decl := clone_var decl in Ok (DeclStmt decl)
  | mkStmt l c node =>
      let? node :=
        match node with
        | ExprStmt expression => let? expression := clone_expr expression in Ok (ExprStmt expression)
        | BreakpointStmt => Ok BreakpointStmt
        | AssignStmt name target value =>
            match target with
            | Some target =>
                let? target := clone_expr target in let? value := clone_expr value in
                Ok (AssignStmt EmptyString (Some target) value)
            | None => let? value := clone_expr value in Ok (AssignStmt name None value)
            end
        | ReturnStmt value => let? value := optM clone_expr value in Ok (ReturnStmt value)
        | IfStmt condition binding then_branch else_branch =>
            match binding with
            | Some binding =>
                let? binding := clone_var binding in
                let? then_branch := omapM clone_stmt then_branch in
                let? else_branch := omapM clone_stmt else_branch in
                Ok (IfStmt None (Some binding) then_branch else_branch)
            | None =>
                let? condition := optM clone_expr condition in
                let? then_branch := omapM clone_stmt then_branch in
                let? else_branch := omapM clone_stmt else_branch in
                Ok (IfStmt condition None then_branch else_branch)
            end
        | WhileStmt condition body =>
            let? condition := clone_expr condition in let? body := omapM clone_stmt body in Ok (WhileStmt condition body)
        | ForStmt variable iterable body =>
            let? iterable := clone_expr iterable in let? body := omapM clone_stmt body in
            Ok (ForStmt variable iterable body)
        | BreakStmt => Ok BreakStmt
        | ContinueStmt => Ok ContinueStmt
        | PassStmt => Ok PassStmt
        | MatchStmt subject branches is_switch =>
            let? branches := omapM clone_branch branches in
            let? subject := clone_expr subject in
            Ok (MatchStmt subject branches is_switch)
        end in
      Ok (mkStmt l c node)
  end
with clone_branch (b : Branch) : outcome Branch :=
  match b with
  | mkBranch patterns guard body =>
      let? patterns := omapM clone_pattern patterns in
      let? guard := optM clone_expr guard in
      let? body := omapM clone_stmt body in
      Ok (mkBranch patterns guard body)
  end
with clone_var (d : VarDecl) : outcome VarDecl :=
  match d with
  | mkVarDecl info initializer setter_body getter_body =>
      let? initializer := optM clone_expr initializer in
      let? setter_body := optM clone_function setter_body in
      let? getter_body := optM clone_function getter_body in
      Ok (mkVarDecl (set_v_inferred false info) initializer setter_body getter_body)
  end
with clone_function (f : FunctionDecl) : outcome FunctionDecl :=
  match f with
  | mkFunction info parameters body =>
      let? parameters := omapM clone_parameter parameters in
      let? body := omapM clone_stmt body in
      Ok (mkFunction info parameters body)
  end
with clone_parameter (p : Parameter_) : outcome Parameter_ :=
  match p with
  | mkParameter name type_hint default_value l c =>
      let? default_value := optM clone_expr default_value in
      Ok (mkParameter name type_hint default_value l c)
  end.

Definition clone_field (f : StructField) : outcome StructField :=
  let? default_value := optM clone_expr (fd_default_value f) in
  Ok (mkField (fd_name f) (fd_type_hint f) default_value (fd_line f) (fd_column f) (fd_doc_comment f) (fd_trait_origin f)).

Definition clone_signal (s : SignalDecl) : outcome SignalDecl :=
  let? parameters := omapM clone_parameter (sg_parameters s) in
  Ok (mkSignal (sg_name s) parameters (sg_line s) (sg_column s) (sg_doc_comment s) (sg_trait_origin s)).

(** [value_expr] points to one of the owned values, and then to its copy. *)
Definition clone_member (m : EnumMember) : outcome EnumMember :=
  let? value_expr := optM clone_expr (m_value_expr m) in
  Ok (mkMember (m_name m) (m_value m) value_expr (m_line m) (m_column m)).

Definition clone_enum (d : EnumDecl) : outcome EnumDecl :=
  let? owned_values := omapM clone_expr (en_owned_values d) in
  let? members := omapM clone_member (en_members d) in
  Ok (mkEnum (en_name d) members owned_values (en_line d) (en_column d)).

(** ** A copy is the original *)

Definition opt_all {A} (f : A -> bool) (o : option A) : bool := match o with Some x => f x | None => true end.

(** No placeholder, no inferred type, and of an assignment and of an [if] one of the
    two forms the parser builds. *)
Fixpoint copyable (e : Expr) : bool :=
  match e with
  | mkExpr _ _ node =>
      match node with
      | LiteralExpr _ | VariableExpr _ => true
      | ErrorExpr => false
      | BinaryExpr l _ r => copyable l && copyable r
      | AwaitExpr e | UnaryExpr _ e | TypeTestExpr e _ | CastExpr e _ _ => copyable e
      | LambdaExpr decl _ => copyable_function decl
      | TernaryExpr c t f => copyable c && copyable t && copyable f
      | CallExpr _ arguments _ _ => forallb copyable arguments
      | MemberCallExpr object _ arguments _ _ _ _ => copyable object && forallb copyable arguments
      | IndexExpr object index _ => copyable object && copyable index
      | ArrayLiteralExpr elements => forallb copyable elements
      | DictionaryLiteralExpr elements => forallb (fun '(k, v) => copyable k && copyable v) elements
      end
  end
with copyable_pattern (p : MatchPattern) : bool :=
  match p with
  | mkPattern _ value _ elements entries _ struct_entries _ _ _ =>
      opt_all copyable value && forallb copyable_pattern elements
      && forallb (fun '(k, v) => copyable k && opt_all copyable_pattern v) entries
      && forallb (fun '(_, v) => copyable_pattern v) struct_entries
  end
with copyable_stmt (s : Stmt) : bool :=
  match s with
  | DeclStmt decl => copyable_var decl
  | mkStmt _ _ node =>
      match node with
      | BreakpointStmt | BreakStmt | ContinueStmt | PassStmt => true
      | ExprStmt e => copyable e
      | AssignStmt name target value => opt_all (fun t => blank name && copyable t) target && copyable value
      | ReturnStmt value => opt_all copyable value
      | IfStmt condition binding then_branch else_branch =>
          match binding with
          | Some binding => opt_all (fun _ => false) condition && copyable_var binding
          | None => opt_all copyable condition
          end && forallb copyable_stmt then_branch && forallb copyable_stmt else_branch
      | WhileStmt condition body => copyable condition && forallb copyable_stmt body
      | ForStmt _ iterable body => copyable iterable && forallb copyable_stmt body
      | MatchStmt subject branches _ => copyable subject && forallb copyable_branch branches
      end
  end
with copyable_branch (b : Branch) : bool :=
  match b with
  | mkBranch patterns guard body =>
      forallb copyable_pattern patterns && opt_all copyable guard && forallb copyable_stmt body
  end
with copyable_var (d : VarDecl) : bool :=
  match d with
  | mkVarDecl info initializer setter_body getter_body =>
      negb (v_inferred info) && opt_all copyable initializer && opt_all copyable_function setter_body
      && opt_all copyable_function getter_body
  end
with copyable_function (f : FunctionDecl) : bool :=
  match f with
  | mkFunction _ parameters body => forallb copyable_parameter parameters && forallb copyable_stmt body
  end
with copyable_parameter (p : Parameter_) : bool :=
  match p with mkParameter _ _ default_value _ _ => opt_all copyable default_value end.

Ltac split_copyable :=
  repeat match goal with
  | H : _ && _ = true |- _ => apply andb_true_iff in H as [? ?]
  end.

(** A step with the induction hypotheses, and the same for the elements of a list
    and for an optional part. *)
Ltac same :=
  repeat first
    [ progress cbn [obind optM opt_all] in *
    | match goal with
      | H : forall e, copyable e = true -> _ |- context [clone_expr ?e] => rewrite (H e) by assumption
      | H : forall e, copyable_pattern e = true -> _ |- context [clone_pattern ?e] => rewrite (H e) by assumption
      | H : forall e, copyable_stmt e = true -> _ |- context [clone_stmt ?e] => rewrite (H e) by assumption
      | H : forall e, copyable_branch e = true -> _ |- context [clone_branch ?e] => rewrite (H e) by assumption
      | H : forall e, copyable_var e = true -> _ |- context [clone_var ?e] => rewrite (H e) by assumption
      | H : forall e, copyable_function e = true -> _ |- context [clone_function ?e] => rewrite (H e) by assumption
      | H : forall e, copyable_parameter e = true -> _ |- context [clone_parameter ?e] => rewrite (H e) by assumption
      | |- context [optM _ ?o] => destruct o
      end ].

Ltac same_elements :=
  match goal with
  | |- context [omapM ?f ?l] =>
      let E := fresh "E" in
      assert (E : omapM f l = Ok l);
        [ let x := fresh "x" in let IHl := fresh "IHl" in
          induction l as [|x l IHl]; [reflexivity|];
          cbn [forallb omapM] in *; try (lazymatch type of x with (_ * _)%type => destruct x as [? ?]; cbn beta iota in * end); split_copyable; same;
          rewrite IHl by assumption; reflexivity
        | rewrite E; clear E; cbn [obind] ]
  end.

Ltac copies := repeat first [progress split_copyable | progress same | same_elements]; first [reflexivity | discriminate].

Lemma blank_nil name : blank name = true -> name = EmptyString.
Proof. by destruct name. Qed.

Lemma not_inferred info : negb (v_inferred info) = true -> set_v_inferred false info = info.
Proof. destruct info as [? ? ? ? ? ? ? ? [] ? ? ? ? ? ? ?]; done. Qed.


Lemma clone_expr_same e : copyable e = true -> clone_expr e = Ok e
with clone_pattern_same p : copyable_pattern p = true -> clone_pattern p = Ok p
with clone_stmt_same s : copyable_stmt s = true -> clone_stmt s = Ok s
with clone_branch_same b : copyable_branch b = true -> clone_branch b = Ok b
with clone_var_same d : copyable_var d = true -> clone_var d = Ok d
with clone_function_same f : copyable_function f = true -> clone_function f = Ok f
with clone_parameter_same p : copyable_parameter p = true -> clone_parameter p = Ok p.
Proof.
  - destruct e as [l c node]. destruct node; cbn [clone_expr copyable]; intros H; copies.
  - destruct p; cbn [clone_pattern copyable_pattern]; intros H; copies.
  - destruct s as [d|l c node]; [cbn; intros H; copies|]. destruct node; cbn [clone_stmt copyable_stmt]; intros H; try copies.
    + destruct target; [|copies]. cbn [opt_all] in *. split_copyable.
      match goal with H : blank _ = true |- _ => rewrite (blank_nil _ H) in * end. copies.
    + destruct binding; [|copies]. destruct condition; copies.
  - destruct b; cbn; intros H; copies.
  - destruct d; cbn [clone_var copyable_var]; intros H. split_copyable. rewrite not_inferred by assumption. copies.
  - destruct f; cbn; intros H; copies.
  - destruct p; cbn; intros H; copies.
Qed.

(** The copy of [var x := 5] is [var x = 5]. *)
Example clone_forgets_inference :
  let d := mkVarDecl (set_v_inferred true (var_info "x" false)) None None None in
  clone_var d <> Ok d.
Proof. discriminate. Qed.

End AstClone.
