(* ===== verification/Traits.v ===== *)
(** * Traits

    Models traits.cpp: the registry of the traits of a compilation, the order their
    [uses] lists give them, and the copy of their members into a script and its
    nested classes.

    A pointer to a trait is the trait: the registry holds one for every name, and a
    trait is only reached through it, so names tell pointers apart.  The maps that
    hold pointers to variables hold the variables, which no step changes after it
    has looked them up.

    [traits_order]: the order of a [uses] list is a topological order of exactly the
    traits it reaches, and it fails only on an undeclared name or a cycle.
    [splice_script_members]: what a script has after its traits are spliced. *)

From Stdlib Require Import Ascii.
From S2P Require Import Prelude.
From S2P Require Import Double.
From S2P Require Import PropertySignature.
From S2P Require Import Ast.
From S2P Require Import AstClone.
From S2P Require Import ParserSamples.

Module Traits.
Import Ast.
Import AstClone.

Definition trait_error {A} (message : string) (line column : Z) : outcome A :=
  Throw (LocatedException SEMANTIC_ERROR message line column).

Definition same_type (left_ right_ : TypeExpr) : bool := String.eqb (type_string left_) (type_string right_).

Definition displaced_trait_symbol (trait method : string) : string := "@trait." +:+ trait +:+ "." +:+ method.

(** ** The registry *)

Abbreviation Registry := (gmap string TraitDecl).

Definition add (r : Registry) (trait : TraitDecl) : outcome Registry :=
  match r !! t_name trait with
  | Some _ => trait_error ("Trait '" +:+ t_name trait +:+ "' is declared more than once") (t_line trait) (t_column trait)
  | None => Ok (<[t_name trait := trait]> r)
  end.

Definition require (r : Registry) (name : string) (line column : Z) : outcome TraitDecl :=
  match r !! name with
  | Some trait => Ok trait
  | None => trait_error ("Trait '" +:+ name +:+ "' is not declared in this compilation") line column
  end.

(** The traits that are [complete], and [out]. *)
Definition Visited : Type := gset string * list TraitDecl.

(** From the first occurrence of a name on. *)
Fixpoint suffix_from (name : string) (stack : list TraitDecl) : option (list TraitDecl) :=
  match stack with
  | [] => None
  | t :: rest => if String.eqb (t_name t) name then Some stack else suffix_from name rest
  end.

Definition cycle_path (cycle : list TraitDecl) (trait : TraitDecl) : string :=
  join " -> " (map t_name cycle) +:+ " -> " +:+ t_name trait.

(** The lambda [visit]; the stack never holds a trait twice, so it is at most as
    long as the registry. *)
Fixpoint visit (n : nat) (r : Registry) (stack : list TraitDecl) (trait : TraitDecl) (st : Visited) : outcome Visited :=
  match n with
  | O => Throw OutOfFuel
  | S n =>
      if decide (t_name trait ∈ st.1) then Ok st else
      match suffix_from (t_name trait) stack with
      | Some cycle =>
          trait_error ("Trait uses cycle: " +:+ cycle_path cycle trait) (t_line trait) (t_column trait)
      | None =>
          let? st := foldM (fun st dependency =>
            let? used := require r dependency (t_line trait) (t_column trait) in
            visit n r (stack ++ [trait]) used st) (t_uses trait) st in
          Ok ({[t_name trait]} ∪ st.1, st.2 ++ [trait])
      end
  end.

Definition linearize (r : Registry) (names : list string) (line column : Z) : outcome (list TraitDecl) :=
  let? st := foldM (fun st name =>
    let? trait := require r name line column in
    visit (S (size r)) r [] trait st) names (∅, []) in
  Ok st.2.

Definition validate (r : Registry) (available : list TraitDecl) : outcome unit :=
  foldM (fun _ trait => let? _ := linearize r [t_name trait] (t_line trait) (t_column trait) in Ok tt) available tt.

(** [Registry(available)] *)
Definition registry (available : list TraitDecl) : outcome Registry :=
  let? r := foldM add available ∅ in
  let? _ := validate r available in
  Ok r.

Definition names_of (traits : list TraitDecl) : list string := map t_name traits.

(** ** A script *)

Record Splice := mkSplice {
  sp_program : Program;
  sp_globals : gmap string VarDecl;
  concrete_methods : gmap string TraitDecl;
  trait_vars : gmap string TraitDecl;
  member_names : gset string
}.

Definition on_program (f : Program -> Program) (s : Splice) : Splice :=
  mkSplice (f (sp_program s)) (sp_globals s) (concrete_methods s) (trait_vars s) (member_names s).

Definition with_member (name : string) (s : Splice) : Splice :=
  mkSplice (sp_program s) (sp_globals s) (concrete_methods s) (trait_vars s) ({[name]} ∪ member_names s).

Definition var_name (d : VarDecl) : string := v_name (var_decl_info d).
Definition var_type (d : VarDecl) : TypeExpr := v_type_hint (var_decl_info d).

(** A name that does not start with '@'. *)
Definition declared_by_source (name : string) : bool :=
  match name with EmptyString => true | String c _ => negb (Ascii.eqb c "@"%char) end.

Definition this_script (p : Program) : string := if blank (class_name p) then "this script" else class_name p.

Definition conflict {A} (trait : TraitDecl) (what name with_ : string) (line column : Z) : outcome A :=
  trait_error ("Trait '" +:+ t_name trait +:+ "' " +:+ what +:+ " '" +:+ name +:+ "' conflicts " +:+ with_) line column.

Definition trait_constant_var (trait : TraitDecl) (source : StructField) (default_value : option Expr) : VarDecl :=
  mkVarDecl (set_v_line (fd_line source) (set_v_column (fd_column source) (set_v_type_hint (fd_type_hint source)
    (set_v_trait_origin (t_name trait) (var_info (fd_name source) true))))) default_value None None.

Definition splice_constant (trait : TraitDecl) (s : Splice) (source : StructField) : outcome Splice :=
  if decide (fd_name source ∈ member_names s)
  then conflict trait "constant" (fd_name source) "with a class member" (fd_line source) (fd_column source) else
  let? value := optM clone_expr (fd_default_value source) in
  let constant := trait_constant_var trait source value in
  Ok (with_member (fd_name source) (on_program (fun p => set_globals (globals p ++ [constant]) p) s)).

Definition splice_var (trait : TraitDecl) (s : Splice) (source : VarDecl) : outcome Splice :=
  let name := var_name source in
  let line := v_line (var_decl_info source) in
  let column := v_column (var_decl_info source) in
  match sp_globals s !! name with
  | Some existing =>
      if v_is_const (var_decl_info existing) || negb (same_type (var_type existing) (var_type source))
      then trait_error ("Class '" +:+ this_script (sp_program s) +:+ "' and trait '" +:+ t_name trait
             +:+ "' both declare '" +:+ name +:+ "'") line column
      else Ok s
  | None =>
      match trait_vars s !! name with
      | Some prior =>
          match trait_find_var prior name with
          | None => Throw (UB "null trait variable")
          | Some first =>
              if negb (same_type (var_type first) (var_type source))
              then trait_error ("Traits '" +:+ t_name prior +:+ "' and '" +:+ t_name trait
                     +:+ "' both declare variable '" +:+ name +:+ "' with different types") line column
              else Ok s
          end
      | None =>
          if decide (name ∈ member_names s) then conflict trait "member" name "with a class member" line column else
          let? copy := clone_var source in
          let s := on_program (fun p => set_globals (globals p ++ [copy]) p) s in
          Ok (mkSplice (sp_program s) (<[name := copy]> (sp_globals s)) (concrete_methods s)
                (<[name := trait]> (trait_vars s)) ({[name]} ∪ member_names s))
      end
  end.

Definition splice_enum (trait : TraitDecl) (s : Splice) (source : EnumDecl) : outcome Splice :=
  let name := en_name source in
  if negb (blank name) && bool_decide (name ∈ member_names s)
  then conflict trait "enum" name "with a class member" (en_line source) (en_column source) else
  let? copy := clone_enum source in
  let s := on_program (fun p => set_enums (enums p ++ [copy]) p) s in
  Ok (if blank name then s else with_member name s).

Definition splice_signal (trait : TraitDecl) (s : Splice) (source : SignalDecl) : outcome Splice :=
  if decide (sg_name source ∈ member_names s)
  then conflict trait "signal" (sg_name source) "with a class member" (sg_line source) (sg_column source) else
  let? copy := clone_signal source in
  Ok (with_member (sg_name source) (on_program (fun p => set_signals (signals p ++ [copy]) p) s)).

Definition set_info (f : FunctionInfo -> FunctionInfo) (d : FunctionDecl) : FunctionDecl :=
  let '(mkFunction info parameters body) := d in mkFunction (f info) parameters body.

Definition set_chain_name (x : string) (s : FunctionInfo) : FunctionInfo :=
  mkFunctionInfo (f_name s) (f_return_type s) (f_line s) (f_column s) (f_doc_comment s) (f_is_coroutine s)
    (f_is_static s) (f_is_abstract s) (f_requires_host_hook s) (f_is_test s) (f_trait_origin s) (f_rpc_config s)
    (f_chain_link s) x.

Definition from_trait (trait : string) (d : FunctionDecl) : FunctionDecl := set_info (set_f_trait_origin trait) d.

(** The copy of a method the user declares itself. *)
Definition displace (trait : string) (d : FunctionDecl) : FunctionDecl :=
  let name := method_name d in
  set_info (fun info => set_chain_name name (set_f_name (displaced_trait_symbol trait name) info)) d.

Definition both_declare {A} (prior trait : TraitDecl) (name user : string) (source : FunctionDecl) : outcome A :=
  trait_error ("Traits '" +:+ t_name prior +:+ "' and '" +:+ t_name trait +:+ "' both declare '" +:+ name
    +:+ "'; override it in '" +:+ user +:+ "'") (f_line (function_info source)) (f_column (function_info source)).

Definition add_method (copy : FunctionDecl) (name : string) (trait : TraitDecl) (s : Splice) : Splice :=
  let s := on_program (fun p => set_program_functions (program_functions p ++ [copy]) p) s in
  mkSplice (sp_program s) (sp_globals s) (<[name := trait]> (concrete_methods s)) (trait_vars s) (member_names s).

Definition splice_method (original_methods : gset string) (trait : TraitDecl) (s : Splice) (source : FunctionDecl) :
    outcome Splice :=
  if f_is_abstract (function_info source) then Ok s else
  let? copy := clone_function source in
  let copy := from_trait (t_name trait) copy in
  let name := method_name source in
  if decide (name ∈ original_methods) then Ok (add_method (displace (t_name trait) copy) name trait s) else
  match concrete_methods s !! name with
  | Some prior => both_declare prior trait name (this_script (sp_program s)) source
  | None => Ok (add_method copy name trait s)
  end.

Definition splice_trait (original_methods : gset string) (s : Splice) (trait : TraitDecl) : outcome Splice :=
  let? s := foldM (splice_constant trait) (t_constants trait) s in
  let? s := foldM (splice_var trait) (t_vars trait) s in
  let? s := foldM (splice_enum trait) (t_enums trait) s in
  let? s := foldM (splice_signal trait) (t_signals trait) s in
  foldM (splice_method original_methods trait) (t_methods trait) s.

Definition original_methods (functions : list FunctionDecl) : gset string :=
  list_to_set (filter (fun name => declared_by_source name = true) (map method_name functions)).

Definition splice_script (p : Program) (r : Registry) : outcome Program :=
  let? traits := linearize r (program_uses p) (class_name_line p) (class_name_column p) in
  let p := set_program_uses (names_of traits) p in
  let globals := foldl (fun m d => <[var_name d := d]> m) ∅ (globals p) in
  let members := dom globals ∪ list_to_set (map sg_name (signals p)) in
  let? s := foldM (splice_trait (original_methods (program_functions p))) traits (mkSplice p globals ∅ ∅ members) in
  Ok (sp_program s).

(** ** A nested class *)

Record Nested := mkNested {
  ne_user : StructDecl;
  ne_methods : gmap string TraitDecl;
  ne_fields : gmap string TraitDecl
}.

Definition on_user (f : StructDecl -> StructDecl) (s : Nested) : Nested := mkNested (f (ne_user s)) (ne_methods s) (ne_fields s).

Definition nested_field (trait : TraitDecl) (source : VarDecl) (default_value : option Expr) : StructField :=
  mkField (var_name source) (var_type source) default_value (v_line (var_decl_info source))
    (v_column (var_decl_info source)) "" (t_name trait).

Definition nested_var (trait : TraitDecl) (s : Nested) (source : VarDecl) : outcome Nested :=
  let name := var_name source in
  let info := var_decl_info source in
  if v_is_property info || v_is_onready info
  then trait_error ("Trait '" +:+ t_name trait +:+ "' variable '" +:+ name +:+ "' uses a script-class-only annotation")
         (v_line info) (v_column info) else
  match struct_find_field (ne_user s) name with
  | Some own =>
      if negb (same_type (fd_type_hint own) (var_type source))
      then trait_error ("Class '" +:+ st_name (ne_user s) +:+ "' and trait '" +:+ t_name trait +:+ "' declare '" +:+ name
             +:+ "' with different types") (v_line info) (v_column info)
      else Ok s
  | None =>
      match ne_fields s !! name with
      | Some prior =>
          match trait_find_var prior name with
          | None => Throw (UB "null trait variable")
          | Some first =>
              if negb (same_type (var_type first) (var_type source))
              then trait_error ("Traits '" +:+ t_name prior +:+ "' and '" +:+ t_name trait +:+ "' declare '" +:+ name
                     +:+ "' with different types") (v_line info) (v_column info)
              else Ok s
          end
      | None =>
          let? default_value := optM clone_expr (initializer source) in
          let s := on_user (fun u => set_st_fields (st_fields u ++ [nested_field trait source default_value]) u) s in
          Ok (mkNested (ne_user s) (ne_methods s) (<[name := trait]> (ne_fields s)))
      end
  end.

Definition nested_constant (trait : TraitDecl) (s : Nested) (source : StructField) : outcome Nested :=
  if (if struct_find_constant (ne_user s) (fd_name source) is Some _ then true else false)
     || (if struct_find_field (ne_user s) (fd_name source) is Some _ then true else false)
  then conflict trait "constant" (fd_name source) ("in '" +:+ st_name (ne_user s) +:+ "'") (fd_line source) (fd_column source)
  else
    let? copy := clone_field source in
    Ok (on_user (fun u => set_st_constants (st_constants u ++ [copy]) u) s).

Definition add_nested_method (copy : FunctionDecl) (name : string) (trait : TraitDecl) (s : Nested) : Nested :=
  let s := on_user (fun u => set_st_methods (st_methods u ++ [copy]) u) s in
  mkNested (ne_user s) (<[name := trait]> (ne_methods s)) (ne_fields s).

Definition nested_method (original_methods : gset string) (trait : TraitDecl) (s : Nested) (source : FunctionDecl) :
    outcome Nested :=
  if f_is_abstract (function_info source) then Ok s else
  let? copy := clone_function source in
  let copy := from_trait (t_name trait) copy in
  let name := method_name source in
  if decide (name ∈ original_methods) then Ok (add_nested_method (displace (t_name trait) copy) name trait s) else
  match ne_methods s !! name with
  | Some prior => both_declare prior trait name (st_name (ne_user s)) source
  | None => Ok (add_nested_method copy name trait s)
  end.

Definition nested_trait (original_methods : gset string) (s : Nested) (trait : TraitDecl) : outcome Nested :=
  let user := ne_user s in
  if negb (blank (t_base_name trait)) && negb (st_is_class user)
  then trait_error ("Struct '" +:+ st_name user +:+ "' cannot use '" +:+ t_name trait +:+ "': the trait requires base '"
         +:+ t_base_name trait +:+ "'") (st_line user) (st_column user) else
  match t_signals trait with
  | _ :: _ =>
      trait_error ("Class '" +:+ st_name user +:+ "' cannot use '" +:+ t_name trait
        +:+ "': nested classes do not support signals") (st_line user) (st_column user)
  | [] =>
      let? s := foldM (nested_var trait) (t_vars trait) s in
      let? s := foldM (nested_constant trait) (t_constants trait) s in
      foldM (nested_method original_methods trait) (t_methods trait) s
  end.

Definition splice_nested (user : StructDecl) (r : Registry) : outcome StructDecl :=
  let? traits := linearize r (st_uses user) (st_line user) (st_column user) in
  let user := set_st_uses (names_of traits) user in
  let? s := foldM (nested_trait (list_to_set (map method_name (st_methods user)))) traits (mkNested user ∅ ∅) in
  Ok (ne_user s).

(** ** Initialisers of [@onready] trait variables *)

Definition hoists (d : VarDecl) : option Stmt :=
  match d with
  | mkVarDecl info (Some e) _ _ =>
      if negb (blank (v_trait_origin info)) && v_is_onready info
      then Some (mkStmt (v_line info) (v_column info) (AssignStmt (v_name info) None e)) else None
  | _ => None
  end.

(** The initialiser is moved out of the variable. *)
Definition moved_out (d : VarDecl) : VarDecl :=
  match hoists d, d with
  | Some _, mkVarDecl info _ setter getter => mkVarDecl info None setter getter
  | None, _ => d
  end.

Definition prepend (prologue : list Stmt) (f : FunctionDecl) : FunctionDecl :=
  let '(mkFunction info parameters body) := f in mkFunction info parameters (prologue ++ body).

(** The first [_ready] gets the prologue. *)
Fixpoint prepend_to_ready (prologue : list Stmt) (functions : list FunctionDecl) : option (list FunctionDecl) :=
  match functions with
  | [] => None
  | f :: functions =>
      if String.eqb (method_name f) "_ready" then Some (prepend prologue f :: functions)
      else match prepend_to_ready prologue functions with
           | Some functions => Some (f :: functions)
           | None => None
           end
  end.

Definition statement_place (s : Stmt) : Z * Z :=
  match s with DeclStmt d => (v_line (var_decl_info d), v_column (var_decl_info d)) | mkStmt l c _ => (l, c) end.

Definition created_ready (line column : Z) : FunctionDecl :=
  mkFunction (mkFunctionInfo "_ready" no_type line column "" false false false false false "" None 0 "") [] [].

Definition hoist_trait_onready (p : Program) : Program :=
  let prologue := omap hoists (globals p) in
  let p := set_globals (map moved_out (globals p)) p in
  match prologue with
  | [] => p
  | first :: _ =>
      let (line, column) := statement_place first in
      match prepend_to_ready prologue (program_functions p) with
      | Some functions => set_program_functions functions p
      | None => set_program_functions (program_functions p ++ [prepend prologue (created_ready line column)]) p
      end
  end.

(** ** The whole program *)

(** [apply_traits(program, available)] *)
Definition apply_traits_of (p : Program) (available : list TraitDecl) : outcome Program :=
  let? r := registry available in
  let? p := splice_script p r in
  let? structs := omapM (fun user => splice_nested user r) (structs p) in
  Ok (hoist_trait_onready (set_structs structs p)).

Definition apply_traits (p : Program) : outcome Program := apply_traits_of p (traits p).

End Traits.

Module TraitsFacts.
Import Ast.
Import AstClone.
Import Traits.

(** ** The order of the traits *)

(** [a] lists [b]. *)
Definition uses (r : Registry) (a b : string) : Prop := exists t, r !! a = Some t /\ b ∈ t_uses t.

(** Every trait stands under its own name. *)
Definition keyed (r : Registry) : Prop := forall name t, r !! name = Some t -> t_name t = name.

(** Each trait comes after those it lists. *)
Definition ordered (out : list TraitDecl) : Prop :=
  forall l1 t l2, out = l1 ++ t :: l2 -> forall d, d ∈ t_uses t -> d ∈ names_of l1.

(** What keeps a trait from being ordered. *)
Definition broken (r : Registry) (name : string) : Prop :=
  exists x, rtc (uses r) name x /\ (r !! x = None \/ tc (uses r) x x).

Definition semantic (e : exn) : Prop := exists message line column, e = LocatedException SEMANTIC_ERROR message line column.

Record Good (r : Registry) (st : Visited) : Prop := {
  good_complete : st.1 = list_to_set (names_of st.2);
  good_distinct : NoDup (names_of st.2);
  good_declared : forall t, t ∈ st.2 -> r !! t_name t = Some t;
  good_ordered : ordered st.2
}.

(** [st'] is [st] and what [from] reaches, that name included, and nothing that is
    still on the stack. *)
Record Extends (r : Registry) (stack : list TraitDecl) (from : string) (st st' : Visited) : Prop := {
  ext_good : Good r st';
  ext_stack : forall x, x ∈ names_of stack -> x ∈ names_of st'.2 -> x ∈ names_of st.2;
  ext_has : from ∈ names_of st'.2;
  ext_new : forall t, t ∈ st'.2 -> t ∈ st.2 \/ rtc (uses r) from (t_name t);
  ext_old : forall t, t ∈ st.2 -> t ∈ st'.2
}.

Lemma suffix_from_in name stack cycle : suffix_from name stack = Some cycle -> name ∈ names_of stack.
Proof.
  induction stack as [|t stack IH]; [done|]. cbn. destruct (String.eqb_spec (t_name t) name) as [<-|_]; [by left|].
  intros H. right. by apply IH.
Qed.

Lemma suffix_from_none name stack : suffix_from name stack = None -> name ∉ names_of stack.
Proof.
  induction stack as [|t stack IH]; [intros _; apply not_elem_of_nil|]. cbn. destruct (String.eqb_spec (t_name t) name); [done|].
  intros H. apply not_elem_of_cons. split; [done|by apply IH].
Qed.

Lemma names_of_app l1 l2 : names_of (l1 ++ l2) = names_of l1 ++ names_of l2.
Proof. apply map_app. Qed.

Lemma in_names t l : t ∈ l -> t_name t ∈ names_of l.
Proof. intros H. apply list_elem_of_fmap. by exists t. Qed.

Lemma ordered_snoc out t :
  ordered out -> (forall d, d ∈ t_uses t -> d ∈ names_of out) -> ordered (out ++ [t]).
Proof.
  intros Ho Ht l1 t' l2 E d Hd. destruct l2 as [|x l2' _] using rev_ind.
  - apply app_inj_tail in E as [<- <-]. by apply Ht.
  - rewrite app_comm_cons, app_assoc in E. apply app_inj_tail in E as [E _]. by eapply Ho.
Qed.

Section Order.
Context (r : Registry) (Hkey : keyed r).

(** A loop over the names a trait lists, or over those of a user. *)
Lemma visit_all stack (step : Visited -> string -> outcome Visited) names st :
  (forall st d, d ∈ names -> Good r st ->
     match step st d with Ok st' => Extends r stack d st st' | Throw e => semantic e /\ broken r d end) ->
  Good r st ->
  match foldM step names st with
  | Ok st' => Good r st' /\ (forall x, x ∈ names_of stack -> x ∈ names_of st'.2 -> x ∈ names_of st.2) /\
      (forall d, d ∈ names -> d ∈ names_of st'.2) /\
      (forall t, t ∈ st'.2 -> t ∈ st.2 \/ exists d, d ∈ names /\ rtc (uses r) d (t_name t)) /\
      (forall t, t ∈ st.2 -> t ∈ st'.2)
  | Throw e => semantic e /\ exists d, d ∈ names /\ broken r d
  end.
Proof.
  revert st. induction names as [|d names IH]; intros st Hstep Hg.
  - cbn. split_and!; [done|done|by intros d ?%not_elem_of_nil|by left|done].
  - cbn. pose proof (Hstep st d ltac:(by left) Hg) as Hd. destruct (step st d) as [st1|e]; cbn.
    + specialize (IH st1 (fun st d' Hin => Hstep st d' ltac:(by right)) (ext_good _ _ _ _ _ Hd)).
      destruct (foldM step names st1) as [st2|e].
      * destruct IH as (Hg2 & Hst & Hin & Hnew & Hold). split_and!; [done| | | |].
        -- intros x Hx H2. apply (ext_stack _ _ _ _ _ Hd x Hx). by apply Hst.
        -- intros d' [->|H]%elem_of_cons; [|by apply Hin].
           pose proof (ext_has _ _ _ _ _ Hd) as [t [-> Ht]]%list_elem_of_fmap. by apply in_names, Hold.
        -- intros t Ht. destruct (Hnew t Ht) as [H1|[d' [Hd' H1]]].
           ++ destruct (ext_new _ _ _ _ _ Hd t H1) as [H2|H2]; [by left|]. right. exists d. split; [by left|done].
           ++ right. exists d'. split; [by right|done].
        -- intros t Ht. by apply Hold, (ext_old _ _ _ _ _ Hd).
      * destruct IH as [He [d' [Hd' Hb]]]. split; [done|]. exists d'. split; [by right|done].
    + destruct Hd as [He Hb]. split; [done|]. exists d. split; [by left|done].
Qed.

Lemma require_spec name l c :
  match require r name l c with
  | Ok t => r !! name = Some t
  | Throw e => semantic e /\ r !! name = None
  end.
Proof. unfold require. destruct (r !! name); [done|]. split; [by eexists _, _, _|done]. Qed.

Lemma visit_spec n stack trait st :
  (size r < n + length stack)%nat -> r !! t_name trait = Some trait -> NoDup (names_of stack) ->
  (forall s, s ∈ stack -> r !! t_name s = Some s /\ tc (uses r) (t_name s) (t_name trait)) ->
  Good r st ->
  match visit n r stack trait st with
  | Ok st' => Extends r stack (t_name trait) st st'
  | Throw e => semantic e /\ broken r (t_name trait)
  end.
Proof.
  revert stack trait st. induction n as [|n IH]; intros stack trait st Hn Ht Hnd Hstack Hg.
  { exfalso. assert (length (names_of stack) <= size r)%nat; [|unfold names_of in *; rewrite length_map in *; lia].
    rewrite <- (size_dom r), <- (size_list_to_set (C := gset string)) by done. apply subseteq_size.
    intros x Hx. apply elem_of_list_to_set, list_elem_of_fmap in Hx as [s [-> Hs]].
    apply elem_of_dom. destruct (Hstack s Hs) as [H _]. by eexists. }
  cbn [visit]. destruct (decide _) as [Hin|Hnin].
  { rewrite (good_complete _ _ Hg), elem_of_list_to_set in Hin. split; [done|done|done|by left|done]. }
  destruct (suffix_from (t_name trait) stack) as [cycle|] eqn:Ec.
  { split; [by eexists _, _, _|]. exists (t_name trait). split; [done|]. right.
    apply suffix_from_in, list_elem_of_fmap in Ec as [s [E Hs]]. destruct (Hstack s Hs) as [_ H]. by rewrite <- E in H. }
  apply suffix_from_none in Ec.
  assert (Hdep : forall d, d ∈ t_uses trait -> uses r (t_name trait) d) by (intros d Hd; by exists trait).
  set (step := fun st dependency =>
    let? used := require r dependency (t_line trait) (t_column trait) in visit n r (stack ++ [trait]) used st).
  assert (Hstep : forall st d, d ∈ t_uses trait -> Good r st ->
    match step st d with Ok st' => Extends r (stack ++ [trait]) d st st' | Throw e => semantic e /\ broken r d end).
  { intros st' d Hd Hg'. unfold step. pose proof (require_spec d (t_line trait) (t_column trait)) as Hr.
    destruct (require _ _ _ _) as [used|e]; cbn [obind]; [|split; [apply Hr|]; exists d; split; [done|left; apply Hr]].
    pose proof (Hkey _ _ Hr) as <-. apply IH; [rewrite length_app; cbn; lia|done| | |done].
    - rewrite names_of_app. apply NoDup_app. split_and!; [done| |apply NoDup_singleton].
      intros x Hx Hx'%list_elem_of_singleton. by subst.
    - intros s [Hs|Hs]%elem_of_app; [|apply list_elem_of_singleton in Hs as ->].
      + destruct (Hstack s Hs) as [H1 H2]. split; [done|]. eapply tc_r; [done|by apply Hdep].
      + split; [done|]. by apply tc_once, Hdep. }
  pose proof (visit_all (stack ++ [trait]) step (t_uses trait) st Hstep Hg) as Hall. destruct (foldM step (t_uses trait) st) as [st1|e]; cbn [obind].
  2:{ destruct Hall as [He [d [Hd [x [Hx Hb]]]]]. split; [done|]. exists x. split; [|done]. eapply rtc_l; [by apply Hdep|done]. }
  destruct Hall as (Hg1 & Hst & Hin & Hnew & Hold). rewrite names_of_app in Hst.
  assert (Hself : t_name trait ∉ names_of st1.2).
  { intros H. apply Hst in H; [|apply elem_of_app; right; by left]. apply Hnin.
    by rewrite (good_complete _ _ Hg), elem_of_list_to_set. }
  destruct Hg1 as [Hc Hnd1 Hdecl Hord]. split; cbn.
  - split; cbn.
    + rewrite Hc, names_of_app, list_to_set_app_L. cbn. set_solver.
    + rewrite names_of_app. apply NoDup_app. split_and!; [done| |apply NoDup_singleton].
      intros x Hx Hx'%list_elem_of_singleton. by subst.
    + intros t [H|H]%elem_of_app; [by apply Hdecl|]. by apply list_elem_of_singleton in H as ->.
    + by apply ordered_snoc.
  - intros x Hx. rewrite names_of_app. intros [H|H]%elem_of_app.
    + apply Hst; [apply elem_of_app; by left|done].
    + apply list_elem_of_singleton in H as ->. done.
  - rewrite names_of_app. apply elem_of_app. right. by left.
  - intros t [H|H]%elem_of_app; [|apply list_elem_of_singleton in H as ->; by right].
    destruct (Hnew t H) as [H1|[d [Hd H1]]]; [by left|]. right. eapply rtc_l; [by apply Hdep|done].
  - intros t H. apply elem_of_app. left. by apply Hold.
Qed.

Lemma linearize_spec names l c :
  match linearize r names l c with
  | Ok out => NoDup (names_of out) /\ ordered out /\
      (forall t, t ∈ out <-> r !! t_name t = Some t /\ exists name, name ∈ names /\ rtc (uses r) name (t_name t))
  | Throw e => semantic e /\ exists name, name ∈ names /\ broken r name
  end.
Proof.
  unfold linearize.
  set (step := fun st name => let? trait := require r name l c in visit (S (size r)) r [] trait st).
  assert (Hstep : forall st d, d ∈ names -> Good r st ->
    match step st d with Ok st' => Extends r [] d st st' | Throw e => semantic e /\ broken r d end).
  { intros st d _ Hg. unfold step. pose proof (require_spec d l c) as Hr.
    destruct (require _ _ _ _) as [trait|e]; cbn [obind]; [|split; [apply Hr|]; exists d; split; [done|left; apply Hr]].
    pose proof (Hkey _ _ Hr) as <-. apply visit_spec; [cbn; lia|done|constructor| |done].
    by intros s ?%not_elem_of_nil. }
  assert (Hg : Good r (∅, [])).
  { split; [done|constructor|by intros t ?%not_elem_of_nil|]. intros l1 t l2 E. by destruct l1. }
  pose proof (visit_all [] step names (∅, []) Hstep Hg) as H. destruct (foldM step names (∅, [])) as [st|e]; cbn [obind]; [|done].
  destruct H as (Hgood & _ & Hin & Hnew & _). split_and!; [apply Hgood|apply Hgood|]. intros t. split.
  - intros Ht. split; [by apply (good_declared _ _ Hgood)|]. destruct (Hnew t Ht) as [H|H]; [|done].
    by apply not_elem_of_nil in H.
  - intros [Ht [name [Hname Hrtc]]]. assert (Hall : t_name t ∈ names_of st.2).
    { clear Ht. apply Hin in Hname. revert Hname. induction Hrtc as [|x y z [t' [Ht' Hy]] _ IH]; [done|]. intros Hx. apply IH.
      apply list_elem_of_fmap in Hx as [t1 [-> Ht1]]. pose proof (good_declared _ _ Hgood t1 Ht1) as E.
      rewrite Ht' in E. injection E as ->. apply list_elem_of_split in Ht1 as (l1 & l2 & E).
      pose proof (good_ordered _ _ Hgood l1 t1 l2 E y Hy) as H. rewrite E, names_of_app. apply elem_of_app. by left. }
    apply list_elem_of_fmap in Hall as [t' [E Ht']]. pose proof (good_declared _ _ Hgood t' Ht') as H.
    rewrite <- E, Ht in H. by injection H as ->.
Qed.

End Order.

(** ** The registry *)

Definition declared (available : list TraitDecl) : Registry := foldl (fun r t => <[t_name t := t]> r) ∅ available.

Lemma declared_snoc available t : declared (available ++ [t]) = <[t_name t := t]> (declared available).
Proof. unfold declared. by rewrite foldl_app. Qed.

Lemma declared_lookup available name t : declared available !! name = Some t -> t_name t = name /\ t ∈ available.
Proof.
  induction available as [|x available IH] using rev_ind; [done|]. rewrite declared_snoc. intros H.
  apply lookup_insert_Some in H as [[<- <-]|[_ H]].
  - split; [done|]. apply elem_of_app. right. by left.
  - apply IH in H as [? ?]. split; [done|]. apply elem_of_app. by left.
Qed.

Lemma declared_keyed available : keyed (declared available).
Proof. intros name t H. by apply declared_lookup in H as [? _]. Qed.

Lemma declared_none available name : declared available !! name = None <-> name ∉ names_of available.
Proof.
  induction available as [|x available IH] using rev_ind; [split; [by intros _ ?%not_elem_of_nil|done]|].
  rewrite declared_snoc, names_of_app, lookup_insert_None, IH, not_elem_of_app. cbn. rewrite list_elem_of_singleton.
  naive_solver.
Qed.

Lemma add_all available r : foldM add available ∅ = Ok r -> r = declared available /\ NoDup (names_of available).
Proof.
  intros H. apply (foldM_ind (fun l r => r = declared l /\ NoDup (names_of l))) in H; [done|split; [done|constructor]|].
  intros d t r1 r2 _ [-> Hd] Ha. unfold add in Ha. destruct (declared d !! t_name t) eqn:E; [done|]. injection Ha as <-.
  split; [by rewrite declared_snoc|]. rewrite names_of_app. apply NoDup_app. split_and!; [done| |apply NoDup_singleton].
  intros x Hx Hx'%list_elem_of_singleton. subst. by apply declared_none in E.
Qed.

(** What a trait of an order reaches in a step or more comes before it. *)
Lemma ordered_before r out : keyed r -> (forall t, t ∈ out -> r !! t_name t = Some t) -> ordered out ->
  forall x y, tc (uses r) x y -> forall l1 t l2, out = l1 ++ t :: l2 -> t_name t = x -> y ∈ names_of l1.
Proof.
  intros Hkey Hdecl Hord x y Htc.
  assert (Hedge : forall l1 t l2 d, out = l1 ++ t :: l2 -> uses r (t_name t) d -> d ∈ names_of l1).
  { intros l1 t l2 d E [t' [Ht' Hd]]. rewrite Hdecl in Ht'; [|rewrite E; apply elem_of_app; right; by left].
    injection Ht' as <-. by eapply Hord. }
  induction Htc as [x y Hxy|x y z Hxy _ IH]; intros l1 t l2 E <-; [by eapply Hedge|].
  pose proof (Hedge _ _ _ _ E Hxy) as Hy. apply list_elem_of_fmap in Hy as [t1 [-> Ht1]].
  apply list_elem_of_split in Ht1 as (l11 & l12 & ->). rewrite names_of_app. apply elem_of_app. left.
  apply (IH l11 t1 (l12 ++ t :: l2)); [by rewrite E, <- app_assoc|done].
Qed.

Lemma ordered_not_broken r name out l c : keyed r -> linearize r [name] l c = Ok out -> is_Some (r !! name) -> ~ broken r name.
Proof.
  intros Hkey E [t0 Ht0] [x [Hx Hb]]. pose proof (linearize_spec _ Hkey [name] l c) as H. rewrite E in H.
  destruct H as (Hnd & Hord & Hall).
  assert (Hdecl : forall t, t ∈ out -> r !! t_name t = Some t) by (intros t Ht; by apply Hall in Ht as [? _]).
  assert (Hin : forall x t, rtc (uses r) name x -> r !! x = Some t -> t ∈ out).
  { intros y t Hy Ht. pose proof (Hkey _ _ Ht) as <-. apply Hall. split; [done|]. exists name. split; [by left|done]. }
  destruct Hb as [Hnone|Hcycle].
  - apply rtc_inv_r in Hx as [->|[y [Hy [t [Ht Hd]]]]]; [by rewrite Ht0 in Hnone|].
    pose proof (Hin _ _ Hy Ht) as Hto. apply list_elem_of_split in Hto as (l1 & l2 & Eo).
    pose proof (Hord _ _ _ Eo x Hd) as Hxo. apply list_elem_of_fmap in Hxo as [t1 [-> Ht1]].
    rewrite Hdecl in Hnone; [done|]. rewrite Eo. apply elem_of_app. by left.
  - assert (Hxt : exists t, r !! x = Some t) by (inversion Hcycle as [? ? [t [Ht _]]|? ? ? [t [Ht _]]]; by exists t).
    destruct Hxt as [t Ht]. pose proof (Hin _ _ Hx Ht) as Hto. apply list_elem_of_split in Hto as (l1 & l2 & Eo).
    pose proof (ordered_before r out Hkey Hdecl Hord x x Hcycle l1 t l2 Eo (Hkey _ _ Ht)) as Hxl.
    rewrite Eo, names_of_app in Hnd. apply NoDup_app in Hnd as (_ & Hnd & _). apply (Hnd x Hxl).
    rewrite <- (Hkey _ _ Ht). by left.
Qed.

Lemma declared_in available t : NoDup (names_of available) -> declared available !! t_name t = Some t <-> t ∈ available.
Proof.
  intros Hnd. split; [by intros [_ H]%declared_lookup|]. intros Ht.
  destruct (declared available !! t_name t) as [t'|] eqn:E.
  - apply declared_lookup in E as [En Ht']. apply list_elem_of_lookup in Ht as [i Hi], Ht' as [j Hj]. f_equal.
    assert (i = j); [|subst; by simplify_eq]. eapply NoDup_lookup; [exact Hnd| |]; unfold names_of; rewrite list_lookup_fmap.
    + by rewrite Hi.
    + rewrite Hj. cbn. by rewrite En.
  - apply declared_none in E. exfalso. by apply E, in_names.
Qed.

(** C28: registering the traits of a compilation fails only when a name is declared
    twice or a trait reaches an undeclared name or itself.  After it, any list of
    trait names that are declared gets an order: exactly the traits the list
    reaches, each once and behind all those it uses.  The recursion ends on every
    input. *)
Theorem traits_order available :
  match registry available with
  | Throw e =>
      semantic e /\ (~ NoDup (names_of available) \/ exists t, t ∈ available /\ broken (declared available) (t_name t))
  | Ok r =>
      forall names line column,
      match linearize r names line column with
      | Throw e => semantic e /\ exists name, name ∈ names /\ name ∉ names_of available
      | Ok out =>
          NoDup (names_of out) /\ ordered out /\
          (forall t, t ∈ out <-> t ∈ available /\ exists name, name ∈ names /\ rtc (uses r) name (t_name t))
      end
  end.
Proof.
  unfold registry. destruct (foldM add available ∅) as [r|e] eqn:Ea; cbn [obind].
  2:{ apply foldM_throw in Ea as (d & t & l & r & -> & Hd & Ht). apply add_all in Hd as [-> _]. unfold add in Ht.
      destruct (declared d !! t_name t) as [t'|] eqn:E; [|done]. injection Ht as <-. split; [by eexists _, _, _|]. left.
      rewrite names_of_app. intros [_ [Hnd _]]%NoDup_app. apply (Hnd (t_name t)); [|by left].
      destruct (decide (t_name t ∈ names_of d)) as [|Hn]; [done|]. apply declared_none in Hn. by rewrite Hn in E. }
  apply add_all in Ea as [-> Hnd]. pose proof (declared_keyed available) as Hkey.
  destruct (validate (declared available) available) as [[]|e] eqn:Ev; cbn [obind].
  2:{ apply foldM_throw in Ev as (d & t & l & [] & E & _ & Ht).
      pose proof (linearize_spec _ Hkey [t_name t] (t_line t) (t_column t)) as H.
      destruct (linearize _ _ _ _) as [out|e']; cbn in Ht; [done|]. injection Ht as ->.
      destruct H as [He [name [Hn%list_elem_of_singleton Hb]]]. subst. split; [done|]. right. exists t. split; [|done].
      apply elem_of_app. right. by left. }
  assert (Hok : forall t, t ∈ available -> ~ broken (declared available) (t_name t)).
  { refine (foldM_ind (fun done _ => forall t, t ∈ done -> ~ broken (declared available) (t_name t)) _ _ _ _ _ _ Ev);
      [by intros t ?%not_elem_of_nil|].
    intros d t [] [] Hin Hd Ht x [Hx|Hx%list_elem_of_singleton]%elem_of_app; [by apply Hd|subst].
    apply obind_Ok in Ht as (out & Ho & _). eapply ordered_not_broken; [done|exact Ho|].
    exists t. by apply declared_in. }
  intros names l c. pose proof (linearize_spec _ Hkey names l c) as H. destruct (linearize _ names l c) as [out|e].
  - destruct H as (H1 & H2 & H3). split_and!; [done|done|]. intros t. rewrite H3.
    by rewrite declared_in.
  - destruct H as [He [name [Hn Hb]]]. split; [done|]. exists name. split; [done|]. intros Hin.
    apply list_elem_of_fmap in Hin as [t [-> Ht]]. by apply (Hok t).
Qed.

(** ** The members of a script *)

(** The copy of a method: under its own name, or displaced when the script has a
    function of that name. *)
Inductive copied (originals : gset string) : TraitDecl * FunctionDecl -> FunctionDecl -> Prop :=
  | copied_own t m c :
      clone_function m = Ok c -> method_name m ∉ originals -> copied originals (t, m) (from_trait (t_name t) c)
  | copied_displaced t m c :
      clone_function m = Ok c -> method_name m ∈ originals ->
      copied originals (t, m) (displace (t_name t) (from_trait (t_name t) c)).

Definition concrete (tm : TraitDecl * FunctionDecl) : bool := negb (f_is_abstract (function_info tm.2)).
Definition not_in (originals : gset string) (tm : TraitDecl * FunctionDecl) : bool :=
  negb (bool_decide (method_name tm.2 ∈ originals)).
Definition method_names (l : list (TraitDecl * FunctionDecl)) : list string := map (fun tm => method_name tm.2) l.

(** The names of the variables, constants and signals. *)
Definition data_names (p : Program) : list string := map var_name (globals p) ++ map sg_name (signals p).

(** With the names of enums; an enum without one has no name to clash. *)
Definition enum_names (l : list EnumDecl) : list string := List.filter (fun name => negb (blank name)) (map en_name l).

Definition all_names (p : Program) (added : list EnumDecl) : list string := data_names p ++ enum_names added.

(** There is a variable or constant of the name and type of [v]. *)
Definition provides (p : Program) (v : VarDecl) : Prop :=
  exists d, d ∈ globals p /\ var_name d = var_name v /\ same_type (var_type d) (var_type v) = true.

(** After the methods [ms] and the variables [vs] of traits have been copied. *)
Record Spliced (originals : gset string) (base : list FunctionDecl) (own_enums : list EnumDecl) (ms : list (TraitDecl * FunctionDecl))
    (vs : list VarDecl) (s : Splice) : Prop := {
  spl_functions : exists copies, program_functions (sp_program s) = base ++ copies /\
    Forall2 (copied originals) (List.filter concrete ms) copies;
  spl_concrete : forall name, is_Some (concrete_methods s !! name) <-> name ∈ method_names (List.filter concrete ms);
  spl_distinct : NoDup (method_names (List.filter (not_in originals) (List.filter concrete ms)));
  spl_data : exists added, enums (sp_program s) = own_enums ++ added /\
    NoDup (all_names (sp_program s) added) /\ forall name, name ∈ all_names (sp_program s) added -> name ∈ member_names s;
  spl_globals : forall name d, sp_globals s !! name = Some d -> d ∈ globals (sp_program s) /\ var_name d = name;
  spl_traits : forall name, is_Some (trait_vars s !! name) -> is_Some (sp_globals s !! name);
  spl_vars : forall v, v ∈ vs -> provides (sp_program s) v
}.

Lemma clone_function_info f c : clone_function f = Ok c -> function_info c = function_info f.
Proof.
  destruct f as [info ps b]. cbn. intros H. apply obind_Ok in H as (ps' & _ & H). apply obind_Ok in H as (b' & _ & H).
  by injection H as <-.
Qed.

Lemma clone_var_name d c : clone_var d = Ok c -> var_name c = var_name d /\ var_type c = var_type d.
Proof.
  destruct d as [info i g st]. cbn. intros H. apply obind_Ok in H as (? & _ & H). apply obind_Ok in H as (? & _ & H).
  apply obind_Ok in H as (? & _ & H). injection H as <-. by destruct info.
Qed.

Lemma clone_signal_name d c : clone_signal d = Ok c -> sg_name c = sg_name d.
Proof. unfold clone_signal. intros H. apply obind_Ok in H as (? & _ & H). by injection H as <-. Qed.

Lemma clone_enum_name d c : clone_enum d = Ok c -> en_name c = en_name d.
Proof.
  unfold clone_enum. intros H. apply obind_Ok in H as (? & _ & H). apply obind_Ok in H as (? & _ & H).
  by injection H as <-.
Qed.

Lemma data_names_global p d : data_names (set_globals (globals p ++ [d]) p) ≡ₚ var_name d :: data_names p.
Proof. unfold data_names. cbn. rewrite map_app, <- app_assoc. symmetry. apply Permutation_middle. Qed.

Lemma data_names_signal p d : data_names (set_signals (signals p ++ [d]) p) ≡ₚ sg_name d :: data_names p.
Proof. unfold data_names. cbn. rewrite map_app, app_assoc. symmetry. apply Permutation_cons_append. Qed.

Lemma enum_names_snoc l d : enum_names (l ++ [d]) = enum_names l ++ (if blank (en_name d) then [] else [en_name d]).
Proof. unfold enum_names. rewrite map_app, List.filter_app. cbn. by destruct (blank _). Qed.

(** A name the members do not have joins the distinct ones. *)
Lemma fresh_name (l l' : list string) (known : gset string) name :
  l' ≡ₚ name :: l -> name ∉ known -> NoDup l -> (forall x, x ∈ l -> x ∈ known) ->
  NoDup l' /\ forall x, x ∈ l' -> x ∈ {[name]} ∪ known.
Proof.
  intros E Hn Hd Hk. split; [rewrite E; apply NoDup_cons; auto|]. intros x Hx. rewrite E in Hx.
  apply elem_of_cons in Hx as [->|Hx]; [set_solver|].
  apply Hk in Hx. set_solver.
Qed.

Lemma same_type_refl t : same_type t t = true.
Proof. apply String.eqb_refl. Qed.

Section Script.
Context (originals : gset string) (base : list FunctionDecl) (own_enums : list EnumDecl).

Abbreviation Spliced := (Spliced originals base own_enums).

(** Another variable or constant under a fresh name. *)
Lemma spliced_global ms vs s d (s' := on_program (fun p => set_globals (globals p ++ [d]) p) s) known traits_ :
  Spliced ms vs s -> var_name d ∉ member_names s ->
  (known = sp_globals s /\ traits_ = trait_vars s \/
   exists t, known = <[var_name d := d]> (sp_globals s) /\ traits_ = <[var_name d := t]> (trait_vars s)) ->
  Spliced ms vs (mkSplice (sp_program s') known (concrete_methods s) traits_ ({[var_name d]} ∪ member_names s)).
Proof.
  intros [H1 H2 H3 H4 H6 H8 H7] Hd Hk. split; cbn; try done.
  - destruct H4 as (added & E & Hnd & Hm). exists added. split; [done|].
    apply (fresh_name (all_names (sp_program s) added)); [|done|done|done]. apply (Permutation_app_tail (enum_names added) (data_names_global (sp_program s) d)).
  - intros name x Hx. assert (Hcase : sp_globals s !! name = Some x \/ (name = var_name d /\ x = d)).
    { destruct Hk as [[-> _]|[t [-> _]]]; [by left|]. apply lookup_insert_Some in Hx as [[<- <-]|[_ Hx]]; [by right|by left]. }
    destruct Hcase as [Hx'|[-> ->]].
    + apply H6 in Hx' as [? ?]. split; [|done]. apply elem_of_app. by left.
    + split; [|done]. apply elem_of_app. right. by left.
  - intros name. destruct Hk as [[-> ->]|[t [-> ->]]]; [apply H8|]. destruct (decide (var_name d = name)) as [->|Hn].
    + intros _. rewrite lookup_insert_eq. by eexists.
    + rewrite !lookup_insert_ne by done. apply H8.
  - intros v Hv. destruct (H7 v Hv) as (x & Hx & ? & ?). exists x. split_and!; [|done|done]. cbn. apply elem_of_app. by left.
Qed.

Lemma splice_constant_spliced ms vs t s source s' :
  Spliced ms vs s -> splice_constant t s source = Ok s' -> Spliced ms vs s'.
Proof.
  intros Hs. unfold splice_constant. destruct (decide _) as [|Hn]; [done|]. intros H. apply obind_Ok in H as (value & _ & H).
  injection H as <-. apply (spliced_global ms vs s (trait_constant_var t source value)); [done|done|left; by split].
Qed.

Lemma spliced_provided ms vs s v : Spliced ms vs s -> provides (sp_program s) v -> Spliced ms (vs ++ [v]) s.
Proof.
  intros [H1 H2 H3 H4 H6 H8 H7] Hv. split; try done. intros x [Hx|Hx%list_elem_of_singleton]%elem_of_app; [by apply H7|by subst].
Qed.

Lemma splice_var_spliced ms vs t s source s' :
  Spliced ms vs s -> splice_var t s source = Ok s' -> Spliced ms (vs ++ [source]) s'.
Proof.
  intros Hs. unfold splice_var. destruct (sp_globals s !! var_name source) as [d|] eqn:E.
  - destruct (_ || _) eqn:Eb; [done|]. intros [= <-]. apply orb_false_iff in Eb as [_ Eb%negb_false_iff].
    apply spliced_provided; [done|]. apply (spl_globals _ _ _ _ _ _ Hs) in E as [? ?]. by exists d.
  - destruct (trait_vars s !! var_name source) as [prior|] eqn:Ep.
    { destruct (spl_traits _ _ _ _ _ _ Hs (var_name source)) as [? H]; [by eexists|]. by rewrite E in H. }
   
    destruct (decide _) as [|Hn]; [done|]. intros H. apply obind_Ok in H as (copy & Hc & H). injection H as <-.
    apply clone_var_name in Hc as [Hname Htype]. rewrite <- Hname in *. apply spliced_provided.
    + apply (spliced_global ms vs s copy); [done|done|right; by exists t].
    + exists copy. rewrite Htype, same_type_refl. split_and!; [|by rewrite Hname|done]. cbn. apply elem_of_app. right. by left.
Qed.

Lemma splice_enum_spliced ms vs t s source s' : Spliced ms vs s -> splice_enum t s source = Ok s' -> Spliced ms vs s'.
Proof.
  intros [H1 H2 H3 H4 H6 H8 H7]. unfold splice_enum. destruct (_ && _) eqn:Ec; [done|]. intros H.
  apply obind_Ok in H as (copy & Hc%clone_enum_name & H). injection H as <-.
  destruct H4 as (added & E & Hnd & Hm). rewrite <- Hc in *.
  assert (Hadd : enums (sp_program s) ++ [copy] = own_enums ++ added ++ [copy]) by (by rewrite E, app_assoc).
  destruct (blank (en_name copy)) eqn:Eb; split; cbn; try done; exists (added ++ [copy]); (split; [done|]);
    unfold all_names; rewrite enum_names_snoc, Eb; [by rewrite app_nil_r|].
  apply andb_false_iff in Ec as [Ec|Ec]; [done|]. rewrite app_assoc.
  apply (fresh_name (all_names (sp_program s) added)); [|by apply bool_decide_eq_false in Ec|done|done].
  symmetry. apply Permutation_cons_append.
Qed.

Lemma splice_signal_spliced ms vs t s source s' : Spliced ms vs s -> splice_signal t s source = Ok s' -> Spliced ms vs s'.
Proof.
  intros [H1 H2 H3 H4 H6 H8 H7]. unfold splice_signal. destruct (decide _) as [|Hn]; [done|]. intros H.
  apply obind_Ok in H as (copy & Hc%clone_signal_name & H). injection H as <-. split; cbn; try done.
  destruct H4 as (added & E & Hnd & Hm). exists added. split; [done|]. rewrite <- Hc in *.
  apply (fresh_name (all_names (sp_program s) added)); [|done|done|done]. apply (Permutation_app_tail (enum_names added) (data_names_signal (sp_program s) copy)).
Qed.

Lemma filter_snoc {A} (f : A -> bool) l x : List.filter f (l ++ [x]) = List.filter f l ++ (if f x then [x] else []).
Proof. rewrite List.filter_app. cbn. by destruct (f x). Qed.

Lemma method_names_snoc l x : method_names (l ++ [x]) = method_names l ++ [method_name x.2].
Proof. apply map_app. Qed.

(** A copied method. *)
Lemma spliced_method ms vs s t source copy :
  Spliced ms vs s -> concrete (t, source) = true -> copied originals (t, source) copy ->
  (method_name source ∉ originals -> concrete_methods s !! method_name source = None) ->
  Spliced (ms ++ [(t, source)]) vs (add_method copy (method_name source) t s).
Proof.
  intros [H1 H2 H3 H4 H6 H8 H7] Hcon Hc Hn. split; cbn; try done.
  - destruct H1 as (copies & E & Hall). exists (copies ++ [copy]). rewrite E, <- app_assoc. split; [done|].
    rewrite filter_snoc, Hcon. apply Forall2_app; [done|]. by repeat constructor.
  - intros name. rewrite filter_snoc, Hcon, method_names_snoc, elem_of_app, list_elem_of_singleton, <- H2. cbn.
    destruct (decide (method_name source = name)) as [->|Hne].
    + rewrite lookup_insert_eq. split; [by right|by eexists].
    + rewrite lookup_insert_ne by done. split; [by left|]. by intros [?|?].
  - rewrite filter_snoc, Hcon, filter_snoc. unfold not_in at 2. cbn [snd]. case_bool_decide as Hin; cbn [negb]; [by rewrite app_nil_r|].
    rewrite method_names_snoc. apply NoDup_app. split_and!; [done| |apply NoDup_singleton].
    intros x Hx Hx'%list_elem_of_singleton. cbn in Hx'. subst. specialize (Hn Hin).
    assert (Hs : is_Some (concrete_methods s !! method_name source)); [|rewrite Hn in Hs; by destruct Hs].
    apply H2. unfold method_names in *. apply list_elem_of_In, in_map_iff in Hx as (tm & <- & Htm).
    apply list_elem_of_In, in_map_iff. exists tm. split; [done|]. by apply List.filter_In in Htm as [? _].
Qed.

Lemma splice_method_spliced ms vs t s source s' :
  Spliced ms vs s -> splice_method originals t s source = Ok s' -> Spliced (ms ++ [(t, source)]) vs s'.
Proof.
  intros Hs. unfold splice_method. destruct (f_is_abstract _) eqn:Ea.
  { intros [= <-]. destruct Hs as [H1 H2 H3 H4 H6 H8 H7].
    assert (Hf : List.filter concrete (ms ++ [(t, source)]) = List.filter concrete ms).
    { rewrite filter_snoc. unfold concrete at 2. cbn. by rewrite Ea, app_nil_r. }
    by split; rewrite ?Hf. }
  intros H. apply obind_Ok in H as (copy & Hc & H). destruct (decide _) as [Hin|Hnin].
  - injection H as <-. apply spliced_method; [done|by unfold concrete; cbn; rewrite Ea|by constructor|done].
  - destruct (concrete_methods s !! method_name source) eqn:E; [done|]. injection H as <-.
    apply spliced_method; [done|by unfold concrete; cbn; rewrite Ea|by constructor|done].
Qed.

Definition methods_of (traits : list TraitDecl) : list (TraitDecl * FunctionDecl) :=
  flat_map (fun t => map (pair t) (t_methods t)) traits.

Lemma splice_trait_spliced traits t s s' :
  Spliced (methods_of traits) (flat_map t_vars traits) s -> splice_trait originals s t = Ok s' ->
  Spliced (methods_of (traits ++ [t])) (flat_map t_vars (traits ++ [t])) s'.
Proof.
  intros Hs. unfold splice_trait, methods_of. rewrite !flat_map_app. cbn. rewrite !app_nil_r. fold (methods_of traits).
  generalize (methods_of traits) (flat_map t_vars traits) Hs. clear Hs. intros ms vs Hs H.
  apply obind_Ok in H as (s1 & H1 & H). apply obind_Ok in H as (s2 & H2 & H). apply obind_Ok in H as (s3 & H3 & H).
  apply obind_Ok in H as (s4 & H4 & H).
  assert (G1 : Spliced ms vs s1).
  { refine (foldM_ind (fun _ s => Spliced ms vs s) _ _ _ _ Hs _ H1). intros _ a b b' _ Hb. by apply splice_constant_spliced. }
  assert (G2 : Spliced ms (vs ++ t_vars t) s2).
  { refine (foldM_ind (fun d s => Spliced ms (vs ++ d) s) _ _ _ _ _ _ H2); [by rewrite app_nil_r|].
    intros d a b b' _ Hb Ha. rewrite app_assoc. by eapply splice_var_spliced. }
  assert (G3 : Spliced ms (vs ++ t_vars t) s3).
  { refine (foldM_ind (fun _ s => Spliced ms (vs ++ t_vars t) s) _ _ _ _ G2 _ H3). intros _ a b b' _ Hb. by apply splice_enum_spliced. }
  assert (G4 : Spliced ms (vs ++ t_vars t) s4).
  { refine (foldM_ind (fun _ s => Spliced ms (vs ++ t_vars t) s) _ _ _ _ G3 _ H4). intros _ a b b' _ Hb. by apply splice_signal_spliced. }
  refine (foldM_ind (fun d s => Spliced (ms ++ map (pair t) d) (vs ++ t_vars t) s) _ _ _ _ _ _ H); [by rewrite app_nil_r|].
  intros d a b b' _ Hb Ha. rewrite map_app, app_assoc. by eapply splice_method_spliced.
Qed.

End Script.

Definition by_name (l : list VarDecl) : gmap string VarDecl := foldl (fun m d => <[var_name d := d]> m) ∅ l.

Lemma by_name_some l name d : by_name l !! name = Some d -> d ∈ l /\ var_name d = name.
Proof.
  induction l as [|x l IH] using rev_ind; [done|]. unfold by_name. rewrite foldl_app. cbn.
  intros [[<- <-]|[_ H]]%lookup_insert_Some; rewrite elem_of_app; [split; [right; by left|done]|].
  apply IH in H as [? ?]. split; [by left|done].
Qed.

Lemma by_name_dom l name : name ∈ dom (by_name l) <-> name ∈ map var_name l.
Proof.
  induction l as [|x l IH] using rev_ind; [split; [by intros ?%elem_of_empty|by intros ?%not_elem_of_nil]|].
  unfold by_name. rewrite foldl_app, map_app, elem_of_app. cbn. rewrite dom_insert, elem_of_union, elem_of_singleton.
  fold (by_name l). rewrite IH, list_elem_of_singleton. naive_solver.
Qed.

(** C29: a script that takes its traits has, besides its own functions in their old
    places, a copy of every concrete method of every trait of its order: under its
    own name, which no other trait's method has, or, where the script has a
    function of that name, displaced.  Every trait variable is there with its type.
    The script keeps its enums before those of the traits, and where its variables,
    constants and signals were distinct, no two of the variables, constants,
    signals and added enums have the same name.  Functions and the script's own
    enums are not compared with them ([variable_beside_function]). *)
Theorem splice_script_members p r p' :
  NoDup (data_names p) -> splice_script p r = Ok p' ->
  exists traits copies added,
    let originals := original_methods (program_functions p) in
    let methods := List.filter concrete (methods_of traits) in
    linearize r (program_uses p) (class_name_line p) (class_name_column p) = Ok traits /\
    program_functions p' = program_functions p ++ copies /\ Forall2 (copied originals) methods copies /\
    NoDup (method_names (List.filter (not_in originals) methods)) /\
    (forall v, v ∈ flat_map t_vars traits -> provides p' v) /\
    enums p' = enums p ++ added /\ NoDup (all_names p' added).
Proof.
  intros Hnd H. unfold splice_script in H. apply obind_Ok in H as (traits & Hl & H). apply obind_Ok in H as (s & Hs & H).
  injection H as <-. set (originals := original_methods (program_functions p)).
  assert (Hfinal : Spliced originals (program_functions p) (enums p) (methods_of traits) (flat_map t_vars traits) s).
  { refine (foldM_ind (fun d s => Spliced originals (program_functions p) (enums p) (methods_of d) (flat_map t_vars d) s) _ _ _ _ _ _ Hs).
    - split; cbn; fold (by_name (globals p)).
      + exists []. by rewrite app_nil_r.
      + intros name. rewrite lookup_empty. split; [by intros [? ?]|by intros ?%not_elem_of_nil].
      + constructor.
      + exists []. unfold all_names. rewrite !app_nil_r. split; [done|]. split; [exact Hnd|].
        intros name [Hn|Hn]%elem_of_app; apply elem_of_union.
        * left. by apply by_name_dom.
        * right. by apply elem_of_list_to_set.
      + apply by_name_some.
      + intros name [? H]. by rewrite lookup_empty in H.
      + by intros v ?%not_elem_of_nil.
    - intros d t b b' _ Hb Ht. by eapply splice_trait_spliced. }
  destruct Hfinal as [(copies & E & Hall) _ Hdist (added & Ee & Hdata & _) _ _ Hvars]. by exists traits, copies, added.
Qed.

(** ** Sources *)

Definition program_of (source : list string) : Program :=
  match (ParserSamples.compile (ParserSamples.lines source) false).2 with Ok p => p | Throw _ => no_program end.

Definition user_of_traits : Program := program_of
  ["uses Armor"; "trait Armor uses Health:"; "  func hit():"; "    pass"; "  func heal():"; "    hp += 1";
   "trait Health:"; "  var hp: int = 3"; "func hit():"; "  pass"].

Lemma splice_script_members_witness :
  exists r p',
    splice_script user_of_traits r = Ok p' /\
    exists traits copies added,
      let originals := original_methods (program_functions user_of_traits) in
      let methods := List.filter concrete (methods_of traits) in
      linearize r (program_uses user_of_traits) (class_name_line user_of_traits) (class_name_column user_of_traits) = Ok traits /\
      program_functions p' = program_functions user_of_traits ++ copies /\ Forall2 (copied originals) methods copies /\
      NoDup (method_names (List.filter (not_in originals) methods)) /\
      (forall v, v ∈ flat_map t_vars traits -> provides p' v) /\
      enums p' = enums user_of_traits ++ added /\ NoDup (all_names p' added).
Proof.
  destruct (splice_script user_of_traits (declared (Ast.traits user_of_traits))) as [p'|e] eqn:E; [|by vm_compute in E].
  exists (declared (Ast.traits user_of_traits)), p'. split; [done|].
  apply (splice_script_members user_of_traits (declared (Ast.traits user_of_traits)) p'); [|done].
  apply (bool_decide_unpack _). by vm_compute.
Defined.

(** The names after [apply_traits]: the script's function stays, the trait's own is
    displaced. *)
Example armor_applied :
  match apply_traits user_of_traits with
  | Ok p => map method_name (program_functions p) = ["hit"; "@trait.Armor.hit"; "heal"] /\ map var_name (globals p) = ["hp"]
  | Throw _ => False
  end.
Proof. by vm_compute. Qed.

(** The variable of a trait is put beside a function of the same name. *)
Example variable_beside_function :
  match apply_traits (program_of ["uses A"; "trait A:"; "  var hp: int"; "func hp():"; "  pass"]) with
  | Ok p => map method_name (program_functions p) = ["hp"] /\ map var_name (globals p) = ["hp"]
  | Throw _ => False
  end.
Proof. by vm_compute. Qed.

(** Two traits that disagree on a variable's type: the map of the globals is asked
    first and holds the first trait's variable, so the script is blamed, and the
    message for two traits is never given. *)
Example two_traits_blame_the_class :
  apply_traits (program_of ["uses A, B"; "trait A:"; "  var x: int"; "trait B:"; "  var x: String"])
  = Throw (LocatedException SEMANTIC_ERROR "Class 'this script' and trait 'B' both declare 'x'" 5 8).
Proof. by vm_compute. Qed.

End TraitsFacts.
