(* ===== verification/Chain.v ===== *)
(** * Inheritance chains

    Models chain.cpp: the scripts of an [extends] chain, root first, are folded into
    one program.  A function that a later script declares again stays, displaced
    under a symbol of its own.

    [merge_chain_dispatch]: a name means the declaration nearest to the leaf, and
    [super] in a link the one nearest below. *)

From stdpp Require Import pretty.
From S2P Require Import Prelude.
From S2P Require Import Double.
From S2P Require Import Ast.
From S2P Require Import ParserSamples.

Module Chain.
Import Ast.

Record ChainLink := mkLink {
  link_name : string;
  link_path : string;
  link_program : Program
}.

Definition MAX_CHAIN_DEPTH : nat := 16.

Definition chain_error {A} (message : string) (line column : Z) : outcome A :=
  Throw (LocatedException SEMANTIC_ERROR message line column).

Record Declared := mkDeclared { d_link : nat; d_what : string }.

Definition link_label (links : list ChainLink) (link : nat) : string :=
  match links !! link with
  | Some entry =>
      if negb (blank (link_name entry)) then "'" +:+ link_name entry +:+ "'"
      else if negb (blank (link_path entry)) then "'" +:+ link_path entry +:+ "'"
      else "this script"
  | None => "this script"
  end.

Definition displaced_symbol (link : nat) (name : string) : string := "@super" +:+ pretty link +:+ "." +:+ name.

Definition reject_redeclaration (links : list ChainLink) (seen : gmap string Declared) (what name : string) (link : nat)
    (line column : Z) : outcome (gmap string Declared) :=
  match seen !! name with
  | Some before =>
      chain_error (what +:+ " '" +:+ name +:+ "' is already declared in " +:+ link_label links (d_link before)
        +:+ " as a " +:+ d_what before) line column
  | None => Ok (<[name := mkDeclared link what]> seen)
  end.

(** ** Assignment to [chain_link] and [chain_name] *)

Definition set_info (f : FunctionInfo -> FunctionInfo) (d : FunctionDecl) : FunctionDecl :=
  let '(mkFunction info parameters body) := d in mkFunction (f info) parameters body.

Definition set_f_chain_link (x : Z) (s : FunctionInfo) : FunctionInfo :=
  mkFunctionInfo (f_name s) (f_return_type s) (f_line s) (f_column s) (f_doc_comment s) (f_is_coroutine s)
    (f_is_static s) (f_is_abstract s) (f_requires_host_hook s) (f_is_test s) (f_trait_origin s) (f_rpc_config s) x
    (f_chain_name s).
Definition set_f_chain_name (x : string) (s : FunctionInfo) : FunctionInfo :=
  mkFunctionInfo (f_name s) (f_return_type s) (f_line s) (f_column s) (f_doc_comment s) (f_is_coroutine s)
    (f_is_static s) (f_is_abstract s) (f_requires_host_hook s) (f_is_test s) (f_trait_origin s) (f_rpc_config s)
    (f_chain_link s) x.
Definition set_v_chain_link (x : Z) (s : VarInfo) : VarInfo :=
  mkVarInfo (v_line s) (v_column s) (v_name s) (v_type_hint s) (v_is_const s) (v_is_property s) (v_is_static s)
    (v_is_onready s) (v_inferred s) (v_trait_origin s) (v_doc_comment s) x (v_export_hint s) (v_export_section s)
    (v_setter_name s) (v_getter_name s).

Definition function_at (link : nat) (d : FunctionDecl) : FunctionDecl := set_info (set_f_chain_link (Z.of_nat link)) d.

Definition global_at (link : nat) (d : VarDecl) : VarDecl :=
  let '(mkVarDecl info init setter getter) := d in
  mkVarDecl (set_v_chain_link (Z.of_nat link) info) init (option_map (function_at link) setter)
    (option_map (function_at link) getter).

Definition struct_at (link : nat) (d : StructDecl) : StructDecl := set_st_methods (map (function_at link) (st_methods d)) d.

(** ** Members and types *)

Record Merge := mkMerge {
  merged : Program;
  members : gmap string Declared;
  types : gmap string Declared
}.

Section Links.
Context (links : list ChainLink).

Definition merge_global (link : nat) (s : Merge) (global : VarDecl) : outcome Merge :=
  let info := var_decl_info global in
  let? members := reject_redeclaration links (members s) (if v_is_const info then "Constant" else "Variable") (v_name info)
    link (v_line info) (v_column info) in
  Ok (mkMerge (set_globals (globals (merged s) ++ [global_at link global]) (merged s)) members (types s)).

Definition merge_signal (link : nat) (s : Merge) (signal : SignalDecl) : outcome Merge :=
  let? members := reject_redeclaration links (members s) "Signal" (sg_name signal) link (sg_line signal) (sg_column signal) in
  Ok (mkMerge (set_signals (signals (merged s) ++ [signal]) (merged s)) members (types s)).

Definition merge_struct (link : nat) (s : Merge) (decl : StructDecl) : outcome Merge :=
  let? types := reject_redeclaration links (types s) (if st_is_class decl then "Class" else "Struct") (st_name decl) link
    (st_line decl) (st_column decl) in
  Ok (mkMerge (set_structs (structs (merged s) ++ [struct_at link decl]) (merged s)) (members s) types).

Definition merge_trait (link : nat) (s : Merge) (decl : TraitDecl) : outcome Merge :=
  let? types := reject_redeclaration links (types s) "Trait" (t_name decl) link (t_line decl) (t_column decl) in
  Ok (mkMerge (set_traits (traits (merged s) ++ [decl]) (merged s)) (members s) types).

Definition merge_enum (link : nat) (s : Merge) (decl : EnumDecl) : outcome Merge :=
  let? types :=
    (if negb (blank (en_name decl))
     then reject_redeclaration links (types s) "Enum" (en_name decl) link (en_line decl) (en_column decl)
     else Ok (types s)) in
  Ok (mkMerge (set_enums (enums (merged s) ++ [decl]) (merged s)) (members s) types).

Definition merge_members (s : Merge) (entry : nat * ChainLink) : outcome Merge :=
  let link := entry.1 in
  let source := link_program entry.2 in
  let? s := foldM (merge_global link) (globals source) s in
  let? s := foldM (merge_signal link) (signals source) s in
  let? s := foldM (merge_struct link) (structs source) s in
  let? s := foldM (merge_trait link) (traits source) s in
  foldM (merge_enum link) (enums source) s.

(** ** Functions *)

Record Functions := mkFunctions {
  merged_functions : list FunctionDecl;
  origins_of : gmap string (list Origin);
  visible : gmap string nat
}.

(** [previous.chain_name = name; previous.name = symbol;] *)
Definition displaced (name symbol : string) (d : FunctionDecl) : FunctionDecl :=
  set_info (fun info => set_f_name symbol (set_f_chain_name name info)) d.

(** [displaced.symbol = symbol] of the last origin. *)
Definition rename_last (symbol : string) (origins : list Origin) (last : Origin) : list Origin :=
  removelast origins ++ [mkOrigin (o_link last) symbol].

Definition merge_function (link : nat) (st : Functions * gset string) (decl : FunctionDecl) : outcome (Functions * gset string) :=
  let '(s, declared_here) := st in
  let name := method_name decl in
  if decide (name ∈ declared_here)
  then chain_error ("Function '" +:+ name +:+ "' is declared twice in " +:+ link_label links link)
         (f_line (function_info decl)) (f_column (function_info decl)) else
  let decl := function_at link decl in
  let origins := default [] (origins_of s !! name) in
  let? renamed :=
    match last origins with
    | None => Ok (merged_functions s, origins)
    | Some back =>
        let symbol := displaced_symbol (Z.to_nat (o_link back)) name in
        match visible s !! name with
        | None => Throw out_of_range
        | Some index => Ok (alter (displaced name symbol) index (merged_functions s), rename_last symbol origins back)
        end
    end in
  let '(functions, origins) := renamed in
  Ok (mkFunctions (functions ++ [decl]) (<[name := origins ++ [mkOrigin (Z.of_nat link) name]]> (origins_of s))
        (<[name := length functions]> (visible s)), {[name]} ∪ declared_here).

Definition merge_functions (s : Functions) (entry : nat * ChainLink) : outcome Functions :=
  let? st := foldM (merge_function entry.1) (program_functions (link_program entry.2)) (s, ∅) in
  Ok st.1.

End Links.

(** ** The chain *)

(** The first path that comes a second time. *)
Fixpoint repeated_path (seen : gset string) (links : list ChainLink) : option string :=
  match links with
  | [] => None
  | link :: links =>
      if blank (link_path link) then repeated_path seen links
      else if decide (link_path link ∈ seen) then Some (link_path link)
      else repeated_path ({[link_path link]} ∪ seen) links
  end.

(** Each name once, in the order of its first occurrence. *)
Fixpoint once (seen : gset string) (l : list string) : list string :=
  match l with
  | [] => []
  | x :: l => if decide (x ∈ seen) then once seen l else x :: once ({[x]} ∪ seen) l
  end.

Definition chain_class_name (link : ChainLink) : string :=
  if blank (class_name (link_program link)) then link_name link else class_name (link_program link).

(** What the merged program has of its root, its leaf and the chain as a whole. *)
Definition merged_heads (links : list ChainLink) (root script : Program) : Program :=
  mkProgram (existsb (fun link => is_tool (link_program link)) links)
    (class_name script) (class_name_line script) (class_name_column script)
    (base_class script) (base_is_path script) (base_class_line script) (base_class_column script)
    (base_class root) (base_is_path root)
    (once ∅ (flat_map (fun link => program_uses (link_program link)) links))
    "" 0 0 (mkChain (map chain_class_name links) (map link_path links) ∅) [] [] [] [] [] [].

Definition indexed (links : list ChainLink) : list (nat * ChainLink) := imap pair links.

Definition merge_chain (links : list ChainLink) : outcome Program :=
  match links, last links with
  | [], _ | _, None => Ok no_program
  | [link], _ => Ok (link_program link)
  | root :: _, Some leaf =>
      if (MAX_CHAIN_DEPTH <? length links)%nat then
        chain_error ("The 'extends' chain is " +:+ pretty (length links) +:+ " scripts deep, and at most "
          +:+ pretty MAX_CHAIN_DEPTH +:+ " are merged")
          (base_class_line (link_program leaf)) (base_class_column (link_program leaf))
      else
      match repeated_path ∅ links with
      | Some path => chain_error ("'" +:+ path +:+ "' appears twice in the 'extends' chain") 0 0
      | None =>
          let heads := merged_heads links (link_program root) (link_program leaf) in
          let? s := foldM (merge_members links) (indexed links) (mkMerge heads ∅ ∅) in
          let? f := foldM (merge_functions links) (indexed links) (mkFunctions [] ∅ ∅) in
          let p := merged s in
          Ok (set_program_functions (merged_functions f)
                (set_chain (mkChain (class_names (chain p)) (paths (chain p)) (origins_of f)) p))
      end
  end.

End Chain.

Module ChainFacts.
Import Ast.
Import Chain.

(** ** The closed form *)

Abbreviation Decls := (list (nat * FunctionDecl)).

Definition decl_name (x : nat * FunctionDecl) : string := method_name x.2.

(** The declarations of the links, root first, with the number of their link. *)
Definition decls_of (entry : nat * ChainLink) : Decls := map (pair entry.1) (program_functions (link_program entry.2)).
Definition decls (links : list ChainLink) : Decls := flat_map decls_of (indexed links).

(** A declaration and the declarations after it. *)
Definition symbol (x : nat * FunctionDecl) (rest : Decls) : string :=
  if decide (decl_name x ∈ map decl_name rest) then displaced_symbol x.1 (decl_name x) else decl_name x.

Definition resolved (x : nat * FunctionDecl) (rest : Decls) : FunctionDecl :=
  if decide (decl_name x ∈ map decl_name rest)
  then displaced (decl_name x) (displaced_symbol x.1 (decl_name x)) (function_at x.1 x.2)
  else function_at x.1 x.2.

Fixpoint resolve (l : Decls) : list FunctionDecl :=
  match l with [] => [] | x :: rest => resolved x rest :: resolve rest end.

Fixpoint origins (name : string) (l : Decls) : list Origin :=
  match l with
  | [] => []
  | x :: rest =>
      (if decide (decl_name x = name) then [mkOrigin (Z.of_nat x.1) (symbol x rest)] else []) ++ origins name rest
  end.

Lemma length_resolve l : length (resolve l) = length l.
Proof. induction l as [|x l IH]; [done|]. cbn. by rewrite IH. Qed.

(** Names that [l] does not have. *)
Lemma origins_none name l : name ∉ map decl_name l <-> origins name l = [].
Proof.
  induction l as [|x l IH]; [split; [done|by intros _ ?%not_elem_of_nil]|]. cbn. rewrite not_elem_of_cons, IH.
  destruct (decide _) as [->|Hn]; [split; [by intros []|done]|]. cbn. naive_solver.
Qed.

(** One more declaration: the last one of its name is displaced. *)
Definition is_last (name : string) (l : Decls) (i : nat) : Prop :=
  exists x, l !! i = Some x /\ decl_name x = name /\ name ∉ map decl_name (drop (S i) l).

Lemma names_snoc l x : map decl_name (l ++ [x]) = map decl_name l ++ [decl_name x].
Proof. apply map_app. Qed.

Lemma resolve_snoc_new l x : decl_name x ∉ map decl_name l -> resolve (l ++ [x]) = resolve l ++ [function_at x.1 x.2].
Proof.
  induction l as [|y l IH]; [done|]. cbn. rewrite not_elem_of_cons. intros [Hne Hn]. rewrite IH by done. f_equal.
  unfold resolved. rewrite names_snoc. destruct (decide (decl_name y ∈ map decl_name l)) as [H|H].
  - rewrite decide_True; [done|]. apply elem_of_app. by left.
  - rewrite decide_False; [done|]. rewrite elem_of_app, list_elem_of_singleton. naive_solver.
Qed.

Lemma resolve_snoc_old l x i y :
  l !! i = Some y -> decl_name y = decl_name x -> decl_name x ∉ map decl_name (drop (S i) l) ->
  resolve (l ++ [x]) =
    alter (displaced (decl_name x) (displaced_symbol y.1 (decl_name x))) i (resolve l) ++ [function_at x.1 x.2].
Proof.
  revert i. induction l as [|z l IH]; intros i Hi Hy Hl; [done|]. destruct i as [|i]; cbn in *.
  - injection Hi as ->. rewrite drop_0 in Hl. rewrite resolve_snoc_new by done. f_equal. unfold resolved.
    rewrite names_snoc, Hy, decide_True by (apply elem_of_app; right; by left). by rewrite decide_False by done.
  - rewrite (IH i) by done. cbn. f_equal. unfold resolved. rewrite names_snoc.
    destruct (decide (decl_name z ∈ map decl_name l)) as [H|H].
    + rewrite decide_True; [done|]. apply elem_of_app. by left.
    + rewrite decide_False; [done|]. rewrite elem_of_app, list_elem_of_singleton. intros [|E]; [done|]. apply H.
      rewrite E, <- Hy. apply list_elem_of_In, in_map, list_elem_of_In. by eapply list_elem_of_lookup_2.
Qed.

Lemma origins_snoc_other name l x : decl_name x <> name -> origins name (l ++ [x]) = origins name l.
Proof.
  intros Hne. induction l as [|y l IH]; cbn; [by rewrite decide_False|]. rewrite IH. f_equal.
  destruct (decide _) as [<-|]; [|done]. unfold symbol. rewrite names_snoc. do 2 f_equal.
  destruct (decide (decl_name y ∈ map decl_name l)) as [H|H].
  - rewrite decide_True; [done|]. apply elem_of_app. by left.
  - rewrite decide_False; [done|]. rewrite elem_of_app, list_elem_of_singleton. naive_solver.
Qed.

Lemma origins_snoc_new l x : decl_name x ∉ map decl_name l ->
  origins (decl_name x) (l ++ [x]) = [mkOrigin (Z.of_nat x.1) (decl_name x)].
Proof.
  induction l as [|y l IH]; intros Hn; cbn in *.
  - rewrite decide_True by done. unfold symbol. cbn. by rewrite decide_False by apply not_elem_of_nil.
  - apply not_elem_of_cons in Hn as [Hne Hn]. rewrite decide_False by done. by apply IH.
Qed.

Lemma origins_snoc_old l x i y :
  l !! i = Some y -> decl_name y = decl_name x -> decl_name x ∉ map decl_name (drop (S i) l) ->
  exists before, origins (decl_name x) l = before ++ [mkOrigin (Z.of_nat y.1) (decl_name x)] /\
    origins (decl_name x) (l ++ [x]) =
      before ++ [mkOrigin (Z.of_nat y.1) (displaced_symbol y.1 (decl_name x)); mkOrigin (Z.of_nat x.1) (decl_name x)].
Proof.
  revert i. induction l as [|z l IH]; intros i Hi Hy Hl; [done|]. destruct i as [|i]; cbn in *.
  - injection Hi as ->. rewrite drop_0 in Hl. exists []. rewrite !decide_True by done.
    rewrite (proj1 (origins_none _ _) Hl), origins_snoc_new by done. unfold symbol. rewrite names_snoc, Hy.
    rewrite decide_False by done. by rewrite decide_True by (apply elem_of_app; right; by left).
  - destruct (IH i Hi Hy Hl) as (before & E1 & E2). rewrite E1, E2.
    destruct (decide (decl_name z = decl_name x)) as [Ez|Ez]; [|by exists before].
    assert (Hin : decl_name x ∈ map decl_name l).
    { rewrite <- Hy. apply list_elem_of_In, in_map, list_elem_of_In. by eapply list_elem_of_lookup_2. }
    exists (mkOrigin (Z.of_nat z.1) (displaced_symbol z.1 (decl_name x)) :: before). unfold symbol.
    rewrite names_snoc, Ez, decide_True by done. by rewrite decide_True by (apply elem_of_app; by left).
Qed.

(** ** The loop computes it *)

Record Resolved (done : Decls) (s : Functions) : Prop := {
  res_functions : merged_functions s = resolve done;
  res_origins : forall name, default [] (origins_of s !! name) = origins name done;
  res_visible : forall name, name ∈ map decl_name done -> exists i, visible s !! name = Some i /\ is_last name done i
}.

Lemma is_last_snoc_other name l x i : decl_name x <> name -> is_last name l i -> is_last name (l ++ [x]) i.
Proof.
  intros Hne (y & Hi & Hy & Hl). exists y. pose proof (lookup_lt_Some _ _ _ Hi). split_and!; [by apply lookup_app_l_Some|done|].
  rewrite drop_app_le by lia. rewrite names_snoc, elem_of_app, list_elem_of_singleton. naive_solver.
Qed.

Lemma is_last_snoc l x : is_last (decl_name x) (l ++ [x]) (length l).
Proof.
  exists x. split_and!; [|done|].
  - rewrite lookup_app_r by done. by rewrite Nat.sub_diag.
  - rewrite drop_ge by (rewrite length_app; cbn; lia). apply not_elem_of_nil.
Qed.

Lemma merge_function_spec links done here link decl s here' s' :
  Resolved done s -> merge_function links link (s, here) decl = Ok (s', here') ->
  Resolved (done ++ [(link, decl)]) s'.
Proof.
  intros [Hf Ho Hv] H. unfold merge_function in H. destruct (decide (method_name decl ∈ here)); [done|].
  set (x := (link, decl)). change (method_name decl) with (decl_name x) in *.
  set (d := function_at link decl) in *. change d with (function_at x.1 x.2) in *.
  assert (Hlen : forall fs : list FunctionDecl, length fs = length done -> forall name, name ∈ map decl_name (done ++ [x]) ->
    exists i, <[decl_name x := length fs]> (visible s) !! name = Some i /\ is_last name (done ++ [x]) i).
  { intros fs E name Hn. destruct (decide (decl_name x = name)) as [<-|Hne].
    - exists (length fs). rewrite lookup_insert_eq, E. split; [done|apply is_last_snoc].
    - rewrite names_snoc, elem_of_app, list_elem_of_singleton in Hn. destruct Hn as [Hn|]; [|done].
      destruct (Hv name Hn) as (i & Hi & Hl). exists i. rewrite lookup_insert_ne by done. split; [done|].
      by apply is_last_snoc_other. }
  rewrite Ho in H. destruct (decide (decl_name x ∈ map decl_name done)) as [Hin|Hnin].
  - destruct (Hv _ Hin) as (i & Hi & y & Hy & Ey & Hl). destruct (origins_snoc_old done x i y Hy Ey Hl) as (before & E1 & E2).
    rewrite E1, last_snoc, Hi in H. cbn [obind] in H. injection H as <- _. split; cbn.
    + rewrite (resolve_snoc_old done x i y) by done. by rewrite Hf, Nat2Z.id.
    + intros name. destruct (decide (decl_name x = name)) as [<-|Hne].
      * rewrite lookup_insert_eq. cbn. unfold rename_last. cbn. rewrite removelast_last, Nat2Z.id, E2, <- app_assoc. done.
      * rewrite lookup_insert_ne by done. rewrite Ho. by rewrite origins_snoc_other.
    + apply Hlen. by rewrite length_alter, Hf, length_resolve.
  - rewrite (proj1 (origins_none _ _) Hnin) in H. cbn [last obind] in H. injection H as <- _. split; cbn.
    + by rewrite resolve_snoc_new, Hf.
    + intros name. destruct (decide (decl_name x = name)) as [<-|Hne].
      * rewrite lookup_insert_eq. by rewrite origins_snoc_new.
      * rewrite lookup_insert_ne by done. rewrite Ho. by rewrite origins_snoc_other.
    + apply Hlen. by rewrite Hf, length_resolve.
Qed.

Lemma merge_functions_spec links f :
  foldM (merge_functions links) (indexed links) (mkFunctions [] ∅ ∅) = Ok f -> Resolved (decls links) f.
Proof.
  intros H. refine (foldM_ind (fun d s => Resolved (flat_map decls_of d) s) _ _ _ _ _ _ H).
  { split; [done|done|by intros name ?%not_elem_of_nil]. }
  intros d entry s s' _ Hs Hm. unfold merge_functions in Hm. apply obind_Ok in Hm as ([s1 here] & Hm & [= <-]).
  rewrite flat_map_app. cbn. rewrite app_nil_r. unfold decls_of at 2.
  refine (foldM_ind (fun done st => Resolved (flat_map decls_of d ++ map (pair entry.1) done) st.1) _ _ _ _ _ _ Hm).
  { by rewrite app_nil_r. }
  intros l decl [s2 h2] [s3 h3] _ H2 H3. rewrite map_app, app_assoc. by eapply merge_function_spec.
Qed.

(** ** Dispatch *)

Lemma merge_chain_functions links p :
  (2 <= length links)%nat -> merge_chain links = Ok p ->
  program_functions p = resolve (decls links) /\
  forall name, default [] (functions (chain p) !! name) = origins name (decls links).
Proof.
  intros Hlen. unfold merge_chain. destruct links as [|root [|second rest]]; [cbn in Hlen; lia|cbn in Hlen; lia|].
  set (links := root :: second :: rest) in *. destruct (last links) as [leaf|] eqn:El.
  2:{ apply last_None in El. discriminate. }
  change (match links with [] => _ | _ => _ end) with
    (if (MAX_CHAIN_DEPTH <? length links)%nat then
        chain_error (A := Program) ("The 'extends' chain is " +:+ pretty (length links) +:+ " scripts deep, and at most "
          +:+ pretty MAX_CHAIN_DEPTH +:+ " are merged")
          (base_class_line (link_program leaf)) (base_class_column (link_program leaf))
      else
      match repeated_path ∅ links with
      | Some path => chain_error ("'" +:+ path +:+ "' appears twice in the 'extends' chain") 0 0
      | None =>
          let heads := merged_heads links (link_program root) (link_program leaf) in
          let? s := foldM (merge_members links) (indexed links) (mkMerge heads ∅ ∅) in
          let? f := foldM (merge_functions links) (indexed links) (mkFunctions [] ∅ ∅) in
          let p := merged s in
          Ok (set_program_functions (merged_functions f)
                (set_chain (mkChain (class_names (chain p)) (paths (chain p)) (origins_of f)) p))
      end).
  destruct (_ <? _)%nat; [done|]. destruct (repeated_path _ _); [done|]. intros H.
  apply obind_Ok in H as (s & _ & H). apply obind_Ok in H as (f & Hf & H). injection H as <-.
  apply merge_functions_spec in Hf as [H1 H2 _]. by split.
Qed.

Lemma resolve_lookup l k x : l !! k = Some x -> resolve l !! k = Some (resolved x (drop (S k) l)).
Proof.
  revert k. induction l as [|y l IH]; intros [|k] Hk; try done; cbn in *; [by injection Hk as ->; rewrite drop_0|by apply IH].
Qed.

Lemma resolved_name x rest : method_name (resolved x rest) = symbol x rest.
Proof. unfold resolved, symbol. destruct x as [i [info ps b]]. by destruct (decide _). Qed.

Lemma resolved_parts x rest :
  body (resolved x rest) = body x.2 /\ parameters (resolved x rest) = parameters x.2 /\
  f_chain_link (function_info (resolved x rest)) = Z.of_nat x.1.
Proof. unfold resolved. destruct x as [i [info ps b]]. by destruct (decide _). Qed.

(** The scan of the origins. *)
Definition nearest (link : Z) (found : option Origin) (o : Origin) : option Origin := if o_link o <? link then Some o else found.

Lemma nearest_above j found l name :
  (forall x, x ∈ l -> decl_name x = name -> (j <= x.1)%nat) -> foldl (nearest (Z.of_nat j)) found (origins name l) = found.
Proof.
  revert found. induction l as [|x l IH]; intros found H; [done|]. cbn. rewrite foldl_app, IH by (intros y Hy; apply H; by right).
  destruct (decide _) as [E|]; [|done]. cbn. unfold nearest. cbn. destruct (Z.ltb_spec (Z.of_nat x.1) (Z.of_nat j)); [|done].
  specialize (H x ltac:(by left) E). lia.
Qed.

Lemma nearest_found j l k x found :
  l !! k = Some x -> (x.1 < j)%nat -> (forall y, y ∈ drop (S k) l -> decl_name y = decl_name x -> (j <= y.1)%nat) ->
  foldl (nearest (Z.of_nat j)) found (origins (decl_name x) l) = Some (mkOrigin (Z.of_nat x.1) (symbol x (drop (S k) l))).
Proof.
  revert k found. induction l as [|z l IH]; intros [|k] found Hk Hj H; try done; cbn in *; rewrite foldl_app.
  - injection Hk as ->. rewrite drop_0 in *. rewrite decide_True by done. cbn. rewrite nearest_above by done. unfold nearest. cbn.
    by destruct (Z.ltb_spec (Z.of_nat x.1) (Z.of_nat j)); [|lia].
  - by rewrite (IH k).
Qed.

(** C32: a merged chain of two scripts or more has, in the order root to leaf, every
    function its scripts declare, with its body and the number of its link.  It
    keeps its name unless a later script declares the name again, and has a
    displaced symbol then; and [super] in a later link finds, of the links below,
    the nearest that declares the name, under the name its function has. *)
Theorem merge_chain_dispatch links p :
  (2 <= length links)%nat -> merge_chain links = Ok p ->
  length (program_functions p) = length (decls links) /\
  forall k i d, decls links !! k = Some (i, d) ->
    exists f, program_functions p !! k = Some f /\ body f = body d /\ parameters f = parameters d /\
      f_chain_link (function_info f) = Z.of_nat i /\
      method_name f =
        (if decide (method_name d ∈ map decl_name (drop (S k) (decls links)))
         then displaced_symbol i (method_name d) else method_name d) /\
      forall j, (i < j)%nat ->
        (forall y, y ∈ drop (S k) (decls links) -> decl_name y = method_name d -> (j <= y.1)%nat) ->
        super_of (chain p) (method_name d) (Z.of_nat j) = Some (mkOrigin (Z.of_nat i) (method_name f)).
Proof.
  intros Hlen H. destruct (merge_chain_functions links p Hlen H) as [Hf Ho]. split; [by rewrite Hf, length_resolve|].
  intros k i d Hk. exists (resolved (i, d) (drop (S k) (decls links))).
  destruct (resolved_parts (i, d) (drop (S k) (decls links))) as (H1 & H2 & H3).
  split_and!; [rewrite Hf; by apply resolve_lookup|done|done|done|by rewrite resolved_name|].
  intros j Hj Hy. rewrite resolved_name. specialize (Ho (method_name d)). unfold super_of.
  pose proof (nearest_found j (decls links) k (i, d) None Hk Hj Hy) as Hn. cbn in Hn. unfold decl_name in Hn. cbn in Hn.
  rewrite <- Ho in Hn. destruct (functions (chain p) !! method_name d) as [os|]; [exact Hn|done].
Qed.

Definition script_of (source : list string) : Program :=
  match (ParserSamples.compile (ParserSamples.lines source) false).2 with Ok p => p | Throw _ => no_program end.

Definition three_scripts : list ChainLink :=
  [mkLink "" "a.gd" (script_of ["func f():"; "  return 1"; "func g():"; "  return 2"]);
   mkLink "" "b.gd" (script_of ["extends 'a.gd'"; "func f():"; "  return 3"]);
   mkLink "" "c.gd" (script_of ["extends 'b.gd'"; "func g():"; "  return 4"; "func f():"; "  return 5"])].

Definition merged_three : Program := match merge_chain three_scripts with Ok p => p | Throw _ => no_program end.

(** [super.f()] in the leaf is the second script's [f]. *)
Lemma merge_chain_dispatch_witness :
  map method_name (program_functions merged_three) = ["@super0.f"; "@super0.g"; "@super1.f"; "g"; "f"] /\
  exists f, program_functions merged_three !! 2%nat = Some f /\
    super_of (chain merged_three) "f" 2 = Some (mkOrigin 1 (method_name f)).
Proof.
  split; [by vm_compute|].
  assert (E : merge_chain three_scripts = Ok merged_three) by by vm_compute.
  assert (Hl : (2 <= length three_scripts)%nat) by (unfold three_scripts; cbn [length]; lia).
  pose proof (merge_chain_dispatch three_scripts merged_three Hl E) as [_ H]. clear E.
  assert (Hk : exists d, decls three_scripts !! 2%nat = Some (1%nat, d) /\ method_name d = "f").
  { eexists. split; vm_compute; reflexivity. }
  assert (Hall : Forall (fun y : nat * FunctionDecl => (2 <= y.1)%nat) (drop 3 (decls three_scripts))).
  { vm_compute. repeat constructor. }
  destruct Hk as (d & Hk & Hd). destruct (H _ _ _ Hk) as (f & Hf & _ & _ & _ & _ & Hs). exists f. split; [exact Hf|].
  rewrite <- Hd. apply (Hs 2%nat); [lia|]. intros y Hy _. rewrite Forall_forall in Hall. by apply Hall.
Defined.

End ChainFacts.
