(* ===== verification/Libriscv.v ===== *)
(** * RISC-V instructions, as the sandbox executes them

    Models the part of the vendored emulator that gives emitted code its
    meaning: the instruction formats of rv32i_instr.hpp, the integer half of the
    decoder (instr_decoding.inc) and the handlers of rvi_instr.cpp at 64 bits.
    The floating-point, atomic, vector and compressed decoders and the
    bit-manipulation cases of [OP] and [OP_IMM] other than the shift-and-adds
    are not modelled: they answer [NotModelled].

    A register is an unsigned 64-bit [Z].  The paged memory is the class
    [Memory]: what it can answer is a value or a protection fault. *)

From S2P Require Import Prelude.
From S2P Require Import Wire.

Module Libriscv.

(** ** Bit fields *)

(** A bit field of [len] bits whose lowest bit is bit [pos]. *)
Definition field (w pos len : Z) : Z := Z.land (Z.shiftr w pos) (Z.ones len).

Definition opcode (w : Z) : Z := field w 0 7.
Definition rd (w : Z) : Z := field w 7 5.
Definition funct3 (w : Z) : Z := field w 12 3.
Definition rs1 (w : Z) : Z := field w 15 5.
Definition rs2 (w : Z) : Z := field w 20 5.
Definition funct7 (w : Z) : Z := field w 25 7.

(** [Rtype]. *)
Definition jumptable_friendly_op (w : Z) : Z := Z.lor (funct3 w) (Z.shiftl (funct7 w) 4).

(** [Itype]. *)
Definition I_imm (w : Z) : Z := field w 20 12.
Definition I_signed_imm (w : Z) : Z := Z.shiftr (wraps 32 (Z.shiftl (I_imm w) 20)) 20.
Definition high_bits (w : Z) : Z := Z.land (I_imm w) 0xFC0.
Definition is_srai (w : Z) : bool := Z.land (I_imm w) 0xFC0 =? 0x400.

(** [Stype]. *)
Definition S_signed_imm (w : Z) : Z :=
  let imm := Z.lor (field w 7 5) (Z.shiftl (field w 25 7) 5) in
  Z.shiftr (wraps 32 (Z.shiftl imm 20)) 20.

(** [Utype]. *)
Definition upper_imm (w : Z) : Z := wraps 32 (Z.shiftl (field w 12 20) 12).

(** [Btype]. *)
Definition B_signed_imm (w : Z) : Z :=
  let ext := 0xFFFFF000 in
  wraps 32 (Z.lor (Z.lor (Z.lor (Z.shiftl (field w 8 4) 1) (Z.shiftl (field w 25 6) 5)) (Z.shiftl (field w 7 1) 11))
                  (if negb (field w 31 1 =? 0) then ext else 0)).

(** [Jtype]. *)
Definition jump_offset (w : Z) : Z :=
  let ext := 0xFFF00000 in
  let jo := Z.lor (Z.lor (Z.shiftl (field w 21 10) 1) (Z.shiftl (field w 20 1) 11)) (Z.shiftl (field w 12 8) 12) in
  wraps 32 (Z.lor jo (if negb (field w 31 1 =? 0) then ext else 0)).

(** ** The decoder *)

Inductive Instr :=
  | LOAD_I8 | LOAD_I16 | LOAD_I32 | LOAD_I64 | LOAD_U8 | LOAD_U16 | LOAD_U32 | LOAD_X_DUMMY
  | STORE_I8 | STORE_I8_IMM | STORE_I16_IMM | STORE_I32_IMM | STORE_I64_IMM
  | BRANCH_EQ | BRANCH_NE | BRANCH_LT | BRANCH_GE | BRANCH_LTU | BRANCH_GEU
  | JALR | JAL | JMPI
  | OP_IMM | OP_IMM_ADDI | OP_IMM_LI | OP_MV | OP_IMM_SLLI | OP_IMM_SRLI | OP_IMM_ANDI
  | OP | OP_ADD | OP_SUB
  | SYSTEM | SYSCALL | WFI
  | LUI | AUIPC | OP_IMM32_ADDIW
  | NOP | ILLEGAL.

Definition RV32I_LOAD : Z := 0x03.
Definition RV32I_STORE : Z := 0x23.
Definition RV32I_BRANCH : Z := 0x63.
Definition RV32I_JALR : Z := 0x67.
Definition RV32I_JAL : Z := 0x6F.
Definition RV32I_OP_IMM : Z := 0x13.
Definition RV32I_OP : Z := 0x33.
Definition RV32I_SYSTEM : Z := 0x73.
Definition RV32I_LUI : Z := 0x37.
Definition RV32I_AUIPC : Z := 0x17.
Definition RV64I_OP_IMM32 : Z := 0x1B.

Definition decode_load (w : Z) : Instr :=
  if negb (rd w =? 0) then
    match funct3 w with
    | 0 => LOAD_I8 | 1 => LOAD_I16 | 2 => LOAD_I32 | 3 => LOAD_I64
    | 4 => LOAD_U8 | 5 => LOAD_U16 | 6 => LOAD_U32 | _ => ILLEGAL
    end
  else LOAD_X_DUMMY.

Definition decode_store (w : Z) : Instr :=
  match funct3 w with
  | 0 => if S_signed_imm w =? 0 then STORE_I8 else STORE_I8_IMM
  | 1 => STORE_I16_IMM | 2 => STORE_I32_IMM | 3 => STORE_I64_IMM | _ => ILLEGAL
  end.

Definition decode_branch (w : Z) : Instr :=
  match funct3 w with
  | 0 => BRANCH_EQ | 1 => BRANCH_NE | 4 => BRANCH_LT | 5 => BRANCH_GE | 6 => BRANCH_LTU | 7 => BRANCH_GEU
  | _ => ILLEGAL
  end.

Definition decode_op_imm (w : Z) : Instr :=
  if negb (rd w =? 0) then
    match funct3 w with
    | 0 => if rs1 w =? 0 then OP_IMM_LI else if I_imm w =? 0 then OP_MV else OP_IMM_ADDI
    | 1 => if high_bits w =? 0 then OP_IMM_SLLI else OP_IMM
    | 5 => if high_bits w =? 0 then OP_IMM_SRLI else OP_IMM
    | 7 => OP_IMM_ANDI
    | _ => OP_IMM
    end
  else NOP.

Definition decode_op (w : Z) : Instr :=
  if negb (rd w =? 0) then
    match jumptable_friendly_op w with 0 => OP_ADD | 0x200 => OP_SUB | _ => OP end
  else NOP.

Definition decode_system (w : Z) : Instr :=
  if funct3 w =? 0 then
    match I_imm w with 0 => SYSCALL | 0x7FF => WFI | 261 => WFI | _ => SYSTEM end
  else SYSTEM.

(** [None] for an opcode this file does not model. *)
Definition decode (w : Z) : option Instr :=
  if opcode w =? RV32I_LOAD then Some (decode_load w)
  else if opcode w =? RV32I_STORE then Some (decode_store w)
  else if opcode w =? RV32I_BRANCH then Some (decode_branch w)
  else if opcode w =? RV32I_JALR then Some JALR
  else if opcode w =? RV32I_JAL then Some (if negb (rd w =? 0) then JAL else JMPI)
  else if opcode w =? RV32I_OP_IMM then Some (decode_op_imm w)
  else if opcode w =? RV32I_OP then Some (decode_op w)
  else if opcode w =? RV32I_SYSTEM then Some (decode_system w)
  else if opcode w =? RV32I_LUI then Some (if negb (rd w =? 0) then LUI else NOP)
  else if opcode w =? RV32I_AUIPC then Some (if negb (rd w =? 0) then AUIPC else NOP)
  else if (opcode w =? RV64I_OP_IMM32) && (rd w =? 0) then Some NOP
  else if (opcode w =? RV64I_OP_IMM32) && (funct3 w =? 0) then Some OP_IMM32_ADDIW
  else None.

(** ** Machine state *)

(** Reads and writes of 1, 2, 4 and 8 bytes; [None] is a protection fault. *)
Class Memory := {
  mem : Type;
  mem_read : nat -> Z -> mem -> option Z;
  mem_write : nat -> Z -> Z -> mem -> option mem
}.

(** A memory of bytes without pages or permissions: an access faults when one of
    its bytes is not there. *)
Definition flat_memory : Memory := {|
  mem := gmap Z Z;
  mem_read n a m := Wire.of_bytes <$> mapM (fun i => m !! (a + Z.of_nat i)) (seq 0 n);
  mem_write n a v m :=
    match mapM (fun i => m !! (a + Z.of_nat i)) (seq 0 n) with
    | Some _ => Some (list_to_map (zip (seqZ a (Z.of_nat n)) (Wire.write_scalar n v)) ∪ m)
    | None => None
    end
|}.

(** The build option for compressed instructions. *)
Class Config := { compressed_enabled : bool }.

Record Cpu := mkCpu { regs : gmap Z Z; pc : Z }.

Definition reg (c : Cpu) (r : Z) : Z := default 0 (regs c !! r).

(** [cpu.reg(r) = value], an [address_t]. *)
Definition set_reg (r value : Z) (c : Cpu) : Cpu := mkCpu (<[r := to_uint64 value]> (regs c)) (pc c).

Definition set_pc (value : Z) (c : Cpu) : Cpu := mkCpu (regs c) (to_uint64 value).

Inductive Exception :=
  | ILLEGAL_OPCODE
  | UNIMPLEMENTED_INSTRUCTION
  | MISALIGNED_INSTRUCTION
  | PROTECTION_FAULT
  | NotModelled.

Section Execution.
Context `{Memory} `{Config}.

(** What an instruction does: it may also hand control to the host. *)
Inductive Result :=
  | Next (c : Cpu) (m : mem)
  | SystemCall (c : Cpu) (m : mem)
  | Stop (c : Cpu) (m : mem)
  | Trap (e : Exception).

Definition jump (dst : Z) (c : Cpu) (m : mem) : Result :=
  let dst := to_uint64 dst in
  if negb (Z.land dst (if compressed_enabled then 1 else 3) =? 0) then Trap MISALIGNED_INSTRUCTION
  else Next (set_pc dst c) m.

(** [reg = (T) memory.read<T'>(rs1 + imm)]: [bits] of them, signed or not. *)
Definition load (bits : Z) (signed : bool) (w : Z) (c : Cpu) (m : mem) : Result :=
  match mem_read (Z.to_nat (bits / 8)) (to_uint64 (reg c (rs1 w) + I_signed_imm w)) m with
  | Some v => Next (set_reg (rd w) (if signed then wraps bits v else v) c) m
  | None => Trap PROTECTION_FAULT
  end.

Definition store (bytes : nat) (imm w : Z) (c : Cpu) (m : mem) : Result :=
  match mem_write bytes (to_uint64 (reg c (rs1 w) + imm)) (wrapu (8 * Z.of_nat bytes) (reg c (rs2 w))) m with
  | Some m => Next c m
  | None => Trap PROTECTION_FAULT
  end.

Definition branch (taken : bool) (w : Z) (c : Cpu) (m : mem) : Result :=
  if taken then jump (pc c + B_signed_imm w - 4) c m else Next c m.

Definition rv_div (src1 src2 : Z) : Z :=
  if 1 <? to_uint64 (src2 + 1) then Z.quot (to_int64 src1) (to_int64 src2)
  else if src2 =? 0 then - 1 else 0 - src1.

Definition rv_rem (src1 src2 : Z) : Z :=
  if 1 <? to_uint64 (src2 + 1) then Z.rem (to_int64 src1) (to_int64 src2)
  else if src2 =? 0 then src1 else 0.

(** The switch of the [OP] handler. *)
Definition op (code src1 src2 : Z) : option Z :=
  match code with
  | 0x1 => Some (Z.shiftl src1 (Z.land src2 63))
  | 0x2 => Some (if to_int64 src1 <? to_int64 src2 then 1 else 0)
  | 0x3 => Some (if src1 <? src2 then 1 else 0)
  | 0x4 => Some (Z.lxor src1 src2)
  | 0x5 => Some (Z.shiftr src1 (Z.land src2 63))
  | 0x6 => Some (Z.lor src1 src2)
  | 0x7 => Some (Z.land src1 src2)
  | 0x10 => Some (src1 * src2)
  | 0x11 => Some (Z.shiftr (to_int64 src1 * to_int64 src2) 64)
  | 0x12 => Some (Z.shiftr (to_int64 src1 * src2) 64)
  | 0x13 => Some (Z.shiftr (src1 * src2) 64)
  | 0x14 => Some (rv_div src1 src2)
  | 0x15 => Some (if negb (src2 =? 0) then src1 / src2 else - 1)
  | 0x16 => Some (rv_rem src1 src2)
  | 0x17 => Some (if negb (src2 =? 0) then src1 mod src2 else src1)
  | 0x102 => Some (src2 + Z.shiftl src1 1)
  | 0x104 => Some (src2 + Z.shiftl src1 2)
  | 0x106 => Some (src2 + Z.shiftl src1 3)
  | 0x205 => Some (Z.shiftr (to_int64 src1) (Z.land src2 63))
  | _ => None
  end.

(** The switch of the [OP_IMM] handler. *)
Definition op_imm (w src : Z) : option Z :=
  match funct3 w with
  | 2 => Some (if to_int64 src <? I_signed_imm w then 1 else 0)
  | 3 => Some (if src <? to_uint64 (I_signed_imm w) then 1 else 0)
  | 4 => Some (Z.lxor src (to_uint64 (I_signed_imm w)))
  | 5 => if is_srai w then Some (Z.shiftr (to_int64 src) (Z.land (I_imm w) 63)) else None
  | 6 => Some (Z.lor src (to_uint64 (I_signed_imm w)))
  | _ => None
  end.

Definition write_rd (w : Z) (value : option Z) (c : Cpu) (m : mem) : Result :=
  match value with Some v => Next (set_reg (rd w) v c) m | None => Trap NotModelled end.

Definition handler (i : Instr) (w : Z) (c : Cpu) (m : mem) : Result :=
  let src1 := reg c (rs1 w) in
  let src2 := reg c (rs2 w) in
  let imm := I_signed_imm w in
  match i with
  | NOP => Next c m
  | ILLEGAL => Trap ILLEGAL_OPCODE
  | LOAD_I8 => load 8 true w c m
  | LOAD_I16 => load 16 true w c m
  | LOAD_I32 => load 32 true w c m
  | LOAD_I64 => load 64 true w c m
  | LOAD_U8 => load 8 false w c m
  | LOAD_U16 => load 16 false w c m
  | LOAD_U32 => load 32 false w c m
  | LOAD_X_DUMMY =>
      match funct3 w with
      | 0 | 1 | 2 | 3 =>
          match mem_read (Nat.pow 2 (Z.to_nat (funct3 w))) (to_uint64 (src1 + imm)) m with
          | Some _ => Next c m
          | None => Trap PROTECTION_FAULT
          end
      | 7 => Trap ILLEGAL_OPCODE
      | _ => Next c m
      end
  | STORE_I8 => store 1 0 w c m
  | STORE_I8_IMM => store 1 (S_signed_imm w) w c m
  | STORE_I16_IMM => store 2 (S_signed_imm w) w c m
  | STORE_I32_IMM => store 4 (S_signed_imm w) w c m
  | STORE_I64_IMM => store 8 (S_signed_imm w) w c m
  | BRANCH_EQ => branch (src1 =? src2) w c m
  | BRANCH_NE => branch (negb (src1 =? src2)) w c m
  | BRANCH_LT => branch (to_int64 src1 <? to_int64 src2) w c m
  | BRANCH_GE => branch (to_int64 src2 <=? to_int64 src1) w c m
  | BRANCH_LTU => branch (src1 <? src2) w c m
  | BRANCH_GEU => branch (src2 <=? src1) w c m
  | JALR =>
      let address := to_uint64 (src1 + imm) in
      jump (address - 4) (if negb (rd w =? 0) then set_reg (rd w) (pc c + 4) c else c) m
  | JAL => jump (pc c + jump_offset w - 4) (set_reg (rd w) (pc c + 4) c) m
  | JMPI => jump (pc c + jump_offset w - 4) c m
  | OP_IMM => write_rd w (op_imm w src1) c m
  | OP_IMM_ADDI => Next (set_reg (rd w) (src1 + imm) c) m
  | OP_IMM_LI => Next (set_reg (rd w) imm c) m
  | OP_MV => Next (set_reg (rd w) src1 c) m
  | OP_IMM_SLLI => Next (set_reg (rd w) (Z.shiftl src1 (Z.land (I_imm w) 63)) c) m
  | OP_IMM_SRLI => Next (set_reg (rd w) (Z.shiftr src1 (Z.land (I_imm w) 63)) c) m
  | OP_IMM_ANDI => Next (set_reg (rd w) (Z.land src1 (to_uint64 imm)) c) m
  | OP => write_rd w (op (jumptable_friendly_op w) src1 src2) c m
  | OP_ADD => Next (set_reg (rd w) (src1 + src2) c) m
  | OP_SUB => Next (set_reg (rd w) (src1 - src2) c) m
  | SYSTEM => Trap NotModelled
  | SYSCALL => SystemCall c m
  | WFI => Stop c m
  | LUI => Next (set_reg (rd w) (upper_imm w) c) m
  | AUIPC => Next (set_reg (rd w) (pc c + upper_imm w) c) m
  | OP_IMM32_ADDIW => Next (set_reg (rd w) (wraps 32 (to_uint32 src1 + imm)) c) m
  end.

Definition execute (w : Z) (c : Cpu) (m : mem) : Result :=
  match decode w with Some i => handler i w c m | None => Trap NotModelled end.

(** [step_one]: the program counter moves on after the handler, which is why a
    jump goes four bytes short of its target. *)
Definition increment_pc (c : Cpu) : Cpu := set_pc (pc c + 4) c.

Definition step_one (c : Cpu) (m : mem) : Result :=
  match mem_read 4 (pc c) m with
  | None => Trap PROTECTION_FAULT
  | Some w =>
      match execute w c m with
      | Next c m => Next (increment_pc c) m
      | SystemCall c m => SystemCall (increment_pc c) m
      | Stop c m => Stop (increment_pc c) m
      | Trap e => Trap e
      end
  end.

(** [n] instructions that stay in the guest. *)
Fixpoint steps (n : nat) (c : Cpu) (m : mem) : Result :=
  match n with
  | O => Next c m
  | S n => match step_one c m with Next c m => steps n c m | r => r end
  end.

End Execution.

End Libriscv.
