(* ===== verification/RISCVCodeGen.v ===== *)
(** * Emission of RISC-V instructions

    Models the assembler layer of riscv_codegen.h and riscv_codegen.cpp: the
    instruction encoders with their range checks, the mnemonics, loads of
    constants through the constant pool, wide offsets, labels, the relaxation of
    far branches ([relax_branches]) and the resolution of label uses
    ([resolve_labels]).  [Gen] holds the members of [RISCVCodeGen] these
    functions touch.  The lowering of IR instructions on top of this layer is
    not modelled. *)

From stdpp Require Import pretty sorting.
From S2P Require Import Prelude.
From S2P Require Import Wire.
From S2P Require Import Double.
From S2P Require Import VariantTypes.
From S2P Require Import IROpcodes.
From S2P Require Import Globals.
From S2P Require Import IR.
From S2P Require Import LineTable.

Module RISCVCodeGen.

(** ** State *)

Record LabelUse := mkUse { label : Z; code_offset : nat; addend : Z }.

Record DenseJumpTable := mkTable { first_use : nat; count : nat }.

(** [NO_LABEL] is [None]. *)
Record Gen := mkGen {
  m_code : list Z;
  m_label_names : IRStringTable.IRStringTable;
  m_label_offsets : list (option nat);
  m_label_uses : list LabelUse;
  m_dense_jump_tables : list DenseJumpTable;
  m_functions : gmap string nat;
  m_instance_init_offset : nat;
  m_line_table : LineTable.LineTable;
  m_constant_pool : list Z;
  m_constant_pool_map : gmap Z nat;
  m_rodata_strings : list (string * string);
  m_rodata_string_labels : gmap string string
}.

Definition set_code (code : list Z) (g : Gen) : Gen :=
  mkGen code (m_label_names g) (m_label_offsets g) (m_label_uses g) (m_dense_jump_tables g) (m_functions g)
    (m_instance_init_offset g) (m_line_table g) (m_constant_pool g) (m_constant_pool_map g) (m_rodata_strings g)
    (m_rodata_string_labels g).

Definition set_labels (names : IRStringTable.IRStringTable) (offsets : list (option nat)) (uses : list LabelUse)
    (g : Gen) : Gen :=
  mkGen (m_code g) names offsets uses (m_dense_jump_tables g) (m_functions g) (m_instance_init_offset g)
    (m_line_table g) (m_constant_pool g) (m_constant_pool_map g) (m_rodata_strings g) (m_rodata_string_labels g).

Definition set_tables (tables : list DenseJumpTable) (g : Gen) : Gen :=
  mkGen (m_code g) (m_label_names g) (m_label_offsets g) (m_label_uses g) tables (m_functions g)
    (m_instance_init_offset g) (m_line_table g) (m_constant_pool g) (m_constant_pool_map g) (m_rodata_strings g)
    (m_rodata_string_labels g).

Definition set_pools (constants : list Z) (constant_map : gmap Z nat) (strings : list (string * string))
    (string_labels : gmap string string) (g : Gen) : Gen :=
  mkGen (m_code g) (m_label_names g) (m_label_offsets g) (m_label_uses g) (m_dense_jump_tables g) (m_functions g)
    (m_instance_init_offset g) (m_line_table g) constants constant_map strings string_labels.

Definition set_positions (functions : gmap string nat) (init : nat) (table : LineTable.LineTable) (g : Gen) : Gen :=
  mkGen (m_code g) (m_label_names g) (m_label_offsets g) (m_label_uses g) (m_dense_jump_tables g) functions init
    table (m_constant_pool g) (m_constant_pool_map g) (m_rodata_strings g) (m_rodata_string_labels g).

(** The members at the start of [generate], whose label names begin as the
    strings of the program. *)
Definition initial (strings : IRStringTable.IRStringTable) : Gen :=
  mkGen [] strings (replicate (length (IRStringTable.m_strings strings)) None) [] [] ∅ 0 [] [] ∅ [] ∅.

(** An emitting function: it may throw, and what it emitted stays. *)
Abbreviation Emit := (M Gen).

Notation "c ';;;' k" := (mbind c (fun _ => k)) (at level 100, k at level 200, right associativity) : gdsc_scope.

Definition codegen_error {A} (message : string) : outcome A :=
  Throw (CompilerException RISCV_codegen_ERROR message).

Definition offset_of_code : Emit nat := fun g => (g, Ok (length (m_code g))).

(** ** Registers *)

Definition REG_ZERO : Z := 0.
Definition REG_RA : Z := 1.
Definition REG_SP : Z := 2.
Definition REG_TP : Z := 4.
Definition REG_T0 : Z := 5.
Definition REG_T1 : Z := 6.
Definition REG_T2 : Z := 7.
Definition REG_A0 : Z := 10.
Definition REG_A7 : Z := 17.
Definition REG_WIDE_SCRATCH : Z := 31.

Definition I_TYPE_IMM_BITS : Z := 12.
Definition S_TYPE_IMM_BITS : Z := 12.
Definition B_TYPE_IMM_BITS : Z := 13.
Definition J_TYPE_IMM_BITS : Z := 21.

(** ** Range checks *)

Definition fits_in_signed (value bits : Z) : bool :=
  let limit := Z.shiftl 1 (bits - 1) in (- limit <=? value) && (value <? limit).

Definition check_immediate (what : string) (value bits : Z) : outcome unit :=
  if fits_in_signed value bits then Ok tt
  else codegen_error (what +:+ " immediate " +:+ pretty value +:+ " does not fit in " +:+ pretty bits
    +:+ " signed bits (" +:+ pretty (- Z.shiftl 1 (bits - 1)) +:+ " to " +:+ pretty (Z.shiftl 1 (bits - 1) - 1) +:+ ")").

Definition check_displacement (what : string) (offset bits : Z) : outcome unit :=
  if negb (Z.land offset 1 =? 0) then
    codegen_error (what +:+ " displacement " +:+ pretty offset +:+ " is not even")
  else if negb (fits_in_signed offset bits) then
    codegen_error (what +:+ " displacement " +:+ pretty offset +:+ " is out of reach (" +:+ pretty bits
      +:+ " signed bits). The function is too large for a single branch to span.")
  else Ok tt.

(** ** Instruction words *)

Definition R_word (opcode rd funct3 rs1 rs2 funct7 : Z) : Z :=
  to_uint32 (Z.lor (Z.lor (Z.lor (Z.lor (Z.lor opcode (Z.shiftl rd 7)) (Z.shiftl funct3 12)) (Z.shiftl rs1 15))
    (Z.shiftl rs2 20)) (Z.shiftl funct7 25)).

Definition I_word (opcode rd funct3 rs1 imm : Z) : Z :=
  to_uint32 (Z.lor (Z.lor (Z.lor (Z.lor opcode (Z.shiftl rd 7)) (Z.shiftl funct3 12)) (Z.shiftl rs1 15))
    (Z.shiftl (Z.land imm 0xFFF) 20)).

Definition S_word (opcode funct3 rs1 rs2 imm : Z) : Z :=
  let imm_lo := Z.land imm 0x1F in
  let imm_hi := Z.land (Z.shiftr imm 5) 0x7F in
  to_uint32 (Z.lor (Z.lor (Z.lor (Z.lor (Z.lor opcode (Z.shiftl imm_lo 7)) (Z.shiftl funct3 12)) (Z.shiftl rs1 15))
    (Z.shiftl rs2 20)) (Z.shiftl imm_hi 25)).

Definition B_word (opcode funct3 rs1 rs2 imm : Z) : Z :=
  let imm12 := Z.land (Z.shiftr imm 12) 1 in
  let imm10_5 := Z.land (Z.shiftr imm 5) 0x3F in
  let imm4_1 := Z.land (Z.shiftr imm 1) 0xF in
  let imm11 := Z.land (Z.shiftr imm 11) 1 in
  to_uint32 (Z.lor (Z.lor (Z.lor (Z.lor (Z.lor (Z.lor (Z.lor opcode (Z.shiftl imm11 7)) (Z.shiftl imm4_1 8))
    (Z.shiftl funct3 12)) (Z.shiftl rs1 15)) (Z.shiftl rs2 20)) (Z.shiftl imm10_5 25)) (Z.shiftl imm12 31)).

Definition U_word (opcode rd imm : Z) : Z :=
  to_uint32 (Z.lor (Z.lor opcode (Z.shiftl rd 7)) (Z.land imm 0xFFFFF000)).

Definition J_word (opcode rd imm : Z) : Z :=
  let imm20 := Z.land (Z.shiftr imm 20) 1 in
  let imm10_1 := Z.land (Z.shiftr imm 1) 0x3FF in
  let imm11 := Z.land (Z.shiftr imm 11) 1 in
  let imm19_12 := Z.land (Z.shiftr imm 12) 0xFF in
  to_uint32 (Z.lor (Z.lor (Z.lor (Z.lor (Z.lor opcode (Z.shiftl rd 7)) (Z.shiftl imm19_12 12)) (Z.shiftl imm11 20))
    (Z.shiftl imm10_1 21)) (Z.shiftl imm20 31)).

(** The bit fields of the union truncate what is stored into them. *)
Definition R4_word (opcode rd funct3 rs1 rs2 rs3 funct2 : Z) : Z :=
  wrapu 7 opcode + Z.shiftl (wrapu 5 rd) 7 + Z.shiftl (wrapu 3 funct3) 12 + Z.shiftl (wrapu 5 rs1) 15
    + Z.shiftl (wrapu 5 rs2) 20 + Z.shiftl (wrapu 2 funct2) 25 + Z.shiftl (wrapu 5 rs3) 27.

(** ** Encoders *)

Definition word_bytes (word : Z) : list Z :=
  [Z.land word 0xFF; Z.land (Z.shiftr word 8) 0xFF; Z.land (Z.shiftr word 16) 0xFF; Z.land (Z.shiftr word 24) 0xFF].

Definition emit_word (word : Z) : Emit unit := mmodify (fun g => set_code (m_code g ++ word_bytes word) g).

Definition emit_r_type (opcode rd funct3 rs1 rs2 funct7 : Z) : Emit unit :=
  emit_word (R_word opcode rd funct3 rs1 rs2 funct7).

Definition emit_i_type (opcode rd funct3 rs1 imm : Z) : Emit unit :=
  mlift (check_immediate "I-type" imm I_TYPE_IMM_BITS) ;;; emit_word (I_word opcode rd funct3 rs1 imm).

Definition emit_s_type (opcode funct3 rs1 rs2 imm : Z) : Emit unit :=
  mlift (check_immediate "S-type (store)" imm S_TYPE_IMM_BITS) ;;; emit_word (S_word opcode funct3 rs1 rs2 imm).

Definition emit_b_type (opcode funct3 rs1 rs2 imm : Z) : Emit unit :=
  mlift (check_displacement "B-type (branch)" imm B_TYPE_IMM_BITS) ;;; emit_word (B_word opcode funct3 rs1 rs2 imm).

Definition emit_u_type (opcode rd imm : Z) : Emit unit :=
  mlift (if negb (Z.land imm 0xFFF =? 0)
    then codegen_error ("U-type immediate " +:+ pretty imm +:+ " has bits below bit 12, which the instruction cannot encode")
    else Ok tt) ;;;
  emit_word (U_word opcode rd imm).

Definition emit_j_type (opcode rd imm : Z) : Emit unit :=
  mlift (check_displacement "J-type (jump)" imm J_TYPE_IMM_BITS) ;;; emit_word (J_word opcode rd imm).

Definition emit_r4_type (opcode rd funct3 rs1 rs2 rs3 funct2 : Z) : Emit unit :=
  emit_word (R4_word opcode rd funct3 rs1 rs2 rs3 funct2).

(** ** Labels *)

Definition label_id (name : string) : Emit Z :=
  fun g => let '(names, id) := IRStringTable.intern (m_label_names g) name in
           (set_labels names (m_label_offsets g) (m_label_uses g) g, Ok id).

(** [m_label_offsets.resize(id + 1, NO_LABEL)] when it is shorter. *)
Definition set_label (id : Z) (offset : nat) : Emit unit :=
  mmodify (fun g =>
    let offsets := m_label_offsets g in
    let grown := offsets ++ replicate (Z.to_nat id + 1 - length offsets) None in
    set_labels (m_label_names g) (<[Z.to_nat id := Some offset]> grown) (m_label_uses g) g).

Definition define_label (name : string) : Emit unit :=
  let* id := label_id name in let* here := offset_of_code in set_label id here.

Definition define_label_value (v : IRValue.IRValue) : Emit unit :=
  let* here := offset_of_code in set_label (IRValue.string_id v) here.

Definition push_use (use : LabelUse) : Emit unit :=
  mmodify (fun g => set_labels (m_label_names g) (m_label_offsets g) (m_label_uses g ++ [use]) g).

Definition mark_label_use (name : string) (code_offset : nat) (addend : Z) : Emit unit :=
  let* id := label_id name in push_use (mkUse id code_offset addend).

Definition mark_label_use_value (v : IRValue.IRValue) (code_offset : nat) (addend : Z) : Emit unit :=
  push_use (mkUse (IRValue.string_id v) code_offset addend).

(** ** Functions and lines *)

(** [m_functions[name] = m_code.size()] and its label. *)
Definition begin_function (name : string) : Emit unit :=
  mmodify (fun g => set_positions (<[name := length (m_code g)]> (m_functions g)) (m_instance_init_offset g) (m_line_table g) g) ;;;
  define_label name.

Definition begin_instance_init (label : string) : Emit unit :=
  define_label label ;;;
  mmodify (fun g => set_positions (m_functions g) (length (m_code g)) (m_line_table g) g).

(** A row of line 0 is only recorded when it is forced, at a function's entry. *)
Definition record_line (line : Z) (force : bool) : Emit unit :=
  mmodify (fun g =>
    if (line <? 0) || ((line =? 0) && negb force) then g
    else
      let address := to_uint32 (Z.of_nat (length (m_code g))) in
      let line := to_uint32 line in
      let entries := m_line_table g in
      let store entries := set_positions (m_functions g) (m_instance_init_offset g) entries g in
      let dedupe entries :=
        match rev entries with
        | back :: previous :: before =>
            if LineTable.line previous =? LineTable.line back then rev (previous :: before) else entries
        | _ => entries
        end in
      match rev entries with
      | [] => store [LineTable.mkEntry address line]
      | back :: before =>
          if LineTable.address back =? address
          then store (dedupe (rev (LineTable.mkEntry (LineTable.address back) line :: before)))
          else if LineTable.line back =? line then g
          else store (dedupe (entries ++ [LineTable.mkEntry address line]))
      end).

(** ** Pools *)

Definition add_constant (value : Z) : Emit nat :=
  fun g => match m_constant_pool_map g !! value with
           | Some index => (g, Ok index)
           | None =>
               let index := length (m_constant_pool g) in
               (set_pools (m_constant_pool g ++ [value]) (<[value := index]> (m_constant_pool_map g))
                  (m_rodata_strings g) (m_rodata_string_labels g) g, Ok index)
           end.

Definition rodata_string (text : string) : Emit string :=
  fun g => match m_rodata_string_labels g !! text with
           | Some label => (g, Ok label)
           | None =>
               let label := ".LSTR" +:+ pretty (length (m_rodata_strings g)) in
               (set_pools (m_constant_pool g) (m_constant_pool_map g) (m_rodata_strings g ++ [(text, label)])
                  (<[text := label]> (m_rodata_string_labels g)) g, Ok label)
           end.

(** ** Mnemonics *)

Definition emit_mv (rd rs : Z) : Emit unit := emit_i_type 0x13 rd 0 rs 0.
Definition emit_addi (rd rs1 imm : Z) : Emit unit := emit_i_type 0x13 rd 0 rs1 imm.
Definition emit_add (rd rs1 rs2 : Z) : Emit unit := emit_r_type 0x33 rd 0 rs1 rs2 0.
Definition emit_sub (rd rs1 rs2 : Z) : Emit unit := emit_r_type 0x33 rd 0 rs1 rs2 0x20.
Definition emit_mul (rd rs1 rs2 : Z) : Emit unit := emit_r_type 0x33 rd 0 rs1 rs2 1.
Definition emit_div (rd rs1 rs2 : Z) : Emit unit := emit_r_type 0x33 rd 4 rs1 rs2 1.
Definition emit_rem (rd rs1 rs2 : Z) : Emit unit := emit_r_type 0x33 rd 6 rs1 rs2 1.
Definition emit_and (rd rs1 rs2 : Z) : Emit unit := emit_r_type 0x33 rd 7 rs1 rs2 0.
Definition emit_or (rd rs1 rs2 : Z) : Emit unit := emit_r_type 0x33 rd 6 rs1 rs2 0.
Definition emit_xor (rd rs1 rs2 : Z) : Emit unit := emit_r_type 0x33 rd 4 rs1 rs2 0.
Definition emit_sll (rd rs1 rs2 : Z) : Emit unit := emit_r_type 0x33 rd 1 rs1 rs2 0.
Definition emit_srl (rd rs1 rs2 : Z) : Emit unit := emit_r_type 0x33 rd 5 rs1 rs2 0.
Definition emit_sra (rd rs1 rs2 : Z) : Emit unit := emit_r_type 0x33 rd 5 rs1 rs2 0x20.
Definition emit_slt (rd rs1 rs2 : Z) : Emit unit := emit_r_type 0x33 rd 2 rs1 rs2 0.
Definition emit_slti (rd rs imm : Z) : Emit unit := emit_i_type 0x13 rd 2 rs imm.
Definition emit_xori (rd rs imm : Z) : Emit unit := emit_i_type 0x13 rd 4 rs imm.
Definition emit_andi (rd rs imm : Z) : Emit unit := emit_i_type 0x13 rd 7 rs imm.
Definition emit_ori (rd rs imm : Z) : Emit unit := emit_i_type 0x13 rd 6 rs imm.
Definition emit_seqz (rd rs : Z) : Emit unit := emit_i_type 0x13 rd 3 rs 1.
Definition emit_snez (rd rs : Z) : Emit unit := emit_r_type 0x33 rd 3 REG_ZERO rs 0.
Definition emit_beq (rs1 rs2 offset : Z) : Emit unit := emit_b_type 0x63 0 rs1 rs2 offset.
Definition emit_bne (rs1 rs2 offset : Z) : Emit unit := emit_b_type 0x63 1 rs1 rs2 offset.
Definition emit_blt (rs1 rs2 offset : Z) : Emit unit := emit_b_type 0x63 4 rs1 rs2 offset.
Definition emit_bge (rs1 rs2 offset : Z) : Emit unit := emit_b_type 0x63 5 rs1 rs2 offset.
Definition emit_bltu (rs1 rs2 offset : Z) : Emit unit := emit_b_type 0x63 6 rs1 rs2 offset.
Definition emit_bgeu (rs1 rs2 offset : Z) : Emit unit := emit_b_type 0x63 7 rs1 rs2 offset.
Definition emit_jal (rd offset : Z) : Emit unit := emit_j_type 0x6F rd offset.
Definition emit_jalr (rd rs1 offset : Z) : Emit unit := emit_i_type 0x67 rd 0 rs1 offset.
Definition emit_ret : Emit unit := emit_jalr REG_ZERO REG_RA 0.
Definition emit_sh2add (rd rs1 rs2 : Z) : Emit unit := emit_r_type 0x33 rd 4 rs1 rs2 0x10.
Definition emit_srai (rd rs shamt : Z) : Emit unit :=
  emit_i_type 0x13 rd 5 rs (Z.lor (Z.shiftl 0x10 6) (Z.land shamt 0x3F)).
Definition emit_slli (rd rs shamt : Z) : Emit unit := emit_i_type 0x13 rd 1 rs shamt.
Definition emit_sext_w (rd rs : Z) : Emit unit := emit_i_type 0x1b rd 0 rs 0.

(** ** Constants, addresses and wide offsets *)

Definition emit_la (rd : Z) (name : string) (addend : Z) : Emit unit :=
  let* auipc_offset := offset_of_code in
  mark_label_use name auipc_offset addend ;;;
  emit_u_type 0x17 rd 0 ;;;
  emit_i_type 0x13 rd 0 rd 0.

(** The 32-bit forms of [emit_li]: LUI, and ADDI or ADDIW for the low bits. *)
Definition emit_li32 (rd imm : Z) : Emit unit :=
  let upper := Z.land (to_uint32 (to_uint32 imm + 0x800)) 0xFFFFF000 in
  emit_u_type 0x37 rd upper ;;;
  let lower := Z.lxor (Z.land imm 0xFFF) 0x800 - 0x800 in
  if negb (lower =? 0) || (upper =? 0)
  then emit_i_type (if upper =? 0x80000000 then 0x1b else 0x13) rd 0 rd lower
  else mret tt.

Definition INT32_MIN : Z := - 2 ^ 31.
Definition INT32_MAX : Z := 2 ^ 31 - 1.

(** [emit_li] for a value of 32 bits, which is all its wide-offset callers need. *)
Definition emit_li_small (rd imm : Z) : Emit unit :=
  if fits_in_signed imm I_TYPE_IMM_BITS then emit_i_type 0x13 rd 0 REG_ZERO imm else emit_li32 rd imm.

Definition emit_add_offset (rd base offset : Z) : Emit unit :=
  if fits_in_signed offset I_TYPE_IMM_BITS then emit_addi rd base offset
  else
    let temp := if rd =? base then REG_WIDE_SCRATCH else rd in
    emit_li_small temp offset ;;;
    emit_add rd base temp.

Definition emit_load_with_offset (opcode funct3 rd rs1 offset : Z) : Emit unit :=
  if fits_in_signed offset I_TYPE_IMM_BITS then emit_i_type opcode rd funct3 rs1 offset
  else
    emit_add_offset REG_WIDE_SCRATCH rs1 offset ;;;
    emit_i_type opcode rd funct3 REG_WIDE_SCRATCH 0.

Definition emit_store_with_offset (opcode funct3 rs2 rs1 offset : Z) : Emit unit :=
  if fits_in_signed offset S_TYPE_IMM_BITS then emit_s_type opcode funct3 rs1 rs2 offset
  else
    emit_add_offset REG_WIDE_SCRATCH rs1 offset ;;;
    emit_s_type opcode funct3 REG_WIDE_SCRATCH rs2 0.

Definition emit_ld (rd rs1 offset : Z) : Emit unit := emit_load_with_offset 0x03 3 rd rs1 offset.
Definition emit_lw (rd rs1 offset : Z) : Emit unit := emit_load_with_offset 0x03 2 rd rs1 offset.
Definition emit_lwu (rd rs1 offset : Z) : Emit unit := emit_load_with_offset 0x03 6 rd rs1 offset.
Definition emit_lh (rd rs1 offset : Z) : Emit unit := emit_load_with_offset 0x03 1 rd rs1 offset.
Definition emit_lb (rd rs1 offset : Z) : Emit unit := emit_load_with_offset 0x03 0 rd rs1 offset.
Definition emit_lbu (rd rs1 offset : Z) : Emit unit := emit_load_with_offset 0x03 4 rd rs1 offset.
Definition emit_sd (rs2 rs1 offset : Z) : Emit unit := emit_store_with_offset 0x23 3 rs2 rs1 offset.
Definition emit_sw (rs2 rs1 offset : Z) : Emit unit := emit_store_with_offset 0x23 2 rs2 rs1 offset.
Definition emit_sh (rs2 rs1 offset : Z) : Emit unit := emit_store_with_offset 0x23 1 rs2 rs1 offset.
Definition emit_sb (rs2 rs1 offset : Z) : Emit unit := emit_store_with_offset 0x23 0 rs2 rs1 offset.
Definition emit_fld (rd rs1 offset : Z) : Emit unit := emit_load_with_offset 0x07 3 rd rs1 offset.
Definition emit_fsd (rs2 rs1 offset : Z) : Emit unit := emit_store_with_offset 0x27 3 rs2 rs1 offset.
Definition emit_flw (rd rs1 offset : Z) : Emit unit := emit_load_with_offset 0x07 2 rd rs1 offset.
Definition emit_fsw (rs2 rs1 offset : Z) : Emit unit := emit_store_with_offset 0x27 2 rs2 rs1 offset.

(** A value of 64 bits is loaded from the constant pool, at an address the label
    use completes. *)
Definition emit_li (rd imm : Z) : Emit unit :=
  if fits_in_signed imm I_TYPE_IMM_BITS || ((INT32_MIN <=? imm) && (imm <=? INT32_MAX)) then emit_li_small rd imm
  else
    let* const_index := add_constant imm in
    let* auipc_offset := offset_of_code in
    mark_label_use (".LC" +:+ pretty const_index) auipc_offset 0 ;;;
    emit_u_type 0x17 rd 0 ;;;
    emit_ld rd rd 0.

Definition emit_dense_jump_table (index_reg : Z) (labels : list string) (past_label : string) : Emit unit :=
  emit_li REG_T1 (Z.of_nat (length labels)) ;;;
  let* here := offset_of_code in
  mark_label_use past_label here 0 ;;;
  emit_bgeu index_reg REG_T1 0 ;;;
  emit_u_type 0x17 REG_T1 0 ;;;
  emit_sh2add REG_T0 index_reg REG_T1 ;;;
  emit_jalr REG_ZERO REG_T0 12 ;;;
  mmodify (fun g => set_tables (m_dense_jump_tables g ++ [mkTable (length (m_label_uses g)) (length labels)]) g) ;;;
  fold_right (fun label rest =>
    (let* here := offset_of_code in mark_label_use label here 0 ;;; emit_jal REG_ZERO 0) ;;; rest) (mret tt) labels.

(** ** Floating point *)

Definition emit_fcvt_d_s (rd rs1 : Z) : Emit unit := emit_r4_type 0x53 rd 0 rs1 0 8 1.
Definition emit_fcvt_s_d (rd rs1 : Z) : Emit unit := emit_r4_type 0x53 rd 0 rs1 1 8 0.
Definition emit_fcvt_d_l (rd rs1 : Z) : Emit unit := emit_r4_type 0x53 rd 0 rs1 2 26 1.
Definition emit_fadd_d (rd rs1 rs2 : Z) : Emit unit := emit_r_type 0x53 rd 0 rs1 rs2 0x01.
Definition emit_fsub_d (rd rs1 rs2 : Z) : Emit unit := emit_r_type 0x53 rd 0 rs1 rs2 0x05.
Definition emit_fmul_d (rd rs1 rs2 : Z) : Emit unit := emit_r_type 0x53 rd 0 rs1 rs2 0x09.
Definition emit_fdiv_d (rd rs1 rs2 : Z) : Emit unit := emit_r_type 0x53 rd 0 rs1 rs2 0x0D.
Definition emit_fmv_d (rd rs : Z) : Emit unit := emit_r4_type 0x53 rd 0 rs rs 4 1.
Definition emit_fmv_d_x (rd rs : Z) : Emit unit := emit_r_type 0x53 rd 0 rs 0 0x79.
Definition emit_fsqrt_d (rd rs1 : Z) : Emit unit := emit_r_type 0x53 rd 0 rs1 0 0x2D.
Definition emit_fabs_d (rd rs1 : Z) : Emit unit := emit_r_type 0x53 rd 2 rs1 rs1 0x11.
Definition emit_flt_d (rd rs1 rs2 : Z) : Emit unit := emit_r_type 0x53 rd 1 rs1 rs2 0x51.
Definition emit_feq_d (rd rs1 rs2 : Z) : Emit unit := emit_r_type 0x53 rd 2 rs1 rs2 0x51.
Definition emit_fcvt_l_d (rd rs1 : Z) : Emit unit := emit_r_type 0x53 rd 1 rs1 2 0x61.
Definition emit_fadd_s (rd rs1 rs2 : Z) : Emit unit := emit_r_type 0x53 rd 0 rs1 rs2 0x00.
Definition emit_fsub_s (rd rs1 rs2 : Z) : Emit unit := emit_r_type 0x53 rd 0 rs1 rs2 0x04.
Definition emit_fmul_s (rd rs1 rs2 : Z) : Emit unit := emit_r_type 0x53 rd 0 rs1 rs2 0x08.
Definition emit_fdiv_s (rd rs1 rs2 : Z) : Emit unit := emit_r_type 0x53 rd 0 rs1 rs2 0x0C.
Definition emit_fmv_s (rd rs : Z) : Emit unit := emit_r4_type 0x53 rd 0 rs rs 4 0.

(** The operations on [real_t], whose width the layout decides. *)
Section Real.
Context (m_layout : VariantLayout.VariantLayout).

Definition double_precision : bool := VariantLayout.double_precision m_layout.

Definition emit_flr (rd rs1 offset : Z) : Emit unit :=
  if double_precision then emit_fld rd rs1 offset else emit_flw rd rs1 offset.
Definition emit_fsr (rs2 rs1 offset : Z) : Emit unit :=
  if double_precision then emit_fsd rs2 rs1 offset else emit_fsw rs2 rs1 offset.
Definition emit_fcvt_d_r (rd rs1 : Z) : Emit unit :=
  if double_precision then (if negb (rd =? rs1) then emit_fmv_d rd rs1 else mret tt) else emit_fcvt_d_s rd rs1.
Definition emit_fcvt_r_d (rd rs1 : Z) : Emit unit :=
  if double_precision then (if negb (rd =? rs1) then emit_fmv_d rd rs1 else mret tt) else emit_fcvt_s_d rd rs1.
Definition emit_fadd_r (rd rs1 rs2 : Z) : Emit unit :=
  if double_precision then emit_fadd_d rd rs1 rs2 else emit_fadd_s rd rs1 rs2.
Definition emit_fsub_r (rd rs1 rs2 : Z) : Emit unit :=
  if double_precision then emit_fsub_d rd rs1 rs2 else emit_fsub_s rd rs1 rs2.
Definition emit_fmul_r (rd rs1 rs2 : Z) : Emit unit :=
  if double_precision then emit_fmul_d rd rs1 rs2 else emit_fmul_s rd rs1 rs2.
Definition emit_fdiv_r (rd rs1 rs2 : Z) : Emit unit :=
  if double_precision then emit_fdiv_d rd rs1 rs2 else emit_fdiv_s rd rs1 rs2.

(** [emit_variant_move] copies every word of a Variant. *)
Definition emit_variant_move (dst_base dst_offset src_base src_offset tmp_reg : Z) : Emit unit :=
  fold_right (fun i rest =>
    emit_ld tmp_reg src_base (src_offset + Z.of_nat i * 8) ;;;
    emit_sd tmp_reg dst_base (dst_offset + Z.of_nat i * 8) ;;; rest)
    (mret tt) (seq 0 (Z.to_nat (VariantLayout.variant_words m_layout))).

End Real.

Definition emit_scalar_variant_move (dst_base dst_offset src_base src_offset tmp_reg : Z) : Emit unit :=
  fold_right (fun i rest =>
    emit_ld tmp_reg src_base (src_offset + Z.of_nat i * 8) ;;;
    emit_sd tmp_reg dst_base (dst_offset + Z.of_nat i * 8) ;;; rest)
    (mret tt) (seq 0 2).

Definition emit_stack_adjust (amount : Z) : Emit unit :=
  if amount =? 0 then mret tt else emit_add_offset REG_SP REG_SP amount.

Definition emit_load_stack_offset (rd offset : Z) : Emit unit := emit_add_offset rd REG_SP offset.

(** ** Access to emitted words *)

(** [memcpy(&instr, &m_code[at_], 4)] *)
Definition read32 (code : list Z) (at_ : nat) : outcome Z :=
  let? bytes := Wire.memcpy code at_ 4 in Ok (Wire.of_bytes bytes).

(** [memcpy(&m_code[at_], &instr, 4)] *)
Definition write32 (code : list Z) (at_ : nat) (word : Z) : outcome (list Z) :=
  if decide (at_ + 4 <= length code)%nat
  then Ok (take at_ code ++ Wire.write_scalar 4 word ++ drop (at_ + 4) code)
  else Throw (UB "copy from outside the code").

(** The offset of a label; [None] when it was never defined. *)
Definition label_offset (g : Gen) (id : Z) : option nat := mjoin (m_label_offsets g !! Z.to_nat id).

(** ** Relaxation of far branches *)

Definition needs_relaxing (g : Gen) (use : LabelUse) : outcome bool :=
  if (length (m_code g) <? code_offset use + 4)%nat then Ok false
  else
    match label_offset g (label use) with
    | None => Ok false
    | Some target =>
        let? instr := read32 (m_code g) (code_offset use) in
        let opcode := Z.land instr 0x7F in
        if negb (opcode =? 0x63) && negb (opcode =? 0x6F) then Ok false
        else
          let displacement := Z.of_nat target - Z.of_nat (code_offset use) + addend use in
          Ok (negb (fits_in_signed displacement (if opcode =? 0x63 then B_TYPE_IMM_BITS else J_TYPE_IMM_BITS)))
    end.

(** When an entry of a dense table is relaxed, all are, and the dispatch scales
    its index by eight: SH2ADD becomes SH3ADD. *)
Definition widen_table (g : Gen) (st : list bool * list Z) (table : DenseJumpTable) : outcome (list bool * list Z) :=
  let '(relax, code) := st in
  let last := (first_use table + count table)%nat in
  if (length relax <? last)%nat then Throw (UB "jump table past the label uses")
  else if negb (existsb id (take (count table) (drop (first_use table) relax))) then Ok st
  else
    let relax := take (first_use table) relax ++ replicate (count table) true ++ drop last relax in
    let? use := nth_ub (m_label_uses g) (first_use table) in
    if (code_offset use <? 8)%nat then Throw (UB "jump table without a dispatch")
    else
      let dispatch := (code_offset use - 8)%nat in
      let? instr := read32 code dispatch in
      let instr := Z.lor (Z.land instr (Z.lxor 0xFFFFFFFF (Z.shiftl 7 12))) (Z.shiftl 6 12) in
      let? code := write32 code dispatch instr in
      Ok (relax, code).

Fixpoint ofold {A B} (f : B -> A -> outcome B) (l : list A) (b : B) : outcome B :=
  match l with
  | [] => Ok b
  | x :: l => let? b := f b x in ofold f l b
  end.

(** One relaxed use: the branch becomes its inverse over a jump, the jump an
    address in t6 and an indirect jump. *)
Record Relaxing := mkRelaxing { gen : Gen; insertions : list (nat * Z); relaxed_branches : list nat }.

Definition skip_label (i : nat) : string := ".relax_skip" +:+ pretty i.

Definition relax_use (st : Relaxing) (i : nat) : outcome Relaxing :=
  let g := gen st in
  let? use := nth_ub (m_label_uses g) i in
  let code_offset := code_offset use in
  let? instr := read32 (m_code g) code_offset in
  if Z.land instr 0x7F =? 0x63 then
    let instr := Z.lxor (Z.land instr 0x01FFF07F) (Z.shiftl 1 12) in
    let '(g, _) := (let* id := label_id (skip_label i) in set_label id (code_offset + 4) ;;;
                    mark_label_use (skip_label i) code_offset 0) g in
    let? code := write32 (m_code g) code_offset instr in
    Ok (mkRelaxing (set_code code g) (insertions st ++ [((code_offset + 4)%nat, 0x6F)]) (relaxed_branches st ++ [i]))
  else
    let rd := Z.land (Z.shiftr instr 7) 0x1F in
    let instr := Z.lor 0x17 (Z.shiftl REG_WIDE_SCRATCH 7) in
    let next := Z.lor (Z.lor 0x67 (Z.shiftl rd 7)) (Z.shiftl REG_WIDE_SCRATCH 15) in
    let? code := write32 (m_code g) code_offset instr in
    Ok (mkRelaxing (set_code code g) (insertions st ++ [((code_offset + 4)%nat, next)]) (relaxed_branches st)).

(** [std::pair]'s order. *)
Definition insertion_le (a b : nat * Z) : Prop := (a.1 < b.1)%nat \/ (a.1 = b.1 /\ a.2 <= b.2).

#[export] Instance insertion_le_dec : RelDecision insertion_le.
Proof. intros a b. unfold insertion_le. apply _. Defined.

Fixpoint rebuild (code : list Z) (copied : nat) (insertions : list (nat * Z)) : list Z :=
  match insertions with
  | [] => drop copied code
  | (point, word) :: insertions =>
      take (point - copied) (drop copied code) ++ Wire.write_scalar 4 word ++ rebuild code point insertions
  end.

(** Where an offset goes: past every word inserted at or before it. *)
Definition shift (insert_points : list nat) (offset : nat) : nat :=
  (offset + LineTable.upper_bound (fun point => (offset <? point)%nat) insert_points * 4)%nat.

Definition shift_positions (insert_points : list nat) (g : Gen) : Gen :=
  let move := shift insert_points in
  let g := set_labels (m_label_names g) (map (fmap move) (m_label_offsets g))
             (map (fun use => mkUse (label use) (move (code_offset use)) (addend use)) (m_label_uses g)) g in
  set_positions (move <$> m_functions g)
    (if (m_instance_init_offset g =? 0)%nat then 0%nat else move (m_instance_init_offset g))
    (map (fun entry => LineTable.mkEntry (to_uint32 (Z.of_nat (move (Z.to_nat (LineTable.address entry)))))
                         (LineTable.line entry)) (m_line_table g)) g.

(** [m_label_uses[i].code_offset += 4] *)
Definition advance_use (g : Gen) (i : nat) : Gen :=
  set_labels (m_label_names g) (m_label_offsets g)
    (alter (fun use => mkUse (label use) (code_offset use + 4) (addend use)) i (m_label_uses g)) g.

(** One round of the loop; [inr] when nothing was out of reach. *)
Definition relax_round (g : Gen) : outcome (Gen + Gen) :=
  let? relax := omapM (needs_relaxing g) (m_label_uses g) in
  let? (relax, code) := ofold (widen_table g) (m_dense_jump_tables g) (relax, m_code g) in
  let g := set_code code g in
  let chosen := List.filter (fun i => nth i relax false) (seq 0 (length relax)) in
  let? st := ofold relax_use chosen (mkRelaxing g [] []) in
  let g := gen st in
  if (length (insertions st) =? 0)%nat then Ok (inr g)
  else
    let insertions := merge_sort insertion_le (insertions st) in
    let g := set_code (rebuild (m_code g) 0 insertions) g in
    let g := shift_positions (map fst insertions) g in
    Ok (inl (fold_left advance_use (relaxed_branches st) g)).

(** [while (true)]: every round lengthens a use that was there at the start, and
    a use is lengthened at most twice, from a branch to a jump to an address. *)
Fixpoint relax_rounds (fuel : nat) (g : Gen) : outcome Gen :=
  match fuel with
  | O => Throw OutOfFuel
  | S fuel =>
      let? r := relax_round g in
      match r with inl g => relax_rounds fuel g | inr g => Ok g end
  end.

Definition relax_branches (g : Gen) : outcome Gen := relax_rounds (S (2 * length (m_label_uses g))) g.

(** ** Resolution of label uses *)

Definition resolve_pair (code : list Z) (at_ : nat) (label : string) (offset instr : Z) : outcome (list Z) :=
  let rd := Z.land (Z.shiftr instr 7) 0x1F in
  let? next_instr := read32 code (at_ + 4) in
  let next_opcode := Z.land next_instr 0x7F in
  let upper_word upper := Z.lor (Z.lor 0x17 (Z.shiftl rd 7)) (Z.shiftl (Z.land upper 0xFFFFF) 12) in
  if next_opcode =? 0x67 then
    let? _ := check_displacement ("AUIPC/JALR to '" +:+ label +:+ "'") offset 32 in
    let upper := Z.shiftr (offset + 0x800) 12 in
    let? _ := check_immediate ("AUIPC to '" +:+ label +:+ "'") upper 20 in
    let next_instr := Z.lor (Z.land next_instr 0x000FFFFF) (Z.shiftl (Z.land offset 0xFFF) 20) in
    let? code := write32 code (at_ + 4) next_instr in
    write32 code at_ (upper_word upper)
  else if next_opcode =? 0x03 then
    let upper := wraps 32 (Z.shiftr (offset + 0x800) 12) in
    let lower := Z.land offset 0xFFF in
    let? code := write32 code at_ (upper_word upper) in
    let next_instr :=
      Z.lor (Z.lor (Z.lor (Z.lor 0x03 (Z.shiftl (Z.land (Z.shiftr next_instr 7) 0x1F) 7))
        (Z.shiftl (Z.land (Z.shiftr next_instr 12) 0x7) 12)) (Z.shiftl (Z.land (Z.shiftr next_instr 15) 0x1F) 15))
        (Z.shiftl (Z.land lower 0xFFF) 20) in
    write32 code (at_ + 4) next_instr
  else if next_opcode =? 0x13 then
    let addi_funct3 := Z.land (Z.shiftr next_instr 12) 0x7 in
    let addi_rs1 := Z.land (Z.shiftr next_instr 15) 0x1F in
    let upper := wraps 32 (Z.shiftr (offset + 0x800) 12) in
    let lower := Z.land offset 0xFFF in
    if (addi_rs1 =? rd) && (addi_funct3 =? 0) then
      let? code := write32 code at_ (upper_word upper) in
      let next_instr :=
        Z.lor (Z.lor (Z.lor (Z.lor 0x13 (Z.shiftl (Z.land (Z.shiftr next_instr 7) 0x1F) 7))
          (Z.shiftl addi_funct3 12)) (Z.shiftl addi_rs1 15)) (Z.shiftl (Z.land lower 0xFFF) 20) in
      write32 code (at_ + 4) next_instr
    else write32 code at_ instr
  else write32 code at_ instr.

Definition resolve_use (names : IRStringTable.IRStringTable) (offsets : Z -> option nat) (code : list Z)
    (use : LabelUse) : outcome (list Z) :=
  let use_offset := code_offset use in
  let label_name := IRStringTable.get names (label use) in
  match offsets (label use) with
  | None => codegen_error ("Undefined label: " +:+ label_name)
  | Some target_offset =>
      let offset := Z.of_nat target_offset - Z.of_nat use_offset + addend use in
      let? instr := read32 code use_offset in
      let opcode := Z.land instr 0x7F in
      if opcode =? 0x63 then
        let? _ := check_displacement ("B-type (branch) to '" +:+ label_name +:+ "'") offset B_TYPE_IMM_BITS in
        write32 code use_offset
          (B_word opcode (Z.land (Z.shiftr instr 12) 0x7) (Z.land (Z.shiftr instr 15) 0x1F)
             (Z.land (Z.shiftr instr 20) 0x1F) offset)
      else if opcode =? 0x6F then
        let? _ := check_displacement ("J-type (jump) to '" +:+ label_name +:+ "'") offset J_TYPE_IMM_BITS in
        write32 code use_offset (J_word opcode (Z.land (Z.shiftr instr 7) 0x1F) offset)
      else if opcode =? 0x17 then resolve_pair code use_offset label_name offset instr
      else write32 code use_offset instr
  end.

Definition resolve_labels (g : Gen) : outcome Gen :=
  let? code := ofold (resolve_use (m_label_names g) (label_offset g)) (m_label_uses g) (m_code g) in
  Ok (set_code code g).

(** ** The pools behind the code *)

Definition append_bytes (bytes : list Z) : Emit unit := mmodify (fun g => set_code (m_code g ++ bytes) g).

(** The labels of the constant pool, then its constants. *)
Definition place_constants : Emit unit :=
  let* const_pool_base := offset_of_code in
  let* g := mget in
  let constants := m_constant_pool g in
  fold_right (fun i rest =>
    (let* id := label_id (".LC" +:+ pretty i) in set_label id (const_pool_base + i * 8)) ;;; rest)
    (mret tt) (seq 0 (length constants)) ;;;
  append_bytes (concat (map (fun constant => map (fun i => Z.land (Z.shiftr constant (Z.of_nat i * 8)) 0xFF) (seq 0 8)) constants)).

(** Every string behind its label, with its terminator. *)
Definition place_strings : Emit unit :=
  let* g := mget in
  fold_right (fun '(str, label) rest =>
    (let* id := label_id label in let* here := offset_of_code in set_label id here) ;;;
    append_bytes (Wire.string_bytes str ++ [0]) ;;; rest)
    (mret tt) (m_rodata_strings g).

Definition pad_code : Emit unit :=
  mmodify (fun g => set_code (m_code g ++ replicate ((8 - length (m_code g) mod 8) mod 8) 0) g).

End RISCVCodeGen.
