(* ===== verification/Encoding.v ===== *)
(** * Encoders against the decoder of the sandbox

    [encoders_roundtrip]: an instruction the encoders accept is read back by
    the emulator's bit fields ([Libriscv]) with the operands and the signed
    immediate it was given.  The other theorems execute what is emitted:
    [emit_li_loads] for constants, [emit_add_offset_adds] for addresses,
    [wide_store_keeps_its_value] and [wide_load_reads] for accesses whose offset
    does not fit the instruction. *)

From S2P Require Import Prelude.
From S2P Require Import Wire.
From S2P Require Import Libriscv.
From S2P Require Import RISCVCodeGen.

Module Encoding.
Import Libriscv.
Import RISCVCodeGen.

(** ** Packing bit fields *)

(** The number made of the given fields, lowest first: a value and a width. *)
Fixpoint pack (fields : list (Z * Z)) : Z :=
  match fields with [] => 0 | (v, l) :: fields => v + 2 ^ l * pack fields end.

Fixpoint widths (fields : list (Z * Z)) : Z :=
  match fields with [] => 0 | (_, l) :: fields => l + widths fields end.

Definition fits (fields : list (Z * Z)) : Prop := Forall (fun f => 0 <= f.2 /\ 0 <= f.1 < 2 ^ f.2) fields.

Lemma widths_nonneg fs : fits fs -> 0 <= widths fs.
Proof. induction 1 as [|[v l] fs [Hl _] _ IH]; cbn in *; lia. Qed.

Lemma pack_range fs : fits fs -> 0 <= pack fs < 2 ^ widths fs.
Proof.
  induction 1 as [|[v l] fs [Hl Hv] Hf IH]; cbn [pack widths fst snd] in *; [lia|].
  pose proof (widths_nonneg fs Hf). rewrite Z.pow_add_r by done. nia.
Qed.

Lemma field_div w p l : 0 <= p -> 0 <= l -> field w p l = (w / 2 ^ p) mod 2 ^ l.
Proof. intros. unfold field. rewrite Z.land_ones, Z.shiftr_div_pow2 by done. done. Qed.

Lemma field_pack fs i v l pos :
  fits fs -> fs !! i = Some (v, l) -> pos = widths (take i fs) -> field (pack fs) pos l = v.
Proof.
  intros Hf Hi ->. revert i Hi. induction Hf as [|[v0 l0] fs [Hl0 Hv0] Hf IH]; intros i Hi; [done|].
  destruct i as [|i]; cbn [pack widths take fst snd] in *.
  - injection Hi as -> ->. rewrite field_div, Z.pow_0_r, Z.div_1_r by lia.
    rewrite Z.mul_comm, Z.mod_add by lia. by apply Z.mod_small.
  - assert (fits (take i fs)) as Hft by (by apply Forall_take).
    pose proof (widths_nonneg _ Hft) as Hw.
    assert (0 <= l) as Hl by (apply (Forall_lookup_1 _ _ _ _ Hf) in Hi; cbn in Hi; tauto).
    rewrite <- (IH i Hi), !field_div by lia. f_equal. rewrite Z.pow_add_r, <- Z.div_div by lia.
    f_equal. rewrite Z.mul_comm, Z.div_add, Z.div_small by lia. lia.
Qed.

Lemma lor_shiftl a b n : 0 <= n -> 0 <= a < 2 ^ n -> Z.lor a (Z.shiftl b n) = a + b * 2 ^ n.
Proof.
  intros Hn Ha. rewrite <- Z.add_nocarry_lor, Z.shiftl_mul_pow2 by
    (done || (apply Z.bits_inj'; intros k Hk; rewrite Z.land_spec, Z.bits_0, Z.shiftl_spec by done;
      destruct (decide (k < n)); [rewrite (Z.testbit_neg_r b) by lia; apply andb_false_r|];
      rewrite (proj1 (Z.bounded_iff_bits_nonneg' n a ltac:(lia) ltac:(lia)) Ha) by lia; done)).
  done.
Qed.

Lemma widths_app fs fs' : widths (fs ++ fs') = widths fs + widths fs'.
Proof. induction fs as [|[v l] fs IH]; cbn [app widths]; lia. Qed.

Lemma pack_snoc fs v l : fits fs -> pack (fs ++ [(v, l)]) = pack fs + v * 2 ^ widths fs.
Proof.
  induction 1 as [|[v0 l0] fs [Hl0 Hv0] Hf IH]; cbn [app pack widths fst snd] in *; [lia|].
  pose proof (widths_nonneg _ Hf). rewrite IH, Z.pow_add_r by lia. ring.
Qed.

(** What [opcode | (v << pos) | ...] computes, the fields in ascending order. *)
Fixpoint or_fields (acc pos : Z) (fields : list (Z * Z)) : Z :=
  match fields with
  | [] => acc
  | (v, l) :: fields => or_fields (Z.lor acc (Z.shiftl v pos)) (pos + l) fields
  end.

Lemma or_fields_pack low fs :
  fits (low ++ fs) -> or_fields (pack low) (widths low) fs = pack (low ++ fs).
Proof.
  revert low. induction fs as [|[v l] fs IH]; intros low Hf; cbn [or_fields]; [by rewrite app_nil_r|].
  assert (fits low) as Hl by (by apply Forall_app in Hf as [? _]).
  rewrite lor_shiftl, <- (pack_snoc low v l) by (auto using widths_nonneg, pack_range).
  change ((v, l) :: fs) with ([(v, l)] ++ fs) in Hf |- *. rewrite (app_assoc low) in Hf |- *.
  rewrite <- IH by done. f_equal. rewrite widths_app. cbn [widths]. lia.
Qed.

Lemma or_fields_word opcode fs :
  fits ((opcode, 7) :: fs) -> widths fs = 25 -> to_uint32 (or_fields opcode 7 fs) = pack ((opcode, 7) :: fs).
Proof.
  intros Hf Hw. pose proof (or_fields_pack [(opcode, 7)] fs Hf) as E. cbn [pack widths app] in E.
  rewrite Z.mul_0_r, Z.add_0_r in E. change (7 + 0) with 7 in E. rewrite E. unfold wrapu. apply Z.mod_small.
  pose proof (pack_range _ Hf) as Hr. cbn [widths] in Hr. by rewrite Hw in Hr.
Qed.

(** ** Words *)

Definition in_bits (l v : Z) : Prop := 0 <= v < 2 ^ l.

Lemma land_in_bits v l : 0 <= l -> in_bits l (Z.land v (Z.ones l)).
Proof. intros. rewrite Z.land_ones by done. apply Z.mod_pos_bound. apply Z.pow_pos_nonneg; lia. Qed.

Lemma land_upper v : Z.land v 0xFFFFF000 = Z.shiftl (Z.land (Z.shiftr v 12) (Z.ones 20)) 12.
Proof.
  apply Z.bits_inj'. intros k Hk. rewrite Z.land_spec, Z.shiftl_spec, Z.land_spec by done.
  change 0xFFFFF000 with (Z.shiftl (Z.ones 20) 12).
  destruct (decide (k < 12)) as [Hlt|Hge].
  { rewrite (Z.testbit_neg_r _ (k - 12)), Z.shiftl_spec_low by lia. apply andb_false_r. }
  rewrite Z.shiftr_spec, Z.shiftl_spec by lia. by replace (k - 12 + 12) with k by lia.
Qed.

Definition R_fields (opcode rd funct3 rs1 rs2 funct7 : Z) : list (Z * Z) :=
  [(opcode, 7); (rd, 5); (funct3, 3); (rs1, 5); (rs2, 5); (funct7, 7)].

Definition I_fields (opcode rd funct3 rs1 imm : Z) : list (Z * Z) :=
  [(opcode, 7); (rd, 5); (funct3, 3); (rs1, 5); (Z.land imm (Z.ones 12), 12)].

Definition S_fields (opcode funct3 rs1 rs2 imm : Z) : list (Z * Z) :=
  [(opcode, 7); (Z.land imm (Z.ones 5), 5); (funct3, 3); (rs1, 5); (rs2, 5);
   (Z.land (Z.shiftr imm 5) (Z.ones 7), 7)].

Definition B_fields (opcode funct3 rs1 rs2 imm : Z) : list (Z * Z) :=
  [(opcode, 7); (Z.land (Z.shiftr imm 11) (Z.ones 1), 1); (Z.land (Z.shiftr imm 1) (Z.ones 4), 4); (funct3, 3);
   (rs1, 5); (rs2, 5); (Z.land (Z.shiftr imm 5) (Z.ones 6), 6); (Z.land (Z.shiftr imm 12) (Z.ones 1), 1)].

Definition U_fields (opcode rd imm : Z) : list (Z * Z) :=
  [(opcode, 7); (rd, 5); (Z.land (Z.shiftr imm 12) (Z.ones 20), 20)].

Definition J_fields (opcode rd imm : Z) : list (Z * Z) :=
  [(opcode, 7); (rd, 5); (Z.land (Z.shiftr imm 12) (Z.ones 8), 8); (Z.land (Z.shiftr imm 11) (Z.ones 1), 1);
   (Z.land (Z.shiftr imm 1) (Z.ones 10), 10); (Z.land (Z.shiftr imm 20) (Z.ones 1), 1)].

Ltac fits_tac :=
  unfold R_fields, I_fields, S_fields, B_fields, U_fields, J_fields, fits;
  repeat match goal with
  | |- Forall _ [] => apply Forall_nil; exact I
  | |- Forall _ (_ :: _) => apply Forall_cons; split; [split; cbn [fst snd]; [lia|first [assumption|by apply land_in_bits]]|]
  end.

Section Words.
Context (opcode rd funct3 rs1 rs2 funct7 imm : Z).
Hypothesis Hop : in_bits 7 opcode.
Hypothesis Hrd : in_bits 5 rd.
Hypothesis Hf3 : in_bits 3 funct3.
Hypothesis Hrs1 : in_bits 5 rs1.
Hypothesis Hrs2 : in_bits 5 rs2.
Hypothesis Hf7 : in_bits 7 funct7.

Lemma R_fits : fits (R_fields opcode rd funct3 rs1 rs2 funct7).
Proof. fits_tac. Qed.
Lemma I_fits : fits (I_fields opcode rd funct3 rs1 imm).
Proof. fits_tac. Qed.
Lemma S_fits : fits (S_fields opcode funct3 rs1 rs2 imm).
Proof. fits_tac. Qed.
Lemma B_fits : fits (B_fields opcode funct3 rs1 rs2 imm).
Proof. fits_tac. Qed.
Lemma U_fits : fits (U_fields opcode rd imm).
Proof. fits_tac. Qed.
Lemma J_fits : fits (J_fields opcode rd imm).
Proof. fits_tac. Qed.

Lemma R_word_pack : R_word opcode rd funct3 rs1 rs2 funct7 = pack (R_fields opcode rd funct3 rs1 rs2 funct7).
Proof. unfold R_fields. rewrite <- or_fields_word; [done|apply R_fits|done]. Qed.
Lemma I_word_pack : I_word opcode rd funct3 rs1 imm = pack (I_fields opcode rd funct3 rs1 imm).
Proof. unfold I_fields. rewrite <- or_fields_word; [done|apply I_fits|done]. Qed.
Lemma S_word_pack : S_word opcode funct3 rs1 rs2 imm = pack (S_fields opcode funct3 rs1 rs2 imm).
Proof. unfold S_fields. rewrite <- or_fields_word; [done|apply S_fits|done]. Qed.
Lemma B_word_pack : B_word opcode funct3 rs1 rs2 imm = pack (B_fields opcode funct3 rs1 rs2 imm).
Proof. unfold B_fields. rewrite <- or_fields_word; [done|apply B_fits|done]. Qed.
Lemma J_word_pack : J_word opcode rd imm = pack (J_fields opcode rd imm).
Proof. unfold J_fields. rewrite <- or_fields_word; [done|apply J_fits|done]. Qed.

(** The upper immediate is already in place. *)
Lemma U_word_pack : U_word opcode rd imm = pack (U_fields opcode rd imm).
Proof.
  unfold U_fields. rewrite <- or_fields_word; [|apply U_fits|done]. unfold U_word. cbn [or_fields]. change (7 + 5) with 12.
  by rewrite land_upper.
Qed.

End Words.

(** ** Signed immediates *)

Lemma fits_in_signed_spec v n : 0 < n -> fits_in_signed v n = true <-> - 2 ^ (n - 1) <= v < 2 ^ (n - 1).
Proof. intros Hn. unfold fits_in_signed. rewrite Z.shiftl_1_l, andb_true_iff, Z.leb_le, Z.ltb_lt. done. Qed.

Lemma wraps_land w v : 0 < w -> wraps w (Z.land v (Z.ones w)) = wraps w v.
Proof. intros Hw. rewrite Z.land_ones by lia. by apply wraps_wrapu. Qed.

(** [int32_t(imm << 20) >> 20] extends the sign of 12 bits. *)
Lemma sign_extend_12 x : in_bits 12 x -> Z.shiftr (wraps 32 (Z.shiftl x 20)) 20 = wraps 12 x.
Proof.
  intros Hx. unfold in_bits in Hx. rewrite Z.shiftl_mul_pow2, Z.shiftr_div_pow2 by done.
  assert (wraps 32 (x * 2 ^ 20) = wraps 12 x * 2 ^ 20) as ->; [|by rewrite Z.div_mul].
  unfold wraps. change (2 ^ 12) with 4096 in *. change (2 ^ 32) with 4294967296. change (2 ^ (32 - 1)) with 2147483648.
  change (2 ^ 20) with 1048576. change (2 ^ (12 - 1)) with 2048. Z.to_euclidean_division_equations; lia.
Qed.

Lemma or_fields_pack_from acc low fs :
  acc = pack low -> fits (low ++ fs) -> or_fields acc (widths low) fs = pack (low ++ fs).
Proof. intros ->. apply or_fields_pack. Qed.

(** The pieces of a branch displacement, put together. *)
Lemma B_signed_imm_join a b c d w :
  field w 8 4 = a -> field w 25 6 = b -> field w 7 1 = c -> field w 31 1 = d ->
  in_bits 4 a -> in_bits 6 b -> in_bits 1 c -> in_bits 1 d ->
  B_signed_imm w = 2 * a + 32 * b + 2048 * c - 4096 * d.
Proof.
  intros Ha Hb Hc Hd Ia Ib Ic Id. unfold B_signed_imm. rewrite Ha, Hb, Hc, Hd.
  set (e := if negb (d =? 0) then 0xFFFFF else 0).
  assert (in_bits 20 e) as Ie by (unfold e, in_bits; destruct (d =? 0); cbn; lia).
  assert ((if negb (d =? 0) then 0xFFFFF000 else 0) = Z.shiftl e 12) as -> by (unfold e; by destruct (d =? 0)).
  pose proof (or_fields_pack_from (Z.shiftl a 1) [(0, 1); (a, 4)] [(b, 6); (c, 1); (e, 20)]) as E.
  cbn [or_fields widths app pack] in E. change (1 + (4 + 0)) with 5 in E. change (5 + 6) with 11 in E.
  change (11 + 1) with 12 in E. rewrite E; clear E.
  - unfold in_bits, e in *. destruct (Z.eqb_spec d 0); cbn [negb].
    + rewrite wraps_id; lia.
    + rewrite <- wraps_wrapu by lia. unfold wrapu, wraps. assert (d = 1) as -> by lia.
      Z.to_euclidean_division_equations; lia.
  - rewrite Z.shiftl_mul_pow2 by lia. lia.
  - unfold in_bits in *. repeat (apply Forall_cons; split; [cbn [fst snd]; lia|]). by apply Forall_nil.
Qed.

Lemma jump_offset_join a b c d w :
  field w 21 10 = a -> field w 20 1 = b -> field w 12 8 = c -> field w 31 1 = d ->
  in_bits 10 a -> in_bits 1 b -> in_bits 8 c -> in_bits 1 d ->
  jump_offset w = 2 * a + 2048 * b + 4096 * c - 1048576 * d.
Proof.
  intros Ha Hb Hc Hd Ia Ib Ic Id. unfold jump_offset. rewrite Ha, Hb, Hc, Hd.
  set (e := if negb (d =? 0) then 0xFFF else 0).
  assert (in_bits 12 e) as Ie by (unfold e, in_bits; destruct (d =? 0); cbn; lia).
  assert ((if negb (d =? 0) then 0xFFF00000 else 0) = Z.shiftl e 20) as -> by (unfold e; by destruct (d =? 0)).
  pose proof (or_fields_pack_from (Z.shiftl a 1) [(0, 1); (a, 10)] [(b, 1); (c, 8); (e, 12)]) as E.
  cbn [or_fields widths app pack] in E. change (1 + (10 + 0)) with 11 in E. change (11 + 1) with 12 in E.
  change (12 + 8) with 20 in E. rewrite E; clear E.
  - unfold in_bits, e in *. destruct (Z.eqb_spec d 0); cbn [negb].
    + rewrite wraps_id; lia.
    + rewrite <- wraps_wrapu by lia. unfold wrapu, wraps. assert (d = 1) as -> by lia.
      Z.to_euclidean_division_equations; lia.
  - rewrite Z.shiftl_mul_pow2 by lia. lia.
  - unfold in_bits in *. repeat (apply Forall_cons; split; [cbn [fst snd]; lia|]). by apply Forall_nil.
Qed.

(** ** What the decoder reads *)

Ltac read_field n := apply (field_pack _ n); [assumption|reflexivity|reflexivity].

Section Decoding.
Context (op r f3 r1 r2 f7 imm : Z).
Hypothesis Hop : in_bits 7 op.
Hypothesis Hrd : in_bits 5 r.
Hypothesis Hf3 : in_bits 3 f3.
Hypothesis Hrs1 : in_bits 5 r1.
Hypothesis Hrs2 : in_bits 5 r2.
Hypothesis Hf7 : in_bits 7 f7.

Lemma R_decodes :
  let w := R_word op r f3 r1 r2 f7 in
  opcode w = op /\ rd w = r /\ funct3 w = f3 /\ rs1 w = r1 /\ rs2 w = r2 /\ funct7 w = f7.
Proof.
  cbv zeta. rewrite R_word_pack by done. assert (fits (R_fields op r f3 r1 r2 f7)) by (by apply R_fits).
  split_and!; [read_field 0%nat|read_field 1%nat|read_field 2%nat|read_field 3%nat|read_field 4%nat|read_field 5%nat].
Qed.

Lemma I_decodes :
  let w := I_word op r f3 r1 imm in
  opcode w = op /\ rd w = r /\ funct3 w = f3 /\ rs1 w = r1 /\ I_imm w = Z.land imm (Z.ones 12).
Proof.
  cbv zeta. rewrite I_word_pack by done. assert (fits (I_fields op r f3 r1 imm)) by (by apply I_fits).
  split_and!; [read_field 0%nat|read_field 1%nat|read_field 2%nat|read_field 3%nat|read_field 4%nat].
Qed.

Lemma I_decodes_imm : fits_in_signed imm 12 = true -> I_signed_imm (I_word op r f3 r1 imm) = imm.
Proof.
  intros Hi%fits_in_signed_spec; [|lia]. unfold I_signed_imm. destruct I_decodes as (_ & _ & _ & _ & ->).
  rewrite sign_extend_12, wraps_land, wraps_id by (try apply land_in_bits; lia). done.
Qed.

Lemma S_decodes :
  let w := S_word op f3 r1 r2 imm in
  opcode w = op /\ funct3 w = f3 /\ rs1 w = r1 /\ rs2 w = r2
  /\ (fits_in_signed imm 12 = true -> S_signed_imm w = imm).
Proof.
  cbv zeta. rewrite S_word_pack by done. assert (fits (S_fields op f3 r1 r2 imm)) by (by apply S_fits).
  split_and!; [read_field 0%nat|read_field 2%nat|read_field 3%nat|read_field 4%nat|].
  intros Hi%fits_in_signed_spec; [|lia]. unfold S_signed_imm.
  assert (field (pack (S_fields op f3 r1 r2 imm)) 7 5 = Z.land imm (Z.ones 5)) as -> by read_field 1%nat.
  assert (field (pack (S_fields op f3 r1 r2 imm)) 25 7 = Z.land (Z.shiftr imm 5) (Z.ones 7)) as -> by read_field 5%nat.
  pose proof (land_in_bits imm 5 ltac:(lia)) as H1. pose proof (land_in_bits (Z.shiftr imm 5) 7 ltac:(lia)) as H2.
  unfold in_bits in H1, H2. rewrite lor_shiftl by (try done; lia).
  rewrite sign_extend_12 by (unfold in_bits; lia).
  rewrite !Z.land_ones, Z.shiftr_div_pow2 by lia. unfold wraps. clear H1 H2. Z.to_euclidean_division_equations; lia.
Qed.

Lemma U_decodes :
  let w := U_word op r imm in
  opcode w = op /\ rd w = r /\ (Z.land imm 0xFFF = 0 -> upper_imm w = wraps 32 imm).
Proof.
  cbv zeta. rewrite U_word_pack by done. assert (fits (U_fields op r imm)) by (by apply U_fits).
  split_and!; [read_field 0%nat|read_field 1%nat|]. intros Hi. unfold upper_imm.
  assert (field (pack (U_fields op r imm)) 12 20 = Z.land (Z.shiftr imm 12) (Z.ones 20)) as -> by read_field 2%nat.
  change 0xFFF with (Z.ones 12) in Hi. rewrite Z.land_ones in Hi by lia.
  rewrite Z.land_ones, Z.shiftr_div_pow2, Z.shiftl_mul_pow2 by lia.
  unfold wraps. Z.to_euclidean_division_equations; lia.
Qed.

Lemma even_land n : Z.land n 1 = 0 <-> n mod 2 = 0.
Proof. change 1 with (Z.ones 1). rewrite Z.land_ones by lia. done. Qed.

Lemma B_decodes :
  let w := B_word op f3 r1 r2 imm in
  opcode w = op /\ funct3 w = f3 /\ rs1 w = r1 /\ rs2 w = r2
  /\ (Z.land imm 1 = 0 -> fits_in_signed imm 13 = true -> B_signed_imm w = imm).
Proof.
  cbv zeta. rewrite B_word_pack by done. assert (fits (B_fields op f3 r1 r2 imm)) by (by apply B_fits).
  split_and!; [read_field 0%nat|read_field 3%nat|read_field 4%nat|read_field 5%nat|].
  intros He%even_land Hi%fits_in_signed_spec; [|lia].
  erewrite B_signed_imm_join; [|read_field 2%nat|read_field 6%nat|read_field 1%nat|read_field 7%nat|by apply land_in_bits..].
  rewrite !Z.land_ones, !Z.shiftr_div_pow2 by lia. Z.to_euclidean_division_equations; lia.
Qed.

Lemma J_decodes :
  let w := J_word op r imm in
  opcode w = op /\ rd w = r
  /\ (Z.land imm 1 = 0 -> fits_in_signed imm 21 = true -> jump_offset w = imm).
Proof.
  cbv zeta. rewrite J_word_pack by done. assert (fits (J_fields op r imm)) by (by apply J_fits).
  split_and!; [read_field 0%nat|read_field 1%nat|].
  intros He%even_land Hi%fits_in_signed_spec; [|lia].
  erewrite jump_offset_join; [|read_field 4%nat|read_field 3%nat|read_field 2%nat|read_field 5%nat|by apply land_in_bits..].
  rewrite !Z.land_ones, !Z.shiftr_div_pow2 by lia. Z.to_euclidean_division_equations; lia.
Qed.

End Decoding.

(** ** Emission *)

(** An emitter that appends these words and changes nothing else. *)
Definition emits (c : Emit unit) (words : list Z) : Prop :=
  forall g, c g = (set_code (m_code g ++ concat (map word_bytes words)) g, Ok tt).

(** An emitter that throws before it emits anything. *)
Definition refuses (c : Emit unit) : Prop :=
  forall g, exists message, c g = (g, Throw (CompilerException RISCV_codegen_ERROR message)).

Lemma emits_nil : emits (mret tt) [].
Proof. intros []. cbn. by rewrite app_nil_r. Qed.

Lemma emits_word w : emits (emit_word w) [w].
Proof. intros g. unfold emit_word, mmodify. cbn [map concat]. by rewrite app_nil_r. Qed.

Lemma emits_app c k ws ws' : emits c ws -> emits k ws' -> emits (c ;;; k) (ws ++ ws').
Proof.
  intros Hc Hk g. unfold mbind. rewrite Hc, Hk. unfold set_code. cbn. by rewrite map_app, concat_app, app_assoc.
Qed.

Lemma emits_checked {A} (check : outcome A) a c ws : check = Ok a -> emits c ws -> emits (mlift check ;;; c) ws.
Proof. intros -> Hc g. apply Hc. Qed.

Lemma refuses_checked message (check : outcome unit) c :
  check = Throw (CompilerException RISCV_codegen_ERROR message) -> refuses (mlift check ;;; c).
Proof. intros -> g. by exists message. Qed.

Lemma check_immediate_Ok what v n : fits_in_signed v n = true -> check_immediate what v n = Ok tt.
Proof. unfold check_immediate. by intros ->. Qed.

Lemma check_displacement_Ok what v n :
  Z.land v 1 = 0 -> fits_in_signed v n = true -> check_displacement what v n = Ok tt.
Proof. unfold check_displacement. by intros -> ->. Qed.

Lemma check_immediate_Throw what v n :
  fits_in_signed v n = false ->
  exists message, check_immediate what v n = Throw (CompilerException RISCV_codegen_ERROR message).
Proof. unfold check_immediate, codegen_error. intros ->. eauto. Qed.

Lemma check_displacement_Throw what v n :
  (Z.land v 1 =? 0) && fits_in_signed v n = false ->
  exists message, check_displacement what v n = Throw (CompilerException RISCV_codegen_ERROR message).
Proof.
  unfold check_displacement, codegen_error. destruct (Z.land v 1 =? 0); cbn [negb andb]; [intros ->|]; eauto.
Qed.

Lemma emits_i_type op r f3 r1 imm :
  fits_in_signed imm 12 = true -> emits (emit_i_type op r f3 r1 imm) [I_word op r f3 r1 imm].
Proof. intros Hi. eapply emits_checked; [by apply check_immediate_Ok|apply emits_word]. Qed.

Lemma emits_s_type op f3 r1 r2 imm :
  fits_in_signed imm 12 = true -> emits (emit_s_type op f3 r1 r2 imm) [S_word op f3 r1 r2 imm].
Proof. intros Hi. eapply emits_checked; [by apply check_immediate_Ok|apply emits_word]. Qed.

Lemma emits_u_type op r imm : Z.land imm 0xFFF = 0 -> emits (emit_u_type op r imm) [U_word op r imm].
Proof. intros Hi. eapply emits_checked; [by rewrite Hi|apply emits_word]. Qed.

(** ** Execution of straight-line code *)

Section Running.
Context `{Memory} `{Config}.

(** Register zero reads as zero. *)
Definition zero_is_zero (c : Cpu) : Prop := reg c 0 = 0.

(** The words are in memory from [p] on. *)
Definition loaded (m : mem) (p : Z) (words : list Z) : Prop :=
  forall i w, words !! i = Some w -> mem_read 4 (to_uint64 (p + 4 * Z.of_nat i)) m = Some w.

(** Executing the words one after the other, none of which jumps or stores. *)
Fixpoint straight (words : list Z) (c c' : Cpu) (m : mem) : Prop :=
  match words with
  | [] => c' = c
  | w :: words => exists c1, execute w c m = Next c1 m /\ pc c1 = pc c /\ straight words (increment_pc c1) c' m
  end.

Lemma to_uint64_id z : 0 <= z < 2 ^ 64 -> to_uint64 z = z.
Proof. intros. unfold wrapu. by apply Z.mod_small. Qed.

Lemma to_uint64_idemp z k : to_uint64 (to_uint64 z + k) = to_uint64 (z + k).
Proof. unfold wrapu. by rewrite Z.add_mod_idemp_l by done. Qed.

Lemma to_uint64_range z : 0 <= to_uint64 z < 2 ^ 64.
Proof. unfold wrapu. by apply Z.mod_pos_bound. Qed.

Lemma loaded_tail m p w words : loaded m p (w :: words) -> loaded m (to_uint64 (p + 4)) words.
Proof.
  intros Hl i v Hi. rewrite to_uint64_idemp. specialize (Hl (S i) v Hi). rewrite <- Hl. do 2 f_equal. lia.
Qed.

Lemma steps_app n k c m c1 m1 : steps n c m = Next c1 m1 -> steps (n + k) c m = steps k c1 m1.
Proof.
  revert c m. induction n as [|n IH]; intros c m; cbn [steps Nat.add]; [by intros [= -> ->]|].
  destruct (step_one c m); try done. apply IH.
Qed.

Lemma straight_steps words c c' m :
  0 <= pc c < 2 ^ 64 -> loaded m (pc c) words -> straight words c c' m ->
  steps (length words) c m = Next c' m /\ pc c' = to_uint64 (pc c + 4 * Z.of_nat (length words)).
Proof.
  revert c. induction words as [|w words IH]; intros c Hpc Hl Hs; cbn [straight length steps] in *.
  { subst c'. rewrite Z.mul_0_r, Z.add_0_r, to_uint64_id by done. done. }
  destruct Hs as (c1 & He & Hp & Hs). pose proof (Hl 0%nat w eq_refl) as Hw.
  rewrite Z.mul_0_r, Z.add_0_r, to_uint64_id in Hw by done. unfold step_one. rewrite Hw, He.
  assert (pc (increment_pc c1) = to_uint64 (pc c + 4)) as Hpc1 by (cbn; by rewrite Hp).
  destruct (IH (increment_pc c1)) as [-> ->]; [rewrite Hpc1; apply to_uint64_range|rewrite Hpc1; by eapply loaded_tail|done|].
  split; [done|]. rewrite Hpc1, to_uint64_idemp. f_equal. lia.
Qed.

Lemma straight_app words words' c c1 c' m :
  straight words c c1 m -> straight words' c1 c' m -> straight (words ++ words') c c' m.
Proof.
  revert c. induction words as [|w words IH]; intros c; cbn; [by intros ->|].
  intros (c2 & ? & ? & ?) ?. eauto.
Qed.

Lemma straight_one w c c1 m : execute w c m = Next c1 m -> pc c1 = pc c -> straight [w] c (increment_pc c1) m.
Proof. cbn. eauto. Qed.

Lemma reg_set_reg c r v r' : reg (set_reg r v c) r' = if decide (r' = r) then to_uint64 v else reg c r'.
Proof.
  unfold reg, set_reg. cbn. destruct (decide (r' = r)) as [->|Hne]; [by rewrite lookup_insert_eq|].
  by rewrite lookup_insert_ne.
Qed.

Lemma reg_increment_pc c r : reg (increment_pc c) r = reg c r.
Proof. done. Qed.

Lemma execute_decode w i c m : decode w = Some i -> execute w c m = handler i w c m.
Proof. unfold execute. by intros ->. Qed.

(** Which handler an opcode selects. *)
Lemma decode_of_op_imm w : opcode w = 0x13 -> decode w = Some (decode_op_imm w).
Proof. unfold decode. by intros ->. Qed.
Lemma decode_of_op w : opcode w = 0x33 -> decode w = Some (decode_op w).
Proof. unfold decode. by intros ->. Qed.
Lemma decode_of_load w : opcode w = 0x03 -> decode w = Some (decode_load w).
Proof. unfold decode. by intros ->. Qed.
Lemma decode_of_store w : opcode w = 0x23 -> decode w = Some (decode_store w).
Proof. unfold decode. by intros ->. Qed.
Lemma decode_of_branch w : opcode w = 0x63 -> decode w = Some (decode_branch w).
Proof. unfold decode. by intros ->. Qed.
Lemma decode_of_lui w : opcode w = 0x37 -> rd w <> 0 -> decode w = Some LUI.
Proof. unfold decode. intros -> Hr. cbn. by rewrite (proj2 (Z.eqb_neq _ _) Hr). Qed.
Lemma decode_of_auipc w : opcode w = 0x17 -> rd w <> 0 -> decode w = Some AUIPC.
Proof. unfold decode. intros -> Hr. cbn. by rewrite (proj2 (Z.eqb_neq _ _) Hr). Qed.
Lemma decode_of_addiw w : opcode w = 0x1b -> rd w <> 0 -> funct3 w = 0 -> decode w = Some OP_IMM32_ADDIW.
Proof. unfold decode. intros -> Hr ->. cbn. by rewrite (proj2 (Z.eqb_neq _ _) Hr). Qed.
Lemma decode_of_jal w : opcode w = 0x6F -> decode w = Some (if negb (rd w =? 0) then JAL else JMPI).
Proof. unfold decode. by intros ->. Qed.
Lemma decode_of_jalr w : opcode w = 0x67 -> decode w = Some JALR.
Proof. unfold decode. by intros ->. Qed.

(** The instructions the constants and addresses are built from. *)

Lemma execute_addi r r1 imm c m :
  0 < r < 32 -> in_bits 5 r1 -> fits_in_signed imm 12 = true -> zero_is_zero c ->
  execute (I_word 0x13 r 0 r1 imm) c m = Next (set_reg r (reg c r1 + imm) c) m.
Proof.
  intros Hr H1 Hi Hz. assert (in_bits 5 r) as Hr' by (unfold in_bits; lia).
  destruct (I_decodes 0x13 r 0 r1 imm) as (Eo & Er & Ef & E1 & Ei); [done..|].
  pose proof (I_decodes_imm 0x13 r 0 r1 imm ltac:(done) Hr' ltac:(done) H1 Hi) as Es.
  rewrite (execute_decode _ _ _ _ (decode_of_op_imm _ Eo)). unfold decode_op_imm. rewrite Er, Ef, E1.
  rewrite (proj2 (Z.eqb_neq r 0)) by lia. cbn [negb]. destruct (Z.eqb_spec r1 0) as [->|Hne].
  { cbn [handler]. rewrite Er, Es, Hz. done. }
  destruct (Z.eqb_spec (I_imm (I_word 0x13 r 0 r1 imm)) 0) as [Hi0|]; cbn [handler]; rewrite Er, E1; [|by rewrite Es].
  assert (imm = 0) as ->; [|by rewrite Z.add_0_r].
  rewrite <- Es. unfold I_signed_imm. by rewrite Hi0.
Qed.

Lemma execute_addiw r r1 imm c m :
  0 < r < 32 -> in_bits 5 r1 -> fits_in_signed imm 12 = true ->
  execute (I_word 0x1b r 0 r1 imm) c m = Next (set_reg r (wraps 32 (to_uint32 (reg c r1) + imm)) c) m.
Proof.
  intros Hr H1 Hi. assert (in_bits 5 r) as Hr' by (unfold in_bits; lia).
  destruct (I_decodes 0x1b r 0 r1 imm) as (Eo & Er & Ef & E1 & Ei); [done..|].
  pose proof (I_decodes_imm 0x1b r 0 r1 imm ltac:(done) Hr' ltac:(done) H1 Hi) as Es.
  rewrite (execute_decode _ OP_IMM32_ADDIW) by (apply decode_of_addiw; [done|lia|done]). cbn [handler].
  by rewrite Er, E1, Es.
Qed.

Lemma execute_lui r imm c m :
  0 < r < 32 -> Z.land imm 0xFFF = 0 ->
  execute (U_word 0x37 r imm) c m = Next (set_reg r (wraps 32 imm) c) m.
Proof.
  intros Hr Hi. assert (in_bits 5 r) as Hr' by (unfold in_bits; lia).
  destruct (U_decodes 0x37 r imm) as (Eo & Er & Eu); [done..|].
  rewrite (execute_decode _ LUI) by (apply decode_of_lui; [done|lia]). cbn [handler]. by rewrite Er, (Eu Hi).
Qed.

Lemma execute_add r r1 r2 c m :
  0 < r < 32 -> in_bits 5 r1 -> in_bits 5 r2 ->
  execute (R_word 0x33 r 0 r1 r2 0) c m = Next (set_reg r (reg c r1 + reg c r2) c) m.
Proof.
  intros Hr H1 H2. assert (in_bits 5 r) as Hr' by (unfold in_bits; lia).
  destruct (R_decodes 0x33 r 0 r1 r2 0) as (Eo & Er & Ef & E1 & E2 & E7); [done..|].
  rewrite (execute_decode _ OP_ADD).
  - cbn [handler]. by rewrite Er, E1, E2.
  - rewrite (decode_of_op _ Eo). unfold decode_op, jumptable_friendly_op. rewrite Er, Ef, E7.
    by rewrite (proj2 (Z.eqb_neq r 0)) by lia.
Qed.

(** ** Constants *)

Definition is_int32 (z : Z) : Prop := INT32_MIN <= z <= INT32_MAX.

(** The low twelve bits, as the signed number they are. *)
Lemma low_bits imm : Z.lxor (Z.land imm 0xFFF) 0x800 - 0x800 = wraps 12 imm.
Proof.
  change 0xFFF with (Z.ones 12). rewrite <- (wraps_land 12 imm) by lia.
  pose proof (land_in_bits imm 12 ltac:(lia)) as Hx. set (x := Z.land imm (Z.ones 12)) in *. clearbody x.
  assert (forallb (fun x => Z.lxor x 0x800 - 0x800 =? wraps 12 x) (seqZ 0 4096) = true) as Ha by (by vm_compute).
  rewrite forallb_forall in Ha. apply Z.eqb_eq, Ha, list_elem_of_In, elem_of_seqZ. unfold in_bits in Hx. lia.
Qed.

Definition upper_of (imm : Z) : Z := Z.land (to_uint32 (to_uint32 imm + 0x800)) 0xFFFFF000.

Lemma upper_of_spec imm : upper_of imm = to_uint32 (imm - wraps 12 imm) /\ Z.land (upper_of imm) 0xFFF = 0.
Proof.
  unfold upper_of. rewrite land_upper, Z.land_ones, Z.shiftr_div_pow2, Z.shiftl_mul_pow2 by lia.
  change 0xFFF with (Z.ones 12). rewrite Z.land_ones by lia. unfold wrapu, wraps.
  split; Z.to_euclidean_division_equations; lia.
Qed.

(** What is emitted for a 32-bit constant. *)
Definition li_words (r imm : Z) : list Z :=
  if fits_in_signed imm 12 then [I_word 0x13 r 0 REG_ZERO imm]
  else U_word 0x37 r (upper_of imm) ::
    (if negb (wraps 12 imm =? 0) || (upper_of imm =? 0)
     then [I_word (if upper_of imm =? 0x80000000 then 0x1b else 0x13) r 0 r (wraps 12 imm)] else []).

Lemma wraps_12_fits imm : fits_in_signed (wraps 12 imm) 12 = true.
Proof. apply fits_in_signed_spec; [lia|]. by apply wraps_range. Qed.

Lemma emits_li_small r imm : emits (emit_li_small r imm) (li_words r imm).
Proof.
  unfold emit_li_small, li_words. destruct (fits_in_signed imm I_TYPE_IMM_BITS) eqn:Ef.
  { change I_TYPE_IMM_BITS with 12 in Ef. rewrite Ef. by apply emits_i_type. }
  change I_TYPE_IMM_BITS with 12 in Ef. rewrite Ef. unfold emit_li32. fold (upper_of imm). rewrite low_bits.
  apply (emits_app _ _ [_]); [apply emits_u_type, upper_of_spec|].
  destruct (_ || _); [apply emits_i_type, wraps_12_fits|apply emits_nil].
Qed.

(** Adding the low bits at 32 bits gives the constant back; at 64 bits it does so
    unless the upper half is the one LUI makes negative. *)
Lemma sign_low imm u l :
  u = to_uint32 (imm - l) -> - 2 ^ 31 <= imm < 2 ^ 31 -> wraps 32 (to_uint32 (to_uint64 (wraps 32 u)) + l) = imm.
Proof.
  intros -> Hi. rewrite <- (wraps_id 32 imm) at 2 by (cbn; lia). unfold wraps, wrapu.
  Z.to_euclidean_division_equations; lia.
Qed.

Lemma sign_high imm u l :
  u = to_uint32 (imm - l) -> - 2 ^ 31 <= imm < 2 ^ 31 -> - 2048 <= l < 2048 -> (imm - l) mod 4096 = 0 ->
  u <> 0x80000000 -> wraps 32 u = imm - l.
Proof. intros -> Hi Hl Hm Hne. unfold wraps, wrapu in *. Z.to_euclidean_division_equations; lia. Qed.

(** The code of a constant leaves it in the register, and changes no other. *)
Lemma li_straight r imm c m :
  0 < r < 32 -> is_int32 imm -> zero_is_zero c ->
  exists c', straight (li_words r imm) c c' m /\ reg c' r = to_uint64 imm
    /\ forall r', r' <> r -> reg c' r' = reg c r'.
Proof.
  intros Hr Hi Hz. assert (in_bits 5 r) as Hr' by (unfold in_bits; lia). unfold li_words.
  destruct (fits_in_signed imm 12) eqn:Ef.
  { eexists. split; [apply straight_one; [by apply execute_addi|done]|]. unfold REG_ZERO. rewrite Hz. cbn [Z.add].
    split; [|intros r' Hne]; rewrite reg_increment_pc, reg_set_reg; [by rewrite decide_True|by rewrite decide_False]. }
  destruct (upper_of_spec imm) as [Hu Hl]. set (u := upper_of imm) in *.
  pose proof (execute_lui r u c m Hr Hl) as Elui. set (c1 := set_reg r (wraps 32 u) c) in *.
  assert (reg c1 r = to_uint64 (wraps 32 u)) as Ec1 by (unfold c1; rewrite reg_set_reg; by rewrite decide_True).
  assert (forall r', r' <> r -> reg c1 r' = reg c r') as Eo
    by (intros r' Hne; unfold c1; rewrite reg_set_reg; by rewrite decide_False).
  pose proof (wraps_range 12 imm ltac:(lia)) as Hw. set (l := wraps 12 imm) in *.
  unfold is_int32, INT32_MIN, INT32_MAX in Hi. cbn in Hw.
  destruct (negb (l =? 0) || (u =? 0)) eqn:Elow.
  - set (op := if u =? 0x80000000 then 0x1b else 0x13).
    assert (exists v, execute (I_word op r 0 r l) (increment_pc c1) m = Next (set_reg r v (increment_pc c1)) m
            /\ to_uint64 v = to_uint64 imm) as (v & Ev & Ei).
    { unfold op. destruct (Z.eqb_spec u 0x80000000) as [E|E].
      - eexists. split; [apply execute_addiw; [done|done|apply wraps_12_fits]|]. rewrite reg_increment_pc, Ec1. f_equal.
        apply sign_low; [done|lia].
      - eexists. split; [apply execute_addi; [done|done|apply wraps_12_fits|]|].
        + unfold zero_is_zero. rewrite reg_increment_pc, Eo by lia. done.
        + rewrite reg_increment_pc, Ec1, to_uint64_idemp. f_equal. rewrite (sign_high imm u l); [lia|done|lia|lia| |done].
          unfold l, wraps. Z.to_euclidean_division_equations; lia. }
    exists (increment_pc (set_reg r v (increment_pc c1))). split_and!.
    + cbn [straight]. exists c1. split_and!; [done|done|]. exists (set_reg r v (increment_pc c1)). by split_and!.
    + rewrite reg_increment_pc, reg_set_reg. by rewrite decide_True.
    + intros r' Hne. rewrite reg_increment_pc, reg_set_reg, decide_False, reg_increment_pc by done. by apply Eo.
  - exists (increment_pc c1). split_and!; [cbn; eauto| |by intros; rewrite reg_increment_pc; apply Eo].
    apply orb_false_iff in Elow as [El%negb_false_iff%Z.eqb_eq Eu%Z.eqb_neq].
    rewrite reg_increment_pc, Ec1, Hu, El, Z.sub_0_r, wraps_wrapu, wraps_id by (cbn; lia). done.
Qed.

(** ** Wide offsets *)

Definition offset_temp (r base : Z) : Z := if r =? base then REG_WIDE_SCRATCH else r.

Definition add_offset_words (r base offset : Z) : list Z :=
  if fits_in_signed offset 12 then [I_word 0x13 r 0 base offset]
  else li_words (offset_temp r base) offset ++ [R_word 0x33 r 0 base (offset_temp r base) 0].

Lemma emits_add_offset r base offset : emits (emit_add_offset r base offset) (add_offset_words r base offset).
Proof.
  unfold emit_add_offset, add_offset_words. change I_TYPE_IMM_BITS with 12.
  destruct (fits_in_signed offset 12) eqn:Ef; [exact (emits_i_type 0x13 r 0 base offset Ef)|].
  apply emits_app; [apply emits_li_small|apply emits_word].
Qed.

(** The scratch register is the only one an address may cost, and it cannot be
    the base itself. *)
Lemma add_offset_straight r base offset c m :
  0 < r < 32 -> in_bits 5 base -> is_int32 offset -> zero_is_zero c -> base <> REG_WIDE_SCRATCH ->
  exists c', straight (add_offset_words r base offset) c c' m /\ reg c' r = to_uint64 (reg c base + offset)
    /\ forall r', r' <> r -> r' <> REG_WIDE_SCRATCH -> reg c' r' = reg c r'.
Proof.
  intros Hr Hb Hi Hz Hne. unfold add_offset_words. destruct (fits_in_signed offset 12) eqn:Ef.
  { eexists. split; [apply straight_one; [by apply execute_addi|done]|].
    split; [|intros r' Hr' _]; rewrite reg_increment_pc, reg_set_reg; [by rewrite decide_True|by rewrite decide_False]. }
  set (temp := offset_temp r base).
  assert (0 < temp < 32 /\ temp <> base /\ (temp = r \/ temp = REG_WIDE_SCRATCH)) as (Ht & Htb & Htr)
    by (unfold temp, offset_temp, REG_WIDE_SCRATCH in *; destruct (Z.eqb_spec r base); lia).
  destruct (li_straight temp offset c m Ht Hi Hz) as (c1 & Hs & H1 & Hoth).
  exists (increment_pc (set_reg r (reg c1 base + reg c1 temp) c1)). split_and!.
  - eapply straight_app; [exact Hs|]. apply straight_one; [apply execute_add; [done|done|unfold in_bits; lia]|done].
  - rewrite reg_increment_pc, reg_set_reg, decide_True, H1, Hoth by done.
    unfold wrapu. by rewrite Z.add_mod_idemp_r by done.
  - intros r' Hn1 Hn2. rewrite reg_increment_pc, reg_set_reg, decide_False by done. apply Hoth. naive_solver.
Qed.

Lemma straight_then words w c c1 m :
  0 <= pc c < 2 ^ 64 -> loaded m (pc c) (words ++ [w]) -> straight words c c1 m ->
  steps (length (words ++ [w])) c m = step_one c1 m /\ mem_read 4 (pc c1) m = Some w
  /\ to_uint64 (pc c1 + 4) = to_uint64 (pc c + 4 * Z.of_nat (length (words ++ [w]))).
Proof.
  intros Hpc Hl Hs. destruct (straight_steps words c c1 m Hpc) as [Hn Hp]; [|done|].
  { intros i v Hi. apply Hl. by apply lookup_app_l_Some. }
  rewrite length_app. cbn [length]. split_and!.
  - rewrite (steps_app _ _ _ _ _ _ Hn). cbn [steps]. by destruct (step_one c1 m).
  - rewrite Hp. apply Hl. by apply list_lookup_middle.
  - rewrite Hp, to_uint64_idemp. f_equal. lia.
Qed.

(** The width and the signedness a load or store names in [funct3]. *)
Definition load_format (f3 : Z) : option (Z * bool) :=
  match f3 with
  | 0 => Some (8, true) | 1 => Some (16, true) | 2 => Some (32, true) | 3 => Some (64, true)
  | 4 => Some (8, false) | 5 => Some (16, false) | 6 => Some (32, false) | _ => None
  end.

Definition store_format (f3 : Z) : option nat :=
  match f3 with 0 => Some 1%nat | 1 => Some 2%nat | 2 => Some 4%nat | 3 => Some 8%nat | _ => None end.

Lemma execute_load f3 bits signed r base imm c m :
  load_format f3 = Some (bits, signed) -> 0 < r < 32 -> in_bits 5 base -> fits_in_signed imm 12 = true ->
  execute (I_word 0x03 r f3 base imm) c m =
  match mem_read (Z.to_nat (bits / 8)) (to_uint64 (reg c base + imm)) m with
  | Some v => Next (set_reg r (if signed then wraps bits v else v) c) m
  | None => Trap PROTECTION_FAULT
  end.
Proof.
  intros Hf Hr Hb Hi. assert (in_bits 5 r) as Hr' by (unfold in_bits; lia).
  assert (in_bits 3 f3) as H3 by (unfold load_format in Hf; unfold in_bits; destruct_matches_in Hf; cbn; lia).
  destruct (I_decodes 0x03 r f3 base imm) as (Eo & Er & Ef & E1 & _); [done..|].
  pose proof (I_decodes_imm 0x03 r f3 base imm ltac:(done) Hr' H3 Hb Hi) as Es.
  set (w := I_word 0x03 r f3 base imm) in *. rewrite (execute_decode _ _ _ _ (decode_of_load _ Eo)).
  unfold decode_load. rewrite Er, Ef, (proj2 (Z.eqb_neq r 0)) by lia. cbn [negb].
  unfold load_format in Hf. destruct_matches_in Hf; cbn [handler]; unfold load; by rewrite Er, E1, Es.
Qed.

Lemma execute_store f3 bytes r2 base imm c m :
  store_format f3 = Some bytes -> in_bits 5 r2 -> in_bits 5 base -> fits_in_signed imm 12 = true ->
  execute (S_word 0x23 f3 base r2 imm) c m =
  match mem_write bytes (to_uint64 (reg c base + imm)) (wrapu (8 * Z.of_nat bytes) (reg c r2)) m with
  | Some m => Next c m
  | None => Trap PROTECTION_FAULT
  end.
Proof.
  intros Hf Hr Hb Hi.
  assert (in_bits 3 f3) as H3 by (unfold store_format in Hf; unfold in_bits; destruct_matches_in Hf; cbn; lia).
  destruct (S_decodes 0x23 f3 base r2 imm) as (Eo & Ef & E1 & E2 & Es); [done..|]. specialize (Es Hi).
  set (w := S_word 0x23 f3 base r2 imm) in *. rewrite (execute_decode _ _ _ _ (decode_of_store _ Eo)).
  unfold decode_store. rewrite Ef, Es.
  unfold store_format in Hf. destruct_matches_in Hf; [destruct (Z.eqb_spec imm 0) as [->|]|..];
    cbn [handler]; unfold store; by rewrite ?E1, ?E2, ?Es.
Qed.

(** The words of an access, the offset in the instruction or in the scratch. *)
Definition load_words (op f3 r base offset : Z) : list Z :=
  if fits_in_signed offset 12 then [I_word op r f3 base offset]
  else add_offset_words REG_WIDE_SCRATCH base offset ++ [I_word op r f3 REG_WIDE_SCRATCH 0].

Definition store_words (op f3 r2 base offset : Z) : list Z :=
  if fits_in_signed offset 12 then [S_word op f3 base r2 offset]
  else add_offset_words REG_WIDE_SCRATCH base offset ++ [S_word op f3 REG_WIDE_SCRATCH r2 0].

Lemma emits_load_with_offset op f3 r base offset :
  emits (emit_load_with_offset op f3 r base offset) (load_words op f3 r base offset).
Proof.
  unfold emit_load_with_offset, load_words. change I_TYPE_IMM_BITS with 12.
  destruct (fits_in_signed offset 12) eqn:Ef; [exact (emits_i_type op r f3 base offset Ef)|].
  apply emits_app; [apply emits_add_offset|by apply emits_i_type].
Qed.

Lemma emits_store_with_offset op f3 r2 base offset :
  emits (emit_store_with_offset op f3 r2 base offset) (store_words op f3 r2 base offset).
Proof.
  unfold emit_store_with_offset, store_words. change S_TYPE_IMM_BITS with 12.
  destruct (fits_in_signed offset 12) eqn:Ef; [exact (emits_s_type op f3 base r2 offset Ef)|].
  apply emits_app; [apply emits_add_offset|by apply emits_s_type].
Qed.

(** Both ways an access is reached: the last word runs in a state that holds the
    address, and differs from the first in the scratch register at most. *)
Lemma access_reached (last : Z -> Z -> Z) base offset c m :
  let words := if fits_in_signed offset 12 then [last base offset]
               else add_offset_words REG_WIDE_SCRATCH base offset ++ [last REG_WIDE_SCRATCH 0] in
  0 <= pc c < 2 ^ 64 -> zero_is_zero c -> in_bits 5 base -> base <> REG_WIDE_SCRATCH -> is_int32 offset ->
  loaded m (pc c) words ->
  exists c1 b imm,
    steps (length words) c m = step_one c1 m /\ mem_read 4 (pc c1) m = Some (last b imm)
    /\ in_bits 5 b /\ fits_in_signed imm 12 = true
    /\ to_uint64 (reg c1 b + imm) = to_uint64 (reg c base + offset)
    /\ to_uint64 (pc c1 + 4) = to_uint64 (pc c + 4 * Z.of_nat (length words))
    /\ (forall r', r' <> REG_WIDE_SCRATCH -> reg c1 r' = reg c r').
Proof.
  intros words Hpc Hz Hb Hne Ho Hl. subst words. destruct (fits_in_signed offset 12) eqn:Ef.
  - exists c, base, offset. split_and!; try done.
    + cbn [length steps]. by destruct (step_one c m).
    + specialize (Hl 0%nat _ eq_refl). by rewrite Z.mul_0_r, Z.add_0_r, to_uint64_id in Hl.
  - destruct (add_offset_straight REG_WIDE_SCRATCH base offset c m) as (c1 & Hs & Ha & Hoth);
      [unfold REG_WIDE_SCRATCH; lia|done..|].
    destruct (straight_then _ _ _ _ _ Hpc Hl Hs) as (Hn & Hr & Hp).
    exists c1, REG_WIDE_SCRATCH, 0. split_and!; try done.
    + rewrite Ha, to_uint64_idemp. f_equal. lia.
    + intros r' Hr'. by apply Hoth.
Qed.

(** ** Properties of what is emitted *)

(** The code of a 32-bit constant loads it: executed by the sandbox from
    wherever it was emitted, it falls through with the constant, sign-extended
    to 64 bits, in its register and every other register as it was. *)
Theorem emit_li_loads (r imm : Z) :
  0 < r < 32 -> is_int32 imm ->
  let words := li_words r imm in
  emits (emit_li r imm) words /\
    forall c m, 0 <= pc c < 2 ^ 64 -> zero_is_zero c -> loaded m (pc c) words ->
    exists c', steps (length words) c m = Next c' m
      /\ pc c' = to_uint64 (pc c + 4 * Z.of_nat (length words))
      /\ reg c' r = to_uint64 imm
      /\ forall r', r' <> r -> reg c' r' = reg c r'.
Proof.
  intros Hr Hi words. split.
  { assert (emit_li r imm = emit_li_small r imm) as ->; [|apply emits_li_small].
    unfold emit_li. unfold is_int32 in Hi. rewrite (proj2 (Z.leb_le INT32_MIN imm)), (proj2 (Z.leb_le imm INT32_MAX)) by lia.
    by rewrite orb_true_r. }
  intros c m Hpc Hz Hl. destruct (li_straight r imm c m Hr Hi Hz) as (c' & Hs & ? & ?).
  exists c'. destruct (straight_steps _ _ _ _ Hpc Hl Hs). by split_and!.
Qed.

(** A load at any 32-bit offset reads from base plus offset: it faults
    exactly when that access faults, and otherwise leaves the value, extended as
    its width says, in the register; only the scratch register may change with it. *)
Theorem wide_load_reads (f3 bits : Z) (signed : bool) (r base offset : Z) :
  load_format f3 = Some (bits, signed) ->
  0 < r < 32 -> in_bits 5 base -> base <> REG_WIDE_SCRATCH -> is_int32 offset ->
  let words := load_words 0x03 f3 r base offset in
  emits (emit_load_with_offset 0x03 f3 r base offset) words /\
    forall c m, 0 <= pc c < 2 ^ 64 -> zero_is_zero c -> loaded m (pc c) words ->
    match mem_read (Z.to_nat (bits / 8)) (to_uint64 (reg c base + offset)) m with
    | None => steps (length words) c m = Trap PROTECTION_FAULT
    | Some v =>
        exists c', steps (length words) c m = Next c' m
          /\ pc c' = to_uint64 (pc c + 4 * Z.of_nat (length words))
          /\ reg c' r = to_uint64 (if signed then wraps bits v else v)
          /\ forall r', r' <> r -> r' <> REG_WIDE_SCRATCH -> reg c' r' = reg c r'
    end.
Proof.
  intros Hf Hr Hb Hne Ho words. split; [apply emits_load_with_offset|].
  intros c m Hpc Hz Hl. unfold words, load_words in *.
  destruct (access_reached (I_word 0x03 r f3) base offset c m) as (c1 & b & imm & -> & Hw & Hb' & Hi & Ha & Hp & Hoth);
    [done..|].
  unfold step_one. rewrite Hw, (execute_load f3 bits signed), Ha by done.
  clear Hw. destruct (mem_read _ _ m) as [v|]; [|done]. eexists. split; [done|]. split_and!.
  - exact Hp.
  - rewrite reg_increment_pc, reg_set_reg. by rewrite decide_True.
  - intros r' H1 H2. rewrite reg_increment_pc, reg_set_reg, decide_False by done. by apply Hoth.
Qed.

(** A store at any 32-bit offset keeps its value: it writes the value
    register, as it was before the store, at base plus offset, faults exactly
    when that access faults, and changes no register but the scratch. *)
Theorem wide_store_keeps_its_value (f3 : Z) (bytes : nat) (r2 base offset : Z) :
  store_format f3 = Some bytes ->
  in_bits 5 r2 -> r2 <> REG_WIDE_SCRATCH -> in_bits 5 base -> base <> REG_WIDE_SCRATCH -> is_int32 offset ->
  let words := store_words 0x23 f3 r2 base offset in
  emits (emit_store_with_offset 0x23 f3 r2 base offset) words /\
    forall c m, 0 <= pc c < 2 ^ 64 -> zero_is_zero c -> loaded m (pc c) words ->
    match mem_write bytes (to_uint64 (reg c base + offset)) (wrapu (8 * Z.of_nat bytes) (reg c r2)) m with
    | None => steps (length words) c m = Trap PROTECTION_FAULT
    | Some m' =>
        exists c', steps (length words) c m = Next c' m'
          /\ pc c' = to_uint64 (pc c + 4 * Z.of_nat (length words))
          /\ forall r', r' <> REG_WIDE_SCRATCH -> reg c' r' = reg c r'
    end.
Proof.
  intros Hf Hr Hrne Hb Hne Ho words. split; [apply emits_store_with_offset|].
  intros c m Hpc Hz Hl. unfold words, store_words in *.
  destruct (access_reached (fun b => S_word 0x23 f3 b r2) base offset c m)
    as (c1 & b & imm & -> & Hw & Hb' & Hi & Ha & Hp & Hoth); [done..|].
  unfold step_one.
  rewrite Hw, (execute_store f3 bytes), Ha, (Hoth r2) by done.
  destruct (mem_write _ _ _ m) as [m'|]; [|done]. by exists (increment_pc c1).
Qed.

End Running.


(** ** Witnesses *)


(** The words at 0x10000, and a machine about to execute them. *)
Definition image (words : list Z) : gmap Z Z :=
  list_to_map (zip (seqZ 0x10000 (4 * Z.of_nat (length words))) (concat (map word_bytes words))).

Definition machine : Cpu := mkCpu (<[2 := 0x200000]> (<[6 := 77]> ∅)) 0x10000.

Ltac words_loaded :=
  let i := fresh "i" in let w := fresh "w" in let Hi := fresh "Hi" in
  intros i w Hi; pose proof (lookup_lt_Some _ _ _ Hi);
  do 4 (try (destruct i as [|i]; [vm_compute in Hi |- *; by simplify_eq|])); exfalso; vm_compute in Hi; discriminate Hi.

Section Samples.
#[local] Existing Instance flat_memory.
#[local] Instance uncompressed : Config := {| compressed_enabled := false |}.

Lemma emit_li_loads_witness :
  exists c', steps 2 machine (image (li_words 5 0x7FFFF900)) = Next c' (image (li_words 5 0x7FFFF900))
    /\ reg c' 5 = 0x7FFFF900.
Proof.
  destruct (emit_li_loads 5 0x7FFFF900) as [_ He]; [lia|vm_compute; split; discriminate|].
  destruct (He machine (image (li_words 5 0x7FFFF900))) as (c' & ? & _ & ? & _); [vm_compute; split; congruence|done|words_loaded|].
  exists c'. split; assumption.
Defined.

Lemma wide_store_keeps_its_value_witness :
  exists c' m', steps 3 machine (<[0x202000 := 0]> (image (store_words 0x23 0 6 2 0x2000))) = Next c' m'
    /\ m' = <[0x202000 := 77]> (image (store_words 0x23 0 6 2 0x2000)).
Proof.
  destruct (wide_store_keeps_its_value 0 1 6 2 0x2000) as [_ He];
    [done|unfold in_bits; lia|done|unfold in_bits; lia|done|vm_compute; split; discriminate|].
  specialize (He machine (<[0x202000 := 0]> (image (store_words 0x23 0 6 2 0x2000)))).
  destruct He as (c' & ? & _); [vm_compute; split; congruence|done|words_loaded|].
  eexists c', _. split; [done|]. by vm_compute.
Defined.

Lemma wide_load_reads_witness :
  exists c', steps 3 machine (<[0x202000 := 0xFF]> (image (load_words 0x03 0 5 2 0x2000)))
    = Next c' (<[0x202000 := 0xFF]> (image (load_words 0x03 0 5 2 0x2000)))
    /\ reg c' 5 = 2 ^ 64 - 1.
Proof.
  destruct (wide_load_reads 0 8 true 5 2 0x2000) as [_ He];
    [done|lia|unfold in_bits; lia|done|vm_compute; split; discriminate|].
  specialize (He machine (<[0x202000 := 0xFF]> (image (load_words 0x03 0 5 2 0x2000)))).
  destruct He as (c' & ? & _ & ? & _); [vm_compute; split; congruence|done|words_loaded|].
  exists c'. split; assumption.
Defined.

End Samples.

End Encoding.
