(* ===== verification/Relaxation.v ===== *)
(** * Relaxation of far branches

    [relax_branches] rewrites code in place: it turns branches that do not reach
    into longer sequences, inserts the new words, and moves every label, label
    use, function offset and line-table row behind them.  Here the emitted code
    is seen as one group of words per instruction, and every position as the
    index of an instruction ([Asm]).  On that view a round only makes groups
    longer: [relax_use], [rebuild] and [shift] are proved to do exactly that, so
    that positions keep naming the instruction they named. *)

From stdpp Require Import pretty sorting.
From S2P Require Import Prelude.
From S2P Require Import Wire.
From S2P Require Import IR.
From S2P Require Import LineTable.
From S2P Require Import Libriscv.
From S2P Require Import RISCVCodeGen.
From S2P Require Import Encoding.

Module Relaxation.
Import RISCVCodeGen.
Import Encoding.

Local Open Scope nat_scope.

(** ** Words in the code *)

Definition is_word (w : Z) : Prop := (0 <= w < 2 ^ 32)%Z.

(** The bytes of a list of words. *)
Definition code_of (words : list Z) : list Z := concat (map (Wire.write_scalar 4) words).

Lemma word_bytes_write w : word_bytes w = Wire.write_scalar 4 w.
Proof.
  unfold word_bytes. cbn [Wire.write_scalar]. rewrite !Z.shiftr_div_pow2, !Z.div_div by lia.
  change 0xFF%Z with (Z.ones 8). by rewrite !Z.land_ones by lia.
Qed.

Lemma length_code_of ws : length (code_of ws) = 4 * length ws.
Proof.
  unfold code_of. induction ws as [|w ws IH]; [done|]. cbn [map concat length].
  rewrite length_app, Wire.length_write_scalar, IH. lia.
Qed.

Lemma code_of_app ws ws' : code_of (ws ++ ws') = code_of ws ++ code_of ws'.
Proof. unfold code_of. by rewrite map_app, concat_app. Qed.

Lemma code_of_one w : code_of [w] = Wire.write_scalar 4 w.
Proof. unfold code_of. cbn [map concat]. by rewrite app_nil_r. Qed.

Lemma code_of_split ws i w :
  ws !! i = Some w -> code_of ws = code_of (take i ws) ++ Wire.write_scalar 4 w ++ code_of (drop (S i) ws).
Proof.
  intros Hi. rewrite <- (take_drop_middle ws i w Hi) at 1. by rewrite code_of_app.
Qed.

Lemma length_code_take ws i w : ws !! i = Some w -> length (code_of (take i ws)) = 4 * i.
Proof. intros Hi%lookup_lt_Some. rewrite length_code_of, length_take. lia. Qed.

Lemma read32_code ws i w : ws !! i = Some w -> is_word w -> read32 (code_of ws) (4 * i) = Ok w.
Proof.
  intros Hi Hw. unfold read32, Wire.memcpy. pose proof (lookup_lt_Some _ _ _ Hi).
  rewrite decide_True by (rewrite length_code_of; lia). cbn [obind]. f_equal.
  rewrite (code_of_split ws i w Hi). rewrite drop_app_length' by (by rewrite (length_code_take ws i w)).
  rewrite take_app_length' by done. rewrite Wire.of_bytes_write_scalar. by apply Z.mod_small.
Qed.

Lemma write32_code ws i v : i < length ws -> write32 (code_of ws) (4 * i) v = Ok (code_of (<[i := v]> ws)).
Proof.
  intros Hi. destruct (lookup_lt_is_Some_2 ws i Hi) as [w Hw]. unfold write32.
  rewrite decide_True by (rewrite length_code_of; lia). f_equal.
  rewrite (code_of_split (<[i := v]> ws) i v) by (by apply list_lookup_insert_eq).
  rewrite take_insert_ge, drop_insert_lt by lia. rewrite (code_of_split ws i w Hw).
  pose proof (length_code_take ws i w Hw) as Hl.
  rewrite take_app_length' by done. do 2 f_equal.
  rewrite drop_app_ge by lia. rewrite Hl. replace (4 * i + 4 - 4 * i) with 4 by lia.
  by rewrite drop_app_length' by done.
Qed.

(** ** Groups *)

(** The offset of the [k]-th group. *)
Fixpoint start (groups : list (list Z)) (k : nat) : nat :=
  match groups, k with
  | g :: groups, S k => 4 * length g + start groups k
  | _, _ => 0
  end.

Lemma start_0 gs : start gs 0 = 0.
Proof. by destruct gs. Qed.

Lemma start_all gs : start gs (length gs) = 4 * length (concat gs).
Proof. induction gs as [|g gs IH]; [done|]. cbn [start length concat]. rewrite length_app, IH. lia. Qed.

Lemma start_S gs k g : gs !! k = Some g -> start gs (S k) = start gs k + 4 * length g.
Proof.
  revert k. induction gs as [|g' gs IH]; intros [|k] Hk; try done.
  - injection Hk as ->. cbn [start]. rewrite !start_0. lia.
  - cbn in Hk. change (4 * length g' + start gs (S k) = 4 * length g' + start gs k + 4 * length g). rewrite (IH k Hk). lia.
Qed.

(** Word [j] of group [k] is the word at its offset. *)
Lemma group_word gs k g j w :
  gs !! k = Some g -> g !! j = Some w ->
  exists i, start gs k + 4 * j = 4 * i /\ concat gs !! i = Some w
    /\ forall v, concat (<[k := <[j := v]> g]> gs) = <[i := v]> (concat gs).
Proof.
  revert k. induction gs as [|g' gs IH]; intros [|k] Hk Hj; try done.
  - injection Hk as ->. exists j. cbn [start concat]. split_and!; [done|by apply lookup_app_l_Some|].
    intros v. cbn. rewrite insert_app_l; [done|]. by eapply lookup_lt_Some.
  - cbn in Hk. destruct (IH k Hk Hj) as (i & Hi & Hw & Hc). exists (length g' + i).
    cbn [start concat]. split_and!; [lia|by rewrite lookup_app_r, Nat.add_comm, Nat.add_sub by lia|].
    intros v. cbn. rewrite Hc. by rewrite insert_app_r.
Qed.

(** ** The round's rebuild, on groups *)

(** [gs'] is [gs] with some groups one word longer. *)
Definition lengthened (gs gs' : list (list Z)) : Prop :=
  Forall2 (fun g g' => length g' = length g \/ length g' = S (length g)) gs gs'.

(** The code before the insertions: every group cut at its old length. *)
Definition cut (gs gs' : list (list Z)) : list (list Z) := zip_with (fun g g' => take (length g) g') gs gs'.

(** The insertions: a group that grew gives its last word, at the offset where it
    used to end. *)
Fixpoint inserted (off : nat) (gs gs' : list (list Z)) : list (nat * Z) :=
  match gs, gs' with
  | g :: gs, g' :: gs' =>
      let off := off + 4 * length g in
      match g' !! length g with Some w => [(off, w)] | None => [] end ++ inserted off gs gs'
  | _, _ => []
  end.

Lemma inserted_ge off gs gs' : Forall (fun x => off <= x.1) (inserted off gs gs').
Proof.
  revert off gs'. induction gs as [|g gs IH]; intros off [|g' gs']; try constructor. cbn [inserted].
  apply Forall_app. split.
  - destruct (g' !! length g); repeat constructor. cbn. lia.
  - eapply Forall_impl; [apply IH|]. cbn. lia.
Qed.

Lemma grown_word (g g' : list Z) :
  length g' = length g \/ length g' = S (length g) ->
  g' = take (length g) g' ++ match g' !! length g with Some w => [w] | None => [] end.
Proof.
  intros [E|E].
  - rewrite lookup_ge_None_2, app_nil_r by lia. by rewrite firstn_all2 by lia.
  - destruct (lookup_lt_is_Some_2 g' (length g) ltac:(lia)) as [w Hw]. rewrite Hw.
    rewrite <- (take_S_r _ _ _ Hw). by rewrite firstn_all2 by lia.
Qed.

Lemma length_cut (g g' : list Z) :
  length g' = length g \/ length g' = S (length g) -> length (take (length g) g') = length g.
Proof. rewrite length_take. lia. Qed.

Lemma rebuild_inserted code copied off gs gs' :
  lengthened gs gs' -> copied <= off -> drop off code = code_of (concat (cut gs gs')) ->
  rebuild code copied (inserted off gs gs') = take (off - copied) (drop copied code) ++ code_of (concat gs').
Proof.
  intros Hl. revert copied off. induction Hl as [|g g' gs gs' Hg Hl IH]; intros copied off Hc Hd;
    cbn [inserted rebuild concat cut zip_with] in *.
  - rewrite <- Hd. replace (drop off code) with (drop (off - copied) (drop copied code)).
    + by rewrite take_drop.
    + rewrite drop_drop. f_equal. lia.
  - rewrite (grown_word g g' Hg) at 2. rewrite code_of_app in Hd. pose proof (length_cut g g' Hg) as Hcut.
    assert (drop (off + 4 * length g) code = code_of (concat (cut gs gs'))) as Hd'.
    { rewrite <- drop_drop, Hd. apply drop_app_length'. rewrite length_code_of. lia. }
    assert (take (4 * length g) (drop off code) = code_of (take (length g) g')) as Ht.
    { rewrite Hd. apply take_app_length'. rewrite length_code_of. lia. }
    assert (take (off + 4 * length g - copied) (drop copied code)
            = take (off - copied) (drop copied code) ++ code_of (take (length g) g')) as Hpre.
    { replace (off + 4 * length g - copied) with ((off - copied) + 4 * length g) by lia.
      rewrite <- take_take_drop, drop_drop. replace (copied + (off - copied)) with off by lia. by rewrite Ht. }
    destruct (g' !! length g) as [w|]; cbn [app rebuild].
    + rewrite (IH _ (off + 4 * length g)) by (done || lia). rewrite Nat.sub_diag, take_0. cbn [app].
      rewrite Hpre, !code_of_app, code_of_one, <- !app_assoc. done.
    + rewrite (IH _ (off + 4 * length g)) by (done || lia). rewrite Hpre, !app_nil_r, code_of_app. by rewrite <- app_assoc.
Qed.

(** ** The round's shift, on groups *)

Lemma upper_bound_at off lo hi :
  Forall (fun p => p <= off) lo -> Forall (fun p => off < p) hi ->
  LineTable.upper_bound (fun p => (off <? p)) (lo ++ hi) = length lo.
Proof.
  intros Hlo Hhi. unfold LineTable.upper_bound.
  assert (forall i x, (lo ++ hi) !! i = Some x -> (off <? x) = true <-> length lo <= i) as Hat.
  { intros i x Hx. destruct (decide (i < length lo)) as [Hi|Hi].
    - rewrite lookup_app_l in Hx by done. pose proof (Forall_lookup_1 _ _ _ _ Hlo Hx) as H. cbv beta in H.
      destruct (Nat.ltb_spec off x); split; intros; (done || lia).
    - rewrite lookup_app_r in Hx by lia. pose proof (Forall_lookup_1 _ _ _ _ Hhi Hx) as H. cbv beta in H.
      destruct (Nat.ltb_spec off x); split; intros; (done || lia). }
  destruct (LineTable.upper_bound_loop_spec (fun p => off <? p) (lo ++ hi) (length (lo ++ hi)) 0 (length (lo ++ hi)))
    as (Hn & Hbelow & Habove); try lia.
  - intros i j x y Hx Hy Hij Hlt. apply (Hat j y Hy). apply (Hat i x Hx) in Hlt. lia.
  - intros i x Hx%lookup_lt_Some Hi. lia.
  - set (n := LineTable.upper_bound_loop _ _ _ _ _) in *. destruct (Nat.lt_trichotomy n (length lo)) as [Hlt|[?|Hgt]]; [|done|].
    + destruct (lookup_lt_is_Some_2 (lo ++ hi) n ltac:(rewrite length_app; lia)) as [x Hx].
      pose proof (proj1 (Hat n x Hx) (Habove n x Hx (le_n n))). lia.
    + destruct (lookup_lt_is_Some_2 (lo ++ hi) (length lo) ltac:(lia)) as [x Hx].
      pose proof (Hbelow _ x Hx Hgt) as Hf. rewrite (proj2 (Hat _ x Hx)) in Hf by lia. done.
Qed.

(** A position names a group, or a word inside one. *)
Definition inside (gs : list (list Z)) (k j : nat) : Prop :=
  k <= length gs /\ (j = 0 \/ exists g, gs !! k = Some g /\ j < length g).

Lemma inserted_split off gs gs' k j :
  lengthened gs gs' -> Forall (fun g => 0 < length g) gs -> inside gs k j ->
  exists lo hi, map fst (inserted off gs gs') = lo ++ hi
    /\ Forall (fun p => p <= off + (start gs k + 4 * j)) lo /\ Forall (fun p => off + (start gs k + 4 * j) < p) hi
    /\ start gs' k = start gs k + 4 * length lo.
Proof.
  intros Hl. revert off k. induction Hl as [|g g' gs gs' Hg Hl IH]; intros off k Hne Hin.
  { exists [], []. by destruct k. }
  apply Forall_cons in Hne as [Hg0 Hne]. destruct k as [|k].
  - exists [], (map fst (inserted off (g :: gs) (g' :: gs'))). split_and!; [done|constructor| |by rewrite !start_0].
    assert (j < length g) as Hj by (destruct Hin as (_ & [->|(? & [= <-] & ?)]); done).
    rewrite start_0. apply Forall_map. cbn [inserted]. apply Forall_app. split.
    + destruct (g' !! length g); repeat constructor. cbn. lia.
    + eapply Forall_impl; [apply inserted_ge|]. cbn. lia.
  - destruct (IH (off + 4 * length g) k Hne) as (lo & hi & E & Hlo & Hhi & Hs).
    { destruct Hin as [Hk Hj]. split; [cbn in Hk; lia|]. by destruct Hj as [->|Hj]; [left|right]. }
    cbn [inserted start]. rewrite map_app, E.
    exists (map fst (match g' !! length g with Some w => [(off + 4 * length g, w)] | None => [] end) ++ lo), hi.
    split_and!; [by rewrite app_assoc| | |].
    + apply Forall_app. split; [destruct (g' !! length g); repeat constructor; cbn; lia|].
      eapply Forall_impl; [exact Hlo|]. cbn. lia.
    + eapply Forall_impl; [exact Hhi|]. cbn. lia.
    + rewrite length_app, length_map, Hs. rewrite (grown_word g g' Hg) at 1. rewrite length_app, (length_cut g g' Hg).
      destruct (g' !! length g); cbn; lia.
Qed.

Lemma shift_start gs gs' k j :
  lengthened gs gs' -> Forall (fun g => 0 < length g) gs -> inside gs k j ->
  shift (map fst (inserted 0 gs gs')) (start gs k + 4 * j) = start gs' k + 4 * j.
Proof.
  intros Hl Hne Hin. destruct (inserted_split 0 gs gs' k j Hl Hne Hin) as (lo & hi & E & Hlo & Hhi & Hs).
  unfold shift. rewrite E, upper_bound_at, Hs by done. lia.
Qed.

(** The insertions come out of the sort in the order of the code. *)
Lemma inserted_sorted off gs gs' :
  Forall (fun g => 0 < length g) gs -> StronglySorted insertion_le (inserted off gs gs').
Proof.
  intros Hne. revert off gs'. induction Hne as [|g gs Hg Hne IH]; intros off [|g' gs']; try constructor.
  cbn [inserted]. destruct (g' !! length g) as [w|]; cbn [app]; [|apply IH]. constructor; [apply IH|].
  (* later insertions are further *)
  destruct gs as [|g2 gs]; [constructor|]. destruct gs' as [|g2' gs']; [constructor|].
  apply Forall_cons in Hne as [Hg2 _]. cbn [inserted]. apply Forall_app. split.
  - destruct (g2' !! length g2); [apply Forall_cons; split; [left; cbn; lia|]|]; constructor.
  - eapply Forall_impl; [apply inserted_ge|]. cbn. intros x Hx. left. cbn. lia.
Qed.

#[export] Instance insertion_le_trans : Transitive insertion_le.
Proof. intros x y z. unfold insertion_le. lia. Qed.
#[export] Instance insertion_le_antisymm : AntiSymm eq insertion_le.
Proof. intros [a x] [b y]. unfold insertion_le. cbn. intros. f_equal; lia. Qed.
#[export] Instance insertion_le_total : Total insertion_le.
Proof. intros [a x] [b y]. unfold insertion_le. cbn. lia. Qed.

Lemma merge_sort_inserted l gs gs' :
  Forall (fun g => 0 < length g) gs -> l ≡ₚ inserted 0 gs gs' -> merge_sort insertion_le l = inserted 0 gs gs'.
Proof.
  intros Hne Hp. apply (StronglySorted_unique insertion_le).
  - apply StronglySorted_merge_sort; apply _.
  - by apply inserted_sorted.
  - by rewrite merge_sort_Permutation.
Qed.

(** ** The abstract view *)

(** A use of a label by word [u_word] of group [u_group]. *)
Record AUse := mkAUse { u_label : Z; u_group : nat; u_word : nat; u_addend : Z }.

Record Asm := mkAsm {
  groups : list (list Z);
  names : IRStringTable.IRStringTable;
  labels : gmap Z nat;
  uses : list AUse;
  functions : gmap string nat;
  init : nat;
  rows : list (nat * Z)
}.

Definition conc (gs : list (list Z)) (u : AUse) : LabelUse :=
  mkUse (u_label u) (start gs (u_group u) + 4 * u_word u) (u_addend u).

Definition row (gs : list (list Z)) (r : nat * Z) : LineTable.LineTableEntry :=
  LineTable.mkEntry (Z.of_nat (start gs r.1)) r.2.

(** Everything of the state but its code, with positions in the groups [gs]. *)
Record positioned (gs : list (list Z)) (a : Asm) (us : list AUse) (tables : list DenseJumpTable) (g : Gen) : Prop := {
  pos_names : m_label_names g = names a;
  pos_labels : forall id, (0 <= id)%Z -> label_offset g id = start gs <$> labels a !! id;
  pos_room : length (m_label_offsets g) <= length (IRStringTable.m_strings (names a));
  pos_uses : m_label_uses g = map (conc gs) us;
  pos_functions : m_functions g = start gs <$> functions a;
  pos_init : m_instance_init_offset g = start gs (init a);
  pos_rows : m_line_table g = map (row gs) (rows a);
  pos_tables : m_dense_jump_tables g = tables
}.

Definition represents (a : Asm) (tables : list DenseJumpTable) (g : Gen) : Prop :=
  m_code g = code_of (concat (groups a)) /\ positioned (groups a) a (uses a) tables g.

(** ** One use relaxed, abstractly *)

Definition is_branch (w : Z) : bool := (Z.land w 0x7F =? 0x63)%Z.
Definition is_jump (w : Z) : bool := (Z.land w 0x7F =? 0x6F)%Z.

Definition inverse (w : Z) : Z := Z.lxor (Z.land w 0x01FFF07F) (Z.shiftl 1 12).
Definition far_base : Z := Z.lor 0x17 (Z.shiftl REG_WIDE_SCRATCH 7).
Definition far_jump (w : Z) : Z :=
  Z.lor (Z.lor 0x67 (Z.shiftl (Z.land (Z.shiftr w 7) 0x1F) 7)) (Z.shiftl REG_WIDE_SCRATCH 15).

(** What replaces the last word of a group, and what is appended. *)
Definition replaced (w : Z) : Z := if is_branch w then inverse w else far_base.
Definition appended (w : Z) : Z := if is_branch w then 0x6F%Z else far_jump w.

Definition lengthen (g : list Z) (w : Z) : list Z := <[length g - 1 := replaced w]> g ++ [appended w].

Definition advance (us : list AUse) (i : nat) : list AUse :=
  alter (fun u => mkAUse (u_label u) (u_group u) (S (u_word u)) (u_addend u)) i us.

Definition relax_one (a : Asm) (i : nat) (u : AUse) (g : list Z) (w : Z) : Asm :=
  let groups := <[u_group u := lengthen g w]> (groups a) in
  if is_branch w then
    let '(names, id) := IRStringTable.intern (names a) (skip_label i) in
    mkAsm groups names (<[id := S (u_group u)]> (labels a)) (advance (uses a) i ++ [mkAUse id (u_group u) 0 0])
      (functions a) (init a) (rows a)
  else mkAsm groups (names a) (labels a) (uses a) (functions a) (init a) (rows a).

(** ** The round in progress

    [gs] is the code before the insertions.  The uses [us] have not been moved
    past the words inserted before them. *)
Record in_progress (gs : list (list Z)) (a : Asm) (us : list AUse) (tables : list DenseJumpTable) (st : Relaxing) : Prop := {
  ip_lengthened : lengthened gs (groups a);
  ip_code : m_code (gen st) = code_of (concat (cut gs (groups a)));
  ip_inserted : insertions st ≡ₚ inserted 0 gs (groups a);
  ip_positions : positioned gs a us tables (gen st);
  ip_uses : uses a = fold_left advance (relaxed_branches st) us
}.

Lemma lookup_advance us i j :
  advance us i !! j =
  (if decide (i = j) then (fun u => mkAUse (u_label u) (u_group u) (S (u_word u)) (u_addend u)) <$> us !! j else us !! j).
Proof.
  unfold advance. case_decide as E; [subst; by rewrite list_lookup_alter_eq|by rewrite list_lookup_alter_ne].
Qed.

Lemma length_advance us i : length (advance us i) = length us.
Proof. apply length_alter. Qed.

Lemma length_advances is_ us : length (fold_left advance is_ us) = length us.
Proof. revert us. induction is_ as [|i is_ IH]; intros us; [done|]. cbn. by rewrite IH, length_advance. Qed.

Lemma lookup_advances is_ us j : j ∉ is_ -> fold_left advance is_ us !! j = us !! j.
Proof.
  revert us. induction is_ as [|i is_ IH]; intros us Hj; [done|]. cbn. apply not_elem_of_cons in Hj as [? ?].
  rewrite IH, lookup_advance by done. by rewrite decide_False.
Qed.

Lemma advances_app is_ us us' :
  Forall (fun i => i < length us) is_ -> fold_left advance is_ (us ++ us') = fold_left advance is_ us ++ us'.
Proof.
  revert us. induction is_ as [|i is_ IH]; intros us Hf; [done|]. apply Forall_cons in Hf as [Hi Hf]. cbn.
  rewrite <- IH by (by rewrite length_advance). f_equal. unfold advance. by rewrite alter_app_l.
Qed.

Lemma advance_snoc is_ us i : fold_left advance (is_ ++ [i]) us = advance (fold_left advance is_ us) i.
Proof. by rewrite fold_left_app. Qed.

(** ** What [relax_use] does to the state *)

Lemma list_lookup_fmap_map {A B} (f : A -> B) l i : map f l !! i = f <$> l !! i.
Proof. apply (list_lookup_fmap f). Qed.

Lemma lookup_cut gs gs' k g g' :
  gs !! k = Some g -> gs' !! k = Some g' -> cut gs gs' !! k = Some (take (length g) g').
Proof. intros Hg Hg'. unfold cut. rewrite lookup_zip_with, Hg. cbn. by rewrite Hg'. Qed.

Lemma start_same gs gs' k : Forall2 (fun g g' => length g' = length g) gs gs' -> start gs' k = start gs k.
Proof.
  intros Hl. revert k. induction Hl as [|g g' gs gs' E Hl IH]; intros [|k]; try done. cbn [start]. by rewrite E, IH.
Qed.

Lemma cut_same_length gs gs' : lengthened gs gs' -> Forall2 (fun g g' => length g' = length g) gs (cut gs gs').
Proof. induction 1 as [|g g' gs gs' Hg Hl IH]; constructor; [by apply length_cut|done]. Qed.

Lemma length_lengthen g w : length (lengthen g w) = S (length g).
Proof. unfold lengthen. rewrite length_app, length_insert. cbn. lia. Qed.

Lemma cut_lengthen gs gs' k g w :
  lengthened gs gs' -> gs !! k = Some g ->
  cut gs (<[k := lengthen g w]> gs') = <[k := <[length g - 1 := replaced w]> g]> (cut gs gs').
Proof.
  intros Hl. revert k. induction Hl as [|g0 g0' gs gs' Hg Hl IH]; intros [|k] Hk; try done.
  - injection Hk as ->. cbn. f_equal. unfold lengthen. apply take_app_length'. by rewrite length_insert.
  - cbn. f_equal. by apply IH.
Qed.

Lemma lengthened_lengthen gs gs' k g w :
  lengthened gs gs' -> gs !! k = Some g -> lengthened gs (<[k := lengthen g w]> gs').
Proof.
  intros Hl Hk. apply Forall2_same_length_lookup. pose proof (Forall2_length _ _ _ Hl) as Hlen. split; [by rewrite length_insert|].
  intros j x y Hx Hy. destruct (decide (j = k)) as [->|Hne].
  - rewrite list_lookup_insert_eq in Hy by (rewrite <- Hlen; by eapply lookup_lt_Some). simplify_eq.
    right. apply length_lengthen.
  - rewrite list_lookup_insert_ne in Hy by done. exact (Forall2_lookup_lr _ _ _ _ _ _ Hl Hx Hy).
Qed.

Lemma inserted_lengthen off gs gs' k g w :
  lengthened gs gs' -> gs !! k = Some g -> gs' !! k = Some g ->
  inserted off gs (<[k := lengthen g w]> gs') ≡ₚ (off + start gs (S k), appended w) :: inserted off gs gs'.
Proof.
  intros Hl. revert off k. induction Hl as [|g0 g0' gs gs' Hg Hl IH]; intros off [|k] Hk Hk'; try done.
  - injection Hk as ->. injection Hk' as ->. cbn [insert list_insert inserted start].
    unfold lengthen. rewrite lookup_app_r by (rewrite length_insert; lia). rewrite length_insert, Nat.sub_diag. cbn [lookup list_lookup].
    rewrite (lookup_ge_None_2 g) by lia. cbn [app]. by rewrite start_0, Nat.add_0_r.
  - cbn in Hk, Hk'. cbn [insert list_insert inserted start]. change (list_insert k (lengthen g w) gs') with (<[k := lengthen g w]> gs').
    rewrite (IH (off + 4 * length g0) k Hk Hk'). rewrite <- Permutation_middle. rewrite Nat.add_assoc. done.
Qed.

Lemma label_offset_set_label id off g id' :
  (0 <= id)%Z -> (0 <= id')%Z ->
  label_offset (set_label id off g).1 id' = (if decide (id' = id) then Some off else label_offset g id').
Proof.
  intros Hid Hid'. unfold label_offset, set_label, mmodify. cbn [fst m_label_offsets set_labels].
  set (n := Z.to_nat id). set (l := m_label_offsets g). case_decide as E.
  - subst id'. fold n. rewrite list_lookup_insert_eq; [done|]. rewrite length_app, length_replicate. lia.
  - rewrite list_lookup_insert_ne by (unfold n; lia). destruct (decide (Z.to_nat id' < length l)) as [Hlt|Hge].
    + by rewrite lookup_app_l.
    + rewrite lookup_app_r, (lookup_ge_None_2 l) by lia. cbn. destruct (replicate _ _ !! _) as [x|] eqn:Ex; [|done].
      apply lookup_replicate_1 in Ex as [-> _]. done.
Qed.

Lemma length_set_label id off g :
  length (m_label_offsets (set_label id off g).1) = Nat.max (length (m_label_offsets g)) (Z.to_nat id + 1).
Proof. unfold set_label, mmodify. cbn. rewrite length_insert, length_app, length_replicate. lia. Qed.

Lemma intern_fresh t text :
  IRStringTable.wf t -> (Z.of_nat (length (IRStringTable.m_strings t)) < 2 ^ 32)%Z ->
  IRStringTable.m_ids t !! text = None ->
  IRStringTable.intern t text =
    (IRStringTable.mk (IRStringTable.m_strings t ++ [text])
       (<[text := Z.of_nat (length (IRStringTable.m_strings t))]> (IRStringTable.m_ids t)),
     Z.of_nat (length (IRStringTable.m_strings t))).
Proof.
  intros Hwf Hroom Hf. unfold IRStringTable.intern. rewrite Hf.
  assert (to_uint32 (Z.of_nat (length (IRStringTable.m_strings t))) = Z.of_nat (length (IRStringTable.m_strings t))) as ->;
    [unfold wrapu; apply Z.mod_small; lia|done].
Qed.

(** The label operations of a relaxed branch. *)
Lemma skip_label_ops i off g :
  IRStringTable.wf (m_label_names g) ->
  (Z.of_nat (length (IRStringTable.m_strings (m_label_names g))) < 2 ^ 32)%Z ->
  IRStringTable.m_ids (m_label_names g) !! skip_label i = None ->
  let id := Z.of_nat (length (IRStringTable.m_strings (m_label_names g))) in
  let names := (IRStringTable.intern (m_label_names g) (skip_label i)).1 in
  let g' := ((let* id := label_id (skip_label i) in set_label id (off + 4) ;;; mark_label_use (skip_label i) off 0) g).1 in
  g' = set_labels names (m_label_offsets (set_label id (off + 4) g).1) (m_label_uses g ++ [mkUse id off 0]) g.
Proof.
  intros Hwf Hroom Hf. cbv zeta. unfold mbind, label_id, mark_label_use. rewrite (intern_fresh _ _ Hwf Hroom Hf).
  cbn [fst set_label mmodify]. unfold mbind, label_id. cbn [m_label_names set_labels].
  unfold IRStringTable.intern at 1. cbn [IRStringTable.m_ids]. rewrite lookup_insert_eq. done.
Qed.

Lemma relax_use_step gs a us tables st i u g w :
  in_progress gs a us tables st -> Forall (fun i => i < length us) (relaxed_branches st) ->
  us !! i = Some u -> i ∉ relaxed_branches st ->
  gs !! u_group u = Some g -> groups a !! u_group u = Some g ->
  0 < length g -> u_word u = length g - 1 -> g !! (length g - 1) = Some w -> is_word w ->
  (is_branch w = true -> length g = 1 /\ IRStringTable.wf (names a)
     /\ (Z.of_nat (length (IRStringTable.m_strings (names a))) < 2 ^ 32)%Z
     /\ IRStringTable.m_ids (names a) !! skip_label i = None) ->
  exists st' us', relax_use st i = Ok st' /\ in_progress gs (relax_one a i u g w) us' tables st'
    /\ length us <= length us' /\ (forall j, j < length us -> us' !! j = us !! j)
    /\ relaxed_branches st' = relaxed_branches st ++ (if is_branch w then [i] else [])
    /\ length (insertions st') = S (length (insertions st)).
Proof.
  intros [Hl Hcode Hins Hpos Huses] Hrel Hu Hi Hgs Hga Hg0 Hword Hlast Hw Hnames.
  pose proof Hpos as [Pn Pl Pr Pu Pf Pi Prw Pt].
  assert (relax_one_groups : groups (relax_one a i u g w) = <[u_group u := lengthen g w]> (groups a)).
  { unfold relax_one. destruct (is_branch w); [|done]. by destruct (IRStringTable.intern _ _). }
  set (k := u_group u) in *.
  (* the word in the code *)
  assert (cut gs (groups a) !! k = Some g) as Hcut by (rewrite (lookup_cut _ _ _ g g) by done; by rewrite take_ge by lia).
  destruct (group_word (cut gs (groups a)) k g (length g - 1) w Hcut Hlast) as (p & Hp & Hpw & Hpi).
  rewrite (start_same gs _ k) in Hp by (by apply cut_same_length).
  assert (code_offset (conc gs u) = 4 * p) as Eoff by (cbn; rewrite Hword; exact Hp).
  assert (start gs (S k) = 4 * p + 4) as Eend by (rewrite (start_S gs k g Hgs); lia).
  assert (read32 (m_code (gen st)) (4 * p) = Ok w) as Hread by (rewrite Hcode; by apply read32_code).
  assert (forall v, write32 (m_code (gen st)) (4 * p) v = Ok (code_of (<[p := v]> (concat (cut gs (groups a)))))) as Hwrite
    by (intros v; rewrite Hcode; apply write32_code; by eapply lookup_lt_Some).
  assert (Hcode' : code_of (<[p := replaced w]> (concat (cut gs (groups a)))) = code_of (concat (cut gs (<[k := lengthen g w]> (groups a))))).
  { by rewrite cut_lengthen, <- Hpi by done. }
  assert (Hins' : insertions st ++ [(4 * p + 4, appended w)] ≡ₚ inserted 0 gs (<[k := lengthen g w]> (groups a))).
  { rewrite (inserted_lengthen 0 gs (groups a) k g w) by done. rewrite Eend, Hins. cbn [Nat.add].
    by rewrite Permutation_app_comm. }
  unfold relax_use. rewrite Pu. unfold nth_ub. rewrite list_lookup_fmap_map, Hu. cbn [fmap option_fmap option_map of_option obind].
  rewrite Eoff, Hread. cbn [obind]. fold (is_branch w). destruct (is_branch w) eqn:Eb.
  - destruct (Hnames eq_refl) as (Hone & Hwf & Hroom & Hfresh).
    set (g0 := gen st) in *.
    match goal with |- context [let '(_, _) := ?c g0 in _] => rewrite (surjective_pairing (c g0)) end.
    rewrite <- Pn in Hwf, Hroom, Hfresh.
    rewrite (skip_label_ops i (4 * p) g0 Hwf Hroom Hfresh). cbv zeta.
    rewrite (intern_fresh _ _ Hwf Hroom Hfresh). cbn [fst]. set (id := Z.of_nat (length (IRStringTable.m_strings (m_label_names g0)))).
    cbn [m_code set_labels]. rewrite Hwrite. cbn [obind].
    assert (relax_one a i u g w = mkAsm (<[k := lengthen g w]> (groups a))
      (IRStringTable.mk (IRStringTable.m_strings (m_label_names g0) ++ [skip_label i])
         (<[skip_label i := id]> (IRStringTable.m_ids (m_label_names g0))))
      (<[id := S k]> (labels a)) (advance (uses a) i ++ [mkAUse id k 0 0]) (functions a) (init a) (rows a)) as Ea.
    { unfold relax_one. rewrite Eb, <- Pn. by rewrite (intern_fresh _ _ Hwf Hroom Hfresh). }
    assert (i < length us) as Hlt by (by eapply lookup_lt_Some).
    eexists _, (us ++ [mkAUse id k 0 0]). split; [done|]. split_and!; cbn [relaxed_branches insertions gen].
    + constructor; cbn [gen insertions relaxed_branches].
      * rewrite relax_one_groups. by apply lengthened_lengthen.
      * rewrite relax_one_groups. cbn. rewrite <- Hcode'. unfold replaced, inverse. by rewrite Eb.
      * rewrite relax_one_groups, <- Hins'. unfold appended. by rewrite Eb.
      * rewrite Ea. split; cbn [m_label_names m_label_offsets m_label_uses m_functions m_instance_init_offset m_line_table
          m_dense_jump_tables set_code set_labels names labels functions init rows]; try done.
        -- intros id' Hid'. change (label_offset (set_label id (4 * p + 4) g0).1 id' = start gs <$> <[id := S k]> (labels a) !! id').
           rewrite label_offset_set_label by lia. rewrite lookup_insert. destruct (decide (id' = id)) as [->|Hne].
           ++ rewrite decide_True by done. cbn. f_equal. lia.
           ++ rewrite decide_False by done. by apply Pl.
        -- rewrite length_set_label. cbn [IRStringTable.m_strings]. rewrite length_app. cbn [length]. rewrite <- Pn in Pr. unfold id. lia.
        -- rewrite Pu, map_app. cbn [map]. do 2 f_equal. unfold conc. cbn [u_label u_group u_word u_addend]. f_equal. lia.
      * rewrite Ea. cbn [uses]. rewrite fold_left_app. cbn [fold_left]. rewrite advances_app by done.
        unfold advance at 2. rewrite alter_app_l by (by rewrite length_advances). by rewrite <- Huses.
    + rewrite length_app. lia.
    + intros j Hj. by apply lookup_app_l.
    + done.
    + rewrite length_app. cbn. lia.
  - rewrite Hwrite. cbn [obind]. eexists _, us. split; [done|]. split_and!; cbn [relaxed_branches insertions gen]; try done.
    + assert (relax_one a i u g w = mkAsm (<[k := lengthen g w]> (groups a)) (names a) (labels a) (uses a) (functions a) (init a) (rows a))
        as Ea by (unfold relax_one; by rewrite Eb).
      constructor; cbn [gen insertions relaxed_branches].
      * rewrite relax_one_groups. by apply lengthened_lengthen.
      * rewrite relax_one_groups. cbn. rewrite <- Hcode'. unfold replaced, far_base. by rewrite Eb.
      * rewrite relax_one_groups, <- Hins'. unfold appended, far_jump. by rewrite Eb.
      * rewrite Ea. by split.
      * by rewrite Ea.
    + by rewrite app_nil_r.
    + rewrite length_app. cbn. lia.
Qed.

(** ** Opcodes of the new words *)

Lemma is_word_bits w : is_word w <-> (0 <= w /\ forall n, 32 <= n -> Z.testbit w n = false)%Z.
Proof.
  unfold is_word. split.
  - intros Hw. split; [lia|]. apply Z.bounded_iff_bits_nonneg'; lia.
  - intros [Hn Hb]. apply Z.bounded_iff_bits_nonneg'; [lia|done|done].
Qed.

Lemma is_word_lor a b : is_word a -> is_word b -> is_word (Z.lor a b).
Proof.
  rewrite !is_word_bits. intros [Ha Ha'] [Hb Hb']. split; [by apply Z.lor_nonneg|].
  intros n Hn. by rewrite Z.lor_spec, Ha', Hb'.
Qed.

Lemma is_word_lxor a b : is_word a -> is_word b -> is_word (Z.lxor a b).
Proof.
  rewrite !is_word_bits. intros [Ha Ha'] [Hb Hb']. split; [by apply Z.lxor_nonneg|].
  intros n Hn. by rewrite Z.lxor_spec, Ha', Hb'.
Qed.

Lemma is_word_land a b : (0 <= a)%Z -> is_word b -> is_word (Z.land a b).
Proof.
  rewrite !is_word_bits. intros Ha [Hb Hb']. split; [apply Z.land_nonneg; lia|].
  intros n Hn. by rewrite Z.land_spec, Hb', andb_false_r.
Qed.

Lemma is_word_replaced w : is_word w -> is_word (replaced w).
Proof.
  intros Hw. unfold replaced. destruct (is_branch w); [|by unfold is_word, far_base; vm_compute].
  apply is_word_lxor; [apply is_word_land; [unfold is_word in Hw; lia|]|]; unfold is_word; by vm_compute.
Qed.

Lemma is_word_appended w : is_word w -> is_word (appended w).
Proof.
  intros Hw. unfold appended. destruct (is_branch w); [by unfold is_word; vm_compute|].
  unfold far_jump. apply is_word_lor; [apply is_word_lor|]; [by unfold is_word; vm_compute| |by unfold is_word; vm_compute].
  change 0x1F%Z with (Z.ones 5). rewrite Z.land_ones, Z.shiftl_mul_pow2 by lia. unfold is_word.
  pose proof (Z.mod_pos_bound (Z.shiftr w 7) (2 ^ 5) ltac:(lia)). lia.
Qed.

Lemma land_inverse w m : Z.land m (Z.shiftl 1 12) = 0%Z -> Z.land m 0x01FFF07F = m -> Z.land (inverse w) m = Z.land w m.
Proof.
  intros H1 H2. unfold inverse. apply Z.bits_inj'. intros n Hn. rewrite !Z.land_spec, Z.lxor_spec, Z.land_spec.
  assert (Z.testbit m n && Z.testbit (Z.shiftl 1 12) n = false) as E1 by (by rewrite <- Z.land_spec, H1, Z.bits_0).
  assert (Z.testbit m n = Z.testbit m n && Z.testbit 0x01FFF07F n) as E2 by (by rewrite <- Z.land_spec, H2).
  destruct (Z.testbit m n); [|by rewrite !andb_false_r]. cbn [andb] in *. rewrite E1, <- E2.
  by rewrite !andb_true_r, xorb_false_r.
Qed.

Lemma is_branch_inverse w : is_branch w = true -> is_branch (inverse w) = true.
Proof. unfold is_branch. by rewrite land_inverse by done. Qed.

Lemma opcode_far_jump w : Z.land (far_jump w) 0x7F = 0x67%Z.
Proof.
  unfold far_jump. set (rd := Z.land (Z.shiftr w 7) 0x1F). clearbody rd. rewrite !Z.land_lor_distr_l.
  assert (Z.land (Z.shiftl rd 7) 0x7F = 0%Z) as ->; [|by vm_compute].
  apply Z.bits_inj'. intros n Hn. rewrite Z.land_spec, Z.bits_0. destruct (decide (n < 7)%Z).
  - by rewrite Z.shiftl_spec_low.
  - change 0x7F%Z with (Z.ones 7). rewrite Z.ones_spec_high, andb_false_r by lia. done.
Qed.

Definition branchy (w : Z) : bool := is_branch w || is_jump w.

End Relaxation.
