(* ===== verification/RelaxationSound.v ===== *)
(** * Relaxation of far branches, proved

    Well-formed code, seen as groups of words ([Relaxation.Asm]), and what the
    rounds of [relax_branches] make of it: a round lengthens the uses it chose,
    keeps the code well-formed and every position on its instruction. *)

From stdpp Require Import pretty sorting.
From S2P Require Import Prelude.
From S2P Require Import Wire.
From S2P Require Import IR.
From S2P Require Import LineTable.
From S2P Require Import Libriscv.
From S2P Require Import RISCVCodeGen.
From S2P Require Import Encoding.
From S2P Require Import Relaxation.

Module RelaxationSound.
Import RISCVCodeGen.
Import Encoding.
Import Relaxation.

Local Open Scope nat_scope.

(** ** Well-formed code

    [U] uses were marked by the emitters; the later ones are the skips of
    relaxed branches.  A use that can still be relaxed is the last word of its
    group; a skip jumps from the first word of a group to the next group. *)

Definition use_at (a : Asm) (i : nat) (u : AUse) (g : list Z) (w : Z) : Prop :=
  uses a !! i = Some u /\ groups a !! u_group u = Some g /\ g !! u_word u = Some w.

Definition word_of_use (a : Asm) (i : nat) : option Z :=
  match uses a !! i with
  | Some u => match groups a !! u_group u with Some g => g !! u_word u | None => None end
  | None => None
  end.

(** How often a use can still be relaxed. *)
Definition weight (a : Asm) (i : nat) : nat :=
  match word_of_use a i with Some w => if is_branch w then 2 else if is_jump w then 1 else 0 | None => 0 end.

Definition measure (U : nat) (a : Asm) : nat := sum_list_with (weight a) (seq 0 U).

Record WF (U : nat) (a : Asm) : Prop := {
  wf_words : Forall (Forall is_word) (groups a);
  wf_lengths : Forall (fun g => 0 < length g <= 3) (groups a);
  wf_size : (12 * Z.of_nat (length (groups a)) < 2 ^ 32)%Z;
  wf_labels : forall id k, labels a !! id = Some k ->
    (0 <= id < Z.of_nat (length (IRStringTable.m_strings (names a))))%Z /\ k <= length (groups a);
  wf_names : IRStringTable.wf (names a);
  wf_room : (Z.of_nat (length (IRStringTable.m_strings (names a)) + measure U a) < 2 ^ 32)%Z;
  wf_count : U <= length (uses a);
  wf_use : forall i u, uses a !! i = Some u -> (0 <= u_label u)%Z /\ exists g w, use_at a i u g w;
  wf_original : forall i u g w, i < U -> use_at a i u g w -> branchy w = true ->
    u_word u = length g - 1 /\ length g <= 2 /\ (is_branch w = true -> length g = 1);
  wf_skip : forall i u g w, U <= i -> use_at a i u g w ->
    u_word u = 0 /\ u_addend u = 0%Z /\ labels a !! u_label u = Some (S (u_group u)) /\ 2 <= length g
    /\ is_branch w = true;
  wf_skips : forall i j u v, U <= i -> U <= j -> uses a !! i = Some u -> uses a !! j = Some v ->
    u_group u = u_group v -> i = j;
  wf_distinct : forall i j u v, i < U -> j < U -> uses a !! i = Some u -> uses a !! j = Some v ->
    u_group u = u_group v -> i = j;
  wf_fresh : forall i u g w, i < U -> use_at a i u g w -> is_branch w = true ->
    IRStringTable.m_ids (names a) !! skip_label i = None;
  wf_functions : forall name k, functions a !! name = Some k -> k <= length (groups a);
  wf_init : init a <= length (groups a);
  wf_rows : Forall (fun r => r.1 <= length (groups a)) (rows a)
}.

Lemma use_at_word a i u g w : use_at a i u g w -> word_of_use a i = Some w.
Proof. intros (Hu & Hg & Hw). unfold word_of_use. by rewrite Hu, Hg. Qed.

Lemma sum_list_with_change {A} (f f' : A -> nat) (l : list A) (x : A) `{!EqDecision A} :
  NoDup l -> x ∈ l -> (forall y, y <> x -> f' y = f y) ->
  sum_list_with f' l + f x = sum_list_with f l + f' x.
Proof.
  intros Hnd Hx Hf. induction Hnd as [|y l Hy Hnd IH]; [by apply elem_of_nil in Hx|]. cbn.
  destruct (decide (y = x)) as [->|Hne].
  - assert (sum_list_with f' l = sum_list_with f l) as ->; [|lia].
    clear IH Hx Hnd. induction l as [|z l IH]; [done|]. apply not_elem_of_cons in Hy as [Hz Hy]. cbn.
    rewrite Hf, IH by done. done.
  - apply elem_of_cons in Hx as [->|Hx]; [done|]. specialize (IH Hx). rewrite (Hf y) by done. lia.
Qed.

(** ** [relax_one] keeps the code well-formed *)

Lemma branch_not_jump w : is_branch w = true -> is_jump w = false.
Proof. unfold is_branch, is_jump. rewrite Z.eqb_eq. intros ->. done. Qed.

Lemma appended_branchy w : is_branch w = false -> branchy (appended w) = false.
Proof. intros Hb. unfold appended, branchy, is_branch, is_jump in *. rewrite Hb. by rewrite opcode_far_jump. Qed.

Section RelaxOne.

Context (U : nat) (a : Asm) (i : nat) (u : AUse) (g : list Z) (w : Z).
Context (Hwf : WF U a) (Hi : i < U) (Hat : use_at a i u g w) (Hbr : branchy w = true).

Let a' := relax_one a i u g w.
Let id := Z.of_nat (length (IRStringTable.m_strings (names a))).

(** The use itself, after it. *)
Definition relaxed_use : AUse :=
  if is_branch w then mkAUse (u_label u) (u_group u) (S (u_word u)) (u_addend u) else u.
Definition relaxed_word : Z := if is_branch w then 0x6F%Z else far_base.

Lemma use_shape : u_word u = length g - 1 /\ 0 < length g <= 2 /\ (is_branch w = true -> length g = 1).
Proof.
  destruct (wf_original _ _ Hwf i u g w Hi Hat Hbr) as (E & Hl & Hb). split_and!; try done.
  destruct Hat as (_ & _ & Hw%lookup_lt_Some). lia.
Qed.

Lemma measure_pos : 0 < weight a i.
Proof.
  unfold weight. rewrite (use_at_word _ _ _ _ _ Hat). unfold branchy in Hbr.
  destruct (is_branch w); [lia|]. cbn in Hbr. rewrite Hbr. lia.
Qed.

Lemma sum_list_with_elem {A} (f : A -> nat) (l : list A) x : x ∈ l -> f x <= sum_list_with f l.
Proof.
  induction l as [|y l IH]; intros [->|Hx]%elem_of_cons || intros []%elem_of_nil; cbn; [lia|].
  specialize (IH Hx). lia.
Qed.

Lemma room_for_one : (id < 2 ^ 32)%Z.
Proof. pose proof (wf_room _ _ Hwf). unfold id. lia. Qed.

Lemma relax_one_branch :
  is_branch w = true ->
  a' = mkAsm (<[u_group u := lengthen g w]> (groups a))
         (IRStringTable.mk (IRStringTable.m_strings (names a) ++ [skip_label i])
            (<[skip_label i := id]> (IRStringTable.m_ids (names a))))
         (<[id := S (u_group u)]> (labels a)) (advance (uses a) i ++ [mkAUse id (u_group u) 0 0])
         (functions a) (init a) (rows a).
Proof.
  intros Hb. unfold a', relax_one. rewrite Hb, (intern_fresh _ _ (wf_names _ _ Hwf) room_for_one); [done|].
  by eapply (wf_fresh _ _ Hwf).
Qed.

Lemma relax_one_jump :
  is_branch w = false ->
  a' = mkAsm (<[u_group u := lengthen g w]> (groups a)) (names a) (labels a) (uses a) (functions a) (init a) (rows a).
Proof. intros Hb. unfold a', relax_one. by rewrite Hb. Qed.

Lemma relax_one_groups : groups a' = <[u_group u := lengthen g w]> (groups a).
Proof. destruct (is_branch w) eqn:Hb; [by rewrite relax_one_branch|by rewrite relax_one_jump]. Qed.

Lemma group_bound : u_group u < length (groups a).
Proof. destruct Hat as (_ & Hg & _). by eapply lookup_lt_Some. Qed.

(** Where a use of the relaxed code comes from. *)
Lemma use_at_relaxed j v g' w' :
  use_at a' j v g' w' ->
  (j = i /\ v = relaxed_use /\ g' = lengthen g w /\ w' = relaxed_word)
  \/ (j <> i /\ j < U /\ use_at a j v g' w' /\ u_group v <> u_group u)
  \/ (U <= j < length (uses a) /\ exists g0, use_at a j v g0 w' /\ length g0 <= length g')
  \/ (j = length (uses a) /\ is_branch w = true /\ v = mkAUse id (u_group u) 0 0 /\ g' = lengthen g w /\ w' = inverse w).
Proof.
  intros (Hv & Hg' & Hw'). rewrite relax_one_groups in Hg'. destruct use_shape as (Eu & [Hl0 Hl2] & Hb1).
  destruct Hat as (Hu & Hg & Hw). pose proof group_bound as Hgb.
  assert (Hl : length (<[length g - 1 := replaced w]> g) = length g) by apply length_insert.
  (* the use itself *)
  destruct (decide (j = i)) as [->|Hji].
  { left. assert (v = relaxed_use) as ->.
    { unfold relaxed_use. destruct (is_branch w) eqn:Hb.
      - rewrite relax_one_branch in Hv by done. cbn [uses] in Hv. pose proof (lookup_lt_Some _ _ _ Hu).
        rewrite lookup_app_l in Hv by (by rewrite length_advance). rewrite lookup_advance, decide_True, Hu in Hv by done.
        by injection Hv as <-.
      - rewrite relax_one_jump in Hv by done. cbn [uses] in Hv. congruence. }
    assert (u_group relaxed_use = u_group u) as E by (unfold relaxed_use; by destruct (is_branch w)).
    rewrite E, list_lookup_insert_eq in Hg' by done. injection Hg' as <-. split_and!; try done.
    unfold relaxed_use, relaxed_word in *. unfold lengthen, replaced, appended in Hw'. destruct (is_branch w) eqn:Hb; cbn [u_word] in Hw'.
    - rewrite lookup_app_r in Hw' by (rewrite length_insert; lia). rewrite length_insert in Hw'.
      replace (S (u_word u) - length g) with 0 in Hw' by lia. by injection Hw' as <-.
    - rewrite lookup_app_l in Hw' by (rewrite length_insert; lia). rewrite Eu, list_lookup_insert_eq in Hw' by lia. by injection Hw' as <-. }
  right. destruct (decide (j < length (uses a))) as [Hj|Hj].
  - (* an older use *)
    assert (Hv0 : uses a !! j = Some v).
    { destruct (is_branch w) eqn:Hb; [rewrite relax_one_branch in Hv by done|by rewrite relax_one_jump in Hv by done].
      cbn [uses] in Hv. rewrite lookup_app_l, lookup_advance, decide_False in Hv; try done. by rewrite length_advance. }
    destruct (decide (u_group v = u_group u)) as [Eg|Ng].
    + right; left. assert (U <= j) as HU.
      { destruct (decide (j < U)); [|lia]. by destruct Hji; eapply (wf_distinct _ _ Hwf). }
      split; [lia|]. destruct (wf_use _ _ Hwf j v Hv0) as (_ & g0 & w0 & Hat0).
      destruct (wf_skip _ _ Hwf j v g0 w0 HU Hat0) as (Ew0 & _ & _ & H2 & _).
      destruct Hat0 as (_ & Hg0 & Hw0). rewrite Eg, Hg in Hg0. injection Hg0 as <-.
      rewrite Eg, list_lookup_insert_eq in Hg' by done. injection Hg' as <-. exists g. unfold lengthen.
      split; [|rewrite length_app, Hl; lia]. split_and!; [done|by rewrite Eg|].
      rewrite <- Hw'. unfold lengthen. rewrite lookup_app_l, list_lookup_insert_ne by lia. done.
    + rewrite list_lookup_insert_ne in Hg' by done. destruct (decide (j < U)) as [HU|HU].
      * left. by split_and!.
      * right; left. split; [lia|]. exists g'. by split.
  - (* the new skip *)
    right; right. destruct (is_branch w) eqn:Hb; [rewrite relax_one_branch in Hv by done|by rewrite relax_one_jump in Hv by done; apply lookup_lt_Some in Hv].
    cbn [uses] in Hv. pose proof (lookup_lt_Some _ _ _ Hv) as Hjl. rewrite length_app, length_advance in Hjl. cbn in Hjl.
    assert (j = length (uses a)) as -> by lia. rewrite lookup_app_r, length_advance, Nat.sub_diag in Hv by (by rewrite length_advance).
    injection Hv as <-. cbn [u_group u_word] in *. rewrite list_lookup_insert_eq in Hg' by done. injection Hg' as <-. split_and!; try done.
    unfold lengthen, replaced in Hw'. rewrite Hb, lookup_app_l in Hw' by (rewrite length_insert; lia).
    rewrite (Hb1 eq_refl), list_lookup_insert_eq in Hw' by lia. by injection Hw' as <-.
Qed.

(** The weights after it. *)
Lemma weight_relaxed j :
  j < U -> weight a' j = if decide (j = i) then weight a i - 1 else weight a j.
Proof.
  intros Hj. destruct (lookup_lt_is_Some_2 (uses a) j) as [v0 Hv0]; [pose proof (wf_count _ _ Hwf); lia|].
  destruct (wf_use _ _ Hwf j v0 Hv0) as (_ & g0 & w0 & Hat0). pose proof (wf_count _ _ Hwf) as Hc. pose proof group_bound as Hgb.
  assert (exists v g' w', use_at a' j v g' w') as (v & g' & w' & Hat').
  { destruct use_shape as (Eu & [Hl0 Hl2] & Hb1). destruct (decide (j = i)) as [->|Hji].
    - exists relaxed_use, (lengthen g w), relaxed_word. destruct Hat as (Hu & Hg & Hw). unfold use_at. rewrite relax_one_groups.
      unfold relaxed_use, relaxed_word, lengthen, replaced, appended. destruct (is_branch w) eqn:Hb; cbn [u_group u_word].
      + rewrite relax_one_branch by done. cbn [uses]. rewrite lookup_app_l by (rewrite length_advance; lia).
        rewrite lookup_advance, decide_True, Hu by done. split_and!; [done|by rewrite list_lookup_insert_eq by done|].
        rewrite lookup_app_r by (rewrite length_insert; lia). rewrite length_insert.
        by replace (S (u_word u) - length g) with 0 by lia.
      + rewrite relax_one_jump by done. cbn [uses]. split_and!; [done|by rewrite list_lookup_insert_eq by done|].
        rewrite lookup_app_l by (rewrite length_insert; lia).
        by rewrite Eu, list_lookup_insert_eq by lia.
    - destruct Hat0 as (_ & Hg0 & Hw0). exists v0, g0, w0. unfold use_at. rewrite relax_one_groups. split_and!; [|rewrite list_lookup_insert_ne; [done|]|done].
      + destruct (is_branch w) eqn:Hb; [rewrite relax_one_branch by done|by rewrite relax_one_jump by done]. cbn [uses].
        rewrite lookup_app_l by (rewrite length_advance; lia). by rewrite lookup_advance, decide_False.
      + intros Eg. apply Hji. destruct Hat as (Hu & _). by eapply (wf_distinct _ _ Hwf). }
  unfold weight at 1. rewrite (use_at_word _ _ _ _ _ Hat').
  destruct (use_at_relaxed j v g' w' Hat') as [(-> & _ & _ & ->)|[(Hji & _ & Hat1 & _)|[(? & _)|(? & _)]]]; try lia.
  - rewrite decide_True by done. unfold weight. rewrite (use_at_word _ _ _ _ _ Hat). unfold relaxed_word. unfold branchy in Hbr.
    destruct (is_branch w); [done|]. cbn in Hbr. by rewrite Hbr.
  - rewrite decide_False by done. unfold weight. by rewrite (use_at_word _ _ _ _ _ Hat1).
Qed.

Lemma measure_relaxed : S (measure U a') = measure U a.
Proof.
  unfold measure. set (f := fun j => if decide (j = i) then weight a i - 1 else weight a j).
  assert (sum_list_with (weight a') (seq 0 U) = sum_list_with f (seq 0 U)) as ->.
  { assert (Forall (fun j => j < U) (seq 0 U)) as Hs by (apply Forall_seq; lia).
    induction Hs as [|j l Hj _ IH]; [done|]. cbn. by rewrite IH, weight_relaxed. }
  assert (i ∈ seq 0 U) as Hin by (apply elem_of_seq; lia).
  pose proof (sum_list_with_change (weight a) f (seq 0 U) i (NoDup_seq 0 U) Hin) as E.
  pose proof measure_pos. pose proof (sum_list_with_elem (weight a) _ _ Hin).
  assert (f i = weight a i - 1) as Ei by (unfold f; by rewrite decide_True).
  assert (forall y, y <> i -> f y = weight a y) as Ho by (intros y Hy; unfold f; by rewrite decide_False).
  specialize (E Ho). lia.
Qed.

Lemma uses_relaxed j v :
  uses a' !! j = Some v ->
  (exists v0, uses a !! j = Some v0 /\ v = (if decide (j = i) then relaxed_use else v0))
  \/ (is_branch w = true /\ v = mkAUse id (u_group u) 0 0).
Proof.
  intros Hv. destruct Hat as (Hu & _). destruct (is_branch w) eqn:Hb.
  - rewrite relax_one_branch in Hv by done. cbn [uses] in Hv. apply lookup_app_Some in Hv as [Hv|[_ Hv]].
    + left. rewrite lookup_advance in Hv. destruct (decide (i = j)) as [->|Hne].
      * rewrite Hu in Hv. injection Hv as <-. exists u. rewrite decide_True by done. unfold relaxed_use. by rewrite Hb.
      * exists v. by rewrite decide_False.
    + right. destruct (j - _); [by injection Hv as <-|done].
  - left. rewrite relax_one_jump in Hv by done. exists v. split; [done|]. case_decide; [|done]. subst j.
    unfold relaxed_use. rewrite Hb. cbn in Hv. congruence.
Qed.

Lemma label_relaxed l k : labels a !! l = Some k -> labels a' !! l = Some k.
Proof.
  intros Hl. pose proof (wf_labels _ _ Hwf l k Hl) as [Hlt _].
  destruct (is_branch w) eqn:Hb; [rewrite relax_one_branch by done|by rewrite relax_one_jump].
  cbn [labels]. rewrite lookup_insert_ne; [done|]. unfold id. lia.
Qed.

Lemma pretty_skip j : skip_label i = skip_label j -> i = j.
Proof. unfold skip_label. intros E%(inj _). by apply (inj pretty) in E. Qed.

Lemma skips_relaxed j v :
  U <= j -> uses a' !! j = Some v ->
  (j < length (uses a) /\ uses a !! j = Some v) \/ (j = length (uses a) /\ is_branch w = true /\ u_group v = u_group u).
Proof.
  intros Hj Hv. destruct (is_branch w) eqn:Hb.
  - rewrite relax_one_branch in Hv by done. cbn [uses] in Hv. apply lookup_app_Some in Hv as [Hv|[Hl Hv]].
    + left. rewrite lookup_advance, decide_False in Hv by lia. split; [by eapply lookup_lt_Some|done].
    + right. apply list_lookup_singleton_Some in Hv as [E <-]. rewrite length_advance in *. split_and!; [lia|done|done].
  - left. rewrite relax_one_jump in Hv by done. split; [by eapply lookup_lt_Some|done].
Qed.

(** The group of a branch that was not relaxed has no skip. *)
Lemma no_skip_yet j v : is_branch w = true -> U <= j -> uses a !! j = Some v -> u_group v <> u_group u.
Proof.
  intros Hb Hj Hv E. destruct use_shape as (_ & _ & Hb1). destruct (wf_use _ _ Hwf j v Hv) as (_ & g0 & w0 & Hat0).
  destruct (wf_skip _ _ Hwf j v g0 w0 Hj Hat0) as (_ & _ & _ & H2 & _). destruct Hat0 as (_ & Hg0 & _), Hat as (_ & Hg & _).
  rewrite E, Hg in Hg0. injection Hg0 as <-. rewrite Hb1 in H2 by done. lia.
Qed.

Lemma skips_distinct_relaxed j k v v' :
  U <= j -> U <= k -> uses a' !! j = Some v -> uses a' !! k = Some v' -> u_group v = u_group v' -> j = k.
Proof.
  intros Hj Hk Hv Hv' E.
  destruct (skips_relaxed j v Hj Hv) as [[_ Hv0]|(-> & Hb & Eg)], (skips_relaxed k v' Hk Hv') as [[_ Hv1]|(-> & Hb' & Eg')]; try done.
  - by apply (wf_skips _ _ Hwf j k v v').
  - destruct (no_skip_yet j v Hb' Hj Hv0). congruence.
  - destruct (no_skip_yet k v' Hb Hk Hv1). congruence.
Qed.

Lemma relax_one_WF : WF U a'.
Proof.
  destruct use_shape as (Eu & Hlen & Hb1). pose proof group_bound as Hgb. pose proof measure_relaxed as Hm. pose proof room_for_one as Hroom.
  pose proof Hat as (Hu & Hg & Hw). pose proof (Forall_lookup_1 _ _ _ _ (wf_words _ _ Hwf) Hg) as Hgw.
  assert (is_word w) as Hww by (by eapply Forall_lookup_1).
  assert (Hlenl : length (lengthen g w) = S (length g)) by apply length_lengthen.
  assert (Hstr : is_branch w = true -> length (IRStringTable.m_strings (names a')) = S (length (IRStringTable.m_strings (names a)))).
  { intros Hb. rewrite relax_one_branch by done. cbn [names IRStringTable.m_strings]. rewrite length_app. cbn. lia. }
  assert (Hng : length (groups a') = length (groups a)) by (rewrite relax_one_groups; apply length_insert).
  constructor.
  - rewrite relax_one_groups. apply Forall_insert; [apply Hwf|]. unfold lengthen. apply Forall_app. split.
    + apply Forall_insert; [done|]. by apply is_word_replaced.
    + repeat constructor. all: by apply is_word_appended.
  - rewrite relax_one_groups. apply Forall_insert; [apply Hwf|]. lia.
  - rewrite Hng. apply Hwf.
  - intros l k Hl. rewrite Hng. destruct (is_branch w) eqn:Hb.
    + rewrite Hstr by done. rewrite relax_one_branch in Hl by done. cbn [labels] in Hl.
      apply lookup_insert_Some in Hl as [[<- <-]|[_ Hl]]; [unfold id; lia|]. pose proof (wf_labels _ _ Hwf l k Hl). lia.
    + rewrite relax_one_jump in Hl |- * by done. by apply (wf_labels _ _ Hwf).
  - destruct (is_branch w) eqn:Hb; [|rewrite relax_one_jump by done; apply Hwf].
    pose proof (IRStringTable.intern_spec (names a) (skip_label i) (wf_names _ _ Hwf) Hroom) as Hint.
    rewrite (intern_fresh _ _ (wf_names _ _ Hwf) Hroom (wf_fresh _ _ Hwf i u g w Hi Hat Hb)) in Hint.
    rewrite relax_one_branch by done. apply Hint.
  - pose proof (wf_room _ _ Hwf). destruct (is_branch w) eqn:Hb; [rewrite Hstr by done; lia|].
    rewrite relax_one_jump by done. cbn [names]. fold a'. rewrite <- (relax_one_jump Hb). lia.
  - pose proof (wf_count _ _ Hwf). destruct (is_branch w) eqn:Hb; [rewrite relax_one_branch by done|by rewrite relax_one_jump].
    cbn [uses]. rewrite length_app, length_advance. lia.
  - intros j v Hv. enough ((0 <= u_label v)%Z /\ exists g', groups a' !! u_group v = Some g' /\ u_word v < length g') as (? & g' & Hg' & Hlt).
    { split; [done|]. destruct (lookup_lt_is_Some_2 g' _ Hlt) as [w' Hw']. by exists g', w'. }
    rewrite relax_one_groups. destruct (uses_relaxed j v Hv) as [(v0 & Hv0 & ->)|(Hb & ->)].
    + destruct (wf_use _ _ Hwf j v0 Hv0) as (Hl0 & g0 & w0 & _ & Hg0 & Hw0). apply lookup_lt_Some in Hw0. case_decide as Ej.
      * subst j. rewrite Hu in Hv0. injection Hv0 as <-. unfold relaxed_use. split; [by destruct (is_branch w)|].
        exists (lengthen g w). rewrite Hlenl. destruct (is_branch w); cbn [u_group u_word]; rewrite list_lookup_insert_eq by done; split; (done || lia).
      * split; [done|]. destruct (decide (u_group v0 = u_group u)) as [E|E].
        -- rewrite E, list_lookup_insert_eq by done. exists (lengthen g w). split; [done|]. rewrite E, Hg in Hg0. injection Hg0 as <-. lia.
        -- rewrite list_lookup_insert_ne by done. by exists g0.
    + cbn [u_group u_word u_label]. split; [unfold id; lia|]. rewrite list_lookup_insert_eq by done. exists (lengthen g w). split; [done|lia].
  - intros j v g' w' Hj Hat' Hbr'.
    destruct (use_at_relaxed j v g' w' Hat') as [(-> & -> & -> & ->)|[(Hji & _ & Hat1 & _)|[(? & _)|(? & _)]]]; try (pose proof (wf_count _ _ Hwf); lia).
    + unfold relaxed_use, relaxed_word in *. destruct (is_branch w) eqn:Hb; [|by vm_compute in Hbr'].
      rewrite Hlenl, (Hb1 eq_refl) in *. cbn [u_word]. split_and!; [lia|lia|done].
    + by apply (wf_original _ _ Hwf j v g' w').
  - intros j v g' w' Hj Hat'.
    destruct (use_at_relaxed j v g' w' Hat') as [(-> & _)|[(_ & ? & _)|[(_ & g0 & Hat0 & Hl)|(-> & Hb & -> & -> & ->)]]]; try lia.
    + destruct (wf_skip _ _ Hwf j v g0 w' Hj Hat0) as (? & ? & Hlab & ? & ?). split_and!; [done|done|by apply label_relaxed|lia|done].
    + cbn [u_word u_addend u_label u_group]. split_and!; [done|done| |lia|by apply is_branch_inverse].
      rewrite relax_one_branch by done. cbn [labels]. by rewrite lookup_insert_eq.
  - exact skips_distinct_relaxed.
  - intros j k v v' Hj Hk Hv Hv' E. pose proof (wf_count _ _ Hwf) as Hc.
    assert (forall j v, j < U -> uses a' !! j = Some v -> exists v0, uses a !! j = Some v0 /\ u_group v0 = u_group v) as Hold.
    { clear -Hwf Hat Hi. intros j v Hj Hv. destruct (lookup_lt_is_Some_2 (uses a) j) as [v0 Hv0]; [pose proof (wf_count _ _ Hwf); lia|].
      exists v0. split; [done|]. destruct (is_branch w) eqn:Hb.
      - unfold a', relax_one in Hv. rewrite Hb in Hv. destruct (IRStringTable.intern _ _) in Hv. cbn [uses] in Hv.
        rewrite lookup_app_l in Hv by (rewrite length_advance; by eapply lookup_lt_Some). rewrite lookup_advance, Hv0 in Hv.
        case_decide; cbn in Hv; by injection Hv as <-.
      - unfold a', relax_one in Hv. rewrite Hb in Hv. cbn [uses] in Hv. congruence. }
    destruct (Hold _ _ Hj Hv) as (v0 & Hv0 & E0), (Hold _ _ Hk Hv') as (v1 & Hv1 & E1).
    apply (wf_distinct _ _ Hwf j k v0 v1 Hj Hk Hv0 Hv1). congruence.
  - intros j v g' w' Hj Hat' Hb'.
    destruct (use_at_relaxed j v g' w' Hat') as [(-> & -> & -> & ->)|[(Hji & _ & Hat1 & _)|[(? & _)|(? & _)]]]; try (pose proof (wf_count _ _ Hwf); lia).
    + unfold relaxed_word in Hb'. destruct (is_branch w); by vm_compute in Hb'.
    + destruct (is_branch w) eqn:Hb; [rewrite relax_one_branch by done|rewrite relax_one_jump by done; by eapply (wf_fresh _ _ Hwf)].
      cbn [names IRStringTable.m_ids]. rewrite lookup_insert_ne by (intros ?%pretty_skip; done). by eapply (wf_fresh _ _ Hwf).
  - intros name k. rewrite Hng. destruct (is_branch w) eqn:Hb; [rewrite relax_one_branch by done|rewrite relax_one_jump by done]; apply (wf_functions _ _ Hwf).
  - rewrite Hng. destruct (is_branch w) eqn:Hb; [rewrite relax_one_branch by done|rewrite relax_one_jump by done]; apply (wf_init _ _ Hwf).
  - rewrite Hng. destruct (is_branch w) eqn:Hb; [rewrite relax_one_branch by done|rewrite relax_one_jump by done]; apply (wf_rows _ _ Hwf).
Qed.

End RelaxOne.

(** ** Steps *)

(** One use lengthened. *)
Definition relax_step (U : nat) (a a' : Asm) : Prop :=
  exists i u g w, i < U /\ use_at a i u g w /\ branchy w = true /\ a' = relax_one a i u g w.

Lemma relax_step_WF U a a' : WF U a -> relax_step U a a' -> WF U a'.
Proof. intros Hwf (i & u & g & w & Hi & Hat & Hbr & ->). by apply relax_one_WF. Qed.

Lemma relax_steps_WF U a a' : WF U a -> rtc (relax_step U) a a' -> WF U a'.
Proof. intros Hwf Hr. induction Hr as [a|a a1 a' Hs _ IH]; [done|]. apply IH. by eapply relax_step_WF. Qed.

(** The uses [chosen], one after the other. *)
Definition relax_at (a : Asm) (i : nat) : Asm :=
  match uses a !! i with
  | Some u =>
      match groups a !! u_group u with
      | Some g => match g !! u_word u with Some w => relax_one a i u g w | None => a end
      | None => a
      end
  | None => a
  end.

Lemma relax_at_use a i u g w : use_at a i u g w -> relax_at a i = relax_one a i u g w.
Proof. intros (Hu & Hg & Hw). unfold relax_at. by rewrite Hu, Hg, Hw. Qed.

Definition can_relax (U : nat) (a : Asm) (i : nat) : Prop :=
  i < U /\ exists u g w, use_at a i u g w /\ branchy w = true.

Lemma use_at_kept U a i u g w j v g' w' :
  WF U a -> i < U -> use_at a i u g w -> branchy w = true -> j < U -> j <> i ->
  use_at a j v g' w' -> use_at (relax_one a i u g w) j v g' w'.
Proof.
  intros Hwf Hi Hat Hbr Hj Hji (Hv & Hg' & Hw'). unfold use_at. rewrite (relax_one_groups U) by done. split_and!; [| |done].
  - destruct (is_branch w) eqn:Hb.
    + rewrite (relax_one_branch U) by done. cbn [uses]. rewrite lookup_app_l by (rewrite length_advance; by eapply lookup_lt_Some).
      by rewrite lookup_advance, decide_False.
    + by rewrite relax_one_jump.
  - rewrite list_lookup_insert_ne; [done|]. intros E. apply Hji. destruct Hat as (Hu & _). by eapply (wf_distinct _ _ Hwf).
Qed.

(** What holds of a run of steps, by induction on the uses chosen. *)
Lemma relax_list_ind U (P : list nat -> Asm -> Asm -> Prop) :
  (forall a, P [] a a) ->
  (forall i l a u g w a', i ∉ l -> WF U a -> i < U -> use_at a i u g w -> branchy w = true ->
     Forall (can_relax U (relax_one a i u g w)) l -> P l (relax_one a i u g w) a' -> P (i :: l) a a') ->
  forall l a, NoDup l -> WF U a -> Forall (can_relax U a) l -> P l a (fold_left relax_at l a).
Proof.
  intros H0 HS l a Hnd. revert a. induction Hnd as [|i l Hni Hnd IH]; intros a Hwf Hl; [apply H0|].
  apply Forall_cons in Hl as [(Hi & u & g & w & Hat & Hbr) Hl]. cbn [fold_left]. rewrite (relax_at_use a i u g w Hat).
  assert (Forall (can_relax U (relax_one a i u g w)) l) as Hl'.
  { apply Forall_forall. intros j Hj. rewrite Forall_forall in Hl. destruct (Hl j Hj) as (HjU & v & g' & w' & Hatj & Hbj).
    split; [done|]. exists v, g', w'. split; [|done]. apply (use_at_kept U); try done. by intros ->. }
  eapply HS; try done. apply IH; [|done]. by apply relax_one_WF.
Qed.

Lemma relax_list_steps U l a :
  NoDup l -> WF U a -> Forall (can_relax U a) l ->
  rtc (relax_step U) a (fold_left relax_at l a) /\ measure U (fold_left relax_at l a) + length l = measure U a.
Proof.
  apply (relax_list_ind U (fun l a a' => rtc (relax_step U) a a' /\ measure U a' + length l = measure U a)); clear l a.
  - intros a. split; [done|]. cbn. lia.
  - intros i l a u g w a' _ Hwf Hi Hat Hbr _ [Hr Hm]. split; [eapply rtc_l; [|exact Hr]; by exists i, u, g, w|].
    pose proof (measure_relaxed U a i u g w Hwf Hi Hat Hbr). cbn [length]. lia.
Qed.

Lemma relax_list_kept U l a :
  NoDup l -> WF U a -> Forall (can_relax U a) l ->
  forall j u g w, j ∉ l -> j < U -> use_at a j u g w -> use_at (fold_left relax_at l a) j u g w.
Proof.
  apply (relax_list_ind U (fun l a a' => forall j u g w, j ∉ l -> j < U -> use_at a j u g w -> use_at a' j u g w)); clear l a.
  - done.
  - intros i l a u g w a' _ Hwf Hi Hat Hbr _ IH j v g' w' [Hji Hjl]%not_elem_of_cons Hj Hatj. apply IH; [done..|].
    by apply (use_at_kept U).
Qed.

Lemma relax_one_jump_use U a i u g w :
  WF U a -> i < U -> use_at a i u g w -> is_jump w = true ->
  use_at (relax_one a i u g w) i u (lengthen g w) far_base.
Proof.
  intros Hwf Hi Hat Hj. assert (branchy w = true) as Hbr by (unfold branchy; rewrite Hj; apply orb_true_r).
  assert (is_branch w = false) as Hb by (destruct (is_branch w) eqn:E; [by rewrite branch_not_jump in Hj|done]).
  destruct (use_shape U a i u g w Hwf Hi Hat Hbr) as (Eu & Hlen & _). destruct Hat as (Hu & Hg & Hw).
  unfold use_at. rewrite relax_one_jump by done. cbn [uses groups]. split_and!; [done| |].
  - apply list_lookup_insert_eq. by eapply lookup_lt_Some.
  - unfold lengthen, replaced. rewrite Hb, lookup_app_l, Eu by (rewrite length_insert; lia). by apply list_lookup_insert_eq; lia.
Qed.

Lemma relax_list_jump U l a :
  NoDup l -> WF U a -> Forall (can_relax U a) l ->
  forall j u g w, j ∈ l -> use_at a j u g w -> is_jump w = true ->
  use_at (fold_left relax_at l a) j u (lengthen g w) far_base.
Proof.
  intros Hnd. revert a. induction Hnd as [|i l Hni Hnd IH]; intros a Hwf Hl j u g w Hj Hat Hw; [by apply elem_of_nil in Hj|].
  pose proof Hl as [(Hi & v & g' & w' & Hati & Hbr) Hl0]%Forall_cons. cbn [fold_left]. rewrite (relax_at_use a i v g' w' Hati).
  assert (Forall (can_relax U (relax_one a i v g' w')) l) as Hl'.
  { apply Forall_forall. intros k Hk. rewrite Forall_forall in Hl0. destruct (Hl0 k Hk) as (HkU & x & gx & wx & Hatk & Hbk).
    split; [done|]. exists x, gx, wx. split; [|done]. apply (use_at_kept U); try done. by intros ->. }
  pose proof (relax_one_WF U a i v g' w' Hwf Hi Hati Hbr) as Hwf'.
  destruct (decide (j = i)) as [->|Hji].
  - assert (v = u /\ g' = g /\ w' = w) as (-> & -> & ->) by (destruct Hati as (? & ? & ?), Hat as (? & ? & ?); by simplify_eq).
    apply (relax_list_kept U l); [done..|]. by apply (relax_one_jump_use U).
  - apply elem_of_cons in Hj as [|Hj]; [done|]. apply IH; try done. apply (use_at_kept U); try done.
    rewrite Forall_forall in Hl. by destruct (Hl j ltac:(by right)).
Qed.

(** Instructions that use no label stay. *)
Definition unused (a : Asm) (k : nat) : Prop := forall i u, uses a !! i = Some u -> u_group u <> k.

Lemma relax_one_unused U a i u g w k :
  WF U a -> i < U -> use_at a i u g w -> branchy w = true -> unused a k ->
  unused (relax_one a i u g w) k /\ groups (relax_one a i u g w) !! k = groups a !! k.
Proof.
  intros Hwf Hi Hat Hbr Hk. pose proof Hat as (Hu & _). split.
  - intros j v Hv. destruct (uses_relaxed U a i u g w Hwf Hi Hat j v Hv) as [(v0 & Hv0 & ->)|(_ & ->)].
    + case_decide; [|by eapply Hk]. unfold relaxed_use. destruct (is_branch w); cbn [u_group]; by eapply Hk.
    + cbn [u_group]. by eapply Hk.
  - rewrite (relax_one_groups U) by done. apply list_lookup_insert_ne. by eapply Hk.
Qed.

Lemma relax_list_unused U l a :
  NoDup l -> WF U a -> Forall (can_relax U a) l ->
  forall k, unused a k -> unused (fold_left relax_at l a) k /\ groups (fold_left relax_at l a) !! k = groups a !! k.
Proof.
  apply (relax_list_ind U (fun l a a' => forall k, unused a k -> unused a' k /\ groups a' !! k = groups a !! k)); clear l a.
  - done.
  - intros i l a u g w a' _ Hwf Hi Hat Hbr _ IH k Hk.
    destruct (relax_one_unused U a i u g w k Hwf Hi Hat Hbr Hk) as [Hk' E]. rewrite <- E. by apply IH.
Qed.

(** ** The uses of a round *)

Section Uses.

Context (U : nat) (gs : list (list Z)) (tables : list DenseJumpTable).

(** Use [i] waits to be relaxed. *)
Definition waiting (a : Asm) (us : list AUse) (st : Relaxing) (i : nat) : Prop :=
  i < U /\ i ∉ relaxed_branches st /\
  exists u g w, use_at a i u g w /\ us !! i = Some u /\ gs !! u_group u = Some g /\ branchy w = true.

Lemma relax_uses chosen a us st :
  in_progress gs a us tables st -> WF U a -> U <= length us ->
  Forall (fun i => i < U) (relaxed_branches st) ->
  NoDup chosen -> Forall (waiting a us st) chosen ->
  exists us' st',
    ofold relax_use chosen st = Ok st' /\ in_progress gs (fold_left relax_at chosen a) us' tables st'
    /\ length (insertions st') = length (insertions st) + length chosen
    /\ Forall (fun i => i < U) (relaxed_branches st')
    /\ (forall j, j < length us -> us' !! j = us !! j).
Proof.
  intros Hip Hwf HU Hrel Hnd Hch. revert a us st Hip Hwf HU Hrel Hch.
  induction Hnd as [|i chosen Hni Hnd IH]; intros a us st Hip Hwf HU Hrel Hch.
  { exists us, st. cbn. split_and!; try done; lia. }
  apply Forall_cons in Hch as [(Hi & Hnr & u & g & w & Hat & Hu & Hgs & Hbr) Hch].
  destruct (use_shape U a i u g w Hwf Hi Hat Hbr) as (Eu & Hlen & Hb1). pose proof Hat as (_ & Hg & Hw).
  destruct (relax_use_step gs a us tables st i u g w Hip (Forall_impl _ _ _ Hrel (fun i Hi => Nat.lt_le_trans _ _ _ Hi HU)) Hu Hnr Hgs Hg) as (st1 & us1 & E1 & Hip1 & Hlu & Hsame & Hrb & Hins);
    [lia|done|by rewrite <- Eu| | |].
  { apply (Forall_lookup_1 _ _ _ _ (Forall_lookup_1 _ _ _ _ (wf_words _ _ Hwf) Hg) Hw). }
  { intros Hb. split_and!; [auto|apply Hwf| |by eapply (wf_fresh _ _ Hwf)]. eapply room_for_one; done. }
  pose proof (relax_one_WF U a i u g w Hwf Hi Hat Hbr) as Hwf1.
  assert (Forall (fun i => i < U) (relaxed_branches st1)) as Hrel1.
  { rewrite Hrb. apply Forall_app. split; [done|]. destruct (is_branch w); by repeat constructor. }
  destruct (IH _ us1 st1 Hip1 Hwf1 ltac:(lia) Hrel1) as (us' & st' & E' & Hip' & Hins' & Hrel' & Hsame').
  { apply Forall_forall. intros j Hj. rewrite Forall_forall in Hch.
    destruct (Hch j Hj) as (HjU & Hjr & v & g' & w' & Hatj & Hv & Hgj & Hbj).
    assert (j <> i) as Hji by (by intros ->). split_and!; [done| |].
    - rewrite Hrb, elem_of_app. intros [?|Hin]; [done|]. destruct (is_branch w); [|by apply elem_of_nil in Hin].
      by apply list_elem_of_singleton in Hin.
    - exists v, g', w'. split_and!; [by apply (use_at_kept U a i u g w)| |done|done]. rewrite Hsame by lia. done. }
  exists us', st'. cbn [ofold fold_left]. rewrite E1, (relax_at_use a i u g w Hat). cbn [obind length]. split_and!; [done|done|lia|done|].
  - intros j Hj. rewrite Hsame' by lia. by apply Hsame.
Qed.

End Uses.

(** ** The end of a round *)

Lemma start_mono_nonempty gs k : Forall (fun g => 0 < length g) gs -> k <= length gs -> start gs k = 0 -> k = 0.
Proof.
  destruct gs as [|g gs], k as [|k]; cbn [start length]; intros Hne Hk E; try lia. apply Forall_cons in Hne as [? _]. lia.
Qed.

Lemma start_bound gs k : Forall (fun g => 0 < length g <= 3) gs -> start gs k <= 12 * length gs.
Proof.
  intros Hg. revert k. induction Hg as [|g gs Hg _ IH]; intros [|k]; cbn [start length]; try lia. specialize (IH k). lia.
Qed.

Lemma advance_uses is_ g gs us :
  m_label_uses g = map (conc gs) us ->
  fold_left advance_use is_ g =
    set_labels (m_label_names g) (m_label_offsets g) (map (conc gs) (fold_left advance is_ us)) g.
Proof.
  revert g us. induction is_ as [|i is_ IH]; intros g us Hu; cbn [fold_left].
  - rewrite <- Hu. by destruct g.
  - rewrite (IH _ (advance us i)); [done|]. cbn [advance_use m_label_uses set_labels]. rewrite Hu. unfold advance.
    symmetry. apply (list_fmap_alter (conc gs)). apply Forall_true. intros u. unfold conc. cbn [u_label u_group u_word u_addend].
    f_equal. cbn. lia.
Qed.

Section EndOfRound.

Context (U : nat) (gs : list (list Z)) (tables : list DenseJumpTable) (a : Asm) (us : list AUse) (st : Relaxing).
Context (Hip : in_progress gs a us tables st) (Hwf : WF U a) (Hrel : Forall (fun i => i < U) (relaxed_branches st)).
Context (Hgs : Forall (fun g => 0 < length g) gs).
Context (Hinside : forall j u, j < U -> us !! j = Some u -> inside gs (u_group u) (u_word u)).

Definition end_of_round : Gen :=
  let insertions := merge_sort insertion_le (insertions st) in
  fold_left advance_use (relaxed_branches st)
    (shift_positions (map fst insertions) (set_code (rebuild (m_code (gen st)) 0 insertions) (gen st))).

Lemma end_inside j u : us !! j = Some u -> inside gs (u_group u) (u_word u).
Proof.
  intros Hu. destruct (decide (j < U)) as [Hj|Hj]; [by eapply Hinside|].
  assert (uses a !! j = Some u) as Hua.
  { rewrite (ip_uses _ _ _ _ _ Hip), lookup_advances; [done|]. intros Hin. rewrite Forall_forall in Hrel. by apply Hrel in Hin. }
  destruct (wf_use _ _ Hwf j u Hua) as (_ & g & w & Hat). destruct (wf_skip _ _ Hwf j u g w ltac:(lia) Hat) as (E & _).
  destruct Hat as (_ & Hg%lookup_lt_Some & _). split; [|by left].
  pose proof (Forall2_length _ _ _ (ip_lengthened _ _ _ _ _ Hip)). lia.
Qed.

Lemma end_represents : represents a tables end_of_round.
Proof.
  destruct Hip as [Hl Hcode Hins [Pn Pl Pr Pu Pf Pi Prw Pt] Huses]. unfold end_of_round.
  rewrite (merge_sort_inserted _ gs (groups a)) by done. set (ins := inserted 0 gs (groups a)).
  pose proof (Forall2_length _ _ _ Hl) as Hlen.
  assert (Hmove : forall k j, inside gs k j -> shift (map fst ins) (start gs k + 4 * j) = start (groups a) k + 4 * j).
  { intros k j Hin. by apply shift_start. }
  assert (Hmove0 : forall k, k <= length gs -> shift (map fst ins) (start gs k) = start (groups a) k).
  { intros k Hk. specialize (Hmove k 0). rewrite !Nat.add_0_r in Hmove. apply Hmove. split; [done|by left]. }
  rewrite (advance_uses _ _ (groups a) us).
  2: { cbn [shift_positions m_label_uses set_positions set_labels set_code]. rewrite Pu, map_map. apply map_ext_in.
       intros u Hin%list_elem_of_In. apply list_elem_of_lookup in Hin as [j Hj]. unfold conc. cbn [label code_offset addend].
       by rewrite Hmove by (by eapply end_inside). }
  split.
  - cbn [m_code set_labels shift_positions set_positions set_code].
    rewrite (rebuild_inserted _ 0 0 gs (groups a)); [by rewrite Nat.sub_diag, take_0|done|done|done].
  - split; cbn [m_label_names m_label_offsets m_label_uses m_functions m_instance_init_offset m_line_table m_dense_jump_tables
        set_labels shift_positions set_positions set_code].
    + done.
    + intros id Hid. unfold label_offset. cbn [m_label_offsets set_labels shift_positions set_positions set_code].
      rewrite list_lookup_fmap_map. specialize (Pl id Hid). unfold label_offset in Pl.
      transitivity (shift (map fst ins) <$> (start gs <$> labels a !! id)).
      * rewrite <- Pl. by destruct (m_label_offsets (gen st) !! Z.to_nat id).
      * destruct (labels a !! id) as [k|] eqn:Ek; [|done]. cbn. rewrite Hmove0; [done|].
        pose proof (wf_labels _ _ Hwf id k Ek). lia.
    + by rewrite length_map.
    + by rewrite Huses.
    + rewrite Pf, <- map_fmap_compose. apply map_fmap_ext. intros name k Hk. cbn. apply Hmove0.
      pose proof (wf_functions _ _ Hwf name k Hk). lia.
    + rewrite Pi. pose proof (wf_init _ _ Hwf) as Hi. case_match eqn:E0; [|apply Hmove0; lia].
      apply Nat.eqb_eq in E0. apply start_mono_nonempty in E0; [|done|lia]. by rewrite E0, start_0.
    + rewrite Prw, map_map. apply map_ext_in. intros r Hin%list_elem_of_In. unfold row. cbn [LineTable.address LineTable.line].
      pose proof (wf_rows _ _ Hwf) as Hr. rewrite Forall_forall in Hr. specialize (Hr r Hin).
      rewrite Nat2Z.id, Hmove0 by lia. f_equal. unfold to_uint32, wrapu. apply Z.mod_small.
      pose proof (start_bound (groups a) r.1 (wf_lengths _ _ Hwf)). pose proof (wf_size _ _ Hwf). lia.
    + done.
Qed.

End EndOfRound.

(** ** Reach *)

(** The displacement of use [u] in the code [gs]. *)
Definition displacement (a : Asm) (u : AUse) : option Z :=
  (fun k => (Z.of_nat (start (groups a) k) - Z.of_nat (start (groups a) (u_group u) + 4 * u_word u) + u_addend u)%Z)
    <$> labels a !! u_label u.

(** The use does not need relaxing: it is no branch or jump, its label is not
    defined, or its label is within reach. *)
Definition in_reach (a : Asm) (u : AUse) (w : Z) : bool :=
  match displacement a u with
  | Some d => negb (branchy w) || fits_in_signed d (if is_branch w then B_TYPE_IMM_BITS else J_TYPE_IMM_BITS)
  | None => true
  end.

Lemma use_word a i u g w :
  use_at a i u g w ->
  exists p, start (groups a) (u_group u) + 4 * u_word u = 4 * p /\ concat (groups a) !! p = Some w
    /\ 4 * p + 4 <= length (code_of (concat (groups a))).
Proof.
  intros (_ & Hg & Hw). destruct (group_word _ _ _ _ _ Hg Hw) as (p & Hp & Hpw & _). exists p. split_and!; [done|done|].
  apply lookup_lt_Some in Hpw. rewrite length_code_of. lia.
Qed.

Lemma needs_relaxing_use U a tables g i u gr w :
  WF U a -> represents a tables g -> use_at a i u gr w -> needs_relaxing g (conc (groups a) u) = Ok (negb (in_reach a u w)).
Proof.
  intros Hwf [Hcode Hpos] Hat. destruct (use_word a i u gr w Hat) as (p & Hp & Hpw & Hlen).
  assert (0 <= u_label u)%Z as Hl0 by (destruct Hat as (Hu & _); by apply (wf_use _ _ Hwf) in Hu as [? _]).
  assert (is_word w) as Hw.
  { destruct Hat as (_ & Hg & Hgw). eapply Forall_lookup_1; [|exact Hgw]. by eapply Forall_lookup_1; [apply (wf_words _ _ Hwf)|]. }
  unfold needs_relaxing, in_reach, displacement. cbn [conc label code_offset addend]. rewrite Hp.
  rewrite (proj2 (Nat.ltb_ge _ _)) by (rewrite Hcode; lia). rewrite (pos_labels _ _ _ _ _ Hpos) by done.
  destruct (labels a !! u_label u) as [k|]; cbn [fmap option_fmap option_map]; [|done].
  rewrite Hcode, (read32_code _ _ _ Hpw Hw). cbn [obind]. fold (is_branch w) (is_jump w). unfold branchy.
  destruct (is_branch w) eqn:Eb, (is_jump w) eqn:Ej; cbn [negb andb orb]; by try rewrite Eb.
Qed.

(** A skip is always in reach. *)
Lemma skip_in_reach U a i u g w : WF U a -> U <= i -> use_at a i u g w -> in_reach a u w = true.
Proof.
  intros Hwf HU Hat. destruct (wf_skip _ _ Hwf i u g w HU Hat) as (Ew & Ea & Hl & H2 & _). unfold in_reach, displacement.
  rewrite Hl, Ew, Ea. cbn [fmap option_fmap option_map]. destruct Hat as (_ & Hg & _). rewrite (start_S _ _ _ Hg).
  pose proof (Forall_lookup_1 _ _ _ _ (wf_lengths _ _ Hwf) Hg) as Hlen. cbv beta in Hlen.
  apply orb_true_iff. right. apply fits_in_signed_spec; destruct (is_branch w); unfold B_TYPE_IMM_BITS, J_TYPE_IMM_BITS; lia.
Qed.

Lemma relax_flags U a tables g :
  WF U a -> represents a tables g ->
  exists flags, omapM (needs_relaxing g) (m_label_uses g) = Ok flags /\ length flags = length (uses a)
    /\ forall i u gr w, use_at a i u gr w -> flags !! i = Some (negb (in_reach a u w)).
Proof.
  intros Hwf Hrep. pose proof Hrep as [_ Hpos]. rewrite (pos_uses _ _ _ _ _ Hpos).
  assert (Hall : Forall (fun u => exists b, needs_relaxing g (conc (groups a) u) = Ok b) (uses a)).
  { apply Forall_lookup_2. intros i u Hu. destruct (wf_use _ _ Hwf i u Hu) as (_ & gr & w & Hat).
    eexists. by eapply needs_relaxing_use. }
  assert (forall us, Forall (fun u => exists b, needs_relaxing g (conc (groups a) u) = Ok b) us ->
    exists flags, omapM (needs_relaxing g) (map (conc (groups a)) us) = Ok flags /\ length flags = length us
      /\ forall i u, us !! i = Some u -> exists b, needs_relaxing g (conc (groups a) u) = Ok b /\ flags !! i = Some b) as Hmap.
  { clear. induction 1 as [|u us [b Hb] _ (flags & E & Hl & Hi)]; [by exists []|]. exists (b :: flags). cbn [map omapM].
    rewrite Hb. cbn [obind]. rewrite E. cbn [obind length]. split_and!; [done|lia|]. intros [|i] v Hv; cbn in *; [|by apply Hi].
    injection Hv as <-. by exists b. }
  destruct (Hmap _ Hall) as (flags & E & Hl & Hi). exists flags. split_and!; [done|done|].
  intros i u gr w Hat. destruct (Hi i u ltac:(apply Hat)) as (b & Hb & ->).
  rewrite (needs_relaxing_use U a tables g i u gr w) in Hb by done. by injection Hb as <-.
Qed.

(** ** Dense tables *)

Definition funct3 (w : Z) : Z := Z.land (Z.shiftr w 12) 7.
Definition widened (w : Z) : Z := Z.lor (Z.land w (Z.lxor 0xFFFFFFFF (Z.shiftl 7 12))) (Z.shiftl 6 12).

(** An entry jumps, from one word or, relaxed, from two. *)
Definition entry (a : Asm) (wide : bool) (i k : nat) : Prop :=
  exists u g w, use_at a i u g w /\ u_group u = k /\ u_word u = 0
    /\ length g = (if wide then 2 else 1) /\ (if wide then w = far_base else is_jump w = true).

(** The instruction that scales the index, an indirect jump and the entries.
    [scaled]: the index is scaled by eight, not by four. *)
Definition table_is (U : nat) (a : Asm) (t : DenseJumpTable) (scaled wide : bool) : Prop :=
  first_use t + count t <= U /\
  (0 < count t -> exists k d j,
    groups a !! k = Some [d] /\ groups a !! S k = Some [j] /\ funct3 d = (if scaled then 6 else 4)%Z
    /\ unused a k /\ unused a (S k)
    /\ forall n, n < count t -> entry a wide (first_use t + n) (k + 2 + n)).

Definition apart (t t' : DenseJumpTable) : Prop :=
  first_use t + count t <= first_use t' \/ first_use t' + count t' <= first_use t.

(** Entries and index agree. *)
Definition table_ok (U : nat) (a : Asm) (t : DenseJumpTable) : Prop := exists wide, table_is U a t wide wide.

Record TablesWF (U : nat) (a : Asm) (tables : list DenseJumpTable) : Prop := {
  tables_ok : Forall (table_ok U a) tables;
  tables_apart : forall i j t t', tables !! i = Some t -> tables !! j = Some t' -> i <> j -> apart t t'
}.

Lemma funct3_widened d : is_word d -> funct3 (widened d) = 6%Z.
Proof.
  intros Hd. unfold funct3, widened. apply Z.bits_inj'. intros n Hn. rewrite Z.land_spec, Z.shiftr_spec, Z.lor_spec, Z.land_spec by done.
  destruct (decide (n < 3)%Z) as [H|H].
  - assert (Z.testbit (Z.lxor 0xFFFFFFFF (Z.shiftl 7 12)) (n + 12) = false) as ->.
    { assert (n = 0 \/ n = 1 \/ n = 2)%Z as [->|[->| ->]] by lia; done. }
    rewrite andb_false_r. cbn [orb]. assert (n = 0 \/ n = 1 \/ n = 2)%Z as [->|[->| ->]] by lia; done.
  - assert (Z.testbit 7 n = false) as -> by (change 7%Z with (Z.ones 3); apply Z.ones_spec_high; lia).
    rewrite andb_false_r. symmetry. change 6%Z with (Z.land 6 (Z.ones 3)). rewrite Z.land_spec, Z.ones_spec_high, andb_false_r by lia. done.
Qed.

Lemma is_word_widened d : is_word d -> is_word (widened d).
Proof.
  intros Hd. unfold widened. apply is_word_lor; [|unfold is_word; by vm_compute].
  rewrite Z.land_comm. apply is_word_land; [by vm_compute|done].
Qed.

(** One word of an instruction without labels, replaced. *)
Definition set_word (a : Asm) (k : nat) (d : Z) : Asm :=
  mkAsm (<[k := [d]]> (groups a)) (names a) (labels a) (uses a) (functions a) (init a) (rows a).

Section SetWord.

Context (U : nat) (a : Asm) (k : nat) (d0 d : Z).
Context (Hwf : WF U a) (Hk : groups a !! k = Some [d0]) (Hun : unused a k) (Hd : is_word d).

Lemma set_word_use i u g w : use_at (set_word a k d) i u g w <-> use_at a i u g w.
Proof.
  unfold use_at. cbn [set_word uses groups]. split; intros (Hu & Hg & Hw); (split_and!; [done| |done]).
  - rewrite list_lookup_insert_ne in Hg; [done|]. intros E. by apply (Hun i u Hu).
  - rewrite list_lookup_insert_ne; [done|]. intros E. by apply (Hun i u Hu).
Qed.

Lemma set_word_weight i : weight (set_word a k d) i = weight a i.
Proof.
  unfold weight, word_of_use. cbn [set_word uses groups]. destruct (uses a !! i) as [u|] eqn:Hu; [|done].
  by rewrite list_lookup_insert_ne by (intros E; by apply (Hun i u Hu)).
Qed.

Lemma set_word_measure : measure U (set_word a k d) = measure U a.
Proof. unfold measure. induction (seq 0 U) as [|i l IH]; [done|]. cbn. by rewrite IH, set_word_weight. Qed.

Lemma set_word_same : Forall2 (fun g g' => length g' = length g) (groups a) (groups (set_word a k d)).
Proof.
  cbn [set_word groups]. apply Forall2_same_length_lookup. split; [by rewrite length_insert|].
  intros j x y Hx Hy. destruct (decide (k = j)) as [<-|Hne].
  - rewrite list_lookup_insert_eq in Hy by (by eapply lookup_lt_Some). rewrite Hk in Hx. by simplify_eq.
  - rewrite list_lookup_insert_ne in Hy by done. by simplify_eq.
Qed.

Lemma set_word_start j : start (groups (set_word a k d)) j = start (groups a) j.
Proof. apply start_same, set_word_same. Qed.

Lemma set_word_unused j : unused (set_word a k d) j <-> unused a j.
Proof. done. Qed.

Lemma set_word_reach u w : in_reach (set_word a k d) u w = in_reach a u w.
Proof. unfold in_reach, displacement. cbn [set_word labels]. by destruct (labels a !! u_label u); cbn; rewrite ?set_word_start. Qed.

Lemma set_word_WF : WF U (set_word a k d).
Proof.
  destruct Hwf. assert (length (groups (set_word a k d)) = length (groups a)) as Hlen by apply length_insert.
  constructor; try rewrite Hlen; cbn [set_word names labels uses functions init rows]; try done.
  - apply Forall_insert; [done|]. by apply Forall_singleton.
  - apply Forall_insert; [done|]. cbn. lia.
  - change (measure U (mkAsm (<[k := [d]]> (groups a)) (names a) (labels a) (uses a) (functions a) (init a) (rows a)))
      with (measure U (set_word a k d)). by rewrite set_word_measure.
  - intros i u Hu. destruct (wf_use0 i u Hu) as (? & g & w & Hat). split; [done|]. exists g, w. by apply set_word_use.
  - intros i u g w Hi Hat%set_word_use. by apply (wf_original0 i u g w).
  - intros i u g w Hi Hat%set_word_use. by apply (wf_skip0 i u g w).
  - intros i u g w Hi Hat%set_word_use. by apply (wf_fresh0 i u g w).
Qed.

Lemma set_word_entry wide i j : entry (set_word a k d) wide i j <-> entry a wide i j.
Proof. unfold entry. setoid_rewrite set_word_use. done. Qed.

(** A table whose own first two words are others. *)
Lemma set_word_table t scaled wide :
  (forall k' d' j', groups a !! k' = Some [d'] -> groups a !! S k' = Some [j'] -> unused a k' -> unused a (S k') ->
     entry a wide (first_use t) (k' + 2) -> k <> k' /\ k <> S k') ->
  table_is U a t scaled wide -> table_is U (set_word a k d) t scaled wide.
Proof.
  intros Hne [Hr Ht]. split; [done|]. intros Hc. destruct (Ht Hc) as (k' & d' & j' & Hd' & Hj' & Hf & Hu1 & Hu2 & He).
  pose proof (He 0 Hc) as He0. rewrite !Nat.add_0_r in He0. destruct (Hne k' d' j' Hd' Hj' Hu1 Hu2 He0) as [N1 N2].
  exists k', d', j'. cbn [set_word groups]. rewrite !list_lookup_insert_ne by done. split_and!; try done.
  intros n Hn. by apply set_word_entry, He.
Qed.

End SetWord.

(** The first two words of different tables are different. *)
Lemma tables_differ U a t t' k wide wide' d' j' :
  WF U a -> apart t t' -> 0 < count t -> 0 < count t' -> first_use t + count t <= U -> first_use t' + count t' <= U ->
  unused a k -> entry a wide (first_use t) (k + 2) ->
  forall k', groups a !! k' = Some [d'] -> groups a !! S k' = Some [j'] -> unused a k' -> unused a (S k') ->
    entry a wide' (first_use t') (k' + 2) -> unused a (S k) -> k <> k' /\ k <> S k'.
Proof.
  intros Hwf Hap Hc Hc' Hr Hr' Hun (u & g & w & Hat & Eg & _) k' _ _ Hu1 Hu2 (u' & g' & w' & Hat' & Eg' & _) Hun2.
  split.
  - intros <-. assert (first_use t = first_use t') as E.
    { apply (wf_distinct _ _ Hwf _ _ u u'); [lia|lia|apply Hat|apply Hat'|congruence]. }
    unfold apart in Hap. lia.
  - intros ->. apply (Hun2 (first_use t') u'); [apply Hat'|]. lia.
Qed.

(** ** Widening *)

(** The flags after a table was widened. *)
Definition fill (t : DenseJumpTable) (flags : list bool) : list bool :=
  take (first_use t) flags ++ replicate (count t) true ++ drop (first_use t + count t) flags.

Lemma fill_lookup t flags i :
  first_use t + count t <= length flags ->
  fill t flags !! i = if decide (first_use t <= i < first_use t + count t) then Some true else flags !! i.
Proof.
  intros Hl. unfold fill. case_decide as H.
  - rewrite lookup_app_r, length_take_le by (rewrite ?length_take; lia).
    rewrite lookup_app_l by (rewrite length_replicate; lia). apply lookup_replicate_2. lia.
  - destruct (decide (i < first_use t)).
    + rewrite lookup_app_l by (rewrite length_take; lia). by rewrite lookup_take_lt.
    + rewrite lookup_app_r, length_take_le by (rewrite ?length_take; lia).
      rewrite lookup_app_r, length_replicate by (rewrite length_replicate; lia). rewrite lookup_drop. f_equal. lia.
Qed.

Lemma length_fill t flags : first_use t + count t <= length flags -> length (fill t flags) = length flags.
Proof. intros Hl. unfold fill. rewrite !length_app, length_take, length_replicate, length_drop. lia. Qed.

(** The entries of [t] as [fill] leaves them, and its index still to scale. *)
Definition mid_table (U : nat) (b : Asm) (flags : list bool) (t : DenseJumpTable) : Prop :=
  (table_ok U b t /\ forall n, n < count t -> flags !! (first_use t + n) = Some false)
  \/ (table_is U b t true false /\ 0 < count t /\ forall n, n < count t -> flags !! (first_use t + n) = Some true).

Section Widening.

Context (U : nat) (a : Asm) (g : Gen).
Context (Huses : m_label_uses g = map (conc (groups a)) (uses a)).

(** The fold's state: the code of [b], which differs from [a] in index words. *)
Record widening (flags : list bool) (code : list Z) (b : Asm) : Prop := {
  wd_code : code = code_of (concat (groups b));
  wd_wf : WF U b;
  wd_uses : uses b = uses a;
  wd_start : forall k, start (groups b) k = start (groups a) k;
  wd_others : names b = names a /\ labels b = labels a /\ functions b = functions a /\ init b = init a /\ rows b = rows a;
  wd_length : length flags = length (uses a);
  wd_flags : forall i, flags !! i = Some true -> can_relax U b i;
  wd_measure : measure U b = measure U a;
  wd_groups : Forall2 (fun g g' => length g' = length g) (groups a) (groups b);
  wd_at : forall i u gr w, use_at b i u gr w <-> use_at a i u gr w
}.

Lemma entry_branchy b wide i k : entry b wide i k -> (exists u gr w, use_at b i u gr w /\ branchy w = true) -> wide = false.
Proof.
  intros (u & gr & w & Hat & _ & _ & _ & Hw) (u' & gr' & w' & Hat' & Hb). destruct wide; [|done].
  pose proof (use_at_word _ _ _ _ _ Hat) as E. rewrite (use_at_word _ _ _ _ _ Hat') in E. injection E as ->. subst w. by vm_compute in Hb.
Qed.

Lemma widen_quiet flags code b t :
  widening flags code b -> table_ok U b t -> existsb id (take (count t) (drop (first_use t) flags)) = false ->
  widen_table g (flags, code) t = Ok (flags, code) /\ mid_table U b flags t.
Proof.
  intros Hw Ht Hq. pose proof Ht as (wide & [Hr _]). pose proof (wf_count _ _ (wd_wf _ _ _ Hw)) as Hc. rewrite (wd_uses _ _ _ Hw) in Hc.
  pose proof (wd_length _ _ _ Hw) as Hl. split.
  - unfold widen_table. rewrite (proj2 (Nat.ltb_ge _ _)) by lia. by rewrite Hq.
  - left. split; [done|]. intros n Hn. destruct (lookup_lt_is_Some_2 flags (first_use t + n)) as [x Hx]; [lia|]. rewrite Hx. f_equal.
    destruct x; [|done]. exfalso. assert (existsb id (take (count t) (drop (first_use t) flags)) = true); [|congruence].
    apply existsb_exists. exists true. split; [|done]. apply list_elem_of_In, list_elem_of_lookup. exists n.
    rewrite lookup_take_lt, lookup_drop by done. done.
Qed.

Lemma flag_in_range flags t :
  existsb id (take (count t) (drop (first_use t) flags)) = true ->
  exists n, n < count t /\ flags !! (first_use t + n) = Some true.
Proof.
  intros (x & Hin & Hx)%existsb_exists. apply list_elem_of_In, list_elem_of_lookup in Hin as [n Hn].
  apply lookup_take_Some in Hn as [Hn Hlt]. rewrite lookup_drop in Hn. exists n. split; [done|]. unfold id in Hx. by subst x.
Qed.

Lemma widen_far flags code b t :
  widening flags code b -> table_ok U b t -> existsb id (take (count t) (drop (first_use t) flags)) = true ->
  exists k d j, widen_table g (flags, code) t = Ok (fill t flags, code_of (concat (groups (set_word b k (widened d)))))
    /\ groups b !! k = Some [d] /\ groups b !! S k = Some [j] /\ is_word d /\ unused b k /\ unused b (S k)
    /\ 0 < count t /\ first_use t + count t <= U
    /\ forall n, n < count t -> entry b false (first_use t + n) (k + 2 + n).
Proof.
  intros Hw (wide & Hr & Ht) Hq. destruct (flag_in_range _ _ Hq) as (n0 & Hn0 & Hf0).
  destruct (Ht ltac:(lia)) as (k & d & j & Hd & Hj & _ & Hu1 & Hu2 & He). pose proof (He n0 Hn0) as He0.
  assert (wide = false) as ->.
  { eapply entry_branchy; [exact He0|]. apply (wd_flags _ _ _ Hw) in Hf0 as [_ Hf0]. exact Hf0. }
  exists k, d, j. pose proof (wf_count _ _ (wd_wf _ _ _ Hw)) as Hc. rewrite (wd_uses _ _ _ Hw) in Hc. pose proof (wd_length _ _ _ Hw) as Hl.
  assert (is_word d) as Hdw.
  { pose proof (Forall_lookup_1 _ _ _ _ (wf_words _ _ (wd_wf _ _ _ Hw)) Hd) as Hf. by apply Forall_cons in Hf as [? _]. }
  split_and!; try done; [|lia].
  destruct (He 0 ltac:(lia)) as (u & gr & w & (Hu & Hg & Hgw) & Eg & Ew & _). rewrite !Nat.add_0_r in Hu, Eg.
  rewrite (wd_uses _ _ _ Hw) in Hu. unfold widen_table. rewrite (proj2 (Nat.ltb_ge _ _)) by lia. rewrite Hq. cbn [negb].
  rewrite Huses. unfold nth_ub. rewrite list_lookup_fmap_map, Hu. cbn [fmap option_fmap option_map of_option obind conc code_offset].
  destruct (group_word (groups b) k [d] 0 d Hd eq_refl) as (p & Hp & Hpw & Hpi). rewrite Nat.mul_0_r, Nat.add_0_r in Hp.
  rewrite <- (wd_start _ _ _ Hw), Eg, Ew. replace (k + 2) with (S (S k)) by lia. rewrite (start_S _ _ _ Hj), (start_S _ _ _ Hd), Hp. cbn [length].
  rewrite (proj2 (Nat.ltb_ge _ _)) by lia. replace (4 * p + 4 * 1 + 4 * 1 + 4 * 0 - 8) with (4 * p) by lia.
  rewrite (wd_code _ _ _ Hw), (read32_code _ _ _ Hpw Hdw). cbn [obind]. rewrite write32_code by (by eapply lookup_lt_Some). cbn [obind].
  unfold fill. do 2 f_equal. cbn [set_word groups]. fold (widened d). by rewrite <- Hpi.
Qed.

(** What widening one table leaves of the others. *)
Lemma other_table b t t' k d d' j scaled wide :
  WF U b -> apart t t' -> 0 < count t -> first_use t + count t <= U ->
  groups b !! k = Some [d] -> groups b !! S k = Some [j] -> unused b k -> unused b (S k) -> is_word d' ->
  entry b false (first_use t) (k + 2) ->
  table_is U b t' scaled wide -> table_is U (set_word b k d') t' scaled wide.
Proof.
  intros Hwf Hap Hc Hr Hd Hj Hu1 Hu2 Hd' He Ht. destruct (decide (count t' = 0)) as [E|E].
  { destruct Ht as [Hr' _]. split; [done|lia]. }
  pose proof Ht as [Hr' _]. apply (set_word_table U b k d'); [done| |done].
  intros k' d1 j1 Hd1 Hj1 Hu3 Hu4 He'.
  by apply (tables_differ U b t t' k false wide d1 j1 Hwf Hap Hc ltac:(lia) Hr Hr' Hu1 He).
Qed.

Lemma widen_mid flags code b t k d j :
  widening flags code b -> groups b !! k = Some [d] -> groups b !! S k = Some [j] -> is_word d -> unused b k -> unused b (S k) ->
  0 < count t -> first_use t + count t <= U -> (forall n, n < count t -> entry b false (first_use t + n) (k + 2 + n)) ->
  widening (fill t flags) (code_of (concat (groups (set_word b k (widened d))))) (set_word b k (widened d))
  /\ mid_table U (set_word b k (widened d)) (fill t flags) t
  /\ (forall t', apart t t' -> table_ok U b t' -> table_ok U (set_word b k (widened d)) t')
  /\ (forall t', apart t t' -> mid_table U b flags t' -> mid_table U (set_word b k (widened d)) (fill t flags) t').
Proof.
  intros Hw Hd Hj Hdw Hu1 Hu2 Hc Hr He. pose proof (wd_wf _ _ _ Hw) as Hwf. pose proof (is_word_widened d Hdw) as Hdw'.
  pose proof (wf_count _ _ Hwf) as Hcu. rewrite (wd_uses _ _ _ Hw) in Hcu. pose proof (wd_length _ _ _ Hw) as Hl.
  assert (Hfill : forall i, fill t flags !! i = if decide (first_use t <= i < first_use t + count t) then Some true else flags !! i)
    by (intros i; apply fill_lookup; lia).
  assert (He0 : entry b false (first_use t) (k + 2)) by (specialize (He 0 Hc); by rewrite !Nat.add_0_r in He).
  pose proof (other_table b t) as Hother. split_and!.
  - destruct Hw as [W1 W2 W3 W4 W5 W6 W7 W8 W9 W10]. constructor; try done.
    + by apply (set_word_WF U b k).
    + intros i. rewrite (set_word_start b k d); done.
    + by rewrite length_fill by lia.
    + intros i Hi. rewrite Hfill in Hi. unfold can_relax. case_decide as Hdec.
      * split; [lia|]. destruct (He (i - first_use t) ltac:(lia)) as (u & gr & w & Hat & _ & _ & _ & Hb).
        replace (first_use t + (i - first_use t)) with i in Hat by lia. exists u, gr, w. split; [by apply set_word_use|].
        unfold branchy. rewrite Hb. apply orb_true_r.
      * destruct (W7 i Hi) as (? & u & gr & w & Hat & Hb). split; [done|]. exists u, gr, w. split; [by apply set_word_use|done].
    + rewrite set_word_measure; done.
    + eapply Forall2_trans; [|exact W9|by apply (set_word_same b k d)]. cbn. congruence.
    + intros i u gr w. rewrite set_word_use by done. apply W10.
  - right. split_and!; [|done|intros n Hn; rewrite Hfill; apply decide_True; lia]. split; [done|]. intros _.
    exists k, (widened d), j. cbn [set_word groups]. rewrite list_lookup_insert_eq by (by eapply lookup_lt_Some).
    rewrite list_lookup_insert_ne by lia. split_and!; try done; [by apply funct3_widened|].
    intros n Hn. apply set_word_entry; [done|]. by apply He.
  - intros t' Hap (wide & Ht'). exists wide. by apply (Hother t' k d (widened d) j).
  - intros t' Hap [[(wide & Ht') Hf]|(Ht' & Hc' & Hf)].
    + left. split; [exists wide; by apply (Hother t' k d (widened d) j)|]. intros n Hn. rewrite Hfill, decide_False; [by apply Hf|].
      unfold apart in Hap. lia.
    + right. split_and!; [by apply (Hother t' k d (widened d) j)|done|]. intros n Hn. rewrite Hfill. case_decide; [done|by apply Hf].
Qed.

(** A step: a use lengthened, or the index of a table scaled. *)
Inductive asm_step (tables : list DenseJumpTable) : Asm -> Asm -> Prop :=
  | Lengthen b i u gr w : i < U -> use_at b i u gr w -> branchy w = true -> asm_step tables b (relax_one b i u gr w)
  | Widen b k d t u : t ∈ tables -> 0 < count t -> first_use t < U -> uses b !! first_use t = Some u -> u_group u = S (S k) ->
      groups b !! k = Some [d] -> unused b k -> is_word d -> asm_step tables b (set_word b k (widened d)).

Lemma widen_tables tables todo seen flags code b :
  todo ⊆ tables ->
  widening flags code b -> Forall (mid_table U b flags) seen -> Forall (table_ok U b) todo ->
  (forall i j t t', (seen ++ todo) !! i = Some t -> (seen ++ todo) !! j = Some t' -> i <> j -> apart t t') ->
  exists flags' b', ofold (widen_table g) todo (flags, code) = Ok (flags', code_of (concat (groups b')))
    /\ widening flags' (code_of (concat (groups b'))) b' /\ Forall (mid_table U b' flags') (seen ++ todo)
    /\ (forall i, flags !! i = Some true -> flags' !! i = Some true) /\ rtc (asm_step tables) b b'.
Proof.
  intros Hsub. revert seen flags code b Hsub. induction todo as [|t todo IH]; intros seen flags code b Hsub Hw Hseen Htodo Hap.
  { exists flags, b. cbn [ofold]. rewrite <- (wd_code _ _ _ Hw), app_nil_r. by split_and!. }
  apply Forall_cons in Htodo as [Ht Htodo]. cbn [ofold].
  assert (todo ⊆ tables) as Hsub' by (intros x Hx; apply Hsub; by right).
  assert (Hapt : forall t', t' ∈ seen \/ t' ∈ todo -> apart t t').
  { intros t' Hin. assert ((seen ++ t :: todo) !! length seen = Some t) as H0 by (by rewrite lookup_app_r, Nat.sub_diag by lia).
    destruct Hin as [[j Hj]%list_elem_of_lookup|[j Hj]%list_elem_of_lookup].
    - apply (Hap (length seen) j t t' H0); [by apply lookup_app_l_Some|]. apply lookup_lt_Some in Hj. lia.
    - apply (Hap (length seen) (length seen + S j) t t' H0); [|lia]. rewrite lookup_app_r by lia.
      by replace (length seen + S j - length seen) with (S j) by lia. }
  assert (Hsnoc : seen ++ t :: todo = (seen ++ [t]) ++ todo) by (by rewrite <- app_assoc). rewrite Hsnoc in *.
  destruct (existsb id (take (count t) (drop (first_use t) flags))) eqn:Hq.
  - destruct (widen_far flags code b t Hw Ht Hq) as (k & d & j & -> & Hd & Hj & Hdw & Hu1 & Hu2 & Hc & Hr & He). cbn [obind].
    destruct (widen_mid flags code b t k d j Hw Hd Hj Hdw Hu1 Hu2 Hc Hr He) as (Hw' & Hm & Hok & Hmid).
    destruct (IH (seen ++ [t]) _ _ _ Hsub' Hw') as (flags' & b' & E & Hwd & Hall & Hmono & Hsteps); [| |done|].
    + apply Forall_app. split; [|by apply Forall_singleton]. apply Forall_forall. intros t' Hin. rewrite Forall_forall in Hseen.
      apply Hmid; [by apply Hapt; left|by apply Hseen].
    + apply Forall_forall. intros t' Hin. rewrite Forall_forall in Htodo. apply Hok; [by apply Hapt; right|by apply Htodo].
    + exists flags', b'. split_and!; try done.
      * intros i Hi. apply Hmono. pose proof (wf_count _ _ (wd_wf _ _ _ Hw)) as Hcu. rewrite (wd_uses _ _ _ Hw) in Hcu.
        rewrite fill_lookup by (rewrite (wd_length _ _ _ Hw); lia). by case_decide.
      * eapply rtc_l; [|exact Hsteps]. destruct (He 0 Hc) as (u & gr & w & (Hu & _) & Eg & _). rewrite Nat.add_0_r in Hu.
        apply (Widen tables b k d t u); try done; [apply Hsub; by left|lia|lia].
  - destruct (widen_quiet flags code b t Hw Ht Hq) as [-> Hm]. cbn [obind].
    apply (IH (seen ++ [t])); try done. apply Forall_app. split; [done|by apply Forall_singleton].
Qed.

End Widening.

(** ** One round *)

Lemma lengthened_refl gs : lengthened gs gs.
Proof. unfold lengthened. induction gs; constructor; [by left|done]. Qed.

Lemma cut_refl gs : cut gs gs = gs.
Proof. induction gs as [|g gs IH]; [done|]. unfold cut in *. cbn [zip_with]. by rewrite firstn_all, IH. Qed.

Lemma inserted_refl off gs : inserted off gs gs = [].
Proof. revert off. induction gs as [|g gs IH]; intros off; [done|]. cbn [inserted]. by rewrite lookup_ge_None_2, IH by lia. Qed.

Lemma positioned_same gs gs' a b us tables g code :
  (forall k, start gs' k = start gs k) ->
  names b = names a /\ labels b = labels a /\ functions b = functions a /\ init b = init a /\ rows b = rows a ->
  positioned gs a us tables g -> positioned gs' b us tables (set_code code g).
Proof.
  intros Hs (En & El & Ef & Ei & Er) [Pn Pl Pr Pu Pf Pi Prw Pt]. split; rewrite ?En, ?El, ?Ef, ?Ei, ?Er; cbn [set_code m_label_names
    m_label_offsets m_label_uses m_functions m_instance_init_offset m_line_table m_dense_jump_tables]; try done.
  - intros id Hid. change (label_offset g id = start gs' <$> labels a !! id). rewrite Pl by done. by destruct (labels a !! id); cbn; rewrite ?Hs.
  - rewrite Pu. apply map_ext. intros u. unfold conc. by rewrite Hs.
  - rewrite Pf. apply map_fmap_ext. intros. by rewrite Hs.
  - by rewrite Pi, Hs.
  - rewrite Prw. apply map_ext. intros r. unfold row. by rewrite Hs.
Qed.

(** The uses a round lengthens. *)
Definition chosen_of (flags : list bool) : list nat := List.filter (fun i => nth i flags false) (seq 0 (length flags)).

Lemma elem_of_chosen flags i : i ∈ chosen_of flags <-> flags !! i = Some true.
Proof.
  unfold chosen_of. rewrite list_elem_of_In, List.filter_In, in_seq. split.
  - intros [Hi Hn]. destruct (lookup_lt_is_Some_2 flags i) as [x Hx]; [lia|]. rewrite (nth_lookup_Some _ _ _ _ Hx) in Hn. by rewrite Hx, Hn.
  - intros Hi. pose proof (lookup_lt_Some _ _ _ Hi). split; [lia|]. by rewrite (nth_lookup_Some _ _ _ _ Hi).
Qed.

Lemma NoDup_chosen flags : NoDup (chosen_of flags).
Proof. apply NoDup_ListNoDup, List.NoDup_filter, NoDup_ListNoDup, NoDup_seq. Qed.

Section Round.

Context (U : nat) (tables : list DenseJumpTable).

Lemma relax_steps_asm a a' : rtc (relax_step U) a a' -> rtc (asm_step U tables) a a'.
Proof. apply rtc_subrel. intros x y (i & u & g & w & ? & ? & ? & ->). by apply Lengthen. Qed.

(** The tables after the flagged uses were lengthened. *)
Lemma tables_relaxed b flags t :
  WF U b -> (forall i, flags !! i = Some true -> can_relax U b i) -> mid_table U b flags t ->
  table_ok U (fold_left relax_at (chosen_of flags) b) t.
Proof.
  intros Hwf Hf Hm. assert (Forall (can_relax U b) (chosen_of flags)) as Hc
    by (apply Forall_forall; intros i Hi%elem_of_chosen; by apply Hf).
  pose proof (NoDup_chosen flags) as Hnd. set (b' := fold_left relax_at (chosen_of flags) b).
  pose proof (relax_list_unused U _ b Hnd Hwf Hc) as Hun. fold b' in Hun.
  destruct Hm as [[(wide & Hr & Ht) Hq]|[[Hr Ht] [Hc0 Hq]]].
  - exists wide. split; [done|]. intros Hc0. destruct (Ht Hc0) as (k & d & j & Hd & Hj & Hfd & Hu1 & Hu2 & He). exists k, d, j.
    destruct (Hun k Hu1) as [? ->], (Hun (S k) Hu2) as [? ->]. split_and!; try done.
    intros n Hn. destruct (He n Hn) as (u & gr & w & Hat & Hrest). exists u, gr, w. split; [|done].
    apply (relax_list_kept U); [done..| |lia|done]. rewrite elem_of_chosen, (Hq n Hn). done.
  - exists true. split; [done|]. intros _. destruct (Ht Hc0) as (k & d & j & Hd & Hj & Hfd & Hu1 & Hu2 & He). exists k, d, j.
    destruct (Hun k Hu1) as [? ->], (Hun (S k) Hu2) as [? ->]. split_and!; try done.
    intros n Hn. destruct (He n Hn) as (u & gr & w & Hat & Eg & Ew & Hl & Hw). exists u, (lengthen gr w), far_base.
    split; [|rewrite length_lengthen, Hl; done]. apply (relax_list_jump U); [done..| |done|done]. by apply elem_of_chosen, Hq.
Qed.

Lemma relax_round_steps a g :
  WF U a -> TablesWF U a tables -> represents a tables g ->
  exists a', WF U a' /\ TablesWF U a' tables /\ rtc (asm_step U tables) a a' /\
  ((exists g', relax_round g = Ok (inr g') /\ represents a' tables g'
      /\ forall i u gr w, use_at a' i u gr w -> in_reach a' u w = true)
   \/ (exists g', relax_round g = Ok (inl g') /\ represents a' tables g' /\ measure U a' < measure U a)).
Proof.
  intros Hwf [Hok Hap] Hrep. pose proof Hrep as [Hcode Hpos].
  destruct (relax_flags U a tables g Hwf Hrep) as (flags & Eflags & Hlen & Hflag).
  pose proof (pos_uses _ _ _ _ _ Hpos) as Huses.
  assert (widening U a flags (m_code g) a) as Hw.
  { constructor; try done; [|by apply Forall2_same_length_lookup; split; [done|]; intros; simplify_eq].
    intros i Hi. destruct (lookup_lt_is_Some_2 (uses a) i) as [u Hu]; [rewrite <- Hlen; by eapply lookup_lt_Some|].
    destruct (wf_use _ _ Hwf i u Hu) as (_ & gr & w & Hat). rewrite (Hflag _ _ _ _ Hat) in Hi. injection Hi as Hi%negb_true_iff.
    split; [destruct (decide (i < U)) as [|HU]; [done|]; by rewrite (skip_in_reach U a i u gr w) in Hi by (done || lia)|].
    exists u, gr, w. split; [done|]. unfold in_reach in Hi. destruct (displacement a u); [|done]. by destruct (branchy w). }
  destruct (widen_tables U a g Huses tables tables [] flags (m_code g) a (reflexivity _) Hw (Forall_nil_2 _) Hok Hap)
    as (flags' & b & Ewide & Hwd & Hmid & Hmono & Hsteps).
  pose proof (wd_wf _ _ _ _ _ Hwd) as Hwfb. pose proof (wd_flags _ _ _ _ _ Hwd) as Hfl. cbn [app] in Hmid.
  assert (Hposb : positioned (groups b) b (uses b) tables (set_code (code_of (concat (groups b))) g)).
  { rewrite (wd_uses _ _ _ _ _ Hwd). eapply positioned_same; [apply (wd_start _ _ _ _ _ Hwd)|apply (wd_others _ _ _ _ _ Hwd)|exact Hpos]. }
  set (chosen := chosen_of flags'). set (st0 := mkRelaxing (set_code (code_of (concat (groups b))) g) [] []).
  assert (Hip : in_progress (groups b) b (uses b) tables st0).
  { constructor; cbn [gen insertions relaxed_branches st0 m_code set_code fold_left]; [apply lengthened_refl|by rewrite cut_refl|by rewrite inserted_refl|done|done]. }
  assert (Hcan : Forall (can_relax U b) chosen) by (apply Forall_forall; intros i Hi%elem_of_chosen; by apply Hfl).
  destruct (relax_uses U (groups b) tables chosen b (uses b) st0 Hip Hwfb (wf_count _ _ Hwfb) (Forall_nil_2 _) (NoDup_chosen _))
    as (us' & st' & Euse & Hip' & Hins & Hrel & Hsame).
  { eapply Forall_impl; [exact Hcan|]. intros i (Hi & u & gr & w & Hat & Hb). split_and!; [done|apply not_elem_of_nil|].
    exists u, gr, w. pose proof Hat as (? & ? & ?). by split_and!. }
  set (a' := fold_left relax_at chosen b) in *. destruct (relax_list_steps U chosen b (NoDup_chosen _) Hwfb Hcan) as [Hst Hm]. fold a' in Hst, Hm.
  assert (Hround : relax_round g = if length chosen =? 0 then Ok (inr (gen st')) else Ok (inl (end_of_round st'))).
  { unfold relax_round. rewrite Eflags. cbn [obind]. rewrite (pos_tables _ _ _ _ _ Hpos), Ewide. cbn [obind]. fold (chosen_of flags') chosen st0. rewrite Euse. cbn [obind].
    cbn [insertions st0 length] in Hins. rewrite Hins, Nat.add_0_l. destruct (length chosen =? 0); [done|]. done. }
  pose proof (relax_steps_WF U b a' Hwfb Hst) as Hwf'.
  exists a'. split_and!; [done| |etransitivity; [exact Hsteps|by apply relax_steps_asm]|].
  { split; [|done]. eapply Forall_impl; [exact Hmid|]. intros t Ht. by apply tables_relaxed. }
  rewrite Hround. destruct (Nat.eqb_spec (length chosen) 0) as [E|E].
  - left. apply nil_length_inv in E. unfold a' in *. rewrite E in *. cbn [ofold fold_left] in *. injection Euse as <-. cbn [gen st0].
    eexists. split; [done|]. split; [by split|]. intros i u gr w Hat.
    pose proof (proj1 (wd_at _ _ _ _ _ Hwd i u gr w) Hat) as Hata.
    assert (in_reach b u w = in_reach a u w) as ->.
    { unfold in_reach, displacement. destruct (wd_others _ _ _ _ _ Hwd) as (_ & -> & _).
      destruct (labels a !! u_label u); cbn; [|done]. by rewrite !(wd_start _ _ _ _ _ Hwd). }
    pose proof (Hflag i u gr w Hata) as Hf. destruct (in_reach a u w) eqn:Er; [done|]. cbn in Hf. apply Hmono in Hf.
    apply elem_of_chosen in Hf. fold chosen in Hf. rewrite E in Hf. by apply elem_of_nil in Hf.
  - right. eexists. split; [done|]. split; [|rewrite <- (wd_measure _ _ _ _ _ Hwd); lia].
    apply (end_represents U (groups b) tables a' us' st'); [done|done|done| |].
    + eapply Forall_impl; [apply (wf_lengths _ _ Hwfb)|]. cbn. lia.
    + intros j u Hj Hu. rewrite Hsame in Hu by (pose proof (wf_count _ _ Hwfb); lia).
      destruct (wf_use _ _ Hwfb j u Hu) as (_ & gr & w & _ & Hg & Hgw). split; [apply lookup_lt_Some in Hg; lia|].
      right. exists gr. split; [done|]. by eapply lookup_lt_Some.
Qed.

(** The loop ends before its budget does. *)
Lemma relax_rounds_steps fuel a g :
  measure U a < fuel -> WF U a -> TablesWF U a tables -> represents a tables g ->
  exists a' g', relax_rounds fuel g = Ok g' /\ WF U a' /\ TablesWF U a' tables /\ represents a' tables g'
    /\ rtc (asm_step U tables) a a' /\ forall i u gr w, use_at a' i u gr w -> in_reach a' u w = true.
Proof.
  revert a g. induction fuel as [|fuel IH]; intros a g Hf Hwf Ht Hrep; [lia|]. cbn [relax_rounds].
  destruct (relax_round_steps a g Hwf Ht Hrep) as (a1 & Hwf1 & Ht1 & Hs1 & [(g1 & E & Hrep1 & Hreach)|(g1 & E & Hrep1 & Hm)]);
    rewrite E; cbn [obind].
  - exists a1, g1. by split_and!.
  - destruct (IH a1 g1 ltac:(lia) Hwf1 Ht1 Hrep1) as (a' & g' & E' & ? & ? & ? & Hs & ?). exists a', g'. split_and!; try done.
    by etransitivity.
Qed.

End Round.

Lemma measure_bound U a : measure U a <= 2 * U.
Proof.
  assert (forall l, sum_list_with (weight a) l <= 2 * length l) as H; [|specialize (H (seq 0 U)); by rewrite length_seq in H].
  induction l as [|i l IH]; [done|]. cbn [sum_list_with length]. assert (weight a i <= 2); [|cbn; lia].
  unfold weight. destruct (word_of_use a i) as [w|]; [|lia]. destruct (is_branch w); [lia|]. destruct (is_jump w); lia.
Qed.

Lemma relax_branches_steps a tables g :
  WF (length (uses a)) a -> TablesWF (length (uses a)) a tables -> represents a tables g ->
  exists a' g', relax_branches g = Ok g' /\ WF (length (uses a)) a' /\ TablesWF (length (uses a)) a' tables /\ represents a' tables g'
    /\ rtc (asm_step (length (uses a)) tables) a a' /\ forall i u gr w, use_at a' i u gr w -> in_reach a' u w = true.
Proof.
  intros Hwf Ht Hrep. apply relax_rounds_steps; try done. rewrite (pos_uses _ _ _ _ _ (proj2 Hrep)), length_map.
  pose proof (measure_bound (length (uses a)) a). lia.
Qed.

(** ** What the steps keep *)

(** Instructions keep their indices, so positions keep their instructions; the
    labels are those there were and the skips. *)
Lemma steps_keep_positions U tables a a' :
  WF U a -> rtc (asm_step U tables) a a' ->
  functions a' = functions a /\ init a' = init a /\ rows a' = rows a /\ labels a ⊆ labels a'
  /\ length (groups a') = length (groups a)
  /\ forall i u, i < U -> uses a !! i = Some u -> exists u', uses a' !! i = Some u' /\ u_label u' = u_label u
       /\ u_group u' = u_group u /\ u_addend u' = u_addend u.
Proof.
  intros Hwf Hr. induction Hr as [a|a a1 a' Hs _ IH]; [split_and!; try done; intros i u _ Hu; by exists u|].
  assert (WF U a1 /\ functions a1 = functions a /\ init a1 = init a /\ rows a1 = rows a /\ labels a ⊆ labels a1
    /\ length (groups a1) = length (groups a) /\ forall i u, i < U -> uses a !! i = Some u -> exists u', uses a1 !! i = Some u'
    /\ u_label u' = u_label u /\ u_group u' = u_group u /\ u_addend u' = u_addend u) as (Hwf1 & Ef & Ei & Er & Hl & El & Hu1).
  { destruct Hs as [b i u gr w Hi Hat Hb|b k d t v _ _ _ _ _ Hk Hun Hd].
    - split_and!; [by apply relax_one_WF|..].
      1-3: destruct (is_branch w) eqn:E; [by rewrite (relax_one_branch U)|by rewrite relax_one_jump].
      + apply map_subseteq_spec. intros l k Hk. by apply (label_relaxed U b i u gr w).
      + rewrite (relax_one_groups U) by done. apply length_insert.
      + intros j v Hj Hv. destruct (is_branch w) eqn:E; [rewrite (relax_one_branch U) by done|rewrite relax_one_jump by done; by exists v].
        cbn [uses]. rewrite lookup_app_l by (rewrite length_advance; by eapply lookup_lt_Some). rewrite lookup_advance, Hv.
        case_decide; [|by exists v]. eexists. split; [done|]. done.
    - split_and!; [apply set_word_WF; [done|done|by apply is_word_widened]|..]; try done; [apply length_insert|].
      intros i u _ Hu. by exists u. }
  destruct (IH Hwf1) as (Ff & Fi & Fr & Hl' & Fl & Hu'). split_and!; try congruence; [by etransitivity|].
  intros i u Hi Hu. destruct (Hu1 i u Hi Hu) as (u1 & Hu1' & E1 & E2 & E3). destruct (Hu' i u1 Hi Hu1') as (u2 & ? & F1 & F2 & F3).
  exists u2. split_and!; congruence.
Qed.

Lemma asm_step_WF U tables a a' : WF U a -> asm_step U tables a a' -> WF U a'.
Proof.
  intros Hwf Hs. destruct Hs as [b i u gr w Hi Hat Hb|b k d t v _ _ _ _ _ Hk Hun Hd]; [by apply relax_one_WF|].
  apply set_word_WF; [done|done|by apply is_word_widened].
Qed.

Lemma asm_steps_WF U tables a a' : WF U a -> rtc (asm_step U tables) a a' -> WF U a'.
Proof. intros Hwf Hr. induction Hr as [|a a1 a' Hs _ IH]; [done|]. apply IH. by eapply asm_step_WF. Qed.

(** What an instruction [w] that uses a label becomes, and the word of it that
    uses the label then. *)
Inductive form (w : Z) : list Z -> nat -> Prop :=
  | Near : form w [w] 0
  | OverJump : is_branch w = true -> form w [inverse w; 0x6F%Z] 1
  | OverFarJump : is_branch w = true -> form w [inverse w; far_base; far_jump 0x6F] 1
  | FarJump : is_jump w = true -> form w [far_base; far_jump w] 0.

Lemma far_base_still : branchy far_base = false.
Proof. done. Qed.

(** The next form of a form that can still be relaxed. *)
Lemma form_next w gr n v :
  form w gr n -> gr !! n = Some v -> branchy v = true -> form w (lengthen gr v) (if is_branch v then S n else n).
Proof.
  intros Hf Hv Hb. destruct Hf as [|Hw|Hw|Hw]; cbn in Hv; injection Hv as <-.
  - unfold lengthen, replaced, appended. cbn [length Nat.sub]. destruct (is_branch w) eqn:E; [by apply OverJump|].
    apply FarJump. unfold branchy in Hb. by rewrite E in Hb.
  - by apply OverFarJump.
  - by vm_compute in Hb.
  - by vm_compute in Hb.
Qed.

Lemma steps_forms U tables a a' :
  WF U a -> rtc (asm_step U tables) a a' -> forall i u w, i < U -> use_at a i u [w] w ->
  exists u' gr v n, use_at a' i u' gr v /\ u_group u' = u_group u /\ u_word u' = n /\ form w gr n.
Proof.
  intros Hwf Hr i u w Hi Hat. assert (u_word u = 0) as E0.
  { destruct Hat as (_ & _ & Hl%lookup_lt_Some). cbn in Hl. lia. }
  revert a' Hr. apply rtc_ind_r; [|intros y z Hxy Hyz (u1 & gr1 & v1 & n & Hat1 & Eg & En & Hf)].
  { exists u, [w], w, 0. split_and!; try done. constructor. }
  pose proof (asm_steps_WF U tables a y Hwf Hxy) as Hwfy. destruct Hyz as [b j uj gr wj Hj Hatj Hb|b k d t v _ _ _ _ _ Hk Hun Hd].
  - destruct (decide (i = j)) as [<-|Hne].
    + assert (uj = u1 /\ gr = gr1 /\ wj = v1) as (-> & -> & ->) by (destruct Hatj as (? & ? & ?), Hat1 as (? & ? & ?); by simplify_eq).
      pose proof Hat1 as (_ & _ & Hw1). rewrite En in Hw1. pose proof (form_next w gr1 n v1 Hf Hw1 Hb) as Hnext.
      destruct (wf_use _ _ (relax_one_WF U b i u1 gr1 v1 Hwfy Hj Hat1 Hb) i
        (relaxed_use u1 v1)) as (_ & gr' & v' & Hat').
      { unfold relaxed_use. destruct (is_branch v1) eqn:E; [rewrite (relax_one_branch U) by done|rewrite relax_one_jump by done; apply Hat1].
        cbn [uses]. destruct Hat1 as (Hu1 & _). rewrite lookup_app_l by (rewrite length_advance; by eapply lookup_lt_Some).
        by rewrite lookup_advance, decide_True, Hu1. }
      destruct (use_at_relaxed U b i u1 gr1 v1 Hwfy Hj Hat1 Hb i _ gr' v' Hat') as [(_ & _ & -> & ->)|[(? & _)|[(? & _)|(E & _)]]]; try lia.
      * exists (relaxed_use u1 v1), (lengthen gr1 v1), (relaxed_word v1), (if is_branch v1 then S n else n). split_and!; [done| | |done].
        -- unfold relaxed_use. by destruct (is_branch v1).
        -- unfold relaxed_use. destruct (is_branch v1); cbn [u_word]; lia.
      * destruct Hat1 as (Hu1%lookup_lt_Some & _). lia.
    + exists u1, gr1, v1, n. split_and!; try done. by apply (use_at_kept U).
  - exists u1, gr1, v1, n. split_and!; try done. by apply set_word_use.
Qed.

(** Older skips stay. *)
Lemma skip_kept U a i u g w j v g0 w0 :
  WF U a -> i < U -> use_at a i u g w -> branchy w = true -> U <= j -> use_at a j v g0 w0 ->
  exists g', use_at (relax_one a i u g w) j v g' w0.
Proof.
  intros Hwf Hi Hat Hbr Hj (Hv & Hg0 & Hw0).
  assert (Hv' : uses (relax_one a i u g w) !! j = Some v).
  { destruct (is_branch w) eqn:Hb; [rewrite (relax_one_branch U) by done|by rewrite relax_one_jump].
    cbn [uses]. rewrite lookup_app_l by (rewrite length_advance; by eapply lookup_lt_Some). by rewrite lookup_advance, decide_False by lia. }
  destruct (wf_use _ _ (relax_one_WF U a i u g w Hwf Hi Hat Hbr) j v Hv') as (_ & g' & w' & Hat'). exists g'.
  destruct (use_at_relaxed U a i u g w Hwf Hi Hat Hbr j v g' w' Hat') as [(-> & _)|[(_ & ? & _)|[(_ & g1 & (Hv1 & Hg1 & Hw1) & _)|(-> & _)]]]; try lia.
  - assert (w' = w0) as -> by congruence. done.
  - by apply lookup_lt_Some in Hv; lia.
Qed.

(** A branch over a jump has its skip. *)
Lemma steps_skip U tables a a' :
  WF U a -> rtc (asm_step U tables) a a' -> forall i u w, i < U -> use_at a i u [w] w ->
  forall u' gr v, use_at a' i u' gr v -> u_word u' = 1 ->
  exists j x, U <= j /\ use_at a' j x gr (inverse w) /\ u_group x = u_group u.
Proof.
  intros Hwf Hr i u w Hi Hat.
  enough (forall u' gr v, use_at a' i u' gr v -> u_word u' = 1 -> exists j x g0, U <= j /\ use_at a' j x g0 (inverse w) /\ u_group x = u_group u) as H.
  { intros u' gr v Hat' E. destruct (H u' gr v Hat' E) as (j & x & g0 & Hj & Hx & Eg). exists j, x. split_and!; [done| |done].
    destruct (steps_forms U tables a a' Hwf Hr i u w Hi Hat) as (u2 & gr2 & v2 & n & (Hu2 & Hg2 & _) & Eg2 & _).
    destruct Hat' as (Hu' & Hg' & _), Hx as (Hx1 & Hx2 & Hx3). rewrite Hu2 in Hu'. injection Hu' as <-. rewrite Eg, <- Eg2, Hg' in Hx2.
    injection Hx2 as <-. split_and!; [done|by rewrite Eg, <- Eg2|done]. }
  revert a' Hr. apply (rtc_ind_r (fun z => forall u' gr v, use_at z i u' gr v -> u_word u' = 1 ->
    exists j x g0, U <= j /\ use_at z j x g0 (inverse w) /\ u_group x = u_group u)).
  - intros u' gr v (Hu' & _) E. destruct Hat as (Hu & _ & Hl%lookup_lt_Some). rewrite Hu in Hu'. injection Hu' as <-. cbn in Hl. lia.
  - intros y z Hxy Hyz IH u' gr v Hat' Eu'. pose proof (asm_steps_WF U tables a y Hwf Hxy) as Hwfy.
    destruct (steps_forms U tables a y Hwf Hxy i u w Hi Hat) as (u1 & gr1 & v1 & n & Hat1 & Eg & En & Hf).
    destruct Hyz as [b j uj gj wj Hj Hatj Hb|b k d t x _ _ _ _ _ Hk Hun Hd].
    2: { apply set_word_use in Hat'; [|done]. destruct (IH u' gr v Hat' Eu') as (j & x' & g0 & ? & Hx & ?). exists j, x', g0.
         split_and!; [done|by apply set_word_use|done]. }
    assert (Hold : u_word u1 = 1 -> exists j0 x g0, U <= j0 /\ use_at (relax_one b j uj gj wj) j0 x g0 (inverse w) /\ u_group x = u_group u).
    { intros E1. destruct (IH u1 gr1 v1 Hat1 E1) as (j0 & x & g0 & Hj0 & Hx & Ex).
      destruct (skip_kept U b j uj gj wj j0 x g0 (inverse w) Hwfy Hj Hatj Hb Hj0 Hx) as [g1 Hx1]. by exists j0, x, g1. }
    destruct (decide (i = j)) as [<-|Hne].
    + assert (uj = u1 /\ gj = gr1 /\ wj = v1) as (-> & -> & ->) by (destruct Hatj as (? & ? & ?), Hat1 as (? & ? & ?); by simplify_eq).
      destruct (is_branch v1) eqn:Hbr.
      * pose proof (wf_original _ _ Hwfy i u1 gr1 v1 Hi Hat1 Hb) as (_ & _ & Hone). specialize (Hone Hbr).
        assert (v1 = w) as ->.
        { destruct Hf; cbn in Hone; try lia. destruct Hat1 as (_ & _ & Hl). rewrite En in Hl. by injection Hl. }
        set (nu := mkAUse (Z.of_nat (length (IRStringTable.m_strings (names b)))) (u_group u1) 0 0).
        assert (Hnu : uses (relax_one b i u1 gr1 w) !! length (uses b) = Some nu).
        { rewrite (relax_one_branch U) by done. cbn [uses]. apply lookup_snoc_Some. right. by rewrite length_advance. }
        destruct (wf_use _ _ (relax_one_WF U b i u1 gr1 w Hwfy Hi Hat1 Hb) _ _ Hnu) as (_ & g' & w' & Hatn).
        destruct (use_at_relaxed U b i u1 gr1 w Hwfy Hi Hat1 Hb _ _ g' w' Hatn) as [(E & _)|[(_ & ? & _)|[(? & _)|(_ & _ & _ & _ & ->)]]];
          try (pose proof (wf_count _ _ Hwfy); lia).
        exists (length (uses b)), nu, g'. split_and!; [apply (wf_count _ _ Hwfy)|done|done].
      * apply Hold. rewrite relax_one_jump in Hat' by done. destruct Hat' as (Hu' & _), Hat1 as (Hu1 & _). cbn [uses] in Hu'. congruence.
    + destruct (use_at_relaxed U b j uj gj wj Hwfy Hj Hatj Hb i u' gr v Hat') as [(E & _)|[(_ & _ & Hat2 & _)|[(? & _)|(? & _)]]];
        try (pose proof (wf_count _ _ Hwfy); lia).
      apply Hold. destruct Hat2 as (Hu2 & _), Hat1 as (Hu1 & _). congruence.
Qed.

Lemma widened_twice d : widened (widened d) = widened d.
Proof.
  unfold widened. set (m := Z.lxor 0xFFFFFFFF (Z.shiftl 7 12)). set (c := Z.shiftl 6 12).
  rewrite Z.land_lor_distr_l, <- Z.land_assoc, Z.land_diag. change (Z.land c m) with 0%Z. by rewrite Z.lor_0_r.
Qed.

(** An instruction without a label stays, or is the index of a table. *)
Lemma steps_unused U tables a a' :
  WF U a -> rtc (asm_step U tables) a a' -> forall k, unused a k ->
  unused a' k /\
  (groups a' !! k = groups a !! k \/
   exists d t u, groups a !! k = Some [d] /\ groups a' !! k = Some [widened d] /\ t ∈ tables /\ 0 < count t
     /\ uses a !! first_use t = Some u /\ u_group u = S (S k)).
Proof.
  intros Hwf Hr k Hk. revert a' Hr. apply rtc_ind_r; [split; [done|by left]|intros y z Hxy Hyz [Hky IH]].
  pose proof (asm_steps_WF U tables a y Hwf Hxy) as Hwfy.
  pose proof (steps_keep_positions U tables a y Hwf Hxy) as (_ & _ & _ & _ & _ & Huses).
  destruct Hyz as [b j uj gr wj Hj Hatj Hb|b k' d t v Ht Hcount Hfirst Hv Ev Hk' Hun Hd].
  - destruct (relax_one_unused U b j uj gr wj k Hwfy Hj Hatj Hb Hky) as [? E]. split; [done|]. by rewrite E.
  - split; [done|]. cbn [set_word groups]. destruct (decide (k' = k)) as [->|Hne]; [|by rewrite list_lookup_insert_ne].
    rewrite list_lookup_insert_eq by (by eapply lookup_lt_Some). right.
    destruct (lookup_lt_is_Some_2 (uses a) (first_use t)) as [u Hu]; [pose proof (wf_count _ _ Hwf); lia|].
    destruct (Huses _ u Hfirst Hu) as (u' & Hu' & _ & Eg & _).
    destruct IH as [E|(d0 & t0 & u0 & E0 & E1 & _)].
    + exists d, t, u. split_and!; [congruence|done|done|done|done|congruence].
    + exists d0, t, u. rewrite E1 in Hk'. injection Hk' as <-. rewrite widened_twice. split_and!; try done. congruence.
Qed.

(** No use is left to relax. *)
Lemma reached_uses U a tables g :
  WF U a -> represents a tables g -> (forall i u gr w, use_at a i u gr w -> in_reach a u w = true) ->
  Forall (fun use => needs_relaxing g use = Ok false) (m_label_uses g).
Proof.
  intros Hwf Hrep Hreach. rewrite (pos_uses _ _ _ _ _ (proj2 Hrep)). apply Forall_map, Forall_lookup_2. intros i u Hu.
  destruct (wf_use _ _ Hwf i u Hu) as (_ & gr & w & Hat). cbv beta. rewrite (needs_relaxing_use U a tables g i u gr w) by done.
  by rewrite (Hreach i u gr w).
Qed.

(** The entries of a table are as far apart as its index says. *)
Lemma table_stride U a tables g t :
  WF U a -> represents a tables g -> table_ok U a t -> 0 < count t ->
  exists base wide word,
    read32 (m_code g) base = Ok word /\ funct3 word = (if (wide : bool) then 6 else 4)%Z
    /\ forall n, n < count t -> exists use, m_label_uses g !! (first_use t + n) = Some use
         /\ code_offset use = base + 8 + n * (if wide then 8 else 4).
Proof.
  intros Hwf [Hcode Hpos] (wide & Hr & Ht) Hc. destruct (Ht Hc) as (k & d & j & Hd & Hj & Hf & Hu1 & Hu2 & He).
  destruct (group_word (groups a) k [d] 0 d Hd eq_refl) as (p & Hp & Hpw & _). rewrite Nat.mul_0_r, Nat.add_0_r in Hp.
  assert (is_word d) as Hdw by (pose proof (Forall_lookup_1 _ _ _ _ (wf_words _ _ Hwf) Hd) as H; by apply Forall_cons in H as [? _]).
  exists (start (groups a) k), wide, d. split_and!; [by rewrite Hp, Hcode; apply read32_code|done|].
  assert (Hstart : forall n, n < count t -> start (groups a) (k + 2 + n) = start (groups a) k + 8 + n * (if wide then 8 else 4)).
  { induction n as [|n IH]; intros Hn.
    - replace (k + 2 + 0) with (S (S k)) by lia. rewrite (start_S _ _ _ Hj), (start_S _ _ _ Hd). cbn [length]. lia.
    - destruct (He n ltac:(lia)) as (u & gr & w & (_ & Hg & _) & Eg & _ & El & _). rewrite Eg in Hg.
      replace (k + 2 + S n) with (S (k + 2 + n)) by lia. rewrite (start_S _ _ _ Hg), IH, El by lia. destruct wide; lia. }
  intros n Hn. destruct (He n Hn) as (u & gr & w & (Hu & _ & _) & Eg & Ew & _). exists (conc (groups a) u).
  rewrite (pos_uses _ _ _ _ _ Hpos), list_lookup_fmap_map, Hu. split; [done|]. cbn [conc code_offset]. rewrite Eg, Ew, Hstart by done. lia.
Qed.

(** ** Uses do not share words *)

Lemma start_mono gs k k' g : gs !! k = Some g -> k < k' -> k' <= length gs -> start gs k + 4 * length g <= start gs k'.
Proof.
  intros Hk Hlt Hle. rewrite <- (start_S gs k g Hk). clear Hk g. induction Hlt as [|k' Hlt IH]; [done|].
  destruct (lookup_lt_is_Some_2 gs k' ltac:(lia)) as [g Hg]. rewrite (start_S gs k' g Hg). specialize (IH ltac:(lia)). lia.
Qed.

Lemma position_inj gs k k' g g' j j' :
  gs !! k = Some g -> gs !! k' = Some g' -> j < length g -> j' < length g' ->
  start gs k + 4 * j = start gs k' + 4 * j' -> k = k' /\ j = j'.
Proof.
  intros Hk Hk' Hj Hj' E. pose proof (lookup_lt_Some _ _ _ Hk). pose proof (lookup_lt_Some _ _ _ Hk').
  destruct (Nat.lt_trichotomy k k') as [Hlt|[->|Hlt]].
  - pose proof (start_mono gs k k' g Hk Hlt ltac:(lia)). lia.
  - split; [done|lia].
  - pose proof (start_mono gs k' k g' Hk' Hlt ltac:(lia)). lia.
Qed.

Lemma uses_apart U a i j u v :
  WF U a -> uses a !! i = Some u -> uses a !! j = Some v -> u_group u = u_group v -> u_word u = u_word v -> i = j.
Proof.
  intros Hwf Hu Hv Eg Ew.
  assert (Hmixed : forall i j u v, i < U -> U <= j -> uses a !! i = Some u -> uses a !! j = Some v ->
    u_group u = u_group v -> u_word u = u_word v -> False).
  { clear -Hwf. intros i j u v Hi Hj Hu Hv Eg Ew.
    destruct (wf_use _ _ Hwf i u Hu) as (_ & g & w & Hat), (wf_use _ _ Hwf j v Hv) as (_ & g' & w' & Hat').
    destruct (wf_skip _ _ Hwf j v g' w' Hj Hat') as (E0 & _ & _ & H2 & Hb).
    assert (g' = g /\ w' = w) as [-> ->].
    { destruct Hat as (_ & Hg & Hw), Hat' as (_ & Hg' & Hw'). rewrite Eg, Hg' in Hg. injection Hg as ->. rewrite Ew in Hw. split; congruence. }
    destruct (wf_original _ _ Hwf i u g w Hi Hat) as (E1 & _ & H1); [unfold branchy; by rewrite Hb|]. specialize (H1 Hb). lia. }
  destruct (decide (i < U)), (decide (j < U)).
  - by apply (wf_distinct _ _ Hwf i j u v).
  - exfalso. apply (Hmixed i j u v); (done || lia).
  - exfalso. apply (Hmixed j i v u); (done || lia).
  - apply (wf_skips _ _ Hwf i j u v); (done || lia).
Qed.

End RelaxationSound.
