(* ===== verification/Assembly.v ===== *)
(** * Emitted code

    What the emitters leave in [Gen] is code in the sense of [Relaxation]: one
    group per instruction, every position at an instruction, every label use in
    an instruction of its own ([emitted]).  Each operation of the assembler keeps
    it, and with it the results of [RelaxationSound] hold of emitted code:

    [relax_branches_total]: relaxation ends without undefined behaviour and
    leaves no branch or jump out of reach.
    [relaxation_keeps_positions]: functions, labels, label uses and line rows stay
    at their instructions.
    [dense_tables_keep_their_stride]: the entries of a dense jump table are as far
    apart as its index says. *)

From stdpp Require Import pretty sorting.
From S2P Require Import Prelude.
From S2P Require Import Wire.
From S2P Require Import IR.
From S2P Require Import LineTable.
From S2P Require Import Libriscv.
From S2P Require Import RISCVCodeGen.
From S2P Require Import Encoding.
From S2P Require Import Relaxation.
From S2P Require Import RelaxationSound.

Module Assembly.
Import RISCVCodeGen.
Import Encoding.
Import Relaxation.
Import RelaxationSound.

Local Open Scope nat_scope.

(** ** Code before relaxation *)

(** Not the name of a skip of [relax_branches]. *)
Definition ordinary (name : string) : Prop := forall i, name <> skip_label i.

Record Built (a : Asm) : Prop := {
  b_words : Forall (fun gr => exists w, gr = [w] /\ is_word w) (groups a);
  b_labels : forall id k, labels a !! id = Some k ->
    (0 <= id < Z.of_nat (length (IRStringTable.m_strings (names a))))%Z /\ k <= length (groups a);
  b_names : IRStringTable.wf (names a);
  b_fresh : forall i, IRStringTable.m_ids (names a) !! skip_label i = None;
  b_use : forall i u, uses a !! i = Some u -> (0 <= u_label u)%Z /\ u_group u < length (groups a) /\ u_word u = 0;
  b_distinct : forall i j u v, uses a !! i = Some u -> uses a !! j = Some v -> u_group u = u_group v -> i = j;
  b_functions : forall name k, functions a !! name = Some k -> k <= length (groups a);
  b_init : init a <= length (groups a);
  b_rows : Forall (fun r => r.1 <= length (groups a)) (rows a)
}.

(** The code of [a] is the beginning of the code of [a']. *)
Definition extends (a a' : Asm) : Prop :=
  exists gs us, groups a' = groups a ++ gs /\ uses a' = uses a ++ us /\ Forall (fun u => length (groups a) <= u_group u) us.

Definition emitted (g : Gen) : Prop :=
  exists a, Built a /\ TablesWF (length (uses a)) a (m_dense_jump_tables g) /\ represents a (m_dense_jump_tables g) g.

#[export] Instance extends_refl : Reflexive extends.
Proof. intros a. exists [], []. by rewrite !app_nil_r. Qed.

#[export] Instance extends_trans : Transitive extends.
Proof.
  intros a b c (gs & us & Eg & Eu & Hu) (gs' & us' & Eg' & Eu' & Hu'). exists (gs ++ gs'), (us ++ us').
  rewrite Eg', Eu', Eg, Eu, !app_assoc. split_and!; [done..|]. apply Forall_app. split; [done|].
  eapply Forall_impl; [exact Hu'|]. cbv beta. rewrite Eg, length_app. lia.
Qed.

Lemma extends_use_at a a' i u gr w : extends a a' -> use_at a i u gr w -> use_at a' i u gr w.
Proof.
  intros (gs & us & Eg & Eu & _) (Hu & Hg & Hw). unfold use_at. rewrite Eg, Eu.
  split_and!; [by apply lookup_app_l_Some|by apply lookup_app_l_Some|done].
Qed.

Lemma extends_unused a a' k gr : extends a a' -> groups a !! k = Some gr -> unused a k -> unused a' k.
Proof.
  intros (gs & us & Eg & Eu & Hu) Hk Hun i u Hi. rewrite Eu in Hi. apply lookup_app_Some in Hi as [Hi|[_ Hi]]; [by eapply Hun|].
  rewrite Forall_forall in Hu. specialize (Hu u (list_elem_of_lookup_2 _ _ _ Hi)). apply lookup_lt_Some in Hk. cbn in Hu. lia.
Qed.

Lemma extends_entry a a' wide i k : extends a a' -> entry a wide i k -> entry a' wide i k.
Proof. intros Hex (u & gr & w & Hat & Hrest). exists u, gr, w. split; [by apply (extends_use_at a)|done]. Qed.

Lemma extends_table a a' t : extends a a' -> table_ok (length (uses a)) a t -> table_ok (length (uses a')) a' t.
Proof.
  intros Hex (wide & Hr & Ht). pose proof Hex as (gs & us & Eg & Eu & Hu). exists wide. split; [rewrite Eu, length_app; lia|].
  intros Hc. destruct (Ht Hc) as (k & d & j & Hd & Hj & Hf & Hu1 & Hu2 & He). exists k, d, j.
  split_and!; [rewrite Eg; by apply lookup_app_l_Some|rewrite Eg; by apply lookup_app_l_Some|done|
    by eapply extends_unused|by eapply extends_unused|].
  intros n Hn. apply (extends_entry a); [done|]. by apply He.
Qed.

Lemma extends_tables a a' ts : extends a a' -> TablesWF (length (uses a)) a ts -> TablesWF (length (uses a')) a' ts.
Proof. intros Hex [Hok Hap]. split; [|done]. eapply Forall_impl; [exact Hok|]. intros t. by apply extends_table. Qed.

(** Emitted code is well-formed for relaxation when it is not enormous. *)
Lemma Built_WF a :
  Built a -> (12 * Z.of_nat (length (groups a)) < 2 ^ 32)%Z ->
  (Z.of_nat (length (IRStringTable.m_strings (names a)) + 2 * length (uses a)) < 2 ^ 32)%Z -> WF (length (uses a)) a.
Proof.
  intros [Hw Hl Hn Hf Hu Hd Hfn Hi Hr] Hsize Hroom.
  assert (Hone : forall k gr, groups a !! k = Some gr -> exists w, gr = [w] /\ is_word w) by (intros k gr Hk; by apply (Forall_lookup_1 _ _ _ _ Hw Hk)).
  constructor; try done.
  - eapply Forall_impl; [exact Hw|]. intros gr (w & -> & ?). by apply Forall_singleton.
  - eapply Forall_impl; [exact Hw|]. intros gr (w & -> & ?). cbn. lia.
  - pose proof (measure_bound (length (uses a)) a). lia.
  - intros i u Hiu. destruct (Hu i u Hiu) as (? & Hg & Ew). split; [done|]. destruct (lookup_lt_is_Some_2 _ _ Hg) as [gr Hgr].
    destruct (Hone _ _ Hgr) as (w & -> & _). exists [w], w. unfold use_at. by rewrite Ew.
  - intros i u gr w _ (Hiu & Hg & _) _. destruct (Hu i u Hiu) as (_ & _ & Ew). destruct (Hone _ _ Hg) as (w' & -> & _). cbn. rewrite Ew. lia.
  - intros i u gr w Hlt (Hiu & _ & _). apply lookup_lt_Some in Hiu. lia.
  - intros i j u v Hlt _ Hiu _. apply lookup_lt_Some in Hiu. lia.
  - intros i j u v _ _. apply Hd.
Qed.

(** ** One instruction more *)

Lemma start_app gs gs' k : k <= length gs -> start (gs ++ gs') k = start gs k.
Proof.
  revert k. induction gs as [|g gs IH]; intros [|k] Hk; cbn [app start length] in *; try lia; [by destruct gs'|].
  by rewrite IH by lia.
Qed.

(** [use] is the label the instruction uses, with an addend. *)
Definition add_word (a : Asm) (w : Z) (use : option (Z * Z)) : Asm :=
  mkAsm (groups a ++ [[w]]) (names a) (labels a)
    (uses a ++ match use with Some (label, addend) => [mkAUse label (length (groups a)) 0 addend] | None => [] end)
    (functions a) (init a) (rows a).

Lemma add_word_extends a w use : extends a (add_word a w use).
Proof.
  exists [[w]], (match use with Some (l, d) => [mkAUse l (length (groups a)) 0 d] | None => [] end). cbn [add_word groups uses].
  split_and!; [done..|]. destruct use as [[l d]|]; constructor; [done|constructor].
Qed.

Lemma add_word_Built a w use :
  Built a -> is_word w -> (forall label addend, use = Some (label, addend) -> (0 <= label)%Z) -> Built (add_word a w use).
Proof.
  intros [Hw Hl Hn Hf Hu Hd Hfn Hi Hr] Hword Hlabel.
  assert (Hlen : length (groups (add_word a w use)) = S (length (groups a))) by (cbn; rewrite length_app; cbn; lia).
  assert (Huse : forall i u, uses (add_word a w use) !! i = Some u ->
    (uses a !! i = Some u /\ u_group u < length (groups a))
    \/ (i = length (uses a) /\ exists l d, use = Some (l, d) /\ u = mkAUse l (length (groups a)) 0 d)).
  { intros i u Hiu. cbn [add_word uses] in Hiu. apply lookup_app_Some in Hiu as [Hiu|[Hge Hiu]]; [left; split; [done|by apply (Hu i u Hiu)]|].
    right. destruct use as [[l d]|]; [|done]. apply list_lookup_singleton_Some in Hiu as [E <-]. split; [lia|]. by exists l, d. }
  constructor; try rewrite Hlen; try done.
  - apply Forall_app. split; [done|]. apply Forall_singleton. by exists w.
  - intros id k Hk. destruct (Hl id k Hk). cbn [add_word names]. split; [done|]. lia.
  - intros i u Hiu. destruct (Huse i u Hiu) as [[Hiu' _]|(_ & l & d & E & ->)].
    + destruct (Hu i u Hiu') as (? & ? & ?). split_and!; [done|lia|done].
    + cbn. split_and!; [by eapply Hlabel|lia|done].
  - intros i j u v Hiu Hjv E. destruct (Huse i u Hiu) as [[Hi1 Hi2]|(-> & l & d & Eu & ->)], (Huse j v Hjv) as [[Hj1 Hj2]|(-> & l' & d' & Ev & ->)]; cbn [u_group] in E; try lia.
    by eapply Hd.
  - intros name k Hk. pose proof (Hfn name k Hk). lia.
  - cbn [add_word init]. lia.
  - eapply Forall_impl; [exact Hr|]. cbn. lia.
Qed.

Lemma represents_code_length a ts g : represents a ts g -> length (m_code g) = start (groups a) (length (groups a)).
Proof. intros [-> _]. by rewrite length_code_of, start_all. Qed.

(** Positions do not move when instructions follow. *)
Lemma positioned_app gs gs' a us ts g :
  (forall id k, labels a !! id = Some k -> k <= length gs) -> (forall i u, us !! i = Some u -> u_group u <= length gs) ->
  (forall name k, functions a !! name = Some k -> k <= length gs) -> init a <= length gs ->
  Forall (fun r => r.1 <= length gs) (rows a) ->
  positioned gs a us ts g -> positioned (gs ++ gs') a us ts g.
Proof.
  intros Hl Hu Hf Hi Hr [Pn Pl Pr Pu Pf Pi Prw Pt]. split; try done.
  - intros id Hid. rewrite Pl by done. destruct (labels a !! id) as [k|] eqn:E; [|done]. cbn. by rewrite start_app by (by eapply Hl).
  - rewrite Pu. apply map_ext_in. intros u Hin%list_elem_of_In. apply list_elem_of_lookup in Hin as [i Hiu]. unfold conc.
    by rewrite start_app by (by eapply Hu).
  - rewrite Pf. apply map_fmap_ext. intros name k Hk. by rewrite start_app by (by eapply Hf).
  - by rewrite Pi, start_app.
  - rewrite Prw. apply map_ext_in. intros r Hin%list_elem_of_In. unfold row. rewrite Forall_forall in Hr. by rewrite start_app by (by apply Hr).
Qed.

(** The generator after the use was marked and the word emitted. *)
Definition with_word (g : Gen) (w : Z) (use : option (Z * Z)) : Gen :=
  set_code (m_code g ++ word_bytes w)
    (set_labels (m_label_names g) (m_label_offsets g)
       (m_label_uses g ++ match use with Some (label, addend) => [mkUse label (length (m_code g)) addend] | None => [] end) g).

Lemma represents_add a ts g w use :
  Built a -> represents a ts g -> represents (add_word a w use) ts (with_word g w use).
Proof.
  intros Hb Hrep. pose proof (represents_code_length a ts g Hrep) as Hlen. destruct Hrep as [Hcode Hpos]. split.
  - cbn [with_word set_code m_code add_word groups]. rewrite Hcode, concat_app, code_of_app. cbn [concat app].
    by rewrite code_of_one, word_bytes_write.
  - assert (positioned (groups a ++ [[w]]) a (uses a) ts g) as [Pn Pl Pr Pu Pf Pi Prw Pt].
    { apply positioned_app; [| | |apply (b_init _ Hb)|apply (b_rows _ Hb)|done].
      - intros id k Hk. apply (b_labels _ Hb id k Hk).
      - intros i u Hiu. pose proof (b_use _ Hb i u Hiu). lia.
      - apply (b_functions _ Hb). }
    split; try done. cbn [with_word m_label_uses set_code set_labels add_word uses groups]. rewrite Pu, map_app. f_equal.
    destruct use as [[l d]|]; [|done]. cbn. unfold conc. cbn [u_label u_group u_word u_addend]. do 2 f_equal.
    rewrite start_app by done. lia.
Qed.

(** ** Operations that keep code emitted *)

Definition names_count (g : Gen) : nat := length (IRStringTable.m_strings (m_label_names g)).

(** An emitter adds to the code and to the names, and keeps [emitted] while both
    can be numbered in 32 bits. *)
Definition grown (g g' : Gen) : Prop :=
  names_count g <= names_count g' /\ length (m_code g) <= length (m_code g').

Definition small (g : Gen) : Prop :=
  (Z.of_nat (names_count g) < 2 ^ 32)%Z /\ (Z.of_nat (length (m_code g)) < 2 ^ 32)%Z.

#[export] Instance grown_preorder : PreOrder grown.
Proof. unfold grown. split; [intros g; lia|intros g1 g2 g3; lia]. Qed.

Lemma grown_small g g' : grown g g' -> small g' -> small g.
Proof. unfold grown, small. lia. Qed.

Definition grows {A} (c : Emit A) : Prop :=
  (forall g, grown g (c g).1) /\
  forall a ts g, Built a -> represents a ts g -> small (c g).1 ->
    exists a', Built a' /\ represents a' ts (c g).1 /\ extends a a'.

Lemma grows_pure {A} (c : Emit A) : (forall g, (c g).1 = g) -> grows c.
Proof. intros Hc. split; [intros g; by rewrite Hc|]. intros a ts g Hb Hr _. exists a. rewrite Hc. by split_and!. Qed.

Lemma grows_ret {A} (x : A) : grows (mret x).
Proof. by apply grows_pure. Qed.

Lemma grows_lift {A} (o : outcome A) : grows (mlift o).
Proof. by apply grows_pure. Qed.

Lemma grows_here : grows offset_of_code.
Proof. by apply grows_pure. Qed.

Lemma grows_bind {A B} (c : Emit A) (k : A -> Emit B) : grows c -> (forall x, grows (k x)) -> grows (mbind c k).
Proof.
  intros [Hc1 Hc2] Hk. assert (Hm : forall g, grown (c g).1 (mbind c k g).1).
  { intros g. unfold mbind. destruct (c g) as [g' [x|e]]; [apply (Hk x)|done]. }
  split; [intros g; etransitivity; [apply Hc1|apply Hm]|].
  intros a ts g Hb Hr Hroom. specialize (Hm g). destruct (Hc2 a ts g Hb Hr) as (a1 & Hb1 & Hr1 & Hex1); [by eapply grown_small|].
  unfold mbind in *. destruct (c g) as [g' [x|e]]; cbn [fst] in *; [|by exists a1].
  destruct (Hk x) as [_ Hx]. destruct (Hx a1 ts g' Hb1 Hr1 Hroom) as (a2 & Hb2 & Hr2 & Hex2). exists a2. split_and!; [done|done|by etransitivity].
Qed.

Lemma grows_if {A} (b : bool) (c d : Emit A) : grows c -> grows d -> grows (if b then c else d).
Proof. by destruct b. Qed.

Lemma grows_word w : is_word w -> grows (emit_word w).
Proof.
  intros Hw. split; [intros g; split; [done|]; cbn; rewrite length_app; lia|]. intros a ts g Hb Hr _. exists (add_word a w None).
  split_and!; [by apply add_word_Built| |apply add_word_extends]. pose proof (represents_add a ts g w None Hb Hr) as H.
  unfold with_word in H. rewrite app_nil_r in H. by destruct g.
Qed.

Lemma intern_kept t name :
  IRStringTable.wf t -> (Z.of_nat (length (IRStringTable.m_strings t)) < 2 ^ 32)%Z -> ordinary name ->
  (forall i, IRStringTable.m_ids t !! skip_label i = None) ->
  let r := IRStringTable.intern t name in
  IRStringTable.wf r.1 /\ (0 <= r.2 < Z.of_nat (length (IRStringTable.m_strings r.1)))%Z
  /\ length (IRStringTable.m_strings t) <= length (IRStringTable.m_strings r.1)
  /\ forall i, IRStringTable.m_ids r.1 !! skip_label i = None.
Proof.
  intros Hwf Hroom Ho Hf. cbv zeta. pose proof (IRStringTable.intern_spec t name Hwf Hroom) as Hs.
  destruct (IRStringTable.intern t name) as [t' id] eqn:E. destruct Hs as (Hwf' & Hid & Hl & Hkeep). cbn [fst snd].
  apply lookup_lt_Some in Hl. split_and!; try done; [lia| |].
  - unfold IRStringTable.intern in E. destruct (IRStringTable.m_ids t !! name); injection E as <- <-; [done|]. cbn [IRStringTable.m_strings]. rewrite length_app. lia.
  - intros i. unfold IRStringTable.intern in E. destruct (IRStringTable.m_ids t !! name); injection E as <- <-; [done|].
    cbn [IRStringTable.m_ids]. rewrite lookup_insert_ne; [done|]. apply Ho.
Qed.

(** The label table grows without the code. *)
Definition set_names (a : Asm) (t : IRStringTable.IRStringTable) (ls : gmap Z nat) : Asm :=
  mkAsm (groups a) t ls (uses a) (functions a) (init a) (rows a).

Lemma extends_names a t ls : extends a (set_names a t ls).
Proof. exists [], []. cbn [set_names groups uses]. by rewrite !app_nil_r. Qed.

Lemma set_names_Built a t ls :
  Built a -> IRStringTable.wf t -> (forall i, IRStringTable.m_ids t !! skip_label i = None) ->
  (forall id k, ls !! id = Some k -> (0 <= id < Z.of_nat (length (IRStringTable.m_strings t)))%Z /\ k <= length (groups a)) ->
  Built (set_names a t ls).
Proof. intros [] Ht Hf Hl. by constructor. Qed.

Lemma label_id_grown name g : grown g (label_id name g).1.
Proof.
  unfold label_id. split; [|by destruct (IRStringTable.intern _ _)]. destruct (IRStringTable.intern (m_label_names g) name) as [t id] eqn:E. unfold names_count. cbn.
  unfold IRStringTable.intern in E. destruct (_ !! name); injection E as <- _; [done|]. cbn [IRStringTable.m_strings]. rewrite length_app. lia.
Qed.

Lemma label_id_spec name a ts g :
  ordinary name -> Built a -> represents a ts g -> small (label_id name g).1 ->
  exists t id, label_id name g = (set_labels t (m_label_offsets g) (m_label_uses g) g, Ok id)
    /\ (0 <= id < Z.of_nat (length (IRStringTable.m_strings t)))%Z
    /\ Built (set_names a t (labels a)) /\ represents (set_names a t (labels a)) ts (label_id name g).1.
Proof.
  intros Ho Hb Hr Hroom. pose proof (label_id_grown name g) as Hn. apply (grown_small _ _ Hn) in Hroom as [Hroom _]. pose proof Hr as [Hcode [Pn Pl Pr Pu Pf Pi Prw Pt]].
  assert (Z.of_nat (length (IRStringTable.m_strings (names a))) < 2 ^ 32)%Z as Hroom' by (by rewrite <- Pn).
  destruct (intern_kept (names a) name (b_names _ Hb) Hroom' Ho (b_fresh _ Hb)) as (Hwf & Hid & Hle & Hf).
  unfold label_id. rewrite Pn. destruct (IRStringTable.intern (names a) name) as [t id]. cbn [fst snd] in *.
  exists t, id. split_and!; [done|lia|lia| |split; [done|]].
  - apply set_names_Built; try done. intros l k Hk. pose proof (b_labels _ Hb l k Hk). lia.
  - split; cbn [set_labels m_label_names m_label_offsets m_label_uses m_functions m_instance_init_offset m_line_table m_dense_jump_tables
      set_names names labels uses functions init rows]; try done. lia.
Qed.

Lemma grows_label_id name : ordinary name -> grows (label_id name).
Proof.
  intros Ho. split; [apply label_id_grown|]. intros a ts g Hb Hr Hroom.
  destruct (label_id_spec name a ts g Ho Hb Hr Hroom) as (t & id & _ & _ & Hb' & Hr').
  eexists. split_and!; [done|done|apply extends_names].
Qed.

(** A use is marked at the offset where its instruction follows. *)
Definition marked (name : string) (addend w : Z) : Emit unit :=
  let* here := offset_of_code in mark_label_use name here addend ;;; emit_word w.

Lemma marked_with_word name addend w g t id :
  label_id name g = (set_labels t (m_label_offsets g) (m_label_uses g) g, Ok id) ->
  (marked name addend w g).1 = with_word (set_labels t (m_label_offsets g) (m_label_uses g) g) w (Some (id, addend)).
Proof. intros E. unfold marked, mark_label_use, mbind, offset_of_code. cbn [fst]. by rewrite E. Qed.

Lemma marked_grown name addend w g :
  grown (label_id name g).1 (marked name addend w g).1.
Proof.
  unfold marked, mark_label_use, mbind, offset_of_code, label_id. destruct (IRStringTable.intern _ _). split; [done|].
  cbn. rewrite length_app. lia.
Qed.

Lemma marked_spec name addend w a ts g :
  ordinary name -> is_word w -> Built a -> represents a ts g -> small (marked name addend w g).1 ->
  exists t id, let a' := add_word (set_names a t (labels a)) w (Some (id, addend)) in
    Built a' /\ represents a' ts (marked name addend w g).1 /\ extends a a' /\ (marked name addend w g).2 = Ok tt.
Proof.
  intros Ho Hw Hb Hr Hroom. apply (grown_small _ _ (marked_grown name addend w g)) in Hroom.
  destruct (label_id_spec name a ts g Ho Hb Hr Hroom) as (t & id & E & Hid & Hb' & Hr'). exists t, id. cbv zeta.
  rewrite (marked_with_word name addend w g t id E). rewrite E in Hr'. cbn [fst] in Hr'. split_and!.
  - apply add_word_Built; [done..|]. intros l d [= <- <-]. lia.
  - by apply represents_add.
  - etransitivity; [apply (extends_names a t (labels a))|apply add_word_extends].
  - unfold marked, mark_label_use, mbind, offset_of_code. by rewrite E.
Qed.

Lemma grows_marked name addend w : ordinary name -> is_word w -> grows (marked name addend w).
Proof.
  intros Ho Hw. split; [intros g; etransitivity; [apply label_id_grown|apply marked_grown]|]. intros a ts g Hb Hr Hroom.
  destruct (marked_spec name addend w a ts g Ho Hw Hb Hr Hroom) as (t & id & ? & ? & ? & _). eexists. split_and!; done.
Qed.

(** A label defined here names the next instruction. *)
Lemma grows_define_label name : ordinary name -> grows (define_label name).
Proof.
  intros Ho. assert (Hn : forall g, grown (label_id name g).1 (define_label name g).1).
  { intros g. unfold define_label, mbind, offset_of_code, label_id. by destruct (IRStringTable.intern _ _). }
  split; [intros g; etransitivity; [apply label_id_grown|apply Hn]|]. intros a ts g Hb Hr Hroom. apply (grown_small _ _ (Hn g)) in Hroom.
  destruct (label_id_spec name a ts g Ho Hb Hr Hroom) as (t & id & E & Hid & Hb' & Hr').
  exists (set_names a t (<[id := length (groups a)]> (labels a))). rewrite E in Hr'. cbn [fst] in Hr'.
  pose proof (represents_code_length _ _ _ Hr') as Hlen. cbn [m_code set_labels set_names groups] in Hlen.
  assert ((define_label name g).1 = (set_label id (length (m_code g)) (set_labels t (m_label_offsets g) (m_label_uses g) g)).1) as ->
    by (unfold define_label, mbind; by rewrite E).
  destruct Hr' as [Hcode [Pn Pl Pr Pu Pf Pi Prw Pt]]. split_and!; [| |apply extends_names].
  - destruct Hb'. constructor; try done. intros l k Hk. cbn [set_names labels names groups] in *.
    apply lookup_insert_Some in Hk as [[<- <-]|[_ Hk]]; [lia|]. by apply b_labels0.
  - split; [done|]. split; try done.
    + intros l Hl. rewrite label_offset_set_label by lia. cbn [set_names labels groups]. rewrite lookup_insert.
      destruct (decide (l = id)) as [->|Hne]; [rewrite decide_True by done; cbn; by rewrite Hlen|].
      rewrite decide_False by done. by apply Pl.
    + rewrite length_set_label. cbn [set_names names m_label_offsets set_labels] in *. lia.
Qed.

Lemma grows_pools constants constant_map strings string_labels :
  grows (mmodify (set_pools constants constant_map strings string_labels)).
Proof.
  split; [done|]. intros a ts g Hb [Hcode [Pn Pl Pr Pu Pf Pi Prw Pt]] _. exists a. split_and!; [done|by split|done].
Qed.

Lemma grows_ext {A} (c d : Emit A) : (forall g, c g = d g) -> grows d -> grows c.
Proof.
  intros E [H1 H2]. split; [intros g; by rewrite E|]. intros a ts g. rewrite E. apply H2.
Qed.

Lemma grows_state {A} (c : Emit A) :
  (forall g, (c g).1 = g \/ exists cs cm ss sl, (c g).1 = set_pools cs cm ss sl g) -> grows c.
Proof.
  intros Hc. split.
  - intros g. by destruct (Hc g) as [->|(? & ? & ? & ? & ->)].
  - intros a ts g Hb Hr Hroom. destruct (Hc g) as [->|(cs & cm & ss & sl & E)]; [by exists a|].
    destruct (grows_pools cs cm ss sl) as [_ H]. destruct (H a ts g Hb Hr) as (a' & ? & ? & ?); [by rewrite E in Hroom|].
    exists a'. by rewrite E.
Qed.

Lemma grows_add_constant value : grows (add_constant value).
Proof. apply grows_state. intros g. unfold add_constant. case_match; [by left|right]. by eexists _, _, _, _. Qed.

Lemma grows_rodata_string text : grows (rodata_string text).
Proof. apply grows_state. intros g. unfold rodata_string. case_match; [by left|right]. by eexists _, _, _, _. Qed.

(** ** Functions and lines *)

Definition set_places (a : Asm) (fs : gmap string nat) (i : nat) (rs : list (nat * Z)) : Asm :=
  mkAsm (groups a) (names a) (labels a) (uses a) fs i rs.

Lemma grows_places (f : Gen -> Gen) (places : Asm -> Asm) :
  (forall a, exists fs i rs, places a = set_places a fs i rs
     /\ (Built a -> (forall name k, fs !! name = Some k -> k <= length (groups a)) /\ i <= length (groups a)
                    /\ Forall (fun r => r.1 <= length (groups a)) rs)) ->
  (forall g, grown g (f g)) ->
  (forall a ts g, Built a -> represents a ts g -> small (f g) -> represents (places a) ts (f g)) ->
  grows (mmodify f).
Proof.
  intros Hp Hf Hr. split; [done|]. intros a ts g Hb Hrep Hs. cbn [mmodify fst] in *. exists (places a).
  pose proof (Hr a ts g Hb Hrep Hs) as Hrep'. destruct (Hp a) as (fs & i & rs & E & Hbounds). rewrite E in *.
  destruct (Hbounds Hb) as (? & ? & ?). split_and!; [destruct Hb; by constructor|done|].
  exists [], []. cbn [set_places groups uses]. by rewrite !app_nil_r.
Qed.

Lemma grows_begin_function name : ordinary name -> grows (begin_function name).
Proof.
  intros Ho. apply grows_bind; [|intros _; by apply grows_define_label].
  apply (grows_places _ (fun a => set_places a (<[name := length (groups a)]> (functions a)) (init a) (rows a))).
  - intros a. eexists _, _, _. split; [done|]. intros Hb. split_and!; [|apply (b_init _ Hb)|apply (b_rows _ Hb)].
    intros n k [[<- <-]|[_ Hk]]%lookup_insert_Some; [done|by apply (b_functions _ Hb n)].
  - done.
  - intros a ts g Hb Hr _. pose proof (represents_code_length _ _ _ Hr) as Hlen. destruct Hr as [Hcode [Pn Pl Pr Pu Pf Pi Prw Pt]].
    split; [done|]. split; try done. cbn [set_positions m_functions set_places functions groups]. by rewrite Pf, Hlen, fmap_insert.
Qed.

Lemma grows_begin_instance_init name : ordinary name -> grows (begin_instance_init name).
Proof.
  intros Ho. apply grows_bind; [by apply grows_define_label|intros _].
  apply (grows_places _ (fun a => set_places a (functions a) (length (groups a)) (rows a))).
  - intros a. eexists _, _, _. split; [done|]. intros Hb. split_and!; [apply (b_functions _ Hb)|done|apply (b_rows _ Hb)].
  - done.
  - intros a ts g Hb Hr _. pose proof (represents_code_length _ _ _ Hr) as Hlen. destruct Hr as [Hcode [Pn Pl Pr Pu Pf Pi Prw Pt]].
    split; [done|]. by split.
Qed.

(** [record_line] on instruction indices. *)
Definition record_row (here : nat) (line : Z) (force : bool) (rs : list (nat * Z)) : list (nat * Z) :=
  if ((line <? 0) || ((line =? 0) && negb force))%Z then rs
  else
    let line := to_uint32 line in
    let dedupe rs :=
      match rev rs with
      | back :: previous :: before => if (previous.2 =? back.2)%Z then rev (previous :: before) else rs
      | _ => rs
      end in
    match rev rs with
    | [] => [(here, line)]
    | back :: before =>
        if back.1 =? here then dedupe (rev ((back.1, line) :: before))
        else if (back.2 =? line)%Z then rs
        else dedupe (rs ++ [(here, line)])
    end.

Lemma row_line gs r : LineTable.line (row gs r) = r.2.
Proof. done. Qed.

Lemma dedupe_rows gs rs :
  match rev (map (row gs) rs) with
  | back :: previous :: before =>
      if (LineTable.line previous =? LineTable.line back)%Z then rev (previous :: before) else map (row gs) rs
  | _ => map (row gs) rs
  end
  = map (row gs) (match rev rs with
    | back :: previous :: before => if (previous.2 =? back.2)%Z then rev (previous :: before) else rs
    | _ => rs
    end).
Proof.
  rewrite <- map_rev. destruct (rev rs) as [|back [|previous before]]; try done. cbn [map]. rewrite !row_line.
  destruct (_ =? _)%Z; [by rewrite map_rev|]. done.
Qed.

Lemma start_lt gs k : Forall (fun g => 0 < length g) gs -> k < length gs -> start gs k < start gs (length gs).
Proof.
  intros Hg. revert k. induction Hg as [|g gs Hg0 Hg IH]; intros k Hk; cbn [length] in Hk; [lia|].
  destruct k as [|k]; cbn [start length]; [lia|]. specialize (IH k ltac:(lia)). lia.
Qed.

Lemma Built_nonempty a : Built a -> Forall (fun g => 0 < length g) (groups a).
Proof. intros Hb. eapply Forall_impl; [apply (b_words _ Hb)|]. intros gr (w & -> & _). cbn. lia. Qed.

Lemma Forall_dedupe (P : nat * Z -> Prop) rs :
  Forall P rs ->
  Forall P (match rev rs with
    | back :: previous :: before => if (previous.2 =? back.2)%Z then rev (previous :: before) else rs
    | _ => rs
    end).
Proof.
  intros Hf. destruct (rev rs) as [|back [|previous before]] eqn:E; try done. destruct (_ =? _)%Z; [|done].
  assert (Forall P (rev rs)) as Hr by (by apply Forall_rev). rewrite E in Hr. apply Forall_cons in Hr as [_ Hr]. by apply Forall_rev.
Qed.

Lemma grows_record_line line force : grows (record_line line force).
Proof.
  apply (grows_places _ (fun a => set_places a (functions a) (init a) (record_row (length (groups a)) line force (rows a)))).
  - intros a. eexists _, _, _. split; [done|]. intros Hb. split_and!; [apply (b_functions _ Hb)|apply (b_init _ Hb)|].
    pose proof (b_rows _ Hb) as Hr. unfold record_row. case_match; [done|].
    destruct (rev (rows a)) as [|back before] eqn:E; [by apply Forall_singleton|].
    assert (Forall (fun r => r.1 <= length (groups a)) (rev (rows a))) as Hrr by (by apply Forall_rev). rewrite E in Hrr.
    apply Forall_cons in Hrr as [Hback Hbefore]. case_match; [apply Forall_dedupe, Forall_rev; by constructor|]. case_match; [done|].
    apply Forall_dedupe, Forall_app. split; [done|]. by apply Forall_singleton.
  - intros g. unfold grown. cbv beta zeta. repeat case_match; split; apply le_n.
  - intros a ts g Hb Hr [_ Hs]. cbv beta zeta in *. set (here := length (groups a)).
    assert (length (m_code g) = start (groups a) here) as Hlen by (by apply (represents_code_length _ ts)).
    destruct Hr as [Hcode [Pn Pl Pr Pu Pf Pi Prw Pt]].
    set (store es := set_positions (m_functions g) (m_instance_init_offset g) es g).
    assert (Hstore : forall es, length (m_code (store es)) = length (m_code g)) by done.
    assert (Hsmall : (Z.of_nat (length (m_code g)) < 2 ^ 32)%Z).
    { clear -Hs. repeat case_match; done. }
    assert (to_uint32 (Z.of_nat (length (m_code g))) = Z.of_nat (start (groups a) here)) as Haddr
      by (rewrite Hlen in *; unfold wrapu; apply Z.mod_small; lia).
    assert (Hrep : forall rs, represents (set_places a (functions a) (init a) rs) ts (store (map (row (groups a)) rs))) by (intros rs; split; [done|by split]).
    assert (g = store (map (row (groups a)) (rows a))) as Hg by (unfold store; rewrite <- Prw; by destruct g).
    unfold record_row. destruct (_ || _)%bool; [rewrite Hg; apply Hrep|]. rewrite Haddr, Prw, <- map_rev.
    destruct (rev (rows a)) as [|back before] eqn:Erev; cbn [map]; [apply (Hrep [(here, to_uint32 line)])|].
    assert (Hback : back ∈ rows a) by (apply list_elem_of_In, in_rev; rewrite Erev; by left).
    pose proof (b_rows _ Hb) as Hrows. rewrite Forall_forall in Hrows. specialize (Hrows back Hback).
    assert ((LineTable.address (row (groups a) back) =? Z.of_nat (start (groups a) here))%Z = (back.1 =? here)) as ->.
    { cbn [row LineTable.address]. destruct (Nat.eqb_spec back.1 here) as [->|Hne]; [by rewrite Z.eqb_refl|].
      pose proof (start_lt (groups a) back.1 (Built_nonempty a Hb) ltac:(unfold here in *; lia)). apply Z.eqb_neq. unfold here. lia. }
    destruct (back.1 =? here).
    + change (LineTable.mkEntry (LineTable.address (row (groups a) back)) (to_uint32 line) :: map (row (groups a)) before)
        with (map (row (groups a)) ((back.1, to_uint32 line) :: before)).
      rewrite <- map_rev, dedupe_rows. apply Hrep.
    + rewrite row_line. destruct (back.2 =? to_uint32 line)%Z; [rewrite Hg; apply Hrep|].
      change ([LineTable.mkEntry (Z.of_nat (start (groups a) here)) (to_uint32 line)]) with (map (row (groups a)) [(here, to_uint32 line)]).
      rewrite <- map_app, dedupe_rows. apply Hrep.
Qed.

(** ** The emitters *)

Lemma is_word_uint32 z : is_word (to_uint32 z).
Proof. unfold is_word, wrapu. apply Z.mod_pos_bound. lia. Qed.

Lemma is_word_R4 op r f3 r1 r2 r3 f2 : is_word (R4_word op r f3 r1 r2 r3 f2).
Proof.
  unfold is_word, R4_word, wrapu. rewrite !Z.shiftl_mul_pow2 by lia.
  pose proof (Z.mod_pos_bound op (2 ^ 7) ltac:(lia)). pose proof (Z.mod_pos_bound r (2 ^ 5) ltac:(lia)).
  pose proof (Z.mod_pos_bound f3 (2 ^ 3) ltac:(lia)). pose proof (Z.mod_pos_bound r1 (2 ^ 5) ltac:(lia)).
  pose proof (Z.mod_pos_bound r2 (2 ^ 5) ltac:(lia)). pose proof (Z.mod_pos_bound f2 (2 ^ 2) ltac:(lia)).
  pose proof (Z.mod_pos_bound r3 (2 ^ 5) ltac:(lia)). lia.
Qed.

Create HintDb emitters.

(** Goes through an emitter that marks no label. *)
Ltac grow := repeat first
  [ solve [eauto with emitters]
  | apply grows_ret | apply grows_lift | apply grows_here
  | apply grows_bind; [|intros ?] | apply grows_if
  | apply grows_word; first [apply is_word_uint32 | apply is_word_R4] ].

Lemma grows_r_type op r f3 r1 r2 f7 : grows (emit_r_type op r f3 r1 r2 f7).
Proof. unfold emit_r_type. grow. Qed.
Lemma grows_i_type op r f3 r1 imm : grows (emit_i_type op r f3 r1 imm).
Proof. unfold emit_i_type. grow. Qed.
Lemma grows_s_type op f3 r1 r2 imm : grows (emit_s_type op f3 r1 r2 imm).
Proof. unfold emit_s_type. grow. Qed.
Lemma grows_b_type op f3 r1 r2 imm : grows (emit_b_type op f3 r1 r2 imm).
Proof. unfold emit_b_type. grow. Qed.
Lemma grows_u_type op r imm : grows (emit_u_type op r imm).
Proof. unfold emit_u_type. grow. Qed.
Lemma grows_j_type op r imm : grows (emit_j_type op r imm).
Proof. unfold emit_j_type. grow. Qed.
Lemma grows_r4_type op r f3 r1 r2 r3 f2 : grows (emit_r4_type op r f3 r1 r2 r3 f2).
Proof. unfold emit_r4_type. grow. Qed.

#[export] Hint Resolve grows_r_type grows_i_type grows_s_type grows_b_type grows_u_type grows_j_type grows_r4_type
  grows_add_constant grows_rodata_string grows_record_line : emitters.

Lemma grows_li_small r imm : grows (emit_li_small r imm).
Proof. unfold emit_li_small, emit_li32. grow. Qed.
#[export] Hint Resolve grows_li_small : emitters.

Lemma grows_add_offset r base offset : grows (emit_add_offset r base offset).
Proof. unfold emit_add_offset, emit_addi, emit_add. grow. Qed.
#[export] Hint Resolve grows_add_offset : emitters.

Lemma grows_load op f3 r base offset : grows (emit_load_with_offset op f3 r base offset).
Proof. unfold emit_load_with_offset. grow. Qed.
Lemma grows_store op f3 r2 base offset : grows (emit_store_with_offset op f3 r2 base offset).
Proof. unfold emit_store_with_offset. grow. Qed.
#[export] Hint Resolve grows_load grows_store : emitters.

(** An instruction that uses a label: the mark and the word are one step. *)
Lemma mark_then {A} name addend w (c : Emit unit) (k : Emit A) :
  (forall g, c g = emit_word w g) ->
  forall g, (let* here := offset_of_code in mark_label_use name here addend ;;; (c ;;; k)) g = (marked name addend w ;;; k) g.
Proof.
  intros Hc g. unfold marked, mbind, offset_of_code. destruct (mark_label_use name _ addend g) as [g' [[]|e]]; [|done]. by rewrite Hc.
Qed.

Lemma u_type_zero r : forall g, emit_u_type 0x17 r 0 g = emit_word (U_word 0x17 r 0) g.
Proof. done. Qed.

Lemma grows_la r name addend : ordinary name -> grows (emit_la r name addend).
Proof.
  intros Ho. eapply grows_ext; [intros g; apply (mark_then name addend _ _ _ (u_type_zero r))|].
  apply grows_bind; [apply grows_marked; [done|apply is_word_uint32]|intros _; grow].
Qed.

Lemma ordinary_LC n : ordinary (".LC" +:+ n).
Proof. intros i. discriminate. Qed.

Lemma grows_li r imm : grows (emit_li r imm).
Proof.
  unfold emit_li. apply grows_if; [grow|]. apply grows_bind; [grow|intros index].
  eapply grows_ext; [intros g; apply (mark_then (".LC" +:+ pretty index) 0 _ _ _ (u_type_zero r))|].
  apply grows_bind; [apply grows_marked; [apply ordinary_LC|apply is_word_uint32]|intros _]. unfold emit_ld. grow.
Qed.
#[export] Hint Resolve grows_li : emitters.

(** A branch or jump to a label, emitted with displacement 0. *)
Lemma grows_branch_to name f3 r1 r2 : ordinary name ->
  grows (let* here := offset_of_code in mark_label_use name here 0 ;;; emit_b_type 0x63 f3 r1 r2 0).
Proof. intros Ho. apply (grows_marked name 0 (B_word 0x63 f3 r1 r2 0)); [done|apply is_word_uint32]. Qed.

Lemma grows_jump_to name r : ordinary name ->
  grows (let* here := offset_of_code in mark_label_use name here 0 ;;; emit_jal r 0).
Proof. intros Ho. apply (grows_marked name 0 (J_word 0x6F r 0)); [done|apply is_word_uint32]. Qed.

(** ** Dense tables *)

(** What [grows] is to an instruction, [keeps] is to what also records tables. *)
Definition keeps {A} (c : Emit A) : Prop :=
  (forall g, grown g (c g).1) /\ forall g, emitted g -> small (c g).1 -> emitted (c g).1.

Lemma grows_keeps {A} (c : Emit A) : grows c -> keeps c.
Proof.
  intros [Hc1 Hc2]. split; [done|]. intros g (a & Hb & Ht & Hr) Hs. destruct (Hc2 a _ g Hb Hr Hs) as (a' & Hb' & Hr' & Hex).
  pose proof (pos_tables _ _ _ _ _ (proj2 Hr')) as Et. exists a'. rewrite Et. split_and!; [done| |done]. by eapply extends_tables.
Qed.

Lemma keeps_bind {A B} (c : Emit A) (k : A -> Emit B) : keeps c -> (forall x, keeps (k x)) -> keeps (mbind c k).
Proof.
  intros [Hc1 Hc2] Hk. assert (Hm : forall g, grown (c g).1 (mbind c k g).1).
  { intros g. unfold mbind. destruct (c g) as [g' [x|e]]; [apply (Hk x)|done]. }
  split; [intros g; etransitivity; [apply Hc1|apply Hm]|]. intros g Hg Hs. specialize (Hm g).
  pose proof (Hc2 g Hg (grown_small _ _ Hm Hs)) as Hg'. unfold mbind in *. destruct (c g) as [g' [x|e]]; [|done]. by apply (Hk x).
Qed.

(** The entries: one jump per label. *)
Definition entries (labels : list string) : Emit unit :=
  fold_right (fun label rest => (let* here := offset_of_code in mark_label_use label here 0 ;;; emit_jal REG_ZERO 0) ;;; rest) (mret tt) labels.

Lemma grows_entries labels : Forall ordinary labels -> grows (entries labels).
Proof. induction 1 as [|l labels Hl _ IH]; [apply grows_ret|]. apply grows_bind; [by apply grows_jump_to|done]. Qed.

Lemma entries_spec labels a ts g :
  Forall ordinary labels -> Built a -> represents a ts g -> small (entries labels g).1 ->
  exists a', Built a' /\ represents a' ts (entries labels g).1 /\ extends a a'
    /\ length (uses a') = length (uses a) + length labels
    /\ forall n, n < length labels -> entry a' false (length (uses a) + n) (length (groups a) + n).
Proof.
  intros Hl. revert a g. induction Hl as [|l labels Ho Hl IH]; intros a g Hb Hr Hs.
  { exists a. cbn. split_and!; try done; lia. }
  set (w := J_word 0x6F REG_ZERO 0). assert (Hstep : forall g, entries (l :: labels) g = (marked l 0 w ;;; entries labels) g) by done.
  rewrite Hstep in Hs |- *.
  assert (Hgrown : grown (marked l 0 w g).1 ((marked l 0 w ;;; entries labels) g).1).
  { unfold mbind at 1. destruct (marked l 0 w g) as [g' [x|e]]; [apply grows_entries; done|done]. }
  destruct (marked_spec l 0 w a ts g Ho (is_word_uint32 _) Hb Hr (grown_small _ _ Hgrown Hs)) as (t & id & Hb1 & Hr1 & Hex1 & E).
  set (a1 := add_word (set_names a t (Relaxation.labels a)) w (Some (id, 0%Z))) in *.
  assert (E1 : (marked l 0 w ;;; entries labels) g = entries labels (marked l 0 w g).1).
  { unfold mbind at 1. destruct (marked l 0 w g) as [g' r]. cbn in E. by rewrite E. }
  rewrite E1 in Hs |- *. destruct (IH a1 _ Hb1 Hr1 Hs) as (a' & Hb' & Hr' & Hex' & Hlen & He). exists a'.
  assert (length (uses a1) = S (length (uses a)) /\ length (groups a1) = S (length (groups a))) as [L1 L2]
    by (cbn; rewrite !length_app; cbn; lia).
  split_and!; [done|done|by etransitivity|cbn [length]; lia|]. intros [|n] Hn.
  - rewrite !Nat.add_0_r. apply (extends_entry a1); [done|]. exists (mkAUse id (length (groups a)) 0 0), [w], w.
    unfold use_at. cbn [a1 add_word set_names uses groups]. split_and!; try done; by apply list_lookup_middle.
  - specialize (He n ltac:(cbn in Hn; lia)). rewrite L1, L2 in He. replace (length (uses a) + S n) with (S (length (uses a)) + n) by lia.
    by replace (length (groups a) + S n) with (S (length (groups a)) + n) by lia.
Qed.

Lemma funct3_sh2add r r1 r2 : in_bits 5 r -> in_bits 5 r1 -> in_bits 5 r2 -> RelaxationSound.funct3 (R_word 0x33 r 4 r1 r2 0x10) = 4%Z.
Proof. intros Hr H1 H2. destruct (R_decodes 0x33 r 4 r1 r2 0x10) as (_ & _ & H & _); unfold in_bits in *; try lia. exact H. Qed.

(** The index, the jump and the entries make a table. *)
Definition table_tail (index_reg : Z) (labels : list string) : Emit unit :=
  emit_sh2add REG_T0 index_reg REG_T1 ;;;
  emit_jalr REG_ZERO REG_T0 12 ;;;
  mmodify (fun g => set_tables (m_dense_jump_tables g ++ [mkTable (length (m_label_uses g)) (length labels)]) g) ;;;
  entries labels.

Lemma table_is_new (index_reg : Z) (labels : list string) ts a a' :
  in_bits 5 index_reg -> Built a -> TablesWF (length (uses a)) a ts ->
  let d := R_word 0x33 REG_T0 4 index_reg REG_T1 0x10 in let j := I_word 0x67 REG_ZERO 0 REG_T0 12 in
  extends (add_word (add_word a d None) j None) a' -> length (uses a') = length (uses a) + length labels ->
  (forall n, n < length labels -> entry a' false (length (uses a) + n) (S (S (length (groups a))) + n)) ->
  TablesWF (length (uses a')) a' (ts ++ [mkTable (length (uses a)) (length labels)]).
Proof.
  intros Hx Hb Ht d j Hex Hlen He. set (a2 := add_word (add_word a d None) j None) in *.
  assert (Hg2 : groups a2 = groups a ++ [[d]; [j]]) by (cbn; by rewrite <- app_assoc).
  assert (Hu2 : uses a2 = uses a) by (cbn; by rewrite !app_nil_r).
  assert (Hex2 : extends a a2) by (etransitivity; apply add_word_extends).
  assert (Hd : groups a2 !! length (groups a) = Some [d]) by (rewrite Hg2, lookup_app_r, Nat.sub_diag; done).
  assert (Hj : groups a2 !! S (length (groups a)) = Some [j])
    by (rewrite Hg2, lookup_app_r by lia; by replace (S (length (groups a)) - length (groups a)) with 1 by lia).
  assert (Hun : forall k, length (groups a) <= k -> unused a2 k).
  { intros k Hk i u Hi. rewrite Hu2 in Hi. pose proof (b_use _ Hb i u Hi). lia. }
  pose proof Hex as (gs & us & Eg & Eu & _). split.
  - apply Forall_app. split; [apply (extends_tables a); [by etransitivity|done]|]. apply Forall_singleton. exists false.
    split; [cbn [first_use count]; lia|]. cbn [first_use count]. intros _. exists (length (groups a)), d, j.
    split_and!; [rewrite Eg; by apply lookup_app_l_Some|rewrite Eg; by apply lookup_app_l_Some|
      by apply funct3_sh2add|eapply extends_unused; [done|exact Hd|by apply Hun]|eapply extends_unused; [done|exact Hj|apply Hun; lia]|].
    intros n Hn. specialize (He n Hn). by replace (length (groups a) + 2 + n) with (S (S (length (groups a))) + n) by lia.
  - intros i k t t' Hi Hk Hne. assert (Hrange : forall t, t ∈ ts -> first_use t + count t <= length (uses a)).
    { intros x Hin. pose proof (tables_ok _ _ _ Ht) as Hok. rewrite Forall_forall in Hok. destruct (Hok x Hin) as (wide & Hr & _). done. }
    apply lookup_app_Some in Hi as [Hi|[Hi0 Hi]], Hk as [Hk|[Hk0 Hk]].
    + by apply (tables_apart _ _ _ Ht i k).
    + apply list_lookup_singleton_Some in Hk as [_ <-]. left. apply Hrange. by eapply list_elem_of_lookup_2.
    + apply list_lookup_singleton_Some in Hi as [_ <-]. right. apply Hrange. by eapply list_elem_of_lookup_2.
    + apply list_lookup_singleton_Some in Hi as [? _], Hk as [? _]. lia.
Qed.

Lemma keeps_table_tail index_reg labels : in_bits 5 index_reg -> Forall ordinary labels -> keeps (table_tail index_reg labels).
Proof.
  intros Hx Hl. set (d := R_word 0x33 REG_T0 4 index_reg REG_T1 0x10). set (j := I_word 0x67 REG_ZERO 0 REG_T0 12).
  set (tables g := m_dense_jump_tables g ++ [mkTable (length (m_label_uses g)) (length labels)]).
  set (g2 g := with_word (with_word g d None) j None).
  assert (Hrun : forall g, (table_tail index_reg labels g).1 = (entries labels (set_tables (tables g) (g2 g))).1).
  { intros g. unfold g2, tables, with_word. cbn. rewrite !app_nil_r. by destruct g. }
  pose proof (grows_entries labels Hl) as [Hge _]. split.
  - intros g. rewrite Hrun. etransitivity; [|apply Hge]. split; [done|]. cbn. rewrite !length_app. lia.
  - intros g (a & Hb & Ht & Hr) Hs. rewrite Hrun in Hs |- *.
    set (a2 := add_word (add_word a d None) j None).
    assert (Hb1 : Built (add_word a d None)) by (apply add_word_Built; [done|apply is_word_uint32|done]).
    assert (Hb2 : Built a2) by (apply add_word_Built; [done|apply is_word_uint32|done]).
    assert (Hr2 : represents a2 (tables g) (set_tables (tables g) (g2 g))).
    { pose proof (represents_add _ _ _ j None Hb1 (represents_add _ _ _ d None Hb Hr)) as [Hc [Pn Pl Pr Pu Pf Pi Prw Pt]].
      split; [exact Hc|]. by split. }
    destruct (entries_spec labels a2 _ _ Hl Hb2 Hr2 Hs) as (a' & Hb' & Hr' & Hex & Hlen & He). exists a'.
    rewrite (pos_tables _ _ _ _ _ (proj2 Hr')). split_and!; [done| |done].
    assert (Hlu : length (uses a2) = length (uses a)) by (cbn; by rewrite !app_nil_r).
    assert (Hlg : length (groups a2) = S (S (length (groups a)))) by (cbn; rewrite !length_app; cbn; lia).
    assert (Eu : length (m_label_uses g) = length (uses a)) by (rewrite (pos_uses _ _ _ _ _ (proj2 Hr)); apply length_map).
    unfold tables. rewrite Eu. apply (table_is_new index_reg labels _ a a'); try done; [lia|]. intros n Hn. specialize (He n Hn). by rewrite Hlu, Hlg in He.
Qed.

Lemma keeps_dense_jump_table index_reg labels past_label :
  in_bits 5 index_reg -> Forall ordinary labels -> ordinary past_label -> keeps (emit_dense_jump_table index_reg labels past_label).
Proof.
  intros Hx Hl Hp. unfold emit_dense_jump_table. apply keeps_bind; [apply grows_keeps; grow|intros _].
  assert (Hext : forall {A} (c d : Emit A), (forall g, c g = d g) -> keeps d -> keeps c).
  { intros A c d E [H1 H2]. split; intros g; rewrite E; [apply H1|apply H2]. }
  eapply Hext; [intros g; apply (mark_then past_label 0 (B_word 0x63 7 index_reg REG_T1 0) (emit_bgeu index_reg REG_T1 0)); done|].
  apply keeps_bind; [apply grows_keeps, grows_marked; [done|apply is_word_uint32]|intros _].
  apply keeps_bind; [apply grows_keeps; grow|intros _]. by apply keeps_table_tail.
Qed.

(** ** The beginning *)

Lemma emitted_initial strings :
  IRStringTable.wf strings -> (forall i, IRStringTable.m_ids strings !! skip_label i = None) -> emitted (initial strings).
Proof.
  intros Hwf Hf. exists (mkAsm [] strings ∅ [] ∅ 0 []). split_and!.
  - constructor; cbn [groups names labels uses functions init rows]; try done.
  - split; [constructor|]. intros i j t t' Hi. cbn in Hi. by rewrite lookup_nil in Hi.
  - split; [done|]. split; try done.
    + intros id Hid. cbn [labels]. rewrite lookup_empty. unfold label_offset. cbn [m_label_offsets initial].
      destruct (replicate _ _ !! _) as [x|] eqn:E; [|done]. by apply lookup_replicate in E as [-> _].
    + cbn. by rewrite length_replicate.
Qed.

(** ** Relaxation of emitted code *)

(** Code and names small enough to be numbered in 32 bits when every use has
    been lengthened. *)
Definition fits (g : Gen) : Prop :=
  (3 * Z.of_nat (length (m_code g)) < 2 ^ 32)%Z /\ (Z.of_nat (names_count g + 2 * length (m_label_uses g)) < 2 ^ 32)%Z.

Lemma start_Built a k : Built a -> k <= length (groups a) -> start (groups a) k = 4 * k.
Proof.
  intros Hb. pose proof (b_words _ Hb) as Hw. revert k. induction Hw as [|gr gs (w & -> & _) _ IH]; intros [|k] Hk; cbn [start length] in *; try lia.
  rewrite IH by lia. lia.
Qed.

Lemma emitted_relaxed g :
  emitted g -> fits g ->
  exists a a' g', let ts := m_dense_jump_tables g in let U := length (uses a) in
    Built a /\ represents a ts g /\ WF U a /\ TablesWF U a ts /\ relax_branches g = Ok g' /\ WF U a' /\ TablesWF U a' ts /\ represents a' ts g'
    /\ rtc (asm_step U ts) a a' /\ forall i u gr w, use_at a' i u gr w -> in_reach a' u w = true.
Proof.
  intros (a & Hb & Ht & Hr) [Hc Hn].
  assert (WF (length (uses a)) a) as Hwf.
  { apply Built_WF; [done| |].
    - pose proof (represents_code_length _ _ _ Hr) as Hlen. rewrite start_Built in Hlen by done. lia.
    - pose proof (pos_names _ _ _ _ _ (proj2 Hr)) as En. pose proof (pos_uses _ _ _ _ _ (proj2 Hr)) as Eu.
      rewrite Eu, length_map in Hn. unfold names_count in Hn. by rewrite En in Hn. }
  destruct (relax_branches_steps a _ g Hwf Ht Hr) as (a' & g' & ? & ? & ? & ? & ? & ?). exists a, a', g'. by split_and!.
Qed.

(** C35: Relaxation of emitted code ends, without undefined behaviour, and leaves
    no branch or jump whose label is out of its reach. *)
Theorem relax_branches_total (g : Gen) :
  emitted g -> fits g ->
  exists g', relax_branches g = Ok g' /\ Forall (fun use => needs_relaxing g' use = Ok false) (m_label_uses g').
Proof.
  intros Hg Hf. destruct (emitted_relaxed g Hg Hf) as (a & a' & g' & _ & _ & _ & _ & E & Hwf' & _ & Hr' & _ & Hreach).
  exists g'. split; [done|]. by eapply reached_uses.
Qed.

(** [g'] is [g] with its instruction [k] moved to the offset [at_ k], and the
    instructions that use labels in one of their forms. *)
Record relocated (g g' : Gen) (at_ : nat -> nat) : Prop := {
  rl_start : at_ 0 = 0;
  rl_order : forall k, k < length (m_code g) / 4 -> at_ k < at_ (S k);
  rl_aligned : forall k, exists p, at_ k = 4 * p;
  rl_end : at_ (length (m_code g) / 4) = length (m_code g');
  rl_labels : forall id off, (0 <= id)%Z -> label_offset g id = Some off -> label_offset g' id = Some (at_ (off / 4));
  rl_functions : m_functions g' = (fun off => at_ (off / 4)) <$> m_functions g;
  rl_init : m_instance_init_offset g' = at_ (m_instance_init_offset g / 4);
  rl_rows : m_line_table g' =
    map (fun e => LineTable.mkEntry (Z.of_nat (at_ (Z.to_nat (LineTable.address e) / 4))) (LineTable.line e)) (m_line_table g);
  rl_plain : forall k w, read32 (m_code g) (4 * k) = Ok w ->
    Forall (fun use => code_offset use <> 4 * k) (m_label_uses g) ->
    at_ (S k) = at_ k + 4 /\
    (read32 (m_code g') (at_ k) = Ok w \/
     read32 (m_code g') (at_ k) = Ok (widened w) /\
     RelaxationSound.funct3 w = 4%Z /\
     exists t use, t ∈ m_dense_jump_tables g /\ m_label_uses g !! first_use t = Some use /\ code_offset use = 4 * k + 8);
  rl_use : forall i use w, m_label_uses g !! i = Some use -> read32 (m_code g) (code_offset use) = Ok w ->
    exists k gr n, code_offset use = 4 * k /\ form w gr n /\ at_ (S k) = at_ k + 4 * length gr
      /\ (forall j v, gr !! j = Some v -> read32 (m_code g') (at_ k + 4 * j) = Ok v)
      /\ m_label_uses g' !! i = Some (mkUse (label use) (at_ k + 4 * n) (addend use))
      /\ (n = 1 -> exists j l, m_label_uses g' !! j = Some (mkUse l (at_ k) 0) /\ (0 <= l)%Z /\ label_offset g' l = Some (at_ (S k)));
  rl_code : exists ws, m_code g' = code_of ws /\ Forall is_word ws
    /\ Forall (fun use => exists p, code_offset use = 4 * p /\ p < length ws) (m_label_uses g');
  rl_apart : forall i j use use', m_label_uses g' !! i = Some use -> m_label_uses g' !! j = Some use' ->
    code_offset use = code_offset use' -> i = j;
  rl_new : forall i use, length (m_label_uses g) <= i -> m_label_uses g' !! i = Some use ->
    exists w, read32 (m_code g') (code_offset use) = Ok w /\ is_branch w = true
}.

Lemma start_multiple gs k : exists p, start gs k = 4 * p.
Proof.
  revert k. induction gs as [|gr gs IH]; intros [|k]; cbn [start]; try (by exists 0). destruct (IH k) as [p ->]. exists (length gr + p). lia.
Qed.

Lemma read32_group U a ts g k gr j w :
  WF U a -> represents a ts g -> groups a !! k = Some gr -> gr !! j = Some w -> read32 (m_code g) (start (groups a) k + 4 * j) = Ok w.
Proof.
  intros Hwf [-> _] Hk Hj. destruct (group_word _ _ _ _ _ Hk Hj) as (p & -> & Hp & _). apply read32_code; [done|].
  eapply Forall_lookup_1; [|exact Hj]. by eapply Forall_lookup_1; [apply (wf_words _ _ Hwf)|].
Qed.

(** The word of instruction [k] of emitted code. *)
Lemma built_word a ts g k w :
  Built a -> represents a ts g -> read32 (m_code g) (4 * k) = Ok w -> groups a !! k = Some [w].
Proof.
  intros Hb Hr Hread. assert (k < length (groups a)) as Hk.
  { unfold read32, Wire.memcpy in Hread. pose proof (represents_code_length _ _ _ Hr) as Hlen. rewrite start_Built in Hlen by done.
    destruct (decide _) as [Hd|Hd] in Hread; [lia|done]. }
  destruct (lookup_lt_is_Some_2 _ _ Hk) as [gr Hgr]. destruct (Forall_lookup_1 _ _ _ _ (b_words _ Hb) Hgr) as (w' & -> & Hw').
  rewrite Hgr. do 2 f_equal. destruct (group_word _ _ _ 0 w' Hgr eq_refl) as (p & Hp & Hpw & _).
  rewrite start_Built in Hp by (done || lia). destruct Hr as [Hcode _]. rewrite Hcode in Hread.
  replace k with p in Hread by lia. rewrite (read32_code _ _ _ Hpw Hw') in Hread. by injection Hread.
Qed.

Section Relocation.

Context (g g' : Gen) (a a' : Asm) (U : nat).
Context (Hb : Built a) (Hr : represents a (m_dense_jump_tables g) g) (Hwf : WF U a) (HU : U = length (uses a)).
Context (Htab : TablesWF U a (m_dense_jump_tables g)).
Context (Hwf' : WF U a') (Hr' : represents a' (m_dense_jump_tables g) g').
Context (Hsteps : rtc (asm_step U (m_dense_jump_tables g)) a a').

Let at_ := start (groups a').

Lemma relocate_position k : k <= length (groups a) -> at_ (start (groups a) k / 4) = start (groups a') k.
Proof. intros Hk. rewrite start_Built by done. unfold at_. f_equal. rewrite Nat.mul_comm. by apply Nat.div_mul. Qed.

(** The index of an emitted table is scaled by four. *)
Lemma built_table_scale t u k w :
  t ∈ m_dense_jump_tables g -> 0 < count t -> uses a !! first_use t = Some u -> u_group u = S (S k) -> groups a !! k = Some [w] ->
  RelaxationSound.funct3 w = 4%Z.
Proof.
  intros Ht Hc Hu Eg Hw. pose proof (tables_ok _ _ _ Htab) as Hok. rewrite Forall_forall in Hok.
  destruct (Hok t Ht) as (wide & _ & Hk). destruct (Hk Hc) as (k0 & d & j & Hd & _ & Hf & _ & _ & He).
  destruct (He 0 Hc) as (v & gr & x & (Hv & Hgr & _) & Ev & _ & Hlen & _). rewrite Nat.add_0_r in *. rewrite Hu in Hv. injection Hv as <-.
  assert (k0 = k) as -> by lia. rewrite Hw in Hd. injection Hd as <-. rewrite Hf.
  destruct (Forall_lookup_1 _ _ _ _ (b_words _ Hb) Hgr) as (y & -> & _). by destruct wide.
Qed.

Lemma relocated_plain k w :
  read32 (m_code g) (4 * k) = Ok w -> Forall (fun use => code_offset use <> 4 * k) (m_label_uses g) ->
  at_ (S k) = at_ k + 4 /\
  (read32 (m_code g') (at_ k) = Ok w \/
   read32 (m_code g') (at_ k) = Ok (widened w) /\
   RelaxationSound.funct3 w = 4%Z /\
   exists t use, t ∈ m_dense_jump_tables g /\ m_label_uses g !! first_use t = Some use /\ code_offset use = 4 * k + 8).
Proof.
  intros Hread Hno. pose proof (built_word a _ g k w Hb Hr Hread) as Hk. pose proof (lookup_lt_Some _ _ _ Hk) as Hlt.
  pose proof (pos_uses _ _ _ _ _ (proj2 Hr)) as Eu.
  assert (Huse : forall i u, uses a !! i = Some u -> m_label_uses g !! i = Some (conc (groups a) u) /\ code_offset (conc (groups a) u) = 4 * u_group u).
  { intros i u Hi. rewrite Eu, list_lookup_fmap_map, Hi. split; [done|]. destruct (b_use _ Hb i u Hi) as (_ & Hg & Ew).
    cbn [conc code_offset]. rewrite start_Built, Ew by (done || lia). lia. }
  assert (unused a k) as Hun.
  { intros i u Hi E. destruct (Huse i u Hi) as [Hl Hoff]. rewrite Forall_forall in Hno. apply (Hno (conc (groups a) u)).
    - by eapply list_elem_of_lookup_2.
    - lia. }
  assert (Hcode' : forall v, groups a' !! k = Some [v] -> at_ (S k) = at_ k + 4 /\ read32 (m_code g') (at_ k) = Ok v).
  { intros v Hv. unfold at_. split; [by rewrite (start_S _ _ _ Hv)|].
    pose proof (read32_group U a' _ g' k [v] 0 v Hwf' Hr' Hv eq_refl) as H. by rewrite Nat.mul_0_r, Nat.add_0_r in H. }
  destruct (steps_unused U _ a a' Hwf Hsteps k Hun) as [_ [E|(d & t & u & E0 & E1 & Ht & Hc & Hu & Eg)]].
  - rewrite Hk in E. destruct (Hcode' w E) as [? ?]. split; [done|]. by left.
  - rewrite Hk in E0. injection E0 as <-. destruct (Hcode' _ E1) as [? ?]. split; [done|]. right. split; [done|].
    split; [by apply (built_table_scale t u k w)|]. exists t, (conc (groups a) u). destruct (Huse _ u Hu) as [? ->]. split_and!; [done|done|lia].
Qed.

Lemma relocated_use i use w :
  m_label_uses g !! i = Some use -> read32 (m_code g) (code_offset use) = Ok w ->
  exists k gr n, code_offset use = 4 * k /\ form w gr n /\ at_ (S k) = at_ k + 4 * length gr
    /\ (forall j v, gr !! j = Some v -> read32 (m_code g') (at_ k + 4 * j) = Ok v)
    /\ m_label_uses g' !! i = Some (mkUse (label use) (at_ k + 4 * n) (addend use))
    /\ (n = 1 -> exists j l, m_label_uses g' !! j = Some (mkUse l (at_ k) 0) /\ (0 <= l)%Z /\ label_offset g' l = Some (at_ (S k))).
Proof.
  intros Hi Hread. rewrite (pos_uses _ _ _ _ _ (proj2 Hr)), list_lookup_fmap_map in Hi.
  destruct (uses a !! i) as [u|] eqn:Hu; [|done]. cbn in Hi. injection Hi as <-. destruct (b_use _ Hb i u Hu) as (_ & Hlt & Ew).
  cbn [conc code_offset label addend] in *. rewrite start_Built, Ew, Nat.mul_0_r, Nat.add_0_r in * by (done || lia).
  pose proof (built_word a _ g _ w Hb Hr Hread) as Hk.
  assert (i < U) as HiU by (rewrite HU; by eapply lookup_lt_Some).
  assert (use_at a i u [w] w) as Hat by (unfold use_at; by rewrite Ew).
  destruct (steps_forms U _ a a' Hwf Hsteps i u w HiU Hat) as (u' & gr & v & n & Hat' & Eg & En & Hf).
  pose proof Hat' as (Hu' & Hg' & Hv).
  destruct (steps_keep_positions U _ a a' Hwf Hsteps) as (_ & _ & _ & _ & _ & Hkeep).
  destruct (Hkeep i u HiU Hu) as (u2 & Hu2 & El & _ & Ea). rewrite Hu' in Hu2. injection Hu2 as <-.
  exists (u_group u), gr, n. rewrite Eg in Hg'. unfold at_. split_and!; [done|done|by rewrite (start_S _ _ _ Hg')| | |].
  - intros j v' Hj. by eapply read32_group.
  - rewrite (pos_uses _ _ _ _ _ (proj2 Hr')), list_lookup_fmap_map, Hu'. cbn. unfold conc. by rewrite El, Ea, Eg, En.
  - intros E1. destruct (steps_skip U _ a a' Hwf Hsteps i u w HiU Hat u' gr v Hat' ltac:(congruence)) as (j & x & Hj & Hx & Ex).
    destruct (wf_skip _ _ Hwf' j x gr _ Hj Hx) as (E0 & Ead & Hlab & _). pose proof Hx as (Hx1 & _). exists j, (u_label x).
    rewrite (pos_uses _ _ _ _ _ (proj2 Hr')), list_lookup_fmap_map, Hx1. cbn. unfold conc. rewrite Ex, E0, Ead, Nat.add_0_r.
    pose proof (wf_labels _ _ Hwf' _ _ Hlab) as [Hl0 _]. split_and!; [done|lia|].
    rewrite (pos_labels _ _ _ _ _ (proj2 Hr')), Hlab by lia. cbn. by rewrite Ex.
Qed.

Lemma relocated_here : relocated g g' at_.
Proof.
  pose proof Hr as [Hcode [Pn Pl Pr Pu Pf Pi Prw Pt]]. pose proof Hr' as [Hcode' [Pn' Pl' Pr' Pu' Pf' Pi' Prw' Pt']].
  destruct (steps_keep_positions U _ a a' Hwf Hsteps) as (Ef & Ei & Er & Hl & Eg & _).
  constructor.
  - apply start_0.
  - intros k Hk. rewrite (represents_code_length _ _ _ Hr), start_Built, Nat.mul_comm, Nat.div_mul in Hk by done.
    rewrite <- Eg in Hk. destruct (lookup_lt_is_Some_2 _ _ Hk) as [gr Hgr]. unfold at_. rewrite (start_S _ _ _ Hgr).
    pose proof (Forall_lookup_1 _ _ _ _ (wf_lengths _ _ Hwf') Hgr) as Hlen. cbv beta in Hlen. lia.
  - intros k. apply start_multiple.
  - rewrite (represents_code_length _ _ _ Hr), relocate_position, <- Eg by done. symmetry. by eapply represents_code_length.
  - intros id off Hid Hoff. rewrite Pl in Hoff by done. destruct (labels a !! id) as [k|] eqn:Ek; [|done]. cbn in Hoff. injection Hoff as <-.
    rewrite Pl' by done. rewrite (lookup_weaken _ _ _ _ Ek Hl), relocate_position; [done|]. apply (b_labels _ Hb id k Ek).
  - rewrite Pf', Pf, Ef, <- map_fmap_compose. apply map_fmap_ext. intros name k Hk. unfold compose. rewrite relocate_position; [done|].
    by apply (b_functions _ Hb name).
  - rewrite Pi', Pi, Ei, relocate_position; [done|]. apply (b_init _ Hb).
  - rewrite Prw', Prw, Er, map_map. apply map_ext_in. intros r Hin%list_elem_of_In. unfold row. cbn [LineTable.address LineTable.line].
    pose proof (b_rows _ Hb) as Hrows. rewrite Forall_forall in Hrows. by rewrite Nat2Z.id, relocate_position by (by apply Hrows).
  - exact relocated_plain.
  - exact relocated_use.
  - exists (concat (groups a')). split_and!; [done| |].
    + apply Forall_concat. apply (wf_words _ _ Hwf').
    + rewrite Pu'. apply Forall_map, Forall_lookup_2. intros i u Hu. destruct (wf_use _ _ Hwf' i u Hu) as (_ & gr & w & Hat).
      destruct (use_word a' i u gr w Hat) as (p & Hp & Hpw & _). exists p. split; [exact Hp|by eapply lookup_lt_Some].
  - intros i j use use' Hi Hj E. rewrite Pu', list_lookup_fmap_map in Hi, Hj.
    destruct (uses a' !! i) as [u|] eqn:Hu; [|done]. destruct (uses a' !! j) as [v|] eqn:Hv; [|done]. injection Hi as <-. injection Hj as <-.
    destruct (wf_use _ _ Hwf' i u Hu) as (_ & gr & w & _ & Hg & Hw), (wf_use _ _ Hwf' j v Hv) as (_ & gr' & w' & _ & Hg' & Hw').
    destruct (position_inj _ _ _ _ _ _ _ Hg Hg' (lookup_lt_Some _ _ _ Hw) (lookup_lt_Some _ _ _ Hw') E) as [Eg' Ew'].
    by apply (uses_apart U a' i j u v).
  - intros i use Hi Hlk. rewrite Pu, length_map, <- HU in Hi. rewrite Pu', list_lookup_fmap_map in Hlk.
    destruct (uses a' !! i) as [u|] eqn:Hu; [|done]. injection Hlk as <-. destruct (wf_use _ _ Hwf' i u Hu) as (_ & gr & w & Hat).
    destruct (wf_skip _ _ Hwf' i u gr w Hi Hat) as (_ & _ & _ & _ & Hw). destruct Hat as (_ & Hg & Hj).
    exists w. split; [|done]. by eapply read32_group.
Qed.

End Relocation.

Lemma relocation (g g' : Gen) : emitted g -> fits g -> relax_branches g = Ok g' -> exists at_, relocated g g' at_.
Proof.
  intros Hg Hf Hrun. destruct (emitted_relaxed g Hg Hf) as (a & a' & g1 & Hb & Hr & Hwf & Ht & E & Hwf' & _ & Hr' & Hs & _).
  rewrite E in Hrun. injection Hrun as ->. exists (start (groups a')). by eapply relocated_here.
Qed.

(** C36: In relaxed code the entries of a dense jump table are as far apart as the
    instruction before them scales its index: four bytes under SH2ADD, eight
    under SH3ADD. *)
Theorem dense_tables_keep_their_stride (g g' : Gen) (t : DenseJumpTable) :
  emitted g -> fits g -> relax_branches g = Ok g' -> t ∈ m_dense_jump_tables g -> 0 < count t ->
  exists base word (wide : bool), read32 (m_code g') base = Ok word
    /\ RelaxationSound.funct3 word = (if wide then 6 else 4)%Z
    /\ forall n, n < count t -> exists use, m_label_uses g' !! (first_use t + n) = Some use
         /\ code_offset use = base + 8 + n * (if wide then 8 else 4).
Proof.
  intros Hg Hf Hrun Ht Hc. destruct (emitted_relaxed g Hg Hf) as (a & a' & g1 & Hb & Hr & Hwf & _ & E & Hwf' & Htab & Hr' & Hs & _).
  rewrite E in Hrun. injection Hrun as ->. pose proof (tables_ok _ _ _ Htab) as Hok. rewrite Forall_forall in Hok.
  destruct (table_stride _ a' _ g' t Hwf' Hr' (Hok t Ht) Hc) as (base & wide & word & ? & ? & ?). by exists base, word, wide.
Qed.

(** A label of a function body named like a function takes its place: calls of
    the function go to the label. *)
Example label_takes_the_function :
  let g := (begin_function "endif_0" ;;; emit_ret ;;; define_label "endif_0" ;;; emit_ret) (initial IRStringTable.empty) in
  m_functions g.1 !! "endif_0"%string = Some 0 /\ label_offset g.1 0 = Some 4.
Proof. vm_compute. split; reflexivity. Qed.

(** ** Witnesses *)

(** A function whose first branch aims 8000 bytes past its end, and a dense
    table. *)
Definition sample : Emit unit :=
  begin_function "f" ;;;
  record_line 1 true ;;;
  marked "end" 8000 (B_word 0x63 0 5 6 0) ;;;
  emit_dense_jump_table 10 ["a"; "b"] "past" ;;;
  record_line 2 false ;;;
  define_label "a" ;;;
  emit_li 10 1 ;;;
  define_label "b" ;;;
  emit_li 10 2 ;;;
  define_label "past" ;;;
  define_label "end" ;;;
  emit_ret.

Definition sample_gen : Gen := (sample (initial IRStringTable.empty)).1.

Lemma ordinary_short c text : c <> Ascii.ascii_of_nat 46 -> ordinary (String c text).
Proof. intros Hc i E. injection E as E _. done. Qed.

Lemma sample_keeps : keeps sample.
Proof.
  unfold sample. assert (Hk : forall {A} (c : Emit A), grows c -> keeps c) by (intros A; apply grows_keeps).
  repeat match goal with |- keeps (mbind _ _) => apply keeps_bind; [|intros _] end;
    first [apply Hk; first [apply grows_begin_function | apply grows_define_label | apply grows_marked; [|apply is_word_uint32] | solve [grow] | unfold emit_ret, emit_jalr; solve [grow]]
          | apply keeps_dense_jump_table; [unfold in_bits; lia|repeat constructor|]];
    apply ordinary_short; discriminate.
Qed.

Lemma sample_emitted : emitted sample_gen.
Proof.
  destruct sample_keeps as [_ H]. apply H; [|by vm_compute].
  apply emitted_initial; [apply IRStringTable.empty_wf|]. intros i. apply lookup_empty.
Qed.

Lemma sample_fits : fits sample_gen.
Proof. by vm_compute. Qed.

(** The branch is relaxed. *)
Example sample_is_relaxed : (fun g => length (m_code g)) <$> match relax_branches sample_gen with Ok g => Some g | _ => None end
  = Some (length (m_code sample_gen) + 4).
Proof. vm_compute. reflexivity. Qed.

Lemma relax_branches_total_witness :
  exists g', relax_branches sample_gen = Ok g' /\ Forall (fun use => needs_relaxing g' use = Ok false) (m_label_uses g').
Proof. apply relax_branches_total; [exact sample_emitted|exact sample_fits]. Defined.

Lemma dense_tables_keep_their_stride_witness :
  exists g' base word (wide : bool), relax_branches sample_gen = Ok g' /\ read32 (m_code g') base = Ok word
    /\ RelaxationSound.funct3 word = (if wide then 6 else 4)%Z.
Proof.
  destruct (relax_branches sample_gen) as [g'|e] eqn:E; [|vm_compute in E; discriminate E].
  destruct (dense_tables_keep_their_stride sample_gen g' (mkTable 2 2) sample_emitted sample_fits E) as (base & word & wide & H1 & H2 & _).
  - apply list_elem_of_In. vm_compute. left. reflexivity.
  - cbn. lia.
  - exists g', base, word, wide. split_and!; [reflexivity|exact H1|exact H2].
Defined.

End Assembly.
