(* ===== verification/Resolution.v ===== *)
(** * Resolution of label uses

    [resolve_labels] patches the instruction of every label use, and for an AUIPC
    the one behind it.  [patch] says what becomes of the two words; uses in words
    of their own do not disturb each other, so that every use ends as [patch]
    leaves it ([resolved]). *)

From stdpp Require Import pretty.
From S2P Require Import Prelude.
From S2P Require Import Wire.
From S2P Require Import IR.
From S2P Require Import LineTable.
From S2P Require Import Libriscv.
From S2P Require Import RISCVCodeGen.
From S2P Require Import Encoding.
From S2P Require Import Relaxation.
From S2P Require Import RelaxationSound.
From S2P Require Import Assembly.

Module Resolution.
Import RISCVCodeGen.
Import Encoding.
Import Relaxation.

Local Open Scope nat_scope.

(** ** One use, on words *)

Definition op (w : Z) : Z := Z.land w 0x7F.

(** The instructions a use patches. *)
Definition linking (w : Z) : bool := ((op w =? 0x63) || (op w =? 0x6F) || (op w =? 0x17))%Z.

(** The instructions patched behind an AUIPC. *)
Definition paired (w : Z) : bool := ((op w =? 0x67) || (op w =? 0x03) || (op w =? 0x13))%Z.

Definition upper_word (rd upper : Z) : Z := Z.lor (Z.lor 0x17 (Z.shiftl rd 7)) (Z.shiftl (Z.land upper 0xFFFFF) 12).

(** The word of a use and the next one after it was resolved. *)
Definition patch (label : string) (offset w next : Z) : outcome (Z * Z) :=
  let rd := Z.land (Z.shiftr w 7) 0x1F in
  let funct3 w := Z.land (Z.shiftr w 12) 0x7 in
  let rs1 w := Z.land (Z.shiftr w 15) 0x1F in
  let lower := Z.land offset 0xFFF in
  if (op w =? 0x63)%Z then
    let? _ := check_displacement ("B-type (branch) to '" +:+ label +:+ "'") offset B_TYPE_IMM_BITS in
    Ok (B_word (op w) (funct3 w) (rs1 w) (Z.land (Z.shiftr w 20) 0x1F) offset, next)
  else if (op w =? 0x6F)%Z then
    let? _ := check_displacement ("J-type (jump) to '" +:+ label +:+ "'") offset J_TYPE_IMM_BITS in
    Ok (J_word (op w) rd offset, next)
  else if (op w =? 0x17)%Z then
    let pair := Z.lor (Z.lor (Z.lor (Z.lor (op next) (Z.shiftl (Z.land (Z.shiftr next 7) 0x1F) 7))
      (Z.shiftl (funct3 next) 12)) (Z.shiftl (rs1 next) 15)) (Z.shiftl (Z.land lower 0xFFF) 20) in
    let upper := wraps 32 (Z.shiftr (offset + 0x800) 12) in
    if (op next =? 0x67)%Z then
      let? _ := check_displacement ("AUIPC/JALR to '" +:+ label +:+ "'") offset 32 in
      let? _ := check_immediate ("AUIPC to '" +:+ label +:+ "'") (Z.shiftr (offset + 0x800) 12) 20 in
      Ok (upper_word rd (Z.shiftr (offset + 0x800) 12), Z.lor (Z.land next 0x000FFFFF) (Z.shiftl lower 20))
    else if (op next =? 0x03)%Z then Ok (upper_word rd upper, pair)
    else if ((op next =? 0x13) && ((rs1 next =? rd) && (funct3 next =? 0)))%Z then Ok (upper_word rd upper, pair)
    else Ok (w, next)
  else Ok (w, next).

(** ** Words in front of other bytes *)

Lemma read32_front ws tail i w : ws !! i = Some w -> is_word w -> read32 (code_of ws ++ tail) (4 * i) = Ok w.
Proof.
  intros Hi Hw. pose proof (lookup_lt_Some _ _ _ Hi). pose proof (length_code_of ws). unfold read32, Wire.memcpy.
  rewrite decide_True by (rewrite length_app; lia). cbn [obind]. f_equal. rewrite drop_app_le by lia.
  rewrite take_app_le by (rewrite length_drop; lia). pose proof (read32_code ws i w Hi Hw) as Hr. unfold read32, Wire.memcpy in Hr.
  rewrite decide_True in Hr by lia. cbn [obind] in Hr. by injection Hr.
Qed.

Lemma write32_front ws tail i v :
  i < length ws -> write32 (code_of ws ++ tail) (4 * i) v = Ok (code_of (<[i := v]> ws) ++ tail).
Proof.
  intros Hi. pose proof (length_code_of ws). pose proof (write32_code ws i v Hi) as Hw. unfold write32 in *.
  rewrite decide_True in Hw by lia. rewrite decide_True by (rewrite length_app; lia). injection Hw as <-. f_equal.
  rewrite take_app_le, drop_app_le by lia. by rewrite <- !app_assoc.
Qed.

Lemma resolve_use_patch names offsets ws tail p w l t d :
  ws !! p = Some w -> is_word w -> Forall is_word ws -> (op w = 0x17%Z -> S p < length ws) -> offsets l = Some t ->
  resolve_use names offsets (code_of ws ++ tail) (mkUse l (4 * p) d) =
  let? (w', next') := patch (IRStringTable.get names l) (Z.of_nat t - Z.of_nat (4 * p) + d) w (default 0%Z (ws !! S p)) in
  Ok (code_of (<[S p := next']> (<[p := w']> ws)) ++ tail).
Proof.
  intros Hp Hw Hws Hpair Ht. pose proof (lookup_lt_Some _ _ _ Hp) as Hlt. unfold resolve_use. cbn [label code_offset addend].
  rewrite Ht. cbv zeta. rewrite (read32_front ws tail p w Hp Hw). cbn [obind]. unfold patch. fold (op w).
  set (off := (Z.of_nat t - Z.of_nat (4 * p) + d)%Z). set (name := IRStringTable.get names l).
  assert (Hsame : forall ws' : list Z, length ws' = length ws -> (forall x, ws !! S p = Some x -> ws' !! S p = Some x) ->
    <[S p := default 0%Z (ws !! S p)]> ws' = ws').
  { intros ws' Hl Hx. destruct (ws !! S p) as [x|] eqn:E; cbn.
    - apply list_insert_id. by apply Hx.
    - apply list_insert_ge. apply lookup_ge_None in E. lia. }
  assert (Hone : forall v, <[S p := default 0%Z (ws !! S p)]> (<[p := v]> ws) = <[p := v]> ws).
  { intros v. apply Hsame; [by rewrite length_insert|]. intros x Hx. by rewrite list_lookup_insert_ne by lia. }
  destruct (op w =? 0x63)%Z eqn:E63.
  { destruct (check_displacement _ _ _) as [[]|e]; cbn [obind]; [|done]. by rewrite write32_front, Hone by done. }
  destruct (op w =? 0x6F)%Z eqn:E6F.
  { destruct (check_displacement _ _ _) as [[]|e]; cbn [obind]; [|done]. by rewrite write32_front, Hone by done. }
  destruct (op w =? 0x17)%Z eqn:E17; [|cbn [obind]; by rewrite write32_front, Hone by done].
  apply Z.eqb_eq in E17. specialize (Hpair E17). destruct (lookup_lt_is_Some_2 _ _ Hpair) as [next Hn].
  pose proof (Forall_lookup_1 _ _ _ _ Hws Hn) as Hnw. unfold resolve_pair. replace (4 * p + 4) with (4 * S p) by lia.
  rewrite (read32_front ws tail (S p) next Hn Hnw), Hn. cbn [obind default]. cbv zeta. fold (op next).
  change (id next) with next in *. rewrite Hn in Hone. cbn [default] in Hone. change (id next) with next in Hone.
  destruct (op next =? 0x67)%Z eqn:E67.
  { destruct (check_displacement _ _ _) as [[]|e]; cbn [obind]; [|done]. destruct (check_immediate _ _ _) as [[]|e]; cbn [obind]; [|done].
    rewrite write32_front by done. cbn [obind]. rewrite write32_front by (by rewrite length_insert).
    by rewrite list_insert_insert_ne by lia. }
  destruct (op next =? 0x03)%Z eqn:E03.
  { rewrite write32_front by done. cbn [obind]. rewrite write32_front by (by rewrite length_insert). apply Z.eqb_eq in E03. by rewrite E03. }
  destruct (op next =? 0x13)%Z eqn:E13; cbn [andb]; [|cbn [obind]; by rewrite write32_front, Hone by done].
  destruct (_ && _)%bool; cbn [obind]; [|by rewrite write32_front, Hone by done].
  rewrite write32_front by done. cbn [obind]. rewrite write32_front by (by rewrite length_insert). apply Z.eqb_eq in E13. by rewrite E13.
Qed.

(** ** What [patch] keeps *)

Lemma land_low_shiftl a b n : (7 <= n)%Z -> Z.land (Z.lor a (Z.shiftl b n)) 0x7F = Z.land a 0x7F.
Proof.
  intros Hn. apply Z.bits_inj'. intros i Hi. rewrite !Z.land_spec, Z.lor_spec. destruct (decide (i < 7)%Z).
  - by rewrite Z.shiftl_spec_low, orb_false_r by lia.
  - change 0x7F%Z with (Z.ones 7). by rewrite Z.ones_spec_high, !andb_false_r by lia.
Qed.

Lemma is_word_shiftl x n : (0 <= n <= 32)%Z -> (0 <= x < 2 ^ (32 - n))%Z -> is_word (Z.shiftl x n).
Proof.
  intros Hn Hx. unfold is_word. rewrite Z.shiftl_mul_pow2 by lia. split; [nia|].
  replace (2 ^ 32)%Z with (2 ^ (32 - n) * 2 ^ n)%Z by (rewrite <- Z.pow_add_r by lia; f_equal; lia). nia.
Qed.

Lemma land_ones_bounds x m n : m = Z.ones n -> (0 <= n)%Z -> (0 <= Z.land x m < 2 ^ n)%Z.
Proof. intros -> Hn. rewrite Z.land_ones by done. apply Z.mod_pos_bound. lia. Qed.

Lemma land_5 x : in_bits 5 (Z.land x 0x1F).
Proof. by apply (land_ones_bounds x 0x1F 5). Qed.
Lemma land_3 x : in_bits 3 (Z.land x 0x7).
Proof. by apply (land_ones_bounds x 0x7 3). Qed.

Lemma op_upper_word r u : op (upper_word r u) = 0x17%Z.
Proof. unfold op, upper_word. rewrite !land_low_shiftl by lia. done. Qed.

Lemma is_word_upper_word r u : in_bits 5 r -> is_word (upper_word r u).
Proof.
  intros Hr. unfold upper_word. apply is_word_lor; [apply is_word_lor; [by vm_compute|]|].
  - apply is_word_shiftl; [lia|]. unfold in_bits in Hr. lia.
  - apply is_word_shiftl; [lia|]. by apply (land_ones_bounds u 0xFFFFF 20).
Qed.

Lemma is_word_op w : in_bits 7 (op w).
Proof. by apply (land_ones_bounds w 0x7F 7). Qed.

Lemma is_word_small x : (0 <= x < 2 ^ 7)%Z -> is_word x.
Proof. unfold is_word. lia. Qed.

Lemma is_word_paired next f3 r r1 imm :
  in_bits 5 r -> in_bits 3 f3 -> in_bits 5 r1 ->
  is_word (Z.lor (Z.lor (Z.lor (Z.lor (op next) (Z.shiftl r 7)) (Z.shiftl f3 12)) (Z.shiftl r1 15)) (Z.shiftl (Z.land imm 0xFFF) 20)).
Proof.
  unfold in_bits. intros Hr H3 H1. repeat apply is_word_lor; [apply is_word_small, is_word_op|..]; apply is_word_shiftl; try lia.
  by apply (land_ones_bounds imm 0xFFF 12).
Qed.

Record patched (w next w' next' : Z) : Prop := {
  pt_op : op w' = op w;
  pt_next_op : op next' = op next;
  pt_word : is_word w';
  pt_next_word : is_word next -> is_word next';
  pt_linking : linking w = false -> w' = w;
  pt_paired : (op w = 0x17%Z -> paired next = false) -> next' = next
}.

Lemma patch_patched label off w next w' next' : is_word w -> patch label off w next = Ok (w', next') -> patched w next w' next'.
Proof.
  intros Hw. unfold patch. destruct (op w =? 0x63)%Z eqn:E63.
  { apply Z.eqb_eq in E63. intros [_ [_ [= <- <-]]]%obind_Ok. rewrite E63.
    destruct (B_decodes 0x63 (Z.land (Z.shiftr w 12) 0x7) (Z.land (Z.shiftr w 15) 0x1F) (Z.land (Z.shiftr w 20) 0x1F) off) as (Ho & _);
      try apply land_5; try apply land_3; [unfold in_bits; lia|].
    constructor; [rewrite E63; exact Ho|done|apply Assembly.is_word_uint32|done|unfold linking; by rewrite E63|done]. }
  destruct (op w =? 0x6F)%Z eqn:E6F.
  { apply Z.eqb_eq in E6F. intros [_ [_ [= <- <-]]]%obind_Ok. rewrite E6F.
    destruct (J_decodes 0x6F (Z.land (Z.shiftr w 7) 0x1F) off) as (Ho & _); [unfold in_bits; lia|apply land_5|].
    constructor; [rewrite E6F; exact Ho|done|apply Assembly.is_word_uint32|done|unfold linking; by rewrite E6F|done]. }
  destruct (op w =? 0x17)%Z eqn:E17; [|intros [= <- <-]; constructor; try done].
  assert (Hl : linking w = true) by (unfold linking; rewrite E17; by rewrite orb_true_r).
  apply Z.eqb_eq in E17.
  destruct (op next =? 0x67)%Z eqn:E67.
  { intros (_ & _ & [_ [_ [= <- <-]]]%obind_Ok)%obind_Ok. constructor; rewrite ?op_upper_word, ?Hl; try done.
    - unfold op at 1. rewrite land_low_shiftl by lia. unfold op. by rewrite <- Z.land_assoc.
    - apply is_word_upper_word, land_5.
    - intros Hn. apply is_word_lor; [rewrite Z.land_comm; apply is_word_land; [done|done]|].
      apply is_word_shiftl; [lia|]. by apply (land_ones_bounds off 0xFFF 12).
    - intros H. specialize (H E17). unfold paired in H. by rewrite ?E67, ?E03, ?E13 in H. }
  assert (Hpair : forall f3 r r1 imm, op (Z.lor (Z.lor (Z.lor (Z.lor (op next) (Z.shiftl r 7)) (Z.shiftl f3 12)) (Z.shiftl r1 15)) (Z.shiftl imm 20)) = op next).
  { intros. unfold op at 1. rewrite !land_low_shiftl by lia. unfold op. by rewrite <- Z.land_assoc. }
  destruct (op next =? 0x03)%Z eqn:E03.
  { intros [= <- <-]. constructor; rewrite ?op_upper_word, ?Hl; try done.
    - apply is_word_upper_word, land_5.
    - intros _. apply is_word_paired; [apply land_5|apply land_3|apply land_5].
    - intros H. specialize (H E17). unfold paired in H. by rewrite ?E67, ?E03, ?E13 in H. }
  destruct (op next =? 0x13)%Z eqn:E13; cbn [andb].
  - destruct (_ && _)%bool; [|intros [= <- <-]; constructor; try done].
    intros [= <- <-]. constructor; rewrite ?op_upper_word, ?Hl; try done.
    + apply is_word_upper_word, land_5.
    + intros _. apply is_word_paired; [apply land_5|apply land_3|apply land_5].
    + intros H. specialize (H E17). unfold paired in H. by rewrite ?E67, ?E03, ?E13 in H.
  - intros [= <- <-]. constructor; try done.
Qed.

(** What is behind the instruction matters only to an AUIPC with its pair. *)
Lemma patch_next label off w next next2 w' n2 :
  (op w = 0x17%Z -> paired next = false) -> op next2 = op next -> patch label off w next2 = Ok (w', n2) -> patch label off w next = Ok (w', next).
Proof.
  intros Hp E. unfold patch. destruct (op w =? 0x63)%Z; [destruct (check_displacement _ _ _); cbn [obind]; congruence|].
  destruct (op w =? 0x6F)%Z; [destruct (check_displacement _ _ _); cbn [obind]; congruence|].
  destruct (op w =? 0x17)%Z eqn:E17; [|congruence]. apply Z.eqb_eq in E17. specialize (Hp E17). unfold paired in Hp. rewrite E.
  apply orb_false_iff in Hp as [[-> ->]%orb_false_iff ->]. cbn [andb]. congruence.
Qed.

(** ** All uses *)

Definition word_at (ws : list Z) (p : nat) : Z := default 0%Z (ws !! p).

(** [ws'] is [ws] with the uses [us] resolved. *)
Record resolved (names : IRStringTable.IRStringTable) (offsets : Z -> option nat) (us : list LabelUse) (ws ws' : list Z) : Prop := {
  rs_length : length ws' = length ws;
  rs_words : Forall is_word ws';
  rs_op : forall p w, ws !! p = Some w -> exists w', ws' !! p = Some w' /\ op w' = op w;
  rs_use : forall i u p w, us !! i = Some u -> code_offset u = 4 * p -> ws !! p = Some w -> linking w = true ->
    exists t w' next', offsets (label u) = Some t
      /\ patch (IRStringTable.get names (label u)) (Z.of_nat t - Z.of_nat (4 * p) + addend u) w (word_at ws (S p)) = Ok (w', next')
      /\ ws' !! p = Some w' /\ (op w = 0x17%Z -> paired (word_at ws (S p)) = true -> ws' !! S p = Some next');
  rs_other : forall p w, ws !! p = Some w -> Forall (fun u => code_offset u = 4 * p -> linking w = false) us ->
    Forall (fun u => code_offset u + 4 = 4 * p -> op (word_at ws (p - 1)) = 0x17%Z -> paired w = false) us -> ws' !! p = Some w
}.

(** Uses in words of their own, no AUIPC at the very end. *)
Record placed (us : list LabelUse) (ws : list Z) : Prop := {
  pl_words : Forall is_word ws;
  pl_uses : Forall (fun u => exists p w, code_offset u = 4 * p /\ ws !! p = Some w /\ (op w = 0x17%Z -> S p < length ws)) us;
  pl_apart : forall i j u v, us !! i = Some u -> us !! j = Some v -> code_offset u = code_offset v -> i = j
}.

Lemma linking_not_paired w : linking w = true -> paired w = false.
Proof.
  unfold linking, paired. intros H. destruct (Z.eqb_spec (op w) 0x63) as [->|]; [done|]. destruct (Z.eqb_spec (op w) 0x6F) as [->|]; [done|].
  destruct (Z.eqb_spec (op w) 0x17) as [->|]; done.
Qed.

Lemma linking_op w w' : op w = op w' -> linking w = linking w'.
Proof. unfold linking. by intros ->. Qed.
Lemma paired_op w w' : op w = op w' -> paired w = paired w'.
Proof. unfold paired. by intros ->. Qed.

(** The words after one use. *)
Section OneUse.

Context (ws : list Z) (p : nat) (w w' next' : Z).
Context (Hp : ws !! p = Some w) (Hws : Forall is_word ws) (Hpt : patched w (word_at ws (S p)) w' next').

Definition stepped : list Z := <[S p := next']> (<[p := w']> ws).

Lemma one_length : length stepped = length ws.
Proof. unfold stepped. by rewrite !length_insert. Qed.

Lemma one_here : stepped !! p = Some w'.
Proof. unfold stepped. rewrite list_lookup_insert_ne by lia. apply list_lookup_insert_eq. by eapply lookup_lt_Some. Qed.

Lemma one_next : S p < length ws -> stepped !! S p = Some next'.
Proof. intros H. unfold stepped. apply list_lookup_insert_eq. by rewrite length_insert. Qed.

Lemma one_far q : q <> p -> q <> S p -> stepped !! q = ws !! q.
Proof. intros H1 H2. unfold stepped. by rewrite !list_lookup_insert_ne by done. Qed.

(** The next word changes only with an AUIPC in front of its pair. *)
Lemma one_next_kept : (op w = 0x17%Z -> paired (word_at ws (S p)) = false) -> stepped !! S p = ws !! S p.
Proof.
  intros H. pose proof (pt_paired _ _ _ _ Hpt H) as E. destruct (decide (S p < length ws)) as [Hlt|Hge].
  - rewrite one_next by done. destruct (lookup_lt_is_Some_2 _ _ Hlt) as [x Hx]. unfold word_at in E. rewrite Hx in E |- *. by rewrite E.
  - rewrite !lookup_ge_None_2; [done|lia|rewrite one_length; lia].
Qed.

Lemma one_op q x : ws !! q = Some x -> exists x', stepped !! q = Some x' /\ op x' = op x.
Proof.
  intros Hq. destruct (decide (q = p)) as [->|N1]; [rewrite Hp in Hq; injection Hq as <-; exists w'; split; [apply one_here|apply (pt_op _ _ _ _ Hpt)]|].
  destruct (decide (q = S p)) as [->|N2]; [|exists x; by rewrite one_far].
  exists next'. split; [apply one_next; by eapply lookup_lt_Some|]. rewrite (pt_next_op _ _ _ _ Hpt). unfold word_at. by rewrite Hq.
Qed.

Lemma one_words : Forall is_word stepped.
Proof.
  unfold stepped. destruct (decide (S p < length ws)) as [Hlt|Hge].
  - apply Forall_insert; [apply Forall_insert; [done|apply (pt_word _ _ _ _ Hpt)]|]. apply (pt_next_word _ _ _ _ Hpt).
    destruct (lookup_lt_is_Some_2 _ _ Hlt) as [x Hx]. unfold word_at. rewrite Hx. by eapply Forall_lookup_1.
  - rewrite list_insert_ge by (rewrite length_insert; lia). apply Forall_insert; [done|apply (pt_word _ _ _ _ Hpt)].
Qed.

(** A use elsewhere sees the word it saw. *)
Lemma one_linking q x : q <> p -> ws !! q = Some x -> linking x = true -> stepped !! q = Some x.
Proof.
  intros Hne Hq Hl. destruct (decide (q = S p)) as [->|N]; [|by rewrite one_far].
  rewrite one_next_kept; [done|]. intros _. unfold word_at. rewrite Hq. by apply linking_not_paired.
Qed.

Lemma one_paired q x :
  q <> p -> ws !! q = Some x -> op x = 0x17%Z -> paired (word_at ws (S q)) = true -> stepped !! S q = ws !! S q.
Proof.
  intros Hne Hq Ho Hpd. destruct (decide (S q = p)) as [E|N1]; [|apply one_far; lia]. rewrite E in Hpd |- *.
  unfold word_at in Hpd. rewrite Hp in Hpd. cbn in Hpd. change (id w) with w in Hpd. rewrite one_here, Hp. f_equal.
  apply (pt_linking _ _ _ _ Hpt). destruct (linking w) eqn:El; [|done]. by rewrite linking_not_paired in Hpd.
Qed.

Lemma one_word_op q : op (word_at stepped q) = op (word_at ws q).
Proof.
  unfold word_at. destruct (ws !! q) as [x|] eqn:E.
  - destruct (one_op q x E) as (x' & -> & ?). done.
  - rewrite (lookup_ge_None_2 stepped); [done|]. rewrite one_length. by apply lookup_ge_None.
Qed.

End OneUse.

Lemma placed_step u us ws p w w' next' :
  code_offset u = 4 * p -> ws !! p = Some w -> patched w (word_at ws (S p)) w' next' ->
  placed (u :: us) ws -> placed us (stepped ws p w' next').
Proof.
  intros Eu Hp Hpt [Hw Hu Ha]. apply Forall_cons in Hu as [(p0 & w0 & E0 & Hp0 & Hend) Hu].
  assert (p0 = p) as -> by lia. rewrite Hp in Hp0. injection Hp0 as <-.
  constructor.
  - by apply (one_words ws p w).
  - eapply Forall_impl; [exact Hu|]. intros v (q & x & Eq & Hq & Hx). destruct (one_op ws p w w' next' Hp Hpt q x Hq) as (x' & Hq' & Ex).
    exists q, x'. rewrite one_length. split_and!; [done|done|]. rewrite Ex. done.
  - intros i j v v' Hi Hj E. assert (S i = S j) as [= ->] by (by apply (Ha (S i) (S j) v v')). done.
Qed.

Lemma resolved_cons names offsets u us ws ws' p w w' next' t :
  placed (u :: us) ws -> code_offset u = 4 * p -> ws !! p = Some w -> offsets (label u) = Some t ->
  patch (IRStringTable.get names (label u)) (Z.of_nat t - Z.of_nat (4 * p) + addend u) w (word_at ws (S p)) = Ok (w', next') ->
  patched w (word_at ws (S p)) w' next' ->
  resolved names offsets us (stepped ws p w' next') ws' -> resolved names offsets (u :: us) ws ws'.
Proof.
  intros [Hw Hu Ha] Eu Hp Ht Epatch Hpt [R1 R2 R3 R4 R5]. pose proof (one_length ws p w' next') as Hlen.
  apply Forall_cons in Hu as [(p0 & w0 & E0 & Hp0 & Hend) Hu]. assert (p0 = p) as -> by lia. rewrite Hp in Hp0. injection Hp0 as <-. clear E0.
  assert (Hothers : forall i v, us !! i = Some v -> code_offset v <> 4 * p).
  { intros i v Hi E. assert (0 = S i); [|done]. apply (Ha 0 (S i) u v); [done|done|congruence]. }
  pose proof (one_word_op ws p w w' next' Hp Hpt) as Hop.
  assert (Hfree : Forall (fun v => code_offset v <> 4 * p) us) by (apply Forall_lookup_2; exact Hothers).
  constructor.
  - by rewrite R1.
  - done.
  - intros q x Hq. destruct (one_op ws p w w' next' Hp Hpt q x Hq) as (x' & Hq' & Ex). destruct (R3 q x' Hq') as (x'' & ? & Ex'). exists x''.
    split; [done|congruence].
  - intros [|i] v q x Hv Ev Hq Hl.
    + (* this use *)
      injection Hv as <-. assert (q = p) as -> by lia. rewrite Hp in Hq. injection Hq as <-. exists t, w', next'. split_and!; [done|done| |].
      * apply R5; [by apply one_here with (w := w)|eapply Forall_impl; [exact Hfree|]; cbn; intros v Hne E; lia|].
        apply Forall_true. intros v _ _. rewrite (paired_op w' w) by (by apply (pt_op _ _ _ _ Hpt)). by apply linking_not_paired.
      * intros Eo Hpd. specialize (Hend Eo). apply R5; [by apply one_next| |].
        -- apply Forall_true. intros v _. destruct (linking next') eqn:E; [|done]. apply linking_not_paired in E.
           rewrite (paired_op next' (word_at ws (S p))) in E by (apply (pt_next_op _ _ _ _ Hpt)). congruence.
        -- eapply Forall_impl; [exact Hfree|]. cbn. intros v Hne E. lia.
    + (* a later one *)
      cbn in Hv. assert (q <> p) as Hne by (intros ->; by apply (Hothers i v)).
      pose proof (one_linking ws p w w' next' Hpt q x Hne Hq Hl) as Hq1.
      destruct (R4 i v q x Hv Ev Hq1 Hl) as (t' & x' & n' & Ht' & Ep & Hx' & Hn').
      destruct (decide (op x = 0x17%Z /\ paired (word_at ws (S q)) = true)) as [[Eo Epd]|Hno].
      * pose proof (one_paired ws p w w' next' Hp Hpt q x Hne Hq Eo Epd) as Hsame.
        assert (word_at (stepped ws p w' next') (S q) = word_at ws (S q)) as E by (unfold word_at; by rewrite Hsame).
        rewrite E in Ep, Hn'. by exists t', x', n'.
      * assert (Hnp : op x = 0x17%Z -> paired (word_at ws (S q)) = false) by (intros Eo; apply not_true_iff_false; intros E; by apply Hno).
        exists t', x', (word_at ws (S q)). split_and!; [done| |done|].
        -- eapply patch_next; [exact Hnp|apply (Hop (S q))|exact Ep].
        -- intros Eo Epd. by rewrite Hnp in Epd.
  - intros q x Hq H1 H2. apply Forall_cons in H1 as [H1 H1'], H2 as [H2 H2'].
    assert (stepped ws p w' next' !! q = Some x) as Hq1.
    { destruct (decide (q = p)) as [->|N1].
      - rewrite Hp in Hq. injection Hq as <-. rewrite (one_here ws p w) by done. f_equal. apply (pt_linking _ _ _ _ Hpt). by apply H1.
      - destruct (decide (q = S p)) as [->|N2]; [|by rewrite one_far]. rewrite (one_next_kept ws p w w' next' Hpt); [done|].
        intros Eo. unfold word_at at 1. rewrite Hq. apply H2; [lia|]. replace (S p - 1) with p by lia. unfold word_at. by rewrite Hp. }
    apply R5; [done|done|]. eapply Forall_impl; [exact H2'|]. cbn. intros v Hv Ev Eo. apply Hv; [done|]. by rewrite <- Hop.
Qed.

Lemma resolve_fold names offsets tail us ws :
  placed us ws ->
  match ofold (resolve_use names offsets) us (code_of ws ++ tail) with
  | Ok code' => exists ws', code' = code_of ws' ++ tail /\ resolved names offsets us ws ws'
  | Throw _ => True
  end.
Proof.
  revert ws. induction us as [|u us IH]; intros ws Hpl; cbn [ofold].
  { exists ws. split; [done|]. constructor; try done; [apply Hpl|]. intros p w Hp. by exists w. }
  pose proof (pl_uses _ _ Hpl) as [(p & w & Eu & Hp & Hend) _]%Forall_cons.
  destruct (offsets (label u)) as [t|] eqn:Ht.
  2: { unfold resolve_use. rewrite Ht. done. }
  pose proof (pl_words _ _ Hpl) as Hws. assert (is_word w) as Hw by (by eapply Forall_lookup_1).
  pose proof (resolve_use_patch names offsets ws tail p w (label u) t (addend u) Hp Hw Hws Hend Ht) as Hrun.
  rewrite <- Eu in Hrun. change (mkUse (label u) (code_offset u) (addend u)) with (mkUse (label u) (code_offset u) (addend u)) in Hrun.
  assert (mkUse (label u) (code_offset u) (addend u) = u) as Eta by (by destruct u). rewrite Eta in Hrun. rewrite Hrun, Eu.
  change (default 0%Z (ws !! S p)) with (word_at ws (S p)).
  destruct (patch _ _ w (word_at ws (S p))) as [[w' next']|e] eqn:Epatch; cbn [obind]; [|done].
  pose proof (patch_patched _ _ _ _ _ _ Hw Epatch) as Hpt. fold (stepped ws p w' next').
  specialize (IH _ (placed_step u us ws p w w' next' Eu Hp Hpt Hpl)).
  destruct (ofold _ us _) as [code'|e]; [|done]. destruct IH as (ws' & -> & Hres). exists ws'. split; [done|]. by eapply resolved_cons.
Qed.

End Resolution.
