(* ===== verification/Branching.v ===== *)
(** * Resolved branches, executed

    What the sandbox does at an instruction that uses a label, once the label was
    resolved: a branch and a jump within reach, and the pair AUIPC and JALR. *)

From stdpp Require Import pretty.
From S2P Require Import Prelude.
From S2P Require Import Wire.
From S2P Require Import IR.
From S2P Require Import Libriscv.
From S2P Require Import RISCVCodeGen.
From S2P Require Import Encoding.
From S2P Require Import Relaxation.
From S2P Require Import Resolution.

Module Branching.
Import Libriscv.
Import RISCVCodeGen.
Import Encoding.
Import Relaxation.
Import Resolution.

(** The condition of a branch, by its [funct3]. *)
Definition holds (f3 a b : Z) : bool :=
  match f3 with
  | 0 => a =? b
  | 1 => negb (a =? b)
  | 4 => to_int64 a <? to_int64 b
  | 5 => to_int64 b <=? to_int64 a
  | 6 => a <? b
  | 7 => b <=? a
  | _ => false
  end.

Definition branch_format (f3 : Z) : Prop := f3 ∈ [0; 1; 4; 5; 6; 7].

Lemma branch_format_cases (P : Z -> Prop) : P 0 -> P 1 -> P 4 -> P 5 -> P 6 -> P 7 -> forall f3, branch_format f3 -> P f3.
Proof.
  intros ? ? ? ? ? ? f3 Hf. unfold branch_format in Hf. rewrite !elem_of_cons, elem_of_nil in Hf. naive_solver.
Qed.

Lemma holds_inverse f3 a b : branch_format f3 -> holds (Z.lxor f3 1) a b = negb (holds f3 a b).
Proof.
  revert f3. apply branch_format_cases.
  - done.
  - change (holds 0 a b = negb (holds 1 a b)). cbn [holds]. by rewrite negb_involutive.
  - change (holds 5 a b = negb (holds 4 a b)). cbn [holds]. apply Z.leb_antisym.
  - change (holds 4 a b = negb (holds 5 a b)). cbn [holds]. apply Z.ltb_antisym.
  - change (holds 7 a b = negb (holds 6 a b)). cbn [holds]. apply Z.leb_antisym.
  - change (holds 6 a b = negb (holds 7 a b)). cbn [holds]. apply Z.ltb_antisym.
Qed.

Lemma branch_format_inverse f3 : branch_format f3 -> branch_format (Z.lxor f3 1).
Proof. revert f3. apply branch_format_cases; unfold branch_format; cbn; set_solver. Qed.

Lemma branch_format_bits f3 : branch_format f3 -> in_bits 3 f3.
Proof. revert f3. by apply branch_format_cases; unfold in_bits. Qed.

(** ** The words of a far jump *)

Lemma shiftl_20_bits u : Z.land (Z.shiftl u 12) 0xFFFFF000 = Z.shiftl (Z.land u 0xFFFFF) 12.
Proof. change 0xFFFFF000 with (Z.shiftl 0xFFFFF 12). by rewrite Z.shiftl_land. Qed.

Lemma to_uint32_word w : is_word w -> to_uint32 w = w.
Proof. intros Hw. unfold wrapu. by apply Z.mod_small. Qed.

Lemma upper_word_U r u : in_bits 5 r -> upper_word r u = U_word 0x17 r (Z.shiftl u 12).
Proof.
  intros Hr. unfold U_word. rewrite shiftl_20_bits. symmetry. apply to_uint32_word. by apply is_word_upper_word.
Qed.

Lemma land_low_id x n : 0 <= n -> 0 <= x < 2 ^ n -> Z.land x (Z.ones n) = x.
Proof. intros Hn Hx. rewrite Z.land_ones by done. by apply Z.mod_small. Qed.

Lemma wraps_12_low off : Z.land (wraps 12 off) 0xFFF = Z.land off 0xFFF.
Proof.
  change 0xFFF with (Z.ones 12). rewrite !Z.land_ones by lia. unfold wraps. change (2 ^ (12 - 1)) with 2048. change (2 ^ 12) with 4096.
  Z.to_euclidean_division_equations; lia.
Qed.

(** JALR behind an AUIPC, with the low bits of the displacement. *)
Lemma far_jump_word r off :
  in_bits 5 r ->
  Z.lor (Z.land (Z.lor (Z.lor 0x67 (Z.shiftl r 7)) (Z.shiftl REG_WIDE_SCRATCH 15)) 0x000FFFFF) (Z.shiftl (Z.land off 0xFFF) 20)
  = I_word 0x67 r 0 REG_WIDE_SCRATCH (wraps 12 off).
Proof.
  intros Hr. unfold I_word. rewrite wraps_12_low, Z.shiftl_0_l, Z.lor_0_r.
  assert (forallb (fun r => Z.land (Z.lor (Z.lor 0x67 (Z.shiftl r 7)) (Z.shiftl REG_WIDE_SCRATCH 15)) 0x000FFFFF
    =? Z.lor (Z.lor 0x67 (Z.shiftl r 7)) (Z.shiftl REG_WIDE_SCRATCH 15)) (seqZ 0 32) = true) as Ha by (by vm_compute).
  rewrite forallb_forall in Ha. rewrite (proj1 (Z.eqb_eq _ _) (Ha r ltac:(apply list_elem_of_In, elem_of_seqZ; unfold in_bits in Hr; lia))).
  symmetry. apply to_uint32_word. apply is_word_lor; [|apply is_word_shiftl; [lia|by apply (land_ones_bounds off 0xFFF 12)]].
  apply is_word_lor; [apply is_word_lor; [by vm_compute|apply is_word_shiftl; [lia|unfold in_bits in Hr; lia]]|by vm_compute].
Qed.

(** The displacement, in the two halves. *)
Lemma halves off : Z.shiftl (Z.shiftr (off + 0x800) 12) 12 + wraps 12 off = off.
Proof.
  rewrite Z.shiftr_div_pow2, Z.shiftl_mul_pow2 by lia. unfold wraps. change (2 ^ (12 - 1)) with 2048. change (2 ^ 12) with 4096.
  Z.to_euclidean_division_equations; lia.
Qed.

Section Steps.
Context `{Memory} `{Config}.

(** Jumps go to aligned addresses. *)
Lemma aligned_jump z c m : z mod 4 = 0 -> jump z c m = Next (set_pc (to_uint64 z) c) m.
Proof.
  intros Hz. unfold jump. assert (to_uint64 z mod 4 = 0) as Hm.
  { unfold wrapu. rewrite <- Znumtheory.Zmod_div_mod; [done|done|done|]. by exists (2 ^ 62). }
  assert (Z.land (to_uint64 z) (if compressed_enabled then 1 else 3) = 0) as ->; [|done].
  destruct compressed_enabled; [change 1 with (Z.ones 1)|change 3 with (Z.ones 2)]; rewrite Z.land_ones by lia; [|done].
  cbn. Z.to_euclidean_division_equations; lia.
Qed.

Lemma increment_set_pc z c : increment_pc (set_pc (to_uint64 (z - 4)) c) = set_pc z c.
Proof.
  unfold increment_pc, set_pc. cbn [pc regs]. rewrite !to_uint64_idemp. by replace (z - 4 + 4) with z by lia.
Qed.

Lemma step_branch f3 r1 r2 imm c m :
  mem_read 4 (pc c) m = Some (B_word 0x63 f3 r1 r2 imm) ->
  branch_format f3 -> in_bits 5 r1 -> in_bits 5 r2 -> fits_in_signed imm 13 = true -> imm mod 4 = 0 -> pc c mod 4 = 0 ->
  step_one c m = Next (set_pc (pc c + (if holds f3 (reg c r1) (reg c r2) then imm else 4)) c) m.
Proof.
  intros Hm Hf H1 H2 Hi Ha Hp. pose proof (branch_format_bits f3 Hf) as H3.
  destruct (B_decodes 0x63 f3 r1 r2 imm) as (Eo & Ef & E1 & E2 & Ei); [unfold in_bits; lia|done..|].
  assert (Z.land imm 1 = 0) as He by (change 1 with (Z.ones 1); rewrite Z.land_ones by lia; cbn; Z.to_euclidean_division_equations; lia).
  specialize (Ei He Hi). unfold step_one. rewrite Hm. set (w := B_word 0x63 f3 r1 r2 imm) in *. clearbody w.
  assert (Hb : forall taken, match branch taken w c m with Next c m => Next (increment_pc c) m | r => r end
               = Next (set_pc (pc c + (if taken : bool then imm else 4)) c) m).
  { intros [|]; unfold branch; [|done]. rewrite Ei, aligned_jump by (Z.to_euclidean_division_equations; lia).
    by rewrite <- (increment_set_pc (pc c + imm)). }
  assert (execute w c m = branch (holds f3 (reg c r1) (reg c r2)) w c m) as ->.
  { unfold execute. rewrite (decode_of_branch _ Eo). unfold decode_branch. rewrite Ef. clear -Hf E1 E2. revert f3 Hf.
    apply branch_format_cases; cbn [handler holds]; by rewrite E1, E2. }
  specialize (Hb (holds f3 (reg c r1) (reg c r2))). by destruct (branch _ w c m).
Qed.

(** The register a jump leaves its return address in. *)
Definition link (r value : Z) (c : Cpu) : Cpu := if r =? 0 then c else set_reg r value c.

Lemma pc_link r v c : pc (link r v c) = pc c.
Proof. unfold link. by destruct (r =? 0). Qed.

Lemma step_jump r imm c m :
  mem_read 4 (pc c) m = Some (J_word 0x6F r imm) -> in_bits 5 r -> fits_in_signed imm 21 = true -> imm mod 4 = 0 -> pc c mod 4 = 0 ->
  step_one c m = Next (set_pc (pc c + imm) (link r (pc c + 4) c)) m.
Proof.
  intros Hm Hr Hi Ha Hp. destruct (J_decodes 0x6F r imm) as (Eo & Er & Ei); [unfold in_bits; lia|done|].
  assert (Z.land imm 1 = 0) as He by (change 1 with (Z.ones 1); rewrite Z.land_ones by lia; cbn; Z.to_euclidean_division_equations; lia).
  specialize (Ei He Hi). unfold step_one. rewrite Hm. set (w := J_word 0x6F r imm) in *. clearbody w.
  unfold execute. rewrite (decode_of_jal _ Eo), Er. unfold link. destruct (Z.eqb_spec r 0) as [->|Hne]; cbn [negb handler].
  - rewrite Ei, aligned_jump by (Z.to_euclidean_division_equations; lia). by rewrite <- (increment_set_pc (pc c + imm)).
  - rewrite Ei, Er, aligned_jump by (Z.to_euclidean_division_equations; lia). by rewrite <- (increment_set_pc (pc c + imm)).
Qed.

Lemma set_pc_wrapped z c : set_pc (to_uint64 z) c = set_pc z c.
Proof. unfold set_pc. f_equal. unfold wrapu. by rewrite Z.mod_mod. Qed.

Lemma step_auipc r u c m :
  mem_read 4 (pc c) m = Some (upper_word r u) -> 0 < r < 32 -> fits_in_signed u 20 = true ->
  step_one c m = Next (set_pc (pc c + 4) (set_reg r (pc c + Z.shiftl u 12) c)) m.
Proof.
  intros Hm Hr Hu. assert (in_bits 5 r) as Hr' by (unfold in_bits; lia). rewrite upper_word_U in Hm by done.
  destruct (U_decodes 0x17 r (Z.shiftl u 12)) as (Eo & Er & Eu); [unfold in_bits; lia|done|].
  assert (Z.land (Z.shiftl u 12) 0xFFF = 0) as Hz.
  { change 0xFFF with (Z.ones 12). rewrite Z.land_ones, Z.shiftl_mul_pow2 by lia. apply Z.mod_mul. lia. }
  apply fits_in_signed_spec in Hu; [|lia]. specialize (Eu Hz). rewrite wraps_id in Eu by (rewrite ?Z.shiftl_mul_pow2 by lia; cbn in *; lia).
  unfold step_one. rewrite Hm, (execute_decode _ AUIPC) by (apply decode_of_auipc; [done|lia]). cbn [handler].
  rewrite Er, Eu. done.
Qed.

Lemma step_jalr r r1 imm c m :
  mem_read 4 (pc c) m = Some (I_word 0x67 r 0 r1 imm) -> in_bits 5 r -> in_bits 5 r1 -> fits_in_signed imm 12 = true ->
  (reg c r1 + imm) mod 4 = 0 ->
  step_one c m = Next (set_pc (reg c r1 + imm) (link r (pc c + 4) c)) m.
Proof.
  intros Hm Hr H1 Hi Ha. assert (in_bits 7 0x67) as H7 by (unfold in_bits; lia). assert (in_bits 3 0) as H3 by (unfold in_bits; lia).
  destruct (I_decodes 0x67 r 0 r1 imm) as (Eo & Er & _ & E1 & _); [done..|].
  pose proof (I_decodes_imm 0x67 r 0 r1 imm H7 Hr H3 H1 Hi) as Es.
  unfold step_one. rewrite Hm, (execute_decode _ JALR) by (by apply decode_of_jalr). cbn [handler]. rewrite Er, E1, Es.
  set (z := reg c r1 + imm) in *. assert (to_uint64 z mod 4 = 0) as Hz.
  { unfold wrapu. rewrite <- Znumtheory.Zmod_div_mod; [done|done|done|]. by exists (2 ^ 62). }
  rewrite aligned_jump by (Z.to_euclidean_division_equations; lia). rewrite increment_set_pc, set_pc_wrapped. unfold link.
  by destruct (Z.eqb_spec r 0).
Qed.

(** AUIPC and JALR to a displacement of 32 bits. *)
Lemma step_far r off c m :
  mem_read 4 (pc c) m = Some (upper_word REG_WIDE_SCRATCH (Z.shiftr (off + 0x800) 12)) ->
  mem_read 4 (to_uint64 (pc c + 4)) m = Some (I_word 0x67 r 0 REG_WIDE_SCRATCH (wraps 12 off)) ->
  in_bits 5 r -> fits_in_signed (Z.shiftr (off + 0x800) 12) 20 = true -> off mod 4 = 0 -> pc c mod 4 = 0 ->
  exists c', steps 2 c m = Next c' m /\ pc c' = to_uint64 (pc c + off)
    /\ (r <> 0 -> reg c' r = to_uint64 (pc c + 8))
    /\ forall r', r' <> REG_WIDE_SCRATCH -> (r <> 0 -> r' <> r) -> reg c' r' = reg c r'.
Proof.
  intros Hm1 Hm2 Hr Hu Ha Hp. pose proof (step_auipc _ _ c m Hm1 ltac:(unfold REG_WIDE_SCRATCH; lia) Hu) as H1.
  set (c1 := set_pc (pc c + 4) (set_reg REG_WIDE_SCRATCH (pc c + Z.shiftl (Z.shiftr (off + 0x800) 12) 12) c)) in *.
  assert (Hreg : reg c1 REG_WIDE_SCRATCH = to_uint64 (pc c + Z.shiftl (Z.shiftr (off + 0x800) 12) 12)).
  { unfold c1. change (reg (set_reg REG_WIDE_SCRATCH (pc c + Z.shiftl (Z.shiftr (off + 0x800) 12) 12) c) REG_WIDE_SCRATCH =
      to_uint64 (pc c + Z.shiftl (Z.shiftr (off + 0x800) 12) 12)). rewrite reg_set_reg. by rewrite decide_True. }
  assert (Hto : to_uint64 (reg c1 REG_WIDE_SCRATCH + wraps 12 off) = to_uint64 (pc c + off)).
  { rewrite Hreg, to_uint64_idemp. f_equal. pose proof (halves off). lia. }
  assert (Hal : (reg c1 REG_WIDE_SCRATCH + wraps 12 off) mod 4 = 0).
  { assert (to_uint64 (pc c + off) mod 4 = 0) as E.
    { unfold wrapu. rewrite <- Znumtheory.Zmod_div_mod; [|done|done|by exists (2 ^ 62)]. Z.to_euclidean_division_equations; lia. }
    rewrite <- Hto in E. unfold wrapu in E. rewrite <- Znumtheory.Zmod_div_mod in E; [done|done|done|by exists (2 ^ 62)]. }
  pose proof (step_jalr r REG_WIDE_SCRATCH (wraps 12 off) c1 m Hm2 Hr ltac:(unfold in_bits, REG_WIDE_SCRATCH; lia) (wraps_12_fits off) Hal) as H2.
  eexists. cbn [steps]. rewrite H1, H2. split; [done|]. split_and!.
  - exact Hto.
  - intros Hne. unfold link. rewrite (proj2 (Z.eqb_neq r 0) Hne).
    change (reg (set_reg r (pc c1 + 4) c1) r = to_uint64 (pc c + 8)). rewrite reg_set_reg, decide_True by done.
    unfold c1. cbn [pc set_pc]. rewrite to_uint64_idemp. f_equal. lia.
  - intros r' Hn1 Hn2. transitivity (reg (link r (pc c1 + 4) c1) r'); [done|]. unfold link. destruct (Z.eqb_spec r 0) as [->|Hne].
    + unfold c1. transitivity (reg (set_reg REG_WIDE_SCRATCH (pc c + Z.shiftl (Z.shiftr (off + 0x800) 12) 12) c) r'); [done|].
      by rewrite reg_set_reg, decide_False.
    + rewrite reg_set_reg, decide_False by auto. unfold c1.
      transitivity (reg (set_reg REG_WIDE_SCRATCH (pc c + Z.shiftl (Z.shiftr (off + 0x800) 12) 12) c) r'); [done|].
      by rewrite reg_set_reg, decide_False.
Qed.

End Steps.

End Branching.
