(* ===== verification/Linking.v ===== *)
(** * Linked code, executed

    What comes after relaxation: the pools behind the code and the resolution of
    its label uses.  Branches, jumps and addresses of the linked code, executed by
    the sandbox, reach what their labels name. *)

From stdpp Require Import pretty.
From S2P Require Import Prelude.
From S2P Require Import Wire.
From S2P Require Import IR.
From S2P Require Import LineTable.
From S2P Require Import Libriscv.
From S2P Require Import RISCVCodeGen.
From S2P Require Import Encoding.
From S2P Require Import Relaxation.
From S2P Require Import RelaxationSound.
From S2P Require Import Assembly.
From S2P Require Import Resolution.
From S2P Require Import Branching.

Module Linking.
Import Libriscv.
Import RISCVCodeGen.
Import Encoding.
Import Relaxation.
Import Assembly.
Import Resolution.
Import Branching.

Local Open Scope nat_scope.

(** ** After relaxation *)

(** [g'] is [g] with bytes behind its code and more labels. *)
Record followed (g g' : Gen) : Prop := {
  fl_code : exists tail, m_code g' = m_code g ++ tail;
  fl_uses : m_label_uses g' = m_label_uses g;
  fl_labels : forall id off, (0 <= id)%Z -> label_offset g id = Some off -> label_offset g' id = Some off
}.

(** No use in the last instruction: a function ends with its return. *)
Definition closed (g : Gen) : Prop := Forall (fun use => code_offset use + 8 <= length (m_code g)) (m_label_uses g).

Lemma read32_of_words ws p w : Forall is_word ws -> read32 (code_of ws) (4 * p) = Ok w -> ws !! p = Some w.
Proof.
  intros Hws Hr. destruct (ws !! p) as [v|] eqn:E.
  - rewrite (read32_code ws p v E) in Hr by (by eapply Forall_lookup_1). by injection Hr as ->.
  - apply lookup_ge_None in E. unfold read32, Wire.memcpy in Hr. rewrite decide_False in Hr; [done|]. rewrite length_code_of. lia.
Qed.

Section Linked.

Context (g g1 : Gen) (at_ : nat -> nat).
Context (He : emitted g) (Hrl : relocated g g1 at_) (Hend : closed g).

(** The instruction of a use of [g]. *)
Lemma use_instruction i use :
  m_label_uses g !! i = Some use -> exists k w, code_offset use = 4 * k /\ read32 (m_code g) (4 * k) = Ok w
    /\ (0 <= label use)%Z /\ S k < length (m_code g) / 4.
Proof.
  intros Hi. destruct He as (a & Hb & _ & Hr). pose proof Hr as [Hcode Hpos]. pose proof Hi as Hi'.
  rewrite (pos_uses _ _ _ _ _ Hpos), list_lookup_fmap_map in Hi. destruct (uses a !! i) as [u|] eqn:Hu; [|done]. injection Hi as <-.
  destruct (b_use _ Hb i u Hu) as (Hl & Hg & Ew). destruct (lookup_lt_is_Some_2 _ _ Hg) as [gr Hgr].
  destruct (Forall_lookup_1 _ _ _ _ (b_words _ Hb) Hgr) as (w & -> & Hw).
  destruct (group_word _ _ _ 0 w Hgr eq_refl) as (p & Hp & Hpw & _).
  pose proof (start_Built a (u_group u) Hb ltac:(lia)) as Es. exists (u_group u), w. cbn [conc code_offset label].
  split_and!; [rewrite Ew; lia| |done|].
  - rewrite Hcode. replace (4 * u_group u) with (4 * p) by lia. by apply read32_code.
  - pose proof (Forall_lookup_1 _ _ _ _ Hend Hi') as Hc. cbn [conc code_offset] in Hc. apply Nat.div_le_lower_bound; lia.
Qed.

Lemma at_le j k : j <= k -> k <= length (m_code g) / 4 -> at_ j <= at_ k.
Proof. intros Hjk. induction Hjk as [|k _ IH]; [done|]. intros Hk. pose proof (rl_order _ _ _ Hrl k ltac:(lia)). lia. Qed.

Lemma relocated_end : at_ (length (m_code g) / 4) = length (m_code g1).
Proof. apply (rl_end _ _ _ Hrl). Qed.

Lemma relocated_placed : exists ws, m_code g1 = code_of ws /\ placed (m_label_uses g1) ws.
Proof.
  destruct (rl_code _ _ _ Hrl) as (ws & Ec & Hws & Huses). exists ws. split; [done|]. constructor; [done| |exact (rl_apart _ _ _ Hrl)].
  apply Forall_lookup_2. intros i use Hi. destruct (Forall_lookup_1 _ _ _ _ Huses Hi) as (p & Hp & Hlt).
  destruct (lookup_lt_is_Some_2 _ _ Hlt) as [w Hw]. exists p, w. split_and!; [done|done|]. intros Ho.
  destruct (decide (i < length (m_label_uses g))) as [Hold|Hnew].
  - destruct (lookup_lt_is_Some_2 _ _ Hold) as [use0 H0]. destruct (use_instruction i use0 H0) as (k & w0 & Eo & Hread & _ & Hk).
    rewrite <- Eo in Hread. destruct (rl_use _ _ _ Hrl i use0 w0 H0 Hread) as (k' & gr & n & Eo' & Hf & Es & Hgr & Hi' & _).
    assert (k' = k) as -> by lia. rewrite Hi in Hi'. injection Hi' as ->. cbn [code_offset] in Hp.
    destruct (rl_aligned _ _ _ Hrl k) as [q Eq]. assert (p = q + n) as -> by lia.
    assert (length ws = length (m_code g1) / 4) as El by (rewrite Ec, length_code_of, Nat.mul_comm; by rewrite Nat.div_mul).
    pose proof (at_le (S (S k)) (length (m_code g) / 4) Hk (le_n _)) as Hle. rewrite relocated_end in Hle.
    pose proof (rl_order _ _ _ Hrl (S k) Hk) as Hlast. destruct (rl_aligned _ _ _ Hrl (S (S k))) as [q2 Eq2].
    rewrite Ec, length_code_of in Hle. enough (n < length gr) by lia. destruct Hf; cbn; lia.
  - destruct (rl_new _ _ _ Hrl i use ltac:(lia) Hi) as (w' & Hread & Hb). rewrite Hp, Ec in Hread.
    apply (read32_of_words ws p w' Hws) in Hread. rewrite Hw in Hread. injection Hread as <-. unfold is_branch in Hb. unfold op in Ho.
    by rewrite Ho in Hb.
Qed.

Context (g2 g3 : Gen) (Hfl : followed g1 g2) (Hres : resolve_labels g2 = Ok g3).

Lemma linked_words : exists ws ws' tail,
  m_code g1 = code_of ws /\ m_code g3 = code_of ws' ++ tail /\ Forall is_word ws
  /\ resolved (m_label_names g2) (label_offset g2) (m_label_uses g1) ws ws'.
Proof.
  destruct relocated_placed as (ws & Ec & Hpl). destruct (fl_code _ _ Hfl) as [tail Et]. rewrite Ec in Et.
  pose proof (resolve_fold (m_label_names g2) (label_offset g2) tail _ ws Hpl) as H.
  unfold resolve_labels in Hres. rewrite Et, (fl_uses _ _ Hfl) in Hres.
  destruct (ofold _ _ _) as [code'|e]; [|done]. injection Hres as <-. destruct H as (ws' & -> & Hr). exists ws, ws', tail.
  split_and!; [done|done|apply Hpl|done].
Qed.

End Linked.

(** ** Instructions with labels, executed *)

Definition branch_funct3 (w : Z) : Z := Z.land (Z.shiftr w 12) 0x7.
Definition source1 (w : Z) : Z := Z.land (Z.shiftr w 15) 0x1F.
Definition source2 (w : Z) : Z := Z.land (Z.shiftr w 20) 0x1F.
Definition target_register (w : Z) : Z := Z.land (Z.shiftr w 7) 0x1F.

Lemma check_displacement_passed what off bits u : check_displacement what off bits = Ok u -> Z.land off 1 = 0%Z /\ fits_in_signed off bits = true.
Proof.
  unfold check_displacement. destruct (Z.land off 1 =? 0)%Z eqn:E1; cbn [negb]; [|done].
  destruct (fits_in_signed off bits); cbn [negb]; [|done]. by apply Z.eqb_eq in E1.
Qed.

Lemma check_immediate_passed what v bits u : check_immediate what v bits = Ok u -> fits_in_signed v bits = true.
Proof. unfold check_immediate. by destruct (fits_in_signed v bits). Qed.

Lemma op_inverse w : op (inverse w) = op w.
Proof.
  unfold op, inverse. apply Z.bits_inj'. intros n Hn.
  rewrite !Z.land_spec, Z.lxor_spec, Z.land_spec. destruct (decide (n < 7)%Z).
  - assert (n = 0 \/ n = 1 \/ n = 2 \/ n = 3 \/ n = 4 \/ n = 5 \/ n = 6)%Z as Hc by lia.
    destruct Hc as [->|[->|[->|[->|[->|[->| ->]]]]]]; cbn; by rewrite ?andb_true_r, ?xorb_false_r.
  - change 0x7F%Z with (Z.ones 7). by rewrite Z.ones_spec_high, !andb_false_r by lia.
Qed.

Lemma field_inverse w n m : Z.land (Z.shiftr (Z.land w 0x01FFF07F) n) m = Z.land (Z.shiftr w n) (Z.land (Z.shiftr 0x01FFF07F n) m).
Proof. by rewrite Z.shiftr_land, Z.land_assoc. Qed.

Lemma inverse_fields w :
  branch_funct3 (inverse w) = Z.lxor (branch_funct3 w) 1 /\ source1 (inverse w) = source1 w /\ source2 (inverse w) = source2 w.
Proof.
  assert (Hland : forall a b c, Z.land (Z.lxor a b) c = Z.lxor (Z.land a c) (Z.land b c)).
  { intros a b c. apply Z.bits_inj'. intros n _. rewrite !Z.land_spec, !Z.lxor_spec, !Z.land_spec. by destruct (Z.testbit a n), (Z.testbit b n), (Z.testbit c n). }
  unfold branch_funct3, source1, source2, inverse. rewrite !Z.shiftr_lxor, !Hland, !field_inverse. cbn. by rewrite !Z.lxor_0_r.
Qed.

Section Run.

Context `{Memory} `{Config}.
Context (names : IRStringTable.IRStringTable) (offsets : Z -> option nat) (us : list LabelUse) (ws ws' : list Z).
Context (Hws : Forall is_word ws) (Hres : resolved names offsets us ws ws').
Context (base : Z) (m : mem) (Hbase : (base mod 4 = 0)%Z).
Context (Hm : forall p w, ws' !! p = Some w -> mem_read 4 (to_uint64 (base + Z.of_nat (4 * p))) m = Some w).

Local Open Scope Z_scope.

Definition at_word (c : Cpu) (p : nat) : Prop := pc c = to_uint64 (base + Z.of_nat (4 * p)).

Lemma at_word_aligned c p : at_word c p -> pc c mod 4 = 0.
Proof.
  intros ->. unfold wrapu. rewrite <- Znumtheory.Zmod_div_mod; [|done|done|by exists (2 ^ 62)]. Z.to_euclidean_division_equations; lia.
Qed.

Lemma set_pc_from c c' p d : at_word c p -> set_pc (pc c + d) c' = set_pc (base + Z.of_nat (4 * p) + d) c'.
Proof. intros E. unfold set_pc. by rewrite E, to_uint64_idemp. Qed.

Lemma link_from r c c' p d : at_word c p -> link r (pc c + d) c' = link r (base + Z.of_nat (4 * p) + d) c'.
Proof. intros E. unfold link. destruct (r =? 0); [done|]. unfold set_reg. by rewrite E, to_uint64_idemp. Qed.

Context (i : nat) (u : LabelUse) (p t : nat) (w : Z).
Context (Hu : us !! i = Some u) (Hp : code_offset u = (4 * p)%nat) (Hw : ws !! p = Some w) (Ht : offsets (label u) = Some t).
Context (Hto : (Z.of_nat t + addend u) mod 4 = 0).

Let dst : Z := base + (Z.of_nat t + addend u).

Lemma run_branch c :
  is_branch w = true -> branch_format (branch_funct3 w) -> at_word c p ->
  step_one c m = Next (set_pc (if holds (branch_funct3 w) (reg c (source1 w)) (reg c (source2 w)) then dst else base + Z.of_nat (4 * S p)) c) m.
Proof.
  intros Hb Hf Hc. assert (op w = 0x63) as Ho by (by apply Z.eqb_eq).
  destruct (rs_use _ _ _ _ _ Hres i u p w Hu Hp Hw) as (t' & w' & n' & Ht' & E & Hw' & _); [unfold linking; by rewrite Ho|].
  rewrite Ht in Ht'. injection Ht' as <-. unfold patch in E. rewrite Ho in E. cbn [Z.eqb Pos.eqb] in E.
  apply obind_Ok in E as ([] & [He Hfit]%check_displacement_passed & [= <- _]). set (off := Z.of_nat t - Z.of_nat (4 * p) + addend u) in *.
  rewrite (step_branch (branch_funct3 w) (source1 w) (source2 w) off c m);
    [|by rewrite Hc, (Hm p _ Hw')|done|apply land_5|apply land_5|done|unfold off; Z.to_euclidean_division_equations; lia|by eapply at_word_aligned].
  rewrite (set_pc_from c c p) by done. do 2 f_equal. unfold off, dst. destruct (holds _ _ _); lia.
Qed.

Lemma run_jump c :
  is_jump w = true -> at_word c p ->
  step_one c m = Next (set_pc dst (link (target_register w) (base + Z.of_nat (4 * S p)) c)) m.
Proof.
  intros Hj Hc. assert (op w = 0x6F) as Ho by (by apply Z.eqb_eq).
  destruct (rs_use _ _ _ _ _ Hres i u p w Hu Hp Hw) as (t' & w' & n' & Ht' & E & Hw' & _); [unfold linking; by rewrite Ho|].
  rewrite Ht in Ht'. injection Ht' as <-. unfold patch in E. rewrite Ho in E. cbn [Z.eqb Pos.eqb] in E.
  apply obind_Ok in E as ([] & [He Hfit]%check_displacement_passed & [= <- _]). set (off := Z.of_nat t - Z.of_nat (4 * p) + addend u) in *.
  rewrite (step_jump (target_register w) off c m);
    [|by rewrite Hc, (Hm p _ Hw')|apply land_5|done|unfold off; Z.to_euclidean_division_equations; lia|by eapply at_word_aligned].
  rewrite (set_pc_from c _ p), (link_from _ c c p) by done. f_equal. f_equal; [unfold off, dst; lia|]. f_equal. lia.
Qed.

(** Where a far jump goes, and what it changes. *)
Lemma run_far v c :
  w = far_base -> ws !! S p = Some (far_jump v) -> at_word c p ->
  exists c', steps 2 c m = Next c' m /\ pc c' = to_uint64 dst
    /\ (target_register v <> 0 -> reg c' (target_register v) = to_uint64 (base + Z.of_nat (4 * (p + 2))))
    /\ forall r, r <> REG_WIDE_SCRATCH -> (target_register v <> 0 -> r <> target_register v) -> reg c' r = reg c r.
Proof.
  intros -> Hn Hc. pose proof (land_5 (Z.shiftr v 7)) as Hr. fold (target_register v) in Hr.
  destruct (rs_use _ _ _ _ _ Hres i u p far_base Hu Hp Hw) as (t' & w' & n' & Ht' & E & Hw' & Hn'); [done|].
  rewrite Ht in Ht'. injection Ht' as <-. unfold word_at in E, Hn'. rewrite Hn in E, Hn'. cbn [default] in E, Hn'. unfold patch in E.
  assert (op (far_jump v) = 0x67) as Eop by (unfold op, far_jump; by rewrite !land_low_shiftl by lia).
  change (id (far_jump v)) with (far_jump v) in *. rewrite Eop in E. change (op far_base) with 0x17 in E. cbn [Z.eqb Pos.eqb] in E.
  apply obind_Ok in E as ([] & [He Hfit]%check_displacement_passed & E). apply obind_Ok in E as ([] & Hup%check_immediate_passed & E).
  injection E as <- <-. set (off := Z.of_nat t - Z.of_nat (4 * p) + addend u) in *.
  specialize (Hn' eq_refl ltac:(unfold paired; by rewrite Eop)).
  unfold far_jump in Hn'. fold (target_register v) in Hn'. rewrite far_jump_word in Hn' by done.
  destruct (step_far (target_register v) off c m) as (c' & Es & Epc & El & Ek); [by rewrite Hc, (Hm p _ Hw')| |done|done| |by eapply at_word_aligned|].
  - rewrite Hc, to_uint64_idemp. etransitivity; [|exact (Hm _ _ Hn')]. do 2 f_equal. lia.
  - unfold off. Z.to_euclidean_division_equations; lia.
  - exists c'. split_and!; [done| | |done].
    + rewrite Epc, Hc, to_uint64_idemp. f_equal. unfold off, dst. lia.
    + intros Hne. rewrite El, Hc, to_uint64_idemp by done. f_equal. lia.
Qed.

(** AUIPC with the instruction that takes the low bits of the address: ADDI or a
    load. *)
Lemma run_upper o f3 c :
  let r := target_register w in let off := Z.of_nat t - Z.of_nat (4 * p) + addend u in
  op w = 0x17 -> 0 < r -> ws !! S p = Some (I_word o r f3 r 0) -> o = 0x03 \/ o = 0x13 /\ f3 = 0 -> in_bits 3 f3 ->
  - 2 ^ 31 <= off < 2 ^ 31 - 2 ^ 11 -> at_word c p ->
  exists c1, step_one c m = Next c1 m /\ at_word c1 (S p) /\ to_uint64 (reg c1 r + wraps 12 off) = to_uint64 dst
    /\ (forall r', r' <> r -> reg c1 r' = reg c r') /\ mem_read 4 (pc c1) m = Some (I_word o r f3 r (wraps 12 off)).
Proof.
  clear Hto. intros r off Ho Hr0 Hn Hof H3 Hrange Hc. pose proof (land_5 (Z.shiftr w 7)) as Hr. fold (target_register w) r in Hr.
  assert (in_bits 7 o) as H7 by (unfold in_bits; lia). destruct (I_decodes o r f3 r 0 H7 Hr H3 Hr) as (Eo & Er & Ef & E1 & _).
  set (v := I_word o r f3 r 0) in *. change (op v = o) in Eo. change (Z.land (Z.shiftr v 7) 0x1F = r) in Er.
  change (Z.land (Z.shiftr v 12) 0x7 = f3) in Ef. change (Z.land (Z.shiftr v 15) 0x1F = r) in E1.
  destruct (rs_use _ _ _ _ _ Hres i u p w Hu Hp Hw) as (t' & w' & n' & Ht' & E & Hw' & Hn'); [unfold linking; by rewrite Ho|].
  rewrite Ht in Ht'. injection Ht' as <-. unfold word_at in E, Hn'. rewrite Hn in E, Hn'. cbn [default] in E, Hn'.
  change (id v) with v in *. specialize (Hn' Ho ltac:(unfold paired; rewrite Eo; destruct Hof as [->|[-> _]]; done)).
  unfold patch in E. rewrite Ho, Eo, Er, Ef, E1 in E. fold (target_register w) r off in E. cbn [Z.eqb Pos.eqb] in E.
  assert (Hpair : Z.lor (Z.lor (Z.lor (Z.lor o (Z.shiftl r 7)) (Z.shiftl f3 12)) (Z.shiftl r 15)) (Z.shiftl (Z.land (Z.land off 0xFFF) 0xFFF) 20)
    = I_word o r f3 r (wraps 12 off)).
  { rewrite <- Z.land_assoc. change (Z.land 0xFFF 0xFFF) with 0xFFF. unfold I_word. rewrite wraps_12_low, to_uint32_word; [done|].
    rewrite <- Eo. by apply is_word_paired. }
  rewrite Hpair in E. assert (w' = upper_word r (Z.shiftr (off + 0x800) 12) /\ n' = I_word o r f3 r (wraps 12 off)) as [-> ->].
  { assert (wraps 32 (Z.shiftr (off + 0x800) 12) = Z.shiftr (off + 0x800) 12) as Ew.
    { apply wraps_id; [lia|]. rewrite Z.shiftr_div_pow2 by lia. cbn in *. Z.to_euclidean_division_equations; lia. }
    rewrite Ew in E. destruct Hof as [->|[-> ->]]; cbn [Z.eqb Pos.eqb] in E; [|rewrite Z.eqb_refl in E; cbn [andb] in E]; by injection E as <- <-. }
  pose proof (step_auipc r (Z.shiftr (off + 0x800) 12) c m) as Hs. specialize (Hs ltac:(by rewrite Hc, (Hm p _ Hw')) ltac:(unfold in_bits in Hr; lia)).
  specialize (Hs ltac:(apply fits_in_signed_spec; [lia|]; rewrite Z.shiftr_div_pow2 by lia; cbn in *; Z.to_euclidean_division_equations; lia)).
  eexists. split; [exact Hs|]. assert (Hpc : at_word (set_pc (pc c + 4) (set_reg r (pc c + Z.shiftl (Z.shiftr (off + 0x800) 12) 12) c)) (S p)).
  { unfold at_word. cbn [pc set_pc]. rewrite Hc, to_uint64_idemp. f_equal. lia. }
  split_and!; [exact Hpc| | |by rewrite Hpc, (Hm _ _ Hn')].
  - change (reg (set_pc ?z ?c) ?r) with (reg c r). rewrite reg_set_reg, decide_True by done. rewrite to_uint64_idemp, Hc.
    rewrite <- Z.add_assoc, halves, to_uint64_idemp. f_equal. unfold off, dst. lia.
  - intros r' Hne. change (reg (set_pc ?z ?c) ?r) with (reg c r). by rewrite reg_set_reg, decide_False.
Qed.

End Run.

(** ** Code in memory *)

(** The code of [g] at the address [base]. *)
Definition holds_code `{Memory} (g : Gen) (base : Z) (m : mem) : Prop :=
  forall off w, read32 (m_code g) off = Ok w -> mem_read 4 (to_uint64 (base + Z.of_nat off)) m = Some w.

(** The bytes of [code] at the address [base]. *)
Definition holds_bytes `{Memory} (code : list Z) (base : Z) (m : mem) : Prop :=
  forall n off bytes, Wire.memcpy code off n = Ok bytes -> mem_read n (to_uint64 (base + Z.of_nat off)) m = Some (Wire.of_bytes bytes).

Lemma holds_bytes_code `{Memory} g base m : holds_bytes (m_code g) base m -> holds_code g base m.
Proof. intros Hm off w. unfold read32. intros (bytes & Hc & [= <-])%obind_Ok. by apply Hm. Qed.

(** The bytes of [code] in a memory of their own. *)
Definition flat_image (base : Z) (code : list Z) : gmap Z Z := list_to_map (zip (seqZ base (Z.of_nat (length code))) code).

Lemma flat_image_lookup base code j b : code !! j = Some b -> flat_image base code !! (base + Z.of_nat j)%Z = Some b.
Proof.
  intros Hj. pose proof (lookup_lt_Some _ _ _ Hj). apply elem_of_list_to_map_1.
  - rewrite fst_zip by (rewrite length_seqZ; lia). apply NoDup_seqZ.
  - apply list_elem_of_lookup. exists j. apply lookup_zip_with_Some. exists (base + Z.of_nat j)%Z, b. split_and!; [done| |done].
    apply lookup_seqZ. lia.
Qed.

Lemma flat_image_holds base code :
  (0 <= base)%Z -> (base + Z.of_nat (length code) <= 2 ^ 64)%Z -> @holds_bytes flat_memory code base (flat_image base code).
Proof.
  intros Hb Hlen n off bytes. unfold Wire.memcpy. destruct (decide _) as [Hd|]; [|done]. intros [= <-].
  cbn [mem_read flat_memory]. assert (mapM (fun i => flat_image base code !! (to_uint64 (base + Z.of_nat off) + Z.of_nat i)%Z) (seq 0 n)
    = Some (take n (drop off code))) as ->; [|done].
  apply mapM_Some_2, Forall2_same_length_lookup. split; [rewrite length_seq, length_take, length_drop; lia|].
  intros i j b Hi Hj. apply lookup_seq in Hi as [-> Hi]. rewrite lookup_take, lookup_drop in Hj. rewrite decide_True in Hj by lia.
  rewrite to_uint64_id by lia. rewrite <- (flat_image_lookup base code (off + i) b Hj). f_equal. lia.
Qed.

(** ** Branches and jumps of the program *)

Section Reach.

Context `{Memory} `{Config}.
Context (g g1 g2 g3 : Gen) (at_ : nat -> nat).
Context (He : emitted g) (Hrl : relocated g g1 at_) (Hend : closed g) (Hfl : followed g1 g2) (Hres : resolve_labels g2 = Ok g3).

Context (base : Z) (m : mem) (Hbase : (base mod 4 = 0)%Z) (Hm : holds_code g3 base m).
Context (i : nat) (use : LabelUse) (k : nat) (w : Z) (target : nat).
Context (Hi : m_label_uses g !! i = Some use) (Hk : code_offset use = 4 * k) (Hread : read32 (m_code g) (4 * k) = Ok w).
Context (Ht : label_offset g (label use) = Some target) (Ha : (addend use mod 4 = 0)%Z).

Let dst : Z := base + (Z.of_nat (at_ (target / 4)) + addend use).
Let here : Z := base + Z.of_nat (at_ k).
Let next : Z := base + Z.of_nat (at_ (S k)).

Lemma linked_label : label_offset g2 (label use) = Some (at_ (target / 4)).
Proof.
  destruct (use_instruction g He Hend i use Hi) as (_ & _ & _ & _ & Hl & _).
  apply (fl_labels _ _ Hfl); [done|]. by apply (rl_labels _ _ _ Hrl).
Qed.

Lemma dst_aligned : ((Z.of_nat (at_ (target / 4)) + addend use) mod 4 = 0)%Z.
Proof. destruct (rl_aligned _ _ _ Hrl (target / 4)) as [p ->]. Z.to_euclidean_division_equations; lia. Qed.

(** The words of the instruction. *)
Lemma linked_instruction : exists ws ws' gr n p,
  (Forall is_word ws /\ m_code g1 = code_of ws) /\ resolved (m_label_names g2) (label_offset g2) (m_label_uses g1) ws ws'
  /\ (forall q v, ws' !! q = Some v -> mem_read 4 (to_uint64 (base + Z.of_nat (4 * q))) m = Some v)
  /\ RelaxationSound.form w gr n /\ at_ k = 4 * p /\ at_ (S k) = 4 * (p + length gr) /\ (forall j v, gr !! j = Some v -> ws !! (p + j) = Some v)
  /\ m_label_uses g1 !! i = Some (mkUse (label use) (4 * (p + n)) (addend use))
  /\ (n = 1 -> exists j l, m_label_uses g1 !! j = Some (mkUse l (4 * p) 0) /\ label_offset g2 l = Some (at_ (S k))).
Proof.
  clear dst Ht Ha target.
  destruct (linked_words g g1 at_ He Hrl Hend g2 g3 Hfl Hres) as (ws & ws' & tail & Ec & Ec3 & Hws & Hr).
  rewrite <- Hk in Hread. destruct (rl_use _ _ _ Hrl i use w Hi Hread) as (k' & gr & n & Ek & Hf & Es & Hgr & Hi1 & Hs).
  assert (k' = k) as -> by lia. destruct (rl_aligned _ _ _ Hrl k) as [p Ep]. exists ws, ws', gr, n, p.
  split_and!; [done|done|done| |done|done|lia| | |].
  - intros q v Hq. apply Hm. rewrite Ec3. apply read32_front; [done|]. by eapply Forall_lookup_1; [apply (rs_words _ _ _ _ _ Hr)|].
  - intros j v Hj. apply read32_of_words; [done|]. rewrite <- Ec. replace (4 * (p + j)) with (at_ k + 4 * j) by lia. by apply Hgr.
  - rewrite Hi1. do 2 f_equal. lia.
  - intros E1. destruct (Hs E1) as (j & l & Hj & Hl & Hlab). exists j, l. rewrite <- Ep. split; [done|]. by apply (fl_labels _ _ Hfl).
Qed.

(** Left for [d], with the registers as they were but for t6. *)
Definition went (c : Cpu) (d : Z) : Prop :=
  exists n c', 0 < n <= 3 /\ steps n c m = Next c' m /\ pc c' = to_uint64 d /\ forall r, r <> REG_WIDE_SCRATCH -> reg c' r = reg c r.

Lemma went_one c d : step_one c m = Next (set_pc d c) m -> went c d.
Proof. intros E. exists 1, (set_pc d c). cbn [steps]. rewrite E. split_and!; [lia|lia|done|done|done]. Qed.

(** One instruction more. *)
Lemma went_more c d c1 n c' :
  step_one c m = Next (set_pc d c) m -> c1 = set_pc d c -> steps n c1 m = Next c' m -> steps (S n) c m = Next c' m.
Proof. intros E -> Hs. cbn [steps]. by rewrite E. Qed.

Lemma jump_not_branch v : is_jump v = true -> is_branch v = false.
Proof. unfold is_jump, is_branch. intros E%Z.eqb_eq. by rewrite E. Qed.

Lemma branch_reaches c :
  is_branch w = true -> branch_format (branch_funct3 w) -> pc c = to_uint64 here ->
  went c (if holds (branch_funct3 w) (reg c (source1 w)) (reg c (source2 w)) then dst else next).
Proof.
  intros Hb Hf Hc. destruct linked_instruction as (ws & ws' & gr & n & p & [Hws Ec] & Hr & Hmem & Hform & Ep & Es & Hgr & Hu & Hskip).
  pose proof linked_label as Hlab. pose proof dst_aligned as Hal. unfold here, next in *. rewrite Ep in Hc.
  assert (Hcond : (gr = [w] /\ n = 0) \/ n = 1 /\ gr !! 0 = Some (inverse w) /\ (gr = [inverse w; 0x6F%Z] \/ gr = [inverse w; far_base; far_jump 0x6F])).
  { destruct Hform as [|_|_|Hj]; [by left|right; by auto|right; by auto|]. by rewrite jump_not_branch in Hb. }
  destruct Hcond as [[-> ->]|(-> & Hinv & Hcond)].
  { apply went_one. pose proof (Hgr 0 w eq_refl) as Hw. rewrite Nat.add_0_r in Hu, Hw.
    rewrite (run_branch _ _ _ _ _ Hr base m Hbase Hmem i _ p _ w Hu eq_refl Hw Hlab Hal c Hb Hf Hc). cbn [addend]. rewrite Es.
    do 2 f_equal. destruct (holds _ _ _); [done|]. f_equal. cbn [length]. lia. }
  (* the inverse branch, over the rest *)
  destruct (Hskip eq_refl) as (j & l & Hj & Hl). pose proof (Hgr 0 _ Hinv) as Hw. rewrite Nat.add_0_r in Hw.
  destruct (inverse_fields w) as (E3 & E1 & E2). assert (is_branch (inverse w) = true) as Hbi by (unfold is_branch; fold (op (inverse w)); by rewrite op_inverse).
  pose proof (run_branch _ _ _ _ _ Hr base m Hbase Hmem j _ p _ (inverse w) Hj eq_refl Hw Hl) as Hrun.
  cbn [addend] in Hrun. specialize (Hrun ltac:(rewrite Es; Z.to_euclidean_division_equations; lia) c Hbi).
  rewrite E3, E1, E2 in Hrun. specialize (Hrun (branch_format_inverse _ Hf) Hc). rewrite holds_inverse in Hrun by done.
  destruct (holds _ _ _); cbn [negb] in Hrun.
  2: { rewrite Z.add_0_r in Hrun. by apply went_one. }
  set (c1 := set_pc (base + Z.of_nat (4 * S p)) c) in *. assert (at_word base c1 (p + 1)) as Hc1.
  { unfold c1, at_word. cbn [pc set_pc]. do 2 f_equal. lia. }
  destruct Hcond as [->| ->].
  - (* a jump *)
    pose proof (Hgr 1 _ eq_refl) as Hw1.
    pose proof (run_jump _ _ _ _ _ Hr base m Hbase Hmem i _ (p + 1) _ 0x6F Hu eq_refl Hw1 Hlab Hal c1 eq_refl Hc1) as Hjump.
    exists 2. eexists. cbn [steps]. rewrite Hrun, Hjump. split_and!; [lia|lia|done|done|done].
  - (* a far jump *)
    pose proof (Hgr 1 _ eq_refl) as Hw1. pose proof (Hgr 2 _ eq_refl) as Hw2. replace (p + 2) with (S (p + 1)) in Hw2 by lia.
    destruct (run_far _ _ _ _ _ Hr base m Hbase Hmem i _ (p + 1) _ far_base Hu eq_refl Hw1 Hlab Hal 0x6F c1 eq_refl Hw2 Hc1)
      as (c' & Hs & Hpc & _ & Hk').
    exists 3, c'. split_and!; [lia|lia| |done|].
    + by eapply went_more.
    + intros r Hne. rewrite Hk' by done. done.
Qed.

Lemma jump_reaches c :
  is_jump w = true -> pc c = to_uint64 here ->
  exists n c', 0 < n <= 2 /\ steps n c m = Next c' m /\ pc c' = to_uint64 dst
    /\ (target_register w <> 0%Z -> reg c' (target_register w) = to_uint64 next)
    /\ forall r, r <> REG_WIDE_SCRATCH -> (target_register w <> 0%Z -> r <> target_register w) -> reg c' r = reg c r.
Proof.
  intros Hj Hc. destruct linked_instruction as (ws & ws' & gr & n & p & [Hws Ec] & Hr & Hmem & Hform & Ep & Es & Hgr & Hu & Hskip).
  pose proof linked_label as Hlab. pose proof dst_aligned as Hal. unfold here, next in *. rewrite Ep in Hc. rewrite Es.
  pose proof (jump_not_branch w Hj) as Hnb.
  destruct Hform as [|Hb|Hb|_]; [|congruence|congruence|]; rewrite Nat.add_0_r in Hu; pose proof (Hgr 0 _ eq_refl) as Hw; rewrite Nat.add_0_r in Hw.
  - pose proof (run_jump _ _ _ _ _ Hr base m Hbase Hmem i _ p _ w Hu eq_refl Hw Hlab Hal c Hj Hc) as Hrun.
    exists 1. eexists. cbn [steps]. rewrite Hrun. split_and!; [lia|lia|done|done| |].
    + intros Hne. unfold link. rewrite (proj2 (Z.eqb_neq _ 0) Hne). change (reg (set_pc ?z ?c) ?r) with (reg c r).
      rewrite reg_set_reg, decide_True by done. do 2 f_equal. cbn [length]. lia.
    + intros r _ Hr'. unfold link. destruct (Z.eqb_spec (target_register w) 0) as [|Hne]; [done|].
      change (reg (set_pc ?z ?c) ?r) with (reg c r). by rewrite reg_set_reg, decide_False by auto.
  - pose proof (Hgr 1 _ eq_refl) as Hw1. rewrite Nat.add_1_r in Hw1.
    destruct (run_far _ _ _ _ _ Hr base m Hbase Hmem i _ p _ far_base Hu eq_refl Hw Hlab Hal w c eq_refl Hw1 Hc)
      as (c' & Hs & Hpc & Hlink & Hkept).
    exists 2, c'. split_and!; [lia|lia|done|done|exact Hlink|exact Hkept].
Qed.

(** An AUIPC with its ADDI or load, up to the second. *)
Lemma upper_runs o f3 t c :
  let r := target_register w in let off := (Z.of_nat t - Z.of_nat (at_ k) + addend use)%Z in
  op w = 0x17%Z -> (0 < r)%Z -> read32 (m_code g) (4 * S k) = Ok (I_word o r f3 r 0) -> (o = 0x03 \/ o = 0x13 /\ f3 = 0)%Z ->
  in_bits 3 f3 -> f3 <> 4%Z -> Forall (fun use => code_offset use <> 4 * S k) (m_label_uses g) ->
  label_offset g2 (label use) = Some t -> (- 2 ^ 31 <= off < 2 ^ 31 - 2 ^ 11)%Z -> pc c = to_uint64 here ->
  exists c1, step_one c m = Next c1 m /\ to_uint64 (pc c1 + 4) = to_uint64 (base + Z.of_nat (at_ (S (S k))))
    /\ to_uint64 (reg c1 r + wraps 12 off) = to_uint64 (base + (Z.of_nat t + addend use))
    /\ (forall r', r' <> r -> reg c1 r' = reg c r') /\ mem_read 4 (pc c1) m = Some (I_word o r f3 r (wraps 12 off)).
Proof.
  clear dst Ht Ha target. intros r off Ho Hr0 Hread1 Hof H3 H4 Hfree Ht2 Hrange Hc.
  destruct (rl_plain _ _ _ Hrl (S k) _ Hread1 Hfree) as [Es1 Hnext].
  assert (read32 (m_code g1) (at_ (S k)) = Ok (I_word o r f3 r 0)) as Hr1.
  { destruct Hnext as [?|(_ & Hf & _)]; [done|]. pose proof (land_5 (Z.shiftr w 7)) as Hr. fold (target_register w) r in Hr.
    destruct (I_decodes o r f3 r 0 ltac:(unfold in_bits; lia) Hr H3 Hr) as (_ & _ & Ef & _).
    change (RelaxationSound.funct3 (I_word o r f3 r 0) = f3) in Ef. congruence. }
  destruct linked_instruction as (ws & ws' & gr & n & p & [Hws Ec] & Hr & Hmem & Hform & Ep & Es & Hgr & Hu & _).
  assert (gr = [w] /\ n = 0) as [-> ->].
  { unfold op in Ho. destruct Hform as [|Hb|Hb|Hb]; [done|..]; unfold is_branch, is_jump in Hb; by rewrite Ho in Hb. }
  pose proof (Hgr 0 w eq_refl) as Hw. rewrite Nat.add_0_r in Hu, Hw. cbn [length] in Es. rewrite Nat.add_1_r in Es.
  assert (ws !! S p = Some (I_word o r f3 r 0)) as Hn.
  { apply read32_of_words; [done|]. by rewrite <- Ec, <- Es. }
  unfold here in Hc. unfold off in *. rewrite Ep in Hc, Hrange |- *.
  destruct (run_upper _ _ _ _ _ Hr base m Hmem i _ p t w Hu eq_refl Hw Ht2 o f3 c Ho Hr0 Hn Hof H3 Hrange Hc)
    as (c1 & Hs & Hpc & Hreg & Hoth & Hnx).
  exists c1. split_and!; [done| |done|done|done]. rewrite Hpc, to_uint64_idemp. f_equal. lia.
Qed.

(** The address an AUIPC and its ADDI make. *)
Lemma address_reaches t c :
  let r := target_register w in let off := (Z.of_nat t - Z.of_nat (at_ k) + addend use)%Z in
  op w = 0x17%Z -> (0 < r)%Z -> read32 (m_code g) (4 * S k) = Ok (I_word 0x13 r 0 r 0) ->
  Forall (fun use => code_offset use <> 4 * S k) (m_label_uses g) ->
  label_offset g2 (label use) = Some t -> (- 2 ^ 31 <= off < 2 ^ 31 - 2 ^ 11)%Z -> zero_is_zero c -> pc c = to_uint64 here ->
  exists c', steps 2 c m = Next c' m /\ pc c' = to_uint64 (base + Z.of_nat (at_ (S (S k))))
    /\ reg c' r = to_uint64 (base + (Z.of_nat t + addend use)) /\ forall r', r' <> r -> reg c' r' = reg c r'.
Proof.
  clear dst Ht Ha target. intros r off Ho Hr0 Hread1 Hfree Ht2 Hrange Hz Hc. pose proof (land_5 (Z.shiftr w 7)) as Hr. fold (target_register w) r in Hr.
  destruct (upper_runs 0x13 0 t c Ho Hr0 Hread1 ltac:(by right) ltac:(done) ltac:(done) Hfree Ht2 Hrange Hc) as (c1 & Hs & Hpc & Hreg & Hoth & Hnx).
  fold r off in Hreg, Hoth, Hnx. assert (zero_is_zero c1) as Hz1 by (unfold zero_is_zero; rewrite Hoth by lia; done).
  exists (increment_pc (set_reg r (reg c1 r + wraps 12 off) c1)). cbn [steps]. rewrite Hs. unfold step_one at 1.
  rewrite Hnx, execute_addi by (done || apply wraps_12_fits || unfold in_bits in Hr; lia). split_and!; [done|exact Hpc| |].
  - rewrite reg_increment_pc, reg_set_reg, decide_True by done. exact Hreg.
  - intros r' Hne. rewrite reg_increment_pc, reg_set_reg, decide_False by done. by apply Hoth.
Qed.

(** The word an AUIPC and its LD read. *)
Lemma constant_reaches t c :
  let r := target_register w in let off := (Z.of_nat t - Z.of_nat (at_ k) + addend use)%Z in
  op w = 0x17%Z -> (0 < r)%Z -> read32 (m_code g) (4 * S k) = Ok (I_word 0x03 r 3 r 0) ->
  Forall (fun use => code_offset use <> 4 * S k) (m_label_uses g) ->
  label_offset g2 (label use) = Some t -> (- 2 ^ 31 <= off < 2 ^ 31 - 2 ^ 11)%Z -> pc c = to_uint64 here ->
  match mem_read 8 (to_uint64 (base + (Z.of_nat t + addend use))) m with
  | None => steps 2 c m = Trap PROTECTION_FAULT
  | Some v => exists c', steps 2 c m = Next c' m /\ pc c' = to_uint64 (base + Z.of_nat (at_ (S (S k))))
      /\ reg c' r = to_uint64 (to_int64 v) /\ forall r', r' <> r -> reg c' r' = reg c r'
  end.
Proof.
  clear dst Ht Ha target. intros r off Ho Hr0 Hread1 Hfree Ht2 Hrange Hc. pose proof (land_5 (Z.shiftr w 7)) as Hr. fold (target_register w) r in Hr.
  destruct (upper_runs 0x03 3 t c Ho Hr0 Hread1 ltac:(by left) ltac:(done) ltac:(done) Hfree Ht2 Hrange Hc) as (c1 & Hs & Hpc & Hreg & Hoth & Hnx).
  fold r off in Hreg, Hoth, Hnx. cbn [steps]. rewrite Hs. unfold step_one.
  rewrite Hnx, (execute_load 3 64 true), Hreg by (done || apply wraps_12_fits || unfold in_bits in Hr; lia).
  change (Z.to_nat (64 / 8)) with 8. destruct (mem_read 8 _ m) as [v|]; [|done]. eexists. split; [done|]. split_and!.
  - exact Hpc.
  - rewrite reg_increment_pc, reg_set_reg, decide_True by done. done.
  - intros r' Hne. rewrite reg_increment_pc, reg_set_reg, decide_False by done. by apply Hoth.
Qed.

End Reach.

(** The relaxed, followed and resolved code of [g]. *)
Definition linked (g g1 g3 : Gen) : Prop :=
  exists g2, relax_branches g = Ok g1 /\ followed g1 g2 /\ resolve_labels g2 = Ok g3.

(** C34: Linked branches and jumps reach their labels.  Code that was emitted,
    relaxed and resolved is executed by the sandbox at any aligned address; from
    where relaxation put an instruction that uses a label, at most three
    instructions later the program counter is at the label when the condition
    holds and at the next instruction when it does not, whatever form the
    instruction was given; a call leaves the next instruction's address in its
    register, and no other register but t6 has changed. *)
Theorem linked_branches_reach `{Memory} `{Config} (g g1 g3 : Gen) :
  emitted g -> fits g -> closed g -> linked g g1 g3 ->
  exists at_, relocated g g1 at_ /\
  forall base m, (base mod 4 = 0)%Z -> holds_code g3 base m ->
  forall i use k w target c,
    m_label_uses g !! i = Some use -> code_offset use = 4 * k -> read32 (m_code g) (4 * k) = Ok w ->
    label_offset g (label use) = Some target -> (addend use mod 4 = 0)%Z ->
    pc c = to_uint64 (base + Z.of_nat (at_ k)) ->
    let aim := (base + (Z.of_nat (at_ (target / 4)%nat) + addend use))%Z in
    let next := (base + Z.of_nat (at_ (S k)))%Z in
    (is_branch w = true -> branch_format (branch_funct3 w) ->
     exists n c', 0 < n <= 3 /\ steps n c m = Next c' m
       /\ pc c' = to_uint64 (if holds (branch_funct3 w) (reg c (source1 w)) (reg c (source2 w)) then aim else next)
       /\ forall r, r <> REG_WIDE_SCRATCH -> reg c' r = reg c r)
    /\ (is_jump w = true ->
     exists n c', 0 < n <= 2 /\ steps n c m = Next c' m /\ pc c' = to_uint64 aim
       /\ (target_register w <> 0%Z -> reg c' (target_register w) = to_uint64 next)
       /\ forall r, r <> REG_WIDE_SCRATCH -> (target_register w <> 0%Z -> r <> target_register w) -> reg c' r = reg c r).
Proof.
  intros He Hf Hend (g2 & Hrun & Hfl & Hres). destruct (relocation g g1 He Hf Hrun) as (at_ & Hrl). exists at_. split; [done|].
  intros base m Hbase Hm i use k w target c Hi Hk Hread Ht Ha Hc. split.
  - intros Hb Hbf. by eapply (branch_reaches g g1 g2 g3 at_).
  - intros Hj. by eapply (jump_reaches g g1 g2 g3 at_).
Qed.

(** ** Witnesses *)

Lemma followed_refl g : followed g g.
Proof. constructor; [exists []; by rewrite app_nil_r|done|done]. Qed.

Section Samples.
#[local] Existing Instance flat_memory.
#[local] Instance uncompressed : Config := {| compressed_enabled := false |}.

(** The far branch of [sample], taken. *)
Lemma linked_branches_reach_witness :
  exists g1 g3 at_ n c', linked sample_gen g1 g3 /\ relocated sample_gen g1 at_
    /\ steps n (mkCpu ∅ 0x10000) (flat_image 0x10000 (m_code g3)) = Next c' (flat_image 0x10000 (m_code g3))
    /\ pc c' = to_uint64 (0x10000 + (Z.of_nat (at_ 10) + 8000)).
Proof.
  destruct (relax_branches sample_gen) as [g1|e] eqn:E; [|vm_compute in E; discriminate E].
  destruct (resolve_labels g1) as [g3|e] eqn:E3; [|vm_compute in E; injection E as <-; vm_compute in E3; discriminate E3].
  assert (length (m_code g3) = length (m_code g1)) as Hlen by (vm_compute in E; injection E as <-; vm_compute in E3; injection E3 as <-; reflexivity).
  assert (linked sample_gen g1 g3) as Hl by (exists g1; split_and!; [exact E|apply followed_refl|exact E3]).
  destruct (linked_branches_reach sample_gen g1 g3) as (at_ & Hr & H); [exact sample_emitted|exact sample_fits| |exact Hl|].
  { unfold closed. apply (bool_decide_unpack _). vm_compute. exact I. }
  assert (holds_code g3 0x10000 (flat_image 0x10000 (m_code g3))) as Hm.
  { apply holds_bytes_code, flat_image_holds; [discriminate|]. vm_compute in E. injection E as <-. vm_compute in E3. injection E3 as <-.
    vm_compute. discriminate. }
  destruct (H 0x10000%Z _ eq_refl Hm 0 (mkUse 1 0 8000) 0 (B_word 0x63 0 5 6 0) 40 (mkCpu ∅ 0x10000)) as [Hb _];
    [vm_compute; reflexivity..|rewrite (rl_start _ _ _ Hr); vm_compute; reflexivity|].
  destruct Hb as (n & c' & _ & Hs & Hpc & _); [reflexivity|apply elem_of_cons; left; vm_compute; reflexivity|].
  assert (holds (branch_funct3 (B_word 0x63 0 5 6 0)) (reg (mkCpu ∅ 0x10000) (source1 (B_word 0x63 0 5 6 0)))
    (reg (mkCpu ∅ 0x10000) (source2 (B_word 0x63 0 5 6 0))) = true) as Hc by (vm_compute; reflexivity).
  rewrite Hc in Hpc. cbn [addend] in Hpc. change (40 / 4) with 10 in Hpc.
  exists g1, g3, at_, n, c'. split; [exact Hl|]. split; [exact Hr|]. split; [exact Hs|exact Hpc].
Defined.

End Samples.

End Linking.
