(* ===== verification/Pools.v ===== *)
(** * The pools behind the code

    [place_constants] and [place_strings] put the constant pool and the strings
    behind relaxed code and define their labels.  The labels the code had keep
    their offsets, and the code of a 64-bit constant, linked and executed, loads
    the constant from the pool. *)

From stdpp Require Import pretty.
From S2P Require Import Prelude.
From S2P Require Import Wire.
From S2P Require Import IR.
From S2P Require Import LineTable.
From S2P Require Import Libriscv.
From S2P Require Import RISCVCodeGen.
From S2P Require Import Encoding.
From S2P Require Import Relaxation.
From S2P Require Import RelaxationSound.
From S2P Require Import Assembly.
From S2P Require Import Resolution.
From S2P Require Import Branching.
From S2P Require Import Linking.

Module Pools.
Import Libriscv.
Import RISCVCodeGen.
Import Encoding.
Import Relaxation.
Import Assembly.
Import Resolution.
Import Branching.
Import Linking.

Local Open Scope nat_scope.

(** ** Named offsets *)

(** The table of names is sound, and no id past it has an offset. *)
Record tidy (g : Gen) : Prop := {
  td_names : IRStringTable.wf (m_label_names g);
  td_labels : forall id off, (0 <= id)%Z -> label_offset g id = Some off -> (id < Z.of_nat (names_count g))%Z
}.

Definition names_label (g : Gen) (name : string) (off : nat) : Prop :=
  exists id, (0 <= id)%Z /\ IRStringTable.m_ids (m_label_names g) !! name = Some id /\ label_offset g id = Some off.

(** [g'] is [g] with more names, offsets for the names of [fresh], and bytes. *)
Record placed_pools (fresh : string -> Prop) (bytes : list Z) (g g' : Gen) : Prop := {
  pp_code : m_code g' = m_code g ++ bytes;
  pp_uses : m_label_uses g' = m_label_uses g;
  pp_ids : forall name id, IRStringTable.m_ids (m_label_names g) !! name = Some id -> IRStringTable.m_ids (m_label_names g') !! name = Some id;
  pp_kept : forall name off, ~ fresh name -> names_label g name off -> names_label g' name off;
  pp_constants : m_constant_pool g' = m_constant_pool g;
  pp_strings : m_rodata_strings g' = m_rodata_strings g
}.

Lemma placed_pools_trans (P Q : string -> Prop) b1 b2 g1 g2 g3 :
  placed_pools P b1 g1 g2 -> placed_pools Q b2 g2 g3 -> placed_pools (fun n => P n \/ Q n) (b1 ++ b2) g1 g3.
Proof.
  intros [C1 U1 I1 K1 N1 S1] [C2 U2 I2 K2 N2 S2]. constructor.
  - by rewrite C2, C1, <- app_assoc.
  - congruence.
  - eauto.
  - intros name off Hn H. apply K2; [naive_solver|]. apply K1; [naive_solver|done].
  - congruence.
  - congruence.
Qed.

Lemma placed_pools_weaken (P Q : string -> Prop) b g g' : (forall n, P n -> Q n) -> placed_pools P b g g' -> placed_pools Q b g g'.
Proof. intros HPQ []. constructor; eauto. Qed.

Lemma placed_pools_refl P g : placed_pools P [] g g.
Proof. constructor; try done. by rewrite app_nil_r. Qed.

Lemma placed_pools_append P b g : tidy g -> placed_pools P b g (set_code (m_code g ++ b) g) /\ tidy (set_code (m_code g ++ b) g).
Proof. intros []. by split; constructor. Qed.

(** A label defined by name. *)
Lemma place_label name off g :
  tidy g -> (Z.of_nat (names_count g) < 2 ^ 32)%Z ->
  exists g', (let* id := label_id name in set_label id off) g = (g', Ok tt) /\ tidy g'
    /\ placed_pools (eq name) [] g g' /\ names_label g' name off /\ names_count g' <= S (names_count g).
Proof.
  intros [Hwf Hl] Hroom. pose proof (IRStringTable.intern_spec (m_label_names g) name Hwf Hroom) as Hspec.
  unfold mbind, label_id. destruct (IRStringTable.intern (m_label_names g) name) as [t id] eqn:E.
  destruct Hspec as (Hwf' & Hid & Ht & Hkept). set (g0 := set_labels t (m_label_offsets g) (m_label_uses g) g).
  assert (Hoff : forall i, (0 <= i)%Z -> label_offset (set_label id off g0).1 i = if decide (i = id) then Some off else label_offset g i).
  { intros i Hi. by rewrite label_offset_set_label. }
  assert (Hname : IRStringTable.m_ids t !! name = Some id) by (apply Hwf'; done).
  assert (Hids : forall n i, IRStringTable.m_ids (m_label_names g) !! n = Some i -> IRStringTable.m_ids t !! n = Some i).
  { intros n i Hn. apply Hwf in Hn as [Hi Hn]. apply Hwf'. split; [done|]. by apply Hkept. }
  assert (Hcount : names_count g <= length (IRStringTable.m_strings t) <= S (names_count g)).
  { unfold IRStringTable.intern in E. unfold names_count. destruct (_ !! name); injection E as <- _; [lia|]. cbn. rewrite length_app. cbn. lia. }
  exists (set_label id off g0).1. split_and!; [done|constructor; [done|]|constructor; try done| |exact (proj2 Hcount)].
  - intros i o Hi Ho. rewrite Hoff in Ho by done. unfold names_count. change (m_label_names (set_label id off g0).1) with t.
    destruct (decide (i = id)) as [->|Hne]; [apply lookup_lt_Some in Ht; lia|]. specialize (Hl i o Hi Ho). lia.
  - cbn. by rewrite app_nil_r.
  - intros n o Hne (i & Hi & Hn & Ho). exists i. split_and!; [done|by apply Hids|]. rewrite Hoff by done.
    rewrite decide_False; [done|]. intros ->. apply Hne. apply Hids, Hwf' in Hn as [_ Hn]. rewrite Ht in Hn. by injection Hn.
  - exists id. split_and!; [done|done|]. by rewrite Hoff, decide_True.
Qed.

(** Placed pools follow code whose labels are not named like theirs. *)
Lemma placed_followed P b g g' :
  tidy g -> placed_pools P b g g' -> (forall name off, P name -> ~ names_label g name off) -> followed g g'.
Proof.
  intros [Hwf Hl] [Hc Hu Hi Hk _ _] Hfresh. constructor; [by exists b|done|]. intros id off Hid Hoff.
  pose proof (Hl id off Hid Hoff) as Hlt. unfold names_count in Hlt.
  destruct (lookup_lt_is_Some_2 (IRStringTable.m_strings (m_label_names g)) (Z.to_nat id)) as [name Hname]; [lia|].
  assert (IRStringTable.m_ids (m_label_names g) !! name = Some id) as Hids by (by apply Hwf).
  assert (names_label g name off) as Hn by (by exists id).
  destruct (Hk name off) as (id' & _ & E & Ho); [intros HP; by apply (Hfresh name off)|done|]. rewrite (Hi _ _ Hids) in E. by injection E as ->.
Qed.

(** ** Constants *)

Definition constant_label (i : nat) : string := ".LC" +:+ pretty i.

Lemma constant_label_inj i j : constant_label i = constant_label j -> i = j.
Proof. unfold constant_label. intros E%(inj (String.app ".LC")). by apply (inj pretty) in E. Qed.

Lemma place_labels (base : nat) l g :
  tidy g -> NoDup l -> (Z.of_nat (names_count g + length l) < 2 ^ 32)%Z ->
  exists g', fold_right (fun i rest => (let* id := label_id (constant_label i) in set_label id (base + i * 8)) ;;; rest) (mret tt) l g = (g', Ok tt)
    /\ tidy g' /\ placed_pools (fun n => exists i, i ∈ l /\ n = constant_label i) [] g g'
    /\ (forall i, i ∈ l -> names_label g' (constant_label i) (base + i * 8)) /\ names_count g' <= names_count g + length l.
Proof.
  revert g. induction l as [|i l IH]; intros g Ht Hnd Hroom; cbn [fold_right length] in *.
  { exists g. split_and!; [done|done|apply placed_pools_refl| |lia]. intros i Hi. by apply elem_of_nil in Hi. }
  apply NoDup_cons in Hnd as [Hi Hnd]. destruct (place_label (constant_label i) (base + i * 8) g Ht ltac:(lia)) as (g1 & E & Ht1 & Hp1 & Hn1 & Hc1).
  destruct (IH g1 Ht1 Hnd ltac:(lia)) as (g2 & E2 & Ht2 & Hp2 & Hn2 & Hc2). unfold mbind at 1. rewrite E, E2.
  exists g2. split_and!; [done|done| | |lia].
  - eapply placed_pools_weaken; [|exact (placed_pools_trans _ _ _ _ _ _ _ Hp1 Hp2)]. intros n [<-|(j & Hj & ->)].
    + exists i. split; [by left|done].
    + exists j. split; [by right|done].
  - intros j [->|Hj]%elem_of_cons; [|by apply Hn2]. apply (pp_kept _ _ _ _ Hp2); [|done].
    intros (j' & Hj' & E'). apply constant_label_inj in E' as ->. done.
Qed.

Lemma constant_bytes n v : map (fun i => Z.land (Z.shiftr v (Z.of_nat i * 8)) 0xFF) (seq 0 n) = Wire.write_scalar n v.
Proof.
  revert v. induction n as [|n IH]; intros v; [done|]. cbn [seq map Wire.write_scalar]. f_equal.
  - rewrite Z.shiftr_0_r. change 0xFF%Z with (Z.ones 8). by rewrite Z.land_ones.
  - rewrite <- (IH (v / 256)%Z), <- seq_shift, map_map. apply map_ext. intros i. f_equal.
    rewrite !Z.shiftr_div_pow2 by lia. change 256%Z with (2 ^ 8)%Z. rewrite Z.div_div by lia. f_equal. rewrite <- Z.pow_add_r by lia. f_equal. lia.
Qed.

Definition constants_bytes (constants : list Z) : list Z := concat (map (Wire.write_scalar 8) constants).

Lemma place_constants_spec g :
  tidy g -> (Z.of_nat (names_count g + length (m_constant_pool g)) < 2 ^ 32)%Z ->
  exists g', place_constants g = (g', Ok tt) /\ tidy g'
    /\ placed_pools (fun n => exists i, i < length (m_constant_pool g) /\ n = constant_label i) (constants_bytes (m_constant_pool g)) g g'
    /\ (forall i, i < length (m_constant_pool g) -> names_label g' (constant_label i) (length (m_code g) + i * 8))
    /\ names_count g' <= names_count g + length (m_constant_pool g).
Proof.
  intros Ht Hroom. set (cs := m_constant_pool g).
  destruct (place_labels (length (m_code g)) (seq 0 (length cs)) g Ht) as (g1 & E & Ht1 & Hp1 & Hn1 & Hc1); [apply NoDup_seq|by rewrite length_seq|].
  rewrite length_seq in Hc1. destruct (placed_pools_append (fun _ => False) (constants_bytes cs) g1 Ht1) as [Hp2 Ht2].
  exists (set_code (m_code g1 ++ constants_bytes cs) g1). split_and!.
  - unfold place_constants, mbind at 1, offset_of_code. unfold mbind at 1, mget. fold cs. unfold mbind at 1. fold (constant_label).
    change (fun (i : nat) (rest : Emit unit) => (let* id := label_id (".LC" +:+ pretty i) in set_label id (length (m_code g) + i * 8)) ;;; rest)
      with (fun (i : nat) (rest : Emit unit) => (let* id := label_id (constant_label i) in set_label id (length (m_code g) + i * 8)) ;;; rest).
    rewrite E. unfold append_bytes, mmodify. unfold constants_bytes.
    rewrite (map_ext (Wire.write_scalar 8) _ (fun v => eq_sym (constant_bytes 8 v))). done.
  - done.
  - eapply placed_pools_weaken; [|exact (placed_pools_trans _ _ _ _ _ _ _ Hp1 Hp2)]. cbn. intros n [(i & Hi & ->)|[]].
    apply elem_of_seq in Hi. exists i. split; [fold cs; lia|done].
  - intros i Hi. apply (pp_kept _ _ _ _ Hp2); [tauto|]. apply Hn1, elem_of_seq. lia.
  - exact Hc1.
Qed.

Lemma length_constants_bytes cs : length (constants_bytes cs) = length cs * 8.
Proof.
  unfold constants_bytes. induction cs as [|x cs IH]; [done|]. cbn [map concat]. rewrite length_app, IH, Wire.length_write_scalar. cbn. lia.
Qed.

(** The bytes of a constant. *)
Lemma constant_in_pool constants i v rest :
  constants !! i = Some v -> take 8 (drop (i * 8) (constants_bytes constants ++ rest)) = Wire.write_scalar 8 v.
Proof.
  revert i. induction constants as [|c constants IH]; intros [|i] Hi; [done|done| |]; unfold constants_bytes; cbn [map concat].
  - injection Hi as ->. rewrite Nat.mul_0_l, drop_0, <- app_assoc, take_app_le by (by rewrite Wire.length_write_scalar).
    by rewrite firstn_all2 by (by rewrite Wire.length_write_scalar).
  - cbn [lookup list_lookup] in Hi. specialize (IH i Hi). rewrite <- app_assoc. change (S i * 8) with (8 + i * 8).
    rewrite drop_app_ge by (rewrite Wire.length_write_scalar; lia). rewrite Wire.length_write_scalar.
    replace (8 + i * 8 - 8) with (i * 8) by lia. exact IH.
Qed.

(** ** Strings *)

Definition strings_bytes (strings : list (string * string)) : list Z :=
  concat (map (fun s => Wire.string_bytes s.1 ++ [0%Z]) strings).

Lemma place_strings_loop l g :
  tidy g -> NoDup (map snd l) -> (Z.of_nat (names_count g + length l) < 2 ^ 32)%Z ->
  exists g', fold_right (fun '(str, label) rest =>
      (let* id := label_id label in let* here := offset_of_code in set_label id here) ;;;
      append_bytes (Wire.string_bytes str ++ [0%Z]) ;;; rest) (mret tt) l g = (g', Ok tt)
    /\ tidy g' /\ placed_pools (fun n => n ∈ map snd l) (strings_bytes l) g g'
    /\ (forall k str label, l !! k = Some (str, label) -> names_label g' label (length (m_code g) + length (strings_bytes (take k l)))).
Proof.
  revert g. induction l as [|[str label] l IH]; intros g Ht Hnd Hroom; cbn [fold_right length map snd] in *.
  { exists g. split_and!; [done|done|apply placed_pools_refl|done]. }
  apply NoDup_cons in Hnd as [Hi Hnd]. destruct (place_label label (length (m_code g)) g Ht ltac:(lia)) as (g1 & E & Ht1 & Hp1 & Hn1 & Hc1).
  destruct (placed_pools_append (fun _ => False) (Wire.string_bytes str ++ [0%Z]) g1 Ht1) as [Hp2 Ht2].
  set (g2 := set_code (m_code g1 ++ Wire.string_bytes str ++ [0%Z]) g1) in *.
  destruct (IH g2 Ht2 Hnd) as (g3 & E3 & Ht3 & Hp3 & Hn3); [change (names_count g2) with (names_count g1); lia|].
  assert (Hhere : (let* id := label_id label in let* here := offset_of_code in set_label id here) g = (g1, Ok tt)).
  { rewrite <- E. unfold mbind, label_id, offset_of_code. by destruct (IRStringTable.intern _ _). }
  exists g3. split_and!.
  - unfold mbind at 1. rewrite Hhere. exact E3.
  - done.
  - eapply placed_pools_weaken; [|refine (placed_pools_trans _ _ _ _ _ _ _ Hp1 (placed_pools_trans _ _ _ _ _ _ _ Hp2 Hp3))].
    cbn. intros n [<-|[[]|Hn]]; [by left|by right].
  - intros [|k] s lab Hk.
    + injection Hk as <- <-. rewrite take_0, Nat.add_0_r. apply (pp_kept _ _ _ _ Hp3); [done|]. by apply (pp_kept _ _ _ _ Hp2); [tauto|].
    + cbn in Hk. specialize (Hn3 k s lab Hk). cbn [take]. unfold strings_bytes in *. cbn [map concat fst]. rewrite length_app.
      unfold g2 in Hn3. cbn [set_code m_code] in Hn3. rewrite (pp_code _ _ _ _ Hp1), app_nil_r, length_app in Hn3.
      by rewrite Nat.add_assoc.
Qed.

Lemma place_strings_spec g :
  tidy g -> NoDup (map snd (m_rodata_strings g)) -> (Z.of_nat (names_count g + length (m_rodata_strings g)) < 2 ^ 32)%Z ->
  exists g', place_strings g = (g', Ok tt) /\ tidy g'
    /\ placed_pools (fun n => n ∈ map snd (m_rodata_strings g)) (strings_bytes (m_rodata_strings g)) g g'
    /\ (forall k str label, m_rodata_strings g !! k = Some (str, label) ->
          names_label g' label (length (m_code g) + length (strings_bytes (take k (m_rodata_strings g))))).
Proof. intros Ht Hnd Hroom. exact (place_strings_loop (m_rodata_strings g) g Ht Hnd Hroom). Qed.

(** Emitted code is tidy. *)
Lemma represents_tidy a ts g :
  IRStringTable.wf (names a) -> (forall id k, labels a !! id = Some k -> (id < Z.of_nat (length (IRStringTable.m_strings (names a))))%Z) ->
  represents a ts g -> tidy g.
Proof.
  intros Hwf Hl [_ [Pn Pl _ _ _ _ _ _]]. constructor; [by rewrite Pn|]. intros id off Hid Hoff. rewrite Pl in Hoff by done.
  destruct (labels a !! id) as [k|] eqn:E; [|done]. unfold names_count. rewrite Pn. by eapply Hl.
Qed.

Lemma relaxed_tidy g g1 : emitted g -> fits g -> relax_branches g = Ok g1 -> tidy g1 /\ (Z.of_nat (names_count g1) < 2 ^ 32)%Z.
Proof.
  intros He Hf Hrun. destruct (emitted_relaxed g He Hf) as (a & a' & g' & _ & _ & _ & _ & E & Hwf' & _ & Hr' & _).
  rewrite E in Hrun. injection Hrun as ->. split.
  - eapply represents_tidy; [apply (RelaxationSound.wf_names _ _ Hwf')| |exact Hr']. intros id k Hk. by apply (RelaxationSound.wf_labels _ _ Hwf') in Hk as [[_ ?] _].
  - unfold names_count. rewrite (pos_names _ _ _ _ _ (proj2 Hr')). pose proof (RelaxationSound.wf_room _ _ Hwf'). lia.
Qed.

(** ** What relaxation leaves alone *)

Lemma steps_keep_names U ts a a' :
  RelaxationSound.WF U a -> rtc (RelaxationSound.asm_step U ts) a a' -> forall name id,
  IRStringTable.m_ids (names a) !! name = Some id -> IRStringTable.m_ids (names a') !! name = Some id.
Proof.
  intros Hwf Hr name id Hid. revert a' Hr. apply (rtc_ind_r (fun z => IRStringTable.m_ids (names z) !! name = Some id)); [done|].
  intros y z Hxy Hyz IH. pose proof (RelaxationSound.asm_steps_WF U ts a y Hwf Hxy) as Hwfy.
  destruct Hyz as [b i u gr w Hi Hat Hb|b k d t v _ _ _ _ _ Hk Hun Hd]; [|done].
  unfold relax_one. destruct (is_branch w); [|done]. unfold IRStringTable.intern.
  destruct (_ !! skip_label i) as [x|] eqn:E; [done|]. cbn [names IRStringTable.m_ids].
  rewrite lookup_insert_ne; [done|]. intros Heq. rewrite Heq in E. congruence.
Qed.

Definition same_pools (g g' : Gen) : Prop := m_constant_pool g' = m_constant_pool g /\ m_rodata_strings g' = m_rodata_strings g.

#[export] Instance same_pools_preorder : PreOrder same_pools.
Proof. split; [done|]. intros g1 g2 g3 [? ?] [? ?]. split; congruence. Qed.

Lemma relax_use_pools st i st' : relax_use st i = Ok st' -> same_pools (gen st) (gen st').
Proof.
  unfold relax_use. intros (use & _ & (w & _ & H)%obind_Ok)%obind_Ok. destruct (_ =? _)%Z.
  - cbv [label_id mbind set_label mmodify mark_label_use push_use] in H.
    destruct (IRStringTable.intern (m_label_names (gen st)) _) as [t id]. cbn [m_label_names set_labels m_label_offsets m_label_uses] in H.
    destruct (IRStringTable.intern t _) as [t' id']. apply obind_Ok in H as (code & _ & [= <-]). done.
  - apply obind_Ok in H as (code & _ & [= <-]). done.
Qed.

Lemma ofold_pools l st st' : ofold relax_use l st = Ok st' -> same_pools (gen st) (gen st').
Proof.
  revert st. induction l as [|i l IH]; intros st; cbn [ofold]; [by intros [= ->]|].
  intros (st1 & H1%relax_use_pools & H)%obind_Ok. etransitivity; [exact H1|by apply IH].
Qed.

Lemma advance_pools l g : same_pools g (fold_left advance_use l g).
Proof. revert g. induction l as [|i l IH]; intros g; [done|]. cbn [fold_left]. by rewrite <- IH. Qed.

Lemma relax_round_pools g r : relax_round g = Ok r -> same_pools g (match r with inl g' | inr g' => g' end).
Proof.
  unfold relax_round. intros (relax & _ & H)%obind_Ok. apply obind_Ok in H as ([flags code] & _ & H).
  apply obind_Ok in H as (st & H1%ofold_pools & H). change (same_pools g (gen st)) in H1. destruct (_ =? _)%nat; injection H as <-; [done|].
  etransitivity; [exact H1|]. match goal with |- same_pools _ (fold_left _ _ ?x) => transitivity x; [done|] end. apply advance_pools.
Qed.

Lemma relax_branches_pools g g' : relax_branches g = Ok g' -> same_pools g g'.
Proof.
  unfold relax_branches. generalize (S (2 * length (m_label_uses g))) as fuel. intros fuel. revert g.
  induction fuel as [|fuel IH]; intros g; cbn [relax_rounds]; [done|]. intros ([g1|g1] & H%relax_round_pools & E)%obind_Ok.
  - etransitivity; [exact H|by apply IH].
  - by injection E as <-.
Qed.

(** ** Constants, loaded *)

Lemma resolve_keeps_tail g g1 at_ g2 g3 :
  emitted g -> relocated g g1 at_ -> closed g -> followed g1 g2 -> resolve_labels g2 = Ok g3 ->
  exists tail, m_code g2 = m_code g1 ++ tail /\ exists code, m_code g3 = code ++ tail /\ length code = length (m_code g1).
Proof.
  intros He Hrl Hend Hfl Hres. destruct (relocated_placed g g1 at_ He Hrl Hend) as (ws & Ec & Hpl). destruct (fl_code _ _ Hfl) as [tail Et].
  pose proof (resolve_fold (m_label_names g2) (label_offset g2) tail _ ws Hpl) as H.
  unfold resolve_labels in Hres. rewrite Et, Ec, (fl_uses _ _ Hfl) in Hres.
  destruct (ofold _ _ _) as [code'|e]; [|done]. injection Hres as <-. destruct H as (ws' & -> & Hr). exists tail. split; [done|].
  exists (code_of ws'). split; [done|]. by rewrite Ec, !length_code_of, (rs_length _ _ _ _ _ Hr).
Qed.

(** Instruction [k] is the AUIPC of a constant [v] of the pool, in front of its
    LD: what [emit_li] leaves for a constant of 64 bits. *)
Record pool_load (g : Gen) (k : nat) (r v : Z) : Prop := {
  pl_use : exists i use idx, m_label_uses g !! i = Some use /\ code_offset use = 4 * k /\ addend use = 0%Z
    /\ IRStringTable.m_ids (m_label_names g) !! constant_label idx = Some (label use) /\ m_constant_pool g !! idx = Some v;
  pl_auipc : read32 (m_code g) (4 * k) = Ok (U_word 0x17 r 0);
  pl_ld : read32 (m_code g) (4 * S k) = Ok (I_word 0x03 r 3 r 0);
  pl_free : Forall (fun use => code_offset use <> 4 * S k) (m_label_uses g)
}.

(** C37: A 64-bit constant arrives.  Where [emit_li] put AUIPC and LD with a label
    of the constant pool, the code, relaxed, followed by its pool and resolved,
    loads the constant when the sandbox executes it, at any address, and goes on
    with the instruction behind the LD. *)
Theorem wide_constants_load `{Memory} `{Config} (g g1 gp g2 g3 : Gen) :
  emitted g -> fits g -> closed g -> relax_branches g = Ok g1 ->
  (Z.of_nat (names_count g1 + length (m_constant_pool g1)) < 2 ^ 32)%Z ->
  (forall i off, ~ names_label g1 (constant_label i) off) ->
  place_constants g1 = (gp, Ok tt) -> (Z.of_nat (length (m_code gp)) < 2 ^ 31 - 2 ^ 11)%Z ->
  followed gp g2 -> resolve_labels g2 = Ok g3 ->
  exists at_, relocated g g1 at_ /\
  forall base m, holds_bytes (m_code g3) base m ->
  forall k r v c, pool_load g k r v -> (0 < r < 32)%Z -> is_int64 v -> pc c = to_uint64 (base + Z.of_nat (at_ k)) ->
  exists c', steps 2 c m = Next c' m /\ pc c' = to_uint64 (base + Z.of_nat (at_ (S (S k))))
    /\ reg c' r = to_uint64 v /\ forall r', r' <> r -> reg c' r' = reg c r'.
Proof.
  intros He Hf Hend Hrun Hroom Hfresh Hplace Hsize Hfl Hres. destruct (relocation g g1 He Hf Hrun) as (at_ & Hrl). exists at_. split; [done|].
  destruct (relaxed_tidy g g1 He Hf Hrun) as [Ht1 _]. pose proof (relax_branches_pools g g1 Hrun) as [Epool _].
  destruct (place_constants_spec g1 Ht1 Hroom) as (gp' & Eplace & Htp & Hpp & Hlab & _). rewrite Hplace in Eplace. injection Eplace as <-.
  assert (followed g1 gp) as Hfl1.
  { eapply placed_followed; [done|exact Hpp|]. intros name off (i & _ & ->). apply Hfresh. }
  assert (followed g1 g2) as Hfl2.
  { destruct Hfl1 as [[t1 E1] U1 L1], Hfl as [[t2 E2] U2 L2]. constructor; [exists (t1 ++ t2); by rewrite E2, E1, app_assoc|congruence|auto]. }
  destruct (resolve_keeps_tail g g1 at_ g2 g3 He Hrl Hend Hfl2 Hres) as (tail & Et & code & E3 & Elen).
  intros base m Hm k r v c [(i & use & idx & Hi & Hk & Had & Hname & Hv) Hauipc Hld Hfree] Hr Hv64 Hc.
  assert (in_bits 5 r) as Hr5 by (unfold in_bits; lia).
  destruct (U_decodes 0x17 r 0 ltac:(unfold in_bits; lia) Hr5) as (Eo & Er & _). set (w := U_word 0x17 r 0) in *.
  change (op w = 0x17%Z) in Eo. change (target_register w = r) in Er.
  (* the label of the constant *)
  assert (idx < length (m_constant_pool g1)) as Hidx by (rewrite Epool; by eapply lookup_lt_Some).
  assert (label_offset g2 (label use) = Some (length (m_code g1) + idx * 8)) as Hoff.
  { destruct (Hlab idx Hidx) as (id & Hid & Hn & Ho). apply (fl_labels _ _ Hfl); [|rewrite <- Ho; f_equal].
    - destruct (use_instruction g He Hend i use Hi) as (_ & _ & _ & _ & Hl & _). done.
    - assert (IRStringTable.m_ids (m_label_names gp) !! constant_label idx = Some (label use)) as E; [|congruence].
      apply (pp_ids _ _ _ _ Hpp). destruct (emitted_relaxed g He Hf) as (a & a' & g' & _ & Hra & Hwf & _ & E & _ & _ & Hra' & Hs & _).
      rewrite E in Hrun. injection Hrun as ->. rewrite (pos_names _ _ _ _ _ (proj2 Hra')). eapply steps_keep_names; [exact Hwf|exact Hs|].
      by rewrite <- (pos_names _ _ _ _ _ (proj2 Hra)). }
  (* its bytes *)
  destruct (fl_code _ _ Hfl) as [rest Erest]. rewrite (pp_code _ _ _ _ Hpp) in Erest, Hsize.
  assert (Hmem : mem_read 8 (to_uint64 (base + (Z.of_nat (length (m_code g1) + idx * 8) + addend use))) m = Some (to_uint64 v)).
  { rewrite Had, Z.add_0_r. change (to_uint64 v) with (v mod 2 ^ (8 * Z.of_nat 8))%Z.
    rewrite <- (Wire.of_bytes_write_scalar 8 v). apply Hm. rewrite E3.
    rewrite Et in Erest. rewrite <- app_assoc in Erest. apply app_inv_head in Erest as ->. unfold Wire.memcpy.
    rewrite Epool. pose proof (lookup_lt_Some _ _ _ Hv) as Hlt.
    rewrite decide_True by (rewrite !length_app, length_constants_bytes; lia). f_equal. rewrite drop_app_ge by lia. rewrite Elen, Nat.add_sub_swap, Nat.sub_diag by lia.
    by apply constant_in_pool. }
  pose proof (constant_reaches g g1 g2 g3 at_ He Hrl Hend Hfl2 Hres base m (holds_bytes_code _ _ _ Hm) i use k w Hi Hk Hauipc
    (length (m_code g1) + idx * 8) c) as Hrun2. cbv zeta in Hrun2. rewrite Er, Hmem in Hrun2.
  destruct Hrun2 as (c' & Hs & Hpc & Hreg & Hoth); [done|lia|done|done|done| |done|].
  - rewrite Had. destruct (use_instruction g He Hend i use Hi) as (k' & _ & Ek' & _ & _ & Hlast).
    assert (k' = k) as -> by lia. pose proof (at_le g g1 at_ Hrl k (length (m_code g) / 4) ltac:(lia) (le_n _)) as Hle.
    rewrite (relocated_end g g1 at_ Hrl) in Hle. rewrite length_app in Hsize.
    rewrite length_constants_bytes in Hsize. lia.
  - exists c'. split_and!; [done|done| |done]. rewrite Hreg. f_equal. rewrite wraps_wrapu, wraps_id; [done|done| |done]. unfold is_int64, INT64_MIN, INT64_MAX in Hv64. lia.
Qed.

(** ** Witnesses *)

(** A function that returns a constant of 64 bits. *)
Definition wide_sample : Emit unit := begin_function "f" ;;; emit_li 10 0x123456789A ;;; emit_ret.

Definition wide_gen : Gen := (wide_sample (initial IRStringTable.empty)).1.

Lemma wide_emitted : emitted wide_gen.
Proof.
  assert (keeps wide_sample) as [_ H].
  { apply grows_keeps. unfold wide_sample. apply grows_bind; [apply grows_begin_function, ordinary_short; discriminate|intros _].
    unfold emit_ret, emit_jalr. grow. }
  apply H; [|by vm_compute]. apply emitted_initial; [apply IRStringTable.empty_wf|]. intros i. apply lookup_empty.
Qed.

Lemma wide_fits : fits wide_gen.
Proof. by vm_compute. Qed.

Section Samples.
#[local] Existing Instance flat_memory.
#[local] Instance uncompressed : Config := {| compressed_enabled := false |}.

Lemma wide_constants_load_witness :
  exists g3 c', steps 2 (mkCpu ∅ 0x10000) (flat_image 0x10000 (m_code g3)) = Next c' (flat_image 0x10000 (m_code g3))
    /\ reg c' 10 = 0x123456789A%Z.
Proof.
  destruct (relax_branches wide_gen) as [g1|e] eqn:E; [|vm_compute in E; discriminate E].
  destruct (place_constants g1) as [gp [[]|e]] eqn:Ep; [|vm_compute in E; injection E as <-; vm_compute in Ep; discriminate Ep].
  destruct (resolve_labels gp) as [g3|e] eqn:E3.
  2: { vm_compute in E. injection E as <-. vm_compute in Ep. injection Ep as <-. vm_compute in E3. discriminate E3. }
  destruct (wide_constants_load wide_gen g1 gp gp g3) as (at_ & Hr & H);
    [exact wide_emitted|exact wide_fits| |exact E| | |exact Ep| |apply followed_refl|exact E3|].
  { unfold closed. apply (bool_decide_unpack _). vm_compute. exact I. }
  { vm_compute in E. injection E as <-. vm_compute. reflexivity. }
  { pose proof (relaxed_tidy wide_gen g1 wide_emitted wide_fits E) as [[[_ Hwf] _] _]. vm_compute in E. injection E as <-.
    intros i off (id & _ & Hid%Hwf & Ho). destruct Hid as [_ Hid]. unfold label_offset in Ho. cbn [m_label_names m_label_offsets IRStringTable.m_strings] in *.
    destruct (Z.to_nat id) as [|[|n]]; [discriminate Hid|discriminate Ho|discriminate Hid]. }
  { vm_compute in E. injection E as <-. vm_compute in Ep. injection Ep as <-. vm_compute. reflexivity. }
  assert (holds_bytes (m_code g3) 0x10000 (flat_image 0x10000 (m_code g3))) as Hm.
  { apply flat_image_holds; [discriminate|]. vm_compute in E. injection E as <-. vm_compute in Ep. injection Ep as <-.
    vm_compute in E3. injection E3 as <-. vm_compute. discriminate. }
  destruct (H 0x10000%Z _ Hm 0 10%Z 0x123456789A%Z (mkCpu ∅ 0x10000)) as (c' & Hs & _ & Hreg & _).
  - constructor; [|vm_compute; reflexivity|vm_compute; reflexivity|vm_compute; repeat constructor; discriminate].
    exists 0, (mkUse 1 0 0), 0. split_and!; vm_compute; reflexivity.
  - lia.
  - vm_compute. split; discriminate.
  - rewrite (rl_start _ _ _ Hr). vm_compute. reflexivity.
  - exists g3, c'. split; [exact Hs|exact Hreg].
Defined.

End Samples.

End Pools.
