(* ===== verification/ElfBuilder.v ===== *)
(** * The binary

    Models elf_builder.h and elf_builder.cpp: the ELF image with the code, the data
    area, the symbols the host resolves and the metadata section.  What the code
    generator hands over is the record [Generated], what the program carries for the
    host the record [Exports].

    Offsets and sizes are those of vectors in memory, so their sums do not wrap; the
    fields they are written to have the widths of the format. *)

From stdpp Require Import pretty.
From S2P Require Import Prelude.
From S2P Require Import Wire.
From S2P Require Import LineTable.
From S2P Require Import VariantTypes.
From S2P Require Import FunctionSignature.
From S2P Require Import DeclarationBlobs.
From S2P Require Import ClassSignature.
From S2P Require Import PropertySignature.
From S2P Require Import GdsMeta.

Module ElfBuilder.
Import Wire.

Definition ET_EXEC : Z := 2.
Definition EM_RISCV : Z := 243.
Definition EV_CURRENT : Z := 1.
Definition BASE_ADDR : Z := 0x10000.
Definition FAST_EXIT_SIZE : Z := 8.
Definition FAST_EXIT_SYMBOL : string := "fast_exit".
Definition PROFILING_SYMBOL : string := "__gdsc_profiling".
Definition DEBUG_SYMBOL : string := "__gdsc_debug".
Definition DEBUG_GLOBALS_SYMBOL : string := "__gdsc_globals".
Definition INSTANCE_SYMBOL : string := "__gdsc_instance".
Definition INSTANCE_INIT_SYMBOL : string := "__gdsc_instance_init".
Definition TRAIT_CACHE_SYMBOL_PREFIX : string := "__gdsc_trait_cache_".
Definition GDSMETA_SECTION : string := ".gdsmeta".

(** ** Structures of the format *)

(** A structure is written field by field: its layout has no padding. *)
Fixpoint write_fields (widths : list nat) (values : list Z) : list Z :=
  match widths, values with
  | n :: widths, v :: values => write_scalar n v ++ write_fields widths values
  | _, _ => []
  end.

Record Ehdr := mkEhdr {
  e_ident : list Z;
  e_type : Z;
  e_machine : Z;
  e_version : Z;
  e_entry : Z;
  e_phoff : Z;
  e_shoff : Z;
  e_flags : Z;
  e_ehsize : Z;
  e_phentsize : Z;
  e_phnum : Z;
  e_shentsize : Z;
  e_shnum : Z;
  e_shstrndx : Z
}.

Definition ehdr_widths : list nat := replicate 16 1%nat ++ [2; 2; 4; 8; 8; 8; 4; 2; 2; 2; 2; 2; 2]%nat.
Definition ehdr_size : Z := 64.

Definition ehdr_bytes (h : Ehdr) : list Z :=
  write_fields ehdr_widths
    (e_ident h ++ [e_type h; e_machine h; e_version h; e_entry h; e_phoff h; e_shoff h; e_flags h; e_ehsize h; e_phentsize h;
                   e_phnum h; e_shentsize h; e_shnum h; e_shstrndx h]).

Record Phdr := mkPhdr {
  p_type : Z;
  p_flags : Z;
  p_offset : Z;
  p_vaddr : Z;
  p_paddr : Z;
  p_filesz : Z;
  p_memsz : Z;
  p_align : Z
}.

Definition phdr_widths : list nat := [4; 4; 8; 8; 8; 8; 8; 8]%nat.
Definition phdr_size : Z := 56.

Definition phdr_bytes (h : Phdr) : list Z :=
  write_fields phdr_widths [p_type h; p_flags h; p_offset h; p_vaddr h; p_paddr h; p_filesz h; p_memsz h; p_align h].

Record Shdr := mkShdr {
  sh_name : Z;
  sh_type : Z;
  sh_flags : Z;
  sh_addr : Z;
  sh_offset : Z;
  sh_size : Z;
  sh_link : Z;
  sh_info : Z;
  sh_addralign : Z;
  sh_entsize : Z
}.

Definition shdr_widths : list nat := [4; 4; 8; 8; 8; 8; 4; 4; 8; 8]%nat.
Definition shdr_size : Z := 64.

Definition shdr_bytes (h : Shdr) : list Z :=
  write_fields shdr_widths
    [sh_name h; sh_type h; sh_flags h; sh_addr h; sh_offset h; sh_size h; sh_link h; sh_info h; sh_addralign h; sh_entsize h].

Record Sym := mkSym {
  st_name : Z;
  st_info : Z;
  st_other : Z;
  st_shndx : Z;
  st_value : Z;
  st_size : Z
}.

Definition sym_widths : list nat := [4; 1; 1; 2; 8; 8]%nat.
Definition sym_size : Z := 24.

Definition sym_bytes (s : Sym) : list Z :=
  write_fields sym_widths [st_name s; st_info s; st_other s; st_shndx s; st_value s; st_size s].

(** ** Input *)

(** What [RISCVCodeGen] answers after [generate]. *)
Record Generated := mkGenerated {
  code : list Z;
  line_table : LineTable.LineTable;
  function_offsets : gmap string Z;
  global_data_size : Z;
  global_address : Z;
  global_area_size : Z;
  profiling_address : Z;
  profiling_size : Z;
  debug_address : Z;
  debug_size : Z;
  instance_blob_address : Z;
  instance_blob_size : Z;
  instance_init_offset : Z;
  trait_cache_address : Z;
  trait_cache_count : nat;
  trait_cache_stride : Z
}.

(** The fields of [IRProgram] that are published, and the names of its functions. *)
Record Exports := mkExports {
  ex_is_tool : bool;
  ex_base_is_path : bool;
  ex_class_name : string;
  ex_base_class : string;
  ex_constants : list ScriptConstant.ScriptConstant;
  ex_script_uses : list string;
  ex_class_signatures : list ClassSignature.ClassSignature;
  ex_trait_signatures : list ClassSignature.ClassSignature;
  ex_signatures : list FunctionSignature.FunctionSignature;
  ex_signals : list FunctionSignature.FunctionSignature;
  ex_properties : list PropertySignature.PropertySignature;
  ex_rpc_configs : list RPCConfig.RPCConfig;
  ex_functions : list string
}.

(** [entry.address += uint32_t(BASE_ADDR)] *)
Definition rebase (t : LineTable.LineTable) : LineTable.LineTable :=
  map (fun entry => LineTable.mkEntry (to_uint32 (LineTable.address entry + BASE_ADDR)) (LineTable.line entry)) t.

Definition script_metadata (layout : VariantLayout.VariantLayout) (p : Exports) (t : LineTable.LineTable) : GdsMeta.ScriptMetadata :=
  GdsMeta.mkMetadata (VariantLayout.double_precision layout) (ex_is_tool p) (ex_base_is_path p) (ex_class_name p) (ex_base_class p)
    (ex_signatures p) (ex_signals p) t (ex_properties p) (ex_rpc_configs p) false (ex_constants p) (ex_script_uses p)
    (ex_class_signatures p ++ ex_trait_signatures p).

(** ** Tables of strings *)

Definition c_string (s : string) : list Z := string_bytes s ++ [0].

Definition string_table (names : list string) : list Z := concat (map c_string names).

(** Where the [i]-th name of a table starts. *)
Definition name_offset (names : list string) (i : nat) : Z := Z.of_nat (length (string_table (take i names))).

(** ** Symbols *)

Definition FUNC : Z := Z.lor (Z.shiftl 1 4) 2.
Definition OBJECT : Z := Z.lor (Z.shiftl 1 4) 1.

(** A symbol with its name; its place in the table of strings comes last. *)
Abbreviation Export := (string * Sym)%type.

Definition export (name : string) (info section value size : Z) : Export := (name, mkSym 0 info 0 section value size).

Definition function_offset (g : Generated) (name : string) : outcome Z := of_option out_of_range (function_offsets g !! name).

Fixpoint function_exports (g : Generated) (text_size : Z) (functions : list string) : outcome (list Export) :=
  match functions with
  | [] => Ok []
  | name :: rest =>
      let? func_offset := function_offset g name in
      let? func_size :=
        match rest with
        | [] => Ok (to_uint64 (text_size - func_offset))
        | next :: _ => let? next_offset := function_offset g next in Ok (to_uint64 (next_offset - func_offset))
        end in
      let? exports := function_exports g text_size rest in
      Ok (export name FUNC 1 (to_uint64 (BASE_ADDR + func_offset)) func_size :: exports)
  end.

(** A symbol of the data area, unless its part is empty. *)
Definition data_export (name : string) (address size : Z) : list Export :=
  if size >? 0 then [export name OBJECT 2 address size] else [].

Definition instance_exports (g : Generated) : list Export :=
  if instance_blob_size g >? 0 then
    [export INSTANCE_SYMBOL OBJECT 2 (instance_blob_address g) (instance_blob_size g);
     export INSTANCE_INIT_SYMBOL FUNC 1 (to_uint64 (BASE_ADDR + instance_init_offset g)) 0]
  else [].

Definition trait_cache_export (g : Generated) (i : nat) : Export :=
  export (TRAIT_CACHE_SYMBOL_PREFIX +:+ pretty i) OBJECT 2
    (to_uint64 (trait_cache_address g + Z.of_nat i * trait_cache_stride g)) (trait_cache_stride g).

(** The symbols in the order of the table, behind the null symbol; its name is the
    empty string at the start of the strings. *)
Definition exports (g : Generated) (p : Exports) (text_size : Z) : outcome (list Export) :=
  let? functions := function_exports g text_size (ex_functions p) in
  Ok ((EmptyString, mkSym 0 0 0 0 0 0) ::
      export FAST_EXIT_SYMBOL FUNC 1 BASE_ADDR FAST_EXIT_SIZE ::
      functions ++
      data_export PROFILING_SYMBOL (profiling_address g) (profiling_size g) ++
      data_export DEBUG_SYMBOL (debug_address g) (debug_size g) ++
      data_export DEBUG_GLOBALS_SYMBOL (global_address g) (global_area_size g) ++
      instance_exports g ++
      map (trait_cache_export g) (seq 0 (trait_cache_count g))).

Definition set_name (st_name : Z) (s : Sym) : Sym :=
  mkSym (to_uint32 st_name) (st_info s) (st_other s) (st_shndx s) (st_value s) (st_size s).

Definition symbol_table (l : list Export) : list Sym :=
  imap (fun i e => set_name (name_offset (map fst l) i) e.2) l.

(** ** Layout *)

Definition align_to (n offset : Z) : Z := Z.land (offset + (n - 1)) (Z.lnot (n - 1)).

Record Layout := mkLayout {
  text_offset : Z;
  data_offset : Z;
  symtab_offset : Z;
  strtab_offset : Z;
  comment_offset : Z;
  gdsmeta_offset : Z;
  shstrtab_offset : Z;
  shdr_offset : Z
}.

Definition layout_of (has_globals : bool) (text data symtab strtab comment gdsmeta shstrtab : Z) : Layout :=
  let num_phdrs := if has_globals then 2 else 1 in
  let text_offset := align_to 0x1000 (ehdr_size + num_phdrs * phdr_size) in
  let offset := text_offset + text in
  let data_offset := if has_globals then align_to 0x1000 offset else 0 in
  let offset := if has_globals then data_offset + data else offset in
  let symtab_offset := align_to 8 offset in
  let strtab_offset := symtab_offset + symtab in
  let comment_offset := strtab_offset + strtab in
  let gdsmeta_offset := align_to 8 (comment_offset + comment) in
  let shstrtab_offset := gdsmeta_offset + gdsmeta in
  let shdr_offset := align_to 8 (shstrtab_offset + shstrtab) in
  mkLayout text_offset data_offset symtab_offset strtab_offset comment_offset gdsmeta_offset shstrtab_offset shdr_offset.

Definition section_names (has_globals : bool) : list string :=
  [EmptyString; ".text"] ++ (if has_globals then [".data"] else []) ++
  [".symtab"; ".strtab"; ".comment"; GDSMETA_SECTION; ".shstrtab"].

Definition idx_symtab (has_globals : bool) : nat := if has_globals then 3 else 2.

(** Where the data area starts, behind the pages of the code. *)
Definition data_vaddr (text_size : Z) : Z := align_to 0x1000 (BASE_ADDR + text_size).

Definition file_header (has_globals : bool) (l : Layout) : Ehdr :=
  mkEhdr ([0x7f; 69; 76; 70; 2; 1; 1; 0] ++ replicate 8 0) ET_EXEC EM_RISCV EV_CURRENT (BASE_ADDR + FAST_EXIT_SIZE)
    ehdr_size (shdr_offset l) 5 ehdr_size phdr_size (if has_globals then 2 else 1) shdr_size
    (Z.of_nat (length (section_names has_globals))) (Z.of_nat (idx_symtab has_globals) + 4).

Definition program_headers (has_globals : bool) (l : Layout) (text data : Z) : list Phdr :=
  mkPhdr 1 5 (text_offset l) BASE_ADDR BASE_ADDR text text 0x1000 ::
  (if has_globals then [mkPhdr 1 6 (data_offset l) (data_vaddr text) (data_vaddr text) data data 0x1000] else []).

Definition section_headers (has_globals : bool) (l : Layout) (text data symtab strtab comment gdsmeta shstrtab : Z) : list Shdr :=
  let names := section_names has_globals in
  let name i := to_uint32 (name_offset names i) in
  let idx := idx_symtab has_globals in
  mkShdr 0 0 0 0 0 0 0 0 0 0 ::
  mkShdr (name 1%nat) 1 6 BASE_ADDR (text_offset l) text 0 0 4 0 ::
  (if has_globals then [mkShdr (name 2%nat) 1 3 (data_vaddr text) (data_offset l) data 0 0 8 0] else []) ++
  [mkShdr (name idx) 2 0 0 (symtab_offset l) symtab (Z.of_nat idx + 1) 1 8 sym_size;
   mkShdr (name (idx + 1)%nat) 3 0 0 (strtab_offset l) strtab 0 0 1 0;
   mkShdr (name (idx + 2)%nat) 1 0 0 (comment_offset l) comment 0 0 1 0;
   mkShdr (name (idx + 3)%nat) 1 0 0 (gdsmeta_offset l) gdsmeta 0 0 8 0;
   mkShdr (name (idx + 4)%nat) 3 0 0 (shstrtab_offset l) shstrtab 0 0 1 0].

(** ** The image *)

(** [while (elf_data.size() < offset) push_back(0);] and the bytes after it. *)
Definition place (elf_data : list Z) (offset : Z) (bytes : list Z) : list Z :=
  elf_data ++ replicate (Z.to_nat offset - length elf_data) 0 ++ bytes.

Definition comment_string : string := "Godot GDScript API v1".

Definition build (layout : VariantLayout.VariantLayout) (g : Generated) (p : Exports) : outcome (list Z) :=
  let len l := Z.of_nat (length l) in
  let has_globals := global_data_size g >? 0 in
  let text_size := to_uint64 (len (code g) - global_data_size g) in
  let data_size := global_data_size g in
  let comment_bytes := c_string comment_string in
  let? gdsmeta_bytes := GdsMeta.encode_script_metadata (script_metadata layout p (rebase (line_table g))) in
  let shstrtab := string_table (section_names has_globals) in
  let? symbols := exports g p text_size in
  let strtab := string_table (map fst symbols) in
  let symtab := concat (map sym_bytes (symbol_table symbols)) in
  let l := layout_of has_globals text_size data_size (len symtab) (len strtab) (len comment_bytes) (len gdsmeta_bytes) (len shstrtab) in
  if len (code g) <? text_size then Throw (UB "iterator past the end") else
  let text := take (Z.to_nat text_size) (code g) in
  let data := drop (Z.to_nat text_size) (code g) in
  let elf_data := ehdr_bytes (file_header has_globals l) in
  let elf_data := elf_data ++ concat (map phdr_bytes (program_headers has_globals l text_size data_size)) in
  let elf_data := place elf_data (text_offset l) text in
  let elf_data := if has_globals then place elf_data (data_offset l) data else elf_data in
  let elf_data := place elf_data (symtab_offset l) symtab in
  let elf_data := elf_data ++ strtab in
  let elf_data := place elf_data (comment_offset l) comment_bytes in
  let elf_data := place elf_data (gdsmeta_offset l) gdsmeta_bytes in
  let elf_data := place elf_data (shstrtab_offset l) shstrtab in
  Ok (place elf_data (shdr_offset l)
    (concat (map shdr_bytes (section_headers has_globals l text_size data_size (len symtab) (len strtab) (len comment_bytes)
      (len gdsmeta_bytes) (len shstrtab))))).

End ElfBuilder.
