(* ===== verification/ElfLoader.v ===== *)
(** * How the sandbox loads a binary

    Models the loader of the vendored emulator for 64-bit binaries: the checks and
    segments of [Memory::binary_loader] and [binary_load_ph] (memory.cpp), the choice
    of the execute segment, and the lookups of sections and symbols
    (memory_elf.cpp).  A failure of the loader is the message of its
    [MachineException]; a read outside the binary is undefined behaviour.

    What becomes of guest memory is the list of copies, in order.  Left out: dynamic
    executables, which the compiler does not emit, images shared between machines,
    the stack and the fallback exit function. *)

From S2P Require Import Prelude.
From S2P Require Import Wire.
From S2P Require Import Libriscv.
From S2P Require Import ElfBuilder.

Module ElfLoader.
Import Wire.
Import ElfBuilder.

(** ** Failures *)

(** A value, or the message of a [MachineException(INVALID_PROGRAM, ...)]. *)
Definition Load (A : Type) : Type := outcome (string + A).

Definition done {A} (a : A) : Load A := Ok (inr a).
Definition invalid {A} (message : string) : Load A := Ok (inl message).

Definition lbind {A B} (c : Load A) (k : A -> Load B) : Load B :=
  match c with
  | Ok (inr a) => k a
  | Ok (inl message) => Ok (inl message)
  | Throw e => Throw e
  end.

Notation "'let!' x ':=' c 'in' k" := (lbind c (fun x => k))
  (at level 10, x pattern, c at level 100, k at level 200) : gdsc_scope.

Notation "'reject' b 'with' message 'in' k" := (if b then invalid message else k)
  (at level 10, b at level 100, message at level 100, k at level 200) : gdsc_scope.

(** ** Reading the binary *)

Fixpoint read_fields (widths : list nat) (bytes : list Z) : list Z :=
  match widths with
  | [] => []
  | n :: widths => of_bytes (take n bytes) :: read_fields widths (drop n bytes)
  end.

Section Binary.
Context (m_binary : list Z).

Definition binary_size : Z := Z.of_nat (length m_binary).

(** [elf_offset<T>(ofs)] *)
Definition elf_offset (size ofs : Z) : Load unit :=
  if (ofs <=? to_uint64 (ofs + size)) && (to_uint64 (ofs + size) <=? binary_size) then done tt else invalid "Invalid ELF offset".

(** A structure behind a pointer into the binary. *)
Definition deref {A} (size : Z) (widths : list nat) (of_fields : list Z -> outcome A) (ofs : Z) : Load A :=
  if ofs + size <=? binary_size then
    let? a := of_fields (read_fields widths (drop (Z.to_nat ofs) m_binary)) in done a
  else Throw (UB "read outside the binary").

Definition header_of (fields : list Z) : outcome Ehdr :=
  match drop 16 fields with
  | [a; b; c; d; e; f; g; h; i; j; k; l; m] => Ok (mkEhdr (take 16 fields) a b c d e f g h i j k l m)
  | _ => Throw (UB "not a header")
  end.

Definition program_header_of (fields : list Z) : outcome Phdr :=
  match fields with
  | [a; b; c; d; e; f; g; h] => Ok (mkPhdr a b c d e f g h)
  | _ => Throw (UB "not a program header")
  end.

Definition section_header_of (fields : list Z) : outcome Shdr :=
  match fields with
  | [a; b; c; d; e; f; g; h; i; j] => Ok (mkShdr a b c d e f g h i j)
  | _ => Throw (UB "not a section header")
  end.

Definition sym_of (fields : list Z) : outcome Sym :=
  match fields with
  | [a; b; c; d; e; f] => Ok (mkSym a b c d e f)
  | _ => Throw (UB "not a symbol")
  end.

Definition header_at : Z -> Load Ehdr := deref ehdr_size ehdr_widths header_of.
Definition program_header_at : Z -> Load Phdr := deref phdr_size phdr_widths program_header_of.
Definition section_header_at : Z -> Load Shdr := deref shdr_size shdr_widths section_header_of.
Definition sym_at : Z -> Load Sym := deref sym_size sym_widths sym_of.

Definition elf_header : Load Ehdr := let! _ := elf_offset ehdr_size 0 in header_at 0.

(** The bytes in front of the first NUL. *)
Fixpoint until_nul (bytes : list Z) : list Z :=
  match bytes with
  | [] => []
  | b :: bytes => if b =? 0 then [] else b :: until_nul bytes
  end.

(** ** Sections *)

(** [for (i = 0; i < e_shnum; i++)] *)
Fixpoint find_section (n : nat) (name : string) (shoff strings i : Z) : Load (option Shdr) :=
  match n with
  | O => done None
  | S n =>
      let! shdr := section_header_at (shoff + i * shdr_size) in
      let name_offset := to_uint64 (strings + sh_name shdr) in
      reject (name_offset <? strings) || (binary_size <=? name_offset) with "Invalid ELF string offset" in
      if decide (until_nul (drop (Z.to_nat name_offset) m_binary) = string_bytes name) then done (Some shdr)
      else find_section n name shoff strings (i + 1)
  end.

Definition section_by_name (name : string) : Load (option Shdr) :=
  let! elf := elf_header in
  let sh_end_offset := to_uint64 (e_shoff elf + e_shnum elf * shdr_size) in
  reject binary_size <? e_shoff elf with "Invalid section header offset" in
  reject (sh_end_offset <? e_shoff elf) || (binary_size <? sh_end_offset) with "Invalid section header offset" in
  reject (e_shnum elf =? 0) || (64 <? e_shnum elf) with "Invalid section header count" in
  let! _ := elf_offset shdr_size (e_shoff elf) in
  reject e_shnum elf <=? e_shstrndx elf with "Invalid section header strtab index" in
  let! shstrtab := section_header_at (e_shoff elf + e_shstrndx elf * shdr_size) in
  let! _ := elf_offset 1 (sh_offset shstrtab) in
  find_section (Z.to_nat (e_shnum elf)) name (e_shoff elf) (sh_offset shstrtab) 0.

Definition SHT_NOBITS : Z := 8.

Definition section_by_name_validated (name : string) : Load (option Shdr) :=
  let! shdr := section_by_name name in
  match shdr with
  | None => done None
  | Some shdr =>
      let file_end := to_uint64 (sh_offset shdr + sh_size shdr) in
      if sh_type shdr =? SHT_NOBITS then done None
      else if (file_end <? sh_offset shdr) || (binary_size <? file_end) then done None
      else done (Some shdr)
  end.

(** The contents of a section. *)
Definition section_bytes (shdr : Shdr) : list Z :=
  take (Z.to_nat (sh_size shdr)) (drop (Z.to_nat (sh_offset shdr)) m_binary).

(** ** Symbols *)

(** [None] is the null pointer. *)
Definition elf_symbol_name (strtab : Shdr) (st_name : Z) : Load (option (list Z)) :=
  if sh_size strtab <=? st_name then done None else
  let! _ := elf_offset 1 (sh_offset strtab) in
  let maxlen := sh_size strtab - st_name in
  let name := until_nul (take (Z.to_nat maxlen) (drop (Z.to_nat (sh_offset strtab + st_name)) m_binary)) in
  if maxlen <=? Z.of_nat (length name) then done None else done (Some name).

(** The loop of [for_each_symbol], which answers all symbols with their names. *)
Fixpoint symbols_from (n : nat) (symtab strtab : Shdr) (i : Z) : Load (list (Sym * option (list Z))) :=
  match n with
  | O => done []
  | S n =>
      let! sym := sym_at (sh_offset symtab + i * sym_size) in
      let! name := elf_symbol_name strtab (st_name sym) in
      let! rest := symbols_from n symtab strtab (i + 1) in
      done ((sym, name) :: rest)
  end.

Definition for_each_symbol : Load (list (Sym * option (list Z))) :=
  match m_binary with
  | [] => done []
  | _ =>
      let! sym_hdr := section_by_name_validated ".symtab" in
      match sym_hdr with
      | None => done []
      | Some sym_hdr =>
          let! str_hdr := section_by_name_validated ".strtab" in
          match str_hdr with
          | None => done []
          | Some str_hdr =>
              if sh_size sym_hdr =? 0 then done [] else
              let symtab_ents := sh_size sym_hdr / sym_size in
              reject symtab_ents <=? 0 with "ELF Symtab section index overflow" in
              let! _ := elf_offset sym_size (sh_offset sym_hdr) in
              symbols_from (Z.to_nat symtab_ents) sym_hdr str_hdr 0
          end
      end
  end.

Definition resolve_symbol (name : string) : Load (option Sym) :=
  let! symbols := for_each_symbol in
  done (fst <$> List.find (fun '(_, symname) => bool_decide (symname = Some (string_bytes name))) symbols).

Definition resolve_address (name : string) : Load Z :=
  let! sym := resolve_symbol name in
  done (match sym with Some sym => st_value sym | None => 0 end).

(** ** Segments *)

Definition PT_LOAD : Z := 1.
Definition PF_X : Z := 1.
Definition PF_W : Z := 2.
Definition PF_R : Z := 4.
Definition PAGE_SIZE : Z := 4096.

Record MachineOptions := mkOptions {
  load_program : bool;
  protect_segments : bool;
  allow_write_exec_segment : bool;
  enforce_exec_only : bool;
  ignore_text_section : bool;
  default_exit_function : string
}.

Record PageAttributes := mkAttributes { attr_read : bool; attr_write : bool; attr_exec : bool }.

(** Bytes copied into guest memory, and the attributes of their pages. *)
Record Copy := mkCopy {
  copy_vaddr : Z;
  copy_bytes : list Z;
  copy_attr : PageAttributes
}.

Record Loading := mkLoading {
  copies : list Copy;
  initial_rodata_end : Z;
  execute_segments : list Phdr;
  m_heap_address : Z
}.

(** [memory_arena_size()], or none with virtual paging. *)
Context (arena : option Z) (options : MachineOptions).

Definition segment_bytes (hdr : Phdr) : list Z :=
  take (Z.to_nat (p_filesz hdr)) (drop (Z.to_nat (p_offset hdr)) m_binary).

Definition flag (hdr : Phdr) (bit : Z) : bool := negb (Z.land (p_flags hdr) bit =? 0).

Definition binary_load_ph (hdr : Phdr) (vaddr : Z) (st : Loading) : Load Loading :=
  let len := p_filesz hdr in
  let file_end := to_uint64 (p_offset hdr + len) in
  reject (binary_size <=? p_offset hdr) || (file_end <? p_offset hdr) with "Bogus ELF program segment offset" in
  reject binary_size <? file_end with "Not enough room for ELF program segment" in
  reject to_uint64 (vaddr + len) <? vaddr with "Bogus ELF segment virtual base" in
  if len =? 0 then done st else
  let attr := mkAttributes (flag hdr PF_R) (flag hdr PF_W) (flag hdr PF_X) in
  if attr_exec attr && negb (attr_read attr) then done st else
  reject attr_exec attr && attr_write attr && negb (allow_write_exec_segment options)
    with "Insecure ELF has writable executable code (Disable check in MachineOptions)" in
  reject attr_exec attr && (attr_read attr || attr_write attr) && enforce_exec_only options
    with "Execute segment must be execute-only" in
  reject match arena with Some size => size <? to_uint64 (vaddr + len) | None => false end
    with "ELF segment exceeds arena size" in
  let rodata_end :=
    if attr_read attr && negb (attr_write attr) && bool_decide (is_Some arena)
    then Z.max (initial_rodata_end st) (to_uint64 (vaddr + len)) else initial_rodata_end st in
  let attr := if protect_segments options then attr else mkAttributes true true true in
  done (mkLoading (copies st ++ [mkCopy vaddr (segment_bytes hdr) attr]) rodata_end (execute_segments st) (m_heap_address st)).

(** Two loadable segments that share an address. *)
Definition overlap (hdr ph : Phdr) : bool :=
  (p_type hdr =? PT_LOAD) && (p_type ph =? PT_LOAD) &&
  (p_vaddr ph <? to_uint64 (p_vaddr hdr + p_filesz hdr)) && (p_vaddr hdr <? to_uint64 (p_vaddr ph + p_filesz ph)).

(** The body of the loop over the program headers. *)
Definition load_segment (earlier : list Phdr) (hdr : Phdr) (st : Loading) : Load Loading :=
  reject existsb (overlap hdr) earlier with "Overlapping ELF segments" in
  let! st :=
    if (p_type hdr =? PT_LOAD) && load_program options then
      let! st := binary_load_ph hdr (p_vaddr hdr) st in
      done (if flag hdr PF_X
            then mkLoading (copies st) (initial_rodata_end st) (execute_segments st ++ [hdr]) (m_heap_address st) else st)
    else done st in
  let endm := Z.land (to_uint64 (to_uint64 (p_vaddr hdr + p_memsz hdr) + (PAGE_SIZE - 1))) (to_uint64 (Z.lnot (PAGE_SIZE - 1))) in
  done (mkLoading (copies st) (initial_rodata_end st) (execute_segments st) (Z.max (m_heap_address st) endm)).

Fixpoint load_segments (n : nat) (phoff : Z) (earlier : list Phdr) (st : Loading) : Load Loading :=
  match n with
  | O => done st
  | S n =>
      let! hdr := program_header_at (phoff + Z.of_nat (length earlier) * phdr_size) in
      let! st := load_segment earlier hdr st in
      load_segments n phoff (earlier ++ [hdr]) st
  end.

(** What [create_execute_segment] is given: address and code. *)
Definition serialize_execute_segment (hdr : Phdr) : Load (Z * list Z) :=
  let exlen := p_filesz hdr in
  let vaddr := p_vaddr hdr in
  if ignore_text_section options then done (vaddr, segment_bytes hdr) else
  let! texthdr := section_by_name_validated ".text" in
  match texthdr with
  | Some texthdr =>
      if (vaddr <=? sh_addr texthdr) && (sh_size texthdr <=? exlen)
         && (to_uint64 (sh_addr texthdr + sh_size texthdr) <=? to_uint64 (vaddr + exlen))
      then done (sh_addr texthdr, section_bytes texthdr)
      else done (vaddr, segment_bytes hdr)
  | None => done (vaddr, segment_bytes hdr)
  end.

Fixpoint serialize_all (l : list Phdr) : Load (list (Z * list Z)) :=
  match l with
  | [] => done []
  | hdr :: l => let! x := serialize_execute_segment hdr in let! xs := serialize_all l in done (x :: xs)
  end.

(** ** The loader *)

(** A loaded program; no exit address is the loader's own exit function. *)
Record Loaded := mkLoaded {
  start_address : Z;
  memory : list Copy;
  rodata_end : Z;
  heap_address : Z;
  exit_address : option Z;
  code_segments : list (Z * list Z)
}.

(** [Elf::validate] *)
Definition validate (elf : Ehdr) : bool := bool_decide (take 5 (e_ident elf) = [0x7f; 69; 76; 70; 2]).

Definition ET_DYN : Z := 3.

Context `{Libriscv.Config}.

(** The checks of the file header. *)
Definition check_header (elf : Ehdr) : Load unit :=
  reject negb (validate elf) with "Invalid ELF header! Expected a 64-bit RISC-V ELF binary" in
  reject negb (e_type elf =? ET_EXEC) && negb (e_type elf =? ET_DYN)
    with "ELF program is not an executable type. Trying to load an object file?" in
  reject negb (e_machine elf =? EM_RISCV) with "ELF program is not a RISC-V executable. Wrong architecture." in
  reject negb (Z.land (e_flags elf) 1 =? 0) && negb Libriscv.compressed_enabled
    with "ELF is a RISC-V RVC executable, however C-extension is not enabled." in
  reject negb (Z.land (e_flags elf) 8 =? 0) with "ELF is a RISC-V RVE executable, however E-extension is not supported." in
  reject e_phnum elf <=? 0 with "ELF with no program-headers" in
  reject 16 <=? e_phnum elf with "ELF with too many program-headers" in
  reject 0x4000 <? e_phoff elf with "ELF program-headers have bogus offset" in
  reject binary_size <? to_uint64 (e_phoff elf + e_phnum elf * phdr_size) with "ELF program-headers are outside the binary" in
  reject negb (e_phoff elf mod 8 =? 0) with "ELF program-headers are not aligned" in
  done tt.

(** For a binary that is not [ET_DYN]. *)
Definition binary_loader : Load Loaded :=
  reject binary_size <? ehdr_size with "ELF program too short" in
  let! elf := header_at 0 in
  let! _ := check_header elf in
  let! st := load_segments (Z.to_nat (e_phnum elf)) (e_phoff elf) [] (mkLoading [] 0 [] 0) in
  let! exit :=
    match default_exit_function options with
    | EmptyString => done 0
    | name => resolve_address name
    end in
  let! segments := if load_program options then serialize_all (execute_segments st) else done [] in
  done (mkLoaded (e_entry elf) (copies st) (initial_rodata_end st) (m_heap_address st)
    (if exit =? 0 then None else Some exit) segments).

End Binary.

End ElfLoader.
