(* ===== verification/ElfFacts.v ===== *)
(** * The sandbox loads what the compiler builds *)

From stdpp Require Import pretty.
From S2P Require Import Prelude.
From S2P Require Import Wire.
From S2P Require Import LineTable.
From S2P Require Import VariantTypes.
From S2P Require Import GdsMeta.
From S2P Require Import Libriscv.
From S2P Require Import ElfBuilder.
From S2P Require Import ElfLoader.

Module ElfFacts.
Import Wire.
Import ElfBuilder.
Import ElfLoader.

Notation len l := (Z.of_nat (length l)).

(** ** Parts of an image *)

Definition part_at (img : list Z) (off : Z) (part : list Z) : Prop :=
  exists pre post, img = pre ++ part ++ post /\ off = len pre.

Lemma part_at_app img more off part : part_at img off part -> part_at (img ++ more) off part.
Proof. intros (pre & post & -> & E). exists pre, (post ++ more). by rewrite <- !app_assoc. Qed.

Lemma part_at_end img part : part_at (img ++ part) (len img) part.
Proof. exists img, []. by rewrite app_nil_r. Qed.

Lemma part_at_sub img off a part b : part_at img off (a ++ part ++ b) -> part_at img (off + len a) part.
Proof. intros (pre & post & -> & ->). exists (pre ++ a), (b ++ post). rewrite <- !app_assoc. split; [done|]. rewrite length_app. lia. Qed.

Lemma part_at_bounds img off part : part_at img off part -> 0 <= off /\ off + len part <= len img.
Proof. intros (pre & post & -> & ->). rewrite !length_app. lia. Qed.

Lemma part_at_drop img off part : part_at img off part -> exists post, drop (Z.to_nat off) img = part ++ post.
Proof. intros (pre & post & -> & ->). exists post. by rewrite Nat2Z.id, drop_app_length. Qed.

Lemma part_at_take img off part : part_at img off part -> take (length part) (drop (Z.to_nat off) img) = part.
Proof. intros (post & E)%part_at_drop. by rewrite E, take_app_length. Qed.

Lemma length_place img off bytes : len img <= off -> len (place img off bytes) = off + len bytes.
Proof. intros H. unfold place. rewrite !length_app, length_replicate. lia. Qed.

Lemma part_at_place img off bytes : len img <= off -> part_at (place img off bytes) off bytes.
Proof.
  intros H. unfold place. rewrite app_assoc. eexists _, []. rewrite app_nil_r. split; [done|]. rewrite length_app, length_replicate. lia.
Qed.

Lemma part_at_placed img off bytes off' part : part_at img off' part -> part_at (place img off bytes) off' part.
Proof. intros H. by apply part_at_app. Qed.

(** ** Structures *)

Definition fits (n : nat) (v : Z) : Prop := 0 <= v < 2 ^ (8 * Z.of_nat n).

Lemma read_write_fields widths values rest :
  Forall2 fits widths values -> read_fields widths (write_fields widths values ++ rest) = values.
Proof.
  induction 1 as [|n v widths values Hv _ IH]; [done|]. cbn.
  pose proof (length_write_scalar n v) as Hl. rewrite <- app_assoc.
  rewrite take_app_le, take_ge by lia. rewrite drop_app_ge, Hl, Nat.sub_diag, drop_0 by lia.
  rewrite IH, of_bytes_write_scalar. f_equal. by apply Z.mod_small.
Qed.

Lemma length_write_fields widths values :
  length widths = length values -> length (write_fields widths values) = list_sum widths.
Proof.
  revert values. induction widths as [|n widths IH]; intros [|v values]; try done. cbn. intros [= E].
  by rewrite length_app, length_write_scalar, IH.
Qed.

Lemma deref_fields {A} img off size widths (of_fields : list Z -> outcome A) values a :
  part_at img off (write_fields widths values) -> len (write_fields widths values) = size ->
  Forall2 fits widths values -> of_fields values = Ok a -> deref img size widths of_fields off = done a.
Proof.
  intros Hp Hs Hf Ha. unfold deref, binary_size. destruct (part_at_bounds _ _ _ Hp). rewrite Hs in *.
  destruct (Z.leb_spec (off + size) (len img)); [|lia]. destruct (part_at_drop _ _ _ Hp) as (post & ->).
  by rewrite read_write_fields, Ha.
Qed.

Definition shdr_values (h : Shdr) : list Z :=
  [sh_name h; sh_type h; sh_flags h; sh_addr h; sh_offset h; sh_size h; sh_link h; sh_info h; sh_addralign h; sh_entsize h].
Definition phdr_values (h : Phdr) : list Z :=
  [p_type h; p_flags h; p_offset h; p_vaddr h; p_paddr h; p_filesz h; p_memsz h; p_align h].
Definition sym_values (s : Sym) : list Z := [st_name s; st_info s; st_other s; st_shndx s; st_value s; st_size s].

Lemma shdr_read img off h :
  part_at img off (shdr_bytes h) -> Forall2 fits shdr_widths (shdr_values h) -> section_header_at img off = done h.
Proof. intros Hp Hf. eapply deref_fields; [done|done|done|]. by destruct h. Qed.

Lemma phdr_read img off h :
  part_at img off (phdr_bytes h) -> Forall2 fits phdr_widths (phdr_values h) -> program_header_at img off = done h.
Proof. intros Hp Hf. eapply deref_fields; [done|done|done|]. by destruct h. Qed.

Lemma sym_read img off s :
  part_at img off (sym_bytes s) -> Forall2 fits sym_widths (sym_values s) -> sym_at img off = done s.
Proof. intros Hp Hf. eapply deref_fields; [done|done|done|]. by destruct s. Qed.

(** An element of a table of structures of one size. *)
Lemma part_at_table {A} (bytes : A -> list Z) size img off l i x :
  (forall x, len (bytes x) = size) -> part_at img off (concat (map bytes l)) -> l !! i = Some x ->
  part_at img (off + Z.of_nat i * size) (bytes x).
Proof.
  intros Hs Hp Hx. apply list_elem_of_split_length in Hx as (l1 & l2 & -> & ->).
  rewrite map_app, concat_app in Hp. cbn in Hp. apply part_at_sub in Hp.
  enough (len (concat (map bytes l1)) = Z.of_nat (length l1) * size) as <- by done.
  clear Hp. induction l1 as [|y l1 IH]; [done|]. cbn. rewrite length_app, Nat2Z.inj_add, IH, Hs. lia.
Qed.

Lemma length_table {A} (bytes : A -> list Z) size l :
  (forall x, len (bytes x) = size) -> len (concat (map bytes l)) = len l * size.
Proof. intros Hs. induction l as [|x l IH]; [done|]. cbn. rewrite length_app, Nat2Z.inj_add, IH, Hs. lia. Qed.

Lemma length_shdr h : len (shdr_bytes h) = shdr_size.
Proof. done. Qed.
Lemma length_phdr h : len (phdr_bytes h) = phdr_size.
Proof. done. Qed.
Lemma length_sym s : len (sym_bytes s) = sym_size.
Proof. done. Qed.

(** ** Names *)

Definition no_nul (s : string) : Prop := Forall (fun b => b <> 0) (string_bytes s).

Lemma until_nul_string s rest : no_nul s -> until_nul (c_string s ++ rest) = string_bytes s.
Proof.
  unfold no_nul, c_string. rewrite <- app_assoc. generalize (string_bytes s). intros l. induction 1 as [|b l Hb _ IH]; [done|].
  cbn. destruct (Z.eqb_spec b 0); [done|]. f_equal. apply IH.
Qed.

Lemma string_bytes_inj s s' : string_bytes s = string_bytes s' -> s = s'.
Proof. intros E. by rewrite <- (bytes_string_bytes s), E, bytes_string_bytes. Qed.

Lemma part_at_name img off names i name :
  part_at img off (string_table names) -> names !! i = Some name -> part_at img (off + name_offset names i) (c_string name).
Proof.
  intros Hp Hi. pose proof (take_drop_middle _ _ _ Hi) as E. rewrite <- E in Hp at 1. unfold string_table in Hp.
  rewrite map_app, concat_app in Hp. cbn in Hp. by apply part_at_sub in Hp.
Qed.

Lemma name_until_nul img off names i name :
  part_at img off (string_table names) -> names !! i = Some name -> no_nul name ->
  until_nul (drop (Z.to_nat (off + name_offset names i)) img) = string_bytes name.
Proof. intros Hp Hi Hn. destruct (part_at_drop _ _ _ (part_at_name _ _ _ _ _ Hp Hi)) as (post & ->). by apply until_nul_string. Qed.

(** ** The image *)

Lemma align_spec k x : 0 <= k -> x <= align_to (2 ^ k) x < x + 2 ^ k /\ align_to (2 ^ k) x mod 2 ^ k = 0.
Proof.
  intros Hk. unfold align_to. rewrite <- Z.ldiff_land.
  replace (2 ^ k - 1) with (Z.ones k) by (rewrite Z.ones_equiv; lia). rewrite Z.ldiff_ones_r by done.
  rewrite Z.shiftl_mul_pow2, Z.shiftr_div_pow2, Z.ones_equiv by done.
  assert (0 < 2 ^ k) by (by apply Z.pow_pos_nonneg). split; [|by apply Z.mod_mul; lia].
  pose proof (Z.div_mod (x + Z.pred (2 ^ k)) (2 ^ k) ltac:(lia)). pose proof (Z.mod_pos_bound (x + Z.pred (2 ^ k)) (2 ^ k) ltac:(lia)). lia.
Qed.

Lemma align_8 x : x <= align_to 8 x < x + 8 /\ align_to 8 x mod 8 = 0.
Proof. by apply (align_spec 3). Qed.

Lemma align_page x : x <= align_to 0x1000 x < x + 0x1000 /\ align_to 0x1000 x mod 0x1000 = 0.
Proof. by apply (align_spec 12). Qed.

(** Decides the comparisons and drops the wrap-arounds of a goal. *)
Ltac settle :=
  unfold binary_size in *;
  repeat match goal with
  | |- context [to_uint64 ?x] => rewrite (TypeSet.to_uint64_small x) by lia
  | |- context [?a <? ?b] => first [rewrite (proj2 (Z.ltb_ge a b)) by lia | rewrite (proj2 (Z.ltb_lt a b)) by lia]
  | |- context [?a <=? ?b] => first [rewrite (proj2 (Z.leb_gt a b)) by lia | rewrite (proj2 (Z.leb_le a b)) by lia]
  | |- context [?a =? ?b] => first [rewrite (proj2 (Z.eqb_neq a b)) by lia | rewrite (proj2 (Z.eqb_eq a b)) by lia]
  end; cbn [orb andb negb lbind done].

(** What goes into an image. *)
Record Parts := mkParts {
  has_globals : bool;
  text : list Z;
  data : list Z;
  symtab : list Z;
  strtab : list Z;
  comment : list Z;
  gdsmeta : list Z;
  shstrtab : list Z
}.

Definition layout (P : Parts) : Layout :=
  layout_of (has_globals P) (len (text P)) (len (data P)) (len (symtab P)) (len (strtab P)) (len (comment P)) (len (gdsmeta P)) (len (shstrtab P)).

Definition segments (P : Parts) : list Phdr := program_headers (has_globals P) (layout P) (len (text P)) (len (data P)).

Definition sections (P : Parts) : list Shdr :=
  section_headers (has_globals P) (layout P) (len (text P)) (len (data P)) (len (symtab P)) (len (strtab P)) (len (comment P))
    (len (gdsmeta P)) (len (shstrtab P)).

Definition image (P : Parts) : list Z :=
  let l := layout P in
  let elf_data := ehdr_bytes (file_header (has_globals P) l) ++ concat (map phdr_bytes (segments P)) in
  let elf_data := place elf_data (text_offset l) (text P) in
  let elf_data := if has_globals P then place elf_data (data_offset l) (data P) else elf_data in
  let elf_data := place elf_data (symtab_offset l) (symtab P) ++ strtab P in
  let elf_data := place elf_data (comment_offset l) (comment P) in
  let elf_data := place elf_data (gdsmeta_offset l) (gdsmeta P) in
  let elf_data := place elf_data (shstrtab_offset l) (shstrtab P) in
  place elf_data (shdr_offset l) (concat (map shdr_bytes (sections P))).

(** The parts follow each other. *)
Record Ordered (P : Parts) : Prop := {
  od_text : text_offset (layout P) = 0x1000;
  od_data : has_globals P = true -> 0x1000 + len (text P) <= data_offset (layout P) /\ data_offset (layout P) mod 0x1000 = 0;
  od_no_data : has_globals P = false -> data_offset (layout P) = 0;
  od_symtab : (if has_globals P then data_offset (layout P) + len (data P) else 0x1000 + len (text P)) <= symtab_offset (layout P);
  od_strtab : strtab_offset (layout P) = symtab_offset (layout P) + len (symtab P);
  od_comment : comment_offset (layout P) = strtab_offset (layout P) + len (strtab P);
  od_gdsmeta : comment_offset (layout P) + len (comment P) <= gdsmeta_offset (layout P);
  od_shstrtab : shstrtab_offset (layout P) = gdsmeta_offset (layout P) + len (gdsmeta P);
  od_shdr : shstrtab_offset (layout P) + len (shstrtab P) <= shdr_offset (layout P)
}.

Lemma ordered P : Ordered P.
Proof.
  destruct P as [hg te da sy st co gd sh]. unfold layout, layout_of. cbn [has_globals text data symtab strtab comment gdsmeta shstrtab].
  assert (E : align_to 0x1000 (ehdr_size + (if hg then 2 else 1) * phdr_size) = 0x1000) by (by destruct hg).
  split; cbn [text_offset data_offset symtab_offset strtab_offset comment_offset gdsmeta_offset shstrtab_offset shdr_offset
              has_globals text data symtab strtab comment gdsmeta shstrtab layout]; try done; rewrite ?E.
  - intros ->. split; apply align_page.
  - intros ->. done.
  - destruct hg; apply align_8.
  - apply align_8.
  - apply align_8.
Qed.

Record Image (P : Parts) (img : list Z) : Prop := {
  im_ehdr : part_at img 0 (ehdr_bytes (file_header (has_globals P) (layout P)));
  im_segments : part_at img ehdr_size (concat (map phdr_bytes (segments P)));
  im_text : part_at img 0x1000 (text P);
  im_data : has_globals P = true -> part_at img (data_offset (layout P)) (data P);
  im_symtab : part_at img (symtab_offset (layout P)) (symtab P);
  im_strtab : part_at img (strtab_offset (layout P)) (strtab P);
  im_comment : part_at img (comment_offset (layout P)) (comment P);
  im_gdsmeta : part_at img (gdsmeta_offset (layout P)) (gdsmeta P);
  im_shstrtab : part_at img (shstrtab_offset (layout P)) (shstrtab P);
  im_sections : part_at img (shdr_offset (layout P)) (concat (map shdr_bytes (sections P)));
  im_size : len img = shdr_offset (layout P) + len (sections P) * shdr_size
}.

(** One more part: what is there stays, and the new part starts at its offset. *)
Lemma placed img off bytes :
  len img <= off ->
  exists img', place img off bytes = img' /\ part_at img' off bytes /\ len img' = off + len bytes /\
    forall off' part, part_at img off' part -> part_at img' off' part.
Proof.
  intros H. eexists. split; [done|]. split; [by apply part_at_place|]. split; [by apply length_place|]. intros. by apply part_at_placed.
Qed.

Lemma head_parts h l :
  let img := ehdr_bytes h ++ concat (map phdr_bytes l) in
  len (ehdr_bytes h) = ehdr_size ->
  part_at img 0 (ehdr_bytes h) /\ part_at img ehdr_size (concat (map phdr_bytes l)) /\ len img = ehdr_size + len l * phdr_size.
Proof.
  intros img Hh. split_and!.
  - apply part_at_app. exists [], []. by rewrite app_nil_r.
  - rewrite <- Hh. apply part_at_end.
  - unfold img. by rewrite length_app, Nat2Z.inj_add, Hh, (length_table _ phdr_size).
Qed.

Lemma image_parts P : Image P (image P).
Proof.
  pose proof (ordered P) as [Ht Hd Hn Hsy Hst Hco Hgd Hsh Hsd]. unfold image. set (l := layout P) in *.
  destruct (head_parts (file_header (has_globals P) l) (segments P) eq_refl) as (P1 & P2 & L0).
  set (e0 := ehdr_bytes _ ++ _) in *. assert (len (segments P) <= 2) by (unfold segments, program_headers; destruct (has_globals P); cbn; lia).
  change phdr_size with 56 in L0. change ehdr_size with 64 in L0.
  destruct (placed e0 (text_offset l) (text P)) as (e1 & -> & P3 & L1 & K1); [lia|]. rewrite Ht in *.
  assert (exists e2, (if has_globals P then place e1 (data_offset l) (data P) else e1) = e2 /\
      (has_globals P = true -> part_at e2 (data_offset l) (data P)) /\ len e2 <= symtab_offset l /\
      forall off part, part_at e1 off part -> part_at e2 off part) as (e2 & -> & P4 & L2 & K2).
  { destruct (has_globals P).
    - destruct (placed e1 (data_offset l) (data P)) as (e2 & -> & P4 & L2 & K2); [destruct Hd; [done|lia]|]. exists e2. split_and!; [done|done|lia|done].
    - exists e1. split_and!; [done|done|lia|done]. }
  destruct (placed e2 (symtab_offset l) (symtab P) L2) as (e3 & -> & P5 & L3 & K3).
  assert (P6 : part_at (e3 ++ strtab P) (strtab_offset l) (strtab P)) by (rewrite Hst, <- L3; apply part_at_end).
  assert (K4 : forall off part, part_at e3 off part -> part_at (e3 ++ strtab P) off part) by (intros; by apply part_at_app).
  assert (L4 : len (e3 ++ strtab P) = comment_offset l) by (rewrite length_app; lia). set (e4 := e3 ++ strtab P) in *.
  destruct (placed e4 (comment_offset l) (comment P)) as (e5 & -> & P7 & L5 & K5); [lia|].
  destruct (placed e5 (gdsmeta_offset l) (gdsmeta P)) as (e6 & -> & P8 & L6 & K6); [lia|].
  destruct (placed e6 (shstrtab_offset l) (shstrtab P)) as (e7 & -> & P9 & L7 & K7); [lia|].
  destruct (placed e7 (shdr_offset l) (concat (map shdr_bytes (sections P)))) as (e8 & -> & P10 & L8 & K8); [lia|].
  split; fold l; auto 10. rewrite L8. by rewrite (length_table _ shdr_size).
Qed.

(** ** What the loader reads in an image *)

Section Reading.
Context (P : Parts) (img : list Z) (HI : Image P img) (Hsh : shstrtab P = string_table (section_names (has_globals P)))
  (Hsmall : len img < 2 ^ 32).

Record Bounds : Prop := {
  bd_text : len (text P) < 2 ^ 32;
  bd_data : has_globals P = true -> len (data P) < 2 ^ 32;
  bd_data_offset : 0 <= data_offset (layout P) < 2 ^ 32;
  bd_symtab : 0 <= symtab_offset (layout P) < 2 ^ 32 /\ len (symtab P) < 2 ^ 32;
  bd_strtab : 0 <= strtab_offset (layout P) < 2 ^ 32 /\ len (strtab P) < 2 ^ 32;
  bd_comment : 0 <= comment_offset (layout P) < 2 ^ 32 /\ len (comment P) < 2 ^ 32;
  bd_gdsmeta : 0 <= gdsmeta_offset (layout P) < 2 ^ 32 /\ len (gdsmeta P) < 2 ^ 32;
  bd_shstrtab : 0 <= shstrtab_offset (layout P) < 2 ^ 32 /\ len (shstrtab P) < 2 ^ 32;
  bd_shdr : 0 <= shdr_offset (layout P) < 2 ^ 32;
  bd_data_vaddr : 0x10000 + len (text P) <= data_vaddr (len (text P)) < 2 ^ 33
}.

Lemma image_bounds : Bounds.
Proof.
  pose proof (part_at_bounds _ _ _ (im_text _ _ HI)). pose proof (part_at_bounds _ _ _ (im_symtab _ _ HI)).
  pose proof (part_at_bounds _ _ _ (im_strtab _ _ HI)). pose proof (part_at_bounds _ _ _ (im_comment _ _ HI)).
  pose proof (part_at_bounds _ _ _ (im_gdsmeta _ _ HI)). pose proof (part_at_bounds _ _ _ (im_shstrtab _ _ HI)).
  pose proof (part_at_bounds _ _ _ (im_sections _ _ HI)). pose proof (align_page (BASE_ADDR + len (text P))) as [Hv _].
  unfold data_vaddr, BASE_ADDR in *. split; try lia.
  - intros E. pose proof (part_at_bounds _ _ _ (im_data _ _ HI E)). lia.
  - destruct (has_globals P) eqn:E; [pose proof (part_at_bounds _ _ _ (im_data _ _ HI E))|rewrite (od_no_data _ (ordered P) E)]; lia.
  - unfold data_vaddr, BASE_ADDR. lia.
Qed.

Lemma header_read : elf_header img = done (file_header (has_globals P) (layout P)).
Proof.
  destruct image_bounds. pose proof (part_at_bounds _ _ _ (im_ehdr _ _ HI)) as [_ Hl]. change (len (ehdr_bytes _)) with 64 in Hl.
  unfold elf_header, elf_offset, binary_size. change (to_uint64 (0 + ehdr_size)) with 64.
  destruct (Z.leb_spec 64 (len img)); [|lia]. cbn [andb Z.leb lbind Z.compare done].
  eapply deref_fields; [exact (im_ehdr _ _ HI)|done| |by destruct (has_globals P)].
  unfold file_header, ET_EXEC, EM_RISCV, EV_CURRENT, BASE_ADDR, FAST_EXIT_SIZE, ehdr_size, phdr_size, shdr_size. cbn [e_ident app replicate].
  destruct (has_globals P); repeat (constructor; [unfold fits; cbn -[Z.pow layout]; lia|]); constructor.
Qed.

Lemma to_uint32_fits x : fits 4 (to_uint32 x).
Proof. unfold fits, wrapu. apply Z.mod_pos_bound. lia. Qed.

Lemma fits_4 v : 0 <= v < 2 ^ 32 -> fits 4 v.
Proof. done. Qed.

Lemma fits_8 v : 0 <= v < 2 ^ 34 -> fits 8 v.
Proof. unfold fits. change (2 ^ (8 * Z.of_nat 8)) with (2 ^ 64). lia. Qed.

Lemma sections_fit : Forall (fun h => Forall2 fits shdr_widths (shdr_values h)) (sections P).
Proof.
  destruct image_bounds. unfold sections, section_headers. pose proof to_uint32_fits as Hu. pose proof (od_text _ (ordered P)).
  assert (Hlink : Z.of_nat (idx_symtab (has_globals P)) <= 3) by (unfold idx_symtab; destruct (has_globals P); lia).
  destruct (has_globals P) eqn:Eg; cbn [app]; [specialize (bd_data0 eq_refl)|]; repeat (apply Forall_cons; split); try apply Forall_nil_2;
    unfold shdr_values, shdr_widths; cbn [sh_name sh_type sh_flags sh_addr sh_offset sh_size sh_link sh_info sh_addralign sh_entsize];
    repeat (constructor; [first [apply Hu|apply fits_4; lia|apply fits_8; unfold BASE_ADDR, sym_size in *; lia]|]); constructor.
Qed.

Lemma section_read i h : sections P !! i = Some h -> section_header_at img (shdr_offset (layout P) + Z.of_nat i * shdr_size) = done h.
Proof.
  intros Hi. apply shdr_read.
  - eapply part_at_table; [apply length_shdr|apply HI|done].
  - by apply (Forall_lookup_1 _ _ _ _ sections_fit Hi).
Qed.

Lemma section_name i h name : sections P !! i = Some h -> section_names (has_globals P) !! i = Some name ->
  sh_name h = name_offset (section_names (has_globals P)) i /\ sh_name h < len (shstrtab P) /\ no_nul name.
Proof.
  rewrite Hsh. unfold sections, section_headers, section_names. destruct (has_globals P); cbn [app idx_symtab];
    do 7 (destruct i as [|i]; [intros [= <-] [= <-]; split; [done|split; [done|by apply (bool_decide_unpack _); vm_compute]]|]);
    try done.
  destruct i as [|i]; [|done]. intros [= <-] [= <-]. split; [done|split; [done|by apply (bool_decide_unpack _); vm_compute]].
Qed.

(** The loop over the sections is a search by name. *)
Lemma find_section_spec strings name hs names i0 shoff :
  length hs = length names ->
  (forall k h n, hs !! k = Some h -> names !! k = Some n ->
    section_header_at img (shoff + (i0 + Z.of_nat k) * shdr_size) = done h /\ 0 <= strings /\ 0 <= sh_name h /\
    strings + sh_name h < len img /\ until_nul (drop (Z.to_nat (strings + sh_name h)) img) = string_bytes n) ->
  find_section img (length hs) name shoff strings i0
  = done (fst <$> List.find (fun '(_, n) => bool_decide (n = name)) (combine hs names)).
Proof.
  revert names i0. induction hs as [|h hs IH]; intros [|n names] i0; try done. intros [= Hl] H. cbn [length find_section combine List.find].
  destruct (H 0%nat h n eq_refl eq_refl) as (Hr & H0 & H1 & Hs & Hn). rewrite Z.add_0_r in Hr. rewrite Hr. cbn [lbind done].
  settle. rewrite Hn.
  case_bool_decide as Hname; [subst; by rewrite decide_True|]. rewrite decide_False by (intros Hb; by apply string_bytes_inj in Hb).
  apply IH; [done|]. intros k h' n' Hh Hn'. specialize (H (S k) h' n' Hh Hn'). by replace (i0 + 1 + Z.of_nat k) with (i0 + Z.of_nat (S k)) by lia.
Qed.

Lemma sections_count : length (sections P) = length (section_names (has_globals P)) /\ 7 <= len (sections P) <= 8.
Proof. unfold sections. destruct (has_globals P); cbn; lia. Qed.

Lemma shstrtab_header :
  exists h, sections P !! (idx_symtab (has_globals P) + 4)%nat = Some h /\ sh_offset h = shstrtab_offset (layout P) /\
    Z.of_nat (idx_symtab (has_globals P)) + 4 = len (sections P) - 1.
Proof. unfold sections. destruct (has_globals P); by eexists. Qed.

Lemma section_lookup name :
  section_by_name img name
  = done (fst <$> List.find (fun '(_, n) => bool_decide (n = name)) (combine (sections P) (section_names (has_globals P)))).
Proof.
  destruct image_bounds. destruct sections_count as [Hn Hc]. destruct shstrtab_header as (h & Hh & Ho & Hi).
  pose proof (part_at_bounds _ _ _ (im_sections _ _ HI)) as [_ Hs]. rewrite (length_table _ shdr_size) in Hs by done.
  pose proof (part_at_bounds _ _ _ (im_shstrtab _ _ HI)) as [_ Hst]. pose proof (od_shdr _ (ordered P)).
  unfold section_by_name. rewrite header_read. cbn [lbind done file_header e_shoff e_shnum e_shstrndx]. rewrite <- Hn.
  change shdr_size with 64 in *. unfold elf_offset. settle.
  pose proof (section_read _ h Hh) as Hr. rewrite Nat2Z.inj_add in Hr. change shdr_size with 64 in Hr. change (Z.of_nat 4) with 4 in Hr. rewrite Hr. cbn [lbind done].
  rewrite Ho. settle. rewrite Nat2Z.id. apply find_section_spec; [done|].
  intros k h' n Hk Hkn. destruct (section_name k h' n Hk Hkn) as (E & Hb & Hnul). split; [by apply section_read|].
  pose proof (Forall_lookup_1 _ _ _ _ sections_fit Hk) as Hf. inversion Hf as [|? ? ? ? Hfit]. unfold fits in Hfit.
  split_and!; [lia|lia|lia|]. rewrite E. apply name_until_nul; [|done|done]. rewrite <- Hsh. apply HI.
Qed.

Definition found (name : string) (addr off : Z) (part : list Z) : Prop :=
  exists h, section_by_name_validated img name = done (Some h) /\ sh_addr h = addr /\ sh_offset h = off /\ sh_size h = len part.

Lemma section_found name h off part :
  (fst <$> List.find (fun '(_, n) => bool_decide (n = name)) (combine (sections P) (section_names (has_globals P)))) = Some h ->
  sh_type h =? SHT_NOBITS = false -> part_at img off part -> sh_offset h = off -> sh_size h = len part ->
  found name (sh_addr h) off part.
Proof.
  intros Hf Ht Hp Ho Hs. exists h. split; [|done]. unfold section_by_name_validated. rewrite section_lookup, Hf. cbn [lbind done].
  rewrite Ht. destruct (part_at_bounds _ _ _ Hp). rewrite Ho, Hs. by settle.
Qed.

Lemma text_found : found ".text" BASE_ADDR 0x1000 (text P).
Proof.
  rewrite <- (od_text _ (ordered P)). unfold sections.
  eapply (section_found ".text" (mkShdr _ _ _ _ _ _ _ _ _ _)); [unfold sections; destruct (has_globals P); reflexivity|done| |done|done].
  rewrite (od_text _ (ordered P)). apply HI.
Qed.

Lemma symtab_found : found ".symtab" 0 (symtab_offset (layout P)) (symtab P).
Proof.
  eapply (section_found ".symtab" (mkShdr (to_uint32 (name_offset (section_names (has_globals P)) (idx_symtab (has_globals P)))) 2 0 0 _ _
    (Z.of_nat (idx_symtab (has_globals P)) + 1) 1 8 sym_size)); [unfold sections; destruct (has_globals P); reflexivity|done|apply HI|done|done].
Qed.

Lemma strtab_found : found ".strtab" 0 (strtab_offset (layout P)) (strtab P).
Proof.
  eapply (section_found ".strtab" (mkShdr (to_uint32 (name_offset (section_names (has_globals P)) (idx_symtab (has_globals P) + 1)))
    _ _ _ _ _ _ _ _ _)); [unfold sections; destruct (has_globals P); reflexivity|done|apply HI|done|done].
Qed.

Lemma gdsmeta_found : found GDSMETA_SECTION 0 (gdsmeta_offset (layout P)) (gdsmeta P).
Proof.
  eapply (section_found GDSMETA_SECTION (mkShdr (to_uint32 (name_offset (section_names (has_globals P)) (idx_symtab (has_globals P) + 3)))
    _ _ _ _ _ _ _ _ _)); [unfold sections; destruct (has_globals P); reflexivity|done|apply HI|done|done].
Qed.

(** ** Segments *)

Lemma segments_fit : Forall (fun h => Forall2 fits phdr_widths (phdr_values h)) (segments P).
Proof.
  destruct image_bounds. unfold segments, program_headers. pose proof (od_text _ (ordered P)).
  destruct (has_globals P) eqn:Eg; [specialize (bd_data0 eq_refl)|]; repeat (apply Forall_cons; split); try apply Forall_nil_2;
    unfold phdr_values, phdr_widths; cbn [p_type p_flags p_offset p_vaddr p_paddr p_filesz p_memsz p_align];
    repeat (constructor; [first [apply fits_4; lia|apply fits_8; unfold BASE_ADDR in *; lia]|]); constructor.
Qed.

Lemma segment_read i h : segments P !! i = Some h -> program_header_at img (ehdr_size + Z.of_nat i * phdr_size) = done h.
Proof.
  intros Hi. apply phdr_read.
  - eapply part_at_table; [apply length_phdr|apply HI|done].
  - by apply (Forall_lookup_1 _ _ _ _ segments_fit Hi).
Qed.

Context (arena : option Z) (options : MachineOptions).
Context (Hload : load_program options = true) (Hexec : enforce_exec_only options = false).

Definition attributes (r w x : bool) : PageAttributes :=
  if protect_segments options then mkAttributes r w x else mkAttributes true true true.

Definition room (last : Z) : Prop := match arena with Some size => last <= size | None => True end.

Lemma load_ph hdr part st :
  part_at img (p_offset hdr) part -> p_filesz hdr = len part -> 0 < len part -> 0 <= p_vaddr hdr < 2 ^ 34 -> room (p_vaddr hdr + len part) ->
  flag hdr PF_R = true -> flag hdr PF_W && flag hdr PF_X = false ->
  binary_load_ph img arena options hdr (p_vaddr hdr) st
  = done (mkLoading (copies st ++ [mkCopy (p_vaddr hdr) part (attributes true (flag hdr PF_W) (flag hdr PF_X))])
      (if negb (flag hdr PF_W) && bool_decide (is_Some arena) then Z.max (initial_rodata_end st) (p_vaddr hdr + len part) else initial_rodata_end st)
      (execute_segments st) (m_heap_address st)).
Proof.
  intros Hp Hs Hpos Hv Hroom Hr Hwx. destruct (part_at_bounds _ _ _ Hp). unfold binary_load_ph. rewrite Hs. settle.
  assert (E : match arena with Some size => size <? p_vaddr hdr + len part | None => false end = false).
  { unfold room in Hroom. destruct arena; [by settle|done]. }
  assert (Eb : segment_bytes img hdr = part) by (unfold segment_bytes; by rewrite Hs, Nat2Z.id, (part_at_take _ _ _ Hp)).
  cbn [attr_read attr_write attr_exec]. unfold attributes. rewrite Hr, Hexec, E, Eb. by destruct (flag hdr PF_W), (flag hdr PF_X).
Qed.

Lemma heap_end x : 0 <= x < 2 ^ 35 ->
  Z.land (to_uint64 (to_uint64 x + (PAGE_SIZE - 1))) (to_uint64 (Z.lnot (PAGE_SIZE - 1))) = align_to PAGE_SIZE x.
Proof.
  intros Hx. unfold PAGE_SIZE, align_to. rewrite !TypeSet.to_uint64_small by (rewrite ?TypeSet.to_uint64_small; lia).
  replace (to_uint64 (Z.lnot (4096 - 1))) with (Z.land (Z.lnot (4096 - 1)) (Z.ones 64)) by done.
  rewrite (Z.land_comm (Z.lnot _)), Z.land_assoc. f_equal. rewrite Z.land_ones by lia. apply Z.mod_small. lia.
Qed.

(** The end of the program in memory. *)
Definition program_end : Z := if has_globals P then data_vaddr (len (text P)) + len (data P) else BASE_ADDR + len (text P).

Definition program_copies : list Copy :=
  mkCopy BASE_ADDR (text P) (attributes true false true) ::
  (if has_globals P then [mkCopy (data_vaddr (len (text P))) (data P) (attributes true true false)] else []).

Definition text_segment : Phdr := mkPhdr 1 5 (text_offset (layout P)) BASE_ADDR BASE_ADDR (len (text P)) (len (text P)) 0x1000.

Definition loaded_segments : Loading :=
  mkLoading program_copies (if bool_decide (is_Some arena) then BASE_ADDR + len (text P) else 0) [text_segment] (align_to PAGE_SIZE program_end).

Lemma load_segment_spec earlier hdr part st :
  existsb (overlap hdr) earlier = false -> p_type hdr = PT_LOAD -> p_memsz hdr = len part ->
  part_at img (p_offset hdr) part -> p_filesz hdr = len part -> 0 < len part -> 0 <= p_vaddr hdr < 2 ^ 34 -> room (p_vaddr hdr + len part) ->
  flag hdr PF_R = true -> flag hdr PF_W && flag hdr PF_X = false ->
  load_segment img arena options earlier hdr st
  = done (mkLoading (copies st ++ [mkCopy (p_vaddr hdr) part (attributes true (flag hdr PF_W) (flag hdr PF_X))])
      (if negb (flag hdr PF_W) && bool_decide (is_Some arena) then Z.max (initial_rodata_end st) (p_vaddr hdr + len part) else initial_rodata_end st)
      (execute_segments st ++ if flag hdr PF_X then [hdr] else [])
      (Z.max (m_heap_address st) (align_to PAGE_SIZE (p_vaddr hdr + len part)))).
Proof.
  intros He Hty Hms Hp Hs Hpos Hv Hroom Hr Hwx. unfold load_segment. rewrite He, Hty, Hload. cbn [andb Z.eqb PT_LOAD Pos.eqb].
  rewrite (load_ph hdr part st) by done. cbn [lbind done]. destruct (part_at_bounds _ _ _ Hp). rewrite Hms.
  rewrite (TypeSet.to_uint64_small (p_vaddr hdr + len part)) by lia. rewrite <- (heap_end (p_vaddr hdr + len part)) by lia.
  rewrite (TypeSet.to_uint64_small (p_vaddr hdr + len part)) by lia.
  by destruct (flag hdr PF_X); cbn [copies initial_rodata_end execute_segments m_heap_address]; rewrite ?app_nil_r.
Qed.

Lemma segments_load :
  0 < len (text P) -> (has_globals P = true -> 0 < len (data P)) -> room program_end ->
  load_segments img arena options (length (segments P)) ehdr_size [] (mkLoading [] 0 [] 0) = done loaded_segments.
Proof.
  intros Ht Hd Hroom. destruct image_bounds as [Hbt Hbd _ _ _ _ _ _ _ Hbv]. pose proof (od_text _ (ordered P)) as Eo.
  assert (Hfirst : segments P !! 0%nat = Some text_segment) by done.
  assert (Hrt : room (BASE_ADDR + len (text P))).
  { unfold room, program_end, BASE_ADDR in *. destruct arena; [|done]. destruct (has_globals P); lia. }
  pose proof (load_segment_spec [] text_segment (text P) (mkLoading [] 0 [] 0) eq_refl eq_refl eq_refl) as H1.
  cbn [p_offset text_segment p_vaddr p_filesz] in H1. rewrite Eo in H1. specialize (H1 (im_text _ _ HI) eq_refl Ht ltac:(done) Hrt eq_refl eq_refl).
  change (flag text_segment PF_W) with false in H1. change (flag text_segment PF_X) with true in H1.
  cbn [copies app initial_rodata_end execute_segments m_heap_address negb andb] in H1.
  pose proof (align_page (BASE_ADDR + len (text P))) as [Hal _]. fold (data_vaddr (len (text P))) in Hal.
  pose proof (segment_read 0 _ Hfirst) as R1. pose proof (segment_read 1) as R2. pose proof (im_data _ _ HI) as Hdata. unfold loaded_segments, program_copies, program_end in *.
  unfold segments at 1, program_headers. unfold BASE_ADDR in *.
  destruct (has_globals P) eqn:Eg; cbn [length load_segments]; rewrite R1; cbn [lbind done]; rewrite H1; cbn [lbind done length app].
  - set (data_segment := mkPhdr 1 6 (data_offset (layout P)) (data_vaddr (len (text P))) (data_vaddr (len (text P))) (len (data P)) (len (data P)) 0x1000).
    assert (Hsecond : segments P !! 1%nat = Some data_segment) by (unfold segments; by rewrite Eg).
    rewrite (R2 _ Hsecond). cbn [lbind done]. specialize (Hd eq_refl).
    rewrite (load_segment_spec _ data_segment (data P)); [| |done|done|by apply Hdata|done|done|cbn; lia|done|done|done].
    + cbn [lbind done copies initial_rodata_end execute_segments m_heap_address].
      change (flag data_segment PF_W) with true. change (flag data_segment PF_X) with false. cbn [negb andb app p_vaddr data_segment].
      pose proof (align_page (data_vaddr (len (text P)) + len (data P))) as [Hal2 _]. unfold PAGE_SIZE, data_vaddr, BASE_ADDR in *.
      by rewrite !Z.max_r by lia.
    + cbn [existsb]. unfold overlap. cbn [p_type p_vaddr p_filesz text_segment data_segment]. unfold BASE_ADDR. settle. by rewrite !andb_false_r.
  - pose proof (align_page (65536 + len (text P))) as [Hal2 _]. unfold PAGE_SIZE. by rewrite !Z.max_r by lia.
Qed.

(** ** Symbols *)

Definition sym_fits (s : Sym) : Prop := Forall2 fits [1; 1; 2; 8; 8]%nat [st_info s; st_other s; st_shndx s; st_value s; st_size s].

Context (l : list Export) (Hsym : symtab P = concat (map sym_bytes (symbol_table l))) (Hstr : strtab P = string_table (map fst l))
  (Hl : Forall (fun e => no_nul e.1 /\ sym_fits e.2) l) (Hnil : l <> []).

Lemma symbol_name_read i e h :
  l !! i = Some e -> sh_offset h = strtab_offset (layout P) -> sh_size h = len (strtab P) ->
  name_offset (map fst l) i < len (strtab P) /\
  elf_symbol_name img h (name_offset (map fst l) i) = done (Some (string_bytes e.1)).
Proof.
  intros Hi Ho Hs. set (names := map fst l) in *. assert (Hn : names !! i = Some e.1) by (unfold names; by rewrite list_lookup_fmap, Hi).
  pose proof (im_strtab _ _ HI) as Hp. pose proof (part_at_bounds _ _ _ Hp) as [Hp0 Hpl].
  assert (E : strtab P = string_table (take i names) ++ c_string e.1 ++ string_table (drop (S i) names)).
  { rewrite Hstr. fold names. rewrite <- (take_drop_middle names i e.1 Hn) at 1. unfold string_table. by rewrite map_app, concat_app. }
  assert (El : len (strtab P) = name_offset names i + (len (c_string e.1) + len (string_table (drop (S i) names)))).
  { rewrite E, !length_app. unfold name_offset. lia. }
  assert (Hc : len (c_string e.1) = len (string_bytes e.1) + 1) by (unfold c_string; rewrite length_app; cbn; lia).
  assert (Hno : 0 <= name_offset names i) by (unfold name_offset; lia).
  split; [lia|]. unfold elf_symbol_name. rewrite Ho, Hs. unfold elf_offset. settle.
  assert (Hd : part_at img (strtab_offset (layout P) + name_offset names i) (c_string e.1 ++ string_table (drop (S i) names))).
  { apply (part_at_sub _ _ _ _ []). rewrite app_nil_r, <- E. apply HI. }
  assert (Hlen : Z.to_nat (len (strtab P) - name_offset names i) = length (c_string e.1 ++ string_table (drop (S i) names))).
  { rewrite length_app. lia. }
  rewrite Hlen, (part_at_take _ _ _ Hd), until_nul_string by (by apply (Forall_lookup_1 _ _ _ _ Hl Hi)). by settle.
Qed.

Lemma symbols_from_spec symtab strtab syms names i0 :
  length syms = length names ->
  (forall k s n, syms !! k = Some s -> names !! k = Some n ->
    sym_at img (sh_offset symtab + (i0 + Z.of_nat k) * sym_size) = done s /\
    elf_symbol_name img strtab (st_name s) = done (Some (string_bytes n))) ->
  symbols_from img (length syms) symtab strtab i0 = done (combine syms (map (fun n => Some (string_bytes n)) names)).
Proof.
  revert names i0. induction syms as [|s syms IH]; intros [|n names] i0; try done. intros [= El] H. cbn [length symbols_from combine map].
  destruct (H 0%nat s n eq_refl eq_refl) as [Hs Hn]. rewrite Z.add_0_r in Hs. rewrite Hs. cbn [lbind done]. rewrite Hn. cbn [lbind done].
  rewrite (IH names (i0 + 1)); [done|done|]. intros k s' n' Hk Hn'. specialize (H (S k) s' n' Hk Hn').
  by replace (i0 + 1 + Z.of_nat k) with (i0 + Z.of_nat (S k)) by lia.
Qed.

Lemma symbols_read :
  for_each_symbol img = done (combine (symbol_table l) (map (fun n => Some (string_bytes n)) (map fst l))).
Proof.
  destruct image_bounds. destruct symtab_found as (hs & Es & _ & Os & Ls). destruct strtab_found as (ht & Et & _ & Ot & Lt).
  pose proof (part_at_bounds _ _ _ (im_symtab _ _ HI)) as [Hp0 Hpl]. rewrite Hsym in Ls, Hpl. rewrite (length_table _ sym_size) in Ls, Hpl by done.
  assert (Hlen : len (symbol_table l) = len l) by (unfold symbol_table; by rewrite length_imap).
  assert (0 < len l) by (destruct l; [done|cbn; lia]). change sym_size with 24 in *.
  assert (Hne : forall A (x y : A), match img with [] => x | _ => y end = y) by (intros; destruct img; [cbn in *; lia|done]).
  unfold for_each_symbol. rewrite Hne, Es. cbn [lbind done]. rewrite Et. cbn [lbind done]. rewrite Ls.
  change sym_size with 24. rewrite Z.div_mul by lia. unfold elf_offset. rewrite Os. settle. rewrite Nat2Z.id.
  rewrite (symbols_from_spec _ _ _ (map fst l)); [done|by unfold symbol_table; rewrite length_imap, length_map|].
  intros k s n Hk Hn. unfold symbol_table in Hk. rewrite list_lookup_imap in Hk. destruct (l !! k) as [e|] eqn:He; [|done]. injection Hk as <-.
  rewrite list_lookup_fmap, He in Hn. injection Hn as <-. destruct (symbol_name_read k e ht He Ot Lt) as [Hlt Hname].
  assert (0 <= name_offset (map fst l) k) by (unfold name_offset; lia).
  assert (E : to_uint32 (name_offset (map fst l) k) = name_offset (map fst l) k) by (unfold wrapu; apply Z.mod_small; lia).
  cbn [st_name set_name]. rewrite E. split; [|done]. apply sym_read.
  - rewrite Os. eapply part_at_table; [apply length_sym|rewrite <- Hsym; apply HI|]. unfold symbol_table. by rewrite list_lookup_imap, He.
  - destruct (Forall_lookup_1 _ _ _ _ Hl He) as [_ Hf]. constructor; [apply to_uint32_fits|exact Hf].
Qed.

(** The value of the first symbol of a name. *)
Definition symbol_address (name : string) : Z :=
  match List.find (fun e : Export => bool_decide (e.1 = name)) l with Some e => st_value e.2 | None => 0 end.

Lemma symbols_resolve name : resolve_address img name = done (symbol_address name).
Proof.
  unfold resolve_address, resolve_symbol. rewrite symbols_read. cbn [lbind done]. unfold symbol_address, symbol_table. f_equal. f_equal.
  generalize (name_offset (map fst l)). intros f. revert f. clear. induction l as [|e l' IH]; intros f; [done|]. cbn [imap map combine List.find].
  destruct (decide (e.1 = name)) as [E|E].
  - rewrite !bool_decide_eq_true_2 by (by rewrite ?E). done.
  - rewrite !bool_decide_eq_false_2; [|done|intros [= H]; by apply string_bytes_inj in H]. apply IH.
Qed.

(** ** The loader *)

Lemma text_segment_code : serialize_execute_segment img options text_segment = done (BASE_ADDR, text P).
Proof.
  pose proof (im_text _ _ HI) as Hp. destruct (part_at_bounds _ _ _ Hp). destruct image_bounds.
  assert (Eb : segment_bytes img text_segment = text P).
  { unfold segment_bytes. cbn [p_filesz p_offset text_segment]. rewrite Nat2Z.id, (od_text _ (ordered P)). by apply part_at_take. }
  unfold serialize_execute_segment. rewrite Eb. destruct (ignore_text_section options); [done|].
  destruct text_found as (h & -> & Ha & Ho & Hs). cbn [lbind done p_vaddr p_filesz text_segment].
  assert (Es : section_bytes img h = text P) by (unfold section_bytes; rewrite Hs, Ho, Nat2Z.id; by apply part_at_take).
  rewrite Ha, Hs, Es. destruct (_ && _); reflexivity.
Qed.

Definition exit_of (name : string) : option Z :=
  let address := match name with EmptyString => 0 | _ => symbol_address name end in if address =? 0 then None else Some address.

Lemma binary_loads `{Libriscv.Config} :
  Libriscv.compressed_enabled = true -> 0 < len (text P) -> (has_globals P = true -> 0 < len (data P)) -> room program_end ->
  binary_loader img arena options
  = done (mkLoaded (BASE_ADDR + FAST_EXIT_SIZE) program_copies (if bool_decide (is_Some arena) then BASE_ADDR + len (text P) else 0)
      (align_to PAGE_SIZE program_end) (exit_of (default_exit_function options)) [(BASE_ADDR, text P)]).
Proof.
  intros Hc Ht Hd Hroom. pose proof header_read as Hh. unfold elf_header in Hh.
  pose proof (part_at_bounds _ _ _ (im_segments _ _ HI)) as [_ Hs]. rewrite (length_table _ phdr_size) in Hs by done.
  change ehdr_size with 64 in Hs. change phdr_size with 56 in Hs.
  assert (Hn : len (segments P) = if has_globals P then 2 else 1) by (unfold segments; by destruct (has_globals P)).
  unfold elf_offset in Hh. change (to_uint64 (0 + ehdr_size)) with 64 in Hh. unfold binary_size in Hh.
  rewrite (proj2 (Z.leb_le 64 (len img))) in Hh by lia. cbn [andb Z.leb Z.compare lbind done] in Hh.
  unfold binary_loader. change ehdr_size with 64. settle. rewrite Hh. cbn [lbind done].
  unfold check_header. cbn [e_flags e_phnum e_phoff e_machine e_type file_header]. rewrite Hc, <- Hn.
  change (validate _) with true. change ehdr_size with 64. change phdr_size with 56. change (64 mod 8) with 0.
  change (Z.land 5 8) with 0. change (Z.land 5 1) with 1. assert (1 <= len (segments P) <= 2) by (rewrite Hn; destruct (has_globals P); lia).
  cbn [negb andb Z.eqb ET_EXEC EM_RISCV Pos.eqb]. settle.
  pose proof (segments_load Ht Hd Hroom) as Hg. change ehdr_size with 64 in Hg. rewrite Nat2Z.id, Hg. cbn [lbind done loaded_segments execute_segments copies initial_rodata_end m_heap_address].
  unfold exit_of. destruct (default_exit_function options) as [|c name]; rewrite ?symbols_resolve; cbn [lbind done];
    rewrite Hload; cbn [serialize_all]; rewrite text_segment_code; reflexivity.
Qed.

End Reading.

(** ** What [build] puts into an image *)

(** The numbers of the code generator have the widths of their types, and the data
    area is the end of the code. *)
Record typed (g : Generated) : Prop := {
  ty_data : 0 <= global_data_size g <= len (code g);
  ty_offsets : forall name off, function_offsets g !! name = Some off -> 0 <= off <= len (code g);
  ty_globals : fits 8 (global_address g) /\ fits 8 (global_area_size g);
  ty_profiling : fits 8 (profiling_address g) /\ fits 8 (profiling_size g);
  ty_debug : fits 8 (debug_address g) /\ fits 8 (debug_size g);
  ty_instance : fits 8 (instance_blob_address g) /\ fits 8 (instance_blob_size g);
  ty_caches : fits 8 (trait_cache_stride g)
}.

Definition text_size (g : Generated) : Z := len (code g) - global_data_size g.
Definition text_of (g : Generated) : list Z := take (Z.to_nat (text_size g)) (code g).
Definition data_of (g : Generated) : list Z := drop (Z.to_nat (text_size g)) (code g).

Definition parts_of (g : Generated) (meta : list Z) (symbols : list Export) : Parts :=
  mkParts (global_data_size g >? 0) (text_of g) (data_of g) (concat (map sym_bytes (symbol_table symbols)))
    (string_table (map fst symbols)) (c_string comment_string) meta (string_table (section_names (global_data_size g >? 0))).

Lemma length_text g : typed g -> len (text_of g) = text_size g.
Proof. intros [Hd _ _ _ _ _ _]. unfold text_of, text_size in *. rewrite length_take. lia. Qed.

Lemma length_data g : typed g -> len (data_of g) = global_data_size g.
Proof. intros [Hd _ _ _ _ _ _]. unfold data_of, text_size in *. rewrite length_drop. lia. Qed.

Lemma build_image vl g p img :
  typed g -> len (code g) < 2 ^ 64 -> build vl g p = Ok img ->
  exists meta symbols, GdsMeta.encode_script_metadata (script_metadata vl p (rebase (line_table g))) = Ok meta /\
    exports g p (text_size g) = Ok symbols /\ img = image (parts_of g meta symbols).
Proof.
  intros Hty Hc H. pose proof (length_text g Hty) as Lt. pose proof (length_data g Hty) as Ld. pose proof (ty_data _ Hty).
  unfold build in H. rewrite (TypeSet.to_uint64_small (len (code g) - global_data_size g)) in H by lia. fold (text_size g) in H.
  apply obind_Ok in H as (meta & Em & H). apply obind_Ok in H as (symbols & Es & H). exists meta, symbols. split; [done|]. split; [done|].
  destruct (_ <? _); [done|]. injection H as <-. unfold image, layout, segments, sections, layout. cbn [has_globals text data symtab strtab comment gdsmeta shstrtab parts_of].
  by rewrite Lt, Ld.
Qed.

(** ** The symbols of an image *)

Lemma fits_uint64 v : fits 8 (to_uint64 v).
Proof. unfold fits, wrapu. apply Z.mod_pos_bound. lia. Qed.

Definition sound_export (e : Export) : Prop := no_nul e.1 /\ sym_fits e.2.

Lemma export_sound name info section value size :
  no_nul name -> fits 1 info -> fits 2 section -> fits 8 value -> fits 8 size -> sound_export (export name info section value size).
Proof. intros Hn Hi Hs Hv Hz. split; [done|]. unfold sym_fits. cbn. repeat (constructor; [done|]). constructor. Qed.

Lemma no_nul_dec name : bool_decide (no_nul name) = true -> no_nul name.
Proof. by intros H%bool_decide_eq_true_1. Qed.

Lemma no_nul_app a b : no_nul a -> no_nul b -> no_nul (a +:+ b).
Proof.
  unfold no_nul, string_bytes. intros Ha Hb. induction a as [|c a IH]; [done|]. cbn in *. inversion Ha; subst. constructor; [done|]. by apply IH.
Qed.

Lemma no_nul_go x acc : no_nul acc -> no_nul (pretty_N_go x acc).
Proof.
  revert acc. induction (N.lt_wf_0 x) as [x _ IH]; intros acc Hacc. destruct (decide (0 < x)%N) as [Hx|Hx].
  - rewrite pretty_N_go_step by done. apply IH; [apply N.div_lt; lia|]. unfold no_nul, string_bytes. cbn. constructor; [|exact Hacc].
    unfold pretty_N_char. repeat case_match; done.
  - by replace x with 0%N by lia; rewrite pretty_N_go_0.
Qed.

Lemma no_nul_pretty (n : nat) : no_nul (pretty n).
Proof. unfold pretty, pretty_nat. unfold pretty, pretty_N. case_decide; [by apply no_nul_dec|]. by apply no_nul_go, no_nul_dec. Qed.

Lemma function_exports_sound g size functions symbols :
  Forall no_nul functions -> function_exports g size functions = Ok symbols -> Forall sound_export symbols.
Proof.
  revert symbols. induction functions as [|name rest IH]; intros symbols Hn; cbn [function_exports]; [by intros [= <-]|].
  inversion Hn; subst. intros H. apply obind_Ok in H as (off & Eo & H). apply obind_Ok in H as (sz & Ez & H).
  apply obind_Ok in H as (r & Er & H). injection H as <-. constructor; [|by apply IH]. apply export_sound; try done; try apply fits_uint64.
  destruct rest; [injection Ez as <-; apply fits_uint64|]. apply obind_Ok in Ez as (? & _ & Ez). injection Ez as <-. apply fits_uint64.
Qed.

Lemma data_export_sound name address size :
  bool_decide (no_nul name) = true -> fits 8 address /\ fits 8 size -> Forall sound_export (data_export name address size).
Proof.
  intros Hn [Ha Hs]. unfold data_export. destruct (_ >? _); [|done]. constructor; [|done]. apply export_sound; try done. by apply no_nul_dec.
Qed.

Lemma exports_sound g p size symbols :
  typed g -> Forall no_nul (ex_functions p) -> exports g p size = Ok symbols -> Forall sound_export symbols.
Proof.
  intros [Hd _ Hg Hp Hdb Hi Hc] Hn H. apply obind_Ok in H as (functions & Ef & H). injection H as <-.
  constructor; [split; [constructor|repeat constructor; done]|]. constructor; [apply export_sound; try done; by apply no_nul_dec|].
  rewrite !Forall_app. split_and!; [by eapply function_exports_sound|by apply data_export_sound..| |].
  - unfold instance_exports. destruct (_ >? _); [|done]. destruct Hi.
    constructor; [|constructor; [|constructor]]; apply export_sound; try done; try apply fits_uint64; by apply no_nul_dec.
  - apply Forall_fmap, Forall_forall. intros i _. apply export_sound; try done; [|apply fits_uint64].
    apply no_nul_app; [by apply no_nul_dec|apply no_nul_pretty].
Qed.

Lemma function_exports_find g size functions symbols name off :
  function_exports g size functions = Ok symbols -> function_offsets g !! name = Some off ->
  match List.find (fun e : Export => bool_decide (e.1 = name)) symbols with
  | Some e => name ∈ functions /\ st_value e.2 = to_uint64 (BASE_ADDR + off)
  | None => name ∉ functions
  end.
Proof.
  intros H Ho. revert symbols H. induction functions as [|name' rest IH]; intros symbols; cbn [function_exports].
  { intros [= <-]. apply not_elem_of_nil. }
  intros H. apply obind_Ok in H as (off' & Eo & H). apply obind_Ok in H as (sz & Ez & H). apply obind_Ok in H as (r & Er & H). injection H as <-.
  cbn [List.find export fst]. case_bool_decide as E.
  - subst. unfold function_offset in Eo. rewrite Ho in Eo. injection Eo as <-. split; [by left|done].
  - specialize (IH r Er). destruct (List.find _ r) as [e|]; [by destruct IH; split; [right|]|]. apply not_elem_of_cons. split; [congruence|done].
Qed.

Lemma find_app {A} (f : A -> bool) l1 l2 :
  List.find f (l1 ++ l2) = match List.find f l1 with Some x => Some x | None => List.find f l2 end.
Proof. induction l1 as [|x l1 IH]; [done|]. cbn. by destruct (f x). Qed.

Lemma function_address g p size symbols name off :
  exports g p size = Ok symbols -> name ∈ ex_functions p -> name <> EmptyString -> name <> FAST_EXIT_SYMBOL ->
  function_offsets g !! name = Some off -> symbol_address symbols name = to_uint64 (BASE_ADDR + off).
Proof.
  intros H Hin He Hf Ho. apply obind_Ok in H as (functions & Ef & H). injection H as <-.
  pose proof (function_exports_find _ _ _ _ _ _ Ef Ho) as Hfind. unfold symbol_address. cbn [List.find fst export].
  rewrite !bool_decide_eq_false_2 by congruence. rewrite find_app. destruct (List.find _ functions); [by destruct Hfind|done].
Qed.

Lemma fast_exit_address g p size symbols : exports g p size = Ok symbols -> symbol_address symbols FAST_EXIT_SYMBOL = BASE_ADDR.
Proof. intros H. apply obind_Ok in H as (functions & _ & H). by injection H as <-. Qed.

Lemma exports_nonempty g p size symbols : exports g p size = Ok symbols -> symbols <> [].
Proof. intros H. apply obind_Ok in H as (functions & _ & H). by injection H as <-. Qed.

(** ** The theorems *)

(** An image the sandbox can load, and a sandbox that loads it. *)
Record loadable `{Libriscv.Config} (g : Generated) (p : Exports) (img : list Z) (arena : option Z) (options : MachineOptions) : Prop := {
  ld_typed : typed g;
  ld_text : 0 < text_size g;
  ld_names : Forall no_nul (ex_functions p);
  ld_image : len img < 2 ^ 32;
  ld_compressed : Libriscv.compressed_enabled = true;
  ld_load : load_program options = true;
  ld_exec : enforce_exec_only options = false;
  ld_room : room arena (data_vaddr (text_size g) + global_data_size g)
}.

(** C39: the sandbox loads every image [build] makes: the code at 0x10000, readable and
    executable, the data area on the page behind it, readable and writable, and
    nothing else; execution starts behind the exit function, which the sandbox
    finds by its name, and the execute segment is the code. *)
Theorem image_loads `{Libriscv.Config} vl g p img arena options :
  build vl g p = Ok img -> len (code g) < 2 ^ 64 -> loadable g p img arena options -> default_exit_function options = FAST_EXIT_SYMBOL ->
  let text := take (Z.to_nat (text_size g)) (code g) in
  let data := drop (Z.to_nat (text_size g)) (code g) in
  let has_data := global_data_size g >? 0 in
  let program_end := if has_data then data_vaddr (text_size g) + global_data_size g else BASE_ADDR + text_size g in
  binary_loader img arena options
  = Ok (inr (mkLoaded (BASE_ADDR + FAST_EXIT_SIZE)
      (mkCopy BASE_ADDR text (attributes options true false true) ::
       if has_data then [mkCopy (data_vaddr (text_size g)) data (attributes options true true false)] else [])
      (if bool_decide (is_Some arena) then BASE_ADDR + text_size g else 0)
      (align_to PAGE_SIZE program_end) (Some BASE_ADDR) [(BASE_ADDR, text)])).
Proof.
  intros Hb Hc [Hty Ht Hn Hi Hcomp Hload Hexec Hroom] Hexit. destruct (build_image _ _ _ _ Hty Hc Hb) as (meta & symbols & Em & Es & ->).
  pose proof (length_text g Hty) as Lt. pose proof (length_data g Hty) as Ld.
  pose proof (image_parts (parts_of g meta symbols)) as HI. pose proof (align_page (BASE_ADDR + text_size g)) as [Hal _].
  pose proof (ty_data _ Hty). cbn zeta. fold (text_of g) (data_of g). unfold data_vaddr in *.
  rewrite (binary_loads (parts_of g meta symbols) _ HI eq_refl Hi arena options Hload Hexec symbols eq_refl eq_refl
    (exports_sound _ _ _ _ Hty Hn Es) (exports_nonempty _ _ _ _ Es) Hcomp);
    cbn [has_globals text data parts_of]; unfold program_copies, program_end, data_vaddr; cbn [has_globals text data parts_of]; rewrite ?Lt, ?Ld.
  - unfold exit_of. rewrite Hexit. cbn [FAST_EXIT_SYMBOL]. by rewrite (fast_exit_address _ _ _ _ Es).
  - done.
  - intros E. by apply Z.gtb_lt in E.
  - unfold room in *. destruct arena; [|done]. destruct (Z.gtb_spec (global_data_size g) 0); lia.
Qed.

(** C40: what the host looks up in an image is what was put there: the exit function
    at 0x10000, every function of the script at its code unless it is named like the
    exit function, every other name at the first symbol of that name, and in the
    metadata section the encoded metadata of the program. *)
Theorem image_lookups vl g p img :
  build vl g p = Ok img -> len (code g) < 2 ^ 63 -> typed g -> Forall no_nul (ex_functions p) -> len img < 2 ^ 32 ->
  resolve_address img FAST_EXIT_SYMBOL = Ok (inr BASE_ADDR) /\
  (forall name off, name ∈ ex_functions p -> name <> EmptyString -> name <> FAST_EXIT_SYMBOL ->
    function_offsets g !! name = Some off -> resolve_address img name = Ok (inr (BASE_ADDR + off))) /\
  (exists symbols, exports g p (text_size g) = Ok symbols /\
    forall name, resolve_address img name = Ok (inr (symbol_address symbols name))) /\
  exists shdr, section_by_name_validated img GDSMETA_SECTION = Ok (inr (Some shdr)) /\
    GdsMeta.encode_script_metadata (script_metadata vl p (rebase (line_table g))) = Ok (section_bytes img shdr).
Proof.
  intros Hb Hc Hty Hn Hi. destruct (build_image _ _ _ _ Hty ltac:(lia) Hb) as (meta & symbols & Em & Es & ->).
  pose proof (image_parts (parts_of g meta symbols)) as HI.
  assert (Hr : forall name, resolve_address (image (parts_of g meta symbols)) name = done (symbol_address symbols name)).
  { intros name. eapply (symbols_resolve (parts_of g meta symbols)); [done|done|done|done|done| |by eapply exports_nonempty].
    by eapply exports_sound. }
  split_and!.
  - by rewrite Hr, (fast_exit_address _ _ _ _ Es).
  - intros name off Hin He Hf Ho. rewrite Hr, (function_address _ _ _ _ _ _ Es Hin He Hf Ho). pose proof (ty_offsets _ Hty _ _ Ho).
    unfold BASE_ADDR. by rewrite TypeSet.to_uint64_small by lia.
  - by exists symbols.
  - destruct (gdsmeta_found (parts_of g meta symbols) _ HI eq_refl Hi) as (h & Eh & _ & Ho & Hs). exists h. split; [exact Eh|].
    unfold section_bytes. rewrite Ho, Hs, Nat2Z.id, (part_at_take _ _ _ (im_gdsmeta _ _ HI)). exact Em.
Qed.

(** ** A small program *)

#[local] Instance with_compressed : Libriscv.Config := {| Libriscv.compressed_enabled := true |}.

Definition options : MachineOptions := mkOptions true true false false false FAST_EXIT_SYMBOL.

(** Two functions behind the exit function, and a data area of 24 bytes. *)
Definition sample : Generated :=
  mkGenerated (replicate 32 19 ++ replicate 24 0) [LineTable.mkEntry 8 1] {["main" := 8; "step" := 20]} 24 0x11000 24 0 0 0 0 0 0 0 0 0 1024.

Definition sample_exports (functions : list string) : Exports := mkExports false false "" "" [] [] [] [] [] [] [] [] functions.

Definition image_bytes (functions : list string) : list Z :=
  match build (VariantLayout.mk false) sample (sample_exports functions) with Ok img => img | Throw _ => [] end.

Lemma sample_typed : typed sample.
Proof.
  split; try done; try (by unfold fits; cbn). intros name off H. unfold sample in H. cbn [function_offsets] in H.
  apply lookup_insert_Some in H as [[_ <-]|[_ H]]; [cbn; lia|]. apply lookup_singleton_Some in H as [_ <-]. cbn. lia.
Qed.

Lemma sample_loadable : loadable sample (sample_exports ["main"; "step"]) (image_bytes ["main"; "step"]) None options.
Proof. split; try done; [apply sample_typed|by repeat (constructor; [by apply no_nul_dec|])]. Qed.

Lemma image_loads_witness :
  exists loaded, binary_loader (image_bytes ["main"; "step"]) None options = Ok (inr loaded) /\
    start_address loaded = 0x10008 /\ map copy_vaddr (memory loaded) = [0x10000; 0x11000] /\ heap_address loaded = 0x12000.
Proof.
  eexists. split.
  - apply (image_loads (VariantLayout.mk false) sample (sample_exports ["main"; "step"]));
      [by vm_compute|by vm_compute|exact sample_loadable|reflexivity].
  - split; [reflexivity|]. split; vm_compute; reflexivity.
Defined.

Lemma image_lookups_witness : resolve_address (image_bytes ["main"; "step"]) "step" = Ok (inr (0x10000 + 20)).
Proof.
  pose proof (image_lookups (VariantLayout.mk false) sample (sample_exports ["main"; "step"]) (image_bytes ["main"; "step"])
    ltac:(by vm_compute) ltac:(by vm_compute) sample_typed (ld_names _ _ _ _ _ sample_loadable) ltac:(by vm_compute)) as (_ & H & _).
  apply (H "step" 20); [right; left|done|done|reflexivity].
Defined.

(** A script function called [fast_exit] is not found: its address is that of the
    exit function. *)
Example exit_function_shadows :
  let g := mkGenerated (replicate 32 19) [] {["fast_exit" := 8]} 0 0 0 0 0 0 0 0 0 0 0 0 0 in
  match build (VariantLayout.mk false) g (sample_exports ["fast_exit"]) with
  | Ok img => resolve_address img "fast_exit"
  | Throw e => Throw e
  end = Ok (inr 0x10000).
Proof. by vm_compute. Qed.

(** The header announces compressed instructions: a sandbox built without them
    refuses every image. *)
Example refused_without_compressed :
  @binary_loader (image_bytes ["main"; "step"]) None options {| Libriscv.compressed_enabled := false |}
  = Ok (inl "ELF is a RISC-V RVC executable, however C-extension is not enabled.").
Proof. by vm_compute. Qed.

End ElfFacts.
