(* ===== verification/DataArea.v ===== *)
(** * The data area

    Models the part of [RISCVCodeGen::generate] behind the pools (riscv_codegen.cpp):
    the slots of the globals and members, the instance blob, the profiling and
    debugging areas and the trait caches, with the labels and addresses they get;
    profiling_layout.h, instance_layout.h and trait_cache_layout.h; and what the ELF
    writer then asks the generator for.

    The counts that are cast to 32 bits are those of declarations in one script. *)

From stdpp Require Import pretty.
From S2P Require Import Prelude.
From S2P Require Import Wire.
From S2P Require Import VariantTypes.
From S2P Require Import IR.
From S2P Require Import LineTable.
From S2P Require Import DebugLayout.
From S2P Require Import RISCVCodeGen.
From S2P Require Import ElfBuilder.

Module DataArea.
Import RISCVCodeGen.

(** ** Layouts *)

Module ProfilingLayout.
Definition MAGIC : Z := 0x50534447.
Definition LAYOUT_VERSION : Z := 1.
Definition MAX_DEPTH : Z := 256.
Definition MAGIC_OFF : nat := 0.
Definition VERSION_OFF : nat := 4.
Definition FUNCTION_COUNT_OFF : nat := 8.
Definition RECORD_SIZE_OFF : nat := 12.
Definition MAX_DEPTH_OFF : nat := 16.
Definition CLOCK_OFF : nat := 20.
Definition HEADER_SIZE : Z := 40.
Definition RECORD_SIZE : Z := 32.
Definition FRAME_SIZE : Z := 16.
Definition shadow_offset (function_count : Z) : Z := HEADER_SIZE + function_count * RECORD_SIZE.
Definition area_size (function_count : Z) : Z := shadow_offset function_count + MAX_DEPTH * FRAME_SIZE.
End ProfilingLayout.

Module InstanceLayout.
Definition MAGIC : Z := 0x49534447.
Definition LAYOUT_VERSION : Z := 1.
Definition MAGIC_OFF : nat := 0.
Definition VERSION_OFF : nat := 4.
Definition DEFAULT_BASE_OFF : nat := 8.
Definition RECORD_SIZE_OFF : nat := 16.
Definition MEMBER_COUNT_OFF : nat := 20.
Definition BLOB_SIZE : nat := 24.
End InstanceLayout.

(** The header of [DebugLayout]; the frames are in the file DebugLayout. *)
Module DebugHeader.
Definition MAGIC : Z := 0x44534447.
Definition LAYOUT_VERSION : Z := 1.
Definition MAGIC_OFF : nat := 0.
Definition VERSION_OFF : nat := 4.
Definition FUNCTION_COUNT_OFF : nat := 8.
Definition FRAME_SIZE_OFF : nat := 12.
Definition MAX_DEPTH_OFF : nat := 16.
End DebugHeader.

Definition TRAIT_CACHE_AREA_SIZE : nat := 64 * 16.

Definition GLOBALS_LABEL : string := ".globals".
Definition INSTANCE_LABEL : string := ".instance".
Definition INSTANCE_BLOB_LABEL : string := ".instance_blob".
Definition PROFILING_LABEL : string := ".profiling".
Definition DEBUG_LABEL : string := ".debug".
Definition trait_cache_label (i : nat) : string := ".trait_cache_" +:+ pretty i.

(** ** What the area is planned from *)

(** The fields of [IRGlobalVar] that matter here. *)
Record GlobalVar := mkGlobal {
  gv_name : string;
  gv_is_const : bool;
  gv_is_member : bool;
  gv_value_type : Z
}.

Record Plan := mkPlan {
  variant_layout : VariantLayout.VariantLayout;
  m_globals : list GlobalVar;
  has_global_init : bool;
  has_member_init : bool;
  m_profiling : bool;
  m_profiling_clock : Z;
  m_debug : bool;
  function_count : nat;
  trait_count : nat
}.

(** [m_global_slots], [m_data_global_count] and [m_instance_count]. *)
Definition assign_slots (globals : list GlobalVar) : list nat * nat * nat :=
  fold_left (fun '(slots, data, instance) global =>
    if gv_is_member global then (slots ++ [instance], data, S instance) else (slots ++ [data], S data, instance))
    globals ([], 0%nat, 0%nat).

Section Area.
Context (p : Plan).

Definition m_global_slots : list nat := (assign_slots (m_globals p)).1.1.
Definition m_data_global_count : nat := (assign_slots (m_globals p)).1.2.
Definition m_instance_count : nat := (assign_slots (m_globals p)).2.

Definition variant_size : nat := Z.to_nat (VariantLayout.variant_size (variant_layout p)).

Definition wants_scratch : bool := has_global_init p || has_member_init p.
Definition data_slots : nat := m_data_global_count + (if wants_scratch then 1 else 0).
Definition global_slots : nat := data_slots + m_instance_count.
Definition globals_bytes : nat := if (0 <? global_slots)%nat then global_slots * variant_size else 0.
Definition instance_blob_size : nat := if (0 <? m_instance_count)%nat then InstanceLayout.BLOB_SIZE else 0.
Definition profiling_size : nat := if m_profiling p then Z.to_nat (ProfilingLayout.area_size (Z.of_nat (function_count p))) else 0.
Definition debug_size : nat := if m_debug p then Z.to_nat DebugLayout.area_size else 0.
Definition trait_cache_size : nat := trait_count p * TRAIT_CACHE_AREA_SIZE.

Definition global_data_size : nat := globals_bytes + instance_blob_size + profiling_size + debug_size + trait_cache_size.

(** ** Contents *)

(** [put32] and [put64]: a number at an offset of the area. *)
Definition put (n offset : nat) (value : Z) (area : list Z) : list Z := list_inserts offset (Wire.write_scalar n value) area.

(** A NIL variant whose payload is INT32_MIN. *)
Definition empty_variant : list Z := put 8 (Z.to_nat VariantLayout.DATA_OFFSET) (- 2 ^ 31) (replicate variant_size 0).

Definition slots_area : list Z := concat (replicate global_slots empty_variant).

Definition instance_blob (data_vaddr : Z) : list Z :=
  let size := Z.of_nat variant_size in
  put 4 InstanceLayout.MEMBER_COUNT_OFF (Z.of_nat m_instance_count)
    (put 4 InstanceLayout.RECORD_SIZE_OFF (Z.of_nat m_instance_count * size)
      (put 8 InstanceLayout.DEFAULT_BASE_OFF (data_vaddr + Z.of_nat data_slots * size)
        (put 4 InstanceLayout.VERSION_OFF InstanceLayout.LAYOUT_VERSION
          (put 4 InstanceLayout.MAGIC_OFF InstanceLayout.MAGIC (replicate instance_blob_size 0))))).

Definition profiling_area : list Z :=
  put 4 ProfilingLayout.CLOCK_OFF (m_profiling_clock p)
    (put 4 ProfilingLayout.MAX_DEPTH_OFF ProfilingLayout.MAX_DEPTH
      (put 4 ProfilingLayout.RECORD_SIZE_OFF ProfilingLayout.RECORD_SIZE
        (put 4 ProfilingLayout.FUNCTION_COUNT_OFF (Z.of_nat (function_count p))
          (put 4 ProfilingLayout.VERSION_OFF ProfilingLayout.LAYOUT_VERSION
            (put 4 ProfilingLayout.MAGIC_OFF ProfilingLayout.MAGIC (replicate profiling_size 0)))))).

Definition debug_area : list Z :=
  put 4 DebugHeader.MAX_DEPTH_OFF DebugLayout.MAX_DEPTH
    (put 4 DebugHeader.FRAME_SIZE_OFF DebugLayout.FRAME_SIZE
      (put 4 DebugHeader.FUNCTION_COUNT_OFF (Z.of_nat (function_count p))
        (put 4 DebugHeader.VERSION_OFF DebugHeader.LAYOUT_VERSION
          (put 4 DebugHeader.MAGIC_OFF DebugHeader.MAGIC (replicate debug_size 0))))).

(** The records of the globals and members, which live as long as the program. *)
Definition global_records (data_vaddr : Z) : list DebugLayout.DebugVariableRecord :=
  omap (fun '(global, slot) =>
    if gv_is_const global then None
    else Some (DebugLayout.mkRecord (2 ^ 32 - 1) (gv_name global) (to_int32 (gv_value_type global))
      (if gv_is_member global then DebugLayout.MEMBER else DebugLayout.GLOBAL)
      (to_int32 (Z.of_nat slot * Z.of_nat variant_size)) 0x10000 data_vaddr))
    (combine (m_globals p) m_global_slots).

(** ** Emission *)

Record Areas := mkAreas {
  m_global_address : Z;
  m_instance_blob_address : Z;
  m_profiling_address : Z;
  m_debug_address : Z;
  m_trait_cache_address : Z;
  m_debug_variables : list DebugLayout.DebugVariableRecord
}.

(** [set_label(label_id(label), address - 0x10000)] *)
Definition label_address (label : string) (address : Z) : Emit unit :=
  let* id := label_id label in set_label id (Z.to_nat (address - 0x10000)).

(** A part of the area, unless the program has none. *)
Definition emit_part (present : bool) (labels : list (string * Z)) (bytes : list Z) : Emit unit :=
  if present then
    fold_right (fun '(label, address) rest => label_address label address ;;; rest) (mret tt) labels ;;;
    append_bytes bytes
  else mret tt.

Definition emit_data_area : Emit Areas :=
  pad_code ;;;
  if (global_data_size =? 0)%nat then mret (mkAreas 0 0 0 0 0 []) else
  pad_code ;;;
  let* text_size := offset_of_code in
  let data_vaddr := ElfBuilder.align_to 0x1000 (0x10000 + Z.of_nat text_size) in
  let blob_address := data_vaddr + Z.of_nat globals_bytes in
  let profiling_address := blob_address + Z.of_nat instance_blob_size in
  let debug_address := profiling_address + Z.of_nat profiling_size in
  let caches_address := debug_address + Z.of_nat debug_size in
  let has_slots := (0 <? global_slots)%nat in
  let has_instance := (0 <? m_instance_count)%nat in
  let has_traits := (0 <? trait_cache_size)%nat in
  emit_part has_slots
    [(GLOBALS_LABEL, data_vaddr); (INSTANCE_LABEL, data_vaddr + Z.of_nat data_slots * Z.of_nat variant_size)] slots_area ;;;
  emit_part has_instance [(INSTANCE_BLOB_LABEL, blob_address)] (instance_blob data_vaddr) ;;;
  emit_part (m_profiling p) [(PROFILING_LABEL, profiling_address)] profiling_area ;;;
  emit_part (m_debug p) [(DEBUG_LABEL, debug_address)] debug_area ;;;
  emit_part has_traits
    (map (fun i => (trait_cache_label i, caches_address + Z.of_nat i * Z.of_nat TRAIT_CACHE_AREA_SIZE)) (seq 0 (trait_count p)))
    (replicate trait_cache_size 0) ;;;
  mret (mkAreas (if has_slots then data_vaddr else 0) (if has_instance then blob_address else 0)
    (if m_profiling p then profiling_address else 0) (if m_debug p then debug_address else 0)
    (if has_traits then caches_address else 0) (if m_debug p then global_records data_vaddr else [])).

(** What the ELF writer is told. *)
Definition generated (a : Areas) (g : Gen) : ElfBuilder.Generated :=
  ElfBuilder.mkGenerated (m_code g) (m_line_table g) (Z.of_nat <$> m_functions g) (Z.of_nat global_data_size)
    (m_global_address a) (Z.of_nat m_data_global_count * Z.of_nat variant_size)
    (m_profiling_address a) (Z.of_nat profiling_size) (m_debug_address a) (Z.of_nat debug_size)
    (m_instance_blob_address a) (Z.of_nat instance_blob_size) (Z.of_nat (m_instance_init_offset g))
    (m_trait_cache_address a) (trait_count p) (Z.of_nat TRAIT_CACHE_AREA_SIZE).

End Area.

End DataArea.
