(* ===== verification/DataAreaFacts.v ===== *)
(** * The data area is where its labels say *)

From stdpp Require Import pretty.
From S2P Require Import Prelude.
From S2P Require Import Wire.
From S2P Require Import VariantTypes.
From S2P Require Import IR.
From S2P Require Import DebugLayout.
From S2P Require Import Libriscv.
From S2P Require Import RISCVCodeGen.
From S2P Require Import Relaxation.
From S2P Require Import Assembly.
From S2P Require Import Linking.
From S2P Require Import Pools.
From S2P Require Import ElfBuilder.
From S2P Require Import ElfFacts.
From S2P Require Import DataArea.

Module DataAreaFacts.
Import RISCVCodeGen.
Import Relaxation.
Import Assembly.
Import Linking.
Import Pools.
Import DataArea.

Notation part_at := ElfFacts.part_at.
Notation len l := (Z.of_nat (length l)).

(** ** Parts *)

(** From [g] to [g']: some bytes more, and labels at addresses. *)
Record Emits (labels : list (string * Z)) (bytes : list Z) (g g' : Gen) : Prop := {
  em_tidy : tidy g';
  em_placed : placed_pools (fun n => n ∈ map fst labels) bytes g g';
  em_labels : forall label address, (label, address) ∈ labels -> names_label g' label (Z.to_nat (address - 0x10000));
  em_count : (names_count g' <= names_count g + length labels)%nat
}.

Lemma emits_nothing g : tidy g -> Emits [] [] g g.
Proof. intros Ht. split; [done|apply placed_pools_refl| |cbn; lia]. intros label address H. by apply elem_of_nil in H. Qed.

Lemma emits_trans l1 l2 b1 b2 g1 g2 g3 :
  (forall n, n ∈ map fst l1 -> n ∉ map fst l2) -> Emits l1 b1 g1 g2 -> Emits l2 b2 g2 g3 -> Emits (l1 ++ l2) (b1 ++ b2) g1 g3.
Proof.
  intros Hd [T1 P1 L1 C1] [T2 P2 L2 C2]. split; [done| | |rewrite length_app; lia].
  - eapply placed_pools_weaken; [|exact (placed_pools_trans _ _ _ _ _ _ _ P1 P2)]. intros n Hn. rewrite map_app. by apply elem_of_app.
  - intros label address [H|H]%elem_of_app; [|by apply L2]. apply (pp_kept _ _ _ _ P2); [|by apply L1].
    apply Hd. apply list_elem_of_fmap. by exists (label, address).
Qed.

Lemma emits_bytes bytes g : tidy g -> Emits [] bytes g (set_code (m_code g ++ bytes) g).
Proof.
  intros Ht. destruct (placed_pools_append (fun n => n ∈ map fst ([] : list (string * Z))) bytes g Ht) as [Hp Ht'].
  split; [done|exact Hp| |unfold names_count; cbn; lia].
  intros label address H. by apply elem_of_nil in H.
Qed.

Lemma emits_label label address g :
  tidy g -> Z.of_nat (names_count g) < 2 ^ 32 ->
  exists g', label_address label address g = (g', Ok tt) /\ Emits [(label, address)] [] g g'.
Proof.
  intros Ht Hroom. destruct (place_label label (Z.to_nat (address - 0x10000)) g Ht Hroom) as (g' & E & Ht' & Hp & Hn & Hc).
  exists g'. split; [exact E|]. split; [done| | |cbn; lia].
  - eapply placed_pools_weaken; [|exact Hp]. intros n <-. by left.
  - intros l a H. apply list_elem_of_singleton in H. by injection H as -> ->.
Qed.

Lemma emits_labels labels g :
  tidy g -> NoDup (map fst labels) -> Z.of_nat (names_count g + length labels) < 2 ^ 32 ->
  exists g', fold_right (fun '(label, address) rest => label_address label address ;;; rest) (mret tt) labels g = (g', Ok tt) /\
    Emits labels [] g g'.
Proof.
  revert g. induction labels as [|[label address] labels IH]; intros g Ht Hnd Hroom; cbn [fold_right map fst length] in *.
  { exists g. split; [done|by apply emits_nothing]. }
  apply NoDup_cons in Hnd as [Hnew Hnd]. destruct (emits_label label address g Ht ltac:(lia)) as (g1 & E & H1).
  pose proof (em_count _ _ _ _ H1) as Hc. cbn in Hc. destruct (IH g1 (em_tidy _ _ _ _ H1) Hnd ltac:(lia)) as (g2 & E2 & H2).
  exists g2. split; [unfold mbind at 1; rewrite E; exact E2|]. refine (emits_trans [_] labels [] [] _ _ _ _ H1 H2).
  by intros n ->%list_elem_of_singleton.
Qed.

Definition when {A} (b : bool) (l : list A) : list A := if b then l else [].

Lemma emit_part_spec present labels bytes g :
  tidy g -> NoDup (map fst labels) -> Z.of_nat (names_count g + length labels) < 2 ^ 32 ->
  exists g', emit_part present labels bytes g = (g', Ok tt) /\ Emits (when present labels) (when present bytes) g g'.
Proof.
  intros Ht Hnd Hroom. destruct present; cbn [emit_part when]; [|exists g; split; [done|by apply emits_nothing]].
  destruct (emits_labels labels g Ht Hnd Hroom) as (g1 & E & H1). exists (set_code (m_code g1 ++ bytes) g1).
  split; [unfold mbind at 1; by rewrite E|]. rewrite <- (app_nil_r labels). refine (emits_trans labels [] [] bytes _ _ _ _ H1 _).
  - intros n _. apply not_elem_of_nil.
  - apply emits_bytes, (em_tidy _ _ _ _ H1).
Qed.

Section Area.
Context (p : Plan).

Lemma variant_size_pos : (variant_size p = 24 \/ variant_size p = 40)%nat.
Proof. unfold variant_size, VariantLayout.variant_size, VariantLayout.real_size. destruct (VariantLayout.double_precision _); [by right|by left]. Qed.

Lemma length_put n offset value area : length (put n offset value area) = length area.
Proof. unfold put. apply length_inserts. Qed.

Lemma length_empty_variant : length (empty_variant p) = variant_size p.
Proof. unfold empty_variant. by rewrite length_put, length_replicate. Qed.

Lemma length_slots : length (slots_area p) = globals_bytes p.
Proof.
  unfold slots_area, globals_bytes. assert (E : length (concat (replicate (global_slots p) (empty_variant p))) = (global_slots p * variant_size p)%nat).
  { induction (global_slots p) as [|n IH]; [done|]. cbn [replicate concat]. rewrite length_app, IH, length_empty_variant. lia. }
  rewrite E. destruct (Nat.ltb_spec 0 (global_slots p)); [done|lia].
Qed.

Lemma length_blob base : length (instance_blob p base) = instance_blob_size p.
Proof. unfold instance_blob. by rewrite !length_put, length_replicate. Qed.

Lemma length_profiling : length (profiling_area p) = profiling_size p.
Proof. unfold profiling_area. by rewrite !length_put, length_replicate. Qed.

Lemma length_debug : length (debug_area p) = debug_size p.
Proof. unfold debug_area. by rewrite !length_put, length_replicate. Qed.

Definition has_slots : bool := (0 <? global_slots p)%nat.
Definition has_instance : bool := (0 <? m_instance_count p)%nat.
Definition has_traits : bool := (0 <? trait_cache_size p)%nat.

(** The area that starts at [base]. *)
Definition area (base : Z) : list Z :=
  when has_slots (slots_area p) ++ when has_instance (instance_blob p base) ++ when (m_profiling p) (profiling_area p) ++
  when (m_debug p) (debug_area p) ++ when has_traits (replicate (trait_cache_size p) 0).

Lemma length_parts base :
  length (when has_slots (slots_area p)) = globals_bytes p /\ length (when has_instance (instance_blob p base)) = instance_blob_size p /\
  length (when (m_profiling p) (profiling_area p)) = profiling_size p /\ length (when (m_debug p) (debug_area p)) = debug_size p /\
  length (when has_traits (replicate (trait_cache_size p) 0)) = trait_cache_size p.
Proof.
  unfold when, has_slots, has_instance, has_traits. split_and!.
  - pose proof length_slots as H. unfold globals_bytes in *. destruct (_ <? _)%nat; [done|done].
  - pose proof (length_blob base) as H. unfold instance_blob_size in *. destruct (_ <? _)%nat; done.
  - pose proof length_profiling as H. unfold profiling_size in *. destruct (m_profiling p); done.
  - pose proof length_debug as H. unfold debug_size in *. destruct (m_debug p); done.
  - destruct (Nat.ltb_spec 0 (trait_cache_size p)); [by rewrite length_replicate|cbn; lia].
Qed.

Lemma length_area base : length (area base) = global_data_size p.
Proof. destruct (length_parts base) as (H1 & H2 & H3 & H4 & H5). unfold area, global_data_size. rewrite !length_app. lia. Qed.

(** A part of the area, by what is in front of it. *)
Lemma area_part a part b base off : area base = a ++ part ++ b -> off = len a -> part_at (area base) off part.
Proof. intros -> ->. exists a, b. done. Qed.

(** ** The whole area *)

Definition base_of (text : nat) : Z := ElfBuilder.data_vaddr (Z.of_nat text).

Definition blob_at (base : Z) : Z := base + Z.of_nat (globals_bytes p).
Definition profiling_at (base : Z) : Z := blob_at base + Z.of_nat (instance_blob_size p).
Definition debug_at (base : Z) : Z := profiling_at base + Z.of_nat (profiling_size p).
Definition caches_at (base : Z) : Z := debug_at base + Z.of_nat (debug_size p).

Definition slot_labels (base : Z) : list (string * Z) :=
  [(GLOBALS_LABEL, base); (INSTANCE_LABEL, base + Z.of_nat (data_slots p) * Z.of_nat (variant_size p))].
Definition cache_labels (base : Z) : list (string * Z) :=
  map (fun i => (trait_cache_label i, caches_at base + Z.of_nat i * Z.of_nat TRAIT_CACHE_AREA_SIZE)) (seq 0 (trait_count p)).

(** Every label of the area with its address. *)
Definition area_labels (base : Z) : list (string * Z) :=
  when has_slots (slot_labels base) ++ when has_instance [(INSTANCE_BLOB_LABEL, blob_at base)] ++
  when (m_profiling p) [(PROFILING_LABEL, profiling_at base)] ++ when (m_debug p) [(DEBUG_LABEL, debug_at base)] ++
  when has_traits (cache_labels base).

Definition areas_at (base : Z) : Areas :=
  mkAreas (if has_slots then base else 0) (if has_instance then blob_at base else 0)
    (if m_profiling p then profiling_at base else 0) (if m_debug p then debug_at base else 0)
    (if has_traits then caches_at base else 0) (if m_debug p then global_records p base else []).

Definition fixed_labels : list string := [GLOBALS_LABEL; INSTANCE_LABEL; INSTANCE_BLOB_LABEL; PROFILING_LABEL; DEBUG_LABEL].

(** The names the area uses. *)
Definition data_label (n : string) : Prop := n ∈ fixed_labels \/ exists i, n = trait_cache_label i.

Lemma trait_cache_label_inj i j : trait_cache_label i = trait_cache_label j -> i = j.
Proof. unfold trait_cache_label. intros E%(inj (String.app ".trait_cache_")). by apply (inj pretty) in E. Qed.

Lemma cache_label_new base n : n ∈ map fst (cache_labels base) -> n ∉ fixed_labels /\ exists i, n = trait_cache_label i.
Proof.
  unfold cache_labels. rewrite map_map. intros (i & -> & _)%list_elem_of_fmap. cbn [fst]. split; [|by exists i].
  unfold trait_cache_label, fixed_labels. rewrite !not_elem_of_cons. split_and!; try done. apply not_elem_of_nil.
Qed.

Lemma NoDup_cache_labels base : NoDup (map fst (cache_labels base)).
Proof.
  unfold cache_labels. rewrite map_map. cbn [fst]. apply NoDup_fmap_2; [|apply NoDup_seq]. intros i j. apply trait_cache_label_inj.
Qed.

Lemma in_when {A} b (l : list A) x : x ∈ when b l -> x ∈ l.
Proof. destruct b; [done|]. intros H. by apply elem_of_nil in H. Qed.

Lemma names_when b (l : list (string * Z)) n : n ∈ map fst (when b l) -> n ∈ map fst l.
Proof. destruct b; [done|]. intros H. by apply elem_of_nil in H. Qed.

Lemma length_when {A} b (l : list A) : (length (when b l) <= length l)%nat.
Proof. destruct b; cbn; lia. Qed.

(** Parts with labels of their own, one after the other. *)
Lemma emit_parts_spec g base :
  tidy g -> Z.of_nat (names_count g + 5 + trait_count p) < 2 ^ 32 ->
  exists g',
    (emit_part has_slots (slot_labels base) (slots_area p) ;;;
     emit_part has_instance [(INSTANCE_BLOB_LABEL, blob_at base)] (instance_blob p base) ;;;
     emit_part (m_profiling p) [(PROFILING_LABEL, profiling_at base)] (profiling_area p) ;;;
     emit_part (m_debug p) [(DEBUG_LABEL, debug_at base)] (debug_area p) ;;;
     emit_part has_traits (cache_labels base) (replicate (trait_cache_size p) 0) ;;;
     mret (areas_at base)) g = (g', Ok (areas_at base)) /\
    Emits (area_labels base) (area base) g g'.
Proof.
  intros Ht Hroom. assert (Hcl : length (cache_labels base) = trait_count p) by (unfold cache_labels; by rewrite length_map, length_seq).
  destruct (emit_part_spec has_slots (slot_labels base) (slots_area p) g Ht) as (g1 & E1 & H1);
    [by apply (bool_decide_unpack _)|cbn; lia|].
  pose proof (em_count _ _ _ _ H1) as C1. pose proof (length_when has_slots (slot_labels base)) as W1. cbn [length slot_labels] in W1.
  destruct (emit_part_spec has_instance [(INSTANCE_BLOB_LABEL, blob_at base)] (instance_blob p base) g1 (em_tidy _ _ _ _ H1)) as (g2 & E2 & H2);
    [by apply (bool_decide_unpack _)|cbn; lia|].
  pose proof (em_count _ _ _ _ H2) as C2. pose proof (length_when has_instance [(INSTANCE_BLOB_LABEL, blob_at base)]) as W2. cbn [length] in W2.
  destruct (emit_part_spec (m_profiling p) [(PROFILING_LABEL, profiling_at base)] (profiling_area p) g2 (em_tidy _ _ _ _ H2)) as (g3 & E3 & H3);
    [by apply (bool_decide_unpack _)|cbn; lia|].
  pose proof (em_count _ _ _ _ H3) as C3. pose proof (length_when (m_profiling p) [(PROFILING_LABEL, profiling_at base)]) as W3. cbn [length] in W3.
  destruct (emit_part_spec (m_debug p) [(DEBUG_LABEL, debug_at base)] (debug_area p) g3 (em_tidy _ _ _ _ H3)) as (g4 & E4 & H4);
    [by apply (bool_decide_unpack _)|cbn; lia|].
  pose proof (em_count _ _ _ _ H4) as C4. pose proof (length_when (m_debug p) [(DEBUG_LABEL, debug_at base)]) as W4. cbn [length] in W4.
  destruct (emit_part_spec has_traits (cache_labels base) (replicate (trait_cache_size p) 0) g4 (em_tidy _ _ _ _ H4)) as (g5 & E5 & H5);
    [apply NoDup_cache_labels|rewrite Hcl; lia|].
  exists g5. split.
  - unfold mbind. by rewrite E1, E2, E3, E4, E5.
  - unfold area_labels, area. apply (emits_trans _ _ _ _ _ g1); [|exact H1|]. 2: apply (emits_trans _ _ _ _ _ g2); [|exact H2|].
    3: apply (emits_trans _ _ _ _ _ g3); [|exact H3|apply (emits_trans _ _ _ _ _ g4); [|exact H4|exact H5]].
    all: intros n Hn Hin; rewrite ?map_app in Hin; apply names_when in Hn;
      repeat (apply elem_of_app in Hin as [Hin|Hin]); apply names_when in Hin;
      try (apply cache_label_new in Hin as [Hin _]; apply Hin; revert Hn; unfold fixed_labels; set_solver);
      revert Hin Hn; cbn [map fst slot_labels]; set_solver.
Qed.

Lemma pad_code_spec g :
  tidy g -> exists g' k, pad_code g = (g', Ok tt) /\ Emits [] (replicate k 0) g g' /\ (length (m_code g') mod 8 = 0)%nat /\
    ((length (m_code g) mod 8 = 0)%nat -> k = 0%nat).
Proof.
  intros Ht. set (k := ((8 - length (m_code g) mod 8) mod 8)%nat). eexists _, k. split; [done|]. split; [by apply emits_bytes|].
  cbn [set_code m_code]. rewrite length_app, length_replicate. unfold k.
  pose proof (Nat.mod_upper_bound (length (m_code g)) 8 ltac:(lia)). pose proof (Nat.div_mod (length (m_code g)) 8 ltac:(lia)).
  split; [|intros ->; done]. set (r := (length (m_code g) mod 8)%nat) in *. destruct (decide (r = 0%nat)) as [Hr|Hr].
  - rewrite Hr. change ((8 - 0) mod 8)%nat with 0%nat. by rewrite Nat.add_0_r.
  - rewrite (Nat.mod_small (8 - r)) by lia. replace (length (m_code g) + (8 - r))%nat with ((length (m_code g) / 8 + 1) * 8)%nat by lia.
    apply Nat.Div0.mod_mul.
Qed.

Lemma emit_data_area_spec g :
  tidy g -> Z.of_nat (names_count g + 5 + trait_count p) < 2 ^ 32 -> global_data_size p <> 0%nat ->
  exists g' k, let text := (length (m_code g) + k)%nat in
    emit_data_area p g = (g', Ok (areas_at (base_of text))) /\ (text mod 8 = 0)%nat /\
    Emits (area_labels (base_of text)) (replicate k 0 ++ area (base_of text)) g g'.
Proof.
  intros Ht Hroom Hsize. destruct (pad_code_spec g Ht) as (g1 & k & E1 & H1 & M1 & _).
  destruct (pad_code_spec g1 (em_tidy _ _ _ _ H1)) as (g2 & k2 & E2 & H2 & M2 & K2). rewrite (K2 M1) in H2.
  pose proof (emits_trans [] [] _ _ _ _ _ (fun n _ => not_elem_of_nil n) H1 H2) as H12. cbn [app replicate] in H12. rewrite app_nil_r in H12.
  assert (Etext : length (m_code g2) = (length (m_code g) + k)%nat) by (by rewrite (pp_code _ _ _ _ (em_placed _ _ _ _ H12)), length_app, length_replicate).
  pose proof (em_count _ _ _ _ H12) as Hc. cbn [length] in Hc.
  destruct (emit_parts_spec g2 (base_of (length (m_code g) + k)) (em_tidy _ _ _ _ H2) ltac:(lia)) as (g3 & E3 & H3).
  exists g3, k. cbn zeta. rewrite <- Etext in *. split; [|split; [done|exact (emits_trans [] _ _ _ _ _ _ (fun n Hn => False_ind _ (not_elem_of_nil n Hn)) H12 H3)]].
  unfold emit_data_area. unfold mbind at 1. rewrite E1. rewrite (proj2 (Nat.eqb_neq _ _) Hsize). unfold mbind at 1. rewrite E2.
  unfold mbind at 1, offset_of_code. exact E3.
Qed.

(** *** Where the parts are *)

Lemma slot_in_area base i : (i < global_slots p)%nat -> part_at (area base) (Z.of_nat i * Z.of_nat (variant_size p)) (empty_variant p).
Proof.
  intros Hi. assert (Hs : has_slots = true) by (apply Nat.ltb_lt; lia). unfold area. rewrite Hs. cbn [when].
  apply ElfFacts.part_at_app. unfold slots_area. replace (replicate (global_slots p) (empty_variant p)) with (map (fun _ : unit => empty_variant p) (replicate (global_slots p) tt))
    by (apply (fmap_replicate (fun _ : unit => empty_variant p))).
  apply (ElfFacts.part_at_table (fun _ : unit => empty_variant p) _ _ 0 (replicate (global_slots p) tt) i tt).
  - intros _. by rewrite length_empty_variant.
  - exists [], []. by rewrite app_nil_r.
  - by apply lookup_replicate.
Qed.

Lemma blob_in_area base : (0 < m_instance_count p)%nat -> part_at (area base) (blob_at base - base) (instance_blob p base).
Proof.
  intros Hi. destruct (length_parts base) as (H1 & _). assert (Hs : has_instance = true) by (by apply Nat.ltb_lt).
  eapply (area_part (when has_slots (slots_area p))); [unfold area; rewrite Hs; reflexivity|]. unfold blob_at. lia.
Qed.

Lemma profiling_in_area base : m_profiling p = true -> part_at (area base) (profiling_at base - base) (profiling_area p).
Proof.
  intros Hs. destruct (length_parts base) as (H1 & H2 & _).
  eapply (area_part (when has_slots (slots_area p) ++ when has_instance (instance_blob p base)));
    [unfold area; rewrite Hs, <- app_assoc; reflexivity|]. unfold profiling_at, blob_at. rewrite length_app. lia.
Qed.

Lemma debug_in_area base : m_debug p = true -> part_at (area base) (debug_at base - base) (debug_area p).
Proof.
  intros Hs. destruct (length_parts base) as (H1 & H2 & H3 & _).
  eapply (area_part (when has_slots (slots_area p) ++ when has_instance (instance_blob p base) ++ when (m_profiling p) (profiling_area p)));
    [unfold area; rewrite Hs, <- !app_assoc; reflexivity|]. unfold debug_at, profiling_at, blob_at. rewrite !length_app. lia.
Qed.

Lemma cache_in_area base i : (i < trait_count p)%nat ->
  part_at (area base) (caches_at base - base + Z.of_nat i * Z.of_nat TRAIT_CACHE_AREA_SIZE) (replicate TRAIT_CACHE_AREA_SIZE 0).
Proof.
  intros Hi. destruct (length_parts base) as (H1 & H2 & H3 & H4 & _).
  assert (Hs : has_traits = true) by (apply Nat.ltb_lt; unfold trait_cache_size, TRAIT_CACHE_AREA_SIZE; lia).
  assert (E : replicate (trait_cache_size p) 0 = replicate (i * TRAIT_CACHE_AREA_SIZE) 0 ++ replicate TRAIT_CACHE_AREA_SIZE 0 ++
      replicate ((trait_count p - S i) * TRAIT_CACHE_AREA_SIZE) 0).
  { rewrite <- !replicate_add. f_equal. unfold trait_cache_size. nia. }
  eapply (area_part (when has_slots (slots_area p) ++ when has_instance (instance_blob p base) ++ when (m_profiling p) (profiling_area p) ++
      when (m_debug p) (debug_area p) ++ replicate (i * TRAIT_CACHE_AREA_SIZE) 0));
    [unfold area; rewrite Hs; cbn [when]; rewrite E, <- !app_assoc; reflexivity|].
  unfold caches_at, debug_at, profiling_at, blob_at. rewrite !length_app, length_replicate. lia.
Qed.

(** *** Its labels *)

Lemma area_label_data base n : n ∈ map fst (area_labels base) -> data_label n.
Proof.
  unfold area_labels. rewrite !map_app, !elem_of_app. intros [H|[H|[H|[H|H]]]]; apply names_when in H;
    [left; revert H; unfold fixed_labels; cbn [map fst slot_labels]; set_solver..|]. right. by apply cache_label_new in H as [_ H].
Qed.

Lemma slot_label_in base x : (0 < global_slots p)%nat -> x ∈ slot_labels base -> x ∈ area_labels base.
Proof. intros Hs Hx. unfold area_labels, has_slots. rewrite (proj2 (Nat.ltb_lt _ _) Hs). apply elem_of_app. by left. Qed.

Lemma blob_label_in base : (0 < m_instance_count p)%nat -> (INSTANCE_BLOB_LABEL, blob_at base) ∈ area_labels base.
Proof. intros Hs. unfold area_labels, has_instance. rewrite (proj2 (Nat.ltb_lt _ _) Hs). rewrite !elem_of_app. right. left. by left. Qed.

Lemma profiling_label_in base : m_profiling p = true -> (PROFILING_LABEL, profiling_at base) ∈ area_labels base.
Proof. intros Hs. unfold area_labels. rewrite Hs, !elem_of_app. right. right. left. by left. Qed.

Lemma debug_label_in base : m_debug p = true -> (DEBUG_LABEL, debug_at base) ∈ area_labels base.
Proof. intros Hs. unfold area_labels. rewrite Hs, !elem_of_app. right. right. right. left. by left. Qed.

Lemma cache_label_in base i : (i < trait_count p)%nat ->
  (trait_cache_label i, caches_at base + Z.of_nat i * Z.of_nat TRAIT_CACHE_AREA_SIZE) ∈ area_labels base.
Proof.
  intros Hi. assert (Hs : has_traits = true) by (apply Nat.ltb_lt; unfold trait_cache_size, TRAIT_CACHE_AREA_SIZE; lia).
  unfold area_labels. rewrite Hs, !elem_of_app. do 4 right. unfold when, cache_labels. apply list_elem_of_fmap. exists i. split; [done|].
  apply elem_of_seq. lia.
Qed.

Lemma area_aligned text : (text mod 8 = 0)%nat ->
  Forall (fun address => address mod 8 = 0) [base_of text; blob_at (base_of text); profiling_at (base_of text); debug_at (base_of text); caches_at (base_of text)].
Proof.
  intros _. destruct (ElfFacts.align_page (ElfBuilder.BASE_ADDR + Z.of_nat text)) as [_ Hb]. change (ElfBuilder.align_to 4096 (ElfBuilder.BASE_ADDR + Z.of_nat text)) with (base_of text) in Hb.
  assert (H0 : (8 | base_of text)) by (apply Z.mod_divide in Hb as [q Hb]; [|done]; exists (q * 512); lia).
  assert (H1 : (8 | Z.of_nat (globals_bytes p))).
  { unfold globals_bytes. destruct (_ <? _)%nat; [|by exists 0]. destruct variant_size_pos as [-> | ->]; [exists (3 * Z.of_nat (global_slots p))|exists (5 * Z.of_nat (global_slots p))]; lia. }
  assert (H2 : (8 | Z.of_nat (instance_blob_size p))) by (unfold instance_blob_size; destruct (_ <? _)%nat; [by exists 3|by exists 0]).
  assert (H3 : (8 | Z.of_nat (profiling_size p))).
  { unfold profiling_size. destruct (m_profiling p); [|by exists 0]. exists (5 + Z.of_nat (function_count p) * 4 + 512).
    unfold ProfilingLayout.area_size, ProfilingLayout.shadow_offset, ProfilingLayout.HEADER_SIZE, ProfilingLayout.RECORD_SIZE,
      ProfilingLayout.MAX_DEPTH, ProfilingLayout.FRAME_SIZE. lia. }
  assert (H4 : (8 | Z.of_nat (debug_size p))) by (unfold debug_size; destruct (m_debug p); [by exists 1028|by exists 0]).
  assert (H5 : (8 | blob_at (base_of text))) by (by apply Z.divide_add_r).
  assert (H6 : (8 | profiling_at (base_of text))) by (by apply Z.divide_add_r).
  assert (H7 : (8 | debug_at (base_of text))) by (by apply Z.divide_add_r).
  assert (H8 : (8 | caches_at (base_of text))) by (by apply Z.divide_add_r).
  repeat (constructor; [by apply Z.mod_divide|]). constructor.
Qed.

End Area.

(** Resolving changes neither labels nor the bytes behind the code. *)
Lemma resolved_data p g g1 gp g2 g3 at_ k base :
  emitted g -> relocated g g1 at_ -> closed g -> followed g1 gp -> tidy gp -> (forall n off, data_label n -> ~ names_label gp n off) ->
  Emits (area_labels p base) (replicate k 0 ++ area p base) gp g2 -> resolve_labels g2 = Ok g3 ->
  (exists code, m_code g3 = code ++ area p base /\ length code = (length (m_code gp) + k)%nat) /\
  forall n off, names_label g2 n off -> names_label g3 n off.
Proof.
  intros He Hrl Hend Hfl Ht Hfresh Hem Hres. split.
  - assert (Hfl2 : followed gp g2).
    { eapply placed_followed; [done|exact (em_placed _ _ _ _ Hem)|]. intros n off Hn. exact (Hfresh n off (area_label_data p _ n Hn)). }
    assert (Hfl12 : followed g1 g2).
    { destruct Hfl as [[t1 E1] U1 L1], Hfl2 as [[t2 E2] U2 L2]. constructor; [exists (t1 ++ t2); by rewrite E2, E1, app_assoc|congruence|auto]. }
    destruct (resolve_keeps_tail g g1 at_ g2 g3 He Hrl Hend Hfl12 Hres) as (tail & Et & code & E3 & Elen).
    destruct (fl_code _ _ Hfl) as [t1 E1]. pose proof (pp_code _ _ _ _ (em_placed _ _ _ _ Hem)) as Ec.
    rewrite Et, E1, <- app_assoc in Ec. apply app_inv_head in Ec. exists (code ++ t1 ++ replicate k 0).
    split; [by rewrite E3, Ec, <- !app_assoc|]. rewrite E1, !length_app, length_replicate, Elen. lia.
  - unfold resolve_labels in Hres. apply obind_Ok in Hres as (code' & _ & Hres). injection Hres as <-. intros n off H. exact H.
Qed.

(** A part of the data area: its label is its address, and its bytes are at that
    address once the data area is loaded at [base]. *)
Definition placed_at (g : Gen) (base : Z) (data : list Z) (label : string) (address : Z) (bytes : list Z) : Prop :=
  names_label g label (Z.to_nat (address - 0x10000)) /\ part_at data (address - base) bytes /\ address mod 8 = 0.

(** C38: the addresses in the data area are right.  When emitted and relaxed code gets
    its pools and its data area and is resolved, the data the ELF image loads behind
    the pages of the code holds, at the address of each label and of each symbol the
    host resolves, the part of that name: the empty variants of the globals and
    members, the instance blob, the profiling and debugging areas and the caches of
    the traits.  Every address is a multiple of eight. *)
Theorem data_area_loads p g g1 gp g2 g3 a :
  emitted g -> fits g -> closed g -> relax_branches g = Ok g1 -> followed g1 gp -> tidy gp ->
  Z.of_nat (names_count gp + 5 + trait_count p) < 2 ^ 32 -> (forall n off, data_label n -> ~ names_label gp n off) ->
  global_data_size p <> 0%nat -> emit_data_area p gp = (g2, Ok a) -> resolve_labels g2 = Ok g3 ->
  let G := generated p a g3 in
  let base := ElfBuilder.data_vaddr (ElfFacts.text_size G) in
  let data := ElfFacts.data_of G in
  let vs := Z.of_nat (variant_size p) in
  len data = ElfBuilder.global_data_size G /\ ElfFacts.text_size G mod 8 = 0 /\
  (forall i, (i < global_slots p)%nat ->
    names_label g3 GLOBALS_LABEL (Z.to_nat (m_global_address a - 0x10000)) /\
    names_label g3 INSTANCE_LABEL (Z.to_nat (m_global_address a + Z.of_nat (data_slots p) * vs - 0x10000)) /\
    part_at data (m_global_address a - base + Z.of_nat i * vs) (empty_variant p)) /\
  ((0 < m_instance_count p)%nat -> placed_at g3 base data INSTANCE_BLOB_LABEL (m_instance_blob_address a) (instance_blob p base)) /\
  (m_profiling p = true -> placed_at g3 base data PROFILING_LABEL (m_profiling_address a) (profiling_area p)) /\
  (m_debug p = true -> placed_at g3 base data DEBUG_LABEL (m_debug_address a) (debug_area p)) /\
  (forall i, (i < trait_count p)%nat ->
    placed_at g3 base data (trait_cache_label i) (m_trait_cache_address a + Z.of_nat i * Z.of_nat TRAIT_CACHE_AREA_SIZE)
      (replicate TRAIT_CACHE_AREA_SIZE 0)).
Proof.
  intros He Hf Hend Hrun Hfl Ht Hroom Hfresh Hsize Hemit Hres. destruct (relocation g g1 He Hf Hrun) as (at_ & Hrl).
  destruct (emit_data_area_spec p gp Ht Hroom Hsize) as (g2' & k & E & Hmod & Hem). rewrite Hemit in E. injection E as <- ->.
  set (text := (length (m_code gp) + k)%nat) in *.
  destruct (resolved_data p g g1 gp g2 g3 at_ k _ He Hrl Hend Hfl Ht Hfresh Hem Hres) as [(code & Ec & El) Hn]. fold text in El.
  cbn zeta. pose proof (length_area p (base_of text)) as La.
  assert (Ets : ElfFacts.text_size (generated p (areas_at p (base_of text)) g3) = Z.of_nat text).
  { unfold ElfFacts.text_size. cbn [generated ElfBuilder.code ElfBuilder.global_data_size]. rewrite Ec, length_app. lia. }
  assert (Ed : ElfFacts.data_of (generated p (areas_at p (base_of text)) g3) = area p (base_of text)).
  { unfold ElfFacts.data_of. rewrite Ets, Nat2Z.id. cbn [generated ElfBuilder.code]. by rewrite Ec, <- El, drop_app_length. }
  rewrite Ets, Ed. change (ElfBuilder.data_vaddr (Z.of_nat text)) with (base_of text).
  pose proof (area_aligned p text Hmod) as Hal. rewrite !Forall_cons in Hal. destruct Hal as (A0 & A1 & A2 & A3 & A4 & _).
  pose proof (fun l a H => Hn l _ (em_labels _ _ _ _ Hem l a H)) as Hlab.
  split; [cbn; lia|]. split; [change 8 with (Z.of_nat 8); by rewrite <- Nat2Z.inj_mod, Hmod|].
  cbn [areas_at m_global_address m_instance_blob_address m_profiling_address m_debug_address m_trait_cache_address].
  split_and!.
  - intros i Hi. assert (Hs : has_slots p = true) by (apply Nat.ltb_lt; lia). rewrite Hs.
    split_and!; [apply Hlab, slot_label_in; [lia|by left]|apply Hlab, slot_label_in; [lia|right; by left]|].
    rewrite Z.sub_diag, Z.add_0_l. by apply slot_in_area.
  - intros Hi. assert (Hs : has_instance p = true) by (by apply Nat.ltb_lt). rewrite Hs.
    split; [by apply Hlab, blob_label_in|]. split; [by apply blob_in_area|done].
  - intros Hp. rewrite Hp. split; [by apply Hlab, profiling_label_in|]. split; [by apply profiling_in_area|done].
  - intros Hp. rewrite Hp. split; [by apply Hlab, debug_label_in|]. split; [by apply debug_in_area|done].
  - intros i Hi. assert (Hs : has_traits p = true) by (apply Nat.ltb_lt; unfold trait_cache_size, TRAIT_CACHE_AREA_SIZE; lia). rewrite Hs.
    split; [by apply Hlab, cache_label_in|]. split; [|change (Z.of_nat TRAIT_CACHE_AREA_SIZE) with 1024; apply Z.mod_divide; [done|];
      apply Z.divide_add_r; [by apply Z.mod_divide|exists (Z.of_nat i * 128); lia]].
    replace (caches_at p (base_of text) + Z.of_nat i * Z.of_nat TRAIT_CACHE_AREA_SIZE - base_of text)
      with (caches_at p (base_of text) - base_of text + Z.of_nat i * Z.of_nat TRAIT_CACHE_AREA_SIZE) by lia.
    by apply cache_in_area.
Qed.

(** ** A small program *)

(** One constant of 64 bits, two globals, one member, profiling and a trait. *)
Definition sample_plan : Plan :=
  mkPlan (VariantLayout.mk false) [mkGlobal "a" false false (-1); mkGlobal "hp" false true 2; mkGlobal "b" true false 2]
    true false true 0 true 1 1.

(** The names of [g] are among [names]. *)
Lemma names_of g names n off :
  tidy g -> IRStringTable.m_strings (m_label_names g) = names -> names_label g n off -> n ∈ names.
Proof.
  intros [Hwf _] <- (id & _ & Hid & _). apply Hwf in Hid as [_ Hid]. by eapply list_elem_of_lookup_2.
Qed.

Lemma not_data_label n : n ∈ ["f"; ".LC0"] -> ~ data_label n.
Proof.
  intros Hn [H|(i & ->)]; [|by repeat (apply elem_of_cons in Hn as [Hn|Hn]; [discriminate Hn|]); apply elem_of_nil in Hn].
  revert Hn H. unfold fixed_labels. rewrite !elem_of_cons, !elem_of_nil. intros [->|[->|[]]]; vm_compute; naive_solver.
Qed.

Lemma data_area_loads_witness :
  exists g2 a g3, emit_data_area sample_plan (place_constants (match relax_branches wide_gen with Ok g1 => g1 | Throw _ => wide_gen end)).1 = (g2, Ok a) /\
    resolve_labels g2 = Ok g3 /\
    let data := ElfFacts.data_of (generated sample_plan a g3) in
    let base := ElfBuilder.data_vaddr (ElfFacts.text_size (generated sample_plan a g3)) in
    length data = (4 * 24 + 24 + (40 + 32 + 4096) + (32 + 8192) + 1024)%nat /\
    part_at data (m_global_address a - base + 24) (empty_variant sample_plan) /\
    placed_at g3 base data PROFILING_LABEL (m_profiling_address a)
      (profiling_area sample_plan).
Proof.
  destruct (relax_branches wide_gen) as [g1|e] eqn:E; [|vm_compute in E; discriminate E].
  destruct (relaxed_tidy wide_gen g1 wide_emitted wide_fits E) as [Ht1 _].
  destruct (place_constants_spec g1 Ht1) as (gp & Ep & Htp & Hpp & _ & Hcp); [by vm_compute in E; injection E as <-; vm_compute|].
  rewrite Ep. cbn [fst]. assert (Hg1 : IRStringTable.m_strings (m_label_names g1) = ["f"; ".LC0"]) by (vm_compute in E; by injection E as <-).
  assert (Hgp : IRStringTable.m_strings (m_label_names gp) = ["f"; ".LC0"]).
  { vm_compute in E. injection E as <-. vm_compute in Ep. by injection Ep as <-. }
  assert (Hfl : followed g1 gp).
  { eapply placed_followed; [done|exact Hpp|]. intros name off (i & _ & ->) Hn. destruct Ht1 as [Hwf _].
    destruct Hn as (id & _ & Hid%Hwf & Ho). destruct Hid as [_ Hid]. clear -E Hid Ho. vm_compute in E. injection E as <-.
    unfold label_offset in Ho. cbn [m_label_names m_label_offsets IRStringTable.m_strings] in *.
    destruct (Z.to_nat id) as [|[|n]]; [discriminate Hid|discriminate Ho|discriminate Hid]. }
  assert (Hroom : Z.of_nat (names_count gp + 5 + trait_count sample_plan) < 2 ^ 32) by (unfold names_count; rewrite Hgp; by vm_compute).
  destruct (emit_data_area sample_plan gp) as [g2 [a|e]] eqn:Ea.
  2: { destruct (emit_data_area_spec sample_plan gp Htp Hroom) as (? & ? & Ee & _); [by vm_compute|]. rewrite Ea in Ee. discriminate Ee. }
  destruct (resolve_labels g2) as [g3|e] eqn:E3.
  2: { vm_compute in E. injection E as <-. vm_compute in Ep. injection Ep as <-. vm_compute in Ea. injection Ea as <- <-. vm_compute in E3. discriminate E3. }
  exists g2, a, g3. split; [done|]. split; [done|].
  destruct (data_area_loads sample_plan wide_gen g1 gp g2 g3 a) as (Hl & _ & Hs & _ & Hp & _);
    [exact wide_emitted|exact wide_fits| |exact E|exact Hfl|exact Htp|exact Hroom| |by vm_compute|exact Ea|exact E3|].
  { unfold closed. apply (bool_decide_unpack _). vm_compute. exact I. }
  { intros n off Hd Hn. exact (not_data_label n (names_of gp _ n off Htp Hgp Hn) Hd). }
  split; [apply Nat2Z.inj; rewrite Hl; by vm_compute|]. split; [|exact (Hp eq_refl)].
  destruct (Hs 1%nat) as (_ & _ & H1); [by apply Nat.ltb_lt|]. exact H1.
Defined.

End DataAreaFacts.
