(* ===== verification/TraitConformance.v ===== *)
(** * Conformance to a trait

    Models trait_conformance.h: when a class that says it uses a trait offers what the
    trait declares, which the compiler asks of sources and the host of binaries; and
    whether metadata reaches a trait over its [uses] lists.

    [conformance_sound]: no error means that every method of the trait is there, with
    parameters at least as wide and a result at most as wide.  [metadata_uses_reaches]:
    the search ends and finds exactly what the lists reach. *)

From stdpp Require Import pretty.
From Stdlib Require Import Ascii.
From S2P Require Import Prelude.
From S2P Require Import FunctionSignature.
From S2P Require Import ClassSignature.

Module TraitConformance.
Import FunctionSignature.

(** An empty [std::function] is [None]. *)
Definition TraitNativeSubtype : Type := option (string -> string -> bool).

(** ** Unions *)

Definition blank (c : ascii) : bool := bool_decide (c = " "%char) || bool_decide (c = "009"%char).

Fixpoint skip_blanks (l : list ascii) : list ascii :=
  match l with c :: l' => if blank c then skip_blanks l' else l | [] => [] end.

Definition trim (l : list ascii) : list ascii := rev (skip_blanks (rev (skip_blanks l))).

(** What one part of a union adds. *)
Definition part_members (part : list ascii) : list string :=
  match trim part with
  | [] => []
  | part =>
      if bool_decide (last part = Some "?"%char) then ["null"%string; String.string_of_list_ascii (removelast part)]
      else [String.string_of_list_ascii part]
  end.

(** The parts between the bars outside of brackets. *)
Fixpoint union_parts (l : list ascii) (part : list ascii) (depth : Z) : list (list ascii) :=
  match l with
  | [] => [part]
  | c :: l =>
      let depth := if bool_decide (c = "["%char) then depth + 1 else depth in
      let depth := if bool_decide (c = "]"%char) then depth - 1 else depth in
      if negb (bool_decide (c = "|"%char)) || negb (depth =? 0) then union_parts l (part ++ [c]) depth
      else part :: union_parts l [] depth
  end.

Definition trait_type_members (name : string) : list string :=
  concat (map part_members (union_parts (String.list_ascii_of_string name) [] 0)).

(** ** Types *)

Definition any_type (t : DeclaredType) : bool := String.eqb (dt_name t) EmptyString || String.eqb (dt_name t) "Variant".

Definition has_bracket (name : string) : bool := bool_decide ("["%char ∈ String.list_ascii_of_string name).

Definition object_bit : Z := Z.shiftl 1 24.
Definition nil_bit : Z := 1.

Definition member_accepted (w n : DeclaredType) (native_subtype : TraitNativeSubtype) (member candidate : string) : bool :=
  String.eqb candidate member
  || negb (nominal w) && negb (nominal n) && negb (has_bracket member) && negb (has_bracket candidate)
     && match native_subtype with Some subtype => subtype member candidate | None => false end.

Definition trait_accepts (w n : DeclaredType) (native_subtype : TraitNativeSubtype) : bool :=
  if any_type w then true else
  if any_type n then false else
  if String.eqb (dt_name w) (dt_name n) then true else
  if (mask w =? 0) || (mask n =? 0) || negb (Z.ldiff (mask n) (mask w) =? 0) then false else
  let containers := has_bracket (dt_name w) || has_bracket (dt_name n) in
  if negb containers && negb (nominal w) && negb (nominal n) && (Z.land (Z.lor (mask w) (mask n)) object_bit =? 0) then true else
  let wide := trait_type_members (dt_name w) in
  let narrow := trait_type_members (dt_name n) in
  if (Z.ldiff (mask n) (Z.lor object_bit nil_bit) =? 0) && existsb (String.eqb "Object") wide then true else
  forallb (fun member => existsb (member_accepted w n native_subtype member) wide) narrow.

(** ** Signatures *)

Definition shown_type (t : DeclaredType) : string := if String.eqb (dt_name t) EmptyString then "Variant" else dt_name t.

Definition shown_parameter (p : FunctionParameter) : string := p_name p +:+ ": " +:+ shown_type (declared_type p).

Fixpoint join (sep : string) (l : list string) : string :=
  match l with
  | [] => EmptyString
  | [s] => s
  | s :: l => s +:+ sep +:+ join sep l
  end.

Definition trait_method_signature (trait : string) (s : FunctionSignature) : string :=
  trait +:+ "." +:+ name s +:+ "(" +:+ join ", " (map shown_parameter (parameters s)) +:+ ") -> " +:+ shown_type (declared_return s).

(** The type an old binary gives by number and class name. *)
Definition legacy (id : Z) (class_name : string) : DeclaredType :=
  mkDeclaredType
    (if id <? 0 then "Variant"
     else if negb (String.eqb class_name EmptyString) then class_name
     else if id =? 0 then "void" else if id =? 24 then "Object" else "#" +:+ pretty id)
    (if (0 <=? id) && (id <? 64) then Z.shiftl 1 id else 0)
    (negb (String.eqb class_name EmptyString)).

Definition parameter_type (s : FunctionSignature) (p : FunctionParameter) : DeclaredType :=
  if has_declaration s then declared_type p else legacy (p_type p) (p_class_name p).

Definition result_type (s : FunctionSignature) : DeclaredType :=
  if has_declaration s then declared_return s else legacy (return_type s) (return_class_name s).

(** The loop over the parameters: the first that does not fit. *)
Fixpoint check_parameters (native_subtype : TraitNativeSubtype) (s : FunctionSignature) (l required : list FunctionParameter) : string :=
  match l, required with
  | p :: l, r :: required =>
      let a := parameter_type s p in
      if trait_accepts a (declared_type r) native_subtype then check_parameters native_subtype s l required
      else "parameter '" +:+ p_name r +:+ "' has incompatible type '" +:+ dt_name a +:+ "'; trait declares '" +:+ dt_name (declared_type r) +:+ "'"
  | _, _ => EmptyString
  end.

Definition check_result (native_subtype : TraitNativeSubtype) (s required : FunctionSignature) : string :=
  let wanted := dt_name (declared_return required) in
  let a := result_type s in
  if String.eqb wanted EmptyString then EmptyString
  else if String.eqb (dt_name a) EmptyString || negb (has_declaration s) && (return_type s <? 0)
  then "has an untyped return; trait declares '" +:+ wanted +:+ "'"
  else if negb (trait_accepts (declared_return required) a native_subtype)
  then "returns '" +:+ dt_name a +:+ "'; trait declares '" +:+ wanted +:+ "'"
  else EmptyString.

(** The reason, or the empty string. *)
Definition validate_trait_signature (actual : option FunctionSignature) (required : FunctionSignature)
    (native_subtype : TraitNativeSubtype) : string :=
  match actual with
  | None =>
      if is_abstract required then "does not implement abstract method '" +:+ name required +:+ "()'"
      else "method '" +:+ name required +:+ "' is not available"
  | Some s =>
      if negb (Bool.eqb (is_static s) (is_static required)) then
        if is_static s then "is static; the trait declares an instance method"
        else "is an instance method; the trait declares it static"
      else if negb (length (parameters s) =? length (parameters required))%nat then
        "takes " +:+ pretty (length (parameters s)) +:+ " parameters, trait declares " +:+ pretty (length (parameters required))
      else
        match check_parameters native_subtype s (parameters s) (parameters required) with
        | EmptyString => check_result native_subtype s required
        | error => error
        end
  end.

Definition find_named (functions : list FunctionSignature) (wanted : string) : option FunctionSignature :=
  List.find (fun s => String.eqb (name s) wanted) functions.

Definition conformance_error (functions : list FunctionSignature) (trait : ClassSignature.ClassSignature)
    (native_subtype : TraitNativeSubtype) (required : FunctionSignature) : list string :=
  match validate_trait_signature (find_named functions (name required)) required native_subtype with
  | EmptyString => []
  | error => [trait_method_signature (ClassSignature.name trait) required +:+ ": " +:+ error]
  end.

Definition trait_conformance (functions : list FunctionSignature) (trait : ClassSignature.ClassSignature)
    (native_subtype : TraitNativeSubtype) : list string :=
  if negb (ClassSignature.is_trait trait) then ["'" +:+ ClassSignature.name trait +:+ "' is not a trait"]
  else concat (map (conformance_error functions trait native_subtype) (ClassSignature.trait_methods trait)).

(** ** Hooks the host must offer *)

Definition hook_error (host : ClassSignature.ClassSignature) (native_subtype : TraitNativeSubtype) (hook : FunctionSignature) : list string :=
  if negb (requires_host_hook hook) then [] else
  let label := "Required host hook '" +:+ ClassSignature.name host +:+ "." +:+ name hook +:+ "'" in
  match find_named (ClassSignature.trait_methods host) (name hook) with
  | Some offered =>
      if negb (ClassSignature.is_trait host) then
        [label +:+ " is not supported by this game (the mod may target a newer API or a removed hook)"]
      else if is_static hook || is_abstract hook || is_static offered then
        [label +:+ " requires an instance implementation and an instance host declaration"]
      else
        match validate_trait_signature (Some hook) offered native_subtype with
        | EmptyString => []
        | error => [label +:+ " is incompatible: " +:+ error]
        end
  | None => [label +:+ " is not supported by this game (the mod may target a newer API or a removed hook)"]
  end.

Definition required_host_hooks (functions : list FunctionSignature) (host : ClassSignature.ClassSignature)
    (native_subtype : TraitNativeSubtype) : list string :=
  concat (map (hook_error host native_subtype) functions).

(** ** The traits that metadata reaches *)

(** What [next] pushes; the vector is kept back to front. *)
Definition pushed (classes : list ClassSignature.ClassSignature) (next : string) : list string :=
  rev (concat (map (fun c => if ClassSignature.is_trait c && String.eqb (ClassSignature.name c) next then ClassSignature.uses c else []) classes)).

Fixpoint search (n : nat) (classes : list ClassSignature.ClassSignature) (wanted : string) (pending seen : list string) : outcome bool :=
  match pending with
  | [] => Ok false
  | next :: pending =>
      match n with
      | O => Throw OutOfFuel
      | S n =>
          if String.eqb next wanted then Ok true
          else if existsb (String.eqb next) seen then search n classes wanted pending seen
          else search n classes wanted (pushed classes next ++ pending) (seen ++ [next])
      end
  end.

(** A class pushes its list once at most. *)
Definition search_budget (uses : list string) (classes : list ClassSignature.ClassSignature) : nat :=
  length uses + list_sum (map (fun c => length (ClassSignature.uses c)) classes).

Definition metadata_uses (uses : list string) (classes : list ClassSignature.ClassSignature) (wanted : string) : outcome bool :=
  search (search_budget uses classes) classes wanted (rev uses) [].

End TraitConformance.

Module TraitConformanceFacts.
Import FunctionSignature.
Import TraitConformance.

(** ** Types *)

(** [w] takes what [n] gives: [w] takes everything, or [n] is a type of the same
    name, or one with no kind of value that [w] has not, where every member of
    [n] that is a container with element types is a member of [w] too. *)
Inductive covers (w n : DeclaredType) : Prop :=
  | covers_any : any_type w = true -> covers w n
  | covers_same : dt_name w = dt_name n -> covers w n
  | covers_kinds :
      any_type n = false ->
      (forall kind, Z.testbit (mask n) kind = true -> Z.testbit (mask w) kind = true) ->
      (forall member, member ∈ trait_type_members (dt_name n) -> has_bracket member = true ->
         member ∈ trait_type_members (dt_name w)
         \/ forall kind, Z.testbit (mask n) kind = true -> kind = 0 \/ kind = 24) ->
      covers w n.

Lemma ldiff_zero_subset (a b kind : Z) : Z.ldiff a b = 0 -> Z.testbit a kind = true -> Z.testbit b kind = true.
Proof.
  intros Hd Ha. destruct (decide (0 <= kind)) as [Hk | Hk]; [|by rewrite Z.testbit_neg_r in Ha by lia].
  pose proof (Z.ldiff_spec a b kind) as Hs. rewrite Hd, Z.testbit_0_l, Ha in Hs.
  by destruct (Z.testbit b kind).
Qed.

Lemma object_or_nil (kind : Z) : Z.testbit (Z.lor object_bit nil_bit) kind = true -> kind = 0 \/ kind = 24.
Proof.
  unfold object_bit, nil_bit. rewrite Z.lor_spec, Z.shiftl_1_l, Z.pow2_bits_eqb by lia.
  change (Z.testbit 1 kind) with (Z.testbit (2 ^ 0) kind). rewrite Z.pow2_bits_eqb by lia. rewrite orb_true_iff, !Z.eqb_eq. lia.
Qed.

Lemma In_skip_blanks (l : list ascii) (c : ascii) : In c (skip_blanks l) -> In c l.
Proof. induction l as [|a l IH]; simpl; [done|]. destruct (blank a); simpl; intuition. Qed.

Lemma In_trim (l : list ascii) (c : ascii) : In c (trim l) -> In c l.
Proof.
  unfold trim. rewrite <- in_rev. intros H%In_skip_blanks. rewrite <- in_rev in H. by apply In_skip_blanks.
Qed.

Lemma In_removelast {A} (l : list A) (x : A) : In x (removelast l) -> In x l.
Proof. induction l as [|a l IH]; simpl; [done|]. destruct l; [done|]. simpl in *. intuition. Qed.

Lemma has_bracket_of_list (l : list ascii) : has_bracket (String.string_of_list_ascii l) = true <-> In "["%char l.
Proof. unfold has_bracket. by rewrite String.list_ascii_of_string_of_list_ascii, bool_decide_eq_true, list_elem_of_In. Qed.

Lemma part_members_bracket (part : list ascii) (member : string) :
  In member (part_members part) -> has_bracket member = true -> In "["%char part.
Proof.
  unfold part_members. pose proof (In_trim part "["%char) as Ht. destruct (trim part) as [|a l]; [done|].
  destruct (bool_decide _).
  - intros [<- | [<- | []]]; [done|]. rewrite has_bracket_of_list. intros ?%In_removelast. auto.
  - intros [<- | []]. rewrite has_bracket_of_list. auto.
Qed.

(** The parts are made of characters of the name. *)
Lemma In_union_parts (l : list ascii) : forall (part : list ascii) (depth : Z) (p : list ascii) (c : ascii),
  In p (union_parts l part depth) -> In c p -> In c part \/ In c l.
Proof.
  induction l as [|a l IH]; simpl; intros part depth p c.
  - intros [<- | []]. auto.
  - destruct (negb _ || _).
    + intros H Hc. destruct (IH _ _ _ _ H Hc) as [[? | [-> | []]]%in_app_iff | ?]; auto.
    + intros [<- | H] Hc; [auto|]. destruct (IH _ _ _ _ H Hc) as [[] | ?]. auto.
Qed.

Lemma members_bracket (type member : string) :
  In member (trait_type_members type) -> has_bracket member = true -> has_bracket type = true.
Proof.
  unfold trait_type_members. rewrite in_concat. intros (ms & (part & <- & Hp)%in_map_iff & Hm) Hb.
  pose proof (part_members_bracket _ _ Hm Hb) as Hc. destruct (In_union_parts _ _ _ _ _ Hp Hc) as [[] | H].
  unfold has_bracket. by rewrite bool_decide_eq_true, list_elem_of_In.
Qed.

(** A member with element types is accepted only as itself. *)
Lemma accepted_container (w n : DeclaredType) (subtype : TraitNativeSubtype) (member candidate : string) :
  member_accepted w n subtype member candidate = true -> has_bracket member = true -> candidate = member.
Proof.
  unfold member_accepted. intros H Hb. rewrite Hb, andb_false_r, orb_false_r in H; simpl in H.
  by apply String.eqb_eq.
Qed.

Lemma trait_accepts_covers (w n : DeclaredType) (subtype : TraitNativeSubtype) :
  trait_accepts w n subtype = true -> covers w n.
Proof.
  unfold trait_accepts. destruct (any_type w) eqn:Ew; [by intros _; apply covers_any|]. destruct (any_type n) eqn:En; [done|].
  destruct (String.eqb_spec (dt_name w) (dt_name n)) as [Heq | _]; [by intros _; apply covers_same|].
  destruct (Z.eqb_spec (Z.ldiff (mask n) (mask w)) 0) as [Hd|]; [|by rewrite orb_true_r].
  destruct (_ || _); [done|]. intros H.
  apply covers_kinds; [done|by intros; eapply ldiff_zero_subset|].
  intros member Hm%list_elem_of_In Hb. rewrite (members_bracket _ _ Hm Hb), orb_true_r in H; simpl in H.
  destruct (Z.eqb_spec (Z.ldiff (mask n) (Z.lor object_bit nil_bit)) 0) as [Ho | _].
  { right. intros kind Hk. by eapply object_or_nil, ldiff_zero_subset. }
  simpl in H. rewrite List.forallb_forall in H. specialize (H _ Hm).
  apply existsb_exists in H as (candidate & Hc & Ha). rewrite (accepted_container _ _ _ _ _ Ha Hb) in Hc.
  left. by apply list_elem_of_In.
Qed.

(** ** Signatures *)

(** [s] may stand for [required]. *)
Record stands_for (subtype : TraitNativeSubtype) (s required : FunctionSignature) : Prop := {
  same_static : is_static s = is_static required;
  parameters_accepted : Forall2 (fun p r => trait_accepts (parameter_type s p) (declared_type r) subtype = true)
                          (parameters s) (parameters required);
  result_accepted : dt_name (declared_return required) <> EmptyString ->
    dt_name (result_type s) <> EmptyString /\ (has_declaration s = true \/ 0 <= return_type s)
    /\ trait_accepts (declared_return required) (result_type s) subtype = true
}.

Lemma check_parameters_exact (subtype : TraitNativeSubtype) (s : FunctionSignature) (l required : list FunctionParameter) :
  length l = length required ->
  check_parameters subtype s l required = EmptyString
  <-> Forall2 (fun p r => trait_accepts (parameter_type s p) (declared_type r) subtype = true) l required.
Proof.
  revert required. induction l as [|p l IH]; intros [|r required]; try done; simpl; intros Hl.
  rewrite Forall2_cons. rewrite <- IH by lia. destruct (trait_accepts _ _ _); [intuition|]. by split; [|intros []].
Qed.

Lemma check_result_exact (subtype : TraitNativeSubtype) (s required : FunctionSignature) :
  check_result subtype s required = EmptyString
  <-> (dt_name (declared_return required) <> EmptyString ->
       dt_name (result_type s) <> EmptyString /\ (has_declaration s = true \/ 0 <= return_type s)
       /\ trait_accepts (declared_return required) (result_type s) subtype = true).
Proof.
  unfold check_result. destruct (String.eqb_spec (dt_name (declared_return required)) EmptyString) as [|Hr]; [done|].
  destruct (String.eqb_spec (dt_name (result_type s)) EmptyString) as [|Hs]; simpl.
  { split; [done|]. intros H. by destruct (H Hr). }
  destruct (has_declaration s); simpl.
  - destruct (trait_accepts _ _ _); simpl; [by intuition|]. split; [done|]. intros H. by destruct (H Hr) as (_ & _ & ?).
  - destruct (Z.ltb_spec (return_type s) 0).
    + split; [done|]. intros H'. destruct (H' Hr) as (_ & [? | ?] & _); [done|lia].
    + destruct (trait_accepts _ _ _); simpl; [by intuition|]. split; [done|]. intros H'. by destruct (H' Hr) as (_ & _ & ?).
Qed.

Lemma validate_exact (subtype : TraitNativeSubtype) (actual : option FunctionSignature) (required : FunctionSignature) :
  validate_trait_signature actual required subtype = EmptyString
  <-> exists s, actual = Some s /\ stands_for subtype s required.
Proof.
  destruct actual as [s|]; simpl; [|destruct (is_abstract required); by split; [|intros (? & ? & _)]].
  destruct (Bool.eqb (is_static s) (is_static required)) eqn:Es; simpl.
  2:{ split; [by destruct (is_static s)|]. intros (? & [= <-] & [H _ _]). by rewrite H, eqb_reflx in Es. }
  apply eqb_prop in Es. destruct (Nat.eqb_spec (length (parameters s)) (length (parameters required))) as [Hl | Hl]; simpl.
  2:{ split; [done|]. intros (? & [= <-] & [_ H _]). by apply Forall2_length in H. }
  pose proof (check_parameters_exact subtype s _ _ Hl) as Hp.
  pose proof (check_result_exact subtype s required) as Hr.
  destruct (check_parameters _ _ _ _) eqn:Ep.
  - rewrite Hr. split; [intros H; exists s; split; [done|split; [done|by apply Hp|done]]|].
    by intros (? & [= <-] & [_ _ H]).
  - split; [done|]. intros (? & [= <-] & [_ H _]). apply Hp in H. done.
Qed.

Lemma conformance_exact (functions : list FunctionSignature) (trait : ClassSignature.ClassSignature) (subtype : TraitNativeSubtype) :
  trait_conformance functions trait subtype = []
  <-> ClassSignature.is_trait trait = true
      /\ Forall (fun required => exists s, find_named functions (name required) = Some s /\ stands_for subtype s required)
           (ClassSignature.trait_methods trait).
Proof.
  unfold trait_conformance. destruct (ClassSignature.is_trait trait); simpl; [|by split; [|intros []]].
  induction (ClassSignature.trait_methods trait) as [|required l IH]; simpl; [split; auto|].
  rewrite Forall_cons, <- validate_exact. unfold conformance_error at 1.
  destruct (validate_trait_signature _ _ _); simpl; [rewrite IH; intuition|]. split; [done|]. by intros (_ & ? & _).
Qed.

(** A class a call site only knows as the trait can be called as the trait says:
    the parameters take what the trait's take, and the result is one the trait
    promises. *)
Record substitutable (s required : FunctionSignature) : Prop := {
  called_alike : is_static s = is_static required;
  takes_arguments : Forall2 (fun p r => covers (parameter_type s p) (declared_type r)) (parameters s) (parameters required);
  gives_result : dt_name (declared_return required) = EmptyString \/ covers (declared_return required) (result_type s)
}.

Lemma stands_for_substitutable (subtype : TraitNativeSubtype) (s required : FunctionSignature) :
  stands_for subtype s required -> substitutable s required.
Proof.
  intros [Hs Hp Hr]. split; [done| |].
  - eapply Forall2_impl; [exact Hp|]. intros ? ?. apply trait_accepts_covers.
  - destruct (decide (dt_name (declared_return required) = EmptyString)) as [|Hn]; [by left|].
    right. destruct (Hr Hn) as (_ & _ & H). by eapply trait_accepts_covers.
Qed.

(** ** The search *)

(** The trait [a] lists [b]. *)
Definition lists (classes : list ClassSignature.ClassSignature) (a b : string) : Prop :=
  exists c, c ∈ classes /\ ClassSignature.is_trait c = true /\ ClassSignature.name c = a /\ b ∈ ClassSignature.uses c.

Lemma pushed_spec (classes : list ClassSignature.ClassSignature) (a b : string) : In b (pushed classes a) <-> lists classes a b.
Proof.
  unfold pushed, lists. rewrite <- in_rev, in_concat. split.
  - intros (l & (c & <- & Hc)%in_map_iff & Hb). destruct (ClassSignature.is_trait c) eqn:Et; [|done].
    destruct (String.eqb_spec (ClassSignature.name c) a); [|done]. exists c. by rewrite !list_elem_of_In.
  - intros (c & Hc & Ht & <- & Hb). exists (ClassSignature.uses c). rewrite in_map_iff. split; [|by apply list_elem_of_In].
    exists c. by rewrite Ht, String.eqb_refl, <- list_elem_of_In.
Qed.

(** The names that the traits not yet seen can still push. *)
Definition unseen (classes : list ClassSignature.ClassSignature) (seen : list string) : nat :=
  list_sum (map (fun c => if ClassSignature.is_trait c && negb (existsb (String.eqb (ClassSignature.name c)) seen)
                          then length (ClassSignature.uses c) else 0%nat) classes).

Lemma unseen_step (classes : list ClassSignature.ClassSignature) (seen : list string) (next : string) :
  existsb (String.eqb next) seen = false ->
  (length (pushed classes next) + unseen classes (seen ++ [next]) = unseen classes seen)%nat.
Proof.
  intros Hn. unfold pushed, unseen. rewrite length_rev. induction classes as [|c l IH]; simpl; [done|].
  rewrite length_app. destruct (ClassSignature.is_trait c); simpl; [|lia]. rewrite existsb_app. simpl.
  destruct (String.eqb_spec (ClassSignature.name c) next) as [-> | Hne]; simpl.
  - rewrite Hn. simpl. lia.
  - rewrite !orb_false_r. lia.
Qed.

Lemma unseen_nil (classes : list ClassSignature.ClassSignature) :
  (unseen classes [] <= list_sum (map (fun c => length (ClassSignature.uses c)) classes))%nat.
Proof. unfold unseen. induction classes as [|c l IH]; simpl; [done|]. simpl in IH. destruct (ClassSignature.is_trait c); simpl; lia. Qed.

Section Search.
Context (classes : list ClassSignature.ClassSignature) (wanted : string) (start : string -> Prop).

Abbreviation reached a := (exists u, start u /\ rtc (lists classes) u a).

(** What lists that stay among other names lead to. *)
Lemma closed_misses (seen : list string) :
  (forall u, start u -> In u seen) ->
  (forall a, In a seen -> a <> wanted /\ forall b, lists classes a b -> In b seen) ->
  ~ reached wanted.
Proof.
  intros Hu Hs (u & Hstart & Hr).
  assert (Hc : forall a c, rtc (lists classes) a c -> In a seen -> In c seen).
  { induction 1 as [|a b c Hab _ IHr]; [done|]. intros Ha. apply IHr. by apply (proj2 (Hs a Ha)). }
  by destruct (Hs _ (Hc _ _ Hr (Hu u Hstart))).
Qed.

Lemma search_reaches (n : nat) : forall (pending seen : list string),
  (length pending + unseen classes seen <= n)%nat ->
  (forall a, In a pending -> reached a) ->
  (forall u, start u -> In u pending \/ In u seen) ->
  (forall a, In a seen -> a <> wanted /\ forall b, lists classes a b -> In b pending \/ In b seen) ->
  exists b, search n classes wanted pending seen = Ok b /\ (b = true <-> reached wanted).
Proof.
  induction n as [|n IH]; intros [|next pending] seen Hm Hp Hu Hs; simpl; try (simpl in Hm; lia).
  1,2: exists false; split; [done|]; split; [done|]; intros Hr; destruct (closed_misses seen); naive_solver.
  destruct (String.eqb_spec next wanted) as [-> | Hne].
  { exists true. split; [done|]. split; [|done]. intros _. apply Hp. by left. }
  destruct (existsb (String.eqb next) seen) eqn:Hseen.
  - assert (Hin : In next seen).
    { apply existsb_exists in Hseen as (y & Hy & ->%String.eqb_eq). done. }
    apply IH.
    + simpl in Hm. lia.
    + intros a Ha. apply Hp. by right.
    + intros u [[<- | ?] | ?]%Hu; auto.
    + intros a Ha. destruct (Hs a Ha) as [? Hb]. split; [done|]. intros b [[<- | ?] | ?]%Hb; auto.
  - apply IH.
    + rewrite length_app. pose proof (unseen_step classes seen next Hseen). simpl in Hm. lia.
    + intros a [Ha%pushed_spec | Ha]%in_app_iff; [|apply Hp; by right].
      destruct (Hp next (or_introl eq_refl)) as (u & Hstart & Hr). exists u. split; [done|]. by eapply rtc_r.
    + intros u Hstart. rewrite !in_app_iff; simpl. destruct (Hu u Hstart) as [[<- | ?] | ?]; auto.
    + intros a [Ha | [<- | []]]%in_app_iff.
      * destruct (Hs a Ha) as [? Hb]. split; [done|]. intros b Hab. rewrite !in_app_iff; simpl.
        destruct (Hb b Hab) as [[<- | ?] | ?]; auto.
      * split; [done|]. intros b Hab%pushed_spec. rewrite !in_app_iff. auto.
Qed.

End Search.

(** C31: [metadata_uses] ends, whatever cycles the lists have, and says yes exactly
    for the names that a list of [uses] leads to through the lists of the traits of
    the metadata. *)
Theorem metadata_uses_reaches (uses : list string) (classes : list ClassSignature.ClassSignature) (wanted : string) :
  exists b, metadata_uses uses classes wanted = Ok b
  /\ (b = true <-> exists u, u ∈ uses /\ rtc (lists classes) u wanted).
Proof.
  apply (search_reaches classes wanted (fun u => u ∈ uses)).
  - rewrite length_rev. unfold search_budget. pose proof (unseen_nil classes). lia.
  - intros a Ha%in_rev. exists a. split; [by apply list_elem_of_In|done].
  - intros u Hu%list_elem_of_In. left. by rewrite <- in_rev.
  - done.
Qed.

(** C30: No error of [trait_conformance] means that the class can stand for the
    trait: every method of the trait is the first of its name in the class, static
    or not alike, with as many parameters, each of which covers the trait's, and
    with a result the trait's result covers.  Covering keeps the kinds of value and
    never erases the element types of a container. *)
Theorem conformance_sound (functions : list FunctionSignature) (trait : ClassSignature.ClassSignature)
    (subtype : TraitNativeSubtype) (required : FunctionSignature) :
  trait_conformance functions trait subtype = [] ->
  required ∈ ClassSignature.trait_methods trait ->
  exists s, find_named functions (name required) = Some s /\ substitutable s required.
Proof.
  intros [_ H]%conformance_exact Hin. rewrite Forall_forall in H.
  destruct (H _ Hin) as (s & Hs & Hf). exists s. split; [done|]. by eapply stands_for_substitutable.
Qed.

(** *** A witness *)

(** [func hit(amount: int | Node2D) -> float | Array[int]] *)
Definition hit (amount result : DeclaredType) : FunctionSignature :=
  mkSignature result true false false "hit" [mkParameter amount "amount" 2 "" NONE (CInt 0) ""] (-1) "" 1 1 "" false false.

Definition hittable : ClassSignature.ClassSignature :=
  ClassSignature.mkClass "Hittable" "" "" "" [] [] 1 false "" true []
    [hit (mkDeclaredType "int | Node2D" (Z.lor (2 ^ 24) 4) false) (mkDeclaredType "float | Array[int]" (Z.lor 8 (2 ^ 28)) false)] [] [] [].

Lemma conformance_sound_witness :
  let required := hit (mkDeclaredType "int | Node2D" (Z.lor (2 ^ 24) 4) false) (mkDeclaredType "float | Array[int]" (Z.lor 8 (2 ^ 28)) false) in
  let offered := hit (mkDeclaredType "int | Object" (Z.lor (2 ^ 24) 4) false) (mkDeclaredType "Array[int]" (2 ^ 28) false) in
  exists s, find_named [offered] (name required) = Some s /\ substitutable s required.
Proof.
  intros required offered.
  apply (conformance_sound [offered] hittable (Some (fun member candidate => String.eqb member "Node2D" && String.eqb candidate "Object"))).
  - by vm_compute.
  - by left.
Defined.

(** Without the engine's table the same class is refused, and an array of another
    element type always is. *)
Example conformance_refuses :
  trait_accepts (mkDeclaredType "int | Object" (Z.lor (2 ^ 24) 4) false) (mkDeclaredType "int | Node2D" (Z.lor (2 ^ 24) 4) false) None = false
  /\ trait_accepts (mkDeclaredType "Array[float]" (2 ^ 28) false) (mkDeclaredType "Array[int]" (2 ^ 28) false) (Some (fun _ _ => true)) = false.
Proof. by vm_compute. Qed.

End TraitConformanceFacts.
